(* ===== verification/_CoqProject ===== *)
-Q . S2P
Prelude.v
Mem.v
Scan.v
Copy.v
Memset.v
StrCopy.v
Digest.v
Md5.v
Sha2.v
Sha256.v
Sha512.v
CStr.v
Intscan.v
CryptHash.v
CryptSha.v
Calendar.v
Utf8.v
DesTables.v
Des.v
CryptDes.v
AvlTree.v
Avl.v
AvlRefine.v
TSearch.v
Dns.v
Threads.v
Lock.v
Sem.v
Rwlock.v
Smooth.v
Qsort.v
QsortBits.v
QsortCycle.v
QsortCorrect.v
TwoWay.v
Strstr.v
TwoWayCode.v
Occurs.v
Memmem.v
StrstrCorrect.v
Wcsstr.v
Hsearch.v
WctypeTables.v
Wctype.v
Fnmatch.v
FnmatchLex.v
FnmatchBracket.v
FnmatchGlob.v
FnmatchText.v
FnmatchLoops.v
FnmatchTheorems.v
Links.v
Malloc.v
MallocChunks.v
MallocInv.v
MallocBins.v
MallocHeap.v
MallocFree.v
MallocTrim.v
MallocPretrim.v
MallocGrow.v
MallocBlocks.v
MallocCorrect.v
MallocRealloc.v
MallocMemalign.v
MallocKernel.v
MallocView.v
MallocWords.v
MallocClient.v
MallocTheorems.v
Fp.v
FpTheorems.v
