(* ===== verification/Prelude.v ===== *)
(** * A verification development for musl 1.1.19 as zligc vendors it

    The repository is a C standard library: a handful of Zig files in src/src
    and, under src/musl-1.1.19, the musl C library they replace piece by piece.
    This development models parts of the C library that are pure computation on
    memory, strings, numbers, messages and trees, and proves what they do.
    Paths below are relative to src/musl-1.1.19/src.

    ** How the code is modelled

    - Integers are [Z], with the conversions of C written out ([u8] ... [s64]
      in this file); [int] is 32 bits wide, [long], [size_t] and pointers 64.
      Arithmetic that C leaves undefined on overflow is exact, and the
      theorems that depend on it say in which range they hold.
    - Code that works on pointers runs in one of three models: a byte-addressed
      memory with a monad that fails on any access to an address that is not
      mapped (Mem.v; used by the string and memory functions), a heap of
      nodes (Avl.v), or, for code that only reads one buffer, the list of the
      bytes and offsets or suffixes (Dns.v, Intscan.v, Utf8.v, Fnmatch.v).  An outer [None]
      always stands for an access outside the object or for exhausted fuel,
      and the theorems prove that it does not happen.
    - Loops that are not structural take fuel.  Over the byte memory it is one
      parameter (class [Fuel]) and every theorem says how much is enough;
      elsewhere it is computed from the arguments inside the modelled function
      (a length, a count, the number of nodes of the heap, the word size), so
      that the theorems are about the function as called.
    - The allocator runs as in a program with one thread, where its locks do
      nothing.  What it asks of the kernel (brk, mmap, mremap) is a parameter, the
      class [Kernel]; [KernelLaws] says that new mappings lie where nothing was
      mapped, are aligned to pages and below 2^62, and that a mapping can be made
      smaller.  [munmap] unmaps, and [madvise] makes the words zero.  A fuel of 2
      is enough for all its loops, which are retries for other threads; that of
      [calloc] takes one more than the words it clears.
    - State that C keeps in structures passed by pointer (hash contexts,
      conversion states, parser handles) is passed and returned explicitly.

    ** The files, what they model and what their theorems show

    - Mem.v: the memory, its monad and a weakest-precondition calculus for it.
    - Scan.v: string/strlen.c, memchr.c, memrchr.c, strchrnul.c, strchr.c,
      strrchr.c, strnlen.c and others, with the word-at-a-time loops and
      their bit trick.  Results equal the specification, and every word read
      is one that holds a byte the function may read.
    - Copy.v: string/memcpy.c with its shifted-word loops, memmove.c.  The
      destination gets the bytes of the source, overlap included for
      [memmove], and no other byte changes.
    - Memset.v: string/memset.c, memcmp.c.
    - StrCopy.v: string/strcpy.c, stpcpy.c, strncpy.c, stpncpy.c, strlcpy.c,
      strcat.c, strncat.c, strlcat.c, memccpy.c: contents, results, truncation
      and padding; [memccpy] includes a bug (below).
    - CStr.v: C strings as lists, string/strcmp.c, strncmp.c, two tests of ctype.
    - Intscan.v: internal/intscan.c, internal/shgetc.h, stdlib/strtol.c.  The
      [strtol] family against ISO C: prefixes, bases, saturation, errors.
    - Digest.v: the buffering that the hash functions share, once and for all,
      as interfaces: [Hash]/[HashLaws] on one side, [StreamOps]/[StreamSpec] on
      the other (a hash context that was fed pieces of a message gives the
      digest of their concatenation).
    - Md5.v, Sha2.v, Sha256.v, Sha512.v: crypt/crypt_md5.c, crypt_sha256.c,
      crypt_sha512.c up to the [_update] functions, against RFC 1321 and FIPS
      180-4, whose constants are computed from their definitions.
    - CryptHash.v, CryptSha.v: the password hashes of the same files, against
      specifications in terms of the digests, through [StreamSpec] alone.
    - DesTables.v, Des.v, CryptDes.v: crypt/crypt_des.c, crypt/encrypt.c against
      FIPS 46-3 and the definition of traditional and extended [crypt].
    - Calendar.v: time/__secs_to_tm.c, __tm_to_secs.c, __year_to_secs.c,
      __month_to_secs.c, gmtime_r.c, timegm.c against the proleptic Gregorian
      calendar, over the whole range of the types.
    - Utf8.v: multibyte/internal.c, mbrtowc.c, wcrtomb.c, mbtowc.c, btowc.c,
      wctob.c, c16rtomb.c, mbrtoc16.c against the definition of UTF-8.
    - AvlTree.v, Avl.v, AvlRefine.v, TSearch.v: search/tsearch_avl.c and
      tdestroy.c.  Trees as data with their invariant; the code over a heap;
      the refinement; the theorems of the library functions.
    - Hsearch.v: search/hsearch.c.  Triangular probing reaches every place; any
      history of operations is one of a finite map.
    - Dns.v: network/dn_expand.c, dn_skipname.c, ns_parse.c, dns_parse.c.  Name
      decompression against RFC 1035 (of which the code accepts more), a round trip for messages, the
      invariant of the parser's handle on arbitrary bytes.
    - Lock.v: thread/__lock.c, the lock that the library uses internally, as a
      transition system of any number of threads over atomic accesses:
      mutual exclusion, and no wake-up is lost.  Sem.v: thread/sem_timedwait.c,
      sem_trywait.c, sem_post.c; tokens are kept, but a wake-up can be lost.
      Rwlock.v: thread/pthread_rwlock_*.c; readers and writers exclude each other,
      and no wake-up is lost.  Threads.v: counting threads, which the three share.
    - Smooth.v, Qsort.v, QsortBits.v, QsortCycle.v, QsortCorrect.v:
      stdlib/qsort.c, bsearch.c and the bit scan of internal/atomic.h.  The
      mathematics of smoothsort; the code over the memory; its bit vectors; its
      rotation; the theorems of the two functions.

    - TwoWay.v, Strstr.v, TwoWayCode.v, Occurs.v, Memmem.v, StrstrCorrect.v,
      Wcsstr.v: string/memmem.c, strstr.c, wcsstr.c with wcslen.c, wcschr.c,
      wmemchr.c and wmemcmp.c.  The mathematics of critical places; the code;
      the code the three searches share; substrings of lists and the shift
      table; one file of theorems per function.  Each equals the naive search.

    - Malloc.v: the allocator, malloc/malloc.c, expand_heap.c, calloc.c, memalign.c,
      malloc_usable_size.c, over a memory of 8-byte words that holds its static
      objects, its chunks and its bins, as in the code.  The heap is described as a
      map of chunks (MallocChunks.v), doubly linked rings (Links.v) and mapped blocks;
      MallocInv.v has the invariant that ties them to the words of the memory, and
      what an operation must leave alone.  One file for each layer of the code:
      bins (MallocBins.v), joining and cutting of chunks (MallocHeap.v), [free]
      (MallocFree.v, MallocTrim.v), [pretrim] (MallocPretrim.v), [expand_heap]
      (MallocGrow.v), blocks and their words (MallocBlocks.v), [malloc] and [calloc]
      (MallocCorrect.v), [realloc] (MallocRealloc.v), [__memalign] (MallocMemalign.v).
      MallocView.v is the view of a client: the blocks in use and the rest of memory;
      MallocClient.v an abstract allocator and the proof that this one implements it
      for any program; MallocWords.v that memory stays one of words below 2^64, which
      [realloc] needs to copy them; MallocKernel.v a kernel that satisfies what is
      assumed of it; MallocTheorems.v the theorems.

    - WctypeTables.v, Wctype.v: ctype/*.c, the classes of bytes and wide characters with
      their tables, case maps and widths.  The byte classes against their members,
      [iswprint] against its comment, tables never read outside, and [wcwidth] with a bug.
    - Fnmatch.v: regex/fnmatch.c; FnmatchLex.v: characters and codes; FnmatchBracket.v:
      bracket expressions, what they match and that they are never left;
      FnmatchGlob.v: what a pattern means, and that components between stars can be
      taken at their first place; FnmatchText.v, FnmatchLoops.v: the loops of the code;
      FnmatchTheorems.v: [fnmatch] accepts what the pattern means, under all flags, and
      the patterns on which it does not return.

    - Fp.v, FpTheorems.v: math/fmod.c, trunc.c, nextafter.c, ilogb.c and the versions for
      [float], on the bits of the numbers, with the format as a class.  [fmod] is the exact
      remainder, [nextafter] the next number, [trunc] the integer part, [ilogb] the
      binary logarithm.

    The components meet where the code makes them meet: the password hashes run
    on the digests through the [StreamSpec] class and parse their settings with
    [strtoul] of Intscan.v; the time functions share the year and month
    arithmetic; the string searches call [memchr], [strchr] and [memcmp] of Scan.v
    and Memset.v; the UTF-16 functions call the UTF-8 ones; the message parser
    calls [dn_skipname] and [dn_expand]; [fnmatch] reads characters with [mbtowc] of Utf8.v
    and asks Wctype.v for their classes and case.

    ** Bugs found

    Eleven places where the code does not do what it means to, each with the
    theorem, lemma or assumption that shows it: [memccpy] (StrCopy.memccpy_correct), the
    byte count of [mbrtowc] (Utf8.mbrtowc_count_truncated), the bounds checks
    of [__dns_parse] (Dns.dns_parse_correct), the loop of [dn_skipname]
    (Dns.dn_skipname_correct), [pntz] of qsort.c (QsortBits.pntz_64), the
    result of [wmemcmp] (Wcsstr.wmemcmp_wraps), [sem_post], which can lose a wake-up
    (Sem.sem_wakeup_lost), the width of the characters of most planes
    (Wctype.wcwidth_planes), [fnmatch] on patterns that are not text
    (FnmatchTheorems.fnmatch_hangs) and on ranges up to a character of several bytes
    (FnmatchBracket.multibyte_range), and [realloc] of a mapped block to
    a smaller size, which copies the whole old block into the smaller new one
    should [mremap] fail: the law [mremap_shrink] of MallocGrow.v is needed for this.

    ** Not modelled

    The system-call wrappers, the loader and the start-up code (their effect is
    the kernel's), the mathematical functions that compute in floating point, the tables and
    converters of iconv and the locale files, stdio and printf/scanf beyond the
    helpers that crypt and strtol use, the locks of malloc with more than one thread
    and its small variant for static programs (what [malloc] returns is a parameter
    of the search trees and hash tables), the regular expression compiler, the thread
    functions other than the internal lock, semaphores and read-write locks, signals, the
    bcrypt password hash, the headers and the Zig files. *)
From Stdlib Require Export ZArith Lia Bool.
From stdpp Require Export base gmap sets list numbers.

#[global] Open Scope Z_scope.

(** ** Machine integers

    An unsigned [w]-bit object holds a [Z] in [0, 2^w); a signed one a [Z]
    in [-2^(w-1), 2^(w-1)).  [uN]/[sN] are the conversions C performs when
    a value is assigned to such an object (modular for unsigned types,
    two's complement for signed ones). *)
Definition u8 (z : Z) : Z := z mod 2 ^ 8.
Definition u16 (z : Z) : Z := z mod 2 ^ 16.
Definition u32 (z : Z) : Z := z mod 2 ^ 32.
Definition u64 (z : Z) : Z := z mod 2 ^ 64.
Definition s8 (z : Z) : Z := (z + 2 ^ 7) mod 2 ^ 8 - 2 ^ 7.
Definition s16 (z : Z) : Z := (z + 2 ^ 15) mod 2 ^ 16 - 2 ^ 15.
Definition s32 (z : Z) : Z := (z + 2 ^ 31) mod 2 ^ 32 - 2 ^ 31.
Definition s64 (z : Z) : Z := (z + 2 ^ 63) mod 2 ^ 64 - 2 ^ 63.

Definition INT_MAX : Z := 2147483647.
Definition INT_MIN : Z := -2147483648.
Definition UINT_MAX : Z := 4294967295.
Definition LLONG_MAX : Z := 9223372036854775807.
Definition LLONG_MIN : Z := -9223372036854775808.
Definition ULLONG_MAX : Z := 18446744073709551615.

(** C truth values, and C's truncating division. *)
Definition b2z (b : bool) : Z := if b then 1 else 0.

Declare Scope c_scope.
Delimit Scope c_scope with c.
Notation "a & b" := (Z.land a b) (at level 52, left associativity) : c_scope.
Notation "a ^^ b" := (Z.lxor a b) (at level 53, left associativity) : c_scope.
Notation "a .| b" := (Z.lor a b) (at level 54, left associativity) : c_scope.
Notation "a << b" := (Z.shiftl a b) (at level 51, left associativity) : c_scope.
Notation "a >> b" := (Z.shiftr a b) (at level 51, left associativity) : c_scope.
Notation "a /c b" := (Z.quot a b) (at level 40, left associativity) : c_scope.
Notation "a %c b" := (Z.rem a b) (at level 40, left associativity) : c_scope.

Create HintDb musl.
Create Rewrite HintDb musl.

(** Linear arithmetic with [/] and [mod] by constants. *)
Ltac mlia := Z.div_mod_to_equations; lia.

Lemma u8_range z : 0 <= u8 z < 256.
Proof. apply Z.mod_pos_bound. lia. Qed.

Lemma u16_range z : 0 <= u16 z < 2 ^ 16.
Proof. apply Z.mod_pos_bound. lia. Qed.

Lemma u32_range z : 0 <= u32 z < 2 ^ 32.
Proof. apply Z.mod_pos_bound. lia. Qed.

Lemma u64_range z : 0 <= u64 z < 2 ^ 64.
Proof. apply Z.mod_pos_bound. lia. Qed.

Lemma u8_id z : 0 <= z < 256 -> u8 z = z.
Proof. apply Z.mod_small. Qed.

Lemma u16_id z : 0 <= z < 2 ^ 16 -> u16 z = z.
Proof. apply Z.mod_small. Qed.

Lemma u32_id z : 0 <= z < 2 ^ 32 -> u32 z = z.
Proof. apply Z.mod_small. Qed.

Lemma u64_id z : 0 <= z < 2 ^ 64 -> u64 z = z.
Proof. apply Z.mod_small. Qed.

Lemma s32_range z : - 2 ^ 31 <= s32 z < 2 ^ 31.
Proof. unfold s32. pose proof (Z.mod_pos_bound (z + 2 ^ 31) (2 ^ 32)). lia. Qed.

Lemma s64_range z : - 2 ^ 63 <= s64 z < 2 ^ 63.
Proof. unfold s64. pose proof (Z.mod_pos_bound (z + 2 ^ 63) (2 ^ 64)). lia. Qed.

Lemma s32_id z : - 2 ^ 31 <= z < 2 ^ 31 -> s32 z = z.
Proof. intros. unfold s32. rewrite Z.mod_small; lia. Qed.

Lemma s64_id z : - 2 ^ 63 <= z < 2 ^ 63 -> s64 z = z.
Proof. intros. unfold s64. rewrite Z.mod_small; lia. Qed.

Lemma s64_add_l a b : s64 (s64 a + b) = s64 (a + b).
Proof.
  unfold s64. f_equal. replace ((a + 2 ^ 63) mod 2 ^ 64 - 2 ^ 63 + b + 2 ^ 63)
    with ((a + 2 ^ 63) mod 2 ^ 64 + b) by lia.
  rewrite Zplus_mod_idemp_l. f_equal. lia.
Qed.

#[export] Hint Resolve u8_range u16_range u32_range u64_range : musl.
#[export] Hint Rewrite u8_id u16_id u32_id u64_id s32_id s64_id using lia : musl.

(** ** Decidable facts about bytes

    A property of every byte is settled by evaluating it 256 times. *)
Lemma byte_forall (P : Z -> bool) :
  forallb P (seqZ 0 256) = true -> forall b, 0 <= b < 256 -> P b = true.
Proof.
  intros H b Hb. eapply forallb_forall in H; [exact H|].
  apply list_elem_of_In, elem_of_seqZ. lia.
Qed.

Lemma range_forall (n : Z) (P : Z -> bool) :
  forallb P (seqZ 0 n) = true -> forall b, 0 <= b < n -> P b = true.
Proof.
  intros H b Hb. eapply forallb_forall in H; [exact H|].
  apply list_elem_of_In, elem_of_seqZ. lia.
Qed.

Definition byte (b : Z) : Prop := 0 <= b < 256.
Abbreviation bytes := (Forall byte).

#[export] Instance byte_dec b : Decision (byte b).
Proof. unfold byte. apply _. Defined.

(** ** Little-endian words as lists of bytes *)
Definition le_combine (l : list Z) : Z := foldr (fun b acc => b + 256 * acc) 0 l.
Definition be_combine (l : list Z) : Z := foldl (fun acc b => acc * 256 + b) 0 l.

Fixpoint le_split (n : nat) (w : Z) : list Z :=
  match n with
  | O => []
  | S n => w mod 256 :: le_split n (w / 256)
  end.

Lemma le_combine_cons b l : le_combine (b :: l) = b + 256 * le_combine l.
Proof. done. Qed.

Lemma le_combine_range l :
  bytes l -> 0 <= le_combine l < 256 ^ Z.of_nat (length l).
Proof.
  induction 1 as [|b l Hb _ IH]; simpl; [lia|].
  rewrite Nat2Z.inj_succ, Z.pow_succ_r by lia. unfold byte in Hb. lia.
Qed.

Lemma length_le_split n w : length (le_split n w) = n.
Proof. revert w. induction n; intros; simpl; congruence. Qed.

Lemma le_split_bytes n w : bytes (le_split n w).
Proof.
  revert w. induction n; intros; simpl; constructor; [|done].
  apply Z.mod_pos_bound. lia.
Qed.

Lemma le_split_combine l : bytes l -> le_split (length l) (le_combine l) = l.
Proof.
  induction 1 as [|b l Hb _ IH]; [done|]. simpl. unfold byte in Hb.
  assert (H1 : (b + 256 * le_combine l) mod 256 = b).
  { rewrite (Z.mul_comm 256), Z.mod_add, Z.mod_small by lia. done. }
  assert (H2 : (b + 256 * le_combine l) / 256 = le_combine l).
  { rewrite (Z.mul_comm 256), Z.div_add, Z.div_small by lia. lia. }
  by rewrite H1, H2, IH.
Qed.

Lemma le_combine_split n w :
  le_combine (le_split n w) = w mod 256 ^ Z.of_nat n.
Proof.
  revert w. induction n as [|n IH]; intros w; simpl.
  { by rewrite Z.mod_1_r. }
  rewrite IH, Nat2Z.inj_succ, Z.pow_succ_r, Z.rem_mul_r by lia. done.
Qed.

Lemma pow256 n : 256 ^ Z.of_nat n = 2 ^ (8 * Z.of_nat n).
Proof. rewrite Z.pow_mul_r by lia. done. Qed.

Lemma le_combine_app l k :
  le_combine (l ++ k) = le_combine l + 256 ^ Z.of_nat (length l) * le_combine k.
Proof.
  induction l as [|b l IH]; cbn [app length]; [cbn; lia|].
  rewrite !le_combine_cons, IH, Nat2Z.inj_succ, Z.pow_succ_r by lia. lia.
Qed.

Lemma le_combine_take l n :
  bytes l -> le_combine l mod 256 ^ Z.of_nat n = le_combine (take n l).
Proof.
  intros Hl. rewrite <- (take_drop n l) at 1. rewrite le_combine_app.
  assert (Hl' : bytes (take n l)) by (by apply Forall_take). pose proof (le_combine_range _ Hl') as Hr.
  destruct (decide (n <= length l)%nat) as [Hn|Hn].
  - rewrite length_take, Nat.min_l in * by lia.
    rewrite (Z.mul_comm (256 ^ _)), Z.mod_add, Z.mod_small by lia. done.
  - rewrite drop_ge by lia. change (le_combine []) with 0.
    rewrite Z.mul_0_r, Z.add_0_r. apply Z.mod_small. split; [lia|].
    eapply Z.lt_le_trans; [apply Hr|]. apply Z.pow_le_mono_r; [lia|].
    rewrite length_take. lia.
Qed.

Lemma le_split_mod n w : le_split n (w mod 256 ^ Z.of_nat n) = le_split n w.
Proof.
  rewrite <- le_combine_split. rewrite <- (length_le_split n w) at 1.
  apply le_split_combine, le_split_bytes.
Qed.

Lemma le_split_add n k w : le_split (n + k) w = le_split n w ++ le_split k (w / 256 ^ Z.of_nat n).
Proof.
  revert w. induction n as [|n IH]; intros w; cbn [Nat.add le_split app].
  - by rewrite Z.div_1_r.
  - rewrite IH. do 3 f_equal. rewrite Nat2Z.inj_succ, Z.pow_succ_r, Z.div_div by lia. done.
Qed.

(** *** Big-endian words *)
Lemma be_combine_cons b l : be_combine (b :: l) = b * 256 ^ Z.of_nat (length l) + be_combine l.
Proof.
  enough (H : forall a, foldl (fun acc b => acc * 256 + b) a l =
                        a * 256 ^ Z.of_nat (length l) + be_combine l) by apply (H (0 * 256 + b)).
  unfold be_combine. induction l as [|c l IH]; intros a; cbn [foldl length]; [lia|].
  rewrite IH, (IH (0 * 256 + c)), Nat2Z.inj_succ, Z.pow_succ_r by lia. lia.
Qed.

Lemma be_le_combine l : be_combine l = le_combine (rev l).
Proof.
  induction l as [|b l IH] using rev_ind; [done|].
  rewrite rev_app_distr. cbn [rev app]. rewrite le_combine_cons, <- IH. unfold be_combine.
  rewrite foldl_app. cbn [foldl]. lia.
Qed.

Lemma be_combine_range l : bytes l -> 0 <= be_combine l < 256 ^ Z.of_nat (length l).
Proof. intros Hl. rewrite be_le_combine, <- length_rev. by apply le_combine_range, Forall_rev. Qed.

Lemma be_combine_inj l l' : length l = length l' -> bytes l -> bytes l' -> be_combine l = be_combine l' -> l = l'.
Proof.
  intros Hlen Hl Hl'. rewrite !be_le_combine. intros He. rewrite <- (rev_involutive l), <- (rev_involutive l'). f_equal.
  rewrite <- (le_split_combine (rev l)), <- (le_split_combine (rev l')) by (by apply Forall_rev).
  by rewrite !length_rev, Hlen, He.
Qed.

(** Disjoint bits: [|] of a low part and a shifted high part is their sum. *)
Lemma lor_add n x y : 0 <= n -> 0 <= x < 2 ^ n -> Z.lor x (y * 2 ^ n) = x + y * 2 ^ n.
Proof.
  intros Hn Hx. rewrite <- Z.shiftl_mul_pow2 by done.
  assert (Hl : Z.land x (Z.shiftl y n) = 0).
  { apply Z.bits_inj'. intros i Hi. rewrite Z.land_spec, Z.bits_0.
    destruct (decide (i < n)).
    - by rewrite Z.shiftl_spec_low, andb_false_r by done.
    - rewrite <- (Z.mod_small x (2 ^ n)), Z.mod_pow2_bits_high by lia. done. }
  rewrite Z.add_nocarry_lxor by done. symmetry. by apply Z.lxor_lor.
Qed.

(** Assembling a big-endian number byte by byte. *)
Lemma lor_step j k a b : j = k + 8 -> 0 <= k -> 0 <= b < 256 ->
  Z.lor (a * 2 ^ j) (b * 2 ^ k) = (a * 256 + b) * 2 ^ k.
Proof.
  intros -> Hk Hb. rewrite Z.pow_add_r, (Z.mul_comm (2 ^ k)), Z.mul_assoc by lia.
  rewrite <- !(Z.shiftl_mul_pow2 _ k), <- Z.shiftl_lor by lia. f_equal.
  rewrite Z.lor_comm. change 256 with (2 ^ 8). rewrite lor_add; lia.
Qed.

Lemma lor_last a b : 0 <= b < 256 -> Z.lor (a * 2 ^ 8) b = a * 256 + b.
Proof. intros. rewrite Z.lor_comm, lor_add; lia. Qed.

(** The two halves of a rotation by [k] of a [w]-bit word do not overlap. *)
Lemma rot_lor w k x : 0 < k < w -> 0 <= x < 2 ^ w ->
  Z.lor ((x * 2 ^ k) mod 2 ^ w) (x / 2 ^ (w - k)) = (x * 2 ^ k) mod 2 ^ w + x / 2 ^ (w - k).
Proof.
  intros Hk Hx. assert (Hw : 2 ^ w = 2 ^ (w - k) * 2 ^ k).
  { rewrite <- Z.pow_add_r by lia. f_equal. lia. }
  rewrite Hw, Z.mul_mod_distr_r by lia.
  rewrite Z.lor_comm, lor_add; [lia|lia|]. rewrite Hw in Hx.
  split; [apply Z.div_pos; lia|]. apply Z.div_lt_upper_bound; lia.
Qed.

(** Bitwise identities hold bit by bit. *)
Ltac bitwise :=
  apply Z.bits_inj'; intros ? ?;
  repeat first [rewrite Z.lor_spec | rewrite Z.land_spec | rewrite Z.lxor_spec
               | rewrite Z.lnot_spec by done];
  repeat match goal with |- context [Z.testbit ?x ?i] => destruct (Z.testbit x i) end; done.

(** Digit-wise bit operations in radix 256. *)
Section radix.
Context (a b x y : Z) (Ha : byte a) (Hb : byte b).

Lemma radix_testbit_lo i : 0 <= i < 8 -> Z.testbit (a + 256 * x) i = Z.testbit a i.
Proof.
  intros. rewrite <- (Z.mod_pow2_bits_low (a + 256 * x) 8 i) by lia.
  f_equal. change (2 ^ 8) with 256.
  rewrite (Z.mul_comm 256), Z.mod_add, Z.mod_small; unfold byte in Ha; lia.
Qed.

Lemma radix_testbit_hi i : 8 <= i -> Z.testbit (a + 256 * x) i = Z.testbit x (i - 8).
Proof.
  intros. replace i with (i - 8 + 8) at 1 by lia.
  rewrite <- Z.div_pow2_bits by lia. f_equal. change (2 ^ 8) with 256.
  rewrite (Z.mul_comm 256), Z.div_add, Z.div_small; unfold byte in Ha; lia.
Qed.
End radix.

Lemma byte_testbit_hi a i : byte a -> 8 <= i -> Z.testbit a i = false.
Proof.
  intros Ha Hi. rewrite <- (Z.mod_small a (2 ^ 8)) by exact Ha.
  apply Z.mod_pow2_bits_high. lia.
Qed.

Lemma byte_of_testbit a :
  0 <= a -> (forall i, 8 <= i -> Z.testbit a i = false) -> byte a.
Proof.
  intros H0 H. split; [done|]. change 256 with (2 ^ 8).
  assert (a mod 2 ^ 8 = a) as <-; [|apply Z.mod_pos_bound; lia].
  apply Z.bits_inj'. intros i Hi. destruct (decide (i < 8)).
  - by rewrite Z.mod_pow2_bits_low by lia.
  - rewrite Z.mod_pow2_bits_high, H by lia. done.
Qed.

(** The same for words of [n] bits. *)
Lemma testbit_above n a i : 0 <= a < 2 ^ n -> n <= i -> Z.testbit a i = false.
Proof.
  intros Ha Hi. destruct (decide (n < 0)); [rewrite Z.pow_neg_r in Ha; lia|].
  rewrite <- (Z.mod_small a (2 ^ n)) by done. apply Z.mod_pow2_bits_high. lia.
Qed.

Lemma range_of_testbit n a :
  0 <= n -> 0 <= a -> (forall i, n <= i -> Z.testbit a i = false) -> 0 <= a < 2 ^ n.
Proof.
  intros Hn H0 H. assert (a mod 2 ^ n = a) as <-; [|apply Z.mod_pos_bound; lia].
  apply Z.bits_inj'. intros i Hi. destruct (decide (i < n)).
  - by rewrite Z.mod_pow2_bits_low by lia.
  - rewrite Z.mod_pow2_bits_high, H by lia. done.
Qed.

Lemma lxor_range n a b : 0 <= n -> 0 <= a < 2 ^ n -> 0 <= b < 2 ^ n -> 0 <= Z.lxor a b < 2 ^ n.
Proof.
  intros Hn Ha Hb. apply range_of_testbit; [done|apply Z.lxor_nonneg; lia|].
  intros i Hi. by rewrite Z.lxor_spec, !(testbit_above n).
Qed.

Lemma lor_range n a b : 0 <= n -> 0 <= a < 2 ^ n -> 0 <= b < 2 ^ n -> 0 <= Z.lor a b < 2 ^ n.
Proof.
  intros Hn Ha Hb. apply range_of_testbit; [done|apply Z.lor_nonneg; lia|].
  intros i Hi. by rewrite Z.lor_spec, !(testbit_above n).
Qed.

Lemma land_range n a b : 0 <= n -> 0 <= a < 2 ^ n -> 0 <= b -> 0 <= Z.land a b < 2 ^ n.
Proof.
  intros Hn Ha Hb. apply range_of_testbit; [done|apply Z.land_nonneg; lia|].
  intros i Hi. by rewrite Z.land_spec, (testbit_above n).
Qed.

Lemma byte_land a b : byte a -> byte b -> byte (Z.land a b).
Proof.
  intros. apply byte_of_testbit.
  - apply Z.land_nonneg; unfold byte in *; lia.
  - intros. rewrite Z.land_spec, byte_testbit_hi by done. done.
Qed.

Lemma byte_lor a b : byte a -> byte b -> byte (Z.lor a b).
Proof.
  intros. apply byte_of_testbit.
  - apply Z.lor_nonneg; unfold byte in *; lia.
  - intros. rewrite Z.lor_spec, !byte_testbit_hi by done. done.
Qed.

Lemma byte_lxor a b : byte a -> byte b -> byte (Z.lxor a b).
Proof.
  intros. apply byte_of_testbit.
  - apply Z.lxor_nonneg; unfold byte in *; lia.
  - intros. rewrite Z.lxor_spec, !byte_testbit_hi by done. done.
Qed.
#[export] Hint Resolve byte_land byte_lor byte_lxor : musl.

Ltac radix_bits :=
  apply Z.bits_inj'; intros ? ?;
  match goal with i : Z |- _ => destruct (decide (i < 8)) end;
  rewrite ?Z.land_spec, ?Z.lxor_spec, ?Z.lor_spec;
  [ rewrite ?radix_testbit_lo by (auto with musl; lia)
  | rewrite ?radix_testbit_hi by (auto with musl; lia) ];
  rewrite ?Z.land_spec, ?Z.lxor_spec, ?Z.lor_spec; done.

Lemma radix_land a b x y : byte a -> byte b ->
  Z.land (a + 256 * x) (b + 256 * y) = Z.land a b + 256 * Z.land x y.
Proof. intros. radix_bits. Qed.

Lemma radix_lxor a b x y : byte a -> byte b ->
  Z.lxor (a + 256 * x) (b + 256 * y) = Z.lxor a b + 256 * Z.lxor x y.
Proof. intros. radix_bits. Qed.

Lemma radix_lor a b x y : byte a -> byte b ->
  Z.lor (a + 256 * x) (b + 256 * y) = Z.lor a b + 256 * Z.lor x y.
Proof. intros. radix_bits. Qed.

Lemma radix_lnot a x : Z.lnot (a + 256 * x) = (255 - a) + 256 * Z.lnot x.
Proof. unfold Z.lnot. lia. Qed.

Lemma le_combine_lxor l k :
  bytes l -> bytes k -> length l = length k ->
  Z.lxor (le_combine l) (le_combine k) = le_combine (zip_with Z.lxor l k).
Proof.
  intros Hl. revert k. induction Hl as [|a l Ha _ IH]; intros [|b k] Hk Hlen;
    try done.
  apply Forall_cons_1 in Hk as [Hb Hk]. injection Hlen as Hlen. simpl zip_with.
  rewrite !le_combine_cons, (radix_lxor a b) by done. rewrite (IH k) by done. done.
Qed.

(** ** Lists *)
Lemma lookup_app_len {A} (l : list A) x k : (l ++ x :: k) !! length l = Some x.
Proof. rewrite list_lookup_middle; done. Qed.

Lemma skipn_skipn' {A} (a b : nat) (l : list A) : drop a (drop b l) = drop (b + a) l.
Proof. by rewrite drop_drop. Qed.

Lemma foldl_ext {A B} (f g : B -> A -> B) l x :
  (forall b a, f b a = g b a) -> foldl f x l = foldl g x l.
Proof. intros H. revert x. induction l as [|a l IH]; intros x; simpl; [done|]. by rewrite H. Qed.
