(* ===== verification/Mem.v ===== *)
(** Byte-addressed memory, the effect monad of the C code that works through
    pointers, and its total-correctness rules.

    A pointer is an integer address, [mem] maps the mapped addresses to byte
    values.  An access of an unmapped address, or a word access that is not
    naturally aligned, is the outcome [Fault]; a loop that runs out of its fuel
    is the outcome [NoFuel].  [wp c m Q] says that running [c] in memory [m]
    ends, without fault and within the fuel, in a result and memory that
    satisfy [Q]: it is total correctness, so a specification stated with it
    never holds because the code diverges.

    C loops are [loop] (a body that says [inl] to iterate and [inr] to leave)
    and [while] (a condition and a body).  The fuel is one parameter of the
    whole development, supplied through the class [Fuel]; each specification
    says how much is enough. *)
From S2P Require Import Prelude.

Abbreviation mem := (gmap Z Z).

Inductive outcome (A : Type) : Type :=
  | Done (a : A)
  | Fault
  | NoFuel.
Arguments Done {A} a.
Arguments Fault {A}.
Arguments NoFuel {A}.

Definition M (A : Type) : Type := mem -> outcome (A * mem).

#[export] Instance M_ret : MRet M := fun A a m => Done (a, m).
#[export] Instance M_bind : MBind M := fun A B k c m =>
  match c m with
  | Done (a, m') => k a m'
  | Fault => Fault
  | NoFuel => NoFuel
  end.

Definition fault {A} : M A := fun _ => Fault.

(** ** Accesses *)
Definition load8 (p : Z) : M Z := fun m =>
  match m !! p with Some v => Done (v, m) | None => Fault end.

Definition store8 (p v : Z) : M unit := fun m =>
  match m !! p with Some _ => Done (tt, <[p := u8 v]> m) | None => Fault end.

Fixpoint loadn (n : nat) (p : Z) : M (list Z) :=
  match n with
  | O => mret []
  | S n => b ← load8 p; l ← loadn n (p + 1); mret (b :: l)
  end.

Fixpoint storen (p : Z) (l : list Z) : M unit :=
  match l with
  | [] => mret tt
  | b :: l => store8 p b;; storen (p + 1) l
  end.

(** An aligned [k]-byte little-endian word. *)
Definition loadw (k : nat) (p : Z) : M Z :=
  if p mod Z.of_nat k =? 0 then l ← loadn k p; mret (le_combine l) else fault.

Definition storew (k : nat) (p v : Z) : M unit :=
  if p mod Z.of_nat k =? 0 then storen p (le_split k v) else fault.

Abbreviation load32 := (loadw 4).
Abbreviation load64 := (loadw 8).
Abbreviation store32 := (storew 4).
Abbreviation store64 := (storew 8).

(** ** Loops *)
Class Fuel := fuel : nat.

Section loops.
Context {S R : Type}.

Fixpoint loop_n (n : nat) (body : S -> M (S + R)) (s : S) : M R :=
  match n with
  | O => fun _ => NoFuel
  | Datatypes.S n =>
      r ← body s;
      match r with inl s' => loop_n n body s' | inr r => mret r end
  end.

Definition loop {F : Fuel} : (S -> M (S + R)) -> S -> M R := loop_n fuel.
End loops.

Definition while {F : Fuel} {S} (cond : S -> M bool) (body : S -> M S) : S -> M S :=
  loop (fun s => t ← cond s;
                 if (t : bool) then s' ← body s; mret (inl s') else mret (inr s)).

(** Short-circuit conjunction of a pure test and a test that reads memory. *)
Definition andM (b : bool) (c : M bool) : M bool := if b then c else mret false.
Notation "b &&& c" := (andM b c) (at level 40, left associativity).

(** ** Total correctness *)
Definition wp {A} (c : M A) (m : mem) (Q : A -> mem -> Prop) : Prop :=
  match c m with Done (a, m') => Q a m' | _ => False end.

Section wp.
Context {A B : Type}.

Lemma wp_ret (a : A) m Q : Q a m -> wp (mret a) m Q.
Proof. done. Qed.

Lemma wp_bind (c : M A) (k : A -> M B) m Q :
  wp c m (fun a m' => wp (k a) m' Q) -> wp (mbind k c) m Q.
Proof.
  unfold wp, mbind, M_bind. destruct (c m) as [[a m']| |]; done.
Qed.

Lemma wp_bind_bind {C} (c : M A) (k : A -> M B) (h : B -> M C) m Q :
  wp (mbind k c) m (fun b m' => wp (h b) m' Q) ->
  wp (mbind (fun a => mbind h (k a)) c) m Q.
Proof.
  unfold wp, mbind, M_bind. destruct (c m) as [[a m']| |]; [|done..].
  by destruct (k a m') as [[b m'']| |].
Qed.

Lemma wp_mono (c : M A) m (P Q : A -> mem -> Prop) :
  wp c m P -> (forall a m', P a m' -> Q a m') -> wp c m Q.
Proof. unfold wp. destruct (c m) as [[a m']| |]; auto. Qed.

Lemma wp_done (c : M A) m Q :
  wp c m Q <-> exists a m', c m = Done (a, m') /\ Q a m'.
Proof.
  unfold wp. split.
  - destruct (c m) as [[a m']| |]; [|done..]. eauto.
  - intros (a & m' & -> & H). done.
Qed.

Lemma wp_andM (b : bool) (c : M bool) m Q :
  (b = true -> wp c m Q) -> (b = false -> Q false m) -> wp (andM b c) m Q.
Proof. unfold andM, wp. destruct b; intros H1 H2; [by apply H1|by apply H2]. Qed.
End wp.

Lemma wp_load8 p m v Q : m !! p = Some v -> Q v m -> wp (load8 p) m Q.
Proof. unfold wp, load8. intros ->. done. Qed.

Lemma wp_store8 p v m Q :
  is_Some (m !! p) -> Q tt (<[p := u8 v]> m) -> wp (store8 p v) m Q.
Proof. unfold wp, store8. intros [? ->]. done. Qed.

(** The loop rule: an invariant [I] with a measure that decreases at every
    iteration and starts below the fuel. *)
Section loop_rules.
Context {F : Fuel} {S R : Type}.

Lemma wp_loop (I : S -> mem -> Prop) (mu : S -> nat) (body : S -> M (S + R)) s m Q :
  (forall s m, I s m ->
     wp (body s) m (fun r m' =>
       match r with
       | inl s' => I s' m' /\ (mu s' < mu s)%nat
       | inr r => Q r m'
       end)) ->
  I s m -> (mu s < fuel)%nat -> wp (loop body s) m Q.
Proof.
  intros Hbody. unfold loop. generalize fuel as n. intros n. revert s m.
  induction n as [|n IH]; intros s m HI Hmu; [lia|].
  simpl. apply wp_bind. eapply wp_mono; [by apply Hbody|].
  intros [s'|r] m' H; [|done]. destruct H as [HI' Hlt]. apply IH; [done|lia].
Qed.
End loop_rules.

(** The same with the measure as an index of the invariant. *)
Lemma wp_while_idx {F : Fuel} {S} (I : nat -> S -> mem -> Prop)
    (cond : S -> M bool) (body : S -> M S) i s m Q :
  (forall i s m, I i s m ->
     wp (cond s) m (fun t m' =>
       if (t : bool)
       then wp (body s) m' (fun s' m'' => exists j, I j s' m'' /\ (j < i)%nat)
       else Q s m')) ->
  I i s m -> (i < fuel)%nat -> wp (while cond body s) m Q.
Proof.
  intros H. unfold while, loop. generalize fuel as n. intros n. revert i s m.
  induction n as [|n IH]; intros i s m HI Hi; [lia|].
  simpl. apply wp_bind, wp_bind. eapply wp_mono; [by apply H|].
  intros [] m2 H2; [|by apply wp_ret].
  apply wp_bind. eapply wp_mono; [exact H2|]. intros s2 m3 (j & HI' & Hj).
  apply wp_ret. apply (IH j); [done|lia].
Qed.

Lemma wp_while {F : Fuel} {S} (I : S -> mem -> Prop) (mu : S -> nat)
    (cond : S -> M bool) (body : S -> M S) s m Q :
  (forall s m, I s m ->
     wp (cond s) m (fun t m' =>
       if (t : bool)
       then wp (body s) m' (fun s' m'' => I s' m'' /\ (mu s' < mu s)%nat)
       else Q s m')) ->
  I s m -> (mu s < fuel)%nat -> wp (while cond body s) m Q.
Proof.
  intros H HI Hmu. apply (wp_loop I mu); [|done..].
  intros s1 m1 HI1. apply wp_bind. eapply wp_mono; [by apply H|].
  intros [] m2 H2; [|by apply wp_ret].
  apply wp_bind. eapply wp_mono; [exact H2|]. intros s2 m3 H3. by apply wp_ret.
Qed.

(** ** Contents of memory *)

(** [l] is stored from address [p] on. *)
Definition bytes_at (m : mem) (p : Z) (l : list Z) : Prop :=
  forall i v, l !! i = Some v -> m !! (p + Z.of_nat i) = Some v.

(** The [n] addresses from [p] on are mapped. *)
Definition mapped (m : mem) (p n : Z) : Prop :=
  forall a, p <= a < p + n -> is_Some (m !! a).

(** The nul-terminated string [s] is stored at [p]. *)
Definition cstring (m : mem) (p : Z) (s : list Z) : Prop :=
  bytes_at m p (s ++ [0]) /\ Forall (fun b => 0 < b < 256) s.

(** Memory holds bytes, and is mapped in whole aligned 8-byte words (pages are
    larger than words): what an aligned word read past a terminator relies on. *)
Definition mem_wf (m : mem) : Prop :=
  (forall a v, m !! a = Some v -> byte v) /\
  (forall a b, is_Some (m !! a) -> a / 8 = b / 8 -> is_Some (m !! b)).

(** Everything outside [p, p+n) is as before. *)
Definition unchanged_outside (p n : Z) (m m' : mem) : Prop :=
  forall a, ~ (p <= a < p + n) -> m' !! a = m !! a.

Lemma chars_bytes s : Forall (fun b => 0 < b < 256) s -> bytes s.
Proof. intros H. eapply Forall_impl; [|exact H]. unfold byte. simpl. lia. Qed.

Lemma cstring_bytes m p s : cstring m p s -> bytes s.
Proof. intros [_ H]. by apply chars_bytes. Qed.

Lemma bytes_at_app m p l k :
  bytes_at m p (l ++ k) <-> bytes_at m p l /\ bytes_at m (p + Z.of_nat (length l)) k.
Proof.
  split.
  - intros H. split; intros i v Hi.
    + apply H. by apply lookup_app_l_Some.
    + replace (p + Z.of_nat (length l) + Z.of_nat i)
        with (p + Z.of_nat (length l + i)) by lia.
      apply H. rewrite lookup_app_r by lia.
      by replace (length l + i - length l)%nat with i by lia.
  - intros [H1 H2] i v [Hi|[Hle Hi]]%lookup_app_Some; [by apply H1|].
    apply H2 in Hi. rewrite <- Hi. f_equal. lia.
Qed.

Lemma bytes_at_cons m p b l :
  bytes_at m p (b :: l) <-> m !! p = Some b /\ bytes_at m (p + 1) l.
Proof.
  split.
  - intros H. split.
    + specialize (H 0%nat b eq_refl). by rewrite Z.add_0_r in H.
    + intros i v Hi. specialize (H (S i) v Hi). rewrite <- H. f_equal. lia.
  - intros [H1 H2] [|i] v Hi; simpl in Hi; [simplify_eq; by rewrite Z.add_0_r|].
    apply H2 in Hi. rewrite <- Hi. f_equal. lia.
Qed.

Lemma bytes_at_nil m p : bytes_at m p [].
Proof. intros i v Hi. done. Qed.
#[export] Hint Resolve bytes_at_nil : musl.

Lemma bytes_at_lookup m p l i v a :
  bytes_at m p l -> l !! i = Some v -> a = p + Z.of_nat i -> m !! a = Some v.
Proof. intros H Hi ->. by apply H. Qed.

Lemma bytes_at_unique m p l k :
  bytes_at m p l -> bytes_at m p k -> length l = length k -> l = k.
Proof.
  intros Hl Hk Hlen. apply list_eq_same_length with (n := length k); [done..|].
  intros i x y _ Hx Hy. apply Hl in Hx. apply Hk in Hy. congruence.
Qed.

Lemma bytes_at_insert m p l a v :
  bytes_at m p l -> ~ (p <= a < p + Z.of_nat (length l)) -> bytes_at (<[a := v]> m) p l.
Proof.
  intros H Ha i w Hi. rewrite lookup_insert_ne; [by apply H|].
  apply lookup_lt_Some in Hi. lia.
Qed.

Lemma mapped_bytes m p n :
  0 <= n -> mapped m p n -> exists l, length l = Z.to_nat n /\ bytes_at m p l.
Proof.
  intros Hn. remember (Z.to_nat n) as k eqn:Hk. revert p n Hn Hk.
  induction k as [|k IH]; intros p n Hn Hk Hm.
  { exists []. split; [done|apply bytes_at_nil]. }
  destruct (Hm p ltac:(lia)) as [b Hb].
  destruct (IH (p + 1) (n - 1)) as (l & Hl & Hat); [lia..| |].
  { intros a Ha. apply Hm. lia. }
  exists (b :: l). simpl. rewrite Hl. split; [done|]. by apply bytes_at_cons.
Qed.

Lemma bytes_at_mapped m p l :
  bytes_at m p l -> mapped m p (Z.of_nat (length l)).
Proof.
  intros H a Ha. destruct (lookup_lt_is_Some_2 l (Z.to_nat (a - p))) as [v Hv]; [lia|].
  exists v. apply H in Hv. rewrite <- Hv. f_equal. lia.
Qed.

Lemma mem_wf_bytes m p l : mem_wf m -> bytes_at m p l -> bytes l.
Proof.
  intros [Hb _] H. apply Forall_lookup. intros i v Hi. eapply Hb. by apply H.
Qed.

(** The whole aligned word around a mapped address is there. *)
Lemma mem_wf_word m p :
  mem_wf m -> is_Some (m !! p) -> p mod 8 = 0 ->
  exists l, length l = 8%nat /\ bytes_at m p l /\ bytes l.
Proof.
  intros Hwf Hp Hal. destruct (mapped_bytes m p 8) as (l & Hl & Hat); [lia| |].
  - intros a Ha. apply (proj2 Hwf p a Hp).
    assert (p = 8 * (p / 8)) as Hp8 by (pose proof (Z.div_mod p 8); lia).
    apply Z.div_unique with (a - p); lia.
  - exists l. split; [done|]. split; [done|]. by eapply mem_wf_bytes.
Qed.

Lemma wp_loadn k p l m Q :
  bytes_at m p l -> length l = k -> Q l m -> wp (loadn k p) m Q.
Proof.
  intros Hat <-. revert p Hat Q. induction l as [|b l IH]; intros p Hat Q HQ; [done|].
  apply bytes_at_cons in Hat as [Hb Hat]. simpl.
  apply wp_bind, (wp_load8 _ _ b); [done|].
  apply wp_bind, IH; [done|]. by apply wp_ret.
Qed.

Lemma wp_loadw k p l m Q :
  bytes_at m p l -> length l = k -> p mod Z.of_nat k = 0 ->
  Q (le_combine l) m -> wp (loadw k p) m Q.
Proof.
  intros Hat Hl Hal HQ. unfold loadw. rewrite Hal. simpl.
  apply wp_bind, (wp_loadn _ _ l); [done..|]. by apply wp_ret.
Qed.

(** ** Concrete memories, for evaluating the definitions *)
Definition mem_of (p : Z) (l : list Z) : mem :=
  list_to_map (zip (seqZ p (Z.of_nat (length l))) l).

Definition mem_wfb (m : mem) : bool :=
  forallb (fun '(a, v) => (0 <=? v) && (v <? 256) &&
     forallb (fun k => match m !! (8 * (a / 8) + k) with Some _ => true | None => false end)
             (seqZ 0 8)) (map_to_list m).

Lemma mem_wfb_correct m : mem_wfb m = true -> mem_wf m.
Proof.
  unfold mem_wfb. rewrite forallb_forall. intros H.
  assert (Ha : forall a v, m !! a = Some v -> byte v /\
      forall b, a / 8 = b / 8 -> is_Some (m !! b)).
  { intros a v Hav%elem_of_map_to_list%list_elem_of_In.
    apply H in Hav as [[Hb1 Hb2]%andb_true_iff Hk]%andb_true_iff.
    split; [unfold byte; lia|]. intros b Hb.
    rewrite forallb_forall in Hk. specialize (Hk (b mod 8)).
    replace (8 * (a / 8) + b mod 8) with b in Hk.
    - destruct (m !! b); [done|]. discriminate Hk. apply list_elem_of_In, elem_of_seqZ.
      apply Z.mod_pos_bound. lia.
    - rewrite Hb. apply Z.div_mod. lia. }
  split; [intros a v Hv; by apply (Ha a v)|].
  intros a b [v Hv] Hb. by apply (proj2 (Ha a v Hv)).
Qed.

(** Contents of a concrete memory, checked by evaluation. *)
Definition bytes_atb (m : mem) (p : Z) (l : list Z) : bool :=
  forallb (fun '(i, v) => bool_decide (m !! (p + Z.of_nat i) = Some v))
          (zip (seq 0 (length l)) l).

Lemma bytes_atb_correct m p l : bytes_atb m p l = true -> bytes_at m p l.
Proof.
  unfold bytes_atb. rewrite forallb_forall. intros H i v Hi.
  assert (Hin : In (i, v) (zip (seq 0 (length l)) l)).
  { apply list_elem_of_In, (list_elem_of_lookup_2 _ i), lookup_zip_Some.
    split; [|done]. apply lookup_seq. apply lookup_lt_Some in Hi. lia. }
  apply H in Hin. by apply bool_decide_eq_true in Hin.
Qed.

Definition cstringb (m : mem) (p : Z) (s : list Z) : bool :=
  bytes_atb m p (s ++ [0]) && forallb (fun b => (0 <? b) && (b <? 256)) s.

Lemma cstringb_correct m p s : cstringb m p s = true -> cstring m p s.
Proof.
  intros [H1 H2]%andb_true_iff. split; [by apply bytes_atb_correct|].
  rewrite forallb_forall in H2. apply Forall_forall. intros b Hb.
  apply H2 in Hb. lia.
Qed.

(** ** Writing a block of bytes *)
Fixpoint mem_write (m : mem) (p : Z) (l : list Z) : mem :=
  match l with
  | [] => m
  | b :: l => mem_write (<[p := b]> m) (p + 1) l
  end.

Lemma lookup_mem_write m p l a :
  mem_write m p l !! a =
    if decide (p <= a < p + Z.of_nat (length l)) then l !! Z.to_nat (a - p) else m !! a.
Proof.
  revert m p. induction l as [|b l IH]; intros m p; simpl.
  { by rewrite decide_False by lia. }
  rewrite IH. destruct (decide (a = p)) as [->|Hne].
  - rewrite decide_False, decide_True by lia. rewrite lookup_insert_eq.
    by rewrite Z.sub_diag.
  - rewrite lookup_insert_ne by done. case_decide.
    + rewrite decide_True by lia.
      by replace (Z.to_nat (a - p)) with (S (Z.to_nat (a - (p + 1)))) by lia.
    + by rewrite decide_False by lia.
Qed.

Lemma lookup_mem_write_out m p l a :
  ~ (p <= a < p + Z.of_nat (length l)) -> mem_write m p l !! a = m !! a.
Proof. intros. by rewrite lookup_mem_write, decide_False. Qed.

Lemma bytes_at_mem_write m p l : bytes_at (mem_write m p l) p l.
Proof.
  intros i v Hi. apply lookup_lt_Some in Hi as Hlt.
  rewrite lookup_mem_write, decide_True by lia. rewrite <- Hi. f_equal. lia.
Qed.

Lemma mem_write_app m p l k :
  mem_write m p (l ++ k) = mem_write (mem_write m p l) (p + Z.of_nat (length l)) k.
Proof.
  revert m p. induction l as [|b l IH]; intros m p; simpl.
  { by rewrite Z.add_0_r. }
  rewrite IH. f_equal. lia.
Qed.

Lemma mapped_write m p l q n : mapped m q n -> mapped (mem_write m p l) q n.
Proof.
  intros H a Ha. rewrite lookup_mem_write. case_decide; [|by apply H].
  apply lookup_lt_is_Some_2. lia.
Qed.

Lemma mapped_sub m p n q k : mapped m p n -> p <= q -> q + k <= p + n -> mapped m q k.
Proof. intros H ?? a Ha. apply H. lia. Qed.

Lemma mem_wf_write m p l :
  mem_wf m -> bytes l -> mapped m p (Z.of_nat (length l)) -> mem_wf (mem_write m p l).
Proof.
  intros [H1 H2] Hl Hm. split.
  - intros a v. rewrite lookup_mem_write. case_decide; [|by apply H1].
    intros Hv. by eapply Forall_lookup_1 in Hv.
  - assert (Hiff : forall a, is_Some (mem_write m p l !! a) <-> is_Some (m !! a)).
    { intros a. rewrite lookup_mem_write. case_decide; [|done].
      split; intros _; [by apply Hm|]. apply lookup_lt_is_Some_2. lia. }
    intros a b. rewrite !Hiff. apply H2.
Qed.

Lemma wp_storen p l m Q :
  bytes l -> mapped m p (Z.of_nat (length l)) ->
  Q tt (mem_write m p l) -> wp (storen p l) m Q.
Proof.
  intros Hl. revert p m. induction Hl as [|b l Hb Hl IH]; intros p m Hm HQ; [done|].
  simpl. apply wp_bind, wp_store8; [apply Hm; simpl; lia|].
  rewrite u8_id by done. apply IH; [|done].
  intros a Ha. destruct (decide (a = p)) as [->|]; [rewrite lookup_insert_eq; eauto|].
  rewrite lookup_insert_ne by done. apply Hm. simpl. lia.
Qed.

Lemma wp_storew k p l m Q :
  bytes l -> length l = k -> mapped m p (Z.of_nat k) -> p mod Z.of_nat k = 0 ->
  Q tt (mem_write m p l) -> wp (storew k p (le_combine l)) m Q.
Proof.
  intros Hl <- Hm Hal HQ. unfold storew. rewrite Hal. simpl.
  rewrite le_split_combine by done. by apply wp_storen.
Qed.

Definition mappedb (m : mem) (p n : Z) : bool :=
  forallb (fun a => bool_decide (is_Some (m !! a))) (seqZ p n).

Lemma mappedb_correct m p n : mappedb m p n = true -> mapped m p n.
Proof.
  unfold mappedb. rewrite forallb_forall. intros H a Ha.
  assert (Hin : In a (seqZ p n)) by (apply list_elem_of_In, elem_of_seqZ; lia).
  apply H in Hin. by apply bool_decide_eq_true in Hin.
Qed.

Lemma wp_eq {A} (c : M A) m a m1 :
  wp c m (fun r m' => r = a /\ m' = m1) -> c m = Done (a, m1).
Proof. intros H. apply wp_done in H as (? & ? & -> & -> & ->). done. Qed.

(** Hypotheses about concrete memories and numbers, settled by evaluation. *)
Ltac conc :=
  lazymatch goal with
  | |- mem_wf _ => apply mem_wfb_correct; by vm_compute
  | |- cstring _ _ _ => apply cstringb_correct; by vm_compute
  | |- bytes_at _ _ _ => apply bytes_atb_correct; by vm_compute
  | |- mapped _ _ _ => apply mappedb_correct; by vm_compute
  | |- lt _ _ => apply Nat.ltb_lt; by vm_compute
  | |- le _ _ => apply Nat.leb_le; by vm_compute
  | |- Forall _ _ => apply (bool_decide_unpack _); by vm_compute
  | |- not (elem_of _ _) => apply (bool_decide_unpack _); by vm_compute
  | |- _ /\ _ => split; conc
  | |- _ \/ _ => first [left; conc | right; conc]
  | |- _ => by vm_compute
  end.
