(* ===== verification/Scan.v ===== *)
(** Scanning strings: [strlen], [memchr], [strchr] and their relatives of
    src/musl-1.1.19/src/string/, which look at eight bytes at a time.

    The definitions follow the C text, alignment loop, word loop and tail loop
    included.  [stops f m p e] is the specification they share: [e] is the
    first address from [p] on whose byte satisfies [f]. *)
From S2P Require Import Prelude Mem.

(** ** The word test *)
Definition ONES : Z := (2 ^ 64 - 1) / 255.
Definition HIGHS : Z := u64 (ONES * (255 / 2 + 1)).
Definition HASZERO (x : Z) : Z :=
  Z.land (Z.land (u64 (x - ONES)) (u64 (Z.lnot x))) HIGHS.

Section operations.
Context {F : Fuel}.

Definition strlen (s : Z) : M Z :=
  let a := s in
  r ← loop (fun s =>
        if s mod 8 =? 0 then mret (inr (inr s))
        else b ← load8 s;
             if b =? 0 then mret (inr (inl (s - a))) else mret (inl (s + 1))) s;
  match r with
  | inl n => mret n
  | inr s =>
      w ← while (fun w => x ← load64 w; mret (HASZERO x =? 0))
                (fun w => mret (w + 8)) s;
      s ← while (fun s => b ← load8 s; mret (negb (b =? 0)))
                (fun s => mret (s + 1)) w;
      mret (s - a)
  end.

Definition __strchrnul (s c : Z) : M Z :=
  let c := u8 c in
  if c =? 0 then n ← strlen s; mret (s + n)
  else
    r ← loop (fun s =>
          if s mod 8 =? 0 then mret (inr (inr s))
          else b ← load8 s;
               if (b =? 0) || (b =? c) then mret (inr (inl s))
               else mret (inl (s + 1))) s;
    match r with
    | inl s => mret s
    | inr s =>
        let k := u64 (ONES * c) in
        w ← while (fun w => x ← load64 w;
                     mret ((HASZERO x =? 0) && (HASZERO (Z.lxor x k) =? 0)))
                  (fun w => mret (w + 8)) s;
        while (fun s => b ← load8 s; mret (negb (b =? 0) && negb (b =? c)))
              (fun s => mret (s + 1)) w
    end.

Definition strchr (s c : Z) : M Z :=
  r ← __strchrnul s c;
  b ← load8 r;
  mret (if b =? u8 c then r else 0).

Definition memchr (src c n : Z) : M Z :=
  let c := u8 c in
  '(s, n) ← while (fun '(s, n) =>
               (negb (Z.land s 7 =? 0) && negb (n =? 0)) &&&
               (b ← load8 s; mret (negb (b =? c))))
             (fun '(s, n) => mret (s + 1, n - 1)) (src, n);
  t ← negb (n =? 0) &&& (b ← load8 s; mret (negb (b =? c)));
  '(s, n) ← (if (t : bool) then
      let k := u64 (ONES * c) in
      '(w, n) ← while (fun '(w, n) =>
                   (8 <=? n) &&&
                   (x ← load64 w; mret (HASZERO (Z.lxor x k) =? 0)))
                 (fun '(w, n) => mret (w + 8, n - 8)) (s, n);
      while (fun '(s, n) =>
               negb (n =? 0) &&& (b ← load8 s; mret (negb (b =? c))))
            (fun '(s, n) => mret (s + 1, n - 1)) (w, n)
    else mret (s, n));
  mret (if n =? 0 then 0 else s).

Definition __memrchr (s c n : Z) : M Z :=
  let c := u8 c in
  loop (fun n =>
    if n =? 0 then mret (inr 0)
    else let n := n - 1 in
         b ← load8 (s + n);
         if b =? c then mret (inr (s + n)) else mret (inl n)) n.

Definition strrchr (s c : Z) : M Z :=
  n ← strlen s; __memrchr s c (n + 1).

Definition strnlen (s n : Z) : M Z :=
  p ← memchr s 0 n;
  mret (if p =? 0 then n else p - s).
End operations.

(** ** The word test finds exactly the words with a zero byte *)
Lemma low_byte_test b : 1 <= b < 256 -> Z.land (Z.land (b - 1) (255 - b)) 128 = 0.
Proof.
  intros Hb. apply Z.eqb_eq.
  assert (H : (b =? 0) || (Z.land (Z.land (b - 1) (255 - b)) 128 =? 0) = true).
  { apply (byte_forall (fun b =>
      (b =? 0) || (Z.land (Z.land (b - 1) (255 - b)) 128 =? 0))); [by vm_compute|lia]. }
  apply orb_true_iff in H as [H|H]; [lia|done].
Qed.

Definition haszero_raw (l : list Z) : Z :=
  Z.land (Z.land (le_combine l - le_combine (replicate (length l) 1))
                 (Z.lnot (le_combine l)))
         (le_combine (replicate (length l) 128)).

Lemma haszero_raw_spec l : bytes l -> haszero_raw l <> 0 <-> 0 ∈ l.
Proof.
  unfold haszero_raw.
  induction 1 as [|b l Hb Hl IH]; [split; [done|by intros ?%elem_of_nil]|].
  cbn [length replicate]. rewrite !le_combine_cons, radix_lnot.
  set (x := le_combine l) in *. set (o := le_combine (replicate _ 1)) in *.
  set (h := le_combine (replicate _ 128)) in *. unfold byte in Hb.
  rewrite elem_of_cons. destruct (decide (b = 0)) as [->|Hb0].
  - replace (0 + 256 * x - (1 + 256 * o)) with (255 + 256 * (x - o - 1)) by lia.
    rewrite !radix_land by (try apply byte_land; unfold byte; lia).
    split; [by left|]. intros _. change (Z.land (Z.land 255 _) 128) with 128. lia.
  - replace (b + 256 * x - (1 + 256 * o)) with ((b - 1) + 256 * (x - o)) by lia.
    rewrite !radix_land by (try apply byte_land; unfold byte; lia).
    rewrite low_byte_test by lia. split.
    + intros H. right. apply IH. lia.
    + intros [H|H]; [congruence|]. apply IH in H. lia.
Qed.

Lemma ONES_bytes : ONES = le_combine (replicate 8 1).
Proof. by vm_compute. Qed.

Lemma HIGHS_bytes : HIGHS = le_combine (replicate 8 128).
Proof. by vm_compute. Qed.

Lemma land_u64 x y h : 0 <= h < 2 ^ 64 ->
  Z.land (Z.land (u64 x) (u64 y)) h = Z.land (Z.land x y) h.
Proof.
  intros Hh. unfold u64. rewrite <- !Z.land_ones by lia.
  apply Z.bits_inj'. intros i Hi. rewrite !Z.land_spec, Z.testbit_ones_nonneg by lia.
  destruct (i <? 64) eqn:E; [by rewrite !andb_true_r|].
  apply Z.ltb_ge in E. rewrite <- (Z.mod_small h (2 ^ 64)) by done.
  rewrite Z.mod_pow2_bits_high by lia. by rewrite !andb_false_r.
Qed.

Lemma HASZERO_spec l : length l = 8%nat -> bytes l -> HASZERO (le_combine l) <> 0 <-> 0 ∈ l.
Proof.
  intros Hlen Hl. rewrite <- haszero_raw_spec by done. unfold HASZERO, haszero_raw.
  rewrite Hlen, <- ONES_bytes, <- HIGHS_bytes, land_u64; [done|].
  split; vm_compute; congruence.
Qed.

(** The repeated byte [k = ONES * c] turns the test for zero into a test for [c]. *)
Lemma ONES_mul c : byte c -> u64 (ONES * c) = le_combine (replicate 8 c).
Proof.
  intros Hc. unfold byte in Hc.
  replace (ONES * c) with (le_combine (replicate 8 c)); [apply u64_id|].
  - apply (le_combine_range (replicate 8 c)). by apply Forall_replicate.
  - rewrite ONES_bytes. cbn. lia.
Qed.

Lemma HASZERO_xor_spec l c : length l = 8%nat -> bytes l -> byte c ->
  HASZERO (Z.lxor (le_combine l) (u64 (ONES * c))) <> 0 <-> c ∈ l.
Proof.
  intros Hlen Hl Hc. rewrite ONES_mul by done.
  rewrite le_combine_lxor; [|done|by apply Forall_replicate|by rewrite length_replicate].
  rewrite HASZERO_spec.
  - rewrite <- Hlen. clear Hlen. induction Hl as [|b l Hb Hl IH].
    { split; by intros ?%elem_of_nil. }
    cbn [length replicate zip_with]. rewrite !elem_of_cons, IH.
    assert (0 = Z.lxor b c <-> c = b) as ->; [|done].
    split; [intros H; symmetry; by apply Z.lxor_eq|intros ->; by rewrite Z.lxor_nilpotent].
  - by rewrite length_zip_with, length_replicate, Hlen.
  - rewrite <- Hlen. clear Hlen. induction Hl; simpl; constructor; auto with musl.
Qed.

(** ** The specification shared by the scanning loops *)
Definition stops (f : Z -> bool) (m : mem) (p e : Z) : Prop :=
  p <= e /\
  (exists b, m !! e = Some b /\ f b = true) /\
  (forall a, p <= a < e -> exists b, m !! a = Some b /\ f b = false).

Lemma stops_step f m p e b :
  stops f m p e -> m !! p = Some b -> f b = false -> stops f m (p + 1) e.
Proof.
  intros (Hle & (b' & He & Hf) & Hin) Hb Hfb.
  assert (p <> e) by (intros ->; congruence).
  split; [lia|]. split; [by eauto|]. intros a Ha. apply Hin. lia.
Qed.

Lemma stops_at f m p e b : stops f m p e -> m !! p = Some b -> f b = true -> p = e.
Proof.
  intros (Hle & _ & Hin) Hb Hfb. destruct (decide (p = e)); [done|].
  destruct (Hin p) as (b' & ? & ?); [lia|]. congruence.
Qed.

Lemma stops_load f m p e : stops f m p e -> exists b, m !! p = Some b.
Proof.
  intros (Hle & (b & He & _) & Hin). destruct (decide (p = e)) as [->|]; [eauto|].
  destruct (Hin p) as (b' & ? & ?); [lia|]. eauto.
Qed.

Lemma stops_ext f g m p e :
  (forall b a, m !! a = Some b -> f b = g b) -> stops f m p e -> stops g m p e.
Proof.
  intros Hfg (Hle & (b & He & Hf) & Hin). split; [done|]. split.
  - exists b. split; [done|]. by rewrite <- (Hfg _ e).
  - intros a (b' & Ha & Hb')%Hin. exists b'. split; [done|]. by rewrite <- (Hfg _ a).
Qed.

(** A word without a stop byte lies entirely before the stop. *)
Lemma stops_word f m p e l :
  stops f m p e -> bytes_at m p l -> Forall (fun b => f b = false) l ->
  stops f m (p + Z.of_nat (length l)) e.
Proof.
  revert p. induction l as [|b l IH]; intros p Hs Hat Hl.
  { by rewrite Z.add_0_r. }
  apply bytes_at_cons in Hat as [Hb Hat]. apply Forall_cons_1 in Hl as [Hfb Hl].
  replace (p + Z.of_nat (length (b :: l))) with (p + 1 + Z.of_nat (length l))
    by (simpl; lia).
  apply IH; [|done..]. by eapply stops_step.
Qed.

Section scan_rules.
Context {F : Fuel} (f : Z -> bool) (m : mem) (e : Z).

(** A byte loop [for (; !f( *s); s++);]. *)
Lemma wp_scan (cond : Z -> M bool) (p : Z) (Q : Z -> mem -> Prop) :
  (forall a b, m !! a = Some b -> wp (cond a) m (fun t m' => t = negb (f b) /\ m' = m)) ->
  stops f m p e -> e - p < Z.of_nat fuel -> Q e m ->
  wp (while cond (fun s => mret (s + 1)) p) m Q.
Proof.
  intros Hc Hs Hf HQ.
  apply (wp_while (fun s m' => m' = m /\ stops f m s e) (fun s => Z.to_nat (e - s)));
    [|done|destruct Hs; lia].
  clear p Hs Hf. intros p m' [-> Hs]. destruct (stops_load _ _ _ _ Hs) as [b Hb].
  eapply wp_mono; [by apply Hc|]. intros t m' [-> ->]. destruct (f b) eqn:Hfb.
  - by rewrite (stops_at _ _ _ _ _ Hs Hb Hfb).
  - pose proof (stops_step _ _ _ _ _ Hs Hb Hfb) as Hs'. apply wp_ret.
    split; [done|]. destruct Hs, Hs'. lia.
Qed.

(** A word loop that advances while no byte of the word satisfies [f]: it
    ends at or before [e]. *)
Lemma wp_word_scan (cond : Z -> M bool) (p : Z) (Q : Z -> mem -> Prop) :
  mem_wf m ->
  (forall a l, bytes_at m a l -> length l = 8%nat -> bytes l -> a mod 8 = 0 ->
     wp (cond a) m (fun t m' => m' = m /\
       (t = true -> Forall (fun b => f b = false) l))) ->
  stops f m p e -> p mod 8 = 0 -> e - p < Z.of_nat fuel ->
  (forall w, p <= w -> stops f m w e -> Q w m) ->
  wp (while cond (fun w => mret (w + 8)) p) m Q.
Proof.
  intros Hwf Hc Hs Hal Hf HQ.
  apply (wp_while (fun w m' => m' = m /\ stops f m w e /\ w mod 8 = 0 /\ p <= w)
                  (fun w => Z.to_nat (e - w))); [|done|destruct Hs; lia].
  intros w m' (-> & Hw & Hwal & Hpw). destruct (stops_load _ _ _ _ Hw) as [b Hb].
  destruct (mem_wf_word m w) as (l & Hl & Hat & Hlb); [by eauto..|].
  eapply wp_mono; [by apply (Hc w l)|]. intros t m' [-> Ht].
  destruct t; [|by apply HQ]. apply wp_ret.
  apply (stops_word _ _ _ _ l) in Hw; [|done|by apply Ht]. rewrite Hl in Hw.
  split; [|destruct Hw; lia]. split; [done|]. split; [exact Hw|].
  split; [|lia]. rewrite Z.add_mod, Hwal; done.
Qed.
End scan_rules.

Lemma stops_list f m p l b :
  bytes_at m p (l ++ [b]) -> Forall (fun b => f b = false) l -> f b = true ->
  stops f m p (p + Z.of_nat (length l)).
Proof.
  intros [Hl Hb]%bytes_at_app Hfl Hfb. apply bytes_at_cons in Hb as [Hb _].
  split; [lia|]. split; [by eauto|]. intros a Ha.
  destruct (lookup_lt_is_Some_2 l (Z.to_nat (a - p))) as [v Hv]; [lia|].
  exists v. split; [|by eapply Forall_lookup_1 in Hfl].
  eapply bytes_at_lookup; [done..|lia].
Qed.

Lemma cstring_stops m p s :
  cstring m p s -> stops (fun b => b =? 0) m p (p + Z.of_nat (length s)).
Proof.
  intros [Hat Hs]. apply (stops_list _ _ _ _ 0); [done| |done].
  eapply Forall_impl; [|exact Hs]. simpl. intros. lia.
Qed.

(** The number of leading bytes of [l] that do not satisfy [f]. *)
Fixpoint span_len (f : Z -> bool) (l : list Z) : nat :=
  match l with
  | [] => O
  | b :: l => if f b then O else S (span_len f l)
  end.

Lemma span_len_le f l : (span_len f l <= length l)%nat.
Proof. induction l as [|b l IH]; simpl; [lia|]. destruct (f b); lia. Qed.

Lemma cstring_cons m p b s :
  cstring m p (b :: s) <-> m !! p = Some b /\ 0 < b < 256 /\ cstring m (p + 1) s.
Proof.
  unfold cstring. rewrite <- app_comm_cons, bytes_at_cons, Forall_cons_iff. tauto.
Qed.

Lemma cstring_nil m p : cstring m p [] <-> m !! p = Some 0.
Proof.
  unfold cstring. simpl. rewrite bytes_at_cons. split; [tauto|].
  intros H. repeat split; auto using bytes_at_nil.
Qed.

(** Stopping at nul or at a byte that satisfies [f]. *)
Lemma cstring_stops_or f m p s :
  cstring m p s ->
  stops (fun b => (b =? 0) || f b) m p (p + Z.of_nat (span_len f s)).
Proof.
  revert p. induction s as [|b s IH]; intros p Hs.
  - apply cstring_nil in Hs. simpl. rewrite Z.add_0_r.
    split; [lia|]. split; [by exists 0|]. lia.
  - apply cstring_cons in Hs as (Hb & Hb0 & Hs). simpl. destruct (f b) eqn:Hf.
    + rewrite Z.add_0_r. split; [lia|]. split; [|lia].
      exists b. split; [done|]. by rewrite Hf, orb_true_r.
    + destruct (IH _ Hs) as (Hle & He & Hin).
      replace (p + Z.of_nat (S (span_len f s)))
        with (p + 1 + Z.of_nat (span_len f s)) by lia.
      split; [lia|]. split; [done|]. intros a Ha.
      destruct (decide (a = p)) as [->|]; [|apply Hin; lia].
      exists b. split; [done|]. rewrite Hf. lia.
Qed.

Lemma wp_align_head {F : Fuel} {R} (f : Z -> bool) m e (ret : Z -> R) p
    (Q : R + Z -> mem -> Prop) :
  stops f m p e -> e - p + 1 < Z.of_nat fuel ->
  Q (inl (ret e)) m ->
  (forall s, p <= s -> s mod 8 = 0 -> stops f m s e -> Q (inr s) m) ->
  wp (loop (fun s =>
        if s mod 8 =? 0 then mret (inr (inr s))
        else b ← load8 s;
             if f b then mret (inr (inl (ret s))) else mret (inl (s + 1))) p) m Q.
Proof.
  intros Hs Hf HQ1 HQ2.
  apply (wp_loop (fun s m' => m' = m /\ p <= s /\ stops f m s e)
           (fun s => Z.to_nat (e - s))); [|by auto with lia|destruct Hs; lia].
  intros s m' (-> & Hps & Hst). destruct (Z.eqb_spec (s mod 8) 0) as [Hal|Hal].
  { apply wp_ret. by apply HQ2. }
  destruct (stops_load _ _ _ _ Hst) as [b Hb].
  apply wp_bind, (wp_load8 _ _ b); [done|]. destruct (f b) eqn:Hfb; apply wp_ret.
  - by rewrite (stops_at _ _ _ _ _ Hst Hb Hfb).
  - pose proof (stops_step _ _ _ _ _ Hst Hb Hfb) as Hst'.
    destruct Hst, Hst'. split; [|lia]. split_and!; [done|lia|by split].
Qed.

Section specs.
Context {F : Fuel}.

Lemma wp_strlen m p s Q :
  mem_wf m -> cstring m p s -> (length s + 1 < fuel)%nat ->
  Q (Z.of_nat (length s)) m -> wp (strlen p) m Q.
Proof.
  intros Hwf Hs Hf HQ. apply cstring_stops in Hs. unfold strlen.
  set (e := p + Z.of_nat (length s)) in *.
  assert (He : e - p = Z.of_nat (length s)) by lia.
  apply wp_bind, (wp_align_head (fun b => b =? 0) m e (fun s => s - p)); [done|lia| |].
  { apply wp_ret. by rewrite He. }
  intros w Hpw Hal Hw. apply wp_bind.
  apply (wp_word_scan (fun b => b =? 0) m e); [done| |done|done|lia|].
  - intros a l Hat Hl Hlb Ha. apply wp_bind, (wp_loadw _ _ l); [done..|].
    apply wp_ret. split; [done|]. intros Hz%Z.eqb_eq. apply Forall_lookup.
    intros i b Hi. apply Z.eqb_neq. intros ->.
    apply (HASZERO_spec l); [done..| |done]. by eapply list_elem_of_lookup_2.
  - intros w' Hw' Hst. apply wp_bind.
    apply (wp_scan (fun b => b =? 0) m e); [|done|lia|].
    + intros a b Hb. apply wp_bind, (wp_load8 _ _ b); [done|]. by apply wp_ret.
    + apply wp_ret. by rewrite He.
Qed.

Lemma wp___strchrnul m p s c Q :
  mem_wf m -> cstring m p s -> (length s + 1 < fuel)%nat ->
  Q (p + Z.of_nat (span_len (fun b => b =? u8 c) s)) m ->
  wp (__strchrnul p c) m Q.
Proof.
  intros Hwf Hs Hf HQ. unfold __strchrnul.
  pose proof (u8_range c) as Hc. set (k := u8 c) in *.
  destruct (Z.eqb_spec k 0) as [Hk|Hk].
  { apply wp_bind, (wp_strlen _ _ s); [done..|]. apply wp_ret.
    replace (length s) with (span_len (fun b => b =? k) s); [done|].
    destruct Hs as [_ Hs]. rewrite Hk. clear -Hs.
    induction Hs as [|b s Hb Hs IH]; [done|]. simpl.
    destruct (Z.eqb_spec b 0); [lia|]. by rewrite IH. }
  pose proof (cstring_stops_or (fun b => b =? k) m p s Hs) as Hst.
  pose proof (span_len_le (fun b => b =? k) s) as Hlen.
  set (e := p + Z.of_nat (span_len _ s)) in *.
  apply wp_bind, (wp_align_head (fun b => (b =? 0) || (b =? k)) m e (fun s => s));
    [done|lia|by apply wp_ret|].
  intros w Hpw Hal Hw. apply wp_bind.
  apply (wp_word_scan (fun b => (b =? 0) || (b =? k)) m e); [done| |done|done|lia|].
  - intros a l Hat Hl Hlb Ha. apply wp_bind, (wp_loadw _ _ l); [done..|].
    apply wp_ret. split; [done|]. intros [Hz Hz']%andb_true_iff.
    apply Z.eqb_eq in Hz, Hz'. apply Forall_lookup.
    intros i b Hi%list_elem_of_lookup_2. apply orb_false_iff.
    split; apply Z.eqb_neq; intros ->.
    + by apply (HASZERO_spec l).
    + by apply (HASZERO_xor_spec l k).
  - intros w' Hw' Hst'.
    apply (wp_scan (fun b => (b =? 0) || (b =? k)) m e); [|done|lia|done].
    intros a b Hb. apply wp_bind, (wp_load8 _ _ b); [done|]. apply wp_ret.
    by rewrite negb_orb.
Qed.
End specs.

(** ** Bounded scans *)

(** [e] is where a scan of the [n] bytes at [src] for the byte [k] ends: at the
    first [k], or at [src + n]. *)
Definition found_at (k : Z) (m : mem) (src n e : Z) : Prop :=
  src <= e <= src + n /\
  (forall a, src <= a < e -> exists b, m !! a = Some b /\ b <> k) /\
  (e < src + n -> m !! e = Some k).

Lemma found_at_read k m src n e s :
  found_at k m src n e -> src <= s <= e -> s < src + n ->
  exists b, m !! s = Some b /\ (b = k <-> s = e).
Proof.
  intros (Hle & Hin & He) Hs Hn. destruct (decide (s = e)) as [->|Hne].
  - exists k. split; [|done]. apply He. lia.
  - destruct (Hin s) as (b & Hb & Hbk); [lia|]. exists b. split; [done|]. split; lia.
Qed.

Lemma found_at_word k m src n e s l :
  found_at k m src n e -> src <= s <= e -> s + Z.of_nat (length l) <= src + n ->
  bytes_at m s l -> k ∉ l -> s + Z.of_nat (length l) <= e.
Proof.
  intros (Hle & Hin & He) Hs Hn Hat Hk.
  destruct (decide (s + Z.of_nat (length l) <= e)) as [|Hlt]; [done|exfalso].
  destruct (lookup_lt_is_Some_2 l (Z.to_nat (e - s))) as [v Hv]; [lia|].
  apply Hk. apply (list_elem_of_lookup_2 _ (Z.to_nat (e - s))). rewrite Hv. f_equal.
  apply Hat in Hv. replace (s + Z.of_nat (Z.to_nat (e - s))) with e in Hv by lia.
  rewrite He in Hv by lia. congruence.
Qed.

Section bounded.
Context {F : Fuel}.

Section memchr.
Context (m : mem) (src c n e : Z).
Context (Hwf : mem_wf m) (Hfd : found_at (u8 c) m src n e).
Context (Hf : e - src + 1 < Z.of_nat fuel).

Let inv : Z * Z -> Prop := fun '(s, k) => s + k = src + n /\ src <= s <= e.

Lemma memchr_byte_loop (extra : Z -> bool) s k Q :
  inv (s, k) ->
  (forall s' k', inv (s', k') -> (extra s' = true -> s' = e) -> Q (s', k') m) ->
  wp (while (fun '(s, n) =>
               (extra s && negb (n =? 0)) &&&
               (b ← load8 s; mret (negb (b =? u8 c))))
            (fun '(s, n) => mret (s + 1, n - 1)) (s, k)) m Q.
Proof.
  intros Hi HQ. pose proof (proj1 Hfd) as Hle.
  apply (wp_while (fun x m' => m' = m /\ inv x) (fun '(s, _) => Z.to_nat (e - s)));
    [|done|simpl in Hi; lia].
  clear s k Hi. intros [s k] m' [-> Hi]. simpl in Hi. apply wp_andM.
  - intros [Hex Hk]%andb_true_iff.
    destruct (found_at_read _ _ _ _ _ s Hfd) as (b & Hb & Hbe); [lia..|].
    apply wp_bind, (wp_load8 _ _ b); [done|]. apply wp_ret.
    destruct (Z.eqb_spec b (u8 c)) as [Heq|Hne]; simpl.
    + apply HQ; [done|]. intros _. by apply Hbe.
    + apply wp_ret. split; [|lia]. simpl. split; [done|].
      assert (s <> e) by (intros Hse; by apply Hne, Hbe). lia.
  - intros Hex. apply HQ; [done|]. intros Hex'. rewrite Hex' in Hex. simpl in Hex.
    lia.
Qed.

Lemma wp_memchr Q :
  Q (if e =? src + n then 0 else e) m -> wp (memchr src c n) m Q.
Proof.
  intros HQ. pose proof (proj1 Hfd) as Hle. unfold memchr. apply wp_bind.
  apply (memchr_byte_loop (fun s => negb (Z.land s 7 =? 0))).
  { simpl. lia. }
  intros s1 n1 Hi1 Hex1. cbn beta iota. apply wp_bind.
  assert (Hret : forall s n', inv (s, n') -> s = e ->
            wp (mret (if n' =? 0 then 0 else s)) m Q).
  { intros s n' Hi ->. apply wp_ret. simpl in Hi.
    replace (n' =? 0) with (e =? src + n); [done|].
    destruct (Z.eqb_spec e (src + n)), (Z.eqb_spec n' 0); lia. }
  assert (Hword : forall s n', inv (s, n') -> s mod 8 = 0 ->
    wp ('(w, n) ← while (fun '(w, n) =>
                 (8 <=? n) &&&
                 (x ← load64 w; mret (HASZERO (Z.lxor x (u64 (ONES * u8 c))) =? 0)))
               (fun '(w, n) => mret (w + 8, n - 8)) (s, n');
        while (fun '(s, n) =>
             negb (n =? 0) &&& (b ← load8 s; mret (negb (b =? u8 c))))
          (fun '(s, n) => mret (s + 1, n - 1)) (w, n)) m
      (fun a m' => wp (let '(s, n) := a in mret (if n =? 0 then 0 else s)) m' Q)).
  { intros s n' Hi Hal. apply wp_bind.
    apply (wp_while (fun x m' => m' = m /\ inv x /\ x.1 mod 8 = 0)
             (fun '(s, _) => Z.to_nat (e - s))); [|done|simpl in Hi; lia].
    clear s n' Hi Hal. intros [w k] m' (-> & Hi & Hal). simpl in Hi, Hal.
    assert (Htail : wp (while (fun '(s, n) =>
               negb (n =? 0) &&& (b ← load8 s; mret (negb (b =? u8 c))))
            (fun '(s, n) => mret (s + 1, n - 1)) (w, k)) m
         (fun a m' => wp (let '(s, n) := a in mret (if n =? 0 then 0 else s)) m' Q)).
    { apply (memchr_byte_loop (fun _ => true)); [done|]. auto. }
    apply wp_andM; [|done]. intros H8%Z.leb_le.
    destruct (found_at_read _ _ _ _ _ w Hfd) as (b & Hb & _); [lia..|].
    destruct (mem_wf_word m w) as (l & Hl & Hat & Hlb); [by eauto..|].
    apply wp_bind, (wp_loadw _ _ l); [done..|]. apply wp_ret.
    destruct (Z.eqb_spec (HASZERO (Z.lxor (le_combine l) (u64 (ONES * u8 c)))) 0)
      as [Hz|Hz]; [|done].
    apply wp_ret. assert (Hk : u8 c ∉ l).
    { intros Hin. apply (HASZERO_xor_spec l (u8 c)) in Hin; [done..|apply u8_range]. }
    pose proof (found_at_word _ _ _ _ _ w l Hfd) as Hw. rewrite Hl in Hw.
    specialize (Hw ltac:(lia) ltac:(lia) Hat Hk). simpl. split; [|lia].
    split_and!; [done|lia..|]. by rewrite Z.add_mod, Hal. }
  apply wp_andM.
  - intros Hn1. simpl in Hi1.
    destruct (found_at_read _ _ _ _ _ s1 Hfd) as (b & Hb & Hbe); [lia..|].
    apply wp_bind, (wp_load8 _ _ b); [done|]. apply wp_ret.
    destruct (Z.eqb_spec b (u8 c)) as [Heq|Hne]; simpl; apply wp_bind.
    + apply wp_ret. apply Hret; [done|]. by apply Hbe.
    + apply Hword; [done|]. destruct (Z.land s1 7 =? 0) eqn:H7.
      * apply Z.eqb_eq in H7. change 7 with (Z.ones 3) in H7.
        by rewrite Z.land_ones in H7 by lia.
      * exfalso. by apply Hne, Hbe, Hex1.
  - intros Hn1. apply wp_bind, wp_ret. simpl in Hi1. apply Hret; [done|]. lia.
Qed.
End memchr.
End bounded.

Section specs2.
Context {F : Fuel}.

Lemma wp_strchr m p s c Q :
  mem_wf m -> cstring m p s -> (length s + 1 < fuel)%nat ->
  Q (if decide (u8 c ∈ s ++ [0])
     then p + Z.of_nat (span_len (fun b => b =? u8 c) s) else 0) m ->
  wp (strchr p c) m Q.
Proof.
  intros Hwf Hs Hf HQ. unfold strchr.
  apply wp_bind, (wp___strchrnul _ _ s); [done..|].
  destruct Hs as [Hat Hpos]. set (k := u8 c) in *.
  assert (Hsp : exists b, (s ++ [0]) !! span_len (fun b => b =? k) s = Some b /\
            (b =? k) = bool_decide (k ∈ s ++ [0])).
  { clearbody k. clear -Hpos. induction Hpos as [|b s Hb Hs (b' & Hb' & IH)].
    - exists 0. split; [done|]. cbn [app]. destruct (Z.eqb_spec 0 k) as [<-|Hk]; symmetry.
      + apply bool_decide_eq_true_2. by left.
      + apply bool_decide_eq_false_2. by intros ?%list_elem_of_singleton.
    - simpl. destruct (Z.eqb_spec b k) as [->|Hne].
      + exists k. split; [done|]. rewrite Z.eqb_refl, bool_decide_eq_true_2; [done|left].
      + exists b'. split; [done|]. rewrite IH. apply bool_decide_ext.
        rewrite elem_of_cons. split; [by right|]. intros [?|?]; [congruence|done]. }
  destruct Hsp as (b & Hb & Hbk). apply wp_bind, (wp_load8 _ _ b); [by apply Hat|].
  apply wp_ret. rewrite Hbk. by case_decide; case_bool_decide.
Qed.

(** [__memrchr] scans backwards: [e] is the last match, or just before [s]. *)
Lemma wp_memrchr m s c n e Q :
  s - 1 <= e < s + n ->
  (forall a, e < a < s + n -> exists b, m !! a = Some b /\ b <> u8 c) ->
  (s <= e -> m !! e = Some (u8 c)) ->
  n < Z.of_nat fuel ->
  Q (if e =? s - 1 then 0 else e) m -> wp (__memrchr s c n) m Q.
Proof.
  intros He Hin Hm Hf HQ. unfold __memrchr.
  apply (wp_loop (fun k m' => m' = m /\ e < s + k <= s + n) Z.to_nat);
    [|split; [done|lia]|lia].
  intros k m' (-> & Hk). destruct (Z.eqb_spec k 0) as [->|Hk0].
  { apply wp_ret. by rewrite (proj2 (Z.eqb_eq e (s - 1))) in HQ by lia. }
  destruct (decide (e = s + (k - 1))) as [->|Hne].
  - apply wp_bind, (wp_load8 _ _ (u8 c)); [apply Hm; lia|]. rewrite Z.eqb_refl.
    apply wp_ret. by rewrite (proj2 (Z.eqb_neq _ _)) in HQ by lia.
  - destruct (Hin (s + (k - 1))) as (b & Hb & Hbk); [lia|].
    apply wp_bind, (wp_load8 _ _ b); [done|]. rewrite (proj2 (Z.eqb_neq _ _)) by done.
    apply wp_ret. split; [|lia]. split; [done|lia].
Qed.

Lemma bytes_not_in m p l k :
  bytes_at m p l -> k ∉ l ->
  forall a, p <= a < p + Z.of_nat (length l) -> exists b, m !! a = Some b /\ b <> k.
Proof.
  intros Hat Hc a Ha.
  destruct (lookup_lt_is_Some_2 l (Z.to_nat (a - p))) as [b Hb]; [lia|].
  exists b. split; [eapply bytes_at_lookup; [done..|lia]|].
  intros ->. apply Hc. by eapply list_elem_of_lookup_2.
Qed.

Lemma wp_strnlen m p l n Q :
  mem_wf m -> 0 < p -> bytes_at m p l -> 0 ∉ l -> 0 <= n ->
  n <= Z.of_nat (length l) \/ m !! (p + Z.of_nat (length l)) = Some 0 ->
  (length l + 1 < fuel)%nat ->
  Q (Z.min n (Z.of_nat (length l))) m -> wp (strnlen p n) m Q.
Proof.
  intros Hwf Hp Hat H0 Hn Hend Hf HQ. unfold strnlen. apply wp_bind.
  apply (wp_memchr _ _ _ _ (p + Z.min n (Z.of_nat (length l)))); [done| |lia|].
  - split; [lia|]. change (u8 0) with 0. split.
    + intros a Ha. apply (bytes_not_in m p l); [done..|lia].
    + intros Hlt. replace (Z.min n _) with (Z.of_nat (length l)) by lia.
      destruct Hend; [lia|done].
  - apply wp_ret. destruct (Z.eqb_spec (p + Z.min n (Z.of_nat (length l))) (p + n)).
    + simpl. by replace n with (Z.min n (Z.of_nat (length l))) by lia.
    + rewrite (proj2 (Z.eqb_neq _ 0)) by lia.
      by replace (p + Z.min n (Z.of_nat (length l)) - p)
        with (Z.min n (Z.of_nat (length l))) by lia.
Qed.
End specs2.

(** ** Properties *)

(** [strlen], reading eight bytes at a time, returns the length of the
    string without touching memory, faulting or diverging, whatever the
    alignment of its argument. *)
Theorem strlen_correct {F : Fuel} m p s :
  mem_wf m -> cstring m p s -> (length s + 1 < fuel)%nat ->
  strlen p m = Done (Z.of_nat (length s), m).
Proof. intros. by apply wp_eq, (wp_strlen _ _ s). Qed.

Definition scan_mem : mem :=
  mem_of 16 [7; 7; 7; 104; 101; 108; 108; 111; 32; 119; 111; 114; 108; 100; 33; 33;
             33; 33; 0; 9; 9; 9; 9; 9].

Lemma strlen_correct_witness :
  strlen (F := 40%nat) 19 scan_mem = Done (15, scan_mem).
Proof.
  refine (strlen_correct (F := 40%nat) scan_mem 19
    [104; 101; 108; 108; 111; 32; 119; 111; 114; 108; 100; 33; 33; 33; 33] _ _ _).
  - apply mem_wfb_correct. by vm_compute.
  - apply cstringb_correct. by vm_compute.
  - apply Nat.ltb_lt. by vm_compute.
Defined.

(** [memchr] returns the address of the first of the [n] bytes at [p] that
    equals [(unsigned char)c], or 0 when none does; bytes after the first match
    need not be mapped.  [__memrchr] returns the address of the last one. *)
Theorem memchr_correct {F : Fuel} m p l k l' c :
  mem_wf m -> bytes_at m p (l ++ k ++ l') -> u8 c ∉ l -> u8 c ∉ l' ->
  (length (l ++ k ++ l') + 1 < fuel)%nat ->
  let n := Z.of_nat (length (l ++ k ++ l')) in
  (k = [] -> memchr p c n m = Done (0, m) /\ __memrchr p c n m = Done (0, m)) /\
  (forall k1, k = u8 c :: k1 -> forall n', Z.of_nat (length l) < n' ->
     memchr p c n' m = Done (p + Z.of_nat (length l), m)) /\
  (forall k1, k = k1 ++ [u8 c] ->
     __memrchr p c n m = Done (p + Z.of_nat (length (l ++ k1)), m)).
Proof.
  intros Hwf [Hl [Hk Hl']%bytes_at_app]%bytes_at_app Hc Hc' Hf n.
  pose proof (bytes_not_in _ _ _ _ Hl Hc) as Hin.
  pose proof (bytes_not_in _ _ _ _ Hl' Hc') as Hin'.
  rewrite !length_app in Hf. split_and!.
  - intros ->. simpl in *. split; apply wp_eq.
    + apply (wp_memchr _ _ _ _ (p + n)); [done| |subst n; rewrite !length_app; lia|].
      * split; [subst n; lia|]. split; [|lia]. intros a Ha.
        destruct (decide (a < p + Z.of_nat (length l))); [apply Hin; lia|].
        apply Hin'. subst n. rewrite length_app in Ha. simpl. lia.
      * by rewrite Z.eqb_refl.
    + apply (wp_memrchr _ _ _ _ (p - 1)); [subst n; lia| |lia|subst n; rewrite length_app; lia|].
      * intros a Ha. destruct (decide (a < p + Z.of_nat (length l))); [apply Hin; lia|].
        apply Hin'. subst n. rewrite length_app in Ha. simpl. lia.
      * by rewrite Z.eqb_refl.
  - intros k1 -> n' Hn'. apply wp_eq, (wp_memchr _ _ _ _ (p + Z.of_nat (length l)));
      [done| |lia|].
    + split; [lia|]. split; [done|]. intros _. by apply bytes_at_cons in Hk as [Hk _].
    + by rewrite (proj2 (Z.eqb_neq _ _)) by lia.
  - intros k1 ->. apply bytes_at_app in Hk as [_ [Hk _]%bytes_at_cons].
    apply wp_eq, (wp_memrchr _ _ _ _ (p + Z.of_nat (length (l ++ k1)))); subst n;
      rewrite !length_app in *; simpl in *.
    + lia.
    + intros a Ha. apply Hin'. lia.
    + intros _. rewrite <- Hk. f_equal. lia.
    + lia.
    + by rewrite (proj2 (Z.eqb_neq _ _)) by lia.
Qed.

Lemma memchr_correct_witness :
  memchr (F := 40%nat) 19 33 200 scan_mem = Done (30, scan_mem) /\
  __memrchr (F := 40%nat) 19 33 16 scan_mem = Done (33, scan_mem).
Proof.
  assert (H := memchr_correct (F := 40%nat) scan_mem 19
    [104; 101; 108; 108; 111; 32; 119; 111; 114; 108; 100] [33; 33; 33; 33] [0] 33).
  destruct H as (_ & H1 & H2).
  - apply mem_wfb_correct. by vm_compute.
  - apply bytes_atb_correct. by vm_compute.
  - by apply (bool_decide_unpack _).
  - by apply (bool_decide_unpack _).
  - apply Nat.ltb_lt. by vm_compute.
  - split; [by apply (H1 [33; 33; 33])|by apply (H2 [33; 33; 33])].
Defined.

(** [strchr] and [__strchrnul] find the first occurrence of the character
    (the terminator included, for [strchr]), [strrchr] the last one, and
    [strnlen] is the string length clamped to [n], reading nothing past [n]. *)
Theorem strchr_family_correct {F : Fuel} m p s c :
  mem_wf m -> cstring m p s -> 0 < p -> (length s + 1 < fuel)%nat ->
  __strchrnul p c m = Done (p + Z.of_nat (span_len (fun b => b =? u8 c) s), m) /\
  strchr p c m =
    Done (if decide (u8 c ∈ s ++ [0])
          then p + Z.of_nat (span_len (fun b => b =? u8 c) s) else 0, m) /\
  (forall l l', s ++ [0] = l ++ u8 c :: l' -> u8 c ∉ l' ->
     strrchr p c m = Done (p + Z.of_nat (length l), m)) /\
  (u8 c ∉ s ++ [0] -> strrchr p c m = Done (0, m)) /\
  (forall n, 0 <= n -> strnlen p n m = Done (Z.min n (Z.of_nat (length s)), m)).
Proof.
  intros Hwf Hs Hp Hf. split_and!.
  - by apply wp_eq, (wp___strchrnul _ _ s).
  - by apply wp_eq, (wp_strchr _ _ s).
  - intros l l' Heq Hl'. apply wp_eq. unfold strrchr.
    assert (Hlen : Z.of_nat (length s) + 1 = Z.of_nat (length l) + 1 + Z.of_nat (length l')).
    { apply (f_equal length) in Heq. rewrite !length_app in Heq. simpl in Heq. lia. }
    apply wp_bind, (wp_strlen _ _ s); [done..|]. destruct Hs as [Hat _].
    rewrite Heq in Hat. apply bytes_at_app in Hat as [_ [Hc Hat]%bytes_at_cons].
    apply (wp_memrchr _ _ _ _ (p + Z.of_nat (length l))); [lia| |done|lia|].
    + intros a Ha. apply (bytes_not_in _ _ _ _ Hat Hl'). lia.
    + by rewrite (proj2 (Z.eqb_neq _ _)) by lia.
  - intros Hc. apply wp_eq. unfold strrchr.
    apply wp_bind, (wp_strlen _ _ s); [done..|]. destruct Hs as [Hat _].
    apply (wp_memrchr _ _ _ _ (p - 1)); [lia| |lia|lia|].
    + intros a Ha. apply (bytes_not_in _ _ _ _ Hat Hc). rewrite length_app. simpl. lia.
    + by rewrite Z.eqb_refl.
  - intros n Hn. apply wp_eq, (wp_strnlen _ _ s); try done.
    + by destruct Hs as [[Hs _]%bytes_at_app _].
    + destruct Hs as [_ Hs]. intros Hin%list_elem_of_In.
      eapply Forall_forall in Hs; [|exact Hin]. simpl in Hs. lia.
    + right. by destruct Hs as [[_ [Hs _]%bytes_at_cons]%bytes_at_app _].
Qed.

Lemma strchr_family_correct_witness :
  strchr (F := 40%nat) 19 111 scan_mem = Done (23, scan_mem) /\
  strnlen (F := 40%nat) 19 6 scan_mem = Done (6, scan_mem).
Proof.
  assert (H := strchr_family_correct (F := 40%nat) scan_mem 19
    [104; 101; 108; 108; 111; 32; 119; 111; 114; 108; 100; 33; 33; 33; 33] 111).
  destruct H as (_ & H1 & _ & _ & H2).
  - apply mem_wfb_correct. by vm_compute.
  - apply cstringb_correct. by vm_compute.
  - done.
  - apply Nat.ltb_lt. by vm_compute.
  - split; [rewrite H1; by vm_compute|by apply H2].
Defined.
