(* ===== verification/Copy.v ===== *)
(** Block memory operations: [memcpy], [memmove], [memset] and [memcmp] of
    src/musl-1.1.19/src/string/, with their alignment cases and word accesses
    (little-endian, as on x86_64; [long] is 64 bits wide). *)
From S2P Require Import Prelude Mem.

(** ** Operations *)

(** [j] repetitions of the statement [*d++ = *s++;]. *)
Fixpoint copy_bytes (j : nat) (d s : Z) : M (Z * Z) :=
  match j with
  | O => mret (d, s)
  | S j => b ← load8 s;  store8 d b;;  copy_bytes j (d + 1) (s + 1)
  end.

(** [*(u32 * )(d) = *(u32 * )(s)]. *)
Definition copy_u32 (d s : Z) : M unit := x ← load32 s; store32 d x.

(** One 16-byte step of the loops that shift words: [sh] is 24, 16 or 8, [o]
    the offset 1, 2 or 3 of the first word to load. *)
Definition memcpy_step (sh o : Z) (d s w : Z) : M Z :=
  x ← load32 (s + o);
  store32 (d + 0) (Z.lor (Z.shiftr w sh) (u32 (Z.shiftl x (32 - sh))));;
  w ← load32 (s + o + 4);
  store32 (d + 4) (Z.lor (Z.shiftr x sh) (u32 (Z.shiftl w (32 - sh))));;
  x ← load32 (s + o + 8);
  store32 (d + 8) (Z.lor (Z.shiftr w sh) (u32 (Z.shiftl x (32 - sh))));;
  w ← load32 (s + o + 12);
  store32 (d + 12) (Z.lor (Z.shiftr x sh) (u32 (Z.shiftl w (32 - sh))));;
  mret w.

Section operations.
Context {F : Fuel}.

(** One case of the switch: [o] is 1, 2 or 3, and the loop runs while
    [n >= 16 + o]. *)
Definition memcpy_shifted (o : Z) (d s n : Z) : M (Z * Z * Z) :=
  let k := 4 - o in
  w ← load32 s;
  '(d, s) ← copy_bytes (Z.to_nat k) d s;
  '(d, s, n, _) ← while (fun '(d, s, n, w) => mret (16 + o <=? n))
    (fun '(d, s, n, w) =>
       w ← memcpy_step (32 - 8 * o) o d s w;
       mret (d + 16, s + 16, n - 16, w)) (d, s, n - k, w);
  mret (d, s, n).

Definition memcpy (dest src n : Z) : M Z :=
  '(d, s, n) ← while (fun '(d, s, n) => mret (negb (s mod 4 =? 0) && negb (n =? 0)))
    (fun '(d, s, n) => '(d, s) ← copy_bytes 1 d s; mret (d, s, n - 1)) (dest, src, n);
  if d mod 4 =? 0 then
    '(d, s, n) ← while (fun '(d, s, n) => mret (16 <=? n))
      (fun '(d, s, n) =>
         copy_u32 (d + 0) (s + 0);; copy_u32 (d + 4) (s + 4);;
         copy_u32 (d + 8) (s + 8);; copy_u32 (d + 12) (s + 12);;
         mret (d + 16, s + 16, n - 16)) (d, s, n);
    '(d, s) ← (if negb (Z.land n 8 =? 0) then
        copy_u32 (d + 0) (s + 0);; copy_u32 (d + 4) (s + 4);; mret (d + 8, s + 8)
      else mret (d, s));
    '(d, s) ← (if negb (Z.land n 4 =? 0) then
        copy_u32 (d + 0) (s + 0);; mret (d + 4, s + 4)
      else mret (d, s));
    '(d, s) ← (if negb (Z.land n 2 =? 0) then copy_bytes 2 d s else mret (d, s));
    (if negb (Z.land n 1 =? 0) then b ← load8 s; store8 d b else mret tt);;
    mret dest
  else
    '(d, s, n) ← (if 32 <=? n then
        (if d mod 4 =? 1 then memcpy_shifted 1 d s n
         else if d mod 4 =? 2 then memcpy_shifted 2 d s n
         else memcpy_shifted 3 d s n)
      else mret (d, s, n));
    '(d, s) ← (if negb (Z.land n 16 =? 0) then copy_bytes 16 d s else mret (d, s));
    '(d, s) ← (if negb (Z.land n 8 =? 0) then copy_bytes 8 d s else mret (d, s));
    '(d, s) ← (if negb (Z.land n 4 =? 0) then copy_bytes 4 d s else mret (d, s));
    '(d, s) ← (if negb (Z.land n 2 =? 0) then copy_bytes 2 d s else mret (d, s));
    (if negb (Z.land n 1 =? 0) then b ← load8 s; store8 d b else mret tt);;
    mret dest.

(** [None] is the early [return dest] of the alignment loops. *)
Definition memmove (dest src n : Z) : M Z :=
  let d := dest in
  let s := src in
  if d =? s then mret d
  else if (s + n <=? d) || (d + n <=? s) then memcpy d s n
  else if d <? s then
    r ← (if s mod 8 =? d mod 8 then
           r ← loop (fun '(d, s, n) =>
                 if d mod 8 =? 0 then mret (inr (Some (d, s, n)))
                 else if n =? 0 then mret (inr None)
                 else '(d, s) ← copy_bytes 1 d s; mret (inl (d, s, n - 1))) (d, s, n);
           match r with
           | None => mret None
           | Some (d, s, n) =>
               x ← while (fun '(d, s, n) => mret (8 <=? n))
                 (fun '(d, s, n) => x ← load64 s; store64 d x;; mret (d + 8, s + 8, n - 8))
                 (d, s, n);
               mret (Some x)
           end
         else mret (Some (d, s, n)));
    match r with
    | None => mret dest
    | Some (d, s, n) =>
        while (fun '(d, s, n) => mret (negb (n =? 0)))
          (fun '(d, s, n) => '(d, s) ← copy_bytes 1 d s; mret (d, s, n - 1)) (d, s, n);;
        mret dest
    end
  else
    r ← (if s mod 8 =? d mod 8 then
           r ← loop (fun n =>
                 if (d + n) mod 8 =? 0 then mret (inr (Some n))
                 else if n =? 0 then mret (inr None)
                 else let n := n - 1 in
                      b ← load8 (s + n); store8 (d + n) b;; mret (inl n)) n;
           match r with
           | None => mret None
           | Some n =>
               n ← while (fun n => mret (8 <=? n))
                 (fun n => let n := n - 8 in
                    x ← load64 (s + n); store64 (d + n) x;; mret n) n;
               mret (Some n)
           end
         else mret (Some n));
    match r with
    | None => mret dest
    | Some n =>
        while (fun n => mret (negb (n =? 0)))
          (fun n => let n := n - 1 in
             b ← load8 (s + n); store8 (d + n) b;; mret n) n;;
        mret dest
    end.
End operations.

(** ** Copying forward

    [l] is the source as it was in the initial memory [m0]; the destination may
    lie before the source and overlap it.  [fwd k] is memory once the first
    [k] bytes have been copied. *)
Section forward.
Context {F : Fuel} (m0 : mem) (dest src : Z) (l : list Z).
Context (Hl : bytes_at m0 src l) (Hb : bytes l).
Context (Hmap : mapped m0 dest (Z.of_nat (length l))).
Context (Hov : dest <= src \/ src + Z.of_nat (length l) <= dest).

Definition fwd (k : nat) : mem := mem_write m0 dest (take k l).

Lemma fwd_0 : fwd 0 = m0.
Proof. done. Qed.

Lemma fwd_full k : (length l <= k)%nat -> fwd k = mem_write m0 dest l.
Proof. intros. unfold fwd. by rewrite take_ge. Qed.

(** What is still to be copied is intact. *)
Lemma fwd_src k i v :
  (k <= i)%nat -> l !! i = Some v -> fwd k !! (src + Z.of_nat i) = Some v.
Proof.
  intros Hk Hi. apply lookup_lt_Some in Hi as Hlt. unfold fwd.
  rewrite lookup_mem_write_out; [by apply Hl|]. rewrite length_take. lia.
Qed.

Lemma fwd_bytes k a j :
  (k <= a)%nat -> bytes_at (fwd k) (src + Z.of_nat a) (take j (drop a l)).
Proof.
  intros Hka i v Hi. apply lookup_take_Some in Hi as [Hi _]. rewrite lookup_drop in Hi.
  rewrite <- Z.add_assoc, <- Nat2Z.inj_add. apply fwd_src; [lia|done].
Qed.

Lemma fwd_mapped k q n : mapped m0 q n -> mapped (fwd k) q n.
Proof. apply mapped_write. Qed.

Lemma fwd_step k j :
  (k + j <= length l)%nat ->
  mem_write (fwd k) (dest + Z.of_nat k) (take j (drop k l)) = fwd (k + j).
Proof.
  intros Hk. unfold fwd. rewrite <- take_take_drop, mem_write_app, length_take.
  by rewrite Nat.min_l by lia.
Qed.

Lemma fwd_wf k : mem_wf m0 -> mem_wf (fwd k).
Proof.
  intros Hwf. apply mem_wf_write; [done|by apply Forall_take|].
  eapply mapped_sub; [done|lia|]. rewrite length_take. lia.
Qed.

(** Storing the next [j] bytes of the source in any way advances by [j]. *)
Lemma wp_fwd_store8 k b Q :
  l !! k = Some b -> Q tt (fwd (S k)) -> wp (store8 (dest + Z.of_nat k) b) (fwd k) Q.
Proof.
  intros Hk HQ. apply lookup_lt_Some in Hk as Hlt.
  apply wp_store8; [apply fwd_mapped with (n := Z.of_nat (length l)) (q := dest); [done|lia]|].
  replace (<[dest + Z.of_nat k := u8 b]> (fwd k)) with (fwd (S k)); [done|].
  rewrite <- (Nat.add_1_r k), <- fwd_step by lia.
  rewrite (drop_S _ _ _ Hk). simpl. rewrite u8_id; [done|].
  by eapply Forall_lookup_1 in Hb.
Qed.

Lemma wp_fwd_load8 k b Q :
  l !! k = Some b -> Q b (fwd k) -> wp (load8 (src + Z.of_nat k)) (fwd k) Q.
Proof. intros Hk HQ. eapply wp_load8; [|done]. by apply fwd_src. Qed.

Lemma wp_copy_bytes j k Q :
  (k + j <= length l)%nat ->
  Q (dest + Z.of_nat (k + j), src + Z.of_nat (k + j)) (fwd (k + j)) ->
  wp (copy_bytes j (dest + Z.of_nat k) (src + Z.of_nat k)) (fwd k) Q.
Proof.
  revert k. induction j as [|j IH]; intros k Hk HQ; simpl.
  { apply wp_ret. by rewrite Nat.add_0_r in HQ. }
  destruct (lookup_lt_is_Some_2 l k) as [b Hlk]; [lia|].
  apply wp_bind, (wp_fwd_load8 _ b); [done|].
  apply wp_bind, wp_fwd_store8; [done|].
  replace (dest + Z.of_nat k + 1) with (dest + Z.of_nat (S k)) by lia.
  replace (src + Z.of_nat k + 1) with (src + Z.of_nat (S k)) by lia.
  apply IH; [lia|]. by replace (S k + j)%nat with (k + S j)%nat by lia.
Qed.

Lemma wp_fwd_loadw w a k p Q :
  (k <= a)%nat -> (a + w <= length l)%nat ->
  p = src + Z.of_nat a -> p mod Z.of_nat w = 0 ->
  Q (le_combine (take w (drop a l))) (fwd k) -> wp (loadw w p) (fwd k) Q.
Proof.
  intros Hka Hk -> Hal HQ. eapply wp_loadw; [by apply fwd_bytes| |done..].
  rewrite length_take, length_drop. lia.
Qed.

Lemma wp_fwd_storew w k p x Q :
  (k + w <= length l)%nat -> p = dest + Z.of_nat k -> p mod Z.of_nat w = 0 ->
  x = le_combine (take w (drop k l)) ->
  Q tt (fwd (k + w)) -> wp (storew w p x) (fwd k) Q.
Proof.
  intros Hk -> Hal -> HQ.
  assert (Hlen : length (take w (drop k l)) = w) by (rewrite length_take, length_drop; lia).
  apply wp_storew; [by apply Forall_take, Forall_drop|done| |done|].
  - apply fwd_mapped. eapply mapped_sub; [done|lia|lia].
  - by rewrite fwd_step.
Qed.

Lemma wp_copy_u32 k d s Q :
  (k + 4 <= length l)%nat -> d = dest + Z.of_nat k -> s = src + Z.of_nat k ->
  d mod 4 = 0 -> s mod 4 = 0 -> Q tt (fwd (k + 4)) -> wp (copy_u32 d s) (fwd k) Q.
Proof.
  intros Hk Hd Hs Hda Hsa HQ. apply wp_bind, (wp_fwd_loadw 4 k); [lia|done..|].
  by apply (wp_fwd_storew 4 k).
Qed.
End forward.

(** ** Assembling a word from two neighbouring aligned words *)
Lemma shifted_word j pre a b :
  bytes pre -> bytes a -> bytes b ->
  length pre = j -> length a = (4 - j)%nat -> length b = 4%nat -> (j <= 4)%nat ->
  Z.lor (Z.shiftr (le_combine (pre ++ a)) (8 * Z.of_nat j))
        (u32 (Z.shiftl (le_combine b) (32 - 8 * Z.of_nat j)))
  = le_combine (a ++ take j b).
Proof.
  intros Hp Ha Hb Hlp Hla Hlb Hj.
  pose proof (le_combine_range _ Hp) as Hrp. pose proof (le_combine_range _ Ha) as Hra.
  rewrite !le_combine_app, Hla, Hlp. rewrite Hlp, pow256 in Hrp. rewrite Hla in Hra.
  rewrite Z.shiftr_div_pow2, Z.shiftl_mul_pow2 by lia.
  replace (32 - 8 * Z.of_nat j) with (8 * Z.of_nat (4 - j)) by lia.
  rewrite <- le_combine_take by done. rewrite !pow256 in *.
  rewrite (Z.mul_comm (2 ^ _) (le_combine a)), Z.div_add, (Z.div_small (le_combine pre)) by lia.
  unfold u32. replace 32 with (8 * Z.of_nat j + 8 * Z.of_nat (4 - j)) by lia.
  rewrite Z.pow_add_r, Z.mul_mod_distr_r by lia.
  rewrite Z.add_0_l, lor_add by lia. lia.
Qed.

(** The bits of a small count. *)
Definition wt (n : Z) (j : nat) : nat := if negb (Z.land n (Z.of_nat j) =? 0) then j else O.

Lemma five_bits n : 0 <= n < 32 ->
  n = Z.of_nat (wt n 16 + wt n 8 + wt n 4 + wt n 2 + wt n 1).
Proof.
  intros Hn. apply Z.eqb_eq. revert n Hn.
  apply (range_forall 32 (fun n =>
    n =? Z.of_nat (wt n 16 + wt n 8 + wt n 4 + wt n 2 + wt n 1))). by vm_compute.
Qed.

Lemma four_bits n : 0 <= n < 16 -> n = Z.of_nat (wt n 8 + wt n 4 + wt n 2 + wt n 1).
Proof.
  intros Hn. apply Z.eqb_eq. revert n Hn.
  apply (range_forall 16 (fun n =>
    n =? Z.of_nat (wt n 8 + wt n 4 + wt n 2 + wt n 1))). by vm_compute.
Qed.

Section memcpy_proof.
Context {F : Fuel} (m0 : mem) (dest src : Z) (l : list Z).
Context (Hl : bytes_at m0 src l) (Hb : bytes l).
Context (Hmap : mapped m0 dest (Z.of_nat (length l))).
Context (Hov : dest <= src \/ src + Z.of_nat (length l) <= dest).
Context (Hf : (length l + 1 < fuel)%nat).

Local Abbreviation fwd := (fwd m0 dest l).

Definition at_ (k : nat) : Z * Z * Z :=
  (dest + Z.of_nat k, src + Z.of_nat k, Z.of_nat (length l) - Z.of_nat k).

Lemma wp_cond_copy (j : nat) n k d s Q :
  d = dest + Z.of_nat k -> s = src + Z.of_nat k -> (k + wt n j <= length l)%nat ->
  Q (dest + Z.of_nat (k + wt n j), src + Z.of_nat (k + wt n j)) (fwd (k + wt n j)) ->
  wp (if negb (Z.land n (Z.of_nat j) =? 0) then copy_bytes j d s else mret (d, s)) (fwd k) Q.
Proof.
  intros -> -> Hc HQ. unfold wt in *. destruct (negb _).
  - by apply (wp_copy_bytes m0 dest src l Hl Hb Hmap Hov).
  - apply wp_ret. by rewrite Nat.add_0_r in HQ.
Qed.

Lemma wp_cond_last n k d s Q :
  d = dest + Z.of_nat k -> s = src + Z.of_nat k -> (length l = k + wt n 1)%nat ->
  Q tt (mem_write m0 dest l) ->
  wp (if negb (Z.land n 1 =? 0) then b ← load8 s; store8 d b else mret tt) (fwd k) Q.
Proof.
  intros -> -> Hc HQ. unfold wt in Hc. change (Z.of_nat 1) with 1 in Hc. destruct (negb _).
  - destruct (lookup_lt_is_Some_2 l k) as [b Hk]; [lia|].
    apply wp_bind, (wp_fwd_load8 m0 dest src l Hl Hov _ b); [done|].
    apply (wp_fwd_store8 m0 dest l Hb Hmap); [done|].
    by rewrite fwd_full by lia.
  - apply wp_ret. by rewrite fwd_full by lia.
Qed.

Local Ltac copy_word k :=
  apply wp_bind, (wp_copy_u32 m0 dest src l Hl Hb Hmap Hov k); [lia|lia|lia|mlia|mlia|].

(** The byte-wise tail of the unaligned case. *)
Lemma wp_tail_bytes k d s n Q :
  (d, s, n) = at_ k -> (k <= length l)%nat -> n < 32 ->
  Q dest (mem_write m0 dest l) ->
  wp ('(d, s) ← (if negb (Z.land n 16 =? 0) then copy_bytes 16 d s else mret (d, s));
      '(d, s) ← (if negb (Z.land n 8 =? 0) then copy_bytes 8 d s else mret (d, s));
      '(d, s) ← (if negb (Z.land n 4 =? 0) then copy_bytes 4 d s else mret (d, s));
      '(d, s) ← (if negb (Z.land n 2 =? 0) then copy_bytes 2 d s else mret (d, s));
      (if negb (Z.land n 1 =? 0) then b ← load8 s; store8 d b else mret tt);;
      mret dest) (fwd k) Q.
Proof.
  intros [= -> -> Hn'] Hk Hn HQ. pose proof (five_bits n ltac:(lia)) as H5.
  apply wp_bind, (wp_cond_copy 16); [done..|lia|].
  apply wp_bind, (wp_cond_copy 8); [done..|lia|].
  apply wp_bind, (wp_cond_copy 4); [done..|lia|].
  apply wp_bind, (wp_cond_copy 2); [done..|lia|].
  apply wp_bind, wp_cond_last; [done..|lia|]. by apply wp_ret.
Qed.

(** Conditional word copies of the aligned case: [aligned k n] says that the
    positions after [k] bytes are word aligned, unless nothing is left. *)
Definition aligned (k : nat) (n : Z) : Prop :=
  (dest + Z.of_nat k) mod 4 = 0 /\ ((src + Z.of_nat k) mod 4 = 0 \/ n = 0).

Lemma aligned_wt k n j : j = 8%nat \/ j = 4%nat -> aligned k n -> aligned (k + wt n j) n.
Proof.
  unfold aligned, wt. intros Hj [Hd Hs]. destruct (negb _).
  - split; [|destruct Hs; [left|by right]]; destruct Hj as [-> | ->]; mlia.
  - by rewrite Nat.add_0_r.
Qed.

Lemma wp_cond_word8 n k d s Q :
  d = dest + Z.of_nat k -> s = src + Z.of_nat k ->
  (k + wt n 8 <= length l)%nat -> aligned k n ->
  Q (dest + Z.of_nat (k + wt n 8), src + Z.of_nat (k + wt n 8)) (fwd (k + wt n 8)) ->
  wp (if negb (Z.land n 8 =? 0) then
        copy_u32 (d + 0) (s + 0);; copy_u32 (d + 4) (s + 4);; mret (d + 8, s + 8)
      else mret (d, s)) (fwd k) Q.
Proof.
  intros -> -> Hk [Hda Hsa] HQ. unfold wt in *. change (Z.of_nat 8) with 8 in *.
  destruct (negb (Z.land n 8 =? 0)) eqn:E.
  - assert (n <> 0) by (intros ->; done). destruct Hsa as [Hsa|]; [|done].
    copy_word k. copy_word (k + 4)%nat. apply wp_ret.
    replace (k + 4 + 4)%nat with (k + 8)%nat by lia.
    by replace (dest + Z.of_nat k + 8) with (dest + Z.of_nat (k + 8)) by lia;
      replace (src + Z.of_nat k + 8) with (src + Z.of_nat (k + 8)) by lia.
  - apply wp_ret. by rewrite Nat.add_0_r in HQ.
Qed.

Lemma wp_cond_word4 n k d s Q :
  d = dest + Z.of_nat k -> s = src + Z.of_nat k ->
  (k + wt n 4 <= length l)%nat -> aligned k n ->
  Q (dest + Z.of_nat (k + wt n 4), src + Z.of_nat (k + wt n 4)) (fwd (k + wt n 4)) ->
  wp (if negb (Z.land n 4 =? 0) then
        copy_u32 (d + 0) (s + 0);; mret (d + 4, s + 4)
      else mret (d, s)) (fwd k) Q.
Proof.
  intros -> -> Hk [Hda Hsa] HQ. unfold wt in *. change (Z.of_nat 4) with 4 in *.
  destruct (negb (Z.land n 4 =? 0)) eqn:E.
  - assert (n <> 0) by (intros ->; done). destruct Hsa as [Hsa|]; [|done].
    copy_word k. apply wp_ret.
    by replace (dest + Z.of_nat k + 4) with (dest + Z.of_nat (k + 4)) by lia;
      replace (src + Z.of_nat k + 4) with (src + Z.of_nat (k + 4)) by lia.
  - apply wp_ret. by rewrite Nat.add_0_r in HQ.
Qed.

(** The tail of the aligned case. *)
Lemma wp_tail_words k d s n Q :
  (d, s, n) = at_ k -> (k <= length l)%nat -> n < 16 -> aligned k n ->
  Q dest (mem_write m0 dest l) ->
  wp ('(d, s) ← (if negb (Z.land n 8 =? 0) then
        copy_u32 (d + 0) (s + 0);; copy_u32 (d + 4) (s + 4);; mret (d + 8, s + 8)
      else mret (d, s));
    '(d, s) ← (if negb (Z.land n 4 =? 0) then
        copy_u32 (d + 0) (s + 0);; mret (d + 4, s + 4)
      else mret (d, s));
    '(d, s) ← (if negb (Z.land n 2 =? 0) then copy_bytes 2 d s else mret (d, s));
    (if negb (Z.land n 1 =? 0) then b ← load8 s; store8 d b else mret tt);;
    mret dest) (fwd k) Q.
Proof.
  intros [= Hd Hs Hn'] Hk Hn Hal HQ. pose proof (four_bits n ltac:(lia)) as H4.
  apply wp_bind, (wp_cond_word8 _ k); [done|done|lia|done|].
  apply wp_bind, wp_cond_word4; [done|done|lia|apply aligned_wt; auto|].
  apply wp_bind, (wp_cond_copy 2); [done..|lia|].
  apply wp_bind, wp_cond_last; [done..|lia|]. by apply wp_ret.
Qed.

(** One word of a shifted loop: [w] holds the source word that ends [o] bytes
    after the current position [k]. *)
Lemma wp_shift_word o k w p q (kont : Z -> M Z) Q :
  (1 <= o <= 3)%nat -> (4 - o <= k)%nat -> (k + 4 + o <= length l)%nat ->
  p = src + Z.of_nat k + Z.of_nat o -> q = dest + Z.of_nat k ->
  p mod 4 = 0 -> q mod 4 = 0 ->
  w = le_combine (take 4 (drop (k - (4 - o)) l)) ->
  wp (kont (le_combine (take 4 (drop (k + 4 - (4 - o)) l)))) (fwd (k + 4)) Q ->
  wp (x ← load32 p;
      store32 q (Z.lor (Z.shiftr w (32 - 8 * Z.of_nat o))
                       (u32 (Z.shiftl x (8 * Z.of_nat o))));;
      kont x) (fwd k) Q.
Proof.
  intros Ho Hk Hk' -> -> Hp Hq -> HQ.
  apply wp_bind, (wp_fwd_loadw m0 dest src l Hl Hov 4 (k + o)); [lia|lia|lia|done|].
  replace (k + 4 - (4 - o))%nat with (k + o)%nat in HQ by lia.
  apply wp_bind, (wp_fwd_storew m0 dest l Hb Hmap 4 k); [lia|done|done| |done].
  replace (32 - 8 * Z.of_nat o) with (8 * Z.of_nat (4 - o)) by lia.
  replace (8 * Z.of_nat o) with (32 - 8 * Z.of_nat (4 - o)) by lia.
  set (j := (4 - o)%nat).
  replace (take 4 (drop (k - j) l)) with (take j (drop (k - j) l) ++ take o (drop k l)).
  - rewrite (shifted_word j); try (by apply Forall_take, Forall_drop).
    + f_equal. rewrite take_take, Nat.min_l by lia.
      rewrite <- drop_drop, take_take_drop. f_equal. lia.
    + rewrite length_take, length_drop. lia.
    + rewrite length_take, length_drop. lia.
    + rewrite length_take, length_drop. lia.
    + lia.
  - replace k with ((k - j) + j)%nat at 2 by lia. rewrite <- drop_drop.
    rewrite take_take_drop. f_equal. lia.
Qed.

(** One 16-byte step of a shifted loop. *)
Lemma wp_memcpy_step o k d s w Q :
  (1 <= o <= 3)%nat -> d = dest + Z.of_nat k -> s = src + Z.of_nat k ->
  (4 - o <= k)%nat -> (k + 16 + o <= length l)%nat ->
  d mod 4 = 0 -> (s + Z.of_nat o) mod 4 = 0 ->
  w = le_combine (take 4 (drop (k - (4 - o)) l)) ->
  Q (le_combine (take 4 (drop (k + 16 - (4 - o)) l))) (fwd (k + 16)) ->
  wp (memcpy_step (32 - 8 * Z.of_nat o) (Z.of_nat o) d s w) (fwd k) Q.
Proof.
  intros Ho Hd Hs Hk Hk' Hda Hsa Hw HQ. unfold memcpy_step.
  replace (32 - (32 - 8 * Z.of_nat o)) with (8 * Z.of_nat o) by lia.
  apply (wp_shift_word o k); [lia|lia|lia|lia|lia|mlia|mlia|done|].
  apply (wp_shift_word o (k + 4)); [lia|lia|lia|lia|lia|mlia|mlia|done|].
  apply (wp_shift_word o (k + 4 + 4)); [lia|lia|lia|lia|lia|mlia|mlia|done|].
  apply (wp_shift_word o (k + 4 + 4 + 4)); [lia|lia|lia|lia|lia|mlia|mlia|done|].
  apply wp_ret. replace (k + 4 + 4 + 4 + 4)%nat with (k + 16)%nat by lia. exact HQ.
Qed.

Lemma wp_memcpy_shifted o k d s n Q :
  (1 <= o <= 3)%nat -> (d, s, n) = at_ k -> (k <= length l)%nat -> 32 <= n ->
  d mod 4 = Z.of_nat o -> s mod 4 = 0 ->
  (forall k', (k' <= length l)%nat -> Z.of_nat (length l) - Z.of_nat k' < 32 ->
     Q (at_ k') (fwd k')) ->
  wp (memcpy_shifted (Z.of_nat o) d s n) (fwd k) Q.
Proof.
  intros Ho [= Hd Hs Hn] Hk Hn32 Hda Hsa HQ. unfold memcpy_shifted.
  replace (Z.to_nat (4 - Z.of_nat o)) with (4 - o)%nat by lia.
  apply wp_bind, (wp_fwd_loadw m0 dest src l Hl Hov 4 k); [lia|lia|lia|subst; mlia|].
  subst d s. apply wp_bind, (wp_copy_bytes m0 dest src l Hl Hb Hmap Hov); [lia|].
  set (k0 := (k + (4 - o))%nat). cbn beta iota.
  apply wp_bind, (wp_while (fun '(d, s, n, w) m =>
      exists k', (d, s, n) = at_ k' /\ m = fwd k' /\ (k0 <= k')%nat /\
        (k' + o <= length l)%nat /\ d mod 4 = 0 /\ (s + Z.of_nat o) mod 4 = 0 /\
        w = le_combine (take 4 (drop (k' - (4 - o)) l)))
      (fun '(d, s, n, w) => Z.to_nat n)).
  - intros [[[d s] n'] w] m (k' & [= Hd' Hs' Hn'] & -> & Hk0 & Hk' & Hd4 & Hs4 & Hw).
    apply wp_ret. destruct (Z.leb_spec (16 + Z.of_nat o) n') as [Hle|Hlt].
    + apply wp_bind, (wp_memcpy_step o k'); try done; try lia.
      apply wp_ret. split; [|lia]. exists (k' + 16)%nat. unfold at_.
      split; [f_equal; [f_equal|]; lia|]. split_and!; try done; try lia; mlia.
    + apply wp_ret. unfold at_ in HQ. rewrite Hd', Hs', Hn'. apply HQ; lia.
  - exists k0. split; [unfold at_; f_equal; lia|]. split_and!; try lia.
    + done.
    + mlia.
    + mlia.
    + f_equal. f_equal. f_equal. lia.
  - lia.
Qed.

Lemma wp_memcpy Q :
  Q dest (mem_write m0 dest l) -> wp (memcpy dest src (Z.of_nat (length l))) m0 Q.
Proof.
  intros HQ. unfold memcpy. change m0 with (fwd 0) at 1.
  apply wp_bind, (wp_while (fun x m => exists k, x = at_ k /\ m = fwd k /\ (k <= length l)%nat)
                    (fun '(d, s, n) => Z.to_nat n)); [| |lia].
  2: { exists O. unfold at_. rewrite !Z.add_0_r, Z.sub_0_r. by split_and!; [| |lia]. }
  intros [[d s] n] m (k & [= Hd Hs Hn] & -> & Hk). apply wp_ret.
  destruct (negb (s mod 4 =? 0) && negb (n =? 0)) eqn:Hc.
  { apply andb_true_iff in Hc as [_ Hn0]. subst d s.
    apply wp_bind, (wp_copy_bytes m0 dest src l Hl Hb Hmap Hov 1); [lia|].
    apply wp_ret. split; [|lia]. exists (k + 1)%nat. unfold at_.
    split_and!; [f_equal; lia|done|lia]. }
  assert (Hsn : s mod 4 = 0 \/ n = 0) by (apply andb_false_iff in Hc; lia).
  clear Hc. destruct (Z.eqb_spec (d mod 4) 0) as [Hd0|Hd0].
  - apply wp_bind, (wp_while (fun '(d, s, n) m =>
        exists k, (d, s, n) = at_ k /\ m = fwd k /\ (k <= length l)%nat /\ aligned k n)
                    (fun '(d, s, n) => Z.to_nat n)); [| |lia].
    2: { exists k. unfold at_. rewrite <- Hd, <- Hs, <- Hn. split_and!; try done.
         unfold aligned. by rewrite <- Hd, <- Hs. }
    clear k d s n Hd Hs Hn Hk Hsn Hd0. intros [[d s] n] m (k & [= Hd Hs Hn] & -> & Hk & Hal).
    apply wp_ret. destruct (Z.leb_spec 16 n) as [Hle|Hlt].
    + destruct Hal as [Hda [Hsa|]]; [|lia].
      copy_word k. copy_word (k + 4)%nat. copy_word (k + 4 + 4)%nat.
      copy_word (k + 4 + 4 + 4)%nat. apply wp_ret. split; [|lia].
      exists (k + 4 + 4 + 4 + 4)%nat. unfold at_, aligned.
      split_and!; [f_equal; [f_equal|]; lia|done|lia|mlia|left; mlia].
    + apply wp_tail_words; [by rewrite Hd, Hs, Hn|done..].
  - apply wp_bind. destruct (Z.leb_spec 32 n) as [Hle|Hlt].
    + assert (Hs4 : s mod 4 = 0) by lia.
      assert (Hsh : forall o, (1 <= o <= 3)%nat -> d mod 4 = Z.of_nat o ->
        wp (memcpy_shifted (Z.of_nat o) d s n) (fwd k) (fun a m' =>
          exists k', a = at_ k' /\ m' = fwd k' /\ (k' <= length l)%nat /\
                     Z.of_nat (length l) - Z.of_nat k' < 32)).
      { intros o Ho Hdo. apply (wp_memcpy_shifted o k); try done.
        - by rewrite Hd, Hs, Hn.
        - intros k' ??. by exists k'. }
      assert (Hd4 : d mod 4 = 1 \/ d mod 4 = 2 \/ d mod 4 = 3) by mlia.
      eapply wp_mono with (P := fun a m' => exists k', a = at_ k' /\ m' = fwd k' /\
         (k' <= length l)%nat /\ Z.of_nat (length l) - Z.of_nat k' < 32).
      * destruct Hd4 as [H1|[H2|H3]]; rewrite ?H1, ?H2, ?H3; simpl.
        -- by apply (Hsh 1%nat); [lia|].
        -- by apply (Hsh 2%nat); [lia|].
        -- by apply (Hsh 3%nat); [lia|].
      * intros a m' (k' & -> & -> & Hk' & Hn'). by apply (wp_tail_bytes k').
    + apply wp_ret, wp_tail_bytes; [by rewrite Hd, Hs, Hn|done..].
Qed.
End memcpy_proof.

(** ** Copying backward

    [bwd k] is memory once all but the first [k] bytes have been copied; the
    destination may lie after the source and overlap it. *)
Section backward.
Context {F : Fuel} (m0 : mem) (dest src : Z) (l : list Z).
Context (Hl : bytes_at m0 src l) (Hb : bytes l).
Context (Hmap : mapped m0 dest (Z.of_nat (length l))).
Context (Hov : src <= dest).

Definition bwd (k : nat) : mem := mem_write m0 (dest + Z.of_nat k) (drop k l).

Lemma bwd_src k i v :
  (i < k)%nat -> l !! i = Some v -> bwd k !! (src + Z.of_nat i) = Some v.
Proof.
  intros Hk Hi. apply lookup_lt_Some in Hi as Hlt. unfold bwd.
  rewrite lookup_mem_write_out; [by apply Hl|]. rewrite length_drop. lia.
Qed.

Lemma bwd_step k j :
  (j <= k <= length l)%nat ->
  mem_write (bwd k) (dest + Z.of_nat (k - j)) (take j (drop (k - j) l)) = bwd (k - j).
Proof.
  intros Hk. unfold bwd. apply map_eq. intros a.
  rewrite !lookup_mem_write, length_take, !length_drop. repeat case_decide; try lia.
  - rewrite lookup_take_lt by lia. done.
  - rewrite !lookup_drop. f_equal. lia.
  - done.
Qed.

Lemma wp_bwd_word {A} (kont : M A) k p q Q :
  (8 <= k <= length l)%nat -> p = src + Z.of_nat k - 8 -> q = dest + Z.of_nat k - 8 ->
  p mod 8 = 0 -> q mod 8 = 0 ->
  wp kont (bwd (k - 8)) Q ->
  wp (x ← load64 p; store64 q x;; kont) (bwd k) Q.
Proof.
  intros Hk Hp Hq Hpa Hqa HQ.
  assert (Hlen : length (take 8 (drop (k - 8) l)) = 8%nat)
    by (rewrite length_take, length_drop; lia).
  apply wp_bind, (wp_loadw _ _ (take 8 (drop (k - 8) l))); [|done..|].
  - intros i v Hi. apply lookup_lt_Some in Hi as Hlt.
    apply lookup_take_Some in Hi as [Hi _]. rewrite lookup_drop in Hi.
    replace (p + Z.of_nat i) with (src + Z.of_nat (k - 8 + i)) by lia.
    apply bwd_src; [lia|done].
  - apply wp_bind, wp_storew; [by apply Forall_take, Forall_drop|done| |done|].
    + apply mapped_write. eapply mapped_sub; [done|lia|lia].
    + rewrite <- bwd_step in HQ by lia.
      by replace (dest + Z.of_nat (k - 8)) with q in HQ by lia.
Qed.

Lemma wp_bwd_byte {A} (kont : M A) k p q Q :
  (1 <= k <= length l)%nat -> p = src + Z.of_nat k - 1 -> q = dest + Z.of_nat k - 1 ->
  wp kont (bwd (k - 1)) Q -> wp (b ← load8 p; store8 q b;; kont) (bwd k) Q.
Proof.
  intros Hk Hp Hq HQ. destruct (lookup_lt_is_Some_2 l (k - 1)) as [b Hb1]; [lia|].
  apply wp_bind, (wp_load8 _ _ b).
  { replace p with (src + Z.of_nat (k - 1)) by lia. apply bwd_src; [lia|done]. }
  apply wp_bind, wp_store8.
  { apply mapped_write with (q := dest) (n := Z.of_nat (length l)); [done|lia]. }
  rewrite <- bwd_step in HQ by lia.
  replace (dest + Z.of_nat (k - 1)) with q in HQ by lia.
  rewrite (drop_S _ _ _ Hb1) in HQ. simpl in HQ.
  rewrite u8_id; [done|by eapply Forall_lookup_1 in Hb].
Qed.

Lemma wp_bwd_tail {A} (kont : M A) k Q :
  (k <= length l)%nat -> (length l < fuel)%nat -> wp kont (mem_write m0 dest l) Q ->
  wp (while (fun n => mret (negb (n =? 0)))
       (fun n => let n := n - 1 in
          b ← load8 (src + n); store8 (dest + n) b;; mret n) (Z.of_nat k);; kont)
     (bwd k) Q.
Proof.
  intros Hk Hf HQ. apply wp_bind.
  apply (wp_while (fun n m => exists k, n = Z.of_nat k /\ m = bwd k /\ (k <= length l)%nat)
          Z.to_nat); [|by eauto|lia].
  clear k Hk. intros n m (k & -> & -> & Hk). apply wp_ret.
  destruct (Z.eqb_spec (Z.of_nat k) 0) as [H0|H0]; simpl.
  - assert (k = O) as -> by lia. unfold bwd. by rewrite Z.add_0_r.
  - apply (wp_bwd_byte _ k); [lia..|]. apply wp_ret. split; [|lia].
    exists (k - 1)%nat. split_and!; [lia|done|lia].
Qed.
End backward.

(** ** memmove *)
Lemma copy_self m p l : bytes_at m p l -> mem_write m p l = m.
Proof.
  intros H. apply map_eq. intros a. rewrite lookup_mem_write. case_decide as Ha; [|done].
  destruct (lookup_lt_is_Some_2 l (Z.to_nat (a - p))) as [v Hv]; [lia|].
  rewrite Hv. symmetry. eapply bytes_at_lookup; [done..|lia].
Qed.

Section memmove_proof.
Context {F : Fuel} (m0 : mem) (dest src : Z) (l : list Z).
Context (Hl : bytes_at m0 src l) (Hb : bytes l).
Context (Hmap : mapped m0 dest (Z.of_nat (length l))).
Context (Hf : (length l + 1 < fuel)%nat).

Local Abbreviation at_ := (at_ dest src l).
Local Abbreviation fwd := (fwd m0 dest l).
Local Abbreviation bwd := (bwd m0 dest l).

Lemma wp_memmove_forward_tail k Q :
  dest <= src -> (k <= length l)%nat -> Q dest (mem_write m0 dest l) ->
  wp (while (fun '(d, s, n) => mret (negb (n =? 0)))
        (fun '(d, s, n) => '(d, s) ← copy_bytes 1 d s; mret (d, s, n - 1)) (at_ k);;
      mret dest) (fwd k) Q.
Proof.
  intros Hle Hk HQ. assert (Hov : dest <= src \/ src + Z.of_nat (length l) <= dest) by auto.
  apply wp_bind, (wp_while (fun x m => exists k, x = at_ k /\ m = fwd k /\ (k <= length l)%nat)
         (fun '(d, s, n) => Z.to_nat n)); [|by exists k|unfold Copy.at_; lia].
  clear k Hk. intros x m (k & -> & -> & Hk). unfold Copy.at_. apply wp_ret.
  destruct (Z.eqb_spec (Z.of_nat (length l) - Z.of_nat k) 0) as [H0|H0]; simpl.
  - apply wp_ret. by rewrite fwd_full by lia.
  - apply wp_bind, (wp_copy_bytes m0 dest src l Hl Hb Hmap Hov 1); [lia|].
    apply wp_ret. split; [|lia]. exists (k + 1)%nat.
    split_and!; [unfold Copy.at_; f_equal; lia|done|lia].
Qed.

Lemma wp_memmove Q :
  Q dest (mem_write m0 dest l) -> wp (memmove dest src (Z.of_nat (length l))) m0 Q.
Proof.
  intros HQ. unfold memmove. destruct (Z.eqb_spec dest src) as [->|Hne].
  { apply wp_ret. by rewrite copy_self in HQ. }
  destruct ((src + _ <=? dest) || (dest + _ <=? src)) eqn:Hdis.
  { apply (wp_memcpy m0 dest src l); try done. apply orb_true_iff in Hdis. lia. }
  apply orb_false_iff in Hdis. destruct (Z.ltb_spec dest src) as [Hlt|Hge].
  - assert (Hov : dest <= src \/ src + Z.of_nat (length l) <= dest) by lia.
    assert (H0 : (dest, src, Z.of_nat (length l)) = at_ 0).
    { unfold Copy.at_. by rewrite !Z.add_0_r, Z.sub_0_r. }
    apply wp_bind.
    apply (wp_mono _ _ (fun r m => exists k, (k <= length l)%nat /\ m = fwd k /\
        (r = Some (at_ k) \/ (r = None /\ k = length l)))).
    2: { intros r m (k & Hk & -> & [-> | [-> ->]]).
         - by apply wp_memmove_forward_tail; [lia|..].
         - apply wp_ret. by rewrite fwd_full by lia. }
    destruct (Z.eqb_spec (src mod 8) (dest mod 8)) as [Hal|]; cycle 1.
    { apply wp_ret. exists O. split_and!; [lia|done|left; by rewrite H0]. }
    apply wp_bind, (wp_loop (fun x m => exists k, x = at_ k /\ m = fwd k /\ (k <= length l)%nat)
         (fun '(d, s, n) => Z.to_nat n)); [| |lia].
    2: { exists O. split_and!; [done|done|lia]. }
    intros x m (k & -> & -> & Hk). unfold Copy.at_ at 1.
    destruct (Z.eqb_spec ((dest + Z.of_nat k) mod 8) 0) as [Hd0|].
    + apply wp_ret. apply wp_bind, (wp_while (fun x m => exists k, x = at_ k /\ m = fwd k /\
           (k <= length l)%nat /\ (dest + Z.of_nat k) mod 8 = 0)
           (fun '(d, s, n) => Z.to_nat n)); [|by exists k|unfold Copy.at_; lia].
      clear k Hk Hd0. intros x m (k & -> & -> & Hk & Hd0). unfold Copy.at_. apply wp_ret.
      destruct (Z.leb_spec 8 (Z.of_nat (length l) - Z.of_nat k)).
      * apply wp_bind, (wp_fwd_loadw m0 dest src l Hl Hov 8 k); [lia|lia|done|mlia|].
        apply wp_bind, (wp_fwd_storew m0 dest l Hb Hmap 8 k); [lia|done|mlia|done|].
        apply wp_ret. split; [|lia]. exists (k + 8)%nat. unfold Copy.at_.
        split_and!; [f_equal; [f_equal|]; lia|done|lia|mlia].
      * apply wp_ret. exists k. split_and!; [done|done|by left].
    + unfold Copy.at_. destruct (Z.eqb_spec (Z.of_nat (length l) - Z.of_nat k) 0).
      * apply wp_ret, wp_ret. exists k. split_and!; [done|done|right; split; [done|lia]].
      * apply wp_bind, (wp_copy_bytes m0 dest src l Hl Hb Hmap Hov 1); [lia|].
        apply wp_ret. split; [|lia]. exists (k + 1)%nat.
        split_and!; [unfold Copy.at_; f_equal; lia|done|lia].
  - assert (Hov : src <= dest) by lia.
    assert (Hb0 : bwd (length l) = m0).
    { unfold Copy.bwd. by rewrite drop_all. }
    rewrite <- Hb0 at 1. apply wp_bind.
    apply (wp_mono _ _ (fun r m => exists k, (k <= length l)%nat /\ m = bwd k /\
        (r = Some (Z.of_nat k) \/ (r = None /\ k = O)))).
    2: { intros r m (k & Hk & -> & [-> | [-> ->]]).
         - apply (wp_bwd_tail m0 dest src l Hl Hb Hmap Hov); [done|lia|by apply wp_ret].
         - apply wp_ret. unfold Copy.bwd. by rewrite Z.add_0_r. }
    destruct (Z.eqb_spec (src mod 8) (dest mod 8)) as [Hal|]; cycle 1.
    { apply wp_ret. exists (length l). split_and!; [lia|done|by left]. }
    apply wp_bind, (wp_loop (fun n m => exists k, n = Z.of_nat k /\ m = bwd k /\
         (k <= length l)%nat) Z.to_nat); [|by exists (length l)|lia].
    intros x m (k & -> & -> & Hk).
    destruct (Z.eqb_spec ((dest + Z.of_nat k) mod 8) 0) as [Hd0|].
    + apply wp_ret. apply wp_bind, (wp_while (fun n m => exists k, n = Z.of_nat k /\
           m = bwd k /\ (k <= length l)%nat /\ (dest + Z.of_nat k) mod 8 = 0)
           Z.to_nat); [|by exists k|lia].
      clear k Hk Hd0. intros x m (k & -> & -> & Hk & Hd0). apply wp_ret.
      destruct (Z.leb_spec 8 (Z.of_nat k)).
      * apply (wp_bwd_word m0 dest src l Hl Hb Hmap Hov _ k); [lia|lia|lia|mlia|mlia|].
        apply wp_ret. split; [|lia]. exists (k - 8)%nat.
        split_and!; [lia|done|lia|mlia].
      * apply wp_ret. exists k. split_and!; [done|done|by left].
    + destruct (Z.eqb_spec (Z.of_nat k) 0).
      * apply wp_ret, wp_ret. exists k. split_and!; [done|done|right; split; [done|lia]].
      * apply (wp_bwd_byte m0 dest src l Hl Hb Hmap Hov _ k); [lia|lia|lia|].
        apply wp_ret. split; [|lia]. exists (k - 1)%nat. split_and!; [lia|done|lia].
Qed.
End memmove_proof.

(** ** Properties *)

(** C25: [memcpy] copies [n] bytes between non-overlapping regions at every
    combination of alignments: head bytes, aligned 16-byte loop, the three
    shifted-word loops and the tails never fault and change nothing else. *)
Theorem memcpy_correct {F : Fuel} m dest src l :
  bytes_at m src l -> bytes l -> mapped m dest (Z.of_nat (length l)) ->
  dest + Z.of_nat (length l) <= src \/ src + Z.of_nat (length l) <= dest ->
  (length l + 1 < fuel)%nat ->
  memcpy dest src (Z.of_nat (length l)) m = Done (dest, mem_write m dest l).
Proof. intros. apply wp_eq, (wp_memcpy m dest src l); try done. lia. Qed.

Definition copy_mem : mem := mem_of 16 (seqZ 1 96).

Lemma memcpy_correct_witness :
  memcpy (F := 60%nat) 65 21 39 copy_mem =
    Done (65, mem_write copy_mem 65 (seqZ 6 39)).
Proof.
  refine (memcpy_correct (F := 60%nat) copy_mem 65 21 (seqZ 6 39) _ _ _ _ _).
  - apply bytes_atb_correct. by vm_compute.
  - apply (bool_decide_unpack _). by vm_compute.
  - apply mappedb_correct. by vm_compute.
  - right. by vm_compute.
  - apply Nat.ltb_lt. by vm_compute.
Defined.

(** C7: [memmove] copies [n] bytes correctly whatever the overlap of source and
    destination: the source as it was before the call ends up at [dest]. *)
Theorem memmove_correct {F : Fuel} m dest src l :
  bytes_at m src l -> bytes l -> mapped m dest (Z.of_nat (length l)) ->
  (length l + 1 < fuel)%nat ->
  memmove dest src (Z.of_nat (length l)) m = Done (dest, mem_write m dest l).
Proof. intros. by apply wp_eq, (wp_memmove m dest src l). Qed.

Lemma memmove_correct_witness :
  memmove (F := 60%nat) 29 21 39 copy_mem = Done (29, mem_write copy_mem 29 (seqZ 6 39)) /\
  memmove (F := 60%nat) 18 21 39 copy_mem = Done (18, mem_write copy_mem 18 (seqZ 6 39)).
Proof.
  split.
  - refine (memmove_correct (F := 60%nat) copy_mem 29 21 (seqZ 6 39) _ _ _ _).
    + apply bytes_atb_correct. by vm_compute.
    + apply (bool_decide_unpack _). by vm_compute.
    + apply mappedb_correct. by vm_compute.
    + apply Nat.ltb_lt. by vm_compute.
  - refine (memmove_correct (F := 60%nat) copy_mem 18 21 (seqZ 6 39) _ _ _ _).
    + apply bytes_atb_correct. by vm_compute.
    + apply (bool_decide_unpack _). by vm_compute.
    + apply mappedb_correct. by vm_compute.
    + apply Nat.ltb_lt. by vm_compute.
Defined.
