(* ===== verification/Memset.v ===== *)
(** [memset] and [memcmp] of src/musl-1.1.19/src/string/. *)
From S2P Require Import Prelude Mem Scan.

Section operations.
Context {F : Fuel}.

Definition memset (dest c n : Z) : M Z :=
  let s := dest in
  if n =? 0 then mret dest else
  store8 (s + 0) c;; store8 (s + n - 1) c;;
  if n <=? 2 then mret dest else
  store8 (s + 1) c;; store8 (s + 2) c;;
  store8 (s + n - 2) c;; store8 (s + n - 3) c;;
  if n <=? 6 then mret dest else
  store8 (s + 3) c;; store8 (s + n - 4) c;;
  if n <=? 8 then mret dest else
  let k := Z.land (u64 (- s)) 3 in
  let s := s + k in
  let n := n - k in
  let n := Z.land n (u64 (-4)) in
  let c32 := u32 ((2 ^ 32 - 1) / 255 * u8 c) in
  store32 (s + 0) c32;; store32 (s + n - 4) c32;;
  if n <=? 8 then mret dest else
  store32 (s + 4) c32;; store32 (s + 8) c32;;
  store32 (s + n - 12) c32;; store32 (s + n - 8) c32;;
  if n <=? 24 then mret dest else
  store32 (s + 12) c32;; store32 (s + 16) c32;;
  store32 (s + 20) c32;; store32 (s + 24) c32;;
  store32 (s + n - 28) c32;; store32 (s + n - 24) c32;;
  store32 (s + n - 20) c32;; store32 (s + n - 16) c32;;
  let k := 24 + Z.land s 4 in
  let s := s + k in
  let n := n - k in
  let c64 := Z.lor c32 (Z.shiftl c32 32) in
  while (fun '(s, n) => mret (32 <=? n))
    (fun '(s, n) =>
       store64 (s + 0) c64;; store64 (s + 8) c64;;
       store64 (s + 16) c64;; store64 (s + 24) c64;;
       mret (s + 32, n - 32)) (s, n);;
  mret dest.

Definition memcmp (vl vr n : Z) : M Z :=
  '(l, r, n) ← while (fun '(l, r, n) =>
      negb (n =? 0) &&& (a ← load8 l; b ← load8 r; mret (a =? b)))
    (fun '(l, r, n) => mret (l + 1, r + 1, n - 1)) (vl, vr, n);
  if negb (n =? 0) then a ← load8 l; b ← load8 r; mret (a - b) else mret 0.
End operations.

(** ** Filling: which bytes are known to hold [c] so far *)
Section fill.
Context (m0 : mem) (p n c : Z) (Hmap : mapped m0 p n) (Hc : byte c).

Definition fills (S : Z -> Prop) (m : mem) : Prop :=
  (forall a, ~ (p <= a < p + n) -> m !! a = m0 !! a) /\
  (forall a, p <= a < p + n -> is_Some (m !! a)) /\
  (forall a, S a -> p <= a < p + n -> m !! a = Some c).

Lemma fills_start : fills (fun _ => False) m0.
Proof. split_and!; [done|apply Hmap|done]. Qed.

Lemma fills_weaken (S S' : Z -> Prop) m :
  fills S m -> (forall a, p <= a < p + n -> S' a -> S a) -> fills S' m.
Proof. intros (H1 & H2 & H3) H. split_and!; auto. Qed.

Lemma fills_done S m :
  0 <= n -> fills S m -> (forall a, p <= a < p + n -> S a) ->
  m = mem_write m0 p (replicate (Z.to_nat n) c).
Proof.
  intros Hn (H1 & H2 & H3) H. apply map_eq. intros a.
  rewrite lookup_mem_write, length_replicate. case_decide.
  - rewrite H3 by (try apply H; lia). symmetry. apply lookup_replicate. split; [done|lia].
  - apply H1. lia.
Qed.

Lemma fills_write S m q (k : nat) :
  fills S m -> p <= q -> q + Z.of_nat k <= p + n ->
  fills (fun a => S a \/ q <= a < q + Z.of_nat k) (mem_write m q (replicate k c)).
Proof.
  intros (H1 & H2 & H3) Hq1 Hq2. split_and!; intros a Ha.
  - rewrite lookup_mem_write_out; [by apply H1|]. rewrite length_replicate. lia.
  - by apply mapped_write with (q := p) (n := n).
  - intros Hr. rewrite lookup_mem_write, length_replicate. case_decide.
    + apply lookup_replicate. split; [done|lia].
    + apply H3; [|done]. destruct Ha; [done|lia].
Qed.

Lemma wp_fill8 {A} (kont : M A) x q S m Q :
  fills S m -> u8 x = c -> p <= q < p + n ->
  (forall m', fills (fun a => S a \/ q <= a < q + 1) m' -> wp kont m' Q) ->
  wp (store8 q x;; kont) m Q.
Proof.
  intros HS Hx Hq HQ. apply wp_bind, wp_store8; [by apply HS|]. rewrite Hx.
  apply HQ. apply (fills_write S m q 1) in HS; [|lia|lia]. exact HS.
Qed.

Lemma wp_fillw {A} (kont : M A) (k : nat) x q S m Q :
  fills S m -> x = le_combine (replicate k c) -> p <= q -> q + Z.of_nat k <= p + n ->
  q mod Z.of_nat k = 0 ->
  (forall m', fills (fun a => S a \/ q <= a < q + Z.of_nat k) m' -> wp kont m' Q) ->
  wp (storew k q x;; kont) m Q.
Proof.
  intros HS -> Hq1 Hq2 Hal HQ. apply wp_bind, wp_storew.
  - by apply Forall_replicate.
  - apply length_replicate.
  - intros a Ha. apply HS. lia.
  - done.
  - apply HQ. by apply fills_write.
Qed.
End fill.

Lemma c32_bytes c : byte c ->
  u32 ((2 ^ 32 - 1) / 255 * c) = le_combine (replicate 4 c).
Proof.
  intros Hc. unfold byte in Hc. change ((2 ^ 32 - 1) / 255) with 16843009.
  rewrite u32_id by lia. cbn. lia.
Qed.

Lemma c64_bytes c : byte c ->
  Z.lor (le_combine (replicate 4 c)) (Z.shiftl (le_combine (replicate 4 c)) 32)
  = le_combine (replicate 8 c).
Proof.
  intros Hc. rewrite Z.shiftl_mul_pow2, lor_add by
    (try lia; apply (le_combine_range (replicate 4 c)); by apply Forall_replicate).
  cbn. lia.
Qed.

Ltac fill8 m H :=
  eapply wp_fill8; [exact H|done|lia|clear m H; intros m H].
Ltac fillw m H :=
  eapply wp_fillw; [done|exact H|done|lia|lia|mlia|clear m H; intros m H].

(** Alignment arithmetic of [memset]. *)
Lemma align_up4 s : 0 <= s -> (s + Z.land (u64 (- s)) 3) mod 4 = 0 /\
  0 <= Z.land (u64 (- s)) 3 < 4.
Proof.
  intros Hs. change 3 with (Z.ones 2). rewrite Z.land_ones by lia.
  change (2 ^ 2) with 4. unfold u64. rewrite Z.mod_mod_divide by (by exists (2 ^ 62)). mlia.
Qed.

Lemma trunc4 n : 0 <= n < 2 ^ 64 ->
  Z.land n (u64 (-4)) mod 4 = 0 /\ n - 4 < Z.land n (u64 (-4)) <= n.
Proof.
  intros Hn. assert (Z.land n (u64 (-4)) = n - n mod 4) as ->; [|mlia].
  change (u64 (-4)) with (Z.ldiff (Z.ones 64) (Z.ones 2)).
  rewrite Z.ldiff_land, Z.land_assoc, Z.land_ones, Z.mod_small, <- Z.ldiff_land by lia.
  rewrite Z.ldiff_ones_r by lia. rewrite Z.shiftl_mul_pow2, Z.shiftr_div_pow2 by lia.
  change (2 ^ 2) with 4. mlia.
Qed.

Lemma land4 s : s mod 4 = 0 -> (s + 24 + Z.land s 4) mod 8 = 0 /\
  (Z.land s 4 = 0 \/ Z.land s 4 = 4).
Proof.
  intros Hs. assert (Z.land s 4 = 4 * (s / 4 mod 2)) as ->; [|mlia].
  change 4 with (2 ^ 2) at 1. apply Z.bits_inj'. intros i Hi.
  rewrite Z.land_spec, Z.pow2_bits_eqb by lia.
  replace (4 * (s / 4 mod 2)) with ((s / 2 ^ 2) mod 2 ^ 1 * 2 ^ 2)
    by (change (2 ^ 1) with 2; change (2 ^ 2) with 4; lia).
  rewrite Z.mul_pow2_bits by lia. destruct (Z.eqb_spec 2 i) as [<-|Hne].
  - rewrite andb_true_r, Z.mod_pow2_bits_low, Z.div_pow2_bits by lia. done.
  - rewrite andb_false_r. destruct (decide (i < 2)).
    + by rewrite Z.testbit_neg_r by lia.
    + by rewrite Z.mod_pow2_bits_high by lia.
Qed.

Section memset_proof.
Context {F : Fuel} (m0 : mem) (dest n x : Z).
Context (Hmap : mapped m0 dest n) (Hd : 0 <= dest) (Hn : 0 <= n < 2 ^ 64).
Context (Hf : n < Z.of_nat fuel).

Local Abbreviation c := (u8 x).
Local Abbreviation fills := (fills m0 dest n c).

(** The loop that fills 32 bytes at a time. *)
Lemma wp_memset_loop s k S m Q :
  fills S m -> dest <= s -> s + k <= dest + n -> s mod 8 = 0 ->
  (forall r m', fills (fun a => S a \/ s <= a < s + 32 * (k / 32)) m' -> Q r m') ->
  wp (while (fun '(s, n) => mret (32 <=? n))
    (fun '(s, n) =>
       store64 (s + 0) (le_combine (replicate 8 c));;
       store64 (s + 8) (le_combine (replicate 8 c));;
       store64 (s + 16) (le_combine (replicate 8 c));;
       store64 (s + 24) (le_combine (replicate 8 c));;
       mret (s + 32, n - 32)) (s, k)) m Q.
Proof.
  intros HS Hs Hk Hal HQ.
  apply (wp_while (fun '(s', k') m =>
      fills (fun a => S a \/ s <= a < s') m /\ s <= s' /\ s' + k' = s + k /\
      (s' - s) mod 32 = 0 /\ (0 < k -> 0 <= k'))
    (fun '(s, k) => Z.to_nat k)); [| |lia].
  - intros [s' k'] m' (Hf' & Hs' & Hsk & H32 & Hk'). apply wp_ret.
    destruct (Z.leb_spec 32 k').
    + assert (Hc := u8_range x). do 4 fillw m' Hf'. apply wp_ret. split; [|lia].
      split_and!; [|lia|lia|mlia|lia].
      eapply fills_weaken; [exact Hf'|]. intros a Ha [HSa|HSa]; [tauto|].
      destruct (decide (a < s')); [tauto|]. destruct (decide (a < s' + 8)); [lia|].
      destruct (decide (a < s' + 16)); [lia|]. lia.
    + apply HQ. eapply fills_weaken; [exact Hf'|]. intros a Ha [|HSa]; [by left|].
      right. destruct (decide (0 < k)); [specialize (Hk' ltac:(done))|]; mlia.
  - split_and!; try lia. + eapply fills_weaken; [exact HS|]. intros a _ [|]; [done|lia].
    + rewrite Z.sub_diag. done.
Qed.

(** Weakening a chain of fills to the interval it covers. *)
Local Ltac covered :=
  let a := fresh "a" in let Ha := fresh "Ha" in
  intros a Ha; intros; lia.

Lemma memset_tail s k S m :
  fills S m -> dest <= s -> s + k <= dest + n -> s mod 4 = 0 -> k mod 4 = 0 -> 8 < k ->
  (forall a, dest <= a < s \/ s <= a < s + 4 \/ s + k - 4 <= a < dest + n -> S a) ->
  wp (store32 (s + 4) (le_combine (replicate 4 c));;
      store32 (s + 8) (le_combine (replicate 4 c));;
      store32 (s + k - 12) (le_combine (replicate 4 c));;
      store32 (s + k - 8) (le_combine (replicate 4 c));;
      if k <=? 24 then mret dest else
      store32 (s + 12) (le_combine (replicate 4 c));;
      store32 (s + 16) (le_combine (replicate 4 c));;
      store32 (s + 20) (le_combine (replicate 4 c));;
      store32 (s + 24) (le_combine (replicate 4 c));;
      store32 (s + k - 28) (le_combine (replicate 4 c));;
      store32 (s + k - 24) (le_combine (replicate 4 c));;
      store32 (s + k - 20) (le_combine (replicate 4 c));;
      store32 (s + k - 16) (le_combine (replicate 4 c));;
      let j := 24 + Z.land s 4 in
      while (fun '(s, n) => mret (32 <=? n))
        (fun '(s, n) =>
           store64 (s + 0) (le_combine (replicate 8 c));;
           store64 (s + 8) (le_combine (replicate 8 c));;
           store64 (s + 16) (le_combine (replicate 8 c));;
           store64 (s + 24) (le_combine (replicate 8 c));;
           mret (s + 32, n - 32)) (s + j, k - j);;
      mret dest) m
     (fun r m' => r = dest /\ m' = mem_write m0 dest (replicate (Z.to_nat n) c)).
Proof.
  intros HS Hs Hk Hs4 Hk4 Hk8 Hcov. assert (Hc := u8_range x).
  apply (fills_weaken _ _ _ _ _ (fun a => dest <= a < s + 4 \/ s + k - 4 <= a < dest + n)) in HS;
    [|intros a Ha HSa; apply Hcov; lia].
  assert (Hk12 : 12 <= k) by mlia. do 4 fillw m HS.
  apply (fills_weaken _ _ _ _ _ (fun a => dest <= a < s + 12 \/ s + k - 12 <= a < dest + n)) in HS;
    [|intros a Ha HSa; lia].
  destruct (Z.leb_spec k 24).
  { apply wp_ret. split; [done|]. eapply fills_done; [lia|exact HS|]. intros a Ha. cbn beta. lia. }
  assert (Hk28 : 28 <= k) by mlia. do 8 fillw m HS.
  apply (fills_weaken _ _ _ _ _ (fun a => dest <= a < s + 28 \/ s + k - 28 <= a < dest + n)) in HS;
    [|intros a Ha HSa; lia].
  destruct (land4 s Hs4) as [Hal Hj]. set (j := 24 + Z.land s 4) in *.
  cbn beta zeta. apply wp_bind. eapply wp_memset_loop; [exact HS|lia|lia|mlia|].
  intros r m' Hm'. apply wp_ret. split; [done|].
  eapply fills_done; [lia|exact Hm'|]. intros a Ha. cbn beta. mlia.
Qed.

Lemma wp_memset Q :
  Q dest (mem_write m0 dest (replicate (Z.to_nat n) c)) -> wp (memset dest x n) m0 Q.
Proof.
  intros HQ. assert (Hc := u8_range x).
  apply (wp_mono _ _ (fun r m' => r = dest /\
           m' = mem_write m0 dest (replicate (Z.to_nat n) c))); [|by intros ?? [-> ->]].
  clear HQ Q. pose proof (fills_start m0 dest n c Hmap) as HS. unfold memset.
  destruct (Z.eqb_spec n 0) as [Hn0|Hn0].
  { apply wp_ret. split; [done|]. eapply fills_done; [lia|exact HS|lia]. }
  eapply wp_fill8; [exact HS|done|lia|clear HS; intros m HS]. fill8 m HS.
  destruct (Z.leb_spec n 2).
  { apply wp_ret. split; [done|]. eapply fills_done; [lia|exact HS|].
    intros a Ha. cbn beta. lia. }
  do 4 fill8 m HS. destruct (Z.leb_spec n 6).
  { apply wp_ret. split; [done|]. eapply fills_done; [lia|exact HS|].
    intros a Ha. cbn beta. lia. }
  do 2 fill8 m HS.
  apply (fills_weaken _ _ _ _ _
    (fun a => dest <= a < dest + 4 \/ dest + n - 4 <= a < dest + n)) in HS;
    [|intros a Ha HSa; lia].
  destruct (Z.leb_spec n 8).
  { apply wp_ret. split; [done|]. eapply fills_done; [lia|exact HS|].
    intros a Ha. cbn beta. lia. }
  destruct (align_up4 dest Hd) as [Hs4 Hk]. set (k := Z.land (u64 (- dest)) 3) in *.
  destruct (trunc4 (n - k)) as [Hn4 Hn']; [lia|].
  set (n' := Z.land (n - k) (u64 (-4))) in *. rewrite c32_bytes, c64_bytes by done.
  assert (4 <= n') by mlia. cbn zeta.
  fillw m HS. fillw m HS. destruct (Z.leb_spec n' 8).
  - apply wp_ret. split; [done|]. eapply fills_done; [lia|exact HS|].
    intros a Ha. cbn beta. lia.
  - eapply memset_tail; [exact HS|lia|lia|done|done|lia|].
    intros a Ha. cbn beta. lia.
Qed.
End memset_proof.

(** ** memcmp *)
Section memcmp_proof.
Context {F : Fuel}.

Lemma wp_memcmp m p q l k Q :
  bytes_at m p l -> bytes_at m q k -> length l = length k -> (length l + 1 < fuel)%nat ->
  (forall r, (r = 0 <-> l = k) ->
     (forall i a b, take i l = take i k -> l !! i = Some a -> k !! i = Some b -> a <> b ->
        r = a - b) -> Q r m) ->
  wp (memcmp p q (Z.of_nat (length l))) m Q.
Proof.
  intros Hl Hk Hlen Hf HQ. unfold memcmp.
  apply wp_bind, (wp_while (fun x m' => m' = m /\ exists i, (i <= length l)%nat /\
      x = (p + Z.of_nat i, q + Z.of_nat i, Z.of_nat (length l - i)) /\ take i l = take i k)
    (fun '(_, _, n) => Z.to_nat n)); [| |lia].
  2: { split; [done|]. exists O. split_and!; [lia| |done].
       by rewrite !Z.add_0_r, Nat.sub_0_r. }
  intros x m' (-> & i & Hi & -> & Heq). cbn beta iota. apply wp_andM.
  - intros Hn. pose proof (proj1 (Z.eqb_neq _ _) (proj1 (negb_true_iff _) Hn)) as Hn'.
    destruct (lookup_lt_is_Some_2 l i) as [a Ha]; [lia|].
    destruct (lookup_lt_is_Some_2 k i) as [b Hb]; [lia|].
    apply wp_bind, (wp_load8 _ _ a); [by apply Hl|].
    apply wp_bind, (wp_load8 _ _ b); [by apply Hk|]. apply wp_ret.
    destruct (Z.eqb_spec a b) as [->|Hab].
    + apply wp_ret. split; [|lia]. split; [done|]. exists (S i).
      split_and!; [lia|f_equal; [f_equal; lia|lia]|].
      rewrite (take_S_r _ _ b), (take_S_r k _ b) by done. by rewrite Heq.
    + rewrite Hn. apply wp_bind, (wp_load8 _ _ a); [by apply Hl|].
      apply wp_bind, (wp_load8 _ _ b); [by apply Hk|]. apply wp_ret, HQ.
      * split; [lia|]. intros ->. congruence.
      * intros j a' b' Hj Ha' Hb' Hne. assert (j = i) as ->; [|congruence].
        destruct (Nat.lt_trichotomy j i) as [Hlt|[->|Hlt]]; [exfalso|done|exfalso].
        -- apply Hne. apply (f_equal (lookup j)) in Heq.
           rewrite !lookup_take_lt in Heq by done. congruence.
        -- apply Hab. apply (f_equal (lookup i)) in Hj.
           rewrite !lookup_take_lt in Hj by done. congruence.
  - intros Hn. rewrite Hn. apply wp_ret.
    pose proof (proj1 (Z.eqb_eq _ _) (proj1 (negb_false_iff _) Hn)) as Hn'.
    assert (i = length l) as -> by lia.
    rewrite take_ge, take_ge in Heq by lia. subst k. apply HQ; [done|].
    intros j a b _ Ha Hb. congruence.
Qed.
End memcmp_proof.

(** ** Properties *)

(** [memset] sets exactly the [n] bytes at [dest] to [(unsigned char)c]: the
    overlapping head and tail stores, the alignment and the 32-byte loop leave
    no gap and write nothing outside the region. *)
Theorem memset_correct {F : Fuel} m dest c n :
  mapped m dest n -> 0 <= dest -> 0 <= n < 2 ^ 64 -> n < Z.of_nat fuel ->
  memset dest c n m =
    Done (dest, mem_write m dest (replicate (Z.to_nat n) (u8 c))).
Proof. intros. by apply wp_eq, (wp_memset m dest n c). Qed.

Lemma memset_correct_witness :
  memset (F := 90%nat) 19 (-1) 77 (mem_of 16 (seqZ 1 96)) =
    Done (19, mem_write (mem_of 16 (seqZ 1 96)) 19 (replicate 77 255)).
Proof.
  refine (memset_correct (F := 90%nat) (mem_of 16 (seqZ 1 96)) 19 (-1) 77 _ _ _ _).
  - apply mappedb_correct. by vm_compute.
  - done.
  - done.
  - by vm_compute.
Defined.
