(* ===== verification/StrCopy.v ===== *)
(** Copying strings: [stpcpy], [strcpy], [stpncpy], [strncpy], [strcat],
    [strncat], [strlcpy], [strlcat] and [memccpy] of
    src/musl-1.1.19/src/string/.  When source and destination are equally
    aligned they copy eight bytes at a time, testing each word for the
    terminator before storing it. *)
From S2P Require Import Prelude Mem Scan Copy Memset.

(** ** Operations *)
Section operations.
Context {F : Fuel}.

(** The alignment test [((uintptr_t)s & ALIGN) == ((uintptr_t)d & ALIGN)]. *)
Definition same_align (s d : Z) : bool := Z.land s 7 =? Z.land d 7.

(** [inl d] is the early [return d]. *)
Definition __stpcpy (d s : Z) : M Z :=
  r ← (if s mod 8 =? d mod 8 then
         r ← loop (fun '(d, s) =>
               if s mod 8 =? 0 then mret (inr (inr (d, s)))
               else b ← load8 s; store8 d b;;
                    if b =? 0 then mret (inr (inl d)) else mret (inl (d + 1, s + 1)))
             (d, s);
         match r with
         | inl d => mret (inl d)
         | inr (d, s) =>
             x ← while (fun '(wd, ws) => x ← load64 ws; mret (HASZERO x =? 0))
                   (fun '(wd, ws) => x ← load64 ws; store64 wd x;; mret (wd + 8, ws + 8))
                   (d, s);
             mret (inr x)
         end
       else mret (inr (d, s)));
  match r with
  | inl d => mret d
  | inr (d, s) =>
      '(d, s) ← while (fun '(d, s) =>
                   b ← load8 s; store8 d b;; mret (negb (b =? 0)))
                 (fun '(d, s) => mret (d + 1, s + 1)) (d, s);
      mret d
  end.

Definition strcpy (dest src : Z) : M Z := __stpcpy dest src;; mret dest.

(** The test [*d = *s, *d != c] as a loop condition: it stores, then tests. *)
Definition copy_test (c d s : Z) : M bool :=
  b ← load8 s; store8 d b;; mret (negb (b =? c)).

Definition __stpncpy (d s n : Z) : M Z :=
  r ← (if same_align s d then
         '(d, s, n) ← while (fun '(d, s, n) =>
               (negb (Z.land s 7 =? 0) && negb (n =? 0)) &&& copy_test 0 d s)
             (fun '(d, s, n) => mret (d + 1, s + 1, n - 1)) (d, s, n);
         t ← negb (n =? 0) &&& (b ← load8 s; mret (negb (b =? 0)));
         if (t : bool) then
           x ← while (fun '(wd, ws, n) =>
                 (8 <=? n) &&& (x ← load64 ws; mret (HASZERO x =? 0)))
               (fun '(wd, ws, n) =>
                 x ← load64 ws; store64 wd x;; mret (wd + 8, ws + 8, n - 8)) (d, s, n);
           mret (inr x)
         else mret (inl (d, n))
       else mret (inr (d, s, n)));
  '(d, n) ← match r with
    | inl x => mret x
    | inr (d, s, n) =>
        '(d, s, n) ← while (fun '(d, s, n) => negb (n =? 0) &&& copy_test 0 d s)
            (fun '(d, s, n) => mret (d + 1, s + 1, n - 1)) (d, s, n);
        mret (d, n)
    end;
  memset d 0 n;;
  mret d.

Definition strncpy (d s n : Z) : M Z := __stpncpy d s n;; mret d.

Definition strlcpy (d s n : Z) : M Z :=
  let d0 := d in
  r ← (if n =? 0 then mret (d, s)
       else
         let n := n - 1 in
         '(d, s, n) ← (if same_align s d then
             '(d, s, n) ← while (fun '(d, s, n) =>
                   (negb (Z.land s 7 =? 0) && negb (n =? 0)) &&& copy_test 0 d s)
                 (fun '(d, s, n) => mret (d + 1, s + 1, n - 1)) (d, s, n);
             t ← negb (n =? 0) &&& (b ← load8 s; mret (negb (b =? 0)));
             if (t : bool) then
               while (fun '(wd, ws, n) =>
                   (8 <=? n) &&& (x ← load64 ws; mret (HASZERO x =? 0)))
                 (fun '(wd, ws, n) =>
                   x ← load64 ws; store64 wd x;; mret (wd + 8, ws + 8, n - 8)) (d, s, n)
             else mret (d, s, n)
           else mret (d, s, n));
         '(d, s, n) ← while (fun '(d, s, n) => negb (n =? 0) &&& copy_test 0 d s)
             (fun '(d, s, n) => mret (d + 1, s + 1, n - 1)) (d, s, n);
         store8 d 0;;
         mret (d, s));
  let '(d, s) := r in
  l ← strlen s;
  mret (d - d0 + l).

Definition strlcat (d s n : Z) : M Z :=
  l ← strnlen d n;
  if l =? n then k ← strlen s; mret (l + k)
  else k ← strlcpy (d + l) s (n - l); mret (l + k).

Definition strcat (dest src : Z) : M Z :=
  n ← strlen dest; strcpy (dest + n) src;; mret dest.

Definition strncat (d s n : Z) : M Z :=
  let a := d in
  k ← strlen d;
  let d := d + k in
  '(d, s, n) ← while (fun '(d, s, n) =>
        negb (n =? 0) &&& (b ← load8 s; mret (negb (b =? 0))))
      (fun '(d, s, n) => let n := n - 1 in
         b ← load8 s; store8 d b;; mret (d + 1, s + 1, n)) (d, s, n);
  store8 d 0;;
  mret a.

Definition memccpy (dest src c n : Z) : M Z :=
  let d := dest in
  let s := src in
  let c := u8 c in
  r ← (if same_align s d then
         '(d, s, n) ← while (fun '(d, s, n) =>
               (negb (Z.land s 7 =? 0) && negb (n =? 0)) &&& copy_test c d s)
             (fun '(d, s, n) => mret (d + 1, s + 1, n - 1)) (d, s, n);
         if negb (Z.land s 7 =? 0) then mret (inl (d, s))
         else
           let k := u64 (ONES * c) in
           x ← while (fun '(wd, ws, n) =>
                 (8 <=? n) &&& (x ← load64 ws; mret (HASZERO (Z.lxor x k) =? 0)))
               (fun '(wd, ws, n) =>
                 x ← load64 ws; store64 wd x;; mret (wd + 8, ws + 8, n - 8)) (d, s, n);
           mret (inr x)
       else mret (inr (d, s, n)));
  '(d, s) ← match r with
    | inl x => mret x
    | inr (d, s, n) =>
        '(d, s, n) ← while (fun '(d, s, n) => negb (n =? 0) &&& copy_test c d s)
            (fun '(d, s, n) => mret (d + 1, s + 1, n - 1)) (d, s, n);
        mret (d, s)
    end;
  b ← load8 s;
  mret (if b =? c then d + 1 else 0).
End operations.

(** ** Copying up to a stop byte

    [l] is what the bounded loops copy from [src]: the bytes before the stop
    byte [z] and, when it comes within the [N] bytes allowed, [z] itself.  [E]
    is the position at which they stop. *)
Section until.
Context {F : Fuel} (m0 : mem) (dest src : Z) (l : list Z) (z : Z) (N E : nat).
Context (Hwf : mem_wf m0) (Hl : bytes_at m0 src l).
Context (Hmap : mapped m0 dest (Z.of_nat (length l))).
Context (Hov : dest + Z.of_nat (length l) <= src \/ src + Z.of_nat (length l) <= dest).
Context (HE : (E <= N)%nat) (Hz : z ∉ take E l).
Context (HEN : E = N -> length l = N).
Context (HEl : (E < N)%nat -> l = take E l ++ [z] /\ length l = S E).
Context (Hf : (N + 1 < fuel)%nat).

Local Abbreviation fwd := (fwd m0 dest l).
Local Definition Hb : bytes l := mem_wf_bytes _ _ _ Hwf Hl.
Local Definition Hov' : dest <= src \/ src + Z.of_nat (length l) <= dest.
Proof. lia. Qed.

(** The C state after [k] bytes. *)
Definition pos (k : nat) : Z * Z * Z :=
  (dest + Z.of_nat k, src + Z.of_nat k, Z.of_nat N - Z.of_nat k).

Lemma until_length : (E <= length l)%nat.
Proof.
  destruct (decide (E = N)) as [HN|HN]; [rewrite HEN by done; lia|].
  destruct HEl as [_ ->]; lia.
Qed.

Lemma until_read k :
  (k <= E)%nat -> (k < N)%nat ->
  exists b, l !! k = Some b /\ (b = z <-> k = E).
Proof.
  intros Hk HkN. destruct (decide (k = E)) as [->|Hne].
  - exists z. split; [|done]. destruct HEl as [Heq Hlen]; [lia|].
    rewrite Heq, lookup_app_r; rewrite length_take, Nat.min_l by lia; [|done].
    by rewrite Nat.sub_diag.
  - pose proof until_length. destruct (lookup_lt_is_Some_2 l k) as [b Hbk]; [lia|].
    exists b. split; [done|]. split; [|lia]. intros ->. exfalso. apply Hz.
    apply (list_elem_of_lookup_2 _ k). rewrite lookup_take_lt by lia. done.
Qed.

(** A word at position [k] that does not contain the stop byte is a piece of
    what is to be copied. *)
Lemma until_word k0 k w :
  (k0 <= k)%nat -> (k <= E)%nat -> (k + length w <= N)%nat ->
  bytes_at (fwd k0) (src + Z.of_nat k) w ->
  z ∉ w -> (k + length w <= E)%nat /\ w = take (length w) (drop k l).
Proof.
  revert k. induction w as [|b w IH]; intros k Hk0 Hk HkN Hat Hw.
  { split; [simpl; lia|done]. }
  simpl in HkN. destruct (until_read k) as (b' & Hbk & Hbz); [lia..|].
  apply bytes_at_cons in Hat as [Hb0 Hat].
  rewrite (fwd_src m0 dest src l Hl Hov' k0 k b') in Hb0 by done.
  simplify_eq. assert (k <> E) by (intros HkE; apply Hw; rewrite (proj2 Hbz HkE); left).
  destruct (IH (S k)) as [IH1 IH2]; [lia..| | |].
  - by replace (src + Z.of_nat (S k)) with (src + Z.of_nat k + 1) by lia.
  - intros Hin. apply Hw. by right.
  - split; [simpl; lia|]. simpl. rewrite (drop_S _ _ _ Hbk). simpl. by f_equal.
Qed.

(** The byte loop: it ends at a position [k'] where its guard [g] fails, or at
    [E] with the stop byte stored. *)
Lemma wp_until_bytes {S} (st : nat -> S) (g : nat -> bool) cond body k Q :
  (forall k, (k <= E)%nat ->
     cond (st k) = (g k &&& copy_test z (dest + Z.of_nat k) (src + Z.of_nat k))) ->
  (forall k, body (st k) = mret (st (Datatypes.S k))) ->
  (forall k, (k <= E)%nat -> g k = true -> (k < N)%nat) ->
  (k <= E)%nat ->
  (forall k', (k <= k' <= E)%nat -> g k' = false -> Q (st k') (fwd k')) ->
  ((E < N)%nat -> g E = true -> Q (st E) (fwd (Datatypes.S E))) ->
  wp (while cond body (st k)) (fwd k) Q.
Proof.
  intros Hc Hbd Hg Hk HQ1 HQ2.
  apply (wp_while_idx (fun i s m => exists k', (k <= k' <= E)%nat /\ s = st k' /\
           m = fwd k' /\ i = (E - k')%nat) _ _ (E - k));
    [|exists k; split_and!; solve [done|lia]|lia].
  intros i s m (k' & Hk' & -> & -> & ->). rewrite Hc by lia. apply wp_andM.
  2: { intros Hgk. by apply HQ1. }
  intros Hgk. destruct (until_read k') as (b & Hbk & Hbz); [lia|apply Hg; [lia|done]|].
  apply wp_bind, (wp_fwd_load8 m0 dest src l Hl Hov' _ b); [done|].
  apply wp_bind, (wp_fwd_store8 m0 dest l Hb Hmap); [done|]. apply wp_ret.
  destruct (Z.eqb_spec b z) as [Hz'|Hz']; simpl.
  - rewrite (proj1 Hbz Hz') in *. apply HQ2; [by apply Hg|done].
  - rewrite Hbd. apply wp_ret. exists (E - Datatypes.S k')%nat.
    assert (k' <> E) by (intros ->; by apply Hz', Hbz).
    split; [exists (Datatypes.S k'); split_and!; try done; lia|lia].
Qed.

(** The word loop: it ends somewhere before the stop byte. *)
Lemma wp_until_words {S} (st : nat -> S) (g : nat -> bool) (test : Z -> bool) cond body k Q :
  (forall k, (k <= E)%nat ->
     cond (st k) = (g k &&& (x ← load64 (src + Z.of_nat k); mret (test x)))) ->
  (forall k, body (st k) =
     (x ← load64 (src + Z.of_nat k); store64 (dest + Z.of_nat k) x;; mret (st (k + 8)%nat))) ->
  (forall k, (k <= E)%nat -> g k = true -> (k + 8 <= N)%nat) ->
  (forall w, length w = 8%nat -> bytes w -> test (le_combine w) = true -> z ∉ w) ->
  (src + Z.of_nat k) mod 8 = 0 -> (dest + Z.of_nat k) mod 8 = 0 -> (k <= E)%nat ->
  (forall k', (k <= k' <= E)%nat -> Q (st k') (fwd k')) ->
  wp (while cond body (st k)) (fwd k) Q.
Proof.
  intros Hc Hbd Hg Ht Hsa Hda Hk HQ.
  apply (wp_while_idx (fun i s m => exists k', (k <= k' <= E)%nat /\ s = st k' /\
           m = fwd k' /\ i = (E - k')%nat /\
           (src + Z.of_nat k') mod 8 = 0 /\ (dest + Z.of_nat k') mod 8 = 0) _ _ (E - k));
    [|exists k; split_and!; solve [done|lia]|lia].
  intros i s m (k' & Hk' & -> & -> & -> & Hsa' & Hda'). rewrite Hc by lia. apply wp_andM.
  2: { intros Hgk. by apply HQ. }
  intros Hgk. pose proof (Hg _ (proj2 Hk') Hgk) as Hk8.
  destruct (until_read k') as (b & Hbk & _); [lia..|].
  pose proof (fwd_wf m0 dest l Hb Hmap k' Hwf) as Hwf'.
  destruct (mem_wf_word (fwd k') (src + Z.of_nat k') Hwf') as (w & Hw8 & Hwat & Hwb); [|done|].
  { exists b. by apply (fwd_src m0 dest src l Hl Hov'). }
  apply wp_bind, (wp_loadw _ _ w); [done..|]. apply wp_ret.
  destruct (test (le_combine w)) eqn:Htw; [|by apply HQ].
  destruct (until_word k' k' w) as [Hle Hwl]; [lia..|done|by apply Ht|].
  rewrite Hbd. apply wp_bind, (wp_loadw _ _ w); [done..|].
  apply wp_bind, (wp_fwd_storew m0 dest l Hb Hmap 8 k').
  - pose proof until_length. lia.
  - done.
  - done.
  - by rewrite Hwl, Hw8.
  - apply wp_ret. exists (E - (k' + 8))%nat. split; [|lia].
    exists (k' + 8)%nat. split_and!; try done; first [lia|mlia].
Qed.
End until.

Lemma land7 x : Z.land x 7 = x mod 8.
Proof. apply (Z.land_ones x 3). lia. Qed.

Lemma same_align_spec s d : same_align s d = true <-> s mod 8 = d mod 8.
Proof. unfold same_align. rewrite !land7. apply Z.eqb_eq. Qed.

Lemma haszero_test w :
  length w = 8%nat -> bytes w -> (HASZERO (le_combine w) =? 0) = true -> 0 ∉ w.
Proof. intros Hl Hw Ht%Z.eqb_eq Hin. by apply (HASZERO_spec w). Qed.

Lemma haschar_test c w :
  byte c -> length w = 8%nat -> bytes w ->
  (HASZERO (Z.lxor (le_combine w) (u64 (ONES * c))) =? 0) = true -> c ∉ w.
Proof. intros Hc Hl Hw Ht%Z.eqb_eq Hin. by apply (HASZERO_xor_spec w c). Qed.

(** Writing [r] over the end of what has been copied. *)
Lemma overwrite m dest l (E k : nat) r :
  (E <= length l)%nat -> (E <= k <= E + length r)%nat ->
  mem_write (fwd m dest l k) (dest + Z.of_nat E) r = mem_write m dest (take E l ++ r).
Proof.
  intros HE Hk. apply map_eq. intros a. unfold fwd.
  rewrite !lookup_mem_write, length_app, !length_take, (Nat.min_l E) by lia.
  destruct (decide (dest + Z.of_nat E <= a < dest + Z.of_nat E + Z.of_nat (length r))).
  - rewrite (decide_True (P := _ <= _ < dest + Z.of_nat (E + _))) by lia.
    rewrite lookup_app_r; rewrite length_take, Nat.min_l by lia; [|lia]. f_equal. lia.
  - destruct (decide (dest <= a < dest + Z.of_nat (k `min` length l))).
    + rewrite decide_True by lia. rewrite lookup_app_l by (rewrite length_take; lia).
      by rewrite !lookup_take_lt by lia.
    + destruct (decide (dest <= a < dest + Z.of_nat (E + length r))); [|done].
      exfalso. lia.
Qed.

(** ** The bounded copy shared by [stpncpy], [strlcpy] and [memccpy] *)
Section bounded.
Context {F : Fuel} (m0 : mem) (dest src : Z) (l : list Z) (z : Z) (N E : nat).
Context (Hwf : mem_wf m0) (Hl : bytes_at m0 src l).
Context (Hmap : mapped m0 dest (Z.of_nat (length l))).
Context (Hov : dest + Z.of_nat (length l) <= src \/ src + Z.of_nat (length l) <= dest).
Context (HE : (E <= N)%nat) (Hz : z ∉ take E l).
Context (HEN : E = N -> length l = N).
Context (HEl : (E < N)%nat -> l = take E l ++ [z] /\ length l = S E).
Context (Hf : (N + 1 < fuel)%nat).

Local Abbreviation fwd := (fwd m0 dest l).
Local Abbreviation pos := (pos dest src N).

Lemma pos_next k :
  (let '(d, s, n) := pos k in mret (d + 1, s + 1, n - 1) : M (Z * Z * Z)) = mret (pos (S k)).
Proof. unfold StrCopy.pos. cbn beta iota. do 2 f_equal; [f_equal|]; lia. Qed.

Lemma pos_0 : pos 0 = (dest, src, Z.of_nat N).
Proof. unfold StrCopy.pos. by rewrite !Z.add_0_r, Z.sub_0_r. Qed.

(** [fin k] : the copy has ended at [E], with or without the stop byte. *)
Definition fin (x : Z * Z * Z) (m : mem) : Prop :=
  x = pos E /\ (m = fwd E \/ m = fwd (S E)).

Lemma wp_bounded_head k Q :
  (k <= E)%nat ->
  (forall k', (k <= k' <= E)%nat ->
     (src + Z.of_nat k') mod 8 = 0 \/ k' = N -> Q (pos k') (fwd k')) ->
  ((E < N)%nat -> (src + Z.of_nat E) mod 8 <> 0 -> Q (pos E) (fwd (S E))) ->
  wp (while (fun '(d, s, n) => (negb (Z.land s 7 =? 0) && negb (n =? 0)) &&& copy_test z d s)
       (fun '(d, s, n) => mret (d + 1, s + 1, n - 1)) (pos k)) (fwd k) Q.
Proof.
  intros Hk HQ1 HQ2.
  apply (wp_until_bytes m0 dest src l z N E Hwf Hl Hmap Hov HE Hz HEN HEl Hf pos
    (fun k => negb (Z.land (src + Z.of_nat k) 7 =? 0) && negb (Z.of_nat N - Z.of_nat k =? 0)));
    [done|apply pos_next|lia|done| |].
  - intros k' Hk' Hg. apply HQ1; [done|]. rewrite land7 in Hg. lia.
  - intros HEN' Hg. apply HQ2; [done|]. rewrite land7 in Hg. lia.
Qed.

Lemma wp_bounded_words (test : Z -> bool) k Q :
  (forall w, length w = 8%nat -> bytes w -> test (le_combine w) = true -> z ∉ w) ->
  (src + Z.of_nat k) mod 8 = 0 -> (dest + Z.of_nat k) mod 8 = 0 -> (k <= E)%nat ->
  (forall k', (k <= k' <= E)%nat -> Q (pos k') (fwd k')) ->
  wp (while (fun '(wd, ws, n) => (8 <=? n) &&& (x ← load64 ws; mret (test x)))
       (fun '(wd, ws, n) =>
          x ← load64 ws; store64 wd x;; mret (wd + 8, ws + 8, n - 8)) (pos k)) (fwd k) Q.
Proof.
  intros Ht Hs Hd Hk HQ.
  apply (wp_until_words m0 dest src l z N E Hwf Hl Hmap Hov HE Hz HEN HEl Hf pos
    (fun k => 8 <=? Z.of_nat N - Z.of_nat k) test); try done; [|lia].
  intros k'. unfold StrCopy.pos. cbn beta iota.
  replace (dest + Z.of_nat (k' + 8)) with (dest + Z.of_nat k' + 8) by lia.
  replace (src + Z.of_nat (k' + 8)) with (src + Z.of_nat k' + 8) by lia.
  by replace (Z.of_nat N - Z.of_nat (k' + 8)) with (Z.of_nat N - Z.of_nat k' - 8) by lia.
Qed.

Lemma wp_bounded_tail k Q :
  (k <= E)%nat -> (E = N -> Q (pos E) (fwd E)) -> ((E < N)%nat -> Q (pos E) (fwd (S E))) ->
  wp (while (fun '(d, s, n) => negb (n =? 0) &&& copy_test z d s)
       (fun '(d, s, n) => mret (d + 1, s + 1, n - 1)) (pos k)) (fwd k) Q.
Proof.
  intros Hk HQ1 HQ2.
  apply (wp_until_bytes m0 dest src l z N E Hwf Hl Hmap Hov HE Hz HEN HEl Hf pos
    (fun k => negb (Z.of_nat N - Z.of_nat k =? 0))); [done|apply pos_next|lia|done| |].
  - intros k' Hk' Hg. assert (k' = N) as -> by lia. assert (E = N) as <- by lia. by apply HQ1.
  - intros HEN' _. by apply HQ2.
Qed.

(** Source and destination being disjoint, the source stays as it was. *)
Lemma fwd_src_dis k i v : l !! i = Some v -> fwd k !! (src + Z.of_nat i) = Some v.
Proof.
  intros Hi. apply lookup_lt_Some in Hi as Hlt. unfold Copy.fwd.
  rewrite lookup_mem_write_out; [by apply Hl|]. rewrite length_take. lia.
Qed.

(** Storing the stop byte twice is harmless. *)
Lemma wp_tail_restart Q :
  (E < N)%nat -> Q (pos E) (fwd (S E)) ->
  wp (while (fun '(d, s, n) => negb (n =? 0) &&& copy_test z d s)
       (fun '(d, s, n) => mret (d + 1, s + 1, n - 1)) (pos E)) (fwd (S E)) Q.
Proof.
  intros HEN' HQ. destruct HEl as [Heq Hlen]; [done|].
  apply (wp_while_idx (fun i s m => i = O /\ s = pos E /\ m = fwd (S E)) _ _ O); [|done|lia].
  intros i s m (-> & -> & ->). unfold StrCopy.pos at 1. apply wp_andM; [|lia]. intros _.
  assert (HlE : l !! E = Some z).
  { rewrite Heq, lookup_app_r; rewrite length_take, Nat.min_l by lia; [|done].
    by rewrite Nat.sub_diag. }
  assert (HdE : fwd (S E) !! (dest + Z.of_nat E) = Some z).
  { unfold Copy.fwd. rewrite lookup_mem_write, length_take, decide_True by lia.
    rewrite lookup_take_lt by lia. rewrite <- HlE. f_equal. lia. }
  apply wp_bind, (wp_load8 _ _ z); [by apply fwd_src_dis|].
  apply wp_bind, wp_store8; [by eauto|]. apply wp_ret. rewrite Z.eqb_refl. simpl.
  rewrite insert_id; [done|]. rewrite u8_id; [done|].
  apply (Forall_lookup_1 byte l E); [|done]. by eapply mem_wf_bytes.
Qed.

(** The head loop and the test that follows it in [stpncpy] and [strlcpy]. *)
Lemma wp_bounded_start {A} (kont : Z -> Z -> Z -> bool -> M A) Q :
  z = 0 ->
  wp (kont (dest + Z.of_nat E) (src + Z.of_nat E) (Z.of_nat N - Z.of_nat E) false) (fwd E) Q ->
  ((E < N)%nat -> wp (kont (dest + Z.of_nat E) (src + Z.of_nat E)
                        (Z.of_nat N - Z.of_nat E) false) (fwd (S E)) Q) ->
  (forall k, (k <= E)%nat -> (src + Z.of_nat k) mod 8 = 0 ->
     wp (kont (dest + Z.of_nat k) (src + Z.of_nat k) (Z.of_nat N - Z.of_nat k) true)
        (fwd k) Q) ->
  wp ('(d, s, n) ← while (fun '(d, s, n) =>
          (negb (Z.land s 7 =? 0) && negb (n =? 0)) &&& copy_test z d s)
        (fun '(d, s, n) => mret (d + 1, s + 1, n - 1)) (dest, src, Z.of_nat N);
      t ← negb (n =? 0) &&& (b ← load8 s; mret (negb (b =? 0)));
      kont d s n t) m0 Q.
Proof.
  intros Hz0 HQ1 HQ2 HQ3. rewrite <- pos_0, <- (fwd_0 m0 dest l).
  apply wp_bind, wp_bounded_head; [lia| |].
  - intros k' Hk' Hs. unfold StrCopy.pos at 1. apply wp_bind, wp_andM.
    + intros Hn. destruct (until_read l z N E HE Hz HEN HEl Hf k') as (b & Hbk & Hbz); [lia..|].
      apply wp_bind, (wp_load8 _ _ b); [by apply fwd_src_dis|]. apply wp_ret.
      destruct (Z.eqb_spec b 0) as [Hb0|Hb0]; simpl.
      * assert (k' = E) as -> by (apply Hbz; lia). done.
      * apply HQ3; lia.
    + intros Hn. assert (k' = E) as -> by lia. exact HQ1.
  - intros HEN' Hs. unfold StrCopy.pos at 1. apply wp_bind, wp_andM; [|lia].
    intros _. destruct (until_read l z N E HE Hz HEN HEl Hf E) as (b & Hbk & Hbz); [lia..|].
    apply wp_bind, (wp_load8 _ _ b); [by apply fwd_src_dis|]. apply wp_ret.
    rewrite (proj2 Hbz eq_refl), Hz0. by apply HQ2.
Qed.
End bounded.

(** ** Specifications *)

(** What a copy of at most [N] bytes of the string [s] moves. *)
Definition clip (N : nat) (s : list Z) : list Z := take N (s ++ [0]).

Lemma clip_stop N s : Forall (fun b => 0 < b < 256) s ->
  let E := (Nat.min N (length s)) in
  (E <= N)%nat /\ (0 ∉ take E (clip N s)) /\ (E = N -> length (clip N s) = N) /\
  ((E < N)%nat -> clip N s = take E (clip N s) ++ [0] /\ length (clip N s) = S E).
Proof.
  intros Hs E. unfold clip. assert (HtE : take E (take N (s ++ [0])) = take N s).
  { rewrite take_take, take_app_le by lia. subst E.
    destruct (decide (N <= length s)%nat); [f_equal; lia|]. rewrite !take_ge by lia. done. }
  rewrite HtE. split_and!.
  - lia.
  - intros Hin. apply list_elem_of_In in Hin. eapply Forall_take in Hs.
    rewrite Forall_forall in Hs. apply Hs in Hin. lia.
  - intros. rewrite length_take, length_app. simpl. lia.
  - intros. rewrite !(take_ge _ N); rewrite ?length_app; simpl; [split; [done|]|..]; lia.
Qed.

Lemma take_clip N s : take (Nat.min N (length s)) (clip N s) = take N s.
Proof.
  unfold clip. rewrite take_take, take_app_le by lia.
  destruct (decide (N <= length s)%nat); [f_equal; lia|]. rewrite !take_ge by lia. done.
Qed.

Section specs.
Context {F : Fuel}.

Section stpncpy.
Context (m0 : mem) (dest src : Z) (s : list Z) (N : nat).
Context (Hwf : mem_wf m0) (Hs : Forall (fun b => 0 < b < 256) s).
Context (Hl : bytes_at m0 src (clip N s)).
Context (Hmap : mapped m0 dest (Z.of_nat N)).
Context (Hov : dest + Z.of_nat N <= src \/
               src + Z.of_nat (length (clip N s)) <= dest).
Context (Hf : (N + 1 < fuel)%nat) (Hd : 0 <= dest) (HN : Z.of_nat N < 2 ^ 64).

Local Abbreviation E := (Nat.min N (length s)).
Local Abbreviation fwd := (fwd m0 dest (clip N s)).

Lemma clip_len : (length (clip N s) <= N)%nat.
Proof. clear. unfold clip. rewrite length_take. lia. Qed.

Lemma clip_mapped : mapped m0 dest (Z.of_nat (length (clip N s))).
Proof. pose proof clip_len. eapply mapped_sub; [done|lia|lia]. Qed.

Lemma clip_ov : dest + Z.of_nat (length (clip N s)) <= src \/
               src + Z.of_nat (length (clip N s)) <= dest.
Proof. pose proof clip_len. lia. Qed.

(** The padding. *)
Lemma wp_stpncpy_pad m Q :
  m = fwd E \/ ((E < N)%nat /\ m = fwd (S E)) ->
  Q (dest + Z.of_nat E) (mem_write m0 dest (take N s ++ replicate (N - length s) 0)) ->
  wp (memset (dest + Z.of_nat E) 0 (Z.of_nat N - Z.of_nat E);; mret (dest + Z.of_nat E)) m Q.
Proof.
  intros Hm HQ. apply wp_bind.
  assert (Hle : (E <= length (clip N s))%nat) by (unfold clip; rewrite length_take, length_app; lia).
  apply wp_memset; [|lia..|].
  - apply (mapped_sub _ dest (Z.of_nat N)); [|lia..].
    destruct Hm as [->|[_ ->]]; by apply mapped_write.
  - apply wp_ret. replace (Z.to_nat (Z.of_nat N - Z.of_nat E)) with (N - E)%nat by lia.
    change (u8 0) with 0.
    destruct Hm as [->|[Hlt ->]]; rewrite overwrite, take_clip;
      rewrite ?length_replicate; try lia;
      by replace (N - E)%nat with (N - length s)%nat by lia.
Qed.

Lemma wp___stpncpy Q :
  Q (dest + Z.of_nat E) (mem_write m0 dest (take N s ++ replicate (N - length s) 0)) ->
  wp (__stpncpy dest src (Z.of_nat N)) m0 Q.
Proof.
  intros HQ. destruct (clip_stop N s Hs) as (HE & Hz & HEN & HEl).
  pose proof clip_mapped as Hmap'. pose proof clip_ov as Hov'.
  unfold __stpncpy. apply wp_bind.
  apply (wp_mono _ _ (fun r m =>
    (r = inl (dest + Z.of_nat E, Z.of_nat N - Z.of_nat E) /\
     (m = fwd E \/ (E < N)%nat /\ m = fwd (S E))) \/
    exists k, (k <= E)%nat /\ r = inr (pos dest src N k) /\ m = fwd k)).
  - destruct (same_align src dest) eqn:Hal; cycle 1.
    { apply wp_ret. right. exists O. split_and!; [lia|by rewrite pos_0|done]. }
    apply same_align_spec in Hal.
    apply (wp_bounded_start m0 dest src (clip N s) 0 N E Hwf Hl Hmap' Hov' HE Hz HEN HEl Hf
      (fun d s n t => if (t : bool) then _ else _)); [done|..].
    + apply wp_ret. left. auto.
    + intros. apply wp_ret. left. auto.
    + intros k Hk Hk8. apply wp_bind.
      apply (wp_bounded_words m0 dest src (clip N s) 0 N E Hwf Hl Hmap' Hov' HE Hz HEN HEl Hf
        (fun x => HASZERO x =? 0)); [apply haszero_test|done|mlia|done|].
      intros k' Hk'. apply wp_ret. right. exists k'. split_and!; [lia|done..].
  - intros r m [[-> Hm]|(k & Hk & -> & ->)]; cbn beta iota.
    + apply wp_bind, wp_ret. cbn beta iota. by apply wp_stpncpy_pad.
    + unfold pos at 1. cbn beta iota. apply wp_bind, wp_bind.
      apply (wp_bounded_tail m0 dest src (clip N s) 0 N E Hwf Hl Hmap' Hov' HE Hz HEN HEl Hf);
        [done|intros ?..]; unfold pos; cbn beta iota; apply wp_ret; cbn beta iota;
        apply wp_stpncpy_pad; auto.
Qed.
End stpncpy.

(** [strlcpy] copies into [n = N + 1] bytes. *)
Section strlcpy.
Context (m0 : mem) (dest src : Z) (s : list Z) (N : nat).
Context (Hwf : mem_wf m0) (Hs : cstring m0 src s).
Context (Hmap : mapped m0 dest (Z.of_nat N + 1)).
Context (Hov : dest + Z.of_nat N + 1 <= src \/ src + Z.of_nat (length s) + 1 <= dest).
Context (Hf : (N + 1 < fuel)%nat) (Hfs : (length s + 1 < fuel)%nat).

Local Abbreviation E := (Nat.min N (length s)).
Local Abbreviation fwd := (fwd m0 dest (clip N s)).
Local Abbreviation pos := (pos dest src N).

Lemma clip_at : bytes_at m0 src (clip N s).
Proof.
  destruct Hs as [Hat _]. rewrite <- (take_drop N (s ++ [0])) in Hat.
  by apply bytes_at_app in Hat as [? _].
Qed.

Lemma clip_map : mapped m0 dest (Z.of_nat (length (clip N s))).
Proof. pose proof (clip_len s N). eapply mapped_sub; [exact Hmap|lia|lia]. Qed.

Lemma clip_dis : dest + Z.of_nat (length (clip N s)) <= src \/
                 src + Z.of_nat (length (clip N s)) <= dest.
Proof.
  pose proof (clip_len s N). destruct Hov; [lia|]. right.
  unfold clip. rewrite length_take, length_app. simpl. lia.
Qed.

(** After the aligned part: somewhere before the end, or past it. *)
Definition partway (r : Z * Z * Z) (m : mem) : Prop :=
  (r = pos E /\ (E < N)%nat /\ m = fwd (S E)) \/
  exists k, (k <= E)%nat /\ r = pos k /\ m = fwd k.

Lemma wp_strlcpy_aligned :
  wp (if same_align src dest then
         '(d, s, n) ← while (fun '(d, s, n) =>
               (negb (Z.land s 7 =? 0) && negb (n =? 0)) &&& copy_test 0 d s)
             (fun '(d, s, n) => mret (d + 1, s + 1, n - 1)) (dest, src, Z.of_nat N);
         t ← negb (n =? 0) &&& (b ← load8 s; mret (negb (b =? 0)));
         if (t : bool) then
           while (fun '(wd, ws, n) =>
               (8 <=? n) &&& (x ← load64 ws; mret (HASZERO x =? 0)))
             (fun '(wd, ws, n) =>
               x ← load64 ws; store64 wd x;; mret (wd + 8, ws + 8, n - 8)) (d, s, n)
         else mret (d, s, n)
      else mret (dest, src, Z.of_nat N)) m0 partway.
Proof.
  destruct (clip_stop N s (proj2 Hs)) as (HE & Hz & HEN & HEl).
  destruct (same_align src dest) eqn:Hal; cycle 1.
  { apply wp_ret. right. exists O. split_and!; [lia|by rewrite pos_0|done]. }
  apply same_align_spec in Hal.
  apply (wp_bounded_start m0 dest src (clip N s) 0 N E Hwf clip_at clip_map clip_dis
    HE Hz HEN HEl Hf (fun d s n t => if (t : bool) then _ else _)); [done|..].
  - apply wp_ret. right. by exists E.
  - intros. apply wp_ret. by left.
  - intros k Hk Hk8.
    apply (wp_bounded_words m0 dest src (clip N s) 0 N E Hwf clip_at clip_map clip_dis
      HE Hz HEN HEl Hf (fun x => HASZERO x =? 0)); [apply haszero_test|done|mlia|done|].
    intros k' Hk'. right. exists k'. split_and!; [lia|done..].
Qed.

Lemma wp_strlcpy_tail r m Q :
  partway r m -> Q (pos E) (fwd E) -> ((E < N)%nat -> Q (pos E) (fwd (S E))) ->
  wp (while (fun '(d, s, n) => negb (n =? 0) &&& copy_test 0 d s)
         (fun '(d, s, n) => mret (d + 1, s + 1, n - 1)) r) m Q.
Proof.
  intros Hr HQ1 HQ2. destruct (clip_stop N s (proj2 Hs)) as (HE & Hz & HEN & HEl).
  destruct Hr as [(-> & HEN' & ->)|(k & Hk & -> & ->)].
  - apply (wp_tail_restart m0 dest src (clip N s) 0 N E Hwf clip_at clip_dis HE HEN HEl Hf);
      auto.
  - apply (wp_bounded_tail m0 dest src (clip N s) 0 N E Hwf clip_at clip_map clip_dis
      HE Hz HEN HEl Hf); auto.
Qed.

Lemma wp_strlcpy Q :
  Q (Z.of_nat (length s)) (mem_write m0 dest (take N s ++ [0])) ->
  wp (strlcpy dest src (Z.of_nat N + 1)) m0 Q.
Proof.
  intros HQ. unfold strlcpy. destruct (Z.eqb_spec (Z.of_nat N + 1) 0); [lia|].
  replace (Z.of_nat N + 1 - 1) with (Z.of_nat N) by lia.
  set (m1 := mem_write m0 dest (take N s ++ [0])) in *.
  assert (Hfin : forall k, (E <= k <= S E)%nat ->
    wp (store8 (dest + Z.of_nat E) 0;; mret (dest + Z.of_nat E, src + Z.of_nat E)) (fwd k)
       (fun r m => r = (dest + Z.of_nat E, src + Z.of_nat E) /\ m = m1)).
  { intros k Hk. apply wp_bind, wp_store8; [apply (mapped_write _ _ _ _ _ Hmap); lia|].
    apply wp_ret. split; [done|]. change (u8 0) with 0. unfold m1. rewrite <- take_clip.
    rewrite <- (overwrite m0 dest (clip N s) E k [0]); [done| |simpl; lia].
    unfold clip. rewrite length_take, length_app. lia. }
  apply wp_bind, (wp_mono _ _ (fun r m => r = (dest + Z.of_nat E, src + Z.of_nat E) /\ m = m1)).
  - apply wp_bind. eapply wp_mono; [apply wp_strlcpy_aligned|].
    intros [[d s'] n'] m Hr. cbn beta iota. apply wp_bind, (wp_strlcpy_tail _ _ _ Hr);
      intros; unfold StrCopy.pos; cbn beta iota; apply Hfin; lia.
  - intros r m [-> ->]. cbn beta iota.
    assert (Hend : cstring m1 (src + Z.of_nat E) (drop E s)).
    { destruct Hs as [Hat Hs0]. split; [|by apply Forall_drop].
      rewrite <- (take_drop E s), <- app_assoc in Hat. apply bytes_at_app in Hat as [_ Hat].
      rewrite length_take, Nat.min_l in Hat by lia.
      intros i v Hi. specialize (Hat i v Hi). apply lookup_lt_Some in Hi.
      rewrite length_app, length_drop in Hi. simpl in Hi. unfold m1.
      rewrite lookup_mem_write_out; [done|]. rewrite length_app, length_take. simpl. lia. }
    apply wp_bind, (wp_strlen _ _ (drop E s)).
    + apply mem_wf_write; [done| |].
      * apply Forall_app. split; [|by repeat constructor]. by eapply Forall_take, cstring_bytes.
      * eapply mapped_sub; [exact Hmap|lia|]. rewrite length_app, length_take. simpl. lia.
    + exact Hend.
    + rewrite length_drop. lia.
    + apply wp_ret. rewrite length_drop.
      by replace (dest + Z.of_nat E - dest + Z.of_nat (length s - E))
        with (Z.of_nat (length s)) by lia.
Qed.
End strlcpy.

Section stpcpy.
Context (m0 : mem) (dest src : Z) (s : list Z).
Context (Hwf : mem_wf m0) (Hs : cstring m0 src s).
Context (Hmap : mapped m0 dest (Z.of_nat (length s) + 1)).
Context (Hov : dest + Z.of_nat (length s) + 1 <= src \/
               src + Z.of_nat (length s) + 1 <= dest).
Context (Hf : (length s + 9 < fuel)%nat).

Local Abbreviation E := (length s).
Local Abbreviation l := (s ++ [0]).
Local Abbreviation fwd := (fwd m0 dest l).

Definition ptrs (k : nat) : Z * Z := (dest + Z.of_nat k, src + Z.of_nat k).

Lemma string_stop : (0 ∉ take E l) /\ l = take E l ++ [0] /\ length l = S E.
Proof.
  rewrite take_app_length, length_app. split_and!; [|done|simpl; lia].
  intros Hin%list_elem_of_In. pose proof (proj1 (Forall_forall _ _) (proj2 Hs) _ Hin). simpl in *. lia.
Qed.

Lemma string_map : mapped m0 dest (Z.of_nat (length l)).
Proof. eapply mapped_sub; [exact Hmap|lia|]. rewrite length_app. simpl. lia. Qed.

Lemma string_dis : dest + Z.of_nat (length l) <= src \/ src + Z.of_nat (length l) <= dest.
Proof. rewrite length_app. simpl. lia. Qed.

Lemma wp_stpcpy_head (Q : Z + Z * Z -> mem -> Prop) :
  Q (inl (dest + Z.of_nat E)) (fwd (S E)) ->
  (forall k, (k <= E)%nat -> (src + Z.of_nat k) mod 8 = 0 -> Q (inr (ptrs k)) (fwd k)) ->
  wp (loop (fun '(d, s) =>
               if s mod 8 =? 0 then mret (inr (inr (d, s)))
               else b ← load8 s; store8 d b;;
                    if b =? 0 then mret (inr (inl d)) else mret (inl (d + 1, s + 1)))
             (dest, src)) m0 Q.
Proof.
  intros HQ1 HQ2. destruct string_stop as (Hz & Heq & Hlen).
  apply (wp_loop (fun x m => exists k, (k <= E)%nat /\ x = ptrs k /\ m = fwd k)
           (fun '(d, s) => Z.to_nat (dest + Z.of_nat E - d))); [| |lia].
  2: { exists O. split_and!; [lia|unfold ptrs; f_equal; lia|done]. }
  intros x m (k & Hk & -> & ->). unfold ptrs at 1.
  destruct (Z.eqb_spec ((src + Z.of_nat k) mod 8) 0); [by apply wp_ret, HQ2|].
  destruct (until_read l 0 (E + 8) E ltac:(lia) Hz ltac:(lia) ltac:(auto) ltac:(lia) k)
    as (b & Hbk & Hbz); [lia..|].
  assert (Hb : bytes l) by (by eapply mem_wf_bytes, (proj1 Hs)).
  apply wp_bind, (wp_fwd_load8 m0 dest src l (proj1 Hs)) with (b := b);
    [pose proof string_dis; lia|done|].
  apply wp_bind, (wp_fwd_store8 m0 dest l Hb string_map); [done|].
  destruct (Z.eqb_spec b 0) as [Hb0|Hb0]; apply wp_ret.
  - by rewrite (proj1 Hbz Hb0).
  - assert (k <> E) by (intros HkE; by apply Hb0, Hbz). split; [|unfold ptrs; lia].
    exists (S k). split_and!; [lia|unfold ptrs; f_equal; lia|done].
Qed.

(** What is left once the pointers are aligned or cannot be. *)
Lemma wp_stpcpy_tail k Q :
  (k <= E)%nat -> Q (dest + Z.of_nat E) (mem_write m0 dest l) ->
  wp ('(d, s) ← while (fun '(d, s) => b ← load8 s; store8 d b;; mret (negb (b =? 0)))
                 (fun '(d, s) => mret (d + 1, s + 1)) (ptrs k);
      mret d) (fwd k) Q.
Proof.
  intros Hk HQ. destruct string_stop as (Hz & Heq & Hlen). apply wp_bind.
  apply (wp_until_bytes m0 dest src l 0 (E + 8) E Hwf (proj1 Hs) string_map string_dis
    ltac:(lia) Hz ltac:(lia) ltac:(auto) ltac:(lia) ptrs (fun _ => true)); try done.
  - intros k'. unfold ptrs. cbn beta iota. do 2 f_equal; lia.
  - intros; lia.
  - intros _ _. unfold ptrs. cbn beta iota. apply wp_ret. by rewrite fwd_full by lia.
Qed.

Lemma wp___stpcpy Q :
  Q (dest + Z.of_nat E) (mem_write m0 dest l) -> wp (__stpcpy dest src) m0 Q.
Proof.
  intros HQ. destruct string_stop as (Hz & Heq & Hlen). unfold __stpcpy. apply wp_bind.
  apply (wp_mono _ _ (fun r m => (r = inl (dest + Z.of_nat E) /\ m = mem_write m0 dest l) \/
    exists k, (k <= E)%nat /\ r = inr (ptrs k) /\ m = fwd k)).
  - destruct (Z.eqb_spec (src mod 8) (dest mod 8)) as [Hal|]; cycle 1.
    { apply wp_ret. right. exists O. split_and!; [lia| |done].
      unfold ptrs. by rewrite !Z.add_0_r. }
    apply wp_bind, wp_stpcpy_head.
    + apply wp_ret. left. by rewrite fwd_full by lia.
    + intros k Hk Hk8. cbn beta iota. apply wp_bind.
      apply (wp_until_words m0 dest src l 0 (E + 8) E Hwf (proj1 Hs) string_map string_dis
        ltac:(lia) Hz ltac:(lia) ltac:(auto) ltac:(lia) ptrs (fun _ => true)
        (fun x => HASZERO x =? 0)); try done; [|intros; lia|apply haszero_test|mlia|].
      * intros k'. unfold ptrs. cbn beta iota.
        replace (dest + Z.of_nat (k' + 8)) with (dest + Z.of_nat k' + 8) by lia.
        by replace (src + Z.of_nat (k' + 8)) with (src + Z.of_nat k' + 8) by lia.
      * intros k' Hk'. apply wp_ret. right. exists k'. split_and!; [lia|done..].
  - intros r m [[-> ->]|(k & Hk & -> & ->)]; [by apply wp_ret|]. by apply wp_stpcpy_tail.
Qed.

Lemma wp_strcpy Q : Q dest (mem_write m0 dest l) -> wp (strcpy dest src) m0 Q.
Proof. intros HQ. apply wp_bind, wp___stpcpy, wp_ret, HQ. Qed.
End stpcpy.

(** [strncat] copies byte by byte, then terminates. *)
Lemma wp_strncat m d s s1 s2 N Q :
  mem_wf m -> cstring m d s1 -> Forall (fun b => 0 < b < 256) s2 ->
  bytes_at m s (clip N s2) ->
  mapped m (d + Z.of_nat (length s1)) (Z.of_nat N + 1) ->
  d + Z.of_nat (length s1) + Z.of_nat N + 1 <= s \/
    s + Z.of_nat (length (clip N s2)) <= d + Z.of_nat (length s1) ->
  (length s1 + 1 < fuel)%nat -> (N + 1 < fuel)%nat ->
  Q d (mem_write m (d + Z.of_nat (length s1)) (take N s2 ++ [0])) ->
  wp (strncat d s (Z.of_nat N)) m Q.
Proof.
  intros Hwf Hs1 Hs2 Hl Hmap Hov Hf1 Hf HQ. unfold strncat.
  set (E := Nat.min N (length s2)). set (dest := d + Z.of_nat (length s1)) in *.
  destruct (clip_stop N s2 Hs2) as (HE & Hz & HEN & HEl). fold E in HE, Hz, HEN, HEl.
  pose proof (clip_len s2 N) as Hcl.
  apply wp_bind, (wp_strlen _ _ s1); [done..|]. fold dest.
  rewrite <- (fwd_0 m dest (clip N s2)).
  apply wp_bind, (wp_while_idx (fun i x m' => exists k, (k <= E)%nat /\
    x = pos dest s N k /\ m' = fwd m dest (clip N s2) k /\ i = (E - k)%nat) _ _ E); [| |lia].
  2: { exists O. split_and!; [lia|by rewrite pos_0|done|lia]. }
  assert (Hend : wp (let '(d0, _, _) := pos dest s N E in store8 d0 0;; mret d)
                    (fwd m dest (clip N s2) E) Q).
  { unfold pos. cbn beta iota. apply wp_bind, wp_store8.
    { apply (mapped_write _ _ _ _ _ Hmap). lia. }
    apply wp_ret. change (u8 0) with 0. rewrite <- take_clip in HQ. fold E in HQ.
    rewrite <- (overwrite m dest (clip N s2) E E [0]) in HQ; [done| |simpl; lia].
    unfold clip. rewrite length_take, length_app. lia. }
  intros i x m' (k & Hk & -> & -> & ->). unfold pos at 1. apply wp_andM.
  - intros Hn. destruct (until_read (clip N s2) 0 N E HE Hz HEN HEl Hf k) as (b & Hbk & Hbz);
      [lia..|].
    assert (Hld : fwd m dest (clip N s2) k !! (s + Z.of_nat k) = Some b).
    { apply (fwd_src m dest s (clip N s2) Hl); [lia|lia|done]. }
    apply wp_bind, (wp_load8 _ _ b); [done|]. apply wp_ret.
    destruct (Z.eqb_spec b 0) as [Hb0|Hb0]; simpl.
    + assert (k = E) as -> by by apply Hbz. by apply Hend.
    + apply wp_bind, (wp_load8 _ _ b); [done|].
      apply wp_bind, (wp_fwd_store8 m dest (clip N s2)); [by eapply mem_wf_bytes| |done|].
      { eapply mapped_sub; [exact Hmap|lia|lia]. }
      apply wp_ret. exists (E - S k)%nat. assert (k <> E) by (intros HkE; by apply Hb0, Hbz).
      split; [|lia]. exists (S k). split_and!; [lia| |done|done].
      unfold pos. f_equal; [f_equal|]; lia.
  - intros Hn. assert (k = E) as -> by lia. by apply Hend.
Qed.

Lemma wp_strcat m d s s1 s2 Q :
  mem_wf m -> cstring m d s1 -> cstring m s s2 ->
  mapped m (d + Z.of_nat (length s1)) (Z.of_nat (length s2) + 1) ->
  d + Z.of_nat (length s1) + Z.of_nat (length s2) + 1 <= s \/
    s + Z.of_nat (length s2) + 1 <= d + Z.of_nat (length s1) ->
  (length s1 + 1 < fuel)%nat -> (length s2 + 9 < fuel)%nat ->
  Q d (mem_write m (d + Z.of_nat (length s1)) (s2 ++ [0])) -> wp (strcat d s) m Q.
Proof.
  intros Hwf Hs1 Hs2 Hmap Hov Hf1 Hf2 HQ. apply wp_bind, (wp_strlen _ _ s1); [done..|].
  apply wp_bind, (wp_strcpy m _ s s2); [done..|by apply wp_ret].
Qed.

Lemma wp_strlcat m d s s1 s2 n Q :
  mem_wf m -> cstring m d s1 -> cstring m s s2 -> 0 < d -> 0 <= n ->
  mapped m (d + Z.of_nat (length s1)) (n - Z.of_nat (length s1)) ->
  d + n <= s \/ s + Z.of_nat (length s2) + 1 <= d + Z.of_nat (length s1) ->
  (length s1 + 1 < fuel)%nat -> (length s2 + 1 < fuel)%nat -> n < Z.of_nat fuel ->
  (n <= Z.of_nat (length s1) -> Q (n + Z.of_nat (length s2)) m) ->
  (forall N, n = Z.of_nat (length s1 + N) + 1 ->
     Q (Z.of_nat (length s1 + length s2))
       (mem_write m (d + Z.of_nat (length s1)) (take N s2 ++ [0]))) ->
  wp (strlcat d s n) m Q.
Proof.
  intros Hwf Hs1 Hs2 Hd Hn Hmap Hov Hf1 Hf2 Hfn HQ1 HQ2. unfold strlcat.
  apply wp_bind, (wp_strnlen _ _ s1); try done.
  { by destruct Hs1 as [[? _]%bytes_at_app _]. }
  { destruct Hs1 as [_ Hs1]. intros Hin%list_elem_of_In.
    eapply Forall_forall in Hs1; [|exact Hin]. simpl in Hs1. lia. }
  { right. by destruct Hs1 as [[_ [Hz _]%bytes_at_cons]%bytes_at_app _]. }
  destruct (Z.eqb_spec (Z.min n (Z.of_nat (length s1))) n) as [Hmin|Hmin].
  - apply wp_bind, (wp_strlen _ _ s2); [done..|]. apply wp_ret.
    rewrite Hmin. apply HQ1. lia.
  - rewrite Z.min_r by lia. set (N := Z.to_nat (n - Z.of_nat (length s1) - 1)).
    replace (n - Z.of_nat (length s1)) with (Z.of_nat N + 1) by lia.
    apply wp_bind, (wp_strlcpy m _ s s2 N); [done..| | |lia|done|].
    + eapply mapped_sub; [exact Hmap|lia|lia].
    + lia.
    + apply wp_ret. rewrite <- Nat2Z.inj_add. apply HQ2. lia.
Qed.

(** [memccpy] after its copying loops has stopped at [E]. *)
Section memccpy.
Context (m0 : mem) (dest src c : Z) (l : list Z) (N E : nat).
Context (Hwf : mem_wf m0) (Hl : bytes_at m0 src l).
Context (Hmap : mapped m0 dest (Z.of_nat (length l))).
Context (Hov : dest + Z.of_nat (length l) <= src \/ src + Z.of_nat (length l) <= dest).
Context (HE : (E <= N)%nat) (Hz : u8 c ∉ take E l).
Context (HEN : E = N -> length l = N).
Context (HEl : (E < N)%nat -> l = take E l ++ [u8 c] /\ length l = S E).
Context (Hf : (N + 1 < fuel)%nat).

Local Abbreviation fwd := (fwd m0 dest l).

Definition memccpy_stop (r : Z * Z) (m : mem) : Prop :=
  r = (dest + Z.of_nat E, src + Z.of_nat E) /\ m = mem_write m0 dest l.

Lemma memccpy_end : (E = N -> memccpy_stop (dest + Z.of_nat E, src + Z.of_nat E) (fwd E)) /\
  ((E < N)%nat -> memccpy_stop (dest + Z.of_nat E, src + Z.of_nat E) (fwd (S E))).
Proof.
  split; intros HN; (split; [done|]); apply fwd_full.
  - rewrite HEN by done. lia.
  - destruct HEl as [_ ->]; [done|lia].
Qed.

Lemma wp_memccpy_copy :
  wp (r ← (if same_align src dest then
         '(d, s, n) ← while (fun '(d, s, n) =>
               (negb (Z.land s 7 =? 0) && negb (n =? 0)) &&& copy_test (u8 c) d s)
             (fun '(d, s, n) => mret (d + 1, s + 1, n - 1)) (dest, src, Z.of_nat N);
         if negb (Z.land s 7 =? 0) then mret (inl (d, s))
         else
           let k := u64 (ONES * u8 c) in
           x ← while (fun '(wd, ws, n) =>
                 (8 <=? n) &&& (x ← load64 ws; mret (HASZERO (Z.lxor x k) =? 0)))
               (fun '(wd, ws, n) =>
                 x ← load64 ws; store64 wd x;; mret (wd + 8, ws + 8, n - 8)) (d, s, n);
           mret (inr x)
       else mret (inr (dest, src, Z.of_nat N)));
      match r with
      | inl x => mret x
      | inr (d, s, n) =>
        '(d, s, n) ← while (fun '(d, s, n) => negb (n =? 0) &&& copy_test (u8 c) d s)
            (fun '(d, s, n) => mret (d + 1, s + 1, n - 1)) (d, s, n);
        mret (d, s)
      end) m0 memccpy_stop.
Proof.
  destruct memccpy_end as [Hend1 Hend2]. rewrite <- pos_0. apply wp_bind.
  apply (wp_mono _ _ (fun r m => (exists x, r = inl x /\ memccpy_stop x m) \/
    exists k, (k <= E)%nat /\ r = inr (pos dest src N k) /\ m = fwd k)).
  - destruct (same_align src dest) eqn:Hal; cycle 1.
    { apply wp_ret. right. exists O. split_and!; [lia|done..]. }
    apply same_align_spec in Hal. rewrite <- (fwd_0 m0 dest l).
    apply wp_bind, (wp_bounded_head m0 dest src l (u8 c) N E Hwf Hl Hmap Hov HE Hz HEN HEl Hf);
      [lia| |].
    + intros k Hk Hs. unfold pos at 1. cbn beta iota. rewrite land7.
      destruct (Z.eqb_spec ((src + Z.of_nat k) mod 8) 0) as [Hk8|Hk8]; simpl.
      * apply wp_bind. fold (pos dest src N k).
        apply (wp_bounded_words m0 dest src l (u8 c) N E Hwf Hl Hmap Hov HE Hz HEN HEl Hf
          (fun x => HASZERO (Z.lxor x (u64 (ONES * u8 c))) =? 0)); [|done|mlia|lia|].
        { intros w. apply haschar_test, u8_range. }
        intros k' Hk'. apply wp_ret. right. exists k'. split_and!; [lia|done..].
      * apply wp_ret. left. eexists. split; [done|]. assert (k = E) as -> by lia.
        apply Hend1. lia.
    + intros HEN' Hs. unfold pos at 1. cbn beta iota. rewrite land7.
      rewrite (proj2 (Z.eqb_neq _ _)) by done. apply wp_ret. left. eauto.
  - intros r m [(x & -> & Hx)|(k & Hk & -> & ->)]; [by apply wp_ret|].
    unfold pos at 1. cbn beta iota. apply wp_bind.
    apply (wp_bounded_tail m0 dest src l (u8 c) N E Hwf Hl Hmap Hov HE Hz HEN HEl Hf);
      [done|..]; intros; unfold pos; cbn beta iota; apply wp_ret; auto.
Qed.

Lemma wp_memccpy b Q :
  mem_write m0 dest l !! (src + Z.of_nat E) = Some b ->
  Q (if b =? u8 c then dest + Z.of_nat E + 1 else 0) (mem_write m0 dest l) ->
  wp (memccpy dest src c (Z.of_nat N)) m0 Q.
Proof.
  intros Hb HQ. apply wp_bind_bind. eapply wp_mono; [apply wp_memccpy_copy|].
  intros r m [-> ->]. cbn beta iota. apply wp_bind, (wp_load8 _ _ b); [done|]. by apply wp_ret.
Qed.
End memccpy.
End specs.

(** ** Properties *)

(** A string written over memory. *)
Lemma cstring_write m p s :
  Forall (fun b => 0 < b < 256) s -> cstring (mem_write m p (s ++ [0])) p s.
Proof. intros Hs. split; [apply bytes_at_mem_write|done]. Qed.

Lemma cstring_concat m d s1 s2 :
  cstring m d s1 -> Forall (fun b => 0 < b < 256) s2 ->
  cstring (mem_write m (d + Z.of_nat (length s1)) (s2 ++ [0])) d (s1 ++ s2).
Proof.
  intros [[Hat _]%bytes_at_app Hs1] Hs2. split; [|by apply Forall_app].
  rewrite <- app_assoc. apply bytes_at_app. split; [|apply bytes_at_mem_write].
  intros i v Hi. apply lookup_lt_Some in Hi as Hlt.
  rewrite lookup_mem_write_out by lia. by apply Hat.
Qed.

(** [stpcpy], [strcpy] and [strcat] write exactly the source string and its
    terminator, eight bytes at a time when the alignments allow, and return
    the terminator's address resp. the destination; the destination of
    [strcat] then holds the concatenation. *)
Theorem strcpy_correct {F : Fuel} m dest src s :
  mem_wf m -> cstring m src s ->
  mapped m dest (Z.of_nat (length s) + 1) ->
  dest + Z.of_nat (length s) + 1 <= src \/ src + Z.of_nat (length s) + 1 <= dest ->
  (length s + 9 < fuel)%nat ->
  let m' := mem_write m dest (s ++ [0]) in
  __stpcpy dest src m = Done (dest + Z.of_nat (length s), m') /\
  strcpy dest src m = Done (dest, m') /\ cstring m' dest s /\
  (forall d s1, cstring m d s1 -> dest = d + Z.of_nat (length s1) ->
     (length s1 + 1 < fuel)%nat ->
     strcat d src m = Done (d, m') /\ cstring m' d (s1 ++ s)).
Proof.
  intros Hwf Hs Hmap Hov Hf m'. split_and!.
  - by apply wp_eq, (wp___stpcpy _ _ _ s).
  - by apply wp_eq, (wp_strcpy _ _ _ s).
  - by apply cstring_write, (proj2 Hs).
  - intros d s1 Hs1 -> Hf1. split; [|by apply cstring_concat, (proj2 Hs)].
    by apply wp_eq, (wp_strcat _ _ _ s1 s).
Qed.

Definition copy_src : list Z := [104; 101; 108; 108; 111; 32; 119; 111; 114; 108; 100].
(** "ab" at 19, [copy_src] at 45, zeros and sevens around. *)
Definition strcpy_mem : mem :=
  mem_of 16 ([7; 7; 7; 97; 98; 0] ++ replicate 23 7 ++ copy_src ++ [0] ++ replicate 7 7).

Lemma strcpy_correct_witness :
  strcpy (F := 40%nat) 21 45 strcpy_mem =
    Done (21, mem_write strcpy_mem 21 (copy_src ++ [0])) /\
  strcat (F := 40%nat) 19 45 strcpy_mem =
    Done (19, mem_write strcpy_mem 21 (copy_src ++ [0])).
Proof.
  assert (H := strcpy_correct (F := 40%nat) strcpy_mem 21 45 copy_src).
  destruct H as (_ & H1 & _ & H2); [conc..|].
  split; [exact H1|]. apply (H2 19 [97; 98]); conc.
Defined.

(** [stpncpy] and [strncpy] write exactly [n] bytes: the first [n] of the
    string, padded with zeros; [strncat] appends at most [n] bytes and always
    terminates.  The source is read only as far as its first [n] bytes. *)
Theorem strncpy_correct {F : Fuel} m dest src s N :
  mem_wf m -> Forall (fun b => 0 < b < 256) s -> bytes_at m src (take N (s ++ [0])) ->
  mapped m dest (Z.of_nat N) -> 0 <= dest -> Z.of_nat N < 2 ^ 64 ->
  dest + Z.of_nat N + 1 <= src \/ src + Z.of_nat (length (take N (s ++ [0]))) <= dest ->
  (N + 1 < fuel)%nat ->
  let m' := mem_write m dest (take N s ++ replicate (N - length s) 0) in
  __stpncpy dest src (Z.of_nat N) m = Done (dest + Z.of_nat (Nat.min N (length s)), m') /\
  strncpy dest src (Z.of_nat N) m = Done (dest, m') /\
  (forall d s1, cstring m d s1 -> dest = d + Z.of_nat (length s1) ->
     (length s1 + 1 < fuel)%nat -> mapped m dest (Z.of_nat N + 1) ->
     let m'' := mem_write m dest (take N s ++ [0]) in
     strncat d src (Z.of_nat N) m = Done (d, m'') /\ cstring m'' d (s1 ++ take N s)).
Proof.
  intros Hwf Hs Hl Hmap Hd HN Hov Hf m'. fold (clip N s) in *. split_and!.
  - apply wp_eq, (wp___stpncpy _ _ _ s); try done. lia.
  - apply wp_eq, wp_bind, (wp___stpncpy _ _ _ s); try done. lia.
  - intros d s1 Hs1 -> Hf1 Hmap1. split; [|by apply cstring_concat, Forall_take].
    apply wp_eq, (wp_strncat m d src s1 s N); done.
Qed.

Lemma strncpy_correct_witness :
  strncpy (F := 40%nat) 21 45 14 strcpy_mem =
    Done (21, mem_write strcpy_mem 21 (copy_src ++ [0; 0; 0])) /\
  strncat (F := 40%nat) 19 45 4 strcpy_mem =
    Done (19, mem_write strcpy_mem 21 [104; 101; 108; 108; 0]).
Proof.
  split.
  - refine (proj1 (proj2 (strncpy_correct (F := 40%nat) strcpy_mem 21 45 copy_src 14
      _ _ _ _ _ _ _ _))); conc.
  - refine (proj1 (proj2 (proj2 (strncpy_correct (F := 40%nat) strcpy_mem 21 45 copy_src 4
      _ _ _ _ _ _ _ _)) 19 [97; 98] _ _ _ _)); conc.
Defined.

(** [strlcpy] and [strlcat] never write past the [n] bytes of the
    destination, terminate whatever they write, truncate instead of
    overflowing, and return the length of the string they tried to build. *)
Theorem strlcpy_correct {F : Fuel} m dest src s N :
  mem_wf m -> cstring m src s ->
  mapped m dest (Z.of_nat N + 1) -> 0 < dest ->
  dest + Z.of_nat N + 1 <= src \/ src + Z.of_nat (length s) + 1 <= dest ->
  (N + 1 < fuel)%nat -> (length s + 1 < fuel)%nat ->
  let m' := mem_write m dest (take N s ++ [0]) in
  strlcpy dest src 0 m = Done (Z.of_nat (length s), m) /\
  strlcpy dest src (Z.of_nat N + 1) m = Done (Z.of_nat (length s), m') /\
  (forall d s1, cstring m d s1 -> 0 < d -> dest = d + Z.of_nat (length s1) ->
     (length s1 + N + 1 < fuel)%nat ->
     d + Z.of_nat (length s1) + Z.of_nat N + 1 <= src \/
       src + Z.of_nat (length s) + 1 <= d ->
     strlcat d src (Z.of_nat (length s1 + N) + 1) m =
       Done (Z.of_nat (length s1 + length s), m') /\
     cstring m' d (s1 ++ take N s) /\
     (forall n, 0 <= n <= Z.of_nat (length s1) ->
        strlcat d src n m = Done (n + Z.of_nat (length s), m))).
Proof.
  intros Hwf Hs Hmap Hd Hov Hf Hfs m'. split_and!.
  - apply wp_eq. apply wp_bind, wp_ret, wp_bind, (wp_strlen _ _ s); [done..|].
    apply wp_ret. split; [lia|done].
  - by apply wp_eq, (wp_strlcpy _ _ _ s N).
  - intros d s1 Hs1 Hd1 -> Hf1 Hov1. split_and!.
    + apply wp_eq, (wp_strlcat m d src s1 s); try done; try lia.
      * eapply mapped_sub; [exact Hmap|lia|lia].
      * intros N' HN'. by assert (N' = N) as -> by lia.
    + by apply cstring_concat, Forall_take, (proj2 Hs).
    + intros n Hn. apply wp_eq, (wp_strlcat m d src s1 s); try done; try lia.
      intros a Ha. lia.
Qed.

Lemma strlcpy_correct_witness :
  strlcpy (F := 40%nat) 21 45 5 strcpy_mem =
    Done (11, mem_write strcpy_mem 21 [104; 101; 108; 108; 0]) /\
  strlcat (F := 40%nat) 19 45 7 strcpy_mem =
    Done (13, mem_write strcpy_mem 21 [104; 101; 108; 108; 0]) /\
  strlcat (F := 40%nat) 19 45 2 strcpy_mem = Done (13, strcpy_mem).
Proof.
  assert (H := strlcpy_correct (F := 40%nat) strcpy_mem 21 45 copy_src 4).
  destruct H as (_ & H1 & H2); [conc..|].
  destruct (H2 19 [97; 98]) as (H3 & _ & H4); [conc..|].
  split; [exact H1|]. split; [exact H3|]. apply (H4 2); conc.
Defined.

(** [memccpy] copies up to and including the first byte [(unsigned char)c]
    among the [n] source bytes and returns the address after it.  When there is
    none it copies all [n] bytes, and then compares [c] with the byte behind
    them ([src + n], which the caller never offered): it returns 0 only if that
    byte happens to differ. *)
Theorem memccpy_correct {F : Fuel} m dest src c l :
  mem_wf m -> bytes_at m src l -> mapped m dest (Z.of_nat (length l)) ->
  dest + Z.of_nat (length l) <= src \/ src + Z.of_nat (length l) <= dest ->
  let m' := mem_write m dest l in
  (forall l1 n, l = l1 ++ [u8 c] -> u8 c ∉ l1 -> Z.of_nat (length l) <= n ->
     n + 1 < Z.of_nat fuel ->
     memccpy dest src c n m = Done (dest + Z.of_nat (length l), m')) /\
  (u8 c ∉ l -> Z.of_nat (length l) + 1 < Z.of_nat fuel ->
   forall b, m' !! (src + Z.of_nat (length l)) = Some b ->
     memccpy dest src c (Z.of_nat (length l)) m =
       Done (if b =? u8 c then dest + Z.of_nat (length l) + 1 else 0, m')).
Proof.
  intros Hwf Hl Hmap Hov m'. split.
  - intros l1 n Heq Hc Hn Hf. replace n with (Z.of_nat (Z.to_nat n)) by lia.
    assert (Hlen : length l = S (length l1)) by (rewrite Heq, length_app; simpl; lia).
    assert (Htk : take (length l1) l = l1) by (rewrite Heq; apply take_app_length).
    apply wp_eq, (wp_memccpy m dest src c l (Z.to_nat n) (length l1)) with (b := u8 c);
      rewrite ?Htk; try done; try lia.
    + subst m'. rewrite lookup_mem_write_out by lia.
      rewrite Heq in Hl. by apply bytes_at_app in Hl as [_ [Hl _]%bytes_at_cons].
    + rewrite Z.eqb_refl. split; [lia|done].
  - intros Hc Hf b Hb. apply wp_eq.
    apply (wp_memccpy m dest src c l (length l) (length l)) with (b := b); try done; try lia.
    by rewrite take_ge by lia.
Qed.

(** The second witness: no 'w' (119) among the first 6 bytes "hello ", yet the
    result is not null. *)
Lemma memccpy_correct_witness :
  memccpy (F := 40%nat) 21 45 119 11 strcpy_mem =
    Done (28, mem_write strcpy_mem 21 (take 7 copy_src)) /\
  memccpy (F := 40%nat) 21 45 119 6 strcpy_mem =
    Done (28, mem_write strcpy_mem 21 (take 6 copy_src)).
Proof.
  split.
  - refine (proj1 (memccpy_correct (F := 40%nat) strcpy_mem 21 45 119 (take 7 copy_src)
      _ _ _ _) (take 6 copy_src) 11 _ _ _ _); conc.
  - refine (proj2 (memccpy_correct (F := 40%nat) strcpy_mem 21 45 119 (take 6 copy_src)
      _ _ _ _) _ _ 119 _); conc.
Defined.
