(* ===== verification/Digest.v ===== *)
(** Block hash functions driven as a stream: what [md5_*], [sha256_*] and
    [sha512_*] of src/musl-1.1.19/src/crypt/ have in common.

    [Hash] collects what differs between them (block size, position of the
    padding and length fields, initial state, compression function, output
    encoding); [HashLaws] is what a client may rely on.  [digest] is the
    specification: pad the whole message, then fold the compression function
    over its blocks.  The streaming operations [update] and [sum] keep a partly
    filled block; the theorems of this file relate them to [digest] for every
    way of cutting the message into pieces. *)
From S2P Require Import Prelude.

(** The contexts [struct md5], [struct sha256] and [struct sha512]. *)
Record ctx := Ctx { len : Z; h : list Z; buf : list Z }.

(** [memcpy(buf + r, l, length l)] on an array. *)
Definition splice (r : nat) (l buf : list Z) : list Z :=
  take r buf ++ l ++ drop (r + length l) buf.

Lemma length_splice r l b : (r + length l <= length b)%nat -> length (splice r l b) = length b.
Proof. intros. unfold splice. rewrite !length_app, length_take, length_drop. lia. Qed.

Class Hash := {
  bs : nat;                              (* bytes in a block *)
  padlim : nat;                          (* the padding must start before this *)
  lenoff : nat;                          (* where the 8 length bytes go *)
  iv : list Z;                           (* initial state *)
  compress : list Z -> list Z -> list Z; (* state, bytes starting with a block *)
  lenenc : Z -> list Z;                  (* encoding of the length in bits *)
  output : list Z -> list Z              (* the digest of a state *)
}.

Class HashLaws (H : Hash) : Prop := {
  bs_lenoff : bs = (lenoff + 8)%nat;
  padlim_lenoff : (0 < padlim <= lenoff)%nat;
  bs_div : (Z.of_nat bs | 2 ^ 64);
  lenenc_length x : length (lenenc x) = 8%nat;
  compress_take st p : compress st (take bs p) = compress st p
}.

(** ** Specification *)
Section spec.
Context {H : Hash}.

(** Folding the compression function over the first [n] blocks of [p]. *)
Fixpoint absorb (n : nat) (st p : list Z) : list Z :=
  match n with
  | O => st
  | S n => absorb n (compress st (take bs p)) (drop bs p)
  end.

(** One 1 bit, as few zeros as fill up the last block, the length in bits. *)
Definition padding (n : nat) : list Z :=
  let r := (n mod bs + 1)%nat in
  128 :: replicate (if decide (padlim < r)%nat then bs - r + lenoff else lenoff - r) 0
      ++ lenenc (u64 (u64 (Z.of_nat n) * 8)).

Definition digest (m : list Z) : list Z :=
  let p := m ++ padding (length m) in output (absorb (length p / bs) iv p).
End spec.

(** ** The streaming operations *)
Section stream.
Context {H : Hash}.

Definition process (s : ctx) (p : list Z) : ctx :=
  Ctx (len s) (compress (h s) p) (buf s).

Definition init (s : ctx) : ctx := Ctx 0 iv (buf s).

(** [for (; len >= B; len -= B, p += B) processblock(s, p);] *)
Fixpoint process_blocks (n : nat) (s : ctx) (p : list Z) : ctx * list Z :=
  match n with
  | O => (s, p)
  | S n => if decide (bs <= length p)%nat
           then process_blocks n (process s p) (drop bs p) else (s, p)
  end.

Definition update (s : ctx) (m : list Z) : ctx :=
  let r := Z.to_nat (len s mod Z.of_nat bs) in
  let s := Ctx (u64 (len s + Z.of_nat (length m))) (h s) (buf s) in
  if decide (r <> 0 /\ length m < bs - r)%nat
  then Ctx (len s) (h s) (splice r m (buf s))
  else
    let '(s, m) :=
      if decide (r <> 0)%nat then
        let s := Ctx (len s) (h s) (splice r (take (bs - r) m) (buf s)) in
        (process s (buf s), drop (bs - r) m)
      else (s, m) in
    let '(s, m) := process_blocks (length m) s m in
    Ctx (len s) (h s) (splice 0 m (buf s)).

Definition pad (s : ctx) : ctx :=
  let r := Z.to_nat (len s mod Z.of_nat bs) in
  let s := Ctx (len s) (h s) (splice r [128] (buf s)) in
  let r := S r in
  let '(s, r) :=
    if decide (padlim < r)%nat then
      let s := Ctx (len s) (h s) (splice r (replicate (bs - r) 0) (buf s)) in
      (process s (buf s), O)
    else (s, r) in
  let s := Ctx (len s) (h s) (splice r (replicate (lenoff - r) 0) (buf s)) in
  let s := Ctx (u64 (len s * 8)) (h s) (buf s) in
  let s := Ctx (len s) (h s) (splice lenoff (lenenc (len s)) (buf s)) in
  process s (buf s).

Definition sum (s : ctx) : ctx * list Z := let s := pad s in (s, output (h s)).
End stream.

(** ** Correctness *)
Section proofs.
Context {H : Hash} {HL : HashLaws H}.

Lemma bs_pos : (0 < bs)%nat.
Proof. rewrite bs_lenoff. lia. Qed.

Lemma absorb_app n k st p q :
  length p = (n * bs)%nat -> absorb (n + k) st (p ++ q) = absorb k (absorb n st p) q.
Proof.
  revert st p. induction n as [|n IH]; intros st p Hp; simpl.
  { by apply nil_length_inv in Hp as ->. }
  simpl in Hp. rewrite take_app_le, drop_app_le by lia. apply IH.
  rewrite length_drop. lia.
Qed.

(** [s] has read [msg] : the whole blocks are absorbed, the rest is in [buf]. *)
Definition Inv (s : ctx) (msg : list Z) : Prop :=
  len s = u64 (Z.of_nat (length msg)) /\ length (buf s) = bs /\
  exists n rest junk,
    buf s = rest ++ junk /\ (length rest < bs)%nat /\
    (exists full, msg = full ++ rest /\ length full = (n * bs)%nat /\
                  h s = absorb n iv full).

Lemma init_inv s : length (buf s) = bs -> Inv (init s) [].
Proof.
  intros Hb. split; [done|]. split; [done|]. exists O, [], (buf s).
  split_and!; [done|apply bs_pos|]. by exists [].
Qed.

Lemma len_mod (msg full rest : list Z) n :
  msg = full ++ rest -> length full = (n * bs)%nat -> (length rest < bs)%nat ->
  Z.to_nat (u64 (Z.of_nat (length msg)) mod Z.of_nat bs) = length rest.
Proof.
  intros -> Hf Hr. unfold u64. destruct bs_div as [k Hk].
  assert (0 < k) by (pose proof bs_pos; nia).
  rewrite Hk, (Z.mul_comm k), Z.rem_mul_r, Z.mul_comm, Z.mod_add, Z.mod_mod by lia.
  rewrite length_app, Hf, Nat2Z.inj_add, Nat2Z.inj_mul, Z.add_comm, Z.mod_add, Z.mod_small; lia.
Qed.

Lemma u64_add_l a b : u64 (u64 a + b) = u64 (a + b).
Proof. unfold u64. by rewrite Zplus_mod_idemp_l. Qed.

Lemma process_blocks_spec k s p :
  (length p <= k)%nat ->
  exists n full rest, p = full ++ rest /\ length full = (n * bs)%nat /\
    (length rest < bs)%nat /\
    process_blocks k s p = (Ctx (len s) (absorb n (h s) full) (buf s), rest).
Proof.
  revert s p. induction k as [|k IH]; intros s p Hp; simpl.
  { exists O, [], p. pose proof bs_pos. split_and!; [done|done|lia|by destruct s]. }
  destruct (decide (bs <= length p)%nat) as [Hle|Hgt].
  2: { exists O, [], p. split_and!; [done|done|lia|by destruct s]. }
  destruct (IH (process s p) (drop bs p)) as (n & full & rest & Heq & Hf & Hr & ->).
  { rewrite length_drop. pose proof bs_pos. lia. }
  exists (S n), (take bs p ++ full), rest. split_and!.
  - by rewrite <- app_assoc, <- Heq, take_drop.
  - rewrite length_app, length_take. lia.
  - done.
  - simpl. rewrite take_app_length', drop_app_length' by (rewrite length_take; lia). by rewrite compress_take.
Qed.

Lemma splice_end r l (a b : list Z) :
  length a = r -> (r + length l <= length (a ++ b))%nat ->
  exists junk, splice r l (a ++ b) = (a ++ l) ++ junk /\
    length ((a ++ l) ++ junk) = length (a ++ b).
Proof.
  intros Ha Hl. exists (drop (r + length l) (a ++ b)). split.
  - unfold splice. by rewrite take_app_length' by done; rewrite <- app_assoc.
  - rewrite !length_app, length_drop, length_app in *. lia.
Qed.

Lemma splice_full r l (a b : list Z) :
  length a = r -> length (a ++ b) = (r + length l)%nat -> splice r l (a ++ b) = a ++ l.
Proof.
  intros Ha Hl. unfold splice. rewrite take_app_length' by done.
  rewrite (drop_ge (a ++ b)) by lia. by rewrite app_nil_r.
Qed.

Lemma absorb_snoc n st full blk :
  length full = (n * bs)%nat -> length blk = bs ->
  absorb (S n) st (full ++ blk) = compress (absorb n st full) blk.
Proof.
  intros Hf Hb. rewrite <- Nat.add_1_r, absorb_app by done. simpl.
  rewrite take_ge by lia. done.
Qed.

Lemma absorb_blocks n k st full p :
  length full = (n * bs)%nat -> absorb k (absorb n st full) p = absorb (n + k) st (full ++ p).
Proof. intros. by rewrite absorb_app. Qed.

(** The end of [update]: whole blocks straight from the input, the rest kept. *)
Lemma update_tail s m msg n full :
  length (buf s) = bs -> msg = full -> length full = (n * bs)%nat ->
  h s = absorb n iv full -> len s = u64 (Z.of_nat (length (msg ++ m))) ->
  Inv (let '(s, m) := process_blocks (length m) s m in
       Ctx (len s) (h s) (splice 0 m (buf s))) (msg ++ m).
Proof.
  intros Hb -> Hf Hh Hlen.
  destruct (process_blocks_spec (length m) s m) as (k & f & rest & -> & Hfk & Hr & ->); [done|].
  split; [done|]. simpl. split; [rewrite length_splice by lia; done|].
  exists (n + k)%nat, rest, (drop (length rest) (buf s)). split_and!; [done|done|].
  exists (full ++ f). split_and!; [by rewrite app_assoc|rewrite length_app; lia|].
  by rewrite Hh, absorb_blocks.
Qed.

Lemma update_inv s m msg : Inv s msg -> Inv (update s m) (msg ++ m).
Proof.
  intros (Hlen & Hb & n & rest & junk & Hbuf & Hr & full & Hmsg & Hf & Hh).
  unfold update. rewrite Hlen, (len_mod _ _ _ _ Hmsg Hf Hr), u64_add_l, <- Nat2Z.inj_add,
    <- length_app. rewrite Hbuf, length_app in Hb.
  destruct (decide _) as [[Hr0 Hlt]|Hge]; simpl.
  - rewrite Hbuf. split; [done|]. simpl. rewrite length_splice by (rewrite length_app; lia).
    split; [by rewrite length_app|].
    destruct (splice_end (length rest) m rest junk eq_refl) as (junk' & -> & _);
      [rewrite length_app; lia|].
    exists n, (rest ++ m), junk'. split_and!; [done|rewrite length_app; lia|].
    exists full. by rewrite Hmsg, app_assoc.
  - destruct (decide _) as [Hr0|Hr0].
    + assert (Hm : (bs - length rest <= length m)%nat) by lia.
      set (blk := rest ++ take (bs - length rest) m).
      assert (Hblk : length blk = bs) by (unfold blk; rewrite length_app, length_take; lia).
      rewrite Hbuf, splice_full; [|done|rewrite length_app, length_take; lia]. fold blk.
      replace (msg ++ m) with ((full ++ blk) ++ drop (bs - length rest) m).
      2: { unfold blk. rewrite Hmsg, <- !app_assoc. by rewrite take_drop. }
      apply (update_tail _ _ _ (S n) (full ++ blk)); [done|done|rewrite length_app; lia| |];
        cbn [h len process].
      * rewrite (absorb_snoc n) by done. by rewrite Hh.
      * done.
    + assert (rest = []) as -> by (apply nil_length_inv; lia).
      rewrite app_nil_r in Hmsg. apply (update_tail _ _ _ n full); simpl; try done.
      rewrite Hbuf. simpl. done.
Qed.

Lemma updates_inv s ms msg : Inv s msg -> Inv (foldl update s ms) (msg ++ concat ms).
Proof.
  revert s msg. induction ms as [|m ms IH]; intros s msg Hs; simpl.
  { by rewrite app_nil_r. }
  rewrite app_assoc. by apply IH, update_inv.
Qed.

(** ** Padding *)
Lemma padding_length n : exists k, (n + length (padding n) = k * bs)%nat.
Proof.
  pose proof bs_pos. pose proof padlim_lenoff. pose proof bs_lenoff.
  pose proof (Nat.mod_upper_bound n bs). unfold padding. cbn [length].
  rewrite length_app, length_replicate, lenenc_length.
  destruct (decide _); [exists (n / bs + 2)%nat|exists (n / bs + 1)%nat];
    pose proof (Nat.div_mod_eq n bs); nia.
Qed.

(** Absorbing one or two more blocks. *)
Lemma absorb_finish k n full p :
  length full = (n * bs)%nat -> length p = (k * bs)%nat ->
  absorb (length (full ++ p) / bs) iv (full ++ p) = absorb k (absorb n iv full) p.
Proof.
  intros Hf Hp. rewrite absorb_blocks by done. f_equal.
  pose proof bs_pos. rewrite length_app, Hf, Hp, <- Nat.mul_add_distr_r, Nat.div_mul; lia.
Qed.

(** The last block: zeros up to the length field, then the length. *)
Lemma pad_last (a b lb : list Z) r :
  length a = r -> length (a ++ b) = bs -> (r <= lenoff)%nat -> length lb = 8%nat ->
  splice lenoff lb (splice r (replicate (lenoff - r) 0) (a ++ b)) =
    a ++ replicate (lenoff - r) 0 ++ lb.
Proof.
  intros Ha Hb Hr Hlb. pose proof bs_lenoff.
  destruct (splice_end r (replicate (lenoff - r) 0) a b Ha) as (junk & -> & Hj).
  { rewrite length_replicate. lia. }
  rewrite splice_full.
  - by rewrite <- app_assoc.
  - rewrite length_app, length_replicate. lia.
  - rewrite Hj. lia.
Qed.

Lemma pad_spec s msg :
  Inv s msg ->
  h (pad s) = absorb (length (msg ++ padding (length msg)) / bs) iv
                     (msg ++ padding (length msg)).
Proof.
  intros (Hlen & Hb & n & rest & junk & Hbuf & Hr & full & Hmsg & Hf & Hh).
  pose proof bs_lenoff as Hbs. pose proof padlim_lenoff as Hlim.
  set (enc := lenenc (u64 (u64 (Z.of_nat (length msg)) * 8))).
  assert (Henc : length enc = 8%nat) by apply lenenc_length.
  assert (Hmod : (length msg mod bs = length rest)%nat).
  { rewrite Hmsg, length_app, Hf, Nat.add_comm, Nat.Div0.mod_add. by apply Nat.mod_small. }
  unfold pad. rewrite Hlen, (len_mod _ _ _ _ Hmsg Hf Hr), Hbuf. rewrite Hbuf in Hb.
  destruct (splice_end (length rest) [128] rest junk eq_refl) as (j1 & Hj1 & Hlj1).
  { simpl. lia. }
  cbn [len h buf]. rewrite Hj1, Hb in *.
  unfold padding. rewrite Hmod, Nat.add_1_r. fold enc.
  assert (Hl1 : length (rest ++ [128]) = S (length rest)) by (rewrite length_app; simpl; lia).
  destruct (decide (padlim < S (length rest))%nat) as [Hlt|Hge]; cbn [len h buf process].
  - rewrite splice_full by (rewrite ?length_replicate, ?Hlj1; lia).
    set (blk := (rest ++ [128]) ++ replicate (bs - S (length rest)) 0).
    assert (Hblk : length blk = bs) by (unfold blk; rewrite length_app, length_replicate; lia).
    pose proof (pad_last [] blk enc 0 eq_refl Hblk ltac:(lia) Henc) as Hp.
    cbn [app] in Hp. fold enc. rewrite Hp. clear Hp.
    rewrite Hmsg, <- (app_assoc full).
    rewrite (absorb_finish 2 n full) by (rewrite ?length_app; simpl;
      rewrite ?length_app, ?length_replicate; lia).
    rewrite Hh, replicate_add, <- app_assoc.
    replace (rest ++ 128 :: replicate (bs - S (length rest)) 0 ++ _)
      with (blk ++ replicate lenoff 0 ++ enc) by (unfold blk; by rewrite <- !app_assoc).
    cbn [absorb]. rewrite take_app_length', drop_app_length' by done.
    rewrite take_ge by (rewrite length_app, length_replicate; lia).
    by rewrite Nat.sub_0_r.
  - fold enc. rewrite pad_last by lia. rewrite Hmsg, <- (app_assoc full).
    rewrite (absorb_finish 1 n full) by (rewrite ?length_app; simpl;
      rewrite ?length_app, ?length_replicate; lia).
    rewrite Hh, <- app_assoc. cbn [absorb]. rewrite take_ge; [done|].
    rewrite length_app. simpl. rewrite length_app, length_replicate. lia.
Qed.

(** The blocks of a padded message. *)
Definition blocks (n : nat) (p : list Z) : list (list Z) :=
  map (fun i => take bs (drop (bs * i) p)) (seq 0 n).

Lemma blocks_S n p : blocks (S n) p = take bs p :: blocks n (drop bs p).
Proof.
  unfold blocks. cbn [seq map]. rewrite Nat.mul_0_r, drop_0. f_equal.
  rewrite <- seq_shift, map_map. apply map_ext. intros i. rewrite drop_drop.
  do 2 f_equal. lia.
Qed.

Lemma absorb_inv (P : list Z -> Prop) n st p :
  (forall st p, P (compress st p)) -> P st -> P (absorb n st p).
Proof. intros Hc. revert st p. induction n as [|n IH]; intros st p HP; simpl; auto. Qed.

(** A reference compression function that agrees on blocks of bytes and states
    that satisfy an invariant [P] gives the same digest. *)
Lemma absorb_ref (P : list Z -> Prop) (ref : list Z -> list Z -> list Z) n st p :
  (forall st p, P st -> bytes p -> length p = bs ->
     compress st p = ref st p /\ P (compress st p)) ->
  P st -> bytes p -> (n * bs <= length p)%nat ->
  absorb n st p = foldl ref st (blocks n p).
Proof.
  intros Href. revert st p. induction n as [|n IH]; intros st p HP Hp Hl; [done|].
  rewrite blocks_S. cbn [absorb foldl]. simpl in Hl.
  destruct (Href st (take bs p)) as [Heq HP']; [done|by apply Forall_take| |].
  { rewrite length_take. lia. }
  rewrite IH; [by rewrite Heq|done|by apply Forall_drop|rewrite length_drop; lia].
Qed.

(** Every way of feeding a message gives the digest of the whole of it. *)
Lemma stream_digest s ms :
  length (buf s) = bs -> (sum (foldl update (init s) ms)).2 = digest (concat ms).
Proof.
  intros Hb. unfold sum, digest. cbn [snd]. f_equal.
  rewrite (pad_spec _ (concat ms)); [done|].
  rewrite <- (app_nil_l (concat ms)). by apply updates_inv, init_inv.
Qed.

(** The context can be used again: its buffer keeps its size. *)
Lemma sum_buf s msg : Inv s msg -> length (buf (sum s).1) = bs.
Proof.
  intros (Hlen & Hb & n & rest & junk & Hbuf & Hr & full & Hmsg & Hf & _).
  pose proof bs_lenoff. pose proof padlim_lenoff. unfold sum, pad. cbn [fst].
  rewrite Hlen, (len_mod _ _ _ _ Hmsg Hf Hr).
  destruct (decide (padlim < S (length rest))%nat); cbn [len h buf process fst];
    repeat rewrite length_splice; rewrite ?lenenc_length, ?length_replicate; cbn [length]; lia.
Qed.
End proofs.

(** ** The interface of a hash function to its users

    [StreamOps] are the three functions a program calls; [StreamSpec] promises
    that a run of them over a context whose buffer has [bsz] bytes computes
    [D], a digest of [n] bytes, of the concatenated input. *)
Class StreamOps := {
  s_init : ctx -> ctx;
  s_update : ctx -> list Z -> ctx;
  s_sum : ctx -> ctx * list Z
}.

Definition run {O : StreamOps} (s : ctx) (ms : list (list Z)) : ctx * list Z :=
  s_sum (foldl s_update (s_init s) ms).

Class StreamSpec (O : StreamOps) (bsz : nat) (D : list Z -> list Z) (n : nat) : Prop := {
  run_buf s ms : length (buf s) = bsz -> length (buf (run s ms).1) = bsz;
  run_digest s ms : length (buf s) = bsz -> Forall bytes ms -> (run s ms).2 = D (concat ms);
  digest_length m : bytes m -> length (D m) = n;
  digest_bytes m : bytes m -> bytes (D m)
}.

(** Operations equal to the generic ones of a [Hash] meet the interface. *)
Lemma stream_spec (H : Hash) {HL : HashLaws H} (O : StreamOps) (D : list Z -> list Z) n :
  (forall s ms, foldl s_update (s_init s) ms = foldl update (init s) ms) ->
  (forall s, s_sum s = sum s) ->
  (forall m, bytes m -> digest m = D m) ->
  (forall st, length (output st) = n /\ bytes (output st)) ->
  StreamSpec O bs D n.
Proof.
  intros Hu Hs HD Ho.
  assert (Hout : forall m, bytes m -> length (D m) = n /\ bytes (D m)).
  { intros m Hm. rewrite <- HD by done. apply Ho. }
  split.
  - intros s ms Hb. unfold run. rewrite Hs, Hu. apply (sum_buf _ ([] ++ concat ms)).
    by apply updates_inv, init_inv.
  - intros s ms Hb Hms. unfold run. rewrite Hs, Hu, stream_digest by done.
    by apply HD, Forall_concat.
  - intros m Hm. by apply Hout.
  - intros m Hm. by apply Hout.
Qed.
