(* ===== verification/Md5.v ===== *)
(** MD5 as in src/musl-1.1.19/src/crypt/crypt_md5.c, checked against the
    description of RFC 1321: sixty-four identical steps on a rotating state,
    with the message words taken in the order the RFC gives. *)
From S2P Require Import Prelude Digest.

(** ** Operations *)
#[local] Open Scope c_scope.

Definition rol (n k : Z) : Z := u32 (n << k) .| (n >> (32 - k)).
Definition F (x y z : Z) : Z := z ^^ (x & (y ^^ z)).
Definition G (x y z : Z) : Z := y ^^ (z & (y ^^ x)).
Definition H (x y z : Z) : Z := x ^^ y ^^ z.
Definition I (x y z : Z) : Z := y ^^ (x .| u32 (Z.lnot z)).

(** The macros [FF], [GG], [HH], [II]: the new value of [a]. *)
Definition step_macro (f : Z -> Z -> Z -> Z) (a b c d w s t : Z) : Z :=
  let a := u32 (a + u32 (u32 (f b c d + w) + t)) in u32 (rol a s + b).
Definition FF := step_macro F.
Definition GG := step_macro G.
Definition HH := step_macro H.
Definition II := step_macro I.

Definition tab : list Z := [
0xd76aa478; 0xe8c7b756; 0x242070db; 0xc1bdceee; 0xf57c0faf; 0x4787c62a; 0xa8304613; 0xfd469501;
0x698098d8; 0x8b44f7af; 0xffff5bb1; 0x895cd7be; 0x6b901122; 0xfd987193; 0xa679438e; 0x49b40821;
0xf61e2562; 0xc040b340; 0x265e5a51; 0xe9b6c7aa; 0xd62f105d; 0x02441453; 0xd8a1e681; 0xe7d3fbc8;
0x21e1cde6; 0xc33707d6; 0xf4d50d87; 0x455a14ed; 0xa9e3e905; 0xfcefa3f8; 0x676f02d9; 0x8d2a4c8a;
0xfffa3942; 0x8771f681; 0x6d9d6122; 0xfde5380c; 0xa4beea44; 0x4bdecfa9; 0xf6bb4b60; 0xbebfbc70;
0x289b7ec6; 0xeaa127fa; 0xd4ef3085; 0x04881d05; 0xd9d4d039; 0xe6db99e5; 0x1fa27cf8; 0xc4ac5665;
0xf4292244; 0x432aff97; 0xab9423a7; 0xfc93a039; 0x655b59c3; 0x8f0ccc92; 0xffeff47d; 0x85845dd1;
0x6fa87e4f; 0xfe2ce6e0; 0xa3014314; 0x4e0811a1; 0xf7537e82; 0xbd3af235; 0x2ad7d2bb; 0xeb86d391 ].

(** [W[i]], the little-endian word at [buf + 4*i]. *)
Definition word (buf : list Z) (i : nat) : Z :=
  (buf !!! (4*i)%nat) .| u32 ((buf !!! (4*i+1)%nat) << 8)
    .| u32 ((buf !!! (4*i+2)%nat) << 16) .| u32 ((buf !!! (4*i+3)%nat) << 24).

(** The bodies of the four [while] loops; each is run four times. *)
Definition state : Type := Z * Z * Z * Z.

Definition round1 (W : list Z) (st : state) (i : nat) : state :=
  let '(a, b, c, d) := st in
  let a := FF a b c d (W !!! i) 7 (tab !!! i) in let i := S i in
  let d := FF d a b c (W !!! i) 12 (tab !!! i) in let i := S i in
  let c := FF c d a b (W !!! i) 17 (tab !!! i) in let i := S i in
  let b := FF b c d a (W !!! i) 22 (tab !!! i) in
  (a, b, c, d).

Definition round2 (W : list Z) (st : state) (i : nat) : state :=
  let '(a, b, c, d) := st in
  let a := GG a b c d (W !!! ((5*i+1) mod 16)%nat) 5 (tab !!! i) in let i := S i in
  let d := GG d a b c (W !!! ((5*i+1) mod 16)%nat) 9 (tab !!! i) in let i := S i in
  let c := GG c d a b (W !!! ((5*i+1) mod 16)%nat) 14 (tab !!! i) in let i := S i in
  let b := GG b c d a (W !!! ((5*i+1) mod 16)%nat) 20 (tab !!! i) in
  (a, b, c, d).

Definition round3 (W : list Z) (st : state) (i : nat) : state :=
  let '(a, b, c, d) := st in
  let a := HH a b c d (W !!! ((3*i+5) mod 16)%nat) 4 (tab !!! i) in let i := S i in
  let d := HH d a b c (W !!! ((3*i+5) mod 16)%nat) 11 (tab !!! i) in let i := S i in
  let c := HH c d a b (W !!! ((3*i+5) mod 16)%nat) 16 (tab !!! i) in let i := S i in
  let b := HH b c d a (W !!! ((3*i+5) mod 16)%nat) 23 (tab !!! i) in
  (a, b, c, d).

Definition round4 (W : list Z) (st : state) (i : nat) : state :=
  let '(a, b, c, d) := st in
  let a := II a b c d (W !!! (7*i mod 16)%nat) 6 (tab !!! i) in let i := S i in
  let d := II d a b c (W !!! (7*i mod 16)%nat) 10 (tab !!! i) in let i := S i in
  let c := II c d a b (W !!! (7*i mod 16)%nat) 15 (tab !!! i) in let i := S i in
  let b := II b c d a (W !!! (7*i mod 16)%nat) 21 (tab !!! i) in
  (a, b, c, d).

(** [processblock], as the new value of [s->h]. *)
Definition block (h buf : list Z) : list Z :=
  let W := map (word buf) (seq 0 16) in
  let st := (h !!! 0%nat, h !!! 1%nat, h !!! 2%nat, h !!! 3%nat) in
  let st := foldl (round1 W) st [0; 4; 8; 12]%nat in
  let st := foldl (round2 W) st [16; 20; 24; 28]%nat in
  let st := foldl (round3 W) st [32; 36; 40; 44]%nat in
  let '(a, b, c, d) := foldl (round4 W) st [48; 52; 56; 60]%nat in
  [u32 (h !!! 0%nat + a); u32 (h !!! 1%nat + b); u32 (h !!! 2%nat + c); u32 (h !!! 3%nat + d)].

Definition processblock (s : ctx) (p : list Z) : ctx := Ctx (len s) (block (h s) p) (buf s).

Definition pad (s : ctx) : ctx :=
  let r := Z.to_nat (len s mod 64) in
  let s := Ctx (len s) (h s) (splice r [0x80] (buf s)) in
  let r := S r in
  let '(s, r) :=
    if decide (56 < r)%nat then
      let s := Ctx (len s) (h s) (splice r (replicate (64 - r) 0) (buf s)) in
      (processblock s (buf s), 0%nat)
    else (s, r) in
  let s := Ctx (len s) (h s) (splice r (replicate (56 - r) 0) (buf s)) in
  let s := Ctx (u64 (len s * 8)) (h s) (buf s) in
  let s := Ctx (len s) (h s) (splice 56
    [u8 (len s); u8 (len s >> 8); u8 (len s >> 16); u8 (len s >> 24);
     u8 (len s >> 32); u8 (len s >> 40); u8 (len s >> 48); u8 (len s >> 56)] (buf s)) in
  processblock s (buf s).

Definition md5_init (s : ctx) : ctx :=
  Ctx 0 [0x67452301; 0xefcdab89; 0x98badcfe; 0x10325476] (buf s).

Definition md5_sum (s : ctx) : ctx * list Z :=
  let s := pad s in
  (s, concat (map (fun i => [u8 (h s !!! i); u8 ((h s !!! i) >> 8);
                             u8 ((h s !!! i) >> 16); u8 ((h s !!! i) >> 24)]) (seq 0 4))).

(** [for (; len >= 64; len -= 64, p += 64) processblock(s, p);] *)
Fixpoint md5_blocks (n : nat) (s : ctx) (p : list Z) : ctx * list Z :=
  match n with
  | O => (s, p)
  | S n => if decide (64 <= length p)%nat
           then md5_blocks n (processblock s p) (drop 64 p) else (s, p)
  end.

Definition md5_update (s : ctx) (m : list Z) : ctx :=
  let r := Z.to_nat (len s mod 64) in
  let s := Ctx (u64 (len s + Z.of_nat (length m))) (h s) (buf s) in
  if decide (r <> 0 /\ length m < 64 - r)%nat
  then Ctx (len s) (h s) (splice r m (buf s))
  else
    let '(s, m) :=
      if decide (r <> 0)%nat then
        let s := Ctx (len s) (h s) (splice r (take (64 - r) m) (buf s)) in
        (processblock s (buf s), drop (64 - r) m)
      else (s, m) in
    let '(s, m) := md5_blocks (length m) s m in
    Ctx (len s) (h s) (splice 0 m (buf s)).

(** ** The interface *)
#[export] Instance md5 : Hash := {
  bs := 64; padlim := 56; lenoff := 56;
  iv := [0x67452301; 0xefcdab89; 0x98badcfe; 0x10325476];
  compress := block;
  lenenc x := [u8 x; u8 (x >> 8); u8 (x >> 16); u8 (x >> 24);
               u8 (x >> 32); u8 (x >> 40); u8 (x >> 48); u8 (x >> 56)];
  output h := concat (map (fun i => [u8 (h !!! i); u8 ((h !!! i) >> 8);
                u8 ((h !!! i) >> 16); u8 ((h !!! i) >> 24)]) (seq 0 4))
}.

Lemma md5_word_take buf i : (i < 16)%nat -> word (take 64 buf) i = word buf i.
Proof. intros Hi. unfold word. by rewrite !lookup_total_take_lt by lia. Qed.

Lemma md5_block_take st p : block st (take 64 p) = block st p.
Proof.
  unfold block. assert (map (word (take 64 p)) (seq 0 16) = map (word p) (seq 0 16)) as ->; [|done].
  apply map_ext_in. intros i Hi%in_seq. apply md5_word_take. lia.
Qed.

#[export] Instance md5_laws : HashLaws md5.
Proof.
  split; [done|cbn; lia|by exists (2 ^ 58)|done|exact md5_block_take].
Qed.

#[local] Opaque block.

Lemma md5_blocks_eq n s p : md5_blocks n s p = process_blocks n s p.
Proof. revert s p. induction n as [|n IH]; intros s p; simpl; [done|]. by rewrite IH. Qed.

Lemma md5_update_eq s m : md5_update s m = update s m.
Proof.
  unfold md5_update, update. simpl. repeat (case_decide; simpl); rewrite ?md5_blocks_eq; done.
Qed.

Lemma md5_sum_eq s : md5_sum s = sum s.
Proof. done. Qed.

Lemma md5_updates_eq s ms : foldl md5_update (md5_init s) ms = foldl update (init s) ms.
Proof.
  change (md5_init s) with (init s). generalize (init s) as s0.
  induction ms as [|m ms IH]; intros s0; [done|]. cbn [foldl]. by rewrite md5_update_eq, IH.
Qed.

#[local] Transparent block.

(** ** RFC 1321

    Step [i] (from 0) replaces the state [(a, b, c, d)] by [(d, a', b, c)] with
    [a' = b + ((a + f(b,c,d) + X[k] + T[i]) <<< s)]. *)
Definition rfc_f (i : nat) (b c d : Z) : Z :=
  match (i / 16)%nat with
  | O => (b & c) .| (Z.lnot b & d)
  | 1%nat => (b & d) .| (c & Z.lnot d)
  | 2%nat => b ^^ c ^^ d
  | _ => c ^^ (b .| u32 (Z.lnot d))
  end.

Definition rfc_k (i : nat) : nat :=
  match (i / 16)%nat with
  | O => i mod 16
  | 1%nat => (5 * i + 1) mod 16
  | 2%nat => (3 * i + 5) mod 16
  | _ => (7 * i) mod 16
  end.

Definition rfc_s (i : nat) : Z :=
  nth (i mod 4) (nth (i / 16) [[7; 12; 17; 22]; [5; 9; 14; 20]; [4; 11; 16; 23]; [6; 10; 15; 21]]
                     []) 0.

(** Left rotation of a 32-bit word. *)
Definition rotl (x k : Z) : Z := (x * 2 ^ k) mod 2 ^ 32 + x / 2 ^ (32 - k).

Definition rfc_step (X : nat -> Z) (st : state) (i : nat) : state :=
  let '(a, b, c, d) := st in
  (d, (b + rotl ((a + rfc_f i b c d + X (rfc_k i) + (tab !!! i)) mod 2 ^ 32) (rfc_s i)) mod 2 ^ 32,
   b, c).

(** The word [k] of a block, least significant byte first. *)
Definition rfc_X (p : list Z) (k : nat) : Z := le_combine (take 4 (drop (4 * k) p)).

Definition rfc_block (h p : list Z) : list Z :=
  let '(a, b, c, d) :=
    foldl (rfc_step (rfc_X p)) (h !!! 0%nat, h !!! 1%nat, h !!! 2%nat, h !!! 3%nat) (seq 0 64) in
  zip_with (fun x y => (x + y) mod 2 ^ 32) h [a; b; c; d].

Lemma F_rfc x y z : F x y z = (x & y) .| (Z.lnot x & z).
Proof. unfold F. bitwise. Qed.

Lemma G_rfc x y z : G x y z = (x & z) .| (y & Z.lnot z).
Proof. unfold G. bitwise. Qed.

Lemma rol_rotl x k : 0 < k < 32 -> 0 <= x < 2 ^ 32 -> rol x k = rotl x k.
Proof.
  intros Hk Hx. unfold rol, rotl, u32. rewrite Z.shiftl_mul_pow2, Z.shiftr_div_pow2 by lia.
  by apply rot_lor.
Qed.

Lemma step_macro_rfc f a b c d w s t : 0 < s < 32 ->
  step_macro f a b c d w s t = (b + rotl ((a + f b c d + w + t) mod 2 ^ 32) s) mod 2 ^ 32.
Proof.
  intros Hs. unfold step_macro. rewrite rol_rotl by auto using u32_range.
  unfold u32. rewrite (Z.add_comm b). do 3 f_equal.
  rewrite Zplus_mod_idemp_l, Zplus_mod_idemp_r. f_equal. lia.
Qed.

Section rounds.
Context (W : list Z) (X : nat -> Z) (HW : forall k, (k < 16)%nat -> W !!! k = X k).

(** One step of the RFC is one use of a macro. *)
Lemma rfc_s_range i : (i < 64)%nat -> 0 < rfc_s i < 32.
Proof.
  intros Hi. assert (H : forallb (fun i => (0 <? rfc_s i) && (rfc_s i <? 32)) (seq 0 64) = true)
    by by vm_compute.
  rewrite forallb_forall in H. specialize (H i). rewrite in_seq in H. lia.
Qed.

Lemma rfc_step_macro f j a b c d :
  (j < 64)%nat -> (forall x y z, rfc_f j x y z = f x y z) ->
  rfc_step X (a, b, c, d) j =
    (d, step_macro f a b c d (W !!! rfc_k j) (rfc_s j) (tab !!! j), b, c).
Proof.
  intros Hj Hf. unfold rfc_step.
  rewrite step_macro_rfc, Hf, HW; [done| |by apply rfc_s_range].
  unfold rfc_k. repeat case_match; apply Nat.mod_upper_bound; lia.
Qed.

(** Four steps of the RFC are one iteration of the code's loop. *)
Local Ltac four_steps f lem :=
  intros Hi [[[a b] c] d]; rewrite !elem_of_cons, elem_of_nil in Hi;
  destruct Hi as [->|[->|[->|[->|[]]]]]; cbn [seq foldl];
  repeat match goal with
  | |- context [rfc_step X (?a, ?b, ?c, ?d) ?j] =>
      rewrite (rfc_step_macro f j a b c d) by first [lia | intros; symmetry; apply lem]
  end; reflexivity.

Lemma round1_rfc i : i ∈ [0; 4; 8; 12]%nat ->
  forall st, round1 W st i = foldl (rfc_step X) st (seq i 4).
Proof. four_steps F F_rfc. Qed.

Lemma round2_rfc i : i ∈ [16; 20; 24; 28]%nat ->
  forall st, round2 W st i = foldl (rfc_step X) st (seq i 4).
Proof. four_steps G G_rfc. Qed.

Lemma round3_rfc i : i ∈ [32; 36; 40; 44]%nat ->
  forall st, round3 W st i = foldl (rfc_step X) st (seq i 4).
Proof. four_steps H @eq_refl. Qed.

Lemma round4_rfc i : i ∈ [48; 52; 56; 60]%nat ->
  forall st, round4 W st i = foldl (rfc_step X) st (seq i 4).
Proof. four_steps I @eq_refl. Qed.

Lemma rounds_rfc (st : state) :
  foldl (round4 W) (foldl (round3 W) (foldl (round2 W) (foldl (round1 W) st
    [0; 4; 8; 12]%nat) [16; 20; 24; 28]%nat) [32; 36; 40; 44]%nat) [48; 52; 56; 60]%nat
  = foldl (rfc_step X) st (seq 0 64).
Proof.
  change (seq 0 64) with (concat (map (fun i => seq i 4)
    [0; 4; 8; 12; 16; 20; 24; 28; 32; 36; 40; 44; 48; 52; 56; 60]%nat)).
  cbn [map concat]. rewrite !foldl_app. cbn [foldl].
  rewrite !round1_rfc, !round2_rfc, !round3_rfc, !round4_rfc by set_solver. done.
Qed.
End rounds.

(** [W[i]] is the little-endian word of the RFC. *)
Lemma word_rfc p k : bytes p -> (64 <= length p)%nat -> (k < 16)%nat -> word p k = rfc_X p k.
Proof.
  intros Hp Hl Hk. unfold word, rfc_X.
  assert (Hget : forall j, (j < 64)%nat -> exists b, p !! j = Some b /\ byte b).
  { intros j Hj. destruct (lookup_lt_is_Some_2 p j) as [b Hb]; [lia|].
    exists b. split; [done|]. by eapply Forall_lookup_1 in Hp. }
  destruct (Hget (4*k)%nat) as (b0 & E0 & H0); [lia|].
  destruct (Hget (4*k+1)%nat) as (b1 & E1 & H1); [lia|].
  destruct (Hget (4*k+2)%nat) as (b2 & E2 & H2); [lia|].
  destruct (Hget (4*k+3)%nat) as (b3 & E3 & H3); [lia|].
  rewrite (drop_S _ _ _ E0). replace (S (4*k)) with (4*k+1)%nat by lia.
  rewrite (drop_S _ _ _ E1). replace (S (4*k+1)) with (4*k+2)%nat by lia.
  rewrite (drop_S _ _ _ E2). replace (S (4*k+2)) with (4*k+3)%nat by lia.
  rewrite (drop_S _ _ _ E3).
  rewrite !list_lookup_total_alt, E0, E1, E2, E3. cbn [id default from_option take le_combine foldr].
  unfold byte in *. rewrite !Z.shiftl_mul_pow2 by lia. unfold u32.
  rewrite !Z.mod_small by lia. rewrite (lor_add 8), (lor_add 16), (lor_add 24) by lia. rewrite take_0. cbn [foldr]. lia.
Qed.

Lemma block_rfc st p :
  bytes p -> (64 <= length p)%nat -> length st = 4%nat -> block st p = rfc_block st p.
Proof.
  intros Hp Hl Hst. unfold block, rfc_block.
  rewrite <- (rounds_rfc (map (word p) (seq 0 16))).
  - by destruct st as [|h0 [|h1 [|h2 [|h3 [|]]]]].
  - intros k Hk. rewrite list_lookup_total_alt, list_lookup_fmap, lookup_seq_lt by done.
    by apply word_rfc.
Qed.

(** ** The digest of RFC 1321 *)

Lemma lenenc_le x : lenenc x = le_split 8 x.
Proof.
  cbn [lenenc md5 le_split]. unfold u8. rewrite !Z.shiftr_div_pow2 by lia.
  rewrite !Zdiv.Zdiv_Zdiv by lia. done.
Qed.

(** The digest as the RFC states it: a 1 bit, zeros up to 448 modulo 512 bits,
    the length, the block step from the RFC, the state in little-endian order. *)
Definition rfc_digest (m : list Z) : list Z :=
  let n := length m in
  let p := m ++ 128 :: replicate ((119 - n mod 64) mod 64) 0
             ++ le_split 8 (8 * Z.of_nat n) in
  concat (map (le_split 4) (foldl rfc_block iv (blocks (length p / 64) p))).

Lemma padding_rfc n :
  padding n = 128 :: replicate ((119 - n mod 64) mod 64) 0 ++ le_split 8 (8 * Z.of_nat n).
Proof.
  unfold padding. rewrite lenenc_le. change (@bs md5) with 64%nat.
  change (@padlim md5) with 56%nat. change (@lenoff md5) with 56%nat. f_equal. f_equal.
  - f_equal. pose proof (Nat.mod_upper_bound n 64 ltac:(lia)). set (q := (n mod 64)%nat) in *.
    destruct (decide _).
    + rewrite Nat.mod_small; lia.
    + replace (119 - q)%nat with (56 - (q + 1) + 1 * 64)%nat by lia.
      rewrite Nat.Div0.mod_add, Nat.mod_small; lia.
  - unfold u64. rewrite Zmult_mod_idemp_l, Z.mul_comm.
    change (2 ^ 64) with (256 ^ Z.of_nat 8). apply le_split_mod.
Qed.

Lemma md5_padding_bytes n : bytes (padding n).
Proof.
  rewrite padding_rfc. constructor; [done|]. apply Forall_app.
  split; [by apply Forall_replicate|apply le_split_bytes].
Qed.

Lemma output_rfc st : length st = 4%nat -> output st = concat (map (le_split 4) st).
Proof.
  intros Hst. destruct st as [|a [|b [|c [|d [|]]]]]; try done.
  cbn [output md5 seq map]. unfold le_split, u8. cbn [lookup_total list_lookup_total].
  rewrite !Z.shiftr_div_pow2 by lia. rewrite !Zdiv.Zdiv_Zdiv by lia. done.
Qed.

Lemma block_length st p : length (block st p) = 4%nat.
Proof. unfold block. by destruct (foldl (round4 _) _ _) as [[[a b] c] d]. Qed.

Lemma digest_rfc m : bytes m -> digest m = rfc_digest m.
Proof.
  intros Hm. unfold digest, rfc_digest. rewrite <- padding_rfc.
  assert (Hb : bytes (m ++ padding (length m))) by (apply Forall_app; auto using md5_padding_bytes).
  change (@bs md5) with 64%nat. set (p := m ++ padding (length m)) in *.
  rewrite <- (absorb_ref (fun st => length st = 4%nat) rfc_block (length p / 64) iv p).
  - apply output_rfc. by apply (absorb_inv (fun st => length st = 4%nat)); [apply block_length|].
  - intros st q Hst Hq Hl. change (length q = 64%nat) in Hl. split; [|apply block_length].
    apply block_rfc; [done|lia|done].
  - done.
  - done.
  - change (@bs md5) with 64%nat. pose proof (Nat.Div0.mul_div_le (length p) 64). lia.
Qed.

#[export] Instance md5_ops : StreamOps :=
  {| s_init := md5_init; s_update := md5_update; s_sum := md5_sum |}.
#[export] Instance md5_spec : StreamSpec md5_ops 64 rfc_digest 16.
Proof.
  apply (stream_spec md5); [exact md5_updates_eq|exact md5_sum_eq|exact digest_rfc|].
  intros st. split; [done|]. cbn [output md5 seq map concat app].
  repeat (constructor; [apply u8_range|]). constructor.
Qed.

(** ** Properties *)

(** C36: however a message is cut into pieces, [md5_init], [md5_update] on each
    piece and [md5_sum] produce the MD5 digest RFC 1321 defines for the whole
    message: partial blocks, whole blocks hashed in place, padding with one or
    two final blocks, and the unrolled rounds included.  The old contents of
    the context do not matter. *)
Theorem md5_stream_rfc1321 s ms :
  length (buf s) = 64%nat -> Forall bytes ms ->
  (md5_sum (foldl md5_update (md5_init s) ms)).2 = rfc_digest (concat ms).
Proof.
  intros Hb Hms. rewrite <- digest_rfc by (by apply Forall_concat).
  rewrite <- (stream_digest s ms) by exact Hb. by rewrite md5_sum_eq, md5_updates_eq.
Qed.

Lemma md5_stream_rfc1321_witness :
  (* "a" then "bc" *)
  (md5_sum (foldl md5_update (md5_init (Ctx 7 [] (replicate 64 255))) [[97]; [98; 99]])).2
    = rfc_digest [97; 98; 99] /\
  rfc_digest [97; 98; 99] =
    [0x90; 0x01; 0x50; 0x98; 0x3c; 0xd2; 0x4f; 0xb0;
     0xd6; 0x96; 0x3f; 0x7d; 0x28; 0xe1; 0x7f; 0x72].
Proof.
  split.
  - refine (md5_stream_rfc1321 (Ctx 7 [] (replicate 64 255)) [[97]; [98; 99]] _ _).
    + done.
    + by apply (bool_decide_unpack _).
  - by vm_compute.
Defined.
