(* ===== verification/Sha2.v ===== *)
(** The SHA-2 family as FIPS 180-4 defines it, parametric in the word size, and
    the shape the code of crypt_sha256.c and crypt_sha512.c gives it.

    The standard's constants are not copied here: the round constants are the
    first bits of the fractional parts of the cube roots of the first primes
    and the initial hash value those of their square roots, computed by
    [iroot]. *)
From S2P Require Import Prelude Digest.
#[local] Open Scope c_scope.

(** ** Integer roots *)

(** The greatest [r < 2^n] with [r^k <= x], one bit at a time. *)
Fixpoint iroot_from (k : Z) (n : nat) (x r : Z) : Z :=
  match n with
  | O => r
  | S n => let r' := r + 2 ^ Z.of_nat n in
           iroot_from k n x (if r' ^ k <=? x then r' else r)
  end.
Definition iroot (k : Z) (n : nat) (x : Z) : Z := iroot_from k n x 0.

Lemma iroot_from_spec k n x r :
  0 < k -> 0 <= r -> r ^ k <= x < (r + 2 ^ Z.of_nat n) ^ k ->
  let q := iroot_from k n x r in 0 <= q /\ q ^ k <= x < (q + 1) ^ k.
Proof.
  intros Hk. revert r. induction n as [|n IH]; intros r Hr Hx; [done|].
  cbn [iroot_from]. assert (Hp : 2 ^ Z.of_nat (S n) = 2 ^ Z.of_nat n + 2 ^ Z.of_nat n).
  { rewrite Nat2Z.inj_succ, Z.pow_succ_r; lia. }
  destruct (Z.leb_spec ((r + 2 ^ Z.of_nat n) ^ k) x); apply IH; try lia.
  rewrite Hp, Z.add_assoc in Hx. lia.
Qed.

Lemma iroot_spec k n x :
  0 < k -> 0 <= x < (2 ^ Z.of_nat n) ^ k ->
  0 <= iroot k n x /\ iroot k n x ^ k <= x < (iroot k n x + 1) ^ k.
Proof.
  intros Hk Hx. apply iroot_from_spec; [done|done|]. by rewrite Z.pow_0_l, Z.add_0_l.
Qed.

Lemma iroot_unique k n x r :
  0 < k -> 0 <= x < (2 ^ Z.of_nat n) ^ k -> 0 <= r -> r ^ k <= x < (r + 1) ^ k ->
  iroot k n x = r.
Proof.
  intros Hk Hx Hr Hrx. destruct (iroot_spec k n x Hk Hx) as [Hq Hqx].
  assert (r < iroot k n x + 1) by (apply (Z.pow_lt_mono_l_iff _ _ k); lia).
  assert (iroot k n x < r + 1) by (apply (Z.pow_lt_mono_l_iff _ _ k); lia). lia.
Qed.

(** The first eighty primes; a composite below 410 has a divisor below 21. *)
Definition is_prime (n : Z) : bool :=
  forallb (fun d => (n <=? d) || negb (n mod d =? 0)) (seqZ 2 19).
Definition primes : list Z := List.filter is_prime (seqZ 2 408).

(** The first [w] bits of the fractional part of the [k]-th root of [p]. *)
Definition root_frac (k w p : Z) : Z := iroot k (Z.to_nat (w + 5)) (p * 2 ^ (k * w)) mod 2 ^ w.

(** Checking a given value [q] takes two powers only. *)
Definition root_frac_check (k w p q : Z) : bool :=
  let x := p * 2 ^ (k * w) in
  let c := iroot k 5 p in
  let r := c * 2 ^ w + q in
  (0 <=? c) && (0 <=? q) && (q <? 2 ^ w) && (r ^ k <=? x) && (x <? (r + 1) ^ k) &&
  (0 <=? x) && (x <? (2 ^ (w + 5)) ^ k).

Lemma root_frac_check_correct k w p q :
  0 < k -> 0 <= w -> root_frac_check k w p q = true -> root_frac k w p = q.
Proof.
  intros Hk Hw H. unfold root_frac_check in H. rewrite !andb_true_iff in H.
  destruct H as ((((((Hc & Hq) & Hqw) & Hr1) & Hr2) & Hx) & Hx2).
  set (c := iroot k 5 p) in *. unfold root_frac.
  rewrite (iroot_unique k _ _ (c * 2 ^ w + q)).
  - rewrite Z.add_comm, Z.mod_add, Z.mod_small; lia.
  - done.
  - rewrite Z2Nat.id by lia. lia.
  - lia.
  - lia.
Qed.

(** ** FIPS 180-4, sections 4 and 6 *)
Section fips.
Context (w : Z).

Definition ROTR (k x : Z) : Z := x / 2 ^ k + (x * 2 ^ (w - k)) mod 2 ^ w.
Definition SHR (k x : Z) : Z := x / 2 ^ k.
Definition fips_Ch (x y z : Z) : Z := (x & y) ^^ (Z.lnot x & z).
Definition fips_Maj (x y z : Z) : Z := (x & y) ^^ (x & z) ^^ (y & z).
(** The rotation amounts of the four sigma functions. *)
Definition Sigma (k1 k2 k3 x : Z) : Z := ROTR k1 x ^^ ROTR k2 x ^^ ROTR k3 x.
Definition sigma (k1 k2 k3 x : Z) : Z := ROTR k1 x ^^ ROTR k2 x ^^ SHR k3 x.

Definition fips_K (t : nat) : Z := root_frac 3 w (primes !!! t).
Definition fips_H0 : list Z := map (root_frac 2 w) (take 8 primes).

Context (nr : nat) (S0 S1 R0 R1 : Z -> Z).

(** The message schedule [W_t]. *)
Fixpoint sched (M : nat -> Z) (n t : nat) : Z :=
  match n with
  | O => 0
  | S n => if decide (t < 16)%nat then M t
           else (R1 (sched M n (t - 2)) + sched M n (t - 7) +
                 R0 (sched M n (t - 15)) + sched M n (t - 16)) mod 2 ^ w
  end.
Definition fips_W (M : nat -> Z) (t : nat) : Z := sched M (S t) t.

Definition regs : Type := Z * Z * Z * Z * Z * Z * Z * Z.
Definition load_regs (H : list Z) : regs :=
  (H !!! 0%nat, H !!! 1%nat, H !!! 2%nat, H !!! 3%nat,
   H !!! 4%nat, H !!! 5%nat, H !!! 6%nat, H !!! 7%nat).

Definition fips_step (W : nat -> Z) (st : regs) (t : nat) : regs :=
  let '(a, b, c, d, e, f, g, h) := st in
  let T1 := (h + S1 e + fips_Ch e f g + fips_K t + W t) mod 2 ^ w in
  let T2 := (S0 a + fips_Maj a b c) mod 2 ^ w in
  ((T1 + T2) mod 2 ^ w, a, b, c, (d + T1) mod 2 ^ w, e, f, g).

(** The word [t] of a block: [w/8] bytes, most significant first. *)
Definition fips_M (p : list Z) (t : nat) : Z :=
  let b := Z.to_nat (w / 8) in be_combine (take b (drop (b * t) p)).

Definition fips_block (H p : list Z) : list Z :=
  let '(a, b, c, d, e, f, g, h) :=
    foldl (fips_step (fips_W (fips_M p))) (load_regs H) (seq 0 nr) in
  zip_with (fun x y => (x + y) mod 2 ^ w) H [a; b; c; d; e; f; g; h].

(** Big-endian bytes of a number. *)
Definition be_split (n : nat) (x : Z) : list Z := rev (le_split n x).

(** Padding to a multiple of [bs] bytes with a [2*w/8]-byte length, then the
    block step, then the state in big-endian order. *)
Definition fips_digest (m : list Z) : list Z :=
  let B := Z.to_nat (2 * w) in
  let lb := Z.to_nat (w / 4) in
  let p := m ++ 128 :: replicate ((2 * B - lb - 1 - length m mod B) mod B) 0
             ++ be_split lb (8 * Z.of_nat (length m)) in
  concat (map (be_split (Z.to_nat (w / 8)))
    (foldl fips_block fips_H0
       (map (fun i => take B (drop (B * i) p)) (seq 0 (length p / B))))).

(** ** The code's shape *)
Context (cS0 cS1 cR0 cR1 : Z -> Z) (Ch Maj : Z -> Z -> Z -> Z) (K : list Z).
Context (word : list Z -> nat -> Z).

Definition expand (W : list Z) : list Z :=
  foldl (fun W i => W ++ [(cR1 (W !!! (i - 2)%nat) + W !!! (i - 7)%nat +
                           cR0 (W !!! (i - 15)%nat) + W !!! (i - 16)%nat) mod 2 ^ w])
        W (seq 16 (nr - 16)).

Definition code_step (W : list Z) (st : regs) (i : nat) : regs :=
  let '(a, b, c, d, e, f, g, h) := st in
  let t1 := (h + cS1 e + Ch e f g + K !!! i + W !!! i) mod 2 ^ w in
  let t2 := (cS0 a + Maj a b c) mod 2 ^ w in
  ((t1 + t2) mod 2 ^ w, a, b, c, (d + t1) mod 2 ^ w, e, f, g).

Definition code_block (H p : list Z) : list Z :=
  let W := expand (map (word p) (seq 0 16)) in
  let '(a, b, c, d, e, f, g, h) := foldl (code_step W) (load_regs H) (seq 0 nr) in
  [(H !!! 0%nat + a) mod 2 ^ w; (H !!! 1%nat + b) mod 2 ^ w; (H !!! 2%nat + c) mod 2 ^ w;
   (H !!! 3%nat + d) mod 2 ^ w; (H !!! 4%nat + e) mod 2 ^ w; (H !!! 5%nat + f) mod 2 ^ w;
   (H !!! 6%nat + g) mod 2 ^ w; (H !!! 7%nat + h) mod 2 ^ w].

(** A word of [w] bits. *)
Definition wd (x : Z) : Prop := 0 <= x < 2 ^ w.
Context (Hw : 0 < w) (Hnr : (16 <= nr)%nat).
Context (HS0 : forall x, wd x -> cS0 x = S0 x) (HS1 : forall x, wd x -> cS1 x = S1 x).
Context (HR0 : forall x, wd x -> cR0 x = R0 x) (HR1 : forall x, wd x -> cR1 x = R1 x).
Context (HCh : forall x y z, Ch x y z = fips_Ch x y z).
Context (HMaj : forall x y z, Maj x y z = fips_Maj x y z).
Context (HK : forall t, (t < nr)%nat -> K !!! t = fips_K t).

Lemma wd_mod x : wd (x mod 2 ^ w).
Proof. apply Z.mod_pos_bound. lia. Qed.

Lemma sched_fuel M n k t : (t < n)%nat -> (t < k)%nat -> sched M n t = sched M k t.
Proof.
  clear. revert k t. induction n as [|n IH]; intros [|k] t Hn Hk; [lia..|]. cbn [sched].
  case_decide; [done|]. by rewrite !(IH k) by lia.
Qed.

Lemma fips_W_low M t : (t < 16)%nat -> fips_W M t = M t.
Proof. intros Ht. unfold fips_W. cbn [sched]. by rewrite decide_True. Qed.

Lemma fips_W_high M t : (16 <= t)%nat ->
  fips_W M t = (R1 (fips_W M (t - 2)) + fips_W M (t - 7) +
                R0 (fips_W M (t - 15)) + fips_W M (t - 16)) mod 2 ^ w.
Proof.
  intros Ht. unfold fips_W at 1. cbn [sched]. rewrite decide_False by lia. unfold fips_W.
  rewrite (sched_fuel M t (S (t - 2))), (sched_fuel M t (S (t - 7))),
    (sched_fuel M t (S (t - 15))), (sched_fuel M t (S (t - 16))) by lia. done.
Qed.

Lemma fips_W_wd M t : (forall t, (t < 16)%nat -> wd (M t)) -> wd (fips_W M t).
Proof.
  intros HM. destruct (decide (t < 16)%nat).
  - rewrite fips_W_low by done. by apply HM.
  - rewrite fips_W_high by lia. apply wd_mod.
Qed.

(** The array the code fills is the schedule. *)
Lemma expand_spec M W n :
  length W = 16%nat -> (forall t, (t < 16)%nat -> W !!! t = M t) ->
  (forall t, (t < 16)%nat -> wd (M t)) ->
  let X := foldl (fun W i => W ++ [(cR1 (W !!! (i - 2)%nat) +
      W !!! (i - 7)%nat + cR0 (W !!! (i - 15)%nat) + W !!! (i - 16)%nat) mod 2 ^ w])
      W (seq 16 n) in
  length X = (16 + n)%nat /\ forall t, (t < 16 + n)%nat -> X !!! t = fips_W M t.
Proof.
  intros HW Hlow HM. induction n as [|n [IHl IH]].
  { split; [simpl; lia|]. intros t Ht. cbn [seq foldl]. rewrite fips_W_low by lia.
    apply Hlow. lia. }
  rewrite seq_S, foldl_app. cbn [foldl]. set (X := foldl _ W (seq 16 n)) in *.
  split; [rewrite length_app; simpl; lia|]. intros t Ht.
  destruct (decide (t < 16 + n)%nat).
  - rewrite lookup_total_app_l by lia. by apply IH.
  - assert (t = 16 + n)%nat as -> by lia.
    rewrite list_lookup_total_middle by lia. rewrite fips_W_high by lia.
    rewrite !IH, HR0, HR1 by (try apply fips_W_wd; try done; lia). done.
Qed.

Definition regs_ok (st : regs) : Prop :=
  let '(a, b, c, d, e, f, g, h) := st in
  wd a /\ wd b /\ wd c /\ wd d /\ wd e /\ wd f /\ wd g /\ wd h.

Lemma steps_fips (W : list Z) W' n st :
  (forall t, (t < nr)%nat -> W !!! t = W' t) -> regs_ok st -> (n <= nr)%nat ->
  foldl (code_step W) st (seq 0 n) = foldl (fips_step W') st (seq 0 n) /\
  regs_ok (foldl (fips_step W') st (seq 0 n)).
Proof.
  intros HW Hst. induction n as [|n IH]; intros Hn; [done|].
  destruct IH as [IH1 IH2]; [lia|]. rewrite seq_S, !foldl_app, IH1. cbn [foldl].
  revert IH2. destruct (foldl (fips_step W') st (seq 0 n)) as [[[[[[[a b] c] d] e] f] g] h0].
  intros (Ha & Hb & Hc & Hd & He & Hf & Hg & Hh).
  unfold code_step, fips_step. rewrite HCh, HMaj, HK, HW, HS0, HS1 by (done || lia).
  split; [done|]. repeat split; try apply wd_mod; try apply Ha; try apply Hb;
    try apply Hc; try apply He; try apply Hf; apply Hg.
Qed.

Lemma code_block_fips H p :
  (forall t, (t < 16)%nat -> word p t = fips_M p t /\ wd (fips_M p t)) ->
  length H = 8%nat -> Forall wd H -> code_block H p = fips_block H p.
Proof.
  intros Hword HH Hwd. unfold code_block, fips_block, expand.
  destruct (expand_spec (fips_M p) (map (word p) (seq 0 16)) (nr - 16)) as [_ HW].
  { by rewrite length_map, length_seq. }
  { intros t Ht. rewrite list_lookup_total_alt, list_lookup_fmap, lookup_seq_lt by done.
    by apply Hword. }
  { intros t Ht. by apply Hword. }
  set (W := foldl _ (map _ _) _) in *.
  assert (Hst : regs_ok (load_regs H)).
  { destruct H as [|h0' [|h1 [|h2 [|h3 [|h4 [|h5 [|h6 [|h7 [|]]]]]]]]]; try done.
    rewrite !Forall_cons_iff in Hwd. unfold load_regs. cbn. tauto. }
  destruct (steps_fips W (fips_W (fips_M p)) nr (load_regs H)) as [Heq _]; [|done|lia|].
  { intros t Ht. apply HW. lia. }
  rewrite Heq. destruct (foldl (fips_step _) _ _) as [[[[[[[a b] c] d] e] f] g] h0].
  destruct H as [|h0' [|h1 [|h2 [|h3 [|h4 [|h5 [|h6 [|h7 [|]]]]]]]]]; done.
Qed.

Lemma code_block_ok H p : length (code_block H p) = 8%nat /\ Forall wd (code_block H p).
Proof.
  unfold code_block. destruct (foldl _ _ _) as [[[[[[[a b] c] d] e] f] g] h0].
  split; [done|]. repeat (constructor; [apply wd_mod|]). constructor.
Qed.
End fips.

Lemma root_frac_list k w ps qs :
  0 < k -> 0 <= w -> forallb (fun '(p, q) => root_frac_check k w p q) (zip ps qs) = true ->
  length ps = length qs -> map (root_frac k w) ps = qs.
Proof.
  intros Hk Hw. revert qs. induction ps as [|p ps IH]; intros [|q qs] H Hlen; try done.
  simpl in H. apply andb_true_iff in H as [H1 H2]. simpl. f_equal; [|apply IH; auto].
  by apply root_frac_check_correct.
Qed.

Lemma Ch_fips x y z : z ^^ (x & (y ^^ z)) = fips_Ch x y z.
Proof. unfold fips_Ch. bitwise. Qed.

Lemma Maj_fips x y z : (x & y) .| (z & (x .| y)) = fips_Maj x y z.
Proof. unfold fips_Maj. bitwise. Qed.

Lemma ror_ROTR w k x : 0 < k < w -> 0 <= x < 2 ^ w ->
  (x >> k) .| ((x << (w - k)) mod 2 ^ w) = ROTR w k x.
Proof.
  intros Hk Hx. unfold ROTR. rewrite Z.shiftl_mul_pow2, Z.shiftr_div_pow2 by lia.
  pose proof (rot_lor w (w - k) x) as Hr. replace (w - (w - k)) with k in Hr by lia.
  rewrite Z.lor_comm, Hr by lia. lia.
Qed.
