(* ===== verification/Sha256.v ===== *)
(** SHA-256 as in src/musl-1.1.19/src/crypt/crypt_sha256.c, checked against
    FIPS 180-4: the compression function, the constant tables, the padding and
    the incremental interface. *)
From S2P Require Import Prelude Digest Sha2.

(** ** Operations *)
#[local] Open Scope c_scope.

Definition ror (n k : Z) : Z := (n >> k) .| u32 (n << (32 - k)).
Definition Ch (x y z : Z) : Z := z ^^ (x & (y ^^ z)).
Definition Maj (x y z : Z) : Z := (x & y) .| (z & (x .| y)).
Definition S0 (x : Z) : Z := ror x 2 ^^ ror x 13 ^^ ror x 22.
Definition S1 (x : Z) : Z := ror x 6 ^^ ror x 11 ^^ ror x 25.
Definition R0 (x : Z) : Z := ror x 7 ^^ ror x 18 ^^ (x >> 3).
Definition R1 (x : Z) : Z := ror x 17 ^^ ror x 19 ^^ (x >> 10).

Definition K : list Z := [
0x428a_2f98; 0x7137_4491; 0xb5c0_fbcf; 0xe9b5_dba5; 0x3956_c25b; 0x59f1_11f1; 0x923f_82a4; 0xab1c_5ed5;
0xd807_aa98; 0x1283_5b01; 0x2431_85be; 0x550c_7dc3; 0x72be_5d74; 0x80de_b1fe; 0x9bdc_06a7; 0xc19b_f174;
0xe49b_69c1; 0xefbe_4786; 0x0fc1_9dc6; 0x240c_a1cc; 0x2de9_2c6f; 0x4a74_84aa; 0x5cb0_a9dc; 0x76f9_88da;
0x983e_5152; 0xa831_c66d; 0xb003_27c8; 0xbf59_7fc7; 0xc6e0_0bf3; 0xd5a7_9147; 0x06ca_6351; 0x1429_2967;
0x27b7_0a85; 0x2e1b_2138; 0x4d2c_6dfc; 0x5338_0d13; 0x650a_7354; 0x766a_0abb; 0x81c2_c92e; 0x9272_2c85;
0xa2bf_e8a1; 0xa81a_664b; 0xc24b_8b70; 0xc76c_51a3; 0xd192_e819; 0xd699_0624; 0xf40e_3585; 0x106a_a070;
0x19a4_c116; 0x1e37_6c08; 0x2748_774c; 0x34b0_bcb5; 0x391c_0cb3; 0x4ed8_aa4a; 0x5b9c_ca4f; 0x682e_6ff3;
0x748f_82ee; 0x78a5_636f; 0x84c8_7814; 0x8cc7_0208; 0x90be_fffa; 0xa450_6ceb; 0xbef9_a3f7; 0xc671_78f2 ].

(** [W[i]] for [i < 16], the big-endian word at [buf + 4*i]. *)
Definition word (buf : list Z) (i : nat) : Z :=
  u32 ((buf !!! (4*i)%nat) << 24)
    .| u32 ((buf !!! (4*i+1)%nat) << 16)
    .| u32 ((buf !!! (4*i+2)%nat) << 8)
    .| (buf !!! (4*i+3)%nat).

(** [for (; i < 64; i++) W[i] = ...]; the sums wrap once instead of at each
    addition, which is the same modulo 2^32. *)
Definition expand (W : list Z) : list Z :=
  foldl (fun W i => W ++ [u32 (R1 (W !!! (i - 2)%nat) + W !!! (i - 7)%nat +
                               R0 (W !!! (i - 15)%nat) + W !!! (i - 16)%nat)])
        W (seq 16 48).

(** The body of the main loop. *)
Definition step (W : list Z) (st : regs) (i : nat) : regs :=
  let '(a, b, c, d, e, f, g, h) := st in
  let t1 := u32 (h + S1 e + Ch e f g + K !!! i + W !!! i) in
  let t2 := u32 (S0 a + Maj a b c) in
  let h := g in
  let g := f in
  let f := e in
  let e := u32 (d + t1) in
  let d := c in
  let c := b in
  let b := a in
  let a := u32 (t1 + t2) in
  (a, b, c, d, e, f, g, h).

(** [processblock], as the new value of [s->h]. *)
Definition block (H buf : list Z) : list Z :=
  let W := expand (map (word buf) (seq 0 16)) in
  let st := (H !!! 0%nat, H !!! 1%nat, H !!! 2%nat, H !!! 3%nat,
             H !!! 4%nat, H !!! 5%nat, H !!! 6%nat, H !!! 7%nat) in
  let '(a, b, c, d, e, f, g, h) := foldl (step W) st (seq 0 64) in
  [u32 (H !!! 0%nat + a); u32 (H !!! 1%nat + b); u32 (H !!! 2%nat + c); u32 (H !!! 3%nat + d);
   u32 (H !!! 4%nat + e); u32 (H !!! 5%nat + f); u32 (H !!! 6%nat + g); u32 (H !!! 7%nat + h)].

Definition processblock (s : ctx) (p : list Z) : ctx := Ctx (len s) (block (h s) p) (buf s).

Definition pad (s : ctx) : ctx :=
  let r := Z.to_nat (len s mod 64) in
  let s := Ctx (len s) (h s) (splice r [0x80] (buf s)) in
  let r := S r in
  let '(s, r) :=
    if decide (56 < r)%nat then
      let s := Ctx (len s) (h s) (splice r (replicate (64 - r) 0) (buf s)) in
      (processblock s (buf s), 0%nat)
    else (s, r) in
  let s := Ctx (len s) (h s) (splice r (replicate (56 - r) 0) (buf s)) in
  let s := Ctx (u64 (len s * 8)) (h s) (buf s) in
  let s := Ctx (len s) (h s) (splice 56
    [u8 (len s >> 56); u8 (len s >> 48); u8 (len s >> 40); u8 (len s >> 32);
     u8 (len s >> 24); u8 (len s >> 16); u8 (len s >> 8); u8 (len s)] (buf s)) in
  processblock s (buf s).

Definition sha256_init (s : ctx) : ctx :=
  Ctx 0 [0x6a09_e667; 0xbb67_ae85; 0x3c6e_f372; 0xa54f_f53a;
     0x510e_527f; 0x9b05_688c; 0x1f83_d9ab; 0x5be0_cd19] (buf s).

Definition sha256_sum (s : ctx) : ctx * list Z :=
  let s := pad s in
  (s, concat (map (fun i => let x := h s !!! i in
     [u8 (x >> 24); u8 (x >> 16); u8 (x >> 8); u8 x]) (seq 0 8))).

(** [for (; len >= 64; len -= 64, p += 64) processblock(s, p);] *)
Fixpoint sha256_blocks (n : nat) (s : ctx) (p : list Z) : ctx * list Z :=
  match n with
  | O => (s, p)
  | S n => if decide (64 <= length p)%nat
           then sha256_blocks n (processblock s p) (drop 64 p) else (s, p)
  end.

Definition sha256_update (s : ctx) (m : list Z) : ctx :=
  let r := Z.to_nat (len s mod 64) in
  let s := Ctx (u64 (len s + Z.of_nat (length m))) (h s) (buf s) in
  if decide (r <> 0 /\ length m < 64 - r)%nat
  then Ctx (len s) (h s) (splice r m (buf s))
  else
    let '(s, m) :=
      if decide (r <> 0)%nat then
        let s := Ctx (len s) (h s) (splice r (take (64 - r) m) (buf s)) in
        (processblock s (buf s), drop (64 - r) m)
      else (s, m) in
    let '(s, m) := sha256_blocks (length m) s m in
    Ctx (len s) (h s) (splice 0 m (buf s)).

(** ** The interface *)
#[export] Instance sha256 : Hash := {
  bs := 64; padlim := 56; lenoff := 56;
  iv := [0x6a09_e667; 0xbb67_ae85; 0x3c6e_f372; 0xa54f_f53a;
     0x510e_527f; 0x9b05_688c; 0x1f83_d9ab; 0x5be0_cd19];
  compress := block;
  lenenc x := [u8 (x >> 56); u8 (x >> 48); u8 (x >> 40); u8 (x >> 32);
     u8 (x >> 24); u8 (x >> 16); u8 (x >> 8); u8 (x)];
  output H := concat (map (fun i => let x := H !!! i in
     [u8 (x >> 24); u8 (x >> 16); u8 (x >> 8); u8 x]) (seq 0 8))
}.

Lemma sha256_word_take buf i : (i < 16)%nat -> word (take 64 buf) i = word buf i.
Proof. intros Hi. unfold word. by rewrite !lookup_total_take_lt by lia. Qed.

Lemma sha256_block_take st p : block st (take 64 p) = block st p.
Proof.
  unfold block. assert (map (word (take 64 p)) (seq 0 16) = map (word p) (seq 0 16)) as ->; [|done].
  apply map_ext_in. intros i Hi%in_seq. apply sha256_word_take. lia.
Qed.

#[export] Instance sha256_laws : HashLaws sha256.
Proof. split; [done|cbn; lia|by exists (2 ^ 58)|done|exact sha256_block_take]. Qed.

#[local] Opaque block.

Lemma sha256_blocks_eq n s p : sha256_blocks n s p = process_blocks n s p.
Proof. revert s p. induction n as [|n IH]; intros s p; simpl; [done|]. by rewrite IH. Qed.

Lemma sha256_update_eq s m : sha256_update s m = update s m.
Proof.
  unfold sha256_update, update. simpl.
  repeat (case_decide; simpl); rewrite ?sha256_blocks_eq; done.
Qed.

Lemma sha256_updates_eq s ms :
  foldl sha256_update (sha256_init s) ms = foldl update (init s) ms.
Proof.
  change (sha256_init s) with (init s). generalize (init s) as s0.
  induction ms as [|m ms IH]; intros s0; [done|]. cbn [foldl]. by rewrite sha256_update_eq, IH.
Qed.

Lemma sha256_pad_eq s : pad s = Digest.pad s.
Proof.
  unfold pad, Digest.pad. cbn [bs padlim lenoff sha256].
  change (Z.of_nat 64) with 64. case_decide; reflexivity.
Qed.

Lemma sha256_sum_eq s : sha256_sum s = sum s.
Proof. unfold sha256_sum, sum. by rewrite sha256_pad_eq. Qed.

#[local] Transparent block.

(** ** FIPS 180-4 *)
Definition fips_S0 := Sigma 32 2 13 22.
Definition fips_S1 := Sigma 32 6 11 25.
Definition fips_R0 := sigma 32 7 18 3.
Definition fips_R1 := sigma 32 17 19 10.

Abbreviation fips_block := (Sha2.fips_block 32 64 fips_S0 fips_S1 fips_R0 fips_R1).
Definition fips_digest := Sha2.fips_digest 32 64 fips_S0 fips_S1 fips_R0 fips_R1.

(** The tables are the cube and square roots of the first primes. *)
Lemma sha256_K_fips t : (t < 64)%nat -> K !!! t = fips_K 32 t.
Proof.
  intros Ht. unfold fips_K. assert (H : map (root_frac 3 32) (take 64 primes) = K).
  { apply root_frac_list; [done|done|by vm_compute|by vm_compute]. }
  rewrite <- H, (list_lookup_total_fmap (root_frac 3 32) (take 64 primes)).
  - by rewrite lookup_total_take_lt.
  - apply (Nat.lt_le_trans _ 64); [done|]. apply Nat.leb_le. by vm_compute.
Qed.

Lemma sha256_iv_fips : iv = fips_H0 32.
Proof. symmetry. apply root_frac_list; [done|done|by vm_compute|by vm_compute]. Qed.

Lemma sha256_ror_fips k x : 0 < k < 32 -> wd 32 x -> ror x k = ROTR 32 k x.
Proof. intros Hk Hx. by apply ror_ROTR. Qed.

Lemma sha256_word_fips p t : bytes p -> (64 <= length p)%nat -> (t < 16)%nat ->
  word p t = fips_M 32 p t /\ wd 32 (fips_M 32 p t).
Proof.
  intros Hp Hl Ht. unfold fips_M. change (Z.to_nat (32 / 8)) with 4%nat.
  set (l := take 4 (drop (4 * t) p)).
  assert (Hlen : length l = 4%nat) by (unfold l; rewrite length_take, length_drop; lia).
  assert (Hb : bytes l) by (by apply Forall_take, Forall_drop).
  assert (Hget : forall j, (j < 4)%nat -> p !!! (4 * t + j)%nat = l !!! j).
  { intros j Hj. unfold l. rewrite lookup_total_take_lt, lookup_total_drop by done. done. }
  unfold word. rewrite <- (Nat.add_0_r (4 * t)) at 1. rewrite !Hget by lia.
  clearbody l. clear Hget Hp Hl Ht.
  destruct l as [|b0 [|b1 [|b2 [|b3 [|]]]]]; try done.
  rewrite !Forall_cons_iff in Hb. destruct Hb as (H0 & H1 & H2 & H3 & _).
  cbn [lookup_total list_lookup_total]. unfold be_combine. cbn [foldl]. unfold byte, wd in *.
  rewrite !Z.shiftl_mul_pow2 by lia. unfold u32. rewrite !Z.mod_small by lia.
  split; [|lia]. rewrite (lor_step 24 16), (lor_step 16 8), lor_last by lia. lia.
Qed.

Lemma sha256_expand_eq W : expand W = Sha2.expand 32 64 R0 R1 W.
Proof. unfold expand, Sha2.expand. cbn [Nat.sub]. by apply foldl_ext. Qed.

Lemma sha256_block_eq st p : block st p = code_block 32 64 S0 S1 R0 R1 Ch Maj K word st p.
Proof.
  unfold block, code_block, load_regs.
  rewrite sha256_expand_eq. set (W := Sha2.expand _ _ _ _ _). clearbody W.
  assert (forall st, foldl (step W) st (seq 0 64) =
            foldl (code_step 32 S0 S1 Ch Maj K W) st (seq 0 64)) as Hsteps.
  { intros st'. apply foldl_ext. intros [[[[[[[a b] c] d] e] f] g] h] i. reflexivity. }
  rewrite Hsteps. by destruct (foldl (code_step _ _ _ _ _ _ _) _ _) as [[[[[[[a b] c] d] e] f] g] h].
Qed.

Lemma sha256_block_fips st p :
  bytes p -> length p = 64%nat -> length st = 8%nat -> Forall (wd 32) st ->
  block st p = fips_block st p.
Proof.
  intros Hp Hl Hst Hwd. rewrite sha256_block_eq. apply code_block_fips; try done; try lia.
  - intros x Hx. unfold S0. by rewrite !sha256_ror_fips by done.
  - intros x Hx. unfold S1. by rewrite !sha256_ror_fips by done.
  - intros x Hx. unfold R0. rewrite !sha256_ror_fips, Z.shiftr_div_pow2 by done. done.
  - intros x Hx. unfold R1. rewrite !sha256_ror_fips, Z.shiftr_div_pow2 by done. done.
  - apply Ch_fips.
  - apply Maj_fips.
  - apply sha256_K_fips.
  - intros t Ht. apply sha256_word_fips; [done|lia|done].
Qed.

Lemma sha256_block_ok st p : length (block st p) = 8%nat /\ Forall (wd 32) (block st p).
Proof. rewrite sha256_block_eq. apply code_block_ok; lia. Qed.

Lemma sha256_lenenc_be x : lenenc x = be_split 8 x.
Proof.
  cbn [lenenc sha256]. unfold be_split. cbn [le_split rev app]. unfold u8.
  rewrite !Z.shiftr_div_pow2 by lia. rewrite !Zdiv.Zdiv_Zdiv by lia. done.
Qed.

Lemma sha256_output_fips st : length st = 8%nat -> output st = concat (map (be_split 4) st).
Proof.
  intros Hst. destruct st as [|a [|b [|c [|d [|e [|f [|g [|h [|]]]]]]]]]; try done.
  cbn [output sha256 seq map]. unfold be_split, le_split, u8.
  cbn [lookup_total list_lookup_total rev app].
  rewrite !Z.shiftr_div_pow2 by lia. rewrite !Zdiv.Zdiv_Zdiv by lia. done.
Qed.

(** The padding of FIPS 180-4, section 5.1.1. *)
Lemma sha256_padding_fips n :
  padding n = 128 :: replicate ((2 * 64 - 8 - 1 - n mod 64) mod 64) 0
                ++ be_split 8 (8 * Z.of_nat n).
Proof.
  unfold padding. rewrite sha256_lenenc_be. change (@bs sha256) with 64%nat.
  change (@padlim sha256) with 56%nat. change (@lenoff sha256) with 56%nat.
  change (2 * 64 - 8 - 1)%nat with 119%nat. f_equal. f_equal.
  - f_equal. pose proof (Nat.mod_upper_bound n 64 ltac:(lia)). set (q := (n mod 64)%nat) in *.
    destruct (decide _).
    + rewrite Nat.mod_small; lia.
    + replace (119 - q)%nat with (56 - (q + 1) + 1 * 64)%nat by lia.
      rewrite Nat.Div0.mod_add, Nat.mod_small; lia.
  - unfold be_split, u64. rewrite Zmult_mod_idemp_l, Z.mul_comm.
    change (2 ^ 64) with (256 ^ Z.of_nat 8). by rewrite le_split_mod.
Qed.

Lemma sha256_padding_bytes n : bytes (padding n).
Proof.
  rewrite sha256_padding_fips. constructor; [done|]. apply Forall_app.
  split; [by apply Forall_replicate|apply Forall_rev, le_split_bytes].
Qed.

Lemma sha256_digest_fips m : bytes m -> digest m = fips_digest m.
Proof.
  intros Hm. unfold digest, fips_digest, Sha2.fips_digest.
  change (Z.to_nat (2 * 32)) with 64%nat. change (Z.to_nat (32 / 4)) with 8%nat.
  change (Z.to_nat (32 / 8)) with 4%nat. rewrite <- sha256_padding_fips.
  change (@bs sha256) with 64%nat. set (p := m ++ padding (length m)).
  assert (Hb : bytes p) by (apply Forall_app; split; [done|by apply sha256_padding_bytes]).
  rewrite <- sha256_iv_fips.
  pose proof (absorb_ref (fun st => length st = 8%nat /\ Forall (wd 32) st)
    fips_block (length p / 64) iv p) as Href.
  unfold blocks in Href. change (@bs sha256) with 64%nat in Href. rewrite <- Href; clear Href.
  - apply sha256_output_fips.
    apply (absorb_inv (fun st => length st = 8%nat)); [|done].
    intros st q. apply sha256_block_ok.
  - intros st q [Hst Hwd] Hq Hl. split; [|apply sha256_block_ok].
    cbn [compress sha256]. rewrite (sha256_block_fips st q Hq Hl Hst Hwd). reflexivity.
  - split; [done|]. apply (bool_decide_unpack _). by vm_compute.
  - done.
  - pose proof (Nat.Div0.mul_div_le (length p) 64). lia.
Qed.

#[export] Instance sha256_ops : StreamOps :=
  {| s_init := sha256_init; s_update := sha256_update; s_sum := sha256_sum |}.
#[export] Instance sha256_spec : StreamSpec sha256_ops 64 fips_digest 32.
Proof.
  apply (stream_spec sha256); [exact sha256_updates_eq|exact sha256_sum_eq|exact sha256_digest_fips|].
  intros st. split; [done|]. cbn [output sha256 seq map concat app].
  repeat (constructor; [apply u8_range|]). constructor.
Qed.

(** ** Properties *)

(** C21: however a message is cut into pieces, [sha256_init],
    [sha256_update] on each piece and [sha256_sum] give the SHA-256 digest that
    FIPS 180-4 defines for the whole message, with the round constants and the
    initial value computed from the roots of the first primes; the old
    contents of the context do not matter. *)
Theorem sha256_stream_fips180 s ms :
  length (buf s) = 64%nat -> Forall bytes ms ->
  (sha256_sum (foldl sha256_update (sha256_init s) ms)).2 = fips_digest (concat ms).
Proof.
  intros Hb Hms. rewrite <- sha256_digest_fips by first [by apply Forall_concat|done].
  rewrite <- (stream_digest s ms) by exact Hb. by rewrite sha256_sum_eq, sha256_updates_eq.
Qed.

(** The published digest of "abc", fed as "a" and "bc". *)
Lemma sha256_stream_fips180_witness :
  fips_digest [97; 98; 99] =
    [0xba; 0x78; 0x16; 0xbf; 0x8f; 0x01; 0xcf; 0xea;
     0x41; 0x41; 0x40; 0xde; 0x5d; 0xae; 0x22; 0x23;
     0xb0; 0x03; 0x61; 0xa3; 0x96; 0x17; 0x7a; 0x9c;
     0xb4; 0x10; 0xff; 0x61; 0xf2; 0x00; 0x15; 0xad].
Proof.
  change [97; 98; 99] with (concat [[97]; [98; 99]]) at 1.
  rewrite <- (sha256_stream_fips180 (Ctx 7 [] (replicate 64 255)) [[97]; [98; 99]]).
  - by vm_compute.
  - done.
  - by apply (bool_decide_unpack _).
Defined.
