(* ===== verification/Sha512.v ===== *)
(** SHA-512 as in src/musl-1.1.19/src/crypt/crypt_sha512.c, checked against
    FIPS 180-4: the compression function, the constant tables, the padding and
    the incremental interface. *)
From S2P Require Import Prelude Digest Sha2.

(** ** Operations *)
#[local] Open Scope c_scope.

Definition ror (n k : Z) : Z := (n >> k) .| u64 (n << (64 - k)).
Definition Ch (x y z : Z) : Z := z ^^ (x & (y ^^ z)).
Definition Maj (x y z : Z) : Z := (x & y) .| (z & (x .| y)).
Definition S0 (x : Z) : Z := ror x 28 ^^ ror x 34 ^^ ror x 39.
Definition S1 (x : Z) : Z := ror x 14 ^^ ror x 18 ^^ ror x 41.
Definition R0 (x : Z) : Z := ror x 1 ^^ ror x 8 ^^ (x >> 7).
Definition R1 (x : Z) : Z := ror x 19 ^^ ror x 61 ^^ (x >> 6).

Definition K : list Z := [
0x428a2f98_d728ae22; 0x71374491_23ef65cd; 0xb5c0fbcf_ec4d3b2f; 0xe9b5dba5_8189dbbc;
0x3956c25b_f348b538; 0x59f111f1_b605d019; 0x923f82a4_af194f9b; 0xab1c5ed5_da6d8118;
0xd807aa98_a3030242; 0x12835b01_45706fbe; 0x243185be_4ee4b28c; 0x550c7dc3_d5ffb4e2;
0x72be5d74_f27b896f; 0x80deb1fe_3b1696b1; 0x9bdc06a7_25c71235; 0xc19bf174_cf692694;
0xe49b69c1_9ef14ad2; 0xefbe4786_384f25e3; 0x0fc19dc6_8b8cd5b5; 0x240ca1cc_77ac9c65;
0x2de92c6f_592b0275; 0x4a7484aa_6ea6e483; 0x5cb0a9dc_bd41fbd4; 0x76f988da_831153b5;
0x983e5152_ee66dfab; 0xa831c66d_2db43210; 0xb00327c8_98fb213f; 0xbf597fc7_beef0ee4;
0xc6e00bf3_3da88fc2; 0xd5a79147_930aa725; 0x06ca6351_e003826f; 0x14292967_0a0e6e70;
0x27b70a85_46d22ffc; 0x2e1b2138_5c26c926; 0x4d2c6dfc_5ac42aed; 0x53380d13_9d95b3df;
0x650a7354_8baf63de; 0x766a0abb_3c77b2a8; 0x81c2c92e_47edaee6; 0x92722c85_1482353b;
0xa2bfe8a1_4cf10364; 0xa81a664b_bc423001; 0xc24b8b70_d0f89791; 0xc76c51a3_0654be30;
0xd192e819_d6ef5218; 0xd6990624_5565a910; 0xf40e3585_5771202a; 0x106aa070_32bbd1b8;
0x19a4c116_b8d2d0c8; 0x1e376c08_5141ab53; 0x2748774c_df8eeb99; 0x34b0bcb5_e19b48a8;
0x391c0cb3_c5c95a63; 0x4ed8aa4a_e3418acb; 0x5b9cca4f_7763e373; 0x682e6ff3_d6b2b8a3;
0x748f82ee_5defb2fc; 0x78a5636f_43172f60; 0x84c87814_a1f0ab72; 0x8cc70208_1a6439ec;
0x90befffa_23631e28; 0xa4506ceb_de82bde9; 0xbef9a3f7_b2c67915; 0xc67178f2_e372532b;
0xca273ece_ea26619c; 0xd186b8c7_21c0c207; 0xeada7dd6_cde0eb1e; 0xf57d4f7f_ee6ed178;
0x06f067aa_72176fba; 0x0a637dc5_a2c898a6; 0x113f9804_bef90dae; 0x1b710b35_131c471b;
0x28db77f5_23047d84; 0x32caab7b_40c72493; 0x3c9ebe0a_15c9bebc; 0x431d67c4_9c100d4c;
0x4cc5d4be_cb3e42b6; 0x597f299c_fc657e2a; 0x5fcb6fab_3ad6faec; 0x6c44198c_4a475817 ].

(** [W[i]] for [i < 16], the big-endian word at [buf + 8*i]. *)
Definition word (buf : list Z) (i : nat) : Z :=
  u64 ((buf !!! (8*i)%nat) << 56)
    .| u64 ((buf !!! (8*i+1)%nat) << 48)
    .| u64 ((buf !!! (8*i+2)%nat) << 40)
    .| u64 ((buf !!! (8*i+3)%nat) << 32)
    .| u64 ((buf !!! (8*i+4)%nat) << 24)
    .| u64 ((buf !!! (8*i+5)%nat) << 16)
    .| u64 ((buf !!! (8*i+6)%nat) << 8)
    .| (buf !!! (8*i+7)%nat).

(** [for (; i < 80; i++) W[i] = ...]; the sums wrap once instead of at each
    addition, which is the same modulo 2^64. *)
Definition expand (W : list Z) : list Z :=
  foldl (fun W i => W ++ [u64 (R1 (W !!! (i - 2)%nat) + W !!! (i - 7)%nat +
                               R0 (W !!! (i - 15)%nat) + W !!! (i - 16)%nat)])
        W (seq 16 64).

(** The body of the main loop. *)
Definition step (W : list Z) (st : regs) (i : nat) : regs :=
  let '(a, b, c, d, e, f, g, h) := st in
  let t1 := u64 (h + S1 e + Ch e f g + K !!! i + W !!! i) in
  let t2 := u64 (S0 a + Maj a b c) in
  let h := g in
  let g := f in
  let f := e in
  let e := u64 (d + t1) in
  let d := c in
  let c := b in
  let b := a in
  let a := u64 (t1 + t2) in
  (a, b, c, d, e, f, g, h).

(** [processblock], as the new value of [s->h]. *)
Definition block (H buf : list Z) : list Z :=
  let W := expand (map (word buf) (seq 0 16)) in
  let st := (H !!! 0%nat, H !!! 1%nat, H !!! 2%nat, H !!! 3%nat,
             H !!! 4%nat, H !!! 5%nat, H !!! 6%nat, H !!! 7%nat) in
  let '(a, b, c, d, e, f, g, h) := foldl (step W) st (seq 0 80) in
  [u64 (H !!! 0%nat + a); u64 (H !!! 1%nat + b); u64 (H !!! 2%nat + c); u64 (H !!! 3%nat + d);
   u64 (H !!! 4%nat + e); u64 (H !!! 5%nat + f); u64 (H !!! 6%nat + g); u64 (H !!! 7%nat + h)].

Definition processblock (s : ctx) (p : list Z) : ctx := Ctx (len s) (block (h s) p) (buf s).

Definition pad (s : ctx) : ctx :=
  let r := Z.to_nat (len s mod 128) in
  let s := Ctx (len s) (h s) (splice r [0x80] (buf s)) in
  let r := S r in
  let '(s, r) :=
    if decide (112 < r)%nat then
      let s := Ctx (len s) (h s) (splice r (replicate (128 - r) 0) (buf s)) in
      (processblock s (buf s), 0%nat)
    else (s, r) in
  let s := Ctx (len s) (h s) (splice r (replicate (120 - r) 0) (buf s)) in
  let s := Ctx (u64 (len s * 8)) (h s) (buf s) in
  let s := Ctx (len s) (h s) (splice 120
    [u8 (len s >> 56); u8 (len s >> 48); u8 (len s >> 40); u8 (len s >> 32);
     u8 (len s >> 24); u8 (len s >> 16); u8 (len s >> 8); u8 (len s)] (buf s)) in
  processblock s (buf s).

Definition sha512_init (s : ctx) : ctx :=
  Ctx 0 [0x6a09e667_f3bcc908; 0xbb67ae85_84caa73b; 0x3c6ef372_fe94f82b; 0xa54ff53a_5f1d36f1;
     0x510e527f_ade682d1; 0x9b05688c_2b3e6c1f; 0x1f83d9ab_fb41bd6b; 0x5be0cd19_137e2179] (buf s).

Definition sha512_sum (s : ctx) : ctx * list Z :=
  let s := pad s in
  (s, concat (map (fun i => let x := h s !!! i in
     [u8 (x >> 56); u8 (x >> 48); u8 (x >> 40); u8 (x >> 32);
      u8 (x >> 24); u8 (x >> 16); u8 (x >> 8); u8 x]) (seq 0 8))).

(** [for (; len >= 128; len -= 128, p += 128) processblock(s, p);] *)
Fixpoint sha512_blocks (n : nat) (s : ctx) (p : list Z) : ctx * list Z :=
  match n with
  | O => (s, p)
  | S n => if decide (128 <= length p)%nat
           then sha512_blocks n (processblock s p) (drop 128 p) else (s, p)
  end.

Definition sha512_update (s : ctx) (m : list Z) : ctx :=
  let r := Z.to_nat (len s mod 128) in
  let s := Ctx (u64 (len s + Z.of_nat (length m))) (h s) (buf s) in
  if decide (r <> 0 /\ length m < 128 - r)%nat
  then Ctx (len s) (h s) (splice r m (buf s))
  else
    let '(s, m) :=
      if decide (r <> 0)%nat then
        let s := Ctx (len s) (h s) (splice r (take (128 - r) m) (buf s)) in
        (processblock s (buf s), drop (128 - r) m)
      else (s, m) in
    let '(s, m) := sha512_blocks (length m) s m in
    Ctx (len s) (h s) (splice 0 m (buf s)).

(** ** The interface *)
#[export] Instance sha512 : Hash := {
  bs := 128; padlim := 112; lenoff := 120;
  iv := [0x6a09e667_f3bcc908; 0xbb67ae85_84caa73b; 0x3c6ef372_fe94f82b; 0xa54ff53a_5f1d36f1;
     0x510e527f_ade682d1; 0x9b05688c_2b3e6c1f; 0x1f83d9ab_fb41bd6b; 0x5be0cd19_137e2179];
  compress := block;
  lenenc x := [u8 (x >> 56); u8 (x >> 48); u8 (x >> 40); u8 (x >> 32);
     u8 (x >> 24); u8 (x >> 16); u8 (x >> 8); u8 (x)];
  output H := concat (map (fun i => let x := H !!! i in
     [u8 (x >> 56); u8 (x >> 48); u8 (x >> 40); u8 (x >> 32);
      u8 (x >> 24); u8 (x >> 16); u8 (x >> 8); u8 x]) (seq 0 8))
}.

Lemma sha512_word_take buf i : (i < 16)%nat -> word (take 128 buf) i = word buf i.
Proof. intros Hi. unfold word. by rewrite !lookup_total_take_lt by lia. Qed.

Lemma sha512_block_take st p : block st (take 128 p) = block st p.
Proof.
  unfold block. assert (map (word (take 128 p)) (seq 0 16) = map (word p) (seq 0 16)) as ->; [|done].
  apply map_ext_in. intros i Hi%in_seq. apply sha512_word_take. lia.
Qed.

#[export] Instance sha512_laws : HashLaws sha512.
Proof. split; [done|cbn; lia|by exists (2 ^ 57)|done|exact sha512_block_take]. Qed.

#[local] Opaque block.

Lemma sha512_blocks_eq n s p : sha512_blocks n s p = process_blocks n s p.
Proof. revert s p. induction n as [|n IH]; intros s p; simpl; [done|]. by rewrite IH. Qed.

Lemma sha512_update_eq s m : sha512_update s m = update s m.
Proof.
  unfold sha512_update, update. simpl.
  repeat (case_decide; simpl); rewrite ?sha512_blocks_eq; done.
Qed.

Lemma sha512_updates_eq s ms :
  foldl sha512_update (sha512_init s) ms = foldl update (init s) ms.
Proof.
  change (sha512_init s) with (init s). generalize (init s) as s0.
  induction ms as [|m ms IH]; intros s0; [done|]. cbn [foldl]. by rewrite sha512_update_eq, IH.
Qed.

Lemma sha512_pad_eq s : pad s = Digest.pad s.
Proof.
  unfold pad, Digest.pad. cbn [bs padlim lenoff sha512].
  change (Z.of_nat 128) with 128. case_decide; reflexivity.
Qed.

Lemma sha512_sum_eq s : sha512_sum s = sum s.
Proof. unfold sha512_sum, sum. by rewrite sha512_pad_eq. Qed.

#[local] Transparent block.

(** ** FIPS 180-4 *)
Definition fips_S0 := Sigma 64 28 34 39.
Definition fips_S1 := Sigma 64 14 18 41.
Definition fips_R0 := sigma 64 1 8 7.
Definition fips_R1 := sigma 64 19 61 6.

Abbreviation fips_block := (Sha2.fips_block 64 80 fips_S0 fips_S1 fips_R0 fips_R1).
Definition fips_digest := Sha2.fips_digest 64 80 fips_S0 fips_S1 fips_R0 fips_R1.

(** The tables are the cube and square roots of the first primes. *)
Lemma sha512_K_fips t : (t < 80)%nat -> K !!! t = fips_K 64 t.
Proof.
  intros Ht. unfold fips_K. assert (H : map (root_frac 3 64) (take 80 primes) = K).
  { apply root_frac_list; [done|done|by vm_compute|by vm_compute]. }
  rewrite <- H, (list_lookup_total_fmap (root_frac 3 64) (take 80 primes)).
  - by rewrite lookup_total_take_lt.
  - apply (Nat.lt_le_trans _ 80); [done|]. apply Nat.leb_le. by vm_compute.
Qed.

Lemma sha512_iv_fips : iv = fips_H0 64.
Proof. symmetry. apply root_frac_list; [done|done|by vm_compute|by vm_compute]. Qed.

Lemma sha512_ror_fips k x : 0 < k < 64 -> wd 64 x -> ror x k = ROTR 64 k x.
Proof. intros Hk Hx. by apply ror_ROTR. Qed.

Lemma sha512_word_fips p t : bytes p -> (128 <= length p)%nat -> (t < 16)%nat ->
  word p t = fips_M 64 p t /\ wd 64 (fips_M 64 p t).
Proof.
  intros Hp Hl Ht. unfold fips_M. change (Z.to_nat (64 / 8)) with 8%nat.
  set (l := take 8 (drop (8 * t) p)).
  assert (Hlen : length l = 8%nat) by (unfold l; rewrite length_take, length_drop; lia).
  assert (Hb : bytes l) by (by apply Forall_take, Forall_drop).
  assert (Hget : forall j, (j < 8)%nat -> p !!! (8 * t + j)%nat = l !!! j).
  { intros j Hj. unfold l. rewrite lookup_total_take_lt, lookup_total_drop by done. done. }
  unfold word. rewrite <- (Nat.add_0_r (8 * t)) at 1. rewrite !Hget by lia.
  clearbody l. clear Hget Hp Hl Ht.
  destruct l as [|b0 [|b1 [|b2 [|b3 [|b4 [|b5 [|b6 [|b7 [|]]]]]]]]]; try done.
  rewrite !Forall_cons_iff in Hb. destruct Hb as (H0 & H1 & H2 & H3 & H4 & H5 & H6 & H7 & _).
  cbn [lookup_total list_lookup_total]. unfold be_combine. cbn [foldl]. unfold byte, wd in *.
  rewrite !Z.shiftl_mul_pow2 by lia. unfold u64. rewrite !Z.mod_small by lia.
  split; [|lia]. rewrite (lor_step 56 48), (lor_step 48 40), (lor_step 40 32), (lor_step 32 24), (lor_step 24 16), (lor_step 16 8), lor_last by lia. lia.
Qed.

Lemma sha512_expand_eq W : expand W = Sha2.expand 64 80 R0 R1 W.
Proof. unfold expand, Sha2.expand. cbn [Nat.sub]. by apply foldl_ext. Qed.

Lemma sha512_block_eq st p : block st p = code_block 64 80 S0 S1 R0 R1 Ch Maj K word st p.
Proof.
  unfold block, code_block, load_regs.
  rewrite sha512_expand_eq. set (W := Sha2.expand _ _ _ _ _). clearbody W.
  assert (forall st, foldl (step W) st (seq 0 80) =
            foldl (code_step 64 S0 S1 Ch Maj K W) st (seq 0 80)) as Hsteps.
  { intros st'. apply foldl_ext. intros [[[[[[[a b] c] d] e] f] g] h] i. reflexivity. }
  rewrite Hsteps. by destruct (foldl (code_step _ _ _ _ _ _ _) _ _) as [[[[[[[a b] c] d] e] f] g] h].
Qed.

Lemma sha512_block_fips st p :
  bytes p -> length p = 128%nat -> length st = 8%nat -> Forall (wd 64) st ->
  block st p = fips_block st p.
Proof.
  intros Hp Hl Hst Hwd. rewrite sha512_block_eq. apply code_block_fips; try done; try lia.
  - intros x Hx. unfold S0. by rewrite !sha512_ror_fips by done.
  - intros x Hx. unfold S1. by rewrite !sha512_ror_fips by done.
  - intros x Hx. unfold R0. rewrite !sha512_ror_fips, Z.shiftr_div_pow2 by done. done.
  - intros x Hx. unfold R1. rewrite !sha512_ror_fips, Z.shiftr_div_pow2 by done. done.
  - apply Ch_fips.
  - apply Maj_fips.
  - apply sha512_K_fips.
  - intros t Ht. apply sha512_word_fips; [done|lia|done].
Qed.

Lemma sha512_block_ok st p : length (block st p) = 8%nat /\ Forall (wd 64) (block st p).
Proof. rewrite sha512_block_eq. apply code_block_ok; lia. Qed.

Lemma sha512_lenenc_be x : lenenc x = be_split 8 x.
Proof.
  cbn [lenenc sha512]. unfold be_split. cbn [le_split rev app]. unfold u8.
  rewrite !Z.shiftr_div_pow2 by lia. rewrite !Zdiv.Zdiv_Zdiv by lia. done.
Qed.

Lemma sha512_output_fips st : length st = 8%nat -> output st = concat (map (be_split 8) st).
Proof.
  intros Hst. destruct st as [|a [|b [|c [|d [|e [|f [|g [|h [|]]]]]]]]]; try done.
  cbn [output sha512 seq map]. unfold be_split, le_split, u8.
  cbn [lookup_total list_lookup_total rev app].
  rewrite !Z.shiftr_div_pow2 by lia. rewrite !Zdiv.Zdiv_Zdiv by lia. done.
Qed.

(** The padding of FIPS 180-4, section 5.1.2: the high half of the 128-bit
    length is zero for messages below 2^64 bits. *)
Lemma sha512_padding_fips n :
  8 * Z.of_nat n < 2 ^ 64 ->
  padding n = 128 :: replicate ((2 * 128 - 16 - 1 - n mod 128) mod 128) 0
                ++ be_split 16 (8 * Z.of_nat n).
Proof.
  intros Hn. unfold padding. rewrite sha512_lenenc_be. change (@bs sha512) with 128%nat.
  change (@padlim sha512) with 112%nat. change (@lenoff sha512) with 120%nat.
  change (2 * 128 - 16 - 1)%nat with 239%nat. f_equal.
  unfold be_split, u64. rewrite Zmult_mod_idemp_l, Z.mul_comm.
  rewrite Z.mod_small by lia. rewrite (le_split_add 8 8), Z.div_small by (cbn; lia).
  rewrite rev_app_distr, app_assoc. f_equal.
  change (rev (le_split 8 0)) with (replicate 8 0). rewrite <- replicate_add. f_equal.
  pose proof (Nat.mod_upper_bound n 128 ltac:(lia)). set (q := (n mod 128)%nat) in *.
  destruct (decide _).
  - rewrite Nat.mod_small; lia.
  - replace (239 - q)%nat with (112 - (q + 1) + 1 * 128)%nat by lia.
    rewrite Nat.Div0.mod_add, Nat.mod_small; lia.
Qed.

Lemma sha512_padding_bytes n : bytes (padding n).
Proof.
  unfold padding. constructor; [done|]. apply Forall_app.
  split; [by apply Forall_replicate|]. rewrite sha512_lenenc_be. apply Forall_rev, le_split_bytes.
Qed.

Lemma sha512_digest_fips m : bytes m -> 8 * Z.of_nat (length m) < 2 ^ 64 -> digest m = fips_digest m.
Proof.
  intros Hm Hlen. unfold digest, fips_digest, Sha2.fips_digest.
  change (Z.to_nat (2 * 64)) with 128%nat. change (Z.to_nat (64 / 4)) with 16%nat.
  change (Z.to_nat (64 / 8)) with 8%nat. rewrite <- sha512_padding_fips by done.
  change (@bs sha512) with 128%nat. set (p := m ++ padding (length m)).
  assert (Hb : bytes p) by (apply Forall_app; split; [done|by apply sha512_padding_bytes]).
  rewrite <- sha512_iv_fips.
  pose proof (absorb_ref (fun st => length st = 8%nat /\ Forall (wd 64) st)
    fips_block (length p / 128) iv p) as Href.
  unfold blocks in Href. change (@bs sha512) with 128%nat in Href. rewrite <- Href; clear Href.
  - apply sha512_output_fips.
    apply (absorb_inv (fun st => length st = 8%nat)); [|done].
    intros st q. apply sha512_block_ok.
  - intros st q [Hst Hwd] Hq Hl. split; [|apply sha512_block_ok].
    cbn [compress sha512]. rewrite (sha512_block_fips st q Hq Hl Hst Hwd). reflexivity.
  - split; [done|]. apply (bool_decide_unpack _). by vm_compute.
  - done.
  - pose proof (Nat.Div0.mul_div_le (length p) 128). lia.
Qed.

#[export] Instance sha512_ops : StreamOps :=
  {| s_init := sha512_init; s_update := sha512_update; s_sum := sha512_sum |}.
#[export] Instance sha512_spec : StreamSpec sha512_ops 128 digest 64.
Proof.
  apply (stream_spec sha512); [exact sha512_updates_eq|exact sha512_sum_eq|exact (fun _ _ => eq_refl)|].
  intros st. split; [done|]. cbn [output sha512 seq map concat app].
  repeat (constructor; [apply u8_range|]). constructor.
Qed.

(** ** Properties *)

(** however a message of fewer than 2^64 bits is cut into pieces, [sha512_init],
    [sha512_update] on each piece and [sha512_sum] give the SHA-512 digest that
    FIPS 180-4 defines for the whole message, with the round constants and the
    initial value computed from the roots of the first primes; the old
    contents of the context do not matter. *)
Theorem sha512_stream_fips180 s ms :
  length (buf s) = 128%nat -> Forall bytes ms ->
  8 * Z.of_nat (length (concat ms)) < 2 ^ 64 ->
  (sha512_sum (foldl sha512_update (sha512_init s) ms)).2 = fips_digest (concat ms).
Proof.
  intros Hb Hms Hlen. rewrite <- sha512_digest_fips by first [by apply Forall_concat|done].
  rewrite <- (stream_digest s ms) by exact Hb. by rewrite sha512_sum_eq, sha512_updates_eq.
Qed.

(** The published digest of "abc", fed as "a" and "bc". *)
Lemma sha512_stream_fips180_witness :
  fips_digest [97; 98; 99] =
    [0xdd; 0xaf; 0x35; 0xa1; 0x93; 0x61; 0x7a; 0xba;
     0xcc; 0x41; 0x73; 0x49; 0xae; 0x20; 0x41; 0x31;
     0x12; 0xe6; 0xfa; 0x4e; 0x89; 0xa9; 0x7e; 0xa2;
     0x0a; 0x9e; 0xee; 0xe6; 0x4b; 0x55; 0xd3; 0x9a;
     0x21; 0x92; 0x99; 0x2a; 0x27; 0x4f; 0xc1; 0xa8;
     0x36; 0xba; 0x3c; 0x23; 0xa3; 0xfe; 0xeb; 0xbd;
     0x45; 0x4d; 0x44; 0x23; 0x64; 0x3c; 0xe8; 0x0e;
     0x2a; 0x9a; 0xc9; 0x4f; 0xa5; 0x4c; 0xa4; 0x9f].
Proof.
  change [97; 98; 99] with (concat [[97]; [98; 99]]) at 1.
  rewrite <- (sha512_stream_fips180 (Ctx 7 [] (replicate 128 255)) [[97]; [98; 99]]).
  - by vm_compute.
  - done.
  - by apply (bool_decide_unpack _).
  - done.
Defined.
