(* ===== verification/CStr.v ===== *)
(** C strings as lists of bytes, and the character classes and the string
    comparisons of src/musl-1.1.19/src/ctype/ and src/musl-1.1.19/src/string/
    that parsers over them use.

    A C string is the list of its bytes before the terminator, none of them
    zero ([cstr]); a pointer into it is an index or the remaining suffix. *)
From Stdlib Require Import Strings.Ascii Strings.String.
From S2P Require Import Prelude.

(** The bytes of a string literal. *)
Definition str (s : string) : list Z :=
  map (fun c => Z.of_nat (nat_of_ascii c)) (list_ascii_of_string s).

Abbreviation cstr := (Forall (fun c : Z => 0 < c < 256)).

(** The byte at an index, the terminator included; [None] past it. *)
Definition at_ (s : list Z) (i : nat) : option Z := (s ++ [0]) !! i.

Lemma at_drop s i : (i <= length s)%nat -> at_ s i = Some (hd 0 (drop i s)).
Proof.
  intros Hi. unfold at_. rewrite lookup_app. destruct (s !! i) eqn:E.
  - by rewrite (drop_S _ _ _ E).
  - apply lookup_ge_None in E. rewrite drop_ge by done. by replace (i - length s)%nat with 0%nat by lia.
Qed.

Lemma cstr_hd s : cstr s -> 0 <= hd 0 s < 256.
Proof. intros []; cbn [hd]; lia. Qed.

Lemma cstr_drop s i : cstr s -> cstr (drop i s).
Proof. apply Forall_drop. Qed.

Lemma cstr_hd_0 s : cstr s -> hd 0 s = 0 -> s = [].
Proof. intros []; cbn [hd]; [done|lia]. Qed.

#[export] Hint Resolve cstr_hd cstr_drop : musl.

(** ** ctype *)
Definition isspace (c : Z) : bool := (c =? 32) || (u32 (c - 9) <? 5).
Definition isdigit (c : Z) : bool := u32 (c - 48) <? 10.

Lemma isdigit_spec c : 0 <= c < 256 -> isdigit c = (48 <=? c) && (c <=? 57).
Proof.
  intros Hc. apply eqb_true_iff. revert c Hc.
  apply (byte_forall (fun c => Bool.eqb (isdigit c) ((48 <=? c) && (c <=? 57)))). by vm_compute.
Qed.

(** ** strncmp *)
Fixpoint strncmp_loop (l r : list Z) (n : nat) : Z :=
  match n with
  | O => hd 0 l - hd 0 r
  | S n' =>
      if negb (hd 0 l =? 0) && negb (hd 0 r =? 0) && (hd 0 l =? hd 0 r)
      then strncmp_loop (tl l) (tl r) n' else hd 0 l - hd 0 r
  end.

Definition strncmp (l r : list Z) (n : nat) : Z :=
  match n with O => 0 | S n => strncmp_loop l r n end.

(** Comparing with a whole literal tests for a prefix. *)
Lemma strncmp_prefix s p : cstr s -> cstr p ->
  (strncmp s p (length p) =? 0) = bool_decide (take (length p) s = p).
Proof.
  intros Hs Hp. destruct p as [|a p]; [by rewrite take_0|]. cbn [length strncmp].
  apply Forall_cons_1 in Hp as [Ha Hp]. revert s a Hs Ha.
  induction Hp as [|b p Hb _ IH]; intros s a Hs Ha; cbn [length strncmp_loop hd].
  - destruct s as [|c s]; cbn [hd take]; [rewrite bool_decide_false by done; lia|].
    destruct (Z.eqb_spec (c - a) 0) as [E|E]; symmetry.
    + apply bool_decide_eq_true. replace c with a by lia. by rewrite take_0.
    + apply bool_decide_eq_false. intros H. injection H. lia.
  - destruct s as [|c s]; cbn [hd take].
    { rewrite bool_decide_false by done. cbn [Z.eqb negb andb]. lia. }
    apply Forall_cons_1 in Hs as [Hc Hs]. cbv beta in Hc.
    rewrite (proj2 (Z.eqb_neq c 0)), (proj2 (Z.eqb_neq a 0)) by lia. cbn [negb andb].
    destruct (Z.eqb_spec c a) as [->|E].
    + cbn [tl]. rewrite IH by done. apply bool_decide_ext. split; congruence.
    + rewrite bool_decide_false by congruence. lia.
Qed.

(** ** strcmp *)
Fixpoint strcmp (l r : list Z) : Z :=
  if (hd 0 l =? hd 0 r) && negb (hd 0 l =? 0)
  then match l with [] => 0 | _ :: l => strcmp l (tl r) end
  else hd 0 l - hd 0 r.

Lemma strcmp_eq l r : cstr l -> cstr r -> strcmp l r = 0 <-> l = r.
Proof.
  intros Hl. revert r. induction Hl as [|a l Ha Hl IH]; intros r Hr.
  - destruct Hr as [|b r Hb Hr]; [done|]. cbn [strcmp hd]. rewrite (proj2 (Z.eqb_neq 0 b)) by lia. cbn [andb]. split; [lia|done].
  - destruct Hr as [|b r Hb Hr]; cbn [strcmp hd tl].
    + rewrite (proj2 (Z.eqb_neq a 0)) by (cbv beta in Ha; lia). cbn [andb]. split; [lia|done].
    + rewrite (proj2 (Z.eqb_neq a 0)) by (cbv beta in Ha; lia). cbn [negb]. rewrite andb_true_r.
      destruct (Z.eqb_spec a b) as [->|Hne]; [rewrite IH by done; split; congruence|split; [lia|congruence]].
Qed.
