(* ===== verification/Intscan.v ===== *)
(** Integer parsing: [__intscan] of src/musl-1.1.19/src/internal/intscan.c as
    the [strtol] family of src/musl-1.1.19/src/stdlib/strtol.c runs it, with
    [atoi] and [atol].

    The [FILE] that [strtox] sets up over a string is modelled with the fields
    that the [shgetc.h] macros use; addresses are relative to the string.  The
    outer [None] of a result stands for reading outside the string, leaving the
    buffer (the call of [__shgetc]) or exhausting the fuel of a loop; the
    theorems show that none of them happens.  [long] is 64 bits wide. *)
From Stdlib Require Import Strings.String.
From S2P Require Import Prelude CStr.
#[local] Open Scope c_scope.

Definition EINVAL : Z := 22.
Definition ERANGE : Z := 34.

(** ** shgetc.h over a string *)
Record FILE := File { rpos : Z; rend : Z; shend : Z; shlim : Z; shcnt : Z }.

Definition __shlim (f : FILE) (lim : Z) : FILE :=
  let cnt := rend f - rpos f in
  File (rpos f) (rend f)
       (if negb (lim =? 0) && (cnt >? lim) then rpos f + lim else rend f) lim cnt.

Definition shcnt_ (f : FILE) : Z := shcnt f + (rpos f - rend f).

Definition shgetc (s : list Z) (f : FILE) : option (Z * FILE) :=
  if rpos f <? shend f then
    c ← at_ s (Z.to_nat (rpos f));
    Some (c, File (rpos f + 1) (rend f) (shend f) (shlim f) (shcnt f))
  else None.

Definition shunget (f : FILE) : FILE :=
  if negb (shend f =? 0) then File (rpos f - 1) (rend f) (shend f) (shlim f) (shcnt f) else f.

(** ** intscan.c *)

(** [val], that is [table + 1], on the values of an unsigned char. *)
Definition table : list Z :=
  replicate 48 255 ++ seqZ 0 10 ++ replicate 7 255 ++ seqZ 10 26 ++ replicate 6 255
    ++ seqZ 10 26 ++ replicate 133 255.
Definition val (c : Z) : Z := table !!! Z.to_nat c.

(** The scanning loops: [for (acc = a; ok(acc, c); c = shgetc(f)) acc = upd(acc, c)]. *)
Fixpoint scan (fuel : nat) (ok : Z -> Z -> bool) (upd : Z -> Z -> Z) (s : list Z)
    (acc c : Z) (f : FILE) : option (Z * Z * FILE) :=
  match fuel with
  | O => None
  | S fuel =>
      if ok acc c then
        '(c', f) ← shgetc s f;
        scan fuel ok upd s (upd acc c) c' f
      else Some (acc, c, f)
  end.

(** The two loops of each base: the first in an [unsigned], the second in an
    [unsigned long long]. *)
Definition scan10 (s : list Z) (c : Z) (f : FILE) : option (Z * Z * FILE) :=
  let n := S (length s) in
  '(x, c, f) ← scan n (fun x c => (u32 (c - 48) <? 10) && (x <=? UINT_MAX / 10 - 1))
                      (fun x c => u32 (x * 10 + (c - 48))) s 0 c f;
  scan n (fun y c => (u32 (c - 48) <? 10) && (y <=? ULLONG_MAX / 10)
                     && (10 * y <=? ULLONG_MAX - (c - 48)))
         (fun y c => u64 (y * 10 + (c - 48))) s x c f.

Definition scan_pow2 (base : Z) (s : list Z) (c : Z) (f : FILE) : option (Z * Z * FILE) :=
  let n := S (length s) in
  let bs := [0; 1; 2; 4; 7; 3; 6; 5] !!! Z.to_nat ((u32 (0x17 * base) >> 5) & 7) in
  '(x, c, f) ← scan n (fun x c => (val c <? base) && (x <=? UINT_MAX / 32))
                      (fun x c => u32 (x << bs) .| val c) s 0 c f;
  scan n (fun y c => (val c <? base) && (y <=? ULLONG_MAX >> bs))
         (fun y c => u64 (y << bs) .| val c) s x c f.

Definition scan_any (base : Z) (s : list Z) (c : Z) (f : FILE) : option (Z * Z * FILE) :=
  let n := S (length s) in
  '(x, c, f) ← scan n (fun x c => (val c <? base) && (x <=? UINT_MAX / 36 - 1))
                      (fun x c => u32 (x * base + val c)) s 0 c f;
  scan n (fun y c => (val c <? base) && (y <=? ULLONG_MAX / base)
                     && (u64 (base * y) <=? ULLONG_MAX - val c))
         (fun y c => u64 (y * base + val c)) s x c f.

(** From the label [done] on. *)
Definition finish (y neg lim : Z) (f : FILE) (errno : Z) : Z * FILE * Z :=
  let f := shunget f in
  let r := u64 ((y ^^ u64 neg) - neg) in
  if y >=? lim then
    if ((lim & 1) =? 0) && (neg =? 0) then (lim - 1, f, ERANGE)
    else if y >? lim then (lim, f, ERANGE)
    else (r, f, errno)
  else (r, f, errno).

(** From [if (base == 10)] on: digits of a known base, [c] being the first. *)
Definition scan_digits (base neg lim : Z) (s : list Z) (c : Z) (f : FILE) (errno : Z)
    : option (Z * FILE * Z) :=
  if base =? 10 then
    '(y, c, f) ← scan10 s c f;
    if u32 (c - 48) >=? 10 then Some (finish y neg lim f errno)
    else if val c <? base then
      '(_, c, f) ← scan (S (length s)) (fun _ c => val c <? base) (fun a _ => a) s 0 c f;
      Some (finish lim (if negb ((lim & 1) =? 0) then 0 else neg) lim f ERANGE)
    else Some (finish y neg lim f errno)
  else
    '(y, c, f) ← if (base & (base - 1)) =? 0 then scan_pow2 base s c f else scan_any base s c f;
    if val c <? base then
      '(_, c, f) ← scan (S (length s)) (fun _ c => val c <? base) (fun a _ => a) s 0 c f;
      Some (finish lim (if negb ((lim & 1) =? 0) then 0 else neg) lim f ERANGE)
    else Some (finish y neg lim f errno).

(** The result, the stream and [errno]. *)
Definition __intscan (s : list Z) (f : FILE) (base : Z) (pok : bool) (lim errno : Z)
    : option (Z * FILE * Z) :=
  if (base >? 36) || (base =? 1) then Some (0, f, EINVAL) else
  '(c, f) ← shgetc s f;
  '(_, c, f) ← scan (S (length s)) (fun _ c => isspace c) (fun a _ => a) s 0 c f;
  '(neg, c, f) ←
    (if (c =? 43) || (c =? 45) then
       '(c', f) ← shgetc s f; Some (- b2z (c =? 45), c', f)
     else Some (0, c, f));
  if ((base =? 0) || (base =? 16)) && (c =? 48) then
    '(c, f) ← shgetc s f;
    if (c .| 32) =? 120 then
      '(c, f) ← shgetc s f;
      if val c >=? 16 then
        let f := shunget f in
        Some (0, if pok then shunget f else __shlim f 0, errno)
      else scan_digits 16 neg lim s c f errno
    else scan_digits (if base =? 0 then 8 else base) neg lim s c f errno
  else
    let base := if base =? 0 then 10 else base in
    if val c >=? base then Some (0, __shlim (shunget f) 0, EINVAL)
    else scan_digits base neg lim s c f errno.

(** ** strtol.c *)

(** The [FILE] of [strtox]: the buffer extends half the address space. *)
Definition string_file : FILE := __shlim (File 0 (2 ^ 63 - 1) 0 0 0) 0.

(** The value, the offset of the end pointer and [errno]. *)
Definition strtox (s : list Z) (base lim errno : Z) : option (Z * Z * Z) :=
  '(y, f, errno) ← __intscan s string_file (u32 base) true lim errno;
  Some (y, u64 (shcnt_ f), errno).

Definition strtoull (s : list Z) (base errno : Z) : option (Z * Z * Z) :=
  strtox s base ULLONG_MAX errno.
Definition strtoll (s : list Z) (base errno : Z) : option (Z * Z * Z) :=
  '(y, p, errno) ← strtox s base (u64 LLONG_MIN) errno; Some (s64 y, p, errno).
Definition strtoul (s : list Z) (base errno : Z) : option (Z * Z * Z) :=
  strtox s base ULLONG_MAX errno.
Definition strtol (s : list Z) (base errno : Z) : option (Z * Z * Z) :=
  '(y, p, errno) ← strtox s base (u64 (0 + LLONG_MIN)) errno; Some (s64 y, p, errno).

(** ** What the standard says

    ISO C (7.22.1.4): optional white space, an optional sign, an optional
    prefix when the base is 0 or 16, and the longest sequence of digits of the
    base.  [parse] is [None] when there is no such sequence. *)
Fixpoint skip (p : Z -> bool) (s : list Z) : list Z :=
  match s with c :: s' => if p c then skip p s' else s | [] => [] end.
Fixpoint span (p : Z -> bool) (s : list Z) : list Z :=
  match s with c :: s' => if p c then c :: span p s' else [] | [] => [] end.

Definition digit (c : Z) : Z :=
  if (48 <=? c) && (c <=? 57) then c - 48
  else if (97 <=? c) && (c <=? 122) then c - 87
  else if (65 <=? c) && (c <=? 90) then c - 55
  else 255.

Definition has_hex (s : list Z) : bool :=
  (hd 0 s =? 48) && ((hd 0 (drop 1 s) =? 120) || (hd 0 (drop 1 s) =? 88))
    && (digit (hd 0 (drop 2 s)) <? 16).

Definition sign (s : list Z) : bool * list Z :=
  match s with
  | 45 :: s => (true, s)
  | 43 :: s => (false, s)
  | _ => (false, s)
  end.

(** The number that digits denote. *)
Definition number (base : Z) (ds : list Z) : Z := foldl (fun a c => a * base + digit c) 0 ds.

(** Prefix and digits: sign, magnitude and what follows the number. *)
Definition parse_at (base : Z) (neg : bool) (r : list Z) : option (bool * Z * list Z) :=
  let hex := has_hex r && ((base =? 0) || (base =? 16)) in
  let base := if base =? 0 then if hex then 16 else if hd 0 r =? 48 then 8 else 10 else base in
  let r := if hex then drop 2 r else r in
  match span (fun c => digit c <? base) r with
  | [] => None
  | ds => Some (neg, number base ds, skip (fun c => digit c <? base) r)
  end.

Definition parse (s : list Z) (base : Z) : option (bool * Z * list Z) :=
  let '(neg, r) := sign (skip isspace s) in parse_at base neg r.

Definition base_ok (base : Z) : bool := (base =? 0) || (2 <=? base) && (base <=? 36).

(** The result, the offset of the end and [errno], for a given conversion of
    sign and magnitude. *)
Definition strto (conv : bool -> Z -> Z * bool) (s : list Z) (base errno : Z) : Z * Z * Z :=
  if negb (base_ok base) then (0, 0, EINVAL)
  else
    match parse s base with
    | None => (0, 0, EINVAL)
    | Some (neg, v, rest) =>
        let '(r, range) := conv neg v in
        (r, Z.of_nat (length s - length rest), if range then ERANGE else errno)
    end.

Definition to_unsigned (neg : bool) (v : Z) : Z * bool :=
  if v >? ULLONG_MAX then (ULLONG_MAX, true) else (u64 (if neg then - v else v), false).
Definition to_signed (neg : bool) (v : Z) : Z * bool :=
  let v := if neg then - v else v in
  if v >? LLONG_MAX then (LLONG_MAX, true)
  else if v <? LLONG_MIN then (LLONG_MIN, true) else (v, false).

(** ** Reading a string through the [FILE] *)

(** The stream of [strtox] with [n] characters consumed. *)
Definition at_pos (n : nat) : FILE :=
  File (Z.of_nat n) (2 ^ 63 - 1) (2 ^ 63 - 1) 0 (2 ^ 63 - 1).

Lemma shunget_spec n : shunget (at_pos (S n)) = at_pos n.
Proof. unfold shunget, at_pos. cbn [rpos shend rend shlim shcnt Z.eqb negb]. f_equal. lia. Qed.

Section reading.
Context (s : list Z) (Hs : cstr s) (Hlen : Z.of_nat (length s) < 2 ^ 63 - 1).

Lemma shgetc_spec n : (n <= length s)%nat ->
  shgetc s (at_pos n) = Some (hd 0 (drop n s), at_pos (S n)).
Proof using Hlen.
  intros Hn. unfold shgetc, at_pos. cbn [rpos shend rend shlim shcnt].
  rewrite (proj2 (Z.ltb_lt _ _)), Nat2Z.id, at_drop by lia. cbn [mbind option_bind].
  do 3 f_equal. lia.
Qed.

(** A scanning loop from position [k] stops at some [k'], keeping any
    invariant of the accumulator and the unread string that its body keeps. *)
Lemma scan_spec (P : Z -> list Z -> Prop) ok upd fuel k acc :
  (forall acc, ok acc 0 = false) ->
  (forall acc c r, 0 < c < 256 -> ok acc c = true -> P acc (c :: r) -> P (upd acc c) r) ->
  P acc (drop k s) -> (k <= length s)%nat -> (length s - k < fuel)%nat ->
  exists acc' k', scan fuel ok upd s acc (hd 0 (drop k s)) (at_pos (S k)) =
      Some (acc', hd 0 (drop k' s), at_pos (S k')) /\
    (k <= k' <= length s)%nat /\ P acc' (drop k' s) /\ ok acc' (hd 0 (drop k' s)) = false.
Proof using Hs Hlen.
  intros H0 Hstep. revert k acc. induction fuel as [|fuel IH]; intros k acc HP Hk Hf; [lia|].
  cbn [scan]. destruct (ok acc (hd 0 (drop k s))) eqn:Hok.
  2: { exists acc, k. by split_and!. }
  destruct (drop k s) as [|c r] eqn:Hd; cbn [hd] in *; [by rewrite H0 in Hok|].
  assert (Hr : drop (S k) s = r) by (by rewrite <- Nat.add_1_r, <- drop_drop, Hd).
  assert (Hlt : (k < length s)%nat).
  { apply (f_equal length) in Hd. rewrite length_drop in Hd. simpl in Hd. lia. }
  assert (Hc : 0 < c < 256).
  { pose proof (cstr_drop s k Hs) as Hds. rewrite Hd in Hds. by apply Forall_cons_1 in Hds as []. }
  rewrite shgetc_spec by lia. cbn [mbind option_bind].
  destruct (IH (S k) (upd acc c)) as (a' & k' & -> & Hk' & HP' & Hstop); [|lia|lia|].
  - rewrite Hr. by apply Hstep.
  - exists a', k'. split_and!; by auto with lia.
Qed.
End reading.

(** ** Digits *)
Lemma val_digit c : 0 <= c < 256 -> val c = digit c.
Proof. intros Hc. apply Z.eqb_eq. revert c Hc. apply byte_forall. by vm_compute. Qed.

Lemma digit_range c : 0 <= c < 256 -> 0 <= digit c < 256.
Proof. intros Hc. unfold digit. repeat case_match; lia. Qed.

Lemma dec_digit c : 0 <= c < 256 ->
  (u32 (c - 48) <? 10) = (digit c <? 10) /\ (digit c < 10 -> digit c = c - 48).
Proof.
  intros Hc. split.
  - apply eqb_true_iff. revert c Hc.
    apply (byte_forall (fun c => Bool.eqb (u32 (c - 48) <? 10) (digit c <? 10))). by vm_compute.
  - unfold digit. destruct ((48 <=? c) && (c <=? 57)); [done|]. repeat case_match; lia.
Qed.

Lemma span_app p l r : Forall (fun c => p c = true) l ->
  span p (l ++ r) = l ++ span p r /\ skip p (l ++ r) = skip p r.
Proof.
  induction 1 as [|c l Hc _ IH]; [done|]. cbn [app span skip]. rewrite Hc. destruct IH as [-> ->]. done.
Qed.

Lemma span_skip p l : l = span p l ++ skip p l.
Proof. induction l as [|c l IH]; [done|]. cbn [span skip]. case_match; [cbn [app]; by f_equal|done]. Qed.

Lemma drop_span p l : drop (length (span p l)) l = skip p l.
Proof. induction l as [|c l IH]; [done|]. cbn [span skip]. by case_match. Qed.

Lemma skip_drop p (s : list Z) k : exists k', skip p (drop k s) = drop k' s /\ (k <= k')%nat.
Proof.
  exists (k + length (span p (drop k s)))%nat. split; [|lia]. by rewrite <- drop_drop, drop_span.
Qed.

Section base.
Context (base : Z) (Hbase : 2 <= base <= 36).
Let D (c : Z) : bool := digit c <? base.

#[local] Abbreviation num := (number base).

Lemma number_snoc ds c : num (ds ++ [c]) = num ds * base + digit c.
Proof. unfold number. by rewrite foldl_snoc. Qed.

Lemma number_app ds es : Forall (fun c => 0 <= digit c) es -> 0 <= num ds ->
  num ds <= num (ds ++ es).
Proof using Hbase.
  intros H Hn. induction es as [|c es IH] using rev_ind; [by rewrite app_nil_r|].
  apply Forall_app in H as [H Hc]. apply Forall_cons_1 in Hc as [Hc _]. specialize (IH H).
  rewrite app_assoc, number_snoc. nia.
Qed.

Lemma cstr_digits l : cstr l -> Forall (fun c => 0 <= digit c) l.
Proof. intros H. eapply Forall_impl; [|exact H]. intros c Hc. cbv beta in Hc. apply digit_range. lia. Qed.

(** [acc] is the value of the digits read so far from [r0], at most [m]. *)
Definition read (m : Z) (r0 : list Z) (acc : Z) (r : list Z) : Prop :=
  exists ds, r0 = ds ++ r /\ Forall (fun c => D c = true) ds /\ acc = num ds /\ 0 <= acc <= m.

Lemma read_step m m' r0 acc c r : D c = true -> 0 <= digit c -> acc * base + digit c <= m' ->
  read m r0 acc (c :: r) -> read m' r0 (acc * base + digit c) r.
Proof using Hbase.
  intros HD Hc Hm (ds & -> & Hds & -> & Hr). exists (ds ++ [c]). split_and!.
  - by rewrite <- app_assoc.
  - apply Forall_app. by split; [|constructor].
  - by rewrite number_snoc.
  - nia.
  - done.
Qed.

Context (s : list Z) (Hs : cstr s) (Hlen : Z.of_nat (length s) < 2 ^ 63 - 1).

(** The two loops of any base: the value of all the digits, or a value that
    one more digit would make too large. *)
Lemma two_scans ok1 upd1 ok2 upd2 k :
  (forall x, ok1 x 0 = false) -> (forall x, ok2 x 0 = false) ->
  (forall x c, 0 < c < 256 -> 0 <= x <= UINT_MAX -> ok1 x c = true ->
     D c = true /\ upd1 x c = x * base + digit c /\ x * base + digit c <= UINT_MAX) ->
  (forall y c, 0 < c < 256 -> 0 <= y <= ULLONG_MAX ->
     if ok2 y c then D c = true /\ upd2 y c = y * base + digit c /\ y * base + digit c <= ULLONG_MAX
     else D c = true -> y * base + digit c > ULLONG_MAX) ->
  (k <= length s)%nat ->
  let n := S (length s) in
  exists y k',
    ('(x, c, f) ← scan n ok1 upd1 s 0 (hd 0 (drop k s)) (at_pos (S k)); scan n ok2 upd2 s x c f) =
      Some (y, hd 0 (drop k' s), at_pos (S k')) /\ (k <= k' <= length s)%nat /\
    skip D (drop k' s) = skip D (drop k s) /\ 0 <= y <= ULLONG_MAX /\
    if D (hd 0 (drop k' s)) then num (span D (drop k s)) > ULLONG_MAX
    else num (span D (drop k s)) = y /\ skip D (drop k s) = drop k' s.
Proof using Hs Hlen Hbase.
  intros Ho1 Ho2 H1 H2 Hk n.
  destruct (scan_spec s Hs Hlen (read UINT_MAX (drop k s)) ok1 upd1 n k 0)
    as (x & k1 & -> & Hk1 & HP1 & _); [done| | |done|subst n; lia|].
  { intros acc c r Hc Hok HP. destruct HP as (ds & Hd & Hds & Ha & Hr).
    destruct (H1 acc c Hc Hr Hok) as (HD & -> & Hm).
    apply (read_step UINT_MAX); [done|apply digit_range; lia|done|]. by exists ds. }
  { by exists []. }
  cbn [mbind option_bind].
  destruct (scan_spec s Hs Hlen (read ULLONG_MAX (drop k s)) ok2 upd2 n k1 x)
    as (y & k2 & -> & Hk2 & (ds & Hd & Hds & -> & Hr) & Hstop); [done| | |lia|subst n; lia|].
  { intros acc c r Hc Hok HP. pose proof HP as (ds & Hd & Hds & Ha & Hr).
    specialize (H2 acc c Hc Hr). rewrite Hok in H2. destruct H2 as (HD & -> & Hm).
    by apply (read_step ULLONG_MAX); [|apply digit_range; lia| |]. }
  { destruct HP1 as (ds & ? & ? & ? & ?). exists ds. split_and!; unfold UINT_MAX, ULLONG_MAX in *; done || lia. }
  exists (num ds), k2. rewrite Hd.
  destruct (span_app D ds (drop k2 s) Hds) as [-> ->]. split_and!; [done|lia|lia|done|lia|lia|].
  pose proof (cstr_drop s k2 Hs) as Hc2. destruct (drop k2 s) as [|c r] eqn:Hr2; cbn [hd] in *.
  { assert (D 0 = false) as -> by (unfold D; apply Z.ltb_ge; change (digit 0) with 255; lia).
    by rewrite app_nil_r. }
  apply Forall_cons_1 in Hc2 as [Hc Hc2]. specialize (H2 (num ds) c Hc Hr). rewrite Hstop in H2.
  cbn [span skip]. destruct (D c); [|by rewrite app_nil_r].
  specialize (H2 eq_refl).
  assert (Hsp : Forall (fun c => 0 <= digit c) (span D r)).
  { pose proof (cstr_digits r Hc2) as Hf. rewrite (span_skip D r), Forall_app in Hf. apply Hf. }
  change (c :: span D r) with ([c] ++ span D r). rewrite app_assoc.
  rewrite <- number_snoc in H2.
  pose proof (number_app (ds ++ [c]) (span D r) Hsp). unfold ULLONG_MAX in *. lia.
Qed.
End base.

(** ** The three scanners *)
Definition scan_ok (base : Z) (s : list Z) (k : nat) (r : option (Z * Z * FILE)) : Prop :=
  let D := fun c => digit c <? base in
  exists y k', r = Some (y, hd 0 (drop k' s), at_pos (S k')) /\ (k <= k' <= length s)%nat /\
    skip D (drop k' s) = skip D (drop k s) /\ 0 <= y <= ULLONG_MAX /\
    if D (hd 0 (drop k' s)) then number base (span D (drop k s)) > ULLONG_MAX
    else number base (span D (drop k s)) = y /\ skip D (drop k s) = drop k' s.

Section scanners.
Context (s : list Z) (Hs : cstr s) (Hlen : Z.of_nat (length s) < 2 ^ 63 - 1) (k : nat).
Context (Hk : (k <= length s)%nat).

Lemma scan10_spec : scan_ok 10 s k (scan10 s (hd 0 (drop k s)) (at_pos (S k))).
Proof using Hs Hlen Hk.
  unfold scan_ok, scan10. apply two_scans; try done; unfold UINT_MAX, ULLONG_MAX.
  - intros x c Hc Hx Hok. destruct (dec_digit c) as [Hu Hd]; [lia|]. rewrite Hu in Hok.
    apply andb_true_iff in Hok as [Hok Hm]. apply Z.ltb_lt in Hok. specialize (Hd Hok).
    pose proof (digit_range c). apply Z.leb_le in Hm. change (4294967295 / 10 - 1) with 429496728 in Hm.
    rewrite u32_id by lia. split_and!; [by apply Z.ltb_lt|lia|lia].
  - intros y c Hc Hy. destruct (dec_digit c) as [-> Hd]; [lia|]. pose proof (digit_range c).
    destruct (Z.ltb_spec (digit c) 10) as [Hok|]; cbn [andb]; [|lia]. specialize (Hd Hok).
    change (18446744073709551615 / 10) with 1844674407370955161.
    destruct (Z.leb_spec y 1844674407370955161); cbn [andb]; [|lia].
    destruct (Z.leb_spec (10 * y) (18446744073709551615 - (c - 48))); [|lia].
    rewrite u64_id; lia.
Qed.

Lemma scan_any_spec base : 2 <= base <= 36 ->
  scan_ok base s k (scan_any base s (hd 0 (drop k s)) (at_pos (S k))).
Proof using Hs Hlen Hk.
  intros Hb. unfold scan_ok, scan_any.
  apply two_scans; try done; [intros x|intros y|..]; unfold UINT_MAX, ULLONG_MAX.
  1,2: rewrite (proj2 (Z.ltb_ge _ _)); [done|change (val 0) with 255; lia].
  - intros x c Hc Hx Hok. rewrite val_digit in * by lia. pose proof (digit_range c).
    apply andb_true_iff in Hok as [Hok Hm]. apply Z.ltb_lt in Hok as Hok'.
    assert (x <= 4294967295 / 36 - 1) by lia. change (4294967295 / 36) with 119304647 in *.
    rewrite u32_id by nia. split_and!; [done|done|nia].
  - intros y c Hc Hy. rewrite val_digit by lia. pose proof (digit_range c).
    destruct (digit c <? base) eqn:Hok; cbn [andb]; [|done].
    pose proof (Z.div_mod 18446744073709551615 base). pose proof (Z.mod_pos_bound 18446744073709551615 base).
    destruct (Z.leb_spec y (18446744073709551615 / base)); cbn [andb]; [|intros; nia].
    rewrite u64_id by nia.
    destruct (Z.leb_spec (base * y) (18446744073709551615 - digit c)); [|intros; lia].
    rewrite u64_id by nia. split_and!; [done|done|lia].
Qed.

Lemma shl_lor b d x : 0 <= b -> 0 <= d < 2 ^ b -> (x << b) .| d = x * 2 ^ b + d.
Proof. intros Hb Hd. rewrite Z.lor_comm, Z.shiftl_mul_pow2, lor_add by lia. lia. Qed.

Lemma pow2_bits base : 2 <= base <= 36 -> (base & (base - 1)) = 0 ->
  exists b, 1 <= b <= 5 /\ base = 2 ^ b /\
    [0; 1; 2; 4; 7; 3; 6; 5] !!! Z.to_nat ((u32 (0x17 * base) >> 5) & 7) = b.
Proof.
  intros Hb H0.
  assert (Hc : base = 2 ^ 1 \/ base = 2 ^ 2 \/ base = 2 ^ 3 \/ base = 2 ^ 4 \/ base = 2 ^ 5).
  { assert (H : forall b, 0 <= b < 37 ->
      implb ((2 <=? b) && ((b & (b - 1)) =? 0)) (existsb (Z.eqb b) [2; 4; 8; 16; 32]) = true).
    { apply range_forall. by vm_compute. }
    specialize (H base ltac:(lia)). rewrite H0 in H. rewrite (proj2 (Z.leb_le 2 base)) in H by lia.
    cbn [Z.eqb andb implb existsb] in H. lia. }
  destruct Hc as [-> |[-> |[-> |[-> | ->]]]]; eexists; (split; [|split; [reflexivity|by vm_compute]]); lia.
Qed.

Lemma scan_pow2_spec base : 2 <= base <= 36 -> (base & (base - 1)) = 0 ->
  scan_ok base s k (scan_pow2 base s (hd 0 (drop k s)) (at_pos (S k))).
Proof using Hs Hlen Hk.
  intros Hb H0. destruct (pow2_bits base Hb H0) as (b & Hb5 & Hbb & Hbs).
  unfold scan_ok, scan_pow2. rewrite Hbs.
  assert (H32 : 2 ^ b <= 32) by (change 32 with (2 ^ 5); apply Z.pow_le_mono_r; lia).
  apply two_scans; try done; [intros x|intros y|..]; unfold UINT_MAX, ULLONG_MAX.
  1,2: rewrite (proj2 (Z.ltb_ge _ _)); [done|change (val 0) with 255; lia].
  - intros x c Hc Hx Hok. rewrite val_digit in * by lia. pose proof (digit_range c).
    apply andb_true_iff in Hok as [Hok Hm]. apply Z.ltb_lt in Hok as Hok'.
    change (4294967295 / 32) with 134217727 in *.
    assert (x << b = x * 2 ^ b) as Hsh by (by rewrite Z.shiftl_mul_pow2 by lia).
    rewrite u32_id by (rewrite Hsh; nia). rewrite shl_lor, <- Hbb by lia. split_and!; [done|done|nia].
  - intros y c Hc Hy. rewrite val_digit by lia. pose proof (digit_range c).
    destruct (digit c <? base) eqn:Hok; cbn [andb]; [|done]. apply Z.ltb_lt in Hok as Hok'.
    rewrite Z.shiftr_div_pow2, <- Hbb by lia.
    assert (y << b = y * base) as Hsh by (by rewrite Hbb, Z.shiftl_mul_pow2 by lia).
    pose proof (Z.div_mod 18446744073709551615 base). pose proof (Z.mod_pos_bound 18446744073709551615 base).
    assert (Hm : 18446744073709551615 mod base = base - 1).
    { symmetry. apply (Z.mod_unique _ _ (2 ^ (64 - b) - 1)); [lia|].
      assert (base * 2 ^ (64 - b) = 2 ^ 64) by (rewrite Hbb, <- Z.pow_add_r by lia; f_equal; lia). lia. }
    destruct (Z.leb_spec y (18446744073709551615 / base)); [|intros; nia].
    rewrite u64_id by (rewrite Hsh; nia). rewrite shl_lor, <- Hbb by lia. split_and!; [done|done|nia].
Qed.
End scanners.

(** ** [__intscan] *)
Section intscan.
Context (s : list Z) (Hs : cstr s) (Hlen : Z.of_nat (length s) < 2 ^ 63 - 1).

Lemma hd_range k : 0 <= hd 0 (drop k s) < 256.
Proof using Hs. by apply cstr_hd, cstr_drop. Qed.

Lemma skip_hd p l : p (hd 0 l) = false -> skip p l = l.
Proof. destruct l as [|c l]; [done|]. cbn [hd skip]. by intros ->. Qed.

(** Consuming the rest of a class of characters. *)
Lemma consume p k acc fuel : p 0 = false -> (k <= length s)%nat -> (length s < fuel)%nat ->
  exists acc' k', scan fuel (fun _ c => p c) (fun a _ => a) s acc (hd 0 (drop k s)) (at_pos (S k)) =
      Some (acc', hd 0 (drop k' s), at_pos (S k')) /\
    (k <= k' <= length s)%nat /\ skip p (drop k s) = drop k' s.
Proof using Hs Hlen.
  intros H0 Hk Hf.
  destruct (scan_spec s Hs Hlen (fun _ r => skip p r = skip p (drop k s)) (fun _ c => p c) (fun a _ => a)
              fuel k acc) as (a' & k' & Hsc & Hk' & HP & Hstop); try done; [|lia|].
  - intros _ c r _ Hc. cbn [skip]. by rewrite Hc.
  - exists a', k'. split_and!; [done|lia|lia|]. by rewrite <- HP, skip_hd.
Qed.

Lemma scan_digits_spec base neg lim k errno : 2 <= base <= 36 -> (k <= length s)%nat ->
  let D := fun c => digit c <? base in
  exists k', skip D (drop k s) = drop k' s /\ (k <= k' <= length s)%nat /\
    scan_digits base neg lim s (hd 0 (drop k s)) (at_pos (S k)) errno = Some
      (let v := number base (span D (drop k s)) in
       if v >? ULLONG_MAX
       then finish lim (if negb ((lim & 1) =? 0) then 0 else neg) lim (at_pos (S k')) ERANGE
       else finish v neg lim (at_pos (S k')) errno).
Proof using Hs Hlen.
  intros Hb Hk D.
  assert (Hsc : scan_ok base s k
    (if base =? 10 then scan10 s (hd 0 (drop k s)) (at_pos (S k))
     else if (base & (base - 1)) =? 0 then scan_pow2 base s (hd 0 (drop k s)) (at_pos (S k))
     else scan_any base s (hd 0 (drop k s)) (at_pos (S k)))).
  { destruct (Z.eqb_spec base 10) as [->|]; [by apply scan10_spec|].
    destruct (Z.eqb_spec (base & (base - 1)) 0); [by apply scan_pow2_spec|by apply scan_any_spec]. }
  unfold scan_digits. destruct Hsc as (y & k1 & Hr & Hk1 & Hskip & Hy & Hstop).
  fold D in Hskip, Hstop. pose proof (hd_range k1) as Hc1.
  assert (Hfin : exists k', skip D (drop k s) = drop k' s /\ (k <= k' <= length s)%nat /\
    (if val (hd 0 (drop k1 s)) <? base
     then '(_, c, f) ← scan (S (length s)) (fun _ c => val c <? base) (fun a _ => a) s 0
                           (hd 0 (drop k1 s)) (at_pos (S k1));
          Some (finish lim (if negb ((lim & 1) =? 0) then 0 else neg) lim f ERANGE)
     else Some (finish y neg lim (at_pos (S k1)) errno)) = Some
      (let v := number base (span D (drop k s)) in
       if v >? ULLONG_MAX
       then finish lim (if negb ((lim & 1) =? 0) then 0 else neg) lim (at_pos (S k')) ERANGE
       else finish v neg lim (at_pos (S k')) errno)).
  { rewrite val_digit by done. fold (D (hd 0 (drop k1 s))).
    change (if D (hd 0 (drop k1 s)) then number base (span D (drop k s)) > ULLONG_MAX
            else number base (span D (drop k s)) = y /\ skip D (drop k s) = drop k1 s) in Hstop.
    destruct (D (hd 0 (drop k1 s))).
    - destruct (consume (fun c => val c <? base) k1 0 (S (length s))) as (a & k2 & -> & Hk2 & Hsk2);
        [by apply Z.ltb_ge; change (val 0) with 255; lia|lia|lia|].
      exists k2. rewrite <- Hskip. split_and!; [|lia|lia|].
      + rewrite <- Hsk2. pose proof (cstr_drop s k1 Hs) as Hds. clear -Hds.
        induction Hds as [|c l Hc _ IH]; [done|]. cbn [skip]. cbv beta in Hc.
        unfold D at 1. rewrite val_digit by lia. by rewrite IH.
      + cbn [mbind option_bind]. cbv zeta. by rewrite (proj2 (Z.gtb_lt _ _)) by lia.
    - destruct Hstop as [Hv Hsk]. exists k1. split_and!; [done|lia|lia|]. cbv zeta. rewrite Hv.
      rewrite Z.gtb_ltb, (proj2 (Z.ltb_ge _ _)) by lia. done. }
  destruct (base =? 10) eqn:E10.
  - rewrite Hr. cbn [mbind option_bind]. apply Z.eqb_eq in E10.
    destruct (dec_digit _ Hc1) as [Hu _].
    replace (u32 (hd 0 (drop k1 s) - 48) >=? 10) with (negb (digit (hd 0 (drop k1 s)) <? 10))
      by (rewrite <- Hu, Z.geb_leb, Z.ltb_antisym, negb_involutive; done).
    destruct Hfin as (k' & H1 & H2 & H3). exists k'. split_and!; [done|lia|lia|].
    refine (eq_trans _ H3). rewrite val_digit, E10 by done. by destruct (digit (hd 0 (drop k1 s)) <? 10).
  - rewrite Hr. cbn [mbind option_bind]. exact Hfin.
Qed.
End intscan.

(** How a value leaves [__intscan]. *)
Lemma finish_spec v neg lim k errno : (neg = 0 \/ neg = -1) -> 0 <= v <= ULLONG_MAX ->
  finish v neg lim (at_pos (S k)) errno =
    (if v >=? lim then
       if ((lim & 1) =? 0) && (neg =? 0) then (lim - 1, at_pos k, ERANGE)
       else if v >? lim then (lim, at_pos k, ERANGE)
       else (u64 (if neg =? 0 then v else - v), at_pos k, errno)
     else (u64 (if neg =? 0 then v else - v), at_pos k, errno)).
Proof.
  intros Hn Hv. unfold finish. rewrite shunget_spec.
  replace (u64 ((v ^^ u64 neg) - neg)) with (u64 (if neg =? 0 then v else - v)); [done|].
  destruct Hn as [-> | ->]; cbn [Z.eqb].
  - change (u64 0) with 0. by rewrite Z.lxor_0_r, Z.sub_0_r.
  - change (u64 (-1)) with (Z.ones 64).
    assert (Hx : v ^^ Z.ones 64 = Z.ones 64 - v).
    { assert (Hb : forall i, 64 <= i -> Z.testbit v i = false).
      { intros i Hi. apply (testbit_above 64); [unfold ULLONG_MAX in Hv; lia|done]. }
      assert (Hd : Z.ldiff v (Z.ones 64) = 0).
      { apply Z.bits_inj'. intros i Hi. rewrite Z.ldiff_spec, Z.bits_0.
        destruct (decide (i < 64)); [by rewrite Z.ones_spec_low, andb_false_r by lia|by rewrite Hb by lia]. }
      rewrite (Z.sub_nocarry_ldiff (Z.ones 64) v Hd). apply Z.bits_inj'. intros i Hi.
      rewrite Z.lxor_spec, Z.ldiff_spec. destruct (decide (i < 64)).
      - by rewrite Z.ones_spec_low, xorb_true_r by lia.
      - by rewrite Z.ones_spec_high, Hb by lia. }
    rewrite Hx, Z.ones_equiv. unfold u64, ULLONG_MAX in *. mlia.
Qed.

(** ** The parse as positions in the string *)
Lemma sign_spec s j :
  sign (drop j s) =
    (hd 0 (drop j s) =? 45,
     drop (if (hd 0 (drop j s) =? 43) || (hd 0 (drop j s) =? 45) then S j else j) s).
Proof.
  assert (Ht : forall c r, drop j s = c :: r -> drop (S j) s = r).
  { intros c r Hd. by rewrite <- Nat.add_1_r, <- drop_drop, Hd. }
  destruct (drop j s) as [|c r] eqn:Hd; cbn [hd].
  { cbn [Z.eqb orb]. by rewrite Hd. }
  unfold sign. destruct (Z.eqb_spec c 45) as [->|H45]; [by rewrite orb_true_r, (Ht 45 r)|].
  rewrite orb_false_r. destruct (Z.eqb_spec c 43) as [->|H43]; [by rewrite (Ht 43 r)|].
  rewrite Hd. destruct c as [|p|p]; try done.
  do 6 (destruct p as [p|p|]; try done).
Qed.

(** The value and [errno] for a sign and a magnitude. *)
Definition fin1 (lim : Z) (neg : bool) (v errno : Z) : Z * Z :=
  if v >=? lim then
    if ((lim & 1) =? 0) && negb neg then (lim - 1, ERANGE)
    else if v >? lim then (lim, ERANGE)
    else (u64 (if neg then - v else v), errno)
  else (u64 (if neg then - v else v), errno).
Definition fin (lim : Z) (neg : bool) (v errno : Z) : Z * Z :=
  if v >? ULLONG_MAX
  then fin1 lim (if negb ((lim & 1) =? 0) then false else neg) lim ERANGE
  else fin1 lim neg v errno.

Section whole.
Context (s : list Z) (Hs : cstr s) (Hlen : Z.of_nat (length s) < 2 ^ 63 - 1).
Context (lim : Z) (Hlim : 0 < lim <= ULLONG_MAX).

Lemma scan_digits_fin base neg k errno : 2 <= base <= 36 -> (k <= length s)%nat ->
  let D := fun c => digit c <? base in
  exists k', skip D (drop k s) = drop k' s /\ (k <= k' <= length s)%nat /\
    scan_digits base (- b2z neg) lim s (hd 0 (drop k s)) (at_pos (S k)) errno = Some
      (let '(r, e) := fin lim neg (number base (span D (drop k s))) errno in (r, at_pos k', e)).
Proof using Hs Hlen Hlim.
  intros Hb Hk D. destruct (scan_digits_spec s Hs Hlen base (- b2z neg) lim k errno Hb Hk)
    as (k' & H1 & H2 & ->). fold D in H1 |- *. exists k'. split_and!; [done|lia|lia|]. f_equal.
  cbv zeta. unfold fin. set (v := number base (span D (drop k s))).
  assert (Hv : 0 <= v).
  { assert (Hsp : Forall (fun c => 0 <= digit c) (span D (drop k s))).
    { pose proof (cstr_digits _ (cstr_drop s k Hs)) as Hf.
      rewrite (span_skip D (drop k s)), Forall_app in Hf. apply Hf. }
    apply (number_app base Hb [] _ Hsp). done. }
  clearbody v. destruct (Z.gtb_spec v ULLONG_MAX) as [Hg|Hle].
  - rewrite finish_spec; [|destruct neg, (negb _); auto|lia].
    unfold fin1. destruct neg, ((lim & 1) =? 0); cbn [negb b2z andb];
      change (- (1) =? 0) with false; change (- 0 =? 0) with true; change (0 =? 0) with true;
      by repeat case_match.
  - rewrite finish_spec; [|destruct neg; auto|lia].
    unfold fin1. destruct neg; cbn [negb b2z];
      change (- (1) =? 0) with false; change (- 0 =? 0) with true; by repeat case_match.
Qed.

(** The result of [strtox] as [parse] defines it. *)
Definition strtox_result (base errno : Z) : Z * Z * Z :=
  match parse s base with
  | None => (0, 0, EINVAL)
  | Some (neg, v, rest) =>
      let '(r, e) := fin lim neg v errno in (r, Z.of_nat (length s - length rest), e)
  end.

Definition stage_ok (base : Z) (neg : bool) (k : nat) (errno : Z) (r : option (Z * FILE * Z)) : Prop :=
  exists y f e, r = Some (y, f, e) /\
  match parse_at base neg (drop k s) with
  | None => y = 0 /\ shcnt_ f = 0 /\ e = EINVAL
  | Some (neg, v, rest) =>
      (y, e) = fin lim neg v errno /\ exists k', rest = drop k' s /\ (k' <= length s)%nat /\ f = at_pos k'
  end.

(** A scan of digits at [k'], when the parse at [k] finds those digits. *)
Lemma digits_stage base base' neg k k' errno : 2 <= base' <= 36 -> (k' <= length s)%nat ->
  parse_at base neg (drop k s) =
    Some (neg, number base' (span (fun c => digit c <? base') (drop k' s)),
          skip (fun c => digit c <? base') (drop k' s)) ->
  stage_ok base neg k errno
    (scan_digits base' (- b2z neg) lim s (hd 0 (drop k' s)) (at_pos (S k')) errno).
Proof using Hs Hlen Hlim.
  intros Hb Hk Hp. unfold stage_ok. rewrite Hp.
  destruct (scan_digits_fin base' neg k' errno Hb Hk) as (k2 & H1 & H2 & ->).
  destruct (fin lim neg _ errno) as [r e]. exists r, (at_pos k2), e. split_and!; try done.
  exists k2. split_and!; [done|lia|done].
Qed.

(** From the test for a prefix on, at position [k]. *)
Definition prefix_stage (base neg errno : Z) (c : Z) (f : FILE) : option (Z * FILE * Z) :=
  if ((base =? 0) || (base =? 16)) && (c =? 48) then
    '(c, f) ← shgetc s f;
    if (c .| 32) =? 120 then
      '(c, f) ← shgetc s f;
      if val c >=? 16 then
        let f := shunget f in
        Some (0, if true then shunget f else __shlim f 0, errno)
      else scan_digits 16 neg lim s c f errno
    else scan_digits (if base =? 0 then 8 else base) neg lim s c f errno
  else
    let base := if base =? 0 then 10 else base in
    if val c >=? base then Some (0, __shlim (shunget f) 0, EINVAL)
    else scan_digits base neg lim s c f errno.

Lemma is_x c : 0 <= c < 256 -> ((c .| 32) =? 120) = (c =? 120) || (c =? 88).
Proof.
  intros Hc. apply eqb_true_iff. revert c Hc.
  apply (byte_forall (fun c => Bool.eqb ((c .| 32) =? 120) ((c =? 120) || (c =? 88)))). by vm_compute.
Qed.

Lemma drop_hd k : (hd 0 (drop k s) <> 0) -> drop k s = hd 0 (drop k s) :: drop (S k) s /\ (S k <= length s)%nat.
Proof.
  destruct (drop k s) as [|c r] eqn:Hd; [done|]. intros _. cbn [hd]. split.
  - by rewrite <- Nat.add_1_r, <- drop_drop, Hd.
  - apply (f_equal length) in Hd. rewrite length_drop in Hd. simpl in Hd. lia.
Qed.

Lemma has_hex_drop k : has_hex (drop k s) =
  (hd 0 (drop k s) =? 48) && ((hd 0 (drop (S k) s) =? 120) || (hd 0 (drop (S k) s) =? 88))
    && (digit (hd 0 (drop (S (S k)) s)) <? 16).
Proof.
  unfold has_hex. rewrite !drop_drop. by rewrite !Nat.add_succ_r, Nat.add_0_r.
Qed.

(** A leading zero counts as a digit when there is no prefix. *)
Lemma zero_prefix base neg k b' : hd 0 (drop k s) = 48 ->
  has_hex (drop k s) && ((base =? 0) || (base =? 16)) = false ->
  b' = (if base =? 0 then 8 else base) -> 2 <= b' <= 36 ->
  parse_at base neg (drop k s) =
    Some (neg, number b' (span (fun c => digit c <? b') (drop (S k) s)),
          skip (fun c => digit c <? b') (drop (S k) s)).
Proof.
  intros H48 Hh Hb' Hb. unfold parse_at. rewrite Hh, H48. change (48 =? 48) with true. cbv iota zeta.
  rewrite <- Hb'. destruct (drop_hd k) as [-> _]; [lia|]. rewrite H48. cbn [span skip].
  change (digit 48) with 0. rewrite (proj2 (Z.ltb_lt 0 b')) by lia. unfold number. cbn [foldl].
  change (digit 48) with 0. by replace (0 * b' + 0) with 0 by lia.
Qed.

Lemma prefix_spec base neg k errno : base_ok base = true -> (k <= length s)%nat ->
  stage_ok base neg k errno
    (prefix_stage base (- b2z neg) errno (hd 0 (drop k s)) (at_pos (S k))).
Proof using Hs Hlen Hlim.
  intros Hb Hk. unfold prefix_stage. pose proof (hd_range s Hs k) as Hc0.
  pose proof (has_hex_drop k) as Hhex. unfold base_ok in Hb.
  destruct (((base =? 0) || (base =? 16)) && (hd 0 (drop k s) =? 48)) eqn:Hpre.
  - apply andb_true_iff in Hpre as [Hb16 H48]. rewrite H48 in Hhex. apply Z.eqb_eq in H48.
    destruct (drop_hd k) as [Hd1 Hk1]; [lia|]. cbn [andb] in Hhex.
    rewrite shgetc_spec by done. cbn [mbind option_bind].
    pose proof (hd_range s Hs (S k)) as Hc1. rewrite is_x by done.
    set (b' := if base =? 0 then 8 else base).
    assert (Hb' : 2 <= b' <= 36) by (subst b'; destruct (Z.eqb_spec base 0); lia).
    destruct ((hd 0 (drop (S k) s) =? 120) || (hd 0 (drop (S k) s) =? 88)) eqn:Hx; cbn [andb] in Hhex.
    + destruct (drop_hd (S k)) as [Hd2 Hk2]; [lia|]. rewrite shgetc_spec by done. cbn [mbind option_bind].
      pose proof (hd_range s Hs (S (S k))) as Hc2. rewrite val_digit by done.
      rewrite Z.geb_leb. destruct (Z.leb_spec 16 (digit (hd 0 (drop (S (S k)) s)))) as [Hge|Hlt].
      * rewrite (proj2 (Z.ltb_ge _ _)) in Hhex by done.
        cbv zeta iota. rewrite !shunget_spec. exists 0, (at_pos (S k)), errno. split; [done|].
        rewrite (zero_prefix base neg k b') by (done || by rewrite Hhex).
        rewrite Hd2. cbn [span skip].
        assert (Hx33 : digit (hd 0 (drop (S k) s)) = 33).
        { assert (Hor : hd 0 (drop (S k) s) = 120 \/ hd 0 (drop (S k) s) = 88) by lia.
          by destruct Hor as [-> | ->]. }
        assert (Hbx : b' <= 16) by (subst b'; destruct (Z.eqb_spec base 0); lia).
        rewrite Hx33, (proj2 (Z.ltb_ge 33 b')) by lia. split.
        -- unfold number, fin, fin1. cbn [foldl].
           rewrite Z.gtb_ltb, (proj2 (Z.ltb_ge _ _)) by (unfold ULLONG_MAX; lia).
           rewrite Z.geb_leb, (proj2 (Z.leb_gt _ _)) by lia. by destruct neg.
        -- exists (S k). split_and!; [by rewrite <- Hd2|lia|done].
      * rewrite (proj2 (Z.ltb_lt _ _)) in Hhex by done. apply digits_stage; [lia|done|].
        unfold parse_at. rewrite Hhex, Hb16. cbn [andb]. rewrite drop_drop, Nat.add_succ_r, Nat.add_1_r.
        replace (if base =? 0 then 16 else base) with 16
          by (destruct (Z.eqb_spec base 0); lia). cbv zeta iota.
        destruct (drop (S (S k)) s) as [|c r]; cbn [hd] in *; [done|].
        cbn [span]. by rewrite (proj2 (Z.ltb_lt _ _)) by done.
    + apply digits_stage; [done|done|]. apply zero_prefix; [done|by rewrite Hhex|done|done].
  - assert (Hnh : has_hex (drop k s) && ((base =? 0) || (base =? 16)) = false).
    { rewrite Hhex. destruct ((base =? 0) || (base =? 16)); [|by rewrite andb_false_r].
      cbn [andb] in Hpre. by rewrite Hpre. }
    set (b' := if base =? 0 then 10 else base).
    assert (Hb' : 2 <= b' <= 36) by (subst b'; destruct (Z.eqb_spec base 0); lia).
    assert (Hp : parse_at base neg (drop k s) =
      match span (fun c => digit c <? b') (drop k s) with
      | [] => None
      | ds => Some (neg, number b' ds, skip (fun c => digit c <? b') (drop k s))
      end).
    { unfold parse_at. rewrite Hnh. subst b'. destruct (Z.eqb_spec base 0) as [->|]; [|done].
      cbn [orb andb] in Hpre. by rewrite Hpre. }
    cbv zeta. fold b'. rewrite val_digit, Z.geb_leb by done.
    destruct (Z.leb_spec b' (digit (hd 0 (drop k s)))) as [Hge|Hlt].
    + rewrite shunget_spec. eexists _, _, _. split; [done|]. rewrite Hp.
      replace (span (fun c => digit c <? b') (drop k s)) with (@nil Z).
      * split_and!; [done| |done]. unfold shcnt_, __shlim, at_pos. cbn [rpos rend shcnt]. lia.
      * destruct (drop k s) as [|c r]; [done|]. cbn [hd span] in *.
        by rewrite (proj2 (Z.ltb_ge _ _)).
    + apply digits_stage; [done|done|]. rewrite Hp.
      destruct (drop k s) as [|c r]; cbn [hd span] in *.
      * change (digit 0) with 255 in Hlt. lia.
      * by rewrite (proj2 (Z.ltb_lt _ _)).
Qed.

Lemma u32_base base : - 2 ^ 31 <= base < 2 ^ 31 ->
  if base_ok base then u32 base = base /\ (base >? 36) = false /\ (base =? 1) = false
  else (u32 base >? 36) || (u32 base =? 1) = true.
Proof.
  intros Hb. unfold base_ok, u32. destruct ((base =? 0) || (2 <=? base) && (base <=? 36)) eqn:E.
  - rewrite Z.mod_small by lia. lia.
  - destruct (decide (0 <= base)); [rewrite Z.mod_small by lia; lia|].
    replace (base mod 2 ^ 32) with (base + 2 ^ 32) by mlia. lia.
Qed.

(** The sign, and the position after it. *)
Lemma sign_stage k1 : (k1 <= length s)%nat ->
  let c := hd 0 (drop k1 s) in
  exists k2, (k2 <= length s)%nat /\ sign (drop k1 s) = (c =? 45, drop k2 s) /\
    (if (c =? 43) || (c =? 45) then
       '(c', f) ← shgetc s (at_pos (S k1)); Some (- b2z (c =? 45), c', f)
     else Some (0, c, at_pos (S k1))) =
    Some (- b2z (c =? 45), hd 0 (drop k2 s), at_pos (S k2)).
Proof using Hs Hlen.
  intros Hk1 c. rewrite sign_spec. fold c.
  destruct ((c =? 43) || (c =? 45)) eqn:Hsg.
  - destruct (drop_hd k1) as [_ Hk2]; [fold c; lia|]. exists (S k1). split_and!; [done|done|].
    by rewrite shgetc_spec.
  - exists k1. split_and!; [done|done|]. fold c.
    apply orb_false_iff in Hsg as [_ ->]. done.
Qed.

Lemma strtox_spec base errno : - 2 ^ 31 <= base < 2 ^ 31 ->
  strtox s base lim errno =
    Some (if base_ok base then strtox_result base errno else (0, 0, EINVAL)).
Proof using Hs Hlen Hlim.
  intros Hb. pose proof (u32_base base Hb) as Hu. unfold strtox, __intscan.
  destruct (base_ok base) eqn:Hok; [destruct Hu as (-> & -> & ->)|by rewrite Hu].
  cbn [orb]. change string_file with (at_pos 0).
  rewrite shgetc_spec by lia. cbn [mbind option_bind].
  destruct (consume s Hs Hlen isspace 0 0 (S (length s))) as (a & k1 & -> & Hk1 & Hsk);
    [done|lia|lia|]. cbn [mbind option_bind]. rewrite drop_0 in Hsk.
  destruct (sign_stage k1) as (k2 & Hk2 & Hsign & ->); [lia|]. cbn [mbind option_bind].
  set (neg := hd 0 (drop k1 s) =? 45) in *.
  destruct (prefix_spec base neg k2 errno Hok Hk2) as (y & f & e & Hst & Hres).
  unfold prefix_stage in Hst. rewrite Hst. cbn [mbind option_bind]. f_equal. unfold strtox_result.
  unfold parse. rewrite Hsk, Hsign. cbv iota beta. destruct (parse_at base neg (drop k2 s)) as [[[ng v] rest]|].
  - destruct Hres as (Hf & k' & -> & Hk' & ->). rewrite <- Hf. rewrite length_drop. repeat f_equal.
    unfold shcnt_, at_pos. cbn [rpos rend shcnt]. rewrite u64_id by lia. lia.
  - by destruct Hres as (-> & -> & ->).
Qed.
End whole.

(** ** Properties *)

Lemma parse_nonneg s base neg v rest :
  cstr s -> base_ok base = true -> parse s base = Some (neg, v, rest) -> 0 <= v.
Proof.
  intros Hs Hb. unfold parse. destruct (sign (skip isspace s)) as [ng r] eqn:Hsg.
  assert (Hr : cstr r).
  { destruct (skip_drop isspace s 0) as (k & Hk & _). rewrite drop_0 in Hk. rewrite Hk, sign_spec in Hsg.
    injection Hsg as _ <-. by apply cstr_drop. }
  unfold parse_at. set (hex := has_hex r && _).
  set (b := if base =? 0 then _ else base). set (r' := if hex then drop 2 r else r).
  assert (Hr' : cstr r') by (subst r'; destruct hex; [by apply cstr_drop|done]).
  assert (Hb' : 2 <= b <= 36).
  { subst b. unfold base_ok in Hb. destruct (Z.eqb_spec base 0); [destruct hex; [lia|]; case_match; lia|lia]. }
  assert (Hsp : Forall (fun c => 0 <= digit c) (span (fun c => digit c <? b) r')).
  { pose proof (cstr_digits _ Hr') as Hf. rewrite (span_skip (fun c => digit c <? b) r'), Forall_app in Hf.
    apply Hf. }
  destruct (span _ r') as [|d ds] eqn:E; [done|]. intros [= <- <- <-].
  by apply (number_app b Hb' [] (d :: ds) Hsp).
Qed.

Lemma strto_of_fin s base errno lim conv (post : Z -> Z) :
  cstr s -> Z.of_nat (length s) < 2 ^ 63 - 1 -> 0 < lim <= ULLONG_MAX -> - 2 ^ 31 <= base < 2 ^ 31 ->
  post 0 = 0 ->
  (forall neg v, 0 <= v -> (post (fin lim neg v errno).1, (fin lim neg v errno).2) =
     ((conv neg v).1, if (conv neg v).2 : bool then ERANGE else errno)) ->
  ('(y, p, e) ← strtox s base lim errno; Some (post y, p, e)) = Some (strto conv s base errno).
Proof.
  intros Hs Hlen Hlim Hb H0 Hconv. rewrite strtox_spec by done. cbn [mbind option_bind]. f_equal.
  unfold strto. destruct (base_ok base) eqn:Hok; cbn [negb]; [|by rewrite H0].
  unfold strtox_result. destruct (parse s base) as [[[neg v] rest]|] eqn:Hp; [|by rewrite H0].
  apply parse_nonneg in Hp; [|done|done].
  specialize (Hconv neg v Hp). destruct (fin lim neg v errno) as [r e], (conv neg v) as [r' g].
  cbn [fst snd] in Hconv. by injection Hconv as -> ->.
Qed.

Lemma fin_unsigned errno neg v : 0 <= v ->
  ((fin ULLONG_MAX neg v errno).1, (fin ULLONG_MAX neg v errno).2) =
  ((to_unsigned neg v).1, if (to_unsigned neg v).2 : bool then ERANGE else errno).
Proof.
  intros Hv. unfold fin, fin1, to_unsigned. change ((ULLONG_MAX & 1) =? 0) with false. cbn [negb andb].
  destruct (Z.gtb_spec v ULLONG_MAX) as [|Hle]; [done|].
  by destruct (v >=? ULLONG_MAX).
Qed.

Lemma s64_wrap z : s64 (u64 z) = s64 z.
Proof. unfold s64, u64. rewrite Zplus_mod_idemp_l. done. Qed.

Lemma fin_signed errno neg v : 0 <= v ->
  (s64 (fin (u64 LLONG_MIN) neg v errno).1, (fin (u64 LLONG_MIN) neg v errno).2) =
  ((to_signed neg v).1, if (to_signed neg v).2 : bool then ERANGE else errno).
Proof.
  intros Hv. unfold fin, fin1, to_signed. change (u64 LLONG_MIN) with (2 ^ 63).
  change ((2 ^ 63 & 1) =? 0) with true. cbn [negb andb]. unfold ULLONG_MAX, LLONG_MAX, LLONG_MIN.
  destruct (Z.gtb_spec v 18446744073709551615) as [Hg|Hle].
  - destruct neg; cbn [negb]; cbv beta iota zeta.
    + rewrite (Z.gtb_ltb (- v)), (proj2 (Z.ltb_ge _ (- v))) by lia. by rewrite (proj2 (Z.ltb_lt (- v) _)) by lia.
    + by rewrite (proj2 (Z.gtb_lt v _)) by lia.
  - destruct neg; cbn [negb]; cbv beta iota zeta.
    + rewrite (Z.gtb_ltb (- v)), (proj2 (Z.ltb_ge _ (- v))) by lia. rewrite Z.geb_leb.
      destruct (Z.leb_spec (2 ^ 63) v); [rewrite (Z.gtb_ltb v); destruct (Z.ltb_spec (2 ^ 63) v)|].
      * by rewrite (proj2 (Z.ltb_lt (- v) _)) by lia.
      * rewrite (proj2 (Z.ltb_ge (- v) _)) by lia. cbn [fst snd]. by rewrite s64_wrap, s64_id by lia.
      * rewrite (proj2 (Z.ltb_ge (- v) _)) by lia. cbn [fst snd]. by rewrite s64_wrap, s64_id by lia.
    + rewrite Z.geb_leb, !(Z.gtb_ltb v). destruct (Z.leb_spec (2 ^ 63) v).
      * by rewrite (proj2 (Z.ltb_lt _ v)) by lia.
      * rewrite (proj2 (Z.ltb_ge _ v)), (proj2 (Z.ltb_ge v _)) by lia. cbn [fst snd].
        by rewrite s64_wrap, s64_id by lia.
Qed.

Lemma strtoull_spec s base errno :
  cstr s -> Z.of_nat (length s) < 2 ^ 63 - 1 -> - 2 ^ 31 <= base < 2 ^ 31 ->
  strtoull s base errno = Some (strto to_unsigned s base errno).
Proof.
  intros Hs Hlen Hb. unfold strtoull.
  rewrite <- (strto_of_fin s base errno ULLONG_MAX to_unsigned id); try done.
  - by destruct (strtox s base ULLONG_MAX errno) as [[[y p] e]|].
  - intros neg v Hv. by apply fin_unsigned.
Qed.

(** C22: the [strtol] family conforms to ISO C on every string and base.  White
    space, sign, "0x" and octal prefixes and the longest run of digits are
    recognised as the standard says, the end pointer is exactly behind them (at
    the start when there is no number, after the "0" of a "0x" without digits);
    a value outside the type gives its nearest bound and [ERANGE], for
    [strtoull] the magnitude counts and the sign negates modulo 2^64; an
    invalid base gives 0 and [EINVAL].  The parsers terminate and read nothing
    past the terminator, whatever the number of digits. *)
Theorem strtol_family_correct s base errno :
  cstr s -> Z.of_nat (length s) < 2 ^ 63 - 1 -> - 2 ^ 31 <= base < 2 ^ 31 ->
  strtoull s base errno = Some (strto to_unsigned s base errno) /\
  strtoul s base errno = Some (strto to_unsigned s base errno) /\
  strtoll s base errno = Some (strto to_signed s base errno) /\
  strtol s base errno = Some (strto to_signed s base errno).
Proof.
  intros Hs Hlen Hb.
  split_and!; [by apply strtoull_spec|by apply strtoull_spec|..];
    (apply (strto_of_fin s base errno (u64 LLONG_MIN) to_signed s64); try done;
     intros neg v Hv; by apply fin_signed).
Qed.

(** " -0x80g", the most negative number, and a number with no digits. *)
Lemma strtol_family_correct_witness :
  strtol (str " -0x80g") 0 0 = Some (-128, 6, 0) /\
  strtol (str "-9223372036854775809") 10 0 = Some (LLONG_MIN, 20, ERANGE) /\
  strtol (str "0xg") 16 0 = Some (0, 1, 0).
Proof.
  split_and!.
  - refine (eq_trans (proj2 (proj2 (proj2 (strtol_family_correct (str " -0x80g") 0 0 _ _ _)))) _);
      [by apply (bool_decide_unpack _)|done|lia|done].
  - refine (eq_trans (proj2 (proj2 (proj2
      (strtol_family_correct (str "-9223372036854775809") 10 0 _ _ _)))) _);
      [by apply (bool_decide_unpack _)|done|lia|done].
  - refine (eq_trans (proj2 (proj2 (proj2 (strtol_family_correct (str "0xg") 16 0 _ _ _)))) _);
      [by apply (bool_decide_unpack _)|done|lia|done].
Defined.
