(* ===== verification/CryptHash.v ===== *)
(** What the three digest-based password hashes of src/musl-1.1.19/src/crypt/
    share, and the MD5 one (crypt_md5.c).  The SHA ones are in CryptSha.v.

    The code drives a hash context through loops of [update] calls; the
    theorems say which bytes are hashed in the end.  They are proved against
    [StreamSpec], the interface of the streaming hash functions, so they hold
    for whatever digest implements it.  [option] results: [None] is a null
    pointer. *)
From Stdlib Require Import Strings.String.
From S2P Require Import Prelude CStr Digest Md5.
#[local] Open Scope c_scope.

(** ** Base-64 output *)
Definition b64 : list Z :=
  str "./0123456789ABCDEFGHIJKLMNOPQRSTUVWXYZabcdefghijklmnopqrstuvwxyz".

Fixpoint to64 (u : Z) (n : nat) : list Z :=
  match n with
  | O => []
  | S n => b64 !!! Z.to_nat (u mod 64) :: to64 (u / 64) n
  end.

(** Three digest bytes as four characters, least significant first. *)
Definition group (md : list Z) (p : nat * nat * nat) : list Z :=
  let '(a, b, c) := p in to64 (((md !!! a) << 16) .| ((md !!! b) << 8) .| (md !!! c)) 4.

Section loops.
Context {Ops : StreamOps}.

(** [for (i = n; i > sz; i -= sz) update(md, sz); update(md, i);] *)
Fixpoint hashmd_loop (fuel sz i : nat) (s : ctx) (md : list Z) : ctx :=
  if (sz <? i)%nat then
    match fuel with
    | O => s
    | S fuel => hashmd_loop fuel sz (i - sz) (s_update s (take sz md)) md
    end
  else s_update s (take i md).
Definition hashmd (sz : nat) (s : ctx) (n : nat) (md : list Z) : ctx := hashmd_loop n sz n s md.

(** [for (i = n; i; i >>= 1) if (i & 1) update(one); else update(zero);] *)
Fixpoint hashbits (fuel : nat) (i : Z) (s : ctx) (one zero : list Z) : ctx :=
  match fuel with
  | O => s
  | S fuel =>
      if i =? 0 then s
      else hashbits fuel (i >> 1) (s_update s (if negb ((i & 1) =? 0) then one else zero)) one zero
  end.

(** [for (i = 0; i < n; i++) update(m);] *)
Definition hashrep (n : nat) (s : ctx) (m : list Z) : ctx := Nat.iter n (fun s => s_update s m) s.
End loops.

(** ** crypt_md5.c *)
Definition KEY_MAX : Z := 30000.
Definition SALT_MAX : nat := 8.

(** [for (i = 0; i < SALT_MAX && salt[i] && salt[i] != '$'; i++);] *)
Fixpoint salt_len (max : nat) (salt : list Z) : nat :=
  match max, salt with
  | S max, c :: salt => if c =? 36 then O else S (salt_len max salt)
  | _, _ => O
  end.

Definition md5_perm : list (nat * nat * nat) :=
  [(0, 6, 12); (1, 7, 13); (2, 8, 14); (3, 9, 15); (4, 10, 5)]%nat.

(** "md = f(md, key, salt) iteration", one round. *)
Definition md5_round (key salt : list Z) (st : ctx * list Z) (i : nat) : ctx * list Z :=
  let '(ctx, md) := st in
  let ctx := md5_init ctx in
  let ctx := if (i mod 2 =? 0)%nat then md5_update ctx md else md5_update ctx key in
  let ctx := if (i mod 3 =? 0)%nat then ctx else md5_update ctx salt in
  let ctx := if (i mod 7 =? 0)%nat then ctx else md5_update ctx key in
  let ctx := if (i mod 2 =? 0)%nat then md5_update ctx key else md5_update ctx md in
  md5_sum ctx.

(** [ctx0] is the uninitialised context on the stack. *)
Definition md5crypt (ctx0 : ctx) (key setting : list Z) : option (list Z) :=
  let klen := Z.min (Z.of_nat (length key)) (KEY_MAX + 1) in   (* strnlen *)
  if klen >? KEY_MAX then None
  else if negb (strncmp setting (str "$1$") 3 =? 0) then None
  else
  let key := take (Z.to_nat klen) key in
  let salt := drop 3 setting in
  let slen := salt_len SALT_MAX salt in
  let salt := take slen salt in
  (* md5(key salt key) *)
  let ctx := md5_init ctx0 in
  let ctx := md5_update ctx key in
  let ctx := md5_update ctx salt in
  let ctx := md5_update ctx key in
  let '(ctx, md) := md5_sum ctx in
  (* md5(key $1$ salt repeated-md weird-key[0]-0) *)
  let ctx := md5_init ctx in
  let ctx := md5_update ctx key in
  let ctx := md5_update ctx (take (3 + slen) setting) in
  let ctx := hashmd 16 ctx (Z.to_nat klen) md in
  let md := 0 :: tail md in
  let ctx := hashbits 32 klen ctx (take 1 md) (take 1 key) in
  let '(ctx, md) := md5_sum ctx in
  let '(ctx, md) := foldl (md5_round key salt) (ctx, md) (seq 0 1000) in
  (* output is $1$salt$hash *)
  Some (take (3 + slen) setting ++ [36]
          ++ concat (map (group md) md5_perm) ++ to64 (md !!! 11%nat) 2).

Definition testkey : list Z :=
  str "Xy01@#" ++ [1; 2; 0x80; 0x7f; 0xff; 13; 10; 0x81; 9] ++ str " !".

(** The returned string; both calls happen whatever the first one gives. *)
Definition __crypt_md5 (ctx0 ctx1 : ctx) (key setting : list Z) : list Z :=
  let p := md5crypt ctx0 key setting in
  let q := md5crypt ctx1 testkey (str "$1$abcd0123$") in
  match p with
  | Some p => if bool_decide (q = Some (str "$1$abcd0123$9Qcg8DyviekV3tDGMZynJ1")) then p else str "*"
  | None => str "*"
  end.

(** ** What the loops hash *)

(** The first [n] bytes of the endless repetition of [md]. *)
Definition cyc (n : nat) (md : list Z) : list Z := take n (concat (replicate n md)).

(** The binary digits of a number, least significant first, as bytes. *)
Fixpoint bits (p : positive) : list bool :=
  match p with xH => [true] | xO p => false :: bits p | xI p => true :: bits p end.
Definition alternate (n : Z) (one zero : list Z) : list Z :=
  match n with Zpos p => concat (map (fun b : bool => if b then one else zero) (bits p)) | _ => [] end.

Section fed.
Context {Ops : StreamOps} {bsz : nat} {D : list Z -> list Z} {dlen : nat}.
Context {HS : StreamSpec Ops bsz D dlen}.

(** The context [s] has been initialised from [s0] and has read [m]. *)
Definition fed (s0 s : ctx) (m : list Z) : Prop :=
  exists ps, s = foldl s_update (s_init s0) ps /\ concat ps = m /\ Forall bytes ps.

Lemma fed_init s0 : fed s0 (s_init s0) [].
Proof. by exists []. Qed.

Lemma fed_update s0 s m p : fed s0 s m -> bytes p -> fed s0 (s_update s p) (m ++ p).
Proof.
  intros (ps & -> & <- & Hps) Hp. exists (ps ++ [p]).
  rewrite foldl_app, concat_app. cbn. rewrite app_nil_r. split_and!; [done|done|].
  apply Forall_app. by split; [|constructor].
Qed.

Lemma fed_sum s0 s m : length (buf s0) = bsz -> fed s0 s m ->
  length (buf (s_sum s).1) = bsz /\ (s_sum s).2 = D m /\
  length (s_sum s).2 = dlen /\ bytes (s_sum s).2.
Proof using HS.
  intros Hb (ps & -> & <- & Hps). fold (run s0 ps).
  assert (Hc : bytes (concat ps)) by (by apply Forall_concat).
  rewrite (run_digest s0 ps Hb Hps). split_and!;
    [by apply (run_buf s0 ps)|done|by apply digest_length|by apply digest_bytes].
Qed.

Lemma cyc_step n (md : list Z) : (0 < length md < n)%nat ->
  cyc n md = md ++ cyc (n - length md) md.
Proof.
  intros Hn. unfold cyc. replace n with (S (n - 1)) at 2 by lia. cbn [replicate concat].
  rewrite take_app. rewrite take_ge by lia. f_equal.
  replace (n - 1)%nat with ((n - length md) + (length md - 1))%nat by lia.
  rewrite replicate_add, concat_app, take_app_le; [done|].
  assert (H : forall k, length (concat (replicate k md)) = (k * length md)%nat).
  { clear. intros k. induction k as [|k IH]; [done|]. cbn [replicate concat]. rewrite length_app, IH. lia. }
  rewrite H. nia.
Qed.

Lemma cyc_le n (md : list Z) : (n <= length md)%nat -> cyc n md = take n md.
Proof.
  intros Hn. unfold cyc. destruct n as [|n]; [done|]. cbn [replicate concat].
  by rewrite take_app_le.
Qed.

Lemma cyc_bytes n md : bytes md -> bytes (cyc n md).
Proof. intros H. by apply Forall_take, Forall_concat, Forall_replicate. Qed.

Lemma fed_hashmd s0 s m sz n md : fed s0 s m -> bytes md -> length md = sz -> (0 < sz)%nat ->
  fed s0 (hashmd sz s n md) (m ++ cyc n md).
Proof.
  intros Hf Hmd Hl Hsz. unfold hashmd.
  enough (H : forall fuel i s m, (i <= fuel)%nat -> fed s0 s m ->
            fed s0 (hashmd_loop fuel sz i s md) (m ++ cyc i md)) by (by apply H).
  clear Hf s m n. induction fuel as [|fuel IH]; intros i s m Hi Hf; cbn [hashmd_loop].
  - rewrite (proj2 (Nat.ltb_ge sz i)) by lia. rewrite cyc_le by lia.
    apply fed_update; [done|]. by apply Forall_take.
  - destruct (Nat.ltb_spec sz i) as [Hlt|Hge].
    + rewrite take_ge, cyc_step, app_assoc by lia. rewrite Hl. apply IH; [lia|by apply fed_update].
    + rewrite cyc_le by lia. apply fed_update; [done|]. by apply Forall_take.
Qed.

Lemma fed_hashbits s0 s m fuel n one zero :
  fed s0 s m -> bytes one -> bytes zero -> 0 <= n < 2 ^ Z.of_nat fuel ->
  fed s0 (hashbits fuel n s one zero) (m ++ alternate n one zero).
Proof.
  intros Hf H1 H0. revert n s m Hf. induction fuel as [|fuel IH]; intros n s m Hf Hn.
  - replace n with 0 by (simpl in Hn; lia). by rewrite app_nil_r.
  - rewrite Nat2Z.inj_succ, Z.pow_succ_r in Hn by lia. cbn [hashbits].
    destruct n as [|p|p]; [by rewrite app_nil_r| |lia]. change (Z.pos p =? 0) with false. cbv iota.
    destruct p as [p|p|].
    + change (negb ((Z.pos p~1 & 1) =? 0)) with true. cbn [alternate bits map concat].
      rewrite app_assoc. apply (IH (Zpos p)); [by apply fed_update|lia].
    + change (negb ((Z.pos p~0 & 1) =? 0)) with false. cbn [alternate bits map concat].
      rewrite app_assoc. apply (IH (Zpos p)); [by apply fed_update|lia].
    + change (negb ((1 & 1) =? 0)) with true. cbn [alternate bits map concat].
      rewrite app_assoc. apply (IH 0); [by apply fed_update|lia].
Qed.

Lemma fed_hashrep s0 s m n p : fed s0 s m -> bytes p ->
  fed s0 (hashrep n s p) (m ++ concat (replicate n p)).
Proof.
  intros Hf Hp. induction n as [|n IH]; [by rewrite app_nil_r|].
  rewrite replicate_S_end, concat_app, app_assoc. cbn [concat]. rewrite app_nil_r.
  by apply fed_update.
Qed.

(** An optional update. *)
Lemma fed_if (b : bool) s0 s m p : fed s0 s m -> bytes p ->
  fed s0 (if b then s else s_update s p) (m ++ if b then [] else p).
Proof. intros Hf Hp. destruct b; [by rewrite app_nil_r|by apply fed_update]. Qed.

Lemma fed_choose (b : bool) s0 s m p q : fed s0 s m -> bytes p -> bytes q ->
  fed s0 (if b then s_update s p else s_update s q) (m ++ if b then p else q).
Proof. intros Hf Hp Hq. by destruct b; apply fed_update. Qed.
End fed.

(** ** The MD5 password hash *)
#[local] Opaque md5_init md5_update md5_sum.

(** The hash as a function of the digest function [D]. *)
Definition md5_step (D : list Z -> list Z) (key salt md : list Z) (i : nat) : list Z :=
  D ((if (i mod 2 =? 0)%nat then md else key) ++ (if (i mod 3 =? 0)%nat then [] else salt)
       ++ (if (i mod 7 =? 0)%nat then [] else key) ++ (if (i mod 2 =? 0)%nat then key else md)).

Definition md5_password (D : list Z -> list Z) (key salt : list Z) : list Z :=
  let klen := length key in
  let b := D (key ++ salt ++ key) in
  let a := D (key ++ str "$1$" ++ salt ++ cyc klen b
                ++ alternate (Z.of_nat klen) [0] (take 1 key)) in
  let md := foldl (md5_step D key salt) a (seq 0 1000) in
  str "$1$" ++ salt ++ [36] ++ concat (map (group md) md5_perm) ++ to64 (md !!! 11%nat) 2.

(** The salt of a setting: at most [max] characters, up to a dollar sign. *)
Definition salt_of (max : nat) (s : list Z) : list Z := take (salt_len max s) s.

Lemma cstr_bytes s : cstr s -> bytes s.
Proof. intros H. eapply Forall_impl; [|exact H]. cbv beta. unfold byte. lia. Qed.

Lemma md5_rounds key salt n s0 md : bytes key -> bytes salt ->
  length (buf s0) = 64%nat -> bytes md ->
  length (buf (foldl (md5_round key salt) (s0, md) (seq 0 n)).1) = 64%nat /\
  bytes (foldl (md5_round key salt) (s0, md) (seq 0 n)).2 /\
  (foldl (md5_round key salt) (s0, md) (seq 0 n)).2 = foldl (md5_step rfc_digest key salt) md (seq 0 n).
Proof.
  intros Hk Hs Hb Hmd. induction n as [|n IH]; [done|]. rewrite seq_S, !foldl_app. cbn [foldl].
  destruct (foldl (md5_round key salt) (s0, md) (seq 0 n)) as [s m].
  cbn [fst snd] in IH. destruct IH as (Hb' & Hm & ->). cbn [Nat.add].
  set (m' := foldl _ md (seq 0 n)) in *. unfold md5_round.
  pose proof (fed_init (Ops := md5_ops) s) as H0.
  apply (fed_choose (n mod 2 =? 0)%nat _ _ _ m' key) in H0; [|done|done].
  apply (fed_if (n mod 3 =? 0)%nat _ _ _ salt) in H0; [|done].
  apply (fed_if (n mod 7 =? 0)%nat _ _ _ key) in H0; [|done].
  apply (fed_choose (n mod 2 =? 0)%nat _ _ _ key m') in H0; [|done|done].
  destruct (fed_sum (HS := md5_spec) _ _ _ Hb' H0) as (H1 & H2 & _ & H3).
  split_and!; [exact H1|exact H3|]. etransitivity; [exact H2|]. unfold md5_step.
  by rewrite app_nil_l, <- !app_assoc.
Qed.

Lemma cstr_str_dollar : cstr (str "$1$").
Proof. by apply (bool_decide_unpack _). Qed.

Lemma take_prefix (p s : list Z) n : take (length p) s = p ->
  take (length p + n) s = p ++ take n (drop (length p) s).
Proof. intros Hp. rewrite <- Hp at 2. by rewrite take_take_drop. Qed.

Lemma salt_len_le max s : (salt_len max s <= max)%nat.
Proof.
  revert s. induction max as [|max IH]; intros [|c s]; cbn [salt_len]; try lia.
  case_match; [lia|]. specialize (IH s). lia.
Qed.

Lemma md5crypt_spec ctx0 key setting :
  cstr key -> cstr setting -> length (buf ctx0) = 64%nat ->
  md5crypt ctx0 key setting =
    if (Z.of_nat (length key) <=? KEY_MAX) && bool_decide (take 3 setting = str "$1$")
    then Some (md5_password rfc_digest key (salt_of SALT_MAX (drop 3 setting))) else None.
Proof.
  intros Hk Hs Hb. unfold md5crypt, KEY_MAX.
  destruct (Z.leb_spec (Z.of_nat (length key)) 30000) as [Hle|Hgt]; cbn [andb].
  2: { by rewrite Z.gtb_ltb, (proj2 (Z.ltb_lt _ _)) by lia. }
  rewrite Z.gtb_ltb, (proj2 (Z.ltb_ge _ _)), Z.min_l by lia.
  pose proof (strncmp_prefix setting (str "$1$") Hs cstr_str_dollar) as Hp.
  change (length (str "$1$")) with 3%nat in Hp. rewrite Hp. clear Hp.
  case_bool_decide as Hpre; cbn [negb]; [|done].
  rewrite Nat2Z.id, take_ge by done.
  change (take (salt_len SALT_MAX (drop 3 setting)) (drop 3 setting)) with (salt_of SALT_MAX (drop 3 setting)).
  pose proof (take_prefix (str "$1$") setting (salt_len SALT_MAX (drop 3 setting)) Hpre) as Ht.
  change (length (str "$1$")) with 3%nat in Ht. rewrite Ht. fold (salt_of SALT_MAX (drop 3 setting)).
  assert (Hsalt : bytes (salt_of SALT_MAX (drop 3 setting))).
  { by apply Forall_take, cstr_bytes, cstr_drop. }
  apply cstr_bytes in Hk. clear Ht Hpre. revert Hsalt. generalize (salt_of SALT_MAX (drop 3 setting)).
  intros salt Hsalt.
  (* md5(key salt key) *)
  pose proof (fed_init (Ops := md5_ops) ctx0) as H0.
  apply (fed_update _ _ _ key) in H0; [|done]. apply (fed_update _ _ _ salt) in H0; [|done].
  apply (fed_update _ _ _ key) in H0; [|done].
  destruct (fed_sum (HS := md5_spec) _ _ _ Hb H0) as (Hb1 & H1 & Hl1 & Hmd1). clear H0.
  change (@s_sum md5_ops) with md5_sum in *. change (@s_update md5_ops) with md5_update in *.
  change (@s_init md5_ops) with md5_init in *.
  destruct (md5_sum (md5_update (md5_update (md5_update (md5_init ctx0) key) salt) key)) as [ctx1 b].
  cbn [fst snd] in *.
  (* md5(key $1$ salt ...) *)
  pose proof (fed_init (Ops := md5_ops) ctx1) as H2.
  apply (fed_update _ _ _ key) in H2; [|done].
  apply (fed_update _ _ _ (str "$1$" ++ salt)) in H2.
  2: { apply Forall_app. split; [apply cstr_bytes, cstr_str_dollar|done]. }
  apply (fed_hashmd _ _ _ 16 (length key) b) in H2; [|done|done|lia].
  assert (Htl : take 1 (0 :: tail b) = [0]) by done. rewrite Htl.
  apply (fed_hashbits _ _ _ 32 (Z.of_nat (length key)) [0] (take 1 key)) in H2;
    [|by repeat constructor|by apply Forall_take|lia].
  destruct (fed_sum (HS := md5_spec) _ _ _ Hb1 H2) as (Hb2 & H3 & _ & Hmd2). clear H2.
  change (@s_sum md5_ops) with md5_sum in *. change (@s_update md5_ops) with md5_update in *.
  change (@s_init md5_ops) with md5_init in *.
  set (ctx2 := hashbits 32 _ _ _ _) in *. clearbody ctx2.
  destruct (md5_sum ctx2) as [ctx3 a]. cbn [fst snd] in *.
  destruct (md5_rounds key salt 1000 ctx3 a Hk Hsalt Hb2 Hmd2) as (_ & _ & Hmd).
  destruct (foldl (md5_round key salt) (ctx3, a) (seq 0 1000)) as [ctx4 md]. cbn [snd] in Hmd. subst md.
  assert (Hb' : b = rfc_digest (key ++ salt ++ key)) by (rewrite H1, app_nil_l, <- app_assoc; reflexivity).
  assert (Ha : a = rfc_digest (key ++ str "$1$" ++ salt ++ cyc (length key) b
                ++ alternate (Z.of_nat (length key)) [0] (take 1 key))).
  { rewrite H3, app_nil_l, <- !app_assoc. reflexivity. }
  rewrite Ha, Hb'. unfold md5_password. rewrite <- (app_assoc (str "$1$") salt). reflexivity.
Qed.

(** ** The result as a setting *)
Lemma to64_cstr u n : cstr (to64 u n).
Proof.
  revert u. induction n as [|n IH]; intros u; constructor; [|apply IH].
  assert (H : (0 <? b64 !!! Z.to_nat (u mod 64)) && (b64 !!! Z.to_nat (u mod 64) <? 256) = true).
  { apply (range_forall 64 (fun v => (0 <? b64 !!! Z.to_nat v) && (b64 !!! Z.to_nat v <? 256)));
      [by vm_compute|]. apply Z.mod_pos_bound. lia. }
  lia.
Qed.

Lemma group_cstr md p : cstr (group md p).
Proof. destruct p as [[a b] c]. apply to64_cstr. Qed.

Lemma groups_cstr md ps : cstr (concat (map (group md) ps)).
Proof. induction ps as [|p ps IH]; [constructor|]. apply Forall_app. split; [apply group_cstr|done]. Qed.

Lemma salt_of_spec max s : Forall (fun c => c <> 36) (salt_of max s) /\ (length (salt_of max s) <= max)%nat.
Proof.
  unfold salt_of. split; [|rewrite length_take; pose proof (salt_len_le max s); lia].
  revert s. induction max as [|max IH]; intros [|c s]; cbn [salt_len]; try by constructor.
  destruct (Z.eqb_spec c 36); [constructor|]. cbn [take]. by constructor.
Qed.

Lemma salt_of_app max salt r : Forall (fun c => c <> 36) salt -> (length salt <= max)%nat ->
  salt_of max (salt ++ 36 :: r) = salt.
Proof.
  intros H. revert max. induction H as [|c salt Hc _ IH]; intros max Hl; unfold salt_of in *.
  - by destruct max.
  - destruct max as [|max]; [simpl in Hl; lia|]. cbn [app salt_len].
    rewrite (proj2 (Z.eqb_neq c 36)) by done. cbn [take]. f_equal. apply IH. simpl in Hl. lia.
Qed.

(** A setting and a computed hash select the same salt. *)
Lemma md5_password_salt D key salt :
  Forall (fun c => c <> 36) salt -> (length salt <= SALT_MAX)%nat -> cstr salt ->
  cstr (md5_password D key salt) /\ take 3 (md5_password D key salt) = str "$1$" /\
  salt_of SALT_MAX (drop 3 (md5_password D key salt)) = salt.
Proof.
  intros H36 Hl Hs. unfold md5_password. set (md := foldl _ _ _). clearbody md. split_and!.
  - apply Forall_app. split; [apply cstr_str_dollar|]. apply Forall_app. split; [done|].
    apply Forall_app. split; [by repeat constructor|]. apply Forall_app.
    split; [apply groups_cstr|apply to64_cstr].
  - done.
  - change (drop 3 (str "$1$" ++ ?l)) with l. by apply salt_of_app.
Qed.

(** ** Properties *)

(** the MD5 password hash.  [md5crypt] accepts keys of up to 30000 bytes and
    settings that start with "$1$"; the salt is what follows, up to a dollar
    sign and eight characters.  Its result is that prefix, the salt, a dollar
    sign and the base-64 form of the thousand-fold iterated MD5 of the key and
    salt that [md5_password] defines in terms of the RFC 1321 digest, whatever
    the contexts on the stack hold; everything else is refused.  [__crypt_md5]
    returns it if the self-test gives the expected string, and "*" otherwise.
    A computed hash is itself a setting that gives the same hash, which is how
    passwords are checked. *)
Theorem md5crypt_correct ctx0 ctx1 key setting :
  cstr key -> cstr setting -> length (buf ctx0) = 64%nat -> length (buf ctx1) = 64%nat ->
  let ok := (Z.of_nat (length key) <=? KEY_MAX) && bool_decide (take 3 setting = str "$1$") in
  let out := md5_password rfc_digest key (salt_of SALT_MAX (drop 3 setting)) in
  let selftest := bool_decide (md5_password rfc_digest testkey (str "abcd0123")
                               = str "$1$abcd0123$9Qcg8DyviekV3tDGMZynJ1") in
  md5crypt ctx0 key setting = (if ok then Some out else None) /\
  __crypt_md5 ctx0 ctx1 key setting = (if ok && selftest then out else str "*") /\
  (ok = true -> md5crypt ctx0 key out = Some out).
Proof.
  intros Hk Hs Hb0 Hb1 ok out selftest.
  assert (Hok : md5crypt ctx0 key setting = if ok then Some out else None) by (by apply md5crypt_spec).
  split_and!; [done| |].
  - unfold __crypt_md5. rewrite Hok. destruct ok; [|done]. cbn [andb]. unfold selftest.
    rewrite md5crypt_spec; [|by apply (bool_decide_unpack _)|by apply (bool_decide_unpack _)|done].
    change ((Z.of_nat (length testkey) <=? KEY_MAX) && _) with true. cbv iota.
    change (salt_of SALT_MAX (drop 3 (str "$1$abcd0123$"))) with (str "abcd0123").
    generalize (md5_password rfc_digest testkey (str "abcd0123")). intros q.
    by case_bool_decide as H1; case_bool_decide as H2; congruence.
  - intros Htrue. apply andb_true_iff in Htrue as [Hlen _].
    destruct (salt_of_spec SALT_MAX (drop 3 setting)) as [H36 Hl].
    assert (Hsalt : cstr (salt_of SALT_MAX (drop 3 setting))) by (by apply Forall_take, cstr_drop).
    destruct (md5_password_salt rfc_digest key _ H36 Hl Hsalt) as (Hc & Ht & Hd). fold out in Hc, Ht, Hd.
    rewrite md5crypt_spec by done. rewrite Hlen, Hd, bool_decide_true by done. done.
Qed.

Lemma md5crypt_correct_witness :
  md5crypt (Ctx 7 [] (replicate 64 255)) (str "key") (str "$1$saltsaltsalt$") =
    Some (md5_password rfc_digest (str "key") (str "saltsalt")).
Proof.
  refine (proj1 (md5crypt_correct (Ctx 7 [] (replicate 64 255)) (Ctx 7 [] (replicate 64 255))
    (str "key") (str "$1$saltsaltsalt$") _ _ _ _));
    [by apply (bool_decide_unpack _)|by apply (bool_decide_unpack _)|done|done].
Defined.
