(* ===== verification/CryptSha.v ===== *)
(** The SHA-crypt password hashes: src/musl-1.1.19/src/crypt/crypt_sha256.c and
    crypt_sha512.c.  The two files differ in the digest, its size, the magic
    string and the order in which the digest's bytes are printed; the
    functions below take those as parameters.

    The rounds parameter goes through [strtoul] (Intscan.v).  Of [sprintf]
    only what the two format strings need is modelled: copying literals and
    strings, and [fmt_u] for [%u].  The outer [None] of a result is a read out
    of bounds (there is none), the inner one a null pointer. *)
From Stdlib Require Import Strings.String.
From S2P Require Import Prelude CStr Intscan Digest Md5 Sha2 Sha256 Sha512 CryptHash.
#[local] Open Scope c_scope.

Definition KEY_MAX : Z := 256.
Definition SALT_MAX : nat := 16.
Definition ROUNDS_DEFAULT : Z := 5000.
Definition ROUNDS_MIN : Z := 1000.
Definition ROUNDS_MAX : Z := 9999999.

(** [fmt_u] of src/musl-1.1.19/src/stdio/vfprintf.c, writing before [s]. *)
Fixpoint fmt_u (fuel : nat) (y : Z) (s : list Z) : list Z :=
  match fuel with
  | O => s
  | S fuel => if y =? 0 then s else fmt_u fuel (y / 10) (48 + y mod 10 :: s)
  end.

(** The rounds parameter: its text in the result, its value, the salt. *)
Definition rounds_param (salt : list Z) : option (option (list Z * Z * list Z)) :=
  if strncmp salt (str "rounds=") 7 =? 0 then
    let salt := drop 7 salt in
    if negb (isdigit (hd 0 salt)) then Some None
    else
      '(u, e, _) ← strtoul salt 10 0;
      c ← at_ salt (Z.to_nat e);
      if negb (c =? 36) then Some None
      else
        let salt := drop (S (Z.to_nat e)) salt in
        if u <? ROUNDS_MIN
        then Some (Some (str "rounds=" ++ fmt_u 20 ROUNDS_MIN [] ++ [36], ROUNDS_MIN, salt))
        else if u >? ROUNDS_MAX then Some None
        else Some (Some (str "rounds=" ++ fmt_u 20 u [] ++ [36], u, salt))
  else Some (Some ([], ROUNDS_DEFAULT, salt)).

(** The loop over the salt: [None] at a character that would interfere with
    the password file. *)
Fixpoint salt_scan (max : nat) (salt : list Z) : option nat :=
  match max, salt with
  | S max, c :: salt =>
      if c =? 36 then Some O
      else if (c =? 10) || (c =? 58) then None
      else S <$> salt_scan max salt
  | _, _ => Some O
  end.

Section shacrypt.
Context {Ops : StreamOps} (mdlen : nat) (magic : list Z) (encode : list Z -> list Z).

(** "iterate A = f(A,DP,DS)", one round. *)
Definition sha_round (klen slen : nat) (kmd smd : list Z) (st : ctx * list Z) (i : nat) : ctx * list Z :=
  let '(ctx, md) := st in
  let ctx := s_init ctx in
  let ctx := if (i mod 2 =? 0)%nat then s_update ctx md else hashmd mdlen ctx klen kmd in
  let ctx := if (i mod 3 =? 0)%nat then ctx else s_update ctx (take slen smd) in
  let ctx := if (i mod 7 =? 0)%nat then ctx else hashmd mdlen ctx klen kmd in
  let ctx := if (i mod 2 =? 0)%nat then hashmd mdlen ctx klen kmd else s_update ctx md in
  s_sum ctx.

(** From the hashing of the first message on. *)
Definition sha_hash (ctx : ctx) (key rounds salt : list Z) (r : Z) : list Z :=
  let klen := length key in
  let slen := length salt in
  (* B = sha(key salt key) *)
  let ctx := s_init ctx in
  let ctx := s_update ctx key in
  let ctx := s_update ctx salt in
  let ctx := s_update ctx key in
  let '(ctx, md) := s_sum ctx in
  (* A = sha(key salt repeat-B alternate-B-key) *)
  let ctx := s_init ctx in
  let ctx := s_update ctx key in
  let ctx := s_update ctx salt in
  let ctx := hashmd mdlen ctx klen md in
  let ctx := hashbits 32 (Z.of_nat klen) ctx md key in
  let '(ctx, md) := s_sum ctx in
  (* DP = sha(repeat-key) *)
  let ctx := hashrep klen (s_init ctx) key in
  let '(ctx, kmd) := s_sum ctx in
  (* DS = sha(repeat-salt) *)
  let ctx := hashrep (Z.to_nat (16 + md !!! 0%nat)) (s_init ctx) salt in
  let '(ctx, smd) := s_sum ctx in
  (* iterate A = f(A,DP,DS) *)
  let '(ctx, md) := foldl (sha_round klen slen kmd smd) (ctx, md) (seq 0 (Z.to_nat r)) in
  (* output is $5$rounds=n$salt$hash *)
  magic ++ rounds ++ salt ++ [36] ++ encode md.

Definition shacrypt (ctx : ctx) (key setting : list Z) : option (option (list Z)) :=
  let klen := Z.min (Z.of_nat (length key)) (KEY_MAX + 1) in
  if klen >? KEY_MAX then Some None
  else if negb (strncmp setting magic 3 =? 0) then Some None
  else
    p ← rounds_param (drop 3 setting);
    match p with
    | None => Some None
    | Some (rounds, r, salt) =>
        match salt_scan SALT_MAX salt with
        | None => Some None
        | Some slen =>
            Some (Some (sha_hash ctx (take (Z.to_nat klen) key) rounds (take slen salt) r))
        end
    end.
End shacrypt.

(** ** crypt_sha256.c *)
Definition sha256_perm : list (nat * nat * nat) :=
  [(0, 10, 20); (21, 1, 11); (12, 22, 2); (3, 13, 23); (24, 4, 14);
   (15, 25, 5); (6, 16, 26); (27, 7, 17); (18, 28, 8); (9, 19, 29)]%nat.
Definition sha256_encode (md : list Z) : list Z :=
  concat (map (group md) sha256_perm) ++ to64 (((md !!! 31%nat) << 8) .| (md !!! 30%nat)) 3.

Definition sha256crypt : ctx -> list Z -> list Z -> option (option (list Z)) :=
  shacrypt (Ops := sha256_ops) 32 (str "$5$") sha256_encode.

Definition __crypt_sha256 (ctx0 ctx1 : ctx) (key setting : list Z) : option (list Z) :=
  p ← sha256crypt ctx0 key setting;
  q ← sha256crypt ctx1 testkey (str "$5$rounds=1234$abc0123456789$");
  Some match p with
  | Some p =>
      if bool_decide (q = Some (str "$5$rounds=1234$abc0123456789$3VfDjPt05VHFn47C/ojFZ6KRPYrOjj1lLbH.dkF3bZ6"))
      then p else str "*"
  | None => str "*"
  end.

(** ** crypt_sha512.c *)
Definition sha512_perm : list (nat * nat * nat) :=
  [(0, 21, 42); (22, 43, 1); (44, 2, 23); (3, 24, 45); (25, 46, 4);
   (47, 5, 26); (6, 27, 48); (28, 49, 7); (50, 8, 29); (9, 30, 51);
   (31, 52, 10); (53, 11, 32); (12, 33, 54); (34, 55, 13); (56, 14, 35);
   (15, 36, 57); (37, 58, 16); (59, 17, 38); (18, 39, 60); (40, 61, 19);
   (62, 20, 41)]%nat.
Definition sha512_encode (md : list Z) : list Z :=
  concat (map (group md) sha512_perm) ++ to64 (md !!! 63%nat) 2.

Definition sha512crypt : ctx -> list Z -> list Z -> option (option (list Z)) :=
  shacrypt (Ops := sha512_ops) 64 (str "$6$") sha512_encode.

Definition __crypt_sha512 (ctx0 ctx1 : ctx) (key setting : list Z) : option (list Z) :=
  p ← sha512crypt ctx0 key setting;
  q ← sha512crypt ctx1 testkey (str "$6$rounds=1234$abc0123456789$");
  Some match p with
  | Some p =>
      if bool_decide (q = Some (str "$6$rounds=1234$abc0123456789$BCpt8zLrc/RcyuXmCDOE1ALqMXB2MH6n1g891HhFj8.w7LxGv.FTkqq6Vxc/km3Y0jE0j24jY5PIv/oOu6reg1"))
      then p else str "*"
  | None => str "*"
  end.

(** ** The abstract password hash *)
Section spec.
Context (D : list Z -> list Z) (magic : list Z) (encode : list Z -> list Z).

Definition sha_step (p s md : list Z) (i : nat) : list Z :=
  D ((if (i mod 2 =? 0)%nat then md else p) ++ (if (i mod 3 =? 0)%nat then [] else s)
       ++ (if (i mod 7 =? 0)%nat then [] else p) ++ (if (i mod 2 =? 0)%nat then p else md)).

(** The algorithm in terms of the digest [D]; [p] and [s] are the key and the
    salt sequence. *)
Definition sha_password (key rounds salt : list Z) (r : Z) : list Z :=
  let n := length key in
  let b := D (key ++ salt ++ key) in
  let a := D (key ++ salt ++ cyc n b ++ alternate (Z.of_nat n) b key) in
  let p := cyc n (D (concat (replicate n key))) in
  let s := take (length salt) (D (concat (replicate (Z.to_nat (16 + a !!! 0%nat)) salt))) in
  magic ++ rounds ++ salt ++ [36] ++ encode (foldl (sha_step p s) a (seq 0 (Z.to_nat r))).
End spec.

(** The bytes of a digest in the order of the text: the [i]-th group has the [i]-th byte of each
    third of the digest (the bytes of no group are written last), turned round [i] times. *)
Definition turn (t : nat * nat * nat) : nat * nat * nat := let '(a, b, c) := t in (c, a, b).
Definition thirds (n i : nat) : nat * nat * nat := (i, n + i, n + n + i)%nat.
Definition sha256_text (md : list Z) : list Z :=
  concat (map (fun i => group md (Nat.iter i turn (thirds 10 i))) (seq 0 10)) ++ to64 (((md !!! 31%nat) << 8) .| (md !!! 30%nat)) 3.
Definition sha512_text (md : list Z) : list Z :=
  concat (map (fun i => group md (Nat.iter (2 * i) turn (thirds 21 i))) (seq 0 21)) ++ to64 (md !!! 63%nat) 2.

(** The decimal value of digits, and what a setting after the magic means: the
    text of the rounds, their number and the salt. *)
Definition decimal (ds : list Z) : Z := foldl (fun a c => a * 10 + (c - 48)) 0 ds.

Definition sha_rounds (t : list Z) : option (list Z * Z * list Z) :=
  if bool_decide (take 7 t = str "rounds=") then
    let ds := span isdigit (drop 7 t) in
    let rest := skip isdigit (drop 7 t) in
    let r := Z.max ROUNDS_MIN (decimal ds) in
    if bool_decide (ds <> []) && (hd 0 rest =? 36) && (decimal ds <=? ROUNDS_MAX)
    then Some (str "rounds=" ++ fmt_u 20 r [] ++ [36], r, tl rest) else None
  else Some ([], ROUNDS_DEFAULT, t).

Definition sha_setting (t : list Z) : option (list Z * Z * list Z) :=
  '(rounds, r, t) ← sha_rounds t;
  let salt := salt_of SALT_MAX t in
  if existsb (fun c => (c =? 10) || (c =? 58)) salt then None else Some (rounds, r, salt).

(** ** The hashing *)
Section hashing.
Context {Ops : StreamOps} {bsz : nat} {D : list Z -> list Z} {mdlen : nat}.
Context {HS : StreamSpec Ops bsz D mdlen} (Hpos : (16 <= mdlen)%nat).
Context (magic : list Z) (encode : list Z -> list Z).

Lemma sha_rounds_loop (key salt kmd smd : list Z) n s0 md :
  bytes kmd -> bytes smd -> length kmd = mdlen -> length (buf s0) = bsz -> bytes md ->
  let st := foldl (sha_round mdlen (length key) (length salt) kmd smd) (s0, md) (seq 0 n) in
  length (buf st.1) = bsz /\ bytes st.2 /\
  st.2 = foldl (sha_step D (cyc (length key) kmd) (take (length salt) smd)) md (seq 0 n).
Proof using HS Hpos.
  intros Hk Hs Hl Hb Hmd. cbv zeta. induction n as [|n IH]; [done|].
  rewrite seq_S, !foldl_app. cbn [foldl Nat.add].
  destruct (foldl (sha_round _ _ _ _ _) (s0, md) (seq 0 n)) as [s m].
  cbn [fst snd] in IH. destruct IH as (Hb' & Hm & ->).
  set (m' := foldl _ md (seq 0 n)) in *. set (p := cyc (length key) kmd).
  assert (Hif : forall s1 s m (b : bool), fed s1 s m ->
            fed s1 (if b then s else hashmd mdlen s (length key) kmd) (m ++ if b then [] else p)).
  { intros s1 s2 q b Hf. destruct b; [by rewrite app_nil_r|apply fed_hashmd; (done || lia)]. }
  assert (Hch : forall s1 s m (b : bool), fed s1 s m ->
            fed s1 (if b then s_update s m' else hashmd mdlen s (length key) kmd) (m ++ if b then m' else p)).
  { intros s1 s2 q b Hf. destruct b; [by apply fed_update|apply fed_hashmd; (done || lia)]. }
  assert (Hch' : forall s1 s m (b : bool), fed s1 s m ->
            fed s1 (if b then hashmd mdlen s (length key) kmd else s_update s m') (m ++ if b then p else m')).
  { intros s1 s2 q b Hf. destruct b; [apply fed_hashmd; (done || lia)|by apply fed_update]. }
  pose proof (fed_init s) as H0.
  apply (Hch _ _ _ (n mod 2 =? 0)%nat) in H0.
  apply (fed_if (n mod 3 =? 0)%nat _ _ _ (take (length salt) smd)) in H0; [|by apply Forall_take].
  apply (Hif _ _ _ (n mod 7 =? 0)%nat) in H0. apply (Hch' _ _ _ (n mod 2 =? 0)%nat) in H0.
  destruct (fed_sum (HS := HS) _ _ _ Hb' H0) as (H1 & H2 & _ & H3). unfold sha_round.
  split_and!; [exact H1|exact H3|]. rewrite H2. unfold sha_step. by rewrite app_nil_l, <- !app_assoc.
Qed.

Lemma sha_hash_spec ctx key rounds salt r :
  bytes key -> bytes salt -> (length salt <= 16)%nat -> Z.of_nat (length key) < 2 ^ 32 ->
  length (buf ctx) = bsz ->
  sha_hash mdlen magic encode ctx key rounds salt r = sha_password D magic encode key rounds salt r.
Proof using HS Hpos.
  intros Hk Hs Hsl Hkl Hb. unfold sha_hash.
  (* B *)
  pose proof (fed_init ctx) as H0.
  apply (fed_update _ _ _ key) in H0; [|done]. apply (fed_update _ _ _ salt) in H0; [|done].
  apply (fed_update _ _ _ key) in H0; [|done].
  destruct (fed_sum (HS := HS) _ _ _ Hb H0) as (Hb1 & H1 & Hl1 & Hmd1). clear H0.
  destruct (s_sum (s_update (s_update (s_update (s_init ctx) key) salt) key)) as [ctx1 b]. cbn [fst snd] in *.
  (* A *)
  pose proof (fed_init ctx1) as H2.
  apply (fed_update _ _ _ key) in H2; [|done]. apply (fed_update _ _ _ salt) in H2; [|done].
  apply (fed_hashmd _ _ _ mdlen (length key) b) in H2; [|done|done|lia].
  apply (fed_hashbits _ _ _ 32 (Z.of_nat (length key)) b key) in H2; [|done|done|lia].
  destruct (fed_sum (HS := HS) _ _ _ Hb1 H2) as (Hb2 & H3 & _ & Hmd2). clear H2.
  set (c2 := hashbits 32 _ _ _ _) in *. clearbody c2. destruct (s_sum c2) as [ctx2 a]. cbn [fst snd] in *.
  (* DP *)
  pose proof (fed_init ctx2) as H4. apply (fed_hashrep _ _ _ (length key) key) in H4; [|done].
  destruct (fed_sum (HS := HS) _ _ _ Hb2 H4) as (Hb3 & H5 & Hl5 & Hmd3). clear H4.
  destruct (s_sum (hashrep _ _ key)) as [ctx3 kmd]. cbn [fst snd] in *.
  (* DS *)
  pose proof (fed_init ctx3) as H6.
  apply (fed_hashrep _ _ _ (Z.to_nat (16 + a !!! 0%nat)) salt) in H6; [|done].
  destruct (fed_sum (HS := HS) _ _ _ Hb3 H6) as (Hb4 & H7 & _ & Hmd4). clear H6.
  destruct (s_sum (hashrep _ _ salt)) as [ctx4 smd]. cbn [fst snd] in *.
  destruct (sha_rounds_loop key salt kmd smd (Z.to_nat r) ctx4 a) as (_ & _ & Hr); try done.
  destruct (foldl (sha_round _ _ _ _ _) (ctx4, a) _) as [ctx5 md]. cbn [snd] in Hr. subst md.
  assert (Hb' : b = D (key ++ salt ++ key)) by (rewrite H1, app_nil_l, <- app_assoc; reflexivity).
  assert (Ha : a = D (key ++ salt ++ cyc (length key) b ++ alternate (Z.of_nat (length key)) b key)).
  { rewrite H3, app_nil_l, <- !app_assoc. reflexivity. }
  rewrite app_nil_l in H5, H7. unfold sha_password.
  rewrite <- H5, <- Hb', <- Ha, <- H7. reflexivity.
Qed.
End hashing.

(** ** Parsing a setting *)
Lemma span_ext (p q : Z -> bool) l : (forall c, c ∈ l -> p c = q c) -> span p l = span q l /\ skip p l = skip q l.
Proof.
  induction l as [|c l IH]; intros H; [done|]. cbn [span skip].
  rewrite (H c) by (apply list_elem_of_here).
  destruct (IH (fun d Hd => H d (list_elem_of_further _ _ _ Hd))) as [-> ->]. by split.
Qed.

Lemma decimal_number ds : Forall (fun c => isdigit c = true) ds -> cstr ds -> number 10 ds = decimal ds.
Proof.
  intros H Hc. unfold number, decimal. generalize 0; revert Hc.
  induction H as [|c ds Hd _ IH]; intros Hc a; [done|]. apply Forall_cons_1 in Hc as [Hc1 Hc].
  cbn [foldl]. cbv beta in Hc1. destruct (dec_digit c) as [Hu Hv]; [lia|].
  unfold isdigit in Hd. rewrite Hd in Hu. rewrite Hv by lia. by apply IH.
Qed.

Lemma span_all p l : Forall (fun c => p c = true) (span p l).
Proof. induction l as [|c l IH]; [constructor|]. cbn [span]. destruct (p c) eqn:E; by constructor. Qed.

Lemma cstr_span p l : cstr l -> cstr (span p l) /\ cstr (skip p l).
Proof. intros H. rewrite (span_skip p l), Forall_app in H. done. Qed.

(** [strtoul] where a digit starts the string. *)
Lemma parse_decimal t : cstr t -> isdigit (hd 0 t) = true ->
  parse t 10 = Some (false, decimal (span isdigit t), skip isdigit t).
Proof.
  intros Ht Hd. pose proof (cstr_hd t Ht) as Hc. rewrite isdigit_spec in Hd by done.
  unfold parse. destruct t as [|c t]; cbn [hd] in *; [done|].
  assert (Hsp : isspace c = false).
  { unfold isspace, u32. destruct (Z.eqb_spec c 32); [lia|]. rewrite Z.mod_small; lia. }
  assert (Hsk : skip isspace (c :: t) = c :: t) by (cbn [skip]; by rewrite Hsp). rewrite Hsk.
  pose proof (sign_spec (c :: t) 0) as Hsg. rewrite drop_0 in Hsg. cbn [hd] in Hsg.
  rewrite (proj2 (Z.eqb_neq c 43)), (proj2 (Z.eqb_neq c 45)), drop_0 in Hsg by lia. rewrite Hsg.
  unfold parse_at. rewrite andb_false_r. change (10 =? 0) with false. cbv iota zeta.
  destruct (span_ext (fun c => digit c <? 10) isdigit (c :: t)) as [-> ->].
  { intros x Hx. pose proof (proj1 (Forall_forall _ _) Ht x (proj1 (list_elem_of_In _ _) Hx)) as Hx'. cbv beta in Hx'.
    destruct (dec_digit x) as [Hu _]; [lia|]. by rewrite <- Hu. }
  destruct (span isdigit (c :: t)) as [|d ds] eqn:E.
  { cbn [span] in E. by rewrite isdigit_spec, Hd in E by done. }
  rewrite <- E. rewrite decimal_number; [done|apply span_all|by apply cstr_span].
Qed.

Lemma decimal_nonneg ds : Forall (fun c => isdigit c = true) ds -> cstr ds -> 0 <= decimal ds.
Proof.
  intros H Hc. induction ds as [|c ds IH] using rev_ind; [done|].
  apply Forall_app in H as [H Hd], Hc as [Hc Hc1]. specialize (IH H Hc).
  apply Forall_cons_1 in Hd as [Hd _], Hc1 as [Hc1 _]. cbv beta in Hc1. rewrite isdigit_spec in Hd by lia.
  unfold decimal in *. rewrite foldl_snoc. lia.
Qed.

Lemma rounds_param_spec t : cstr t -> Z.of_nat (length t) < 2 ^ 62 ->
  rounds_param t = Some (sha_rounds t).
Proof.
  intros Ht Hlen. unfold rounds_param, sha_rounds.
  change 7%nat with (length (str "rounds=")) at 1.
  rewrite strncmp_prefix; [|done|by apply (bool_decide_unpack _)].
  change (length (str "rounds=")) with 7%nat. case_bool_decide as Hpre; [|done].
  pose proof (cstr_drop t 7 Ht) as Hs. set (s := drop 7 t) in *.
  assert (Hsl : (length s <= length t)%nat) by (subst s; rewrite length_drop; lia).
  destruct (isdigit (hd 0 s)) eqn:Hd; cbn [negb].
  2: { replace (span isdigit s) with (@nil Z); [done|].
       destruct s as [|c s']; [done|]. cbn [hd span] in *. by rewrite Hd. }
  change (strtoul s 10 0) with (strtoull s 10 0). rewrite strtoull_spec by (done || lia).
  unfold strto. change (negb (base_ok 10)) with false. cbv iota.
  rewrite parse_decimal by done. unfold to_unsigned.
  set (ds := span isdigit s). set (rest := skip isdigit s).
  assert (Hdsr : s = ds ++ rest) by apply span_skip.
  assert (Hds : ds <> []).
  { subst ds. destruct s as [|c s']; [done|]. cbn [hd span] in *. by rewrite Hd. }
  assert (Hv : 0 <= decimal ds) by (apply decimal_nonneg; [apply span_all|by apply cstr_span]).
  rewrite bool_decide_true by done. cbn [andb].
  assert (Hat : at_ s (length s - length rest) = Some (hd 0 rest)).
  { rewrite at_drop by lia. rewrite Hdsr at 1 2. rewrite length_app.
    replace (length ds + length rest - length rest)%nat with (length ds) by lia. by rewrite drop_app_length. }
  assert (Htl : drop (S (length s - length rest)) s = tl rest).
  { rewrite Hdsr, length_app. replace (length ds + length rest - length rest)%nat with (length ds) by lia.
    rewrite <- Nat.add_1_r, <- drop_drop, drop_app_length. by destruct rest. }
  destruct (Z.gtb_spec (decimal ds) ULLONG_MAX) as [Hbig|Hsmall]; cbn [mbind option_bind];
    rewrite Nat2Z.id, Hat; cbn [mbind option_bind];
    (destruct (Z.eqb_spec (hd 0 rest) 36); cbn [negb andb]; [|done]); rewrite Htl.
  - change (ULLONG_MAX <? ROUNDS_MIN) with false. change (ULLONG_MAX >? ROUNDS_MAX) with true. cbv iota.
    by rewrite (proj2 (Z.leb_gt _ _)) by (unfold ROUNDS_MAX, ULLONG_MAX in *; lia).
  - rewrite u64_id by (unfold ULLONG_MAX in *; lia). unfold ROUNDS_MIN, ROUNDS_MAX.
    destruct (Z.ltb_spec (decimal ds) 1000).
    + rewrite (proj2 (Z.leb_le _ _)), Z.max_l by lia. done.
    + rewrite Z.gtb_ltb, Z.ltb_antisym. destruct (Z.leb_spec (decimal ds) 9999999); cbn [negb]; [|done].
      by rewrite Z.max_r by lia.
Qed.

Lemma salt_scan_spec max t :
  salt_scan max t = if existsb (fun c => (c =? 10) || (c =? 58)) (salt_of max t) then None
                    else Some (salt_len max t).
Proof.
  unfold salt_of. revert t. induction max as [|max IH]; intros [|c t]; cbn [salt_scan salt_len]; try done.
  destruct (c =? 36); [done|]. cbn [take existsb]. rewrite IH.
  destruct ((c =? 10) || (c =? 58)); cbn [orb]; [done|]. by destruct (existsb _ _).
Qed.

(** ** A computed hash as a setting *)
Lemma fmt_u_spec fuel y s : 0 <= y < 10 ^ Z.of_nat fuel ->
  exists ds, fmt_u fuel y s = ds ++ s /\ Forall (fun c => isdigit c = true) ds /\ cstr ds /\
    decimal ds = y /\ (y <> 0 -> ds <> []).
Proof.
  revert y s. induction fuel as [|fuel IH]; intros y s Hy.
  - exists []. replace y with 0 by (simpl in Hy; lia). by split_and!.
  - rewrite Nat2Z.inj_succ, Z.pow_succ_r in Hy by lia. cbn [fmt_u].
    destruct (Z.eqb_spec y 0) as [->|Hy0]; [exists []; by split_and!|].
    destruct (IH (y / 10) (48 + y mod 10 :: s)) as (ds & -> & Hd & Hc & Hv & _).
    { split; [apply Z.div_pos; lia|apply Z.div_lt_upper_bound; lia]. }
    pose proof (Z.mod_pos_bound y 10 ltac:(lia)) as Hm.
    exists (ds ++ [48 + y mod 10]). split_and!.
    + by rewrite <- app_assoc.
    + apply Forall_app. split; [done|]. repeat constructor. rewrite isdigit_spec by lia. lia.
    + apply Forall_app. split; [done|]. repeat constructor; lia.
    + unfold decimal in *. rewrite foldl_snoc, Hv. pose proof (Z.div_mod y 10). lia.
    + intros _. by destruct ds.
Qed.

#[local] Opaque fmt_u.

Lemma span_stop p l r : Forall (fun c => p c = true) l -> p (hd 0 r) = false ->
  span p (l ++ r) = l /\ skip p (l ++ r) = r.
Proof.
  intros Hl Hr. destruct (span_app p l r Hl) as [-> ->].
  destruct r as [|c r]; cbn [hd span skip] in *; [by rewrite app_nil_r|].
  by rewrite Hr, app_nil_r.
Qed.

Lemma sha_setting_again t rounds r salt rest :
  sha_setting t = Some (rounds, r, salt) ->
  sha_setting (rounds ++ salt ++ 36 :: rest) = Some (rounds, r, salt).
Proof.
  unfold sha_setting. destruct (sha_rounds t) as [[[rounds' r'] t']|] eqn:Hr; [|done].
  cbn [mbind option_bind]. destruct (existsb _ _) eqn:Hbad; [done|]. intros [= <- <- <-].
  destruct (salt_of_spec SALT_MAX t') as [H36 Hl].
  enough (H : sha_rounds (rounds' ++ salt_of SALT_MAX t' ++ 36 :: rest) =
              Some (rounds', r', salt_of SALT_MAX t' ++ 36 :: rest)).
  { rewrite H. cbn [mbind option_bind]. by rewrite salt_of_app, Hbad. }
  unfold sha_rounds in Hr. case_bool_decide as Hpre.
  - destruct (bool_decide _ && _ && _) eqn:Hok; [|done].
    apply (inj Some), pair_equal_spec in Hr as [Hr <-]. apply pair_equal_spec in Hr as [<- <-].
    apply andb_true_iff in Hok as [Hok Hmax]. apply andb_true_iff in Hok as [_ _]. apply Z.leb_le in Hmax.
    set (n := Z.max ROUNDS_MIN _). unfold ROUNDS_MAX, ROUNDS_MIN in *.
    assert (Hn : 1000 <= n <= 9999999) by (subst n; lia).
    destruct (fmt_u_spec 20 n []) as (ds & Hf & Hd & Hc & Hv & Hne); [lia|].
    rewrite Hf, app_nil_r, <- !app_assoc. unfold sha_rounds.
    rewrite take_app_length' by done. rewrite bool_decide_true by done.
    rewrite drop_app_length' by done. cbn [app].
    destruct (span_stop isdigit ds (36 :: salt_of SALT_MAX (tl (skip isdigit (drop 7 t))) ++ 36 :: rest) Hd)
      as [-> ->]; [done|].
    rewrite Hv, bool_decide_true by (apply Hne; lia). cbn [hd tl andb]. change (36 =? 36) with true.
    cbn [andb]. unfold ROUNDS_MAX, ROUNDS_MIN. rewrite (proj2 (Z.leb_le n _)) by lia.
    rewrite Z.max_r by lia. by rewrite Hf, app_nil_r.
  - injection Hr as <- <- <-. cbn [app]. unfold sha_rounds. rewrite bool_decide_false; [done|].
    intros Hp. apply Hpre. rewrite <- Hp. clear -Hp H36. unfold salt_of in *.
    set (k := salt_len SALT_MAX t) in *.
    destruct (decide (7 <= length (take k t))%nat) as [Hl|Hl].
    + rewrite take_app_le, take_take by done. f_equal. rewrite length_take in Hl. lia.
    + exfalso. rewrite take_app, (take_ge (take k t)) in Hp by lia.
      destruct (7 - length (take k t))%nat as [|j] eqn:Hj; [lia|]. cbn [take] in Hp.
      assert (Hin : 36 ∈ str "rounds=") by (rewrite <- Hp; set_solver).
      revert Hin. apply (bool_decide_unpack (36 ∉ str "rounds=")). by vm_compute.
Qed.

(** ** The whole function *)

Section whole.
Context {Ops : StreamOps} {bsz : nat} {D : list Z -> list Z} {mdlen : nat}.
Context {HS : StreamSpec Ops bsz D mdlen} (Hpos : (16 <= mdlen)%nat).
Context (magic : list Z) (encode : list Z -> list Z).
Context (Hmagic : length magic = 3%nat) (Hmagic_cstr : cstr magic).

(** What the hash of a key under a setting is, [None] when refused. *)
Definition sha_result (key setting : list Z) : option (list Z) :=
  if (Z.of_nat (length key) <=? KEY_MAX) && bool_decide (take 3 setting = magic) then
    '(rounds, r, salt) ← sha_setting (drop 3 setting);
    Some (sha_password D magic encode key rounds salt r)
  else None.

Lemma shacrypt_spec ctx key setting :
  cstr key -> cstr setting -> Z.of_nat (length setting) < 2 ^ 62 -> length (buf ctx) = bsz ->
  shacrypt mdlen magic encode ctx key setting = Some (sha_result key setting).
Proof using HS Hpos Hmagic Hmagic_cstr.
  intros Hk Hs Hlen Hb. unfold shacrypt, sha_result, KEY_MAX.
  destruct (Z.leb_spec (Z.of_nat (length key)) 256) as [Hle|Hgt]; cbn [andb].
  2: { by rewrite Z.gtb_ltb, (proj2 (Z.ltb_lt _ _)) by lia. }
  rewrite Z.gtb_ltb, (proj2 (Z.ltb_ge _ _)), Z.min_l by lia.
  rewrite <- Hmagic at 1. rewrite strncmp_prefix, Hmagic by done.
  case_bool_decide as Hpre; cbn [negb]; [|done].
  rewrite Nat2Z.id, take_ge by done.
  pose proof (cstr_drop setting 3 Hs) as Ht.
  rewrite rounds_param_spec by (done || rewrite length_drop; lia). cbn [mbind option_bind].
  unfold sha_setting. destruct (sha_rounds (drop 3 setting)) as [[[rounds r] t]|] eqn:Hr; [|done].
  cbn [mbind option_bind].
  assert (Htc : cstr t).
  { unfold sha_rounds in Hr. case_bool_decide; [|by injection Hr as _ _ <-].
    case_match; [|done]. injection Hr as _ _ <-.
    destruct (cstr_span isdigit (drop 7 (drop 3 setting))) as [_ Hc]; [by apply cstr_drop|].
    destruct Hc; [constructor|done]. }
  rewrite salt_scan_spec. destruct (existsb _ (salt_of SALT_MAX t)); [done|].
  fold (salt_of SALT_MAX t). cbn [mbind option_bind].
  pose proof (proj2 (salt_of_spec SALT_MAX t)). unfold SALT_MAX in *.
  rewrite (sha_hash_spec (HS := HS) Hpos); [done|by apply cstr_bytes| |done|lia|done].
  by apply Forall_take, cstr_bytes.
Qed.

(** Hashing under a computed hash gives that hash again. *)
Lemma sha_result_again key setting out :
  (forall md, cstr (encode md)) -> sha_result key setting = Some out -> sha_result key out = Some out.
Proof using Hmagic.
  intros He. unfold sha_result.
  destruct (Z.of_nat (length key) <=? KEY_MAX); [|done]. cbn [andb].
  case_bool_decide as Hpre; [|done].
  destruct (sha_setting (drop 3 setting)) as [[[rounds r] salt]|] eqn:Hs; [|done].
  cbn [mbind option_bind]. intros [= <-]. unfold sha_password.
  set (md := foldl _ _ _).
  rewrite take_app_length', bool_decide_true by done.
  rewrite drop_app_length' by done. cbn [app].
  rewrite (sha_setting_again _ _ _ _ (encode md) Hs). reflexivity.
Qed.
End whole.

(** ** Properties *)
Lemma sha256_encode_cstr md : cstr (sha256_encode md).
Proof. apply Forall_app. split; [apply groups_cstr|apply to64_cstr]. Qed.

Lemma sha512_encode_cstr md : cstr (sha512_encode md).
Proof. apply Forall_app. split; [apply groups_cstr|apply to64_cstr]. Qed.

Definition sha256_result := sha_result (D := Sha256.fips_digest) (str "$5$") sha256_text.
Definition sha512_result := sha_result (D := @digest sha512) (str "$6$") sha512_text.

(** The self-test around a hash. *)
Lemma self_tested (p q : option (list Z)) (o0 o1 : option (option (list Z))) (th : list Z) :
  o0 = Some p -> o1 = Some q ->
  (p ← o0; q ← o1; Some match p with
   | Some p => if bool_decide (q = Some th) then p else str "*"
   | None => str "*" end) =
  Some (if bool_decide (q = Some th) then default (str "*") p else str "*").
Proof. intros -> ->. cbn [mbind option_bind]. destruct p, (bool_decide _); reflexivity. Qed.

Lemma testkey_cstr : cstr testkey.
Proof. by apply (bool_decide_unpack _). Qed.

(** C32: the SHA-256 password hash.  For every key, setting and stack contents
    [sha256crypt] returns what [sha256_result] defines from the FIPS 180-4
    digest: keys above 256 bytes, other prefixes, rounds that are not a
    decimal number followed by a dollar sign or exceed 9999999, and salts with
    a newline or colon are refused; the rounds are raised to 1000; the salt is
    cut at 16 characters.  [__crypt_sha256] returns it when the self-test gives
    the expected string, and "*" otherwise.  A computed hash is itself a
    setting that gives the same hash, normalised rounds included. *)
Theorem sha256crypt_correct ctx0 ctx1 key setting :
  cstr key -> cstr setting -> Z.of_nat (length setting) < 2 ^ 62 ->
  length (buf ctx0) = 64%nat -> length (buf ctx1) = 64%nat ->
  sha256crypt ctx0 key setting = Some (sha256_result key setting) /\
  __crypt_sha256 ctx0 ctx1 key setting = Some
    (if bool_decide (sha256_result testkey (str "$5$rounds=1234$abc0123456789$") =
         Some (str "$5$rounds=1234$abc0123456789$3VfDjPt05VHFn47C/ojFZ6KRPYrOjj1lLbH.dkF3bZ6"))
     then default (str "*") (sha256_result key setting) else str "*") /\
  (forall out, sha256_result key setting = Some out -> sha256_result key out = Some out).
Proof.
  intros Hk Hs Hlen Hb0 Hb1.
  assert (Hspec : forall ctx key setting, cstr key -> cstr setting -> Z.of_nat (length setting) < 2 ^ 62 ->
            length (buf ctx) = 64%nat -> sha256crypt ctx key setting = Some (sha256_result key setting)).
  { intros ctx k s H1 H2 H3 H4. unfold sha256crypt.
    refine (shacrypt_spec (HS := sha256_spec) _ (str "$5$") sha256_encode eq_refl _ ctx k s H1 H2 H3 H4);
      [lia|by apply (bool_decide_unpack _)]. }
  split_and!.
  - by apply Hspec.
  - apply self_tested; [by apply Hspec|].
    apply Hspec; [exact testkey_cstr|by apply (bool_decide_unpack _)|reflexivity|exact Hb1].
  - intros out Hout. exact (sha_result_again (D := Sha256.fips_digest) (str "$5$") sha256_encode eq_refl _ _ _ sha256_encode_cstr Hout).
Qed.

Lemma sha256crypt_correct_witness :
  sha256crypt (Ctx 7 [] (replicate 64 255)) (str "key") (str "$5$rounds=10$salt:$") = Some None.
Proof.
  refine (eq_trans (proj1 (sha256crypt_correct (Ctx 7 [] (replicate 64 255)) (Ctx 7 [] (replicate 64 255))
    (str "key") (str "$5$rounds=10$salt:$") _ _ _ _ _)) _);
    [by apply (bool_decide_unpack _)|by apply (bool_decide_unpack _)|done|done|done|by vm_compute].
Defined.

(** the SHA-512 password hash, in the same way; the digest is that of
    [sha512_sum] on whole messages, which is the FIPS 180-4 one
    ([sha512_digest_fips]) as no message here reaches 2^61 bytes. *)
Theorem sha512crypt_correct ctx0 ctx1 key setting :
  cstr key -> cstr setting -> Z.of_nat (length setting) < 2 ^ 62 ->
  length (buf ctx0) = 128%nat -> length (buf ctx1) = 128%nat ->
  sha512crypt ctx0 key setting = Some (sha512_result key setting) /\
  __crypt_sha512 ctx0 ctx1 key setting = Some
    (if bool_decide (sha512_result testkey (str "$6$rounds=1234$abc0123456789$") =
         Some (str "$6$rounds=1234$abc0123456789$BCpt8zLrc/RcyuXmCDOE1ALqMXB2MH6n1g891HhFj8.w7LxGv.FTkqq6Vxc/km3Y0jE0j24jY5PIv/oOu6reg1"))
     then default (str "*") (sha512_result key setting) else str "*") /\
  (forall out, sha512_result key setting = Some out -> sha512_result key out = Some out).
Proof.
  intros Hk Hs Hlen Hb0 Hb1.
  assert (Hspec : forall ctx key setting, cstr key -> cstr setting -> Z.of_nat (length setting) < 2 ^ 62 ->
            length (buf ctx) = 128%nat -> sha512crypt ctx key setting = Some (sha512_result key setting)).
  { intros ctx k s H1 H2 H3 H4. unfold sha512crypt.
    refine (shacrypt_spec (HS := sha512_spec) _ (str "$6$") sha512_encode eq_refl _ ctx k s H1 H2 H3 H4);
      [lia|by apply (bool_decide_unpack _)]. }
  split_and!.
  - by apply Hspec.
  - apply self_tested; [by apply Hspec|].
    apply Hspec; [exact testkey_cstr|by apply (bool_decide_unpack _)|reflexivity|exact Hb1].
  - intros out Hout. exact (sha_result_again (D := @digest sha512) (str "$6$") sha512_encode eq_refl _ _ _ sha512_encode_cstr Hout).
Qed.

Lemma sha512crypt_correct_witness :
  sha512crypt (Ctx 7 [] (replicate 128 255)) (str "key") (str "$6$rounds=99999999999999999999$salt") = Some None.
Proof.
  refine (eq_trans (proj1 (sha512crypt_correct (Ctx 7 [] (replicate 128 255)) (Ctx 7 [] (replicate 128 255))
    (str "key") (str "$6$rounds=99999999999999999999$salt") _ _ _ _ _)) _);
    [by apply (bool_decide_unpack _)|by apply (bool_decide_unpack _)|done|done|done|by vm_compute].
Defined.
