(* ===== verification/Calendar.v ===== *)
(** Broken-down time: [__year_to_secs], [__month_to_secs], [__tm_to_secs],
    [__secs_to_tm], [timegm] and [gmtime_r] of src/musl-1.1.19/src/time/,
    against the proleptic Gregorian calendar.

    [int] objects are converted with [s32] where C narrows a [long long] into
    them, [long long] results with [s64]; [/] and [%] truncate. *)
From S2P Require Import Prelude.

(** ** Operations *)
#[local] Open Scope c_scope.

Record tm := Tm {
  tm_sec : Z; tm_min : Z; tm_hour : Z; tm_mday : Z; tm_mon : Z; tm_year : Z;
  tm_wday : Z; tm_yday : Z; tm_isdst : Z; tm_gmtoff : Z; tm_zone : Z
}.

Definition LEAPOCH : Z := 946684800 + 86400 * (31 + 29).
Definition DAYS_PER_400Y : Z := 365 * 400 + 97.
Definition DAYS_PER_100Y : Z := 365 * 100 + 24.
Definition DAYS_PER_4Y : Z := 365 * 4 + 1.

Definition days_in_month : list Z := [31; 30; 31; 30; 31; 31; 30; 31; 30; 31; 31; 29].

(** [for (months=0; days_in_month[months] <= remdays; months++) remdays -= ...];
    [None] would be a read past the table. *)
Fixpoint month_loop (table : list Z) (months remdays : Z) : option (Z * Z) :=
  match table with
  | [] => None
  | d :: table =>
      if d <=? remdays then month_loop table (months + 1) (remdays - d)
      else Some (months, remdays)
  end.

(** [None] is the result -1 (or the impossible read past the table). *)
Definition __secs_to_tm (t : Z) (tm : tm) : option Calendar.tm :=
  if (t <? INT_MIN * 31622400) || (t >? INT_MAX * 31622400) then None else
  let secs := s64 (t - LEAPOCH) in
  let days := secs /c 86400 in
  let remsecs := s32 (secs %c 86400) in
  let '(remsecs, days) :=
    if remsecs <? 0 then (remsecs + 86400, days - 1) else (remsecs, days) in
  let wday := s32 ((3 + days) %c 7) in
  let wday := if wday <? 0 then wday + 7 else wday in
  let qc_cycles := s32 (days /c DAYS_PER_400Y) in
  let remdays := s32 (days %c DAYS_PER_400Y) in
  let '(remdays, qc_cycles) :=
    if remdays <? 0 then (remdays + DAYS_PER_400Y, qc_cycles - 1) else (remdays, qc_cycles) in
  let c_cycles := remdays /c DAYS_PER_100Y in
  let c_cycles := if c_cycles =? 4 then c_cycles - 1 else c_cycles in
  let remdays := remdays - c_cycles * DAYS_PER_100Y in
  let q_cycles := remdays /c DAYS_PER_4Y in
  let q_cycles := if q_cycles =? 25 then q_cycles - 1 else q_cycles in
  let remdays := remdays - q_cycles * DAYS_PER_4Y in
  let remyears := remdays /c 365 in
  let remyears := if remyears =? 4 then remyears - 1 else remyears in
  let remdays := remdays - remyears * 365 in
  let leap := b2z ((remyears =? 0) && (negb (q_cycles =? 0) || (c_cycles =? 0))) in
  let yday := remdays + 31 + 28 + leap in
  let yday := if yday >=? 365 + leap then yday - (365 + leap) else yday in
  let years := remyears + 4 * q_cycles + 100 * c_cycles + 400 * qc_cycles in
  '(months, remdays) ← month_loop days_in_month 0 remdays;
  let '(months, years) := if months >=? 10 then (months - 12, years + 1) else (months, years) in
  if (years + 100 >? INT_MAX) || (years + 100 <? INT_MIN) then None else
  Some (Tm (remsecs %c 60) (remsecs /c 60 %c 60) (remsecs /c 3600)
           (remdays + 1) (months + 2) (s32 (years + 100)) wday yday
           (tm_isdst tm) (tm_gmtoff tm) (tm_zone tm)).

(** The result and [*is_leap]. *)
Definition __year_to_secs (year : Z) : Z * Z :=
  if u64 (year - 2) <=? 136 then
    let y := s32 year in
    let leaps := (y - 68) >> 2 in
    let '(leaps, is_leap) := if ((y - 68) & 3) =? 0 then (leaps - 1, 1) else (leaps, 0) in
    (s32 (31536000 * (y - 70) + 86400 * leaps), is_leap)
  else
    let cycles := s32 ((year - 100) /c 400) in
    let rem := s32 ((year - 100) %c 400) in
    let '(cycles, rem) := if rem <? 0 then (cycles - 1, rem + 400) else (cycles, rem) in
    let '(is_leap, centuries, leaps) :=
      if rem =? 0 then (1, 0, 0)
      else
        let '(centuries, rem) :=
          if rem >=? 200 then if rem >=? 300 then (3, rem - 300) else (2, rem - 200)
          else if rem >=? 100 then (1, rem - 100) else (0, rem) in
        if rem =? 0 then (0, centuries, 0)
        else
          let leaps := rem /c 4 in
          let rem := rem %c 4 in
          (b2z (rem =? 0), centuries, leaps) in
    let leaps := s32 (leaps + (97 * cycles + 24 * centuries - is_leap)) in
    (s64 ((year - 100) * 31536000 + leaps * 86400 + 946684800 + 86400), is_leap).

Definition secs_through_month : list Z :=
  [0; 31*86400; 59*86400; 90*86400; 120*86400; 151*86400; 181*86400; 212*86400;
   243*86400; 273*86400; 304*86400; 334*86400].

Definition __month_to_secs (month is_leap : Z) : Z :=
  let t := secs_through_month !!! Z.to_nat month in
  if negb (is_leap =? 0) && (month >=? 2) then t + 86400 else t.

Definition __tm_to_secs (tm : tm) : Z :=
  let year := tm_year tm in
  let month := tm_mon tm in
  let '(year, month) :=
    if (month >=? 12) || (month <? 0) then
      let adj := month /c 12 in
      let month := month %c 12 in
      let '(adj, month) := if month <? 0 then (adj - 1, month + 12) else (adj, month) in
      (year + adj, month)
    else (year, month) in
  let '(t, is_leap) := __year_to_secs year in
  let t := s64 (t + __month_to_secs month is_leap) in
  let t := s64 (t + 86400 * (tm_mday tm - 1)) in
  let t := s64 (t + 3600 * tm_hour tm) in
  let t := s64 (t + 60 * tm_min tm) in
  s64 (t + tm_sec tm).

(** [__utc] is the address of the string "UTC". *)
Definition set_utc (__utc : Z) (tm : tm) : Calendar.tm :=
  Tm (tm_sec tm) (tm_min tm) (tm_hour tm) (tm_mday tm) (tm_mon tm) (tm_year tm)
     (tm_wday tm) (tm_yday tm) 0 0 __utc.

(** [None]: [errno = EOVERFLOW] and the result -1, [*tm] unchanged. *)
Definition timegm (__utc : Z) (new tm : tm) : option (Z * Calendar.tm) :=
  let t := __tm_to_secs tm in
  new ← __secs_to_tm t new;
  Some (t, set_utc __utc new).

(** [None]: [errno = EOVERFLOW] and a null result. *)
Definition __gmtime_r (__utc t : Z) (tm : tm) : option Calendar.tm :=
  tm ← __secs_to_tm t tm; Some (set_utc __utc tm).

(** ** The Gregorian calendar *)
Definition leap_year (y : Z) : bool :=
  (y mod 4 =? 0) && (negb (y mod 100 =? 0) || (y mod 400 =? 0)).

Definition month_days (y m : Z) : Z :=
  match m with
  | 1 => if leap_year y then 29 else 28
  | 3 | 5 | 8 | 10 => 30
  | _ => 31
  end.

(** Days from January 1st to the start of month [m] (from 0). *)
Definition month_start (y m : Z) : Z :=
  foldl (fun acc k => acc + month_days y k) 0 (seqZ 0 m).

(** Days from 1970-01-01 to January 1st of the year [y]. *)
Definition year_start (y : Z) : Z :=
  365 * (y - 1970) + ((y - 1) / 4 - (y - 1) / 100 + (y - 1) / 400 - 477).

(** [year_start] is what the lengths of the years make it. *)
Lemma year_start_1970 : year_start 1970 = 0.
Proof. done. Qed.

Lemma year_start_succ y : year_start (y + 1) = year_start y + 365 + b2z (leap_year y).
Proof.
  unfold year_start, leap_year, b2z. replace (y + 1 - 1) with y by lia.
  destruct (Z.eqb_spec (y mod 4) 0), (Z.eqb_spec (y mod 100) 0), (Z.eqb_spec (y mod 400) 0);
    cbn [andb orb negb]; mlia.
Qed.

(** ** Seconds of a year *)

(** Years 1902 to 2038, by evaluation. *)
Lemma year_to_secs_near year : 2 <= year <= 138 ->
  __year_to_secs year = (86400 * year_start (1900 + year), b2z (leap_year (1900 + year))).
Proof.
  intros Hy.
  assert (H : forallb (fun k => let y := 2 + k in
    bool_decide (__year_to_secs y = (86400 * year_start (1900 + y), b2z (leap_year (1900 + y)))))
    (seqZ 0 137) = true) by by vm_compute.
  rewrite forallb_forall in H. specialize (H (year - 2)).
  replace (2 + (year - 2)) with year in H by lia.
  apply bool_decide_eq_true in H; [done|]. apply list_elem_of_In, elem_of_seqZ. lia.
Qed.

(** C's truncating division, then the correction of a negative remainder. *)
Lemma floor_fix a b : 0 < b ->
  (if a %c b <? 0 then (a /c b - 1, a %c b + b) else (a /c b, a %c b)) = (a / b, a mod b).
Proof.
  intros Hb. pose proof (Z.quot_rem' a b) as Hqr.
  pose proof (Z.rem_bound_abs a b ltac:(lia)).
  destruct (Z.ltb_spec (a %c b) 0) as [Hneg|Hpos].
  - f_equal; [apply Z.div_unique with (a %c b + b)|apply Z.mod_unique with (a /c b - 1)]; lia.
  - f_equal; [apply Z.div_unique with (a %c b)|apply Z.mod_unique with (a /c b)]; lia.
Qed.

(** The year as cycles, centuries and the rest. *)
Lemma year_start_cycles c e r :
  0 <= e < 4 -> 0 <= r < 100 ->
  let y := 2000 + 400 * c + 100 * e + r in
  let l := b2z (leap_year y) in
  l = (if r =? 0 then b2z (e =? 0) else b2z (r mod 4 =? 0)) /\
  86400 * year_start y =
    (400 * c + 100 * e + r) * 31536000 + (r / 4 + 97 * c + 24 * e - l) * 86400
      + 946684800 + 86400.
Proof.
  intros He Hr. cbv zeta.
  set (y := 2000 + 400 * c + 100 * e + r).
  assert (H4 : y mod 4 = r mod 4) by (subst y; mlia).
  assert (H100 : y mod 100 = r) by (subst y; mlia).
  assert (H400 : y mod 400 = 100 * e + r) by (subst y; mlia).
  assert (Hl : b2z (leap_year y) = if r =? 0 then b2z (e =? 0) else b2z (r mod 4 =? 0)).
  { unfold leap_year. rewrite H4, H100, H400. destruct (Z.eqb_spec r 0) as [->|Hr0].
    - simpl. f_equal. lia.
    - simpl. by rewrite andb_true_r. }
  split; [done|]. rewrite Hl. unfold year_start.
  destruct (Z.eqb_spec r 0) as [->|Hr0].
  - destruct (Z.eqb_spec e 0) as [->|]; subst y; cbn [b2z]; mlia.
  - destruct (Z.eqb_spec (r mod 4) 0); subst y; cbn [b2z]; mlia.
Qed.

Lemma quot_range a b lo hi : 0 < b -> lo * b <= a <= hi * b -> lo <= 0 <= hi -> lo <= a /c b <= hi.
Proof.
  intros Hb Ha H0. pose proof (Z.quot_rem' a b). pose proof (Z.rem_bound_abs a b ltac:(lia)).
  pose proof (Z.rem_sign_nz a b). nia.
Qed.

Lemma rem_range a b : 0 < b -> - b < a %c b < b.
Proof. intros Hb. pose proof (Z.rem_bound_abs a b ltac:(lia)). lia. Qed.

Lemma year_to_secs_far year :
  - 2 ^ 32 < year < 2 ^ 32 -> ~ 2 <= year <= 138 ->
  __year_to_secs year = (86400 * year_start (1900 + year), b2z (leap_year (1900 + year))).
Proof.
  intros Hy Hfar. unfold __year_to_secs.
  replace (u64 (year - 2) <=? 136) with false.
  2: { symmetry. apply Z.leb_gt. unfold u64. mlia. }
  pose proof (quot_range (year - 100) 400 (-2 ^ 31) (2 ^ 31 - 1)) as Hq.
  pose proof (rem_range (year - 100) 400) as Hr.
  rewrite (s32_id ((year - 100) /c 400)), (s32_id ((year - 100) %c 400)) by lia.
  rewrite floor_fix by lia.
  set (c := (year - 100) / 400). set (rem := (year - 100) mod 400).
  assert (Hc : year - 100 = 400 * c + rem) by (apply Z.div_mod; lia).
  assert (Hrem : 0 <= rem < 400) by (apply Z.mod_pos_bound; lia). clearbody c rem.
  set (e := rem / 100). set (r := rem mod 100).
  assert (He : rem = 100 * e + r) by (apply Z.div_mod; lia).
  assert (Her : 0 <= e < 4 /\ 0 <= r < 100) by (subst e r; mlia). clearbody e r.
  destruct (year_start_cycles c e r) as [Hl Hys]; [lia..|].
  replace (2000 + 400 * c + 100 * e + r) with (1900 + year) in * by lia.
  rewrite Hl in Hys. rewrite Hl, Hys. clear Hl Hys.
  assert (Hcent : (if rem >=? 200 then if rem >=? 300 then (3, rem - 300) else (2, rem - 200)
                   else if rem >=? 100 then (1, rem - 100) else (0, rem)) = (e, r)).
  { repeat match goal with |- context [?a >=? ?b] => destruct (Z.geb_spec a b) end;
      f_equal; lia. }
  destruct (Z.eqb_spec rem 0) as [Hrem0|Hrem0].
  - assert (e = 0) as -> by lia. assert (r = 0) as -> by lia. cbn [Z.eqb b2z].
    rewrite s32_id, s64_id by lia. f_equal. change (0 / 4) with 0. lia.
  - rewrite Hcent. destruct (Z.eqb_spec r 0) as [->|Hr0].
    + assert ((e =? 0) = false) as -> by lia. cbn [b2z].
      rewrite s32_id, s64_id by lia. f_equal. change (0 / 4) with 0. lia.
    + rewrite Z.quot_div_nonneg, Z.rem_mod_nonneg by lia.
      assert (0 <= r / 4 < 25) by mlia.
      assert (0 <= b2z (r mod 4 =? 0) <= 1) by (destruct (r mod 4 =? 0); cbn; lia).
      rewrite s32_id, s64_id by lia. f_equal. lia.
Qed.

Lemma year_to_secs_spec year :
  - 2 ^ 32 < year < 2 ^ 32 ->
  __year_to_secs year = (86400 * year_start (1900 + year), b2z (leap_year (1900 + year))).
Proof.
  intros Hy. destruct (decide (2 <= year <= 138)).
  - by apply year_to_secs_near.
  - by apply year_to_secs_far.
Qed.

(** A fact about the twelve months of a year, by evaluation. *)
Lemma month_forall (P : Z -> Z -> bool) :
  (forall b : bool, forallb (fun m => P (if b then 2000 else 2001) m) (seqZ 0 12) = true) ->
  (forall y y' m, leap_year y = leap_year y' -> P y m = P y' m) ->
  forall y m, 0 <= m < 12 -> P y m = true.
Proof.
  intros HP Hext y m Hm. specialize (HP (leap_year y)). rewrite forallb_forall in HP.
  rewrite <- (HP m) by (apply list_elem_of_In, elem_of_seqZ; lia).
  apply Hext. by destruct (leap_year y).
Qed.

Lemma month_days_ext y y' m : leap_year y = leap_year y' -> month_days y m = month_days y' m.
Proof. unfold month_days. by intros ->. Qed.

Lemma month_start_ext y y' m : leap_year y = leap_year y' -> month_start y m = month_start y' m.
Proof.
  intros H. unfold month_start. apply foldl_ext. intros acc k. by rewrite (month_days_ext y y').
Qed.

Lemma month_to_secs_spec y m : 0 <= m < 12 ->
  __month_to_secs m (b2z (leap_year y)) = 86400 * month_start y m.
Proof.
  intros Hm. apply Z.eqb_eq. revert y m Hm.
  apply (month_forall (fun y m => __month_to_secs m (b2z (leap_year y)) =? 86400 * month_start y m)).
  - intros []; by vm_compute.
  - intros y y' m Hl. by rewrite Hl, (month_start_ext y y').
Qed.

Lemma month_start_range y m : 0 <= m < 12 -> 0 <= month_start y m <= 335.
Proof.
  intros Hm. cut ((0 <=? month_start y m) && (month_start y m <=? 335) = true); [lia|].
  revert y m Hm. apply (month_forall (fun y m => (0 <=? month_start y m) && (month_start y m <=? 335))).
  - intros []; by vm_compute.
  - intros y y' m Hl. by rewrite (month_start_ext y y').
Qed.

(** ** The time a broken-down time denotes

    The month may lie outside the year: it is carried into the year. *)
Definition civil_year (tm : tm) : Z := 1900 + tm_year tm + tm_mon tm / 12.
Definition civil_days (tm : tm) : Z :=
  year_start (civil_year tm) + month_start (civil_year tm) (tm_mon tm mod 12) + (tm_mday tm - 1).
Definition civil_secs (tm : tm) : Z :=
  86400 * civil_days tm + 3600 * tm_hour tm + 60 * tm_min tm + tm_sec tm.

Definition int (z : Z) : Prop := - 2 ^ 31 <= z < 2 ^ 31.

(** The fields are [int]s. *)
Definition tm_ints (tm : tm) : Prop :=
  int (tm_sec tm) /\ int (tm_min tm) /\ int (tm_hour tm) /\ int (tm_mday tm) /\
  int (tm_mon tm) /\ int (tm_year tm).

Lemma tm_to_secs_spec tm : tm_ints tm -> __tm_to_secs tm = civil_secs tm.
Proof.
  intros (Hs & Hmi & Hh & Hd & Hm & Hy). unfold int in *. unfold __tm_to_secs.
  set (yr := tm_year tm + tm_mon tm / 12). set (mo := tm_mon tm mod 12).
  assert (Hmo : 0 <= mo < 12) by (apply Z.mod_pos_bound; lia).
  assert (Hyr : - 2 ^ 32 < yr < 2 ^ 32) by (subst yr; mlia).
  match goal with |- context [if (?a || ?b) then ?x else ?y] =>
    assert (Hnorm : (if (a || b) then x else y) = (yr, mo)) end.
  { pose proof (floor_fix (tm_mon tm) 12 ltac:(lia)) as Hff.
    destruct ((tm_mon tm >=? 12) || (tm_mon tm <? 0)) eqn:Hb.
    - destruct (tm_mon tm %c 12 <? 0); injection Hff as Hq Hr; subst yr mo; f_equal; lia.
    - apply orb_false_iff in Hb as [Hb1 Hb2]. subst yr mo.
      rewrite Z.div_small, Z.mod_small by lia. f_equal. lia. }
  rewrite Hnorm, year_to_secs_spec, month_to_secs_spec by done.
  unfold civil_secs, civil_days, civil_year. fold mo.
  replace (1900 + tm_year tm + tm_mon tm / 12) with (1900 + yr) by (subst yr; lia).
  pose proof (month_start_range (1900 + yr) mo Hmo).
  assert (- 2 ^ 41 < year_start (1900 + yr) < 2 ^ 41) by (unfold year_start; mlia).
  set (ys := year_start (1900 + yr)) in *. set (ms := month_start _ mo) in *. clearbody ys ms.
  repeat (rewrite s64_add_l; rewrite <- ?Z.add_assoc). rewrite s64_id by lia. lia.
Qed.

(** ** From seconds to a date *)

(** Days from 2000-03-01 to the first of March of the year [2000 + n]. *)
Definition march (n : Z) : Z := 365 * n + n / 4 - n / 100 + n / 400.

Lemma march_year n :
  year_start (2000 + n) + 59 + b2z (leap_year (2000 + n)) = march n + 11017 /\
  year_start (2000 + n + 1) = march n + 11017 + 306.
Proof.
  pose proof (year_start_succ (2000 + n)) as Hs.
  assert (H : year_start (2000 + n + 1) = march n + 11017 + 306).
  { unfold year_start, march. replace (2000 + n + 1 - 1) with (2000 + n) by lia. mlia. }
  lia.
Qed.

(** Splitting the days of a 400-year cycle into centuries, quadrennia and
    years, each clipped at its last, longer, piece. *)
Lemma day_split r1 :
  0 <= r1 < DAYS_PER_400Y ->
  let c := if r1 /c DAYS_PER_100Y =? 4 then r1 /c DAYS_PER_100Y - 1 else r1 /c DAYS_PER_100Y in
  let r2 := r1 - c * DAYS_PER_100Y in
  let q := if r2 /c DAYS_PER_4Y =? 25 then r2 /c DAYS_PER_4Y - 1 else r2 /c DAYS_PER_4Y in
  let r3 := r2 - q * DAYS_PER_4Y in
  let y := if r3 /c 365 =? 4 then r3 /c 365 - 1 else r3 /c 365 in
  let r4 := r3 - y * 365 in
  0 <= c < 4 /\ 0 <= q < 25 /\ 0 <= y < 4 /\ 0 <= r4 <= 365 /\
  r1 = c * DAYS_PER_100Y + q * DAYS_PER_4Y + 365 * y + r4 /\
  (r4 = 365 -> y = 3 /\ (q = 24 -> c = 3)).
Proof.
  intros H1 c r2 q r3 y r4. unfold DAYS_PER_400Y, DAYS_PER_100Y, DAYS_PER_4Y in *.
  assert (Hc : 0 <= c < 4 /\ 0 <= r2 <= 36524 /\ (r2 = 36524 -> c = 3)).
  { subst r2 c. rewrite !Z.quot_div_nonneg by lia. destruct (Z.eqb_spec (r1 / (365 * 100 + 24)) 4); mlia. }
  assert (Hr1 : r1 = c * 36524 + r2) by (subst r2; lia). clearbody c r2.
  assert (Hq : 0 <= q < 25 /\ 0 <= r3 <= 1460 /\ (r3 = 1460 -> q = 24 -> r2 = 36524)).
  { subst r3 q. rewrite !Z.quot_div_nonneg by lia. destruct (Z.eqb_spec (r2 / (365 * 4 + 1)) 25); mlia. }
  assert (Hr2 : r2 = q * 1461 + r3) by (subst r3; lia). clearbody q r3.
  assert (Hy : 0 <= y < 4 /\ 0 <= r4 <= 365 /\ (r4 = 365 -> y = 3 /\ r3 = 1460)).
  { subst r4 y. rewrite !Z.quot_div_nonneg by lia. destruct (Z.eqb_spec (r3 / 365) 4); mlia. }
  assert (Hr3 : r3 = y * 365 + r4) by (subst r4; lia). clearbody y r4. lia.
Qed.

(** The year those pieces make, and the length of its February. *)
Lemma year_pieces k c q y r4 :
  0 <= c < 4 -> 0 <= q < 25 -> 0 <= y < 4 -> 0 <= r4 <= 365 ->
  (r4 = 365 -> y = 3 /\ (q = 24 -> c = 3)) ->
  let n := y + 4 * q + 100 * c + 400 * k in
  march n = k * DAYS_PER_400Y + c * DAYS_PER_100Y + q * DAYS_PER_4Y + 365 * y /\
  b2z (leap_year (2000 + n)) = b2z ((y =? 0) && (negb (q =? 0) || (c =? 0))) /\
  (r4 = 365 -> leap_year (2000 + n + 1) = true).
Proof.
  intros Hc Hq Hy Hr Hlast n. unfold march, DAYS_PER_400Y, DAYS_PER_100Y, DAYS_PER_4Y.
  assert (H4 : n / 4 = q + 25 * c + 100 * k) by (subst n; mlia).
  assert (H100 : n / 100 = c + 4 * k) by (subst n; mlia).
  assert (H400 : n / 400 = k) by (subst n; mlia).
  split; [rewrite H4, H100, H400; lia|]. split.
  - unfold leap_year. f_equal.
    assert ((2000 + n) mod 4 = y) as -> by (subst n; mlia).
    assert ((2000 + n) mod 100 = y + 4 * q) as -> by (subst n; mlia).
    assert ((2000 + n) mod 400 = y + 4 * q + 100 * c) as -> by (subst n; mlia). lia.
  - intros Hr4. destruct (Hlast Hr4) as [-> Hqc]. unfold leap_year.
    assert ((2000 + n + 1) mod 4 = 0) as -> by (subst n; mlia). simpl.
    destruct (decide (q = 24)) as [->|Hq24].
    + assert (c = 3) as -> by auto.
      assert ((2000 + n + 1) mod 400 = 0) as -> by (subst n; mlia). by rewrite orb_true_r.
    + assert ((2000 + n + 1) mod 100 = 4 * q + 4) as -> by (subst n; mlia).
      replace (4 * q + 4 =? 0) with false by lia. done.
Qed.

(** The month loop, for each of the 366 days of a year that starts in March. *)
Definition month_loop_ok (r4 : Z) : bool :=
  match month_loop days_in_month 0 r4 with
  | None => false
  | Some (m, d) =>
      (0 <=? d) &&
      if m >=? 10
      then (306 <=? r4) && (m <? 12) && (month_start 2001 (m - 10) + d =? r4 - 306) &&
           (d <? month_days (if r4 =? 365 then 2000 else 2001) (m - 10))
      else (r4 <? 306) && (0 <=? m) &&
           (month_start 2001 (m + 2) + d =? r4 + 59) &&
           (month_start 2000 (m + 2) + d =? r4 + 60) && (d <? month_days 2001 (m + 2)) &&
           (d <? month_days 2000 (m + 2))
  end.

Lemma month_loop_spec r4 : 0 <= r4 <= 365 -> month_loop_ok r4 = true.
Proof. intros H. apply (range_forall 366 month_loop_ok); [by vm_compute|lia]. Qed.

(** A normalised date and time. *)
Definition tm_valid (tm : tm) : Prop :=
  0 <= tm_sec tm < 60 /\ 0 <= tm_min tm < 60 /\ 0 <= tm_hour tm < 24 /\
  0 <= tm_mon tm < 12 /\ 1 <= tm_mday tm <= month_days (1900 + tm_year tm) (tm_mon tm).

(** [tm] is the broken-down time of [t]: a normalised date that denotes [t],
    with the day of the week (1970-01-01 was a Thursday) and of the year. *)
Definition tm_of (t : Z) (tm : tm) : Prop :=
  tm_valid tm /\ civil_secs tm = t /\
  tm_wday tm = (4 + civil_days tm) mod 7 /\
  tm_yday tm = civil_days tm - year_start (1900 + tm_year tm).

(** The date that the day [r4] of the year starting in March [2000 + n] is. *)
Lemma date_of_march n r4 :
  0 <= r4 <= 365 -> (r4 = 365 -> leap_year (2000 + n + 1) = true) ->
  exists m d, month_loop days_in_month 0 r4 = Some (m, d) /\
    let mon := (if m >=? 10 then m - 12 else m) + 2 in
    let yr := 2000 + (if m >=? 10 then n + 1 else n) in
    0 <= mon < 12 /\ 0 <= d < month_days yr mon /\
    year_start yr + month_start yr mon + d = march n + 11017 + r4 /\
    month_start yr mon + d =
      (let yday := r4 + 31 + 28 + b2z (leap_year (2000 + n)) in
       if yday >=? 365 + b2z (leap_year (2000 + n))
       then yday - (365 + b2z (leap_year (2000 + n))) else yday).
Proof.
  intros Hr Hlast. pose proof (month_loop_spec r4 Hr) as H. unfold month_loop_ok in H.
  destruct (month_loop days_in_month 0 r4) as [[m d]|]; [|done].
  exists m, d. split; [done|]. destruct (march_year n) as [M1 M2].
  destruct (m >=? 10) eqn:Hm; cbv zeta.
  - replace (2000 + (n + 1)) with (2000 + n + 1) by lia. rewrite !andb_true_iff in H.
    destruct H as (H0 & ((H1 & H2) & H3) & H4).
    replace (m - 12 + 2) with (m - 10) by lia.
    assert (Hms : month_start (2000 + n + 1) (m - 10) = month_start 2001 (m - 10)).
    { assert (m - 10 = 0 \/ m - 10 = 1) as [-> | ->] by lia; done. }
    assert (Hmd : d < month_days (2000 + n + 1) (m - 10)).
    { destruct (Z.eqb_spec r4 365) as [Hr4|Hr4].
      - rewrite (month_days_ext _ 2000) by (by rewrite Hlast). lia.
      - apply Z.ltb_lt in H4. eapply Z.lt_le_trans; [exact H4|].
        assert (m - 10 = 0 \/ m - 10 = 1) as [-> | ->] by lia; [done|].
        unfold month_days. by destruct (leap_year (2000 + n + 1)). }
    rewrite Hms. destruct (Z.geb_spec (r4 + 31 + 28 + b2z (leap_year (2000 + n)))
                         (365 + b2z (leap_year (2000 + n)))); lia.
  - rewrite !andb_true_iff in H. destruct H as (H0 & ((((H1 & H2) & H3) & H4) & H5) & H6).
    assert (Hms : month_start (2000 + n) (m + 2) + d = r4 + 59 + b2z (leap_year (2000 + n)) /\
                  d < month_days (2000 + n) (m + 2)).
    { destruct (leap_year (2000 + n)) eqn:Hl.
      - rewrite (month_start_ext _ 2000), (month_days_ext _ 2000) by done. cbn. lia.
      - rewrite (month_start_ext _ 2001), (month_days_ext _ 2001) by done. cbn. lia. }
    destruct (Z.geb_spec (r4 + 31 + 28 + b2z (leap_year (2000 + n)))
                         (365 + b2z (leap_year (2000 + n)))); lia.
Qed.

(** The time of day. *)
Lemma time_of_day s : 0 <= s < 86400 ->
  0 <= s %c 60 < 60 /\ 0 <= s /c 60 %c 60 < 60 /\ 0 <= s /c 3600 < 24 /\
  3600 * (s /c 3600) + 60 * (s /c 60 %c 60) + s %c 60 = s.
Proof.
  intros Hs. rewrite !Z.quot_div_nonneg by lia.
  rewrite !Z.rem_mod_nonneg by (try apply Z.div_pos; lia). mlia.
Qed.

Definition in_secs_range (t : Z) : Prop := INT_MIN * 31622400 <= t <= INT_MAX * 31622400.

(** The rest of [__secs_to_tm] once the day of the 400-year cycle is known. *)
Lemma cycle_date k r1 :
  0 <= r1 < DAYS_PER_400Y ->
  let c := r1 /c DAYS_PER_100Y in let c := if c =? 4 then c - 1 else c in
  let r2 := r1 - c * DAYS_PER_100Y in
  let q := r2 /c DAYS_PER_4Y in let q := if q =? 25 then q - 1 else q in
  let r3 := r2 - q * DAYS_PER_4Y in
  let y := r3 /c 365 in let y := if y =? 4 then y - 1 else y in
  let r4 := r3 - y * 365 in
  let leap := b2z ((y =? 0) && (negb (q =? 0) || (c =? 0))) in
  let yday := r4 + 31 + 28 + leap in
  let yday := if yday >=? 365 + leap then yday - (365 + leap) else yday in
  exists m d, month_loop days_in_month 0 r4 = Some (m, d) /\
    let n := y + 4 * q + 100 * c + 400 * k in
    let mon := (if m >=? 10 then m - 12 else m) + 2 in
    let yr := 2000 + (if m >=? 10 then n + 1 else n) in
    0 <= mon < 12 /\ 0 <= d < month_days yr mon /\
    year_start yr + month_start yr mon + d = DAYS_PER_400Y * k + r1 + 11017 /\
    month_start yr mon + d = yday.
Proof.
  intros Hr1. cbv zeta. destruct (day_split r1 Hr1) as (Hc & Hq & Hy & Hr4 & Heq & Hlast).
  set (c := if r1 /c DAYS_PER_100Y =? 4 then _ else _) in *.
  set (r2 := r1 - c * DAYS_PER_100Y) in *.
  set (q := if r2 /c DAYS_PER_4Y =? 25 then _ else _) in *.
  set (r3 := r2 - q * DAYS_PER_4Y) in *.
  set (y := if r3 /c 365 =? 4 then _ else _) in *. set (r4 := r3 - y * 365) in *.
  destruct (year_pieces k c q y r4 Hc Hq Hy Hr4 Hlast) as (Hm & Hl & Hfeb).
  set (n := y + 4 * q + 100 * c + 400 * k) in *.
  destruct (date_of_march n r4 Hr4 Hfeb) as (m & d & Hloop & Hmon & Hd & Hdays' & Hyday).
  rewrite <- Hl. exists m, d. split_and!; try done; try lia.
Qed.

(** Rewrites C's division with its corrected remainder into floor division. *)
Local Ltac floor_div a b :=
  pose proof (rem_range a b ltac:(done));
  let H := fresh in pose proof (floor_fix a b ltac:(done)) as H;
  first [ replace (if a %c b <? 0 then _ else _) with (a mod b, a / b)
            by (destruct (a %c b <? 0); congruence)
        | replace (if a %c b <? 0 then _ else _) with (a mod b)
            by (destruct (a %c b <? 0); congruence) ]; clear H.

Lemma secs_to_tm_spec t tm :
  in_secs_range t ->
  exists new, tm_of t new /\
    tm_isdst new = tm_isdst tm /\ tm_gmtoff new = tm_gmtoff tm /\ tm_zone new = tm_zone tm /\
    __secs_to_tm t tm =
      if bool_decide (INT_MIN <= tm_year new <= INT_MAX) then Some new else None.
Proof.
  unfold in_secs_range. intros Ht. unfold __secs_to_tm, INT_MIN, INT_MAX in *.
  replace ((t <? _) || (t >? _)) with false by lia.
  unfold LEAPOCH. rewrite s64_id by lia. set (u := t - _).
  rewrite (s32_id (u %c 86400)) by (pose proof (rem_range u 86400); lia). floor_div u 86400.
  set (days := u / 86400). set (rs := u mod 86400).
  assert (Hu : u = 86400 * days + rs) by (apply Z.div_mod; lia).
  assert (Hrs : 0 <= rs < 86400) by (apply Z.mod_pos_bound; lia).
  assert (Hdays : - 2 ^ 41 < days < 2 ^ 41) by (subst u; clearbody days rs; lia).
  rewrite (s32_id ((3 + days) %c 7)) by (pose proof (rem_range (3 + days) 7); lia).
  floor_div (3 + days) 7.
  assert (Hdq : -2 ^ 31 <= days /c DAYS_PER_400Y <= 2 ^ 31 - 1).
  { apply quot_range; unfold DAYS_PER_400Y; lia. }
  rewrite (s32_id (days /c _)), (s32_id (days %c _)) by
    (pose proof (rem_range days DAYS_PER_400Y ltac:(done)); unfold DAYS_PER_400Y in *; lia).
  floor_div days DAYS_PER_400Y.
  set (k := days / DAYS_PER_400Y). set (r1 := days mod DAYS_PER_400Y).
  assert (Hk : days = DAYS_PER_400Y * k + r1) by (by apply Z.div_mod).
  assert (Hr1 : 0 <= r1 < DAYS_PER_400Y) by (by apply Z.mod_pos_bound).
  destruct (cycle_date k r1 Hr1) as (m & d & Hloop & Hmon & Hd & Hday & Hyday). cbv zeta in *.
  rewrite Hloop, <- Hyday. destruct (time_of_day rs Hrs) as (Hs1 & Hs2 & Hs3 & Hs4).
  set (n := _ + 400 * k) in *. cbn [mbind option_bind].
  set (mon := (if m >=? 10 then m - 12 else m) + 2) in *.
  set (yr := if m >=? 10 then n + 1 else n) in *.
  exists (Tm (rs %c 60) (rs /c 60 %c 60) (rs /c 3600) (d + 1) mon (yr + 100) ((3 + days) mod 7)
     (month_start (2000 + yr) mon + d) (tm_isdst tm) (tm_gmtoff tm) (tm_zone tm)).
  assert (Hcd : year_start (2000 + yr) + month_start (2000 + yr) mon + d = days + 11017) by lia.
  split.
  - unfold tm_of, tm_valid, civil_secs, civil_days, civil_year.
    cbn [tm_sec tm_min tm_hour tm_mday tm_mon tm_year tm_wday tm_yday].
    rewrite Z.div_small, Z.mod_small by done.
    replace (1900 + (yr + 100) + 0) with (2000 + yr) by lia.
    replace (1900 + (yr + 100)) with (2000 + yr) by lia. replace (d + 1 - 1) with d by lia.
    rewrite Hcd. split_and!; try lia.
    replace (4 + (days + 11017)) with (3 + days + 1574 * 7) by lia. by rewrite Z.mod_add.
  - split_and!; [done..|]. cbn [tm_year].
    subst mon yr. destruct (m >=? 10).
    + case_bool_decide as Hyr; destruct ((_ >? _) || (_ <? _)) eqn:Hb; try lia; [|done].
      by rewrite s32_id by lia.
    + case_bool_decide as Hyr; destruct ((_ >? _) || (_ <? _)) eqn:Hb; try lia; [|done].
      by rewrite s32_id by lia.
Qed.

(** ** Uniqueness of the broken-down time *)
Lemma year_start_mono y y' : y <= y' -> year_start y <= year_start y'.
Proof. intros. unfold year_start. mlia. Qed.

Lemma year_start_lt y y' : y < y' -> year_start y + 365 + b2z (leap_year y) <= year_start y'.
Proof. intros. rewrite <- year_start_succ. apply year_start_mono. lia. Qed.

Lemma month_end y m : 0 <= m < 12 ->
  month_start y m + month_days y m <= 365 + b2z (leap_year y) /\
  (forall m', m < m' < 12 -> month_start y m + month_days y m <= month_start y m').
Proof.
  intros Hm. pose (P := fun y m => (month_start y m + month_days y m <=? 365 + b2z (leap_year y)) &&
    forallb (fun m' => (m' <=? m) || (month_start y m + month_days y m <=? month_start y m'))
      (seqZ 0 12)).
  assert (H : P y m = true).
  { revert y m Hm. apply month_forall; [intros []; by vm_compute|].
    intros y y' m Hl. unfold P. rewrite Hl, (month_start_ext y y' m), (month_days_ext y y') by done.
    f_equal. induction (seqZ 0 12) as [|m' l IH]; [done|]. cbn [forallb].
    by rewrite (month_start_ext y y' m'), IH. }
  unfold P in H. rewrite andb_true_iff, forallb_forall in H. destruct H as [H1 H2].
  split; [lia|]. intros m' Hm'. specialize (H2 m').
  rewrite <- list_elem_of_In, elem_of_seqZ in H2. lia.
Qed.

Lemma valid_year tm : tm_valid tm ->
  civil_year tm = 1900 + tm_year tm /\ tm_mon tm mod 12 = tm_mon tm /\
  0 <= civil_days tm - year_start (1900 + tm_year tm) < 365 + b2z (leap_year (1900 + tm_year tm)).
Proof.
  intros (_ & _ & _ & Hm & Hd).
  assert (Hy : civil_year tm = 1900 + tm_year tm).
  { unfold civil_year. rewrite (Z.div_small (tm_mon tm)) by done. lia. }
  assert (Hmm : tm_mon tm mod 12 = tm_mon tm) by (by apply Z.mod_small).
  split; [done|]. split; [done|]. unfold civil_days. rewrite Hy, Hmm.
  pose proof (month_end (1900 + tm_year tm) _ Hm) as [He _].
  pose proof (month_start_range (1900 + tm_year tm) _ Hm). lia.
Qed.

Lemma tm_unique a b :
  tm_valid a -> tm_valid b -> civil_secs a = civil_secs b ->
  tm_sec a = tm_sec b /\ tm_min a = tm_min b /\ tm_hour a = tm_hour b /\
  tm_mday a = tm_mday b /\ tm_mon a = tm_mon b /\ tm_year a = tm_year b.
Proof.
  intros Ha Hb Heq.
  destruct (valid_year a Ha) as (Ya & Ma & Da). destruct (valid_year b Hb) as (Yb & Mb & Db).
  destruct Ha as (Ha1 & Ha2 & Ha3 & Ha4 & Ha5). destruct Hb as (Hb1 & Hb2 & Hb3 & Hb4 & Hb5).
  unfold civil_secs in Heq. assert (Hd : civil_days a = civil_days b) by lia.
  assert (Hy : tm_year a = tm_year b).
  { destruct (Z.lt_trichotomy (tm_year a) (tm_year b)) as [Hlt|[?|Hlt]]; [exfalso|done|exfalso].
    - pose proof (year_start_lt (1900 + tm_year a) (1900 + tm_year b)). lia.
    - pose proof (year_start_lt (1900 + tm_year b) (1900 + tm_year a)). lia. }
  unfold civil_days in Hd. rewrite Ya, Yb, Ma, Mb, Hy in Hd. rewrite Hy in Ha5.
  pose proof (proj2 (month_end (1900 + tm_year b) _ Ha4)) as Ea.
  pose proof (proj2 (month_end (1900 + tm_year b) _ Hb4)) as Eb.
  assert (Hm : tm_mon a = tm_mon b).
  { destruct (Z.lt_trichotomy (tm_mon a) (tm_mon b)) as [Hlt|[?|Hlt]]; [exfalso|done|exfalso].
    - specialize (Ea (tm_mon b)). lia.
    - specialize (Eb (tm_mon a)). lia. }
  rewrite Hm in Hd. lia.
Qed.

(** A date in an [int] year is within the range [__secs_to_tm] accepts. *)
Lemma int_year_range t tm :
  tm_of t tm -> INT_MIN <= tm_year tm <= INT_MAX -> in_secs_range t.
Proof.
  intros (Hv & <- & _) Hy. destruct (valid_year tm Hv) as (_ & _ & Hd).
  destruct Hv as (H1 & H2 & H3 & _). unfold in_secs_range, INT_MIN, INT_MAX in *.
  pose proof (year_start_mono (1900 - 2147483648) (1900 + tm_year tm) ltac:(lia)) as Hlo.
  pose proof (year_start_mono (1900 + tm_year tm) (1900 + 2147483647) ltac:(lia)) as Hhi.
  assert (b2z (leap_year (1900 + tm_year tm)) <= 1) by (destruct (leap_year _); cbn; lia).
  assert (year_start (1900 - 2147483648) >= -2147483648 * 366) by (by vm_compute).
  assert (year_start (1900 + 2147483647) + 366 <= 2147483647 * 366) by (by vm_compute).
  unfold civil_secs. lia.
Qed.

Lemma gmtime_r_spec __utc t tm0 :
  (forall new, __gmtime_r __utc t tm0 = Some new ->
     tm_of t new /\ int (tm_year new) /\
     tm_isdst new = 0 /\ tm_gmtoff new = 0 /\ tm_zone new = __utc) /\
  (__gmtime_r __utc t tm0 = None <-> forall tm, tm_of t tm -> ~ int (tm_year tm)).
Proof.
  unfold __gmtime_r. destruct (decide (in_secs_range t)) as [Ht|Ht].
  - destruct (secs_to_tm_spec t tm0 Ht) as (new & Hof & _ & _ & _ & ->).
    case_bool_decide as Hy; cbn [mbind option_bind]; unfold int, INT_MIN, INT_MAX in *.
    + split; [intros ? [= <-]; split; [done|]; simpl; split_and!; try done; lia|].
      split; [done|]. intros H. exfalso. apply (H new Hof). lia.
    + split; [done|]. split; [|done]. intros _ tm Htm Hint. apply Hy.
      destruct (tm_unique tm new) as (_ & _ & _ & _ & _ & <-).
      * apply Htm.
      * apply Hof.
      * by rewrite (proj1 (proj2 Htm)), (proj1 (proj2 Hof)).
      * lia.
  - assert (__secs_to_tm t tm0 = None) as ->.
    { unfold __secs_to_tm. replace ((t <? _) || (t >? _)) with true; [done|].
      unfold in_secs_range in Ht. lia. }
    split; [done|]. split; [|done]. intros _ tm Htm Hint. apply Ht.
    apply (int_year_range t tm Htm). unfold int, INT_MIN, INT_MAX in *. lia.
Qed.

(** The result does not depend on the old contents of the structure. *)
Lemma gmtime_r_same __utc t tm0 tm1 : __gmtime_r __utc t tm0 = __gmtime_r __utc t tm1.
Proof.
  unfold __gmtime_r. destruct (decide (in_secs_range t)) as [Ht|Ht].
  - destruct (secs_to_tm_spec t tm0 Ht) as (a & Ha & _ & _ & _ & ->).
    destruct (secs_to_tm_spec t tm1 Ht) as (b & Hb & _ & _ & _ & ->).
    assert (Hab : set_utc __utc a = set_utc __utc b /\ tm_year a = tm_year b).
    { destruct Ha as (Hva & Hca & Hwa & Hya), Hb as (Hvb & Hcb & Hwb & Hyb).
      destruct (tm_unique a b) as (H1 & H2 & H3 & H4 & H5 & H6); [done|done|congruence|].
      assert (Hcd : civil_days a = civil_days b) by (unfold civil_secs in *; lia).
      unfold set_utc. by rewrite Hwa, Hwb, Hya, Hyb, H1, H2, H3, H4, H5, H6, Hcd. }
    destruct Hab as [Hs ->]. case_bool_decide; cbn [mbind option_bind]; [by rewrite Hs|done].
  - assert (Hnone : forall x, __secs_to_tm t x = None); [|by rewrite !Hnone].
    intros x. unfold __secs_to_tm. replace ((t <? _) || (t >? _)) with true; [done|].
    unfold in_secs_range in Ht. lia.
Qed.

Lemma valid_ints tm : tm_valid tm -> int (tm_year tm) -> tm_ints tm.
Proof.
  intros (H1 & H2 & H3 & H4 & H5) Hy. unfold tm_ints, int in *.
  assert (month_days (1900 + tm_year tm) (tm_mon tm) <= 366).
  { pose proof (month_end (1900 + tm_year tm) _ H4) as [He _].
    pose proof (month_start_range (1900 + tm_year tm) _ H4).
    assert (b2z (leap_year (1900 + tm_year tm)) <= 1) by (destruct (leap_year _); cbn; lia). lia. }
  lia.
Qed.

(** ** Properties *)

(** [__tm_to_secs] returns the number of seconds from the Epoch to the date
    its argument denotes in the proleptic Gregorian calendar, for every value
    of the [int] fields: months outside 0..11 are carried into the year, all
    other fields count linearly, and no intermediate result overflows. *)
Theorem tm_to_secs_correct tm : tm_ints tm -> __tm_to_secs tm = civil_secs tm.
Proof. apply tm_to_secs_spec. Qed.

Definition sample_tm : tm := Tm 61 (-1) 25 0 (-13) 100 0 0 0 0 0.

Lemma tm_to_secs_correct_witness :
  __tm_to_secs sample_tm = civil_secs sample_tm /\ civil_secs sample_tm = 912474001.
Proof.
  split; [|by vm_compute]. apply (tm_to_secs_correct sample_tm).
  unfold tm_ints, int. simpl. lia.
Defined.

(** C24: [gmtime_r] breaks a time down into the one normalised Gregorian date
    that denotes it, with its day of the week and of the year, in UTC; it fails
    exactly for the times whose year does not fit an [int]. *)
Theorem gmtime_r_correct __utc t tm0 :
  (forall new, __gmtime_r __utc t tm0 = Some new ->
     tm_of t new /\ int (tm_year new) /\
     tm_isdst new = 0 /\ tm_gmtoff new = 0 /\ tm_zone new = __utc) /\
  (__gmtime_r __utc t tm0 = None <-> forall tm, tm_of t tm -> ~ int (tm_year tm)).
Proof. apply gmtime_r_spec. Qed.

(** The last second of February 2000; the year 2^31 + 1900. *)
Lemma gmtime_r_correct_witness :
  tm_of 951868799 (Tm 59 59 23 29 1 100 2 59 0 0 77) /\
  forall tm, tm_of 67768036191694800 tm -> ~ int (tm_year tm).
Proof.
  split.
  - refine (proj1 (proj1 (gmtime_r_correct 77 951868799 sample_tm) _ _)). by vm_compute.
  - apply (proj2 (gmtime_r_correct 77 67768036191694800 sample_tm)). by vm_compute.
Defined.

(** [timegm] and [gmtime_r] are inverse to each other: converting a time to
    UTC and back gives the same time and leaves the structure as it was; and a
    normalised date survives the way to seconds and back unchanged. *)
Theorem timegm_gmtime_roundtrip __utc t tm0 tm1 a :
  __gmtime_r __utc t tm0 = Some a ->
  timegm __utc tm1 a = Some (t, a) /\
  (forall b, tm_valid b -> tm_ints b -> civil_secs b = t ->
     tm_sec b = tm_sec a /\ tm_min b = tm_min a /\ tm_hour b = tm_hour a /\
     tm_mday b = tm_mday a /\ tm_mon b = tm_mon a /\ tm_year b = tm_year a /\
     timegm __utc tm1 b = Some (t, a)).
Proof.
  intros Ha. destruct (proj1 (gmtime_r_spec __utc t tm0) a Ha) as (Hof & Hy & Hz).
  assert (Hback : forall b, tm_valid b -> tm_ints b -> civil_secs b = t ->
    timegm __utc tm1 b = Some (t, a)).
  { intros b Hv Hi Hb. unfold timegm. rewrite tm_to_secs_spec, Hb by done.
    pose proof (gmtime_r_same __utc t tm0 tm1) as Hsame. rewrite Ha in Hsame.
    unfold __gmtime_r in Hsame. destruct (__secs_to_tm t tm1); [|done].
    cbn in Hsame |- *. congruence. }
  split.
  - apply Hback; [apply Hof| |apply Hof]. by apply valid_ints; [apply Hof|].
  - intros b Hv Hi Hb. destruct (tm_unique b a) as (-> & -> & -> & -> & -> & ->);
      [done|apply Hof|by rewrite Hb, (proj1 (proj2 Hof))|]. split_and!; auto.
Qed.

Lemma timegm_gmtime_roundtrip_witness :
  timegm 77 sample_tm (Tm 59 59 23 29 1 100 2 59 0 0 77) =
    Some (951868799, Tm 59 59 23 29 1 100 2 59 0 0 77).
Proof.
  refine (proj1 (timegm_gmtime_roundtrip 77 951868799 sample_tm sample_tm _ _)).
  by vm_compute.
Defined.
