(* ===== verification/Utf8.v ===== *)
(** Conversion between multibyte and wide characters:
    src/musl-1.1.19/src/multibyte/.

    A byte sequence handed to a decoder is the list of the bytes that may be
    read; reading past its end is the outer result [None].  The [unsigned] in
    an [mbstate_t] is a 32-bit [Z].  [size_t] results are 64-bit, so [-1] and
    [-2] are [SIZE_MAX] and [SIZE_MAX - 1].  [mb_cur_max] is the value of
    [MB_CUR_MAX] in the current locale: 1 in the C locale, 4 in the UTF-8
    ones. *)
From S2P Require Import Prelude.
#[local] Open Scope c_scope.

(** ** internal.h and internal.c *)
Definition OOB (c b : Z) : Z := (((b >> 3) - 0x10) .| ((b >> 3) + (s32 c >> 26))) & Z.lnot 7.
Definition R (a b : Z) : Z := u32 (u32 (if a =? 0x80 then 0x40 - b else 0 - a) << 23).
Definition FAILSTATE : Z := R 0x80 0x80.
Definition SA : Z := 0xc2.
Definition SB : Z := 0xf4.
Definition CODEUNIT (c : Z) : Z := 0xdfff & s8 c.
Definition IS_CODEUNIT (c : Z) : bool := u32 (u32 c - 0xdf80) <? 0x80.

Definition C (x : Z) : Z := if x <? 2 then u32 (-1) else R 0x80 0xc0 .| x.
Definition D (x : Z) : Z := C (x + 16).
Definition E (x : Z) : Z :=
  (if x =? 0 then R 0xa0 0xc0 else if x =? 0xd then R 0x80 0xa0 else R 0x80 0xc0)
    .| (R 0x80 0xc0 >> 6) .| x.
Definition F (x : Z) : Z :=
  (if x >=? 5 then 0 else if x =? 0 then R 0x90 0xc0 else if x =? 4 then R 0x80 0x90
   else R 0x80 0xc0)
    .| (R 0x80 0xc0 >> 6) .| (R 0x80 0xc0 >> 12) .| x.

Definition bittab : list Z :=
  map C (seqZ 2 14) ++ map D (seqZ 0 16) ++ map E (seqZ 0 16) ++ map F (seqZ 0 5).

(** ** Operations *)
Definition ERR : Z := 2 ^ 64 - 1.   (* (size_t)-1 *)
Definition INC : Z := 2 ^ 64 - 2.   (* (size_t)-2 *)
Definition PENDING : Z := 2 ^ 64 - 3.   (* (size_t)-3 *)

(** What a decoder does: its result, the character it stores, the state it
    leaves, and whether it sets [errno] to [EILSEQ]. *)
Record mbr := Mbr { ret : Z; out : option Z; st : Z; eilseq : bool }.

Definition ilseq : mbr := Mbr ERR None 0 true.

(** From the label [loop] on; [N] is the [unsigned] copy of the byte count. *)
Fixpoint mb_loop (s : list Z) (n N c : Z) : option mbr :=
  match s with
  | [] => None
  | b :: s =>
      let c := u32 (c << 6) .| u32 (b - 0x80) in
      let n := n - 1 in
      if (c & (1 << 31)) =? 0 then Some (Mbr (u64 (N - n)) (Some c) 0 false)
      else if negb (n =? 0) then
        match s with
        | [] => None
        | b' :: _ => if u32 (b' - 0x80) >=? 0x40 then Some ilseq else mb_loop s n N c
        end
      else Some (Mbr INC None c false)
  end.

(** From the second [if (n)] on. *)
Definition mb_cont (s : list Z) (n N c : Z) : option mbr :=
  if negb (n =? 0) then
    b ← head s;
    if negb (OOB c b =? 0) then Some ilseq else mb_loop s n N c
  else Some (Mbr INC None c false).

Definition mbrtowc (mb_cur_max : Z) (src : option (list Z)) (n c : Z) : option mbr :=
  let N := u32 n in
  match src with
  | None => Some (if negb (c =? 0) then ilseq else Mbr 0 None c false)
  | Some s =>
      if n =? 0 then Some (Mbr INC None c false)
      else if c =? 0 then
        b ← head s;
        if b <? 0x80 then Some (Mbr (b2z (negb (b =? 0))) (Some b) c false)
        else if mb_cur_max =? 1 then Some (Mbr 1 (Some (CODEUNIT b)) c false)
        else if u32 (b - SA) >? SB - SA then Some ilseq
        else mb_cont (tail s) (n - 1) N (bittab !!! Z.to_nat (b - SA))
      else mb_cont s n N c
  end.

(** The bytes written and the result; [EILSEQ] is [([], ERR)].  [s] tells
    whether the pointer is non-null. *)
Definition wcrtomb (mb_cur_max : Z) (s : bool) (wc : Z) : list Z * Z :=
  let w := u32 wc in
  if negb s then ([], 1)
  else if w <? 0x80 then ([u8 wc], 1)
  else if mb_cur_max =? 1 then
    if negb (IS_CODEUNIT wc) then ([], ERR) else ([u8 wc], 1)
  else if w <? 0x800 then
    ([u8 (0xc0 .| (wc >> 6)); u8 (0x80 .| (wc & 0x3f))], 2)
  else if (w <? 0xd800) || (u32 (w - 0xe000) <? 0x2000) then
    ([u8 (0xe0 .| (wc >> 12)); u8 (0x80 .| ((wc >> 6) & 0x3f)); u8 (0x80 .| (wc & 0x3f))], 3)
  else if u32 (w - 0x10000) <? 0x100000 then
    ([u8 (0xf0 .| (wc >> 18)); u8 (0x80 .| ((wc >> 12) & 0x3f));
      u8 (0x80 .| ((wc >> 6) & 0x3f)); u8 (0x80 .| (wc & 0x3f))], 4)
  else ([], ERR).

(** [mbtowc]: result (an [int]) and the character stored. *)
Definition mbtowc (mb_cur_max : Z) (src : option (list Z)) (n : Z) : option (Z * option Z) :=
  match src with
  | None => Some (0, None)
  | Some s =>
      if n =? 0 then Some (-1, None) else
      b0 ← head s;
      if b0 <? 0x80 then Some (b2z (negb (b0 =? 0)), Some b0)
      else if mb_cur_max =? 1 then Some (1, Some (CODEUNIT b0))
      else if u32 (b0 - SA) >? SB - SA then Some (-1, None)
      else
      let c := bittab !!! Z.to_nat (b0 - SA) in
      if (if n <? 4 then negb ((u32 (c << (6 * n - 6)) & (1 << 31)) =? 0) else false) then Some (-1, None) else
      b1 ← s !! 1%nat;
      if negb (OOB c b1 =? 0) then Some (-1, None) else
      let c := u32 (c << 6) .| u32 (b1 - 0x80) in
      if (c & (1 << 31)) =? 0 then Some (2, Some c) else
      b2 ← s !! 2%nat;
      if u32 (b2 - 0x80) >=? 0x40 then Some (-1, None) else
      let c := u32 (c << 6) .| u32 (b2 - 0x80) in
      if (c & (1 << 31)) =? 0 then Some (3, Some c) else
      b3 ← s !! 3%nat;
      if u32 (b3 - 0x80) >=? 0x40 then Some (-1, None) else
      Some (4, Some (u32 (c << 6) .| u32 (b3 - 0x80)))
  end.

Definition mbsinit (st : option Z) : bool :=
  match st with None => true | Some c => c =? 0 end.

(** [btowc] and [wctob]; [WEOF] is [UINT_MAX], [EOF] is -1. *)
Definition btowc (mb_cur_max c : Z) : Z :=
  let b := u8 c in
  if b <? 128 then b
  else if (mb_cur_max =? 1) && negb (c =? -1) then CODEUNIT c else 2 ^ 32 - 1.
Definition wctob (mb_cur_max c : Z) : Z :=
  if c <? 128 then c
  else if (mb_cur_max =? 1) && IS_CODEUNIT c then u8 c else -1.

(** [c16rtomb]: bytes written, result, new state, [EILSEQ]. *)
Definition c16rtomb (mb_cur_max : Z) (s : bool) (c16 x : Z) : list Z * Z * Z * bool :=
  if negb s then if negb (x =? 0) then ([], ERR, 0, true) else ([], 1, x, false)
  else if (x =? 0) && (u32 (c16 - 0xd800) <? 0x400)
  then ([], 0, u32 ((c16 - 0xd7c0) << 10), false)
  else if negb (x =? 0) then
    if u32 (c16 - 0xdc00) >=? 0x400 then ([], ERR, 0, true)
    else
      let '(l, r) := wcrtomb mb_cur_max s (s32 (x + c16 - 0xdc00)) in (l, r, 0, r =? ERR)
  else let '(l, r) := wcrtomb mb_cur_max s c16 in (l, r, x, r =? ERR).

(** [mbrtoc16] after the test of [s]. *)
Definition mbrtoc16_from (mb_cur_max : Z) (s : list Z) (n pending : Z) : option mbr :=
  if s32 pending >? 0 then Some (Mbr PENDING (Some (u16 pending)) 0 false)
  else
    r ← mbrtowc mb_cur_max (Some s) n pending;
    Some (if ret r <=? 4 then
            match out r with
            | Some wc =>
                if wc >=? 0x10000
                then Mbr (ret r) (Some (u16 (0xd7c0 + (wc >> 10)))) ((wc & 0x3ff) + 0xdc00) (eilseq r)
                else Mbr (ret r) (Some (u16 wc)) (st r) (eilseq r)
            | None => r
            end
          else r).
(** A null [s] stands for an empty string whose character is not stored. *)
Definition mbrtoc16 (mb_cur_max : Z) (s : option (list Z)) (n pending : Z) : option mbr :=
  match s with
  | None => r ← mbrtoc16_from mb_cur_max [0] 1 pending; Some (Mbr (ret r) None (st r) (eilseq r))
  | Some s => mbrtoc16_from mb_cur_max s n pending
  end.

(** ** UTF-8 as Unicode defines it *)
Definition scalar (cp : Z) : Prop := 0 <= cp < 0xd800 \/ 0xe000 <= cp < 0x110000.

Definition enc (cp : Z) : list Z :=
  if cp <? 0x80 then [cp]
  else if cp <? 0x800 then [0xc0 + cp / 64; 0x80 + cp mod 64]
  else if cp <? 0x10000 then
    [0xe0 + cp / 4096; 0x80 + cp / 64 mod 64; 0x80 + cp mod 64]
  else
    [0xf0 + cp / 262144; 0x80 + cp / 4096 mod 64; 0x80 + cp / 64 mod 64; 0x80 + cp mod 64].

(** Table 3-7 of the standard, well-formed byte sequences: the second byte. *)
Definition between (a b x : Z) : bool := (a <=? x) && (x <=? b).
Definition second_ok (b0 b1 : Z) : bool :=
  if b0 =? 0xe0 then between 0xa0 0xbf b1
  else if b0 =? 0xed then between 0x80 0x9f b1
  else if b0 =? 0xf0 then between 0x90 0xbf b1
  else if b0 =? 0xf4 then between 0x80 0x8f b1
  else between 0x80 0xbf b1.

(** Bytes in the sequence that a lead byte starts. *)
Definition lead_len (b0 : Z) : option nat :=
  if between 0xc2 0xdf b0 then Some 2%nat
  else if between 0xe0 0xef b0 then Some 3%nat
  else if between 0xf0 0xf4 b0 then Some 4%nat else None.

Definition lead_bits (b0 : Z) : Z :=
  if b0 <? 0xe0 then b0 - 0xc0 else if b0 <? 0xf0 then b0 - 0xe0 else b0 - 0xf0.

Inductive decoded := Good (k : nat) (cp : Z) | Partial | Bad.

(** The value of a lead byte and its continuation bytes. *)
Definition compose (b0 : Z) (bs : list Z) : Z :=
  foldl (fun acc b => acc * 64 + (b - 0x80)) (lead_bits b0) bs.

(** Reading a character off the front of [l]. *)
Definition u8dec (l : list Z) : decoded :=
  match l with
  | [] => Partial
  | b0 :: l =>
      if b0 <? 0x80 then Good 1 b0
      else match lead_len b0 with
           | None => Bad
           | Some k =>
               let bs := take (k - 1) l in
               let ok := match bs with
                         | [] => true
                         | b1 :: bs => second_ok b0 b1 && forallb (between 0x80 0xbf) bs
                         end in
               if ok then if decide (length bs = k - 1)%nat then Good k (compose b0 bs) else Partial
               else Bad
           end
  end.

(** ** The state machine, arithmetically *)
Definition push (c b : Z) : Z := u32 (c << 6) .| u32 (b - 0x80).

Lemma push_spec c b : 0 <= c -> 0x80 <= b <= 0xbf -> push c b = (64 * c) mod 2 ^ 32 + (b - 0x80).
Proof.
  intros Hc Hb. unfold push. rewrite (u32_id (b - 128)) by lia.
  unfold u32. rewrite Z.shiftl_mul_pow2 by lia.
  assert ((c * 2 ^ 6) mod 2 ^ 32 = (c mod 2 ^ 26) * 2 ^ 6) as ->.
  { change (2 ^ 32) with (2 ^ 26 * 2 ^ 6). rewrite Z.mul_mod_distr_r by lia. done. }
  rewrite Z.lor_comm, lor_add by lia. mlia.
Qed.

Lemma hibit c : 0 <= c < 2 ^ 32 -> ((c & (1 << 31)) =? 0) = (c <? 2 ^ 31).
Proof.
  intros Hc. change (1 << 31) with (1 * 2 ^ 31).
  assert (Hsplit : c = c mod 2 ^ 31 + (c / 2 ^ 31) * 2 ^ 31) by mlia.
  assert (Hlow : 0 <= c mod 2 ^ 31 < 2 ^ 31) by mlia.
  assert (Hq : c / 2 ^ 31 = 0 \/ c / 2 ^ 31 = 1) by mlia.
  rewrite Hsplit at 1. rewrite <- (lor_add 31) by lia.
  rewrite Z.land_lor_distr_l.
  assert (Z.land (c mod 2 ^ 31) (1 * 2 ^ 31) = 0) as ->.
  { apply Z.bits_inj'. intros i Hi. rewrite Z.land_spec, Z.bits_0.
    rewrite <- Z.shiftl_mul_pow2 by lia. destruct (decide (i < 31)).
    - by rewrite Z.shiftl_spec_low, andb_false_r by lia.
    - rewrite Z.mod_pow2_bits_high by lia. done. }
  destruct Hq as [Hq|Hq]; rewrite Hq; [change (0 * 2 ^ 31) with 0|]; simpl; mlia.
Qed.

(** The table: which bytes may follow a lead byte, ... *)
Definition lead_state (b0 : Z) : Z := bittab !!! Z.to_nat (b0 - SA).

Lemma lead_forall (P : Z -> bool) :
  forallb P (seqZ 0xc2 51) = true -> forall b, 0xc2 <= b <= 0xf4 -> P b = true.
Proof.
  intros H b Hb. rewrite forallb_forall in H. apply H, list_elem_of_In, elem_of_seqZ. lia.
Qed.

Lemma OOB_lead b0 b1 : 0xc2 <= b0 <= 0xf4 -> byte b1 ->
  (OOB (lead_state b0) b1 =? 0) = second_ok b0 b1.
Proof.
  intros H0 H1. apply eqb_prop. revert b1 H1.
  apply (byte_forall (fun b1 => Bool.eqb (OOB (lead_state b0) b1 =? 0) (second_ok b0 b1))).
  revert b0 H0.
  apply (lead_forall (fun b0 => forallb (fun b1 =>
    Bool.eqb (OOB (lead_state b0) b1 =? 0) (second_ok b0 b1)) (seqZ 0 256))). by vm_compute.
Qed.

(** ... and its state with the high bits that count the bytes to come. *)
Definition marks (k : nat) : Z :=
  match k with 3%nat => 0xc0000000 | 4%nat => 0xc3000000 | _ => 0 end.

Lemma lead_state_shift b0 k : lead_len b0 = Some k ->
  0 <= lead_state b0 /\ (64 * lead_state b0) mod 2 ^ 32 = marks k + 64 * lead_bits b0 /\
  0 <= lead_bits b0 < 32 /\ lead_state b0 <> 0.
Proof.
  intros Hk. assert (Hb : 0xc2 <= b0 <= 0xf4).
  { unfold lead_len, between in Hk. repeat case_match; simplify_eq; lia. }
  assert (H : (match lead_len b0 with None => false | Some k =>
    (0 <? lead_state b0) && ((64 * lead_state b0) mod 2 ^ 32 =? marks k + 64 * lead_bits b0) &&
    (0 <=? lead_bits b0) && (lead_bits b0 <? 32) end) = true).
  { clear Hk. revert b0 Hb. apply lead_forall. by vm_compute. }
  rewrite Hk in H. lia.
Qed.

(** A state inside a sequence, past its second byte: any continuation byte. *)
Lemma OOB_inner c b : 0xc0000000 <= c < 0xc4000000 -> byte b ->
  (OOB c b =? 0) = between 0x80 0xbf b.
Proof.
  intros Hc Hb. unfold OOB. assert (s32 c >> 26 = -16) as ->.
  { unfold s32. rewrite Z.shiftr_div_pow2 by lia. mlia. }
  apply eqb_prop. revert b Hb.
  apply (byte_forall (fun b => Bool.eqb (((((b >> 3) - 16) .| ((b >> 3) + -16)) & Z.lnot 7) =? 0)
    (between 128 191 b))). by vm_compute.
Qed.

Lemma cont_test b : byte b -> (u32 (b - 0x80) >=? 0x40) = negb (between 0x80 0xbf b).
Proof. intros Hb. unfold byte, between, u32 in *. mlia. Qed.

(** The state after the bytes of a partial character. *)
Definition pstate (p : list Z) : Z :=
  match p with [] => 0 | b0 :: bs => foldl push (lead_state b0) bs end.

Lemma push_range c b : 0 <= c -> byte b -> 0 <= push c b < 2 ^ 32.
Proof.
  intros Hc Hb. unfold push. pose proof (u32_range (c << 6)) as H1.
  pose proof (u32_range (b - 128)) as H2. split; [apply Z.lor_nonneg; lia|].
  set (x := u32 (c << 6)) in *. set (y := u32 (b - 128)) in *.
  rewrite <- (Z.mod_small x (2 ^ 32)), <- (Z.mod_small y (2 ^ 32)) by lia.
  rewrite <- !Z.land_ones, <- Z.land_lor_distr_l, Z.land_ones by lia. apply Z.mod_pos_bound. lia.
Qed.

(** The arithmetic of the accumulated states. *)
Lemma states b0 k b1 b2 b3 :
  lead_len b0 = Some k ->
  0x80 <= b1 <= 0xbf -> 0x80 <= b2 <= 0xbf -> 0x80 <= b3 <= 0xbf ->
  let c1 := push (lead_state b0) b1 in let c2 := push c1 b2 in let c3 := push c2 b3 in
  match k with
  | 2%nat => c1 = compose b0 [b1]
  | 3%nat => 0xc0000000 <= c1 < 0xc4000000 /\ c2 = compose b0 [b1; b2]
  | _ => 0xc0000000 <= c1 < 0xc4000000 /\ 0xc0000000 <= c2 < 0xc4000000 /\
         (lead_bits b0 < 8 -> c3 = compose b0 [b1; b2; b3])
  end.
Proof.
  intros Hk H1 H2 H3. cbv zeta. destruct (lead_state_shift b0 k Hk) as (Hc0 & Hc & Hx & _).
  rewrite (push_spec (lead_state b0)), Hc by lia. unfold compose. cbn [foldl].
  unfold lead_len in Hk. repeat case_match; simplify_eq; unfold marks.
  - lia.
  - rewrite push_spec by lia.
    assert (lead_bits b0 < 16) by (unfold lead_bits, between in *; repeat case_match; lia).
    split; [lia|]. mlia.
  - rewrite (push_spec (_ + _ + _)), push_spec by (try apply Z.add_nonneg_nonneg; mlia).
    split; [lia|]. split; mlia.
Qed.

(** One round of the loop, on a continuation byte. *)
Lemma mb_loop_step b s n N c :
  0 <= c -> 0x80 <= b <= 0xbf -> bytes s ->
  mb_loop (b :: s) n N c =
    if push c b <? 2 ^ 31 then Some (Mbr (u64 (N - (n - 1))) (Some (push c b)) 0 false)
    else if n =? 1 then Some (Mbr INC None (push c b) false)
    else match s with
         | [] => None
         | b' :: _ => if between 0x80 0xbf b' then mb_loop s (n - 1) N (push c b) else Some ilseq
         end.
Proof.
  intros Hc Hb Hs. cbn [mb_loop]. fold (push c b).
  rewrite hibit by (apply push_range; unfold byte; lia).
  destruct (push c b <? 2 ^ 31); [done|].
  destruct (Z.eqb_spec n 1) as [->|Hn]; [done|].
  replace (n - 1 =? 0) with false by lia. cbn [negb]. destruct s as [|b' s]; [done|].
  apply Forall_cons_1 in Hs as [Hb' _]. rewrite cont_test by done. by destruct (between _ _ b').
Qed.

(** Entering the loop on the first byte. *)
Lemma mb_cont_step b s N c ok :
  (OOB c b =? 0) = ok ->
  mb_cont (b :: s) (Z.of_nat (length (b :: s))) N c =
    if ok then mb_loop (b :: s) (Z.of_nat (length (b :: s))) N c else Some ilseq.
Proof.
  intros Hok. unfold mb_cont. replace (Z.of_nat (length (b :: s)) =? 0) with false by (simpl; lia).
  cbn [negb head mbind option_bind]. rewrite Hok. by destruct ok.
Qed.

Definition mb_result (p s : list Z) (N : Z) : mbr :=
  match u8dec (p ++ s) with
  | Good k cp => Mbr (u64 (N - (Z.of_nat (length (p ++ s)) - Z.of_nat k))) (Some cp) 0 false
  | Partial => Mbr INC None (pstate (p ++ s)) false
  | Bad => ilseq
  end.

Lemma between_true a b x : between a b x = true <-> a <= x <= b.
Proof. unfold between. lia. Qed.

Lemma second_cont b0 b1 : second_ok b0 b1 = true -> 0x80 <= b1 <= 0xbf.
Proof. unfold second_ok, between. repeat case_match; lia. Qed.

Lemma lead_range b0 k : lead_len b0 = Some k ->
  0xc2 <= b0 <= 0xf4 /\ (k = 2 \/ k = 3 \/ k = 4)%nat /\ (k = 4%nat -> lead_bits b0 < 8).
Proof.
  unfold lead_len, lead_bits, between. repeat case_match; intros; simplify_eq;
    (split; [lia|]); (split; [lia|]); intros; lia.
Qed.

Lemma app_snoc {A} (x : A) l k : l ++ x :: k = (l ++ [x]) ++ k.
Proof. by rewrite <- app_assoc. Qed.

(** The bytes after the lead are what Table 3-7 allows. *)
Definition okseq (b0 : Z) (bs : list Z) : bool :=
  match bs with [] => true | b1 :: bs => second_ok b0 b1 && forallb (between 0x80 0xbf) bs end.

Definition next_ok (b0 : Z) (bs : list Z) (b : Z) : bool :=
  match bs with [] => second_ok b0 b | _ => between 0x80 0xbf b end.

Lemma okseq_snoc b0 bs b : okseq b0 (bs ++ [b]) = okseq b0 bs && next_ok b0 bs b.
Proof.
  destruct bs as [|b1 bs]; simpl; [by rewrite andb_true_r|].
  rewrite forallb_app. simpl. by rewrite andb_true_r, andb_assoc.
Qed.

Lemma okseq_app b0 bs l : okseq b0 bs = false -> okseq b0 (bs ++ l) = false.
Proof.
  destruct bs as [|b1 bs]; simpl; [done|]. rewrite forallb_app.
  destruct (second_ok b0 b1); [|done]. simpl. by intros ->.
Qed.

Lemma next_cont b0 bs b : next_ok b0 bs b = true -> 0x80 <= b <= 0xbf.
Proof. destruct bs; simpl; [apply second_cont|apply between_true]. Qed.

Section lead.
Context (b0 : Z) (k : nat) (Hk : lead_len b0 = Some k).

Lemma u8dec_lead l :
  u8dec (b0 :: l) =
    if okseq b0 (take (k - 1) l)
    then if decide (length (take (k - 1) l) = k - 1)%nat
         then Good k (compose b0 (take (k - 1) l)) else Partial
    else Bad.
Proof.
  destruct (lead_range b0 k Hk) as [Hb _]. cbn [u8dec].
  replace (b0 <? 128) with false by lia. by rewrite Hk.
Qed.

Lemma u8dec_good bs l : length bs = (k - 1)%nat -> okseq b0 bs = true ->
  u8dec (b0 :: bs ++ l) = Good k (compose b0 bs).
Proof.
  intros Hl Hok. rewrite u8dec_lead, take_app_length' by done. rewrite Hok.
  by rewrite decide_True.
Qed.

Lemma u8dec_partial bs : (length bs < k - 1)%nat -> okseq b0 bs = true ->
  u8dec (b0 :: bs) = Partial.
Proof. intros Hl Hok. rewrite u8dec_lead, take_ge, Hok by lia. by rewrite decide_False by lia. Qed.

Lemma u8dec_bad bs l : (length bs <= k - 1)%nat -> okseq b0 bs = false ->
  u8dec (b0 :: bs ++ l) = Bad.
Proof.
  intros Hl Hok. rewrite u8dec_lead, take_app_ge by lia. by rewrite okseq_app.
Qed.

(** The states inside and at the end of a character. *)
Lemma pstate_inner bs : okseq b0 bs = true -> bs <> [] -> (length bs < k - 1)%nat ->
  0xc0000000 <= pstate (b0 :: bs) < 0xc4000000.
Proof.
  intros Hok Hne Hl. destruct (lead_range b0 k Hk) as (_ & Hk' & _).
  destruct bs as [|b1 [|b2 [|]]]; [done| | |simpl in Hl; lia]; simpl in Hok, Hl.
  - apply andb_true_iff in Hok as [H1 _]. apply second_cont in H1.
    pose proof (states b0 k b1 128 128 Hk H1 ltac:(lia) ltac:(lia)) as HS.
    destruct Hk' as [->|[->| ->]]; [lia|apply HS..].
  - rewrite !andb_true_iff in Hok. destruct Hok as (H1 & H2 & _).
    apply second_cont in H1. apply between_true in H2.
    pose proof (states b0 k b1 b2 128 Hk H1 H2 ltac:(lia)) as HS.
    destruct Hk' as [->|[->| ->]]; [lia|lia|apply HS].
Qed.

Lemma compose_range bs : okseq b0 bs = true -> length bs = (k - 1)%nat ->
  0 <= compose b0 bs < 2 ^ 31.
Proof.
  intros Hok Hl. destruct (lead_range b0 k Hk) as (_ & Hk' & H4).
  destruct (lead_state_shift b0 k Hk) as (_ & _ & Hx & _). unfold compose.
  destruct bs as [|b1 [|b2 [|b3 [|]]]]; simpl in Hok, Hl; try lia;
    rewrite ?andb_true_iff in Hok; cbn [foldl].
  - destruct Hok as [H1 _]. apply second_cont in H1. lia.
  - destruct Hok as (H1 & H2 & _). apply second_cont in H1. apply between_true in H2. lia.
  - destruct Hok as (H1 & H2 & H3 & _). apply second_cont in H1.
    apply between_true in H2, H3. lia.
Qed.

Lemma pstate_end bs : okseq b0 bs = true -> length bs = (k - 1)%nat ->
  pstate (b0 :: bs) = compose b0 bs.
Proof.
  intros Hok Hl. destruct (lead_range b0 k Hk) as (_ & Hk' & H4).
  destruct bs as [|b1 [|b2 [|b3 [|]]]]; simpl in Hok, Hl; try lia;
    rewrite ?andb_true_iff in Hok; cbn [pstate foldl].
  - destruct Hok as [H1 _]. apply second_cont in H1.
    pose proof (states b0 k b1 128 128 Hk H1 ltac:(lia) ltac:(lia)) as HS.
    assert (k = 2%nat) as -> by lia. apply HS.
  - destruct Hok as (H1 & H2 & _). apply second_cont in H1. apply between_true in H2.
    pose proof (states b0 k b1 b2 128 Hk H1 H2 ltac:(lia)) as HS.
    assert (k = 3%nat) as -> by lia. apply HS.
  - destruct Hok as (H1 & H2 & H3 & _). apply second_cont in H1.
    apply between_true in H2, H3. pose proof (states b0 k b1 b2 b3 Hk H1 H2 H3) as HS.
    assert (k = 4%nat) as -> by lia. apply HS. by apply H4.
Qed.

Lemma pstate_snoc bs b : pstate (b0 :: bs ++ [b]) = push (pstate (b0 :: bs)) b.
Proof. cbn [pstate]. by rewrite foldl_app. Qed.

Lemma pstate_nonneg bs : okseq b0 bs = true -> (length bs < k - 1)%nat -> 0 < pstate (b0 :: bs).
Proof.
  intros Hok Hl. destruct bs as [|b bs].
  - destruct (lead_state_shift b0 k Hk) as (H1 & _ & _ & H2). cbn. lia.
  - pose proof (pstate_inner (b :: bs) Hok ltac:(done) Hl). lia.
Qed.

(** The loop, entered on the last byte of a character ... *)
Lemma mb_loop_end s bs b N :
  bytes s -> okseq b0 bs = true -> S (length bs) = (k - 1)%nat -> next_ok b0 bs b = true ->
  mb_loop (b :: s) (Z.of_nat (length (b :: s))) N (pstate (b0 :: bs)) =
    Some (mb_result (b0 :: bs) (b :: s) N).
Proof.
  intros Hs Hok He Hb. pose proof (next_cont _ _ _ Hb) as Hb1.
  pose proof (pstate_nonneg _ Hok ltac:(lia)).
  assert (Hok' : okseq b0 (bs ++ [b]) = true) by (by rewrite okseq_snoc, Hok, Hb).
  assert (Hlen : length (bs ++ [b]) = (k - 1)%nat) by (rewrite length_app; simpl; lia).
  rewrite mb_loop_step, <- pstate_snoc by (done || lia).
  rewrite (pstate_end (bs ++ [b]) Hok' Hlen). pose proof (compose_range _ Hok' Hlen).
  replace (compose b0 (bs ++ [b]) <? 2 ^ 31) with true by lia.
  unfold mb_result. rewrite <- app_comm_cons, (app_snoc b bs s), (u8dec_good (bs ++ [b])) by done.
  do 3 f_equal. cbn [length]. rewrite !length_app. cbn [length]. lia.
Qed.

(** ... or anywhere inside it. *)
Lemma mb_loop_spec s : bytes s -> forall bs b N,
  okseq b0 bs = true -> (length bs < k - 1)%nat -> next_ok b0 bs b = true ->
  mb_loop (b :: s) (Z.of_nat (length (b :: s))) N (pstate (b0 :: bs)) =
    Some (mb_result (b0 :: bs) (b :: s) N).
Proof.
  induction s as [|b' s IH]; intros Hs bs b N Hok Hl Hb;
    (destruct (decide (S (length bs) = k - 1)%nat) as [He|He]; [by apply mb_loop_end|]);
    pose proof (next_cont _ _ _ Hb) as Hb1; pose proof (pstate_nonneg _ Hok Hl);
    assert (Hok' : okseq b0 (bs ++ [b]) = true) by (by rewrite okseq_snoc, Hok, Hb);
    assert (Hlen : length (bs ++ [b]) = S (length bs)) by (rewrite length_app; simpl; lia);
    rewrite mb_loop_step, <- pstate_snoc by (done || lia);
    pose proof (pstate_inner (bs ++ [b]) Hok' ltac:(by destruct bs) ltac:(lia)) as Hin;
    replace (pstate (b0 :: bs ++ [b]) <? 2 ^ 31) with false by lia;
    unfold mb_result; rewrite <- app_comm_cons.
  - rewrite u8dec_partial by (done || lia). done.
  - apply Forall_cons_1 in Hs as [Hb' Hs].
    assert (Hn1 : (Z.of_nat (length (b :: b' :: s)) =? 1) = false).
    { clear. apply Z.eqb_neq. cbn [length]. lia. }
    rewrite Hn1. clear Hn1.
    assert (Hnext : next_ok b0 (bs ++ [b]) b' = between 0x80 0xbf b') by (by destruct bs).
    assert (Hsp : bs ++ b :: b' :: s = (bs ++ [b]) ++ b' :: s) by apply app_snoc.
    rewrite Hsp. clear Hsp. destruct (between 0x80 0xbf b') eqn:Hbt.
    + replace (Z.of_nat (length (b :: b' :: s)) - 1) with (Z.of_nat (length (b' :: s)))
        by (cbn [length]; lia).
      rewrite IH by (done || lia). unfold mb_result. by rewrite <- app_comm_cons.
    + rewrite (app_snoc b' (bs ++ [b])), u8dec_bad; [done|rewrite length_app; simpl; lia|].
      by rewrite okseq_snoc, Hok', Hnext.
Qed.

Lemma mb_cont_spec bs s N :
  bytes s -> okseq b0 bs = true -> (length bs < k - 1)%nat ->
  mb_cont s (Z.of_nat (length s)) N (pstate (b0 :: bs)) = Some (mb_result (b0 :: bs) s N).
Proof.
  intros Hs Hok Hl. destruct s as [|b s].
  { unfold mb_result. rewrite app_nil_r, u8dec_partial by done. done. }
  apply Forall_cons_1 in Hs as [Hb Hs].
  assert (Hoob : (OOB (pstate (b0 :: bs)) b =? 0) = next_ok b0 bs b).
  { destruct bs as [|b1 bs].
    - apply OOB_lead; [|done]. by destruct (lead_range b0 k Hk).
    - apply OOB_inner; [|done]. by apply pstate_inner. }
  rewrite (mb_cont_step _ _ _ _ _ Hoob). destruct (next_ok b0 bs b) eqn:Hn.
  - by apply mb_loop_spec.
  - unfold mb_result. rewrite <- app_comm_cons, (app_snoc b bs), u8dec_bad; [done| |].
    + rewrite length_app. simpl. lia.
    + by rewrite okseq_snoc, Hok, Hn.
Qed.
End lead.

(** A partial character: a lead byte and some of what may follow it. *)
Lemma partial_inv b0 bs : byte b0 -> u8dec (b0 :: bs) = Partial ->
  exists k, lead_len b0 = Some k /\ okseq b0 bs = true /\ (length bs < k - 1)%nat.
Proof.
  intros Hb H. destruct (b0 <? 128) eqn:Hlt; [cbn in H; by rewrite Hlt in H|].
  destruct (lead_len b0) as [k|] eqn:Hk; [|cbn in H; by rewrite Hlt, Hk in H].
  exists k. split; [done|]. rewrite (u8dec_lead b0 k Hk) in H.
  destruct (okseq b0 (take (k - 1) bs)) eqn:Hok; [|done]. case_decide as Hd; [done|].
  rewrite length_take in Hd. rewrite take_ge in Hok by lia. split; [done|lia].
Qed.

(** The bytes of a well-formed sequence are the encoding of the value composed
    of them, which is a scalar value. *)
Lemma compose_enc b0 k bs :
  lead_len b0 = Some k -> okseq b0 bs = true -> length bs = (k - 1)%nat ->
  0x80 <= compose b0 bs /\ scalar (compose b0 bs) /\ enc (compose b0 bs) = b0 :: bs.
Proof.
  intros Hk Hok Hl. unfold lead_len in Hk. unfold compose, scalar, enc, lead_bits.
  destruct (between 0xc2 0xdf b0) eqn:H2; [|destruct (between 0xe0 0xef b0) eqn:H3;
    [|destruct (between 0xf0 0xf4 b0) eqn:H4; [|done]]]; simplify_eq;
    destruct bs as [|b1 [|b2 [|b3 [|]]]]; try done; cbn [okseq forallb] in Hok;
    rewrite ?andb_true_iff in Hok; cbn [foldl].
  - apply between_true in H2. destruct Hok as [H1%second_cont _].
    replace (b0 <? 224) with true by lia. split; [lia|]. split; [lia|].
    rewrite !(proj2 (Z.ltb_ge _ 128)), (proj2 (Z.ltb_lt _ 2048)) by lia.
    f_equal; [mlia|f_equal; mlia].
  - apply between_true in H3. destruct Hok as (H1 & H2b%between_true & _).
    pose proof (second_cont _ _ H1). replace (b0 <? 224) with false by lia.
    replace (b0 <? 240) with true by lia.
    assert (Hr : 2048 <= ((b0 - 224) * 64 + (b1 - 128)) * 64 + (b2 - 128) < 55296 \/
                 57344 <= ((b0 - 224) * 64 + (b1 - 128)) * 64 + (b2 - 128) < 65536).
    { unfold second_ok, between in H1. repeat case_match; lia. }
    split; [lia|]. split; [lia|].
    rewrite !(proj2 (Z.ltb_ge _ 128)), (proj2 (Z.ltb_ge _ 2048)), (proj2 (Z.ltb_lt _ 65536)) by lia.
    f_equal; [mlia|f_equal; [mlia|f_equal; mlia]].
  - apply between_true in H4. destruct Hok as (H1 & H2b%between_true & H3b%between_true & _).
    pose proof (second_cont _ _ H1). replace (b0 <? 224) with false by lia.
    replace (b0 <? 240) with false by lia.
    set (v := (((b0 - 240) * 64 + (b1 - 128)) * 64 + (b2 - 128)) * 64 + (b3 - 128)).
    assert (Hr : 65536 <= v < 1114112).
    { subst v. unfold second_ok, between in H1. repeat case_match; lia. }
    split; [lia|]. split; [lia|].
    rewrite !(proj2 (Z.ltb_ge _ 128)), (proj2 (Z.ltb_ge _ 2048)), (proj2 (Z.ltb_ge _ 65536)) by lia.
    subst v. f_equal; [mlia|f_equal; [mlia|f_equal; [mlia|f_equal; mlia]]].
Qed.

(** [u8dec] recognises exactly the encodings of the scalar values. *)
Lemma u8dec_sound l k cp : bytes l -> u8dec l = Good k cp ->
  scalar cp /\ length (enc cp) = k /\ take k l = enc cp /\ (k <= length l)%nat /\
  (cp = 0 -> k = 1%nat).
Proof.
  intros Hl H. destruct l as [|b0 l]; [done|]. apply Forall_cons_1 in Hl as [Hb0 Hl].
  destruct (b0 <? 128) eqn:Hlt.
  - cbn in H. rewrite Hlt in H. simplify_eq. unfold enc. rewrite Hlt.
    unfold scalar, byte in *. split; [lia|]. simpl. by split_and!; try lia.
  - destruct (lead_len b0) as [k'|] eqn:Hk; [|cbn in H; by rewrite Hlt, Hk in H].
    rewrite (u8dec_lead b0 k' Hk) in H. destruct (okseq _ _) eqn:Hok; [|done].
    case_decide as Hd; [|done]. simplify_eq.
    destruct (compose_enc b0 k _ Hk Hok Hd) as (Hge & Hsc & Henc).
    destruct (lead_range b0 k Hk) as (_ & Hk' & _).
    rewrite Henc. split; [done|]. cbn [length]. rewrite Hd.
    rewrite length_take in Hd. split; [lia|]. split; [|lia].
    destruct k as [|k]; [lia|]. cbn [take]. by rewrite Nat.sub_1_r.
Qed.

Lemma enc_shape cp : scalar cp -> 0x80 <= cp ->
  exists b0 k bs, enc cp = b0 :: bs /\ lead_len b0 = Some k /\ okseq b0 bs = true /\
    length bs = (k - 1)%nat /\ compose b0 bs = cp.
Proof.
  intros Hs H80. unfold scalar in Hs. unfold enc.
  replace (cp <? 128) with false by lia.
  destruct (Z.ltb_spec cp 2048); [|destruct (Z.ltb_spec cp 65536)].
  - exists (0xc0 + cp / 64), 2%nat, [0x80 + cp mod 64].
    unfold lead_len, okseq, second_ok, compose, lead_bits, between. cbn [foldl forallb].
    split; [done|]. split; [case_match; [done|exfalso; mlia]|].
    split; [repeat case_match; mlia|]. split; [done|]. repeat case_match; mlia.
  - exists (0xe0 + cp / 4096), 3%nat, [0x80 + cp / 64 mod 64; 0x80 + cp mod 64].
    unfold lead_len, okseq, second_ok, compose, lead_bits, between. cbn [foldl forallb].
    split; [done|]. split; [repeat case_match; [exfalso; mlia|done|exfalso; mlia..]|].
    split; [repeat case_match; mlia|]. split; [done|]. repeat case_match; mlia.
  - exists (0xf0 + cp / 262144), 4%nat,
      [0x80 + cp / 4096 mod 64; 0x80 + cp / 64 mod 64; 0x80 + cp mod 64].
    unfold lead_len, okseq, second_ok, compose, lead_bits, between. cbn [foldl forallb].
    split; [done|]. split; [repeat case_match; [exfalso; mlia|exfalso; mlia|done|exfalso; mlia]|].
    split; [repeat case_match; mlia|]. split; [done|]. repeat case_match; mlia.
Qed.

Lemma u8dec_enc cp l : scalar cp -> u8dec (enc cp ++ l) = Good (length (enc cp)) cp.
Proof.
  intros Hs. destruct (decide (cp < 128)) as [Hlt|Hge].
  - unfold enc. assert ((cp <? 128) = true) as Hb by lia. rewrite Hb. cbn. by rewrite Hb.
  - destruct (enc_shape cp Hs) as (b0 & k & bs & -> & Hk & Hok & Hl & Hc); [lia|].
    destruct (lead_range b0 k Hk) as (_ & Hk' & _).
    rewrite <- app_comm_cons, (u8dec_good b0 k Hk), Hc by done. cbn [length]. f_equal. lia.
Qed.

Lemma u8dec_prefix cp p q : scalar cp -> enc cp = p ++ q -> q <> [] -> u8dec p = Partial.
Proof.
  intros Hs He Hq. destruct (decide (cp < 128)) as [Hlt|Hge].
  - unfold enc in He. assert ((cp <? 128) = true) as Hb by lia. rewrite Hb in He.
    destruct p as [|b [|]]; [done| |]; simplify_eq/=; by destruct q.
  - destruct (enc_shape cp Hs) as (b0 & k & bs & Heq & Hk & Hok & Hl & _); [lia|].
    rewrite He in Heq. destruct p as [|b p]; [done|]. simplify_eq/=.
    apply (u8dec_partial _ k Hk).
    + rewrite length_app in Hl. destruct q; [done|]. simpl in Hl. lia.
    + destruct (okseq b0 p) eqn:Hp; [done|]. by rewrite okseq_app in Hok.
Qed.

(** The initial segment of a character can be completed. *)
Lemma u8dec_partial_complete l : bytes l -> l <> [] -> u8dec l = Partial ->
  exists cp q, scalar cp /\ enc cp = l ++ q /\ q <> [].
Proof.
  intros Hl Hne H. destruct l as [|b0 bs]; [done|]. apply Forall_cons_1 in Hl as [Hb0 Hl].
  destruct (partial_inv b0 bs Hb0 H) as (k & Hk & Hok & Hlen).
  (* the smallest second byte that [b0] admits, then 0x80s *)
  set (fill := match bs with
               | [] => (if b0 =? 0xe0 then 0xa0 else if b0 =? 0xf0 then 0x90 else 0x80)
                         :: replicate (k - 2) 0x80
               | _ => replicate (k - 1 - length bs) 0x80 end).
  assert (Hfill : okseq b0 (bs ++ fill) = true /\ length (bs ++ fill) = (k - 1)%nat /\ fill <> []).
  { destruct (lead_range b0 k Hk) as (Hb & Hk' & _). subst fill. rewrite length_app.
    destruct bs as [|b1 bs]; cbn [app okseq length].
    - rewrite length_replicate. split; [|split; [lia|done]]. apply andb_true_iff. split.
      + unfold second_ok, between. repeat case_match; lia.
      + apply forallb_forall. intros x [-> _]%list_elem_of_In%elem_of_replicate. done.
    - rewrite length_replicate. cbn [length] in *. split; [|split; [lia|]].
      + cbn [okseq] in Hok. apply andb_true_iff in Hok as [-> Hok]. simpl.
        rewrite forallb_app, Hok. simpl. apply forallb_forall. intros x [-> _]%list_elem_of_In%elem_of_replicate. done.
      + destruct (k - 1 - S (length bs))%nat eqn:Hz; [lia|done]. }
  destruct Hfill as (H1 & H2 & H3).
  destruct (compose_enc b0 k _ Hk H1 H2) as (_ & Hsc & Henc).
  exists (compose b0 (bs ++ fill)), fill. by rewrite Henc.
Qed.

(** [mbrtowc] from any state a partial character leaves (the initial state for
    the empty one), in a UTF-8 locale. *)
Lemma mbrtowc_spec mb p s :
  mb <> 1 -> bytes p -> bytes s -> u8dec p = Partial -> s <> [] ->
  Z.of_nat (length s) < 2 ^ 32 ->
  mbrtowc mb (Some s) (Z.of_nat (length s)) (pstate p) =
    Some (match u8dec (p ++ s) with
          | Good k cp => Mbr (if cp =? 0 then 0 else Z.of_nat k - Z.of_nat (length p))
                             (Some cp) 0 false
          | Partial => Mbr INC None (pstate (p ++ s)) false
          | Bad => ilseq
          end).
Proof.
  intros Hmb Hp Hs Hpart Hne Hlen. unfold mbrtowc.
  assert (Hn0 : (Z.of_nat (length s) =? 0) = false).
  { apply Z.eqb_neq. destruct s; [done|]. cbn [length]. lia. }
  rewrite Hn0, u32_id by lia. clear Hn0.
  assert (Hcont : forall b0 bs s', byte b0 -> bytes s' -> u8dec (b0 :: bs) = Partial ->
    (b0 :: bs) ++ s' = p ++ s ->
    mb_cont s' (Z.of_nat (length s')) (Z.of_nat (length s)) (pstate (b0 :: bs)) =
    Some (match u8dec (p ++ s) with
          | Good k cp => Mbr (if cp =? 0 then 0 else Z.of_nat k - Z.of_nat (length p))
                             (Some cp) 0 false
          | Partial => Mbr INC None (pstate (p ++ s)) false
          | Bad => ilseq
          end)).
  { intros b0 bs s' Hb0 Hs' Hpart' Heq.
    destruct (partial_inv b0 bs Hb0 Hpart') as (k & Hk & Hok & Hl).
    rewrite (mb_cont_spec b0 k Hk) by done. unfold mb_result. rewrite Heq. f_equal.
    destruct (u8dec (p ++ s)) as [k' cp| |] eqn:Hd; [|done..].
    assert (k' = k /\ 0x80 <= cp) as [-> Hcp].
    { rewrite <- Heq in Hd. cbn [app] in Hd. rewrite (u8dec_lead b0 k Hk) in Hd.
      destruct (okseq b0 (take _ _)) eqn:Hok'; [|done]. case_decide as Hd'; [|done]. simplify_eq.
      by destruct (compose_enc b0 _ _ Hk Hok' Hd'). }
    replace (cp =? 0) with false by lia.
    destruct (u8dec_sound (p ++ s) k cp) as (_ & _ & _ & Hle & _); [by apply Forall_app|done|].
    rewrite length_app in *. rewrite u64_id; [f_equal; lia|].
    assert (length p <= k)%nat; [|lia].
    destruct p as [|b p]; [simpl; lia|]. cbn [app] in Heq. injection Heq as -> Heq.
    destruct (partial_inv b p) as (k' & Hk'' & _ & Hl'); [by apply Forall_cons_1 in Hp|done|].
    simplify_eq. cbn [length]. lia. }
  destruct p as [|b0 bs].
  - destruct s as [|b0 s]; [done|]. apply Forall_cons_1 in Hs as [Hb0 Hs].
    cbn [pstate Z.eqb head mbind option_bind app tail].
    destruct (b0 <? 128) eqn:Hlt.
    { cbn [u8dec]. rewrite Hlt. by destruct (Z.eqb_spec b0 0) as [->|]. }
    rewrite (proj2 (Z.eqb_neq mb 1)) by done.
    destruct (lead_len b0) as [k|] eqn:Hk.
    + destruct (lead_range b0 k Hk) as (Hb & Hk' & _).
      replace (u32 (b0 - SA) >? SB - SA) with false.
      2: { unfold SA, SB. rewrite u32_id by lia. lia. }
      replace (Z.of_nat (length (b0 :: s)) - 1) with (Z.of_nat (length s)) by (cbn [length]; lia).
      apply (Hcont b0 []); [done|done| |done]. apply (u8dec_partial b0 k Hk); [simpl; lia|done].
    + replace (u32 (b0 - SA) >? SB - SA) with true.
      2: { unfold SA, SB, u32, byte in *. unfold lead_len, between in Hk.
           repeat case_match; try done; mlia. }
      cbn [u8dec]. by rewrite Hlt, Hk.
  - pose proof Hpart as Hpart'. apply Forall_cons_1 in Hp as [Hb0 Hp].
    destruct (partial_inv b0 bs Hb0 Hpart) as (k & Hk & Hok & Hl).
    pose proof (pstate_nonneg b0 k Hk bs Hok Hl).
    replace (pstate (b0 :: bs) =? 0) with false by lia. by apply Hcont.
Qed.

(** ** Encoding *)
Lemma cont_byte x : 0 <= x -> u8 (0x80 .| (x & 0x3f)) = 0x80 + x mod 64.
Proof.
  intros Hx. change 0x3f with (Z.ones 6). rewrite Z.land_ones, Z.lor_comm by lia.
  change 0x80 with (2 * 2 ^ 6). rewrite lor_add by mlia. rewrite u8_id; mlia.
Qed.

Lemma lead_byte h k hi x : h = hi * 2 ^ k -> 0 <= k -> 0 <= x < 2 ^ k -> 0 <= x + h < 256 ->
  u8 (h .| x) = h + x.
Proof. intros -> Hk Hx Hr. rewrite Z.lor_comm, lor_add, u8_id by lia. lia. Qed.

Lemma scalar_dec cp : Decision (scalar cp).
Proof. unfold scalar. apply _. Defined.

Lemma wcrtomb_spec mb wc : mb <> 1 -> - 2 ^ 31 <= wc < 2 ^ 31 ->
  (scalar wc -> wcrtomb mb true wc = (enc wc, Z.of_nat (length (enc wc)))) /\
  (~ scalar wc -> wcrtomb mb true wc = ([], ERR)).
Proof.
  intros Hmb Hwc. unfold wcrtomb, scalar. rewrite (proj2 (Z.eqb_neq mb 1)) by done. split.
  - intros Hs. rewrite (u32_id wc) by lia. unfold enc. destruct (Z.ltb_spec wc 128).
    { by rewrite u8_id by lia. }
    destruct (Z.ltb_spec wc 2048).
    { rewrite cont_byte, Z.shiftr_div_pow2 by lia.
      rewrite (lead_byte 192 6 3 (wc / 2 ^ 6)) by mlia. done. }
    destruct (Z.ltb_spec wc 65536).
    { replace ((wc <? 55296) || (u32 (wc - 57344) <? 8192)) with true.
      2: { destruct (Z.ltb_spec wc 55296); [done|]. rewrite u32_id by lia. lia. }
      rewrite !Z.shiftr_div_pow2 by lia. rewrite !cont_byte by mlia.
      rewrite (lead_byte 224 4 14 (wc / 2 ^ 12)) by mlia. done. }
    replace ((wc <? 55296) || (u32 (wc - 57344) <? 8192)) with false by (rewrite u32_id; lia).
    rewrite (u32_id (wc - 65536)) by lia. replace (wc - 65536 <? 1048576) with true by lia.
    rewrite !Z.shiftr_div_pow2 by lia. rewrite !cont_byte by mlia.
    rewrite (lead_byte 240 4 15 (wc / 2 ^ 18)) by mlia. done.
  - intros Hs.
    replace (u32 wc <? 128) with false by (unfold u32; mlia).
    replace (u32 wc <? 2048) with false by (unfold u32; mlia).
    replace (u32 wc <? 55296) with false by (unfold u32; mlia).
    replace (u32 (u32 wc - 57344) <? 8192) with false by (unfold u32; mlia).
    replace (u32 (u32 wc - 65536) <? 1048576) with false by (unfold u32; mlia). done.
Qed.

(** ** mbtowc *)
Lemma lead_count b0 k n : lead_len b0 = Some k -> 0 < n < 4 ->
  negb ((u32 (lead_state b0 << (6 * n - 6)) & (1 << 31)) =? 0) = (n <? Z.of_nat k).
Proof.
  intros Hk Hn. destruct (lead_range b0 k Hk) as [Hb _].
  assert (H : (match lead_len b0 with None => false | Some k => forallb (fun n =>
    Bool.eqb (negb ((u32 (lead_state b0 << (6 * n - 6)) & (1 << 31)) =? 0)) (n <? Z.of_nat k))
    [1; 2; 3] end) = true).
  { clear Hk. revert b0 Hb. apply lead_forall. by vm_compute. }
  rewrite Hk, forallb_forall in H. apply eqb_prop, H. simpl. lia.
Qed.

(** The unrolled tail of [mbtowc], once enough bytes are known to be there. *)
Lemma mbtowc_tail b0 k s : lead_len b0 = Some k -> bytes s -> (k - 1 <= length s)%nat ->
  (let c := lead_state b0 in
   b1 ← (b0 :: s) !! 1%nat;
   if negb (OOB c b1 =? 0) then Some (-1, None) else
   let c := u32 (c << 6) .| u32 (b1 - 0x80) in
   if (c & (1 << 31)) =? 0 then Some (2, Some c) else
   b2 ← (b0 :: s) !! 2%nat;
   if u32 (b2 - 0x80) >=? 0x40 then Some (-1, None) else
   let c := u32 (c << 6) .| u32 (b2 - 0x80) in
   if (c & (1 << 31)) =? 0 then Some (3, Some c) else
   b3 ← (b0 :: s) !! 3%nat;
   if u32 (b3 - 0x80) >=? 0x40 then Some (-1, None) else
   Some (4, Some (u32 (c << 6) .| u32 (b3 - 0x80)))) =
  Some (match (if okseq b0 (take (k - 1) s)
               then if decide (length (take (k - 1) s) = k - 1)%nat
                    then Good k (compose b0 (take (k - 1) s)) else Partial else Bad) with
        | Good k cp => (if cp =? 0 then 0 else Z.of_nat k, Some cp)
        | _ => (-1, None)
        end).
Proof.
  intros Hk Hs Hl. destruct (lead_range b0 k Hk) as (Hb & Hk' & H4).
  destruct (lead_state_shift b0 k Hk) as (Hc0 & _).
  rewrite decide_True by (rewrite length_take; lia).
  destruct s as [|b1 s]; [simpl in Hl; lia|]. apply Forall_cons_1 in Hs as [Hb1 Hs].
  cbv zeta. cbn [lookup list_lookup mbind option_bind].
  rewrite OOB_lead by done. fold (push (lead_state b0) b1).
  destruct (second_ok b0 b1) eqn:H1; cbn [negb].
  2: { destruct k as [|[|k]]; [lia..|]. cbn [Nat.sub take okseq]. by rewrite H1. }
  apply second_cont in H1 as H1'. rewrite hibit by (apply push_range; done || lia).
  change (push (lead_state b0) b1) with (pstate [b0; b1]).
  assert (Ho1 : okseq b0 [b1] = true) by (cbn; by rewrite H1).
  destruct (decide (k = 2%nat)) as [->|Hk2].
  { cbn [Nat.sub take]. rewrite take_0, Ho1, (pstate_end b0 2 Hk [b1] Ho1 eq_refl).
    pose proof (compose_range b0 2 Hk [b1] Ho1 eq_refl).
    destruct (compose_enc b0 2 [b1] Hk Ho1 eq_refl) as [Hge _].
    replace (_ <? _) with true by lia. by replace (_ =? 0) with false by lia. }
  pose proof (pstate_inner b0 k Hk [b1] Ho1 ltac:(done) ltac:(simpl; lia)) as Hp1.
  rewrite (proj2 (Z.ltb_ge (pstate [b0; b1]) (2 ^ 31))) by lia.
  destruct s as [|b2 s]; [simpl in Hl; lia|]. apply Forall_cons_1 in Hs as [Hb2 Hs].
  cbn [lookup list_lookup mbind option_bind]. rewrite cont_test by done.
  destruct (between 128 191 b2) eqn:H2; cbn [negb].
  2: { destruct k as [|[|[|k]]]; [lia..|]. cbn [Nat.sub take okseq forallb]. by rewrite H1, H2. }
  apply between_true in H2 as H2'. fold (push (pstate [b0; b1]) b2).
  rewrite hibit by (apply push_range; [lia|done]).
  change (push (pstate [b0; b1]) b2) with (pstate [b0; b1; b2]).
  assert (Ho2 : okseq b0 [b1; b2] = true) by (cbn; by rewrite H1, H2).
  destruct (decide (k = 3%nat)) as [->|Hk3].
  { cbn [Nat.sub take]. rewrite take_0, Ho2, (pstate_end b0 3 Hk [b1; b2] Ho2 eq_refl).
    pose proof (compose_range b0 3 Hk [b1; b2] Ho2 eq_refl).
    destruct (compose_enc b0 3 [b1; b2] Hk Ho2 eq_refl) as [Hge _].
    replace (_ <? _) with true by lia. by replace (_ =? 0) with false by lia. }
  assert (k = 4%nat) as -> by lia.
  pose proof (pstate_inner b0 4 Hk [b1; b2] Ho2 ltac:(done) ltac:(simpl; lia)) as Hp2.
  rewrite (proj2 (Z.ltb_ge (pstate [b0; b1; b2]) (2 ^ 31))) by lia.
  destruct s as [|b3 s]; [simpl in Hl; lia|]. apply Forall_cons_1 in Hs as [Hb3 Hs].
  cbn [lookup list_lookup mbind option_bind]. rewrite cont_test by done.
  destruct (between 128 191 b3) eqn:H3; cbn [negb Nat.sub take okseq forallb]; rewrite H1, H2, H3;
    cbn [andb]; rewrite ?take_0; [|done]. 
  assert (Ho3 : okseq b0 [b1; b2; b3] = true) by (cbn; by rewrite H1, H2, H3).
  fold (push (pstate [b0; b1; b2]) b3).
  change (push (pstate [b0; b1; b2]) b3) with (pstate [b0; b1; b2; b3]).
  rewrite (pstate_end b0 4 Hk [b1; b2; b3] Ho3 eq_refl).
  destruct (compose_enc b0 4 [b1; b2; b3] Hk Ho3 eq_refl) as [Hge _].
  cbn [forallb]. rewrite (proj2 (Z.eqb_neq (compose b0 [b1; b2; b3]) 0)) by lia. done.
Qed.

Lemma mbtowc_spec mb s : mb <> 1 -> bytes s ->
  mbtowc mb (Some s) (Z.of_nat (length s)) =
    Some (match u8dec s with
          | Good k cp => (if cp =? 0 then 0 else Z.of_nat k, Some cp)
          | _ => (-1, None)
          end).
Proof.
  intros Hmb Hs. unfold mbtowc. destruct s as [|b0 s]; [done|].
  assert (Hn0 : (Z.of_nat (length (b0 :: s)) =? 0) = false).
  { apply Z.eqb_neq. cbn [length]. lia. }
  rewrite Hn0. clear Hn0. apply Forall_cons_1 in Hs as [Hb0 Hs].
  cbn [head mbind option_bind]. destruct (b0 <? 128) eqn:Hlt.
  { cbn [u8dec]. rewrite Hlt. by destruct (Z.eqb_spec b0 0). }
  rewrite (proj2 (Z.eqb_neq mb 1)) by done.
  destruct (lead_len b0) as [k|] eqn:Hk.
  2: { replace (u32 (b0 - SA) >? SB - SA) with true; [cbn [u8dec]; by rewrite Hlt, Hk|].
       unfold SA, SB, u32, byte in *. unfold lead_len, between in Hk.
       repeat case_match; try done; mlia. }
  destruct (lead_range b0 k Hk) as (Hb & Hk' & H4).
  replace (u32 (b0 - SA) >? SB - SA) with false.
  2: { unfold SA, SB. rewrite u32_id by lia. lia. }
  fold (lead_state b0). set (n := Z.of_nat (length (b0 :: s))).
  assert (Hn : n = Z.of_nat (length s) + 1) by (subst n; cbn [length]; lia). clearbody n.
  rewrite (u8dec_lead b0 k Hk).
  replace (if n <? 4 then _ else false) with (n <? Z.of_nat k).
  2: { destruct (Z.ltb_spec n 4); [|simpl; lia]. by rewrite (lead_count b0 k) by (done || lia). }
  destruct (Z.ltb_spec n (Z.of_nat k)) as [Hshort|Hlong].
  { destruct (okseq b0 _); [|done]. rewrite decide_False; [done|]. rewrite length_take. lia. }
  apply (mbtowc_tail b0 k s Hk); [done|lia].
Qed.

(** ** Properties *)

(** C20: in a UTF-8 locale [mbrtowc] from the initial state decodes exactly what
    Unicode calls well-formed.  If the input starts with the encoding of a
    scalar value it stores that value and returns its length (0 for nul); if
    the input is a proper initial segment of an encoding it asks for more with
    -2; everything else (overlong forms, surrogates, values past U+10FFFF,
    stray continuation bytes) is [EILSEQ].  No byte past the input is read. *)
Theorem mbrtowc_correct mb s :
  mb <> 1 -> bytes s -> s <> [] -> Z.of_nat (length s) < 2 ^ 32 ->
  exists r, mbrtowc mb (Some s) (Z.of_nat (length s)) 0 = Some r /\
  (forall cp, scalar cp -> enc cp `prefix_of` s ->
     r = Mbr (if cp =? 0 then 0 else Z.of_nat (length (enc cp))) (Some cp) 0 false) /\
  (forall cp, scalar cp -> s `prefix_of` enc cp -> s <> enc cp ->
     ret r = INC /\ out r = None /\ st r <> 0 /\ eilseq r = false) /\
  ((forall cp, scalar cp -> ~ enc cp `prefix_of` s /\ ~ s `prefix_of` enc cp) -> r = ilseq).
Proof.
  intros Hmb Hs Hne Hlen. eexists. split.
  { by apply (mbrtowc_spec mb []). }
  cbn [app]. split_and!.
  - intros cp Hcp [l ->]. rewrite u8dec_enc by done. by rewrite Z.sub_0_r.
  - intros cp Hcp [q Hq] Hneq.
    assert (q <> []) by (intros ->; by rewrite app_nil_r in Hq).
    pose proof (u8dec_prefix cp s q Hcp Hq ltac:(done)) as Hp. rewrite Hp.
    destruct s as [|b0 bs]; [done|].
    destruct (partial_inv b0 bs) as (k & Hk & Hok & Hl); [by apply (Forall_cons_1 _ _ _ Hs)|done|].
    pose proof (pstate_nonneg b0 k Hk bs Hok Hl). cbn [ret out st eilseq]. split_and!; done || lia.
  - intros Hno. destruct (u8dec s) as [k cp| |] eqn:Hd; [exfalso|exfalso|done].
    + destruct (u8dec_sound s k cp Hs Hd) as (Hcp & _ & Htk & _).
      destruct (Hno cp Hcp) as [[] _]. exists (drop k s). by rewrite <- Htk, take_drop.
    + destruct (u8dec_partial_complete s Hs Hne Hd) as (cp & q & Hcp & He & _).
      destruct (Hno cp Hcp) as [_ []]. by exists q.
Qed.

(** The euro sign U+20AC; its first two bytes; an encoded surrogate. *)
Lemma mbrtowc_correct_witness :
  mbrtowc 4 (Some [0xe2; 0x82; 0xac; 0x41]) 4 0 = Some (Mbr 3 (Some 0x20ac) 0 false) /\
  (exists r, mbrtowc 4 (Some [0xe2; 0x82]) 2 0 = Some r /\ ret r = INC).
Proof.
  split.
  - destruct (mbrtowc_correct 4 [0xe2; 0x82; 0xac; 0x41]) as (r & Hr & H & _).
    + done.
    + by apply (bool_decide_unpack _).
    + done.
    + done.
    + change (Z.of_nat (length [226; 130; 172; 65])) with 4 in Hr. rewrite Hr. f_equal.
      apply (H 0x20ac); [left; lia|by exists [0x41]].
  - destruct (mbrtowc_correct 4 [0xe2; 0x82]) as (r & Hr & _ & H & _).
    + done.
    + by apply (bool_decide_unpack _).
    + done.
    + done.
    + exists r. split; [exact Hr|]. apply (H 0x20ac); [left; lia|by exists [0xac]|done].
Defined.

(** decoding may stop and resume anywhere.  When [mbrtowc] on [p] returned
    -2, calling it on the following bytes [s] with the state it left gives
    what one call on [p] and [s] together gives: the same character, final
    state and error, with the count less the bytes already consumed. *)
Theorem mbrtowc_resumes mb p s r :
  mb <> 1 -> bytes p -> bytes s -> p <> [] -> s <> [] ->
  Z.of_nat (length (p ++ s)) < 2 ^ 32 ->
  mbrtowc mb (Some p) (Z.of_nat (length p)) 0 = Some r -> ret r = INC ->
  exists r1 r2,
    mbrtowc mb (Some s) (Z.of_nat (length s)) (st r) = Some r1 /\
    mbrtowc mb (Some (p ++ s)) (Z.of_nat (length (p ++ s))) 0 = Some r2 /\
    out r1 = out r2 /\ st r1 = st r2 /\ eilseq r1 = eilseq r2 /\
    (ret r1 = ret r2 \/ ret r1 = ret r2 - Z.of_nat (length p) /\ out r1 <> None).
Proof.
  intros Hmb Hp Hs Hpne Hsne Hlen Hr Hinc. rewrite length_app in Hlen.
  rewrite (mbrtowc_spec mb []) in Hr by (done || lia). cbn [app] in Hr.
  destruct (u8dec p) as [k cp| |] eqn:Hd; injection Hr as <-; cbn [ret st] in *.
  - exfalso. destruct (u8dec_sound p k cp Hp Hd) as (_ & Hk & _).
    assert (length (enc cp) <= 4)%nat by (unfold enc; repeat case_match; simpl; lia).
    rewrite Z.sub_0_r in Hinc. unfold INC in Hinc. case_match; lia.
  - eexists _, _. split; [by apply mbrtowc_spec; try done; lia|].
    split. { apply (mbrtowc_spec mb []); try done; [by apply Forall_app|by destruct p|].
             rewrite length_app. lia. }
    cbn [app length]. destruct (u8dec (p ++ s)) as [k cp| |] eqn:Hd2; cbn; [|by auto..].
    split_and!; try done. destruct (cp =? 0); [by left|]. right. split; [lia|done].
  - done.
Qed.

Lemma mbrtowc_resumes_witness :
  exists r1 r2,
    mbrtowc 4 (Some [0x82; 0xac]) 2 (pstate [0xe2]) = Some r1 /\
    mbrtowc 4 (Some [0xe2; 0x82; 0xac]) 3 0 = Some r2 /\
    out r1 = out r2 /\ st r1 = st r2 /\ eilseq r1 = eilseq r2 /\
    (ret r1 = ret r2 \/ ret r1 = ret r2 - 1 /\ out r1 <> None).
Proof.
  refine (mbrtowc_resumes 4 [0xe2] [0x82; 0xac] (Mbr INC None (pstate [0xe2]) false)
            _ _ _ _ _ _ _ _); try done; by apply (bool_decide_unpack _).
Defined.

(** C33: [wcrtomb] and [mbrtowc] are inverse.  [wcrtomb] writes the UTF-8 form of
    every scalar value and refuses everything else with [EILSEQ]; decoding what
    it wrote gives the value back; and re-encoding what [mbrtowc] decoded
    gives back the very bytes that it read. *)
Theorem wcrtomb_roundtrip mb wc :
  mb <> 1 -> - 2 ^ 31 <= wc < 2 ^ 31 ->
  (scalar wc ->
     wcrtomb mb true wc = (enc wc, Z.of_nat (length (enc wc))) /\
     mbrtowc mb (Some (enc wc)) (Z.of_nat (length (enc wc))) 0 =
       Some (Mbr (if wc =? 0 then 0 else Z.of_nat (length (enc wc))) (Some wc) 0 false)) /\
  (~ scalar wc -> wcrtomb mb true wc = ([], ERR)) /\
  (forall s r, bytes s -> s <> [] -> Z.of_nat (length s) < 2 ^ 32 ->
     mbrtowc mb (Some s) (Z.of_nat (length s)) 0 = Some r -> out r = Some wc ->
     wcrtomb mb true wc = (take (length (enc wc)) s, Z.of_nat (length (enc wc)))).
Proof.
  intros Hmb Hwc. destruct (wcrtomb_spec mb wc Hmb Hwc) as [H1 H2]. split_and!.
  - intros Hs. split; [by apply H1|].
    assert (Hb : bytes (enc wc)).
    { unfold scalar in Hs. unfold enc. repeat case_match; repeat constructor; unfold byte; mlia. }
    rewrite (mbrtowc_spec mb []); try done.
    + cbn [app]. rewrite <- (app_nil_r (enc wc)) at 1. rewrite u8dec_enc by done.
      by rewrite Z.sub_0_r.
    + unfold enc. by repeat case_match.
    + unfold enc. by repeat case_match.
  - exact H2.
  - intros s r Hs Hne Hlen Hr Hout. rewrite (mbrtowc_spec mb []) in Hr by done.
    injection Hr as <-. cbn [app] in Hout.
    destruct (u8dec s) as [k cp| |] eqn:Hd; [|done..]. simpl in Hout. simplify_eq.
    destruct (u8dec_sound s k wc Hs Hd) as (Hsc & <- & -> & _). by apply H1.
Qed.

Lemma wcrtomb_roundtrip_witness :
  wcrtomb 4 true 0x1f600 = ([0xf0; 0x9f; 0x98; 0x80], 4) /\
  wcrtomb 4 true 0xd800 = ([], ERR).
Proof.
  split.
  - refine (proj1 (proj1 (wcrtomb_roundtrip 4 0x1f600 _ _) _)); [done|lia|right; lia].
  - refine (proj1 (proj2 (wcrtomb_roundtrip 4 0xd800 _ _)) _); [done|lia|].
    unfold scalar. lia.
Defined.

(** [mbtowc] gives what [mbrtowc] gives from the initial state, except that
    an incomplete character is an error; although it tests the byte count only
    once it never reads past the bytes it was given. *)
Theorem mbtowc_correct mb s :
  mb <> 1 -> bytes s -> s <> [] -> Z.of_nat (length s) < 2 ^ 32 ->
  exists r, mbrtowc mb (Some s) (Z.of_nat (length s)) 0 = Some r /\
    mbtowc mb (Some s) (Z.of_nat (length s)) =
      Some (match out r with Some wc => (ret r, Some wc) | None => (-1, None) end).
Proof.
  intros Hmb Hs Hne Hlen. eexists. split; [by apply (mbrtowc_spec mb [])|].
  rewrite mbtowc_spec by done. cbn [app]. destruct (u8dec s); [|done..].
  cbn [out ret]. by rewrite Z.sub_0_r.
Qed.

Lemma mbtowc_correct_witness :
  exists r, mbrtowc 4 (Some [0xf0; 0x9f]) 2 0 = Some r /\
    mbtowc 4 (Some [0xf0; 0x9f]) 2 =
      Some (match out r with Some wc => (ret r, Some wc) | None => (-1, None) end).
Proof.
  refine (mbtowc_correct 4 [0xf0; 0x9f] _ _ _ _); try done; by apply (bool_decide_unpack _).
Defined.

(** UTF-16 goes through the same encoding: [mbrtoc16] delivers a character
    above U+FFFF as its two surrogates (the second with result -3, from the
    saved state), and [c16rtomb] fed those code units writes the original
    bytes; an unpaired surrogate is [EILSEQ] and resets the state. *)
Theorem utf16_roundtrip mb cp :
  mb <> 1 -> scalar cp -> cp <> 0 ->
  let n := Z.of_nat (length (enc cp)) in
  (cp < 0x10000 ->
     mbrtoc16 mb (Some (enc cp)) n 0 = Some (Mbr n (Some cp) 0 false) /\
     c16rtomb mb true cp 0 = (enc cp, n, 0, false)) /\
  (0x10000 <= cp ->
     exists hi lo x,
       mbrtoc16 mb (Some (enc cp)) n 0 = Some (Mbr n (Some hi) lo false) /\
       (forall s k, mbrtoc16 mb (Some s) k lo = Some (Mbr PENDING (Some lo) 0 false)) /\
       c16rtomb mb true hi 0 = ([], 0, x, false) /\
       c16rtomb mb true lo x = (enc cp, n, 0, false) /\
       (forall u, 0 <= u < 2 ^ 16 -> ~ 0xdc00 <= u < 0xe000 ->
          c16rtomb mb true u x = ([], ERR, 0, true)) /\
       c16rtomb mb true lo 0 = ([], ERR, 0, true)).
Proof.
  intros Hmb Hs H0 n.
  assert (Hwc : - 2 ^ 31 <= cp < 2 ^ 31) by (unfold scalar in Hs; lia).
  assert (Hb : bytes (enc cp)).
  { unfold scalar in Hs. unfold enc. repeat case_match; repeat constructor; unfold byte; mlia. }
  assert (Hlen : (1 <= length (enc cp) <= 4)%nat) by (unfold enc; repeat case_match; simpl; lia).
  assert (Hdec : mbrtowc mb (Some (enc cp)) n 0 = Some (Mbr n (Some cp) 0 false)).
  { unfold n. rewrite (mbrtowc_spec mb []); try done; [|intros He; rewrite He in Hlen; simpl in Hlen; lia|lia].
    cbn [app]. rewrite <- (app_nil_r (enc cp)) at 1. rewrite u8dec_enc by done.
    rewrite (proj2 (Z.eqb_neq cp 0)), Z.sub_0_r by done. done. }
  pose proof (proj1 (wcrtomb_spec mb cp Hmb Hwc) Hs) as Henc. fold n in Henc.
  assert (Hn4 : (n <=? 4) = true) by (unfold n; lia).
  assert (HnE : (n =? ERR) = false) by (unfold n, ERR; lia). split.
  - intros Hlt. unfold mbrtoc16, mbrtoc16_from. change (s32 0 >? 0) with false. rewrite Hdec.
    cbn [mbind option_bind ret out st eilseq]. rewrite Hn4.
    replace (cp >=? 65536) with false by lia.
    unfold scalar in Hs. rewrite u16_id by lia. split; [done|].
    unfold c16rtomb. cbn [negb]. replace ((0 =? 0) && _) with false.
    2: { unfold u32. simpl. mlia. }
    cbn [Z.eqb negb]. by rewrite Henc, HnE.
  - intros Hge. unfold scalar in Hs.
    set (hi := 0xd7c0 + cp / 1024). set (lo := cp mod 1024 + 0xdc00).
    assert (Hhi : 0xd800 <= hi < 0xdc00) by (subst hi; mlia).
    assert (Hlo : 0xdc00 <= lo < 0xe000) by (subst lo; mlia).
    set (x := cp - cp mod 1024). assert (Hx : 0x10000 <= x < 0x110000) by (subst x; mlia).
    exists hi, lo, x. split_and!.
    + unfold mbrtoc16, mbrtoc16_from. change (s32 0 >? 0) with false. rewrite Hdec.
      cbn [mbind option_bind ret out st eilseq]. rewrite Hn4.
      replace (cp >=? 65536) with true by lia.
      rewrite Z.shiftr_div_pow2 by lia. change 0x3ff with (Z.ones 10).
      rewrite Z.land_ones by lia. change (2 ^ 10) with 1024. fold hi lo.
      by rewrite u16_id by lia.
    + intros s k. unfold mbrtoc16, mbrtoc16_from. rewrite s32_id, u16_id by lia.
      by replace (lo >? 0) with true by lia.
    + unfold c16rtomb. cbn [negb Z.eqb andb]. rewrite u32_id by lia.
      replace (hi - 55296 <? 1024) with true by lia.
      rewrite Z.shiftl_mul_pow2, u32_id by (subst hi; mlia). do 3 f_equal. subst hi x. mlia.
    + unfold c16rtomb. cbn [negb]. replace (x =? 0) with false by lia. cbn [andb negb].
      rewrite u32_id by lia. replace (lo - 56320 >=? 1024) with false by lia.
      replace (x + lo - 56320) with cp by (subst x lo; lia). by rewrite s32_id, Henc, HnE by lia.
    + intros u Hu Hnl. unfold c16rtomb. cbn [negb]. replace (x =? 0) with false by lia.
      cbn [andb negb]. by replace (u32 (u - 56320) >=? 1024) with true by (unfold u32; mlia).
    + unfold c16rtomb. cbn [negb Z.eqb andb].
      replace (u32 (lo - 55296) <? 1024) with false by (rewrite u32_id; lia).
      rewrite (proj2 (wcrtomb_spec mb lo Hmb ltac:(lia))) by (unfold scalar; lia). done.
Qed.

Lemma utf16_roundtrip_witness :
  c16rtomb 4 true 0x20ac 0 = ([0xe2; 0x82; 0xac], 3, 0, false) /\
  exists hi lo x,
    mbrtoc16 4 (Some [0xf0; 0x9f; 0x98; 0x80]) 4 0 = Some (Mbr 4 (Some hi) lo false) /\
    c16rtomb 4 true hi 0 = ([], 0, x, false).
Proof.
  split.
  - refine (proj2 (proj1 (utf16_roundtrip 4 0x20ac _ _ _) _)); [done|left; lia|done|lia].
  - destruct (utf16_roundtrip 4 0x1f600) as [_ H]; [lia|right; lia|lia|].
    destruct H as (hi & lo & x & H1 & _ & H2 & _); [lia|].
    exists hi, lo, x. split; [exact H1|exact H2].
Defined.

(** The byte count is kept in an [unsigned]: for counts of 2^32 and more the
    length that [mbrtowc] returns is wrong. *)
Lemma mbrtowc_count_truncated :
  mbrtowc 4 (Some [0xe2; 0x82; 0xac]) (2 ^ 64 - 1) 0 = Some (Mbr (2 ^ 32 + 3) (Some 0x20ac) 0 false).
Proof. by vm_compute. Qed.

