(* ===== verification/DesTables.v ===== *)
(** The constant tables of src/musl-1.1.19/src/crypt/crypt_des.c: each row of
    a table holds, for the value of one group of input bits, the output bits
    that the group contributes to a permutation (for [psbox], to an S-box
    followed by the permutation P).  What they compute is in Des.v. *)
From S2P Require Import Prelude.

Definition key_shifts : list Z := [1; 1; 2; 2; 2; 2; 2; 2; 1; 2; 2; 2; 2; 2; 2; 1].

Definition psbox : list (list Z) :=
  [
   [0x0080_8200; 0x0000_0000; 0x0000_8000; 0x0080_8202;
    0x0080_8002; 0x0000_8202; 0x0000_0002; 0x0000_8000;
    0x0000_0200; 0x0080_8200; 0x0080_8202; 0x0000_0200;
    0x0080_0202; 0x0080_8002; 0x0080_0000; 0x0000_0002;
    0x0000_0202; 0x0080_0200; 0x0080_0200; 0x0000_8200;
    0x0000_8200; 0x0080_8000; 0x0080_8000; 0x0080_0202;
    0x0000_8002; 0x0080_0002; 0x0080_0002; 0x0000_8002;
    0x0000_0000; 0x0000_0202; 0x0000_8202; 0x0080_0000;
    0x0000_8000; 0x0080_8202; 0x0000_0002; 0x0080_8000;
    0x0080_8200; 0x0080_0000; 0x0080_0000; 0x0000_0200;
    0x0080_8002; 0x0000_8000; 0x0000_8200; 0x0080_0002;
    0x0000_0200; 0x0000_0002; 0x0080_0202; 0x0000_8202;
    0x0080_8202; 0x0000_8002; 0x0080_8000; 0x0080_0202;
    0x0080_0002; 0x0000_0202; 0x0000_8202; 0x0080_8200;
    0x0000_0202; 0x0080_0200; 0x0080_0200; 0x0000_0000;
    0x0000_8002; 0x0000_8200; 0x0000_0000; 0x0080_8002];
   [0x4008_4010; 0x4000_4000; 0x0000_4000; 0x0008_4010;
    0x0008_0000; 0x0000_0010; 0x4008_0010; 0x4000_4010;
    0x4000_0010; 0x4008_4010; 0x4008_4000; 0x4000_0000;
    0x4000_4000; 0x0008_0000; 0x0000_0010; 0x4008_0010;
    0x0008_4000; 0x0008_0010; 0x4000_4010; 0x0000_0000;
    0x4000_0000; 0x0000_4000; 0x0008_4010; 0x4008_0000;
    0x0008_0010; 0x4000_0010; 0x0000_0000; 0x0008_4000;
    0x0000_4010; 0x4008_4000; 0x4008_0000; 0x0000_4010;
    0x0000_0000; 0x0008_4010; 0x4008_0010; 0x0008_0000;
    0x4000_4010; 0x4008_0000; 0x4008_4000; 0x0000_4000;
    0x4008_0000; 0x4000_4000; 0x0000_0010; 0x4008_4010;
    0x0008_4010; 0x0000_0010; 0x0000_4000; 0x4000_0000;
    0x0000_4010; 0x4008_4000; 0x0008_0000; 0x4000_0010;
    0x0008_0010; 0x4000_4010; 0x4000_0010; 0x0008_0010;
    0x0008_4000; 0x0000_0000; 0x4000_4000; 0x0000_4010;
    0x4000_0000; 0x4008_0010; 0x4008_4010; 0x0008_4000];
   [0x0000_0104; 0x0401_0100; 0x0000_0000; 0x0401_0004;
    0x0400_0100; 0x0000_0000; 0x0001_0104; 0x0400_0100;
    0x0001_0004; 0x0400_0004; 0x0400_0004; 0x0001_0000;
    0x0401_0104; 0x0001_0004; 0x0401_0000; 0x0000_0104;
    0x0400_0000; 0x0000_0004; 0x0401_0100; 0x0000_0100;
    0x0001_0100; 0x0401_0000; 0x0401_0004; 0x0001_0104;
    0x0400_0104; 0x0001_0100; 0x0001_0000; 0x0400_0104;
    0x0000_0004; 0x0401_0104; 0x0000_0100; 0x0400_0000;
    0x0401_0100; 0x0400_0000; 0x0001_0004; 0x0000_0104;
    0x0001_0000; 0x0401_0100; 0x0400_0100; 0x0000_0000;
    0x0000_0100; 0x0001_0004; 0x0401_0104; 0x0400_0100;
    0x0400_0004; 0x0000_0100; 0x0000_0000; 0x0401_0004;
    0x0400_0104; 0x0001_0000; 0x0400_0000; 0x0401_0104;
    0x0000_0004; 0x0001_0104; 0x0001_0100; 0x0400_0004;
    0x0401_0000; 0x0400_0104; 0x0000_0104; 0x0401_0000;
    0x0001_0104; 0x0000_0004; 0x0401_0004; 0x0001_0100];
   [0x8040_1000; 0x8000_1040; 0x8000_1040; 0x0000_0040;
    0x0040_1040; 0x8040_0040; 0x8040_0000; 0x8000_1000;
    0x0000_0000; 0x0040_1000; 0x0040_1000; 0x8040_1040;
    0x8000_0040; 0x0000_0000; 0x0040_0040; 0x8040_0000;
    0x8000_0000; 0x0000_1000; 0x0040_0000; 0x8040_1000;
    0x0000_0040; 0x0040_0000; 0x8000_1000; 0x0000_1040;
    0x8040_0040; 0x8000_0000; 0x0000_1040; 0x0040_0040;
    0x0000_1000; 0x0040_1040; 0x8040_1040; 0x8000_0040;
    0x0040_0040; 0x8040_0000; 0x0040_1000; 0x8040_1040;
    0x8000_0040; 0x0000_0000; 0x0000_0000; 0x0040_1000;
    0x0000_1040; 0x0040_0040; 0x8040_0040; 0x8000_0000;
    0x8040_1000; 0x8000_1040; 0x8000_1040; 0x0000_0040;
    0x8040_1040; 0x8000_0040; 0x8000_0000; 0x0000_1000;
    0x8040_0000; 0x8000_1000; 0x0040_1040; 0x8040_0040;
    0x8000_1000; 0x0000_1040; 0x0040_0000; 0x8040_1000;
    0x0000_0040; 0x0040_0000; 0x0000_1000; 0x0040_1040];
   [0x0000_0080; 0x0104_0080; 0x0104_0000; 0x2100_0080;
    0x0004_0000; 0x0000_0080; 0x2000_0000; 0x0104_0000;
    0x2004_0080; 0x0004_0000; 0x0100_0080; 0x2004_0080;
    0x2100_0080; 0x2104_0000; 0x0004_0080; 0x2000_0000;
    0x0100_0000; 0x2004_0000; 0x2004_0000; 0x0000_0000;
    0x2000_0080; 0x2104_0080; 0x2104_0080; 0x0100_0080;
    0x2104_0000; 0x2000_0080; 0x0000_0000; 0x2100_0000;
    0x0104_0080; 0x0100_0000; 0x2100_0000; 0x0004_0080;
    0x0004_0000; 0x2100_0080; 0x0000_0080; 0x0100_0000;
    0x2000_0000; 0x0104_0000; 0x2100_0080; 0x2004_0080;
    0x0100_0080; 0x2000_0000; 0x2104_0000; 0x0104_0080;
    0x2004_0080; 0x0000_0080; 0x0100_0000; 0x2104_0000;
    0x2104_0080; 0x0004_0080; 0x2100_0000; 0x2104_0080;
    0x0104_0000; 0x0000_0000; 0x2004_0000; 0x2100_0000;
    0x0004_0080; 0x0100_0080; 0x2000_0080; 0x0004_0000;
    0x0000_0000; 0x2004_0000; 0x0104_0080; 0x2000_0080];
   [0x1000_0008; 0x1020_0000; 0x0000_2000; 0x1020_2008;
    0x1020_0000; 0x0000_0008; 0x1020_2008; 0x0020_0000;
    0x1000_2000; 0x0020_2008; 0x0020_0000; 0x1000_0008;
    0x0020_0008; 0x1000_2000; 0x1000_0000; 0x0000_2008;
    0x0000_0000; 0x0020_0008; 0x1000_2008; 0x0000_2000;
    0x0020_2000; 0x1000_2008; 0x0000_0008; 0x1020_0008;
    0x1020_0008; 0x0000_0000; 0x0020_2008; 0x1020_2000;
    0x0000_2008; 0x0020_2000; 0x1020_2000; 0x1000_0000;
    0x1000_2000; 0x0000_0008; 0x1020_0008; 0x0020_2000;
    0x1020_2008; 0x0020_0000; 0x0000_2008; 0x1000_0008;
    0x0020_0000; 0x1000_2000; 0x1000_0000; 0x0000_2008;
    0x1000_0008; 0x1020_2008; 0x0020_2000; 0x1020_0000;
    0x0020_2008; 0x1020_2000; 0x0000_0000; 0x1020_0008;
    0x0000_0008; 0x0000_2000; 0x1020_0000; 0x0020_2008;
    0x0000_2000; 0x0020_0008; 0x1000_2008; 0x0000_0000;
    0x1020_2000; 0x1000_0000; 0x0020_0008; 0x1000_2008];
   [0x0010_0000; 0x0210_0001; 0x0200_0401; 0x0000_0000;
    0x0000_0400; 0x0200_0401; 0x0010_0401; 0x0210_0400;
    0x0210_0401; 0x0010_0000; 0x0000_0000; 0x0200_0001;
    0x0000_0001; 0x0200_0000; 0x0210_0001; 0x0000_0401;
    0x0200_0400; 0x0010_0401; 0x0010_0001; 0x0200_0400;
    0x0200_0001; 0x0210_0000; 0x0210_0400; 0x0010_0001;
    0x0210_0000; 0x0000_0400; 0x0000_0401; 0x0210_0401;
    0x0010_0400; 0x0000_0001; 0x0200_0000; 0x0010_0400;
    0x0200_0000; 0x0010_0400; 0x0010_0000; 0x0200_0401;
    0x0200_0401; 0x0210_0001; 0x0210_0001; 0x0000_0001;
    0x0010_0001; 0x0200_0000; 0x0200_0400; 0x0010_0000;
    0x0210_0400; 0x0000_0401; 0x0010_0401; 0x0210_0400;
    0x0000_0401; 0x0200_0001; 0x0210_0401; 0x0210_0000;
    0x0010_0400; 0x0000_0000; 0x0000_0001; 0x0210_0401;
    0x0000_0000; 0x0010_0401; 0x0210_0000; 0x0000_0400;
    0x0200_0001; 0x0200_0400; 0x0000_0400; 0x0010_0001];
   [0x0800_0820; 0x0000_0800; 0x0002_0000; 0x0802_0820;
    0x0800_0000; 0x0800_0820; 0x0000_0020; 0x0800_0000;
    0x0002_0020; 0x0802_0000; 0x0802_0820; 0x0002_0800;
    0x0802_0800; 0x0002_0820; 0x0000_0800; 0x0000_0020;
    0x0802_0000; 0x0800_0020; 0x0800_0800; 0x0000_0820;
    0x0002_0800; 0x0002_0020; 0x0802_0020; 0x0802_0800;
    0x0000_0820; 0x0000_0000; 0x0000_0000; 0x0802_0020;
    0x0800_0020; 0x0800_0800; 0x0002_0820; 0x0002_0000;
    0x0002_0820; 0x0002_0000; 0x0802_0800; 0x0000_0800;
    0x0000_0020; 0x0802_0020; 0x0000_0800; 0x0002_0820;
    0x0800_0800; 0x0000_0020; 0x0800_0020; 0x0802_0000;
    0x0802_0020; 0x0800_0000; 0x0002_0000; 0x0800_0820;
    0x0000_0000; 0x0802_0820; 0x0002_0020; 0x0800_0020;
    0x0802_0000; 0x0800_0800; 0x0800_0820; 0x0000_0000;
    0x0802_0820; 0x0002_0800; 0x0002_0800; 0x0000_0820;
    0x0000_0820; 0x0002_0020; 0x0800_0000; 0x0802_0800]
  ].

Definition ip_maskl : list (list Z) :=
  [
   [0x0000_0000; 0x0001_0000; 0x0000_0000; 0x0001_0000;
    0x0100_0000; 0x0101_0000; 0x0100_0000; 0x0101_0000;
    0x0000_0000; 0x0001_0000; 0x0000_0000; 0x0001_0000;
    0x0100_0000; 0x0101_0000; 0x0100_0000; 0x0101_0000];
   [0x0000_0000; 0x0000_0001; 0x0000_0000; 0x0000_0001;
    0x0000_0100; 0x0000_0101; 0x0000_0100; 0x0000_0101;
    0x0000_0000; 0x0000_0001; 0x0000_0000; 0x0000_0001;
    0x0000_0100; 0x0000_0101; 0x0000_0100; 0x0000_0101];
   [0x0000_0000; 0x0002_0000; 0x0000_0000; 0x0002_0000;
    0x0200_0000; 0x0202_0000; 0x0200_0000; 0x0202_0000;
    0x0000_0000; 0x0002_0000; 0x0000_0000; 0x0002_0000;
    0x0200_0000; 0x0202_0000; 0x0200_0000; 0x0202_0000];
   [0x0000_0000; 0x0000_0002; 0x0000_0000; 0x0000_0002;
    0x0000_0200; 0x0000_0202; 0x0000_0200; 0x0000_0202;
    0x0000_0000; 0x0000_0002; 0x0000_0000; 0x0000_0002;
    0x0000_0200; 0x0000_0202; 0x0000_0200; 0x0000_0202];
   [0x0000_0000; 0x0004_0000; 0x0000_0000; 0x0004_0000;
    0x0400_0000; 0x0404_0000; 0x0400_0000; 0x0404_0000;
    0x0000_0000; 0x0004_0000; 0x0000_0000; 0x0004_0000;
    0x0400_0000; 0x0404_0000; 0x0400_0000; 0x0404_0000];
   [0x0000_0000; 0x0000_0004; 0x0000_0000; 0x0000_0004;
    0x0000_0400; 0x0000_0404; 0x0000_0400; 0x0000_0404;
    0x0000_0000; 0x0000_0004; 0x0000_0000; 0x0000_0004;
    0x0000_0400; 0x0000_0404; 0x0000_0400; 0x0000_0404];
   [0x0000_0000; 0x0008_0000; 0x0000_0000; 0x0008_0000;
    0x0800_0000; 0x0808_0000; 0x0800_0000; 0x0808_0000;
    0x0000_0000; 0x0008_0000; 0x0000_0000; 0x0008_0000;
    0x0800_0000; 0x0808_0000; 0x0800_0000; 0x0808_0000];
   [0x0000_0000; 0x0000_0008; 0x0000_0000; 0x0000_0008;
    0x0000_0800; 0x0000_0808; 0x0000_0800; 0x0000_0808;
    0x0000_0000; 0x0000_0008; 0x0000_0000; 0x0000_0008;
    0x0000_0800; 0x0000_0808; 0x0000_0800; 0x0000_0808];
   [0x0000_0000; 0x0010_0000; 0x0000_0000; 0x0010_0000;
    0x1000_0000; 0x1010_0000; 0x1000_0000; 0x1010_0000;
    0x0000_0000; 0x0010_0000; 0x0000_0000; 0x0010_0000;
    0x1000_0000; 0x1010_0000; 0x1000_0000; 0x1010_0000];
   [0x0000_0000; 0x0000_0010; 0x0000_0000; 0x0000_0010;
    0x0000_1000; 0x0000_1010; 0x0000_1000; 0x0000_1010;
    0x0000_0000; 0x0000_0010; 0x0000_0000; 0x0000_0010;
    0x0000_1000; 0x0000_1010; 0x0000_1000; 0x0000_1010];
   [0x0000_0000; 0x0020_0000; 0x0000_0000; 0x0020_0000;
    0x2000_0000; 0x2020_0000; 0x2000_0000; 0x2020_0000;
    0x0000_0000; 0x0020_0000; 0x0000_0000; 0x0020_0000;
    0x2000_0000; 0x2020_0000; 0x2000_0000; 0x2020_0000];
   [0x0000_0000; 0x0000_0020; 0x0000_0000; 0x0000_0020;
    0x0000_2000; 0x0000_2020; 0x0000_2000; 0x0000_2020;
    0x0000_0000; 0x0000_0020; 0x0000_0000; 0x0000_0020;
    0x0000_2000; 0x0000_2020; 0x0000_2000; 0x0000_2020];
   [0x0000_0000; 0x0040_0000; 0x0000_0000; 0x0040_0000;
    0x4000_0000; 0x4040_0000; 0x4000_0000; 0x4040_0000;
    0x0000_0000; 0x0040_0000; 0x0000_0000; 0x0040_0000;
    0x4000_0000; 0x4040_0000; 0x4000_0000; 0x4040_0000];
   [0x0000_0000; 0x0000_0040; 0x0000_0000; 0x0000_0040;
    0x0000_4000; 0x0000_4040; 0x0000_4000; 0x0000_4040;
    0x0000_0000; 0x0000_0040; 0x0000_0000; 0x0000_0040;
    0x0000_4000; 0x0000_4040; 0x0000_4000; 0x0000_4040];
   [0x0000_0000; 0x0080_0000; 0x0000_0000; 0x0080_0000;
    0x8000_0000; 0x8080_0000; 0x8000_0000; 0x8080_0000;
    0x0000_0000; 0x0080_0000; 0x0000_0000; 0x0080_0000;
    0x8000_0000; 0x8080_0000; 0x8000_0000; 0x8080_0000];
   [0x0000_0000; 0x0000_0080; 0x0000_0000; 0x0000_0080;
    0x0000_8000; 0x0000_8080; 0x0000_8000; 0x0000_8080;
    0x0000_0000; 0x0000_0080; 0x0000_0000; 0x0000_0080;
    0x0000_8000; 0x0000_8080; 0x0000_8000; 0x0000_8080]
  ].

Definition ip_maskr : list (list Z) :=
  [
   [0x0000_0000; 0x0000_0000; 0x0001_0000; 0x0001_0000;
    0x0000_0000; 0x0000_0000; 0x0001_0000; 0x0001_0000;
    0x0100_0000; 0x0100_0000; 0x0101_0000; 0x0101_0000;
    0x0100_0000; 0x0100_0000; 0x0101_0000; 0x0101_0000];
   [0x0000_0000; 0x0000_0000; 0x0000_0001; 0x0000_0001;
    0x0000_0000; 0x0000_0000; 0x0000_0001; 0x0000_0001;
    0x0000_0100; 0x0000_0100; 0x0000_0101; 0x0000_0101;
    0x0000_0100; 0x0000_0100; 0x0000_0101; 0x0000_0101];
   [0x0000_0000; 0x0000_0000; 0x0002_0000; 0x0002_0000;
    0x0000_0000; 0x0000_0000; 0x0002_0000; 0x0002_0000;
    0x0200_0000; 0x0200_0000; 0x0202_0000; 0x0202_0000;
    0x0200_0000; 0x0200_0000; 0x0202_0000; 0x0202_0000];
   [0x0000_0000; 0x0000_0000; 0x0000_0002; 0x0000_0002;
    0x0000_0000; 0x0000_0000; 0x0000_0002; 0x0000_0002;
    0x0000_0200; 0x0000_0200; 0x0000_0202; 0x0000_0202;
    0x0000_0200; 0x0000_0200; 0x0000_0202; 0x0000_0202];
   [0x0000_0000; 0x0000_0000; 0x0004_0000; 0x0004_0000;
    0x0000_0000; 0x0000_0000; 0x0004_0000; 0x0004_0000;
    0x0400_0000; 0x0400_0000; 0x0404_0000; 0x0404_0000;
    0x0400_0000; 0x0400_0000; 0x0404_0000; 0x0404_0000];
   [0x0000_0000; 0x0000_0000; 0x0000_0004; 0x0000_0004;
    0x0000_0000; 0x0000_0000; 0x0000_0004; 0x0000_0004;
    0x0000_0400; 0x0000_0400; 0x0000_0404; 0x0000_0404;
    0x0000_0400; 0x0000_0400; 0x0000_0404; 0x0000_0404];
   [0x0000_0000; 0x0000_0000; 0x0008_0000; 0x0008_0000;
    0x0000_0000; 0x0000_0000; 0x0008_0000; 0x0008_0000;
    0x0800_0000; 0x0800_0000; 0x0808_0000; 0x0808_0000;
    0x0800_0000; 0x0800_0000; 0x0808_0000; 0x0808_0000];
   [0x0000_0000; 0x0000_0000; 0x0000_0008; 0x0000_0008;
    0x0000_0000; 0x0000_0000; 0x0000_0008; 0x0000_0008;
    0x0000_0800; 0x0000_0800; 0x0000_0808; 0x0000_0808;
    0x0000_0800; 0x0000_0800; 0x0000_0808; 0x0000_0808];
   [0x0000_0000; 0x0000_0000; 0x0010_0000; 0x0010_0000;
    0x0000_0000; 0x0000_0000; 0x0010_0000; 0x0010_0000;
    0x1000_0000; 0x1000_0000; 0x1010_0000; 0x1010_0000;
    0x1000_0000; 0x1000_0000; 0x1010_0000; 0x1010_0000];
   [0x0000_0000; 0x0000_0000; 0x0000_0010; 0x0000_0010;
    0x0000_0000; 0x0000_0000; 0x0000_0010; 0x0000_0010;
    0x0000_1000; 0x0000_1000; 0x0000_1010; 0x0000_1010;
    0x0000_1000; 0x0000_1000; 0x0000_1010; 0x0000_1010];
   [0x0000_0000; 0x0000_0000; 0x0020_0000; 0x0020_0000;
    0x0000_0000; 0x0000_0000; 0x0020_0000; 0x0020_0000;
    0x2000_0000; 0x2000_0000; 0x2020_0000; 0x2020_0000;
    0x2000_0000; 0x2000_0000; 0x2020_0000; 0x2020_0000];
   [0x0000_0000; 0x0000_0000; 0x0000_0020; 0x0000_0020;
    0x0000_0000; 0x0000_0000; 0x0000_0020; 0x0000_0020;
    0x0000_2000; 0x0000_2000; 0x0000_2020; 0x0000_2020;
    0x0000_2000; 0x0000_2000; 0x0000_2020; 0x0000_2020];
   [0x0000_0000; 0x0000_0000; 0x0040_0000; 0x0040_0000;
    0x0000_0000; 0x0000_0000; 0x0040_0000; 0x0040_0000;
    0x4000_0000; 0x4000_0000; 0x4040_0000; 0x4040_0000;
    0x4000_0000; 0x4000_0000; 0x4040_0000; 0x4040_0000];
   [0x0000_0000; 0x0000_0000; 0x0000_0040; 0x0000_0040;
    0x0000_0000; 0x0000_0000; 0x0000_0040; 0x0000_0040;
    0x0000_4000; 0x0000_4000; 0x0000_4040; 0x0000_4040;
    0x0000_4000; 0x0000_4000; 0x0000_4040; 0x0000_4040];
   [0x0000_0000; 0x0000_0000; 0x0080_0000; 0x0080_0000;
    0x0000_0000; 0x0000_0000; 0x0080_0000; 0x0080_0000;
    0x8000_0000; 0x8000_0000; 0x8080_0000; 0x8080_0000;
    0x8000_0000; 0x8000_0000; 0x8080_0000; 0x8080_0000];
   [0x0000_0000; 0x0000_0000; 0x0000_0080; 0x0000_0080;
    0x0000_0000; 0x0000_0000; 0x0000_0080; 0x0000_0080;
    0x0000_8000; 0x0000_8000; 0x0000_8080; 0x0000_8080;
    0x0000_8000; 0x0000_8000; 0x0000_8080; 0x0000_8080]
  ].

Definition fp_maskl : list (list Z) :=
  [
   [0x0000_0000; 0x4000_0000; 0x0040_0000; 0x4040_0000;
    0x0000_4000; 0x4000_4000; 0x0040_4000; 0x4040_4000;
    0x0000_0040; 0x4000_0040; 0x0040_0040; 0x4040_0040;
    0x0000_4040; 0x4000_4040; 0x0040_4040; 0x4040_4040];
   [0x0000_0000; 0x1000_0000; 0x0010_0000; 0x1010_0000;
    0x0000_1000; 0x1000_1000; 0x0010_1000; 0x1010_1000;
    0x0000_0010; 0x1000_0010; 0x0010_0010; 0x1010_0010;
    0x0000_1010; 0x1000_1010; 0x0010_1010; 0x1010_1010];
   [0x0000_0000; 0x0400_0000; 0x0004_0000; 0x0404_0000;
    0x0000_0400; 0x0400_0400; 0x0004_0400; 0x0404_0400;
    0x0000_0004; 0x0400_0004; 0x0004_0004; 0x0404_0004;
    0x0000_0404; 0x0400_0404; 0x0004_0404; 0x0404_0404];
   [0x0000_0000; 0x0100_0000; 0x0001_0000; 0x0101_0000;
    0x0000_0100; 0x0100_0100; 0x0001_0100; 0x0101_0100;
    0x0000_0001; 0x0100_0001; 0x0001_0001; 0x0101_0001;
    0x0000_0101; 0x0100_0101; 0x0001_0101; 0x0101_0101];
   [0x0000_0000; 0x8000_0000; 0x0080_0000; 0x8080_0000;
    0x0000_8000; 0x8000_8000; 0x0080_8000; 0x8080_8000;
    0x0000_0080; 0x8000_0080; 0x0080_0080; 0x8080_0080;
    0x0000_8080; 0x8000_8080; 0x0080_8080; 0x8080_8080];
   [0x0000_0000; 0x2000_0000; 0x0020_0000; 0x2020_0000;
    0x0000_2000; 0x2000_2000; 0x0020_2000; 0x2020_2000;
    0x0000_0020; 0x2000_0020; 0x0020_0020; 0x2020_0020;
    0x0000_2020; 0x2000_2020; 0x0020_2020; 0x2020_2020];
   [0x0000_0000; 0x0800_0000; 0x0008_0000; 0x0808_0000;
    0x0000_0800; 0x0800_0800; 0x0008_0800; 0x0808_0800;
    0x0000_0008; 0x0800_0008; 0x0008_0008; 0x0808_0008;
    0x0000_0808; 0x0800_0808; 0x0008_0808; 0x0808_0808];
   [0x0000_0000; 0x0200_0000; 0x0002_0000; 0x0202_0000;
    0x0000_0200; 0x0200_0200; 0x0002_0200; 0x0202_0200;
    0x0000_0002; 0x0200_0002; 0x0002_0002; 0x0202_0002;
    0x0000_0202; 0x0200_0202; 0x0002_0202; 0x0202_0202]
  ].

Definition fp_maskr : list (list Z) :=
  [
   [0x0000_0000; 0x4000_0000; 0x0040_0000; 0x4040_0000;
    0x0000_4000; 0x4000_4000; 0x0040_4000; 0x4040_4000;
    0x0000_0040; 0x4000_0040; 0x0040_0040; 0x4040_0040;
    0x0000_4040; 0x4000_4040; 0x0040_4040; 0x4040_4040];
   [0x0000_0000; 0x1000_0000; 0x0010_0000; 0x1010_0000;
    0x0000_1000; 0x1000_1000; 0x0010_1000; 0x1010_1000;
    0x0000_0010; 0x1000_0010; 0x0010_0010; 0x1010_0010;
    0x0000_1010; 0x1000_1010; 0x0010_1010; 0x1010_1010];
   [0x0000_0000; 0x0400_0000; 0x0004_0000; 0x0404_0000;
    0x0000_0400; 0x0400_0400; 0x0004_0400; 0x0404_0400;
    0x0000_0004; 0x0400_0004; 0x0004_0004; 0x0404_0004;
    0x0000_0404; 0x0400_0404; 0x0004_0404; 0x0404_0404];
   [0x0000_0000; 0x0100_0000; 0x0001_0000; 0x0101_0000;
    0x0000_0100; 0x0100_0100; 0x0001_0100; 0x0101_0100;
    0x0000_0001; 0x0100_0001; 0x0001_0001; 0x0101_0001;
    0x0000_0101; 0x0100_0101; 0x0001_0101; 0x0101_0101];
   [0x0000_0000; 0x8000_0000; 0x0080_0000; 0x8080_0000;
    0x0000_8000; 0x8000_8000; 0x0080_8000; 0x8080_8000;
    0x0000_0080; 0x8000_0080; 0x0080_0080; 0x8080_0080;
    0x0000_8080; 0x8000_8080; 0x0080_8080; 0x8080_8080];
   [0x0000_0000; 0x2000_0000; 0x0020_0000; 0x2020_0000;
    0x0000_2000; 0x2000_2000; 0x0020_2000; 0x2020_2000;
    0x0000_0020; 0x2000_0020; 0x0020_0020; 0x2020_0020;
    0x0000_2020; 0x2000_2020; 0x0020_2020; 0x2020_2020];
   [0x0000_0000; 0x0800_0000; 0x0008_0000; 0x0808_0000;
    0x0000_0800; 0x0800_0800; 0x0008_0800; 0x0808_0800;
    0x0000_0008; 0x0800_0008; 0x0008_0008; 0x0808_0008;
    0x0000_0808; 0x0800_0808; 0x0008_0808; 0x0808_0808];
   [0x0000_0000; 0x0200_0000; 0x0002_0000; 0x0202_0000;
    0x0000_0200; 0x0200_0200; 0x0002_0200; 0x0202_0200;
    0x0000_0002; 0x0200_0002; 0x0002_0002; 0x0202_0002;
    0x0000_0202; 0x0200_0202; 0x0002_0202; 0x0202_0202]
  ].

Definition key_perm_maskl : list (list Z) :=
  [
   [0x0000_0000; 0x0000_0000; 0x0000_0010; 0x0000_0010;
    0x0000_1000; 0x0000_1000; 0x0000_1010; 0x0000_1010;
    0x0010_0000; 0x0010_0000; 0x0010_0010; 0x0010_0010;
    0x0010_1000; 0x0010_1000; 0x0010_1010; 0x0010_1010];
   [0x0000_0000; 0x0000_0000; 0x0000_0020; 0x0000_0020;
    0x0000_2000; 0x0000_2000; 0x0000_2020; 0x0000_2020;
    0x0020_0000; 0x0020_0000; 0x0020_0020; 0x0020_0020;
    0x0020_2000; 0x0020_2000; 0x0020_2020; 0x0020_2020];
   [0x0000_0000; 0x0000_0000; 0x0000_0040; 0x0000_0040;
    0x0000_4000; 0x0000_4000; 0x0000_4040; 0x0000_4040;
    0x0040_0000; 0x0040_0000; 0x0040_0040; 0x0040_0040;
    0x0040_4000; 0x0040_4000; 0x0040_4040; 0x0040_4040];
   [0x0000_0000; 0x0000_0000; 0x0000_0080; 0x0000_0080;
    0x0000_8000; 0x0000_8000; 0x0000_8080; 0x0000_8080;
    0x0080_0000; 0x0080_0000; 0x0080_0080; 0x0080_0080;
    0x0080_8000; 0x0080_8000; 0x0080_8080; 0x0080_8080];
   [0x0000_0000; 0x0000_0001; 0x0000_0100; 0x0000_0101;
    0x0001_0000; 0x0001_0001; 0x0001_0100; 0x0001_0101;
    0x0100_0000; 0x0100_0001; 0x0100_0100; 0x0100_0101;
    0x0101_0000; 0x0101_0001; 0x0101_0100; 0x0101_0101];
   [0x0000_0000; 0x0000_0002; 0x0000_0200; 0x0000_0202;
    0x0002_0000; 0x0002_0002; 0x0002_0200; 0x0002_0202;
    0x0200_0000; 0x0200_0002; 0x0200_0200; 0x0200_0202;
    0x0202_0000; 0x0202_0002; 0x0202_0200; 0x0202_0202];
   [0x0000_0000; 0x0000_0004; 0x0000_0400; 0x0000_0404;
    0x0004_0000; 0x0004_0004; 0x0004_0400; 0x0004_0404;
    0x0400_0000; 0x0400_0004; 0x0400_0400; 0x0400_0404;
    0x0404_0000; 0x0404_0004; 0x0404_0400; 0x0404_0404];
   [0x0000_0000; 0x0000_0008; 0x0000_0800; 0x0000_0808;
    0x0008_0000; 0x0008_0008; 0x0008_0800; 0x0008_0808;
    0x0800_0000; 0x0800_0008; 0x0800_0800; 0x0800_0808;
    0x0808_0000; 0x0808_0008; 0x0808_0800; 0x0808_0808]
  ].

Definition key_perm_maskr : list (list Z) :=
  [
   [0x0000_0000; 0x0000_0001; 0x0000_0000; 0x0000_0001;
    0x0000_0000; 0x0000_0001; 0x0000_0000; 0x0000_0001;
    0x0000_0000; 0x0000_0001; 0x0000_0000; 0x0000_0001;
    0x0000_0000; 0x0000_0001; 0x0000_0000; 0x0000_0001];
   [0x0000_0000; 0x0000_0000; 0x0010_0000; 0x0010_0000;
    0x0000_1000; 0x0000_1000; 0x0010_1000; 0x0010_1000;
    0x0000_0010; 0x0000_0010; 0x0010_0010; 0x0010_0010;
    0x0000_1010; 0x0000_1010; 0x0010_1010; 0x0010_1010];
   [0x0000_0000; 0x0000_0002; 0x0000_0000; 0x0000_0002;
    0x0000_0000; 0x0000_0002; 0x0000_0000; 0x0000_0002;
    0x0000_0000; 0x0000_0002; 0x0000_0000; 0x0000_0002;
    0x0000_0000; 0x0000_0002; 0x0000_0000; 0x0000_0002];
   [0x0000_0000; 0x0000_0000; 0x0020_0000; 0x0020_0000;
    0x0000_2000; 0x0000_2000; 0x0020_2000; 0x0020_2000;
    0x0000_0020; 0x0000_0020; 0x0020_0020; 0x0020_0020;
    0x0000_2020; 0x0000_2020; 0x0020_2020; 0x0020_2020];
   [0x0000_0000; 0x0000_0004; 0x0000_0000; 0x0000_0004;
    0x0000_0000; 0x0000_0004; 0x0000_0000; 0x0000_0004;
    0x0000_0000; 0x0000_0004; 0x0000_0000; 0x0000_0004;
    0x0000_0000; 0x0000_0004; 0x0000_0000; 0x0000_0004];
   [0x0000_0000; 0x0000_0000; 0x0040_0000; 0x0040_0000;
    0x0000_4000; 0x0000_4000; 0x0040_4000; 0x0040_4000;
    0x0000_0040; 0x0000_0040; 0x0040_0040; 0x0040_0040;
    0x0000_4040; 0x0000_4040; 0x0040_4040; 0x0040_4040];
   [0x0000_0000; 0x0000_0008; 0x0000_0000; 0x0000_0008;
    0x0000_0000; 0x0000_0008; 0x0000_0000; 0x0000_0008;
    0x0000_0000; 0x0000_0008; 0x0000_0000; 0x0000_0008;
    0x0000_0000; 0x0000_0008; 0x0000_0000; 0x0000_0008];
   [0x0000_0000; 0x0000_0000; 0x0080_0000; 0x0080_0000;
    0x0000_8000; 0x0000_8000; 0x0080_8000; 0x0080_8000;
    0x0000_0080; 0x0000_0080; 0x0080_0080; 0x0080_0080;
    0x0000_8080; 0x0000_8080; 0x0080_8080; 0x0080_8080];
   [0x0000_0000; 0x0000_0000; 0x0100_0000; 0x0100_0000;
    0x0001_0000; 0x0001_0000; 0x0101_0000; 0x0101_0000;
    0x0000_0100; 0x0000_0100; 0x0100_0100; 0x0100_0100;
    0x0001_0100; 0x0001_0100; 0x0101_0100; 0x0101_0100];
   [0x0000_0000; 0x0000_0000; 0x0200_0000; 0x0200_0000;
    0x0002_0000; 0x0002_0000; 0x0202_0000; 0x0202_0000;
    0x0000_0200; 0x0000_0200; 0x0200_0200; 0x0200_0200;
    0x0002_0200; 0x0002_0200; 0x0202_0200; 0x0202_0200];
   [0x0000_0000; 0x0000_0000; 0x0400_0000; 0x0400_0000;
    0x0004_0000; 0x0004_0000; 0x0404_0000; 0x0404_0000;
    0x0000_0400; 0x0000_0400; 0x0400_0400; 0x0400_0400;
    0x0004_0400; 0x0004_0400; 0x0404_0400; 0x0404_0400];
   [0x0000_0000; 0x0000_0000; 0x0800_0000; 0x0800_0000;
    0x0008_0000; 0x0008_0000; 0x0808_0000; 0x0808_0000;
    0x0000_0800; 0x0000_0800; 0x0800_0800; 0x0800_0800;
    0x0008_0800; 0x0008_0800; 0x0808_0800; 0x0808_0800]
  ].

Definition comp_maskl0 : list (list Z) :=
  [
   [0x0000_0000; 0x0002_0000; 0x0000_0001; 0x0002_0001;
    0x0008_0000; 0x000a_0000; 0x0008_0001; 0x000a_0001];
   [0x0000_0000; 0x0000_1000; 0x0000_0000; 0x0000_1000;
    0x0000_0040; 0x0000_1040; 0x0000_0040; 0x0000_1040];
   [0x0000_0000; 0x0040_0000; 0x0000_0020; 0x0040_0020;
    0x0000_8000; 0x0040_8000; 0x0000_8020; 0x0040_8020];
   [0x0000_0000; 0x0010_0000; 0x0000_0800; 0x0010_0800;
    0x0000_0000; 0x0010_0000; 0x0000_0800; 0x0010_0800]
  ].

Definition comp_maskr0 : list (list Z) :=
  [
   [0x0000_0000; 0x0020_0000; 0x0002_0000; 0x0022_0000;
    0x0000_0002; 0x0020_0002; 0x0002_0002; 0x0022_0002];
   [0x0000_0000; 0x0000_0000; 0x0010_0000; 0x0010_0000;
    0x0000_0004; 0x0000_0004; 0x0010_0004; 0x0010_0004];
   [0x0000_0000; 0x0000_4000; 0x0000_0800; 0x0000_4800;
    0x0000_0000; 0x0000_4000; 0x0000_0800; 0x0000_4800];
   [0x0000_0000; 0x0040_0000; 0x0000_8000; 0x0040_8000;
    0x0000_0008; 0x0040_0008; 0x0000_8008; 0x0040_8008]
  ].

Definition comp_maskl1 : list (list Z) :=
  [
   [0x0000_0000; 0x0000_0010; 0x0000_4000; 0x0000_4010;
    0x0004_0000; 0x0004_0010; 0x0004_4000; 0x0004_4010;
    0x0000_0100; 0x0000_0110; 0x0000_4100; 0x0000_4110;
    0x0004_0100; 0x0004_0110; 0x0004_4100; 0x0004_4110];
   [0x0000_0000; 0x0080_0000; 0x0000_0002; 0x0080_0002;
    0x0000_0200; 0x0080_0200; 0x0000_0202; 0x0080_0202;
    0x0020_0000; 0x00a0_0000; 0x0020_0002; 0x00a0_0002;
    0x0020_0200; 0x00a0_0200; 0x0020_0202; 0x00a0_0202];
   [0x0000_0000; 0x0000_2000; 0x0000_0004; 0x0000_2004;
    0x0000_0400; 0x0000_2400; 0x0000_0404; 0x0000_2404;
    0x0000_0000; 0x0000_2000; 0x0000_0004; 0x0000_2004;
    0x0000_0400; 0x0000_2400; 0x0000_0404; 0x0000_2404];
   [0x0000_0000; 0x0001_0000; 0x0000_0008; 0x0001_0008;
    0x0000_0080; 0x0001_0080; 0x0000_0088; 0x0001_0088;
    0x0000_0000; 0x0001_0000; 0x0000_0008; 0x0001_0008;
    0x0000_0080; 0x0001_0080; 0x0000_0088; 0x0001_0088]
  ].

Definition comp_maskr1 : list (list Z) :=
  [
   [0x0000_0000; 0x0000_0000; 0x0000_0080; 0x0000_0080;
    0x0000_2000; 0x0000_2000; 0x0000_2080; 0x0000_2080;
    0x0000_0001; 0x0000_0001; 0x0000_0081; 0x0000_0081;
    0x0000_2001; 0x0000_2001; 0x0000_2081; 0x0000_2081];
   [0x0000_0000; 0x0000_0010; 0x0080_0000; 0x0080_0010;
    0x0001_0000; 0x0001_0010; 0x0081_0000; 0x0081_0010;
    0x0000_0200; 0x0000_0210; 0x0080_0200; 0x0080_0210;
    0x0001_0200; 0x0001_0210; 0x0081_0200; 0x0081_0210];
   [0x0000_0000; 0x0000_0400; 0x0000_1000; 0x0000_1400;
    0x0008_0000; 0x0008_0400; 0x0008_1000; 0x0008_1400;
    0x0000_0020; 0x0000_0420; 0x0000_1020; 0x0000_1420;
    0x0008_0020; 0x0008_0420; 0x0008_1020; 0x0008_1420];
   [0x0000_0000; 0x0000_0100; 0x0004_0000; 0x0004_0100;
    0x0000_0000; 0x0000_0100; 0x0004_0000; 0x0004_0100;
    0x0000_0040; 0x0000_0140; 0x0004_0040; 0x0004_0140;
    0x0000_0040; 0x0000_0140; 0x0004_0040; 0x0004_0140]
  ].
