(* ===== verification/Des.v ===== *)
(** The DES cipher: [__des_setkey], [__do_des] and [des_cipher] of
    src/musl-1.1.19/src/crypt/crypt_des.c, against the standard FIPS 46-3.

    The code never moves single bits: each permutation of the standard is a
    table indexed by groups of input bits, the S-boxes are fused with the
    permutation P, and the 48-bit quantities are pairs of 24-bit words.  The
    permutations are linear for bitwise or, so the tables are validated on one
    input per input bit ([lin_ext]). *)
From S2P Require Import Prelude DesTables.
#[local] Open Scope c_scope.

(** ** The code *)

(** [struct expanded_key]: the round keys as two words of 24 bits each. *)
Record expanded_key := EKey { ek_l : list Z; ek_r : list Z }.

Definition tab (t : list (list Z)) (i v : Z) : Z := nth (Z.to_nat v) (nth (Z.to_nat i) t []) 0.

Definition setup_salt (salt : Z) : Z :=
  let '(saltbits, _, _) :=
    foldl (fun '(saltbits, saltbit, obit) _ =>
             (if negb ((salt & saltbit) =? 0) then saltbits .| obit else saltbits,
              u32 (saltbit << 1), obit >> 1))
          (0, 1, 0x800000) (seqZ 0 24) in
  saltbits.

(** Four bytes, most significant first. *)
Definition be32 (b0 b1 b2 b3 : Z) : Z := b3 .| (b2 << 8) .| (b1 << 16) .| (b0 << 24).

(** "Do key permutation and split into two 28-bit subkeys." *)
Definition key_perm (rawkey0 rawkey1 : Z) : Z * Z :=
  let '(k0, k1, _) :=
    foldl (fun '(k0, k1, ibit) i =>
             let j := i << 1 in
             let k0 := k0 .| (tab key_perm_maskl i ((rawkey0 >> ibit) & 0xf)
                              .| tab key_perm_maskl (i + 4) ((rawkey1 >> ibit) & 0xf)) in
             let k1 := k1 .| tab key_perm_maskr j ((rawkey0 >> ibit) & 0xf) in
             let ibit := ibit - 4 in
             let k1 := k1 .| (tab key_perm_maskr (j + 1) ((rawkey0 >> ibit) & 0xf)
                              .| tab key_perm_maskr (i + 8) ((rawkey1 >> ibit) & 0xf)) in
             (k0, k1, ibit - 4))
          (0, 0, 28) (seqZ 0 4) in
  (k0, k1).

(** "Rotate subkeys and do compression permutation", one round. *)
Definition key_comp (t0 t1 : Z) : Z * Z :=
  let '(kl, kr, _) :=
    foldl (fun '(kl, kr, ibit) i =>
             let kl := kl .| tab comp_maskl0 i ((t0 >> ibit) & 7) in
             let kr := kr .| tab comp_maskr0 i ((t1 >> ibit) & 7) in
             let ibit := ibit - 4 in
             let kl := kl .| tab comp_maskl1 i ((t0 >> ibit) & 0xf) in
             let kr := kr .| tab comp_maskr1 i ((t1 >> ibit) & 0xf) in
             (kl, kr, ibit - 3))
          (0, 0, 25) (seqZ 0 4) in
  (kl, kr).

Definition key_rot (k shifts : Z) : Z := u32 (k << shifts) .| (k >> (28 - shifts)).

Definition key_round (k0 k1 : Z) (st : list Z * list Z * Z) (round : Z) : list Z * list Z * Z :=
  let '(l, r, shifts) := st in
  let shifts := shifts + key_shifts !!! Z.to_nat round in
  let '(kl, kr) := key_comp (key_rot k0 shifts) (key_rot k1 shifts) in
  (l ++ [kl], r ++ [kr], shifts).

Definition key_rounds (k0 k1 : Z) : expanded_key :=
  let '(l, r, _) := foldl (key_round k0 k1) ([], [], 0) (seqZ 0 16) in
  EKey l r.

Definition __des_setkey (key : list Z) : expanded_key :=
  let rawkey0 := be32 (key !!! 0%nat) (key !!! 1%nat) (key !!! 2%nat) (key !!! 3%nat) in
  let rawkey1 := be32 (key !!! 4%nat) (key !!! 5%nat) (key !!! 6%nat) (key !!! 7%nat) in
  let '(k0, k1) := key_perm rawkey0 rawkey1 in
  key_rounds k0 k1.

(** "Do initial permutation (IP)." *)
Definition initial_perm (l_in r_in : Z) : Z * Z :=
  if negb ((l_in .| r_in) =? 0) then
    foldl (fun '(l, r) i =>
             let ibit := 28 - 4 * i in
             (l .| (tab ip_maskl i ((l_in >> ibit) & 0xf) .| tab ip_maskl (i + 8) ((r_in >> ibit) & 0xf)),
              r .| (tab ip_maskr i ((l_in >> ibit) & 0xf) .| tab ip_maskr (i + 8) ((r_in >> ibit) & 0xf))))
          (0, 0) (seqZ 0 8)
  else (0, 0).

(** "Expand R to 48 bits (simulate the E-box)." *)
Definition expand_l (r : Z) : Z :=
  ((r & 0x00000001) << 23) .| ((r & 0xf8000000) >> 9) .| ((r & 0x1f800000) >> 11)
    .| ((r & 0x01f80000) >> 13) .| ((r & 0x001f8000) >> 15).
Definition expand_r (r : Z) : Z :=
  ((r & 0x0001f800) << 7) .| ((r & 0x00001f80) << 5) .| ((r & 0x000001f8) << 3)
    .| ((r & 0x0000001f) << 1) .| ((r & 0x80000000) >> 31).

(** "Do S-box lookups [...] and do the P-box permutation at the same time." *)
Definition psbox_lookup (r48l r48r : Z) : Z :=
  tab psbox 0 (r48l >> 18) .| tab psbox 1 ((r48l >> 12) & 0x3f)
    .| tab psbox 2 ((r48l >> 6) & 0x3f) .| tab psbox 3 (r48l & 0x3f)
    .| tab psbox 4 (r48r >> 18) .| tab psbox 5 ((r48r >> 12) & 0x3f)
    .| tab psbox 6 ((r48r >> 6) & 0x3f) .| tab psbox 7 (r48r & 0x3f).

(** One round: the new [(l, r)]. *)
Definition des_round (saltbits : Z) (lr : Z * Z) (kk : Z * Z) : Z * Z :=
  let '(l, r) := lr in
  let '(kl, kr) := kk in
  let r48l := expand_l r in
  let r48r := expand_r r in
  let f := (r48l ^^ r48r) & saltbits in
  let r48l := r48l ^^ (f ^^ kl) in
  let r48r := r48r ^^ (f ^^ kr) in
  let f := psbox_lookup r48l r48r in
  (r, f ^^ l).

(** One execution of the body of [while (count--)]; the rounds leave [f] in [r]. *)
Definition des_pass (saltbits : Z) (ekey : expanded_key) (lr : Z * Z) : Z * Z :=
  let '(l, f) := foldl (des_round saltbits) lr (zip (ek_l ekey) (ek_r ekey)) in (f, l).

(** "Do final permutation (inverse of IP)." *)
Definition final_perm (l r : Z) : Z * Z :=
  let '(lo, ro, _) :=
    foldl (fun '(lo, ro, ibit) i =>
             let ro := ro .| (tab fp_maskr i ((l >> ibit) & 0xf) .| tab fp_maskr (i + 4) ((r >> ibit) & 0xf)) in
             let ibit := ibit - 4 in
             let lo := lo .| (tab fp_maskl i ((l >> ibit) & 0xf) .| tab fp_maskl (i + 4) ((r >> ibit) & 0xf)) in
             (lo, ro, ibit - 4))
          (0, 0, 28) (seqZ 0 4) in
  (lo, ro).

(** [l_out] and [r_out]. *)
Definition __do_des (l_in r_in count saltbits : Z) (ekey : expanded_key) : Z * Z :=
  let '(l, r) := Nat.iter (Z.to_nat count) (des_pass saltbits ekey) (initial_perm l_in r_in) in
  final_perm l r.

Definition des_cipher (i : list Z) (count saltbits : Z) (ekey : expanded_key) : list Z :=
  let rawl := be32 (i !!! 0%nat) (i !!! 1%nat) (i !!! 2%nat) (i !!! 3%nat) in
  let rawr := be32 (i !!! 4%nat) (i !!! 5%nat) (i !!! 6%nat) (i !!! 7%nat) in
  let '(l_out, r_out) := __do_des rawl rawr count saltbits ekey in
  [u8 (l_out >> 24); u8 (l_out >> 16); u8 (l_out >> 8); u8 l_out;
   u8 (r_out >> 24); u8 (r_out >> 16); u8 (r_out >> 8); u8 r_out].

(** ** The standard

    FIPS 46-3 numbers the bits of a block from 1 at the most significant end;
    [permute w tbl x] selects from the [w]-bit [x] the bits [tbl] names. *)
Definition permute (w : Z) (tbl : list Z) (x : Z) : Z :=
  foldl (fun acc p => 2 * acc + b2z (Z.testbit x (w - p))) 0 tbl.

Definition IP : list Z :=
  [58;50;42;34;26;18;10;2; 60;52;44;36;28;20;12;4; 62;54;46;38;30;22;14;6; 64;56;48;40;32;24;16;8;
   57;49;41;33;25;17;9;1; 59;51;43;35;27;19;11;3; 61;53;45;37;29;21;13;5; 63;55;47;39;31;23;15;7].
Definition IP_inv : list Z :=
  [40;8;48;16;56;24;64;32; 39;7;47;15;55;23;63;31; 38;6;46;14;54;22;62;30; 37;5;45;13;53;21;61;29;
   36;4;44;12;52;20;60;28; 35;3;43;11;51;19;59;27; 34;2;42;10;50;18;58;26; 33;1;41;9;49;17;57;25].
Definition Ebits : list Z :=
  [32;1;2;3;4;5; 4;5;6;7;8;9; 8;9;10;11;12;13; 12;13;14;15;16;17;
   16;17;18;19;20;21; 20;21;22;23;24;25; 24;25;26;27;28;29; 28;29;30;31;32;1].
Definition Pbits : list Z :=
  [16;7;20;21;29;12;28;17; 1;15;23;26;5;18;31;10; 2;8;24;14;32;27;3;9; 19;13;30;6;22;11;4;25].
Definition PC1 : list Z :=
  [57;49;41;33;25;17;9; 1;58;50;42;34;26;18; 10;2;59;51;43;35;27; 19;11;3;60;52;44;36;
   63;55;47;39;31;23;15; 7;62;54;46;38;30;22; 14;6;61;53;45;37;29; 21;13;5;28;20;12;4].
Definition PC2 : list Z :=
  [14;17;11;24;1;5; 3;28;15;6;21;10; 23;19;12;4;26;8; 16;7;27;20;13;2;
   41;52;31;37;47;55; 30;40;51;45;33;48; 44;49;39;56;34;53; 46;42;50;36;29;32].
Definition left_shifts : list Z := [1;1;2;2;2;2;2;2;1;2;2;2;2;2;2;1].

(** The selection functions S1 to S8, row by row. *)
Definition Sbox : list (list Z) :=
  [ [14;4;13;1;2;15;11;8;3;10;6;12;5;9;0;7; 0;15;7;4;14;2;13;1;10;6;12;11;9;5;3;8;
     4;1;14;8;13;6;2;11;15;12;9;7;3;10;5;0; 15;12;8;2;4;9;1;7;5;11;3;14;10;0;6;13];
    [15;1;8;14;6;11;3;4;9;7;2;13;12;0;5;10; 3;13;4;7;15;2;8;14;12;0;1;10;6;9;11;5;
     0;14;7;11;10;4;13;1;5;8;12;6;9;3;2;15; 13;8;10;1;3;15;4;2;11;6;7;12;0;5;14;9];
    [10;0;9;14;6;3;15;5;1;13;12;7;11;4;2;8; 13;7;0;9;3;4;6;10;2;8;5;14;12;11;15;1;
     13;6;4;9;8;15;3;0;11;1;2;12;5;10;14;7; 1;10;13;0;6;9;8;7;4;15;14;3;11;5;2;12];
    [7;13;14;3;0;6;9;10;1;2;8;5;11;12;4;15; 13;8;11;5;6;15;0;3;4;7;2;12;1;10;14;9;
     10;6;9;0;12;11;7;13;15;1;3;14;5;2;8;4; 3;15;0;6;10;1;13;8;9;4;5;11;12;7;2;14];
    [2;12;4;1;7;10;11;6;8;5;3;15;13;0;14;9; 14;11;2;12;4;7;13;1;5;0;15;10;3;9;8;6;
     4;2;1;11;10;13;7;8;15;9;12;5;6;3;0;14; 11;8;12;7;1;14;2;13;6;15;0;9;10;4;5;3];
    [12;1;10;15;9;2;6;8;0;13;3;4;14;7;5;11; 10;15;4;2;7;12;9;5;6;1;13;14;0;11;3;8;
     9;14;15;5;2;8;12;3;7;0;4;10;1;13;11;6; 4;3;2;12;9;5;15;10;11;14;1;7;6;0;8;13];
    [4;11;2;14;15;0;8;13;3;12;9;7;5;10;6;1; 13;0;11;7;4;9;1;10;14;3;5;12;2;15;8;6;
     1;4;11;13;12;3;7;14;10;15;6;8;0;5;9;2; 6;11;13;8;1;4;10;7;9;5;0;15;14;2;3;12];
    [13;2;8;4;6;15;11;1;10;9;3;14;5;0;12;7; 1;15;13;8;10;3;7;4;12;5;6;11;0;14;9;2;
     7;11;4;1;9;12;14;2;0;6;10;13;15;3;5;8; 2;1;14;7;4;10;8;13;15;12;9;0;3;5;6;11] ].

(** The row is the outer two bits of the six, the column the inner four. *)
Definition Sfun (i v : Z) : Z := tab Sbox i (16 * (2 * (v / 32) + v mod 2) + v / 2 mod 16).

(** The six-bit groups of a 48-bit word through the S-boxes. *)
Definition sboxes (x : Z) : Z :=
  foldl (fun acc i => acc .| (Sfun i ((x >> (42 - 6 * i)) & 0x3f) << (28 - 4 * i))) 0 (seqZ 0 8).

(** The bit selection E as [crypt] perturbs it: bit [i] of the salt exchanges
    the entries [i] and [i + 24]; salt 0 is the standard's E. *)
Definition E_salted (salt : Z) : list Z :=
  (fun j => if Z.testbit salt (j mod 24) then Ebits !!! Z.to_nat ((j + 24) mod 48)
            else Ebits !!! Z.to_nat j) <$> seqZ 0 48.

Definition cipher_f (salt R K : Z) : Z := permute 32 Pbits (sboxes (permute 32 (E_salted salt) R ^^ K)).

Definition feistel (salt : Z) (LR : Z * Z) (K : Z) : Z * Z :=
  (LR.2, LR.1 ^^ cipher_f salt LR.2 K).

Definition halves (x : Z) : Z * Z := (x >> 32, x & Z.ones 32).
Definition join (LR : Z * Z) : Z := (LR.1 << 32) .| LR.2.
Definition swap (LR : Z * Z) : Z * Z := (LR.2, LR.1).

(** Enciphering of a 64-bit block with a list of 48-bit round keys. *)
Definition DES (salt : Z) (keys : list Z) (x : Z) : Z :=
  permute 64 IP_inv (join (swap (foldl (feistel salt) (halves (permute 64 IP x)) keys))).

(** The key schedule: round keys of a 64-bit key. *)
Definition rotl28 (n x : Z) : Z := ((x << n) .| (x >> (28 - n))) & Z.ones 28.
Fixpoint schedule (shifts : list Z) (C D : Z) : list Z :=
  match shifts with
  | [] => []
  | n :: shifts =>
      let C := rotl28 n C in
      let D := rotl28 n D in
      permute 56 PC2 ((C << 28) .| D) :: schedule shifts C D
  end.
Definition KS (key : Z) : list Z :=
  let cd := permute 64 PC1 key in schedule left_shifts (cd >> 28) (cd & Z.ones 28).

(** ** Bit-linear functions *)
Class Lin (f : Z -> Z) : Prop := {
  lin_0 : f 0 = 0;
  lin_lor x y : f (x .| y) = f x .| f y
}.

Lemma top_bit n x : 0 <= n -> 0 <= x < 2 ^ (n + 1) ->
  x = (x mod 2 ^ n) .| (if Z.testbit x n then 2 ^ n else 0).
Proof.
  intros Hn Hx. rewrite Z.pow_add_r in Hx by lia. rewrite Z.testbit_odd, Z.shiftr_div_pow2 by done.
  pose proof (Z.div_mod x (2 ^ n)) as Hd.
  assert (Hp : 0 < 2 ^ n) by lia. specialize (Hd ltac:(lia)).
  pose proof (Z.mod_pos_bound x (2 ^ n) Hp) as Hm.
  assert (x / 2 ^ n = 0 \/ x / 2 ^ n = 1) as [Hq|Hq].
  { enough (0 <= x / 2 ^ n < 2) by (clear Hd; lia). split; [apply Z.div_pos; lia|apply Z.div_lt_upper_bound; lia]. }
  - rewrite Hq in *. change (Z.odd 0) with false. cbv iota. rewrite Z.lor_0_r. lia.
  - rewrite Hq in *. change (Z.odd 1) with true. cbv iota.
    replace (2 ^ n) with (1 * 2 ^ n) at 2 by lia. rewrite lor_add by lia. lia.
Qed.

(** Linear functions that agree on the powers of two are equal. *)
Lemma lin_ext f g n `{!Lin f, !Lin g} :
  forallb (fun i => f (2 ^ i) =? g (2 ^ i)) (seqZ 0 (Z.of_nat n)) = true ->
  forall x, 0 <= x < 2 ^ Z.of_nat n -> f x = g x.
Proof.
  intros H. assert (Hb : forall i, 0 <= i < Z.of_nat n -> f (2 ^ i) = g (2 ^ i)).
  { intros i Hi. apply Z.eqb_eq. revert i Hi. by apply range_forall. }
  clear H. induction n as [|n IH]; intros x Hx.
  - replace x with 0 by (simpl in Hx; lia). by rewrite !lin_0.
  - rewrite Nat2Z.inj_succ, <- Z.add_1_r in Hx, Hb. rewrite (top_bit (Z.of_nat n) x) by lia.
    rewrite !lin_lor, IH; [|intros; apply Hb; lia|apply Z.mod_pos_bound; lia]. f_equal.
    destruct (Z.testbit x (Z.of_nat n)); [apply Hb; lia|by rewrite !lin_0].
Qed.

#[export] Instance lin_id : Lin (fun x => x).
Proof. by constructor. Qed.
#[export] Instance lin_zero : Lin (fun _ => 0).
Proof. by constructor. Qed.
#[export] Instance lin_or f g : Lin f -> Lin g -> Lin (fun x => f x .| g x).
Proof. intros Hf Hg. constructor; [by rewrite !lin_0|intros x y; rewrite !lin_lor; bitwise]. Qed.
#[export] Instance lin_shl f k : Lin f -> Lin (fun x => f x << k).
Proof. intros Hf. constructor; [by rewrite lin_0, Z.shiftl_0_l|intros; by rewrite lin_lor, Z.shiftl_lor]. Qed.
#[export] Instance lin_shr f k : Lin f -> Lin (fun x => f x >> k).
Proof. intros Hf. constructor; [by rewrite lin_0, Z.shiftr_0_l|intros; by rewrite lin_lor, Z.shiftr_lor]. Qed.
#[export] Instance lin_and f m : Lin f -> Lin (fun x => f x & m).
Proof. intros Hf. constructor; [by rewrite lin_0|intros; rewrite lin_lor; bitwise]. Qed.
#[export] Instance lin_u32 f : Lin f -> Lin (fun x => u32 (f x)).
Proof.
  intros Hf. assert (Hu : forall z, u32 z = z & Z.ones 32) by (intros; by rewrite Z.land_ones).
  constructor; [by rewrite lin_0|intros; rewrite !Hu, lin_lor; bitwise].
Qed.

Lemma permute_snoc w t p x : permute w (t ++ [p]) x = 2 * permute w t x + b2z (Z.testbit x (w - p)).
Proof. unfold permute. by rewrite foldl_snoc. Qed.

Lemma double_lor a b (c d : bool) :
  2 * (a .| b) + b2z (c || d) = (2 * a + b2z c) .| (2 * b + b2z d).
Proof.
  apply Z.bits_inj'. intros i Hi. rewrite Z.lor_spec.
  destruct (decide (i = 0)) as [->|].
  - unfold b2z. rewrite !Z.bit0_odd, !Z.odd_add, !Z.odd_mul. by destruct c, d.
  - unfold b2z. change (if c then 1 else 0) with (Z.b2z c). change (if d then 1 else 0) with (Z.b2z d).
    change (if c || d then 1 else 0) with (Z.b2z (c || d)).
    replace i with (Z.succ (i - 1)) by lia.
    rewrite !Z.testbit_succ_r by lia. apply Z.lor_spec.
Qed.

#[export] Instance lin_permute f w t : Lin f -> Lin (fun x => permute w t (f x)).
Proof.
  intros Hf. constructor.
  - rewrite lin_0. induction t as [|p t IH] using rev_ind; [done|].
    by rewrite permute_snoc, IH, Z.bits_0.
  - intros x y. rewrite lin_lor. induction t as [|p t IH] using rev_ind; [done|].
    by rewrite !permute_snoc, IH, Z.lor_spec, double_lor.
Qed.

(** A table is linear in its column. *)
Definition tab_lin (t : list (list Z)) (m : Z) : bool :=
  forallb (fun r : list Z =>
     (nth 0 r 0 =? 0) &&
     forallb (fun v => forallb (fun w =>
       nth (Z.to_nat (v .| w)) r 0 =? nth (Z.to_nat v) r 0 .| nth (Z.to_nat w) r 0)
       (seqZ 0 (m + 1)))
       (seqZ 0 (m + 1))) t.

Class TabLin (t : list (list Z)) (m : Z) : Prop := {
  tab_lin_ones : exists k, 0 <= k /\ m = Z.ones k;
  tab_lin_ok : tab_lin t m = true
}.

#[export] Instance lin_tab t m i f : TabLin t m -> Lin f -> Lin (fun x => tab t i (f x & m)).
Proof.
  intros [(k & Hk & ->) Ht] Hf. unfold tab_lin in Ht. unfold tab.
  destruct (nth_in_or_default (Z.to_nat i) t []) as [Hr| ->].
  2: { constructor; [|intros x y]; by repeat destruct (Z.to_nat _). }
  rewrite forallb_forall in Ht. specialize (Ht _ Hr).
  apply andb_true_iff in Ht as [H0 Ht]. apply Z.eqb_eq in H0.
  assert (Hm : forall z, 0 <= z & Z.ones k < Z.ones k + 1).
  { intros z. rewrite Z.land_ones, Z.ones_equiv by done. pose proof (Z.mod_pos_bound z (2 ^ k)). lia. }
  constructor; [rewrite (lin_0 (f := f)), Z.land_0_l; exact H0|]. intros x y. rewrite (lin_lor (f := f)).
  pose proof (range_forall _ _ (range_forall _ _ Ht _ (Hm (f x))) _ (Hm (f y))) as Hxy.
  apply Z.eqb_eq in Hxy. rewrite <- Hxy. do 2 f_equal. bitwise.
Qed.

Ltac tab_lin :=
  constructor; [first [by exists 3|by exists 4]|by vm_compute].
#[export] Instance ip_maskl_lin : TabLin ip_maskl 0xf.
Proof. tab_lin. Qed.
#[export] Instance ip_maskr_lin : TabLin ip_maskr 0xf.
Proof. tab_lin. Qed.
#[export] Instance fp_maskl_lin : TabLin fp_maskl 0xf.
Proof. tab_lin. Qed.
#[export] Instance fp_maskr_lin : TabLin fp_maskr 0xf.
Proof. tab_lin. Qed.
#[export] Instance key_perm_maskl_lin : TabLin key_perm_maskl 0xf.
Proof. tab_lin. Qed.
#[export] Instance key_perm_maskr_lin : TabLin key_perm_maskr 0xf.
Proof. tab_lin. Qed.
#[export] Instance comp_maskl0_lin : TabLin comp_maskl0 7.
Proof. tab_lin. Qed.
#[export] Instance comp_maskr0_lin : TabLin comp_maskr0 7.
Proof. tab_lin. Qed.
#[export] Instance comp_maskl1_lin : TabLin comp_maskl1 0xf.
Proof. tab_lin. Qed.
#[export] Instance comp_maskr1_lin : TabLin comp_maskr1 0xf.
Proof. tab_lin. Qed.

(** Proves an equation between two linear functions of [x], an [n]-bit word,
    by evaluating both on the [n] powers of two. *)
Ltac lin_eq x n :=
  match goal with |- ?l = ?r =>
    let f := eval pattern x in l in
    let g := eval pattern x in r in
    match f with ?F x => match g with ?G x =>
      refine (lin_ext F G n _ x _); [by vm_compute|done]
    end end
  end.

(** ** The tables are the standard's permutations *)
Lemma initial_perm_loop l_in r_in :
  initial_perm l_in r_in =
    foldl (fun '(l, r) i =>
             let ibit := 28 - 4 * i in
             (l .| (tab ip_maskl i ((l_in >> ibit) & 0xf) .| tab ip_maskl (i + 8) ((r_in >> ibit) & 0xf)),
              r .| (tab ip_maskr i ((l_in >> ibit) & 0xf) .| tab ip_maskr (i + 8) ((r_in >> ibit) & 0xf))))
          (0, 0) (seqZ 0 8).
Proof.
  unfold initial_perm. destruct (Z.eqb_spec (l_in .| r_in) 0) as [H|]; [|done].
  apply Z.lor_eq_0_iff in H as [-> ->]. by vm_compute.
Qed.

Lemma initial_perm_spec x : 0 <= x < 2 ^ 64 ->
  initial_perm (x >> 32) (x & Z.ones 32) = halves (permute 64 IP x).
Proof.
  intros Hx. rewrite initial_perm_loop. unfold halves.
  change (seqZ 0 8) with [0; 1; 2; 3; 4; 5; 6; 7]. cbv beta iota zeta delta [foldl].
  f_equal; lin_eq x 64%nat.
Qed.

Lemma final_perm_spec x : 0 <= x < 2 ^ 64 ->
  final_perm (x >> 32) (x & Z.ones 32) = halves (permute 64 IP_inv x).
Proof.
  intros Hx. unfold final_perm, halves.
  change (seqZ 0 4) with [0; 1; 2; 3]. cbv beta iota zeta delta [foldl].
  f_equal; lin_eq x 64%nat.
Qed.

Lemma IP_IP_inv x : 0 <= x < 2 ^ 64 -> permute 64 IP (permute 64 IP_inv x) = x.
Proof. intros Hx. lin_eq x 64%nat. Qed.

Lemma expand_l_spec x : 0 <= x < 2 ^ 32 -> expand_l x = permute 32 (take 24 Ebits) x.
Proof. intros Hx. unfold expand_l. lin_eq x 32%nat. Qed.

Lemma expand_r_spec x : 0 <= x < 2 ^ 32 -> expand_r x = permute 32 (drop 24 Ebits) x.
Proof. intros Hx. unfold expand_r. lin_eq x 32%nat. Qed.

(** ** Permutations bit by bit *)
Lemma permute_range w t x : 0 <= permute w t x < 2 ^ Z.of_nat (length t).
Proof.
  induction t as [|p t IH] using rev_ind; [done|].
  rewrite permute_snoc, length_app, Nat2Z.inj_add, Z.pow_add_r by lia.
  unfold b2z. case_match; simpl length; lia.
Qed.

Lemma testbit_permute w t x b : 0 <= b < Z.of_nat (length t) ->
  Z.testbit (permute w t x) b = Z.testbit x (w - nth (length t - 1 - Z.to_nat b) t 0).
Proof.
  revert b. induction t as [|p t IH] using rev_ind; intros b Hb; [simpl in Hb; lia|].
  rewrite permute_snoc, length_app in *. simpl length in *.
  destruct (decide (b = 0)) as [->|].
  - unfold b2z. change (if Z.testbit x (w - p) then 1 else 0) with (Z.b2z (Z.testbit x (w - p))).
    rewrite Z.testbit_0_r, app_nth2 by lia. f_equal.
    replace (length t + 1 - 1 - Z.to_nat 0 - length t)%nat with 0%nat by lia. done.
  - unfold b2z. change (if Z.testbit x (w - p) then 1 else 0) with (Z.b2z (Z.testbit x (w - p))).
    replace b with (Z.succ (b - 1)) at 1 by lia.
    rewrite Z.testbit_succ_r, IH by lia. rewrite app_nth1 by lia. do 3 f_equal. lia.
Qed.

(** Two 24-bit words side by side. *)
Lemma testbit_pair n a b i : 0 <= n -> 0 <= b < 2 ^ n -> 0 <= i ->
  Z.testbit ((a << n) .| b) i = if i <? n then Z.testbit b i else Z.testbit a (i - n).
Proof.
  intros Hn Hb Hi. rewrite Z.lor_spec, Z.shiftl_spec by done. destruct (Z.ltb_spec i n).
  - by rewrite (Z.testbit_neg_r a) by lia.
  - by rewrite (testbit_above n b), orb_false_r.
Qed.

Lemma lxor_pair n a b c d : 0 <= n -> 0 <= b < 2 ^ n -> 0 <= d < 2 ^ n ->
  ((a << n) .| b) ^^ ((c << n) .| d) = ((a ^^ c) << n) .| (b ^^ d).
Proof.
  intros Hn Hb Hd. pose proof (lxor_range n b d Hn Hb Hd). apply Z.bits_inj'. intros i Hi.
  rewrite Z.lxor_spec, !testbit_pair by done. by case_match; rewrite Z.lxor_spec.
Qed.

(** ** Salt *)
Lemma land_pow2_0 x n : 0 <= n -> (x & 2 ^ n =? 0) = negb (Z.testbit x n).
Proof.
  intros Hn. destruct (Z.testbit x n) eqn:E; simpl.
  - apply Z.eqb_neq. intros H. apply (f_equal (fun z => Z.testbit z n)) in H.
    by rewrite Z.land_spec, E, Z.pow2_bits_true, Z.bits_0 in H by done.
  - apply Z.eqb_eq, Z.bits_inj'. intros i Hi. rewrite Z.land_spec, Z.bits_0.
    rewrite Z.pow2_bits_eqb by done. destruct (Z.eqb_spec n i) as [->|]; [by rewrite E|].
    by rewrite andb_false_r.
Qed.

Lemma setup_salt_loop salt n : (n <= 24)%nat ->
  exists sb,
    foldl (fun '(saltbits, saltbit, obit) (_ : Z) =>
             (if negb ((salt & saltbit) =? 0) then saltbits .| obit else saltbits,
              u32 (saltbit << 1), obit >> 1))
          (0, 1, 0x800000) (seqZ 0 (Z.of_nat n)) = (sb, 2 ^ Z.of_nat n, 2 ^ 23 >> Z.of_nat n) /\
    0 <= sb /\
    forall b, 0 <= b -> Z.testbit sb b = (b <? 24) && (23 - b <? Z.of_nat n) && Z.testbit salt (23 - b).
Proof.
  induction n as [|n IH]; intros Hn.
  - exists 0. split_and!; [done|done|]. intros b Hb. rewrite Z.bits_0.
    destruct (Z.ltb_spec b 24); [|done]. by rewrite (proj2 (Z.ltb_ge (23 - b) (Z.of_nat 0))) by lia.
  - destruct IH as (sb & Hf & H0 & Hsb); [lia|].
    assert (H24 : 2 ^ Z.of_nat n <= 2 ^ 23) by (apply Z.pow_le_mono_r; lia).
    rewrite Nat2Z.inj_succ, <- Z.add_1_r, (seqZ_app 0 (Z.of_nat n) 1), foldl_app, Hf by lia.
    change (seqZ (0 + Z.of_nat n) 1) with [0 + Z.of_nat n]. cbn [foldl].
    rewrite land_pow2_0, negb_involutive, Z.shiftr_shiftr, Z.shiftl_mul_pow2, u32_id by lia.
    rewrite (Z.pow_add_r 2 (Z.of_nat n) 1) by lia.
    assert (Ho : 2 ^ 23 >> Z.of_nat n = 2 ^ (23 - Z.of_nat n)).
    { rewrite Z.shiftr_div_pow2, <- Z.pow_sub_r by lia. done. }
    eexists. split_and!; [done| |].
    { case_match; [|done]. apply Z.lor_nonneg. split; [done|]. rewrite Ho. lia. }
    intros b Hb. destruct (Z.testbit salt (Z.of_nat n)) eqn:E.
    + rewrite Z.lor_spec, Hsb, Ho, Z.pow2_bits_eqb by lia.
      destruct (Z.eqb_spec (23 - Z.of_nat n) b) as [<-|].
      * rewrite orb_true_r. replace (23 - (23 - Z.of_nat n)) with (Z.of_nat n) by lia. rewrite E. lia.
      * rewrite orb_false_r. f_equal. lia.
    + rewrite Hsb by done. destruct (decide (23 - b = Z.of_nat n)) as [->|]; [by rewrite E, !andb_false_r|].
      f_equal. lia.
Qed.

Lemma setup_salt_spec salt : 0 <= setup_salt salt /\
  forall b, 0 <= b -> Z.testbit (setup_salt salt) b = (b <? 24) && Z.testbit salt (23 - b).
Proof.
  unfold setup_salt. destruct (setup_salt_loop salt 24) as (sb & Hf & H0 & Hsb); [lia|].
  change (Z.of_nat 24) with 24 in Hf. rewrite Hf. split; [done|]. intros b Hb.
  rewrite Hsb by done. by rewrite (proj2 (Z.ltb_lt (23 - b) (Z.of_nat 24))), andb_true_r by lia.
Qed.

Lemma E_salted_nth salt k : (k < 48)%nat ->
  nth k (E_salted salt) 0 =
    if Z.testbit salt (Z.of_nat (k mod 24)) then nth ((k + 24) mod 48) Ebits 0 else nth k Ebits 0.
Proof. intros Hk. do 48 (destruct k as [|k]; [done|]). lia. Qed.

Lemma testbit_expand_l r b : 0 <= r < 2 ^ 32 -> 0 <= b < 24 ->
  Z.testbit (expand_l r) b = Z.testbit r (32 - nth (23 - Z.to_nat b) Ebits 0).
Proof.
  intros Hr Hb. rewrite expand_l_spec, testbit_permute by done.
  change (length (take 24 Ebits)) with 24%nat. rewrite nth_firstn.
  by rewrite (proj2 (Nat.ltb_lt (24 - 1 - Z.to_nat b) 24)) by lia.
Qed.

Lemma testbit_expand_r r b : 0 <= r < 2 ^ 32 -> 0 <= b < 24 ->
  Z.testbit (expand_r r) b = Z.testbit r (32 - nth (47 - Z.to_nat b) Ebits 0).
Proof.
  intros Hr Hb. rewrite expand_r_spec, testbit_permute by done.
  change (length (drop 24 Ebits)) with 24%nat. rewrite nth_skipn. do 3 f_equal. lia.
Qed.

(** The salted E-box: exchanging the selected bits of the two halves. *)
Lemma E_salted_spec salt r : 0 <= r < 2 ^ 32 ->
  let f := (expand_l r ^^ expand_r r) & setup_salt salt in
  permute 32 (E_salted salt) r = ((expand_l r ^^ f) << 24) .| (expand_r r ^^ f) /\
  0 <= expand_l r ^^ f < 2 ^ 24 /\ 0 <= expand_r r ^^ f < 2 ^ 24.
Proof.
  intros Hr f. destruct (setup_salt_spec salt) as [H0 Hsb].
  assert (Hel : 0 <= expand_l r < 2 ^ 24) by (rewrite expand_l_spec by done; apply permute_range).
  assert (Her : 0 <= expand_r r < 2 ^ 24) by (rewrite expand_r_spec by done; apply permute_range).
  assert (Hf : 0 <= f < 2 ^ 24) by (apply land_range; [|apply lxor_range|]; lia).
  assert (H1 : 0 <= expand_l r ^^ f < 2 ^ 24) by (apply lxor_range; lia).
  assert (H2 : 0 <= expand_r r ^^ f < 2 ^ 24) by (apply lxor_range; lia).
  split_and!; try lia.
  assert (Hlen : length (E_salted salt) = 48%nat) by done.
  apply Z.bits_inj'. intros b Hb. rewrite testbit_pair by lia.
  destruct (decide (b < 48)) as [Hb48|].
  2: { rewrite (testbit_above 48), (proj2 (Z.ltb_ge b 24)) by (apply permute_range || lia).
       by rewrite (testbit_above 24) by lia. }
  rewrite testbit_permute, Hlen, E_salted_nth by lia.
  assert (Hc : exists c, 0 <= c < 24 /\ (b = c \/ b = c + 24)).
  { destruct (decide (b < 24)); [exists b|exists (b - 24)]; lia. }
  destruct Hc as (c & Hc & Hbc).
  replace (Z.of_nat ((48 - 1 - Z.to_nat b) mod 24)) with (23 - c).
  2: { rewrite Nat2Z.inj_mod. destruct Hbc as [-> | ->]; mlia. }
  assert (Hbits : forall u, Z.testbit (u ^^ f) c =
            xorb (Z.testbit u c) (xorb (Z.testbit (expand_l r) c) (Z.testbit (expand_r r) c)
                                  && Z.testbit salt (23 - c))).
  { intros u. unfold f. rewrite Z.lxor_spec, Z.land_spec, Z.lxor_spec, Hsb by lia.
    by rewrite (proj2 (Z.ltb_lt c 24)) by lia. }
  destruct Hbc as [-> | ->].
  - rewrite (proj2 (Z.ltb_lt c 24)) by lia.
    rewrite Hbits, testbit_expand_l, testbit_expand_r by done.
    replace ((48 - 1 - Z.to_nat c + 24) mod 48)%nat with (23 - Z.to_nat c)%nat.
    2: { symmetry. rewrite <- (Nat.mod_small (23 - Z.to_nat c) 48) by lia.
         replace (48 - 1 - Z.to_nat c + 24)%nat with (23 - Z.to_nat c + 1 * 48)%nat by lia.
         by rewrite Nat.Div0.mod_add. }
    change (48 - 1)%nat with 47%nat.
    destruct (Z.testbit salt (23 - c)); rewrite ?andb_true_r, ?andb_false_r, ?xorb_false_r; [|done].
    by rewrite xorb_comm, xorb_assoc, xorb_nilpotent, xorb_false_r.
  - rewrite (proj2 (Z.ltb_ge (c + 24) 24)) by lia. replace (c + 24 - 24) with c by lia.
    rewrite Hbits, testbit_expand_l, testbit_expand_r by done.
    replace (48 - 1 - Z.to_nat (c + 24))%nat with (23 - Z.to_nat c)%nat by lia.
    rewrite (Nat.mod_small (23 - Z.to_nat c + 24) 48) by lia.
    replace (23 - Z.to_nat c + 24)%nat with (47 - Z.to_nat c)%nat by lia.
    destruct (Z.testbit salt (23 - c)); rewrite ?andb_true_r, ?andb_false_r, ?xorb_false_r; [|done].
    by rewrite <- xorb_assoc, xorb_nilpotent, xorb_false_l.
Qed.

(** ** S-boxes and the round *)
Lemma psbox_entry i v : 0 <= i < 8 -> 0 <= v < 64 ->
  tab psbox i v = permute 32 Pbits (Sfun i v << (28 - 4 * i)).
Proof.
  intros Hi Hv. apply Z.eqb_eq. revert v Hv. apply range_forall. revert i Hi.
  apply (range_forall 8 (fun i => forallb (fun v => tab psbox i v =? _) _)). by vm_compute.
Qed.

(** Each six-bit group of a pair is a group of one half. *)
Lemma pair_group a b : 0 <= a < 2 ^ 24 -> 0 <= b < 2 ^ 24 ->
  let x := (a << 24) .| b in
  (x >> 42) & 0x3f = a >> 18 /\ (x >> 36) & 0x3f = (a >> 12) & 0x3f /\
  (x >> 30) & 0x3f = (a >> 6) & 0x3f /\ (x >> 24) & 0x3f = a & 0x3f /\
  (x >> 18) & 0x3f = b >> 18 /\ (x >> 12) & 0x3f = (b >> 12) & 0x3f /\
  (x >> 6) & 0x3f = (b >> 6) & 0x3f /\ (x >> 0) & 0x3f = b & 0x3f.
Proof.
  intros Ha Hb x. subst x. rewrite Z.lor_comm, Z.shiftl_mul_pow2, lor_add by lia.
  change 0x3f with (Z.ones 6). rewrite !Z.land_ones, !Z.shiftr_div_pow2 by lia.
  change (2 ^ 6) with 64. change (2 ^ 0) with 1. split_and!; mlia.
Qed.

Lemma psbox_lookup_spec a b : 0 <= a < 2 ^ 24 -> 0 <= b < 2 ^ 24 ->
  psbox_lookup a b = permute 32 Pbits (sboxes ((a << 24) .| b)).
Proof.
  intros Ha Hb. destruct (pair_group a b Ha Hb) as (H0 & H1 & H2 & H3 & H4 & H5 & H6 & H7).
  assert (Hm : forall z, 0 <= z & 0x3f < 64).
  { intros z. change 0x3f with (Z.ones 6). rewrite Z.land_ones by lia. apply Z.mod_pos_bound. lia. }
  unfold psbox_lookup. rewrite <- H0, <- H1, <- H2, <- H3, <- H4, <- H5, <- H6, <- H7.
  rewrite !psbox_entry by (apply Hm || lia). clear H0 H1 H2 H3 H4 H5 H6 H7.
  unfold sboxes. change (seqZ 0 8) with [0; 1; 2; 3; 4; 5; 6; 7]. cbn [foldl].
  rewrite !(lin_lor (f := permute 32 Pbits)), (lin_0 (f := permute 32 Pbits)), Z.lor_0_l. done.
Qed.

Lemma des_round_spec salt l r kl kr :
  0 <= r < 2 ^ 32 -> 0 <= kl < 2 ^ 24 -> 0 <= kr < 2 ^ 24 ->
  des_round (setup_salt salt) (l, r) (kl, kr) = feistel salt (l, r) ((kl << 24) .| kr).
Proof.
  intros Hr Hkl Hkr. unfold des_round, feistel, cipher_f. cbn [fst snd]. f_equal.
  destruct (E_salted_spec salt r Hr) as (HE & H1 & H2). cbv zeta in HE, H1, H2. rewrite HE.
  rewrite <- !Z.lxor_assoc, lxor_pair, psbox_lookup_spec, Z.lxor_comm by (done || by apply lxor_range).
  done.
Qed.

(** Both halves of a block stay words of 32 bits. *)
Definition block_ok (lr : Z * Z) : Prop := 0 <= lr.1 < 2 ^ 32 /\ 0 <= lr.2 < 2 ^ 32.

Lemma feistel_ok salt lr k : block_ok lr -> block_ok (feistel salt lr k).
Proof.
  intros [Hl Hr]. split; [done|]. apply lxor_range; [lia|done|]. apply permute_range.
Qed.

Lemma feistels_ok salt keys lr : block_ok lr -> block_ok (foldl (feistel salt) lr keys).
Proof. revert lr. induction keys as [|k keys IH]; intros lr H; [done|]. by apply IH, feistel_ok. Qed.

Lemma halves_ok x : 0 <= x < 2 ^ 64 -> block_ok (halves x).
Proof.
  intros Hx. unfold block_ok, halves. cbn [fst snd].
  rewrite Z.shiftr_div_pow2, Z.land_ones by lia. split; mlia.
Qed.

Lemma join_halves x : join (halves x) = x.
Proof.
  unfold join, halves. cbn [fst snd].
  rewrite Z.shiftl_mul_pow2, Z.land_ones, Z.shiftr_div_pow2, Z.lor_comm, lor_add by (mlia || lia).
  rewrite Z.add_comm, Z.mul_comm. symmetry. by apply Z.div_mod.
Qed.

Lemma join_range lr : block_ok lr -> 0 <= join lr < 2 ^ 64.
Proof.
  destruct lr as [l r]. intros [Hl Hr]. unfold join. cbn [fst snd] in *.
  rewrite Z.lor_comm, Z.shiftl_mul_pow2, lor_add by lia. lia.
Qed.

Lemma halves_join lr : block_ok lr -> halves (join lr) = lr.
Proof.
  destruct lr as [l r]. intros [Hl Hr]. unfold join, halves. cbn [fst snd] in *.
  rewrite Z.lor_comm, Z.shiftl_mul_pow2, lor_add, Z.shiftr_div_pow2, Z.land_ones by lia.
  f_equal; mlia.
Qed.

(** ** [__do_des] *)
(** The round keys of an expanded key; well-formed when there are sixteen
    pairs of 24-bit words. *)
Definition round_keys (ekey : expanded_key) : list Z :=
  zip_with (fun kl kr => (kl << 24) .| kr) (ek_l ekey) (ek_r ekey).
Definition ekey_ok (ekey : expanded_key) : Prop :=
  length (ek_l ekey) = 16%nat /\ length (ek_r ekey) = 16%nat /\
  Forall (fun k => 0 <= k < 2 ^ 24) (ek_l ekey) /\ Forall (fun k => 0 <= k < 2 ^ 24) (ek_r ekey).

Lemma des_pass_spec salt ekey lr : ekey_ok ekey -> block_ok lr ->
  des_pass (setup_salt salt) ekey lr = swap (foldl (feistel salt) lr (round_keys ekey)).
Proof.
  intros (_ & _ & Hl & Hr) Hlr. unfold des_pass, round_keys.
  destruct ekey as [kls krs]. cbn [ek_l ek_r] in *.
  enough (Hf : foldl (des_round (setup_salt salt)) lr (zip kls krs) =
               foldl (feistel salt) lr (zip_with (fun kl kr => (kl << 24) .| kr) kls krs)).
  { rewrite Hf. by destruct (foldl (feistel salt) lr _). }
  revert lr krs Hr Hlr. induction Hl as [|kl kls Hkl _ IH]; intros lr krs Hr Hlr; [done|].
  destruct Hr as [|kr krs Hkr Hr]; [done|]. cbn [zip zip_with foldl].
  destruct lr as [l r]. rewrite des_round_spec by (done || apply Hlr).
  apply IH; [done|]. by apply feistel_ok.
Qed.

Lemma swap_ok lr : block_ok lr -> block_ok (swap lr).
Proof. intros []. by split. Qed.

Lemma DES_range salt keys x : 0 <= DES salt keys x < 2 ^ 64.
Proof. apply permute_range. Qed.

Lemma IP_inv_IP x : 0 <= x < 2 ^ 64 -> permute 64 IP_inv (permute 64 IP x) = x.
Proof. intros Hx. lin_eq x 64%nat. Qed.

Lemma DES_iter_range n salt keys x : 0 <= x < 2 ^ 64 -> 0 <= Nat.iter n (DES salt keys) x < 2 ^ 64.
Proof. intros Hx. destruct n; [done|apply DES_range]. Qed.

(** The permutations between two passes cancel. *)
Lemma des_pass_iter salt ekey n x : ekey_ok ekey -> 0 <= x < 2 ^ 64 ->
  Nat.iter n (des_pass (setup_salt salt) ekey) (halves (permute 64 IP x)) =
  halves (permute 64 IP (Nat.iter n (DES salt (round_keys ekey)) x)).
Proof.
  intros He Hx. induction n as [|n IH]; [done|].
  assert (Hb : block_ok (halves (permute 64 IP (Nat.iter n (DES salt (round_keys ekey)) x)))).
  { apply halves_ok, permute_range. }
  rewrite !Nat.iter_succ, IH, des_pass_spec by done.
  pose proof (swap_ok _ (feistels_ok salt (round_keys ekey) _ Hb)) as Hs.
  unfold DES at 2.
  rewrite IP_IP_inv, halves_join by (done || by apply join_range). done.
Qed.

Lemma do_des_spec l r count salt ekey :
  0 <= l < 2 ^ 32 -> 0 <= r < 2 ^ 32 -> ekey_ok ekey ->
  __do_des l r count (setup_salt salt) ekey =
    halves (Nat.iter (Z.to_nat count) (DES salt (round_keys ekey)) (join (l, r))).
Proof.
  intros Hl Hr He. assert (Hb : block_ok (l, r)) by done.
  pose proof (join_range _ Hb) as Hx. pose proof (halves_join _ Hb) as Hh.
  revert Hx Hh. generalize (join (l, r)) as x. intros x Hx Hh.
  unfold halves in Hh at 1. injection Hh as <- <-.
  unfold __do_des. rewrite initial_perm_spec, des_pass_iter by done.
  set (y := permute 64 IP _). unfold halves at 1. rewrite final_perm_spec by apply permute_range.
  unfold y. rewrite IP_inv_IP; [done|]. by apply DES_iter_range.
Qed.

(** ** The key schedule *)
Lemma be32_range a b c d : byte a -> byte b -> byte c -> byte d ->
  be32 a b c d = ((a * 256 + b) * 256 + c) * 256 + d.
Proof.
  unfold byte. intros Ha Hb Hc Hd. unfold be32. rewrite !Z.shiftl_mul_pow2 by lia.
  rewrite (lor_add 8), (lor_add 16), (lor_add 24) by lia. lia.
Qed.

(** Selection PC-1 gives the two 28-bit halves. *)
Lemma key_perm_spec x : 0 <= x < 2 ^ 64 ->
  key_perm (x >> 32) (x & Z.ones 32) = (permute 64 PC1 x >> 28, permute 64 PC1 x & Z.ones 28).
Proof.
  intros Hx. unfold key_perm. change (seqZ 0 4) with [0; 1; 2; 3].
  cbv beta iota zeta delta [foldl]. f_equal; lin_eq x 64%nat.
Qed.

(** Rotations by up to 28 places accumulate. *)
Lemma rotl28_add a b x : 0 <= a < 3 -> 0 <= b < 28 -> a + b <= 28 -> 0 <= x < 2 ^ 28 ->
  rotl28 a (rotl28 b x) = rotl28 (a + b) x.
Proof.
  intros Ha Hb Hab Hx. unfold rotl28.
  refine (lin_ext (fun x => (((((x << b) .| (x >> (28 - b))) & Z.ones 28) << a)
                       .| ((((x << b) .| (x >> (28 - b))) & Z.ones 28) >> (28 - a))) & Z.ones 28)
                  (fun x => ((x << (a + b)) .| (x >> (28 - (a + b)))) & Z.ones 28) 28%nat _ x _); [|done].
  match goal with |- ?g = true => enough (H : implb (a + b <=? 28) g = true) end.
  { rewrite (proj2 (Z.leb_le (a + b) 28)) in H by done. exact H. }
  clear Hab. revert b Hb. apply range_forall. revert a Ha. apply range_forall. by vm_compute.
Qed.

(** The places by which the halves have been rotated after each round. *)
Fixpoint totals (s : Z) (shifts : list Z) : list Z :=
  match shifts with [] => [] | n :: shifts => (s + n) :: totals (s + n) shifts end.

Lemma schedule_totals shifts s C D : 0 <= C < 2 ^ 28 -> 0 <= D < 2 ^ 28 -> 0 <= s ->
  Forall (fun n => 1 <= n < 3) shifts -> Forall (fun t => t <= 28) (totals s shifts) ->
  schedule shifts (rotl28 s C) (rotl28 s D) =
    map (fun n => permute 56 PC2 ((rotl28 n C << 28) .| rotl28 n D)) (totals s shifts).
Proof.
  intros HC HD Hs H. revert s Hs. induction H as [|n shifts Hn _ IH]; intros s Hs Ht; [done|].
  cbn [schedule totals map] in *. apply Forall_cons_1 in Ht as [Hsn Ht].
  rewrite !rotl28_add, (Z.add_comm n s) by (done || lia). f_equal. apply IH; [lia|done].
Qed.

Lemma schedule_left_shifts C D : 0 <= C < 2 ^ 28 -> 0 <= D < 2 ^ 28 ->
  schedule left_shifts C D =
    map (fun n => permute 56 PC2 ((rotl28 n C << 28) .| rotl28 n D)) (totals 0 left_shifts).
Proof.
  intros HC HD. rewrite <- (schedule_totals left_shifts 0) by (done || by apply (bool_decide_unpack _)).
  assert (H0 : forall X, 0 <= X < 2 ^ 28 -> rotl28 0 X = X).
  { intros X HX. unfold rotl28. rewrite Z.shiftl_0_r, Z.sub_0_r, Z.shiftr_div_pow2, Z.div_small by lia.
    rewrite Z.lor_0_r, Z.land_ones by lia. by apply Z.mod_small. }
  by rewrite !H0.
Qed.

Lemma forallb_elem (P : Z -> bool) l : forallb P l = true -> forall x, x ∈ l -> P x = true.
Proof. intros H x Hx. rewrite forallb_forall in H. by apply H, list_elem_of_In. Qed.

(** Selection PC-2 after a rotation by [n] places. *)
Lemma key_comp_spec n x : n ∈ totals 0 left_shifts -> 0 <= x < 2 ^ 56 ->
  let C := x >> 28 in let D := x & Z.ones 28 in
  let k := permute 56 PC2 ((rotl28 n C << 28) .| rotl28 n D) in
  key_comp (key_rot C n) (key_rot D n) = (k >> 24, k & Z.ones 24).
Proof.
  intros Hn Hx C D k. subst C D k. unfold key_comp, key_rot, rotl28.
  change (seqZ 0 4) with [0; 1; 2; 3]. cbv beta iota zeta delta [foldl].
  f_equal; match goal with |- ?l = ?r =>
    let f := eval pattern n, x in l in
    let g := eval pattern n, x in r in
    match f with ?F n x => match g with ?G n x =>
      refine (lin_ext (F n) (G n) 56%nat _ x _); [|done]
    end end
  end; cbv beta; revert n Hn; apply forallb_elem; by vm_compute.
Qed.

Lemma key_rounds_loop C D rs l r s :
  exists s',
  foldl (key_round C D) (l, r, s) rs =
  (l ++ map (fun n => (key_comp (key_rot C n) (key_rot D n)).1)
            (totals s (map (fun i => key_shifts !!! Z.to_nat i) rs)),
   r ++ map (fun n => (key_comp (key_rot C n) (key_rot D n)).2)
            (totals s (map (fun i => key_shifts !!! Z.to_nat i) rs)), s').
Proof.
  revert l r s. induction rs as [|i rs IH]; intros l r s; cbn [foldl map totals].
  - exists s. by rewrite !app_nil_r.
  - unfold key_round at 2. set (s1 := s + key_shifts !!! Z.to_nat i).
    destruct (key_comp (key_rot C s1) (key_rot D s1)) as [kl kr].
    destruct (IH (l ++ [kl]) (r ++ [kr]) s1) as [s' ->]. exists s'.
    by rewrite <- !app_assoc.
Qed.

Lemma key_rounds_spec x : 0 <= x < 2 ^ 56 ->
  key_rounds (x >> 28) (x & Z.ones 28) =
    let ks := schedule left_shifts (x >> 28) (x & Z.ones 28) in
    EKey (map (fun k => k >> 24) ks) (map (fun k => k & Z.ones 24) ks).
Proof.
  intros Hx. cbv zeta. rewrite schedule_left_shifts, !map_map.
  2: { rewrite Z.shiftr_div_pow2 by lia. mlia. }
  2: { rewrite Z.land_ones by lia. mlia. }
  unfold key_rounds.
  destruct (key_rounds_loop (x >> 28) (x & Z.ones 28) (seqZ 0 16) [] [] 0) as [s' ->].
  change (map (fun i => key_shifts !!! Z.to_nat i) (seqZ 0 16)) with left_shifts.
  cbn [app]. f_equal; apply map_ext_in; intros n Hn; apply list_elem_of_In in Hn;
    by rewrite (key_comp_spec n x Hn Hx).
Qed.

Lemma KS_range x : Forall (fun k => 0 <= k < 2 ^ 48) (KS x).
Proof.
  unfold KS. generalize left_shifts (permute 64 PC1 x >> 28) (permute 64 PC1 x & Z.ones 28).
  intros shifts. induction shifts as [|n shifts IH]; intros C D; constructor; [|apply IH].
  apply permute_range.
Qed.

Lemma length_KS x : length (KS x) = 16%nat.
Proof. done. Qed.

(** What [__des_setkey] computes, as a function of the key as a number. *)
Lemma setkey_spec key : bytes key -> length key = 8%nat ->
  ekey_ok (__des_setkey key) /\ round_keys (__des_setkey key) = KS (be_combine key).
Proof.
  intros Hk Hlen. destruct key as [|b0 [|b1 [|b2 [|b3 [|b4 [|b5 [|b6 [|b7 [|]]]]]]]]]; try done.
  rewrite !Forall_cons_iff in Hk. destruct Hk as (? & ? & ? & ? & ? & ? & ? & ? & _).
  set (x := be_combine _).
  assert (Hx : __des_setkey [b0; b1; b2; b3; b4; b5; b6; b7] =
               (let '(k0, k1) := key_perm (x >> 32) (x & Z.ones 32) in key_rounds k0 k1) /\
               0 <= x < 2 ^ 64).
  { unfold __des_setkey. cbn [lookup_total list_lookup_total].
    rewrite !be32_range by done. unfold x, be_combine, byte in *. cbn [foldl].
    rewrite Z.shiftr_div_pow2, Z.land_ones by lia.
    split; [|lia].
    match goal with |- context [(?u / 2 ^ 32)%Z] => set (y := u) end.
    match goal with |- context [key_perm ?u ?v] => set (hi := u); set (lo := v) end.
    assert (Hy : y = hi * 2 ^ 32 + lo) by (subst y hi lo; lia).
    assert (0 <= lo < 2 ^ 32) by (subst lo; lia). clearbody y hi lo. subst y.
    by replace ((hi * 2 ^ 32 + lo) / 2 ^ 32) with hi by mlia;
      replace ((hi * 2 ^ 32 + lo) mod 2 ^ 32) with lo by mlia. }
  destruct Hx as [-> Hx]. rewrite key_perm_spec by done. cbv iota beta.
  rewrite key_rounds_spec by apply permute_range. cbv zeta. fold (KS x).
  pose proof (KS_range x) as HK. split.
  - split_and!; cbn [ek_l ek_r]; try done; apply Forall_map; (eapply Forall_impl; [|exact HK]);
      intros k Hk; cbv beta in Hk |- *; rewrite ?Z.land_ones, ?Z.shiftr_div_pow2 by lia; mlia.
  - unfold round_keys. cbn [ek_l ek_r]. clear -HK. induction HK as [|k ks Hk _ IH]; [done|].
    cbn [map zip_with]. f_equal; [|done].
    rewrite Z.shiftl_mul_pow2, Z.land_ones, Z.shiftr_div_pow2, Z.lor_comm, lor_add by (mlia || lia).
    mlia.
Qed.

(** ** [des_cipher] *)
Lemma be_combine_8 b0 b1 b2 b3 b4 b5 b6 b7 :
  bytes [b0; b1; b2; b3; b4; b5; b6; b7] ->
  be_combine [b0; b1; b2; b3; b4; b5; b6; b7] = join (be32 b0 b1 b2 b3, be32 b4 b5 b6 b7) /\
  block_ok (be32 b0 b1 b2 b3, be32 b4 b5 b6 b7).
Proof.
  rewrite !Forall_cons_iff. intros (? & ? & ? & ? & ? & ? & ? & ? & _).
  rewrite !be32_range by done. unfold join, block_ok, byte in *. cbn [fst snd].
  rewrite Z.lor_comm, Z.shiftl_mul_pow2, lor_add by lia. unfold be_combine. cbn [foldl]. lia.
Qed.

(** The eight bytes of a block, most significant first. *)
Definition be_bytes (x : Z) : list Z := map (fun i => u8 (x >> (56 - 8 * i))) (seqZ 0 8).

Lemma be_combine_bytes x : 0 <= x < 2 ^ 64 -> be_combine (be_bytes x) = x.
Proof.
  intros Hx. unfold be_bytes, be_combine. change (seqZ 0 8) with [0; 1; 2; 3; 4; 5; 6; 7].
  cbn [map foldl]. unfold u8. rewrite !Z.shiftr_div_pow2 by lia. change (2 ^ 8) with 256.
  change (2 ^ (56 - 8 * 0)) with (2 ^ 56). change (2 ^ (56 - 8 * 1)) with (2 ^ 48).
  change (2 ^ (56 - 8 * 2)) with (2 ^ 40). change (2 ^ (56 - 8 * 3)) with (2 ^ 32).
  change (2 ^ (56 - 8 * 4)) with (2 ^ 24). change (2 ^ (56 - 8 * 5)) with (2 ^ 16).
  change (2 ^ (56 - 8 * 6)) with (2 ^ 8). change (2 ^ (56 - 8 * 7)) with (2 ^ 0). mlia.
Qed.

Lemma be_bytes_ok x : bytes (be_bytes x) /\ length (be_bytes x) = 8%nat.
Proof. split; [|done]. unfold be_bytes. apply Forall_map, Forall_forall. intros. apply u8_range. Qed.

Lemma des_cipher_spec i count salt ekey :
  bytes i -> length i = 8%nat -> ekey_ok ekey ->
  des_cipher i count (setup_salt salt) ekey =
    be_bytes (Nat.iter (Z.to_nat count) (DES salt (round_keys ekey)) (be_combine i)).
Proof.
  intros Hi Hlen He. destruct i as [|b0 [|b1 [|b2 [|b3 [|b4 [|b5 [|b6 [|b7 [|]]]]]]]]]; try done.
  destruct (be_combine_8 _ _ _ _ _ _ _ _ Hi) as [-> Hb].
  unfold des_cipher. cbn [lookup_total list_lookup_total].
  rewrite do_des_spec by (done || apply Hb).
  pose proof (DES_iter_range (Z.to_nat count) salt (round_keys ekey) _ (join_range _ Hb)) as Hx.
  revert Hx. generalize (Nat.iter (Z.to_nat count) (DES salt (round_keys ekey))
    (join (be32 b0 b1 b2 b3, be32 b4 b5 b6 b7))). intros x Hx.
  unfold halves, be_bytes. change (seqZ 0 8) with [0; 1; 2; 3; 4; 5; 6; 7]. cbn [map].
  rewrite !Z.shiftr_shiftr by lia.
  assert (Hlo : forall k, 0 <= k <= 24 -> u8 ((x & Z.ones 32) >> k) = u8 (x >> k)).
  { intros k Hk. unfold u8. rewrite <- !(Z.land_ones _ 8) by lia.
    apply Z.bits_inj'. intros j Hj. rewrite !Z.land_spec, !Z.shiftr_spec, Z.land_spec by lia.
    destruct (decide (j < 8)).
    - by rewrite (Z.ones_spec_low 32), andb_true_r by lia.
    - by rewrite (Z.ones_spec_high 8), !andb_false_r by lia. }
  pose proof (Hlo 0 ltac:(lia)) as H0. rewrite !Z.shiftr_0_r in H0.
  rewrite H0, !Hlo by lia. by rewrite Z.shiftr_0_r.
Qed.

(** ** Deciphering *)
Lemma feistel_undo salt lr k : feistel salt (swap (feistel salt lr k)) k = swap lr.
Proof.
  destruct lr as [l r]. unfold feistel, swap. cbn [fst snd]. f_equal.
  by rewrite Z.lxor_assoc, Z.lxor_nilpotent, Z.lxor_0_r.
Qed.

Lemma feistels_undo salt keys lr :
  foldl (feistel salt) (swap (foldl (feistel salt) lr keys)) (rev keys) = swap lr.
Proof.
  revert lr. induction keys as [|k keys IH]; intros lr; [done|].
  cbn [foldl rev]. by rewrite foldl_app, IH; cbn [foldl]; rewrite feistel_undo.
Qed.

Lemma DES_inverse salt keys x : 0 <= x < 2 ^ 64 -> DES salt (rev keys) (DES salt keys x) = x.
Proof.
  intros Hx. unfold DES at 2. set (y := swap _).
  assert (Hy : block_ok y) by (apply swap_ok, feistels_ok, halves_ok, permute_range).
  unfold DES. rewrite IP_IP_inv, halves_join by (done || by apply join_range).
  unfold y. rewrite feistels_undo. unfold swap. cbn [fst snd].
  rewrite <- surjective_pairing, join_halves. by apply IP_inv_IP.
Qed.

(** ** Properties *)

(** [__des_setkey] computes the key schedule of FIPS 46-3.  For every key of
    eight bytes it gives sixteen round keys, as pairs of 24-bit words, and they
    are the standard's: PC-1 (which drops the parity bits), the left
    rotations of both halves, and PC-2. *)
Theorem des_setkey_fips key : bytes key -> length key = 8%nat ->
  ekey_ok (__des_setkey key) /\ round_keys (__des_setkey key) = KS (be_combine key).
Proof. apply setkey_spec. Qed.

Lemma des_setkey_fips_witness :
  round_keys (__des_setkey [0x13; 0x34; 0x57; 0x79; 0x9b; 0xbc; 0xdf; 0xf1]) =
    KS 0x1334_5779_9bbc_dff1.
Proof. apply des_setkey_fips; [by apply (bool_decide_unpack _)|done]. Defined.

(** C23: [__do_des] is DES.  With the round keys of [__des_setkey] and no salt one
    pass enciphers the block as FIPS 46-3 defines; in general [count] passes
    are the [count]-fold iteration of the cipher whose E-box has the entries
    selected by the salt exchanged, although the code applies IP and its
    inverse only once around all the passes.  [des_cipher] does the same on
    blocks of eight bytes. *)
Theorem do_des_fips l r count salt key :
  0 <= l < 2 ^ 32 -> 0 <= r < 2 ^ 32 -> bytes key -> length key = 8%nat ->
  __do_des l r count (setup_salt salt) (__des_setkey key) =
    halves (Nat.iter (Z.to_nat count) (DES salt (KS (be_combine key))) (join (l, r))) /\
  (forall i, bytes i -> length i = 8%nat ->
     des_cipher i count (setup_salt salt) (__des_setkey key) =
       be_bytes (Nat.iter (Z.to_nat count) (DES salt (KS (be_combine key))) (be_combine i))).
Proof.
  intros Hl Hr Hk Hlen. destruct (setkey_spec key Hk Hlen) as [He <-]. split.
  - by apply do_des_spec.
  - intros i Hi Hi8. by apply des_cipher_spec.
Qed.

Lemma do_des_fips_witness :
  __do_des 0x0123_4567 0x89ab_cdef 1 0 (__des_setkey [0x13; 0x34; 0x57; 0x79; 0x9b; 0xbc; 0xdf; 0xf1])
    = (0x85e8_1354, 0x0f0a_b405).
Proof.
  change 0 with (setup_salt 0) at 1.
  refine (eq_trans (proj1 (do_des_fips 0x0123_4567 0x89ab_cdef 1 0 _ _ _ _ _)) _);
    [lia|lia|by apply (bool_decide_unpack _)|done|by vm_compute].
Defined.
