(* ===== verification/CryptDes.v ===== *)
(** The users of DES: [setkey] and [encrypt] of src/musl-1.1.19/src/crypt/encrypt.c
    and the two DES-based password hashes of crypt_des.c.

    Strings are lists of bytes (see CStr.v).  Results are
    [option (option _)]: the outer [None] is such an out-of-bounds read (the
    theorems show that there is none), the inner [None] a null pointer. *)
From Stdlib Require Import Strings.String.
From S2P Require Import Prelude CStr DesTables Des.
#[local] Open Scope c_scope.

(** ** encrypt.c: blocks as 64 characters, the low bit of each a bit *)

(** The inner loop: [n] characters, the first one giving the highest bit. *)
Fixpoint collect (n : nat) (acc : Z) (p : list Z) : option (Z * list Z) :=
  match n with
  | O => Some (acc, p)
  | S j =>
      match p with
      | [] => None
      | c :: p => collect j (acc .| (u32 (c & 1) << Z.of_nat j)) p
      end
  end.

Fixpoint setkey_loop (i : nat) (key : list Z) : option (list Z) :=
  match i with
  | O => Some []
  | S i =>
      '(b, key) ← collect 8 0 key;
      bkey ← setkey_loop i key;
      Some (b :: bkey)
  end.

(** The new contents of [__encrypt_key]. *)
Definition setkey (key : list Z) : option expanded_key :=
  bkey ← setkey_loop 8 key; Some (__des_setkey bkey).

Definition spread (b : Z) : list Z := map (fun j => (b >> (31 - j)) & 1) (seqZ 0 32).

(** The new contents of the block. *)
Definition encrypt (__encrypt_key : expanded_key) (block : list Z) (edflag : Z) : option (list Z) :=
  '(b0, p) ← collect 32 0 block;
  '(b1, p) ← collect 32 0 p;
  let key :=
    if negb (edflag =? 0)
    then EKey (rev (take 16 (ek_l __encrypt_key))) (rev (take 16 (ek_r __encrypt_key)))
    else __encrypt_key in
  let '(b0, b1) := __do_des b0 b1 1 0 key in
  Some (spread b0 ++ spread b1 ++ p).

(** ** crypt_des.c: the password hashes *)
Definition ascii64 : list Z :=
  str "./0123456789ABCDEFGHIJKLMNOPQRSTUVWXYZabcdefghijklmnopqrstuvwxyz".

Definition ascii_to_bin (ch : Z) : Z :=
  let sch := if ch <? 0x80 then ch else - (0x100 - ch) in
  let retval := sch - 46 in
  let retval :=
    if sch >=? 65 then
      let retval := sch - (65 - 12) in
      if sch >=? 97 then sch - (97 - 38) else retval
    else retval in
  retval & 0x3f.

Definition ascii_is_unsafe (ch : Z) : bool := (ch =? 0) || (ch =? 10) || (ch =? 58).

(** "Copy the key, shifting each character left by one bit and padding with
    zeroes": the buffer of [n] bytes and the rest of the key. *)
Fixpoint copy_key (n : nat) (key : list Z) : list Z * list Z :=
  match n with
  | O => ([], key)
  | S n => let '(q, rest) := copy_key n (tl key) in (u8 (hd 0 key << 1) :: q, rest)
  end.

(** "And XOR with the next 8 characters of the key." *)
Fixpoint xor_key (q key : list Z) : list Z * list Z :=
  match q, key with
  | b :: q, c :: key => let '(q, rest) := xor_key q key in (u8 (b ^^ (c << 1)) :: q, rest)
  | _, _ => (q, key)
  end.

(** [while ( *key )]: the expanded key at its end. *)
Fixpoint fold_key (fuel : nat) (key keybuf : list Z) (ekey : expanded_key) : option expanded_key :=
  match key with
  | [] => Some ekey
  | _ =>
      match fuel with
      | O => None
      | S fuel =>
          let keybuf := des_cipher keybuf 1 0 ekey in
          let '(keybuf, key) := xor_key keybuf key in
          fold_key fuel key keybuf (__des_setkey keybuf)
      end
  end.

(** The loops over [setting[1..4]] and [setting[5..8]]; the inner [None] is the
    return of [NULL] at a character outside the alphabet. *)
Fixpoint decode (n : nat) (setting : list Z) (i : nat) (shift acc : Z) : option (option Z) :=
  match n with
  | O => Some (Some acc)
  | S n =>
      c ← at_ setting i;
      let value := ascii_to_bin c in
      a ← ascii64 !! Z.to_nat value;
      if negb (a =? c) then Some None
      else decode n setting (i + 1) (shift + 6) (acc .| (value << shift))
  end.

Definition a64 (v : Z) : Z := ascii64 !!! Z.to_nat v.

(** "Now encode the result..." *)
Definition encode (r0 r1 : Z) : list Z :=
  let l := r0 >> 8 in
  [a64 ((l >> 18) & 0x3f); a64 ((l >> 12) & 0x3f); a64 ((l >> 6) & 0x3f); a64 (l & 0x3f)] ++
  let l := u32 (r0 << 16) .| ((r1 >> 16) & 0xffff) in
  [a64 ((l >> 18) & 0x3f); a64 ((l >> 12) & 0x3f); a64 ((l >> 6) & 0x3f); a64 (l & 0x3f)] ++
  let l := u32 (r1 << 2) in
  [a64 ((l >> 12) & 0x3f); a64 ((l >> 6) & 0x3f); a64 (l & 0x3f)].

Definition hash_with (count salt : Z) (ekey : expanded_key) : list Z :=
  let '(r0, r1) := __do_des 0 0 count (setup_salt salt) ekey in encode r0 r1.

Definition _crypt_extended_r_uut (key setting : list Z) : option (option (list Z)) :=
  let '(keybuf, key) := copy_key 8 key in
  let ekey := __des_setkey keybuf in
  s0 ← at_ setting 0;
  if s0 =? 95 then
    count ← decode 4 setting 1 0 0;
    match count with
    | None => Some None
    | Some count =>
        if count =? 0 then Some None else
        salt ← decode 4 setting 5 0 0;
        match salt with
        | None => Some None
        | Some salt =>
            ekey ← fold_key (length key) key keybuf ekey;
            Some (Some (take 9 setting ++ hash_with count salt ekey))
        end
    end
  else if ascii_is_unsafe s0 then Some None
  else
    s1 ← at_ setting 1;
    if ascii_is_unsafe s1 then Some None
    else
      let salt := (ascii_to_bin s1 << 6) .| ascii_to_bin s0 in
      Some (Some ([s0; s1] ++ hash_with 25 salt ekey)).

(** The vectors of the self-test; 0x80 and the like are octets of the C
    literals. *)
Definition test_key : list Z :=
  [0x80; 0xff; 0x80; 0x01; 0x20; 0x7f; 0x81; 0x80; 0x80; 0x0d; 0x0a; 0xff; 0x7f; 0x20; 0x81]
    ++ str " test".

Definition __crypt_des (key setting : list Z) : option (list Z) :=
  s0 ← at_ setting 0;
  let '(test_setting, test_hash) :=
    if negb (s0 =? 95) then ([0x80] ++ str "x", [0x80] ++ str "x22/wK52ZKGA")
    else (str "_0.../9Zz", str "_0.../9ZzX7iSJNd21sU") in
  retval ← _crypt_extended_r_uut key setting;
  p ← _crypt_extended_r_uut test_key test_setting;
  match p, retval with
  | Some p, Some retval =>
      if bool_decide (p = test_hash) then Some retval
      else Some (if s0 =? 42 then str "x" else str "*")
  | _, _ => Some (if s0 =? 42 then str "x" else str "*")
  end.

(** ** What they compute *)

(** A number from its bits, most significant first, and back. *)
Definition of_bits (l : list Z) : Z := foldl (fun acc b => 2 * acc + b) 0 l.
Definition to_bits (x : Z) : list Z := map (fun i => (x >> (63 - i)) & 1) (seqZ 0 64).
Definition bits (block : list Z) : list Z := map (fun c => c & 1) block.

(** Up to eight password characters as a DES key: seven bits each, the lowest
    bit (the parity bit) zero. *)
Definition pw_key (chars : list Z) : Z :=
  be_combine (take 8 (map (fun c => (2 * c) mod 256) chars ++ replicate 8 0)).

(** The base-64 digits of a 64-bit value followed by two zero bits. *)
Definition b64 (x : Z) : list Z := map (fun i => a64 ((4 * x / 2 ^ (60 - 6 * i)) mod 64)) (seqZ 0 11).

(** The [count]-fold salted encryption of a zero block. *)
Definition des_hash (count salt key : Z) : list Z :=
  b64 (Nat.iter (Z.to_nat count) (DES salt (KS key)) 0).

(** The key of a longer password: encrypted with itself and combined with
    eight further characters at a time. *)
Definition long_key_step (chars : list Z) (k : Z) (i : nat) : Z :=
  DES 0 (KS k) k ^^ pw_key (drop (8 * i) chars).
Definition long_key (chars : list Z) : Z :=
  foldl (long_key_step chars) (pw_key chars)
        (seq 1 ((length chars + 7) / 8 - 1)).

(** The value of a base-64 digit, and of four of them, lowest first. *)
Definition digit (c : Z) : option Z := (fun p => Z.of_nat p.1) <$> list_find (eq c) ascii64.
Definition number (s : list Z) : option Z := foldr (fun d acc => d + 64 * acc) 0 <$> mapM digit s.

(** ** encrypt.c *)
Lemma land_1_range c : 0 <= c & 1 < 2.
Proof. change 1 with (Z.ones 1). rewrite Z.land_ones by lia. apply Z.mod_pos_bound. lia. Qed.

Lemma of_bits_acc l a : foldl (fun acc b => 2 * acc + b) a l = a * 2 ^ Z.of_nat (length l) + of_bits l.
Proof.
  unfold of_bits. revert a. induction l as [|b l IH]; intros a; [simpl; lia|].
  cbn [foldl length]. rewrite IH, (IH (2 * 0 + b)), Nat2Z.inj_succ, Z.pow_succ_r by lia. lia.
Qed.

Lemma of_bits_cons b l : of_bits (b :: l) = b * 2 ^ Z.of_nat (length l) + of_bits l.
Proof. unfold of_bits at 1. cbn [foldl]. apply of_bits_acc. Qed.

Lemma of_bits_app l k : of_bits (l ++ k) = of_bits l * 2 ^ Z.of_nat (length k) + of_bits k.
Proof. unfold of_bits at 1. by rewrite foldl_app, of_bits_acc. Qed.

Lemma of_bits_range l : 0 <= of_bits (bits l) < 2 ^ Z.of_nat (length l).
Proof.
  induction l as [|c l IH]; [done|]. unfold bits in *. cbn [map length].
  rewrite of_bits_cons, length_map, Nat2Z.inj_succ, Z.pow_succ_r by lia.
  pose proof (land_1_range c). nia.
Qed.

Lemma length_bits l : length (bits l) = length l.
Proof. apply length_map. Qed.

Lemma collect_spec l rest acc : 
  collect (length l) acc (l ++ rest) = Some (acc .| of_bits (bits l), rest).
Proof.
  revert acc. induction l as [|c l IH]; intros acc.
  - cbn. by rewrite Z.lor_0_r.
  - cbn [length app collect]. rewrite IH. do 2 f_equal.
    pose proof (land_1_range c) as Hc. pose proof (of_bits_range l) as Hl.
    rewrite u32_id by lia. change (bits (c :: l)) with ((c & 1) :: bits l).
    rewrite of_bits_cons, length_bits, <- Z.lor_assoc. f_equal.
    rewrite Z.lor_comm, Z.shiftl_mul_pow2, lor_add by lia. lia.
Qed.

Lemma collect_take n acc l : (n <= length l)%nat ->
  collect n acc l = Some (acc .| of_bits (bits (take n l)), drop n l).
Proof.
  intros Hn. rewrite <- (take_drop n l) at 1. rewrite <- (length_take_le l n) at 1 by done.
  apply collect_spec.
Qed.

Lemma setkey_loop_spec n key : (8 * n <= length key)%nat ->
  exists bkey, setkey_loop n key = Some bkey /\ bytes bkey /\ length bkey = n /\
    be_combine bkey = of_bits (bits (take (8 * n) key)).
Proof.
  revert key. induction n as [|n IH]; intros key Hk.
  { exists []. by rewrite take_0. }
  cbn [setkey_loop]. rewrite collect_take by lia. cbn [mbind option_bind].
  destruct (IH (drop 8 key)) as (bkey & -> & Hb & Hlen & Hc); [rewrite length_drop; lia|].
  eexists. split; [done|]. rewrite Z.lor_0_l.
  pose proof (of_bits_range (take 8 key)) as Hr. rewrite length_take_le in Hr by lia.
  split_and!; [by constructor|simpl; lia|].
  replace (8 * S n)%nat with (8 + 8 * n)%nat by lia. rewrite <- take_take_drop.
  unfold bits. rewrite map_app. fold (bits (take 8 key)). fold (bits (take (8 * n) (drop 8 key))).
  rewrite of_bits_app, length_bits, length_take_le, <- Hc by (rewrite length_drop; lia).
  rewrite be_combine_cons, Hlen. by rewrite pow256, Nat2Z.inj_mul.
Qed.

Lemma spread_halves x : 0 <= x < 2 ^ 64 ->
  spread (halves x).1 ++ spread (halves x).2 = to_bits x.
Proof.
  intros Hx. unfold to_bits, spread, halves. cbn [fst snd].
  change (seqZ 0 64) with (seqZ 0 32 ++ map (Z.add 32) (seqZ 0 32)).
  rewrite map_app, map_map. f_equal.
  apply map_ext_in. intros i Hi. apply list_elem_of_In, elem_of_seqZ in Hi.
  apply Z.bits_inj'. intros j Hj. rewrite !Z.land_spec, !Z.shiftr_spec, Z.land_spec by done.
  destruct (decide (j = 0)) as [->|].
  - rewrite Z.ones_spec_low, andb_true_r by lia. do 2 f_equal. lia.
  - change 1 with (Z.ones 1). by rewrite (Z.ones_spec_high 1), !andb_false_r by lia.
Qed.

Fixpoint low_bits (n : nat) (x : Z) : list Z :=
  match n with O => [] | S n => (x >> Z.of_nat n) & 1 :: low_bits n x end.

Lemma low_bits_add k n a y : (k <= n)%nat -> low_bits k (a * 2 ^ Z.of_nat n + y) = low_bits k y.
Proof.
  induction k as [|k IH]; intros Hk; [done|]. cbn [low_bits]. rewrite IH by lia. f_equal.
  change 1 with (Z.ones 1). rewrite !Z.land_ones, !Z.shiftr_div_pow2 by lia.
  replace (Z.of_nat n) with (1 + (Z.of_nat n - 1 - Z.of_nat k) + Z.of_nat k) by lia.
  rewrite !Z.pow_add_r, Z.mul_assoc by lia. rewrite Z.add_comm, Z.div_add by lia.
  rewrite (Z.mul_comm (2 ^ 1)), Z.mul_assoc. by rewrite Z.mod_add by lia.
Qed.

Lemma low_bits_of_bits l : low_bits (length l) (of_bits (bits l)) = bits l.
Proof.
  induction l as [|c l IH]; [done|]. cbn [length]. unfold bits in *. cbn [map].
  pose proof (of_bits_range l) as Hr. unfold bits in Hr. rewrite of_bits_cons, length_map.
  cbn [low_bits]. rewrite low_bits_add, IH by lia. f_equal.
  rewrite Z.shiftr_div_pow2, Z.add_comm, Z.div_add, Z.div_small by lia.
  rewrite Z.add_0_l. change 1 with (Z.ones 1). rewrite <- Z.land_assoc. done.
Qed.

Lemma to_of_bits l : length l = 64%nat -> to_bits (of_bits (bits l)) = bits l.
Proof. intros Hlen. rewrite <- (low_bits_of_bits l) at 2. by rewrite Hlen. Qed.

Lemma of_low_bits n x : of_bits (low_bits n x) = x mod 2 ^ Z.of_nat n.
Proof.
  induction n as [|n IH]; [by rewrite Z.mod_1_r|]. cbn [low_bits]. rewrite of_bits_cons, IH.
  assert (Hl : length (low_bits n x) = n) by (clear; induction n; cbn; congruence).
  rewrite Hl, Nat2Z.inj_succ, <- Z.add_1_r, Z.pow_add_r, Z.rem_mul_r by lia.
  change 1 with (Z.ones 1) at 1. rewrite Z.land_ones, Z.shiftr_div_pow2 by lia.
  change (2 ^ 1) with 2. lia.
Qed.

Lemma of_to_bits x : 0 <= x < 2 ^ 64 -> of_bits (to_bits x) = x.
Proof. intros Hx. change (to_bits x) with (low_bits 64 x). rewrite of_low_bits. by apply Z.mod_small. Qed.

(** The two words of a block are the halves of its value. *)
Lemma block_words block : (64 <= length block)%nat ->
  exists b0 b1, collect 32 0 block = Some (b0, drop 32 block) /\
    collect 32 0 (drop 32 block) = Some (b1, drop 64 block) /\
    block_ok (b0, b1) /\ join (b0, b1) = of_bits (bits (take 64 block)).
Proof.
  intros Hlen. exists (of_bits (bits (take 32 block))), (of_bits (bits (take 32 (drop 32 block)))).
  rewrite !collect_take, !Z.lor_0_l, drop_drop by (rewrite ?length_drop; lia).
  pose proof (of_bits_range (take 32 block)) as H0.
  pose proof (of_bits_range (take 32 (drop 32 block))) as H1.
  rewrite length_take_le in H0, H1 by (rewrite ?length_drop; lia).
  split_and!; [done|done|done|].
  change 64%nat with (32 + 32)%nat. rewrite <- take_take_drop. unfold bits at 3. rewrite map_app, of_bits_app.
  rewrite length_map, length_take_le by (rewrite length_drop; lia).
  unfold join. cbn [fst snd]. rewrite Z.lor_comm, Z.shiftl_mul_pow2, lor_add by (done || lia).
  unfold bits. change (Z.of_nat 32) with 32. lia.
Qed.

Lemma zip_with_rev {A B C} (f : A -> B -> C) l k : length l = length k ->
  zip_with f (rev l) (rev k) = rev (zip_with f l k).
Proof.
  revert k. induction l as [|a l IH]; intros [|b k] H; try done. cbn [rev zip_with].
  injection H as H. rewrite zip_with_app, IH by (rewrite ?length_rev; done). done.
Qed.

Lemma encrypt_spec ek block edflag : ekey_ok ek -> (64 <= length block)%nat ->
  encrypt ek block edflag =
    Some (to_bits (DES 0 (if edflag =? 0 then round_keys ek else rev (round_keys ek))
                     (of_bits (bits (take 64 block)))) ++ drop 64 block).
Proof.
  intros He Hlen. destruct (block_words block Hlen) as (b0 & b1 & H0 & H1 & [Hb0 Hb1] & Hj).
  unfold encrypt. rewrite H0. cbn [mbind option_bind]. rewrite H1. cbn [mbind option_bind].
  assert (Hek : ekey_ok (EKey (rev (take 16 (ek_l ek))) (rev (take 16 (ek_r ek)))) /\
                round_keys (EKey (rev (take 16 (ek_l ek))) (rev (take 16 (ek_r ek)))) = rev (round_keys ek)).
  { destruct He as (Hl & Hr & Fl & Fr). rewrite !take_ge by lia. split.
    - split_and!; cbn [ek_l ek_r]; rewrite ?length_rev; try done; by apply Forall_rev.
    - unfold round_keys. cbn [ek_l ek_r]. by rewrite zip_with_rev by congruence. }
  assert (Hd : forall k, ekey_ok k ->
    (let '(c0, c1) := __do_des b0 b1 1 0 k in Some (spread c0 ++ spread c1 ++ drop 64 block)) =
    Some (to_bits (DES 0 (round_keys k) (of_bits (bits (take 64 block)))) ++ drop 64 block)).
  { intros k Hk. change (__do_des b0 b1 1 0 k) with (__do_des b0 b1 1 (setup_salt 0) k).
    rewrite do_des_spec, Hj by done. change (Nat.iter (Z.to_nat 1) ?f ?x) with (f x).
    rewrite <- spread_halves by apply DES_range. rewrite <- app_assoc.
    by destruct (halves _). }
  destruct (edflag =? 0); cbn [negb]; [by apply Hd|]. by rewrite Hd, (proj2 Hek) by apply Hek.
Qed.

(** ** Keys from passwords *)
Lemma dbl_char c : u8 (c << 1) = (2 * c) mod 256.
Proof. unfold u8. rewrite Z.shiftl_mul_pow2, Z.mul_comm by lia. done. Qed.

Lemma u8_lxor b x : byte b -> u8 (b ^^ x) = b ^^ (x mod 256).
Proof.
  intros Hb. unfold u8. change 256 with (2 ^ 8). rewrite <- !Z.land_ones by lia.
  apply Z.bits_inj'. intros i Hi. rewrite Z.land_spec, !Z.lxor_spec, Z.land_spec.
  destruct (decide (i < 8)).
  - by rewrite Z.ones_spec_low, !andb_true_r by lia.
  - by rewrite Z.ones_spec_high, !andb_false_r, byte_testbit_hi by (done || lia).
Qed.

(** The first [n] characters, doubled and padded. *)
Definition pad_key (n : nat) (key : list Z) : list Z :=
  take n (map (fun c => (2 * c) mod 256) key ++ replicate n 0).

Lemma pad_key_nil n : pad_key n [] = replicate n 0.
Proof. unfold pad_key. cbn [map app]. by rewrite take_replicate, Nat.min_id. Qed.

Lemma pad_key_cons n c key : pad_key (S n) (c :: key) = (2 * c) mod 256 :: pad_key n key.
Proof.
  unfold pad_key. cbn [map app take]. f_equal.
  rewrite !take_app, !take_replicate, !Nat.min_l by lia. done.
Qed.

Lemma pad_key_ok n key : bytes (pad_key n key) /\ length (pad_key n key) = n.
Proof.
  split.
  - apply Forall_take, Forall_app. split; [apply Forall_map, Forall_forall; intros; apply u8_range|].
    by apply Forall_replicate.
  - unfold pad_key. rewrite length_take, length_app, length_replicate. lia.
Qed.

Lemma copy_key_spec n key : copy_key n key = (pad_key n key, drop n key).
Proof.
  revert key. induction n as [|n IH]; intros key; [done|]. cbn [copy_key]. rewrite IH, dbl_char.
  destruct key as [|c key]; cbn [hd tl].
  - by rewrite !pad_key_nil, !drop_nil.
  - by rewrite pad_key_cons.
Qed.

Lemma xor_key_spec q key : bytes q ->
  xor_key q key = (zip_with Z.lxor q (pad_key (length q) key), drop (length q) key).
Proof.
  intros Hq. revert key. induction Hq as [|b q Hb Hq IH]; intros key.
  - by destruct key.
  - destruct key as [|c key].
    + rewrite pad_key_nil, drop_nil. cbn [xor_key]. f_equal. clear. 
      induction (b :: q) as [|x l IH]; [done|]. cbn [length replicate zip_with].
      by rewrite <- IH, Z.lxor_0_r.
    + cbn [xor_key length]. rewrite IH, pad_key_cons. cbn [zip_with drop]. f_equal. f_equal.
      rewrite u8_lxor, Z.shiftl_mul_pow2, Z.mul_comm by (done || lia). done.
Qed.

Lemma be_combine_lxor l k : bytes l -> bytes k -> length l = length k ->
  be_combine (zip_with Z.lxor l k) = be_combine l ^^ be_combine k.
Proof.
  intros Hl Hk Hlen. rewrite !be_le_combine, <- zip_with_rev by done.
  by rewrite <- le_combine_lxor by (rewrite ?length_rev; auto using Forall_rev).
Qed.

Lemma be_combine_range8 l : bytes l -> length l = 8%nat -> 0 <= be_combine l < 2 ^ 64.
Proof.
  intros Hl Hlen. rewrite be_le_combine. pose proof (le_combine_range (rev l) (Forall_rev Hl)) as H.
  by rewrite length_rev, Hlen in H.
Qed.

Lemma bytes_zip_lxor l k : bytes l -> bytes k -> bytes (zip_with Z.lxor l k).
Proof.
  intros Hl. revert k. induction Hl as [|a l Ha _ IH]; intros k Hk; [constructor|].
  destruct Hk as [|b k Hb Hk]; constructor; [by apply byte_lxor|by apply IH].
Qed.

(** The number of groups of eight left after the first [i]. *)
Lemma chunks_done n i : (n <= 8 * i)%nat -> ((n + 7) / 8 - i = 0)%nat.
Proof.
  intros H. pose proof (Nat.div_mod_eq (n + 7) 8). pose proof (Nat.mod_upper_bound (n + 7) 8). lia.
Qed.

Lemma chunks_step n i : (8 * i < n)%nat -> ((n + 7) / 8 - i = S ((n + 7) / 8 - S i))%nat.
Proof.
  intros H. pose proof (Nat.div_mod_eq (n + 7) 8). pose proof (Nat.mod_upper_bound (n + 7) 8). lia.
Qed.

Lemma fold_key_spec fuel chars i kb :
  (length (drop (8 * i) chars) <= fuel)%nat -> bytes kb -> length kb = 8%nat ->
  exists kb',
    fold_key fuel (drop (8 * i) chars) kb (__des_setkey kb) = Some (__des_setkey kb') /\
    bytes kb' /\ length kb' = 8%nat /\
    be_combine kb' = foldl (long_key_step chars) (be_combine kb)
                       (seq i ((length chars + 7) / 8 - i)).
Proof.
  revert i kb. induction fuel as [|fuel IH]; intros i kb Hf Hkb Hlen;
    (destruct (decide (length chars <= 8 * i)%nat) as [Hi|Hi];
      [exists kb; rewrite drop_ge, chunks_done by done; by split_and!|]);
    rewrite length_drop in Hf; [lia|].
  destruct (drop (8 * i) chars) as [|c rest] eqn:Hd.
  { apply (f_equal length) in Hd. rewrite length_drop in Hd. simpl in Hd. lia. }
  cbn [fold_key]. rewrite <- Hd.
  change (des_cipher kb 1 0) with (des_cipher kb 1 (setup_salt 0)).
  destruct (setkey_spec kb Hkb Hlen) as [He Hks].
  rewrite des_cipher_spec by done. change (Nat.iter (Z.to_nat 1) ?f ?x) with (f x). rewrite Hks.
  set (x := DES 0 (KS (be_combine kb)) (be_combine kb)).
  destruct (be_bytes_ok x) as [Hxb Hxl]. destruct (pad_key_ok 8 (drop (8 * i) chars)) as [Hpb Hpl].
  rewrite xor_key_spec, Hxl, drop_drop by done.
  replace (8 * i + 8)%nat with (8 * S i)%nat by lia.
  destruct (IH (S i) (zip_with Z.lxor (be_bytes x) (pad_key 8 (drop (8 * i) chars))))
    as (kb' & Hfk & Hb' & Hl' & Hc').
  { rewrite length_drop. lia. }
  { by apply bytes_zip_lxor. }
  { rewrite length_zip_with, Hxl, Hpl. done. }
  exists kb'. split_and!; [done|done|done|].
  rewrite Hc', be_combine_lxor, be_combine_bytes by (done || congruence || apply DES_range).
  rewrite (chunks_step _ i) by lia. cbn [seq foldl]. unfold long_key_step at 3. fold x.
  reflexivity.
Qed.

(** ** Settings *)
Definition char_ok (c : Z) : bool :=
  let v := ascii_to_bin c in
  (0 <=? v) && (v <? 64) &&
  match ascii64 !! Z.to_nat v with
  | Some a => if a =? c then bool_decide (digit c = Some v) else bool_decide (digit c = None)
  | None => false
  end.

Lemma ascii_to_bin_spec c : 0 <= c < 256 ->
  0 <= ascii_to_bin c < 64 /\
  exists a, ascii64 !! Z.to_nat (ascii_to_bin c) = Some a /\
    digit c = if a =? c then Some (ascii_to_bin c) else None.
Proof.
  intros Hc. assert (H : char_ok c = true) by (revert c Hc; apply byte_forall; by vm_compute).
  unfold char_ok in H. apply andb_true_iff in H as [Hr H]. split; [lia|].
  destruct (ascii64 !! Z.to_nat (ascii_to_bin c)) as [a|]; [|done]. exists a. split; [done|].
  by destruct (a =? c); apply bool_decide_eq_true in H.
Qed.

Lemma number_cons c l : number (c :: l) =
  match digit c, number l with Some d, Some v => Some (d + 64 * v) | _, _ => None end.
Proof. unfold number. cbn [mapM]. destruct (digit c); [|done]. cbn. by destruct (mapM digit l). Qed.

(** The four characters from [i] on as a number, [None] if there are not four
    or one is outside the alphabet. *)
Definition number_at (n : nat) (s : list Z) (i : nat) : option Z :=
  if bool_decide (i + n <= length s)%nat then number (take n (drop i s)) else None.

Lemma number_at_S n s i : (i <= length s)%nat ->
  number_at (S n) s i =
    match digit (hd 0 (drop i s)), number_at n s (S i) with
    | Some d, Some v => Some (d + 64 * v) | _, _ => None end.
Proof.
  intros Hi. unfold number_at. destruct (drop i s) as [|c l] eqn:E.
  - apply (f_equal length) in E. rewrite length_drop in E. simpl in E.
    rewrite bool_decide_false by lia. done.
  - assert (Hd : drop (S i) s = l) by (by rewrite <- Nat.add_1_r, <- drop_drop, E).
    rewrite Hd. cbn [hd take]. replace (i + S n)%nat with (S i + n)%nat by lia.
    case_bool_decide; [apply number_cons|by destruct (digit c)].
Qed.

Lemma decode_spec n s i sh acc : cstr s -> (i <= length s)%nat -> 0 <= sh -> 0 <= acc < 2 ^ sh ->
  decode n s i sh acc = Some ((fun v => acc + v * 2 ^ sh) <$> number_at n s i).
Proof.
  intros Hs. revert i sh acc. induction n as [|n IH]; intros i sh acc Hi Hsh Hacc.
  { unfold number_at. rewrite bool_decide_true, take_0 by lia. cbn. do 2 f_equal. lia. }
  cbn [decode]. rewrite at_drop by done. cbn [mbind option_bind]. rewrite number_at_S by done.
  assert (Hc : 0 <= hd 0 (drop i s) < 256).
  { pose proof (Forall_drop _ i s Hs) as Hd. destruct Hd; cbn [hd]; lia. }
  destruct (ascii_to_bin_spec _ Hc) as (Hv & a & -> & Hdig). cbn [mbind option_bind]. rewrite Hdig.
  destruct (Z.eqb_spec a (hd 0 (drop i s))) as [Ha|]; cbn [negb]; [|done].
  assert (Hi' : (S i <= length s)%nat).
  { destruct (decide (i = length s)) as [->|]; [|lia]. rewrite drop_all in Hdig. exfalso. clear -Hdig. by vm_compute in Hdig. }
  set (v := ascii_to_bin _) in *. rewrite Nat.add_1_r.
  rewrite Z.shiftl_mul_pow2, lor_add by lia. rewrite IH; [|done|lia|].
  2: { rewrite Z.pow_add_r by lia. nia. }
  f_equal. destruct (number_at n s (S i)); [|done]. cbn. f_equal. rewrite Z.pow_add_r by lia. lia.
Qed.

(** ** Results *)
Lemma encode_spec x : 0 <= x < 2 ^ 64 -> encode (halves x).1 (halves x).2 = b64 x.
Proof.
  intros Hx. unfold encode, b64, halves, u32. cbn [fst snd].
  change (seqZ 0 11) with [0; 1; 2; 3; 4; 5; 6; 7; 8; 9; 10]. cbn [map app].
  assert (Hl : (((x >> 32) << 16) mod 2 ^ 32 .| (((x & Z.ones 32) >> 16) & 0xffff)) =
               (x / 2 ^ 16) mod 2 ^ 32).
  { change 0xffff with (Z.ones 16). rewrite !Z.land_ones, !Z.shiftr_div_pow2, Z.shiftl_mul_pow2 by lia.
    assert (H : (x / 2 ^ 32 * 2 ^ 16) mod 2 ^ 32 = (x / 2 ^ 32) mod 2 ^ 16 * 2 ^ 16) by mlia.
    rewrite H, Z.lor_comm, lor_add by (apply Z.mod_pos_bound || idtac; lia). mlia. }
  rewrite Hl. change 0x3f with (Z.ones 6). 
  rewrite !Z.land_ones, !Z.shiftr_div_pow2, Z.shiftl_mul_pow2 by lia.
  change (2 ^ (60 - 6 * 0)) with (2 ^ 60). change (2 ^ (60 - 6 * 1)) with (2 ^ 54).
  change (2 ^ (60 - 6 * 2)) with (2 ^ 48). change (2 ^ (60 - 6 * 3)) with (2 ^ 42).
  change (2 ^ (60 - 6 * 4)) with (2 ^ 36). change (2 ^ (60 - 6 * 5)) with (2 ^ 30).
  change (2 ^ (60 - 6 * 6)) with (2 ^ 24). change (2 ^ (60 - 6 * 7)) with (2 ^ 18).
  change (2 ^ (60 - 6 * 8)) with (2 ^ 12). change (2 ^ (60 - 6 * 9)) with (2 ^ 6).
  change (2 ^ (60 - 6 * 10)) with (2 ^ 0).
  repeat (apply (f_equal2 cons); [apply (f_equal a64); mlia|]). done.
Qed.

Lemma hash_with_spec count salt kb : bytes kb -> length kb = 8%nat ->
  hash_with count salt (__des_setkey kb) = des_hash count salt (be_combine kb).
Proof.
  intros Hkb Hlen. destruct (setkey_spec kb Hkb Hlen) as [He Hks]. unfold hash_with, des_hash.
  rewrite do_des_spec, Hks by done. change (join (0, 0)) with 0.
  rewrite <- encode_spec by (by apply DES_iter_range). by destruct (halves _).
Qed.

Lemma test_vector_old :
  _crypt_extended_r_uut test_key ([0x80] ++ str "x") = Some (Some ([0x80] ++ str "x22/wK52ZKGA")).
Proof. by vm_compute. Qed.

Lemma test_vector_new :
  _crypt_extended_r_uut test_key (str "_0.../9Zz") = Some (Some (str "_0.../9ZzX7iSJNd21sU")).
Proof. by vm_compute. Qed.

(** What [__crypt_des] returns instead of a null pointer. *)
Definition failure (setting : list Z) : list Z := if hd 0 setting =? 42 then str "x" else str "*".

(** The self-test passes, so only the call on the caller's data counts. *)
Lemma crypt_des_of_uut key setting r :
  _crypt_extended_r_uut key setting = Some r ->
  __crypt_des key setting = Some (default (failure setting) r).
Proof.
  intros Hr. pose proof test_vector_old as T1. pose proof test_vector_new as T2. revert T1 T2.
  unfold __crypt_des. rewrite at_drop by lia. unfold failure. change (drop 0 setting) with setting.
  generalize (hd 0 setting) as s0, test_key as k.
  generalize ([128] ++ str "x") as s1, ([128] ++ str "x22/wK52ZKGA") as h1.
  generalize (str "_0.../9Zz") as s2, (str "_0.../9ZzX7iSJNd21sU") as h2.
  intros s2 h2 s1 h1 s0 k T1 T2. cbn [mbind option_bind].
  destruct (negb (s0 =? 95)); rewrite Hr; cbn [mbind option_bind]; rewrite ?T1, ?T2; cbn [mbind option_bind];
    (destruct r; [by rewrite bool_decide_true|done]).
Qed.

Lemma copy_key_8 key : exists kb rest, copy_key 8 key = (kb, drop 8 key) /\ rest = drop 8 key /\
  bytes kb /\ length kb = 8%nat /\ be_combine kb = pw_key key.
Proof.
  destruct (pad_key_ok 8 key) as [Hb Hl]. exists (pad_key 8 key), (drop 8 key).
  by rewrite copy_key_spec.
Qed.

Lemma crypt_old_spec key setting : cstr setting -> hd 0 setting <> 95 ->
  _crypt_extended_r_uut key setting = Some
    match setting with
    | s0 :: s1 :: _ =>
        if ascii_is_unsafe s0 || ascii_is_unsafe s1 then None
        else Some ([s0; s1] ++ des_hash 25 (64 * ascii_to_bin s1 + ascii_to_bin s0) (pw_key key))
    | _ => None
    end.
Proof.
  intros Hs H95. unfold _crypt_extended_r_uut.
  destruct (copy_key_8 key) as (kb & rest & -> & _ & Hkb & Hlen & Hc).
  rewrite (at_drop setting 0) by (clear; lia). cbn [mbind option_bind skipn]. rewrite drop_0.
  rewrite (proj2 (Z.eqb_neq _ _) H95).
  destruct setting as [|s0 setting]; [done|]. cbn [hd]. destruct (ascii_is_unsafe s0) eqn:E0.
  { by destruct setting. }
  rewrite at_drop by (cbn [length]; lia). cbn [mbind option_bind].
  change (drop 1 (s0 :: setting)) with setting.
  destruct setting as [|s1 setting]; [done|]. cbn [hd orb]. destruct (ascii_is_unsafe s1) eqn:E1; [done|].
  apply Forall_cons_1 in Hs as [H0 Hs]. apply Forall_cons_1 in Hs as [H1 Hs].
  destruct (ascii_to_bin_spec s0) as [Hr _]; [cbv beta in H0; lia|].
  assert (Hsalt : (ascii_to_bin s1 << 6) .| ascii_to_bin s0 = 64 * ascii_to_bin s1 + ascii_to_bin s0).
  { rewrite Z.lor_comm, Z.shiftl_mul_pow2, lor_add by lia. lia. }
  rewrite hash_with_spec, Hc, Hsalt by done. reflexivity.
Qed.

Lemma crypt_new_spec key rest : cstr rest ->
  _crypt_extended_r_uut key (95 :: rest) = Some
    match number_at 4 (95 :: rest) 1, number_at 4 (95 :: rest) 5 with
    | Some count, Some salt =>
        if count =? 0 then None
        else Some (95 :: take 8 rest ++ des_hash count salt (long_key key))
    | _, _ => None
    end.
Proof.
  intros Hs. unfold _crypt_extended_r_uut.
  destruct (copy_key_8 key) as (kb & rest' & -> & _ & Hkb & Hlen & Hc).
  assert (Hs' : cstr (95 :: rest)) by (by constructor).
  rewrite (at_drop (95 :: rest) 0) by (clear; lia).
  rewrite drop_0. cbn [mbind option_bind hd Z.eqb Pos.eqb].
  assert (H1 : (1 <= length (95%Z :: rest))%nat) by (clear; cbn [length]; lia).
  rewrite (decode_spec 4 _ 1 0 0 Hs' H1) by done. cbn [mbind option_bind].
  assert (Hz : forall o : option Z, (fun v => 0 + v * 2 ^ 0) <$> o = o) by (intros [v|]; [cbn; f_equal; lia|done]).
  rewrite Hz. destruct (number_at 4 (95 :: rest) 1) as [count|] eqn:E1; [|done].
  assert (H5 : (5 <= length (95%Z :: rest))%nat).
  { unfold number_at in E1. case_bool_decide as H; [exact H|done]. }
  destruct (count =? 0); [by destruct (number_at 4 _ 5)|].
  rewrite (decode_spec 4 _ 5 0 0 Hs' H5), Hz by done. cbn [mbind option_bind].
  destruct (number_at 4 (95 :: rest) 5) as [salt|]; [|done].
  destruct (fold_key_spec (length (drop 8 key)) key 1 kb) as (kb' & Hf & Hb' & Hl' & Hc'); [done|done|done|].
  change (8 * 1)%nat with 8%nat in Hf. rewrite Hf. cbn [mbind option_bind].
  rewrite hash_with_spec, Hc', Hc by done. done.
Qed.

Lemma length_des_hash count salt key : length (des_hash count salt key) = 11%nat.
Proof. done. Qed.

(** ** Properties *)

(** [setkey] and [encrypt] are DES on blocks of 64 characters, of which only
    the low bits count, and deciphering undoes enciphering: after [setkey] of
    any 64 characters, [encrypt] with [edflag] 0 replaces the block by the bits
    of its FIPS 46-3 encryption under that key, and a second [encrypt] with
    [edflag] nonzero restores the bits of the original block.  Neither reads or
    writes beyond 64 characters. *)
Theorem encrypt_decrypt key block edflag :
  (64 <= length key)%nat -> (64 <= length block)%nat -> edflag <> 0 ->
  exists ek, setkey key = Some ek /\
    let k := of_bits (bits (take 64 key)) in
    encrypt ek block 0 =
      Some (to_bits (DES 0 (KS k) (of_bits (bits (take 64 block)))) ++ drop 64 block) /\
    (encrypt ek block 0 ≫= fun block' => encrypt ek block' edflag) =
      Some (bits (take 64 block) ++ drop 64 block).
Proof.
  intros Hk Hb He. destruct (setkey_loop_spec 8 key Hk) as (bkey & Hs & Hbk & Hlen & Hc).
  exists (__des_setkey bkey). unfold setkey. rewrite Hs. split; [done|]. cbv zeta.
  destruct (setkey_spec bkey Hbk Hlen) as [Hek Hks].
  change (8 * 8)%nat with 64%nat in Hc. rewrite <- Hc, <- Hks.
  rewrite (encrypt_spec _ block 0) by done. split; [done|]. cbn [mbind option_bind Z.eqb].
  set (x := of_bits (bits (take 64 block))).
  assert (Hx : 0 <= x < 2 ^ 64).
  { pose proof (of_bits_range (take 64 block)) as H. by rewrite length_take_le in H. }
  set (y := DES 0 _ x). assert (Hl : length (to_bits y) = 64%nat) by done.
  rewrite encrypt_spec by (done || rewrite length_app, Hl; clear; lia).
  rewrite (proj2 (Z.eqb_neq _ _) He), take_app_length', drop_app_length' by done.
  assert (Hy : bits (to_bits y) = to_bits y).
  { unfold bits, to_bits. rewrite map_map. apply map_ext. intros i. by rewrite <- Z.land_assoc. }
  rewrite Hy, of_to_bits by apply DES_range. unfold y. rewrite DES_inverse by done. unfold x. by rewrite to_of_bits by (rewrite length_take_le; lia).
Qed.

Lemma encrypt_decrypt_witness :
  exists ek, setkey (bits (seqZ 0 64)) = Some ek /\
    (encrypt ek (bits (seqZ 5 64)) 0 ≫= fun block' => encrypt ek block' 1) =
      Some (bits (take 64 (bits (seqZ 5 64))) ++ drop 64 (bits (seqZ 5 64))).
Proof.
  destruct (encrypt_decrypt (bits (seqZ 0 64)) (bits (seqZ 5 64)) 1) as (ek & H1 & _ & H2);
    [by apply Nat.leb_le|by apply Nat.leb_le|done|].
  exists ek. split; [exact H1|exact H2].
Defined.

(** the traditional password hash.  When the setting does not start with an
    underscore, [__crypt_des] returns its first two characters and eleven
    base-64 digits of the zero block encrypted 25 times by DES, keyed with
    seven bits of each of the first eight password characters, with the E-box
    perturbed by the 12-bit salt of the two characters.  A setting of fewer
    than two characters, or with a newline or colon among them, gives "*" (or
    "x" if the setting starts with "*").  The self-test never fails, and no
    byte past the setting's terminator is read. *)
Theorem crypt_des_traditional key setting : cstr setting -> hd 0 setting <> 95 ->
  __crypt_des key setting = Some
    match setting with
    | s0 :: s1 :: _ =>
        if ascii_is_unsafe s0 || ascii_is_unsafe s1 then failure setting
        else [s0; s1] ++ des_hash 25 (64 * ascii_to_bin s1 + ascii_to_bin s0) (pw_key key)
    | _ => failure setting
    end.
Proof.
  intros Hs H95. rewrite (crypt_des_of_uut _ _ _ (crypt_old_spec key setting Hs H95)).
  destruct setting as [|s0 [|s1 setting]]; [done|done|]. by case_match.
Qed.

Lemma crypt_des_traditional_witness :
  __crypt_des (str "rasmuslerdorf") (str "rl") = Some (str "rl.3StKT.4T8M").
Proof.
  refine (eq_trans (crypt_des_traditional (str "rasmuslerdorf") (str "rl") _ _) _);
    [by apply (bool_decide_unpack _)|done|by vm_compute].
Defined.

(** the extended password hash.  With a setting that starts with an
    underscore the next four characters are the iteration count and the four
    after them the salt, base-64 with the least significant digit first; the
    result is those nine characters and the digits of the zero block encrypted
    [count] times under the key formed from the whole password.  A setting
    that is too short, has a character outside the alphabet or the count zero
    is refused with "*".  Any length of password is processed to its end. *)
Theorem crypt_des_extended key rest : cstr rest ->
  __crypt_des key (95 :: rest) = Some
    match number_at 4 (95 :: rest) 1, number_at 4 (95 :: rest) 5 with
    | Some count, Some salt =>
        if count =? 0 then str "*"
        else 95 :: take 8 rest ++ des_hash count salt (long_key key)
    | _, _ => str "*"
    end.
Proof.
  intros Hs. rewrite (crypt_des_of_uut _ _ _ (crypt_new_spec key rest Hs)).
  destruct (number_at 4 _ 1) as [count|]; [|done].
  destruct (number_at 4 _ 5) as [salt|]; [|done]. by destruct (count =? 0).
Qed.

Lemma crypt_des_extended_witness :
  __crypt_des (str "rasmuslerdorf") (str "_2...rasm") =
    Some (str "_2...rasmUlnyHwXEWWM").
Proof.
  refine (eq_trans (crypt_des_extended (str "rasmuslerdorf") (str "2...rasm") _) _);
    [by apply (bool_decide_unpack _)|by vm_compute].
Defined.
