(* ===== verification/AvlTree.v ===== *)
(** Height-balanced search trees as the code of tsearch_avl.c (Avl.v) builds
    them, as pure functions: a tree keeps the address, the key and the stored
    height of each node.  Here are the shape invariant [avl], the order of the
    keys and the effect of each operation on the sequence of nodes; Avl.v
    relates them to the code. *)
From S2P Require Import Prelude.

(** ** The operations on trees *)
Inductive tree := E | T (p k : Z) (l r : tree) (h : Z).

Definition root (t : tree) : Z := match t with E => 0 | T p _ _ _ _ => p end.
Definition stored (t : tree) : Z := match t with E => 0 | T _ _ _ _ h => h end.

Fixpoint addrs (t : tree) : gset Z :=
  match t with E => ∅ | T p _ l r _ => {[p]} ∪ (addrs l ∪ addrs r) end.
Fixpoint depth (t : tree) : nat :=
  match t with E => O | T _ _ l r _ => S (Nat.max (depth l) (depth r)) end.

(** The nodes in order, with their keys. *)
Fixpoint nodes (t : tree) : list (Z * Z) :=
  match t with E => [] | T p k l r _ => nodes l ++ (p, k) :: nodes r end.

Definition mk (p k : Z) (l r : tree) : tree :=
  T p k l r (Z.max (Z.max 0 (stored l)) (stored r) + 1).

Definition t_rotl (t : tree) : tree :=
  match t with
  | T p k l (T q k' rl rr _) _ => mk q k' (mk p k l rl) rr
  | _ => t
  end.
Definition t_rotr (t : tree) : tree :=
  match t with
  | T p k (T q k' ll lr _) r _ => mk q k' ll (mk p k lr r)
  | _ => t
  end.

Definition skew (t : tree) : Z :=
  match t with E => 0 | T _ _ l r _ => stored l - stored r end.

Definition t_balance (p k : Z) (l r : tree) : tree :=
  if stored l - stored r <? -1 then
    t_rotl (T p k l (if skew r >? 0 then t_rotr r else r) 0)
  else if stored l - stored r >? 1 then
    t_rotr (T p k (if skew l <? 0 then t_rotl l else l) r 0)
  else mk p k l r.

Section operations.
Context (cmp : Z -> Z -> Z).

Fixpoint t_find (t : tree) (k : Z) : Z :=
  match t with
  | E => 0
  | T p k' l r _ =>
      let c := cmp k k' in
      if c =? 0 then p else if c <? 0 then t_find l k else t_find r k
  end.

Fixpoint t_insert (t : tree) (k new : Z) : tree :=
  match t with
  | E => T new k E E 1
  | T p k' l r _ =>
      if cmp k k' <? 0 then t_balance p k' (t_insert l k new) r
      else t_balance p k' l (t_insert r k new)
  end.

(** The tree without its last node, and that node. *)
Fixpoint t_remove_rightmost (p k : Z) (l r : tree) : tree * (Z * Z) :=
  match r with
  | E => (l, (p, k))
  | T q k' rl rr _ =>
      let '(r', m) := t_remove_rightmost q k' rl rr in (t_balance p k l r', m)
  end.

(** What replaces a node with these subtrees. *)
Definition t_join (l r : tree) : tree :=
  match l with
  | E => r
  | T q k' ll lr _ => let '(l', (m, mk)) := t_remove_rightmost q k' ll lr in t_balance m mk l' r
  end.

Fixpoint t_remove (t : tree) (k : Z) : tree :=
  match t with
  | E => E
  | T p k' l r _ =>
      let c := cmp k k' in
      if c =? 0 then t_join l r
      else if c <? 0 then t_balance p k' (t_remove l k) r
      else t_balance p k' l (t_remove r k)
  end.

(** The parent of the node that [t_remove] removes. *)
Fixpoint t_parent (t : tree) (k parent : Z) : Z :=
  match t with
  | E => 0
  | T p k' l r _ =>
      let c := cmp k k' in
      if c =? 0 then parent else if c <? 0 then t_parent l k p else t_parent r k p
  end.
End operations.

(** ** Balance *)
Fixpoint hgt (t : tree) : Z :=
  match t with E => 0 | T _ _ l r _ => 1 + Z.max (hgt l) (hgt r) end.

(** Heights are stored correctly and those of siblings differ by one at most. *)
Fixpoint avl (t : tree) : Prop :=
  match t with
  | E => True
  | T _ _ l r h => h = hgt t /\ -1 <= hgt l - hgt r <= 1 /\ avl l /\ avl r
  end.

Lemma hgt_nonneg t : 0 <= hgt t.
Proof. destruct t; cbn; [lia|]. induction t1; cbn; lia. Qed.

Lemma avl_stored t : avl t -> stored t = hgt t.
Proof. destruct t; [done|]. by intros [-> _]. Qed.

Lemma nodes_mk p k l r : nodes (mk p k l r) = nodes l ++ (p, k) :: nodes r.
Proof. done. Qed.

Lemma nodes_rotl t : nodes (t_rotl t) = nodes t.
Proof. destruct t as [|p k l [|q k' rl rr h'] h]; [done..|]. cbn. by rewrite <- app_assoc. Qed.

Lemma nodes_rotr t : nodes (t_rotr t) = nodes t.
Proof. destruct t as [|p k [|q k' ll lr h'] r h]; [done..|]. cbn. by rewrite <- app_assoc. Qed.

Lemma nodes_balance p k l r : nodes (t_balance p k l r) = nodes l ++ (p, k) :: nodes r.
Proof.
  unfold t_balance. repeat case_match; rewrite ?nodes_rotl, ?nodes_rotr; cbn [nodes];
    by rewrite ?nodes_rotl, ?nodes_rotr.
Qed.
Create Rewrite HintDb avl.
#[export] Hint Rewrite nodes_balance nodes_rotl nodes_rotr nodes_mk : avl.

(** Rebalancing after one subtree grew or shrank by one. *)
Lemma balance_avl p k l r :
  avl l -> avl r -> -2 <= hgt l - hgt r <= 2 ->
  avl (t_balance p k l r) /\
  Z.max (hgt l) (hgt r) <= hgt (t_balance p k l r) <= 1 + Z.max (hgt l) (hgt r) /\
  (-1 <= hgt l - hgt r <= 1 -> hgt (t_balance p k l r) = 1 + Z.max (hgt l) (hgt r)).
Proof.
  intros Hl Hr Hd. unfold t_balance. rewrite (avl_stored l), (avl_stored r) by done.
  pose proof (hgt_nonneg l). pose proof (hgt_nonneg r).
  destruct (Z.ltb_spec (hgt l - hgt r) (-1)).
  - destruct r as [|q k' rl rr hr]; [cbn in *; lia|]. cbn [skew].
    destruct Hr as (-> & Hb & Hrl & Hrr). cbn [hgt] in *.
    pose proof (hgt_nonneg rl). pose proof (hgt_nonneg rr).
    rewrite (avl_stored rl), (avl_stored rr) by done.
    destruct (Z.gtb_spec (hgt rl - hgt rr) 0).
    + destruct rl as [|m km a b hm]; [cbn in *; lia|]. destruct Hrl as (-> & Hb' & Ha & Hb2).
      pose proof (hgt_nonneg a). pose proof (hgt_nonneg b).
      cbn [t_rotr t_rotl mk avl hgt stored] in *.
      rewrite (avl_stored l), (avl_stored a), (avl_stored b), (avl_stored rr) by done.
      split_and!; try done; lia.
    + cbn [t_rotl mk avl hgt stored] in *.
      rewrite (avl_stored l), (avl_stored rl), (avl_stored rr) by done.
      split_and!; try done; lia.
  - destruct (Z.gtb_spec (hgt l - hgt r) 1).
    + destruct l as [|q k' ll lr hl]; [cbn in *; lia|]. cbn [skew].
      destruct Hl as (-> & Hb & Hll & Hlr). cbn [hgt] in *.
      pose proof (hgt_nonneg ll). pose proof (hgt_nonneg lr).
      rewrite (avl_stored ll), (avl_stored lr) by done.
      destruct (Z.ltb_spec (hgt ll - hgt lr) 0).
      * destruct lr as [|m km a b hm]; [cbn in *; lia|]. destruct Hlr as (-> & Hb' & Ha & Hb2).
        pose proof (hgt_nonneg a). pose proof (hgt_nonneg b).
        cbn [t_rotr t_rotl mk avl hgt stored] in *.
        rewrite (avl_stored r), (avl_stored a), (avl_stored b), (avl_stored ll) by done.
        split_and!; try done; lia.
      * cbn [t_rotr mk avl hgt stored] in *.
        rewrite (avl_stored r), (avl_stored ll), (avl_stored lr) by done.
        split_and!; try done; lia.
    + cbn [mk avl hgt]. rewrite (avl_stored l), (avl_stored r) by done.
      split_and!; try done; lia.
Qed.

Lemma grow_l p k l l' r :
  avl l' -> avl r -> -1 <= hgt l - hgt r <= 1 -> hgt l <= hgt l' <= hgt l + 1 ->
  avl (t_balance p k l' r) /\
  1 + Z.max (hgt l) (hgt r) <= hgt (t_balance p k l' r) <= 1 + Z.max (hgt l) (hgt r) + 1.
Proof. intros Hl Hr H1 H2. destruct (balance_avl p k l' r Hl Hr) as (? & ? & ?); [lia|]. split; [done|lia]. Qed.

Lemma grow_r p k l r r' :
  avl l -> avl r' -> -1 <= hgt l - hgt r <= 1 -> hgt r <= hgt r' <= hgt r + 1 ->
  avl (t_balance p k l r') /\
  1 + Z.max (hgt l) (hgt r) <= hgt (t_balance p k l r') <= 1 + Z.max (hgt l) (hgt r) + 1.
Proof. intros Hl Hr H1 H2. destruct (balance_avl p k l r' Hl Hr) as (? & ? & ?); [lia|]. split; [done|lia]. Qed.

Lemma shrink_l p k l l' r :
  avl l' -> avl r -> -1 <= hgt l - hgt r <= 1 -> hgt l - 1 <= hgt l' <= hgt l ->
  avl (t_balance p k l' r) /\
  1 + Z.max (hgt l) (hgt r) - 1 <= hgt (t_balance p k l' r) <= 1 + Z.max (hgt l) (hgt r).
Proof. intros Hl Hr H1 H2. destruct (balance_avl p k l' r Hl Hr) as (? & ? & ?); [lia|]. split; [done|lia]. Qed.

Lemma shrink_r p k l r r' :
  avl l -> avl r' -> -1 <= hgt l - hgt r <= 1 -> hgt r - 1 <= hgt r' <= hgt r ->
  avl (t_balance p k l r') /\
  1 + Z.max (hgt l) (hgt r) - 1 <= hgt (t_balance p k l r') <= 1 + Z.max (hgt l) (hgt r).
Proof. intros Hl Hr H1 H2. destruct (balance_avl p k l r' Hl Hr) as (? & ? & ?); [lia|]. split; [done|lia]. Qed.

Section balanced.
Context (cmp : Z -> Z -> Z).

Lemma insert_avl t k new : avl t -> avl (t_insert cmp t k new) /\ hgt t <= hgt (t_insert cmp t k new) <= hgt t + 1.
Proof.
  induction t as [|p k' l IHl r IHr h]; intros H; [by cbn|].
  destruct H as (-> & Hb & Hl & Hr). cbn [t_insert hgt].
  destruct (IHl Hl), (IHr Hr). case_match; [by apply grow_l|by apply grow_r].
Qed.

Lemma remove_rightmost_avl p k l r h :
  avl (T p k l r h) ->
  avl (t_remove_rightmost p k l r).1 /\
  hgt (T p k l r h) - 1 <= hgt (t_remove_rightmost p k l r).1 <= hgt (T p k l r h).
Proof.
  revert p k l h. induction r as [|q k' rl _ rr IH h']; intros p k l h (-> & Hb & Hl & Hr).
  - cbn in *. pose proof (hgt_nonneg l). split; [done|lia].
  - cbn [t_remove_rightmost]. destruct (IH q k' rl h' Hr) as [H1 H2].
    destruct (t_remove_rightmost q k' rl rr) as [r' m]. cbn [fst] in *.
    by apply (shrink_r p k l (T q k' rl rr h')).
Qed.

Lemma join_avl l r :
  avl l -> avl r -> -1 <= hgt l - hgt r <= 1 ->
  avl (t_join l r) /\ Z.max (hgt l) (hgt r) <= hgt (t_join l r) <= 1 + Z.max (hgt l) (hgt r).
Proof.
  destruct l as [|q k' ll lr h]; intros Hl Hr Hb.
  - cbn [t_join hgt] in *. pose proof (hgt_nonneg r). split; [done|lia].
  - cbn [t_join]. destruct (remove_rightmost_avl _ _ _ _ _ Hl) as [H1 H2].
    destruct (t_remove_rightmost q k' ll lr) as [l' [m km]]. cbn [fst] in *.
    destruct (shrink_l m km _ _ _ H1 Hr Hb H2) as [? ?]. split; [done|lia].
Qed.

Lemma remove_avl t k : avl t -> avl (t_remove cmp t k) /\ hgt t - 1 <= hgt (t_remove cmp t k) <= hgt t.
Proof.
  induction t as [|p k' l IHl r IHr h]; intros H; [by cbn|].
  destruct H as (-> & Hb & Hl & Hr). cbn [t_remove hgt].
  destruct (IHl Hl), (IHr Hr). repeat case_match.
  - destruct (join_avl l r) as [? ?]; [done..|]. split; [done|lia].
  - by apply shrink_l.
  - by apply shrink_r.
Qed.
End balanced.

(** ** Order *)

(** What POSIX asks of a comparison function. *)
Class Comparison (cmp : Z -> Z -> Z) := {
  cmp_antisym x y : Z.sgn (cmp y x) = - Z.sgn (cmp x y);
  cmp_trans x y z : cmp x y <= 0 -> cmp y z <= 0 -> cmp x z <= 0 }.

(** The keys are increasing. *)
Fixpoint increasing (cmp : Z -> Z -> Z) (l : list (Z * Z)) : Prop :=
  match l with
  | [] => True
  | a :: l => (forall b, b ∈ l -> cmp a.2 b.2 < 0) /\ increasing cmp l
  end.

Section order.
Context (cmp : Z -> Z -> Z) {HC : Comparison cmp}.

Lemma cmp_refl x : cmp x x = 0.
Proof. pose proof (cmp_antisym x x). lia. Qed.

Lemma cmp_flip x y : cmp x y < 0 <-> 0 < cmp y x.
Proof. pose proof (cmp_antisym x y). lia. Qed.

Lemma cmp_lt_le x y z : cmp x y < 0 -> cmp y z <= 0 -> cmp x z < 0.
Proof.
  intros H1 H2. pose proof (cmp_trans x y z). destruct (Z.eq_dec (cmp x z) 0) as [He|]; [|lia].
  pose proof (cmp_antisym x z). pose proof (cmp_trans y z x). pose proof (cmp_antisym x y). lia.
Qed.

Lemma cmp_le_lt x y z : cmp x y <= 0 -> cmp y z < 0 -> cmp x z < 0.
Proof.
  intros H1 H2. pose proof (cmp_trans x y z). destruct (Z.eq_dec (cmp x z) 0) as [He|]; [|lia].
  pose proof (cmp_antisym x z). pose proof (cmp_trans z x y). pose proof (cmp_antisym y z). lia.
Qed.

Lemma increasing_app l1 l2 :
  increasing cmp (l1 ++ l2) <->
  increasing cmp l1 /\ increasing cmp l2 /\ forall a b, a ∈ l1 -> b ∈ l2 -> cmp a.2 b.2 < 0.
Proof.
  induction l1 as [|c l1 IH]; cbn; [set_solver|]. rewrite IH. split.
  - intros (H1 & H2 & H3 & H4). split_and!; [|done|done|]; set_solver.
  - intros ((H1 & H2) & H3 & H4). split_and!; [|done|done|]; set_solver.
Qed.

Lemma increasing_node l p k r :
  increasing cmp (l ++ (p, k) :: r) <->
  increasing cmp l /\ increasing cmp r /\
  (forall a, a ∈ l -> cmp a.2 k < 0) /\ (forall a, a ∈ r -> cmp k a.2 < 0).
Proof.
  rewrite increasing_app. cbn. split.
  - intros (H1 & (H2 & H3) & H4). split_and!; try done. intros a Ha.
    exact (H4 a (p, k) Ha (list_elem_of_here _ _)).
  - intros (H1 & H2 & H3 & H4). split_and!; try done. intros a b Ha [->|Hb]%elem_of_cons; [by apply H3|].
    apply (cmp_lt_le _ k); [by apply H3|]. specialize (H4 b Hb). lia.
Qed.

Lemma find_spec t k :
  increasing cmp (nodes t) ->
  (exists p kp, (p, kp) ∈ nodes t /\ cmp k kp = 0 /\ t_find cmp t k = p) \/
  ((forall a, a ∈ nodes t -> cmp k a.2 <> 0) /\ t_find cmp t k = 0).
Proof using HC.
  induction t as [|p k' l IHl r IHr h]; cbn; intros H; [right; set_solver|].
  apply increasing_node in H as (Hl & Hr & H1 & H2). specialize (IHl Hl). specialize (IHr Hr).
  destruct (Z.eqb_spec (cmp k k') 0) as [He|Hne]; [left; exists p, k'; set_solver|].
  destruct (Z.ltb_spec (cmp k k') 0).
  - destruct IHl as [(q & kq & Hq & Hc & <-)|[Hn ->]]; [left; exists (t_find cmp l k), kq; set_solver|].
    right. split; [|done]. intros a. rewrite elem_of_app, elem_of_cons. intros [Ha|[->|Ha]]; [by apply Hn|done|].
    pose proof (cmp_lt_le k k' a.2). specialize (H2 a Ha). lia.
  - destruct IHr as [(q & kq & Hq & Hc & <-)|[Hn ->]]; [left; exists (t_find cmp r k), kq; set_solver|].
    right. split; [|done]. intros a. rewrite elem_of_app, elem_of_cons. intros [Ha|[->|Ha]]; [|done|by apply Hn].
    pose proof (cmp_lt_le a.2 k' k) as Hlt. pose proof (cmp_flip k' k) as [_ Hf]. pose proof (cmp_flip a.2 k) as [Hf' _].
    specialize (H1 a Ha). lia.
Qed.

(** Insertion puts the new node at its place among the others. *)
Lemma insert_nodes t k new :
  increasing cmp (nodes t) -> (forall a, a ∈ nodes t -> cmp k a.2 <> 0) ->
  exists l1 l2, nodes t = l1 ++ l2 /\ nodes (t_insert cmp t k new) = l1 ++ (new, k) :: l2 /\
    (forall a, a ∈ l1 -> cmp a.2 k < 0) /\ (forall a, a ∈ l2 -> cmp k a.2 < 0).
Proof using HC.
  induction t as [|p k' l IHl r IHr h]; cbn; intros H Hn; [exists [], []; set_solver|].
  apply increasing_node in H as (Hl & Hr & H1 & H2).
  assert (Hk : cmp k k' <> 0) by (apply (Hn (p, k')); set_solver).
  destruct (Z.ltb_spec (cmp k k') 0) as [Hlt|Hge].
  - destruct IHl as (l1 & l2 & E1 & E2 & L1 & L2); [done|set_solver|].
    exists l1, (l2 ++ (p, k') :: nodes r). autorewrite with avl. rewrite E1, E2, <- !app_assoc.
    split_and!; [done..|]. intros a. rewrite elem_of_app, elem_of_cons. intros [Ha|[->|Ha]]; [by apply L2|done|].
    apply (cmp_lt_le _ k'); [done|]. specialize (H2 a Ha). lia.
  - destruct IHr as (l1 & l2 & E1 & E2 & L1 & L2); [done|set_solver|].
    exists (nodes l ++ (p, k') :: l1), l2. autorewrite with avl. rewrite E1, E2, <- !app_assoc.
    split_and!; [done..| |done]. intros a. rewrite elem_of_app, elem_of_cons.
    assert (Hk' : cmp k' k < 0) by (apply cmp_flip; lia).
    intros [Ha|[->|Ha]]; [|done|by apply L1]. apply (cmp_lt_le _ k'); [by apply H1|lia].
Qed.

Lemma remove_rightmost_nodes p k l r :
  nodes (t_remove_rightmost p k l r).1 ++ [(t_remove_rightmost p k l r).2] = nodes l ++ (p, k) :: nodes r.
Proof using.
  clear HC. revert p k l. induction r as [|q k' rl _ rr IH h]; intros p k l; [done|].
  cbn [t_remove_rightmost nodes]. specialize (IH q k' rl).
  destruct (t_remove_rightmost q k' rl rr) as [r' m]. cbn [fst snd] in *.
  rewrite nodes_balance, <- app_assoc. cbn. by rewrite IH.
Qed.

Lemma join_nodes l r : nodes (t_join l r) = nodes l ++ nodes r.
Proof using.
  clear HC. destruct l as [|q k' ll lr h]; [done|]. cbn [t_join nodes].
  pose proof (remove_rightmost_nodes q k' ll lr) as H.
  destruct (t_remove_rightmost q k' ll lr) as [l' [m km]]. cbn [fst snd] in *.
  by rewrite nodes_balance, <- H, <- app_assoc.
Qed.

(** Removal takes out the node that [t_find] finds and leaves the others. *)
Lemma remove_nodes t k :
  increasing cmp (nodes t) -> 
  (exists l1 l2 p kp, nodes t = l1 ++ (p, kp) :: l2 /\ cmp k kp = 0 /\ t_find cmp t k = p /\
     nodes (t_remove cmp t k) = l1 ++ l2) \/
  ((forall a, a ∈ nodes t -> cmp k a.2 <> 0) /\ nodes (t_remove cmp t k) = nodes t).
Proof using HC.
  intros H. destruct (find_spec t k H) as [(p & kp & Hin & Hc & Hf)|[Hn _]].
  - left. induction t as [|q k' l IHl r IHr h]; cbn in *; [set_solver|].
    apply increasing_node in H as (Hl & Hr & H1 & H2).
    destruct (Z.eqb_spec (cmp k k') 0) as [He|Hne].
    { exists (nodes l), (nodes r), q, k'. by rewrite join_nodes. }
    apply elem_of_app in Hin. rewrite elem_of_cons in Hin.
    destruct (Z.ltb_spec (cmp k k') 0) as [Hlt|Hge].
    + destruct Hin as [Hin|[[= -> ->]|Hin]]; [|lia|].
      * destruct IHl as (l1 & l2 & q' & kq & E1 & E2 & E3 & E4); [done..|].
        exists l1, (l2 ++ (q, k') :: nodes r), q', kq. by rewrite nodes_balance, E1, E4, <- !app_assoc.
      * specialize (H2 _ Hin). pose proof (cmp_lt_le k k' kp). cbn in *. lia.
    + destruct Hin as [Hin|[[= -> ->]|Hin]]; [|lia|].
      * specialize (H1 _ Hin). cbn in *. pose proof (cmp_lt_le kp k' k) as Hl'.
        pose proof (cmp_flip k' k) as [_ Hf1]. pose proof (cmp_flip kp k) as [Hf2 _]. lia.
      * destruct IHr as (l1 & l2 & q' & kq & E1 & E2 & E3 & E4); [done..|].
        exists (nodes l ++ (q, k') :: l1), l2, q', kq. by rewrite nodes_balance, E1, E4, <- !app_assoc.
  - right. split; [done|]. clear H. induction t as [|q k' l IHl r IHr h]; [done|]. cbn in *.
    destruct (Z.eqb_spec (cmp k k') 0); [by exfalso; apply (Hn (q, k')); [set_solver|]|].
    case_match; rewrite nodes_balance; [rewrite IHl|rewrite IHr]; set_solver.
Qed.
End order.

(** ** Depth *)
Definition fib (n : nat) : Z := fst (Nat.iter n (fun p => (p.2, p.2 + p.1)) (0, 1)).

Lemma fib_SS n : fib (S (S n)) = fib (S n) + fib n.
Proof. done. Qed.

Lemma fib_mono n m : (n <= m)%nat -> fib n <= fib m.
Proof.
  assert (Hp : forall n, 0 <= fib n /\ 0 <= fib (S n)).
  { intros j. induction j as [|j [H1 H2]]; [done|]. rewrite fib_SS. lia. }
  intros Hnm. induction Hnm as [|m Hm IH]; [lia|]. destruct m as [|m]; [by assert (n = O) as -> by lia|]. rewrite fib_SS.
  pose proof (Hp m). lia.
Qed.

Lemma fib_48 : fib 48 = 4807526976.
Proof. by vm_compute. Qed.

Lemma avl_hgt_depth t : hgt t = Z.of_nat (depth t).
Proof. induction t as [|p k l IHl r IHr h]; cbn [hgt depth]; lia. Qed.

(** A balanced tree of depth [d] has at least as many nodes as a Fibonacci tree. *)
Lemma avl_nodes t : avl t -> fib (depth t + 2) <= Z.of_nat (length (nodes t)) + 1.
Proof.
  induction t as [|p k l IHl r IHr h]; [done|]. intros (_ & Hb & Al & Ar). specialize (IHl Al). specialize (IHr Ar).
  rewrite !avl_hgt_depth in Hb. cbn [depth nodes]. rewrite length_app. cbn [length].
  replace (S (depth l `max` depth r) + 2)%nat with (S (S (S (depth l `max` depth r)))) by lia.
  rewrite fib_SS. destruct (Nat.max_spec (depth l) (depth r)) as [[H1 ->]|[H1 ->]].
  - pose proof (fib_mono (S (depth r)) (depth l + 2)). replace (depth r + 2)%nat with (S (S (depth r))) in IHr by lia. lia.
  - pose proof (fib_mono (S (depth l)) (depth r + 2)). replace (depth l + 2)%nat with (S (S (depth l))) in IHl by lia. lia.
Qed.

Lemma avl_depth_45 t : avl t -> Z.of_nat (length (nodes t)) <= 2 ^ 32 -> (depth t <= 45)%nat.
Proof.
  intros Ha Hn. pose proof (avl_nodes t Ha). destruct (le_lt_dec (depth t) 45); [done|].
  pose proof (fib_mono 48 (depth t + 2)) as Hf. rewrite fib_48 in Hf. lia.
Qed.

(** [a] is the parent of [b]. *)
Fixpoint edge (t : tree) (a b : Z) : Prop :=
  match t with
  | E => False
  | T p _ l r _ => (a = p /\ (b = root l \/ b = root r)) \/ edge l a b \/ edge r a b
  end.

Section paths.
Context (cmp : Z -> Z -> Z).

Lemma parent_edge t k par :
  t_find cmp t k <> 0 ->
  t_find cmp t k = root t /\ t_parent cmp t k par = par \/ edge t (t_parent cmp t k par) (t_find cmp t k).
Proof.
  revert par. induction t as [|p k' l IHl r IHr h]; intros par; cbn; [done|].
  destruct (cmp k k' =? 0); [auto|]. destruct (cmp k k' <? 0); intros Hn.
  - destruct (IHl p Hn) as [[-> ->]|]; right; auto.
  - destruct (IHr p Hn) as [[-> ->]|]; right; auto.
Qed.

Lemma find_none t k : (forall a, a ∈ nodes t -> cmp k a.2 <> 0) -> t_find cmp t k = 0.
Proof.
  induction t as [|q k' l IHl r IHr h]; cbn; [done|]. intros Hn.
  rewrite (proj2 (Z.eqb_neq _ _)) by (apply (Hn (q, k')); set_solver).
  case_match; [apply IHl|apply IHr]; intros a Ha; apply Hn; set_solver.
Qed.

Lemma node_addr t p kp : (p, kp) ∈ nodes t -> p ∈ addrs t.
Proof. clear cmp. induction t as [|q k' l IHl r IHr h]; cbn; [set_solver|]. set_solver. Qed.

End paths.

Section main.
Context (cmp : Z -> Z -> Z) {HC : Comparison cmp}.

(** A key has at most one node. *)
Lemma find_unique t k p kp :
  increasing cmp (nodes t) -> (p, kp) ∈ nodes t -> cmp k kp = 0 -> t_find cmp t k = p.
Proof.
  induction t as [|q k' l IHl r IHr h]; cbn; [set_solver|]. intros H Hin Hc.
  apply increasing_node in H as (Hl & Hr & H1 & H2); [|done]. apply elem_of_app in Hin. rewrite elem_of_cons in Hin.
  pose proof (cmp_antisym k kp). 
  destruct Hin as [Hin|[[= -> ->]|Hin]].
  - specialize (H1 _ Hin). cbn in H1. pose proof (cmp_le_lt cmp k kp k'). 
    rewrite (proj2 (Z.eqb_neq _ _)), (proj2 (Z.ltb_lt _ _)) by lia. by apply IHl.
  - by rewrite Hc.
  - specialize (H2 _ Hin). cbn in H2. pose proof (cmp_lt_le cmp k' kp k).
    pose proof (cmp_antisym k k').
    rewrite (proj2 (Z.eqb_neq _ _)), (proj2 (Z.ltb_ge _ _)) by lia. by apply IHr.
Qed.

Lemma cmp_eq_trans x y z : cmp x y = 0 -> cmp x z = 0 -> cmp y z = 0.
Proof.
  intros H1 H2. pose proof (cmp_antisym x y). pose proof (cmp_antisym x z). pose proof (cmp_antisym y z).
  pose proof (cmp_trans y x z). pose proof (cmp_trans z x y). lia.
Qed.

Lemma increasing_inj l a b : increasing cmp l -> a ∈ l -> b ∈ l -> cmp a.2 b.2 = 0 -> a = b.
Proof.
  induction l as [|c l IH]; cbn [increasing]; [set_solver|]. intros [H1 H2] Ha Hb Hab.
  apply elem_of_cons in Ha as [->|Ha], Hb as [->|Hb]; [done| | |by apply IH].
  - specialize (H1 _ Hb). lia.
  - specialize (H1 _ Ha). pose proof (cmp_antisym a.2 c.2). lia.
Qed.
End main.
