(* ===== verification/Avl.v ===== *)
(** The search trees of src/musl-1.1.19/src/search: tsearch_avl.c and
    tdestroy.c, in three layers.

    - The code over a heap of nodes with 64-bit addresses, in a monad of state
      and failure that follows the C statements.  A pointer to a pointer
      ([struct node **]) is a [slot]: a field of a node, or the local variable
      [n] of [tdelete].  [None] is an access to an address that holds no node,
      a second release of a node, or a recursion deeper than the number of
      nodes; the theorems show that none of these happens.
    - The same operations as functions on trees ([t_insert], [t_remove], ...)
      with their correctness, in AvlTree.v.
    - [owns], which relates a heap to a tree, and the refinement lemmas.

    The comparison function is a parameter with the laws POSIX asks of it; what
    [malloc] returns is a parameter too: zero or the address of no node. *)
From S2P Require Import Prelude AvlTree.

(** ** The heap *)
Record node := Node { key : Z; left : Z; right : Z; height : Z }.

(** [var] is the variable [n] of [tdelete]. *)
Record st := St { heap : gmap Z node; var : Z }.

Definition M (A : Type) : Type := st -> option (A * st).
#[export] Instance M_ret : MRet M := fun A a s => Some (a, s).
#[export] Instance M_bind : MBind M := fun A B f m s => '(a, s) ← m s; f a s.
#[export] Instance M_fmap : FMap M := fun A B f m s => '(a, s) ← m s; Some (f a, s).

Definition fail {A} : M A := fun _ => None.
Definition get (p : Z) : M node := fun s => n ← heap s !! p; Some (n, s).
Definition put (p : Z) (n : node) : M unit := fun s => Some (tt, St (<[p := n]> (heap s)) (var s)).

Definition set_left (p v : Z) : M unit := n ← get p; put p (Node (key n) v (right n) (height n)).
Definition set_right (p v : Z) : M unit := n ← get p; put p (Node (key n) (left n) v (height n)).
Definition set_height (p v : Z) : M unit := n ← get p; put p (Node (key n) (left n) (right n) v).

Inductive slot := Var | Left (p : Z) | Right (p : Z).
Definition load (sl : slot) : M Z :=
  match sl with
  | Var => fun s => Some (var s, s)
  | Left p => left <$> get p
  | Right p => right <$> get p
  end.
Definition store (sl : slot) (v : Z) : M unit :=
  match sl with
  | Var => fun s => Some (tt, St (heap s) v)
  | Left p => set_left p v
  | Right p => set_right p v
  end.

(** [free] of a node, once. *)
Definition erase (p : Z) : M unit := fun s => Some (tt, St (delete p (heap s)) (var s)).
Definition free (p : Z) : M unit := get p;; erase p.

(** ** tsearch_avl.c *)
Definition height_of (p : Z) : M Z := if p =? 0 then mret 0 else height <$> get p.

Definition delta (n : Z) : M Z :=
  nd ← get n; a ← height_of (left nd); b ← height_of (right nd); mret (a - b).

(** [if (c && c->height > n->height) n->height = c->height;] *)
Definition raise_to (n c : Z) : M unit :=
  if c =? 0 then mret tt
  else
    h ← height <$> get c; h' ← height <$> get n;
    if h >? h' then set_height n h else mret tt.

Definition updateheight (n : Z) : M unit :=
  set_height n 0;;
  (c ← left <$> get n; raise_to n c);;
  (c ← right <$> get n; raise_to n c);;
  (h ← height <$> get n; set_height n (h + 1)).

Definition rotl (n : Z) : M Z :=
  r ← right <$> get n;
  (v ← left <$> get r; set_right n v);;
  set_left r n;;
  updateheight n;;
  updateheight r;;
  mret r.

Definition rotr (n : Z) : M Z :=
  l ← left <$> get n;
  (v ← right <$> get l; set_left n v);;
  set_right l n;;
  updateheight n;;
  updateheight l;;
  mret l.

Definition balance (n : Z) : M Z :=
  d ← delta n;
  if d <? -1 then
    (d' ← (r ← right <$> get n; delta r);
     if d' >? 0 then v ← (r ← right <$> get n; rotr r); set_right n v else mret tt);;
    rotl n
  else if d >? 1 then
    (d' ← (l ← left <$> get n; delta l);
     if d' <? 0 then v ← (l ← left <$> get n; rotl l); set_left n v else mret tt);;
    rotr n
  else
    updateheight n;; mret n.

Section code.
Context (cmp : Z -> Z -> Z).

Fixpoint find (fuel : nat) (n k : Z) : M Z :=
  match fuel with
  | O => fail
  | S fuel =>
      if n =? 0 then mret 0
      else
        nd ← get n;
        let c := cmp k (key nd) in
        if c =? 0 then mret n
        else if c <? 0 then find fuel (left nd) k
        else find fuel (right nd) k
  end.

(** [new] is what [malloc] returns.  The pair is the result and [*found]. *)
Fixpoint insert (fuel : nat) (n k new : Z) : M (Z * Z) :=
  match fuel with
  | O => fail
  | S fuel =>
      if n =? 0 then
        (if new =? 0 then mret tt else put new (Node k 0 0 1));;
        mret (new, new)
      else
        nd ← get n;
        let c := cmp k (key nd) in
        if c =? 0 then mret (0, n)
        else
          '(r, found) ← insert fuel (if c <? 0 then left nd else right nd) k new;
          if r =? 0 then mret (r, found)
          else
            (if c <? 0 then set_left n r else set_right n r);;
            r ← balance n;
            mret (r, found)
  end.

Fixpoint remove_rightmost (fuel : nat) (n : Z) (rightmost : slot) : M Z :=
  match fuel with
  | O => fail
  | S fuel =>
      r ← right <$> get n;
      if r =? 0 then
        store rightmost n;;
        left <$> get n
      else
        (v ← remove_rightmost fuel r rightmost; set_right n v);;
        balance n
  end.

(** The node [p] that the slot [sl] names is taken out of the tree (the code
    between the test [c == 0] and [free(r)]; [r] is [p] here). *)
Definition unlink (fuel : nat) (sl : slot) (p : Z) : M unit :=
  l ← left <$> get p;
  (if negb (l =? 0) then
     (v ← remove_rightmost fuel l sl; set_left p v);;
     (q ← load sl; v ← left <$> get p; set_left q v);;
     (q ← load sl; v ← right <$> get p; set_right q v);;
     (q ← load sl; v ← balance q; store sl v)
   else
     v ← right <$> get p; store sl v).

Fixpoint remove (fuel : nat) (n : slot) (k parent : Z) : M Z :=
  match fuel with
  | O => fail
  | S fuel =>
      p ← load n;
      if p =? 0 then mret 0
      else
        nd ← get p;
        let c := cmp k (key nd) in
        if c =? 0 then
          unlink fuel n p;;
          free p;;
          mret parent
        else
          parent ← (if c <? 0 then remove fuel (Left p) k p else remove fuel (Right p) k p);
          (if negb (parent =? 0) then q ← load n; v ← balance q; store n v else mret tt);;
          mret parent
  end.

(** A recursion goes down the tree, so one level per node is enough. *)
Definition depth_fuel (s : st) : nat := S (size (heap s)).

(** The root pointer [*rootp] is passed and returned. *)
Definition tdelete (k rootp : Z) (h : gmap Z node) : option (Z * Z * gmap Z node) :=
  '(ret, s) ← remove (depth_fuel (St h rootp)) Var k rootp (St h rootp);
  Some (ret, var s, heap s).

Definition tfind (k rootp : Z) (h : gmap Z node) : option Z :=
  fst <$> find (depth_fuel (St h 0)) rootp k (St h 0).

Definition tsearch (k new rootp : Z) (h : gmap Z node) : option (Z * Z * gmap Z node) :=
  '(update, ret, s) ← insert (depth_fuel (St h 0)) rootp k new (St h 0);
  Some (ret, if negb (update =? 0) then update else rootp, heap s).
End code.

(** The calls of [action] that [twalk] makes. *)
Inductive VISIT := preorder | postorder | endorder | leaf.

Fixpoint walk (fuel : nat) (r d : Z) : M (list (Z * VISIT * Z)) :=
  match fuel with
  | O => fail
  | S fuel =>
      if r =? 0 then mret []
      else
        nd ← get r;
        if (left nd =? 0) && (right nd =? 0) then mret [(r, leaf, d)]
        else
          a ← walk fuel (left nd) (d + 1);
          b ← walk fuel (right nd) (d + 1);
          mret ([(r, preorder, d)] ++ a ++ [(r, postorder, d)] ++ b ++ [(r, endorder, d)])
  end.

Definition twalk (root : Z) (h : gmap Z node) : option (list (Z * VISIT * Z)) :=
  fst <$> walk (depth_fuel (St h 0)) root 0 (St h 0).

(** tdestroy.c: the keys given to [freekey], in order. *)
Fixpoint tdestroy_ (fuel : nat) (r : Z) : M (list Z) :=
  match fuel with
  | O => fail
  | S fuel =>
      if r =? 0 then mret []
      else
        l ← left <$> get r; a ← tdestroy_ fuel l;
        q ← right <$> get r; b ← tdestroy_ fuel q;
        k ← key <$> get r;
        free r;;
        mret (a ++ b ++ [k])
  end.

Definition tdestroy (root : Z) (h : gmap Z node) : option (list Z * gmap Z node) :=
  '(ks, s) ← tdestroy_ (depth_fuel (St h 0)) root (St h 0); Some (ks, heap s).

(** ** A tree in the heap *)
Fixpoint owns (h : gmap Z node) (t : tree) : Prop :=
  match t with
  | E => True
  | T p k l r ht =>
      p <> 0 /\ h !! p = Some (Node k (root l) (root r) ht) /\
      p ∉ addrs l /\ p ∉ addrs r /\ addrs l ## addrs r /\ owns h l /\ owns h r
  end.

(** Nothing outside [A] changed. *)
Definition frame (A : gset Z) (s s' : st) : Prop :=
  (forall q, q ∉ A -> heap s' !! q = heap s !! q) /\ var s' = var s.

Lemma owns_frame h h' t : (forall q, q ∈ addrs t -> h' !! q = h !! q) -> owns h t -> owns h' t.
Proof.
  induction t as [|p k l IHl r IHr ht]; [done|]. cbn. intros Hf (H0 & H1 & H2 & H3 & H4 & H5 & H6).
  rewrite Hf by set_solver. split_and!; try done; [apply IHl|apply IHr]; set_solver.
Qed.

Lemma owns_insert h t q n : q ∉ addrs t -> owns h t -> owns (<[q := n]> h) t.
Proof. intros Hq. apply owns_frame. intros x Hx. apply lookup_insert_ne. set_solver. Qed.

Lemma owns_delete h t q : q ∉ addrs t -> owns h t -> owns (delete q h) t.
Proof. intros Hq. apply owns_frame. intros x Hx. apply lookup_delete_ne. set_solver. Qed.

Lemma owns_addr h t p : owns h t -> p ∈ addrs t -> is_Some (h !! p) /\ p <> 0.
Proof.
  induction t as [|q k l IHl r IHr ht]; cbn; [set_solver|]. intros (H0 & H1 & _ & _ & _ & Hl & Hr).
  rewrite !elem_of_union, elem_of_singleton. intros [->|[Hp|Hp]]; [by rewrite H1; eauto|auto..].
Qed.

Lemma owns_root0 h t : owns h t -> root t = 0 -> t = E.
Proof. by destruct t; [|intros [? _]]. Qed.

Lemma owns_root t : t = E \/ root t ∈ addrs t.
Proof. destruct t; cbn; [by left|right; set_solver]. Qed.

Lemma frame_refl A s : frame A s s.
Proof. by split. Qed.

Lemma frame_trans A B s1 s2 s3 : A ⊆ B -> frame A s1 s2 -> frame B s2 s3 -> frame B s1 s3.
Proof. intros HA [H1 H2] [H3 H4]. split; [|congruence]. intros q Hq. rewrite H3, H1; set_solver. Qed.

(** ** Steps of the code *)
Lemma bind_eq {A B} (m : M A) (f : A -> M B) s a s' : m s = Some (a, s') -> (m ≫= f) s = f a s'.
Proof. unfold mbind, M_bind. by intros ->. Qed.

Lemma fmap_eq {A B} (m : M A) (f : A -> B) s a s' : m s = Some (a, s') -> (f <$> m) s = Some (f a, s').
Proof. unfold fmap, M_fmap. by intros ->. Qed.

Lemma get_eq p s n : heap s !! p = Some n -> get p s = Some (n, s).
Proof. unfold get. by intros ->. Qed.

Lemma height_of_eq s t : owns (heap s) t -> height_of (root t) s = Some (stored t, s).
Proof.
  destruct t as [|p k l r h]; [done|]. intros (H0 & H1 & _). unfold height_of. cbn [root stored].
  rewrite (proj2 (Z.eqb_neq p 0)) by done. by rewrite (fmap_eq _ _ _ _ _ (get_eq _ _ _ H1)).
Qed.

Lemma delta_eq s p k l r h :
  heap s !! p = Some (Node k (root l) (root r) h) -> owns (heap s) l -> owns (heap s) r ->
  delta p s = Some (stored l - stored r, s).
Proof.
  intros Hp Hl Hr. unfold delta. rewrite (bind_eq _ _ _ _ _ (get_eq _ _ _ Hp)). cbn [left right].
  by rewrite (bind_eq _ _ _ _ _ (height_of_eq _ _ Hl)), (bind_eq _ _ _ _ _ (height_of_eq _ _ Hr)).
Qed.

Lemma set_height_eq s p n v :
  heap s !! p = Some n ->
  set_height p v s = Some (tt, St (<[p := Node (key n) (left n) (right n) v]> (heap s)) (var s)).
Proof. intros Hp. unfold set_height. by rewrite (bind_eq _ _ _ _ _ (get_eq _ _ _ Hp)). Qed.

Lemma set_left_eq s p n v :
  heap s !! p = Some n ->
  set_left p v s = Some (tt, St (<[p := Node (key n) v (right n) (height n)]> (heap s)) (var s)).
Proof. intros Hp. unfold set_left. by rewrite (bind_eq _ _ _ _ _ (get_eq _ _ _ Hp)). Qed.

Lemma set_right_eq s p n v :
  heap s !! p = Some n ->
  set_right p v s = Some (tt, St (<[p := Node (key n) (left n) v (height n)]> (heap s)) (var s)).
Proof. intros Hp. unfold set_right. by rewrite (bind_eq _ _ _ _ _ (get_eq _ _ _ Hp)). Qed.

(** Symbolic execution: look up the node, then evaluate the statement. *)
Ltac look := cbn [heap]; first [done | rewrite lookup_insert_eq; look | rewrite lookup_insert_ne by done; look ].
Ltac step_get := erewrite bind_eq by (apply fmap_eq, get_eq; look).
Ltac step lem := erewrite bind_eq by (eapply lem; look).

Lemma raise_to_eq s p n t :
  heap s !! p = Some n -> owns (heap s) t -> 0 <= height n ->
  raise_to p (root t) s =
    Some (tt, St (<[p := Node (key n) (left n) (right n) (Z.max (height n) (stored t))]> (heap s)) (var s)).
Proof.
  intros Hp Ht Hh. unfold raise_to. destruct t as [|q k l r h]; cbn [root stored].
  - rewrite Z.max_l by done. destruct s, n. cbn in *. by rewrite insert_id.
  - destruct Ht as (H0 & H1 & _). rewrite (proj2 (Z.eqb_neq q 0)) by done.
    erewrite bind_eq by (by apply fmap_eq, get_eq). erewrite bind_eq by (by apply fmap_eq, get_eq).
    cbn [height]. destruct (Z.gtb_spec h (height n)).
    + erewrite set_height_eq by done. by rewrite Z.max_r by lia.
    + rewrite Z.max_l by lia. destruct s, n. cbn in *. by rewrite insert_id.
Qed.

Lemma updateheight_eq s p k l r h :
  heap s !! p = Some (Node k (root l) (root r) h) -> owns (heap s) l -> owns (heap s) r ->
  p ∉ addrs l -> p ∉ addrs r ->
  updateheight p s = Some (tt, St (<[p := Node k (root l) (root r) (stored (mk p k l r))]> (heap s)) (var s)).
Proof.
  intros Hp Hl Hr Npl Npr. unfold updateheight.
  erewrite bind_eq by (by apply set_height_eq). cbn [key left right].
  assert (E1 : heap (St (<[p:=Node k (root l) (root r) 0]> (heap s)) (var s)) !! p = Some (Node k (root l) (root r) 0))
    by apply lookup_insert_eq.
  erewrite bind_eq by (erewrite bind_eq by (apply fmap_eq, get_eq, E1); cbn [left];
    apply (raise_to_eq _ _ _ l E1); [by apply owns_insert|done]).
  cbn [key left right height heap var]. rewrite insert_insert_eq.
  assert (E2 : heap (St (<[p:=Node k (root l) (root r) (Z.max 0 (stored l))]> (heap s)) (var s)) !! p
             = Some (Node k (root l) (root r) (Z.max 0 (stored l)))) by apply lookup_insert_eq.
  erewrite bind_eq by (erewrite bind_eq by (apply fmap_eq, get_eq, E2); cbn [right];
    apply (raise_to_eq _ _ _ r E2); [by apply owns_insert|cbn; lia]).
  cbn [key left right height heap var]. rewrite insert_insert_eq.
  erewrite bind_eq by (apply fmap_eq, get_eq; apply lookup_insert_eq).
  erewrite set_height_eq by (apply lookup_insert_eq). cbn [key left right height heap var].
  by rewrite insert_insert_eq.
Qed.

(** What a run of the code does: it returns the root of the tree [t'] and
    changes nodes of [A] only. *)
Definition becomes (A : gset Z) (s : st) (m : M Z) (t' : tree) : Prop :=
  exists s', m s = Some (root t', s') /\ owns (heap s') t' /\ frame A s s'.

Lemma addrs_mk p k l r : addrs (mk p k l r) = {[p]} ∪ (addrs l ∪ addrs r).
Proof. done. Qed.

Lemma addrs_rotl t : addrs (t_rotl t) = addrs t.
Proof. destruct t as [|p k l [|q k' rl rr h'] h]; [done..|]. cbn. set_solver. Qed.

Lemma addrs_rotr t : addrs (t_rotr t) = addrs t.
Proof. destruct t as [|p k [|q k' ll lr h'] r h]; [done..|]. cbn. set_solver. Qed.

Lemma addrs_balance p k l r : addrs (t_balance p k l r) = {[p]} ∪ (addrs l ∪ addrs r).
Proof.
  unfold t_balance. repeat case_match; rewrite ?addrs_rotl, ?addrs_rotr; cbn [addrs mk];
    by rewrite ?addrs_rotl, ?addrs_rotr.
Qed.
#[local] Hint Rewrite addrs_balance addrs_rotl addrs_rotr addrs_mk : avl.

Lemma frame_insert A h v p n : p ∈ A -> frame A (St h v) (St (<[p := n]> h) v).
Proof. intros Hp. split; [|done]. intros q Hq. apply lookup_insert_ne. set_solver. Qed.

(** Sets of addresses: facts about their parts, by rewriting. *)
Ltac sets_in := cbn [addrs mk t_rotl t_rotr] in *;
  rewrite ?not_elem_of_union, ?not_elem_of_singleton, ?disjoint_union_l, ?disjoint_union_r,
    ?disjoint_singleton_l, ?disjoint_singleton_r in *; destruct_and?.
Ltac sets := cbn [addrs mk t_rotl t_rotr];
  rewrite ?not_elem_of_union, ?not_elem_of_singleton, ?disjoint_union_l, ?disjoint_union_r,
    ?disjoint_singleton_l, ?disjoint_singleton_r; split_and?; (done || congruence).
Ltac own := repeat (apply owns_insert; [sets|]); done.

Lemma rotl_spec s p k l r h :
  owns (heap s) (T p k l r h) -> r <> E ->
  becomes (addrs (T p k l r h)) s (rotl p) (t_rotl (T p k l r h)).
Proof.
  destruct r as [|q k' rl rr h']; [done|]. intros Ho _. destruct s as [hp v]. cbn [owns root heap] in Ho.
  destruct Ho as (P0 & Hp & Pl & Pr & Plr & Hl & Q0 & Hq & Ql & Qr & Qlr & Hrl & Hrr). sets_in.
  assert (q <> p) by done.
  unfold becomes, rotl. step_get. cbn [right].
  erewrite bind_eq by (step_get; cbn [left]; by eapply set_right_eq). cbn [key left height heap var].
  step set_left_eq. cbn [key right height heap var].
  erewrite bind_eq by (apply (updateheight_eq _ p k l rl h); cbn [heap]; [look|own..|sets|sets]).
  cbn [heap var]. erewrite bind_eq.
  2:{ apply (updateheight_eq _ q k' (mk p k l rl) rr h'); cbn [heap]; [look| |own|sets|sets].
      cbn [owns mk]. split_and!; [done|look|sets|sets|sets|own|own]. }
  eexists. split; [reflexivity|]. cbn [heap var t_rotl]. split.
  - cbn [owns mk stored root]. split_and!; [done|look|sets|sets|sets|done|look|sets|sets|sets|own|own|own].
  - split; [|done]. cbn [heap]. intros x Hx. sets_in. by rewrite !lookup_insert_ne by done.
Qed.

Lemma rotr_spec s p k l r h :
  owns (heap s) (T p k l r h) -> l <> E ->
  becomes (addrs (T p k l r h)) s (rotr p) (t_rotr (T p k l r h)).
Proof.
  destruct l as [|q k' ll lr h']; [done|]. intros Ho _. destruct s as [hp v]. cbn [owns root heap] in Ho.
  destruct Ho as (P0 & Hp & Pl & Pr & Plr & (Q0 & Hq & Ql & Qr & Qlr & Hll & Hlr) & Hr). sets_in.
  assert (q <> p) by done.
  unfold becomes, rotr. step_get. cbn [left].
  erewrite bind_eq by (step_get; cbn [right]; by eapply set_left_eq). cbn [key right height heap var].
  step set_right_eq. cbn [key left height heap var].
  erewrite bind_eq by (apply (updateheight_eq _ p k lr r h); cbn [heap]; [look|own..|sets|sets]).
  cbn [heap var]. erewrite bind_eq.
  2:{ apply (updateheight_eq _ q k' ll (mk p k lr r) h'); cbn [heap]; [look|own| |sets|sets].
      cbn [owns mk]. split_and!; [done|look|sets|sets|sets|own|own]. }
  eexists. split; [reflexivity|]. cbn [heap var t_rotr]. split.
  - cbn [owns mk stored root]. split_and!; [done|look|sets|sets|sets|own|done|look|sets|sets|sets|own|own].
  - split; [|done]. cbn [heap]. intros x Hx. sets_in. by rewrite !lookup_insert_ne by done.
Qed.

Lemma replace_right A s p k l r h m r' :
  owns (heap s) (T p k l r h) -> becomes A s m r' -> addrs r' ⊆ A -> A ## addrs l -> p ∉ A ->
  exists s', (v ← m; set_right p v) s = Some (tt, s') /\
    owns (heap s') (T p k l r' h) /\ frame ({[p]} ∪ A) s s'.
Proof.
  intros (P0 & Hp & Pl & Pr & Plr & Hl & Hr) (s1 & E & Ho & [F1 F2]) Hsub Hd HpA.
  assert (Hp1 : heap s1 !! p = heap s !! p) by by apply F1.
  erewrite bind_eq by exact E. erewrite set_right_eq by (rewrite Hp1; exact Hp).
  eexists. split; [reflexivity|]. cbn [key left height heap var]. split.
  - cbn [owns]. split_and!; [done|look|done|set_solver|set_solver| |apply owns_insert; [set_solver|done]].
    apply owns_insert; [done|]. apply (owns_frame (heap s)); [|done]. intros q Hq. apply F1. set_solver.
  - split; [|done]. intros q Hq. cbn [heap]. rewrite lookup_insert_ne by set_solver. apply F1. set_solver.
Qed.

Lemma replace_left A s p k l r h m l' :
  owns (heap s) (T p k l r h) -> becomes A s m l' -> addrs l' ⊆ A -> A ## addrs r -> p ∉ A ->
  exists s', (v ← m; set_left p v) s = Some (tt, s') /\
    owns (heap s') (T p k l' r h) /\ frame ({[p]} ∪ A) s s'.
Proof.
  intros (P0 & Hp & Pl & Pr & Plr & Hl & Hr) (s1 & E & Ho & [F1 F2]) Hsub Hd HpA.
  assert (Hp1 : heap s1 !! p = heap s !! p) by by apply F1.
  erewrite bind_eq by exact E. erewrite set_left_eq by (rewrite Hp1; exact Hp).
  eexists. split; [reflexivity|]. cbn [key right height heap var]. split.
  - cbn [owns]. split_and!; [done|look|set_solver|done|set_solver|apply owns_insert; [set_solver|done]|].
    apply owns_insert; [done|]. apply (owns_frame (heap s)); [|done]. intros q Hq. apply F1. set_solver.
  - split; [|done]. intros q Hq. cbn [heap]. rewrite lookup_insert_ne by set_solver. apply F1. set_solver.
Qed.

Lemma bind_becomes {A} F B s s1 (m : M A) a f t' :
  m s = Some (a, s1) -> frame F s s1 -> F ⊆ B -> becomes B s1 (f a) t' -> becomes B s (m ≫= f) t'.
Proof.
  intros E HF HFB (s2 & E2 & Ho & HF'). exists s2. rewrite (bind_eq _ _ _ _ _ E).
  split_and!; [done..|]. by apply (frame_trans F _ _ s1).
Qed.

(** The inner rotation of [balance], when the right subtree leans left. *)
Lemma fix_right s p k l r h :
  owns (heap s) (T p k l r h) -> avl r -> r <> E ->
  exists s1,
    (d' ← (r ← right <$> get p; delta r);
     if d' >? 0 then v ← (r ← right <$> get p; rotr r); set_right p v else mret tt) s = Some (tt, s1) /\
    owns (heap s1) (T p k l (if skew r >? 0 then t_rotr r else r) h) /\ frame (addrs (T p k l r h)) s s1.
Proof.
  intros Ho Ar Hr. pose proof Ho as (P0 & Hp & Pl & Pr & Plr & Hl & Hor).
  destruct r as [|q k' rl rr h']; [done|]. destruct Ar as (_ & Hb & Al & Arr).
  pose proof Hor as (Q0 & Hq & _ & _ & _ & Hrl & Hrr).
  erewrite bind_eq by (erewrite bind_eq by (by apply fmap_eq, get_eq); by eapply delta_eq).
  cbn [skew]. destruct (Z.gtb_spec (stored rl - stored rr) 0) as [Hgt|Hle].
  - destruct (replace_right (addrs (T q k' rl rr h')) s p k l _ h
      (r ← right <$> get p; rotr r) (t_rotr (T q k' rl rr h')) Ho)
      as (s1 & E1 & O1 & F1); [|by rewrite addrs_rotr|done|done|].
    + eapply (bind_becomes ∅); [by apply fmap_eq, get_eq|apply frame_refl|set_solver|].
      apply rotr_spec; [exact Hor|]. intros ->. rewrite (avl_stored rr) in Hgt by done.
      pose proof (hgt_nonneg rr). cbn in Hgt. lia.
    + exists s1. split_and!; [done..|]. destruct F1 as [F1 F2]. split; [|done].
      intros x Hx. apply F1. set_solver.
  - exists s. split_and!; [done..|apply frame_refl].
Qed.

Lemma fix_left s p k l r h :
  owns (heap s) (T p k l r h) -> avl l -> l <> E ->
  exists s1,
    (d' ← (l ← left <$> get p; delta l);
     if d' <? 0 then v ← (l ← left <$> get p; rotl l); set_left p v else mret tt) s = Some (tt, s1) /\
    owns (heap s1) (T p k (if skew l <? 0 then t_rotl l else l) r h) /\ frame (addrs (T p k l r h)) s s1.
Proof.
  intros Ho Al Hl. pose proof Ho as (P0 & Hp & Pl & Pr & Plr & Hol & Hr).
  destruct l as [|q k' ll lr h']; [done|]. destruct Al as (_ & Hb & Al & Alr).
  pose proof Hol as (Q0 & Hq & _ & _ & _ & Hll & Hlr).
  erewrite bind_eq by (erewrite bind_eq by (by apply fmap_eq, get_eq); by eapply delta_eq).
  cbn [skew]. destruct (Z.ltb_spec (stored ll - stored lr) 0) as [Hlt|Hge].
  - destruct (replace_left (addrs (T q k' ll lr h')) s p k _ r h
      (l ← left <$> get p; rotl l) (t_rotl (T q k' ll lr h')) Ho)
      as (s1 & E1 & O1 & F1); [|by rewrite addrs_rotl|done|done|].
    + eapply (bind_becomes ∅); [by apply fmap_eq, get_eq|apply frame_refl|set_solver|].
      apply rotl_spec; [exact Hol|]. intros ->. rewrite (avl_stored ll) in Hlt by done.
      pose proof (hgt_nonneg ll). cbn in Hlt. lia.
    + exists s1. split_and!; [done..|]. destruct F1 as [F1 F2]. split; [|done].
      intros x Hx. apply F1. set_solver.
  - exists s. split_and!; [done..|apply frame_refl].
Qed.

Lemma balance_spec s p k l r h :
  owns (heap s) (T p k l r h) -> avl l -> avl r ->
  becomes (addrs (T p k l r h)) s (balance p) (t_balance p k l r).
Proof.
  intros Ho Al Ar. pose proof Ho as (P0 & Hp & Pl & Pr & Plr & Hl & Hr).
  unfold balance, t_balance. pose proof (hgt_nonneg l). pose proof (hgt_nonneg r).
  eapply (bind_becomes ∅); [by eapply delta_eq|apply frame_refl|set_solver|].
  pose proof (avl_stored l Al) as Sl. pose proof (avl_stored r Ar) as Sr.
  destruct (Z.ltb_spec (stored l - stored r) (-1)) as [Hlt|Hge].
  - assert (Hne : r <> E) by (intros ->; cbn in Sr, Hlt; lia).
    destruct (fix_right s p k l r h Ho Ar Hne) as (s1 & E1 & O1 & F1).
    eapply bind_becomes; [exact E1|exact F1|reflexivity|].
    set (r' := if skew r >? 0 then t_rotr r else r) in *.
    assert (Hr' : r' <> E).
    { subst r'. destruct r as [|q k' [|? ? ? ? ?] rr h']; [done|by case_match..]. }
    assert (Ha : addrs r' = addrs r) by (subst r'; case_match; [apply addrs_rotr|done]).
    destruct (rotl_spec s1 p k l r' h O1 Hr') as (s2 & E2 & O2 & F2).
    exists s2. destruct r' as [|q k' rl rr h'] eqn:Er'; [done|]. split_and!; [exact E2|exact O2|].
    replace (addrs (T p k l r h)) with ({[p]} ∪ (addrs l ∪ addrs (T q k' rl rr h'))) by by rewrite Ha.
    exact F2.
  - destruct (Z.gtb_spec (stored l - stored r) 1) as [Hgt|Hle].
    + assert (Hne : l <> E) by (intros ->; cbn in Sl, Hgt; lia).
      destruct (fix_left s p k l r h Ho Al Hne) as (s1 & E1 & O1 & F1).
      eapply bind_becomes; [exact E1|exact F1|reflexivity|].
      set (l' := if skew l <? 0 then t_rotl l else l) in *.
      assert (Hl' : l' <> E).
      { subst l'. destruct l as [|q k' ll [|? ? ? ? ?] h']; [done|by case_match..]. }
      assert (Ha : addrs l' = addrs l) by (subst l'; case_match; [apply addrs_rotl|done]).
      destruct (rotr_spec s1 p k l' r h O1 Hl') as (s2 & E2 & O2 & F2).
      exists s2. destruct l' as [|q k' ll lr h'] eqn:El'; [done|]. split_and!; [exact E2|exact O2|].
      replace (addrs (T p k l r h)) with ({[p]} ∪ (addrs (T q k' ll lr h') ∪ addrs r)) by by rewrite Ha.
      exact F2.
    + eexists. split.
      { rewrite (bind_eq _ _ _ _ _ (updateheight_eq _ _ _ _ _ _ Hp Hl Hr Pl Pr)). reflexivity. }
      cbn [heap var]. split.
      * cbn [owns mk stored]. split_and!; [done|look|done..|own|own].
      * destruct s. apply frame_insert. set_solver.
Qed.
