(* ===== verification/AvlRefine.v ===== *)
(** The recursive functions of tsearch_avl.c (modelled in Avl.v) refine those
    on trees (AvlTree.v), for any heap that holds a balanced tree and any fuel
    above its depth. *)
From S2P Require Import Prelude AvlTree Avl.

(** ** Refinement of the operations *)
Lemma balance_ne p k l r : t_balance p k l r <> E.
Proof. intros H. pose proof (nodes_balance p k l r) as Hn. rewrite H in Hn. by destruct (nodes l). Qed.

Lemma root_ne h t : owns h t -> t <> E -> root t =? 0 = false.
Proof. intros Ho Hn. apply Z.eqb_neq. intros H0. by apply Hn, (owns_root0 h). Qed.

Section refine.
Context (cmp : Z -> Z -> Z).

Lemma insert_ne t k new : t_insert cmp t k new <> E.
Proof. destruct t; cbn; [done|]. case_match; apply balance_ne. Qed.

Lemma insert_addrs t k new : addrs (t_insert cmp t k new) ⊆ {[new]} ∪ addrs t.
Proof.
  induction t as [|p k' l IHl r IHr h]; cbn [t_insert addrs]; [set_solver|].
  case_match; rewrite addrs_balance; set_solver.
Qed.

Lemma find_eq fuel s t k :
  owns (heap s) t -> (depth t < fuel)%nat -> find cmp fuel (root t) k s = Some (t_find cmp t k, s).
Proof.
  revert fuel. induction t as [|p k' l IHl r IHr h]; intros [|fuel] Ho Hf; cbn in Hf; try lia; [done|].
  destruct Ho as (P0 & Hp & _ & _ & _ & Hl & Hr). cbn [find root t_find].
  rewrite (proj2 (Z.eqb_neq p 0)) by done. erewrite bind_eq by (by apply get_eq). cbn [key left right].
  destruct (cmp k k' =? 0); [done|]. destruct (cmp k k' <? 0); [apply IHl|apply IHr]; (done || lia).
Qed.

(** A new subtree is linked into its parent, which is rebalanced. *)
Lemma graft_left B s s1 p k l l' r h :
  owns (heap s) (T p k l r h) -> owns (heap s1) l' -> frame B s s1 ->
  addrs l' ⊆ B -> B ## addrs r -> p ∉ B -> avl l' -> avl r ->
  exists s2 s3, set_left p (root l') s1 = Some (tt, s2) /\
    balance p s2 = Some (root (t_balance p k l' r), s3) /\
    owns (heap s3) (t_balance p k l' r) /\ frame ({[p]} ∪ (B ∪ addrs r)) s s3.
Proof.
  intros Ho Ho1 HF Hsub Hd Hp Al Ar.
  destruct (replace_left B s p k l r h (fun _ => Some (root l', s1)) l' Ho) as (s2 & E2 & O2 & F2);
    [by exists s1|done..|].
  destruct (balance_spec s2 p k l' r _ O2) as (s3 & E3 & O3 & F3); [done..|].
  exists s2, s3. split_and!; [exact E2|exact E3|exact O3|].
  apply (frame_trans ({[p]} ∪ B) _ _ s2); [set_solver|done|].
  destruct F3 as [F3 F4]. split; [|done]. intros q Hq. apply F3. cbn [addrs]. set_solver.
Qed.

Lemma graft_right B s s1 p k l r r' h :
  owns (heap s) (T p k l r h) -> owns (heap s1) r' -> frame B s s1 ->
  addrs r' ⊆ B -> B ## addrs l -> p ∉ B -> avl l -> avl r' ->
  exists s2 s3, set_right p (root r') s1 = Some (tt, s2) /\
    balance p s2 = Some (root (t_balance p k l r'), s3) /\
    owns (heap s3) (t_balance p k l r') /\ frame ({[p]} ∪ (addrs l ∪ B)) s s3.
Proof.
  intros Ho Ho1 HF Hsub Hd Hp Al Ar.
  destruct (replace_right B s p k l r h (fun _ => Some (root r', s1)) r' Ho) as (s2 & E2 & O2 & F2);
    [by exists s1|done..|].
  destruct (balance_spec s2 p k l r' _ O2) as (s3 & E3 & O3 & F3); [done..|].
  exists s2, s3. split_and!; [exact E2|exact E3|exact O3|].
  apply (frame_trans ({[p]} ∪ B) _ _ s2); [set_solver|done|].
  destruct F3 as [F3 F4]. split; [|done]. intros q Hq. apply F3. cbn [addrs]. set_solver.
Qed.

Lemma owns_fresh h t q : owns h t -> h !! q = None -> q ∉ addrs t.
Proof. intros Ho Hq Hin. apply (owns_addr _ _ _ Ho) in Hin as [[? ?] _]. congruence. Qed.

Lemma frame_weaken A B s s' : A ⊆ B -> frame A s s' -> frame B s s'.
Proof. intros HA [H1 H2]. split; [|done]. intros q Hq. apply H1. set_solver. Qed.

Lemma insert_spec fuel s t k new :
  owns (heap s) t -> avl t -> (depth t < fuel)%nat -> heap s !! new = None ->
  (t_find cmp t k <> 0 -> insert cmp fuel (root t) k new s = Some ((0, t_find cmp t k), s)) /\
  (t_find cmp t k = 0 -> new = 0 -> insert cmp fuel (root t) k new s = Some ((0, 0), s)) /\
  (t_find cmp t k = 0 -> new <> 0 ->
    exists s', insert cmp fuel (root t) k new s = Some ((root (t_insert cmp t k new), new), s') /\
      owns (heap s') (t_insert cmp t k new) /\ frame ({[new]} ∪ addrs t) s s').
Proof.
  revert fuel. induction t as [|p k' l IHl r IHr h]; intros [|fuel] Ho Ha Hf Hnew; cbn in Hf; try lia.
  - cbn. split_and!; [done| |].
    + intros _ ->. reflexivity.
    + intros _ Hn. unfold insert. cbn [Z.eqb]. rewrite (proj2 (Z.eqb_neq new 0)) by done.
      eexists. split; [reflexivity|]. cbn [heap]. split.
      * split_and!; [done|apply lookup_insert_eq|set_solver..|done|done].
      * destruct s. apply frame_insert. set_solver.
  - pose proof Ho as (P0 & Hp & Pl & Pr & Plr & Hl & Hr). destruct Ha as (_ & Hb & Al & Ar).
    assert (Hpn : new <> p) by (intros ->; congruence).
    pose proof (owns_fresh _ _ _ Hl Hnew) as Hnl. pose proof (owns_fresh _ _ _ Hr Hnew) as Hnr.
    cbn [insert root t_find t_insert]. rewrite (proj2 (Z.eqb_neq p 0)) by done.
    erewrite bind_eq by (by apply get_eq). cbn [key left right].
    destruct (Z.eqb_spec (cmp k k') 0) as [He|Hne]; [done|].
    destruct (Z.ltb_spec (cmp k k') 0) as [Hlt|Hge].
    + destruct (IHl fuel Hl Al) as (I1 & I2 & I3); [lia|done|]. split_and!.
      * intros Hc. by erewrite bind_eq by (by apply I1).
      * intros Hc Hn. by erewrite bind_eq by (by apply I2).
      * intros Hc Hn. destruct (I3 Hc Hn) as (s1 & E1 & O1 & F1).
        destruct (graft_left _ s s1 p k' l (t_insert cmp l k new) r h Ho O1 F1) as (s2 & s3 & E2 & E3 & O3 & F3);
          [apply insert_addrs|set_solver|set_solver|by apply insert_avl|done|].
        erewrite bind_eq by exact E1. cbv beta iota. rewrite (root_ne _ _ O1) by apply insert_ne.
        erewrite bind_eq by exact E2. erewrite bind_eq by exact E3. exists s3. split_and!; [done..|].
        eapply frame_weaken; [|exact F3]. cbn [addrs]. set_solver.
    + destruct (IHr fuel Hr Ar) as (I1 & I2 & I3); [lia|done|]. split_and!.
      * intros Hc. by erewrite bind_eq by (by apply I1).
      * intros Hc Hn. by erewrite bind_eq by (by apply I2).
      * intros Hc Hn. destruct (I3 Hc Hn) as (s1 & E1 & O1 & F1).
        destruct (graft_right _ s s1 p k' l r (t_insert cmp r k new) h Ho O1 F1) as (s2 & s3 & E2 & E3 & O3 & F3);
          [apply insert_addrs|set_solver|set_solver|done|by apply insert_avl|].
        erewrite bind_eq by exact E1. cbv beta iota. rewrite (root_ne _ _ O1) by apply insert_ne.
        erewrite bind_eq by exact E2. erewrite bind_eq by exact E3. exists s3. split_and!; [done..|].
        eapply frame_weaken; [|exact F3]. cbn [addrs]. set_solver.
Qed.

(** Slots. *)
Definition slot_at (sl : slot) : gset Z := match sl with Var => ∅ | Left p | Right p => {[p]} end.
Definition slot_ok (s : st) (sl : slot) : Prop :=
  match sl with Var => True | Left p | Right p => is_Some (heap s !! p) end.
Definition slot_get (sl : slot) (s : st) : Z :=
  match sl with
  | Var => var s
  | Left p => from_option left 0 (heap s !! p)
  | Right p => from_option right 0 (heap s !! p)
  end.
Definition slot_set (sl : slot) (v : Z) (s : st) : st :=
  match sl with
  | Var => St (heap s) v
  | Left p => St (alter (fun n => Node (key n) v (right n) (height n)) p (heap s)) (var s)
  | Right p => St (alter (fun n => Node (key n) (left n) v (height n)) p (heap s)) (var s)
  end.

Lemma load_eq s sl : slot_ok s sl -> load sl s = Some (slot_get sl s, s).
Proof.
  destruct sl as [|p|p]; cbn; [done|..]; intros [n Hn]; rewrite Hn; cbn;
    by apply (fmap_eq (get p)), get_eq.
Qed.

Lemma alter_insert (f : node -> node) p (h : gmap Z node) n : h !! p = Some n -> alter f p h = <[p := f n]> h.
Proof.
  intros Hp. apply map_eq. intros q. destruct (decide (q = p)) as [->|].
  - by rewrite lookup_alter_eq, Hp, lookup_insert_eq.
  - by rewrite lookup_alter_ne, lookup_insert_ne.
Qed.

Lemma store_eq s sl v : slot_ok s sl -> store sl v s = Some (tt, slot_set sl v s).
Proof.
  destruct sl as [|p|p]; cbn [slot_ok store slot_set]; [done|..]; intros [n Hn];
    rewrite (alter_insert _ _ _ _ Hn); [by rewrite (set_left_eq _ _ n)|by rewrite (set_right_eq _ _ n)].
Qed.

Lemma slot_set_ne sl v s q : q ∉ slot_at sl -> heap (slot_set sl v s) !! q = heap s !! q.
Proof. destruct sl as [|p|p]; cbn; [done|..]; intros Hq; apply lookup_alter_ne; set_solver. Qed.

Lemma slot_set_ok sl sl' v s : slot_ok s sl -> slot_ok (slot_set sl' v s) sl.
Proof.
  destruct sl as [|p|p], sl' as [|q|q]; cbn [slot_ok slot_set heap]; try done; intros [n Hn];
    (destruct (decide (q = p)) as [->|]; [rewrite lookup_alter_eq, Hn|rewrite lookup_alter_ne, Hn by done]; eauto).
Qed.

Lemma slot_get_set sl v s : slot_ok s sl -> slot_get sl (slot_set sl v s) = v.
Proof. destruct sl as [|p|p]; cbn; [done|..]; intros [n Hn]; by rewrite lookup_alter_eq, Hn. Qed.

Lemma slot_set_set sl v w s : slot_set sl v (slot_set sl w s) = slot_set sl v s.
Proof. destruct sl; cbn; [done|..]; f_equal; rewrite alter_alter_eq; by apply alter_ext. Qed.

Lemma slot_frame A sl s s' :
  frame A s s' -> slot_at sl ## A -> (slot_ok s sl -> slot_ok s' sl) /\ slot_get sl s' = slot_get sl s.
Proof.
  intros [F1 F2] Hd. destruct sl as [|p|p]; cbn in *; [done|..]; rewrite F1 by set_solver; done.
Qed.

Lemma slot_set_frame A sl v s s' :
  frame A s s' -> slot_at sl ## A -> frame A (slot_set sl v s) (slot_set sl v s').
Proof.
  intros [F1 F2] Hd. destruct sl as [|p|p]; (split; [|done]); intros q Hq; cbn; [by apply F1|..];
    rewrite !lookup_alter; case_match; subst; by rewrite F1.
Qed.

Lemma slot_set_owns sl v s t : slot_at sl ## addrs t -> owns (heap s) t -> owns (heap (slot_set sl v s)) t.
Proof. intros Hd. apply owns_frame. intros q Hq. apply slot_set_ne. set_solver. Qed.

Lemma frame_owns A s s' t : frame A s s' -> A ## addrs t -> owns (heap s) t -> owns (heap s') t.
Proof. intros [F _] Hd. apply owns_frame. intros q Hq. apply F. set_solver. Qed.

(** Linking a subtree to a node and rebalancing. *)
Lemma link_right s p k l r x h :
  p <> 0 -> heap s !! p = Some (Node k (root l) x h) -> owns (heap s) l -> owns (heap s) r ->
  p ∉ addrs l -> p ∉ addrs r -> addrs l ## addrs r -> avl l -> avl r ->
  exists s2 s3, set_right p (root r) s = Some (tt, s2) /\
    balance p s2 = Some (root (t_balance p k l r), s3) /\
    owns (heap s3) (t_balance p k l r) /\ frame ({[p]} ∪ (addrs l ∪ addrs r)) s s3.
Proof.
  intros P0 Hp Hl Hr Pl Pr Plr Al Ar.
  assert (Ho : owns (heap (St (<[p := Node k (root l) (root r) h]> (heap s)) (var s))) (T p k l r h)).
  { cbn [owns heap]. split_and!; [done|look|done..|own|own]. }
  destruct (balance_spec _ p k l r h Ho) as (s3 & E3 & O3 & F3); [done..|].
  eexists _, s3. split_and!; [apply (set_right_eq _ _ _ _ Hp)|exact E3|exact O3|].
  apply (frame_trans {[p]} _ _ (St (<[p := Node k (root l) (root r) h]> (heap s)) (var s)));
    [set_solver| |exact F3]. destruct s. apply frame_insert. set_solver.
Qed.

Lemma remove_rightmost_addrs p k l r :
  addrs (t_remove_rightmost p k l r).1 ∪ {[(t_remove_rightmost p k l r).2.1]} = {[p]} ∪ (addrs l ∪ addrs r).
Proof.
  revert p k l. induction r as [|q k' rl _ rr IH h]; intros p k l; [cbn; set_solver|].
  cbn [t_remove_rightmost addrs]. specialize (IH q k' rl).
  destruct (t_remove_rightmost q k' rl rr) as [r' m]. cbn [fst snd] in *. rewrite addrs_balance.
  rewrite <- IH. set_solver.
Qed.

Lemma remove_rightmost_spec fuel s p k l r h sl :
  owns (heap s) (T p k l r h) -> avl (T p k l r h) -> slot_ok s sl -> slot_at sl ## addrs (T p k l r h) ->
  (depth (T p k l r h) < fuel)%nat ->
  exists s', let '(t1, (m, km)) := t_remove_rightmost p k l r in
    remove_rightmost fuel p sl s = Some (root t1, s') /\ owns (heap s') t1 /\
    frame (addrs (T p k l r h)) (slot_set sl m s) s' /\ m ∉ addrs t1 /\
    exists n, heap s' !! m = Some n /\ key n = km.
Proof.
  revert fuel s p k l h. induction r as [|q k' rl _ rr IH h']; intros [|fuel] s p k l h Ho Ha Hs Hd Hf;
    cbn [depth] in Hf; try lia; pose proof Ho as (P0 & Hp & Pl & Pr & Plr & Hl & Hr).
  - cbn [remove_rightmost t_remove_rightmost]. exists (slot_set sl p s).
    erewrite bind_eq by (by apply fmap_eq, get_eq). cbn [right root Z.eqb].
    erewrite bind_eq by (by apply store_eq).
    assert (Hp' : heap (slot_set sl p s) !! p = Some (Node k (root l) 0 h)).
    { rewrite slot_set_ne; [done|]. cbn [addrs] in Hd. set_solver. }
    split_and!; [by erewrite fmap_eq by by apply get_eq| |apply frame_refl|done|by eauto].
    apply slot_set_owns; [|done]. cbn [addrs] in Hd. set_solver.
  - destruct Ha as (_ & Hb & Al & Ar).
    destruct (IH fuel s q k' rl h' Hr Ar Hs) as [s1 H1]; [cbn [addrs] in *; set_solver|cbn [depth]; lia|].
    cbn [remove_rightmost t_remove_rightmost].
    pose proof (remove_rightmost_addrs q k' rl rr) as Hadd.
    pose proof (remove_rightmost_avl q k' rl rr h' Ar) as [Ar1 _].
    set (tq := T q k' rl rr h') in *.
    assert (Htq : addrs tq = {[q]} ∪ (addrs rl ∪ addrs rr)) by done. rewrite <- Htq in Hadd.
    destruct (t_remove_rightmost q k' rl rr) as [r1 [m km]]. cbn [fst snd] in *.
    destruct H1 as (E1 & O1 & F1 & Nm & n & Hm & Hk). cbn [addrs] in Hd.
    assert (Hp1 : heap s1 !! p = Some (Node k (root l) (root tq) h)).
    { destruct F1 as [F1 _]. rewrite F1, slot_set_ne; [done|set_solver|done]. }
    assert (Hl1 : owns (heap s1) l).
    { apply (frame_owns _ _ _ _ F1); [set_solver|]. apply slot_set_owns; [set_solver|done]. }
    destruct (link_right s1 p k l r1 (root tq) h P0 Hp1 Hl1 O1) as (s2 & s3 & E2 & E3 & O3 & F3);
      [done|set_solver|set_solver|done..|].
    exists s3. erewrite bind_eq by (by apply fmap_eq, get_eq). cbn [right].
    change (root tq) with q. rewrite (proj2 (Z.eqb_neq q 0)) by apply Hr.
    split_and!.
    + erewrite bind_eq by (erewrite bind_eq by exact E1; exact E2). exact E3.
    + exact O3.
    + apply (frame_trans (addrs tq) _ _ s1); [cbn [addrs]; set_solver|exact F1|].
      eapply frame_weaken; [|exact F3]. cbn [addrs]. set_solver.
    + rewrite addrs_balance. set_solver.
    + exists n. destruct F3 as [F3 _]. rewrite F3; [done|]. set_solver.
Qed.

Lemma join_addrs l r : addrs (t_join l r) = addrs l ∪ addrs r.
Proof.
  destruct l as [|q k' ll lr h]; [cbn; set_solver|]. cbn [t_join addrs].
  pose proof (remove_rightmost_addrs q k' ll lr) as Hadd.
  destruct (t_remove_rightmost q k' ll lr) as [l' [m km]]. cbn [fst snd] in *.
  rewrite addrs_balance, <- Hadd. set_solver.
Qed.

Lemma find_addr t k : t_find cmp t k <> 0 -> t_find cmp t k ∈ addrs t.
Proof.
  induction t as [|p k' l IHl r IHr h]; cbn; [done|]. repeat case_match; [set_solver|..]; intros Hn.
  - specialize (IHl Hn). set_solver.
  - specialize (IHr Hn). set_solver.
Qed.

Lemma remove_addrs h t k :
  owns h t -> t_find cmp t k <> 0 ->
  addrs (t_remove cmp t k) ∪ {[t_find cmp t k]} = addrs t /\ t_find cmp t k ∉ addrs (t_remove cmp t k).
Proof.
  induction t as [|p k' l IHl r IHr ht]; cbn [t_find]; [done|].
  intros (P0 & Hp & Pl & Pr & Plr & Hl & Hr) Hn. cbn [t_remove addrs].
  destruct (cmp k k' =? 0); [rewrite join_addrs; set_solver|].
  destruct (cmp k k' <? 0); rewrite addrs_balance; pose proof (find_addr _ _ Hn) as Hin.
  - destruct (IHl Hl Hn) as [H1 H2]. clear IHl IHr. revert Hin H1 H2 Pl Pr Plr.
    generalize (t_find cmp l k), (addrs l), (addrs r), (addrs (t_remove cmp l k)). clear. set_solver.
  - destruct (IHr Hr Hn) as [H1 H2]. clear IHl IHr. revert Hin H1 H2 Pl Pr Plr.
    generalize (t_find cmp r k), (addrs l), (addrs r), (addrs (t_remove cmp r k)). clear. set_solver.
Qed.

(** The second part of [unlink]: the last node [m] of the left subtree, which
    the slot already names, takes over the links of [p]. *)
Lemma relink s p k l r x h sl m n :
  heap s !! p = Some (Node k x (root r) h) -> heap s !! m = Some n -> m <> 0 ->
  slot_ok s sl -> slot_get sl s = m -> slot_at sl ## {[p]} ∪ ({[m]} ∪ (addrs l ∪ addrs r)) ->
  owns (heap s) l -> owns (heap s) r -> avl l -> avl r ->
  p ∉ addrs l -> p ∉ addrs r -> m ∉ addrs l -> m ∉ addrs r -> addrs l ## addrs r -> m <> p ->
  exists s1 s', set_left p (root l) s = Some (tt, s1) /\
    ((q ← load sl; v ← left <$> get p; set_left q v);;
     (q ← load sl; v ← right <$> get p; set_right q v);;
     (q ← load sl; v ← balance q; store sl v)) s1 = Some (tt, s') /\
    owns (heap s') (t_balance m (key n) l r) /\
    frame ({[p]} ∪ ({[m]} ∪ (addrs l ∪ addrs r))) (slot_set sl (root (t_balance m (key n) l r)) s) s' /\
    is_Some (heap s' !! p).
Proof.
  intros Hp Hm M0 Hs Hg Hd Hl Hr Al Ar Pl Pr Ml Mr Plr Hmp.
  set (A := {[p]} ∪ ({[m]} ∪ (addrs l ∪ addrs r))) in *. destruct s as [hp v].
  assert (Hslot : forall s1, frame A (St hp v) s1 -> load sl s1 = Some (m, s1) /\ slot_ok s1 sl).
  { intros s1 F1. destruct (slot_frame A sl _ _ F1 Hd) as [H1 H2].
    rewrite load_eq by auto. rewrite H2, Hg. auto. }
  assert (F0 : forall hp' q n', q ∈ A -> frame A (St hp v) (St hp' v) -> frame A (St hp v) (St (<[q := n']> hp') v)).
  { intros hp' q n' Hq HF. apply (frame_trans A _ _ (St hp' v)); [done..|]. by apply frame_insert. }
  cbn [heap] in *. eexists _. set (h1 := <[p := Node k (root l) (root r) h]> hp).
  assert (F1 : frame A (St hp v) (St h1 v)) by (apply F0; [set_solver|apply frame_refl]).
  set (h2 := <[m := Node (key n) (root l) (right n) (height n)]> h1).
  assert (F2 : frame A (St hp v) (St h2 v)) by (apply F0; [set_solver|done]).
  set (h3 := <[m := Node (key n) (root l) (root r) (height n)]> h2).
  assert (F3 : frame A (St hp v) (St h3 v)) by (apply F0; [set_solver|done]).
  destruct (balance_spec (St h3 v) m (key n) l r (height n)) as (s4 & E4 & O4 & F4); [|done..|].
  { unfold h3, h2, h1. cbn [owns heap]. split_and!; [done|look|done..|own|own]. }
  assert (F5 : frame A (St hp v) s4).
  { apply (frame_trans A _ _ (St h3 v)); [done..|]. eapply frame_weaken; [|exact F4]. cbn [addrs]. set_solver. }
  exists (slot_set sl (root (t_balance m (key n) l r)) s4). split_and!.
  - apply (set_left_eq (St hp v) _ _ _ Hp).
  - cbn [key left right height heap var]. fold h1.
    erewrite bind_eq. 2:{ rewrite (bind_eq _ _ _ _ _ (proj1 (Hslot _ F1))).
      unfold h1. step_get. cbn [left]. apply set_left_eq. look. }
    cbn [key right height heap var]. fold h1. fold h2.
    erewrite bind_eq. 2:{ rewrite (bind_eq _ _ _ _ _ (proj1 (Hslot _ F2))).
      unfold h2, h1. step_get. cbn [right]. apply set_right_eq. look. }
    cbn [key left height heap var]. fold h1. fold h2. fold h3.
    rewrite (bind_eq _ _ _ _ _ (proj1 (Hslot _ F3))), (bind_eq _ _ _ _ _ E4).
    apply store_eq, (Hslot _ F5).
  - apply slot_set_owns; [|done]. rewrite addrs_balance. set_solver.
  - by apply slot_set_frame.
  - rewrite slot_set_ne by set_solver. destruct F4 as [F4 _]. rewrite F4 by (cbn [addrs]; set_solver).
    unfold h3, h2, h1. cbn [heap]. rewrite !lookup_insert_ne, lookup_insert_eq by done. eauto.
Qed.

Lemma unlink_spec fuel s p k l r h sl :
  owns (heap s) (T p k l r h) -> avl (T p k l r h) -> slot_ok s sl -> slot_at sl ## addrs (T p k l r h) ->
  (depth l < fuel)%nat ->
  exists s', unlink fuel sl p s = Some (tt, s') /\ owns (heap s') (t_join l r) /\
    frame (addrs (T p k l r h)) (slot_set sl (root (t_join l r)) s) s' /\ is_Some (heap s' !! p).
Proof.
  intros Ho (_ & Hb & Al & Ar) Hs Hd Hf. pose proof Ho as (P0 & Hp & Pl & Pr & Plr & Hl & Hr).
  cbn [addrs] in *. unfold unlink. erewrite bind_eq by (by apply fmap_eq, get_eq). cbn [left].
  destruct l as [|q k' ll lr h'].
  { cbn [root Z.eqb negb t_join]. exists (slot_set sl (root r) s).
    erewrite bind_eq by (by apply fmap_eq, get_eq). split_and!; [by apply store_eq| |apply frame_refl|].
    - apply slot_set_owns; [set_solver|done].
    - rewrite slot_set_ne by set_solver. eauto. }
  set (tl := T q k' ll lr h') in *.
  destruct (remove_rightmost_spec fuel s q k' ll lr h' sl Hl Al Hs) as [s1 H1]; [set_solver|done|].
  pose proof (remove_rightmost_addrs q k' ll lr) as Hadd.
  pose proof (remove_rightmost_avl q k' ll lr h' Al) as [Al1 _].
  assert (Htl : addrs tl = {[q]} ∪ (addrs ll ∪ addrs lr)) by done. rewrite <- Htl in Hadd.
  replace (root tl =? 0) with false by (symmetry; apply Z.eqb_neq, Hl). cbn [negb].
  assert (Hj : t_join tl r = let '(l', (m, mk)) := t_remove_rightmost q k' ll lr in t_balance m mk l' r) by done.
  rewrite Hj.
  destruct (t_remove_rightmost q k' ll lr) as [l1 [m km]]. cbn [fst snd] in *.
  destruct H1 as (E1 & O1 & F1 & Nm & n & Hm & <-).
  assert (Hd1 : slot_at sl ## addrs tl) by set_solver.
  assert (Hmt : m ∈ addrs tl) by set_solver.
  destruct (relink s1 p k l1 r (root tl) h sl m n) as (s2 & s3 & E2 & E3 & O3 & F3 & Hp3); try done.
  - destruct F1 as [F1 _]. rewrite F1, slot_set_ne by set_solver. done.
  - by apply (owns_addr _ _ _ Hl).
  - apply (slot_frame _ _ _ _ F1 Hd1). by apply slot_set_ok.
  - destruct (slot_frame _ _ _ _ F1 Hd1) as [_ ->]. by apply slot_get_set.
  - set_solver.
  - apply (frame_owns _ _ _ _ F1); [done|]. apply slot_set_owns; [set_solver|done].
  - set_solver.
  - set_solver.
  - set_solver.
  - set_solver.
  - exists s3. erewrite bind_eq by (erewrite bind_eq by exact E1; exact E2).
    split_and!; [exact E3|exact O3| |exact Hp3].
    apply (frame_trans (addrs tl) _ _ (slot_set sl (root (t_balance m (key n) l1 r)) s1)); [set_solver| |].
    + rewrite <- (slot_set_set _ _ m s). by apply slot_set_frame.
    + eapply frame_weaken; [|exact F3]. set_solver.
Qed.

Lemma free_eq s p : is_Some (heap s !! p) -> free p s = Some (tt, St (delete p (heap s)) (var s)).
Proof. intros [n Hn]. unfold free. by erewrite bind_eq by by apply get_eq. Qed.

Lemma find_parent t k par : par <> 0 -> (exists h, owns h t) ->
  (t_find cmp t k <> 0 -> t_parent cmp t k par <> 0) /\ (t_find cmp t k = 0 -> t_parent cmp t k par = 0).
Proof.
  intros Hp [h Ho]. revert par Hp. induction t as [|p k' l IHl r IHr ht]; intros par Hpar.
  { cbn. split; [intros H; by destruct H|done]. }
  destruct Ho as (P0 & _ & _ & _ & _ & Hl & Hr). cbn.
  destruct (cmp k k' =? 0); [by split|].
  destruct (cmp k k' <? 0); [exact (IHl Hl p P0)|exact (IHr Hr p P0)].
Qed.

(** [remove] when there is nothing to remove. *)
Lemma remove_missing fuel s t k par sl :
  owns (heap s) t -> slot_ok s sl -> slot_get sl s = root t -> (depth t < fuel)%nat ->
  t_find cmp t k = 0 -> remove cmp fuel sl k par s = Some (0, s).
Proof.
  revert fuel par sl. induction t as [|p k' l IHl r IHr h]; intros [|fuel] par sl Ho Hs Hg Hf Hk;
    cbn [depth] in Hf; try lia; cbn [remove]; rewrite (bind_eq _ _ _ _ _ (load_eq _ _ Hs)), Hg; [done|].
  destruct Ho as (P0 & Hp & Pl & Pr & Plr & Hl & Hr). cbn [root t_find] in *.
  rewrite (proj2 (Z.eqb_neq p 0)) by done. erewrite bind_eq by (by apply get_eq). cbn [key].
  destruct (cmp k k' =? 0); [done|].
  destruct (cmp k k' <? 0).
  - erewrite bind_eq by (apply IHl; [done|cbn; eauto|cbn; by rewrite Hp|lia|done]). done.
  - erewrite bind_eq by (apply IHr; [done|cbn; eauto|cbn; by rewrite Hp|lia|done]). done.
Qed.

(** The way back up: the slot's node has a new child and is rebalanced. *)
Lemma rebalance_slot A s s1 p k l r h sl :
  slot_ok s sl -> slot_get sl s = p -> slot_at sl ## A -> {[p]} ∪ (addrs l ∪ addrs r) ⊆ A ->
  frame A s s1 -> owns (heap s1) (T p k l r h) -> avl l -> avl r ->
  exists s', (q ← load sl; v ← balance q; store sl v) s1 = Some (tt, s') /\
    owns (heap s') (t_balance p k l r) /\ frame A (slot_set sl (root (t_balance p k l r)) s) s' /\
    (forall q, q ∉ {[p]} ∪ (addrs l ∪ addrs r) -> q ∉ slot_at sl -> heap s' !! q = heap s1 !! q).
Proof.
  intros Hs Hg Hd Hsub HF Ho Al Ar. destruct (slot_frame _ _ _ _ HF Hd) as [H1 H2].
  destruct (balance_spec s1 p k l r h Ho Al Ar) as (s2 & E2 & O2 & F2). cbn [addrs] in F2.
  destruct (slot_frame _ sl _ _ F2) as [H3 H4]; [set_solver|].
  exists (slot_set sl (root (t_balance p k l r)) s2). split_and!.
  - rewrite (bind_eq _ _ _ _ _ (load_eq _ _ (H1 Hs))), H2, Hg, (bind_eq _ _ _ _ _ E2). apply store_eq. auto.
  - apply slot_set_owns; [|done]. rewrite addrs_balance. set_solver.
  - apply slot_set_frame; [|done]. apply (frame_trans A _ _ s1); [done..|]. by eapply frame_weaken.
  - intros q Hq Hq'. rewrite slot_set_ne by done. by apply F2.
Qed.

Lemma hang_left s s1 p k l r l1 h :
  owns (heap s) (T p k l r h) -> owns (heap s1) l1 -> addrs l1 ⊆ addrs l ->
  frame (addrs l) (slot_set (Left p) (root l1) s) s1 ->
  owns (heap s1) (T p k l1 r h) /\ frame (addrs (T p k l r h)) s s1.
Proof.
  intros (P0 & Hp & Pl & Pr & Plr & Hl & Hr) Ho1 Hsub [F1 F2]. split.
  - assert (Hp1 : heap s1 !! p = Some (Node k (root l1) (root r) h)).
    { rewrite F1 by done. cbn [slot_set heap]. by rewrite lookup_alter_eq, Hp. }
    cbn [owns]. split_and!; try done; [set_solver|set_solver|].
    apply (owns_frame (heap s)); [|done]. intros q Hq. rewrite F1 by set_solver.
    apply slot_set_ne. cbn [slot_at]. set_solver.
  - split; [|done]. intros q Hq. cbn [addrs] in Hq. rewrite F1 by set_solver. apply slot_set_ne.
    cbn [slot_at]. set_solver.
Qed.

Lemma hang_right s s1 p k l r r1 h :
  owns (heap s) (T p k l r h) -> owns (heap s1) r1 -> addrs r1 ⊆ addrs r ->
  frame (addrs r) (slot_set (Right p) (root r1) s) s1 ->
  owns (heap s1) (T p k l r1 h) /\ frame (addrs (T p k l r h)) s s1.
Proof.
  intros (P0 & Hp & Pl & Pr & Plr & Hl & Hr) Ho1 Hsub [F1 F2]. split.
  - assert (Hp1 : heap s1 !! p = Some (Node k (root l) (root r1) h)).
    { rewrite F1 by done. cbn [slot_set heap]. by rewrite lookup_alter_eq, Hp. }
    cbn [owns]. split_and!; try done; [set_solver|set_solver|].
    apply (owns_frame (heap s)); [|done]. intros q Hq. rewrite F1 by set_solver.
    apply slot_set_ne. cbn [slot_at]. set_solver.
  - split; [|done]. intros q Hq. cbn [addrs] in Hq. rewrite F1 by set_solver. apply slot_set_ne.
    cbn [slot_at]. set_solver.
Qed.

Lemma remove_spec fuel s t k par sl :
  owns (heap s) t -> avl t -> slot_ok s sl -> slot_get sl s = root t -> slot_at sl ## addrs t ->
  (depth t < fuel)%nat -> par <> 0 -> t_find cmp t k <> 0 ->
  exists s', remove cmp fuel sl k par s = Some (t_parent cmp t k par, s') /\
    owns (heap s') (t_remove cmp t k) /\ heap s' !! t_find cmp t k = None /\
    frame (addrs t) (slot_set sl (root (t_remove cmp t k)) s) s'.
Proof.
  revert fuel s par sl. induction t as [|p k' l IHl r IHr h]; intros [|fuel] s par sl Ho Ha Hs Hg Hd Hf Hpar Hk;
    cbn [depth] in Hf; try lia; [done|]. cbn [remove t_parent].
  pose proof (remove_addrs _ _ k Ho Hk) as [Hadd Nx].
  rewrite (bind_eq _ _ _ _ _ (load_eq _ _ Hs)), Hg. cbn [root].
  pose proof Ho as (P0 & Hp & Pl & Pr & Plr & Hl & Hr). pose proof Ha as (_ & Hb & Al & Ar).
  rewrite (proj2 (Z.eqb_neq p 0)) by done. erewrite bind_eq by (by apply get_eq). cbn [key].
  cbn [t_find t_remove] in *. destruct (Z.eqb_spec (cmp k k') 0) as [He|Hne].
  - destruct (unlink_spec fuel s p k' l r h sl) as (s1 & E1 & O1 & F1 & Hp1); [done..|lia|].
    eexists. rewrite (bind_eq _ _ _ _ _ E1), (bind_eq _ _ _ _ _ (free_eq _ _ Hp1)). split_and!; [done|..]; cbn [heap].
    + by apply owns_delete.
    + apply lookup_delete_eq.
    + destruct F1 as [F1 F2]. split; [|done]. intros q Hq. cbn [heap].
      rewrite lookup_delete_ne; [by apply F1|]. cbn [addrs] in Hq. set_solver.
  - cbn [addrs] in Hd. destruct (cmp k k' <? 0).
    + destruct (IHl fuel s p (Left p)) as (s1 & E1 & O1 & Nx1 & F1);
        [done|done|cbn; eauto|cbn; by rewrite Hp|cbn; set_solver|lia|done|done|].
      pose proof (remove_addrs _ _ _ Hl Hk) as [Hadd1 _].
      destruct (hang_left s s1 p k' l r (t_remove cmp l k) h Ho O1) as [O2 F2]; [set_solver|done|].
      destruct (rebalance_slot (addrs (T p k' l r h)) s s1 p k' (t_remove cmp l k) r h sl)
        as (s2 & E2 & O3 & F3 & F4); [done..|cbn [addrs]; set_solver|done|done|by apply remove_avl|done|].
      exists s2. erewrite bind_eq by exact E1. 
      destruct (find_parent l k p P0 (ex_intro (fun h => owns h l) _ Hl)) as [Hpar1 _].
      rewrite (proj2 (Z.eqb_neq _ 0) (Hpar1 Hk)). cbn [negb]. rewrite (bind_eq _ _ _ _ _ E2).
      split_and!; [done|done| |done]. rewrite F4; [done| |].
      * by rewrite <- (addrs_balance p k').
      * pose proof (find_addr _ _ Hk). cbn [addrs] in Hd. set_solver.
    + destruct (IHr fuel s p (Right p)) as (s1 & E1 & O1 & Nx1 & F1);
        [done|done|cbn; eauto|cbn; by rewrite Hp|cbn; set_solver|lia|done|done|].
      pose proof (remove_addrs _ _ _ Hr Hk) as [Hadd1 _].
      destruct (hang_right s s1 p k' l r (t_remove cmp r k) h Ho O1) as [O2 F2]; [set_solver|done|].
      destruct (rebalance_slot (addrs (T p k' l r h)) s s1 p k' l (t_remove cmp r k) h sl)
        as (s2 & E2 & O3 & F3 & F4); [done..|cbn [addrs]; set_solver|done|done|done|by apply remove_avl|].
      exists s2. erewrite bind_eq by exact E1. 
      destruct (find_parent r k p P0 (ex_intro (fun h => owns h r) _ Hr)) as [Hpar1 _].
      rewrite (proj2 (Z.eqb_neq _ 0) (Hpar1 Hk)). cbn [negb]. rewrite (bind_eq _ _ _ _ _ E2).
      split_and!; [done|done| |done]. rewrite F4; [done| |].
      * by rewrite <- (addrs_balance p k').
      * pose proof (find_addr _ _ Hk). cbn [addrs] in Hd. set_solver.
Qed.
End refine.
