(* ===== verification/TSearch.v ===== *)
(** The library functions of src/musl-1.1.19/src/search/tsearch_avl.c and
    tdestroy.c on any heap that holds a search tree: [tsearch], [tdelete],
    [tfind], [twalk] and [tdestroy]. *)
From S2P Require Import Prelude AvlTree Avl AvlRefine.

(** ** Fuel *)
Lemma depth_size h t : owns h t -> (depth t <= size (addrs t))%nat.
Proof.
  induction t as [|p k l IHl r IHr ht]; cbn [depth addrs]; [lia|].
  intros (_ & _ & Pl & Pr & Plr & Hl & Hr). rewrite size_union by set_solver.
  rewrite size_singleton, size_union by done. specialize (IHl Hl). specialize (IHr Hr). lia.
Qed.

(** The fuel of the top-level calls is enough. *)
Lemma depth_fuel_enough h v t : owns h t -> (depth t < depth_fuel (St h v))%nat.
Proof.
  intros Ho. pose proof (depth_size _ _ Ho). unfold depth_fuel. cbn [heap].
  rewrite <- (size_dom (D := gset Z)). enough (size (addrs t) <= size (dom h))%nat by lia.
  apply subseteq_size. intros q Hq. apply (owns_addr _ _ _ Ho) in Hq as [Hq _]. by apply elem_of_dom.
Qed.

(** ** The library functions *)

(** The pointer [rp] is the root of a search tree in [h]: [t] describes it. *)
Definition tree_at (cmp : Z -> Z -> Z) (h : gmap Z node) (rp : Z) (t : tree) : Prop :=
  rp = root t /\ owns h t /\ avl t /\ increasing cmp (nodes t).


(** The calls of [twalk] on a tree. *)
Fixpoint t_walk (t : tree) (d : Z) : list (Z * VISIT * Z) :=
  match t with
  | E => []
  | T p _ E E _ => [(p, leaf, d)]
  | T p _ l r _ =>
      [(p, preorder, d)] ++ t_walk l (d + 1) ++ [(p, postorder, d)] ++ t_walk r (d + 1) ++ [(p, endorder, d)]
  end.

(** The calls at which POSIX says a node is visited in order. *)
Definition in_order (e : Z * VISIT * Z) : bool :=
  match e.1.2 with postorder | leaf => true | _ => false end.

Lemma walk_eq fuel s t d : owns (heap s) t -> (depth t < fuel)%nat -> walk fuel (root t) d s = Some (t_walk t d, s).
Proof.
  revert fuel d. induction t as [|p k l IHl r IHr h]; intros [|fuel] d Ho Hf; cbn [depth] in Hf; try lia; [done|].
  destruct Ho as (P0 & Hp & _ & _ & _ & Hl & Hr). cbn [walk root]. rewrite (proj2 (Z.eqb_neq p 0)) by done.
  erewrite bind_eq by (by apply get_eq). cbn [left right].
  assert (Hleaf : (l = E /\ r = E) \/ (root l =? 0) && (root r =? 0) = false).
  { destruct l as [|a ? ? ? ?]; [|right; by rewrite (root_ne _ _ Hl)].
    destruct r as [|b ? ? ? ?]; [by left|right; by rewrite (root_ne _ _ Hr)]. }
  destruct Hleaf as [[-> ->]|Hleaf]; [done|]. rewrite Hleaf.
  rewrite (bind_eq (walk fuel (root l) (d + 1)) _ _ _ _ (IHl fuel (d + 1) Hl ltac:(lia))).
  rewrite (bind_eq (walk fuel (root r) (d + 1)) _ _ _ _ (IHr fuel (d + 1) Hr ltac:(lia))).
  by destruct l, r.
Qed.

#[local] Instance tree_eq_dec : EqDecision tree.
Proof. solve_decision. Defined.

Lemma t_walk_node p k l r h d :
  ~ (l = E /\ r = E) ->
  t_walk (T p k l r h) d =
  [(p, preorder, d)] ++ t_walk l (d + 1) ++ [(p, postorder, d)] ++ t_walk r (d + 1) ++ [(p, endorder, d)].
Proof. intros Hn. destruct l, r; [by destruct Hn|done..]. Qed.

Lemma walk_in_order t d : map (fun e => e.1.1) (List.filter in_order (t_walk t d)) = map fst (nodes t).
Proof.
  revert d. induction t as [|p k l IHl r IHr h]; intros d; [done|].
  assert (H : forall a b, map (fun e : Z * VISIT * Z => e.1.1)
      (List.filter in_order ([(p, preorder, d)] ++ a ++ [(p, postorder, d)] ++ b ++ [(p, endorder, d)]))
    = map (fun e => e.1.1) (List.filter in_order a) ++ p :: map (fun e => e.1.1) (List.filter in_order b)).
  { intros a b. rewrite !List.filter_app, !map_app. cbn. by rewrite app_nil_r. }
  cbn [nodes]. rewrite map_app. cbn [map fst].
  destruct (decide (l = E /\ r = E)) as [[-> ->]|Hn]; [done|].
  rewrite t_walk_node by done. by rewrite H, IHl, IHr.
Qed.

(** The keys that [tdestroy] hands over. *)
Fixpoint postorder_keys (t : tree) : list Z :=
  match t with E => [] | T _ k l r _ => postorder_keys l ++ postorder_keys r ++ [k] end.

Lemma postorder_keys_perm t : postorder_keys t ≡ₚ map snd (nodes t).
Proof.
  induction t as [|p k l IHl r IHr h]; cbn; [done|]. rewrite map_app. cbn. rewrite IHl, IHr.
  apply Permutation_app_head. symmetry. apply Permutation_cons_append.
Qed.

Lemma tdestroy_eq fuel s t :
  owns (heap s) t -> (depth t < fuel)%nat ->
  exists s', tdestroy_ fuel (root t) s = Some (postorder_keys t, s') /\
    (forall q, heap s' !! q = if decide (q ∈ addrs t) then None else heap s !! q).
Proof.
  revert fuel s. induction t as [|p k l IHl r IHr h]; intros [|fuel] s Ho Hf; cbn [depth] in Hf; try lia.
  { exists s. split; [done|]. intros q. by rewrite decide_False by set_solver. }
  destruct Ho as (P0 & Hp & Pl & Pr & Plr & Hl & Hr). cbn [tdestroy_ root postorder_keys].
  rewrite (proj2 (Z.eqb_neq p 0)) by done. erewrite bind_eq by (by apply fmap_eq, get_eq). cbn [left].
  destruct (IHl fuel s Hl) as (s1 & E1 & F1); [lia|]. erewrite bind_eq by exact E1.
  assert (Hp1 : heap s1 !! p = heap s !! p) by (rewrite F1; by rewrite decide_False).
  erewrite bind_eq by (apply fmap_eq, get_eq; by rewrite Hp1). cbn [right].
  destruct (IHr fuel s1) as (s2 & E2 & F2).
  { apply (owns_frame (heap s)); [|done]. intros q Hq. rewrite F1, decide_False by set_solver. done. }
  { lia. }
  erewrite bind_eq by exact E2.
  assert (Hp2 : heap s2 !! p = heap s !! p) by (by rewrite F2, decide_False, Hp1).
  erewrite bind_eq by (apply fmap_eq, get_eq; by rewrite Hp2). cbn [key].
  erewrite bind_eq by (apply free_eq; rewrite Hp2; eauto).
  eexists. split; [reflexivity|]. intros q. cbn [heap addrs].
  destruct (decide (q = p)) as [->|Hqp].
  - rewrite lookup_delete_eq, decide_True by set_solver. done.
  - rewrite lookup_delete_ne, F2, F1 by done. repeat case_decide; set_solver.
Qed.

Section properties.
Context (cmp : Z -> Z -> Z) {HC : Comparison cmp}.

Lemma tree_addr0 h t : owns h t -> 0 ∉ addrs t.
Proof. intros Ho Hin. by apply (owns_addr _ _ _ Ho) in Hin as [_ ?]. Qed.

Lemma found_ne h t p kp : owns h t -> (p, kp) ∈ nodes t -> p <> 0.
Proof. intros Ho Hin ->. by apply (tree_addr0 h t Ho), (node_addr t 0 kp). Qed.

Lemma tfind_spec h rp t k : tree_at cmp h rp t -> tfind cmp k rp h = Some (t_find cmp t k).
Proof.
  intros (-> & Ho & Ha & Hi). unfold tfind.
  by rewrite (find_eq cmp _ (St h 0) t k Ho (depth_fuel_enough h 0 t Ho)).
Qed.

Lemma tree_at_insert t k new h' :
  increasing cmp (nodes t) -> avl t -> (forall a, a ∈ nodes t -> cmp k a.2 <> 0) ->
  owns h' (t_insert cmp t k new) ->
  tree_at cmp h' (root (t_insert cmp t k new)) (t_insert cmp t k new).
Proof using HC.
  intros Hi Ha Hn Ho. split_and!; [done..|by apply insert_avl|].
  destruct (insert_nodes cmp t k new Hi Hn) as (l1 & l2 & E1 & E2 & L1 & L2).
  rewrite E1 in Hi. apply increasing_app in Hi as (I1 & I2 & _); [|done]. rewrite E2. by apply (increasing_node cmp).
Qed.
End properties.

(** C26: [tsearch] on a search tree.  If a node has an equal key, its address is
    returned and nothing changes.  Otherwise a node is allocated: if that fails
    the result is null and nothing changes; if it succeeds the new node is
    returned and is in the tree at its place in the order, the tree is again
    an AVL search tree with the old nodes at their old addresses, and nodes
    outside the tree are untouched.  No call runs out of fuel or follows a
    pointer to no node. *)
Theorem tsearch_correct cmp `{Comparison cmp} h rp t k new :
  tree_at cmp h rp t -> h !! new = None ->
  (forall p kp, (p, kp) ∈ nodes t -> cmp k kp = 0 -> tsearch cmp k new rp h = Some (p, rp, h)) /\
  ((forall a, a ∈ nodes t -> cmp k a.2 <> 0) ->
    (new = 0 -> tsearch cmp k new rp h = Some (0, rp, h)) /\
    (new <> 0 -> exists rp' h' t', tsearch cmp k new rp h = Some (new, rp', h') /\
      tree_at cmp h' rp' t' /\
      (exists l1 l2, nodes t = l1 ++ l2 /\ nodes t' = l1 ++ (new, k) :: l2) /\
      forall q, q ∉ addrs t -> q <> new -> h' !! q = h !! q)).
Proof.
  intros (-> & Ho & Ha & Hi) Hnew. unfold tsearch.
  destruct (insert_spec cmp (depth_fuel (St h 0)) (St h 0) t k new Ho Ha) as (I1 & I2 & I3);
    [by apply depth_fuel_enough|done|]. split.
  - intros p kp Hin Hc. pose proof (find_unique cmp t k p kp Hi Hin Hc) as Hf. rewrite Hf in I1.
    rewrite I1; [done|]. by eapply found_ne.
  - intros Hn. pose proof (find_none cmp t k Hn) as Hf. split.
    + intros Hn0. by rewrite (I2 Hf Hn0).
    + intros Hn0. destruct (I3 Hf Hn0) as (s' & E1 & O1 & F1 & _). rewrite E1. cbn [mbind option_bind].
      rewrite (root_ne _ _ O1 (insert_ne cmp t k new)). cbn [negb].
      eexists _, _, (t_insert cmp t k new). split_and!; [reflexivity|by apply tree_at_insert| |].
      * destruct (insert_nodes cmp t k new Hi Hn) as (l1 & l2 & E2 & E3 & _). by exists l1, l2.
      * intros q Hq Hqn. apply F1. set_solver.
Qed.

(** Keys ordered by subtraction; two nodes, at 16 and 32. *)
#[local] Instance sub_comparison : Comparison Z.sub.
Proof. split; intros; lia. Qed.

Definition two_heap : gmap Z node := {[ 16 := Node 5 0 32 2; 32 := Node 7 0 0 1 ]}.
Definition two_tree : tree := T 16 5 E (T 32 7 E E 1) 2.

Lemma two_tree_at : tree_at Z.sub two_heap 16 two_tree.
Proof.
  split_and!; [done| | |].
  - cbn. split_and!; (done || set_solver).
  - cbn. split_and!; (done || lia).
  - cbn. split_and!; try done; intros b; set_solver.
Qed.

Lemma tsearch_correct_witness :
  tsearch Z.sub 5 48 16 two_heap = Some (16, 16, two_heap) /\
  exists rp' h' t', tsearch Z.sub 9 48 16 two_heap = Some (48, rp', h') /\ tree_at Z.sub h' rp' t' /\
    (exists l1 l2, nodes two_tree = l1 ++ l2 /\ nodes t' = l1 ++ (48, 9) :: l2).
Proof.
  split.
  - apply (proj1 (tsearch_correct Z.sub two_heap 16 two_tree 5 48 two_tree_at eq_refl) 16 5);
      [cbn; set_solver|done].
  - destruct (proj2 (proj2 (tsearch_correct Z.sub two_heap 16 two_tree 9 48 two_tree_at eq_refl)
      ltac:(cbn; intros a; rewrite !elem_of_cons; intros [->|[->|Ha]]; [done|done|by apply elem_of_nil in Ha])) ltac:(done))
      as (rp' & h' & t' & H1 & H2 & H3 & _).
    exists rp', h', t'. auto.
Defined.

(** C8: [tdelete] on a search tree.  Without a node of that key the result is
    null and nothing changes.  Otherwise the node is taken out and released:
    the tree is again an AVL search tree, with the other nodes in the same
    order and at the same addresses; nodes outside the tree are untouched; the
    result is the parent that the node had, or the old root pointer if the
    node was the root. *)
Theorem tdelete_correct cmp `{Comparison cmp} h rp t k :
  tree_at cmp h rp t ->
  ((forall a, a ∈ nodes t -> cmp k a.2 <> 0) -> tdelete cmp k rp h = Some (0, rp, h)) /\
  (forall p kp, (p, kp) ∈ nodes t -> cmp k kp = 0 ->
    exists ret rp' h' t', tdelete cmp k rp h = Some (ret, rp', h') /\
      tree_at cmp h' rp' t' /\ h' !! p = None /\
      (exists l1 l2, nodes t = l1 ++ (p, kp) :: l2 /\ nodes t' = l1 ++ l2) /\
      (forall q, q ∉ addrs t -> h' !! q = h !! q) /\
      ret <> 0 /\ (p = rp /\ ret = rp \/ edge t ret p)).
Proof.
  intros (-> & Ho & Ha & Hi). unfold tdelete.
  pose proof (depth_fuel_enough h (root t) t Ho) as Hf. split.
  - intros Hn. by rewrite (remove_missing cmp _ (St h (root t)) t k (root t) Var Ho I eq_refl Hf (find_none cmp t k Hn)).
  - intros p kp Hin Hc. pose proof (find_unique cmp t k p kp Hi Hin Hc) as Hp.
    assert (Hp0 : t_find cmp t k <> 0) by (rewrite Hp; by eapply found_ne).
    assert (Hr0 : root t <> 0) by (intros Hr0; rewrite (owns_root0 _ _ Ho Hr0) in Hin; set_solver).
    destruct (remove_spec cmp _ (St h (root t)) t k (root t) Var Ho Ha I eq_refl (disjoint_empty_l _) Hf Hr0 Hp0)
      as (s' & E1 & O1 & N1 & F1 & F2). rewrite E1. cbn [mbind option_bind].
    cbn [slot_set heap var] in F1, F2. rewrite F2, Hp in *.
    eexists _, _, _, (t_remove cmp t k). split_and!; [reflexivity| |done| |exact F1| |].
    + destruct (remove_nodes cmp t k Hi) as [(l1 & l2 & p' & kp' & E2 & _ & _ & E3)|[Hn _]].
      * split_and!; [done|done|by apply remove_avl|]. rewrite E2 in Hi. rewrite E3.
        apply increasing_node in Hi as (I1 & I2 & I3 & I4); [|done]. apply (increasing_app cmp).
        split_and!; [done|done|]. intros a b Ha' Hb. apply (cmp_lt_le cmp _ kp'); [by apply I3|].
        specialize (I4 b Hb). lia.
      * by destruct (Hn (p, kp) Hin).
    + destruct (remove_nodes cmp t k Hi) as [(l1 & l2 & p' & kp' & E2 & Hc' & Hp' & E3)|[Hn _]];
        [|by destruct (Hn (p, kp) Hin)].
      exists l1, l2. split; [|done]. rewrite E2. do 2 f_equal.
      apply (increasing_inj cmp (nodes t)); [done|rewrite E2; set_solver|done|by apply (cmp_eq_trans cmp k)].
    + apply (find_parent cmp t k (root t) Hr0); [by exists h|]. by rewrite Hp.
    + destruct (parent_edge cmp t k (root t)) as [[E2 E3]|E2]; [by rewrite Hp|left|right]; by rewrite <- Hp.
Qed.

Lemma tdelete_correct_witness :
  tdelete Z.sub 6 16 two_heap = Some (0, 16, two_heap) /\
  exists ret rp' h' t', tdelete Z.sub 7 16 two_heap = Some (ret, rp', h') /\ tree_at Z.sub h' rp' t' /\
    h' !! 32 = None.
Proof.
  destruct (tdelete_correct Z.sub two_heap 16 two_tree 6 two_tree_at) as [H1 _].
  destruct (tdelete_correct Z.sub two_heap 16 two_tree 7 two_tree_at) as [_ H2]. split.
  - apply H1. cbn. intros a. rewrite !elem_of_cons. intros [->|[->|Ha]]; [done|done|by apply elem_of_nil in Ha].
  - destruct (H2 32 7) as (ret & rp' & h' & t' & E1 & E2 & E3 & _); [cbn; set_solver|done|].
    by exists ret, rp', h', t'.
Defined.

(** the functions that only read a search tree, and [tdestroy].  [tfind]
    returns the node with an equal key, or null.  [twalk] visits the nodes in
    the order of their keys, once each, at its calls with [postorder] and
    [leaf].  [tdestroy] releases exactly the nodes of the tree, after handing
    each key over once. *)
Theorem tfind_twalk_tdestroy_correct cmp `{Comparison cmp} h rp t :
  tree_at cmp h rp t ->
  (forall k p kp, (p, kp) ∈ nodes t -> cmp k kp = 0 -> tfind cmp k rp h = Some p) /\
  (forall k, (forall a, a ∈ nodes t -> cmp k a.2 <> 0) -> tfind cmp k rp h = Some 0) /\
  (exists calls, twalk rp h = Some calls /\
    map (fun e => e.1.1) (List.filter in_order calls) = map fst (nodes t)) /\
  (exists keys h', tdestroy rp h = Some (keys, h') /\ keys ≡ₚ map snd (nodes t) /\
    forall q, h' !! q = if decide (q ∈ addrs t) then None else h !! q).
Proof.
  intros Ht. pose proof Ht as (-> & Ho & Ha & Hi). pose proof (depth_fuel_enough h 0 t Ho) as Hf. split_and!.
  - intros k p kp Hin Hc. rewrite (tfind_spec cmp h _ t k Ht). f_equal. by apply (find_unique cmp t k p kp).
  - intros k Hn. rewrite (tfind_spec cmp h _ t k Ht). f_equal. by apply find_none.
  - exists (t_walk t 0). unfold twalk. rewrite (walk_eq _ (St h 0) t 0 Ho Hf). split; [done|]. apply walk_in_order.
  - unfold tdestroy. destruct (tdestroy_eq _ (St h 0) t Ho Hf) as (s' & E1 & F1). rewrite E1.
    exists (postorder_keys t), (heap s'). split_and!; [done|apply postorder_keys_perm|exact F1].
Qed.

Lemma tfind_twalk_tdestroy_correct_witness : tfind Z.sub 7 16 two_heap = Some 32.
Proof.
  apply (proj1 (tfind_twalk_tdestroy_correct Z.sub two_heap 16 two_tree two_tree_at) 7 32 7); [cbn; set_solver|done].
Defined.

(** the bound on the depth of the recursion that tsearch_avl.c states: a
    tree of [n] nodes is so shallow that the [d]-th Fibonacci number bounds
    [n + 1] from below, and with up to 2^32 nodes 45 nested calls reach every
    node: [find], [insert] and [remove] end within 46 calls, the last of which
    sees a null pointer. *)
Theorem recursion_depth cmp `{Comparison cmp} h rp t k new :
  tree_at cmp h rp t -> h !! new = None ->
  fib (depth t + 2) <= Z.of_nat (length (nodes t)) + 1 /\
  (Z.of_nat (length (nodes t)) <= 2 ^ 32 ->
    is_Some (find cmp 46 rp k (St h rp)) /\
    is_Some (insert cmp 46 rp k new (St h rp)) /\
    is_Some (remove cmp 46 Var k rp (St h rp))).
Proof.
  intros (-> & Ho & Ha & Hi) Hnew. split; [by apply avl_nodes|]. intros Hn.
  pose proof (avl_depth_45 t Ha Hn) as Hd. assert (Hf : (depth t < 46)%nat) by lia.
  pose proof (find_eq cmp 46 (St h (root t)) t k Ho Hf) as H1.
  destruct (insert_spec cmp 46 (St h (root t)) t k new Ho Ha Hf Hnew) as (I1 & I2 & I3).
  split; [by rewrite H1|]. destruct (Z.eq_dec (t_find cmp t k) 0) as [Hk|Hk].
  - split.
    + destruct (Z.eq_dec new 0) as [Hz|Hz]; [by rewrite (I2 Hk Hz)|].
      destruct (I3 Hk Hz) as (s' & -> & _). done.
    + by rewrite (remove_missing cmp 46 (St h (root t)) t k (root t) Var Ho I eq_refl Hf Hk).
  - split; [by rewrite (I1 Hk)|].
    assert (Hr0 : root t <> 0).
    { intros Hr0. rewrite (owns_root0 _ _ Ho Hr0) in Hk. by apply Hk. }
    destruct (remove_spec cmp 46 (St h (root t)) t k (root t) Var Ho Ha I eq_refl (disjoint_empty_l _) Hf Hr0 Hk)
      as (s' & -> & _). done.
Qed.

Lemma recursion_depth_witness :
  fib (depth two_tree + 2) <= 3 /\ is_Some (insert Z.sub 46 16 9 48 (St two_heap 16)).
Proof.
  destruct (recursion_depth Z.sub two_heap 16 two_tree 9 48 two_tree_at eq_refl) as [H1 H2].
  split; [exact H1|]. by apply H2.
Defined.
