(* ===== verification/Dns.v ===== *)
(** DNS messages: src/musl-1.1.19/src/network/dn_expand.c, dn_skipname.c,
    ns_parse.c and dns_parse.c.

    A message is the list of its bytes; a pointer into it is the offset from
    its first byte, and the pointer just past the last byte ([end], [eom]) is
    the length of the list.  [None] as the outer result of an operation is a
    read outside the message or a write outside the destination; an inner
    [None] is a result of -1. *)
From S2P Require Import Prelude.
#[local] Open Scope c_scope.

Definition EMSGSIZE : Z := 90.
Definition ENODEV : Z := 19.

(** [base[p]] *)
Definition rd (m : list Z) (p : Z) : option Z := if p <? 0 then None else m !! Z.to_nat p.
Definition eom (m : list Z) : Z := Z.of_nat (length m).

(** ** dn_expand.c *)

(** [*dest++ = c] into a buffer of [space] bytes. *)
Definition emit (space : Z) (out : list Z) (c : Z) : option (list Z) :=
  if Z.of_nat (length out) <? space then Some (out ++ [c]) else None.

(** [while (j--) *dest++ = *p++;] *)
Fixpoint copy_label (m : list Z) (space : Z) (j : nat) (p : Z) (out : list Z) : option (list Z) :=
  match j with
  | O => Some out
  | S j => c ← rd m p; out ← emit space out c; copy_label m space j (p + 1) out
  end.

(** The loop; [fuel] is the number of iterations left. *)
Fixpoint expand_loop (fuel : nat) (m : list Z) (src space dend p : Z) (out : list Z) (len : Z)
    : option (option (Z * list Z)) :=
  match fuel with
  | O => Some None
  | S fuel =>
      c ← rd m p;
      if negb (c & 0xc0 =? 0) then
        if p + 1 =? eom m then Some None
        else
          c1 ← rd m (p + 1);
          let j := ((c & 0x3f) << 8) .| c1 in
          let len := if len <? 0 then p + 2 - src else len in
          if j >=? eom m then Some None
          else expand_loop fuel m src space dend j out len
      else if negb (c =? 0) then
        out ← (if negb (Z.of_nat (length out) =? 0) then emit space out 46 else Some out);
        let j := c in
        let p := p + 1 in
        if (j >=? eom m - p) || (j >=? dend - Z.of_nat (length out)) then Some None
        else
          out ← copy_label m space (Z.to_nat j) p out;
          expand_loop fuel m src space dend (p + j) out len
      else
        _ ← emit space out 0;
        let len := if len <? 0 then p + 1 - src else len in
        Some (Some (len, out))
  end.

(** The length and the name without its null byte. *)
Definition __dn_expand (m : list Z) (src space : Z) : option (option (Z * list Z)) :=
  if (src =? eom m) || (space <=? 0) then Some None
  else
    let dend := if space >? 254 then 254 else space in
    expand_loop (Z.to_nat ((eom m + 1) / 2)) m src space dend src [] (-1).

(** ** dn_skipname.c *)
Fixpoint skip_loop (fuel : nat) (m : list Z) (s p : Z) : option Z :=
  match fuel with
  | O => Some (-1)
  | S fuel =>
      if p <? eom m then
        c ← rd m p;
        if c =? 0 then Some (p - s + 1)
        else if c >=? 192 then Some (if p + 1 <? eom m then p - s + 2 else -1)
        else skip_loop fuel m s (p + 1)
      else Some (-1)
  end.

Definition dn_skipname (m : list Z) (s : Z) : option Z := skip_loop (S (length m)) m s s.

(** ** ns_parse.c *)
Definition ns_get16 (m : list Z) (cp : Z) : option Z :=
  a ← rd m cp; b ← rd m (cp + 1); Some ((a << 8) .| b).
Definition ns_get32 (m : list Z) (cp : Z) : option Z :=
  a ← rd m cp; b ← rd m (cp + 1); c ← rd m (cp + 2); d ← rd m (cp + 3);
  Some ((a << 24) .| (b << 16) .| (c << 8) .| d).
Definition ns_put16 (s : Z) : list Z := [u8 (s >> 8); u8 s].
Definition ns_put32 (l : Z) : list Z := [u8 (l >> 24); u8 (l >> 16); u8 (l >> 8); u8 l].

(** [ns_msg] without [_msg] and [_eom], which are those of the list. *)
Record ns_msg := NsMsg {
  _id : Z; _flags : Z; _counts : list Z; _sections : list (option Z);
  _sect : Z; _rrnum : Z; _msg_ptr : option Z }.

Record ns_rr := NsRr {
  name : list Z; type : Z; rr_class : Z; ttl : Z; rdlength : Z; rdata : option Z }.

(** The inner [None] sets [errno] to [EMSGSIZE]. *)
Fixpoint skiprr_loop (count : nat) (m : list Z) (section p : Z) : option (option Z) :=
  match count with
  | O => Some (Some p)
  | S count =>
      r ← dn_skipname m p;
      if r <? 0 then Some None
      else if r + 2 * 2 >? eom m - p then Some None
      else
        let p := p + (r + 2 * 2) in
        if negb (section =? 0) then
          if 4 + 2 >? eom m - p then Some None
          else
            let p := p + 4 in
            r ← ns_get16 m p;
            let p := p + 2 in
            if r >? eom m - p then Some None
            else skiprr_loop count m section (p + r)
        else skiprr_loop count m section p
  end.

Definition ns_skiprr (m : list Z) (ptr section count : Z) : option (option Z) :=
  r ← skiprr_loop (Z.to_nat count) m section ptr;
  Some (p ← r; Some (p - ptr)).

(** [for (i = 0; i < ns_s_max; i++) NS_GET16(handle->_counts[i], msg);] *)
Fixpoint get_counts (n : nat) (m : list Z) (p : Z) : option (list Z) :=
  match n with
  | O => Some []
  | S n => c ← ns_get16 m p; cs ← get_counts n m (p + 2); Some (c :: cs)
  end.

(** The loop that finds the sections; the inner [None] is a return of -1. *)
Fixpoint find_sections (counts : list Z) (m : list Z) (i msg : Z)
    : option (option (list (option Z) * Z)) :=
  match counts with
  | [] => Some (Some ([], msg))
  | c :: counts =>
      if negb (c =? 0) then
        r ← ns_skiprr m msg i c;
        match r with
        | None => Some None
        | Some r =>
            q ← find_sections counts m (i + 1) (msg + r);
            Some ('(ss, e) ← q; Some (Some msg :: ss, e))
        end
      else
        q ← find_sections counts m (i + 1) msg;
        Some ('(ss, e) ← q; Some (None :: ss, e))
  end.

Definition ns_initparse (m : list Z) : option (option ns_msg) :=
  if eom m <? (2 + 4) * 2 then Some None
  else
    id ← ns_get16 m 0;
    flags ← ns_get16 m 2;
    counts ← get_counts 4 m 4;
    r ← find_sections counts m 0 12;
    Some ('(sections, msg) ← r;
          if negb (msg =? eom m) then None
          else Some (NsMsg id flags counts sections 4 (-1) None)).

Definition ns_name_uncompress (m : list Z) (src dstsiz : Z) : option (option (Z * list Z)) :=
  __dn_expand m src dstsiz.

(** Error numbers are in [inr]. *)
Definition set_pos (h : ns_msg) (sect rrnum : Z) (p : option Z) : ns_msg :=
  NsMsg (_id h) (_flags h) (_counts h) (_sections h) sect rrnum p.

(** The end of [ns_parserr], after the record has been read up to [p]. *)
Definition next_rr (h : ns_msg) (section p : Z) : ns_msg :=
  let n := _rrnum h + 1 in
  if n >? nth (Z.to_nat section) (_counts h) 0 then
    if section + 1 =? 4 then set_pos h (section + 1) (-1) None
    else set_pos h (section + 1) 0 (Some p)
  else set_pos h (_sect h) n (Some p).

(** Reading the record at [p], the position of [h]. *)
Definition read_rr (m : list Z) (h : ns_msg) (section p : Z) : option (ns_msg * (ns_rr + Z)) :=
  r ← ns_name_uncompress m p 1025;
  match r with
  | None => Some (h, inr EMSGSIZE)
  | Some (r, nm) =>
      let p := p + r in
      let h := set_pos h (_sect h) (_rrnum h) (Some p) in
      if 2 * 2 >? eom m - p then Some (h, inr EMSGSIZE)
      else
        type ← ns_get16 m p;
        class ← ns_get16 m (p + 2);
        let p := p + 4 in
        let h := set_pos h (_sect h) (_rrnum h) (Some p) in
        if negb (section =? 0) then
          if 4 + 2 >? eom m - p then Some (h, inr EMSGSIZE)
          else
            ttl ← ns_get32 m p;
            len ← ns_get16 m (p + 4);
            let p := p + 6 in
            let h := set_pos h (_sect h) (_rrnum h) (Some p) in
            if len >? eom m - p then Some (h, inr EMSGSIZE)
            else Some (next_rr h section (p + len), inl (NsRr nm type class ttl len (Some p)))
        else Some (next_rr h section p, inl (NsRr nm type class 0 0 None))
  end.

Definition ns_parserr (m : list Z) (h : ns_msg) (section rrnum : Z) : option (ns_msg * (ns_rr + Z)) :=
  if (section <? 0) || (section >=? 4) then Some (h, inr ENODEV) else
  let start := nth (Z.to_nat section) (_sections h) None in
  let count := nth (Z.to_nat section) (_counts h) 0 in
  let h := if negb (section =? _sect h) then set_pos h section 0 start else h in
  let rrnum := if rrnum =? -1 then _rrnum h else rrnum in
  if (rrnum <? 0) || (rrnum >=? count) then Some (h, inr ENODEV) else
  let h := if rrnum <? _rrnum h then set_pos h (_sect h) 0 start else h in
  p ← _msg_ptr h;
  if rrnum >? _rrnum h then
    r ← ns_skiprr m p section (rrnum - _rrnum h);
    match r with
    | None => Some (h, inr EMSGSIZE)
    | Some r => read_rr m (set_pos h (_sect h) rrnum (Some (p + r))) section (p + r)
    end
  else read_rr m h section p.

(** ** dns_parse.c *)

(** [while (p-r < rlen && *p-1U < 127) p++;] *)
Fixpoint scan_name (fuel : nat) (m : list Z) (rlen p : Z) : option Z :=
  match fuel with
  | O => None
  | S fuel =>
      if p <? rlen then
        c ← rd m p;
        if u32 (c - 1) <? 127 then scan_name fuel m rlen (p + 1) else Some p
      else Some p
  end.

(** The name at [p] of a message of [rlen] bytes in a buffer [m]; [None]
    inside is a return of -1. *)
Definition skip_name (m : list Z) (rlen p : Z) : option (option (Z * Z)) :=
  p ← scan_name (S (Z.to_nat rlen)) m rlen p;
  c ← rd m p;
  bad ← (if c >? 193 then Some true
         else
           b ← (if c =? 193 then c1 ← rd m (p + 1); Some (c1 >? 254) else Some false);
           Some ((b : bool) || (p >? rlen - 6)));
  Some (if (bad : bool) then None else Some (p, c)).

Section dns_parse.
(** The state of the caller, and its callback on the type of the record, the
    offset and the length of its data; it returns whether to go on. *)
Context {X : Type} (callback : X -> Z -> Z -> Z -> X * bool).

Fixpoint parse_questions (qdcount : nat) (m : list Z) (rlen p : Z) : option (option Z) :=
  match qdcount with
  | O => Some (Some p)
  | S qdcount =>
      r ← skip_name m rlen p;
      match r with
      | None => Some None
      | Some (p, c) => parse_questions qdcount m rlen (p + (5 + b2z (negb (c =? 0))))
      end
  end.

Fixpoint parse_answers (ancount : nat) (m : list Z) (rlen p : Z) (ctx : X) : option (X * Z) :=
  match ancount with
  | O => Some (ctx, 0)
  | S ancount =>
      r ← skip_name m rlen p;
      match r with
      | None => Some (ctx, -1)
      | Some (p, c) =>
          let p := p + (1 + b2z (negb (c =? 0))) in
          a ← rd m (p + 8);
          b ← rd m (p + 9);
          let len := a * 256 + b in
          if p + len >? rlen then Some (ctx, -1)
          else
            t ← rd m (p + 1);
            let '(ctx, go) := callback ctx t (p + 10) len in
            if negb go then Some (ctx, -1)
            else parse_answers ancount m rlen (p + (10 + len)) ctx
      end
  end.

Definition __dns_parse (m : list Z) (rlen : Z) (ctx : X) : option (X * Z) :=
  if rlen <? 12 then Some (ctx, -1)
  else
    f ← rd m 3;
    if negb (f & 15 =? 0) then Some (ctx, 0)
    else
      q1 ← rd m 4; q0 ← rd m 5; a1 ← rd m 6; a0 ← rd m 7;
      let qdcount := q1 * 256 + q0 in
      let ancount := a1 * 256 + a0 in
      if qdcount + ancount >? 64 then Some (ctx, -1)
      else
        r ← parse_questions (Z.to_nat qdcount) m rlen 12;
        match r with
        | None => Some (ctx, -1)
        | Some p => parse_answers (Z.to_nat ancount) m rlen p ctx
        end.
End dns_parse.

(** ** Reading a message *)
Definition slice (m : list Z) (p n : Z) : list Z := take (Z.to_nat n) (drop (Z.to_nat p) m).

Lemma rd_in m p : 0 <= p < eom m -> exists c, rd m p = Some c.
Proof.
  intros Hp. unfold rd, eom in *. rewrite (proj2 (Z.ltb_ge p 0)) by lia.
  apply lookup_lt_is_Some. lia.
Qed.

Lemma rd_out m p : eom m <= p -> rd m p = None.
Proof.
  intros Hp. unfold rd, eom in *. case_match; [done|]. apply lookup_ge_None. lia.
Qed.

Lemma rd_bounds m p c : rd m p = Some c -> 0 <= p < eom m.
Proof.
  unfold rd, eom. destruct (Z.ltb_spec p 0); [done|]. intros Hc. apply lookup_lt_Some in Hc. lia.
Qed.

Lemma rd_byte m p c : bytes m -> rd m p = Some c -> byte c.
Proof. unfold rd. case_match; [done|]. intros Hm Hc. by apply (Forall_lookup_1 _ _ _ _ Hm Hc). Qed.

Lemma rd_get m p : bytes m -> 0 <= p < eom m -> exists c, rd m p = Some c /\ byte c.
Proof. intros Hm Hp. destruct (rd_in m p Hp) as [c Hc]. exists c. split; [done|]. by apply (rd_byte m p). Qed.

Lemma slice_cons m p n c : rd m p = Some c -> 0 < n -> slice m p n = c :: slice m (p + 1) (n - 1).
Proof.
  intros Hc Hn. pose proof (rd_bounds _ _ _ Hc) as Hp. unfold rd, slice in *.
  rewrite (proj2 (Z.ltb_ge p 0)) in Hc by lia. apply take_drop_middle in Hc as Hm.
  replace (Z.to_nat (p + 1)) with (S (Z.to_nat p)) by lia.
  replace (Z.to_nat n) with (S (Z.to_nat (n - 1))) by lia. by rewrite (drop_S _ _ _ Hc).
Qed.

Lemma length_slice m p n : 0 <= p -> 0 <= n -> p + n <= eom m -> Z.of_nat (length (slice m p n)) = n.
Proof. unfold slice, eom. intros. rewrite length_take, length_drop. lia. Qed.

Lemma flags_clear c : byte c -> (c & 0xc0 =? 0) = (c <? 64).
Proof.
  intros Hc. apply eqb_prop. revert c Hc.
  apply (byte_forall (fun c => Bool.eqb (c & 0xc0 =? 0) (c <? 64))). by vm_compute.
Qed.

Lemma pointer_value a b : byte a -> byte b -> ((a & 0x3f) << 8) .| b = a mod 64 * 256 + b.
Proof.
  intros Ha Hb. rewrite Z.shiftl_mul_pow2, lor_last by (done || lia). do 2 f_equal.
  apply (Z.land_ones a 6). lia.
Qed.

Lemma ns_get16_eq m p a b : rd m p = Some a -> rd m (p + 1) = Some b -> bytes m -> ns_get16 m p = Some (a * 256 + b).
Proof.
  intros Ha Hb Hm. unfold ns_get16. rewrite Ha, Hb. cbn [mbind option_bind].
  rewrite Z.shiftl_mul_pow2, lor_last by (lia || by apply (rd_byte _ _ _ Hm Hb)). done.
Qed.

Lemma ns_get16_in m p : bytes m -> 0 <= p -> p + 2 <= eom m -> exists v, ns_get16 m p = Some v /\ 0 <= v < 65536.
Proof.
  intros Hm Hp He. destruct (rd_get m p Hm) as (a & Ha & Ba); [lia|].
  destruct (rd_get m (p + 1) Hm) as (b & Hb & Bb); [lia|].
  exists (a * 256 + b). split; [by apply ns_get16_eq|]. unfold byte in *. lia.
Qed.

(** ** Expansion of names *)

(** The name at [p] expands to [ls] in [k] steps, and its representation in
    place ends at [q].  A length byte from [lo] on starts a pointer.  In RFC 1035
    [lo] is 192: the two top bits of a length byte are 11 in a pointer and 00 in a label, and
    01 and 10 are reserved.  The code tests if one of the two bits is set, as if [lo] were 64. *)
Inductive expands (lo : Z) (m : list Z) : Z -> nat -> list (list Z) -> Z -> Prop :=
| exp_end p : rd m p = Some 0 -> expands lo m p 1 [] (p + 1)
| exp_label p n k ls q :
    rd m p = Some n -> 1 <= n < 64 -> p + 1 + n < eom m -> expands lo m (p + 1 + n) k ls q ->
    expands lo m p (S k) (slice m (p + 1) n :: ls) q
| exp_pointer p a b k ls q :
    rd m p = Some a -> lo <= a -> rd m (p + 1) = Some b -> expands lo m (a mod 64 * 256 + b) k ls q ->
    expands lo m p (S k) ls (p + 2).

(** The name at [p] has a length byte of a reserved kind. *)
Inductive reserved (m : list Z) : Z -> Prop :=
| res_here p a : rd m p = Some a -> 64 <= a < 192 -> reserved m p
| res_label p n : rd m p = Some n -> 1 <= n < 64 -> reserved m (p + 1 + n) -> reserved m p
| res_pointer p a b : rd m p = Some a -> 192 <= a -> rd m (p + 1) = Some b -> reserved m (a mod 64 * 256 + b) -> reserved m p.

(** The text of a name. *)
Fixpoint dotted (ls : list (list Z)) : list Z :=
  match ls with [] => [] | [l] => l | l :: ls => l ++ 46 :: dotted ls end.

(** The text of a name, after [out]. *)
Fixpoint extend (out : list Z) (ls : list (list Z)) : list Z :=
  match ls with
  | [] => out
  | l :: ls => extend ((if Z.of_nat (length out) =? 0 then out else out ++ [46]) ++ l) ls
  end.

Lemma extend_ne out ls : out <> [] -> extend out ls = out ++ concat (map (cons 46) ls).
Proof.
  revert out. induction ls as [|l ls IH]; intros out Ho; cbn; [by rewrite app_nil_r|].
  rewrite (proj2 (Z.eqb_neq _ _)) by (destruct out; [done|cbn; lia]).
  rewrite IH by (by destruct out). by rewrite <- !app_assoc.
Qed.

Lemma dotted_cons l ls : dotted (l :: ls) = l ++ concat (map (cons 46) ls).
Proof.
  revert l. induction ls as [|l' ls IH]; intros l; [by rewrite app_nil_r|].
  change (dotted (l :: l' :: ls)) with (l ++ 46 :: dotted (l' :: ls)). by rewrite IH.
Qed.

Lemma extend_dotted ls : Forall (fun l => l <> []) ls -> extend [] ls = dotted ls.
Proof.
  intros H. destruct H as [|l ls Hl _]; [done|]. cbn [extend length Z.of_nat Z.eqb app].
  by rewrite extend_ne, dotted_cons by done.
Qed.

Lemma expands_ne lo m p k ls q : expands lo m p k ls q -> Forall (fun l => l <> []) ls.
Proof.
  induction 1 as [| p n k ls q Hn Hr He _ IH |]; [done| |done]. constructor; [|done].
  pose proof (rd_bounds _ _ _ Hn). intros Hs. apply (f_equal length) in Hs.
  pose proof (length_slice m (p + 1) n). rewrite Hs in *. cbn in *. lia.
Qed.

Lemma expands_steps m p k ls q : expands 64 m p k ls q -> (1 <= k)%nat.
Proof. destruct 1; lia. Qed.

Lemma expands_fun m p k ls q k' ls' q' :
  expands 64 m p k ls q -> expands 64 m p k' ls' q' -> k = k' /\ ls = ls' /\ q = q'.
Proof.
  intros H. revert k' ls' q'. induction H as [p H0|p n k ls q Hn Hr He H IH|p a b k ls q Ha Hr Hb H IH];
    intros k' ls' q' H'; destruct H' as [p' H0'|p' n' k' ls' q' Hn' Hr' He' H'|p' a' b' k' ls' q' Ha' Hr' Hb' H'];
    simplify_eq; try lia.
  - done.
  - by destruct (IH _ _ _ H') as (-> & -> & ->).
  - by destruct (IH _ _ _ H') as (-> & -> & ->).
Qed.

Lemma copy_label_eq m space j p out :
  0 <= p -> p + Z.of_nat j <= eom m -> Z.of_nat (length out) + Z.of_nat j <= space ->
  copy_label m space j p out = Some (out ++ slice m p (Z.of_nat j)).
Proof.
  revert p out. induction j as [|j IH]; intros p out Hp He Hs; [by cbn; rewrite app_nil_r|].
  cbn [copy_label]. destruct (rd_in m p) as [c Hc]; [lia|]. rewrite Hc. cbn [mbind option_bind].
  unfold emit. rewrite (proj2 (Z.ltb_lt _ _)) by lia. cbn [mbind option_bind].
  rewrite IH by (rewrite ?length_app; cbn; lia). rewrite (slice_cons m p _ c Hc) by lia.
  rewrite <- app_assoc. do 4 f_equal. lia.
Qed.

Lemma extend_length out ls : (length out <= length (extend out ls))%nat.
Proof.
  revert out. induction ls as [|l ls IH]; intros out; cbn; [done|].
  etransitivity; [|apply IH]. rewrite length_app. case_match; rewrite ?length_app; lia.
Qed.

Lemma expands_in m p k ls q : expands 64 m p k ls q -> 0 <= p < eom m.
Proof. destruct 1 as [? H| ? ? ? ? ? H | ? ? ? ? ? ? H]; by apply rd_bounds in H. Qed.

Lemma label_inv m p c k ls q :
  expands 64 m p k ls q -> rd m p = Some c -> c < 64 -> c <> 0 ->
  exists k' ls', k = S k' /\ ls = slice m (p + 1) c :: ls' /\ p + 1 + c < eom m /\ expands 64 m (p + 1 + c) k' ls' q.
Proof. intros He Hc H1 H2. destruct He; simplify_eq; try lia. eauto 10. Qed.

Lemma pointer_inv m p c b k ls q :
  expands 64 m p k ls q -> rd m p = Some c -> 64 <= c -> rd m (p + 1) = Some b ->
  exists k' q', k = S k' /\ q = p + 2 /\ expands 64 m (c mod 64 * 256 + b) k' ls q'.
Proof. intros He Hc H1 H2. destruct He; simplify_eq; try lia. eauto 10. Qed.

(** A pointer of RFC 1035 is one of the code; the converse holds unless a byte is reserved. *)
Lemma expands_weaken m p k ls q : expands 192 m p k ls q -> expands 64 m p k ls q.
Proof. induction 1; [by constructor|by constructor|]. eapply exp_pointer; [done|lia|done|done]. Qed.

Lemma expands_strict m p k ls q : expands 64 m p k ls q -> ~ reserved m p -> expands 192 m p k ls q.
Proof.
  induction 1 as [p H0|p n k ls q Hn Hr He H IH|p a b k ls q Ha Hr Hb H IH]; intros Hres; [by constructor| |].
  - constructor; [done..|]. apply IH. intros Hx. by apply Hres, (res_label m p n).
  - destruct (Z.lt_ge_cases a 192) as [L|G]; [destruct Hres; by apply (res_here m p a)|].
    apply (exp_pointer 192 m p a b k ls q); [done..|]. apply IH. intros Hx. by apply Hres, (res_pointer m p a b).
Qed.

(** The bytes [len] from [src] on are a name that expands to [text], short enough for a
    destination of [space] bytes.  The expansion takes at most half as many steps (labels, pointers, end) as
    the message has bytes. *)
Definition expansion (lo : Z) (m : list Z) (src space len : Z) (text : list Z) : Prop :=
  exists k ls, expands lo m src k ls (src + len) /\ 2 * Z.of_nat k <= eom m + 1 /\
    text = dotted ls /\ Z.of_nat (length text) < Z.min space 254.

(** A run that does not fail, and succeeds exactly with the results in [P]. *)
Definition yields (P : Z -> list Z -> Prop) (x : option (option (Z * list Z))) : Prop :=
  exists r, x = Some r /\ forall len' out', r = Some (len', out') <-> P len' out'.

Lemma refused P : (forall len out, ~ P len out) -> yields P (Some None).
Proof. intros H. exists None. split; [done|]. intros len out. split; [done|]. intros HP. by apply H in HP. Qed.

(** The loop: it never fails, and its result is that of [expands], if the
    iterations and the space are enough. *)
Lemma expand_loop_spec m src space dend : bytes m -> dend <= space ->
  forall fuel p out len,
  0 <= p < eom m -> Z.of_nat (length out) < dend -> 0 <= src <= p \/ 0 <= len ->
  yields (fun len' out' => exists k ls q, expands 64 m p k ls q /\ (k <= fuel)%nat /\ out' = extend out ls /\
      Z.of_nat (length out') < dend /\ len' = (if len <? 0 then q - src else len))
    (expand_loop fuel m src space dend p out len).
Proof.
  intros Hm Hds. induction fuel as [|fuel IH]; intros p out len Hp Ho Hlen.
  { apply refused. intros len' out' (k & ls & q & He & Hk & _). apply expands_steps in He. lia. }
  cbn [expand_loop]. destruct (rd_get m p Hm Hp) as (c & Hc & Bc). rewrite Hc. cbn [mbind option_bind].
  rewrite (flags_clear c Bc). destruct (Z.ltb_spec c 64) as [Hlt|Hge]; cbn [negb].
  - destruct (Z.eqb_spec c 0) as [->|Hc0]; cbn [negb].
    { unfold emit. rewrite (proj2 (Z.ltb_lt (Z.of_nat (length out)) space)) by lia. cbn [mbind option_bind].
      eexists. split; [reflexivity|]. intros len' out'. split.
      - intros [= <- <-]. exists 1%nat, [], (p + 1). split_and!; try done; [exact (exp_end 64 m p Hc)|lia].
      - intros (k & ls & q & He & Hk & -> & Hs & ->).
        destruct (expands_fun _ _ _ _ _ _ _ _ He (exp_end 64 m p Hc)) as (-> & -> & ->). done. }
    set (out1 := if Z.of_nat (length out) =? 0 then out else out ++ [46]).
    assert (E1 : (if negb (Z.of_nat (length out) =? 0) then emit space out 46 else Some out) = Some out1).
    { subst out1. destruct (_ =? 0); [done|]. unfold emit. by rewrite (proj2 (Z.ltb_lt _ _)) by lia. }
    rewrite E1. cbn [mbind option_bind]. clear E1.
    destruct (Z.geb_spec c (eom m - (p + 1))) as [Hbig|Hin]; cbn [orb].
    { apply refused. intros len' out' (k & ls & q & He & _).
      destruct (label_inv _ _ _ _ _ _ He Hc Hlt Hc0) as (k' & ls' & _ & _ & Hlt' & _). lia. }
    assert (Hl : Z.of_nat (length (slice m (p + 1) c)) = c) by (unfold byte in Bc; apply length_slice; lia).
    destruct (Z.geb_spec c (dend - Z.of_nat (length out1))) as [Hbig|Hfit].
    { apply refused. intros len' out' (k & ls & q & He & _ & -> & Hs & _).
      destruct (label_inv _ _ _ _ _ _ He Hc Hlt Hc0) as (k' & ls' & _ & -> & _ & _).
      cbn [extend] in Hs. fold out1 in Hs. pose proof (extend_length (out1 ++ slice m (p + 1) c) ls') as Hx.
      rewrite length_app in Hx. lia. }
    unfold byte in Bc. rewrite copy_label_eq by lia. cbn [mbind option_bind].
    replace (Z.of_nat (Z.to_nat c)) with c by lia.
    destruct (IH (p + 1 + c) (out1 ++ slice m (p + 1) c) len) as (r & Hr & Hiff); [lia|rewrite length_app; lia|lia|].
    exists r. split; [exact Hr|]. intros len' out'. rewrite Hiff. split.
    + intros (k & ls & q & He & Hk & -> & Hs & ->). exists (S k), (slice m (p + 1) c :: ls), q.
      split_and!; [constructor; (done || lia)|lia|done|done|done].
    + intros (k & ls & q & He & Hk & -> & Hs & ->).
      destruct (label_inv _ _ _ _ _ _ He Hc Hlt Hc0) as (k' & ls' & -> & -> & _ & He').
      exists k', ls', q. split_and!; [done|lia|done|done|done].
  - destruct (Z.eqb_spec (p + 1) (eom m)) as [Hend|Hnend].
    { apply refused. intros len' out' (k & ls & q & He & _).
      destruct He as [| |? ? ? ? ? ? ? ? Hb]; simplify_eq; try lia. apply rd_bounds in Hb. lia. }
    destruct (rd_get m (p + 1) Hm) as (b & Hb & Bb); [lia|]. rewrite Hb. cbn [mbind option_bind].
    rewrite (pointer_value c b Bc Bb). pose proof (fun k ls q He => pointer_inv m p c b k ls q He Hc Hge Hb) as Hinv.
    pose proof (exp_pointer 64 m p c b) as Hnew. set (j := c mod 64 * 256 + b) in *.
    assert (Hj : 0 <= j) by (subst j; unfold byte in *; mlia).
    destruct (Z.geb_spec j (eom m)) as [Hbig|Hin].
    { apply refused. intros len' out' (k & ls & q & He & _).
      destruct (Hinv _ _ _ He) as (k' & q' & _ & _ & He'). apply expands_in in He'. lia. }
    destruct (IH j out (if len <? 0 then p + 2 - src else len)) as (r & Hr & Hiff);
      [lia|done|destruct (Z.ltb_spec len 0); lia|].
    exists r. split; [exact Hr|]. intros len' out'. rewrite Hiff.
    assert (Hlen' : (if len <? 0 then p + 2 - src else len) <? 0 = false).
    { apply Z.ltb_ge. destruct (Z.ltb_spec len 0); lia. }
    rewrite Hlen'. split.
    + intros (k & ls & q & He & Hk & -> & Hs & ->). exists (S k), ls, (p + 2).
      split_and!; [by apply (Hnew k ls q)|lia|done|done|done].
    + intros (k & ls & q & He & Hk & -> & Hs & ->). destruct (Hinv _ _ _ He) as (k' & q' & -> & -> & He').
      exists k', ls, q'. split_and!; (done || lia).
Qed.

Lemma dn_expand_spec m src space :
  bytes m -> 0 <= src <= eom m ->
  yields (expansion 64 m src space) (__dn_expand m src space).
Proof.
  intros Hm Hsrc. unfold __dn_expand. destruct (Z.eqb_spec src (eom m)) as [->|Hne]; cbn [orb].
  { apply refused. intros len text (k & ls & He & _). apply expands_in in He. lia. }
  destruct (Z.leb_spec space 0) as [Hs|Hs].
  { apply refused. intros len text (k & ls & He & _ & _ & Hl). lia. }
  replace (if space >? 254 then 254 else space) with (Z.min space 254) by (destruct (Z.gtb_spec space 254); lia).
  destruct (expand_loop_spec m src space (Z.min space 254) Hm ltac:(lia)
    (Z.to_nat ((eom m + 1) / 2)) src [] (-1)) as (r & Hr & Hiff); [lia|cbn; lia|lia|].
  exists r. split; [exact Hr|]. intros len text. rewrite Hiff. clear Hiff. split.
  - intros (k & ls & q & He & Hk & -> & Hl & ->). exists k, ls. cbn [Z.ltb Z.compare].
    replace (src + (q - src)) with q by lia.
    split_and!; [done|mlia|by rewrite extend_dotted by by eapply expands_ne|done].
  - intros (k & ls & He & Hk & -> & Hl). exists k, ls, (src + len). cbn [Z.ltb Z.compare].
    split_and!; [done|mlia|by rewrite extend_dotted by by eapply expands_ne|done|lia].
Qed.

(** ** Parts of a message *)

(** The bytes [l] are in the message at [p]. *)
Definition at_pos (m : list Z) (p : Z) (l : list Z) : Prop :=
  0 <= p <= eom m /\ exists rest, drop (Z.to_nat p) m = l ++ rest.

Lemma at_pos_app m p a b :
  at_pos m p (a ++ b) <-> at_pos m p a /\ at_pos m (p + Z.of_nat (length a)) b.
Proof.
  unfold at_pos, eom. split.
  - intros (Hp & rest & Hd). pose proof (f_equal length Hd) as Hl. rewrite length_drop, !length_app in Hl.
    split_and!; try lia; [exists (b ++ rest); by rewrite Hd, app_assoc|].
    exists rest. replace (Z.to_nat (p + Z.of_nat (length a))) with (Z.to_nat p + length a)%nat by lia.
    rewrite <- drop_drop, Hd, <- app_assoc. by rewrite drop_app_length.
  - intros ((Hp & rest & Hd) & Hp' & rest' & Hd'). split; [done|]. exists rest'.
    replace (Z.to_nat (p + Z.of_nat (length a))) with (Z.to_nat p + length a)%nat in Hd' by lia.
    rewrite <- drop_drop, Hd, drop_app_length in Hd'. by rewrite Hd, Hd', app_assoc.
Qed.

Lemma at_pos_cons m p c l : at_pos m p (c :: l) -> rd m p = Some c /\ at_pos m (p + 1) l.
Proof.
  intros H. change (c :: l) with ([c] ++ l) in H. apply at_pos_app in H as [(Hp & rest & Hd) H].
  split; [|exact H]. unfold rd. rewrite (proj2 (Z.ltb_ge p 0)) by lia.
  rewrite <- (Nat.add_0_r (Z.to_nat p)), <- lookup_drop, Hd. done.
Qed.

Lemma at_pos_end m p l : at_pos m p l -> p + Z.of_nat (length l) <= eom m.
Proof. intros (Hp & rest & Hd). apply (f_equal length) in Hd. rewrite length_drop, length_app in Hd. unfold eom in *. lia. Qed.

Lemma at_pos_slice m p l : at_pos m p l -> slice m p (Z.of_nat (length l)) = l.
Proof. intros (Hp & rest & Hd). unfold slice. by rewrite Hd, Nat2Z.id, take_app_length. Qed.

Lemma at_pos_get16 m p v : at_pos m p (ns_put16 v) -> 0 <= v < 65536 -> ns_get16 m p = Some v.
Proof.
  intros H Hv. apply at_pos_cons in H as [Ha H]. apply at_pos_cons in H as [Hb _].
  unfold ns_get16. rewrite Ha, Hb. cbn [mbind option_bind]. f_equal. unfold u8.
  rewrite Z.shiftl_mul_pow2, Z.shiftr_div_pow2, lor_last by (lia || apply Z.mod_pos_bound; lia). mlia.
Qed.

Lemma at_pos_get32 m p v : at_pos m p (ns_put32 v) -> 0 <= v < 2 ^ 32 -> ns_get32 m p = Some v.
Proof.
  intros H Hv. do 3 (let Ha := fresh "Ha" in apply at_pos_cons in H as [Ha H]). apply at_pos_cons in H as [Hd _].
  replace (p + 1 + 1) with (p + 2) in * by lia. replace (p + 2 + 1) with (p + 3) in * by lia.
  unfold ns_get32. rewrite Ha, Ha0, Ha1, Hd. cbn [mbind option_bind]. f_equal. unfold u8.
  rewrite !Z.shiftl_mul_pow2, !Z.shiftr_div_pow2 by lia.
  assert (H4 : forall a b c d, 0 <= b < 256 -> 0 <= c < 256 -> 0 <= d < 256 ->
    a * 2 ^ 24 .| b * 2 ^ 16 .| c * 2 ^ 8 .| d = a * 2 ^ 24 + b * 2 ^ 16 + c * 2 ^ 8 + d).
  { intros a b c d Hb Hc Hd'.
    replace (a * 2 ^ 24 .| b * 2 ^ 16) with ((a * 2 ^ 8 .| b) * 2 ^ 16)
      by (rewrite <- !Z.shiftl_mul_pow2 by lia; rewrite Z.shiftl_lor, Z.shiftl_shiftl by lia; done).
    rewrite lor_last by done.
    replace ((a * 256 + b) * 2 ^ 16 .| c * 2 ^ 8) with (((a * 256 + b) * 2 ^ 8 .| c) * 2 ^ 8)
      by (rewrite <- !(Z.shiftl_mul_pow2 _ 8), <- (Z.shiftl_mul_pow2 _ 16) by lia;
          rewrite Z.shiftl_lor, Z.shiftl_shiftl by lia; done).
    rewrite !lor_last by done. lia. }
  rewrite H4 by (apply Z.mod_pos_bound; lia). mlia.
Qed.

(** ** Skipping names *)

(** [dn_skipname] stops at any byte of these, wherever it is in a label. *)
Definition clean (c : Z) : Prop := 1 <= c < 192.

Inductive tail_ok : list Z -> Prop :=
| tail_end : tail_ok [0]
| tail_pointer a b : 192 <= a -> tail_ok [a; b].

(** Names as bytes. *)
Definition wire (ls : list (list Z)) (tail : list Z) : list Z :=
  concat (map (fun l => Z.of_nat (length l) :: l) ls) ++ tail.

Definition label_ok (l : list Z) : Prop := (1 <= length l < 64)%nat /\ Forall clean l.

Definition clean_name (nm : list Z) : Prop :=
  exists ls tail, nm = wire ls tail /\ Forall label_ok ls /\ tail_ok tail.

Lemma wire_clean ls : Forall label_ok ls -> Forall clean (concat (map (fun l => Z.of_nat (length l) :: l) ls)).
Proof.
  induction 1 as [|l ls [Hl Hc] _ IH]; [done|]. cbn. constructor; [unfold clean; lia|]. by apply Forall_app.
Qed.

Lemma skip_loop_clean m s l : Forall clean l -> forall fuel p, at_pos m p l -> (length l <= fuel)%nat ->
  skip_loop fuel m s p = skip_loop (fuel - length l) m s (p + Z.of_nat (length l)).
Proof.
  induction 1 as [|c l Hc _ IH]; intros fuel p Ha Hf.
  { cbn [length]. rewrite Nat.sub_0_r. f_equal. lia. }
  destruct fuel as [|fuel]; cbn [length] in *; [lia|]. apply at_pos_cons in Ha as [Hr Ha].
  pose proof (rd_bounds _ _ _ Hr). cbn [skip_loop]. rewrite (proj2 (Z.ltb_lt p (eom m))) by lia.
  rewrite Hr. cbn [mbind option_bind]. unfold clean in Hc. rewrite (proj2 (Z.eqb_neq c 0)) by lia.
  destruct (Z.geb_spec c 192); [lia|]. rewrite IH by (done || lia). f_equal; lia.
Qed.

Lemma skipname_wire m p nm : clean_name nm -> at_pos m p nm -> dn_skipname m p = Some (Z.of_nat (length nm)).
Proof.
  intros (ls & tail & -> & Hls & Ht) Ha. unfold dn_skipname, wire in *.
  set (pre := concat _) in *. apply at_pos_app in Ha as [Ha Ha'].
  pose proof (at_pos_end _ _ _ Ha) as He. pose proof (at_pos_end _ _ _ Ha') as He'.
  destruct Ha as [Hp Ha]. unfold eom in *. rewrite length_app.
  rewrite (skip_loop_clean m p pre (wire_clean _ Hls) (S (length m)) p (conj Hp Ha)) by lia.
  destruct (S (length m) - length pre)%nat as [|fuel] eqn:Ef; [lia|]. cbn [skip_loop].
  destruct Ht as [|a b Hab]; apply at_pos_cons in Ha' as [Hr Ha']; rewrite Hr; cbn [length mbind option_bind] in *.
  - rewrite (proj2 (Z.ltb_lt _ _)) by (apply rd_bounds in Hr; unfold eom in *; lia). cbn. f_equal. lia.
  - rewrite (proj2 (Z.ltb_lt (p + _) _)) by (apply rd_bounds in Hr; unfold eom in *; lia).
    rewrite (proj2 (Z.eqb_neq a 0)) by lia. destruct (Z.geb_spec a 192); [|lia].
    rewrite (proj2 (Z.ltb_lt _ _)) by (unfold eom; lia). f_equal. lia.
Qed.

(** Whatever the bytes, the result is -1 or the length of a part of the message. *)
Lemma skip_loop_bounds m s fuel p : 0 <= s <= p -> p <= eom m ->
  exists r, skip_loop fuel m s p = Some r /\ (r = -1 \/ 0 < r /\ s + r <= eom m).
Proof.
  revert p. induction fuel as [|fuel IH]; intros p Hp He; cbn [skip_loop]; [eauto|].
  destruct (Z.ltb_spec p (eom m)); [|eauto]. destruct (rd_in m p) as [c Hc]; [lia|]. rewrite Hc.
  cbn [mbind option_bind]. destruct (c =? 0); [eexists; split; [done|right; lia]|].
  destruct (c >=? 192); [|apply IH; lia].
  destruct (Z.ltb_spec (p + 1) (eom m)); eexists; (split; [done|]); [right; lia|by left].
Qed.

Lemma skipname_bounds m s : 0 <= s <= eom m ->
  exists r, dn_skipname m s = Some r /\ (r = -1 \/ 0 < r /\ s + r <= eom m).
Proof. intros Hs. apply skip_loop_bounds; lia. Qed.

(** ** Records and sections *)
Record rr := Rr { r_name : list Z; r_type : Z; r_class : Z; r_ttl : Z; r_data : list Z }.

(** A record in a message; questions (section 0) end after the class. *)
Definition enc_rr (section : Z) (r : rr) : list Z :=
  r_name r ++ ns_put16 (r_type r) ++ ns_put16 (r_class r) ++
  (if section =? 0 then []
   else ns_put32 (r_ttl r) ++ ns_put16 (Z.of_nat (length (r_data r))) ++ r_data r).

Definition rr_ok (r : rr) : Prop :=
  clean_name (r_name r) /\ 0 <= r_type r < 65536 /\ 0 <= r_class r < 65536 /\ 0 <= r_ttl r < 2 ^ 32 /\
  Z.of_nat (length (r_data r)) < 65536.

Definition enc_section (section : Z) (rs : list rr) : list Z := concat (map (enc_rr section) rs).

Lemma clean_name_length nm : clean_name nm -> (1 <= length nm)%nat.
Proof. intros (ls & tail & -> & _ & Ht). unfold wire. rewrite length_app. destruct Ht; cbn; lia. Qed.

Lemma skiprr_step count m section p r :
  at_pos m p (enc_rr section r) -> rr_ok r ->
  skiprr_loop (S count) m section p = skiprr_loop count m section (p + Z.of_nat (length (enc_rr section r))).
Proof.
  intros Ha (Hn & Ht & Hc & Hl & Hd). unfold enc_rr in *. apply at_pos_app in Ha as [An Ha].
  cbn [skiprr_loop]. rewrite (skipname_wire _ _ _ Hn An). cbn [mbind option_bind].
  pose proof (at_pos_end _ _ _ Ha) as He. rewrite !length_app in *. cbn [length ns_put16] in *.
  rewrite (proj2 (Z.ltb_ge _ 0)) by lia.
  destruct (Z.gtb_spec (Z.of_nat (length (r_name r)) + 2 * 2) (eom m - p)); [lia|].
  destruct (Z.eqb_spec section 0) as [->|Hs]; cbn [negb].
  - f_equal. cbn. lia.
  - apply at_pos_app in Ha as [_ Ha]. apply at_pos_app in Ha as [_ Ha]. apply at_pos_app in Ha as [_ Ha].
    apply at_pos_app in Ha as [Al Ha]. rewrite !length_app in *. cbn [length ns_put16 ns_put32] in *.
    destruct (Z.gtb_spec (4 + 2) (eom m - (p + (Z.of_nat (length (r_name r)) + 2 * 2)))); [lia|].
    match type of Al with at_pos _ ?a _ =>
      replace (p + (Z.of_nat (length (r_name r)) + 2 * 2) + 4) with a by lia end.
    rewrite (at_pos_get16 _ _ _ Al) by lia. cbn [mbind option_bind].
    match goal with |- context [?a >? ?b] => destruct (Z.gtb_spec a b); [lia|] end. f_equal. lia.
Qed.

Lemma skiprr_section m section p rs :
  at_pos m p (enc_section section rs) -> Forall rr_ok rs ->
  skiprr_loop (length rs) m section p = Some (Some (p + Z.of_nat (length (enc_section section rs)))).
Proof.
  intros Ha H. revert p Ha. induction H as [|r rs Hr _ IH]; intros p Ha.
  { cbn. by rewrite Z.add_0_r. }
  unfold enc_section in *. cbn [map concat length] in *. apply at_pos_app in Ha as [A1 A2].
  rewrite (skiprr_step _ _ _ _ _ A1 Hr), IH by done. rewrite length_app. do 2 f_equal. lia.
Qed.

(** ** Messages *)
Fixpoint enc_sections (i : Z) (secs : list (list rr)) : list Z :=
  match secs with [] => [] | rs :: secs => enc_section i rs ++ enc_sections (i + 1) secs end.

Definition enc_msg (id flags : Z) (secs : list (list rr)) : list Z :=
  ns_put16 id ++ ns_put16 flags ++ concat (map (fun rs => ns_put16 (Z.of_nat (length rs))) secs) ++
  enc_sections 0 secs.

Definition counts_of (secs : list (list rr)) : list Z := map (fun rs => Z.of_nat (length rs)) secs.

Fixpoint starts (i p : Z) (secs : list (list rr)) : list (option Z) :=
  match secs with
  | [] => []
  | rs :: secs =>
      (if (length rs =? 0)%nat then None else Some p) ::
      starts (i + 1) (p + Z.of_nat (length (enc_section i rs))) secs
  end.

Definition secs_ok (secs : list (list rr)) : Prop :=
  Forall (fun rs => Forall rr_ok rs /\ (Z.of_nat (length rs) < 65536)) secs.

Lemma find_sections_eq m secs i p :
  at_pos m p (enc_sections i secs) -> secs_ok secs ->
  find_sections (counts_of secs) m i p =
    Some (Some (starts i p secs, p + Z.of_nat (length (enc_sections i secs)))).
Proof.
  intros Ha H. revert i p Ha. induction H as [|rs secs [Hrs _] _ IH]; intros i p Ha.
  { cbn. by rewrite Z.add_0_r. }
  cbn [enc_sections counts_of map find_sections starts] in *. apply at_pos_app in Ha as [A1 A2].
  specialize (IH _ _ A2). rewrite length_app.
  destruct rs as [|r rs'] eqn:Ers; cbn [length Z.of_nat Z.eqb negb Nat.eqb].
  - cbn [enc_section map concat length Z.of_nat] in *. rewrite Z.add_0_r in IH. unfold counts_of in IH.
    rewrite Z.add_0_r, IH. done.
  - rewrite <- Ers in *. unfold ns_skiprr. rewrite Nat2Z.inj_succ.
    replace (Z.to_nat (Z.succ (Z.of_nat (length rs')))) with (length rs) by (rewrite Ers; cbn; lia).
    rewrite (skiprr_section _ _ _ _ A1 Hrs). cbn [mbind option_bind].
    replace (p + (p + Z.of_nat (length (enc_section i rs)) - p)) with
      (p + Z.of_nat (length (enc_section i rs))) by lia.
    unfold counts_of in IH. rewrite IH. cbn [mbind option_bind].
    replace (Z.succ (Z.of_nat (length rs')) =? 0) with false by (symmetry; apply Z.eqb_neq; lia). cbn.
    do 3 f_equal. lia.
Qed.

Lemma get_counts_eq m p ns :
  at_pos m p (concat (map ns_put16 ns)) -> Forall (fun n => 0 <= n < 65536) ns ->
  get_counts (length ns) m p = Some ns.
Proof.
  intros Ha H. revert p Ha. induction H as [|n ns Hn _ IH]; intros p Ha; [done|].
  cbn [map concat get_counts length] in *. apply at_pos_app in Ha as [A1 A2].
  rewrite (at_pos_get16 _ _ _ A1 Hn). cbn [mbind option_bind]. by rewrite (IH (p + 2) A2).
Qed.

Lemma enc_msg_parts id flags secs :
  length secs = 4%nat -> let m := enc_msg id flags secs in
  at_pos m 0 (ns_put16 id) /\ at_pos m 2 (ns_put16 flags) /\
  at_pos m 4 (concat (map (fun rs : list rr => ns_put16 (Z.of_nat (length rs))) secs)) /\
  at_pos m 12 (enc_sections 0 secs) /\ eom m = 12 + Z.of_nat (length (enc_sections 0 secs)).
Proof.
  intros H4 m.
  assert (Ha : at_pos m 0 m).
  { split; [unfold eom; lia|]. exists []. by rewrite drop_0, app_nil_r. }
  assert (Hlc : length (concat (map (fun rs : list rr => ns_put16 (Z.of_nat (length rs))) secs)) = 8%nat).
  { destruct secs as [|? [|? [|? [|? [|? ?]]]]]; done. }
  assert (He : eom m = 12 + Z.of_nat (length (enc_sections 0 secs))).
  { unfold eom, m, enc_msg. rewrite !length_app, Hlc. cbn [length ns_put16]. lia. }
  unfold m at 2 in Ha. clearbody m. unfold enc_msg in Ha.
  apply at_pos_app in Ha as [A1 Ha]. apply at_pos_app in Ha as [A2 Ha]. apply at_pos_app in Ha as [A3 A4].
  rewrite Hlc in A4. by split_and!.
Qed.

Lemma initparse_eq id flags secs :
  length secs = 4%nat -> 0 <= id < 65536 -> 0 <= flags < 65536 -> secs_ok secs ->
  ns_initparse (enc_msg id flags secs) =
    Some (Some (NsMsg id flags (counts_of secs) (starts 0 12 secs) 4 (-1) None)).
Proof.
  intros H4 Hid Hfl Hok. destruct (enc_msg_parts id flags secs H4) as (A1 & A2 & A3 & A4 & He).
  set (m := enc_msg id flags secs) in *. clearbody m.
  unfold ns_initparse.
  rewrite (proj2 (Z.ltb_ge _ _)) by lia.
  rewrite (at_pos_get16 _ _ _ A1 Hid). cbn [mbind option_bind].
  rewrite (at_pos_get16 _ _ _ A2 Hfl). cbn [mbind option_bind].
  assert (Hc : get_counts 4 m 4 = Some (counts_of secs)).
  { rewrite <- H4. replace (length secs) with (length (counts_of secs)) by (unfold counts_of; by rewrite length_map).
    apply get_counts_eq; [unfold counts_of; by rewrite map_map|]. unfold counts_of. apply Forall_map.
    revert Hok. apply Forall_impl. intros rs [_ Hl]. cbn. lia. }
  rewrite Hc. cbn [mbind option_bind].
  rewrite (find_sections_eq _ _ _ _ A4 Hok). cbn [mbind option_bind].
  by rewrite He, (proj2 (Z.eqb_eq _ _)).
Qed.

(** Positions. *)
Definition sec_pos (secs : list (list rr)) (s : nat) : Z := 12 + Z.of_nat (length (enc_sections 0 (take s secs))).
Definition rr_pos (secs : list (list rr)) (s n : nat) : Z :=
  sec_pos secs s + Z.of_nat (length (enc_section (Z.of_nat s) (take n (nth s secs [])))).

Lemma enc_sections_app i a b : enc_sections i (a ++ b) = enc_sections i a ++ enc_sections (i + Z.of_nat (length a)) b.
Proof.
  revert i. induction a as [|rs a IH]; intros i; cbn [enc_sections app length]; [by rewrite Z.add_0_r|].
  rewrite IH, <- app_assoc. do 3 f_equal. lia.
Qed.

Lemma enc_section_app i a b : enc_section i (a ++ b) = enc_section i a ++ enc_section i b.
Proof. unfold enc_section. by rewrite map_app, concat_app. Qed.

Lemma starts_lookup i p secs s rs :
  secs !! s = Some rs -> starts i p secs !! s =
    Some (if (length rs =? 0)%nat then None else Some (p + Z.of_nat (length (enc_sections i (take s secs))))).
Proof.
  revert i p s. induction secs as [|rs' secs IH]; intros i p [|s] Hs; try done.
  - injection Hs as ->. cbn. rewrite Z.add_0_r. done.
  - cbn [lookup list_lookup starts] in *. rewrite (IH _ _ _ Hs). cbn [take enc_sections]. rewrite length_app.
    case_match; [done|]. do 2 f_equal. lia.
Qed.

Lemma at_pos_records m secs s rs a b c :
  at_pos m 12 (enc_sections 0 secs) -> secs !! s = Some rs -> rs = a ++ b ++ c ->
  at_pos m (rr_pos secs s (length a)) (enc_section (Z.of_nat s) b) /\
  rr_pos secs s (length (a ++ b)) = rr_pos secs s (length a) + Z.of_nat (length (enc_section (Z.of_nat s) b)).
Proof.
  intros Ha Hs ->. apply list_elem_of_split_length in Hs as (l1 & l2 & -> & ->).
  rewrite enc_sections_app in Ha. cbn [enc_sections] in Ha. rewrite !enc_section_app in Ha.
  apply at_pos_app in Ha as [_ Ha]. apply at_pos_app in Ha as [Ha _]. apply at_pos_app in Ha as [_ Ha].
  apply at_pos_app in Ha as [Ha _]. unfold rr_pos, sec_pos. rewrite take_app_length, nth_middle.
  rewrite Z.add_0_l in Ha. rewrite take_app_length, (app_assoc a b c), take_app_length.
  split; [exact Ha|]. rewrite enc_section_app, length_app. lia.
Qed.

(** ** Reading records *)
Definition rr_of (section p : Z) (r : rr) (text : list Z) : ns_rr :=
  let d := p + Z.of_nat (length (r_name r)) + 10 in
  if section =? 0 then NsRr text (r_type r) (r_class r) 0 0 None
  else NsRr text (r_type r) (r_class r) (r_ttl r) (Z.of_nat (length (r_data r))) (Some d).

Lemma read_rr_eq m h section p r text :
  at_pos m p (enc_rr section r) -> rr_ok r ->
  __dn_expand m p 1025 = Some (Some (Z.of_nat (length (r_name r)), text)) ->
  read_rr m h section p =
    Some (next_rr h section (p + Z.of_nat (length (enc_rr section r))), inl (rr_of section p r text)) /\
  (section <> 0 -> slice m (p + Z.of_nat (length (r_name r)) + 10) (Z.of_nat (length (r_data r))) = r_data r).
Proof.
  intros Ha (Hn & Ht & Hc & Hl & Hd) Hx. unfold enc_rr in *.
  apply at_pos_app in Ha as [An Ha]. pose proof (at_pos_end _ _ _ Ha) as He.
  apply at_pos_app in Ha as [At Ha]. apply at_pos_app in Ha as [Ac Ha].
  unfold read_rr, ns_name_uncompress. rewrite Hx. cbn [mbind option_bind].
  rewrite !length_app in *. cbn [length ns_put16] in He, Ac, Ha. 
  set (q := p + Z.of_nat (length (r_name r))) in *.
  change (Z.of_nat 2) with 2 in *. replace (q + 2 + 2) with (q + 4) in * by lia.
  destruct (Z.gtb_spec (2 * 2) (eom m - q)); [lia|].
  rewrite (at_pos_get16 _ _ _ At Ht). cbn [mbind option_bind].
  rewrite (at_pos_get16 _ _ _ Ac Hc). cbn [mbind option_bind]. unfold rr_of. fold q.
  destruct (Z.eqb_spec section 0) as [->|Hs]; cbn [negb].
  { split; [|done]. cbn [length app ns_put16]. do 3 f_equal. lia. }
  apply at_pos_app in Ha as [Al Ha]. apply at_pos_app in Ha as [Ad Ha].
  pose proof (at_pos_end _ _ _ Ha) as He'. pose proof (at_pos_slice _ _ _ Ha) as Hsl.
  cbn [length ns_put32 ns_put16] in *.
  change (Z.of_nat 4) with 4 in *. change (Z.of_nat 2) with 2 in *.
  replace (q + 4 + 4 + 2) with (q + 10) in * by lia.
  destruct (Z.gtb_spec (4 + 2) (eom m - (q + 4))); [lia|].
  rewrite (at_pos_get32 _ _ _ Al Hl). cbn [mbind option_bind].
  rewrite (at_pos_get16 _ _ _ Ad) by lia. cbn [mbind option_bind].
  replace (q + 4 + 6) with (q + 10) by lia.
  destruct (Z.gtb_spec (Z.of_nat (length (r_data r))) (eom m - (q + 10))); [lia|].
  split; [|intros _; exact Hsl]. rewrite !length_app. cbn [length ns_put32 ns_put16]. do 3 f_equal. lia.
Qed.

(** What a handle describes: the message with sections [secs], and the next
    record that will be read. *)
Definition valid (secs : list (list rr)) (h : ns_msg) : Prop :=
  _counts h = counts_of secs /\ _sections h = starts 0 12 secs /\ 0 <= _sect h <= 4 /\
  (_sect h < 4 -> exists rs, secs !! Z.to_nat (_sect h) = Some rs /\
     0 <= _rrnum h <= Z.of_nat (length rs) /\
     (rs <> [] -> _msg_ptr h = Some (rr_pos secs (Z.to_nat (_sect h)) (Z.to_nat (_rrnum h))))).

Lemma nth_counts secs s rs : secs !! s = Some rs -> nth s (counts_of secs) 0 = Z.of_nat (length rs).
Proof. intros Hs. apply nth_lookup_Some. unfold counts_of. rewrite list_lookup_fmap, Hs. done. Qed.

Lemma rr_pos_0 secs s : rr_pos secs s 0 = sec_pos secs s.
Proof. unfold rr_pos. rewrite take_0. change (length (enc_section (Z.of_nat s) [])) with O. lia. Qed.

Lemma nth_starts secs s rs : secs !! s = Some rs -> rs <> [] -> nth s (starts 0 12 secs) None = Some (rr_pos secs s 0).
Proof.
  intros Hs Hne. rewrite (nth_lookup_Some _ _ _ _ (starts_lookup 0 12 secs s rs Hs)), rr_pos_0.
  destruct rs; [done|]. reflexivity.
Qed.

(** The record number an iterating caller gets: the next of the same section,
    or the first of another one. *)
Definition next_num (h : ns_msg) (s : nat) : Z := if Z.of_nat s =? _sect h then _rrnum h else 0.

(** Where a call starts to read, once the handle is on the section [s]. *)
Lemma valid_enter secs h s rs :
  valid secs h -> secs !! s = Some rs -> (s < 4)%nat -> rs <> [] ->
  exists h', h' = (if negb (Z.of_nat s =? _sect h)
                   then set_pos h (Z.of_nat s) 0 (nth s (_sections h) None) else h) /\
    _sect h' = Z.of_nat s /\ _rrnum h' = next_num h s /\ 0 <= next_num h s <= Z.of_nat (length rs) /\
    _msg_ptr h' = Some (rr_pos secs s (Z.to_nat (next_num h s))) /\
    _counts h' = counts_of secs /\ _sections h' = starts 0 12 secs.
Proof.
  intros (Hc & Hst & Hr & Hv) Hs Hs4 Hne. eexists. split; [reflexivity|]. unfold next_num.
  destruct (Z.eqb_spec (Z.of_nat s) (_sect h)) as [He|Hn]; cbn [negb].
  - destruct Hv as (rs' & Hs' & Hb & Hp); [lia|]. rewrite <- He, Nat2Z.id in *.
    assert (rs' = rs) as -> by congruence. split_and!; try done; try lia. by apply Hp.
  - cbn. rewrite Hst, (nth_starts secs s rs) by done. split_and!; try done; lia.
Qed.

Lemma next_rr_valid secs h s rs n p :
  secs !! s = Some rs -> (s < 4)%nat -> (n < length rs)%nat ->
  _sect h = Z.of_nat s -> _rrnum h = Z.of_nat n -> _counts h = counts_of secs -> _sections h = starts 0 12 secs ->
  p = rr_pos secs s (S n) ->
  valid secs (next_rr h (Z.of_nat s) p) /\ _sect (next_rr h (Z.of_nat s) p) = Z.of_nat s /\
  _rrnum (next_rr h (Z.of_nat s) p) = Z.of_nat (S n).
Proof.
  intros Hs Hs4 Hn H1 H2 H3 H4 ->. unfold next_rr. rewrite H1, H2, H3, Nat2Z.id, (nth_counts _ _ _ Hs).
  destruct (Z.gtb_spec (Z.of_nat n + 1) (Z.of_nat (length rs))); [lia|].
  unfold valid. cbn. rewrite Nat2Z.id. split_and!; try done; try lia.
  intros _. exists rs. replace (Z.to_nat (Z.of_nat n + 1)) with (S n) by lia. split_and!; (done || lia).
Qed.

(** The last part of [ns_parserr]: from the record [c] on to the record [n]. *)
Lemma parserr_from m secs h s rs n c r text :
  at_pos m 12 (enc_sections 0 secs) -> secs_ok secs -> (s < 4)%nat ->
  secs !! s = Some rs -> rs !! n = Some r -> (c <= n)%nat ->
  _sect h = Z.of_nat s -> _rrnum h = Z.of_nat c -> _counts h = counts_of secs -> _sections h = starts 0 12 secs ->
  _msg_ptr h = Some (rr_pos secs s c) ->
  __dn_expand m (rr_pos secs s n) 1025 = Some (Some (Z.of_nat (length (r_name r)), text)) ->
  exists h', (p ← _msg_ptr h;
      if Z.of_nat n >? _rrnum h then
        q ← ns_skiprr m p (Z.of_nat s) (Z.of_nat n - _rrnum h);
        match q with
        | None => Some (h, inr EMSGSIZE)
        | Some q => read_rr m (set_pos h (_sect h) (Z.of_nat n) (Some (p + q))) (Z.of_nat s) (p + q)
        end
      else read_rr m h (Z.of_nat s) p) = Some (h', inl (rr_of (Z.of_nat s) (rr_pos secs s n) r text)) /\
    valid secs h' /\ next_num h' s = Z.of_nat (S n).
Proof.
  intros Ha Hok Hs4 Hs Hr Hcn H1 H2 H3 H4 H5 Hx.
  assert (Hn : (n < length rs)%nat) by by apply lookup_lt_Some in Hr.
  assert (Hrs : Forall rr_ok rs) by apply (Forall_lookup_1 _ _ _ _ Hok Hs).
  assert (Hrr : rr_ok r) by apply (Forall_lookup_1 _ _ _ _ Hrs Hr).
  (* the record and the ones before it *)
  pose proof (take_drop_middle _ _ _ Hr) as Hsplit.
  destruct (at_pos_records m secs s rs (take n rs) [r] (drop (S n) rs) Ha Hs) as [A1 P1]; [done|].
  rewrite length_app, length_take, Nat.min_l in * by lia. cbn [length] in P1. rewrite Nat.add_1_r in P1.
  replace (enc_section (Z.of_nat s) [r]) with (enc_rr (Z.of_nat s) r) in *
    by (unfold enc_section; cbn; by rewrite app_nil_r).
  destruct (read_rr_eq m (set_pos h (_sect h) (Z.of_nat n) (Some (rr_pos secs s n))) (Z.of_nat s) _ r text A1 Hrr Hx) as [Hread _].
  assert (Hend : forall h', _sect h' = Z.of_nat s -> _rrnum h' = Z.of_nat n -> _counts h' = counts_of secs ->
      _sections h' = starts 0 12 secs ->
      valid secs (next_rr h' (Z.of_nat s) (rr_pos secs s (S n))) /\
      next_num (next_rr h' (Z.of_nat s) (rr_pos secs s (S n))) s = Z.of_nat (S n)).
  { intros h' G1 G2 G3 G4. destruct (next_rr_valid secs h' s rs n _ Hs Hs4 Hn G1 G2 G3 G4 eq_refl) as (V1 & V2 & V3).
    split; [done|]. unfold next_num. by rewrite V2, Z.eqb_refl. }
  rewrite <- P1 in Hread. rewrite H5. cbn [mbind option_bind]. rewrite H2.
  destruct (Z.gtb_spec (Z.of_nat n) (Z.of_nat c)) as [Hgt|Hle].
  - assert (Hsk : ns_skiprr m (rr_pos secs s c) (Z.of_nat s) (Z.of_nat n - Z.of_nat c) =
              Some (Some (rr_pos secs s n - rr_pos secs s c))).
    { set (mid := take (n - c) (drop c rs)).
      destruct (at_pos_records m secs s rs (take c rs) mid (drop n rs) Ha Hs) as [A2 P2].
      { subst mid. rewrite <- (take_drop c rs) at 1. f_equal. rewrite <- (take_drop (n - c) (drop c rs)) at 1.
        f_equal. rewrite drop_drop. f_equal. lia. }
      assert (Hmid : length mid = (n - c)%nat) by (subst mid; rewrite length_take, length_drop; lia).
      rewrite length_app, length_take, Nat.min_l, Hmid in * by lia.
      replace (c + (n - c))%nat with n in P2 by lia.
      assert (Hokm : Forall rr_ok mid) by by apply Forall_take, Forall_drop.
      pose proof (skiprr_section _ _ _ _ A2 Hokm) as Hskip. rewrite Hmid in Hskip.
      unfold ns_skiprr. replace (Z.to_nat (Z.of_nat n - Z.of_nat c)) with (n - c)%nat by lia.
      rewrite Hskip, P2. reflexivity. }
    rewrite Hsk. cbn [mbind option_bind].
    replace (rr_pos secs s c + (rr_pos secs s n - rr_pos secs s c)) with (rr_pos secs s n) by lia.
    eexists. split; [exact Hread|]. by apply Hend.
  - assert (c = n) as -> by lia.
    destruct (read_rr_eq m h (Z.of_nat s) _ r text A1 Hrr Hx) as [Hread' _]. rewrite <- P1 in Hread'.
    eexists. split; [exact Hread'|]. by apply Hend.
Qed.

Lemma parserr_eq m secs h s rs n r rrnum text :
  at_pos m 12 (enc_sections 0 secs) -> secs_ok secs -> valid secs h -> (s < 4)%nat ->
  secs !! s = Some rs -> rs !! n = Some r ->
  rrnum = Z.of_nat n \/ (rrnum = -1 /\ next_num h s = Z.of_nat n) ->
  __dn_expand m (rr_pos secs s n) 1025 = Some (Some (Z.of_nat (length (r_name r)), text)) ->
  exists h', ns_parserr m h (Z.of_nat s) rrnum = Some (h', inl (rr_of (Z.of_nat s) (rr_pos secs s n) r text)) /\
    valid secs h' /\ next_num h' s = Z.of_nat (S n).
Proof.
  intros Ha Hok Hv Hs4 Hs Hr Hnum Hx. unfold ns_parserr.
  assert (Hn : (n < length rs)%nat) by by apply lookup_lt_Some in Hr.
  assert (Hne : rs <> []) by by (destruct rs; [cbn in Hn; lia|]).
  destruct (Z.ltb_spec (Z.of_nat s) 0); [lia|]. destruct (Z.geb_spec (Z.of_nat s) 4); [lia|]. cbn [orb].
  destruct (valid_enter secs h s rs Hv Hs Hs4 Hne) as (h1 & E1 & S1 & R1 & B1 & P1 & C1 & T1).
  rewrite Nat2Z.id, <- E1. rewrite (proj1 Hv), (nth_counts _ _ _ Hs).
  assert (Hrr : (if rrnum =? -1 then _rrnum h1 else rrnum) = Z.of_nat n).
  { destruct Hnum as [->|[-> Hnn]]; [by destruct (Z.eqb_spec (Z.of_nat n) (-1)); [lia|]|].
    cbn. by rewrite R1. }
  rewrite Hrr. destruct (Z.ltb_spec (Z.of_nat n) 0); [lia|].
  destruct (Z.geb_spec (Z.of_nat n) (Z.of_nat (length rs))); [lia|]. cbn [orb].
  destruct (Z.ltb_spec (Z.of_nat n) (_rrnum h1)) as [Hlt|Hge].
  - apply (parserr_from m secs _ s rs n 0 r text); try done; [lia|].
    cbn. by rewrite (proj1 (proj2 Hv)), (nth_starts secs s rs).
  - apply (parserr_from m secs _ s rs n (Z.to_nat (_rrnum h1)) r text); try done; [lia|lia|]. by rewrite P1, R1.
Qed.

(** ** Arbitrary messages *)
Lemma expands_end m p k ls q : expands 64 m p k ls q -> p < q <= eom m.
Proof.
  induction 1 as [p H|p n k ls q H Hr He _ IH|p a b k ls q Ha Hr Hb _ IH].
  - apply rd_bounds in H. lia.
  - lia.
  - apply rd_bounds in Hb. lia.
Qed.

Lemma skiprr_bounds m section count p : bytes m -> 0 <= p <= eom m ->
  exists r, skiprr_loop count m section p = Some r /\ forall q, r = Some q -> p <= q <= eom m.
Proof.
  intros Hm. revert p. induction count as [|count IH]; intros p Hp; cbn [skiprr_loop].
  { eexists. split; [done|]. intros q [= <-]. lia. }
  assert (Hnone : exists r : option Z, Some None = Some r /\ forall q, r = Some q -> p <= q <= eom m)
    by by exists None.
  destruct (skipname_bounds m p Hp) as (r & -> & Hr). cbn [mbind option_bind].
  destruct (Z.ltb_spec r 0); [done|]. destruct (Z.gtb_spec (r + 2 * 2) (eom m - p)); [done|].
  destruct (Z.eqb_spec section 0); cbn [negb].
  - destruct (IH (p + (r + 2 * 2))) as (x & -> & Hx); [lia|]. exists x. split; [done|].
    intros q Hq. specialize (Hx q Hq). lia.
  - destruct (Z.gtb_spec (4 + 2) (eom m - (p + (r + 2 * 2)))); [done|].
    destruct (ns_get16_in m (p + (r + 2 * 2) + 4) Hm) as (v & -> & Hv); [lia|lia|]. cbn [mbind option_bind].
    destruct (Z.gtb_spec v (eom m - (p + (r + 2 * 2) + 4 + 2))); [done|].
    destruct (IH (p + (r + 2 * 2) + 4 + 2 + v)) as (x & -> & Hx); [lia|]. exists x. split; [done|].
    intros q Hq. specialize (Hx q Hq). lia.
Qed.

(** The handle's pointers are into the message. *)
Definition inside (m : list Z) (p : option Z) : Prop := exists q, p = Some q /\ 0 <= q <= eom m.

Record Inv (m : list Z) (h : ns_msg) : Prop := {
  inv_sections s : (s < 4)%nat -> 0 < nth s (_counts h) 0 -> inside m (nth s (_sections h) None);
  inv_sect : 0 <= _sect h <= 4;
  inv_num : _sect h < 4 -> 0 <= _rrnum h <= Z.max 0 (nth (Z.to_nat (_sect h)) (_counts h) 0);
  inv_ptr : _sect h < 4 -> 0 < nth (Z.to_nat (_sect h)) (_counts h) 0 -> inside m (_msg_ptr h) }.

Lemma inv_set m h s n p :
  Inv m h -> 0 <= s < 4 -> 0 <= n <= Z.max 0 (nth (Z.to_nat s) (_counts h) 0) ->
  (0 < nth (Z.to_nat s) (_counts h) 0 -> inside m p) -> Inv m (set_pos h s n p).
Proof. intros [H1 H2 H3 H4] Hs Hn Hp. split; cbn; [exact H1|lia|done|done]. Qed.

Definition rr_inside (m : list Z) (r : ns_rr) : Prop :=
  (length (name r) < 254)%nat /\ forall d, rdata r = Some d -> 0 <= d /\ d + rdlength r <= eom m.

Definition safe (m : list Z) (x : option (ns_msg * (ns_rr + Z))) : Prop :=
  exists h res, x = Some (h, res) /\ Inv m h /\ match res with inl r => rr_inside m r | inr e => e = EMSGSIZE \/ e = ENODEV end.

Lemma safe_err m h e : e = EMSGSIZE \/ e = ENODEV -> Inv m h -> safe m (Some (h, inr e)).
Proof. intros. by exists h, (inr e). Qed.

Lemma next_rr_inv m h section p :
  Inv m h -> _sect h = section -> 0 <= section < 4 -> 0 <= _rrnum h < nth (Z.to_nat section) (_counts h) 0 ->
  0 <= p <= eom m -> Inv m (next_rr h section p).
Proof.
  intros Hi <- Hs Hn Hp. unfold next_rr. destruct (Z.gtb_spec (_rrnum h + 1) (nth (Z.to_nat (_sect h)) (_counts h) 0)); [lia|].
  apply inv_set; [done|lia|lia|]. intros _. by exists p.
Qed.

Lemma read_rr_safe m h section p :
  bytes m -> Inv m h -> _sect h = section -> 0 <= section < 4 ->
  0 <= _rrnum h < nth (Z.to_nat section) (_counts h) 0 -> 0 <= p <= eom m -> safe m (read_rr m h section p).
Proof.
  intros Hm Hi Hsec Hs Hn Hp. unfold read_rr, ns_name_uncompress.
  assert (Hset : forall q, 0 <= q <= eom m -> Inv m (set_pos h (_sect h) (_rrnum h) (Some q))).
  { intros q Hq. apply inv_set; [done|lia|rewrite Hsec; lia|]. intros _. by exists q. }
  destruct (dn_expand_spec m p 1025 Hm Hp) as ([[r nm]|] & -> & Hx); cbn [mbind option_bind]; [|by apply safe_err; [auto|]].
  destruct (proj1 (Hx r nm) eq_refl) as (k & ls & He & _ & _ & Hl). apply expands_end in He.
  destruct (Z.gtb_spec (2 * 2) (eom m - (p + r))); [apply safe_err; [auto|apply Hset; lia]|].
  destruct (ns_get16_in m (p + r) Hm) as (ty & -> & _); [lia|lia|]. cbn [mbind option_bind].
  destruct (ns_get16_in m (p + r + 2) Hm) as (cl & -> & _); [lia|lia|]. cbn [mbind option_bind].
  assert (Hnext : forall p1 p2, 0 <= p1 <= eom m -> 0 <= p2 <= eom m ->
      Inv m (next_rr (set_pos h (_sect h) (_rrnum h) (Some p1)) section p2)).
  { intros p1 p2 H1 H2. by apply next_rr_inv; [apply Hset|..]. }
  destruct (Z.eqb_spec section 0); cbn [negb].
  { eexists _, _. split; [reflexivity|]. split; [apply (Hnext (p + r + 4)); lia|].
    split; [cbn; lia|done]. }
  destruct (Z.gtb_spec (4 + 2) (eom m - (p + r + 4))); [apply safe_err; [auto|apply Hset; lia]|].
  assert (Ht : exists ttl, ns_get32 m (p + r + 4) = Some ttl).
  { unfold ns_get32. destruct (rd_in m (p + r + 4)) as [a ->]; [lia|]. destruct (rd_in m (p + r + 4 + 1)) as [b ->]; [lia|].
    destruct (rd_in m (p + r + 4 + 2)) as [c ->]; [lia|]. destruct (rd_in m (p + r + 4 + 3)) as [d ->]; [lia|]. eauto. }
  destruct Ht as [tt ->]. cbn [mbind option_bind].
  destruct (ns_get16_in m (p + r + 4 + 4) Hm) as (len & -> & Hlen); [lia|lia|]. cbn [mbind option_bind].
  destruct (Z.gtb_spec len (eom m - (p + r + 4 + 6))); [apply safe_err; [auto|apply Hset; lia]|].
  eexists _, _. split; [reflexivity|]. split; [apply (Hnext (p + r + 4 + 6)); lia|].
  split; [cbn; lia|]. intros d [= <-]. cbn. lia.
Qed.

Lemma parserr_safe m h section rrnum : bytes m -> Inv m h -> safe m (ns_parserr m h section rrnum).
Proof.
  intros Hm Hi. unfold ns_parserr.
  destruct (Z.ltb_spec section 0); [by apply safe_err; [auto|]|]. destruct (Z.geb_spec section 4); [by apply safe_err; [auto|]|]. cbn [orb].
  set (start := nth (Z.to_nat section) (_sections h) None). set (count := nth (Z.to_nat section) (_counts h) 0).
  set (h1 := if negb (section =? _sect h) then set_pos h section 0 start else h).
  assert (G1 : Inv m h1 /\ _sect h1 = section /\ _counts h1 = _counts h).
  { subst h1. destruct (Z.eqb_spec section (_sect h)); cbn [negb]; [done|]. split_and!; [|done..].
    apply inv_set; [done|lia|lia|]. intros Hc. apply inv_sections; [done|lia|done]. }
  destruct G1 as (I1 & S1 & C1). set (n := if rrnum =? -1 then _rrnum h1 else rrnum).
  destruct (Z.ltb_spec n 0); [by apply safe_err; [auto|]|]. destruct (Z.geb_spec n count); [by apply safe_err; [auto|]|]. cbn [orb].
  set (h2 := if n <? _rrnum h1 then set_pos h1 (_sect h1) 0 start else h1).
  assert (G2 : Inv m h2 /\ _sect h2 = section /\ _counts h2 = _counts h /\ _rrnum h2 <= n).
  { subst h2. destruct (Z.ltb_spec n (_rrnum h1)); [|by split_and!]. split_and!; [|done..].
    apply inv_set; [done|lia|lia|]. intros _. apply inv_sections; [done|lia|fold count; lia]. }
  destruct G2 as (I2 & S2 & C2 & R2).
  destruct (inv_ptr m h2 I2) as (p & -> & Hp); [lia|rewrite S2, C2; fold count; lia|]. cbn [mbind option_bind].
  pose proof (inv_num m h2 I2) as Hnum. rewrite S2, C2 in Hnum. fold count in Hnum.
  destruct (Z.gtb_spec n (_rrnum h2)) as [Hgt|Hle].
  - unfold ns_skiprr. destruct (skiprr_bounds m section (Z.to_nat (n - _rrnum h2)) p Hm Hp) as (r & -> & Hr).
    cbn [mbind option_bind]. destruct r as [q|]; cbn [mbind option_bind]; [|by apply safe_err; [auto|]].
    specialize (Hr q eq_refl). replace (p + (q - p)) with q by lia.
    apply read_rr_safe; try done; cbn; rewrite ?C2; fold count; try lia.
    apply inv_set; [done|lia|rewrite S2, C2; fold count; lia|]. intros _. exists q. split; [done|lia].
  - apply read_rr_safe; try done; rewrite ?C2; fold count; lia.
Qed.

Lemma find_sections_bounds m counts i p :
  bytes m -> Forall (fun c => 0 <= c) counts -> 0 <= p <= eom m ->
  exists r, find_sections counts m i p = Some r /\ forall ss q, r = Some (ss, q) ->
    forall s, 0 < nth s counts 0 -> inside m (nth s ss None).
Proof.
  intros Hm H. revert i p. induction H as [|c counts Hc _ IH]; intros i p Hp; cbn [find_sections].
  { eexists. split; [done|]. intros ss q _ [|s]; cbn; lia. }
  destruct (Z.eqb_spec c 0) as [->|Hne]; cbn [negb].
  - destruct (IH (i + 1) p Hp) as (r & -> & Hr). cbn [mbind option_bind]. eexists. split; [done|].
    destruct r as [[ss e]|]; [|done]. cbn. intros ss' q [= <- <-] [|s]; cbn; [lia|by apply (Hr ss e)].
  - unfold ns_skiprr. destruct (skiprr_bounds m i (Z.to_nat c) p Hm Hp) as (r & -> & Hr). cbn [mbind option_bind].
    destruct r as [q|]; cbn [mbind option_bind]; [|by exists None].
    specialize (Hr q eq_refl). destruct (IH (i + 1) (p + (q - p))) as (x & -> & Hx); [lia|]. cbn [mbind option_bind].
    eexists. split; [done|]. destruct x as [[ss e]|]; [|done]. cbn.
    intros ss' q' [= <- <-] [|s]; cbn; [by exists p|by apply (Hx ss e)].
Qed.

Lemma get_counts_in m n p : bytes m -> 0 <= p -> p + 2 * Z.of_nat n <= eom m ->
  exists cs, get_counts n m p = Some cs /\ Forall (fun c => 0 <= c) cs.
Proof.
  intros Hm. revert p. induction n as [|n IH]; intros p Hp He; cbn [get_counts]; [by exists []|].
  destruct (ns_get16_in m p Hm) as (c & -> & Hc); [lia|lia|]. cbn [mbind option_bind].
  destruct (IH (p + 2)) as (cs & -> & Hcs); [lia|lia|]. exists (c :: cs). split; [done|]. constructor; [lia|done].
Qed.

Lemma initparse_safe m : bytes m ->
  exists r, ns_initparse m = Some r /\ forall h, r = Some h -> Inv m h.
Proof.
  intros Hm. unfold ns_initparse. destruct (Z.ltb_spec (eom m) ((2 + 4) * 2)); [by exists None|].
  destruct (ns_get16_in m 0 Hm) as (id & -> & _); [lia|lia|]. cbn [mbind option_bind].
  destruct (ns_get16_in m 2 Hm) as (fl & -> & _); [lia|lia|]. cbn [mbind option_bind].
  destruct (get_counts_in m 4 4 Hm) as (cs & -> & Hcs); [lia|lia|]. cbn [mbind option_bind].
  destruct (find_sections_bounds m cs 0 12 Hm Hcs) as (r & -> & Hr); [lia|]. cbn [mbind option_bind].
  destruct r as [[ss e]|]; cbn [mbind option_bind]; [|by exists None].
  destruct (e =? eom m); cbn [negb]; [|by exists None].
  eexists. split; [done|]. intros h [= <-]. split; cbn; [|lia|lia|lia].
  intros s _ Hs. by apply (Hr ss e).
Qed.

(** ** dns_parse *)

(** The names that [skip_name] understands: ASCII labels, and pointers to the
    first 511 bytes. *)
Definition ascii_label (l : list Z) : Prop := (1 <= length l < 64)%nat /\ Forall (fun c => 1 <= c < 128) l.
Definition near_tail (tail : list Z) : Prop :=
  tail = [0] \/ exists a b, tail = [a; b] /\ 0 <= b /\ (a = 192 \/ a = 193 /\ b <= 254).
Definition ascii_name (nm : list Z) : Prop :=
  exists ls tail, nm = wire ls tail /\ Forall ascii_label ls /\ near_tail tail.

Lemma scan_name_eq m rlen l : Forall (fun c => 1 <= c < 128) l ->
  forall fuel p, at_pos m p l -> p + Z.of_nat (length l) <= rlen -> (length l < fuel)%nat ->
  scan_name fuel m rlen p = scan_name (fuel - length l) m rlen (p + Z.of_nat (length l)).
Proof.
  induction 1 as [|c l Hc _ IH]; intros fuel p Ha He Hf.
  { cbn [length]. rewrite Nat.sub_0_r. f_equal. lia. }
  destruct fuel as [|fuel]; cbn [length] in *; [lia|]. apply at_pos_cons in Ha as [Hr Ha].
  cbn [scan_name]. rewrite (proj2 (Z.ltb_lt p rlen)) by lia. rewrite Hr. cbn [mbind option_bind].
  rewrite u32_id, (proj2 (Z.ltb_lt (c - 1) 127)) by lia. rewrite IH by (done || lia). f_equal; lia.
Qed.

(** The result is the position of the end of the name: its last byte, or the
    first of a pointer. *)
Lemma skip_name_eq m rlen p nm :
  ascii_name nm -> at_pos m p nm -> p + Z.of_nat (length nm) + 4 <= rlen ->
  (nth (length nm - 1) nm 0 = 0 -> p + Z.of_nat (length nm) + 5 <= rlen) ->
  exists q c, skip_name m rlen p = Some (Some (q, c)) /\
    q + (1 + b2z (negb (c =? 0))) = p + Z.of_nat (length nm).
Proof.
  intros (ls & tail & -> & Hls & Ht) Ha He Hz. unfold skip_name, wire in *.
  assert (Hpre : Forall (fun c => 1 <= c < 128) (concat (map (fun l => Z.of_nat (length l) :: l) ls))).
  { clear -Hls. induction Hls as [|l ls [Hl Hc] _ IH]; [done|]. cbn. constructor; [lia|]. by apply Forall_app. }
  set (pre := concat _) in *. apply at_pos_app in Ha as [Ha Ha']. rewrite !length_app in *.
  pose proof (proj1 (proj1 Ha)) as Hp.
  rewrite (scan_name_eq m rlen pre Hpre _ p Ha) by lia.
  destruct (S (Z.to_nat rlen) - length pre)%nat as [|fuel] eqn:Ef; [lia|]. cbn [scan_name].
  rewrite (proj2 (Z.ltb_lt _ rlen)) by (destruct Ht as [->|(a & b & -> & _)]; cbn in He; lia).
  destruct Ht as [->|(a & b & -> & Hb & Hab)]; apply at_pos_cons in Ha' as [Hr Ha']; rewrite Hr;
    cbn [mbind option_bind length] in *.
  - rewrite (proj2 (Z.ltb_ge _ 127)) by done. cbn [mbind option_bind]. rewrite Hr. cbn [mbind option_bind Z.gtb Z.eqb Z.compare].
    destruct (Z.gtb_spec (p + Z.of_nat (length pre)) (rlen - 6)) as [Hgt|_].
    { exfalso. assert (p + Z.of_nat (length pre + 1) + 5 <= rlen); [|lia]. apply Hz.
      replace (length pre + 1 - 1)%nat with (length pre) by lia. by rewrite nth_middle. }
    eexists _, _. split; [reflexivity|]. cbn. lia.
  - rewrite u32_id, (proj2 (Z.ltb_ge _ 127)) by lia. cbn [mbind option_bind]. rewrite Hr. cbn [mbind option_bind].
    destruct (Z.gtb_spec a 193); [lia|].
    assert (Hb' : (if a =? 193 then c1 ← rd m (p + Z.of_nat (length pre) + 1); Some (c1 >? 254) else Some false) = Some false).
    { destruct (Z.eqb_spec a 193); [|done]. apply at_pos_cons in Ha' as [Hr' _]. rewrite Hr'. cbn.
      destruct (Z.gtb_spec b 254); [lia|done]. }
    rewrite Hb'. cbn [mbind option_bind orb].
    destruct (Z.gtb_spec (p + Z.of_nat (length pre)) (rlen - 6)) as [Hgt|_]; [lia|].
    eexists _, _. split; [reflexivity|]. rewrite (proj2 (Z.eqb_neq a 0)) by lia. cbn. lia.
Qed.

Lemma put16_sum v : 0 <= v < 65536 -> u8 (v >> 8) * 256 + u8 v = v.
Proof. intros Hv. unfold u8. rewrite Z.shiftr_div_pow2 by lia. mlia. Qed.

Section dns_parse_spec.
Context {X : Type} (callback : X -> Z -> Z -> Z -> X * bool).

(** The callback on the records [rs], the first of which is at [p]; a refusal
    ends the run with -1. *)
Fixpoint run_callback (rs : list rr) (p : Z) (ctx : X) : X * Z :=
  match rs with
  | [] => (ctx, 0)
  | r :: rs =>
      let d := p + Z.of_nat (length (r_name r)) + 10 in
      let '(ctx, go) := callback ctx (r_type r mod 256) d (Z.of_nat (length (r_data r))) in
      if go then run_callback rs (d + Z.of_nat (length (r_data r))) ctx else (ctx, -1)
  end.

Lemma parse_questions_eq m rlen p qs more :
  at_pos m p (enc_section 0 qs ++ more) -> rlen = eom m -> (1 <= length more)%nat ->
  Forall (fun r => rr_ok r /\ ascii_name (r_name r)) qs ->
  parse_questions (length qs) m rlen p = Some (Some (p + Z.of_nat (length (enc_section 0 qs)))).
Proof.
  intros Ha -> Hmore H. revert p Ha. induction H as [|r qs [Hr Hn] _ IH]; intros p Ha.
  { cbn. by rewrite Z.add_0_r. }
  cbn [length parse_questions]. unfold enc_section in *. cbn [map concat] in *. rewrite <- app_assoc in Ha.
  pose proof (at_pos_end _ _ _ Ha) as He. apply at_pos_app in Ha as [A1 A2].
  unfold enc_rr in A1, He. cbn [Z.eqb] in A1, He. apply at_pos_app in A1 as [A1 _].
  rewrite !length_app in He. cbn [length ns_put16] in He.
  destruct (skip_name_eq m (eom m) p (r_name r) Hn A1) as (q & c & -> & Hq); [lia|lia|]. cbn [mbind option_bind].
  assert (Hlen : length (enc_rr 0 r) = (length (r_name r) + 4)%nat) by (unfold enc_rr; rewrite !length_app; cbn; lia).
  rewrite length_app, Hlen. rewrite Hlen in A2.
  replace (q + (5 + b2z (negb (c =? 0)))) with (p + Z.of_nat (length (r_name r) + 4)) by lia.
  rewrite (IH _ A2). do 2 f_equal. lia.
Qed.

Lemma parse_answers_eq m rlen p rs ctx :
  at_pos m p (enc_section 1 rs) -> rlen = eom m ->
  Forall (fun r => rr_ok r /\ ascii_name (r_name r)) rs ->
  parse_answers callback (length rs) m rlen p ctx = Some (run_callback rs p ctx).
Proof.
  intros Ha -> H. revert p ctx Ha. induction H as [|r rs [Hr Hn] _ IH]; intros p ctx Ha; [done|].
  cbn [length parse_answers run_callback]. unfold enc_section in *. cbn [map concat] in *.
  pose proof (at_pos_end _ _ _ Ha) as He. apply at_pos_app in Ha as [A1 A2].
  destruct Hr as (_ & Ht & _ & _ & Hd).
  assert (Hlen : length (enc_rr 1 r) = (length (r_name r) + 10 + length (r_data r))%nat)
    by (unfold enc_rr; cbn [Z.eqb]; rewrite !length_app; cbn; lia).
  rewrite length_app, Hlen in He. rewrite Hlen in A2. unfold enc_rr in A1. cbn [Z.eqb] in A1.
  apply at_pos_app in A1 as [An A1]. apply at_pos_app in A1 as [At A1]. apply at_pos_app in A1 as [_ A1].
  apply at_pos_app in A1 as [_ A1]. apply at_pos_app in A1 as [Al _].
  destruct (skip_name_eq m (eom m) p (r_name r) Hn An) as (q & c & -> & Hq); [lia|lia|]. cbn [mbind option_bind].
  rewrite Hq. set (e := p + Z.of_nat (length (r_name r))) in *. cbn [length ns_put16 ns_put32] in Al.
  replace (e + Z.of_nat 2 + Z.of_nat 2 + Z.of_nat 4) with (e + 8) in Al by lia.
  apply at_pos_cons in Al as [R1 Al]. apply at_pos_cons in Al as [R2 _].
  replace (e + 8 + 1) with (e + 9) in R2 by lia.
  apply at_pos_cons in At as [_ At]. apply at_pos_cons in At as [R3 _].
  rewrite R1, R2, R3. cbn [mbind option_bind].
  rewrite put16_sum by lia. destruct (Z.gtb_spec (e + Z.of_nat (length (r_data r))) (eom m)); [lia|].
  change (u8 (r_type r)) with (r_type r mod 256).
  destruct (callback ctx (r_type r mod 256) (e + 10) (Z.of_nat (length (r_data r)))) as [ctx' [|]]; cbn [negb]; [|done].
  replace (e + (10 + Z.of_nat (length (r_data r)))) with (e + 10 + Z.of_nat (length (r_data r))) by lia.
  apply IH. replace (e + 10 + Z.of_nat (length (r_data r))) with
    (p + Z.of_nat (length (r_name r) + 10 + length (r_data r))) by lia. exact A2.
Qed.

(** With twelve bytes to spare after the message nothing is read outside. *)
Lemma scan_name_in m rlen fuel p : 0 <= p -> Z.max p rlen < eom m -> rlen - p < Z.of_nat fuel -> (0 < fuel)%nat ->
  exists q, scan_name fuel m rlen p = Some q /\ p <= q <= Z.max p rlen.
Proof.
  revert p. induction fuel as [|fuel IH]; intros p Hp He Hf H0; [lia|]. cbn [scan_name].
  destruct (Z.ltb_spec p rlen); [|exists p; split; [done|lia]].
  destruct (rd_in m p) as [c ->]; [lia|]. cbn [mbind option_bind].
  destruct (_ <? 127); [|exists p; split; [done|lia]].
  destruct (IH (p + 1)) as (q & -> & Hq); [lia..|]. exists q. split; [done|lia].
Qed.

Lemma skip_name_in m rlen p : 0 <= p -> p <= rlen + 10 -> rlen + 12 <= eom m ->
  exists r, skip_name m rlen p = Some r /\ forall q c, r = Some (q, c) -> p <= q <= rlen - 6.
Proof.
  intros Hp Hr He. unfold skip_name.
  destruct (scan_name_in m rlen (S (Z.to_nat rlen)) p) as (q & -> & Hq); [lia..|]. cbn [mbind option_bind].
  destruct (rd_in m q) as [c ->]; [lia|]. destruct (rd_in m (q + 1)) as [c1 Hc1]; [lia|].
  assert (Hb : exists b, (if c =? 193 then c1 ← rd m (q + 1); Some (c1 >? 254) else Some false) = Some b)
    by (rewrite Hc1; destruct (c =? 193); cbn; eauto).
  destruct Hb as [b Hb]. cbn [mbind option_bind] in *.
  destruct (c >? 193); cbn [mbind option_bind]; [by exists None|]. rewrite Hb. cbn [mbind option_bind].
  eexists. split; [done|]. intros q' c'.
  destruct b; [done|]. cbn [orb]. destruct (Z.gtb_spec q (rlen - 6)); [done|]. intros [= <- <-]. lia.
Qed.

Lemma questions_in m rlen n p : 0 <= p -> p <= rlen -> rlen + 12 <= eom m ->
  exists r, parse_questions n m rlen p = Some r /\ forall q, r = Some q -> p <= q <= rlen.
Proof.
  intros Hp Hr He. revert p Hp Hr. induction n as [|n IH]; intros p Hp Hr; cbn [parse_questions].
  { eexists. split; [done|]. intros q [= <-]. lia. }
  destruct (skip_name_in m rlen p) as (r & -> & Hq); [lia..|]. cbn [mbind option_bind].
  destruct r as [[q c]|]; [|by exists None]. specialize (Hq q c eq_refl).
  destruct (IH (q + (5 + b2z (negb (c =? 0))))) as (r & -> & Hr'); [destruct (negb _); cbn; lia..|].
  exists r. split; [done|]. intros q' Hq'. specialize (Hr' q' Hq'). destruct (negb _); cbn in Hr'; lia.
Qed.

Lemma answers_in (P : X -> Prop) m rlen n p ctx :
  bytes m -> 0 <= p -> p <= rlen + 10 -> rlen + 12 <= eom m -> P ctx ->
  (forall x t off len, P x -> 0 <= off -> 0 <= len -> off + len <= rlen + 10 -> P (callback x t off len).1) ->
  exists r, parse_answers callback n m rlen p ctx = Some r /\ P r.1.
Proof.
  intros Hm Hp Hr He Hc Hcb. revert p ctx Hp Hr Hc. induction n as [|n IH]; intros p ctx Hp Hr Hc; cbn [parse_answers].
  { by eexists. }
  destruct (skip_name_in m rlen p Hp Hr He) as (r & -> & Hq). cbn [mbind option_bind].
  destruct r as [[q c]|]; [|by eexists]. specialize (Hq q c eq_refl).
  set (e := q + (1 + b2z (negb (c =? 0)))). assert (Hb : q + 1 <= e <= q + 2) by (subst e; destruct (negb _); cbn; lia).
  destruct (rd_get m (e + 8) Hm) as (a & -> & Ba); [lia|]. destruct (rd_get m (e + 9) Hm) as (b & -> & Bb); [lia|].
  destruct (rd_in m (e + 1)) as [t ->]; [lia|]. cbn [mbind option_bind]. unfold byte in *.
  destruct (Z.gtb_spec (e + (a * 256 + b)) rlen); [by eexists|].
  pose proof (Hcb ctx t (e + 10) (a * 256 + b) Hc ltac:(lia) ltac:(lia) ltac:(lia)) as Hc'.
  destruct (callback ctx t (e + 10) (a * 256 + b)) as [ctx' [|]]; cbn [negb fst] in *; [|by eexists].
  by apply IH; [lia..|].
Qed.
End dns_parse_spec.

(** ** Properties *)

(** C30: [dn_expand] against the decompression of RFC 1035.  For every message,
    start and size of the destination it ends without reading outside the
    message or writing outside the destination.  It expands every name of RFC 1035
    that expands in at most half as many steps (labels, pointers, end) as
    the message has bytes and whose text, with the null byte, fits in the
    destination and in 254 bytes; the result is the number of bytes that
    the name takes where it is, up to its end or its first pointer.  It succeeds on no
    other bytes, with one exception that the last clause makes exact: length bytes of 64 to 191,
    which RFC 1035 reserves, are taken as pointers.  All loops of pointers are refused. *)
Theorem dn_expand_correct m src space :
  bytes m -> 0 <= src <= eom m ->
  exists r, __dn_expand m src space = Some r /\
    (forall len text, expansion 192 m src space len text -> r = Some (len, text)) /\
    (~ reserved m src -> forall len text, r = Some (len, text) -> expansion 192 m src space len text) /\
    (forall len text, r = Some (len, text) <-> expansion 64 m src space len text).
Proof.
  intros Hm Hsrc. destruct (dn_expand_spec m src space Hm Hsrc) as (r & Hr & Hiff). exists r. split; [done|]. split_and!; [| |done].
  - intros len text (k & ls & He & H). apply Hiff. exists k, ls. split; [by apply expands_weaken|done].
  - intros Hres len text (k & ls & He & H)%Hiff. exists k, ls. split; [by apply expands_strict|done].
Qed.

(** A loop; a name with a pointer; a reserved byte taken as a pointer *)
Lemma dn_expand_correct_witness :
  __dn_expand [192; 2; 1; 65; 192; 0] 2 255 = Some None /\
  (exists r, __dn_expand [1; 65; 0; 1; 66; 192; 0] 3 4 = Some r /\ r = Some (4, [66; 46; 65])) /\
  reserved [64; 2; 0] 0 /\ (exists r, __dn_expand [64; 2; 0] 0 255 = Some r /\ r = Some (2, [])).
Proof.
  split_and!.
  - destruct (dn_expand_correct [192; 2; 1; 65; 192; 0] 2 255) as (r & Hr & _);
      [by apply (bool_decide_unpack _)|done|]. rewrite Hr. vm_compute in Hr. by simplify_eq.
  - destruct (dn_expand_correct [1; 65; 0; 1; 66; 192; 0] 3 4) as (r & Hr & Hrfc & _);
      [by apply (bool_decide_unpack _)|done|]. exists r. split; [done|]. apply Hrfc.
    exists 4%nat, [[66]; [65]]. split_and!; [|done..].
    refine (exp_label 192 [1; 65; 0; 1; 66; 192; 0] 3 1 3 [[65]] 7 eq_refl _ _ _); [done|done|].
    refine (exp_pointer 192 [1; 65; 0; 1; 66; 192; 0] 5 192 0 2 [[65]] 3 eq_refl _ eq_refl _); [lia|].
    refine (exp_label 192 [1; 65; 0; 1; 66; 192; 0] 0 1 1 [] 3 eq_refl _ _ _); [done|done|]. exact (exp_end 192 [1; 65; 0; 1; 66; 192; 0] 2 eq_refl).
  - by apply (res_here _ 0 64).
  - destruct (dn_expand_correct [64; 2; 0] 0 255) as (r & Hr & _ & _ & Hcode);
      [by apply (bool_decide_unpack _)|done|]. exists r. split; [done|]. apply Hcode. exists 2%nat, []. split_and!; [|done..].
    refine (exp_pointer 64 [64; 2; 0] 0 64 2 1 [] 3 eq_refl _ eq_refl _); [lia|]. exact (exp_end 64 [64; 2; 0] 2 eq_refl).
Defined.

(** C37: [dn_skipname].  On every message it ends without reading outside, with
    -1 or with the length of a part of the message.  On a name whose labels
    have bytes 1 to 191 only it gives the length of the name, the one that
    [dn_expand] reports.  It looks for the end byte by byte, though, and not
    label by label: in the last clause a label has a byte above 191, and the
    result differs from that of [dn_expand]. *)
Theorem dn_skipname_correct m s :
  0 <= s <= eom m ->
  (exists r, dn_skipname m s = Some r /\ (r = -1 \/ 0 < r /\ s + r <= eom m)) /\
  (forall nm, clean_name nm -> at_pos m s nm -> dn_skipname m s = Some (Z.of_nat (length nm))) /\
  (dn_skipname [2; 200; 65; 0] 0 = Some 3 /\
   __dn_expand [2; 200; 65; 0] 0 255 = Some (Some (4, [200; 65]))).
Proof.
  intros Hs. split_and!; [by apply skipname_bounds|intros nm; apply skipname_wire|done|by vm_compute].
Qed.

Lemma dn_skipname_correct_witness : dn_skipname [9; 1; 65; 0; 9] 1 = Some 3.
Proof.
  apply (proj1 (proj2 (dn_skipname_correct [9; 1; 65; 0; 9] 1 ltac:(split; done))) [1; 65; 0]).
  - exists [[65]], [0]. split_and!; [done| |constructor]. repeat constructor; cbn; unfold clean; lia.
  - split; [split; done|]. by exists [9].
Defined.

(** C19: [ns_initparse] and [ns_parserr] undo the encoding of a message.  For
    any message built from four sections of records whose names
    [dn_skipname] can skip, [ns_initparse] finds the counts and the sections.
    From then on, whatever records were read before, [ns_parserr] gives the
    [n]-th record of a section on demand, or the next one for -1: its fields,
    its data where they are in the message and its name as [dn_expand] expands
    it; the next call with -1 gives the record after it. *)
Theorem ns_parse_roundtrip id flags secs :
  length secs = 4%nat -> 0 <= id < 65536 -> 0 <= flags < 65536 -> secs_ok secs ->
  let m := enc_msg id flags secs in
  (exists h, ns_initparse m = Some (Some h) /\ _id h = id /\ _flags h = flags /\ valid secs h) /\
  forall h s rs n r rrnum text,
    valid secs h -> (s < 4)%nat -> secs !! s = Some rs -> rs !! n = Some r ->
    rrnum = Z.of_nat n \/ (rrnum = -1 /\ next_num h s = Z.of_nat n) ->
    __dn_expand m (rr_pos secs s n) 1025 = Some (Some (Z.of_nat (length (r_name r)), text)) ->
    exists h' out, ns_parserr m h (Z.of_nat s) rrnum = Some (h', inl out) /\
      valid secs h' /\ next_num h' s = Z.of_nat (S n) /\
      name out = text /\ type out = r_type r /\ rr_class out = r_class r /\
      (s <> O -> ttl out = r_ttl r /\ rdlength out = Z.of_nat (length (r_data r)) /\
         exists d, rdata out = Some d /\ slice m d (rdlength out) = r_data r).
Proof.
  intros H4 Hid Hfl Hok m. split.
  { eexists. split; [by apply initparse_eq|]. split_and!; [done..|]. split_and!; cbn; try done; lia. }
  destruct (enc_msg_parts id flags secs H4) as (_ & _ & _ & Ha & _). fold m in Ha.
  intros h s rs n r rrnum text Hv Hs4 Hs Hr Hnum Hx.
  destruct (parserr_eq m secs h s rs n r rrnum text Ha Hok Hv Hs4 Hs Hr Hnum Hx) as (h' & E & Hv' & Hn').
  assert (Hrs : Forall rr_ok rs) by apply (Forall_lookup_1 _ _ _ _ Hok Hs).
  assert (Hrr : rr_ok r) by apply (Forall_lookup_1 _ _ _ _ Hrs Hr).
  pose proof (take_drop_middle _ _ _ Hr) as Hsplit.
  assert (Hn : (n < length rs)%nat) by by apply lookup_lt_Some in Hr.
  destruct (at_pos_records m secs s rs (take n rs) [r] (drop (S n) rs) Ha Hs) as [A1 _]; [done|].
  rewrite length_take, Nat.min_l in A1 by lia.
  replace (enc_section (Z.of_nat s) [r]) with (enc_rr (Z.of_nat s) r) in A1
    by (unfold enc_section; cbn; by rewrite app_nil_r).
  destruct (read_rr_eq m h' (Z.of_nat s) _ r text A1 Hrr Hx) as [_ Hsl].
  exists h', (rr_of (Z.of_nat s) (rr_pos secs s n) r text). split_and!; [exact E|exact Hv'|exact Hn'|..];
    unfold rr_of; destruct (Z.eqb_spec (Z.of_nat s) 0); try done; [lia|].
  intros _. cbn [ttl rdlength rdata]. split_and!; [done..|]. eexists. split; [reflexivity|]. by apply Hsl.
Qed.

(** A response with one question and one answer. *)
Definition example_name : list Z := [1; 97; 2; 98; 99; 0].
Definition example_secs : list (list rr) :=
  [[Rr example_name 1 1 0 []]; [Rr [192; 12] 1 1 300 [127; 0; 0; 1]]; []; []].

Lemma example_name_ok : clean_name example_name.
Proof.
  exists [[97]; [98; 99]], [0]. split_and!; [done| |constructor].
  repeat constructor; cbn; unfold clean; lia.
Qed.

Lemma example_pointer_ok : clean_name [192; 12].
Proof. exists [], [192; 12]. split_and!; [done|constructor|by constructor]. Qed.

Lemma example_secs_ok : secs_ok example_secs.
Proof.
  pose proof example_name_ok. pose proof example_pointer_ok.
  constructor; [split; [|done]|constructor; [split; [|done]|by repeat constructor]];
    (constructor; [|constructor]); split_and!; cbn; (done || lia).
Qed.

Lemma ns_parse_roundtrip_witness :
  exists h h' out, ns_initparse (enc_msg 7 0x8180 example_secs) = Some (Some h) /\
    ns_parserr (enc_msg 7 0x8180 example_secs) h 1 0 = Some (h', inl out) /\
    name out = [97; 46; 98; 99] /\ ttl out = 300.
Proof.
  destruct (ns_parse_roundtrip 7 0x8180 example_secs eq_refl ltac:(lia) ltac:(lia) example_secs_ok)
    as [(h & E & _ & _ & Hv) Hp].
  destruct (Hp h 1%nat [Rr [192; 12] 1 1 300 [127; 0; 0; 1]] 0%nat (Rr [192; 12] 1 1 300 [127; 0; 0; 1]) 0
    [97; 46; 98; 99] Hv ltac:(lia) eq_refl eq_refl (or_introl eq_refl) ltac:(by vm_compute))
    as (h' & out & E' & _ & _ & Hn & _ & _ & Ht).
  exists h, h', out. split_and!; [done|exact E'|done|by apply Ht].
Defined.

(** C31: the parser of messages on arbitrary bytes.  [ns_initparse] never reads
    outside the message; when it accepts, its handle satisfies the invariant
    [Inv] (the pointers to non-empty sections and to the next record are into
    the message, the record number is at most the count), which every call of
    [ns_parserr] preserves, for any section and record number and on every
    error path; no call reads outside the message, and the name and the data
    of a record that is returned are in bounds. *)
Theorem ns_parse_safe m :
  bytes m ->
  (exists r, ns_initparse m = Some r /\ forall h, r = Some h -> Inv m h) /\
  (forall h section rrnum, Inv m h ->
    exists h' res, ns_parserr m h section rrnum = Some (h', res) /\ Inv m h' /\
      match res with
      | inl r => (length (name r) < 254)%nat /\
                 forall d, rdata r = Some d -> 0 <= d /\ d + rdlength r <= eom m
      | inr e => e = EMSGSIZE \/ e = ENODEV
      end).
Proof.
  intros Hm. split; [by apply initparse_safe|]. intros h section rrnum Hi.
  destruct (parserr_safe m h section rrnum Hm Hi) as (h' & res & E & Hi' & Hres).
  exists h', res. split_and!; [done..|]. by destruct res.
Qed.

Lemma ns_parse_safe_witness :
  exists h h' res, ns_initparse (enc_msg 7 0x8180 example_secs) = Some (Some h) /\
    ns_parserr (enc_msg 7 0x8180 example_secs) h 2 (-1) = Some (h', res) /\ res = inr ENODEV.
Proof.
  destruct (ns_parse_safe (enc_msg 7 0x8180 example_secs) ltac:(by apply (bool_decide_unpack _))) as [(r & Hr & Hi) Hp].
  destruct r as [h|]; [|vm_compute in Hr; by simplify_eq].
  destruct (Hp h 2 (-1) (Hi h eq_refl)) as (h' & res & E & _ & _). exists h, h', res. split_and!; [done..|].
  assert (Hh : h = NsMsg 7 0x8180 [1; 1; 0; 0] [Some 12; Some 22; None; None] 4 (-1) None)
    by (vm_compute in Hr; by simplify_eq).
  rewrite Hh in E. vm_compute in E. by simplify_eq.
Defined.

(** C35: [__dns_parse].  On a response of ASCII names, whose pointers go to its
    first 511 bytes, with at least one answer and at most 64 records, it calls
    the callback on each answer in order with the low byte of the type, the
    place and the length of the data, until the callback refuses.  On arbitrary
    bytes its checks do not keep it inside the message: with twelve bytes
    after the message it stays inside the buffer, and what it hands to the
    callback ends at most ten bytes after the message; the last clause is a
    response of 18 bytes for which it does read past the end. *)
Theorem dns_parse_correct {X} (callback : X -> Z -> Z -> Z -> X * bool) :
  (forall id flags qs rs rest ctx,
    length rest = 2%nat -> rs <> [] -> flags & 15 = 0 ->
    0 <= id < 65536 -> 0 <= flags < 65536 -> Z.of_nat (length qs + length rs) <= 64 ->
    Forall (fun r => rr_ok r /\ ascii_name (r_name r)) (qs ++ rs) ->
    let m := enc_msg id flags (qs :: rs :: rest) in
    __dns_parse callback m (eom m) ctx =
      Some (run_callback callback rs (12 + Z.of_nat (length (enc_section 0 qs))) ctx)) /\
  (forall m rlen ctx (P : X -> Prop), bytes m -> rlen + 12 <= eom m -> P ctx ->
    (forall x t off len, P x -> 0 <= off -> 0 <= len -> off + len <= rlen + 10 -> P (callback x t off len).1) ->
    exists r, __dns_parse callback m rlen ctx = Some r /\ P r.1) /\
  (forall ctx, __dns_parse callback [0; 0; 0x80; 0; 0; 0; 0; 1; 0; 0; 0; 0; 192; 12; 0; 1; 0; 1] 18 ctx = None).
Proof.
  split_and!; [| |done].
  - intros id flags qs rs rest ctx Hrest Hne Hrc Hid Hfl Hcount Hok m.
    destruct (enc_msg_parts id flags (qs :: rs :: rest)) as (_ & _ & _ & A4 & He); [cbn; lia|]. fold m in A4, He.
    apply Forall_app in Hok as [Hq Hr]. unfold __dns_parse. rewrite (proj2 (Z.ltb_ge (eom m) 12)) by lia.
    assert (Hrd : rd m 3 = Some (u8 flags) /\
              rd m 4 = Some (u8 (Z.of_nat (length qs) >> 8)) /\ rd m 5 = Some (u8 (Z.of_nat (length qs))) /\
              rd m 6 = Some (u8 (Z.of_nat (length rs) >> 8)) /\ rd m 7 = Some (u8 (Z.of_nat (length rs)))) by done.
    destruct Hrd as (-> & -> & -> & -> & ->). cbn [mbind option_bind].
    rewrite !put16_sum by lia.
    replace (u8 flags & 15) with 0.
    2:{ unfold u8. rewrite <- Hrc, !(Z.land_ones _ 4) by done. mlia. }
    cbn [Z.eqb negb]. destruct (Z.gtb_spec (Z.of_nat (length qs) + Z.of_nat (length rs)) 64); [lia|].
    cbn [enc_sections] in A4. rewrite app_assoc in A4. rewrite Z.add_0_l in A4. rewrite <- app_assoc in A4.
    pose proof (proj1 (at_pos_app _ _ _ _) A4) as [_ A5]. apply at_pos_app in A5 as [A5 _].
    rewrite !Nat2Z.id.
    rewrite (parse_questions_eq m (eom m) 12 qs _ A4 eq_refl); [|rewrite length_app|done].
    + cbn [mbind option_bind]. by apply parse_answers_eq.
    + destruct rs as [|r rs']; [done|]. unfold enc_section. cbn [map concat]. rewrite length_app.
      unfold enc_rr at 1. rewrite !length_app. cbn [length ns_put16]. lia.
  - intros m rlen ctx P Hm He Hc Hcb. unfold __dns_parse.
    destruct (Z.ltb_spec rlen 12); [by eexists|].
    destruct (rd_in m 3) as [f ->]; [lia|]. cbn [mbind option_bind].
    destruct (negb (f & 15 =? 0)); [by eexists|].
    destruct (rd_in m 4) as [q1 ->]; [lia|]. destruct (rd_in m 5) as [q0 ->]; [lia|].
    destruct (rd_in m 6) as [a1 ->]; [lia|]. destruct (rd_in m 7) as [a0 ->]; [lia|]. cbn [mbind option_bind].
    destruct (Z.gtb_spec (q1 * 256 + q0 + (a1 * 256 + a0)) 64); [by eexists|].
    destruct (questions_in m rlen (Z.to_nat (q1 * 256 + q0)) 12) as (r & -> & Hr); [lia..|]. cbn [mbind option_bind].
    destruct r as [p|]; [|by eexists]. specialize (Hr p eq_refl). apply answers_in; (done || lia).
Qed.

Lemma example_ascii : ascii_name example_name /\ ascii_name [192; 12].
Proof.
  split.
  - exists [[97]; [98; 99]], [0]. split_and!; [done| |by left]. repeat constructor; cbn; lia.
  - exists [], [192; 12]. split_and!; [done|constructor|]. right. exists 192, 12. split_and!; (done || lia || by left).
Qed.

Lemma dns_parse_correct_witness :
  __dns_parse (fun (l : list (Z * Z * Z)) t off len => (l ++ [(t, off, len)], true))
    (enc_msg 7 0x8180 example_secs) 38 [] = Some ([(1, 34, 4)], 0).
Proof.
  pose proof example_secs_ok as Hok. pose proof example_ascii as [Hn1 Hn2].
  refine (eq_trans (proj1 (dns_parse_correct (fun (l : list (Z * Z * Z)) t off len => (l ++ [(t, off, len)], true)))
    7 0x8180 [Rr example_name 1 1 0 []] [Rr [192; 12] 1 1 300 [127; 0; 0; 1]] [[]; []] []
    eq_refl _ eq_refl _ _ _ _) _); [done|lia|lia|cbn; lia| |by vm_compute].
  apply Forall_cons_1 in Hok as [[H1 _] Hok]. apply Forall_cons_1 in Hok as [[H2 _] _].
  apply Forall_cons_1 in H1 as [H1 _]. apply Forall_cons_1 in H2 as [H2 _].
  constructor; [done|constructor; [done|constructor]].
Defined.
