(* ===== verification/Threads.v ===== *)
(** Counting threads: the components that are transition systems of any number of
    threads keep a list of the points where the threads are. *)
From S2P Require Import Prelude.

(** The sum of a measure of the threads. *)
Fixpoint total {P : Type} (f : P -> Z) (ts : list P) : Z :=
  match ts with [] => 0 | p :: ts => f p + total f ts end.

Section total.
Context {P : Type}.
Implicit Types (f g : P -> Z) (ts : list P) (p q : P).

Lemma total_insert f ts t p q : ts !! t = Some p -> total f (<[t := q]> ts) = total f ts - f p + f q.
Proof.
  revert t. induction ts as [|x ts IH]; intros [|t] Ht; try done.
  - injection Ht as ->. cbn. lia.
  - change (<[S t := q]> (x :: ts)) with (x :: <[t := q]> ts). cbn [total]. rewrite (IH t Ht). lia.
Qed.

Lemma total_nonneg f ts : (forall p, 0 <= f p) -> 0 <= total f ts.
Proof. intros Hf. induction ts as [|x ts IH]; cbn; [lia|]. specialize (Hf x). lia. Qed.

Lemma total_lookup f ts t p : (forall p, 0 <= f p) -> ts !! t = Some p -> f p <= total f ts.
Proof.
  intros Hf. revert t. induction ts as [|x ts IH]; intros [|t] Ht; try done; cbn in *.
  - injection Ht as ->. pose proof (total_nonneg f ts Hf). lia.
  - specialize (IH t Ht). specialize (Hf x). lia.
Qed.

Lemma total_two o f ts t u p q :
  (forall p, 0 <= f p) -> f o = 0 -> ts !! t = Some p -> ts !! u = Some q -> t <> u -> f p + f q <= total f ts.
Proof.
  intros Hf H0 Ht Hu Hne. pose proof (total_nonneg f (<[u := o]> (<[t := o]> ts)) Hf) as H.
  rewrite (total_insert f _ u q), (total_insert f ts t p) in H by (done || by rewrite list_lookup_insert_ne). lia.
Qed.

Lemma total_pos f ts : 0 < total f ts -> exists t p, ts !! t = Some p /\ 0 < f p.
Proof.
  induction ts as [|x ts IH]; cbn; [lia|]. intros H. destruct (Z.lt_ge_cases 0 (f x)) as [Hx|Hx].
  - by exists O, x.
  - destruct IH as (t & p & Ht & Hp); [lia|]. by exists (S t), p.
Qed.

Lemma total_le_length f ts : (forall p, f p <= 1) -> total f ts <= Z.of_nat (length ts).
Proof. intros Hf. induction ts as [|x ts IH]; cbn [total length]; [lia|]. specialize (Hf x). lia. Qed.

Lemma total_replicate f n p : f p = 0 -> total f (replicate n p) = 0.
Proof. intros Hf. induction n as [|n IH]; cbn [replicate total]; lia. Qed.

(** All threads of some kind go on at once. *)
Lemma total_fmap f (h : P -> P) ts : total f (h <$> ts) = total (fun p => f (h p)) ts.
Proof. induction ts as [|p ts IH]; cbn; [done|]. by rewrite IH. Qed.

Lemma total_ext f g ts : (forall p, f p = g p) -> total f ts = total g ts.
Proof. intros H. induction ts as [|p ts IH]; cbn; [done|]. by rewrite H, IH. Qed.

Lemma total_le f g ts : (forall p, f p <= g p) -> total f ts <= total g ts.
Proof. intros H. induction ts as [|p ts IH]; cbn; [done|]. specialize (H p). lia. Qed.
End total.
