(* ===== verification/Lock.v ===== *)
(** The internal lock of the library, src/musl-1.1.19/src/thread/__lock.c, as a
    transition system.

    Any number of threads call [__lock] and [__unlock] on one lock.  A thread is
    at one of the points [pc] between two accesses to the lock; one transition
    is one access (an atomic operation, a read, or a system call) with the
    local computation up to the next.  The atomic operations are sequentially
    consistent, as those of musl are.  [__futexwait] puts the caller to sleep
    if the lock has the expected value; [__wake] wakes one sleeper, any; a
    sleeper may also be woken by a signal.  The code runs with more than one
    thread, otherwise both functions do nothing. *)
From S2P Require Import Prelude Threads.

(** Where a thread is; [current] and [i] are its local variables. *)
Inductive pc :=
| Idle                        (* outside *)
| Fast                        (* at the first [a_cas] *)
| Spin (i current : Z)        (* at the top of the spin loop *)
| Mark                        (* at the [a_fetch_add] of [__lock] *)
| Loop (current : Z)          (* at the top of the main loop *)
| Wait (current : Z)          (* asleep in [__futexwait] *)
| Try (current : Z)           (* at the [a_cas] of the main loop *)
| Crit                        (* holds the lock; at the test in [__unlock] *)
| Release                     (* at the [a_fetch_add] of [__unlock] *)
| Wake.                       (* at [__wake] *)

#[export] Instance pc_eq_dec : EqDecision pc.
Proof. solve_decision. Defined.

(** What a thread that is neither outside, asleep nor at a system call does:
    the new value of the lock and where it goes. *)
Definition next (l : Z) (p : pc) : option (Z * pc) :=
  match p with
  | Fast => if l =? 0 then Some (INT_MIN + 1, Crit) else Some (l, Spin 0 l)
  | Spin i current =>
      if i <? 10 then
        let current := if current <? 0 then current - (INT_MIN + 1) else current in
        if l =? current then Some (INT_MIN + (current + 1), Crit) else Some (l, Spin (i + 1) l)
      else Some (l, Mark)
  | Mark => Some (l + 1, Loop (l + 1))
  | Loop current =>
      if current <? 0 then
        if l =? current then Some (l, Wait current)
        else Some (l, Try (current - (INT_MIN + 1)))
      else Some (l, Try current)
  | Try current => if l =? current then Some (INT_MIN + current, Crit) else Some (l, Loop l)
  | Crit => Some (l, if l <? 0 then Release else Idle)
  | Release => Some (l + - (INT_MIN + 1), if negb (l =? INT_MIN + 1) then Wake else Idle)
  | Idle | Wait _ | Wake => None
  end.

(** The lock and the threads. *)
Record sys := Sys { lock : Z; threads : list pc }.

(** Where a sleeper goes on. *)
Definition woken (current : Z) : pc := Try (current - (INT_MIN + 1)).

Definition asleep (p : pc) : bool := match p with Wait _ => true | _ => false end.

(** A transition of a thread that is in [__lock] or [__unlock]. *)
Inductive move : sys -> sys -> Prop :=
| move_next l ts t p l' p' :
    ts !! t = Some p -> next l p = Some (l', p') -> move (Sys l ts) (Sys l' (<[t := p']> ts))
| move_wake l ts t u c :                 (* [__wake] with a sleeper *)
    ts !! t = Some Wake -> ts !! u = Some (Wait c) ->
    move (Sys l ts) (Sys l (<[u := woken c]> (<[t := Idle]> ts)))
| move_wake_none l ts t :                (* [__wake] without *)
    ts !! t = Some Wake -> Forall (fun p => asleep p = false) ts ->
    move (Sys l ts) (Sys l (<[t := Idle]> ts)).

Inductive step : sys -> sys -> Prop :=
| step_move s s' : move s s' -> step s s'
| step_call l ts t :                     (* a thread calls [__lock] *)
    ts !! t = Some Idle -> step (Sys l ts) (Sys l (<[t := Fast]> ts))
| step_signal l ts u c :                 (* a sleeper is woken by a signal *)
    ts !! u = Some (Wait c) -> step (Sys l ts) (Sys l (<[u := woken c]> ts)).

Definition start (n : nat) : sys := Sys 0 (replicate n Idle).

(** ** Counting threads *)
Definition holds (p : pc) : Z := match p with Crit | Release => 1 | _ => 0 end.
Definition inside (p : pc) : Z := match p with Loop _ | Wait _ | Try _ => 1 | _ => 0 end.
Definition active (p : pc) : Z := match p with Loop _ | Try _ | Wake => 1 | _ => 0 end.

(** ** The invariant *)

(** A value that the lock may have had, as a thread that is ([k = 1]) or is not
    ([k = 0]) counted in it knows it. *)
Definition known (n k v : Z) : Prop := k <= v <= n \/ INT_MIN + 1 + k <= v <= INT_MIN + n.

(** The local variables of a thread. *)
Definition local_ok (n : Z) (p : pc) : Prop :=
  match p with
  | Spin i c => 0 <= i <= 10 /\ known n 0 c
  | Loop c => known n 1 c
  | Wait c => INT_MIN + 2 <= c <= INT_MIN + n
  | Try c => 1 <= c <= n
  | _ => True
  end.

Record Inv (s : sys) : Prop := {
  (* the lock flag and the congestion count *)
  inv_lock : lock s = total holds (threads s) * (INT_MIN + 1) + total inside (threads s);
  inv_one : total holds (threads s) <= 1;
  inv_local t p : threads s !! t = Some p -> local_ok (Z.of_nat (length (threads s))) p;
  (* whoever sleeps will be woken *)
  inv_wake t c : threads s !! t = Some (Wait c) -> 1 <= total holds (threads s) + total active (threads s) }.

Lemma holds_range p : 0 <= holds p <= 1.
Proof. destruct p; cbn; lia. Qed.

Lemma inside_range p : 0 <= inside p <= 1.
Proof. destruct p; cbn; lia. Qed.

Lemma active_range p : 0 <= active p <= 1.
Proof. destruct p; cbn; lia. Qed.

Lemma holds_inside_length ts : total holds ts + total inside ts <= Z.of_nat (length ts).
Proof. induction ts as [|p ts IH]; cbn [total length]; [lia|]. destruct p; cbn [holds inside]; lia. Qed.

(** What is known of the lock by its value. *)
Lemma inv_known s n : Inv s -> n = Z.of_nat (length (threads s)) -> n < 2 ^ 31 ->
  known n 0 (lock s) /\
  (0 < total inside (threads s) -> known n 1 (lock s)) /\
  (total holds (threads s) = 1 <-> lock s < 0).
Proof.
  intros [H1 H2 _ _] Hn Hm. pose proof (total_nonneg holds (threads s) (fun p => proj1 (holds_range p))).
  pose proof (total_nonneg inside (threads s) (fun p => proj1 (inside_range p))).
  pose proof (holds_inside_length (threads s)). unfold known, INT_MIN in *. lia.
Qed.

(** A thread moves from [p] to [p']: what has to be checked. *)
Lemma inv_move s t p l' p' :
  Inv s -> threads s !! t = Some p ->
  l' - lock s = (holds p' - holds p) * (INT_MIN + 1) + (inside p' - inside p) ->
  (holds p < holds p' -> total holds (threads s) = 0) ->
  local_ok (Z.of_nat (length (threads s))) p' ->
  (holds p + active p <= holds p' + active p' \/
   (forall u c, u <> t -> threads s !! u = Some (Wait c) -> 1 <= total holds (threads s) - holds p + holds p' + total active (threads s) - active p + active p')) ->
  (asleep p' = true -> 1 <= total holds (threads s) - holds p + holds p' + total active (threads s) - active p + active p') ->
  Inv (Sys l' (<[t := p']> (threads s))).
Proof.
  intros [H1 H2 H3 H4] Ht Hl Hh Hloc Hw Hs. split; cbn [lock threads]; rewrite ?length_insert.
  - rewrite !(total_insert _ _ _ _ _ Ht). lia.
  - rewrite (total_insert _ _ _ _ _ Ht). pose proof (holds_range p). pose proof (holds_range p').
    destruct (Z.lt_ge_cases (holds p) (holds p')) as [Hlt|]; [specialize (Hh Hlt); lia|lia].
  - intros u q Hu. destruct (decide (u = t)) as [->|Hne].
    + rewrite list_lookup_insert_eq in Hu by by eapply lookup_lt_Some. by injection Hu as <-.
    + rewrite list_lookup_insert_ne in Hu by done. by apply (H3 u).
  - intros u c Hu. rewrite !(total_insert _ _ _ _ _ Ht). destruct (decide (u = t)) as [->|Hne].
    + rewrite list_lookup_insert_eq in Hu by by eapply lookup_lt_Some. injection Hu as ->.
      specialize (Hs eq_refl). lia.
    + rewrite list_lookup_insert_ne in Hu by done. destruct Hw as [Hw|Hw]; [specialize (H4 u c Hu); lia|].
      specialize (Hw u c Hne Hu). lia.
Qed.

Lemma inv_start n : Inv (start n).
Proof.
  split; cbn [lock threads start]; rewrite ?total_replicate by done; try lia.
  - intros t p Ht. apply lookup_replicate in Ht as [-> _]. done.
  - intros t c Ht. apply lookup_replicate in Ht as [? _]. done.
Qed.

(** A thread that is not counted yet leaves room for itself. *)
Lemma room ts t p : ts !! t = Some p -> holds p = 0 -> inside p = 0 ->
  total holds ts + total inside ts + 1 <= Z.of_nat (length ts).
Proof.
  intros Ht Hh Hs. pose proof (holds_inside_length (<[t := Crit]> ts)) as H.
  rewrite !(total_insert _ _ _ _ _ Ht), length_insert, Hh, Hs in H. cbn in H. lia.
Qed.

Lemma next_inv l ts t p l' p' :
  Inv (Sys l ts) -> Z.of_nat (length ts) < 2 ^ 31 -> ts !! t = Some p -> next l p = Some (l', p') ->
  Inv (Sys l' (<[t := p']> ts)).
Proof.
  intros Hi Hn Ht Hnext. destruct (inv_known (Sys l ts) _ Hi eq_refl Hn) as (K0 & K1 & Kneg).
  cbn [lock threads] in *. pose proof (inv_local _ Hi t p Ht) as Hloc. cbn [threads] in Hloc.
  pose proof (room ts t p Ht) as Hroom. pose proof (inv_lock _ Hi) as Hl. cbn [lock threads] in Hl.
  set (n := Z.of_nat (length ts)) in *.
  pose proof (total_lookup holds ts t p (fun p => proj1 (holds_range p)) Ht) as Th.
  pose proof (total_lookup inside ts t p (fun p => proj1 (inside_range p)) Ht) as Ti.
  pose proof (total_lookup active ts t p (fun p => proj1 (active_range p)) Ht) as Ta.
  assert (Hsl : forall u c, ts !! u = Some (Wait c) -> 1 <= total inside ts)
    by (intros u c Hu; exact (total_lookup inside ts u _ (fun p => proj1 (inside_range p)) Hu)).
  pose proof (inv_one _ Hi) as H1. cbn [threads] in H1.
  pose proof (total_nonneg holds ts (fun p => proj1 (holds_range p))) as H0.
  unfold known, INT_MIN in *.
  apply (inv_move (Sys l ts) t p l' p' Hi Ht); cbn [lock threads]; fold n; destruct p; cbn [next] in Hnext;
    repeat case_match; simplify_eq; cbn [holds inside active local_ok asleep] in *; unfold known, INT_MIN in *;
    rewrite ?Z.eqb_eq, ?Z.eqb_neq, ?Z.ltb_lt, ?Z.ltb_ge in *; try lia; try done.
  all: right; intros u c _ Hu; specialize (Hsl u c Hu); lia.
Qed.

(** A sleeper goes on. *)
Lemma woken_inv l ts u c : Inv (Sys l ts) -> Z.of_nat (length ts) < 2 ^ 31 -> ts !! u = Some (Wait c) ->
  Inv (Sys l (<[u := woken c]> ts)).
Proof.
  intros Hi Hn Hu. pose proof (inv_local _ Hi u _ Hu) as Hc. cbn [threads local_ok] in Hc.
  apply (inv_move (Sys l ts) u (Wait c)); cbn [lock threads woken holds inside active local_ok asleep]; try done; unfold INT_MIN in *; lia.
Qed.

Lemma step_inv s s' : step s s' -> Z.of_nat (length (threads s)) < 2 ^ 31 -> Inv s ->
  Inv s' /\ length (threads s') = length (threads s).
Proof.
  intros Hs Hn Hi. destruct Hs as [s s' [l ts t p l' p' Ht Hnext|l ts t u c Ht Hu|l ts t Ht Hno]|l ts t Ht|l ts u c Hu];
    cbn [threads] in *; rewrite ?length_insert; (split; [|done]).
  - by eapply next_inv.
  - assert (Hne : u <> t) by (intros ->; congruence).
    rewrite list_insert_insert_ne by done.
    set (ts' := <[u := woken c]> ts).
    assert (Hi' : Inv (Sys l ts')) by by eapply woken_inv.
    assert (Ht' : ts' !! t = Some Wake) by (unfold ts'; by rewrite list_lookup_insert_ne).
    assert (Hu' : ts' !! u = Some (woken c)) by (unfold ts'; rewrite list_lookup_insert_eq; [done|by eapply lookup_lt_Some]).
    assert (Ha : forall p, 0 <= active p) by (intros; apply active_range).
    pose proof (total_two Idle active ts' t u _ _ Ha eq_refl Ht' Hu' (not_eq_sym Hne)) as Hact. cbn [active woken] in Hact.
    pose proof (total_nonneg holds ts' (fun p => proj1 (holds_range p))) as Hh.
    apply (inv_move (Sys l ts') t Wake); cbn [lock threads holds inside active local_ok asleep]; try done; try lia.
    right. intros v d _ _. lia.
  - apply (inv_move (Sys l ts) t Wake); cbn [lock threads holds inside active local_ok asleep]; try done; try lia.
    right. intros v d _ Hv. by apply (Forall_lookup_1 _ _ _ _ Hno) in Hv.
  - apply (inv_move (Sys l ts) t Idle); cbn [lock threads holds inside active local_ok asleep]; try done; lia.
  - by eapply woken_inv.
Qed.

Lemma reachable_inv n s : Z.of_nat n < 2 ^ 31 -> rtc step (start n) s -> Inv s /\ length (threads s) = n.
Proof.
  intros Hn. revert s. apply (rtc_ind_r _ (start n)); [split; [apply inv_start|apply length_replicate]|].
  intros s s' _ Hs [Hi Hl]. destruct (step_inv s s' Hs) as [Hi' Hl']; [by rewrite Hl|done|split; [done|congruence]].
Qed.

(** ** Leaving *)

Definition away (p : pc) : Z := match p with Idle => 0 | _ => 1 end.

(** Some thread comes to its end. *)
Definition leaves (l : Z) (ts : list pc) : Prop :=
  exists l' ts', rtc move (Sys l ts) (Sys l' ts') /\ total away ts' < total away ts.

Lemma away_range p : 0 <= away p <= 1.
Proof. destruct p; cbn; lia. Qed.

Lemma leaves_next l ts t p l' p' : ts !! t = Some p -> next l p = Some (l', p') -> away p = away p' ->
  leaves l' (<[t := p']> ts) -> leaves l ts.
Proof.
  intros Ht Hn Ha (l2 & ts2 & Hr & Hlt). exists l2, ts2. split; [eapply rtc_l; [by eapply move_next|done]|].
  rewrite (total_insert _ _ _ _ _ Ht) in Hlt. lia.
Qed.

Lemma leaves_idle l ts t p l' : ts !! t = Some p -> next l p = Some (l', Idle) -> away p = 1 -> leaves l ts.
Proof.
  intros Ht Hn Ha. exists l', (<[t := Idle]> ts). split; [eapply rtc_once; by eapply move_next|].
  rewrite (total_insert _ _ _ _ _ Ht), Ha. cbn. lia.
Qed.

Lemma leaves_wake l ts t : ts !! t = Some Wake -> leaves l ts.
Proof.
  intros Ht. destruct (decide (Forall (fun p => asleep p = false) ts)) as [Hno|Hsome].
  - exists l, (<[t := Idle]> ts). split; [by eapply rtc_once, move_wake_none|].
    rewrite (total_insert _ _ _ _ _ Ht). cbn. lia.
  - apply not_Forall_Exists in Hsome; [|intros p; solve_decision].
    apply Exists_exists in Hsome as (p & Hp & Hs). apply list_elem_of_In, list_elem_of_lookup in Hp as [u Hu].
    destruct p as [| | | | |c| | | |]; try by destruct Hs.
    exists l, (<[u := woken c]> (<[t := Idle]> ts)). split; [by eapply rtc_once, move_wake|].
    rewrite (total_insert _ _ u (Wait c)) by (rewrite list_lookup_insert_ne; [done|intros ->; congruence]).
    rewrite (total_insert _ _ _ _ _ Ht). cbn. lia.
Qed.

(** One transition to a point where the thread is not outside; [tac] rewrites
    with the outcome of the test. *)
Ltac leave_step tac := eapply leaves_next; [eassumption|cbn [next]; tac; reflexivity|reflexivity|].

Lemma leaves_release l ts t : ts !! t = Some Release -> leaves l ts.
Proof.
  intros Ht. destruct (decide (l = INT_MIN + 1)) as [->|Hl].
  - by apply (leaves_idle _ ts t Release 0).
  - leave_step ltac:(rewrite (proj2 (Z.eqb_neq _ _) Hl)).
    apply (leaves_wake _ _ t). apply list_lookup_insert_eq. by eapply lookup_lt_Some.
Qed.

Lemma leaves_crit l ts t : ts !! t = Some Crit -> l < 0 -> leaves l ts.
Proof.
  intros Ht Hl. leave_step ltac:(rewrite (proj2 (Z.ltb_lt _ _) Hl)).
  apply (leaves_release _ _ t). apply list_lookup_insert_eq. by eapply lookup_lt_Some.
Qed.

Lemma leaves_try l ts t c : ts !! t = Some (Try c) -> 0 <= l < 2 ^ 31 -> leaves l ts.
Proof.
  intros Ht Hl. pose proof (lookup_lt_Some _ _ _ Ht) as Hlt.
  assert (H : forall ts, ts !! t = Some (Try l) -> leaves l ts).
  { intros ts' Ht'. leave_step ltac:(rewrite Z.eqb_refl).
    apply (leaves_crit _ _ t); [apply list_lookup_insert_eq; by eapply lookup_lt_Some|unfold INT_MIN; lia]. }
  destruct (decide (l = c)) as [->|Hne]; [by apply H|].
  leave_step ltac:(rewrite (proj2 (Z.eqb_neq _ _) Hne)).
  assert (Hloop : <[t := Loop l]> ts !! t = Some (Loop l)) by by apply list_lookup_insert_eq.
  leave_step ltac:(rewrite (proj2 (Z.ltb_ge l 0)) by lia).
  apply H. apply list_lookup_insert_eq. by rewrite length_insert.
Qed.

Lemma leaves_loop l ts t c : ts !! t = Some (Loop c) -> 0 <= l < 2 ^ 31 -> leaves l ts.
Proof.
  intros Ht Hl. pose proof (lookup_lt_Some _ _ _ Ht) as Hlt.
  destruct (c <? 0) eqn:Hc.
  - leave_step ltac:(rewrite Hc, (proj2 (Z.eqb_neq l c)) by lia).
    eapply (leaves_try _ _ t); [by apply list_lookup_insert_eq|done].
  - leave_step ltac:(rewrite Hc). eapply (leaves_try _ _ t); [by apply list_lookup_insert_eq|done].
Qed.

Lemma leaves_mark l ts t : ts !! t = Some Mark -> 0 <= l < 2 ^ 31 - 1 -> leaves l ts.
Proof.
  intros Ht Hl. pose proof (lookup_lt_Some _ _ _ Ht) as Hlt. leave_step idtac.
  eapply (leaves_loop _ _ t); [by apply list_lookup_insert_eq|lia].
Qed.

Lemma leaves_spin l ts t i c : ts !! t = Some (Spin i c) -> 0 <= l < 2 ^ 31 - 1 -> leaves l ts.
Proof.
  intros Ht Hl. pose proof (lookup_lt_Some _ _ _ Ht) as Hlt.
  assert (Hmark : forall ts c i, ts !! t = Some (Spin i c) -> (i <? 10) = false -> leaves l ts).
  { intros ts' c' i' Ht' Hi'. leave_step ltac:(rewrite Hi').
    apply (leaves_mark _ _ t); [apply list_lookup_insert_eq; by eapply lookup_lt_Some|done]. }
  assert (Hsame : forall ts i, ts !! t = Some (Spin i l) -> leaves l ts).
  { intros ts' i' Ht'. destruct (i' <? 10) eqn:Hi'; [|by eapply Hmark].
    leave_step ltac:(rewrite Hi', (proj2 (Z.ltb_ge l 0)), Z.eqb_refl by lia).
    apply (leaves_crit _ _ t); [apply list_lookup_insert_eq; by eapply lookup_lt_Some|unfold INT_MIN; lia]. }
  destruct (i <? 10) eqn:Hi; [|by eapply Hmark].
  set (d := if c <? 0 then c - (INT_MIN + 1) else c). destruct (l =? d) eqn:Hd.
  - leave_step ltac:(rewrite Hi; cbv zeta; fold d; rewrite Hd).
    apply (leaves_crit _ _ t); [by apply list_lookup_insert_eq|]. apply Z.eqb_eq in Hd. unfold INT_MIN; lia.
  - leave_step ltac:(rewrite Hi; cbv zeta; fold d; rewrite Hd).
    eapply Hsame. by apply list_lookup_insert_eq.
Qed.

Lemma leaves_fast l ts t : ts !! t = Some Fast -> 0 <= l < 2 ^ 31 - 1 -> leaves l ts.
Proof.
  intros Ht Hl. pose proof (lookup_lt_Some _ _ _ Ht) as Hlt. destruct (l =? 0) eqn:H0.
  - leave_step ltac:(rewrite H0). apply (leaves_crit _ _ t); [by apply list_lookup_insert_eq|done].
  - leave_step ltac:(rewrite H0). eapply (leaves_spin _ _ t); [by apply list_lookup_insert_eq|done].
Qed.

(** While a thread has not left, some thread can. *)
Lemma leaves_inv l ts : Inv (Sys l ts) -> Z.of_nat (length ts) < 2 ^ 31 -> 0 < total away ts -> leaves l ts.
Proof.
  intros Hi Hn Ha. destruct (inv_known (Sys l ts) _ Hi eq_refl Hn) as (K0 & K1 & Kneg). cbn [lock threads] in *.
  pose proof (inv_one _ Hi) as H1. cbn [threads] in H1.
  assert (Hholder : forall u p, ts !! u = Some p -> 0 < holds p -> leaves l ts).
  { intros u p Hu Hp. pose proof (total_lookup holds ts u p (fun p => proj1 (holds_range p)) Hu).
    destruct p; cbn [holds] in *; try lia; [apply (leaves_crit _ _ u); [done|lia]|by apply (leaves_release _ _ u)]. }
  destruct (Z.lt_ge_cases 0 (total holds ts)) as [Hh|Hh].
  { destruct (total_pos holds ts Hh) as (u & p & Hu & Hp). by eapply Hholder. }
  pose proof (total_nonneg holds ts (fun p => proj1 (holds_range p))) as H0.
  pose proof (holds_inside_length ts) as Hhi. unfold known, INT_MIN in K0.
  assert (Hl : 0 <= l < 2 ^ 31) by lia.
  assert (Hact : exists t p, ts !! t = Some p /\ p <> Idle /\ asleep p = false).
  { destruct (total_pos away ts Ha) as (t & p & Ht & Hp). destruct (asleep p) eqn:Hs.
    - destruct p as [| | | | |c| | | |]; try done. pose proof (inv_wake _ Hi t c Ht) as Hw. cbn [threads] in Hw.
      destruct (total_pos active ts) as (u & q & Hu & Hq); [lia|]. exists u, q. by destruct q.
    - exists t, p. split_and!; [done|by intros ->|done]. }
  destruct Hact as (t & p & Ht & Hp & Hs). pose proof (room ts t p Ht) as Hroom.
  pose proof (inv_lock _ Hi) as Hlk. cbn [lock threads] in Hlk.
  replace (total holds ts) with 0 in * by lia.
  destruct p as [| |i c| |c|c|c| | |]; try done; cbn [holds inside] in Hroom.
  - apply (leaves_fast _ _ t); [done|lia].
  - apply (leaves_spin _ _ t i c); [done|lia].
  - apply (leaves_mark _ _ t); [done|lia].
  - by apply (leaves_loop _ _ t c).
  - by apply (leaves_try _ _ t c).
  - eapply Hholder; [done|cbn; lia].
  - eapply Hholder; [done|cbn; lia].
  - by apply (leaves_wake _ _ t).
Qed.

Lemma move_steps s s' : rtc move s s' -> rtc step s s'.
Proof. apply rtc_subrel. intros x y. apply step_move. Qed.

Lemma total_zero ts : total away ts = 0 -> ts = replicate (length ts) Idle.
Proof.
  induction ts as [|p ts IH]; cbn [total length replicate]; [done|]. intros H.
  pose proof (away_range p). pose proof (total_nonneg away ts (fun p => proj1 (away_range p))).
  f_equal; [destruct p; cbn [away] in *; try done; lia|apply IH; lia].
Qed.

Lemma all_leave n s : Z.of_nat n < 2 ^ 31 -> rtc step (start n) s -> rtc move s (start n).
Proof.
  intros Hn. remember (Z.to_nat (total away (threads s))) as k eqn:Hk. revert s Hk.
  induction k as [k IH] using lt_wf_ind. intros [l ts] Hk Hr. cbn [threads] in Hk.
  destruct (reachable_inv n _ Hn Hr) as [Hi Hlen]. cbn [threads] in Hlen.
  pose proof (total_nonneg away ts (fun p => proj1 (away_range p))) as Hnn.
  destruct (Z.eq_dec (total away ts) 0) as [Hz|Hz].
  - apply total_zero in Hz. pose proof (inv_lock _ Hi) as Hl. cbn [lock threads] in Hl. rewrite Hlen in Hz.
    pose proof (inv_lock _ (inv_start n)) as Hl0. cbn [lock threads start] in Hl0. subst ts.
    rewrite Hl, <- Hl0. apply rtc_refl.
  - destruct (leaves_inv l ts Hi) as (l' & ts' & Hm & Hlt); [lia|lia|].
    transitivity (Sys l' ts'); [done|].
    apply (IH (Z.to_nat (total away ts'))); [lia|done|]. etransitivity; [done|by apply move_steps].
Qed.

(** ** What the lock promises *)

(** C9: the lock excludes.  In every state that [n] threads, fewer than [INT_MAX],
    calling [__lock] and [__unlock] in any order can reach, at most one of them
    is between the return of [__lock] and the release in [__unlock]; the sign
    of the lock says whether there is one, so that [__unlock] always sees the
    flag of its own lock; the value that the next access writes is an [int] and
    its low part counts the threads inside; the assertions in the source hold:
    [current >= 0] before the swap of the spin loop, [current > 0] before the
    one of the main loop. *)
Theorem lock_mutual_exclusion n s : Z.of_nat n < INT_MAX -> rtc step (start n) s ->
  (forall t u p q, threads s !! t = Some p -> threads s !! u = Some q ->
     holds p = 1 -> holds q = 1 -> t = u) /\
  (lock s < 0 <-> exists t p, threads s !! t = Some p /\ holds p = 1) /\
  (forall t p l' p', threads s !! t = Some p -> next (lock s) p = Some (l', p') -> INT_MIN <= l' <= INT_MAX) /\
  lock s = (if lock s <? 0 then INT_MIN else 0) + total holds (threads s) + total inside (threads s) /\
  (forall t i c, threads s !! t = Some (Spin i c) -> 0 <= (if c <? 0 then c - (INT_MIN + 1) else c) < INT_MAX) /\
  (forall t c, threads s !! t = Some (Try c) -> 0 < c <= INT_MAX).
Proof.
  intros Hn' Hr. assert (Hn : Z.of_nat n < 2 ^ 31) by (unfold INT_MAX in *; lia). destruct (reachable_inv n s Hn Hr) as [Hi Hlen].
  destruct (inv_known s _ Hi eq_refl) as (K0 & K1 & Kneg); [by rewrite Hlen|].
  pose proof (inv_one _ Hi) as H1. pose proof (inv_lock _ Hi) as Hl.
  assert (Hhold : forall p, 0 <= holds p) by (intros; apply holds_range).
  pose proof (total_nonneg holds (threads s) Hhold) as H0. rewrite Hlen in *.
  split_and!.
  - intros t u p q Ht Hu Hp Hq. destruct (decide (t = u)) as [|Hne]; [done|].
    pose proof (total_two Idle holds _ t u p q Hhold eq_refl Ht Hu Hne). lia.
  - rewrite <- Kneg. split.
    + intros Hone. destruct (total_pos holds (threads s)) as (t & p & Ht & Hp); [lia|].
      exists t, p. split; [done|]. pose proof (holds_range p). lia.
    + intros (t & p & Ht & Hp). pose proof (total_lookup holds _ t p Hhold Ht). lia.
  - intros t p l' p' Ht Hnext. destruct s as [l ts]. cbn [lock threads] in *.
    destruct (inv_known _ _ (next_inv l ts t p l' p' Hi ltac:(by rewrite Hlen) Ht Hnext) eq_refl) as (K & _ & _);
      cbn [lock threads] in *; rewrite ?length_insert, ?Hlen in *; [done|]. unfold known, INT_MIN, INT_MAX in *. lia.
  - destruct (Z.ltb_spec (lock s) 0) as [Hneg|Hpos].
    + replace (total holds (threads s)) with 1 in * by lia. lia.
    + replace (total holds (threads s)) with 0 in * by lia. lia.
  - intros t i c Ht. pose proof (inv_local _ Hi t _ Ht) as Hc. cbn [local_ok] in Hc. rewrite Hlen in Hc.
    unfold known, INT_MIN, INT_MAX in *. destruct (Z.ltb_spec c 0); lia.
  - intros t c Ht. pose proof (inv_local _ Hi t _ Ht) as Hc. cbn [local_ok] in Hc. rewrite Hlen in Hc.
    unfold INT_MAX in *. lia.
Qed.

(** A run with contention: thread 0 takes the lock, thread 1 spins, marks
    itself, falls asleep. *)
Ltac go t := eapply rtc_l; [apply step_move; eapply (move_next _ _ t); reflexivity|cbn [insert list_insert]].
Ltac call t := eapply rtc_l; [eapply (step_call _ _ t); reflexivity|cbn [insert list_insert]].

Definition contended : sys := Sys (INT_MIN + 2) [Crit; Wait (INT_MIN + 2); Idle].

Lemma contended_reachable : rtc step (start 3) contended.
Proof.
  change (start 3) with (Sys 0 [Idle; Idle; Idle]). call 0%nat. go 0%nat. call 1%nat. do 14 go 1%nat. apply rtc_refl.
Qed.

Lemma lock_mutual_exclusion_witness :
  rtc step (start 3) contended /\
  (lock contended < 0 <-> exists t p, threads contended !! t = Some p /\ holds p = 1).
Proof.
  split; [apply contended_reachable|].
  destruct (lock_mutual_exclusion 3 contended ltac:(vm_compute; reflexivity) contended_reachable) as (_ & H & _). exact H.
Defined.

(** C10: no wake-up is lost and no thread is stuck.  From every state that [n]
    threads, fewer than 2^31, can reach, whoever is asleep then, the threads
    that are in [__lock] or [__unlock] can all come to their end without a
    further call or signal, each woken by the release of another, and the lock
    then is 0 again. *)
Theorem lock_no_lost_wakeup n s : Z.of_nat n < 2 ^ 31 -> rtc step (start n) s -> rtc move s (start n).
Proof. apply all_leave. Qed.

Lemma lock_no_lost_wakeup_witness : rtc step (start 3) contended /\ rtc move contended (start 3).
Proof.
  split; [apply contended_reachable|].
  exact (lock_no_lost_wakeup 3 contended ltac:(vm_compute; reflexivity) contended_reachable).
Defined.
