(* ===== verification/Sem.v ===== *)
(** Semaphores, src/musl-1.1.19/src/thread/sem_wait.c, sem_timedwait.c,
    sem_trywait.c and sem_post.c, as a transition system of any number of threads,
    in the manner of Lock.v: a thread is at one of the points [pc] between two
    accesses to the semaphore, and one transition is one access.

    The words of a semaphore are the value ([__val[0]]; -1 says 0 with maybe
    someone who sleeps) and the number of waiters ([__val[1]]).  Two counters that
    the code does not have tell how many posts and waits succeeded.  A wait may
    end early, when its time has come or the thread is cancelled. *)
From S2P Require Import Prelude Threads.

Definition SEM_VALUE_MAX : Z := 0x7fffffff.

(** The three places where [sem_trywait] is called. *)
Inductive ctx := Once | Fast | Retry.

(** Where a thread is, with its local variables. *)
Inductive pc :=
| Idle                         (* outside *)
| Load (c : ctx)               (* [sem_trywait], at the read of the value *)
| Waiters (c : ctx)            (* the value was 1: at the read of the waiters *)
| Take (c : ctx) (val new : Z) (* at the [a_cas] of [sem_trywait] *)
| Spin (spins : Z)             (* at the read of the value in the spin loop *)
| SpinW (spins : Z)            (* at the read of the waiters there *)
| Inc                          (* at the [a_inc] of the waiters *)
| Mark                         (* at the [a_cas] of 0 to -1 *)
| Futex                        (* at the system call *)
| Sleep                        (* asleep in it *)
| Dec (again : bool)           (* at the [a_dec]; whether the loop goes on *)
| Post                         (* [sem_post], at the read of the value *)
| PostW (val : Z)              (* at the read of the waiters *)
| PostCas (val waiters : Z)    (* at the [a_cas] of [sem_post] *)
| Wake.                        (* at [__wake] *)

#[export] Instance ctx_eq_dec : EqDecision ctx.
Proof. solve_decision. Defined.

#[export] Instance pc_eq_dec : EqDecision pc.
Proof. solve_decision. Defined.

Record sys := Sys { value : Z; waiters : Z; posted : Z; taken : Z; threads : list pc }.

(** Where [sem_trywait] goes when there is no token. *)
Definition busy (c : ctx) : pc := match c with Once => Idle | Fast => Spin 100 | Retry => Inc end.

(** What a thread does that is not at a system call: the new words, and where it goes;
    [d] and [t] are the changes of the counters. *)
Record effect := Effect { e_value : Z; e_waiters : Z; e_posted : Z; e_taken : Z; e_pc : pc }.

Definition next (v w : Z) (p : pc) : option effect :=
  let go p := Some (Effect v w 0 0 p) in
  match p with
  | Load c => go (if v >? 0 then (if v =? 1 then Waiters c else Take c v (v - 1)) else busy c)
  | Waiters c => go (Take c 1 (1 - 1 - (if w =? 0 then 0 else 1)))
  | Take c val new => if v =? val then Some (Effect new w 0 1 Idle) else go (Load c)
  | Spin spins => if spins =? 0 then go (Load Retry) else go (if v <=? 0 then SpinW (spins - 1) else Load Retry)
  | SpinW spins => go (if w =? 0 then Spin spins else Load Retry)
  | Inc => Some (Effect v (s32 (w + 1)) 0 0 Mark)
  | Mark => Some (Effect (if v =? 0 then -1 else v) w 0 0 Futex)
  | Dec again => Some (Effect v (s32 (w - 1)) 0 0 (if again then Load Retry else Idle))
  | Post => go (PostW v)
  | PostW val => go (if val =? SEM_VALUE_MAX then Idle else PostCas val w)
  | PostCas val waiters =>
      if v =? val then Some (Effect (val + 1 + (if val <? 0 then 1 else 0)) w 1 0 (if (val <? 0) || negb (waiters =? 0) then Wake else Idle))
      else go Post
  | Idle | Futex | Sleep | Wake => None
  end.

Definition asleep (p : pc) : bool := match p with Sleep => true | _ => false end.

(** A transition of a thread that is in one of the functions. *)
Inductive move : sys -> sys -> Prop :=
| move_next v w d t ts i p e :
    ts !! i = Some p -> next v w p = Some e ->
    move (Sys v w d t ts) (Sys (e_value e) (e_waiters e) (d + e_posted e) (t + e_taken e) (<[i := e_pc e]> ts))
| move_sleep w d t ts i :                  (* the value is still -1 *)
    ts !! i = Some Futex -> move (Sys (-1) w d t ts) (Sys (-1) w d t (<[i := Sleep]> ts))
| move_again v w d t ts i :                (* it is not *)
    ts !! i = Some Futex -> v <> -1 -> move (Sys v w d t ts) (Sys v w d t (<[i := Dec true]> ts))
| move_wake v w d t ts i j :               (* [__wake] with a sleeper *)
    ts !! i = Some Wake -> ts !! j = Some Sleep -> move (Sys v w d t ts) (Sys v w d t (<[j := Dec true]> (<[i := Idle]> ts)))
| move_wake_none v w d t ts i :            (* [__wake] without *)
    ts !! i = Some Wake -> Forall (fun p => asleep p = false) ts -> move (Sys v w d t ts) (Sys v w d t (<[i := Idle]> ts)).

(** What begins from outside: calls, signals, the time. *)
Definition entry (p : pc) : bool := match p with Load Once | Load Fast | Post => true | _ => false end.

Inductive step : sys -> sys -> Prop :=
| step_move s s' : move s s' -> step s s'
| step_call v w d t ts i p :               (* [sem_trywait], [sem_wait] or [sem_post] is called *)
    ts !! i = Some Idle -> entry p = true -> step (Sys v w d t ts) (Sys v w d t (<[i := p]> ts))
| step_signal v w d t ts i :
    ts !! i = Some Sleep -> step (Sys v w d t ts) (Sys v w d t (<[i := Dec true]> ts))
| step_timeout v w d t ts i p :
    ts !! i = Some p -> p = Futex \/ p = Sleep -> step (Sys v w d t ts) (Sys v w d t (<[i := Dec false]> ts)).

Definition start (v : Z) (n : nat) : sys := Sys v 0 0 0 (replicate n Idle).

(** sem_getvalue.c: what a thread that looks at the value is told. *)
Definition sem_getvalue (v : Z) : Z := if v <? 0 then 0 else v.

(** ** The invariant *)
Definition waits (p : pc) : Z := match p with Mark | Futex | Sleep | Dec _ => 1 | _ => 0 end.

Definition local_ok (p : pc) : Prop :=
  match p with
  | Take _ val new => 1 <= val <= SEM_VALUE_MAX /\ (new = val - 1 \/ (val = 1 /\ new = -1))
  | PostW val => -1 <= val <= SEM_VALUE_MAX
  | PostCas val _ => -1 <= val < SEM_VALUE_MAX
  | _ => True
  end.

Record Inv (v0 : Z) (s : sys) : Prop := {
  inv_value : -1 <= value s <= SEM_VALUE_MAX;
  inv_tokens : Z.max 0 (value s) = v0 + posted s - taken s;
  inv_waiters : waiters s = total waits (threads s);
  inv_local i p : threads s !! i = Some p -> local_ok p }.

Lemma sem_waits_range p : 0 <= waits p <= 1.
Proof. destruct p; cbn; lia. Qed.

Lemma sem_local_insert (ts : list pc) i q : (forall j p, ts !! j = Some p -> local_ok p) -> local_ok q -> forall j p, <[i := q]> ts !! j = Some p -> local_ok p.
Proof.
  intros H Hq j p Hj. apply list_lookup_insert_Some in Hj as [(_ & <- & _)|(_ & Hj)]; [done|by apply (H j)].
Qed.

Lemma sem_inv_start v n : 0 <= v <= SEM_VALUE_MAX -> Inv v (start v n).
Proof.
  intros Hv. split; cbn [value waiters posted taken threads start]; [lia|lia|by rewrite total_replicate|].
  intros i p Hi. by apply lookup_replicate in Hi as [-> _].
Qed.

(** A thread goes from one point to another and the words stay. *)
Lemma sem_inv_go v0 v w d t ts i p q : Inv v0 (Sys v w d t ts) -> ts !! i = Some p -> waits q = waits p -> local_ok q -> Inv v0 (Sys v w d t (<[i := q]> ts)).
Proof.
  intros [H1 H2 H3 H4] Hi Hw Hq. split; cbn [value waiters posted taken threads] in *; [done|done| |by apply sem_local_insert].
  rewrite (total_insert _ _ _ _ _ Hi). lia.
Qed.

Lemma sem_next_inv v0 v w d t ts i p e : Inv v0 (Sys v w d t ts) -> Z.of_nat (length ts) < 2 ^ 31 -> ts !! i = Some p -> next v w p = Some e ->
  Inv v0 (Sys (e_value e) (e_waiters e) (d + e_posted e) (t + e_taken e) (<[i := e_pc e]> ts)).
Proof.
  intros Hinv Hn Hi He. pose proof Hinv as [H1 H2 H3 H4]. cbn [value waiters posted taken threads] in *. pose proof (H4 i p Hi) as Hp.
  pose proof (total_lookup waits ts i p (fun p => proj1 (sem_waits_range p)) Hi) as Hwi.
  pose proof (total_le_length waits (<[i := Mark]> ts) (fun p => proj2 (sem_waits_range p))) as Hwl. rewrite length_insert, (total_insert _ _ _ _ _ Hi) in Hwl.
  pose proof (total_nonneg waits ts (fun p => proj1 (sem_waits_range p))) as Hw0. unfold SEM_VALUE_MAX in *.
  split; cbn [value waiters posted taken threads]; rewrite ?(total_insert _ _ _ _ _ Hi); [| | |apply sem_local_insert; [done|]];
    destruct p; cbn [next] in He; cbv zeta in He; repeat case_match; simplify_eq; cbn [e_value e_waiters e_posted e_taken e_pc waits local_ok] in *;
    unfold SEM_VALUE_MAX in *; try done; try lia; rewrite ?s32_id by lia; try lia.
  all: destruct c; cbn; done || lia.
Qed.

Lemma sem_step_inv v0 s s' : step s s' -> Z.of_nat (length (threads s)) < 2 ^ 31 -> Inv v0 s -> Inv v0 s' /\ length (threads s') = length (threads s).
Proof.
  intros Hs Hn Hinv. destruct Hs as [s s' [v w d t ts i p e Hi He|w d t ts i Hi|v w d t ts i Hi Hv|v w d t ts i j Hi Hj|v w d t ts i Hi Hno]|v w d t ts i p Hi Hp|v w d t ts i Hi|v w d t ts i p Hi Hp];
    cbn [threads] in *; rewrite ?length_insert; (split; [|done]).
  - by apply (sem_next_inv v0 v w d t ts i p e).
  - by apply (sem_inv_go v0 _ _ _ _ _ _ Futex).
  - by apply (sem_inv_go v0 _ _ _ _ _ _ Futex).
  - assert (Hne : j <> i) by (intros ->; congruence).
    apply (sem_inv_go v0 _ _ _ _ _ _ Sleep); [by apply (sem_inv_go v0 _ _ _ _ _ _ Wake)|by rewrite list_lookup_insert_ne|done|done].
  - by apply (sem_inv_go v0 _ _ _ _ _ _ Wake).
  - apply (sem_inv_go v0 _ _ _ _ _ _ Idle); destruct p; done.
  - by apply (sem_inv_go v0 _ _ _ _ _ _ Sleep).
  - by apply (sem_inv_go v0 _ _ _ _ _ _ p); [| |destruct Hp as [->| ->]|].
Qed.

Lemma sem_reachable_inv v0 n s : 0 <= v0 <= SEM_VALUE_MAX -> Z.of_nat n < 2 ^ 31 -> rtc step (start v0 n) s -> Inv v0 s /\ length (threads s) = n.
Proof.
  intros Hv Hn. revert s. apply (rtc_ind_r _ (start v0 n)); [split; [by apply sem_inv_start|apply length_replicate]|].
  intros s s' _ Hs [Hi Hl]. destruct (sem_step_inv v0 s s' Hs) as [Hi' Hl']; [by rewrite Hl|done|split; [done|congruence]].
Qed.

(** ** Schedules *)

(** A choice: which thread goes on, and how. *)
Inductive act := Call (i : nat) (p : pc) | Go (i : nat) | GoMany (k : nat) (i : nat) | FallAsleep (i : nat) | WakeUp (i j : nat).

Definition go (i : nat) (s : sys) : option sys :=
  match threads s !! i with
  | Some p => match next (value s) (waiters s) p with
              | Some e => Some (Sys (e_value e) (e_waiters e) (posted s + e_posted e) (taken s + e_taken e) (<[i := e_pc e]> (threads s)))
              | None => None end
  | None => None
  end.

Fixpoint go_many (k : nat) (i : nat) (s : sys) : option sys :=
  match k with O => Some s | S k => match go i s with Some s => go_many k i s | None => None end end.

Definition put (i : nat) (p : pc) (s : sys) : sys := Sys (value s) (waiters s) (posted s) (taken s) (<[i := p]> (threads s)).

Definition perform (a : act) (s : sys) : option sys :=
  match a with
  | Call i p => if decide (threads s !! i = Some Idle) then if entry p then Some (put i p s) else None else None
  | Go i => go i s
  | GoMany k i => go_many k i s
  | FallAsleep i => if decide (threads s !! i = Some Futex) then if value s =? -1 then Some (put i Sleep s) else None else None
  | WakeUp i j => if decide (threads s !! i = Some Wake) then if decide (threads s !! j = Some Sleep) then Some (put j (Dec true) (put i Idle s)) else None else None
  end.

Definition schedule (l : list act) (s : sys) : option sys := foldl (fun r a => r ≫= perform a) (Some s) l.

Lemma go_sound i s s' : go i s = Some s' -> step s s'.
Proof.
  unfold go. destruct (threads s !! i) as [p|] eqn:Hi; [|done]. destruct (next (value s) (waiters s) p) as [e|] eqn:He; [|done]. intros [= <-].
  destruct s as [v w d t ts]. apply step_move. by apply (move_next v w d t ts i p e).
Qed.

Lemma go_many_sound k i : forall s s', go_many k i s = Some s' -> rtc step s s'.
Proof.
  induction k as [|k IH]; intros s s'; cbn [go_many]; [by intros [= <-]|]. destruct (go i s) as [s1|] eqn:E; [|done]. intros H.
  eapply rtc_l; [by eapply go_sound|by apply IH].
Qed.

Lemma sem_perform_sound a s s' : perform a s = Some s' -> rtc step s s'.
Proof.
  destruct s as [v w d t ts]. destruct a as [i p|i|k i|i|i j]; cbn [perform threads value].
  - case_decide as Hi; [|done]. destruct (entry p) eqn:Hp; [|done]. intros [= <-]. apply rtc_once. by apply step_call.
  - intros H. by eapply rtc_once, go_sound.
  - apply go_many_sound.
  - case_decide as Hi; [|done]. destruct (Z.eqb_spec v (-1)) as [->|]; [|done]. intros [= <-]. by apply rtc_once, step_move, move_sleep.
  - case_decide as Hi; [|done]. case_decide as Hj; [|done]. intros [= <-]. by apply rtc_once, step_move, move_wake.
Qed.

Lemma sem_schedule_sound l : forall s s', schedule l s = Some s' -> rtc step s s'.
Proof.
  induction l as [|a l IH]; intros s s'; unfold schedule; cbn [foldl]; [by intros [= <-]|].
  cbn. destruct (perform a s) as [s1|] eqn:E.
  - intros H. transitivity s1; [by apply (sem_perform_sound a)|by apply IH].
  - intros H. exfalso. revert H. clear. induction l as [|b l IH]; cbn; [done|apply IH].
Qed.

(** ** What semaphores promise *)

(** C13: Tokens are neither lost nor made: in every state that [n] threads can reach
    with [sem_wait], [sem_trywait], [sem_timedwait] and [sem_post], signals and
    time-outs, what [sem_getvalue] tells is the initial value and the successful posts less the
    successful waits, and it never exceeds [SEM_VALUE_MAX]; the second word counts
    the threads that may sleep. *)
Theorem sem_tokens v0 n s : 0 <= v0 <= SEM_VALUE_MAX -> Z.of_nat n < 2 ^ 31 -> rtc step (start v0 n) s ->
  sem_getvalue (value s) = v0 + posted s - taken s /\ taken s <= v0 + posted s /\ -1 <= value s <= SEM_VALUE_MAX /\ waiters s = total waits (threads s).
Proof.
  intros Hv Hn Hr. destruct (sem_reachable_inv v0 n s Hv Hn Hr) as [[H1 H2 H3 _] _].
  unfold sem_getvalue. destruct (Z.ltb_spec (value s) 0); split_and!; try done; lia.
Qed.

(** A schedule that loses a wake-up *)
Definition lost_schedule : list act :=
  [Call 0 Post; GoMany 2 0;                            (* a post reads 1, and no waiters *)
   Call 1 (Load Once); GoMany 2 1;                     (* so does a wait *)
   Call 2 (Load Once); GoMany 3 2;                     (* another takes the token *)
   Call 3 Post; GoMany 2 3;                            (* a post reads 0, and no waiters *)
   Call 4 (Load Fast); GoMany 205 4; FallAsleep 4;     (* two waiters fall asleep *)
   Call 5 (Load Fast); GoMany 6 5; FallAsleep 5;
   Call 2 Post; GoMany 3 2;                            (* a post makes -1 to 1 *)
   Go 1; Go 3; Go 0;                                   (* the stale reads are good again *)
   WakeUp 2 4; GoMany 3 4].                            (* one waiter is woken, and takes 2 to 1 *)

Lemma still s : Forall (fun p => p = Idle \/ p = Sleep) (threads s) -> forall s', ~ move s s'.
Proof.
  intros Hf s' Hm. assert (H : forall i p, threads s !! i = Some p -> p = Idle \/ p = Sleep) by (intros i p Hi; exact (Forall_lookup_1 _ _ _ _ Hf Hi)).
  destruct Hm as [v w d t ts i p e Hi He|w d t ts i Hi|v w d t ts i Hi Hv|v w d t ts i j Hi Hj|v w d t ts i Hi Hno]; destruct (H i _ Hi) as [E|E]; by subst.
Qed.

(** C14: A wake-up can be lost: with six threads and an initial value of 1, a state can
    be reached where the value is 1, a thread sleeps in [sem_wait], and no thread can
    go on by itself: all others are outside, so only a new call or a signal can wake the sleeper.  Two calls of [sem_post] read that there
    are no waiters, a third makes the value positive before they write, and it alone
    wakes, once. *)
Theorem sem_wakeup_lost : exists s, rtc step (start 1 6) s /\ value s = 1 /\ threads s = [Idle; Idle; Idle; Idle; Idle; Sleep] /\ forall s', ~ move s s'.
Proof.
  exists (Sys 1 1 3 3 [Idle; Idle; Idle; Idle; Idle; Sleep]). split; [apply (sem_schedule_sound lost_schedule); by vm_compute|].
  split; [done|]. split; [done|]. apply still. cbn [threads]. repeat (apply Forall_cons; [by auto|]). done.
Qed.

Lemma sem_tokens_witness : exists s, rtc step (start 1 6) s /\ posted s = 3 /\
  (sem_getvalue (value s) = 1 + posted s - taken s /\ taken s <= 1 + posted s /\ -1 <= value s <= SEM_VALUE_MAX /\ waiters s = total waits (threads s)).
Proof.
  assert (Hr : rtc step (start 1 6) (Sys 1 1 3 3 [Idle; Idle; Idle; Idle; Idle; Sleep])) by (apply (sem_schedule_sound lost_schedule); vm_compute; reflexivity).
  exists (Sys 1 1 3 3 [Idle; Idle; Idle; Idle; Idle; Sleep]). split; [exact Hr|]. split; [reflexivity|].
  apply (sem_tokens 1 6); [unfold SEM_VALUE_MAX; lia|vm_compute; reflexivity|exact Hr].
Defined.
