(* ===== verification/Rwlock.v ===== *)
(** Read-write locks, src/musl-1.1.19/src/thread/pthread_rwlock_rdlock.c,
    pthread_rwlock_tryrdlock.c, pthread_rwlock_timedrdlock.c, the same for writers,
    and pthread_rwlock_unlock.c, as a transition system of any number of threads in
    the manner of Lock.v: one transition is one access to the words of the lock.

    The low 31 bits of [_rw_lock] count the readers, and are all ones when a writer
    holds the lock; the sign bit says that someone may sleep.  [_rw_waiters] counts
    the threads that may sleep.  A timed function may end early, when its time has
    come.  A thread holds the lock at most once. *)
From S2P Require Import Prelude Threads.

(** What a thread wants or has. *)
Inductive kind := Rd | Wr.

(** The three places where the functions that do not wait are called. *)
Inductive ctx := Once | Fast | Retry.

(** Where a thread is, with its local variables. *)
Inductive pc :=
| Idle                               (* outside, without the lock *)
| Try (k : kind) (c : ctx)           (* tryrdlock, at the read; trywrlock, at the [a_cas] *)
| RdCas (c : ctx) (val : Z)          (* tryrdlock, at the [a_cas] *)
| Spin (k : kind) (spins : Z)        (* at the read of the lock in the spin loop *)
| SpinW (k : kind) (spins : Z)       (* at the read of the waiters there *)
| Busy (k : kind)                    (* at the read of [r] *)
| Inc (k : kind) (r : Z)             (* at the [a_inc] of the waiters *)
| Flag (k : kind) (r : Z)            (* at the [a_cas] of [r] to [t] *)
| Futex (k : kind) (t : Z)           (* at the system call *)
| Sleep (k : kind)                   (* asleep in it *)
| Dec (k : kind) (again : bool)      (* at the [a_dec]; whether the loop goes on *)
| Hold (k : kind)                    (* outside, with the lock *)
| Unlock (k : kind)                  (* at the read of the lock in unlock *)
| UnlockW (k : kind) (val : Z)       (* at the read of the waiters *)
| UnlockCas (k : kind) (val waiters : Z)  (* at the [a_cas] *)
| Wake (cnt : Z).                    (* at [__wake] *)

#[export] Instance kind_eq_dec : EqDecision kind.
Proof. solve_decision. Defined.

#[export] Instance ctx_eq_dec : EqDecision ctx.
Proof. solve_decision. Defined.

#[export] Instance pc_eq_dec : EqDecision pc.
Proof. solve_decision. Defined.

Definition COUNT : Z := 0x7fffffff.

(** [val & 0x7fffffff] and [r | 0x80000000] of an [int] *)
Definition count (v : Z) : Z := Z.land v COUNT.
Definition flagged (r : Z) : Z := s32 (Z.lor (u32 r) 0x80000000).

(** Where the functions that do not wait go when they find the lock taken. *)
Definition busy (k : kind) (c : ctx) : pc := match c with Once => Idle | Fast => Spin k 100 | Retry => Busy k end.

(** The new words and where the thread goes, if it is not at a system call. *)
Definition next (l w : Z) (p : pc) : option (Z * Z * pc) :=
  match p with
  | Try Rd c =>
      if count l =? 0x7fffffff then Some (l, w, busy Rd c)
      else if count l =? 0x7ffffffe then Some (l, w, Idle) (* EAGAIN *)
      else Some (l, w, RdCas c l)
  | RdCas c val => if l =? val then Some (val + 1, w, Hold Rd) else Some (l, w, Try Rd c)
  | Try Wr c => if l =? 0 then Some (0x7fffffff, w, Hold Wr) else Some (l, w, busy Wr c)
  | Spin k spins => if spins =? 0 then Some (l, w, Try k Retry) else if l =? 0 then Some (l, w, Try k Retry) else Some (l, w, SpinW k (spins - 1))
  | SpinW k spins => if w =? 0 then Some (l, w, Spin k spins) else Some (l, w, Try k Retry)
  | Busy k =>
      if (l =? 0) || (match k with Rd => negb (count l =? 0x7fffffff) | Wr => false end) then Some (l, w, Try k Retry)
      else Some (l, w, Inc k l)
  | Inc k r => Some (l, s32 (w + 1), Flag k r)
  | Flag k r => Some (if l =? r then flagged r else l, w, Futex k (flagged r))
  | Dec k again => Some (l, s32 (w - 1), if again then Try k Retry else Idle)
  | Unlock k => Some (l, w, UnlockW k l)
  | UnlockW k val => Some (l, w, UnlockCas k val w)
  | UnlockCas k val waiters =>
      let cnt := count val in
      let new := if (cnt =? 0x7fffffff) || (cnt =? 1) then 0 else val - 1 in
      if l =? val then Some (new, w, if (new =? 0) && (negb (waiters =? 0) || (val <? 0)) then Wake cnt else Idle)
      else Some (l, w, Unlock k)
  | Idle | Futex _ _ | Sleep _ | Hold _ | Wake _ => None
  end.

Record sys := Sys { lock : Z; waiters : Z; threads : list pc }.

Definition asleep (p : pc) : bool := match p with Sleep _ => true | _ => false end.

(** A sleeper goes on; all of them. *)
Definition rouse (p : pc) : pc := match p with Sleep k => Dec k true | p => p end.

(** A transition of a thread that is in one of the functions. *)
Inductive move : sys -> sys -> Prop :=
| move_next l w ts i p l' w' p' :
    ts !! i = Some p -> next l w p = Some (l', w', p') -> move (Sys l w ts) (Sys l' w' (<[i := p']> ts))
| move_sleep l w ts i k :                 (* the lock still has the value *)
    ts !! i = Some (Futex k l) -> move (Sys l w ts) (Sys l w (<[i := Sleep k]> ts))
| move_again l w ts i k t :               (* it has not *)
    ts !! i = Some (Futex k t) -> l <> t -> move (Sys l w ts) (Sys l w (<[i := Dec k true]> ts))
| move_wake_all l w ts i cnt :            (* [__wake] of all *)
    ts !! i = Some (Wake cnt) -> cnt <> 1 -> move (Sys l w ts) (Sys l w (rouse <$> <[i := Idle]> ts))
| move_wake_one l w ts i j k :            (* [__wake] of one, with a sleeper *)
    ts !! i = Some (Wake 1) -> ts !! j = Some (Sleep k) -> move (Sys l w ts) (Sys l w (<[j := Dec k true]> (<[i := Idle]> ts)))
| move_wake_none l w ts i :               (* without *)
    ts !! i = Some (Wake 1) -> Forall (fun p => asleep p = false) ts -> move (Sys l w ts) (Sys l w (<[i := Idle]> ts)).

(** What begins from outside: calls, signals, the time. *)
Inductive step : sys -> sys -> Prop :=
| step_move s s' : move s s' -> step s s'
| step_call l w ts i k c :                (* a thread asks for the lock *)
    ts !! i = Some Idle -> c <> Retry -> step (Sys l w ts) (Sys l w (<[i := Try k c]> ts))
| step_unlock l w ts i k :                (* one that has it gives it back *)
    ts !! i = Some (Hold k) -> step (Sys l w ts) (Sys l w (<[i := Unlock k]> ts))
| step_signal l w ts i k :
    ts !! i = Some (Sleep k) -> step (Sys l w ts) (Sys l w (<[i := Dec k true]> ts))
| step_timeout l w ts i k p :
    ts !! i = Some p -> p = Sleep k \/ (exists t, p = Futex k t) -> step (Sys l w ts) (Sys l w (<[i := Dec k false]> ts)).

Definition start (n : nat) : sys := Sys 0 0 (replicate n Idle).

(** ** Values of the lock *)

(** A value of the lock with the count [c]. *)
Definition shape (v c : Z) : Prop := 0 <= c <= COUNT /\ (v = c \/ (v = c - 2 ^ 31 /\ 0 < c)).

Lemma count_shape v c : shape v c -> count v = c.
Proof.
  intros [Hc Hv]. unfold count, COUNT in *. change 0x7fffffff with (Z.ones 31). rewrite Z.land_ones by lia.
  change (Z.ones 31) with (2 ^ 31 - 1) in Hc. destruct Hv as [->|[-> _]]; [by apply Z.mod_small; lia|].
  replace (c - 2 ^ 31) with (c + (-1) * 2 ^ 31) by lia. rewrite Z.mod_add by lia. apply Z.mod_small. lia.
Qed.

Lemma flagged_shape v c : shape v c -> 0 < c -> flagged v = c - 2 ^ 31.
Proof.
  unfold shape, COUNT, flagged. intros [Hc Hv] H0. assert (E : Z.lor (u32 v) 0x80000000 = c + 2 ^ 31).
  { assert (Hb : Z.lor (c mod 2 ^ 31) (1 * 2 ^ 31) = c + 2 ^ 31).
    { rewrite Z.mod_small by lia. rewrite lor_add; lia. }
    rewrite Z.mod_small in Hb by lia. change (1 * 2 ^ 31) with 0x80000000 in Hb. destruct Hv as [->|[-> _]].
    - by rewrite u32_id by lia.
    - replace (u32 (c - 2 ^ 31)) with (c + 2 ^ 31); [rewrite <- Hb; by rewrite <- Z.lor_assoc, Z.lor_diag|]. unfold u32. apply (Z.mod_unique _ _ (-1)); lia. }
  rewrite E. unfold s32. replace (c + 2 ^ 31 + 2 ^ 31) with (c + 1 * 2 ^ 32) by lia. rewrite Z.mod_add, Z.mod_small by lia. lia.
Qed.

(** ** The invariant *)
Definition readers (p : pc) : Z := match p with Hold Rd | Unlock Rd | UnlockW Rd _ | UnlockCas Rd _ _ => 1 | _ => 0 end.
Definition writers (p : pc) : Z := match p with Hold Wr | Unlock Wr | UnlockW Wr _ | UnlockCas Wr _ _ => 1 | _ => 0 end.
Definition waits (p : pc) : Z := match p with Flag _ _ | Futex _ _ | Sleep _ | Dec _ _ => 1 | _ => 0 end.

(** Who will try to take the lock, or wake others. *)
Definition active (p : pc) : Z := match p with Try _ Retry | RdCas Retry _ | Dec _ true | Wake _ => 1 | _ => 0 end.

Definition sleeping (ts : list pc) : Prop := exists i k, ts !! i = Some (Sleep k).

Definition local_ok (p : pc) : Prop :=
  match p with
  | RdCas _ v => exists c, shape v c /\ c < COUNT - 1
  | Inc _ r | Flag _ r => exists c, shape r c /\ 0 < c
  | Futex _ t => t < 0
  | UnlockW _ v | UnlockCas _ v _ => exists c, shape v c
  | _ => True
  end.

Record Inv (s : sys) : Prop := {
  inv_lock : exists c, shape (lock s) c /\
    ((total writers (threads s) = 0 /\ c = total readers (threads s) /\ c < COUNT) \/ (total writers (threads s) = 1 /\ total readers (threads s) = 0 /\ c = COUNT));
  inv_waiters : waiters s = total waits (threads s);
  inv_local i p : threads s !! i = Some p -> local_ok p;
  (* whoever sleeps will be woken *)
  inv_wake : sleeping (threads s) -> 0 < total readers (threads s) + total writers (threads s) + total active (threads s);
  inv_stale i k v w : threads s !! i = Some (UnlockCas k v w) -> sleeping (threads s) -> w <> 0 \/ lock s < 0 }.

Lemma readers_range p : 0 <= readers p <= 1.
Proof. destruct p as [| | | | | | | | | | |[]|[]|[]|[]|]; cbn; lia. Qed.

Lemma writers_range p : 0 <= writers p <= 1.
Proof. destruct p as [| | | | | | | | | | |[]|[]|[]|[]|]; cbn; lia. Qed.

Lemma rw_waits_range p : 0 <= waits p <= 1.
Proof. destruct p; cbn; lia. Qed.

Lemma rw_active_range p : 0 <= active p <= 1.
Proof. destruct p as [|? []|[]| | | | | | | |? []| | | | |]; cbn; lia. Qed.

Lemma rw_inv_start n : Inv (start n).
Proof.
  split; cbn [lock waiters threads start]; rewrite ?total_replicate by done.
  - exists 0. unfold shape, COUNT. lia.
  - done.
  - intros i p Hi. by apply lookup_replicate in Hi as [-> _].
  - intros (i & k & Hi). by apply lookup_replicate in Hi as [? _].
  - intros i k v w Hi. by apply lookup_replicate in Hi as [? _].
Qed.

Lemma sleeping_insert ts i p : asleep p = false -> sleeping (<[i := p]> ts) -> sleeping ts.
Proof.
  intros Hp (j & k & Hj). apply list_lookup_insert_Some in Hj as [(_ & E & _)|(_ & Hj)]; [by rewrite E in Hp|by exists j, k].
Qed.

Lemma rw_local_insert ts i q : (forall j p, ts !! j = Some p -> local_ok p) -> local_ok q -> forall j p, (<[i := q]> ts : list pc) !! j = Some p -> local_ok p.
Proof.
  intros H Hq j p Hj. apply list_lookup_insert_Some in Hj as [(_ & <- & _)|(_ & Hj)]; [done|by apply (H j)].
Qed.

(** A thread goes from one point to another; the words of the lock may change. *)
Lemma inv_change l w ts i p l' w' p' : Inv (Sys l w ts) -> ts !! i = Some p ->
  (exists c, shape l' c /\ ((total writers ts - writers p + writers p' = 0 /\ c = total readers ts - readers p + readers p' /\ c < COUNT) \/
    (total writers ts - writers p + writers p' = 1 /\ total readers ts - readers p + readers p' = 0 /\ c = COUNT))) ->
  w' = w - waits p + waits p' -> local_ok p' ->
  (sleeping (<[i := p']> ts) -> 0 < total readers ts - readers p + readers p' + (total writers ts - writers p + writers p') + (total active ts - active p + active p')) ->
  (forall j k v x, <[i := p']> ts !! j = Some (UnlockCas k v x) -> sleeping (<[i := p']> ts) -> x <> 0 \/ l' < 0) ->
  Inv (Sys l' w' (<[i := p']> ts)).
Proof.
  intros [H1 H2 H3 H4 H5] Hi Hl Hw Hloc Hwk Hst. cbn [lock waiters threads] in *. split; cbn [lock waiters threads]; rewrite ?(total_insert _ _ _ _ _ Hi); [done|lia| |done|done].
  by apply rw_local_insert.
Qed.

(** The lock stays as it is. *)
Lemma rw_inv_go l w ts i p w' p' : Inv (Sys l w ts) -> ts !! i = Some p -> readers p' = readers p -> writers p' = writers p -> w' = w - waits p + waits p' ->
  local_ok p' -> asleep p' = false -> (active p <= active p' \/ 0 < total readers ts + total writers ts) ->
  (forall k v x, p' = UnlockCas k v x -> sleeping ts -> x <> 0 \/ l < 0) -> Inv (Sys l w' (<[i := p']> ts)).
Proof.
  intros Hinv Hi Er Ew Hw Hloc Has Hac Hst. pose proof Hinv as [H1 H2 H3 H4 H5]. cbn [lock waiters threads] in *.
  apply (inv_change l w ts i p); try done.
  - destruct H1 as (c & Hc & H1). exists c. split; [done|]. lia.
  - intros Hs%sleeping_insert; [|done]. specialize (H4 Hs).
    pose proof (total_lookup active ts i p (fun p => proj1 (rw_active_range p)) Hi). pose proof (rw_active_range p'). lia.
  - intros j k v x Hj Hs%sleeping_insert; [|done]. apply list_lookup_insert_Some in Hj as [(_ & E & _)|(_ & Hj)]; [by eapply Hst|by eapply H5].
Qed.

Section next.
Context (l w : Z) (ts : list pc) (i : nat) (p : pc) (Hinv : Inv (Sys l w ts)) (Hn : Z.of_nat (length ts) < 2 ^ 31) (Hi : ts !! i = Some p).

Lemma lock_count : exists c, shape l c /\ count l = c /\
  ((total writers ts = 0 /\ c = total readers ts /\ c < COUNT) \/ (total writers ts = 1 /\ total readers ts = 0 /\ c = COUNT)).
Proof. destruct (inv_lock _ Hinv) as (c & Hc & H). exists c. split; [done|]. split; [by apply count_shape|done]. Qed.

Lemma waits_bound : 0 <= w /\ w - waits p + 1 <= 2 ^ 31 - 1.
Proof.
  pose proof (inv_waiters _ Hinv) as Hw. cbn [waiters threads] in Hw. pose proof (total_nonneg waits ts (fun p => proj1 (rw_waits_range p))) as H0. split; [lia|].
  pose proof (total_le_length waits (<[i := Dec Rd true]> ts) (fun p => proj2 (rw_waits_range p))) as H. rewrite length_insert, (total_insert _ _ _ _ _ Hi) in H. cbn in H. lia.
Qed.

Lemma local_here : local_ok p.
Proof. by apply (inv_local _ Hinv i). Qed.

(** A thread that holds the lock is counted. *)
Lemma counted : readers p <= total readers ts /\ writers p <= total writers ts /\ 0 <= total readers ts /\ 0 <= total writers ts.
Proof.
  split_and!; [by apply (total_lookup readers ts i p (fun p => proj1 (readers_range p)))|by apply (total_lookup writers ts i p (fun p => proj1 (writers_range p)))|
    apply total_nonneg; intros; apply readers_range|apply total_nonneg; intros; apply writers_range].
Qed.

(** Another thread that holds the lock *)
Lemma counted_two j q : j <> i -> ts !! j = Some q -> readers p + readers q <= total readers ts /\ writers p + writers q <= total writers ts.
Proof.
  intros Hne Hj. split; [apply (total_two Idle readers ts i j)|apply (total_two Idle writers ts i j)]; try done; try (intros; apply readers_range || apply writers_range); congruence.
Qed.

(** The lock is taken. *)
Lemma take_inv k l' : readers p = 0 -> writers p = 0 -> waits p = 0 ->
  (k = Rd /\ l' = l + 1 /\ count l < COUNT - 1) \/ (k = Wr /\ l' = COUNT /\ l = 0) -> Inv (Sys l' w (<[i := Hold k]> ts)).
Proof.
  intros Er Ew Ea Hk. destruct lock_count as (c & Hc & Ec & H). destruct counted as (_ & _ & R0 & W0).
  apply (inv_change l w ts i p); try done.
  - destruct Hk as [(-> & -> & Hlt)|(-> & -> & ->)]; cbn [readers writers].
    + exists (c + 1). unfold shape in *. unfold COUNT in *. lia.
    + exists COUNT. unfold shape in *. unfold COUNT in *. lia.
  - destruct k; cbn; lia.
  - intros _. pose proof (total_lookup active ts i p (fun p => proj1 (rw_active_range p)) Hi). destruct k; cbn [readers writers active]; lia.
  - intros j k' v x Hj Hs%sleeping_insert; [|done]. apply list_lookup_insert_Some in Hj as [(_ & E & _)|(Hne & Hj)]; [by destruct k|].
    pose proof (inv_stale _ Hinv j k' v x Hj Hs) as Hst. cbn [lock] in Hst. destruct Hst as [?|Hneg]; [by left|]. destruct Hk as [(-> & -> & Hlt)|(-> & -> & ->)]; [right|lia].
    unfold shape, COUNT in *. lia.
Qed.

(** The lock is given back. *)
Lemma release_inv k v x : p = UnlockCas k v x -> l = v ->
  let new := if (count v =? 0x7fffffff) || (count v =? 1) then 0 else v - 1 in
  Inv (Sys new w (<[i := if (new =? 0) && (negb (x =? 0) || (v <? 0)) then Wake (count v) else Idle]> ts)).
Proof.
  intros Ep <-. cbv zeta. destruct lock_count as (c & Hc & -> & H). destruct counted as (R & W & R0 & W0).
  set (new := if (c =? _) || _ then 0 else l - 1). set (p' := if (new =? 0) && _ then Wake c else Idle).
  assert (Hp : readers p = 1 /\ writers p = 0 \/ readers p = 0 /\ writers p = 1) by (rewrite Ep; destruct k; cbn; lia).
  assert (Hp0 : waits p = 0 /\ active p = 0) by (by rewrite Ep).
  assert (Hp' : readers p' = 0 /\ writers p' = 0 /\ waits p' = 0 /\ local_ok p' /\ asleep p' = false) by (unfold p'; by destruct (_ && _)). destruct Hp' as (Rp & Wp & Ap & Lp & Sp).
  assert (Hnew : (new = 0 /\ (c = COUNT \/ c = 1)) \/ (new = l - 1 /\ 1 < c < COUNT)).
  { unfold new, COUNT in *. destruct (Z.eqb_spec c 0x7fffffff), (Z.eqb_spec c 1); cbn [orb]; unfold shape, COUNT in *; lia. }
  apply (inv_change l w ts i p); try done; try lia.
  - unfold shape, COUNT in *. destruct Hnew as [(E & Hc1)|(E & Hc1)]; [exists 0|exists (c - 1)]; lia.
  - intros Hs%sleeping_insert; [|done]. pose proof (inv_stale _ Hinv i k l x ltac:(cbn; by rewrite Hi, Ep) Hs) as Hst. cbn [lock] in Hst.
    assert (Hac : new = 0 -> active p' = 1).
    { intros E. unfold p'. rewrite E, Z.eqb_refl. destruct Hst as [Hx|Hneg]; [by rewrite (proj2 (Z.eqb_neq x 0))|]. by rewrite (proj2 (Z.ltb_lt _ _) Hneg), orb_true_r. }
    pose proof (total_nonneg active ts (fun p => proj1 (rw_active_range p))). pose proof (rw_active_range p').
    destruct Hnew as [(E & _)|(_ & Hc1)]; [specialize (Hac E); lia|]. unfold COUNT in *. lia.
  - intros j k' v' x' Hj Hs%sleeping_insert; [|done]. apply list_lookup_insert_Some in Hj as [(_ & E & _)|(Hne & Hj)]; [unfold p' in E; by destruct (_ && _)|].
    destruct (inv_stale _ Hinv j k' v' x' Hj Hs) as [?|Hneg]; [by left|right]. cbn [lock] in Hneg.
    assert (Hq : 1 < c < COUNT).
    { destruct (counted_two j _ (not_eq_sym Hne) Hj) as [H1 H2]. cbn [readers writers] in H1, H2. unfold COUNT in *. destruct k'; cbn in H1, H2; lia. }
    unfold shape, COUNT in *. destruct Hnew as [(E & Hc1)|(-> & _)]; lia.
Qed.

(** The sign bit is set. *)
Lemma flag_inv k r : p = Flag k r -> Inv (Sys (if l =? r then flagged r else l) w (<[i := Futex k (flagged r)]> ts)).
Proof.
  intros Ep. pose proof local_here as Hloc. pose proof Hi as Hf. rewrite Ep in Hloc, Hf. destruct Hloc as (c & Hc & H0). rewrite (flagged_shape r c Hc H0).
  assert (Hneg : c - 2 ^ 31 < 0) by (unfold shape, COUNT in Hc; lia).
  destruct (Z.eqb_spec l r) as [E|Hne]; [|apply (rw_inv_go l w ts i (Flag k r)); cbn [readers writers waits active local_ok asleep]; try done; lia].
  destruct lock_count as (c' & Hc' & Ec & H). assert (c' = c) as -> by (rewrite <- Ec, E; by apply count_shape).
  apply (inv_change l w ts i (Flag k r)); cbn [readers writers waits active local_ok asleep]; try done; try lia.
  - exists c. split; [|lia]. unfold shape, COUNT in *. lia.
  - intros Hs%sleeping_insert; [|done]. pose proof (inv_wake _ Hinv Hs) as Hw. cbn [threads] in Hw. lia.
Qed.
End next.

Lemma busy_facts k c : readers (busy k c) = 0 /\ writers (busy k c) = 0 /\ waits (busy k c) = 0 /\ local_ok (busy k c) /\ asleep (busy k c) = false /\
  forall k' v x, busy k c <> UnlockCas k' v x.
Proof. by destruct c. Qed.

(** A thread finds the lock taken. *)
Lemma busy_inv l w ts i k c p' : Inv (Sys l w ts) -> ts !! i = Some (Try k c) -> count l <> 0 -> p' = busy k c \/ p' = Idle -> Inv (Sys l w (<[i := p']> ts)).
Proof.
  intros Hinv Hi Hc Hp. assert (H : readers p' = 0 /\ writers p' = 0 /\ waits p' = 0 /\ local_ok p' /\ asleep p' = false /\ forall k' v x, p' <> UnlockCas k' v x).
  { destruct Hp as [->| ->]; [apply busy_facts|done]. }
  destruct H as (H1 & H2 & H3 & H4 & H5 & H6). destruct (lock_count l w ts Hinv) as (d & Hd & Ed & H).
  pose proof (total_nonneg readers ts (fun p => proj1 (readers_range p))).
  apply (rw_inv_go l w ts i (Try k c)); cbn [readers writers waits]; try done; [lia|right; unfold COUNT in *; lia|].
  intros k' v x E. by apply H6 in E.
Qed.

Lemma rw_next_inv l w ts i p l' w' p' : Inv (Sys l w ts) -> Z.of_nat (length ts) < 2 ^ 31 -> ts !! i = Some p -> next l w p = Some (l', w', p') ->
  Inv (Sys l' w' (<[i := p']> ts)).
Proof.
  intros Hinv Hn Hi He. pose proof (waits_bound l w ts i p Hinv Hn Hi) as Hwb. destruct (lock_count l w ts Hinv) as (c0 & Hc0 & Ec0 & Hl).
  assert (Hgo : forall q, ts !! i = Some p -> readers q = readers p -> writers q = writers p -> waits q = waits p -> local_ok q -> asleep q = false -> active p <= active q ->
    (forall k v x, q <> UnlockCas k v x) -> Inv (Sys l w (<[i := q]> ts))).
  { intros q _ E1 E2 E3 H1 H2 H3 H4. apply (rw_inv_go l w ts i p); try done; [lia|by left|]. intros k v x E. by apply H4 in E. }
  destruct p as [|[] c|c val|k s|k s|k|k r|k r|k t|k|k again|k|k|k val|k val x|cnt]; cbn [next] in He; try done.
  - destruct (Z.eqb_spec (count l) 0x7fffffff) as [E|E]; [injection He as <- <- <-; apply (busy_inv l w ts i Rd c); [done|done|lia|by left]|].
    destruct (Z.eqb_spec (count l) 0x7ffffffe) as [E'|E']; injection He as <- <- <-.
    + apply (busy_inv l w ts i Rd c); [done|done|lia|by right].
    + apply Hgo; try done. exists c0. split; [done|]. unfold shape, COUNT in *. lia.
  - destruct (Z.eqb_spec l 0) as [E|E]; injection He as <- <- <-.
    + apply (take_inv l w ts i (Try Wr c) Hinv Hi); try done. by right.
    + apply (busy_inv l w ts i Wr c); [done|done| |by left]. unfold shape in Hc0. lia.
  - destruct (Z.eqb_spec l val) as [E|E]; injection He as <- <- <-.
    + destruct (local_here l w ts i _ Hinv Hi) as (c1 & Hc1 & Hlt). rewrite <- E in *. apply (take_inv l w ts i (RdCas c l) Hinv Hi); try done.
      left. split_and!; [done|done|]. by rewrite (count_shape l c1).
    + by apply Hgo.
  - destruct (s =? 0), (l =? 0); injection He as <- <- <-; apply Hgo; done.
  - destruct (w =? 0); injection He as <- <- <-; apply Hgo; done.
  - destruct ((l =? 0) || _) eqn:E; injection He as <- <- <-; apply Hgo; try done.
    exists c0. split; [done|]. apply orb_false_iff in E as [E _]. apply Z.eqb_neq in E. unfold shape in Hc0. lia.
  - injection He as <- <- <-. rewrite s32_id by (cbn in Hwb; lia).
    apply (rw_inv_go l w ts i (Inc k r)); try done; [cbn; lia|exact (local_here l w ts i _ Hinv Hi)|by left].
  - injection He as <- <- <-. by apply (flag_inv l w ts i (Flag k r) Hinv Hi).
  - injection He as <- <- <-. rewrite s32_id by (cbn in Hwb; lia).
    destruct again; apply (rw_inv_go l w ts i (Dec k _) _ _ Hinv Hi); try done; try (cbn; lia); by left.
  - injection He as <- <- <-. apply Hgo; try done. by exists c0.
  - injection He as <- <- <-. apply (rw_inv_go l w ts i (UnlockW k val)); try done; [cbn; lia|exact (local_here l w ts i _ Hinv Hi)|by left|].
    intros k' v x [= <- <- <-] (j & k2 & Hj). left. pose proof (inv_waiters _ Hinv) as Hw. cbn [waiters threads] in Hw.
    pose proof (total_lookup waits ts j _ (fun p => proj1 (rw_waits_range p)) Hj) as H1. cbn in H1. lia.
  - destruct (Z.eqb_spec l val) as [E|E]; injection He as <- <- <-.
    + by apply (release_inv l w ts i (UnlockCas k val x) Hinv Hi k val x).
    + apply Hgo; try done; by destruct k.
Qed.

(** All sleepers are woken. *)
Lemma rouse_facts p : readers (rouse p) = readers p /\ writers (rouse p) = writers p /\ waits (rouse p) = waits p /\ active p <= active (rouse p) /\
  asleep (rouse p) = false /\ (local_ok p -> local_ok (rouse p)) /\ forall k v x, rouse p = UnlockCas k v x -> p = UnlockCas k v x.
Proof. by destruct p. Qed.

Lemma rouse_quiet ts : ~ sleeping (rouse <$> ts).
Proof.
  intros (j & k & Hj). rewrite list_lookup_fmap in Hj. destruct (ts !! j) as [p|]; cbn in Hj; [|done]. injection Hj as Hj.
  destruct (rouse_facts p) as (_ & _ & _ & _ & Hp & _). by rewrite Hj in Hp.
Qed.

Lemma rouse_inv l w ts : Inv (Sys l w ts) -> Inv (Sys l w (rouse <$> ts)).
Proof.
  intros [H1 H2 H3 H4 H5]. cbn [lock waiters threads] in *.
  pose proof (rouse_quiet ts) as Hno.
  split; cbn [lock waiters threads]; rewrite ?total_fmap; [| | |done|done].
  - rewrite (total_ext _ writers), (total_ext (fun p => readers (rouse p)) readers); [done|intros; apply rouse_facts..].
  - rewrite (total_ext _ waits); [done|intros; apply rouse_facts].
  - intros i p Hi. rewrite list_lookup_fmap in Hi. destruct (ts !! i) as [q|] eqn:E; cbn in Hi; [|done]. injection Hi as <-. apply rouse_facts. by apply (H3 i).
Qed.

(** A thread falls asleep: the lock has the sign bit, so it is held. *)
Lemma sleep_inv l w ts i k : Inv (Sys l w ts) -> ts !! i = Some (Futex k l) -> Inv (Sys l w (<[i := Sleep k]> ts)).
Proof.
  intros Hinv Hi. pose proof (local_here l w ts i _ Hinv Hi) as Hneg. cbn [local_ok] in Hneg.
  destruct (lock_count l w ts Hinv) as (c & Hc & _ & H). pose proof (inv_waiters _ Hinv) as Hw. cbn [waiters threads] in Hw.
  assert (H0 : 0 < total readers ts + total writers ts) by (unfold shape, COUNT in *; lia).
  pose proof (total_nonneg active ts (fun p => proj1 (rw_active_range p))).
  apply (inv_change l w ts i (Futex k l) l w (Sleep k)); cbn [readers writers waits active local_ok]; try done; try lia.
  exists c. split; [done|lia].
Qed.

(** A thread that has woken others goes away. *)
Lemma wake_inv l w ts i cnt : Inv (Sys l w ts) -> ts !! i = Some (Wake cnt) -> (sleeping ts -> exists j q, j <> i /\ ts !! j = Some q /\ active q = 1) ->
  Inv (Sys l w (<[i := Idle]> ts)).
Proof.
  intros Hinv Hi Hj. pose proof Hinv as [H1 H2 H3 H4 H5]. cbn [lock waiters threads] in *.
  apply (inv_change l w ts i (Wake cnt)); cbn [readers writers waits active local_ok]; try done; try lia.
  - destruct H1 as (c & Hc & H1). exists c. split; [done|lia].
  - intros Hs%sleeping_insert; [|done]. destruct (Hj Hs) as (j & q & Hne & Hq & Ha).
    pose proof (total_lookup active (<[i := Idle]> ts) j q (fun p => proj1 (rw_active_range p)) ltac:(by rewrite list_lookup_insert_ne)) as Ht.
    rewrite (total_insert _ _ _ _ _ Hi) in Ht. cbn [active] in Ht. destruct (counted ts i _ Hi) as (_ & _ & ? & ?). lia.
  - intros j k v x Hx Hs%sleeping_insert; [|done]. apply list_lookup_insert_Some in Hx as [(_ & E & _)|(_ & Hx)]; [done|by eapply H5].
Qed.

Lemma move_inv s s' : move s s' -> Z.of_nat (length (threads s)) < 2 ^ 31 -> Inv s -> Inv s'.
Proof.
  intros Hm Hn Hinv. destruct Hm as [l w ts i p l' w' p' Hi He|l w ts i k Hi|l w ts i k t Hi Ht|l w ts i cnt Hi Hc|l w ts i j k Hi Hj|l w ts i Hi Hno].
  - by apply (rw_next_inv l w ts i p).
  - by apply sleep_inv.
  - apply (rw_inv_go l w ts i (Futex k t)); try done; [cbn; lia|by left].
  - rewrite list_fmap_insert. cbn [rouse]. apply (wake_inv l w _ i cnt); [by apply rouse_inv|by rewrite list_lookup_fmap, Hi|].
    intros Hs. by apply rouse_quiet in Hs.
  - assert (Hne : i <> j) by (intros ->; congruence). rewrite list_insert_insert_ne by done.
    apply (wake_inv l w _ i 1); [|by rewrite list_lookup_insert_ne|].
    + apply (rw_inv_go l w ts j (Sleep k)); try done; [cbn; lia|by left].
    + intros _. exists j, (Dec k true). split_and!; [done| |done]. apply list_lookup_insert_eq. by apply lookup_lt_Some in Hj.
  - apply (wake_inv l w ts i 1); [done|done|]. intros (j & k & Hj). by pose proof (Forall_lookup_1 _ _ _ _ Hno Hj).
Qed.

Lemma move_length s s' : move s s' -> length (threads s') = length (threads s).
Proof. intros [| | | | |]; cbn [threads]; by rewrite ?length_fmap, ?length_insert. Qed.

Lemma rw_step_inv s s' : step s s' -> Z.of_nat (length (threads s)) < 2 ^ 31 -> Inv s -> Inv s' /\ length (threads s') = length (threads s).
Proof.
  intros Hs Hn Hinv. destruct Hs as [s s' Hm|l w ts i k c Hi Hc|l w ts i k Hi|l w ts i k Hi|l w ts i k p Hi Hp]; cbn [threads] in *; rewrite ?length_insert.
  - split; [by apply (move_inv s)|by apply move_length].
  - split; [|done]. apply (rw_inv_go l w ts i Idle); try done; [cbn; lia|by left; destruct c].
  - split; [|done]. apply (rw_inv_go l w ts i (Hold k)); try done; [cbn; lia|by left].
  - split; [|done]. apply (rw_inv_go l w ts i (Sleep k)); try done; [cbn; lia|by left].
  - split; [|done]. destruct Hp as [->|[t ->]]; (eapply rw_inv_go; [done|exact Hi|..]; try done; [cbn; lia|by left]).
Qed.

Lemma rw_reachable_inv n s : Z.of_nat n < 2 ^ 31 -> rtc step (start n) s -> Inv s /\ length (threads s) = n.
Proof.
  intros Hn. revert s. apply (rtc_ind_r _ (start n)); [split; [apply rw_inv_start|apply length_replicate]|].
  intros s s' _ Hs [Hi Hl]. destruct (rw_step_inv s s' Hs) as [Hi' Hl']; [by rewrite Hl|done|split; [done|congruence]].
Qed.

(** ** Schedules *)

(** A choice: which thread goes on, and how. *)
Inductive act := Call (i : nat) (k : kind) | Release (i : nat) | Go (i : nat) | FallAsleep (i : nat).

Definition put (i : nat) (p : pc) (s : sys) : sys := Sys (lock s) (waiters s) (<[i := p]> (threads s)).

Definition perform (s : sys) (a : act) : option sys :=
  match a with
  | Call i k => match threads s !! i with Some Idle => Some (put i (Try k Fast) s) | _ => None end
  | Release i => match threads s !! i with Some (Hold k) => Some (put i (Unlock k) s) | _ => None end
  | Go i => match threads s !! i with
            | Some p => match next (lock s) (waiters s) p with Some (l, w, p') => Some (Sys l w (<[i := p']> (threads s))) | None => None end
            | None => None end
  | FallAsleep i => match threads s !! i with Some (Futex k t) => if lock s =? t then Some (put i (Sleep k) s) else None | _ => None end
  end.

Fixpoint schedule (l : list act) (s : sys) : option sys :=
  match l with [] => Some s | a :: l => match perform s a with Some s => schedule l s | None => None end end.

Lemma rw_perform_sound s a s' : perform s a = Some s' -> step s s'.
Proof.
  destruct s as [l w ts]. destruct a as [i k|i|i|i]; cbn [perform threads lock waiters]; destruct (ts !! i) as [p|] eqn:Hi; try done.
  - destruct p; try done. intros [= <-]. by apply step_call.
  - destruct p; try done. intros [= <-]. by apply step_unlock.
  - destruct (next l w p) as [[[l' w'] p']|] eqn:He; [|done]. intros [= <-]. by apply step_move, (move_next l w ts i p).
  - destruct p; try done. destruct (Z.eqb_spec l t) as [<-|]; [|done]. intros [= <-]. by apply step_move, move_sleep.
Qed.

Lemma rw_schedule_sound acts : forall s s', schedule acts s = Some s' -> rtc step s s'.
Proof.
  induction acts as [|a acts IH]; intros s s'; cbn [schedule]; [by intros [= <-]|]. destruct (perform s a) as [s1|] eqn:E; [|done].
  intros H. eapply rtc_l; [by apply (rw_perform_sound s a)|by apply IH].
Qed.

(** ** What read-write locks promise *)

(** The threads that have the lock *)
Definition holds (k : kind) (p : pc) : bool :=
  match p with Hold k' | Unlock k' | UnlockW k' _ | UnlockCas k' _ _ => bool_decide (k' = k) | _ => false end.

Definition holders (k : kind) (ts : list pc) : nat := length (filter (fun p => holds k p = true) ts).

Lemma total_holders f ts k : (forall p, f p = if holds k p then 1 else 0) -> total f ts = Z.of_nat (holders k ts).
Proof.
  intros Hf. unfold holders. induction ts as [|p ts IH]; cbn [total]; [done|]. rewrite filter_cons, Hf, IH. case_decide as Hp; [rewrite Hp|destruct (holds k p); [done|]]; cbn [length]; lia.
Qed.

Lemma total_readers ts : total readers ts = Z.of_nat (holders Rd ts).
Proof. apply total_holders. intros [| | | | | | | | | | |[]|[]|[]|[]|]; done. Qed.

Lemma total_writers ts : total writers ts = Z.of_nat (holders Wr ts).
Proof. apply total_holders. intros [| | | | | | | | | | |[]|[]|[]|[]|]; done. Qed.

(** C11: Read-write locks exclude: in every state that [n] threads can reach with the
    functions of read-write locks, signals and time-outs, either no thread has the lock for
    writing and the low bits of the word are the number of readers, which stays below
    the value for writers, or exactly one has it for writing and none for reading, and
    the low bits are all ones. *)
Theorem rwlock_exclusion n s : Z.of_nat n < 2 ^ 31 -> rtc step (start n) s ->
  (holders Wr (threads s) = 0%nat /\ count (lock s) = Z.of_nat (holders Rd (threads s)) /\ count (lock s) < COUNT) \/
  (holders Wr (threads s) = 1%nat /\ holders Rd (threads s) = 0%nat /\ count (lock s) = COUNT).
Proof.
  intros Hn Hr. destruct (rw_reachable_inv n s Hn Hr) as [[(c & Hc & H) _ _ _ _] _]. rewrite (count_shape _ c Hc). rewrite !total_readers, !total_writers in H. lia.
Qed.

(** C12: No wake-up of a read-write lock is lost: in every state that [n] threads can
    reach, if a thread sleeps in the system call, some thread has the lock or one is
    on its way to take it or to wake sleepers.  So when all threads are outside or asleep and none has the lock,
    none sleeps. *)
Theorem rwlock_no_lost_wakeup n s : Z.of_nat n < 2 ^ 31 -> rtc step (start n) s -> sleeping (threads s) ->
  exists i p, threads s !! i = Some p /\ (holds Rd p || holds Wr p || (active p =? 1)) = true.
Proof.
  intros Hn Hr Hs. destruct (rw_reachable_inv n s Hn Hr) as [[_ _ _ Hw _] _]. specialize (Hw Hs).
  assert (H : 0 < total readers (threads s) \/ 0 < total writers (threads s) \/ 0 < total active (threads s)) by lia.
  destruct H as [H|[H|H]]; apply total_pos in H as (i & p & Hi & Hp); exists i, p; (split; [done|]).
  - destruct p as [| | | | | | | | | | |[]|[]|[]|[]|]; done.
  - destruct p as [| | | | | | | | | | |[]|[]|[]|[]|]; done.
  - pose proof (rw_active_range p). replace (active p) with 1 by lia. by rewrite orb_true_r.
Qed.

(** A writer has the lock, gives it back while a reader spins, and takes it again. *)
Definition contended : list act :=
  [Call 0 Wr; Go 0; Call 1 Rd; Go 1; Release 0; Go 0; Go 0; Go 0; Go 1; Call 0 Wr; Go 0; Go 1; Go 1; Go 1; Go 1; FallAsleep 1].

Lemma rwlock_exclusion_witness : exists s, rtc step (start 2) s /\ threads s = [Hold Wr; Sleep Rd] /\
  ((holders Wr (threads s) = 0%nat /\ count (lock s) = Z.of_nat (holders Rd (threads s)) /\ count (lock s) < COUNT) \/
   (holders Wr (threads s) = 1%nat /\ holders Rd (threads s) = 0%nat /\ count (lock s) = COUNT)).
Proof.
  assert (Hr : rtc step (start 2) (Sys (-1) 1 [Hold Wr; Sleep Rd])) by (apply (rw_schedule_sound contended); vm_compute; reflexivity).
  exists (Sys (-1) 1 [Hold Wr; Sleep Rd]). split; [exact Hr|]. split; [reflexivity|]. apply (rwlock_exclusion 2); [vm_compute; reflexivity|exact Hr].
Defined.

Lemma rwlock_no_lost_wakeup_witness : exists s, rtc step (start 2) s /\ sleeping (threads s) /\
  exists i p, threads s !! i = Some p /\ (holds Rd p || holds Wr p || (active p =? 1)) = true.
Proof.
  assert (Hr : rtc step (start 2) (Sys (-1) 1 [Hold Wr; Sleep Rd])) by (apply (rw_schedule_sound contended); vm_compute; reflexivity).
  assert (Hs : sleeping (threads (Sys (-1) 1 [Hold Wr; Sleep Rd]))) by (exists 1%nat, Rd; reflexivity).
  exists (Sys (-1) 1 [Hold Wr; Sleep Rd]). split; [exact Hr|]. split; [exact Hs|]. apply (rwlock_no_lost_wakeup 2); [vm_compute; reflexivity|exact Hr|exact Hs].
Defined.
