(* ===== verification/Smooth.v ===== *)
(** The mathematics of smoothsort: heaps of Leonardo sizes in an array, the
    paths along which an element sinks, and why they restore the order.  The
    code that walks these paths is in Qsort.v.

    An array is a function from indices to elements.  A tree of order [k] with
    its root at [r] occupies [leo k] places, the last of them [r]; its right
    child, of order [k - 2], has its root at [r - 1], its left child, of order
    [k - 1], lies before it.  A forest is the list of the orders of adjacent
    trees, from right to left. *)
From S2P Require Import Prelude.

(** Leonardo numbers. *)
Fixpoint leo (k : nat) : Z :=
  match k with S (S k' as k1) => leo k1 + leo k' + 1 | _ => 1 end.

Lemma leo_SS k : leo (S (S k)) = leo (S k) + leo k + 1.
Proof. done. Qed.

Lemma leo_pos k : 1 <= leo k /\ 1 <= leo (S k).
Proof. induction k as [|k [IH1 IH2]]; [cbn; lia|]. rewrite leo_SS. lia. Qed.

Lemma leo_le j k : (j <= k)%nat -> leo j <= leo k.
Proof.
  induction 1 as [|k _ IH]; [lia|]. etransitivity; [exact IH|].
  destruct k as [|k]; [done|]. rewrite leo_SS. pose proof (leo_pos k). lia.
Qed.

Lemma leo_lt j k : (j < k)%nat -> (1 < k)%nat -> leo j < leo k.
Proof.
  intros Hj Hk. destruct k as [|[|k]]; [lia..|]. rewrite leo_SS.
  pose proof (leo_le j (S k) ltac:(lia)). pose proof (leo_pos k). lia.
Qed.

Lemma leo_iter n : Nat.iter n (fun '(a, b) => (b, b + a + 1)) (1, 1) = (leo n, leo (S n)).
Proof. induction n as [|n IH]; [done|]. by rewrite Nat.iter_succ, IH. Qed.

Lemma leo_fst n : leo n = (Nat.iter n (fun '(a, b) => (b, b + a + 1)) (1, 1)).1.
Proof. by rewrite leo_iter. Qed.

Lemma leo_65 : leo 65 = 55555780070575.
Proof. rewrite leo_fst. by vm_compute. Qed.

(** ** Arrays *)
Definition upd {A} (v : Z -> A) (i : Z) (x : A) : Z -> A := fun j => if decide (j = i) then x else v j.

Lemma upd_eq {A} (v : Z -> A) i x : upd v i x i = x.
Proof. unfold upd. by rewrite decide_True. Qed.

Lemma upd_ne {A} (v : Z -> A) i x j : j <> i -> upd v i x j = v j.
Proof. intros. unfold upd. by rewrite decide_False. Qed.

(** Every place of [cs] gets what [f] makes of its content and of the content
    of the next place; the last one takes [x]. *)
Fixpoint pull {A} (f : A -> A -> A) (cs : list Z) (x : A) (v : Z -> A) : Z -> A :=
  match cs with
  | [] => v
  | c :: t => pull f t x (upd v c (f (v c) (match t with [] => x | d :: _ => v d end)))
  end.

Lemma pull_cons2 {A} (f : A -> A -> A) c d t x v :
  pull f (c :: d :: t) x v = pull f (d :: t) x (upd v c (f (v c) (v d))).
Proof. done. Qed.

Lemma pull_out {A} (f : A -> A -> A) cs x v i : i ∉ cs -> pull f cs x v i = v i.
Proof.
  revert v. induction cs as [|c t IH]; intros v Hi; [done|]. cbn [pull].
  apply not_elem_of_cons in Hi as [Hc Ht]. rewrite IH by done. by apply upd_ne.
Qed.

Lemma pull_at {A} (f : A -> A -> A) cs x v j c :
  NoDup cs -> cs !! j = Some c ->
  pull f cs x v c = f (v c) (match cs !! S j with Some d => v d | None => x end).
Proof.
  revert v j. induction cs as [|c' t IH]; intros v j Hnd Hj; [done|].
  apply list.NoDup_cons in Hnd as [Hc' Hnd]. cbn [pull]. destruct j as [|j]; cbn in Hj.
  - injection Hj as ->. rewrite pull_out, upd_eq by done. by destruct t.
  - rewrite (IH _ j Hnd Hj). cbn. assert (c <> c') by (intros ->; by apply Hc', list_elem_of_lookup_2 with j).
    rewrite upd_ne by done. destruct (t !! S j) as [d|] eqn:Hd; [|done]. f_equal. apply upd_ne.
    intros ->. by apply Hc', list_elem_of_lookup_2 with (S j).
Qed.

Abbreviation place := (pull (fun _ y => y)).

Lemma pull_ext {A} (f : A -> A -> A) cs x v w i : (forall j, v j = w j) -> pull f cs x v i = pull f cs x w i.
Proof.
  revert v w. induction cs as [|c t IH]; intros v w H; [apply H|]. cbn [pull]. apply IH.
  intros j. unfold upd. case_decide; [|done]. rewrite H. destruct t; [done|by rewrite H].
Qed.

(** Moving elements along a path permutes the array. *)
Definition elems {A} (v : Z -> A) (n : Z) : list A := v <$> seqZ 0 n.

Definition transp (i j k : Z) : Z := if decide (k = i) then j else if decide (k = j) then i else k.

Lemma elems_ext {A} (v w : Z -> A) n : (forall i, 0 <= i < n -> v i = w i) -> elems v n = elems w n.
Proof.
  intros H. unfold elems. apply list_fmap_ext. intros k i Hk.
  apply H. apply list_elem_of_lookup_2, elem_of_seqZ in Hk. lia.
Qed.

Lemma elems_transp {A} (v : Z -> A) n i j : 0 <= i < n -> 0 <= j < n ->
  elems (fun k => v (transp i j k)) n ≡ₚ elems v n.
Proof.
  intros Hi Hj. unfold elems. rewrite (list_fmap_compose (transp i j) v). apply fmap_Permutation.
  assert (Hinv : forall k, transp i j (transp i j k) = k).
  { intros k. unfold transp. repeat case_decide; congruence. }
  assert (Hrng : forall k, 0 <= k < n -> 0 <= transp i j k < n).
  { intros k. unfold transp. repeat case_decide; lia. }
  apply NoDup_Permutation.
  - apply NoDup_fmap_2; [|apply NoDup_seqZ]. intros a b Hab. by rewrite <- (Hinv a), Hab.
  - apply NoDup_seqZ.
  - intros k. rewrite list_elem_of_fmap, elem_of_seqZ. split.
    + intros (y & -> & Hy%elem_of_seqZ). specialize (Hrng y). lia.
    + intros Hk. exists (transp i j k). split; [done|]. apply elem_of_seqZ. specialize (Hrng k). lia.
Qed.

Lemma place_perm {A} cs c x (v : Z -> A) n :
  NoDup (c :: cs) -> Forall (fun i => 0 <= i < n) (c :: cs) -> v c = x ->
  elems (place (c :: cs) x v) n ≡ₚ elems v n.
Proof.
  revert c v. induction cs as [|d t IH]; intros c v Hnd Hrng Hx.
  - cbn [pull]. erewrite elems_ext; [done|]. intros i _. unfold upd. case_decide; congruence.
  - set (v1 := fun k => v (transp c d k)).
    assert (Hcd : c <> d) by (intros ->; apply list.NoDup_cons in Hnd as [Hnd _]; set_solver).
    transitivity (elems v1 n); [|apply elems_transp; inversion Hrng as [|? ? ? Hr]; subst; [done|by inversion Hr]].
    rewrite <- (IH d v1).
    + erewrite elems_ext; [done|]. intros i _. cbn [pull]. 
      destruct (decide (i ∈ t)) as [Hi|Hi].
      * apply list_elem_of_lookup in Hi as [j Hj]. apply list.NoDup_cons in Hnd as [Hc Hnd]. apply list.NoDup_cons in Hnd as [Hd Hnd].
        rewrite !(pull_at _ _ _ _ j) by done.
        destruct (t !! S j) as [e|] eqn:He; [|done]. apply list_elem_of_lookup_2 in He.
        assert (e <> c /\ e <> d) as [? ?] by set_solver. rewrite !upd_ne by done. unfold v1, transp.
        by rewrite !decide_False.
      * rewrite !pull_out by done. unfold upd, v1, transp.
        assert (Hv : forall y, match t with [] => x | _ :: _ => y end = y \/ t = []) by (destruct t; auto).
        apply list.NoDup_cons in Hnd as [Hc Hnd].
        destruct t as [|e t']; [|assert (e <> c /\ e <> d) as [? ?] by (apply list.NoDup_cons in Hnd; set_solver)];
          repeat case_decide; congruence.
    + by apply list.NoDup_cons in Hnd as [_ Hnd].
    + by inversion Hrng.
    + unfold v1, transp. rewrite decide_False, decide_True by done. done.
Qed.

(** ** The order *)
Section smooth.
Context {A : Type} (cmp : A -> A -> Z).
Implicit Types (v w : Z -> A) (x y : A) (r i : Z) (k : nat).

(** What [qsort] asks of the comparison function: it is a total preorder. *)
Class Consistent : Prop := {
  cmp_flip x y : 0 <= cmp x y <-> cmp y x <= 0;
  cmp_trans x y z : cmp x y <= 0 -> cmp y z <= 0 -> cmp x z <= 0 }.

(** The places an element [x] at the root [r] of a tree of order [k] sinks to. *)
Fixpoint sift_path k r x v : list Z :=
  match k with
  | S (S k' as k1) =>
      let rt := r - 1 in
      let lf := r - 1 - leo k' in
      if (0 <=? cmp x (v lf)) && (0 <=? cmp x (v rt)) then []
      else if 0 <=? cmp (v lf) (v rt) then lf :: sift_path k1 lf x v
      else rt :: sift_path k' rt x v
  | _ => []
  end.

Lemma sift_path_SS k r x v : sift_path (S (S k)) r x v =
  if (0 <=? cmp x (v (r - 1 - leo k))) && (0 <=? cmp x (v (r - 1))) then []
  else if 0 <=? cmp (v (r - 1 - leo k)) (v (r - 1)) then (r - 1 - leo k) :: sift_path (S k) (r - 1 - leo k) x v
  else (r - 1) :: sift_path k (r - 1) x v.
Proof. done. Qed.

(** A tree whose elements are not above their parent; one where this holds
    below the root. *)
Fixpoint heap k r v : Prop :=
  match k with
  | S (S k' as k1) =>
      cmp (v (r - 1)) (v r) <= 0 /\ cmp (v (r - 1 - leo k')) (v r) <= 0 /\
      heap k' (r - 1) v /\ heap k1 (r - 1 - leo k') v
  | _ => True
  end.

Definition heap_below k r v : Prop :=
  match k with S (S k' as k1) => heap k' (r - 1) v /\ heap k1 (r - 1 - leo k') v | _ => True end.

Definition above_children k r v x : Prop :=
  match k with S (S k' as k1) => cmp (v (r - 1)) x <= 0 /\ cmp (v (r - 1 - leo k')) x <= 0 | _ => True end.

Lemma heap_SS k r v : heap (S (S k)) r v <->
  cmp (v (r - 1)) (v r) <= 0 /\ cmp (v (r - 1 - leo k)) (v r) <= 0 /\
  heap k (r - 1) v /\ heap (S k) (r - 1 - leo k) v.
Proof. done. Qed.

Lemma heap_split k r v : heap k r v <-> above_children k r v (v r) /\ heap_below k r v.
Proof. destruct k as [|[|k]]; cbn; tauto. Qed.

Lemma heap_heap_below k r v : heap k r v -> heap_below k r v.
Proof. intros H. by apply heap_split in H as [_ H]. Qed.

(** Induction on the order, two steps at a time. *)
Lemma order_ind (P : nat -> Prop) : P 0%nat -> P 1%nat -> (forall k, P k -> P (S k) -> P (S (S k))) -> forall k, P k.
Proof. intros H0 H1 HS k. enough (P k /\ P (S k)) by tauto. induction k; [done|]. naive_solver. Qed.

Lemma heap_ext k r v w : (forall i, r - leo k < i <= r -> v i = w i) -> heap k r v -> heap k r w.
Proof.
  revert r. induction k as [| |k IH0 IH1] using order_ind; intros r Hvw; [done..|].
  pose proof (leo_pos k) as [L0 L1]. rewrite leo_SS in Hvw.
  rewrite !heap_SS. intros (H1 & H2 & H3 & H4). rewrite <- (Hvw r), <- (Hvw (r - 1)), <- (Hvw (r - 1 - leo k)) by lia.
  split_and!; [done|done|apply (IH0 (r - 1)); [|done]|apply (IH1 (r - 1 - leo k)); [|done]]; intros; apply Hvw; lia.
Qed.

(** The three outcomes of the tests of a sinking step. *)
Ltac sift_cases := destruct (_ && _); [|destruct (0 <=? cmp (_ (_ - _)) (_ (_ - _)))].

Lemma sift_path_ext k r x v w : (forall i, r - leo k < i < r -> v i = w i) -> sift_path k r x v = sift_path k r x w.
Proof.
  revert r. induction k as [| |k IH0 IH1] using order_ind; intros r Hvw; [done..|].
  pose proof (leo_pos k) as [L0 L1]. rewrite leo_SS in Hvw. rewrite !sift_path_SS.
  rewrite <- !Hvw by lia. sift_cases; [done| |]; f_equal; [apply IH1|apply IH0]; intros; apply Hvw; lia.
Qed.

Lemma sift_path_range k r x v : Forall (fun i => r - leo k < i < r) (sift_path k r x v).
Proof.
  revert r. induction k as [| |k IH0 IH1] using order_ind; intros r; [constructor..|].
  pose proof (leo_pos k) as [L0 L1]. rewrite leo_SS. rewrite !sift_path_SS. sift_cases; [done| |];
    (constructor; [lia|]); [specialize (IH1 (r - 1 - leo k))|specialize (IH0 (r - 1))];
    [revert IH1|revert IH0]; apply Forall_impl; intros; lia.
Qed.

Lemma sift_path_NoDup k r x v : NoDup (r :: sift_path k r x v).
Proof.
  revert r. induction k as [| |k IH0 IH1] using order_ind; intros r; [apply NoDup_singleton..|].
  pose proof (leo_pos k) as [L0 L1].
  assert (Hr : r ∉ sift_path (S (S k)) r x v).
  { intros Hin. pose proof (sift_path_range (S (S k)) r x v) as H. rewrite list.Forall_forall in H.
    specialize (H r Hin). lia. }
  apply NoDup_cons_2; [done|]. rewrite !sift_path_SS. sift_cases; [constructor|apply IH1|apply IH0].
Qed.

Lemma sift_path_length k r x v : (length (sift_path k r x v) <= k)%nat.
Proof.
  revert r. induction k as [| |k IH0 IH1] using order_ind; intros r; [cbn; lia..|].
  rewrite !sift_path_SS. sift_cases; cbn [length]; [lia|specialize (IH1 (r - 1 - leo k)); lia|specialize (IH0 (r - 1)); lia].
Qed.

(** The element at the root sinks. *)
Definition sifted k r x v : Z -> A := place (r :: sift_path k r x v) x v.

Lemma sifted_out k r x v i : ~ (r - leo k < i <= r) -> sifted k r x v i = v i.
Proof.
  intros Hi. apply pull_out. pose proof (leo_pos k) as [L0 L1].
  intros [->|Hin]%elem_of_cons; [lia|]. pose proof (sift_path_range k r x v) as H.
  rewrite list.Forall_forall in H. specialize (H i Hin). lia.
Qed.

Section consistent.
Context {HC : Consistent}.

Lemma cmp_le_refl x : cmp x x <= 0.
Proof. destruct (Z.le_ge_cases (cmp x x) 0); [done|]. by apply cmp_flip. Qed.

Lemma cmp_test x y : (0 <=? cmp x y) = true -> cmp y x <= 0.
Proof. intros H. apply cmp_flip. lia. Qed.

Lemma cmp_test_false x y : (0 <=? cmp x y) = false -> cmp x y <= 0.
Proof. lia. Qed.

(** The root is a maximum. *)
Lemma heap_max k r v i : heap k r v -> r - leo k < i <= r -> cmp (v i) (v r) <= 0.
Proof.
  revert r. induction k as [| |k IH0 IH1] using order_ind; intros r Hh Hi.
  1, 2: cbn in Hi; replace i with r by lia; apply cmp_le_refl.
  pose proof (leo_pos k) as [L0 L1]. rewrite leo_SS in Hi. destruct Hh as (H1 & H2 & H3 & H4).
  destruct (decide (i = r)) as [->|]; [apply cmp_le_refl|]. destruct (Z.lt_ge_cases (r - 1 - leo k) i).
  - eapply cmp_trans; [|exact H1]. apply IH0; [done|lia].
  - eapply cmp_trans; [|exact H2]. apply IH1; [done|lia].
Qed.

(** Sinking makes a heap; its root is [x] or one of the children. *)
Lemma sifted_heap k r x v : heap_below k r v ->
  heap k r (sifted k r x v) /\
  cmp x (sifted k r x v r) <= 0 /\ above_children k r v (sifted k r x v r) /\
  (forall b, cmp x b <= 0 -> above_children k r v b -> cmp (sifted k r x v r) b <= 0).
Proof.
  revert r v. induction k as [| |k IH0 IH1] using order_ind; intros r v Hb.
  1, 2: unfold sifted; cbn; rewrite upd_eq; split_and!; auto using cmp_le_refl.
  pose proof (leo_pos k) as [L0 L1]. destruct Hb as [Hr Hl]. unfold sifted. rewrite !sift_path_SS.
  destruct (_ && _) eqn:Ht; [|destruct (0 <=? cmp (v (r - 1 - leo k)) (v (r - 1))) eqn:Hlr].
  - apply andb_true_iff in Ht as [H1%cmp_test H2%cmp_test]. cbn [pull].
    rewrite heap_SS. cbn [above_children]. rewrite upd_eq, !upd_ne by lia.
    split; [refine (conj H2 (conj H1 (conj _ _)))|split_and!; auto using cmp_le_refl].
    + apply (heap_ext k (r - 1) v); [|done]. intros; symmetry; apply upd_ne; lia.
    + apply (heap_ext (S k) (r - 1 - leo k) v); [|done]. intros; symmetry; apply upd_ne; lia.
  - set (lf := r - 1 - leo k) in *. set (w := upd v r (v lf)). rewrite pull_cons2. fold w.
    assert (Hbel : heap_below (S k) lf w).
    { apply (heap_heap_below (S k) lf w), (heap_ext (S k) lf v w); [|exact Hl]. intros. symmetry. apply upd_ne. lia. }
    rewrite (sift_path_ext (S k) lf x v w) by (intros; symmetry; apply upd_ne; lia).
    change (pull _ (lf :: sift_path (S k) lf x w) x w) with (sifted (S k) lf x w).
    destruct (IH1 lf w Hbel) as (I1 & I2 & I3 & I4). set (u := sifted (S k) lf x w) in *.
    assert (Hout : forall i, lf < i -> u i = w i) by (intros; apply sifted_out; lia).
    assert (Hur : u r = v lf) by (rewrite Hout by lia; apply upd_eq).
    assert (Hurt : u (r - 1) = v (r - 1)) by (rewrite Hout by lia; apply upd_ne; lia).
    assert (Hxl : cmp x (v lf) <= 0).
    { apply andb_false_iff in Ht as [H|H]; apply cmp_test_false in H; [done|]. eapply cmp_trans; [exact H|]. by apply cmp_test. }
    rewrite heap_SS. cbn [above_children]. fold lf. rewrite Hur, Hurt.
    split; [refine (conj _ (conj _ (conj _ I1)))|split; [done|split; [split|]]].
    + by apply cmp_test.
    + apply I4; [done|]. apply heap_split in Hl as [Hl _]. destruct k as [|k']; [done|]. cbn [above_children] in *.
      unfold w. rewrite !upd_ne by (pose proof (leo_pos k'); lia). done.
    + apply (heap_ext k (r - 1) v); [|exact Hr]. intros. rewrite Hout by lia. symmetry. apply upd_ne. lia.
    + by apply cmp_test.
    + apply cmp_le_refl.
    + intros b _ [_ Hb]. done.
  - set (rt := r - 1) in *. set (w := upd v r (v rt)). rewrite pull_cons2. fold w.
    assert (Hbel : heap_below k rt w).
    { apply (heap_heap_below k rt w), (heap_ext k rt v w); [|exact Hr]. intros. symmetry. apply upd_ne. lia. }
    rewrite (sift_path_ext k rt x v w) by (intros; symmetry; apply upd_ne; lia).
    change (pull _ (rt :: sift_path k rt x w) x w) with (sifted k rt x w).
    destruct (IH0 rt w Hbel) as (I1 & I2 & I3 & I4). set (u := sifted k rt x w) in *.
    assert (Hout : forall i, ~ (rt - leo k < i <= rt) -> u i = w i) by (intros; apply sifted_out; lia).
    assert (Hur : u r = v rt) by (rewrite Hout by lia; apply upd_eq).
    assert (Hulf : u (rt - leo k) = v (rt - leo k)) by (rewrite Hout by lia; apply upd_ne; lia).
    apply cmp_test_false in Hlr.
    assert (Hxr : cmp x (v rt) <= 0).
    { apply andb_false_iff in Ht as [H|H]; apply cmp_test_false in H; [|done]. exact (cmp_trans _ _ _ H Hlr). }
    rewrite heap_SS. cbn [above_children]. fold rt. rewrite Hur, Hulf.
    split; [refine (conj _ (conj Hlr (conj I1 _)))|split; [done|split; [split|]]].
    + apply I4; [done|]. apply heap_split in Hr as [Hr _]. destruct k as [|[|k']]; [done..|]. cbn [above_children] in *.
      unfold w. rewrite !upd_ne by (pose proof (leo_pos k'); lia). done.
    + apply (heap_ext (S k) (rt - leo k) v); [|exact Hl]. intros. rewrite Hout by lia. symmetry. apply upd_ne. lia.
    + apply cmp_le_refl.
    + exact Hlr.
    + intros b _ [Hb _]. done.
Qed.
End consistent.

(** ** Forests *)

(** The number of places of adjacent trees. *)
Fixpoint size (os : list nat) : Z := match os with [] => 0 | o :: os => leo o + size os end.

(** Heaps whose roots are in order; the rightmost tree has its root at [r]. *)
Fixpoint forest (os : list nat) r v : Prop :=
  match os with
  | [] => True
  | o :: os' => heap o r v /\ forest os' (r - leo o) v /\ (os' <> [] -> cmp (v (r - leo o)) (v r) <= 0)
  end.

(** The places an element [x] at the root [r] of the rightmost tree moves to,
    from root to root, and the tree where it stays; whether it has not moved
    and the tree was known to be a heap. *)
Fixpoint trinkle_path (trusty : bool) k r (os : list nat) x v : list Z * Z * nat * bool :=
  match os with
  | [] => ([], r, k, trusty)
  | o :: os' =>
      let stepson := r - leo k in
      if cmp (v stepson) x <=? 0 then ([], r, k, trusty)
      else if negb trusty && (1 <? k)%nat &&
              ((0 <=? cmp (v (r - 1)) (v stepson)) || (0 <=? cmp (v (r - 1 - leo (k - 2))) (v stepson)))
      then ([], r, k, trusty)
      else let '(p, r', k', t) := trinkle_path false o stepson os' x v in (stepson :: p, r', k', t)
  end.

(** [x] moves along the roots, then sinks. *)
Definition settled r x v (p : list Z) (r' : Z) (k' : nat) : Z -> A := sifted k' r' x (place (r :: p) x v).

Definition trinkled (trusty : bool) k r os v : Z -> A :=
  let '(p, r', k', t) := trinkle_path trusty k r os (v r) v in
  if t then v else settled r (v r) v p r' k'.

Lemma size_nonneg os : 0 <= size os.
Proof. induction os as [|o os IH]; cbn; [lia|]. pose proof (leo_pos o). lia. Qed.

Lemma forest_ext os r v w : (forall i, r - size os < i <= r -> v i = w i) -> forest os r v -> forest os r w.
Proof.
  revert r. induction os as [|o os IH]; intros r Hvw; [done|]. cbn [forest size] in *.
  pose proof (leo_pos o) as [L0 _]. pose proof (size_nonneg os). intros (H1 & H2 & H3). split_and!.
  - apply (heap_ext o r v); [|done]. intros. apply Hvw. lia.
  - apply (IH (r - leo o)); [|done]. intros. apply Hvw. lia.
  - intros Hne. destruct os as [|o' os]; [done|]. cbn [size] in *. pose proof (leo_pos o') as [? _].
    pose proof (size_nonneg os). rewrite <- !Hvw by lia. by apply H3.
Qed.

Lemma trinkle_path_ext t k r os x v w : (forall i, r - size (k :: os) < i < r -> v i = w i) ->
  trinkle_path t k r os x v = trinkle_path t k r os x w.
Proof.
  revert t k r. induction os as [|o os IH]; intros t k r Hvw; [done|]. cbn [trinkle_path size] in *.
  pose proof (leo_pos k) as [L0 _]. pose proof (leo_pos o) as [L1 _]. pose proof (size_nonneg os).
  rewrite (IH false o (r - leo k)) by (intros; apply Hvw; lia).
  rewrite <- (Hvw (r - leo k)) by lia.
  destruct (1 <? k)%nat eqn:Hk; [|by rewrite !andb_false_r].
  destruct k as [|[|k]]; [done..|]. cbn [Nat.sub]. rewrite Nat.sub_0_r. rewrite leo_SS in *.
  pose proof (leo_pos k) as [L2 L3]. by rewrite <- (Hvw (r - 1)), <- (Hvw (r - 1 - leo k)) by lia.
Qed.

(** The path: decreasing places below [r], the last of them the final root,
    whose tree is one of the forest. *)
Lemma trinkle_path_spec t k r os x v p r' k' t' :
  trinkle_path t k r os x v = (p, r', k', t') ->
  NoDup (r :: p) /\ Forall (fun i => r - size (k :: os) < i < r) p /\ (length p <= length os)%nat /\
  (exists q, r :: p = q ++ [r']) /\ k' ∈ k :: os /\ r - size (k :: os) <= r' - leo k' /\ r' <= r /\
  (t' = true -> t = true /\ p = []).
Proof.
  revert t k r p. induction os as [|o os IH]; intros t k r p; cbn [trinkle_path].
  { intros [= <- <- <- <-]. cbn. split_and!; auto using NoDup_singleton; try lia; try constructor. by exists []. }
  pose proof (leo_pos k) as [L0 _]. pose proof (size_nonneg os). pose proof (leo_pos o) as [L1 _].
  assert (Hstop : ([], r, k, t) = (p, r', k', t') ->
    NoDup (r :: p) /\ Forall (fun i => r - size (k :: o :: os) < i < r) p /\ (length p <= S (length os))%nat /\
    (exists q, r :: p = q ++ [r']) /\ k' ∈ k :: o :: os /\ r - size (k :: o :: os) <= r' - leo k' /\ r' <= r /\
    (t' = true -> t = true /\ p = [])).
  { intros [= <- <- <- <-]. cbn [size length]. split_and!; auto using NoDup_singleton; try lia; try constructor. by exists []. }
  destruct (_ <=? 0); [exact Hstop|]. destruct (negb t && _ && _); [exact Hstop|]. clear Hstop.
  destruct (trinkle_path false o (r - leo k) os x v) as [[[p1 r1] k1] t1] eqn:Hp.
  intros [= <- <- <- <-]. destruct (IH _ _ _ _ Hp) as (H1 & H2 & H3 & H4 & H5 & H6 & H7 & H8).
  cbn [size length] in *.
  assert (Hall : Forall (fun i => r - (leo k + (leo o + size os)) < i < r) (r - leo k :: p1)).
  { constructor; [lia|]. revert H2. apply Forall_impl. lia. }
  split_and!; try done; try lia.
  - apply NoDup_cons_2; [|done]. intros Hin. rewrite list.Forall_forall in Hall. specialize (Hall _ Hin). lia.
  - destruct H4 as [q ->]. by exists (r :: q).
  - set_solver.
  - destruct t1; [|done]. by destruct (H8 eq_refl).
Qed.

Lemma place_last cs x v c : NoDup cs -> (exists q, cs = q ++ [c]) -> place cs x v c = x.
Proof.
  intros Hnd [q ->]. rewrite (pull_at _ _ _ _ (length q)); [|done|by rewrite list_lookup_middle].
  by rewrite lookup_ge_None_2 by (rewrite length_app; cbn; lia).
Qed.

(** Both operations permute the array, whatever the comparison function. *)
Lemma sifted_perm k r v n : 0 <= r - leo k + 1 -> r < n -> elems (sifted k r (v r) v) n ≡ₚ elems v n.
Proof.
  intros Hlo Hhi. apply place_perm; [apply sift_path_NoDup| |done].
  pose proof (leo_pos k) as [L0 _]. constructor; [lia|].
  eapply Forall_impl; [|apply sift_path_range]. cbn. lia.
Qed.

Lemma trinkled_perm t k r os v n : 0 <= r - size (k :: os) + 1 -> r < n -> elems (trinkled t k r os v) n ≡ₚ elems v n.
Proof.
  intros Hlo Hhi. unfold trinkled. destruct (trinkle_path t k r os (v r) v) as [[[p r'] k'] t'] eqn:Hp.
  destruct (trinkle_path_spec _ _ _ _ _ _ _ _ _ _ Hp) as (H1 & H2 & H3 & H4 & H5 & H6 & H7 & _).
  destruct t'; [done|]. unfold settled. rewrite <- (place_last _ (v r) v _ H1 H4) at 1.
  rewrite sifted_perm by lia. apply place_perm; [done| |done].
  pose proof (leo_pos k) as [L0 _]. pose proof (size_nonneg os). cbn [size] in *. constructor; [lia|].
  eapply Forall_impl; [|exact H2]. cbn. lia.
Qed.

Lemma trinkled_out t k r os v i : ~ (r - size (k :: os) < i <= r) -> trinkled t k r os v i = v i.
Proof.
  intros Hi. unfold trinkled. destruct (trinkle_path t k r os (v r) v) as [[[p r'] k'] t'] eqn:Hp.
  destruct (trinkle_path_spec _ _ _ _ _ _ _ _ _ _ Hp) as (H1 & H2 & H3 & H4 & H5 & H6 & H7 & _).
  destruct t'; [done|]. unfold settled. pose proof (leo_pos k) as [L0 _]. pose proof (size_nonneg os). cbn [size] in *.
  rewrite sifted_out by lia. apply pull_out. intros [->|Hin]%elem_of_cons; [lia|].
  rewrite list.Forall_forall in H2. specialize (H2 i Hin). lia.
Qed.

Section consistent.
Context {HC : Consistent}.

Definition top_le (os : list nat) r v x : Prop := os <> [] -> cmp (v r) x <= 0.

(** What moving [x] from the root [r] of a tree of order [k] achieves. *)
Definition settles k r os x v (u : Z -> A) : Prop :=
  forest (k :: os) r u /\
  (forall i, ~ (r - size (k :: os) < i <= r) -> u i = v i) /\
  (forall b, cmp x b <= 0 -> above_children k r v b -> top_le os (r - leo k) v b -> cmp (u r) b <= 0).

(** It stays in this tree, when the next root is at most [x] or a child. *)
Lemma settles_here k r os x v :
  heap_below k r v -> forest os (r - leo k) v ->
  (forall b, cmp x b <= 0 -> above_children k r v b -> top_le os (r - leo k) v b) ->
  settles k r os x v (settled r x v [] r k).
Proof.
  intros Hb Hf Hstop. pose proof (leo_pos k) as [L0 _]. unfold settled. cbn [pull]. set (w := upd v r x).
  assert (Hw : forall i, i <> r -> w i = v i) by (intros; by apply upd_ne).
  assert (Hbw : heap_below k r w).
  { destruct k as [|[|k]]; [done..|]. rewrite leo_SS in L0. pose proof (leo_pos k) as [L2 L3]. destruct Hb as [Hr Hl].
    split; [apply (heap_ext k _ v)|apply (heap_ext (S k) _ v)]; try done; intros; symmetry; apply Hw; lia. }
  assert (Hch : forall b, above_children k r w b <-> above_children k r v b).
  { intros b. destruct k as [|[|k]]; [done..|]. cbn [above_children]. pose proof (leo_pos k). rewrite !Hw by lia. done. }
  destruct (sifted_heap k r x w Hbw) as (H1 & H2 & H3 & H4). set (u := sifted k r x w) in *.
  assert (Hu : forall i, ~ (r - leo k < i <= r) -> u i = v i).
  { intros i Hi. unfold u. rewrite sifted_out by done. apply Hw. lia. }
  pose proof (size_nonneg os). split_and!.
  - split_and!; [done| |].
    + apply (forest_ext os _ v); [|done]. intros. symmetry. apply Hu. lia.
    + intros Hne. rewrite (Hu (r - leo k)) by lia. apply Hstop; [done|by apply Hch|done].
  - intros i Hi. apply Hu. cbn [size] in Hi. lia.
  - intros b Hx Hc _. apply H4; [done|by apply Hch].
Qed.

(** It moves to the next tree. *)
Lemma settles_next k r o os x v u :
  heap_below k r v -> above_children k r v (v (r - leo k)) -> forest (o :: os) (r - leo k) v ->
  cmp x (v (r - leo k)) <= 0 ->
  settles o (r - leo k) os x (upd v r (v (r - leo k))) u -> settles k r (o :: os) x v u.
Proof.
  intros Hb Hc Hf Hx (U1 & U2 & U3). pose proof (leo_pos k) as [L0 _]. pose proof (leo_pos o) as [L1 _].
  pose proof (size_nonneg os). set (s := r - leo k) in *. set (w := upd v r (v s)) in *.
  assert (Hw : forall i, i <> r -> w i = v i) by (intros; by apply upd_ne).
  assert (Hu : forall i, s < i -> u i = w i) by (intros; apply U2; lia).
  assert (Hur : u r = v s) by (rewrite Hu by lia; apply upd_eq).
  assert (Hhw : heap k r w).
  { destruct k as [|[|k]]; [done..|]. rewrite leo_SS in *. pose proof (leo_pos k) as [L2 L3].
    rewrite heap_SS. destruct Hb as [Hr Hl], Hc as [Hc1 Hc2]. unfold w at 2 4. rewrite !upd_eq, !Hw by lia.
    refine (conj Hc1 (conj Hc2 (conj _ _))); [apply (heap_ext k _ v)|apply (heap_ext (S k) _ v)]; try done;
      intros; symmetry; apply Hw; lia. }
  split; [|split].
  - refine (conj _ (conj U1 (fun _ => _))); fold s.
    + apply (heap_ext k r w); [|done]. intros. symmetry. apply Hu. lia.
    + rewrite Hur. apply U3; [done| |].
      * destruct Hf as (Hf1 & _ & _). apply heap_split in Hf1 as [Hf1 _].
        destruct o as [|[|o]]; [done..|]. cbn [above_children] in *. pose proof (leo_pos o). rewrite !Hw by lia. done.
      * intros Hne. destruct Hf as (_ & _ & Hf). rewrite Hw by lia. by apply Hf.
  - intros i Hi. rewrite U2 by (cbn [size] in *; lia). apply Hw. cbn [size] in Hi. lia.
  - intros b _ _ Ht. rewrite Hur. by apply Ht.
Qed.

Lemma settled_cons r x v s p r' k' : settled r x v (s :: p) r' k' = settled s x (upd v r (v s)) p r' k'.
Proof. done. Qed.

(** [x] at the root of a tree that need not be a heap. *)
Lemma settles_any k r os x v p r' k' t' :
  heap_below k r v -> forest os (r - leo k) v ->
  trinkle_path false k r os x v = (p, r', k', t') -> settles k r os x v (settled r x v p r' k').
Proof.
  revert k r v p. induction os as [|o os IH]; intros k r v p Hb Hf; cbn [trinkle_path].
  { intros [= <- <- <- <-]. apply settles_here; [done..|]. by intros b _ _ Hne. }
  set (s := r - leo k) in *. pose proof (leo_pos k) as [L0 _].
  destruct (cmp (v s) x <=? 0) eqn:Hsx.
  { intros [= <- <- <- <-]. apply settles_here; [done..|]. intros b Hb' _ _. fold s. eapply cmp_trans; [|exact Hb']. lia. }
  destruct (negb false && (1 <? k)%nat && _) eqn:Hch.
  { intros [= <- <- <- <-]. apply settles_here; [done..|]. intros b _ Hb' _. fold s.
    destruct k as [|[|k]]; [done..|]. cbn [Nat.sub] in Hch. rewrite Nat.sub_0_r in Hch. destruct Hb' as [Hb1 Hb2].
    apply andb_true_iff in Hch as [_ [Hch%cmp_test|Hch%cmp_test]%orb_true_iff]; eapply cmp_trans; eassumption. }
  assert (Hxs : cmp x (v s) <= 0) by (apply cmp_flip; lia).
  assert (Hac : above_children k r v (v s)).
  { destruct k as [|[|k]]; [done..|]. cbn [Nat.sub negb andb] in Hch. rewrite Nat.sub_0_r in Hch.
    apply orb_false_iff in Hch as [H1%cmp_test_false H2%cmp_test_false]. by split. }
  destruct (trinkle_path false o s os x v) as [[[p1 r1] k1] t1] eqn:Hp. intros [= <- <- <- <-].
  rewrite settled_cons. apply (settles_next k r o os); try done. fold s.
  pose proof (leo_pos o) as [L1 _]. destruct Hf as (Hf1 & Hf2 & Hf3).
  apply (IH o s).
  - apply (heap_heap_below o s), (heap_ext o s v); [|done]. intros. symmetry. apply upd_ne. lia.
  - apply (forest_ext os _ v); [|done]. intros. symmetry. apply upd_ne. lia.
  - rewrite <- Hp. symmetry. apply trinkle_path_ext. intros. symmetry. apply upd_ne. lia.
Qed.

(** The forest after the root of its rightmost tree has been put in order. *)
Lemma trinkled_forest t k r os v :
  heap_below k r v -> forest os (r - leo k) v -> (t = true -> heap k r v) ->
  forest (k :: os) r (trinkled t k r os v).
Proof.
  intros Hb Hf Ht. unfold trinkled. destruct (trinkle_path t k r os (v r) v) as [[[p r'] k'] t'] eqn:Hp.
  destruct t; [|by destruct (trinkle_path_spec _ _ _ _ _ _ _ _ _ _ Hp) as (_ & _ & _ & _ & _ & _ & _ & Ht');
                 destruct t'; [by destruct (Ht' eq_refl)|apply (settles_any k r os (v r) v p r' k' false)]].
  specialize (Ht eq_refl). destruct os as [|o os]; cbn [trinkle_path] in Hp; [by injection Hp as <- <- <- <-|].
  set (s := r - leo k) in *. pose proof (leo_pos k) as [L0 _]. pose proof (leo_pos o) as [L1 _].
  destruct (cmp (v s) (v r) <=? 0) eqn:Hsx; cbn [negb andb] in Hp.
  { injection Hp as <- <- <- <-. split_and!; [done..|]. intros _. fold s. lia. }
  destruct (trinkle_path false o s os (v r) v) as [[[p1 r1] k1] t1] eqn:Hp1. injection Hp as <- <- <- <-.
  destruct (trinkle_path_spec _ _ _ _ _ _ _ _ _ _ Hp1) as (_ & _ & _ & _ & _ & _ & _ & Ht').
  destruct t1; [by destruct (Ht' eq_refl)|]. clear Ht'.
  assert (Hxs : cmp (v r) (v s) <= 0) by (apply cmp_flip; lia).
  rewrite settled_cons. apply (settles_next k r o os (v r) v); try done; fold s.
  - apply heap_split in Ht as [Ht _]. destruct k as [|[|k]]; [done..|]. destruct Ht. split; by eapply cmp_trans.
  - destruct Hf as (Hf1 & Hf2 & Hf3). apply (settles_any o s os _ _ p1 r1 k1 false).
    + apply (heap_heap_below o s), (heap_ext o s v); [|done]. intros. symmetry. apply upd_ne. lia.
    + apply (forest_ext os _ v); [|done]. intros. symmetry. apply upd_ne. lia.
    + rewrite <- Hp1. symmetry. apply trinkle_path_ext. intros. symmetry. apply upd_ne. lia.
Qed.

(** The last element of a forest is its maximum. *)
Lemma forest_max os r v i : forest os r v -> r - size os < i <= r -> cmp (v i) (v r) <= 0.
Proof.
  revert r. induction os as [|o os IH]; intros r Hf Hi; cbn [size] in Hi; [lia|]. destruct Hf as (Hf1 & Hf2 & Hf3).
  destruct (Z.lt_ge_cases (r - leo o) i); [apply (heap_max o); [done|lia]|].
  eapply cmp_trans; [apply (IH (r - leo o)); [done|lia]|]. apply Hf3. intros ->. cbn [size] in Hi. lia.
Qed.
End consistent.
End smooth.
