(* ===== verification/Qsort.v ===== *)
(** Sorting and searching arrays: stdlib/qsort.c (smoothsort) and
    stdlib/bsearch.c, over the byte-addressed memory.

    The comparison function is a parameter [cmp] on the contents of two
    elements; calling it reads both elements.  A local array is the list of the
    entries written so far: reading another one, or writing past its size, is a
    [fault]; so is a shift by a negative amount or by the width of the type.
    The buffer [tmp] of [cycle] is 256 bytes of memory at an address that is a
    parameter.  The mathematics is in Smooth.v. *)
From S2P Require Import Prelude Mem Copy Smooth.
Open Scope c_scope.

(** ** internal/atomic.h *)
Definition debruijn64 : list Z :=
  [0; 1; 2; 53; 3; 7; 54; 27; 4; 38; 41; 8; 34; 55; 48; 28;
   62; 5; 39; 46; 44; 42; 22; 9; 24; 35; 59; 56; 49; 18; 29; 11;
   63; 52; 6; 26; 37; 40; 33; 47; 61; 45; 43; 21; 23; 58; 17; 10;
   51; 25; 36; 32; 60; 20; 57; 16; 50; 31; 19; 15; 30; 14; 13; 12].

Definition a_ctz_64 (x : Z) : Z :=
  debruijn64 !!! Z.to_nat (u64 ((x & u64 (- x)) * 0x022fdd63cc95386d) >> 58).

(** ** qsort.c *)
Definition ntz (x : Z) : Z := a_ctz_64 x.

(** Bit vectors of two words. *)
Definition pntz (p : Z * Z) : Z :=
  let '(p0, p1) := p in
  let r := ntz (u64 (p0 - 1)) in
  if negb (r =? 0) then r
  else let r := 64 + ntz p1 in
       if negb (r =? 64) then r else 0.

Definition shl (p : Z * Z) (n : Z) : M (Z * Z) :=
  let '(p0, p1) := p in
  let '(p0, p1, n) := if n >=? 64 then (0, p0, n - 64) else (p0, p1, n) in
  if (0 <? n) && (n <? 64) then mret (u64 (p0 << n), u64 (p1 << n) .| (p0 >> (64 - n))) else fault.

Definition shr (p : Z * Z) (n : Z) : M (Z * Z) :=
  let '(p0, p1) := p in
  let '(p0, p1, n) := if n >=? 64 then (p1, 0, n - 64) else (p0, p1, n) in
  if (0 <? n) && (n <? 64) then mret ((p0 >> n) .| u64 (p1 << (64 - n)), p1 >> n) else fault.

(** Reading a local array; adding an entry to the array [ar]. *)
Definition entry (l : list Z) (i : Z) : M Z :=
  if 0 <=? i then match l !! Z.to_nat i with Some x => mret x | None => fault end else fault.

Definition AR_SIZE : Z := 14 * 8 + 1.
Definition LP_SIZE : Z := 12 * 8.

Definition append (size : Z) (l : list Z) (x : Z) : M (list Z) :=
  if Z.of_nat (length l) <? size then mret (l ++ [x]) else fault.

Section qsort.
Context {F : Fuel} (width : Z) (cmp : list Z -> list Z -> Z) (tmp : Z).

Definition call_cmp (a b : Z) : M Z :=
  x ← loadn (Z.to_nat width) a; y ← loadn (Z.to_nat width) b; mret (cmp x y).

(** One pass of [cycle] over the places: [l] bytes each. *)
Definition cycle_pass (n : Z) (l : Z) (ar : list Z) : M (list Z) :=
  '(_, ar) ← while (fun '(i, ar) => mret (i <? n))
    (fun '(i, ar) =>
       d ← entry ar i; s ← entry ar (i + 1);
       memcpy d s l;;
       mret (i + 1, <[Z.to_nat i := d + l]> ar)) (0, ar);
  mret ar.

Definition cycle (ar : list Z) : M unit :=
  let n := Z.of_nat (length ar) in
  if n <? 2 then mret tt
  else
    ar ← append AR_SIZE ar tmp;
    while (fun '(width, ar) => mret (negb (width =? 0)))
      (fun '(width, ar) =>
         let l := if 256 <? width then 256 else width in
         d ← entry ar n; s ← entry ar 0;
         memcpy d s l;;
         ar ← cycle_pass n l ar;
         mret (width - l, ar)) (width, ar);;
    mret tt.

Definition sift (head : Z) (pshift : Z) (lp : list Z) : M unit :=
  '(_, _, ar) ← loop (fun '(head, pshift, ar) =>
    if pshift >? 1 then
      let rt := head - width in
      lp2 ← entry lp (pshift - 2);
      let lf := head - width - lp2 in
      x ← entry ar 0;
      c ← call_cmp x lf;
      stop ← ((c >=? 0) &&& (c ← call_cmp x rt; mret (c >=? 0)));
      if (stop : bool) then mret (inr (head, pshift, ar))
      else
        c ← call_cmp lf rt;
        if c >=? 0 then ar ← append AR_SIZE ar lf; mret (inl (lf, pshift - 1, ar))
        else ar ← append AR_SIZE ar rt; mret (inl (rt, pshift - 2, ar))
    else mret (inr (head, pshift, ar))) (head, pshift, [head]);
  cycle ar.

Definition trinkle (head : Z) (pp : Z * Z) (pshift : Z) (trusty : bool) (lp : list Z) : M unit :=
  '(head, _, pshift, trusty, ar) ← loop (fun '(head, p, pshift, trusty, ar) =>
    if negb (p.1 =? 1) || negb (p.2 =? 0) then
      d ← entry lp pshift;
      let stepson := head - d in
      x ← entry ar 0;
      c ← call_cmp stepson x;
      if c <=? 0 then mret (inr (head, p, pshift, trusty, ar))
      else
        stop ← (negb trusty && (pshift >? 1)) &&&
                (let rt := head - width in
                 lp2 ← entry lp (pshift - 2);
                 let lf := head - width - lp2 in
                 c ← call_cmp rt stepson;
                 if c >=? 0 then mret true else c ← call_cmp lf stepson; mret (c >=? 0));
        if (stop : bool) then mret (inr (head, p, pshift, trusty, ar))
        else
          ar ← append AR_SIZE ar stepson;
          let trail := pntz p in
          p ← shr p trail;
          mret (inl (stepson, p, pshift + trail, false, ar))
    else mret (inr (head, p, pshift, trusty, ar))) (head, pp, pshift, trusty, [head]);
  if (trusty : bool) then mret tt else cycle ar;; sift head pshift lp.

(** The Leonardo numbers up to the size of the array, in bytes. *)
Definition leonardo (size : Z) : M (list Z) :=
  loop (fun lp =>
    let i := Z.of_nat (length lp) in
    a ← entry lp (i - 2); b ← entry lp (i - 1);
    let x := u64 (a + b + width) in
    lp ← append LP_SIZE lp x;
    mret (if x <? size then inl lp else inr lp)) [width; width].

(** The first loop: every element joins the forest. *)
Definition build_step (high : Z) (lp : list Z) (s : Z * (Z * Z) * Z) : M (Z * (Z * Z) * Z) :=
  let '(head, p, pshift) := s in
  '(p, pshift) ←
    (if (p.1 & 3) =? 3 then
       sift head pshift lp;;
       p ← shr p 2;
       mret (p, pshift + 2)
     else
       d ← entry lp (pshift - 1);
       (if d >=? u64 (high - head) then trinkle head p pshift false lp
        else sift head pshift lp);;
       if pshift =? 1 then p ← shl p 1; mret (p, 0)
       else p ← shl p (pshift - 1); mret (p, 1));
  mret (head + width, (p.1 .| 1, p.2), pshift).

(** The second loop: every element leaves it. *)
Definition extract_step (lp : list Z) (s : Z * (Z * Z) * Z) : M (Z * (Z * Z) * Z) :=
  let '(head, p, pshift) := s in
  '(p, pshift) ←
    (if pshift <=? 1 then
       let trail := pntz p in
       p ← shr p trail;
       mret (p, pshift + trail)
     else
       p ← shl p 2;
       let pshift := pshift - 2 in
       let p := (p.1 ^^ 7, p.2) in
       p ← shr p 1;
       d ← entry lp pshift;
       trinkle (head - d - width) p (pshift + 1) true lp;;
       p ← shl p 1;
       let p := (p.1 .| 1, p.2) in
       trinkle (head - width) p pshift true lp;;
       mret (p, pshift));
  mret (head - width, p, pshift).

Definition qsort (base nel : Z) : M unit :=
  let size := u64 (width * nel) in
  if size =? 0 then mret tt
  else
    let head := base in
    let high := head + size - width in
    lp ← leonardo size;
    '(head, p, pshift) ← while (fun '(head, _, _) => mret (head <? high)) (build_step high lp)
                           (head, (1, 0), 1);
    trinkle head p pshift false lp;;
    while (fun '(_, p, pshift) => mret (negb (pshift =? 1) || negb (p.1 =? 1) || negb (p.2 =? 0)))
      (extract_step lp) (head, p, pshift);;
    mret tt.
End qsort.

(** ** bsearch.c *)

(** [cmp] compares the key at the address [key] with an element; the result
    [None] stands for a null pointer. *)
Definition bsearch {F : Fuel} (width : Z) (cmp : Z -> list Z -> Z) (key base nel : Z) : M (option Z) :=
  loop (fun '(base, nel) =>
    if nel >? 0 then
      let try_ := base + width * (nel / 2) in
      x ← loadn (Z.to_nat width) try_;
      let sign := cmp key x in
      if sign =? 0 then mret (inr (Some try_))
      else if nel =? 1 then mret (inr None)
      else if sign <? 0 then mret (inl (base, nel / 2))
      else mret (inl (try_, nel - nel / 2))
    else mret (inr None)) (base, nel).
