(* ===== verification/QsortBits.v ===== *)
(** The forest of smoothsort as the 128-bit vector [p] of stdlib/qsort.c: what
    the operations on bit vectors compute, and the encoding of the orders of
    the trees. *)
From S2P Require Import Prelude Mem Smooth Qsort.

(** ** The lowest bit *)
Lemma land_neg_odd q : Z.land (2 * q + 1) (- (2 * q + 1)) = 1.
Proof.
  replace (- (2 * q + 1)) with (2 * Z.lnot q + 1) by (unfold Z.lnot; lia).
  apply Z.bits_inj'. intros i Hi. rewrite Z.land_spec. destruct (Z.eq_dec i 0) as [->|Hne].
  - by rewrite !Z.testbit_odd_0.
  - replace i with (Z.succ (i - 1)) by lia. rewrite !Z.testbit_odd_succ, Z.lnot_spec by lia.
    rewrite andb_negb_r. change 1 with (2 ^ 0). symmetry. apply Z.pow2_bits_false. lia.
Qed.

Lemma land_neg_u64 x : 0 <= x < 2 ^ 64 -> Z.land x (u64 (- x)) = Z.land x (- x).
Proof.
  intros Hx. apply Z.bits_inj'. intros i Hi. rewrite !Z.land_spec. destruct (Z.lt_ge_cases i 64).
  - unfold u64. by rewrite Z.mod_pow2_bits_low.
  - by rewrite (testbit_above 64 x).
Qed.

Lemma a_ctz_64_pow k : 0 <= k < 64 -> debruijn64 !!! Z.to_nat (Z.shiftr (u64 (2 ^ k * 0x022fdd63cc95386d)) 58) = k.
Proof.
  intros Hk. apply Z.eqb_eq.
  apply (range_forall 64 (fun k => debruijn64 !!! Z.to_nat (Z.shiftr (u64 (2 ^ k * 0x022fdd63cc95386d)) 58) =? k)); [|done].
  by vm_compute.
Qed.

Lemma ntz_spec k q : 0 <= k -> 0 <= 2 ^ k * (2 * q + 1) < 2 ^ 64 -> ntz (2 ^ k * (2 * q + 1)) = k.
Proof.
  intros Hk Hx. unfold ntz, a_ctz_64. rewrite land_neg_u64 by done.
  rewrite <- Z.mul_opp_r, !(Z.mul_comm (2 ^ k)), <- !Z.shiftl_mul_pow2, <- Z.shiftl_land by done.
  rewrite land_neg_odd, Z.shiftl_1_l. apply a_ctz_64_pow. split; [done|].
  apply (Z.pow_lt_mono_r_iff 2); [lia..|]. assert (Hp : 0 < 2 ^ k) by (apply Z.pow_pos_nonneg; lia).
  revert Hx Hp. generalize (2 ^ k) (2 ^ 64). intros y B Hx Hp. assert (0 <= q) by nia. nia.
Qed.

Lemma ntz_0 : ntz 0 = 0.
Proof. by vm_compute. Qed.

(** ** Bit vectors *)
Definition words (P : Z) : Z * Z := (P mod 2 ^ 64, P / 2 ^ 64).

Lemma words_range P : 0 <= P < 2 ^ 128 -> 0 <= P mod 2 ^ 64 < 2 ^ 64 /\ 0 <= P / 2 ^ 64 < 2 ^ 64.
Proof. intros HP. split; [apply Z.mod_pos_bound; lia|]. split; [apply Z.div_pos; lia|apply Z.div_lt_upper_bound; lia]. Qed.

Lemma shl_words P n m Q : 0 < n < 64 -> 0 <= P -> P * 2 ^ n < 2 ^ 128 ->
  Q (words (P * 2 ^ n)) m -> wp (shl (words P) n) m Q.
Proof.
  intros Hn HP Hlt HQ. unfold shl, words. rewrite Z.geb_leb, (proj2 (Z.leb_gt 64 n)) by lia.
  rewrite (proj2 (Z.ltb_lt 0 n)), (proj2 (Z.ltb_lt n 64)) by lia. cbn [andb]. apply wp_ret.
  replace (u64 (Z.shiftl (P mod 2 ^ 64) n)) with ((P * 2 ^ n) mod 2 ^ 64).
  2:{ unfold u64. rewrite Z.shiftl_mul_pow2 by lia. by rewrite Z.mul_mod_idemp_l by lia. }
  match goal with |- Q (_, ?x) _ => replace x with (P * 2 ^ n / 2 ^ 64) end; [done|].
  assert (H64 : 2 ^ 64 = 2 ^ (64 - n) * 2 ^ n) by (rewrite <- Z.pow_add_r by lia; f_equal; lia).
  assert (Hpos : 0 < 2 ^ n) by (apply Z.pow_pos_nonneg; lia). assert (Hpos' : 0 < 2 ^ (64 - n)) by (apply Z.pow_pos_nonneg; lia).
  pose proof (Z.mod_pos_bound P (2 ^ 64) ltac:(lia)) as Hm. pose proof (Z.div_mod P (2 ^ 64) ltac:(lia)) as Hdm.
  set (a := P mod 2 ^ 64) in *. set (b := P / 2 ^ 64) in *. assert (0 <= b) by (apply Z.div_pos; lia).
  rewrite Z.shiftl_mul_pow2, Z.shiftr_div_pow2 by lia.
  assert (Hb : b * 2 ^ n < 2 ^ 64).
  { change (2 ^ 128) with (2 ^ 64 * 2 ^ 64) in Hlt. nia. }
  rewrite u64_id by lia. rewrite Z.lor_comm, lor_add; [|lia|].
  - rewrite Hdm. replace ((2 ^ 64 * b + a) * 2 ^ n) with (a * 2 ^ n + b * 2 ^ n * 2 ^ 64) by ring.
    rewrite Z.div_add by lia. f_equal. rewrite H64. by rewrite Z.div_mul_cancel_r by lia.
  - split; [apply Z.div_pos; lia|]. apply Z.div_lt_upper_bound; [lia|]. rewrite <- H64. lia.
Qed.

Lemma shr_words P n m Q : 0 < n < 64 -> 0 <= P < 2 ^ 128 -> Q (words (P / 2 ^ n)) m -> wp (shr (words P) n) m Q.
Proof.
  intros Hn HP HQ. unfold shr, words. rewrite Z.geb_leb, (proj2 (Z.leb_gt 64 n)) by lia.
  rewrite (proj2 (Z.ltb_lt 0 n)), (proj2 (Z.ltb_lt n 64)) by lia. cbn [andb]. apply wp_ret.
  assert (H64 : 2 ^ 64 = 2 ^ (64 - n) * 2 ^ n) by (rewrite <- Z.pow_add_r by lia; f_equal; lia).
  assert (Hpos : 0 < 2 ^ n) by (apply Z.pow_pos_nonneg; lia). assert (Hpos' : 0 < 2 ^ (64 - n)) by (apply Z.pow_pos_nonneg; lia).
  pose proof (Z.mod_pos_bound P (2 ^ 64) ltac:(lia)) as Hm. pose proof (Z.div_mod P (2 ^ 64) ltac:(lia)) as Hdm.
  replace (Z.shiftr (P / 2 ^ 64) n) with (P / 2 ^ n / 2 ^ 64).
  2:{ rewrite Z.shiftr_div_pow2, !Z.div_div by lia. f_equal. lia. }
  match goal with |- Q (?x, _) _ => replace x with ((P / 2 ^ n) mod 2 ^ 64) end; [done|].
  set (a := P mod 2 ^ 64) in *. set (b := P / 2 ^ 64) in *. assert (0 <= b) by (apply Z.div_pos; lia).
  rewrite Z.shiftl_mul_pow2, Z.shiftr_div_pow2 by lia. unfold u64.
  assert (Hmod : (b * 2 ^ (64 - n)) mod 2 ^ 64 = (b mod 2 ^ n) * 2 ^ (64 - n)).
  { rewrite H64, (Z.mul_comm (2 ^ (64 - n))), Z.mul_mod_distr_r by lia. done. }
  rewrite Hmod, lor_add; [|lia|].
  2:{ split; [apply Z.div_pos; lia|]. apply Z.div_lt_upper_bound; [lia|]. rewrite Z.mul_comm, <- H64. lia. }
  replace (P / 2 ^ n) with (a / 2 ^ n + b * 2 ^ (64 - n)).
  2:{ rewrite Hdm. replace (2 ^ 64 * b + a) with (a + b * 2 ^ (64 - n) * 2 ^ n) by (rewrite H64; ring).
      rewrite Z.div_add by lia. done. }
  pose proof (Z.mod_pos_bound b (2 ^ n) ltac:(lia)). pose proof (Z.div_mod b (2 ^ n) ltac:(lia)) as Hb.
  assert (Ha : 0 <= a / 2 ^ n < 2 ^ (64 - n)).
  { split; [apply Z.div_pos; lia|]. apply Z.div_lt_upper_bound; [lia|]. rewrite Z.mul_comm, <- H64. lia. }
  symmetry. apply Z.mod_unique with (b / 2 ^ n); [left; nia|]. rewrite H64. nia.
Qed.

(** [pntz] finds the next bit above bit 0 if it is less than 64 places away. *)
Lemma pntz_words d q : 0 < d < 64 -> 0 <= q -> pntz (words (1 + 2 ^ d * (2 * q + 1))) = d.
Proof.
  intros Hd Hq. unfold pntz, words.
  assert (H64 : 2 ^ 64 = 2 ^ (63 - d) * 2 * 2 ^ d).
  { rewrite <- Z.mul_assoc, <- Z.pow_succ_r, <- Z.pow_add_r by lia. f_equal. lia. }
  assert (Hp : 0 < 2 ^ d) by (apply Z.pow_pos_nonneg; lia). assert (Hp' : 0 < 2 ^ (63 - d)) by (apply Z.pow_pos_nonneg; lia).
  assert (He : 2 <= 2 ^ d) by (change 2 with (2 ^ 1) at 1; apply Z.pow_le_mono_r; lia).
  replace ((1 + 2 ^ d * (2 * q + 1)) mod 2 ^ 64) with (1 + 2 ^ d * (2 * (q mod 2 ^ (63 - d)) + 1)).
  - pose proof (Z.mod_pos_bound q (2 ^ (63 - d)) ltac:(lia)).
    replace (1 + 2 ^ d * (2 * (q mod 2 ^ (63 - d)) + 1) - 1) with (2 ^ d * (2 * (q mod 2 ^ (63 - d)) + 1)) by lia.
    rewrite u64_id by nia. rewrite ntz_spec by (try lia; nia). by rewrite (proj2 (Z.eqb_neq d 0)) by lia.
  - pose proof (Z.mod_pos_bound q (2 ^ (63 - d)) ltac:(lia)). pose proof (Z.div_mod q (2 ^ (63 - d)) ltac:(lia)).
    apply Z.mod_unique with (q / 2 ^ (63 - d)); [left; nia|]. rewrite H64. nia.
Qed.

(** The distance 64 is not found. *)
Lemma pntz_64 : pntz (words (1 + 2 ^ 64)) = 0.
Proof. by vm_compute. Qed.

(** ** Forests as bit vectors *)

(** Bit [o - k] for every order [o], the smallest being [k]. *)
Fixpoint enc (k : nat) (os : list nat) : Z :=
  match os with [] => 1 | o :: os => 1 + 2 ^ (Z.of_nat o - Z.of_nat k) * enc o os end.

(** Orders that increase, up to 64; a tree of order 0 lies beside one of order
    1. *)
Fixpoint increasing (k : nat) (os : list nat) : Prop :=
  match os with [] => (k <= 64)%nat | o :: os => (k < o)%nat /\ increasing o os end.

Definition orders_ok (k : nat) (os : list nat) : Prop :=
  increasing k os /\ (k = 0%nat -> exists os', os = 1%nat :: os').

Lemma increasing_le k os : increasing k os -> (k <= 64)%nat.
Proof. revert k. induction os as [|o os IH]; intros k; cbn; [done|]. intros [? ?%IH]. lia. Qed.

Lemma enc_range k os : increasing k os -> 0 < enc k os < 2 ^ (65 - Z.of_nat k).
Proof.
  revert k. induction os as [|o os IH]; intros k; cbn [enc increasing].
  - intros Hk. split; [lia|]. change 1 with (2 ^ 0). apply Z.pow_lt_mono_r; lia.
  - intros [Hk Hi]. destruct (IH o Hi) as [I1 I2]. apply increasing_le in Hi.
    replace (65 - Z.of_nat k) with ((Z.of_nat o - Z.of_nat k) + (65 - Z.of_nat o)) by lia.
    rewrite Z.pow_add_r by lia. assert (2 <= 2 ^ (Z.of_nat o - Z.of_nat k)).
    { change 2 with (2 ^ 1) at 1. apply Z.pow_le_mono_r; lia. }
    nia.
Qed.

Lemma enc_range128 k os n : increasing k os -> 0 <= n <= 63 -> 0 < enc k os /\ enc k os * 2 ^ n < 2 ^ 128.
Proof.
  intros Hi Hn. destruct (enc_range k os Hi) as [H1 H2]. split; [done|].
  assert (enc k os < 2 ^ 65).
  { eapply Z.lt_le_trans; [exact H2|]. apply Z.pow_le_mono_r; lia. }
  assert (2 ^ n <= 2 ^ 63) by (apply Z.pow_le_mono_r; lia). change (2 ^ 128) with (2 ^ 65 * 2 ^ 63). nia.
Qed.

Lemma enc_odd k os : increasing k os -> exists q, enc k os = 2 * q + 1 /\ 0 <= q.
Proof.
  destruct os as [|o os]; cbn [enc increasing]; [by exists 0|]. intros [Hk Hi]. destruct (enc_range o os Hi) as [H1 _].
  exists (2 ^ (Z.of_nat o - Z.of_nat k - 1) * enc o os). split; [|lia].
  replace (Z.of_nat o - Z.of_nat k) with (Z.succ (Z.of_nat o - Z.of_nat k - 1)) at 1 by lia.
  rewrite Z.pow_succ_r by lia. lia.
Qed.

Lemma pntz_enc k o os : orders_ok k (o :: os) -> pntz (words (enc k (o :: os))) = Z.of_nat o - Z.of_nat k /\
  0 < Z.of_nat o - Z.of_nat k < 64.
Proof.
  intros [[Hk Hi] H0]. pose proof (increasing_le _ _ Hi) as Ho. destruct (enc_odd o os Hi) as (q & Hq & Hq0).
  assert (Hd : 0 < Z.of_nat o - Z.of_nat k < 64).
  { destruct k; [destruct (H0 eq_refl) as [os' [= -> ->]]|]; lia. }
  split; [|done]. cbn [enc]. rewrite Hq. by apply pntz_words.
Qed.

Lemma enc_div k o os : increasing k (o :: os) -> enc k (o :: os) / 2 ^ (Z.of_nat o - Z.of_nat k) = enc o os.
Proof.
  intros [Hk Hi]. cbn [enc]. rewrite Z.mul_comm, Z.div_add by lia.
  rewrite Z.div_small; [lia|]. split; [lia|]. change 1 with (2 ^ 0) at 1. apply Z.pow_lt_mono_r; lia.
Qed.

(** The test for a single tree. *)
Lemma enc_one k os : increasing k os ->
  negb ((words (enc k os)).1 =? 1) || negb ((words (enc k os)).2 =? 0) = match os with [] => false | _ => true end.
Proof.
  destruct os as [|o os]; [done|]. intros [Hk Hi]. destruct (enc_range o os Hi) as [H1 _].
  destruct (_ || _) eqn:H; [done|]. apply orb_false_iff in H as [Ha%negb_false_iff%Z.eqb_eq Hb%negb_false_iff%Z.eqb_eq].
  unfold words in Ha, Hb. cbn [fst snd] in Ha, Hb. pose proof (Z.div_mod (enc k (o :: os)) (2 ^ 64) ltac:(lia)) as Hd.
  rewrite Ha, Hb in Hd. cbn [enc] in Hd. assert (0 < 2 ^ (Z.of_nat o - Z.of_nat k)) by (apply Z.pow_pos_nonneg; lia). nia.
Qed.

(** The test for two trees of adjacent orders. *)
Lemma enc_adjacent k os : increasing k os ->
  (Z.land (words (enc k os)).1 3 =? 3) = match os with [] => false | o :: _ => Nat.eqb o (S k) end.
Proof.
  intros Hi. change 3 with (Z.ones 2) at 1. unfold words. cbn [fst]. rewrite Z.land_ones by lia.
  change (2 ^ 64) with (2 ^ 2 * 2 ^ 62). rewrite <- Znumtheory.Zmod_div_mod by (try lia; by exists (2 ^ 62)).
  destruct os as [|o os]; [done|]. destruct Hi as [Hk Hi]. cbn [enc]. destruct (enc_odd o os Hi) as (q & -> & Hq).
  destruct (Nat.eqb_spec o (S k)) as [->|Hne].
  - replace (Z.of_nat (S k) - Z.of_nat k) with 1 by lia. rewrite Z.pow_1_r.
    replace (1 + 2 * (2 * q + 1)) with (3 + q * 2 ^ 2) by ring. by rewrite Z.mod_add.
  - replace (Z.of_nat o - Z.of_nat k) with (2 + (Z.of_nat o - Z.of_nat k - 2)) by lia.
    rewrite Z.pow_add_r by lia. rewrite <- Z.mul_assoc, (Z.mul_comm (2 ^ 2)), Z.mod_add by lia. done.
Qed.

(** Setting bit 0. *)
Lemma words_lor_1 P : 0 <= P -> (Z.lor (words (2 * P)).1 1, (words (2 * P)).2) = words (2 * P + 1).
Proof.
  intros HP. unfold words. cbn [fst snd].
  assert (H1 : (2 * P) mod 2 ^ 64 = P mod 2 ^ 63 * 2 ^ 1).
  { rewrite Z.pow_1_r. change (2 ^ 64) with (2 * 2 ^ 63). rewrite Z.mul_mod_distr_l by lia. lia. }
  assert (H2 : (2 * P + 1) mod 2 ^ 64 = 2 * (P mod 2 ^ 63) + 1).
  { pose proof (Z.mod_pos_bound P (2 ^ 63) ltac:(lia)). pose proof (Z.div_mod P (2 ^ 63) ltac:(lia)).
    symmetry. apply Z.mod_unique with (P / 2 ^ 63); [left; lia|]. change (2 ^ 64) with (2 * 2 ^ 63). lia. }
  rewrite H1, Z.lor_comm, lor_add, H2 by lia. f_equal; [lia|].
  pose proof (Z.mod_pos_bound P (2 ^ 63) ltac:(lia)). pose proof (Z.div_mod (2 * P) (2 ^ 64) ltac:(lia)).
  pose proof (Z.div_mod (2 * P + 1) (2 ^ 64) ltac:(lia)). lia.
Qed.

(** [p[0] ^= 7] where the low bits are 100. *)
Lemma words_lxor_7 P : 0 <= P -> (Z.lxor (words (8 * P + 4)).1 7, (words (8 * P + 4)).2) = words (8 * P + 3).
Proof.
  intros HP. unfold words. cbn [fst snd].
  pose proof (Z.mod_pos_bound P (2 ^ 61) ltac:(lia)). pose proof (Z.div_mod P (2 ^ 61) ltac:(lia)).
  assert (Hm : forall c, 0 <= c < 8 -> (8 * P + c) mod 2 ^ 64 = 8 * (P mod 2 ^ 61) + c /\ (8 * P + c) / 2 ^ 64 = P / 2 ^ 61).
  { intros c Hc. split; symmetry; [apply Z.mod_unique with (P / 2 ^ 61)|apply Z.div_unique with (8 * (P mod 2 ^ 61) + c)];
      try (left; lia); change (2 ^ 64) with (8 * 2 ^ 61); lia. }
  destruct (Hm 4 ltac:(lia)) as [-> ->]. destruct (Hm 3 ltac:(lia)) as [-> ->]. f_equal.
  set (x := P mod 2 ^ 61) in *.
  assert (Hlor : forall c, 0 <= c < 8 -> 8 * x + c = Z.lor c (x * 2 ^ 3)) by (intros c Hc; rewrite lor_add; lia).
  rewrite !Hlor by lia. apply Z.bits_inj'. intros i Hi. rewrite Z.lxor_spec, !Z.lor_spec.
  destruct (Z.lt_ge_cases i 3).
  - rewrite Z.mul_pow2_bits_low by lia. rewrite !orb_false_r. assert (i = 0 \/ i = 1 \/ i = 2) as [-> | [-> | ->]] by lia; done.
  - rewrite (testbit_above 3 4), (testbit_above 3 7), (testbit_above 3 3) by lia. cbn [orb]. by rewrite xorb_false_r.
Qed.
