(* ===== verification/QsortCycle.v ===== *)
(** The array of [qsort] in memory and the rotation [cycle] of stdlib/qsort.c:
    an array of [nel] elements of [width] bytes stands for a function from
    indices to elements, and [cycle] moves the elements at the given places. *)
From S2P Require Import Prelude Mem Copy Smooth Qsort.

Section array.
Context {F : Fuel} (width nel base tmp : Z) (m0 : mem).
Context (Hwidth : 0 < width) (Htmp : tmp + 256 <= base \/ base + width * nel <= tmp).
Context (Hfuel : Z.of_nat fuel > width * nel + 300).

Definition addr (i : Z) : Z := base + width * i.

Definition element (x : list Z) : Prop := Z.of_nat (length x) = width /\ bytes x.

(** The array holds [v], and nothing but it and the buffer has changed. *)
Record holds (m : mem) (v : Z -> list Z) : Prop := {
  holds_at i : 0 <= i < nel -> bytes_at m (addr i) (v i);
  holds_element i : 0 <= i < nel -> element (v i);
  holds_tmp : mapped m tmp 256;
  holds_frame a : ~ (base <= a < base + width * nel) -> ~ (tmp <= a < tmp + 256) -> m !! a = m0 !! a }.

Lemma holds_ext m v w : (forall i, 0 <= i < nel -> v i = w i) -> holds m v -> holds m w.
Proof.
  intros H [H1 H2 H3 H4]. split; [| |done|done]; intros i Hi; rewrite <- (H i Hi); auto.
Qed.

Lemma addr_range i : 0 <= i < nel -> base <= addr i /\ addr i + width <= base + width * nel.
Proof. unfold addr. nia. Qed.

Lemma addr_disjoint i j : i <> j -> addr i + width <= addr j \/ addr j + width <= addr i.
Proof. unfold addr. intros. assert (i < j \/ j < i) as [|] by lia; [left|right]; nia. Qed.

(** Bytes [d] on of an element replaced by [q]. *)
Definition splice (d : nat) (q x : list Z) : list Z := take d x ++ q ++ drop (d + length q) x.

Lemma splice_element d q x : element x -> bytes q -> Z.of_nat d + Z.of_nat (length q) <= width -> element (splice d q x).
Proof.
  intros [Hl Hb] Hq Hd. split.
  - unfold splice. rewrite !length_app, length_take, length_drop. lia.
  - unfold splice. apply Forall_app. split; [by apply Forall_take|]. apply Forall_app. split; [done|by apply Forall_drop].
Qed.

Lemma splice_lookup d q x j : (d + length q <= length x)%nat ->
  splice d q x !! j = if decide (d <= j < d + length q)%nat then q !! (j - d)%nat else x !! j.
Proof.
  intros Hl. unfold splice. destruct (decide (j < d)%nat).
  - rewrite decide_False by lia. rewrite lookup_app_l by (rewrite length_take; lia). by rewrite lookup_take_lt.
  - rewrite lookup_app_r by (rewrite length_take; lia). rewrite length_take, Nat.min_l by lia. case_decide.
    + by rewrite lookup_app_l by lia.
    + rewrite lookup_app_r, lookup_drop by lia. f_equal. lia.
Qed.

(** Writing into an element. *)
Lemma holds_write m v c d q : holds m v -> 0 <= c < nel -> bytes q -> Z.of_nat d + Z.of_nat (length q) <= width ->
  holds (mem_write m (addr c + Z.of_nat d) q) (upd v c (splice d q (v c))).
Proof.
  intros [H1 H2 H3 H4] Hc Hq Hd. pose proof (addr_range c Hc) as Hr. destruct (H2 c Hc) as [Hlc Hbc]. split.
  - intros i Hi j x Hj. rewrite lookup_mem_write. unfold upd in Hj. destruct (decide (i = c)) as [->|Hne].
    + rewrite splice_lookup in Hj by lia. destruct (decide (d <= j < d + length q)%nat).
      * rewrite decide_True by lia. rewrite <- Hj. f_equal. lia.
      * rewrite decide_False by lia. by apply H1.
    + rewrite decide_False; [by apply H1|]. apply lookup_lt_Some in Hj. destruct (H2 i Hi) as [Hli _].
      destruct (addr_disjoint i c Hne); lia.
  - intros i Hi. unfold upd. case_decide; [subst i|by apply H2]. by apply splice_element; [apply H2|..].
  - by apply mapped_write.
  - intros a Ha Ha'. rewrite lookup_mem_write, decide_False by lia. by apply H4.
Qed.

(** Writing into the buffer. *)
Lemma holds_write_tmp m v q : holds m v -> (length q <= 256)%nat -> holds (mem_write m tmp q) v.
Proof.
  intros [H1 H2 H3 H4] Hq. split; [|done|by apply mapped_write|].
  - intros i Hi j x Hj. rewrite lookup_mem_write_out; [by apply H1|].
    pose proof (addr_range i Hi). apply lookup_lt_Some in Hj. destruct (H2 i Hi) as [Hl _]. lia.
  - intros a Ha Ha'. rewrite lookup_mem_write_out by lia. by apply H4.
Qed.

Lemma wp_copy m (dst src : Z) (q : list Z) Q :
  bytes_at m src q -> bytes q -> mapped m dst (Z.of_nat (length q)) ->
  (dst + Z.of_nat (length q) <= src \/ src + Z.of_nat (length q) <= dst) -> (length q <= 256)%nat -> 0 <= nel ->
  Q dst (mem_write m dst q) -> wp (memcpy dst src (Z.of_nat (length q))) m Q.
Proof. intros. apply (wp_memcpy m dst src q); try done; [lia|nia]. Qed.

(** The [l] bytes from [d] on of an element. *)
Definition chunk (d l : nat) (x : list Z) : list Z := take l (drop d x).

Lemma chunk_length d l x : element x -> Z.of_nat d + Z.of_nat l <= width -> length (chunk d l x) = l.
Proof. intros [Hl _] Hd. unfold chunk. rewrite length_take, length_drop. lia. Qed.

Lemma chunk_bytes d l x : element x -> bytes (chunk d l x).
Proof. intros [_ Hb]. unfold chunk. by apply Forall_take, Forall_drop. Qed.

Lemma chunk_at m p d l x : bytes_at m p x -> bytes_at m (p + Z.of_nat d) (chunk d l x).
Proof.
  intros H i b Hi. unfold chunk in Hi. apply lookup_take_Some in Hi as [Hi _]. rewrite lookup_drop in Hi.
  apply H in Hi. rewrite <- Hi. f_equal. lia.
Qed.

Definition merge (d l : nat) (old inc : list Z) : list Z := splice d (chunk d l inc) old.

Lemma wp_entry l i x m Q : l !! Z.to_nat i = Some x -> 0 <= i -> Q x m -> wp (entry l i) m Q.
Proof. intros H Hi HQ. unfold entry. rewrite (proj2 (Z.leb_le 0 i)), H by lia. by apply wp_ret. Qed.

Lemma wp_append size l x m Q : Z.of_nat (length l) < size -> Q (l ++ [x]) m -> wp (append size l x) m Q.
Proof. intros H HQ. unfold append. rewrite (proj2 (Z.ltb_lt _ size)) by done. by apply wp_ret. Qed.

(** What one pass leaves in [ar]: pointers past the bytes copied. *)
Definition ptrs (cs : list Z) (d : nat) : list Z := (fun c => addr c + Z.of_nat d) <$> cs.

Definition ar_at (cs : list Z) (d l i : nat) : list Z := ptrs (take i cs) (d + l) ++ ptrs (drop i cs) d ++ [tmp].

Lemma ar_at_here cs d l i c : cs !! i = Some c -> ar_at cs d l i !! i = Some (addr c + Z.of_nat d).
Proof.
  intros Hi. pose proof (lookup_lt_Some _ _ _ Hi). unfold ar_at, ptrs.
  rewrite lookup_app_r by (rewrite length_fmap, length_take; lia). rewrite length_fmap, length_take, Nat.min_l, Nat.sub_diag by lia.
  by rewrite (drop_S _ _ _ Hi).
Qed.

Lemma ar_at_next cs d l i c : cs !! i = Some c ->
  ar_at cs d l i !! S i = Some (match cs !! S i with Some c' => addr c' + Z.of_nat d | None => tmp end).
Proof.
  intros Hi. pose proof (lookup_lt_Some _ _ _ Hi). unfold ar_at, ptrs.
  rewrite lookup_app_r by (rewrite length_fmap, length_take; lia). rewrite length_fmap, length_take, Nat.min_l by lia.
  replace (S i - i)%nat with 1%nat by lia. rewrite (drop_S _ _ _ Hi). cbn.
  destruct (cs !! S i) as [c'|] eqn:Hc; [by rewrite (drop_S _ _ _ Hc)|].
  apply lookup_ge_None_1 in Hc. by rewrite drop_ge.
Qed.

Lemma ar_at_step cs d l i c : cs !! i = Some c ->
  <[i := addr c + Z.of_nat d + Z.of_nat l]> (ar_at cs d l i) = ar_at cs d l (S i).
Proof.
  intros Hi. pose proof (lookup_lt_Some _ _ _ Hi). unfold ar_at, ptrs.
  rewrite insert_app_r_alt by (rewrite length_fmap, length_take; lia).
  rewrite length_fmap, length_take, Nat.min_l, Nat.sub_diag by lia.
  rewrite (drop_S _ _ _ Hi), (take_S_r _ _ _ Hi), fmap_app, <- app_assoc. cbn.
  by replace (addr c + Z.of_nat (d + l)) with (addr c + Z.of_nat d + Z.of_nat l) by lia.
Qed.

Lemma wp_cycle_pass m v cs d l x Q :
  holds m v -> NoDup cs -> Forall (fun c => 0 <= c < nel) cs -> Z.of_nat d + Z.of_nat l <= width -> (l <= 256)%nat ->
  element x -> bytes_at m tmp (chunk d l x) -> (length cs < fuel)%nat ->
  (forall m', holds m' (pull (merge d l) cs x v) -> Q (ptrs cs (d + l) ++ [tmp]) m') ->
  wp (cycle_pass (Z.of_nat (length cs)) (Z.of_nat l) (ptrs cs d ++ [tmp])) m Q.
Proof.
  intros Hm Hnd Hcs Hd Hl Hx Htmpx Hlen HQ. unfold cycle_pass. apply wp_bind.
  apply (wp_while (fun s m => exists i v', s = (Z.of_nat i, ar_at cs d l i) /\ (i <= length cs)%nat /\ holds m v' /\
      bytes_at m tmp (chunk d l x) /\ forall c, pull (merge d l) (drop i cs) x v' c = pull (merge d l) cs x v c)
    (fun s => Z.to_nat (Z.of_nat (length cs) - s.1))); [| |cbn; lia].
  2: { exists 0%nat, v. split_and!; try done. lia. }
  intros s m1 (i & v' & -> & Hi & Hm1 & Htmp1 & Heq). apply wp_ret. destruct (_ <? _) eqn:Hlt.
  - destruct (lookup_lt_is_Some_2 cs i ltac:(lia)) as [c Hc]. pose proof (Forall_lookup_1 _ _ _ _ Hcs Hc) as Hcr. cbn beta in Hcr.
    apply wp_bind. eapply wp_entry; [rewrite Nat2Z.id; exact (ar_at_here cs d l i c Hc)|lia|].
    apply wp_bind. eapply wp_entry.
    { replace (Z.to_nat (Z.of_nat i + 1)) with (S i) by lia. exact (ar_at_next cs d l i c Hc). } { lia. }
    set (inc := match cs !! S i with Some c' => v' c' | None => x end).
    assert (Hinc : element inc).
    { unfold inc. destruct (cs !! S i) as [c'|] eqn:Hc'; [|done].
      apply (holds_element _ _ Hm1). exact (Forall_lookup_1 _ _ _ _ Hcs Hc'). }
    pose proof (chunk_length d l inc Hinc Hd) as Hlen'. pose proof (chunk_bytes d l inc Hinc) as Hby.
    pose proof (addr_range c Hcr) as Har. destruct (holds_element _ _ Hm1 c Hcr) as [Hlc Hbc].
    apply wp_bind. assert (Hz : Z.of_nat l = Z.of_nat (length (chunk d l inc))) by (by rewrite Hlen').
    rewrite Hz at 1. apply wp_copy; try done; try lia.
    + unfold inc. destruct (cs !! S i) as [c'|] eqn:Hc'; [|done].
      apply chunk_at, (holds_at _ _ Hm1). exact (Forall_lookup_1 _ _ _ _ Hcs Hc').
    + rewrite Hlen'. eapply mapped_sub; [apply bytes_at_mapped, (holds_at _ _ Hm1 c Hcr)|lia|lia].
    + rewrite Hlen'. destruct (cs !! S i) as [c'|] eqn:Hc'; [|lia].
      assert (c <> c') by (intros ->; by pose proof (NoDup_lookup _ _ _ _ Hnd Hc Hc'); lia).
      pose proof (addr_disjoint c c'). lia.
    + apply wp_ret. split; [|cbn [fst]; lia].
      exists (S i), (upd v' c (merge d l (v' c) inc)). split_and!; [|lia| | |].
      * rewrite Nat2Z.id. f_equal; [lia|]. by rewrite ar_at_step.
      * apply holds_write; [done..|]. lia.
      * intros j b Hj. rewrite lookup_mem_write_out; [by apply Htmp1|]. apply lookup_lt_Some in Hj.
        rewrite chunk_length in Hj by done. lia.
      * intros y. rewrite <- Heq, (drop_S _ _ _ Hc). cbn [pull]. unfold inc.
        destruct (cs !! S i) as [c'|] eqn:Hc'; [by rewrite (drop_S _ _ _ Hc')|].
        apply lookup_ge_None_1 in Hc'. by rewrite drop_ge.
  - assert (i = length cs) as -> by lia. apply wp_ret.
    unfold ar_at. rewrite drop_all, take_ge by lia. cbn. apply HQ.
    apply (holds_ext _ v'); [|done]. intros j _. rewrite <- Heq, drop_all. done.
Qed.

Lemma merge_element d l x y : element x -> element y -> Z.of_nat d + Z.of_nat l <= width -> element (merge d l x y).
Proof. intros Hx Hy Hd. apply splice_element; [done|by apply chunk_bytes|by rewrite chunk_length]. Qed.

(** Bytes [d] to [d + l] more are those of the new element. *)
Lemma merge_progress d l (old inc : list Z) : element old -> element inc -> Z.of_nat d + Z.of_nat l <= width ->
  forall cur cur', take d cur = take d inc -> drop d cur = drop d old -> drop d cur' = drop d inc ->
  merge d l cur cur' = take (d + l) inc ++ drop (d + l) old.
Proof.
  intros Ho Hi Hd cur cur' H1 H2 H3. unfold merge, splice, chunk. rewrite H3.
  change (take l (drop d inc)) with (chunk d l inc). rewrite chunk_length by done.
  rewrite <- drop_drop, H2, drop_drop, H1. unfold chunk. rewrite app_assoc. f_equal.
  apply take_take_drop.
Qed.

Lemma ptrs_0 cs : ptrs cs 0 = addr <$> cs.
Proof. apply list_fmap_ext. intros _ c _. lia. Qed.

(** [cycle] moves the elements. *)
Lemma wp_cycle m v c0 cs Q :
  holds m v -> NoDup (c0 :: cs) -> Forall (fun c => 0 <= c < nel) (c0 :: cs) ->
  Z.of_nat (length (c0 :: cs)) < AR_SIZE ->
  (forall m', holds m' (place (c0 :: cs) (v c0) v) -> Q tt m') ->
  wp (cycle width tmp (addr <$> c0 :: cs)) m Q.
Proof.
  intros Hm Hnd Hcs Hlen HQ. unfold cycle. rewrite length_fmap. destruct (_ <? 2) eqn:H2.
  { apply wp_ret, HQ. apply Z.ltb_lt in H2. destruct cs as [|c1 cs]; [|cbn [length] in H2; lia].
    apply (holds_ext _ v); [|done]. intros i _. cbn [pull]. unfold upd. by case_decide; subst. }
  assert (Hc0 : 0 <= c0 < nel) by (by inversion Hcs). assert (Hw : width <= width * nel) by nia.
  assert (Hfw : (Z.to_nat width < fuel)%nat) by lia. set (L := c0 :: cs) in *.
  assert (Hfl : (length L < fuel)%nat) by (unfold AR_SIZE in Hlen; nia).
  apply wp_bind, wp_append; [by rewrite length_fmap|]. apply wp_bind.
  set (vr := place L (v c0) v) in *. set (W := Z.to_nat width).
  assert (Hnext : forall i, 0 <= i < nel -> element (vr i)).
  { intros i Hi. unfold vr. destruct (decide (i ∈ L)) as [Hin|Hin]; [|rewrite pull_out by done; by apply (holds_element _ _ Hm)].
    apply list_elem_of_lookup in Hin as [j Hj]. rewrite (pull_at _ _ _ _ _ _ Hnd Hj).
    destruct (L !! S j) as [c'|] eqn:Hc'; apply (holds_element _ _ Hm); [exact (Forall_lookup_1 _ _ _ _ Hcs Hc')|done]. }
  apply (wp_while (fun s m => exists d v', s = (Z.of_nat (W - d), ptrs L d ++ [tmp]) /\ (d <= W)%nat /\ holds m v' /\
      forall i, 0 <= i < nel -> v' i = take d (vr i) ++ drop d (v i)) (fun s => Z.to_nat s.1)); [| |cbn [fst]; lia].
  2: { exists 0%nat, v. rewrite ptrs_0. split_and!; try done; [f_equal; lia|lia]. }
  intros s m1 (d & v' & -> & Hd & Hm1 & Hv'). apply wp_ret. destruct (negb _) eqn:Hz.
  2: { apply wp_ret, HQ. apply negb_false_iff, Z.eqb_eq in Hz. assert (d = W) as -> by lia. apply (holds_ext _ v'); [|done].
       intros i Hi. rewrite Hv' by done. destruct (Hnext i Hi) as [Hl1 _]. destruct (holds_element _ _ Hm i Hi) as [Hl2 _].
       by rewrite take_ge, drop_ge, app_nil_r by lia. }
  apply negb_true_iff, Z.eqb_neq in Hz. set (l := Nat.min 256 (W - d)).
  assert (Hl : (if 256 <? Z.of_nat (W - d) then 256 else Z.of_nat (W - d)) = Z.of_nat l).
  { unfold l. destruct (Z.ltb_spec 256 (Z.of_nat (W - d))); lia. }
  rewrite Hl. assert (Hdl : Z.of_nat d + Z.of_nat l <= width) by lia.
  assert (Hx : element (v' c0)) by by apply (holds_element _ _ Hm1).
  apply wp_bind. eapply wp_entry; [|lia|].
  { rewrite Nat2Z.id, lookup_app_r by (unfold ptrs; by rewrite length_fmap). unfold ptrs. by rewrite length_fmap, Nat.sub_diag. }
  apply wp_bind. eapply wp_entry; [reflexivity|lia|]. pose proof (addr_range c0 Hc0).
  destruct Hx as [Hxl Hxb]. apply wp_bind.
  assert (Hq : Z.of_nat l = Z.of_nat (length (chunk d l (v' c0)))) by by rewrite chunk_length.
  rewrite Hq at 1. apply wp_copy; try (rewrite <- Hq); try lia.
  { apply chunk_at, (holds_at _ _ Hm1 c0 Hc0). } { by apply chunk_bytes. }
  { eapply mapped_sub; [apply (holds_tmp _ _ Hm1)|lia|lia]. }
  apply wp_bind. apply (wp_cycle_pass _ v' L d l (v' c0)); try done; try lia.
  { apply holds_write_tmp; [done|lia]. } { apply bytes_at_mem_write. }
  intros m2 Hm2. apply wp_ret. split; [|cbn [fst]; lia].
  exists (d + l)%nat. eexists. split_and!; [f_equal; lia|lia|exact Hm2|].
  intros i Hi. pose proof (holds_element _ _ Hm i Hi) as Hvi.
  assert (Hpre : forall j, 0 <= j < nel -> take d (v' j) = take d (vr j) /\ drop d (v' j) = drop d (v j)).
  { intros j Hj. destruct (Hnext j Hj) as [Hl1 _]. rewrite (Hv' j Hj). split.
    - rewrite take_app_le by (rewrite length_take; lia). rewrite take_take. f_equal. lia.
    - rewrite drop_app_ge by (rewrite length_take; lia). rewrite length_take, Nat.min_l, Nat.sub_diag by lia. done. }
  destruct (decide (i ∈ L)) as [Hin|Hin].
  - apply list_elem_of_lookup in Hin as [j Hj]. rewrite (pull_at _ _ _ _ _ _ Hnd Hj).
    assert (Hvr : vr i = match L !! S j with Some c' => v c' | None => v c0 end) by exact (pull_at (fun _ y => y) L (v c0) v j i Hnd Hj).
    apply (merge_progress d l (v i) (vr i)); try done; [by apply Hnext|by apply Hpre|by apply Hpre|].
    rewrite Hvr. destruct (L !! S j) as [c'|] eqn:Hc'; apply Hpre; [exact (Forall_lookup_1 _ _ _ _ Hcs Hc')|done].
  - rewrite pull_out by done. assert (Hvr : vr i = v i) by (unfold vr; by rewrite pull_out).
    rewrite Hv', Hvr, !take_drop by done. done.
Qed.
End array.
