(* ===== verification/QsortCorrect.v ===== *)
(** [qsort] sorts: stdlib/qsort.c against the mathematics of smoothsort, and
    stdlib/bsearch.c.

    The proofs follow the calls: [sift] and [trinkle] move the elements along
    the paths of Smooth.v; the first loop keeps a forest in which the trees
    that no later element can join have their roots in order, the second loop a
    forest with all roots in order before elements at their final places. *)
From Stdlib Require Import Sorted.
From S2P Require Import Prelude Mem Smooth Qsort QsortBits QsortCycle.

Section qsort_proof.
Context {F : Fuel} (width nel base tmp : Z) (m0 : mem) (cmp : list Z -> list Z -> Z).
Context (Hwidth : 0 < width) (Htmp : tmp + 256 <= base \/ base + width * nel <= tmp).
Context (Hfuel : Z.of_nat fuel > width * nel + 300).

Local Abbreviation addr := (addr width base).
Local Abbreviation holds := (holds width nel base tmp m0).

(** ** The operations *)
Lemma wp_call_cmp m v i j a b Q : holds m v -> 0 <= i < nel -> 0 <= j < nel -> a = addr i -> b = addr j ->
  Q (cmp (v i) (v j)) m -> wp (call_cmp width cmp a b) m Q.
Proof.
  intros Hm Hi Hj -> -> HQ. unfold call_cmp.
  destruct (holds_element _ _ _ _ _ _ _ Hm i Hi) as [Hl1 _]. destruct (holds_element _ _ _ _ _ _ _ Hm j Hj) as [Hl2 _].
  apply wp_bind, (wp_loadn _ _ (v i)); [by apply Hm|lia|]. apply wp_bind, (wp_loadn _ _ (v j)); [by apply Hm|lia|].
  by apply wp_ret.
Qed.

(** [lp] has the Leonardo numbers that matter. *)
Definition lp_ok (lp : list Z) : Prop := forall k, leo k <= nel -> lp !! k = Some (width * leo k).

Lemma wp_lp lp i k m Q : lp_ok lp -> leo k <= nel -> i = Z.of_nat k -> Q (width * leo k) m -> wp (entry lp i) m Q.
Proof. intros Hlp Hk -> HQ. eapply wp_entry; [rewrite Nat2Z.id; by apply Hlp|lia|done]. Qed.

Lemma wp_sift m v r k lp Q :
  holds m v -> lp_ok lp -> (k <= 64)%nat -> 0 <= r - leo k + 1 -> r < nel ->
  (forall m', holds m' (sifted cmp k r (v r) v) -> Q tt m') ->
  wp (sift width cmp tmp (addr r) (Z.of_nat k) lp) m Q.
Proof.
  intros Hm Hlp Hk Hlo Hhi HQ. unfold sift. apply wp_bind. set (x := v r) in *.
  set (path := r :: sift_path cmp k r x v). pose proof (leo_pos k) as [Lk _].
  apply (wp_loop (fun s m1 => m1 = m /\ exists r' k' pre, s = (addr r', Z.of_nat k', addr <$> pre) /\
      pre ++ sift_path cmp k' r' x v = path /\ pre !! 0%nat = Some r /\ (length pre + k' <= S k)%nat /\
      0 <= r' - leo k' + 1 /\ r' < nel) (fun s => Z.to_nat s.1.2)); [| |cbn [fst snd]; nia].
  2: { split; [done|]. exists r, k, [r]. by split_and!. }
  intros s m1 [-> (r' & k' & pre & -> & Hpath & Hpre & Hlen & Hr1 & Hr2)].
  assert (Hend : sift_path cmp k' r' x v = [] -> wp (cycle width tmp (addr <$> pre)) m Q).
  { intros Hnil. rewrite Hnil, app_nil_r in Hpath. rewrite Hpath. apply (wp_cycle width nel base tmp m0 Hwidth Htmp Hfuel m v); try done.
    - apply sift_path_NoDup.
    - constructor; [lia|]. eapply Forall_impl; [|apply sift_path_range]. cbn. lia.
    - pose proof (sift_path_length cmp k r x v). unfold AR_SIZE. cbn [length]. lia. }
  destruct (Z.of_nat k' >? 1) eqn:Hk1; rewrite Z.gtb_ltb in Hk1.
  2: { apply wp_ret, Hend. apply Z.ltb_ge in Hk1. by destruct k' as [|[|k']]; [..|lia]. }
  apply Z.ltb_lt in Hk1. destruct k' as [|[|k']]; [lia..|]. clear Hk1. rewrite leo_SS in Hr1.
  rewrite sift_path_SS in Hpath, Hend. pose proof (leo_pos k') as [L0 L1].
  apply wp_bind, (wp_lp lp _ k'); [done|lia|lia|]. cbn zeta.
  apply wp_bind. eapply wp_entry; [rewrite list_lookup_fmap; change (Z.to_nat 0) with 0%nat; rewrite Hpre; reflexivity|lia|].
  assert (Hlf : addr r' - width - width * leo k' = addr (r' - 1 - leo k')) by (unfold QsortCycle.addr; ring).
  assert (Hrt : addr r' - width = addr (r' - 1)) by (unfold QsortCycle.addr; ring). rewrite Hlf, Hrt.
  set (lf := r' - 1 - leo k') in *. set (rt := r' - 1) in *.
  apply wp_bind, (wp_call_cmp m v r lf); try done; try lia. fold x. rewrite Z.geb_leb. apply wp_bind.
  eapply wp_mono; [apply (wp_andM _ _ _ (fun b m' => b = (0 <=? cmp x (v lf)) && (0 <=? cmp x (v rt)) /\ m' = m))|].
  { intros ->. apply wp_bind, (wp_call_cmp m v r rt); try done; try lia. apply wp_ret. by rewrite Z.geb_leb. }
  { by intros ->. }
  intros stop m' [-> ->]. destruct (_ && _) eqn:Hstop; [by apply wp_ret, Hend|]. clear Hend.
  apply wp_bind, (wp_call_cmp m v lf rt); try done; try lia. rewrite Z.geb_leb.
  assert (Hlen' : Z.of_nat (length (addr <$> pre)) < AR_SIZE) by (rewrite length_fmap; unfold AR_SIZE; lia).
  destruct (0 <=? cmp (v lf) (v rt)); apply wp_bind, wp_append; try done; apply wp_ret; (split; [|cbn [fst snd]; lia]);
    (split; [done|]).
  - exists lf, (S k'), (pre ++ [lf]). rewrite fmap_app, <- app_assoc, length_app.
    split_and!; try done; [f_equal; f_equal; lia|by apply lookup_app_l_Some|cbn [length]; lia..].
  - exists rt, k', (pre ++ [rt]). rewrite fmap_app, <- app_assoc, length_app.
    split_and!; try done; [f_equal; f_equal; lia|by apply lookup_app_l_Some|cbn [length]; lia..].
Qed.

Lemma increasing_length k os : increasing k os -> (length os + k <= 64)%nat.
Proof. revert k. induction os as [|o os IH]; intros k; cbn [increasing length]; [lia|]. intros [? ?%IH]. lia. Qed.

Lemma orders_ok_tail k o os : orders_ok k (o :: os) -> orders_ok o os.
Proof. intros [[H1 H2] _]. split; [done|]. lia. Qed.

Lemma wp_trinkle m v r k os t lp Q :
  holds m v -> lp_ok lp -> orders_ok k os -> 0 <= r - size (k :: os) + 1 -> r < nel ->
  (forall m', holds m' (trinkled cmp t k r os v) -> Q tt m') ->
  wp (trinkle width cmp tmp (addr r) (words (enc k os)) (Z.of_nat k) t lp) m Q.
Proof.
  intros Hm Hlp Hok Hlo Hhi HQ. unfold trinkle. apply wp_bind. set (x := v r) in *.
  destruct (trinkle_path cmp t k r os x v) as [[[path rf] kf] tf] eqn:Hp.
  pose proof (trinkle_path_spec _ _ _ _ _ _ _ _ _ _ _ Hp) as (P1 & P2 & P3 & P4 & P5 & P6 & P7 & P8).
  pose proof (increasing_length _ _ (proj1 Hok)) as Hlen0. pose proof (leo_pos k) as [Lk _]. pose proof (size_nonneg os) as Hsz.
  assert (Hwn : 0 <= width * nel) by (cbn [size] in Hlo; nia).
  assert (Hdone : wp (if tf then mret tt else cycle width tmp (addr <$> r :: path);; sift width cmp tmp (addr rf) (Z.of_nat kf) lp) m Q).
  { unfold trinkled in HQ. fold x in HQ. rewrite Hp in HQ. destruct tf; [by apply wp_ret, HQ|]. cbn [size] in *.
    apply wp_bind, (wp_cycle width nel base tmp m0 Hwidth Htmp Hfuel m v); try done.
    - constructor; [lia|]. eapply Forall_impl; [|exact P2]. cbn. lia.
    - unfold AR_SIZE. cbn [length]. lia.
    - intros m1 Hm1. fold x in Hm1. set (w := place (r :: path) x v) in *.
      assert (Hkf : (kf <= 64)%nat).
      { clear - P5 Hok. destruct Hok as [Hok _]. revert k Hok P5. induction os as [|o os IH]; intros k Hok Hin.
        - apply list_elem_of_singleton in Hin as ->. done.
        - apply elem_of_cons in Hin as [-> | Hin]; [by eapply increasing_le|]. destruct Hok as [_ Hok]. by apply (IH o). }
      apply (wp_sift m1 w rf kf); try done; try lia. intros m2 Hm2. apply HQ. unfold settled. fold w.
      by rewrite (place_last _ x v rf P1 P4 : w rf = x) in Hm2. }
  apply (wp_loop (fun s m1 => m1 = m /\ exists r' k' os' t' pre p1,
      s = (addr r', words (enc k' os'), Z.of_nat k', t', addr <$> pre) /\ orders_ok k' os' /\
      trinkle_path cmp t' k' r' os' x v = (p1, rf, kf, tf) /\ pre ++ p1 = r :: path /\ pre !! 0%nat = Some r /\
      (length pre + length os' <= S (length os))%nat /\ 0 <= r' - size (k' :: os') + 1 /\ r' < nel)
    (fun s => S (length os) - length s.2)%nat); [| |cbn [snd]; lia].
  2: { split; [done|]. exists r, k, os, t, [r], path. by split_and!. }
  intros s m1 [-> (r' & k' & os' & t' & pre & p1 & -> & Hok' & Hp' & Hpre & Hpre0 & Hlen & Hr1 & Hr2)].
  assert (Hend : trinkle_path cmp t' k' r' os' x v = ([], r', k', t') ->
    wp (if t' then mret tt else cycle width tmp (addr <$> pre);; sift width cmp tmp (addr r') (Z.of_nat k') lp) m Q).
  { intros Hst. rewrite Hst in Hp'. injection Hp' as <- <- <- <-. rewrite app_nil_r in Hpre. rewrite Hpre. exact Hdone. }
  rewrite enc_one by apply Hok'. destruct os' as [|o os']; [by apply wp_ret, Hend|].
  cbn [trinkle_path size] in *. pose proof (leo_pos k') as [Lk' _]. pose proof (leo_pos o) as [Lo _]. pose proof (size_nonneg os').
  apply wp_bind, (wp_lp lp _ k'); [done|lia|done|]. cbn zeta.
  assert (Hs : addr r' - width * leo k' = addr (r' - leo k')) by (unfold QsortCycle.addr; ring). rewrite Hs.
  assert (Hsr : 0 <= r' - leo k' < nel) by lia. set (s := r' - leo k') in *.
  apply wp_bind. eapply wp_entry; [rewrite list_lookup_fmap; change (Z.to_nat 0) with 0%nat; rewrite Hpre0; reflexivity|lia|].
  apply wp_bind, (wp_call_cmp m v s r); try done; try lia. fold x.
  destruct (cmp (v s) x <=? 0); [by apply wp_ret, Hend|].
  apply wp_bind. eapply wp_mono; [apply (wp_andM _ _ _ (fun b m' => b = negb t' && (1 <? k')%nat &&
      ((0 <=? cmp (v (r' - 1)) (v s)) || (0 <=? cmp (v (r' - 1 - leo (k' - 2))) (v s))) /\ m' = m))|].
  { intros Ht. apply andb_true_iff in Ht as [-> Hk]. rewrite Z.gtb_ltb in Hk. apply Z.ltb_lt in Hk.
    destruct k' as [|[|k']]; [lia..|]. cbn [Nat.sub negb andb Nat.ltb Nat.leb]. rewrite Nat.sub_0_r, leo_SS in *. pose proof (leo_pos k') as [L0 L1].
    apply wp_bind, (wp_lp lp _ k'); [done|lia|lia|].
    assert (Hlf : addr r' - width - width * leo k' = addr (r' - 1 - leo k')) by (unfold QsortCycle.addr; ring).
    assert (Hrt : addr r' - width = addr (r' - 1)) by (unfold QsortCycle.addr; ring). rewrite Hlf, Hrt.
    apply wp_bind, (wp_call_cmp m v (r' - 1) s); try done; try lia. cbn beta. rewrite Z.geb_leb.
    destruct (0 <=? cmp (v (r' - 1)) (v s)); [by apply wp_ret|].
    apply wp_bind, (wp_call_cmp m v (r' - 1 - leo k') s); try done; try lia. apply wp_ret. by rewrite Z.geb_leb. }
  { intros Ht. apply andb_false_iff in Ht as [-> | Hk]; [done|]. rewrite Z.gtb_ltb in Hk. apply Z.ltb_ge in Hk.
    destruct k' as [|[|k']]; [by rewrite andb_false_r..|lia]. }
  intros stop m' [-> ->]. destruct (negb t' && _ && _); [by apply wp_ret, Hend|]. clear Hend Hdone.
  destruct (pntz_enc k' o os' Hok') as [Hpz Hd]. destruct (trinkle_path cmp false o s os' x v) as [[[p2 r2] k2] t2] eqn:Hp2.
  injection Hp' as <- -> -> ->. cbn [length] in Hlen.
  apply wp_bind, wp_append; [rewrite length_fmap; unfold AR_SIZE; lia|]. rewrite Hpz. apply wp_bind.
  destruct (enc_range128 k' (o :: os') 0 (proj1 Hok') ltac:(lia)) as [E1 E2].
  apply shr_words; [done|lia|]. rewrite enc_div by apply Hok'. apply wp_ret.
  split; [|rewrite !length_fmap || cbn [snd]; rewrite length_app, !length_fmap; cbn [length]; lia]. split; [done|].
  exists s, o, os', false, (pre ++ [s]), p2. rewrite fmap_app, <- app_assoc, length_app.
  split_and!; try done; [f_equal; f_equal; f_equal; lia|by eapply orders_ok_tail|by apply lookup_app_l_Some|cbn [length]; lia..].
Qed.

(** ** The bounds *)
Context (Hnel : nel < 55555780070575) (Hsize : 3 * (width * nel) < 2 ^ 64).

Lemma order_bound k : leo k <= nel -> (k <= 64)%nat.
Proof.
  intros Hk. destruct (decide (k <= 64)%nat) as [|Hgt]; [done|]. pose proof (leo_le 65 k ltac:(lia)) as H.
  rewrite leo_65 in H. lia.
Qed.

Definition leos (n : nat) : list Z := (fun k => width * leo k) <$> seq 0 n.

Lemma leos_lookup n k : (k < n)%nat -> leos n !! k = Some (width * leo k).
Proof. intros Hk. unfold leos. by rewrite list_lookup_fmap, lookup_seq_lt. Qed.

Lemma wp_leonardo m Q : 1 <= nel -> (forall lp, lp_ok lp -> Q lp m) -> wp (leonardo width (width * nel)) m Q.
Proof.
  intros H1 HQ. unfold leonardo.
  apply (wp_loop (fun lp m1 => m1 = m /\ exists n, lp = leos (S (S n)) /\ forall j, (2 <= j <= S n)%nat -> leo j < nel)
    (fun lp => 100 - length lp)%nat); [| |cbn [length]; nia].
  2: { split; [done|]. exists 0%nat. split; [unfold leos; cbn; by rewrite Z.mul_1_r|lia]. }
  intros lp m1 [-> (n & -> & Hn)].
  assert (Hlen : forall n, length (leos n) = n) by (intros; unfold leos; by rewrite length_fmap, length_seq).
  rewrite Hlen. assert (Hle : leo (S n) <= nel).
  { destruct n as [|n]; [cbn; lia|]. specialize (Hn (S (S n))). lia. }
  pose proof (order_bound _ Hle) as Hb. pose proof (leo_pos n) as [L0 L1]. pose proof (leo_le n (S n) ltac:(lia)).
  apply wp_bind. eapply wp_entry; [|lia|].
  { replace (Z.to_nat (Z.of_nat (S (S n)) - 2)) with n by lia. apply leos_lookup. lia. }
  apply wp_bind. eapply wp_entry; [|lia|].
  { replace (Z.to_nat (Z.of_nat (S (S n)) - 1)) with (S n) by lia. apply leos_lookup. lia. }
  assert (Hx : u64 (width * leo n + width * leo (S n) + width) = width * leo (S (S n))).
  { rewrite leo_SS, u64_id; [ring|]. nia. }
  cbn zeta. rewrite Hx. apply wp_bind, wp_append; [rewrite Hlen; unfold LP_SIZE; lia|].
  assert (Hs : leos (S (S n)) ++ [width * leo (S (S n))] = leos (S (S (S n)))).
  { unfold leos. rewrite (seq_S (S (S n))), fmap_app. done. }
  rewrite Hs. destruct (_ <? _) eqn:Hlt; apply wp_ret.
  - apply Z.ltb_lt in Hlt. split; [|rewrite !Hlen; lia]. split; [done|]. exists (S n). split; [done|].
    intros j Hj. destruct (decide (j = S (S n))) as [->|]; [nia|]. apply Hn. lia.
  - apply Z.ltb_ge in Hlt. apply HQ. intros k Hk. apply leos_lookup.
    destruct (decide (k < S (S (S n)))%nat); [done|]. pose proof (leo_lt (S (S n)) k ltac:(lia) ltac:(lia)). nia.
Qed.

(** ** Building the forest *)

(** Orders at least 2 apart. *)
Fixpoint gaps (os : list nat) : Prop :=
  match os with o :: ((o' :: _) as os') => (o + 2 <= o')%nat /\ gaps os' | _ => True end.

(** Heaps; the root of a tree that the elements left cannot join to another
    tree is not below the root before it. *)
Fixpoint built (os : list nat) r (v : Z -> list Z) : Prop :=
  match os with
  | [] => True
  | o :: os' => heap cmp o r v /\ built os' (r - leo o) v /\
      (os' <> [] -> nel - 1 - r <= leo (o - 1) -> cmp (v (r - leo o)) (v r) <= 0)
  end.

Lemma gaps_tail o os : gaps (o :: os) -> gaps os.
Proof. destruct os; [done|]. by intros [_ H]. Qed.

Lemma built_ext os r v w : (forall i, r - size os < i <= r -> v i = w i) -> built os r v -> built os r w.
Proof.
  revert r. induction os as [|o os IH]; intros r Hvw; [done|]. cbn [built size] in *.
  pose proof (leo_pos o) as [L0 _]. pose proof (size_nonneg os). intros (H1 & H2 & H3). split; [|split].
  - apply (heap_ext cmp o r v); [|done]. intros. apply Hvw. lia.
  - apply (IH (r - leo o)); [|done]. intros. apply Hvw. lia.
  - intros Hne. destruct os as [|o' os]; [done|]. cbn [size] in *. pose proof (leo_pos o') as [? _].
    pose proof (size_nonneg os). rewrite <- !Hvw by lia. by apply H3.
Qed.

Lemma forest_built os r v : forest cmp os r v -> built os r v.
Proof.
  revert r. induction os as [|o os IH]; intros r; [done|]. intros (H1 & H2 & H3). split; [done|]. split; [by apply IH|].
  intros Hne _. by apply H3.
Qed.

Lemma built_forest o os r v : (1 <= o)%nat -> gaps (o :: os) -> nel - 1 - r <= leo (o - 1) -> built (o :: os) r v -> forest cmp (o :: os) r v.
Proof.
  revert o r. induction os as [|o' os IH]; intros o r Ho Hg Hc (H1 & H2 & H3); [done|].
  split; [done|]. split; [|by intros; apply H3]. destruct Hg as [Hg1 Hg2]. apply IH; [lia|done| |done].
  destruct o as [|o]; [lia|]. cbn [Nat.sub] in Hc. rewrite Nat.sub_0_r in Hc.
  pose proof (leo_le (S (S o)) (o' - 1) ltac:(lia)) as Hl. rewrite leo_SS in Hl. lia.
Qed.

Record building (v0 : Z -> list Z) (h : Z) (k : nat) (os : list nat) (m : mem) (v : Z -> list Z) : Prop := {
  bu_holds : holds m v;
  bu_perm : elems v nel ≡ₚ elems v0 nel;
  bu_orders : orders_ok k os;
  bu_gaps : gaps os;
  bu_size : size (k :: os) = h + 1;
  bu_last : h <= nel - 1;
  bu_order : Consistent cmp -> heap_below cmp k h v /\ built os (h - leo k) v }.

Lemma enc_merge k os : increasing k (S k :: os) -> gaps (S k :: os) ->
  exists X, 0 <= X /\ enc k (S k :: os) / 2 ^ 2 = 2 * X /\ enc (S (S k)) os = 2 * X + 1.
Proof.
  intros [_ Hi] Hg. cbn [enc]. replace (Z.of_nat (S k) - Z.of_nat k) with 1 by lia.
  destruct os as [|o os]; [by exists 0|]. destruct Hg as [Hg _], Hi as [_ Hi]. destruct (enc_range o os Hi) as [He _]. cbn [enc].
  set (E := enc o os) in *. exists (2 ^ (Z.of_nat o - Z.of_nat k - 3) * E). split; [lia|].
  replace (Z.of_nat o - Z.of_nat (S k)) with (Z.of_nat o - Z.of_nat k - 3 + 2) by lia.
  replace (Z.of_nat o - Z.of_nat (S (S k))) with (Z.of_nat o - Z.of_nat k - 3 + 1) by lia.
  rewrite !Z.pow_add_r by lia. split; [|lia].
  replace (1 + 2 ^ 1 * (1 + 2 ^ (Z.of_nat o - Z.of_nat k - 3) * 2 ^ 2 * E))
    with (3 + 2 * (2 ^ (Z.of_nat o - Z.of_nat k - 3) * E) * 2 ^ 2) by (change (2 ^ 2) with 4; lia).
  by rewrite Z.div_add by lia.
Qed.

Lemma addr_lt i j : addr i < addr j <-> i < j.
Proof. unfold QsortCycle.addr. split; intros; nia. Qed.

(** The end of a step: bit 0 is set and the next element is the head. *)
Lemma build_end v0 h X k os m v (Q : Z * (Z * Z) * Z -> mem -> Prop) :
  0 <= X -> enc k os = 2 * X + 1 -> building v0 (h + 1) k os m v ->
  (forall k' os' m' v', building v0 (h + 1) k' os' m' v' -> Q (addr (h + 1), words (enc k' os'), Z.of_nat k') m') ->
  wp (mret (addr h + width, (Z.lor (words (2 * X)).1 1, (words (2 * X)).2), Z.of_nat k)) m Q.
Proof.
  intros HX He Hb HQ. apply wp_ret. rewrite words_lor_1, <- He by done.
  replace (addr h + width) with (addr (h + 1)) by (unfold QsortCycle.addr; ring). by apply (HQ _ _ _ v).
Qed.

(** Two trees and the next element form a tree. *)
Lemma build_merge v0 h k os m v lp Q :
  building v0 h k (S k :: os) m v -> lp_ok lp -> h < nel - 1 ->
  (forall k' os' m' v', building v0 (h + 1) k' os' m' v' -> Q (addr (h + 1), words (enc k' os'), Z.of_nat k') m') ->
  wp (sift width cmp tmp (addr h) (Z.of_nat k) lp;; p ← shr (words (enc k (S k :: os))) 2; mret (p, Z.of_nat k + 2)) m
    (fun r m' => wp (let '(p, pshift) := r in mret (addr h + width, (Z.lor p.1 1, p.2), pshift)) m' Q).
Proof.
  intros [Hm Hperm Hok Hg Hsz Hlast Hord] Hlp Hlt HQ. cbn [size] in Hsz.
  pose proof (increasing_le _ _ (proj1 Hok)) as Hk64. destruct (enc_range128 k (S k :: os) 0 (proj1 Hok) ltac:(lia)) as [E1 E2].
  pose proof (size_nonneg os) as Hs1. pose proof (leo_pos k) as [Lk LSk].
  apply wp_bind, (wp_sift m v h k); try done; try lia. intros m1 Hm1.
  apply wp_bind, shr_words; [lia|lia|]. destruct (enc_merge k os (proj1 Hok) Hg) as (X & HX & -> & HX').
  apply wp_ret. replace (Z.of_nat k + 2) with (Z.of_nat (S (S k))) by lia.
  assert (HkSS : (S (S k) <= 64)%nat) by (apply order_bound; rewrite leo_SS; lia).
  apply (build_end v0 h X (S (S k)) os m1 (sifted cmp k h (v h) v)); try done. split; [exact Hm1| | | | |lia|].
  - by rewrite sifted_perm by lia.
  - split; [|lia]. destruct Hok as [[_ Hi] _]. destruct os as [|o os]; [done|].
    destruct Hg as [Hg _], Hi as [_ Hi]. split; [lia|done].
  - by apply gaps_tail in Hg.
  - cbn [size]. rewrite leo_SS. lia.
  - intros HC. destruct (Hord HC) as [Hb (Hb1 & Hb2 & _)]. rewrite leo_SS.
    destruct (sifted_heap cmp k h (v h) v Hb) as [Hh _].
    replace (h + 1 - (leo (S k) + leo k + 1)) with (h - leo k - leo (S k)) by lia. split.
    + cbn [heap_below]. replace (h + 1 - 1) with h by lia. split; [done|].
      apply (heap_ext cmp (S k) _ v); [|done]. intros. symmetry. apply sifted_out. lia.
    + apply (built_ext os _ v); [|done]. intros. symmetry. apply sifted_out. lia.
Qed.

(** The next element starts a tree of its own. *)
Lemma build_new v0 h k os m v Q :
  holds m v -> elems v nel ≡ₚ elems v0 nel -> orders_ok k os -> (1 <= k)%nat -> gaps (k :: os) -> size (k :: os) = h + 1 ->
  h < nel - 1 -> (Consistent cmp -> built (k :: os) h v) ->
  (forall k' os' m' v', building v0 (h + 1) k' os' m' v' -> Q (addr (h + 1), words (enc k' os'), Z.of_nat k') m') ->
  wp (if Z.of_nat k =? 1 then p ← shl (words (enc k os)) 1; mret (p, 0)
      else p ← shl (words (enc k os)) (Z.of_nat k - 1); mret (p, 1)) m
    (fun r m' => wp (let '(p, pshift) := r in mret (addr h + width, (Z.lor p.1 1, p.2), pshift)) m' Q).
Proof.
  intros Hm Hp Hok Hk1 Hg Hsz Hlt Hb HQ. cbn [size] in Hsz. pose proof (increasing_le _ _ (proj1 Hok)) as Hk64.
  assert (Hnew : forall k', (k' < k)%nat -> (k' = 0%nat -> k = 1%nat) -> leo k' = 1 -> building v0 (h + 1) k' (k :: os) m v).
  { intros k' Hlt' H0 Hl. split; [done|done| |done|cbn [size]; lia|lia|].
    - split; [split; [lia|apply Hok]|]. intros ->. rewrite (H0 eq_refl). by eexists.
    - intros HC. rewrite Hl. replace (h + 1 - 1) with h by lia. split; [|by apply Hb].
      destruct k' as [|[|k']]; [done..|]. rewrite leo_SS in Hl. pose proof (leo_pos k'). lia. }
  destruct (Z.of_nat k =? 1) eqn:Hk.
  - apply Z.eqb_eq in Hk. assert (k = 1%nat) as -> by lia. destruct (enc_range128 1 os 1 (proj1 Hok) ltac:(lia)) as [E3 E4].
    apply wp_bind, shl_words; [lia|lia|lia|]. apply wp_ret. rewrite Z.pow_1_r, Z.mul_comm. change 0 with (Z.of_nat 0).
    apply (build_end v0 h (enc 1 os) 0 (1%nat :: os) m v); [lia| |by apply Hnew; [lia|..]|done].
    cbn [enc]. change (Z.of_nat 1 - Z.of_nat 0) with 1. lia.
  - apply Z.eqb_neq in Hk. destruct (enc_range128 k os (Z.of_nat k - 1) (proj1 Hok) ltac:(lia)) as [E3 E4].
    apply wp_bind, shl_words; [lia|lia|lia|]. apply wp_ret.
    assert (Hp2 : 2 ^ (Z.of_nat k - 1) = 2 * 2 ^ (Z.of_nat k - 2)) by (rewrite <- Z.pow_succ_r by lia; f_equal; lia).
    rewrite Hp2. replace (enc k os * (2 * 2 ^ (Z.of_nat k - 2))) with (2 * (2 ^ (Z.of_nat k - 2) * enc k os)) by lia.
    change 1 with (Z.of_nat 1) at 2.
    apply (build_end v0 h (2 ^ (Z.of_nat k - 2) * enc k os) 1 (k :: os) m v); [lia| |by apply Hnew; [lia|lia|]|done].
    cbn [enc]. change (Z.of_nat 1) with 1. rewrite Hp2. lia.
Qed.

(** The tree stays as it is: its root is put in order if no later element can
    join it to another tree. *)
Lemma build_settle h k os m v lp Q :
  holds m v -> orders_ok k os -> (1 <= k)%nat -> gaps (k :: os) -> size (k :: os) = h + 1 -> h < nel - 1 -> lp_ok lp ->
  (Consistent cmp -> heap_below cmp k h v /\ built os (h - leo k) v) ->
  (forall m' v', holds m' v' -> elems v' nel ≡ₚ elems v nel -> (Consistent cmp -> built (k :: os) h v') -> Q tt m') ->
  wp (d ← entry lp (Z.of_nat k - 1);
      if d >=? u64 (addr (nel - 1) - addr h) then trinkle width cmp tmp (addr h) (words (enc k os)) (Z.of_nat k) false lp
      else sift width cmp tmp (addr h) (Z.of_nat k) lp) m Q.
Proof.
  intros Hm Hok Hk1 Hg Hsz Hlt Hlp Hord HQ. cbn [size] in Hsz. pose proof (size_nonneg os) as Hs0.
  pose proof (leo_pos k) as [Lk _]. pose proof (leo_le (k - 1) k ltac:(lia)) as Hlk.
  apply wp_bind, (wp_lp lp _ (k - 1)); [done|lia|lia|].
  assert (Hhi : u64 (addr (nel - 1) - addr h) = width * (nel - 1 - h)) by (unfold QsortCycle.addr; rewrite u64_id; nia).
  rewrite Hhi, Z.geb_leb. destruct (_ <=? _) eqn:Hfin.
  - apply Z.leb_le in Hfin. apply (wp_trinkle m v h k os false); try done; try (cbn [size]; lia). intros m1 Hm1.
    apply (HQ m1 _ Hm1); [apply trinkled_perm; cbn [size]; lia|].
    intros HC. destruct (Hord HC) as [Hb1 Hb2]. apply forest_built, trinkled_forest; try done.
    destruct os as [|o os]; [done|]. apply built_forest; [|by apply gaps_tail in Hg| |done].
    + destruct Hok as [[Hi _] _]. lia.
    + destruct Hg as [Hg1 _]. destruct k as [|k]; [lia|]. cbn [Nat.sub] in Hfin. rewrite Nat.sub_0_r in Hfin.
      pose proof (leo_le (S (S k)) (o - 1) ltac:(lia)) as Hl. rewrite leo_SS in Hl. nia.
  - apply Z.leb_gt in Hfin. pose proof (increasing_le _ _ (proj1 Hok)). apply (wp_sift m v h k); try done; try lia. intros m1 Hm1.
    apply (HQ m1 _ Hm1); [apply sifted_perm; lia|].
    intros HC. destruct (Hord HC) as [Hb1 Hb2]. destruct (sifted_heap cmp k h (v h) v Hb1) as [Hh _].
    split; [done|]. split; [|intros _; nia].
    apply (built_ext os _ v); [|done]. intros. symmetry. apply sifted_out. lia.
Qed.

(** One element joins. *)
Lemma wp_build_step v0 h k os m v lp Q :
  building v0 h k os m v -> lp_ok lp -> h < nel - 1 ->
  (forall k' os' m' v', building v0 (h + 1) k' os' m' v' -> Q (addr (h + 1), words (enc k' os'), Z.of_nat k') m') ->
  wp (build_step width cmp tmp (addr (nel - 1)) lp (addr h, words (enc k os), Z.of_nat k)) m Q.
Proof.
  intros Hb Hlp Hlt HQ. pose proof Hb as [Hm Hperm Hok Hg Hsz Hlast Hord]. unfold build_step. apply wp_bind.
  rewrite enc_adjacent by apply Hok. destruct (match os with [] => false | o :: _ => Nat.eqb o (S k) end) eqn:Hadj.
  { destruct os as [|o os]; [done|]. apply Nat.eqb_eq in Hadj as ->. by eapply build_merge. }
  assert (Hk1 : (1 <= k)%nat).
  { destruct k; [|lia]. destruct Hok as [_ H0]. destruct (H0 eq_refl) as [os' ->]. done. }
  assert (Hg' : gaps (k :: os)).
  { destruct os as [|o os]; [done|]. apply Nat.eqb_neq in Hadj. destruct Hok as [[Hi _] _]. split; [lia|done]. }
  apply wp_bind_bind, (build_settle h k os m v lp); try done.
  intros m1 v1 Hm1 Hp1 Hb1. apply (build_new v0 h k os m1 v1); try done. by rewrite Hp1.
Qed.

(** ** Emptying the forest *)
Record emptying (v0 : Z -> list Z) (h : Z) (k : nat) (os : list nat) (m : mem) (v : Z -> list Z) : Prop := {
  em_holds : holds m v;
  em_perm : elems v nel ≡ₚ elems v0 nel;
  em_orders : orders_ok k os;
  em_size : size (k :: os) = h + 1;
  em_last : h <= nel - 1;
  em_order : Consistent cmp -> forest cmp (k :: os) h v /\
    forall j, h < j < nel -> Forall (fun x => cmp x (v j) <= 0) (elems v j) }.

Lemma elems_Forall {P : list Z -> Prop} v n : (forall i, 0 <= i < n -> P (v i)) -> Forall P (elems v n).
Proof. intros H. apply list.Forall_forall. intros x (i & -> & Hi%elem_of_seqZ)%list_elem_of_fmap. apply H. lia. Qed.

(** The order of the places that have been left, after moves before them. *)
Lemma emptying_order h k os v w : forest cmp (k :: os) h v -> size (k :: os) = h + 1 -> Consistent cmp ->
  (forall j, h < j < nel -> Forall (fun x => cmp x (v j) <= 0) (elems v j)) ->
  (forall j, h <= j -> w j = v j) -> (forall j, h <= j -> elems w j ≡ₚ elems v j) ->
  forall j, h - 1 < j < nel -> Forall (fun x => cmp x (w j) <= 0) (elems w j).
Proof.
  intros Hf Hsz HC Hv Hw Hp j Hj. rewrite Hw, Hp by lia. destruct (decide (j = h)) as [->|]; [|apply Hv; lia].
  apply elems_Forall. intros i Hi. apply (forest_max cmp (k :: os)); [done|lia].
Qed.

(** A root is removed: its children become trees. *)
Lemma enc_split k os : increasing (S (S k)) os ->
  exists X, 0 <= X /\ enc (S (S k)) os = 2 * X + 1 /\ enc (S k) os = 4 * X + 1 /\ enc k (S k :: os) = 2 * enc (S k) os + 1.
Proof.
  intros Hi. destruct (enc_odd _ os Hi) as (X & HX & HX0). exists X. split_and!; [done|done| |].
  - destruct os as [|o os]; cbn [enc] in *; [lia|]. replace (Z.of_nat o - Z.of_nat (S k)) with (Z.succ (Z.of_nat o - Z.of_nat (S (S k)))) by lia.
    destruct Hi as [Hi _]. rewrite Z.pow_succ_r by lia. lia.
  - cbn [enc]. replace (Z.of_nat (S k) - Z.of_nat k) with 1 by lia. lia.
Qed.

Lemma wp_extract_step v0 h k os m v lp Q :
  emptying v0 h k os m v -> lp_ok lp -> (k = 1%nat -> os <> []) ->
  (forall k' os' m' v', emptying v0 (h - 1) k' os' m' v' -> Q (addr (h - 1), words (enc k' os'), Z.of_nat k') m') ->
  wp (extract_step width cmp tmp lp (addr h, words (enc k os), Z.of_nat k)) m Q.
Proof.
  intros [Hm Hperm Hok Hsz Hlast Hord] Hlp Hne HQ. unfold extract_step. apply wp_bind.
  pose proof (leo_pos k) as [Lk _]. pose proof (size_nonneg os) as Hs0. cbn [size] in Hsz.
  assert (Hprev : forall i, addr i - width = addr (i - 1)) by (intros; unfold QsortCycle.addr; ring). rewrite Hprev.
  destruct (enc_range128 k os 2 (proj1 Hok) ltac:(lia)) as [E1 E2].
  destruct (Z.of_nat k <=? 1) eqn:Hk.
  - apply Z.leb_le in Hk. assert (Hleo : leo k = 1) by (by destruct k as [|[|k]]; [..|lia]).
    destruct os as [|o os].
    { destruct k as [|[|k]]; [|by destruct (Hne eq_refl)|lia]. destruct Hok as [_ H0]. by destruct (H0 eq_refl). }
    destruct (pntz_enc k o os Hok) as [Hpz Hd]. rewrite Hpz. apply wp_bind, shr_words; [done|lia|].
    rewrite enc_div by apply Hok. apply wp_ret. replace (Z.of_nat k + (Z.of_nat o - Z.of_nat k)) with (Z.of_nat o) by lia.
    apply wp_ret, (HQ o os m v). split; [done|done|by eapply orders_ok_tail|lia|lia|].
    intros HC. destruct (Hord HC) as [Hf Hv]. split.
    + destruct Hf as (_ & Hf & _). by rewrite Hleo in Hf.
    + by apply (emptying_order h k (o :: os) v v).
  - apply Z.leb_gt in Hk. destruct k as [|[|k]]; [lia..|]. rewrite leo_SS in *. clear Hne Hk.
    pose proof (leo_pos k) as [L0 L1]. destruct (enc_split k os (proj1 Hok)) as (X & HX0 & HX & HX1 & HX2).
    assert (Hok1 : orders_ok (S k) os).
    { destruct Hok as [Hi _]. split; [|done]. destruct os as [|o os]; cbn [increasing] in *; [lia|]. destruct Hi. split; [lia|done]. }
    assert (Hok2 : orders_ok k (S k :: os)).
    { split; [split; [lia|apply Hok1]|]. intros ->. by eexists. }
    apply wp_bind, shl_words; [lia|lia|done|].
    assert (H84 : enc (S (S k)) os * 2 ^ 2 = 8 * X + 4) by lia. rewrite H84, words_lxor_7 by lia.
    apply wp_bind, shr_words; [lia|split; [lia|]; rewrite H84 in E2; lia|].
    assert (H41 : (8 * X + 3) / 2 ^ 1 = enc (S k) os).
    { rewrite HX1. symmetry. apply Z.div_unique with 1; [left; lia|change (2 ^ 1) with 2; lia]. }
    rewrite H41. replace (Z.of_nat (S (S k)) - 2) with (Z.of_nat k) by lia.
    apply wp_bind, (wp_lp lp _ k); [done|lia|done|].
    assert (Hlf : addr h - width * leo k - width = addr (h - 1 - leo k)) by (unfold QsortCycle.addr; ring). rewrite Hlf.
    replace (Z.of_nat k + 1) with (Z.of_nat (S k)) by lia.
    apply wp_bind, (wp_trinkle m v (h - 1 - leo k) (S k) os true); try done; [cbn [size]; lia|lia|].
    intros m1 Hm1. set (v1 := trinkled cmp true (S k) (h - 1 - leo k) os v) in *.
    destruct (enc_range128 (S k) os 1 (proj1 Hok1) ltac:(lia)) as [E3 E4].
    apply wp_bind, shl_words; [lia|lia|done|]. rewrite Z.pow_1_r, Z.mul_comm. cbn zeta.
    rewrite words_lor_1, <- HX2 by lia.
    apply wp_bind, (wp_trinkle m1 v1 (h - 1) k (S k :: os) true); try done; [cbn [size]; lia|lia|].
    intros m2 Hm2. set (v2 := trinkled cmp true k (h - 1) (S k :: os) v1) in *. apply wp_ret, wp_ret, (HQ k (S k :: os) m2 v2).
    assert (Hv1 : forall j, h - 1 <= j -> v1 j = v j) by (intros; apply trinkled_out; lia).
    assert (Hv2 : forall j, h <= j -> v2 j = v j) by (intros; rewrite <- Hv1 by lia; apply trinkled_out; lia).
    assert (Hp2 : forall j, h <= j -> elems v2 j ≡ₚ elems v j).
    { intros j Hj. transitivity (elems v1 j); apply trinkled_perm; cbn [size]; lia. }
    split; [done|rewrite Hp2 by lia; done|done|cbn [size]; lia|lia|].
    intros HC. destruct (Hord HC) as [Hf Hv]. split; [|apply (emptying_order h (S (S k)) os v v2); try done; cbn [size]; rewrite leo_SS; lia].
    destruct Hf as ((_ & _ & Hr & Hl) & Hf & _). rewrite leo_SS in Hf.
    replace (h - (leo (S k) + leo k + 1)) with (h - 1 - leo k - leo (S k)) in Hf by lia.
    assert (Hf1 : forest cmp (S k :: os) (h - 1 - leo k) v1) by (apply trinkled_forest; auto; by apply heap_heap_below).
    assert (Hr1 : heap cmp k (h - 1) v1).
    { apply (heap_ext cmp k _ v); [|done]. intros. symmetry. apply trinkled_out. lia. }
    apply trinkled_forest; auto. by apply heap_heap_below.
Qed.

(** ** The whole function *)
Lemma wp_qsort m v Q : 1 <= nel -> holds m v ->
  (forall m' v', holds m' v' -> elems v' nel ≡ₚ elems v nel ->
     (Consistent cmp -> forall j, 0 <= j < nel -> Forall (fun x => cmp x (v' j) <= 0) (elems v' j)) -> Q tt m') ->
  wp (qsort width cmp tmp base nel) m Q.
Proof.
  intros H1 Hm HQ. unfold qsort. rewrite u64_id by nia. rewrite (proj2 (Z.eqb_neq (width * nel) 0)) by nia.
  apply wp_bind, wp_leonardo; [done|]. intros lp Hlp.
  assert (Haddr : base + width * nel - width = addr (nel - 1)) by (unfold QsortCycle.addr; ring). rewrite Haddr.
  apply wp_bind.
  apply (wp_while (fun s m => exists h k os v', s = (addr h, words (enc k os), Z.of_nat k) /\ 0 <= h /\ building v h k os m v')
    (fun s => Z.to_nat (base + width * nel - s.1.1))); [| |cbn [fst]; nia].
  2: { exists 0, 1%nat, [], v. split_and!; [unfold QsortCycle.addr; by rewrite Z.mul_0_r, Z.add_0_r|done|].
       split; try done; [split; [cbn; lia|done]|lia]. }
  clear m Hm. intros s m (h & k & os & v' & -> & Hh & Hb). apply wp_ret. cbn [fst snd].
  destruct (addr h <? addr (nel - 1)) eqn:Hlt.
  { apply Z.ltb_lt, (proj1 (addr_lt _ _)) in Hlt. apply (wp_build_step v h k os m v'); [exact Hb|exact Hlp|exact Hlt|]. intros k' os' m' v'' Hb'.
    split; [exists (h + 1), k', os', v''; split_and!; [done|lia|done]|]. cbn [fst snd]. unfold QsortCycle.addr. nia. }
  apply Z.ltb_ge in Hlt. destruct Hb as [Hm Hperm Hok Hg Hsz Hlast Hord].
  assert (h = nel - 1) as ->. { destruct (Z.lt_ge_cases h (nel - 1)) as [Hl|]; [apply (proj2 (addr_lt _ _)) in Hl|]; lia. }
  cbn [size] in Hsz. pose proof (size_nonneg os) as Hs0.
  apply wp_bind, (wp_trinkle m v' (nel - 1) k os false); try done; [cbn [size]; lia|lia|]. clear m Hm. intros m Hm.
  apply wp_bind.
  apply (wp_while (fun s m => exists h k os v', s = (addr h, words (enc k os), Z.of_nat k) /\ emptying v h k os m v')
    (fun s => Z.to_nat (s.1.1 - base))); [| |cbn [fst]; unfold QsortCycle.addr; nia].
  - clear m Hm. intros s m (h & k1 & os1 & v1 & -> & He). apply wp_ret. rewrite <- orb_assoc, enc_one by apply He.
    assert (Hh0 : 0 <= h).
    { pose proof (em_size _ _ _ _ _ _ He) as Hs. cbn [size] in Hs. pose proof (size_nonneg os1). pose proof (leo_pos k1). lia. }
    destruct (_ || _) eqn:Hgo.
    + apply (wp_extract_step v h k1 os1 m v1); [done|done|intros ->; by destruct os1|]. intros k' os' m' v'' He'.
      split; [by exists (h - 1), k', os', v''|]. cbn [fst]. unfold QsortCycle.addr.
      pose proof (em_size _ _ _ _ _ _ He') as Hs. cbn [size] in Hs. pose proof (size_nonneg os'). pose proof (leo_pos k'). nia.
    + apply orb_false_iff in Hgo as [Hk Hos]. destruct os1; [|done]. apply negb_false_iff, Z.eqb_eq in Hk.
      assert (k1 = 1%nat) as -> by lia. destruct He as [Hm1 Hp1 _ Hs1 _ Ho1]. cbn in Hs1. assert (h = 0) as -> by lia.
      apply wp_ret, (HQ m v1 Hm1 Hp1). intros HC j Hj. destruct (Ho1 HC) as [_ Ho].
      destruct (decide (j = 0)) as [->|]; [constructor|apply Ho; lia].
  - exists (nel - 1), k, os. eexists. split; [done|]. split; [done| |done|cbn [size]; lia|lia|].
    + by rewrite trinkled_perm by (cbn [size]; lia).
    + intros HC. destruct (Hord HC) as [Hb1 Hb2]. split; [|lia]. apply trinkled_forest; try done.
      destruct os as [|o os]; [done|]. destruct Hok as [[Hok1 _] _]. apply built_forest; [lia|done| |done].
      pose proof (leo_le k (o - 1) ltac:(lia)). lia.
Qed.
End qsort_proof.

(** ** Arrays as lists of elements *)
Definition elements (width : Z) (xs : list (list Z)) : Prop :=
  Forall (fun x => Z.of_nat (length x) = width /\ bytes x) xs.

Lemma bytes_at_concat m p width xs : elements width xs ->
  bytes_at m p (concat xs) <-> forall i x, xs !! i = Some x -> bytes_at m (p + width * Z.of_nat i) x.
Proof.
  intros Hxs. revert p. induction Hxs as [|x xs [Hx _] _ IH]; intros p; cbn [concat].
  - split; [by intros _ i x Hx|]. intros _. apply bytes_at_nil.
  - rewrite bytes_at_app, IH, Hx. split.
    + intros [H1 H2] [|i] y Hy; cbn in Hy; [injection Hy as <-; by rewrite Z.mul_0_r, Z.add_0_r|].
      replace (p + width * Z.of_nat (S i)) with (p + width + width * Z.of_nat i) by lia. by apply H2.
    + intros H. split; [specialize (H 0%nat x eq_refl); by rewrite Z.mul_0_r, Z.add_0_r in H|].
      intros i y Hy. replace (p + width + width * Z.of_nat i) with (p + width * Z.of_nat (S i)) by lia. by apply H.
Qed.

Definition view (xs : list (list Z)) : Z -> list Z := fun i => xs !!! Z.to_nat i.

Lemma elems_lookup {A} (v : Z -> A) n i x : elems v n !! i = Some x <-> x = v (Z.of_nat i) /\ Z.of_nat i < n.
Proof.
  unfold elems. rewrite list_lookup_fmap, fmap_Some. split.
  - intros (y & [-> Hy]%lookup_seqZ & ->). split; [f_equal; lia|done].
  - intros [-> Hi]. exists (Z.of_nat i). split; [|done]. apply lookup_seqZ. lia.
Qed.

Lemma elems_view xs : elems (view xs) (Z.of_nat (length xs)) = xs.
Proof.
  apply list_eq. intros i. apply option_eq. intros x. rewrite elems_lookup. unfold view. rewrite Nat2Z.id. split.
  - intros [-> Hi]. apply list_lookup_lookup_total_lt. lia.
  - intros Hx. split; [by symmetry; apply list_lookup_total_correct|]. apply lookup_lt_Some in Hx. lia.
Qed.

Lemma sorted_snoc {A} (R : A -> A -> Prop) (l : list A) y :
  StronglySorted R l -> Forall (fun x => R x y) l -> StronglySorted R (l ++ [y]).
Proof.
  induction 1 as [|x l Hs IH Hx]; intros Hy; [by repeat constructor|]. inversion Hy; subst. constructor; [by apply IH|].
  apply Forall_app. split; [done|by repeat constructor].
Qed.

Lemma sorted_elems {A} (R : A -> A -> Prop) (v : Z -> A) n :
  (forall j, 0 <= j < n -> Forall (fun x => R x (v j)) (elems v j)) -> StronglySorted R (elems v n).
Proof.
  intros H. destruct (Z.le_gt_cases 0 n) as [Hn|Hn].
  2: { unfold elems. rewrite seqZ_nil by lia. constructor. }
  revert H. pattern n. apply natlike_ind; [|clear n Hn; intros n Hn IH H|done].
  { intros _. constructor. }
  assert (Hs : elems v (Z.succ n) = elems v n ++ [v n]).
  { unfold elems. rewrite <- Z.add_1_r, seqZ_app, fmap_app by lia. done. }
  rewrite Hs. apply sorted_snoc; [by apply IH; intros; apply H; lia|]. apply H. lia.
Qed.

(** ** Binary search *)
Definition split_by (c : list Z -> Z) (x y : list Z) : Prop := (0 < c y -> 0 < c x) /\ (c x < 0 -> c y < 0).

Lemma split_by_lookup c xs i j x y : StronglySorted (split_by c) xs -> xs !! i = Some x -> xs !! j = Some y -> (i <= j)%nat ->
  (c x < 0 -> c y < 0) /\ (0 < c y -> 0 < c x).
Proof.
  intros Hs. revert i j. induction Hs as [|z xs Hs IH Hz]; intros i j Hi Hj Hij; [done|].
  destruct i as [|i], j as [|j]; cbn in Hi, Hj; try lia.
  - by simplify_eq.
  - injection Hi as ->. pose proof (Forall_lookup_1 _ _ _ _ Hz Hj) as [H1 H2]. by split.
  - apply (IH i j); [done..|lia].
Qed.

Lemma log2_up_half n k : 2 <= n -> 1 <= k -> k <= (n + 1) / 2 -> Z.log2_up k < Z.log2_up n.
Proof.
  intros Hn Hk1 Hk. destruct (Z.log2_up_spec n ltac:(lia)) as [_ Hle].
  assert (H0 : 0 < Z.log2_up n) by (apply Z.log2_up_pos; lia).
  assert (H2 : k <= 2 ^ (Z.log2_up n - 1)).
  { replace (Z.log2_up n) with (Z.succ (Z.log2_up n - 1)) in Hle by lia. rewrite Z.pow_succ_r in Hle by lia. mlia. }
  apply Z.log2_up_le_mono in H2. rewrite Z.log2_up_pow2 in H2 by lia. lia.
Qed.

Lemma bsearch_spec {F : Fuel} (width : Z) (cmp : Z -> list Z -> Z) (key base : Z) (xs : list (list Z)) (m : mem) :
  let nel := Z.of_nat (length xs) in
  0 <= width -> elements width xs -> bytes_at m base (concat xs) -> Z.of_nat fuel > Z.log2_up nel ->
  exists r, bsearch width cmp key base nel m = Done (r, m) /\
    match r with
    | Some p => exists i x, p = base + width * Z.of_nat i /\ xs !! i = Some x /\ cmp key x = 0
    | None => StronglySorted (split_by (cmp key)) xs -> forall x, x ∈ xs -> cmp key x <> 0
    end.
Proof.
  intros nel Hw Hxs Hat Hfuel. rewrite (bytes_at_concat _ _ width) in Hat by done.
  enough (Hwp : wp (bsearch width cmp key base nel) m (fun r m' => m' = m /\ match r with
    | Some p => exists i x, p = base + width * Z.of_nat i /\ xs !! i = Some x /\ cmp key x = 0
    | None => StronglySorted (split_by (cmp key)) xs -> forall x, x ∈ xs -> cmp key x <> 0 end)).
  { apply wp_done in Hwp as (r & m' & Hrun & -> & H). by exists r. }
  unfold bsearch.
  apply (wp_loop (fun s m' => m' = m /\ exists lo n : nat, s = (base + width * Z.of_nat lo, Z.of_nat n) /\ (lo + n <= length xs)%nat /\
      (n = 0%nat -> xs = []) /\
      (StronglySorted (split_by (cmp key)) xs -> forall i x, xs !! i = Some x -> (i < lo \/ lo + n <= i)%nat -> cmp key x <> 0))
    (fun s => Z.to_nat (Z.log2_up s.2))); [| |cbn [snd]; pose proof (Z.log2_up_nonneg nel); subst nel; lia].
  2: { split; [done|]. exists 0%nat, (length xs). split_and!; [f_equal; lia|lia|by destruct xs|].
       intros _ i x Hi%lookup_lt_Some. lia. }
  intros s m1 [-> (lo & n & -> & Hle & Hempty & Hout)]. rewrite Z.gtb_ltb. destruct (Z.ltb_spec 0 (Z.of_nat n)).
  2: { apply wp_ret. split; [done|]. intros _ x Hx. rewrite Hempty in Hx by lia. by apply elem_of_nil in Hx. }
  cbn zeta. set (i := (lo + n / 2)%nat).
  assert (Hdiv : (n / 2 < n)%nat) by (apply Nat.div_lt; lia).
  assert (Hi : base + width * Z.of_nat lo + width * (Z.of_nat n / 2) = base + width * Z.of_nat i).
  { change 2 with (Z.of_nat 2) at 1. rewrite <- Nat2Z.inj_div. unfold i. lia. }
  rewrite Hi. destruct (lookup_lt_is_Some_2 xs i ltac:(lia)) as [x Hx].
  pose proof (Forall_lookup_1 _ _ _ _ Hxs Hx) as [Hlx _]. cbn beta in Hlx.
  apply wp_bind, (wp_loadn _ _ x); [by apply Hat|lia|].
  destruct (Z.eqb_spec (cmp key x) 0) as [H0|Hne]; [apply wp_ret; split; [done|by exists i, x]|].
  destruct (Z.eqb_spec (Z.of_nat n) 1) as [H1|Hn1].
  { apply wp_ret. split; [done|]. intros Hs y [j Hy]%list_elem_of_lookup. destruct (decide (j = i)) as [->|].
    - congruence.
    - assert (i = lo) by (unfold i; replace n with 1%nat by lia; cbn; lia). apply (Hout Hs j y Hy). lia. }
  assert (Hn2 : (1 <= n / 2)%nat) by (apply Nat.div_le_lower_bound; lia).
  pose proof (Nat.div_mod_eq n 2) as Hdm. pose proof (Nat.mod_upper_bound n 2 ltac:(lia)) as Hmb.
  assert (Hz2 : Z.of_nat n / 2 = Z.of_nat (n / 2)) by (rewrite Nat2Z.inj_div; done). rewrite Hz2.
  destruct (Z.ltb_spec (cmp key x) 0); apply wp_ret; (split; [split; [done|]|cbn [snd]; apply Z2Nat.inj_lt; [apply Z.log2_up_nonneg..|];
    apply log2_up_half; try lia; mlia]).
  - exists lo, (n / 2)%nat. split_and!; [done|lia|lia|]. intros Hs j y Hy Hj. destruct (decide (lo + n <= j \/ j < lo)%nat).
    + apply (Hout Hs j y Hy). lia.
    + destruct (split_by_lookup (cmp key) xs i j x y Hs Hx Hy) as [Hlt _]; [unfold i; lia|]. specialize (Hlt ltac:(lia)). lia.
  - exists i, (n - n / 2)%nat. split_and!; [f_equal; lia|unfold i; lia|lia|]. intros Hs j y Hy Hj. destruct (decide (lo + n <= j \/ j < lo)%nat).
    + apply (Hout Hs j y Hy). lia.
    + destruct (split_by_lookup (cmp key) xs j i y x Hs Hy Hx) as [_ Hlt]; [unfold i in *; lia|]. specialize (Hlt ltac:(lia)). lia.
Qed.

(** ** Properties *)

(** C2: [qsort] sorts.  For every array of fewer than 55555780070575 elements
    of any width, every comparison function that only looks at the contents of
    the elements, and a stack buffer that does not overlap the array, the
    function ends without an access outside the array and the buffer, without
    an overflow of its local arrays and without an undefined shift; the array
    then holds a permutation of its elements, everything else is as before, and
    if the comparison is a total preorder the array is in order. *)
Theorem qsort_correct {F : Fuel} (width : Z) (cmp : list Z -> list Z -> Z) (tmp base : Z) (xs : list (list Z)) (m : mem) :
  let nel := Z.of_nat (length xs) in
  0 < width -> elements width xs -> bytes_at m base (concat xs) ->
  mapped m tmp 256 -> tmp + 256 <= base \/ base + width * nel <= tmp ->
  nel < 55555780070575 -> 3 * (width * nel) < 2 ^ 64 -> Z.of_nat fuel > width * nel + 300 ->
  exists m' xs', qsort width cmp tmp base nel m = Done (tt, m') /\
    elements width xs' /\ bytes_at m' base (concat xs') /\ xs' ≡ₚ xs /\
    (Consistent cmp -> StronglySorted (fun x y => cmp x y <= 0) xs') /\
    (forall a, ~ (base <= a < base + width * nel) -> ~ (tmp <= a < tmp + 256) -> m' !! a = m !! a).
Proof.
  intros nel Hw Hxs Hat Htmp Hdis Hnel Hsize Hfuel.
  destruct (decide (xs = [])) as [->|Hne].
  { exists m, []. unfold qsort. subst nel. rewrite Z.mul_0_r. split_and!; try done. intros _. constructor. }
  assert (H1 : 1 <= nel) by (unfold nel; destruct xs; [done|cbn [length]; lia]).
  enough (Hwp : wp (qsort width cmp tmp base nel) m (fun _ m' => exists xs', elements width xs' /\ bytes_at m' base (concat xs') /\ xs' ≡ₚ xs /\
    (Consistent cmp -> StronglySorted (fun x y => cmp x y <= 0) xs') /\
    (forall a, ~ (base <= a < base + width * nel) -> ~ (tmp <= a < tmp + 256) -> m' !! a = m !! a))).
  { apply wp_done in Hwp as ([] & m' & Hrun & xs' & H). by exists m', xs'. }
  assert (Hview : forall i, 0 <= i < nel -> xs !! Z.to_nat i = Some (view xs i)).
  { intros i Hi. apply list_lookup_lookup_total_lt. lia. }
  apply (wp_qsort width nel base tmp m cmp Hw Hdis Hfuel Hnel Hsize m (view xs)); [done| |].
  - split; [|intros i Hi; exact (Forall_lookup_1 _ _ _ _ Hxs (Hview i Hi))|done|done].
    intros i Hi. rewrite (bytes_at_concat _ _ width) in Hat by done. specialize (Hat _ _ (Hview i Hi)).
    by rewrite Z2Nat.id in Hat by lia.
  - intros m' v' [Ha He _ Hf] Hperm Hord. exists (elems v' nel).
    assert (Hel : elements width (elems v' nel)) by (by apply elems_Forall).
    split_and!; [done| | |intros HC; apply sorted_elems; by apply Hord|done].
    + apply (bytes_at_concat _ _ width); [done|]. intros i x [-> Hi]%elems_lookup. apply Ha. lia.
    + rewrite Hperm. by unfold nel; rewrite elems_view.
Qed.

(** Three-byte elements compared by their first byte. *)
Definition first_byte (x y : list Z) : Z := x !!! 0%nat - y !!! 0%nat.

Definition sample : list (list Z) := [[9; 1; 2]; [4; 0; 7]; [7; 7; 7]; [4; 1; 0]; [1; 255; 3]; [8; 2; 2]; [0; 1; 0]].

Definition sample_mem : mem := mem_of 512 (concat sample) ∪ mem_of 1024 (replicate 256 0).

Lemma qsort_correct_witness : Consistent first_byte /\
  exists m' xs', qsort (F := 400%nat) 3 first_byte 1024 512 7 sample_mem = Done (tt, m') /\ xs' ≡ₚ sample /\
    StronglySorted (fun x y => first_byte x y <= 0) xs' /\ bytes_at m' 512 (concat xs').
Proof.
  assert (HC : Consistent first_byte) by (split; unfold first_byte; intros; lia).
  split; [exact HC|].
  destruct (qsort_correct (F := 400%nat) 3 first_byte 1024 512 sample sample_mem) as (m' & xs' & H1 & _ & H2 & H3 & H4 & _);
    [done|repeat constructor; by vm_compute|conc|conc|right; by vm_compute|by vm_compute|by vm_compute|by vm_compute|].
  exists m', xs'. auto.
Defined.

(** [bsearch] finds.  Whatever the comparison function, a result points to an
    element that compares equal to the key, within a number of steps that is
    logarithmic; and if the elements that compare above the key come before
    those that are equal, and these before the others, a null pointer means
    that no element is equal.  The memory is only read. *)
Theorem bsearch_correct {F : Fuel} (width : Z) (cmp : Z -> list Z -> Z) (key base : Z) (xs : list (list Z)) (m : mem) :
  let nel := Z.of_nat (length xs) in
  0 <= width -> elements width xs -> bytes_at m base (concat xs) -> Z.of_nat fuel > Z.log2_up nel ->
  exists r, bsearch width cmp key base nel m = Done (r, m) /\
    match r with
    | Some p => exists i x, p = base + width * Z.of_nat i /\ xs !! i = Some x /\ cmp key x = 0
    | None => StronglySorted (split_by (cmp key)) xs -> forall x, x ∈ xs -> cmp key x <> 0
    end.
Proof. apply bsearch_spec. Qed.

Lemma bsearch_correct_witness :
  bsearch (F := 4%nat) 3 (fun k x => k - x !!! 0%nat) 4 512 7 (mem_of 512 (concat sample)) = Done (Some (512 + 3 * 3), mem_of 512 (concat sample)) /\
  exists r, bsearch (F := 4%nat) 3 (fun k x => k - x !!! 0%nat) 4 512 7 (mem_of 512 (concat sample)) = Done (r, mem_of 512 (concat sample)).
Proof.
  split; [by vm_compute|].
  destruct (bsearch_correct (F := 4%nat) 3 (fun k x => k - x !!! 0%nat) 4 512 sample (mem_of 512 (concat sample))) as (r & H & _);
    [done|repeat constructor; by vm_compute|conc|by vm_compute|]. by exists r.
Defined.
