(* ===== verification/TwoWay.v ===== *)
(** The mathematics of two-way string matching: maximal suffixes, and why the
    place where the shorter of two maximal suffixes begins is critical.  The
    code that uses it is in Strstr.v.

    A word is a function [c] from positions to letters, of length [l]; letters
    are compared by [gt], one of the two orders of the integers. *)
From S2P Require Import Prelude.

Section word.
Context (c : Z -> Z) (l : Z).
Implicit Types (i j s t u d p r m : Z).

(** [d] is a period of the part from [i] to [e]. *)
Definition period d i e : Prop := forall u, i <= u -> u + d < e -> c u = c (u + d).

(** The letters before place [i] repeat after it with distance [d]. *)
Definition local_rep i d : Prop := forall u, i <= u < l -> u < i + d -> d <= u -> c (u - d) = c u.

(** The suffix at [s] is a prefix of the one at [i]. *)
Definition prefix_at s i : Prop := i < s /\ forall u, 0 <= u -> s + u < l -> c (s + u) = c (i + u).

Lemma period_local_rep d i : 0 <= i -> 0 < d -> period d 0 l -> local_rep i d.
Proof. intros Hi Hd Hp u Hu _ Hdu. rewrite (Hp (u - d)) by lia. f_equal. lia. Qed.

Lemma period_mult d i e q u : period d i e -> 0 < d -> 0 <= q -> i <= u -> u + q * d < e -> c u = c (u + q * d).
Proof.
  intros Hp Hd Hq Hi. revert q Hq. apply (natlike_ind (fun q => u + q * d < e -> c u = c (u + q * d))).
  - intros _. f_equal. lia.
  - intros q Hq IH Hlt. rewrite IH by nia. rewrite (Hp (u + q * d)) by nia. f_equal. lia.
Qed.

Section order.
Context (gt : Z -> Z -> bool).

Class LetterOrder : Prop := {
  gt_asym a b : gt a b = true -> gt b a = false;
  gt_trans a b e : gt a b = true -> gt b e = true -> gt a e = true;
  gt_total a b : a <> b -> gt a b = false -> gt b a = true }.

(** The suffix at [s] is below the one at [i], and not because it is shorter. *)
Definition below_at s i t : Prop :=
  0 <= t /\ (forall u, 0 <= u < t -> c (s + u) = c (i + u)) /\ s + t < l /\ i + t < l /\ gt (c (i + t)) (c (s + t)) = true.

Definition below s i : Prop := exists t, below_at s i t.

(** The suffix at [i] is maximal. *)
Definition max_suffix i : Prop := forall s, 0 <= s < l -> s <> i -> below s i \/ prefix_at s i.

(** All proper suffixes of the [p] letters at [i] are below them. *)
Definition primitive_at i p : Prop := forall r, 0 < r < p -> exists t, r + t < p /\ below_at (i + r) i t.

Context {HO : LetterOrder}.

Lemma gt_irrefl a : gt a a = false.
Proof. destruct (gt a a) eqn:H; [by rewrite (gt_asym a a H) in H|done]. Qed.

Lemma below_asym s i t : below_at s i t -> below i s -> False.
Proof.
  intros (H0 & H1 & H2 & H3 & H4) (t' & G0 & G1 & G2 & G3 & G4). destruct (Z.lt_trichotomy t t') as [H|[->|H]].
  - rewrite (G1 t) in H4 by lia. by rewrite gt_irrefl in H4.
  - by rewrite (gt_asym _ _ H4) in G4.
  - rewrite (H1 t') in G4 by lia. by rewrite gt_irrefl in G4.
Qed.

Lemma below_not_prefix s i t : below_at i s t -> prefix_at s i -> False.
Proof. intros (H0 & H1 & H2 & H3 & H4) [_ Hp]. rewrite (Hp t) in H4 by lia. by rewrite gt_irrefl in H4. Qed.

Lemma below_not_prefix' s i t : below_at s i t -> prefix_at s i -> False.
Proof. intros (H0 & H1 & H2 & H3 & H4) [_ Hp]. rewrite (Hp t) in H4 by lia. by rewrite gt_irrefl in H4. Qed.

(** ** Computing the maximal suffix *)

(** The state of the computation: [i] is the best start so far, [m] letters at
    [j] have been found to repeat the [p]-periodic part that begins at [i]. *)
Record scan i j m p : Prop := {
  sc_i : 0 <= i;
  sc_m : 0 <= m < p;
  sc_j : exists q, 1 <= q /\ j = i + q * p;
  sc_l : j + m <= l;
  sc_period : period p i (j + m);
  sc_prim : primitive_at i p;
  sc_below s : 0 <= s < i -> below s i }.

(** The letter that the period predicts. *)
Lemma scan_letter i j m p u : scan i j m p -> i <= u < j + m -> c u = c (i + (u - i) mod p).
Proof.
  intros [Hi Hm (q & Hq & Hj) Hl Hper Hprim Hb] Hu.
  pose proof (Z.div_mod (u - i) p ltac:(lia)) as Hd. pose proof (Z.mod_pos_bound (u - i) p ltac:(lia)).
  pose proof (Z.div_pos (u - i) p ltac:(lia) ltac:(lia)).
  rewrite (period_mult p i (j + m) ((u - i) / p) (i + (u - i) mod p)); [f_equal; lia|done|lia..].
Qed.

Lemma scan_start : 1 <= l -> scan 0 1 0 1.
Proof.
  intros Hl. split; try lia; [by exists 1| |intros r Hr; lia].
  intros u Hu Hlt. lia.
Qed.

Lemma scan_eq i j m p : scan i j m p -> j + m < l -> c (i + m) = c (j + m) ->
  if m + 1 =? p then scan i (j + p) 0 p else scan i j (m + 1) p.
Proof.
  intros Hs Hlt Heq. pose proof Hs as [Hi Hm (q & Hq & Hj) Hl Hper Hprim Hb].
  assert (Hper' : period p i (j + m + 1)).
  { intros u Hu Hup. destruct (decide (u + p < j + m)); [by apply Hper|]. assert (u = j + m - p) as -> by lia.
    rewrite (scan_letter i j m p (j + m - p)) by (done || nia). replace (j + m - p + p) with (j + m) by lia. rewrite <- Heq. f_equal. f_equal.
    symmetry. apply Z.mod_unique with (q - 1); [left; lia|nia]. }
  destruct (Z.eqb_spec (m + 1) p); split; try lia; try done.
  - exists (q + 1). lia.
  - replace (j + p + 0) with (j + m + 1) by lia. done.
  - by exists q.
  - by rewrite Z.add_assoc.
Qed.

(** A larger letter is predicted: the part up to here is primitive. *)
Lemma scan_gt i j m p : scan i j m p -> j + m < l -> gt (c (i + m)) (c (j + m)) = true -> scan i (j + m + 1) 0 (j + m + 1 - i).
Proof.
  intros Hs Hlt Hgt. pose proof Hs as [Hi Hm (q & Hq & Hj) Hl Hper Hprim Hb].
  assert (Hj1 : i < j) by nia. split; try lia; [exists 1; lia|intros u Hu Hup; lia| |done].
  intros r Hr.
  (* the part at [i + r] repeats the letters at [i] up to the new one *)
  pose proof (Z.mod_pos_bound r p ltac:(lia)) as Hr0. pose proof (Z.div_mod r p ltac:(lia)) as Hrd.
  assert (Hlet : forall u, 0 <= u -> i + r + u < j + m -> c (i + r + u) = c (i + (r + u) mod p)).
  { intros u Hu Hur. rewrite (scan_letter i j m p (i + r + u)) by (done || lia). do 3 f_equal. lia. }
  assert (Hend : (j + m - i) mod p = m) by (symmetry; apply Z.mod_unique with q; [left; lia|nia]).
  destruct (decide (r mod p = 0)) as [Hz|Hz].
  - exists (j + m - i - r). split; [lia|]. split_and!; try lia.
    + intros u Hu. rewrite Hlet by lia. rewrite (scan_letter i j m p (i + u)) by (done || lia). do 2 f_equal.
      rewrite <- Zplus_mod_idemp_l, Hz. f_equal. lia.
    + replace (i + r + (j + m - i - r)) with (j + m) by lia.
      rewrite (scan_letter i j m p (i + (j + m - i - r))) by (done || lia).
      replace ((i + (j + m - i - r) - i) mod p) with m; [done|].
      transitivity ((j + m - i) mod p); [done|]. replace (i + (j + m - i - r) - i) with (j + m - i - r) by lia.
      rewrite <- (Zminus_mod_idemp_r (j + m - i) r p), Hz. f_equal. lia.
  - destruct (Hprim (r mod p) ltac:(lia)) as (t & Ht & T0 & T1 & T2 & T3 & T4).
    assert (Hshift : forall u, 0 <= u -> r mod p + u < p -> (r + u) mod p = r mod p + u).
    { intros u Hu Hup. symmetry. apply Z.mod_unique with (r / p); [left; lia|lia]. }
    assert (Hself : forall u, 0 <= u < p -> i + u < j + m -> c (i + u) = c (i + u)) by done.
    destruct (decide (i + r + t < j + m)) as [Hin|Hout].
    + exists t. split; [lia|]. split_and!; try lia.
      * intros u Hu. rewrite Hlet, Hshift by lia. rewrite <- (T1 u) by lia. f_equal. lia.
      * rewrite Hlet, Hshift by lia. rewrite Z.add_assoc. done.
    + set (t0 := j + m - i - r) in *. assert (Ht0 : r mod p + t0 = m).
      { rewrite <- Hshift by lia. rewrite <- Hend. f_equal. lia. }
      exists t0. split; [lia|]. split_and!; try lia.
      * intros u Hu. rewrite Hlet, Hshift by lia. rewrite <- (T1 u) by lia. f_equal. lia.
      * replace (i + r + t0) with (j + m) by lia.
        destruct (decide (t0 = t)) as [<-|Hne].
        -- eapply gt_trans; [exact T4|]. by replace (i + r mod p + t0) with (i + m) by lia.
        -- rewrite <- (T1 t0) by lia. by replace (i + r mod p + t0) with (i + m) by lia.
Qed.

(** A smaller letter is predicted: the suffix at [j] is better. *)
Lemma scan_lt i j m p : scan i j m p -> j + m < l -> gt (c (j + m)) (c (i + m)) = true -> scan j (j + 1) 0 1.
Proof.
  intros Hs Hlt Hgt. pose proof Hs as [Hi Hm (q & Hq & Hj) Hl Hper Hprim Hb]. assert (Hj1 : i < j) by nia.
  assert (Hpj : i + p <= j) by nia.
  split; try lia; [by exists 1; lia|intros u Hu Hup; lia|intros r Hr; lia|].
  (* the [m] letters at [j] *)
  assert (Hlet : forall u, 0 <= u < m -> c (j + u) = c (i + u)).
  { intros u Hu. rewrite (scan_letter i j m p (j + u)) by (done || lia). do 2 f_equal.
    symmetry. apply Z.mod_unique with q; [left; lia|nia]. }
  (* a suffix below the one at [i] is below the one at [j] *)
  assert (Hvia : forall s t, below_at s i t -> s < j -> s + m < l -> below s j).
  { intros s t (T0 & T1 & T2 & T3 & T4) Hsj Hsm. destruct (Z.lt_trichotomy t m) as [H|[->|H]].
    - exists t. split_and!; try lia; [|by rewrite Hlet by lia]. intros u Hu. rewrite Hlet by lia. apply T1. lia.
    - exists m. split_and!; try lia; [|by eapply gt_trans]. intros u Hu. rewrite Hlet by lia. apply T1. lia.
    - exists m. split_and!; try lia; [|by rewrite T1 by lia]. intros u Hu. rewrite Hlet by lia. apply T1. lia. }
  intros s Hs'. destruct (Z.lt_trichotomy s i) as [Hlt'|[->|Hgt']].
  - destruct (Hb s ltac:(lia)) as [t Ht]. apply (Hvia s t); [done|lia|lia].
  - exists m. split_and!; try lia; [|done]. intros u Hu. by rewrite Hlet by lia.
  - pose proof (Z.mod_pos_bound (s - i) p ltac:(lia)) as Hr0. pose proof (Z.div_mod (s - i) p ltac:(lia)) as Hrd.
    destruct (decide ((s - i) mod p = 0)) as [Hz|Hz].
    + assert (Hsm : forall u, 0 <= u <= m -> c (s + u) = c (i + u)).
      { intros u Hu. rewrite (scan_letter i j m p (s + u)) by (done || lia). do 2 f_equal.
        symmetry. apply Z.mod_unique with ((s - i) / p); [left; lia|lia]. }
      exists m. split_and!; try lia; [|by rewrite Hsm by lia]. intros u Hu. by rewrite Hlet, Hsm by lia.
    + destruct (Hprim ((s - i) mod p) ltac:(lia)) as (t & Ht & T0 & T1 & T2 & T3 & T4).
      assert (Hsp : s - (s - i) mod p + p <= j).
      { assert ((s - i) / p < q) by (apply Z.div_lt_upper_bound; nia). nia. }
      assert (Hsu : forall u, 0 <= u -> (s - i) mod p + u < p -> c (s + u) = c (i + (s - i) mod p + u)).
      { intros u Hu Hup. rewrite (scan_letter i j m p (s + u)) by (done || lia). rewrite <- Z.add_assoc. do 2 f_equal.
        symmetry. apply Z.mod_unique with ((s - i) / p); [left; lia|lia]. }
      apply (Hvia s t); [|lia|lia]. split_and!; try lia.
      * intros u Hu. rewrite Hsu by lia. by apply T1.
      * by rewrite Hsu by lia.
Qed.

(** The end of the computation. *)
Record maximal i p : Prop := {
  mx_i : 0 <= i < l;
  mx_p : 1 <= p <= l - i;
  mx_max : max_suffix i;
  mx_period : period p i l;
  mx_prim : primitive_at i p }.

Lemma scan_end i j m p : scan i j m p -> j + m = l -> maximal i p.
Proof.
  intros Hs Hend. pose proof Hs as [Hi Hm (q & Hq & Hj) Hl Hper Hprim Hb]. assert (Hpj : i + p <= j) by nia.
  split; [lia|lia| |by rewrite <- Hend|done]. intros s Hsl Hne.
  destruct (Z.lt_ge_cases s i) as [Hlt|Hge]; [left; apply Hb; lia|].
  pose proof (Z.mod_pos_bound (s - i) p ltac:(lia)) as Hr0. pose proof (Z.div_mod (s - i) p ltac:(lia)) as Hrd.
  assert (Hlet : forall u, 0 <= u -> s + u < l -> c (s + u) = c (i + ((s - i) mod p + u) mod p)).
  { intros u Hu Hul. rewrite (scan_letter i j m p (s + u)) by (done || lia). do 2 f_equal.
    rewrite Zplus_mod_idemp_l. f_equal. lia. }
  destruct (decide ((s - i) mod p = 0)) as [Hz|Hz].
  - right. split; [lia|]. intros u Hu Hul. rewrite Hlet, Hz by lia. rewrite (scan_letter i j m p (i + u)) by (done || lia).
    do 2 f_equal. f_equal. lia.
  - destruct (Hprim ((s - i) mod p) ltac:(lia)) as (t & Ht & T0 & T1 & T2 & T3 & T4).
    assert (Hlet' : forall u, 0 <= u -> (s - i) mod p + u < p -> s + u < l -> c (s + u) = c (i + (s - i) mod p + u)).
    { intros u Hu Hup Hul. rewrite Hlet by lia. rewrite Z.mod_small by lia. by rewrite Z.add_assoc. }
    destruct (decide (s + t < l)) as [Hin|Hout].
    + left. exists t. split_and!; try lia; [|by rewrite Hlet' by lia]. intros u Hu. rewrite Hlet' by lia. by apply T1.
    + right. split; [lia|]. intros u Hu Hul. rewrite Hlet' by lia. apply T1. lia.
Qed.

(** The period is the smallest. *)
Lemma maximal_least i p d : maximal i p -> 0 < d < p -> ~ period d i l.
Proof.
  intros [Hi Hp _ _ Hprim] Hd Hper. destruct (Hprim d Hd) as (t & Ht & T0 & T1 & T2 & T3 & T4).
  rewrite (Hper (i + t)) in T4 by lia. replace (i + t + d) with (i + d + t) in T4 by lia. by rewrite gt_irrefl in T4.
Qed.

(** ** Repetitions at a maximal suffix *)
Lemma no_short_rep i d : 0 <= i < l -> max_suffix i -> 0 < d <= i -> ~ local_rep i d.
Proof.
  intros Hi Hmax Hd Hrep. destruct (Hmax (i - d) ltac:(lia) ltac:(lia)) as [(t & T0 & T1 & T2 & T3 & T4)|[Hlt _]]; [|lia].
  assert (Ht : d <= t).
  { destruct (Z.lt_ge_cases t d); [|done]. rewrite <- (Hrep (i + t)) in T4 by lia.
    replace (i + t - d) with (i - d + t) in T4 by lia. by rewrite gt_irrefl in T4. }
  assert (Hab : below_at i (i + d) (t - d)).
  { split_and!; try lia.
    - intros u Hu. specialize (T1 (u + d) ltac:(lia)). replace (i - d + (u + d)) with (i + u) in T1 by lia. rewrite T1. f_equal. lia.
    - replace (i + d + (t - d)) with (i + t) by lia. by replace (i + (t - d)) with (i - d + t) by lia. }
  destruct (Hmax (i + d) ltac:(lia) ltac:(lia)) as [Hb|Hpre]; [by eapply below_asym|by eapply below_not_prefix].
Qed.
End order.

(** ** The critical place *)
Section critical.
Context (gt : Z -> Z -> bool) {HO : LetterOrder gt} {HO' : LetterOrder (fun a b => gt b a)}.
Context (i j p : Z) (Hmax : maximal gt i p) (Hmax' : max_suffix (fun a b => gt b a) j) (Hj : 0 <= j <= i).

(** Below in both orders is impossible. *)
Lemma below_both s t : below_at gt s i t -> below (fun a b => gt b a) s i -> False.
Proof.
  intros (T0 & T1 & T2 & T3 & T4) (t' & G0 & G1 & G2 & G3 & G4). destruct (Z.lt_trichotomy t t') as [H|[->|H]].
  - rewrite (G1 t) in T4 by lia. by rewrite (gt_irrefl gt) in T4.
  - by rewrite (gt_asym gt _ _ T4) in G4.
  - rewrite (T1 t') in G4 by lia. by rewrite (gt_irrefl gt) in G4.
Qed.

(** What the other maximal suffix says of a suffix that begins as the letters
    between the two places do. *)
Lemma other_order r : 0 < r -> j + r < l -> i + r < l -> (forall u, 0 <= u < i - j -> c (j + r + u) = c (j + u)) ->
  below (fun a b => gt b a) (i + r) i \/ prefix_at (i + r) i.
Proof.
  intros Hr Hl Hl' Heq. destruct (Hmax' (j + r) ltac:(lia) ltac:(lia)) as [(t & T0 & T1 & T2 & T3 & T4)|[_ Hp]].
  - assert (Ht : i - j <= t).
    { destruct (Z.lt_ge_cases t (i - j)); [|done]. rewrite Heq in T4 by lia. by rewrite (gt_irrefl gt) in T4. }
    left. exists (t - (i - j)). split_and!; try lia.
    + intros u Hu. specialize (T1 (u + (i - j)) ltac:(lia)).
      replace (j + r + (u + (i - j))) with (i + r + u) in T1 by lia. rewrite T1. f_equal. lia.
    + replace (i + r + (t - (i - j))) with (j + r + t) by lia. by replace (i + (t - (i - j))) with (j + t) by lia.
  - right. split; [lia|]. intros u Hu Hul. specialize (Hp (u + (i - j)) ltac:(lia) ltac:(lia)).
    replace (j + r + (u + (i - j))) with (i + r + u) in Hp by lia. rewrite Hp. f_equal. lia.
Qed.

(** A repetition at the critical place is a period of the whole word, and
    longer than what is before the place. *)
Lemma critical_rep d : 0 < d -> local_rep i d -> i < d /\ period d 0 l.
Proof.
  intros Hd Hrep. pose proof Hmax as [Hi Hp Hmx _ _].
  assert (Hid : i < d) by (destruct (Z.lt_ge_cases i d); [done|]; by destruct (no_short_rep gt i d Hi Hmx ltac:(lia))).
  split; [done|]. destruct (Z.lt_ge_cases (i + d) l) as [Hlt|Hge].
  2: { intros u Hu Hul. rewrite <- (Hrep (u + d)) by lia. f_equal. lia. }
  assert (Hpre : prefix_at (i + d) i).
  { destruct (Hmx (i + d) ltac:(lia) ltac:(lia)) as [[t Ht]|]; [|done].
    destruct (other_order d Hd ltac:(lia) Hlt) as [Hb|]; [|by destruct (below_both _ _ Ht Hb)|done].
    intros u Hu. rewrite <- (Hrep (j + d + u)) by lia. f_equal. lia. }
  intros u Hu Hul. destruct (Z.lt_ge_cases u i) as [Hui|Hui].
  - rewrite <- (Hrep (u + d)) by lia. f_equal. lia.
  - destruct Hpre as [_ Hpre]. specialize (Hpre (u - i) ltac:(lia) ltac:(lia)).
    replace (i + d + (u - i)) with (u + d) in Hpre by lia. rewrite Hpre. f_equal. lia.
Qed.

(** A period of the word that is not longer than the suffix is a multiple of the
    period of the suffix, which then is a period of the word. *)
Lemma critical_period d : i < d <= l - i -> period d 0 l -> forall u, 0 <= u < i -> c u = c (u + p).
Proof.
  intros Hd Hper. pose proof Hmax as [Hi Hp Hmx Hperp Hprim].
  pose proof (Z.mod_pos_bound d p ltac:(lia)) as Hr. pose proof (Z.div_mod d p ltac:(lia)) as Hdm. set (r := d mod p) in *. set (q := d / p) in *.
  assert (Hq : 0 <= q) by (apply Z.div_pos; lia).
  destruct (decide (r = 0)) as [Hz|Hz].
  - intros u Hu. rewrite (Hper u) by lia. destruct (Z.lt_ge_cases (u + p) i) as [H|H].
    + rewrite (Hper (u + p)) by lia. rewrite (Hperp (u + d)) by lia. f_equal. lia.
    + assert (1 <= q) by nia. rewrite (period_mult p i l (q - 1) (u + p)); [f_equal; lia|done|lia..].
  - exfalso. destruct (Hprim r ltac:(lia)) as (t & Ht & Hb).
    (* letters before the place, through the two periods *)
    assert (Hback : forall u, 0 <= u < i -> i <= u + r -> u + r < l -> c u = c (u + r)).
    { intros u Hu Hur Hul. rewrite (Hper u) by lia. rewrite (period_mult p i l q (u + r)); [f_equal; lia|done|lia..]. }
    destruct (Z.lt_ge_cases i r) as [Hir|Hir].
    + destruct (other_order r ltac:(lia) ltac:(lia) ltac:(lia)) as [Hb'|Hpre]; [|by destruct (below_both _ _ Hb Hb')|].
      * intros u Hu. rewrite (Hback (j + u)) by lia. f_equal. lia.
      * by destruct (below_not_prefix' gt _ _ _ Hb Hpre).
    + apply (no_short_rep gt i r Hi Hmx); [lia|]. intros u Hu Hur Hru. rewrite (Hback (u - r)) by lia. f_equal. lia.
Qed.
End critical.
End word.
