(* ===== verification/Strstr.v ===== *)
(** Searching for a string in another: string/memmem.c, strstr.c and wcsstr.c,
    over the byte-addressed memory.

    The three files contain the same two-way search; what they share is written
    once, for elements of [size] bytes read by [ld].  [ip] and [ms] start at
    [(size_t)-1] in the code and at -1 here; every use adds at least 1 before
    comparing or indexing, except [MAX(ms, l-ms-1)], where the conversion is
    written out.  Local tables are lists and maps: reading an entry of [shift]
    that was not written is a [fault].  The mathematics is in TwoWay.v. *)
From S2P Require Import Prelude Mem Scan Memset.
Open Scope c_scope.

Section twoway.
Context {F : Fuel} (size : Z) (ld : Z -> M Z).

Definition elt (p i : Z) : M Z := ld (p + size * i).

(** The start, less 1, and the period of the maximal suffix of the [l] elements
    at [n] in the order [gt]. *)
Definition maximal_suffix (gt : Z -> Z -> bool) (n l : Z) : M (Z * Z) :=
  loop (fun '(ip, jp, k, p) =>
    if jp + k <? l then
      a ← elt n (ip + k); b ← elt n (jp + k);
      if a =? b then
        if k =? p then mret (inl (ip, jp + p, 1, p)) else mret (inl (ip, jp, k + 1, p))
      else if gt a b then
        let jp := jp + k in mret (inl (ip, jp, 1, jp - ip))
      else mret (inl (jp, jp + 1, 1, 1))
    else mret (inr (ip, p))) (-1, 0, 1, 1).

(** [ms], [p] and [mem0]; [cmp] is [memcmp] or [wmemcmp]. *)
Definition critical (cmp : Z -> Z -> Z -> M Z) (n l : Z) : M (Z * Z * Z) :=
  '(ms, p0) ← maximal_suffix (fun a b => a >? b) n l;
  '(ip, p) ← maximal_suffix (fun a b => a <? b) n l;
  let '(ms, p) := if ip + 1 >? ms + 1 then (ip, p) else (ms, p0) in
  c ← cmp n (n + size * p) (ms + 1);
  if negb (c =? 0) then mret (ms, Z.max (u64 ms) (l - ms - 1) + 1, 0)
  else mret (ms, p, l - p).

(** The comparison of the right and of the left half, up to the next turn of
    the search loop; [more k] tests whether the needle has an element [k]. *)
Definition compare (more : Z -> M bool) (n ms p mem0 h mem : Z) : M (Z * Z + Z) :=
  k ← while (fun k => t ← more k; t &&& (a ← elt n k; b ← elt h k; mret (a =? b)))
            (fun k => mret (k + 1)) (Z.max (ms + 1) mem);
  t ← more k;
  if (t : bool) then mret (inl (h + size * (k - ms), 0))
  else
    k ← while (fun k => (k >? mem) &&& (a ← elt n (k - 1); b ← elt h (k - 1); mret (a =? b)))
              (fun k => mret (k - 1)) (ms + 1);
    if k <=? mem then mret (inr h) else mret (inl (h + size * p, mem0)).
End twoway.

Section search.
Context {F : Fuel}.

(** ** The shift table *)
Definition byteset0 : list Z := [0; 0; 0; 0].

Definition bitop_or (a : list Z) (b : Z) : list Z :=
  alter (fun w => w .| (1 << (b mod 64))) (Z.to_nat (b / 64)) a.

Definition bitop_and (a : list Z) (b : Z) : Z := (a !!! Z.to_nat (b / 64)) & (1 << (b mod 64)).

Abbreviation table := (list Z * gmap Z Z)%type.

Definition enter (t : table) (b i : Z) : table := (bitop_or t.1 b, <[b := i + 1]> t.2).

(** How far the byte at the end of the window lets the window move. *)
Definition bad_char (t : table) (l p mem0 mem h : Z) : M (option Z) :=
  c ← load8 (h + (l - 1));
  if negb (bitop_and t.1 c =? 0) then
    match t.2 !! c with
    | None => fault
    | Some s =>
        let k := l - s in
        if negb (k =? 0) then
          mret (Some (if negb (mem0 =? 0) && negb (mem =? 0) && (k <? p) then l - p else k))
        else mret None
    end
  else mret (Some l).

(** One turn of the search loops of memmem.c and strstr.c. *)
Definition turn (more : Z -> M bool) (t : table) (n l ms p mem0 h mem : Z) : M (Z * Z + Z) :=
  a ← bad_char t l p mem0 mem h;
  match a with
  | Some k => mret (inl (h + k, 0))
  | None => compare 1 load8 more n ms p mem0 h mem
  end.

(** ** memmem.c *)

(** [z - h] is compared as a number: [h] never passes [z], so the conversion to [size_t] changes nothing. *)
Definition fill_memmem (n l : Z) : M table :=
  loop (fun '(i, t) =>
    if i <? l then b ← load8 (n + i); mret (inl (i + 1, enter t b i)) else mret (inr t)) (0, (byteset0, ∅)).

Definition twoway_memmem (h z n l : Z) : M Z :=
  t ← fill_memmem n l;
  '(ms, p, mem0) ← critical 1 load8 memcmp n l;
  loop (fun '(h, mem) =>
    if z - h <? l then mret (inr 0)
    else turn (fun k => mret (k <? l)) t n l ms p mem0 h mem) (h, 0).

(** The searches for short needles: [hw] holds the last bytes, [next] shifts
    another one in. *)
Definition short_memmem (len : Z) (next : Z -> Z -> Z) (nw hw h k : Z) : M Z :=
  loop (fun '(h, k, hw) =>
    if negb (k =? 0) then
      if hw =? nw then mret (inr (h - len))
      else c ← load8 h; mret (inl (h + 1, k - 1, next hw c))
    else mret (inr (if hw =? nw then h - len else 0))) (h + len, k - len, hw).

Definition twobyte_word (a b : Z) : Z := u16 ((a << 8) .| b).
Definition threebyte_word (a b c : Z) : Z := u32 ((a << 24) .| (b << 16) .| (c << 8)).
Definition fourbyte_word (a b c d : Z) : Z := u32 ((a << 24) .| (b << 16) .| (c << 8) .| d).

Definition twobyte_next (hw c : Z) : Z := u16 ((hw << 8) .| c).
Definition threebyte_next (hw c : Z) : Z := u32 ((hw .| c) << 8).
Definition fourbyte_next (hw c : Z) : Z := u32 (u32 (hw << 8) .| c).

Definition word2 (p : Z) : M Z := a ← load8 p; b ← load8 (p + 1); mret (twobyte_word a b).
Definition word3 (p : Z) : M Z :=
  a ← load8 p; b ← load8 (p + 1); c ← load8 (p + 2); mret (threebyte_word a b c).
Definition word4 (p : Z) : M Z :=
  a ← load8 p; b ← load8 (p + 1); c ← load8 (p + 2); d ← load8 (p + 3); mret (fourbyte_word a b c d).

Definition twobyte_memmem (h k n : Z) : M Z := nw ← word2 n; hw ← word2 h; short_memmem 2 twobyte_next nw hw h k.
Definition threebyte_memmem (h k n : Z) : M Z := nw ← word3 n; hw ← word3 h; short_memmem 3 threebyte_next nw hw h k.
Definition fourbyte_memmem (h k n : Z) : M Z := nw ← word4 n; hw ← word4 h; short_memmem 4 fourbyte_next nw hw h k.

Definition memmem (h0 k n0 l : Z) : M Z :=
  let h := h0 in
  let n := n0 in
  if l =? 0 then mret h
  else if k <? l then mret 0
  else
    c ← load8 n;
    h ← memchr h0 c k;
    if (h =? 0) || (l =? 1) then mret h
    else
      let k := k - (h - h0) in
      if k <? l then mret 0
      else if l =? 2 then twobyte_memmem h k n
      else if l =? 3 then threebyte_memmem h k n
      else if l =? 4 then fourbyte_memmem h k n
      else twoway_memmem h (h + k) n l.

(** ** strstr.c *)
Definition fill_strstr (n h : Z) : M (Z * table) :=
  loop (fun '(l, t) =>
    b ← load8 (n + l);
    go ← negb (b =? 0) &&& (c ← load8 (h + l); mret (negb (c =? 0)));
    if (go : bool) then mret (inl (l + 1, enter t b l)) else mret (inr (l, t))) (0, (byteset0, ∅)).

(** The pointer to the end of what is known of the haystack, moved on if less
    than [l] bytes of it lie ahead; [None] if the haystack ends there. *)
Definition extend_strstr (l h z : Z) : M (option Z) :=
  if z - h <? l then
    let grow := l .| 63 in
    z2 ← memchr z 0 grow;
    if negb (z2 =? 0) then mret (if z2 - h <? l then None else Some z2)
    else mret (Some (z + grow))
  else mret (Some z).

Definition twoway_strstr (h n : Z) : M Z :=
  '(l, t) ← fill_strstr n h;
  e ← load8 (n + l);
  if negb (e =? 0) then mret 0
  else
    '(ms, p, mem0) ← critical 1 load8 memcmp n l;
    loop (fun '(h, z, mem) =>
      r ← extend_strstr l h z;
      match r with
      | None => mret (inr 0)
      | Some z =>
          r ← turn (fun k => c ← load8 (n + k); mret (negb (c =? 0))) t n l ms p mem0 h mem;
          match r with inl (h, mem) => mret (inl (h, z, mem)) | inr h => mret (inr h) end
      end) (h, h, 0).

Definition short_strstr (len : Z) (next : Z -> Z -> Z) (nw hw h : Z) : M Z :=
  '(h, _) ← while (fun '(h, hw) => c ← load8 h; mret (negb (c =? 0) && negb (hw =? nw)))
                  (fun '(h, hw) => c ← load8 (h + 1); mret (h + 1, next hw c)) (h + (len - 1), hw);
  c ← load8 h;
  mret (if negb (c =? 0) then h - (len - 1) else 0).

Definition twobyte_strstr (h n : Z) : M Z := nw ← word2 n; hw ← word2 h; short_strstr 2 twobyte_next nw hw h.
Definition threebyte_strstr (h n : Z) : M Z := nw ← word3 n; hw ← word3 h; short_strstr 3 threebyte_next nw hw h.
Definition fourbyte_strstr (h n : Z) : M Z := nw ← word4 n; hw ← word4 h; short_strstr 4 fourbyte_next nw hw h.

Definition strstr (h n : Z) : M Z :=
  n0 ← load8 n;
  if n0 =? 0 then mret h
  else
    h ← strchr h n0;
    if h =? 0 then mret h
    else
      n1 ← load8 (n + 1);
      if n1 =? 0 then mret h
      else
        h1 ← load8 (h + 1);
        if h1 =? 0 then mret 0
        else
          n2 ← load8 (n + 2);
          if n2 =? 0 then twobyte_strstr h n
          else
            h2 ← load8 (h + 2);
            if h2 =? 0 then mret 0
            else
              n3 ← load8 (n + 3);
              if n3 =? 0 then threebyte_strstr h n
              else
                h3 ← load8 (h + 3);
                if h3 =? 0 then mret 0
                else
                  n4 ← load8 (n + 4);
                  if n4 =? 0 then fourbyte_strstr h n
                  else twoway_strstr h n.

(** ** wcsstr.c, and the functions on wide characters that it calls *)
Definition ldw (p : Z) : M Z := w ← load32 p; mret (s32 w).

Definition wcslen (s : Z) : M Z :=
  a ← while (fun s => c ← ldw s; mret (negb (c =? 0))) (fun s => mret (s + 4)) s;
  mret ((a - s) / 4).

Definition wcschr (s c : Z) : M Z :=
  if c =? 0 then n ← wcslen s; mret (s + 4 * n)
  else
    s ← while (fun s => x ← ldw s; mret (negb (x =? 0) && negb (x =? c))) (fun s => mret (s + 4)) s;
    x ← ldw s;
    mret (if negb (x =? 0) then s else 0).

Definition wmemchr (s c n : Z) : M Z :=
  '(s, n) ← while (fun '(s, n) => negb (n =? 0) &&& (x ← ldw s; mret (negb (x =? c))))
                  (fun '(s, n) => mret (s + 4, n - 1)) (s, n);
  mret (if negb (n =? 0) then s else 0).

Definition wmemcmp (l r n : Z) : M Z :=
  '(l, r, n) ← while (fun '(l, r, n) => negb (n =? 0) &&& (a ← ldw l; b ← ldw r; mret (a =? b)))
                     (fun '(l, r, n) => mret (l + 4, r + 4, n - 1)) (l, r, n);
  if negb (n =? 0) then a ← ldw l; b ← ldw r; mret (s32 (a - b)) else mret 0.

Definition length_wcsstr (n h : Z) : M Z :=
  while (fun l => b ← ldw (n + 4 * l); negb (b =? 0) &&& (c ← ldw (h + 4 * l); mret (negb (c =? 0))))
        (fun l => mret (l + 1)) 0.

Definition extend_wcsstr (l h z : Z) : M (option Z) :=
  if (z - h) / 4 <? l then
    let grow := l .| 63 in
    z2 ← wmemchr z 0 grow;
    if negb (z2 =? 0) then mret (if (z2 - h) / 4 <? l then None else Some z2)
    else mret (Some (z + 4 * grow))
  else mret (Some z).

Definition twoway_wcsstr (h n : Z) : M Z :=
  l ← length_wcsstr n h;
  e ← ldw (n + 4 * l);
  if negb (e =? 0) then mret 0
  else
    '(ms, p, mem0) ← critical 4 ldw wmemcmp n l;
    loop (fun '(h, z, mem) =>
      r ← extend_wcsstr l h z;
      match r with
      | None => mret (inr 0)
      | Some z =>
          r ← compare 4 ldw (fun k => c ← ldw (n + 4 * k); mret (negb (c =? 0))) n ms p mem0 h mem;
          match r with inl (h, mem) => mret (inl (h, z, mem)) | inr h => mret (inr h) end
      end) (h, h, 0).

Definition wcsstr (h n : Z) : M Z :=
  n0 ← ldw n;
  if n0 =? 0 then mret h
  else
    h0 ← ldw h;
    if h0 =? 0 then mret 0
    else
      h ← wcschr h n0;
      if h =? 0 then mret h
      else
        n1 ← ldw (n + 4);
        if n1 =? 0 then mret h
        else
          h1 ← ldw (h + 4);
          if h1 =? 0 then mret 0
          else twoway_wcsstr h n.
End search.
