(* ===== verification/TwoWayCode.v ===== *)
(** The code that memmem.c, strstr.c and wcsstr.c share (Strstr.v), proved with
    the mathematics of TwoWay.v. *)
From S2P Require Import Prelude Mem Scan Memset TwoWay Strstr.

(** Equal tuples of numbers. *)
Ltac tuples := repeat match goal with |- (_, _) = (_, _) => f_equal end; lia.

(** ** One turn of the search, on words *)
Section turn.
Context (c : Z -> Z) (l : Z).
Implicit Types (G : Z -> Z) (i p d k mem : Z).

(** The word occurs in [G] at [d]. *)
Definition occ G d : Prop := forall u, 0 <= u < l -> G (d + u) = c u.

(** What is known after the preparation: the critical place [i], the shift [p],
    and how much of a match is remembered. *)
Record prepared i p mem0 : Prop := {
  pr_i : 0 <= i < l;
  pr_p : 1 <= p <= l;
  pr_rep d : 0 < d -> local_rep c l i d -> period c d 0 l /\ p <= d;
  pr_mem : mem0 = 0 \/ (mem0 = l - p /\ period c p 0 l /\ i < p) }.

(** The part of the window that is known to match. *)
Definition remembered mem0 mem G : Prop := mem = 0 \/ (mem = mem0 /\ forall u, 0 <= u < mem -> G u = c u).

Lemma rep_of_match i d k G : 0 < d -> occ G d -> (forall u, i <= u < k -> G u = c u) -> i + d <= k \/ l <= k -> k <= l ->
  local_rep c l i d.
Proof.
  intros Hd Ho Hm Hk Hl u Hu Hud Hdu. rewrite <- (Hm u) by lia. rewrite <- Ho by lia. f_equal. lia.
Qed.

(** A mismatch at [k] in the right half. *)
Lemma skip_right i p mem0 k G d : prepared i p mem0 -> i <= k < l -> (forall u, i <= u < k -> G u = c u) -> G k <> c k ->
  0 <= d < k - i + 1 -> ~ occ G d.
Proof.
  intros Hp Hk Hm Hne Hd Ho. pose proof (pr_i _ _ _ Hp). destruct (decide (d = 0)) as [->|].
  - apply Hne. specialize (Ho k ltac:(lia)). by rewrite Z.add_0_l in Ho.
  - destruct (pr_rep _ _ _ Hp d ltac:(lia)) as [Hper _]; [apply (rep_of_match i d k G); try done; lia|].
    apply Hne. specialize (Ho (k - d) ltac:(lia)). replace (d + (k - d)) with k in Ho by lia.
    rewrite Ho. rewrite (Hper (k - d)) by lia. f_equal. lia.
Qed.

(** A mismatch in the left half. *)
Lemma skip_left i p mem0 G d : prepared i p mem0 -> (forall u, i <= u < l -> G u = c u) -> ~ occ G 0 ->
  0 <= d < p -> ~ occ G d.
Proof.
  intros Hp Hm Hne Hd Ho. pose proof (pr_i _ _ _ Hp). destruct (decide (d = 0)) as [->|]; [done|].
  destruct (pr_rep _ _ _ Hp d ltac:(lia)) as [_ Hle]; [apply (rep_of_match i d l G); try done; lia|lia].
Qed.

Lemma remember i p mem0 G : prepared i p mem0 -> (forall u, i <= u < l -> G u = c u) -> remembered mem0 mem0 (fun u => G (p + u)).
Proof.
  intros Hp Hm. destruct (pr_mem _ _ _ Hp) as [->|(-> & Hper & Hip)]; [by left|right]. split; [done|].
  intros u Hu. rewrite Hm by lia. rewrite (Hper u) by lia. f_equal. lia.
Qed.

(** A mismatch of the last letter when a match is remembered. *)
Lemma skip_remembered i p mem0 mem G d : prepared i p mem0 -> remembered mem0 mem G -> mem0 <> 0 -> mem <> 0 -> G (l - 1) <> c (l - 1) ->
  0 <= d < l - p -> ~ occ G d.
Proof.
  intros Hp Hr H0 Hmem Hne Hd Ho. destruct Hr as [|[-> Hr]]; [done|].
  destruct (pr_mem _ _ _ Hp) as [|(-> & Hper & Hip)]; [done|]. pose proof (pr_p _ _ _ Hp).
  destruct (decide (d = 0)) as [->|].
  - apply Hne. specialize (Ho (l - 1) ltac:(lia)). by rewrite Z.add_0_l in Ho.
  - apply Hne. pose proof (Ho (l - 1 - d) ltac:(lia)) as H1. replace (d + (l - 1 - d)) with (l - 1) in H1 by lia. rewrite H1.
    pose proof (Ho (l - 1 - d - p) ltac:(lia)) as H2. replace (d + (l - 1 - d - p)) with (l - 1 - p) in H2 by lia.
    rewrite Hr in H2 by lia. pose proof (Hper (l - 1 - d - p) ltac:(lia) ltac:(lia)) as H3.
    pose proof (Hper (l - 1 - p) ltac:(lia) ltac:(lia)) as H4.
    replace (l - 1 - d - p + p) with (l - 1 - d) in H3 by lia. replace (l - 1 - p + p) with (l - 1) in H4 by lia. congruence.
Qed.
End turn.

#[export] Instance gtb_order : LetterOrder (fun a b => a >? b).
Proof. split; intros; rewrite ?Z.gtb_ltb in *; lia. Qed.

#[export] Instance ltb_order : LetterOrder (fun a b => a <? b).
Proof. split; intros; lia. Qed.

#[export] Instance gtb_order' : LetterOrder (fun a b => b >? a).
Proof. split; intros; rewrite ?Z.gtb_ltb in *; lia. Qed.

#[export] Instance ltb_order' : LetterOrder (fun a b => b <? a).
Proof. split; intros; lia. Qed.

Lemma max_suffix_ext c l gt gt' i : (forall a b, gt a b = gt' a b) -> max_suffix c l gt i -> max_suffix c l gt' i.
Proof.
  intros He Hm s Hs Hne. destruct (Hm s Hs Hne) as [(t & H0 & H1 & H2 & H3 & H4)|]; [left|by right].
  exists t. by rewrite He in H4.
Qed.

(** ** The shared code *)
Section shared.
Context {F : Fuel} (size : Z) (ld : Z -> M Z) (m : mem).

(** Reading the elements at [p]. *)
Definition reads (p : Z) (f : Z -> Z) (len : Z) : Prop :=
  forall i (Q : Z -> mem -> Prop), 0 <= i < len -> Q (f i) m -> wp (elt size ld p i) m Q.

Context (n : Z) (c : Z -> Z) (l : Z) (Hn : reads n c l) (Hl : 1 <= l < 2 ^ 64) (Hf : 2 * l + 2 < Z.of_nat fuel).

Lemma wp_maximal_suffix gt {HO : LetterOrder gt} Q : (forall i p, maximal c l gt i p -> Q (i - 1, p) m) ->
  wp (maximal_suffix size ld gt n l) m Q.
Proof.
  intros HQ. unfold maximal_suffix.
  apply (wp_loop (fun s m1 => m1 = m /\ exists i j k p, s = (i - 1, j - 1, k + 1, p) /\ scan c l gt i j k p)
    (fun s => let '(ip, jp, k, p) := s in Z.to_nat (2 * l - (ip + jp + k)))); [| |cbn; lia].
  2: { split; [done|]. exists 0, 1, 0, 1. split; [done|]. apply scan_start. lia. }
  intros s m1 [-> (i & j & k & p & -> & Hs)]. pose proof Hs as [Hi Hk (q & Hq & Hj) Hle _ _ _].
  assert (Hij : i + p <= j) by nia.
  replace (j - 1 + (k + 1)) with (j + k) by lia. replace (i - 1 + (k + 1)) with (i + k) by lia.
  destruct (Z.ltb_spec (j + k) l) as [Hlt|Hge].
  2: { apply wp_ret, HQ. apply (scan_end c l gt i j k); [done|lia]. }
  apply wp_bind, Hn; [lia|]. apply wp_bind, Hn; [lia|]. destruct (Z.eqb_spec (c (i + k)) (c (j + k))) as [Heq|Hne].
  - pose proof (scan_eq c l gt i j k p Hs Hlt Heq) as Hs'. destruct (Z.eqb_spec (k + 1) p) as [Hkp|Hkp]; apply wp_ret; (split; [split; [done|]|lia]).
    + exists i, (j + p), 0, p. split; [tuples|done].
    + exists i, j, (k + 1), p. by split.
  - destruct (gt (c (i + k)) (c (j + k))) eqn:Hgt; apply wp_ret; (split; [split; [done|]|lia]).
    + exists i, (j + k + 1), 0, (j + k + 1 - i). split; [tuples|]. by apply (scan_gt c l gt i j k p).
    + exists j, (j + 1), 0, 1. split; [tuples|]. apply (scan_lt c l gt i j k p); [done..|]. by apply gt_total.
Qed.

(** The periods of the critical place. *)
Lemma prepared_of gt {HO : LetterOrder gt} {HO' : LetterOrder (fun a b => gt b a)} i j p r :
  maximal c l gt i p -> max_suffix c l (fun a b => gt b a) j -> 0 <= j <= i ->
  (r = 0 <-> forall u, 0 <= u < i -> c u = c (u + p)) ->
  if negb (r =? 0) then prepared c l i (Z.max (u64 (i - 1)) (l - (i - 1) - 1) + 1) 0 else prepared c l i p (l - p).
Proof.
  intros Hm Hm' Hj Hr. pose proof Hm as [Hi Hp _ Hper _].
  assert (Hrep : forall d, 0 < d -> local_rep c l i d -> i < d /\ period c d 0 l) by (intros d; by apply (critical_rep c l gt i j p)).
  destruct (Z.eqb_spec r 0) as [H0|H0]; cbn [negb].
  - assert (Hall : period c p 0 l).
    { intros u Hu Hup. destruct (Z.lt_ge_cases u i); [apply Hr; [done|lia]|by apply Hper]. }
    split; [done|lia| |right].
    + intros d Hd Hd'. destruct (Hrep d Hd Hd') as [_ Hd2]. split; [done|]. destruct (Z.lt_ge_cases d p) as [Hlt|]; [|done].
      destruct (maximal_least c l gt i p d Hm ltac:(lia)). intros u Hu Hup. apply Hd2; lia.
    + split; [done|]. split; [done|]. apply (Hrep p); [lia|]. apply period_local_rep; [lia|lia|done].
  - assert (Hi1 : 1 <= i).
    { destruct (Z.lt_ge_cases i 1); [|done]. destruct H0. apply Hr. lia. }
    rewrite u64_id by lia. 
    split; [done|lia| |by left]. intros d Hd Hd'. destruct (Hrep d Hd Hd') as [Hid Hd2]. split; [done|].
    destruct (Z.lt_ge_cases d (Z.max (i - 1) (l - (i - 1) - 1) + 1)) as [Hlt|]; [|lia].
    destruct H0. apply Hr. intros u Hu. apply (critical_period c l gt i j p Hm Hm' Hj d); [lia|done|done].
Qed.

(** The comparison of two parts of the needle. *)
Definition compares (cmp : Z -> Z -> Z -> M Z) : Prop :=
  forall p i (Q : Z -> mem -> Prop), 1 <= p -> 0 <= i -> i + p <= l ->
  (forall r, (r = 0 <-> forall u, 0 <= u < i -> c u = c (u + p)) -> Q r m) -> wp (cmp n (n + size * p) i) m Q.

Lemma wp_critical cmp Q : compares cmp ->
  (forall i p mem0, prepared c l i p mem0 -> Q (i - 1, p, mem0) m) -> wp (critical size ld cmp n l) m Q.
Proof.
  intros Hcmp HQ. unfold critical. apply wp_bind, wp_maximal_suffix; [apply _|]. intros i1 p1 H1. cbn beta iota.
  apply wp_bind, wp_maximal_suffix; [apply _|]. intros i2 p2 H2. cbn beta iota.
  assert (Hfin : forall i p, 0 <= i -> 1 <= p -> i + p <= l ->
    (forall r, (r = 0 <-> forall u, 0 <= u < i -> c u = c (u + p)) ->
      if negb (r =? 0) then prepared c l i (Z.max (u64 (i - 1)) (l - (i - 1) - 1) + 1) 0 else prepared c l i p (l - p)) ->
    wp (r ← cmp n (n + size * p) (i - 1 + 1);
        if negb (r =? 0) then mret (i - 1, Z.max (u64 (i - 1)) (l - (i - 1) - 1) + 1, 0) else mret (i - 1, p, l - p)) m Q).
  { intros i p Hi Hp Hip Hpr. rewrite Z.sub_add. apply wp_bind, Hcmp; [lia..|]. intros r Hr. specialize (Hpr r Hr).
    destruct (negb (r =? 0)); apply wp_ret, HQ, Hpr. }
  pose proof H1 as [? ? Hm1 _ _]. pose proof H2 as [? ? Hm2 _ _]. rewrite !Z.sub_add, Z.gtb_ltb.
  destruct (Z.ltb_spec i1 i2) as [Hlt|Hge]; apply Hfin; try lia; intros r Hr.
  - apply (prepared_of (fun a b => a <? b) i2 i1); [done| |lia|done].
    apply (max_suffix_ext c l (fun a b => a >? b)); [|done]. intros a b. apply Z.gtb_ltb.
  - apply (prepared_of (fun a b => a >? b) i1 i2); [done| |lia|done].
    apply (max_suffix_ext c l (fun a b => a <? b)); [|done]. intros a b. symmetry. apply Z.gtb_ltb.
Qed.

(** One comparison of the needle with the [l] elements at [h]. *)
Lemma wp_compare more i p mem0 mem h g Q : prepared c l i p mem0 -> remembered c mem0 mem g -> reads h g l ->
  (forall k (Q : bool -> _), 0 <= k <= l -> Q (k <? l) m -> wp (more k) m Q) ->
  (occ c l g 0 -> Q (inr h) m) ->
  (forall k mem', 1 <= k <= l -> (forall d, 0 <= d < k -> ~ occ c l g d) -> remembered c mem0 mem' (fun u => g (k + u)) ->
     Q (inl (h + size * k, mem')) m) ->
  wp (compare size ld more n (i - 1) p mem0 h mem) m Q.
Proof.
  intros Hp Hr Hh Hmore Hfound Hnext. unfold compare. rewrite Z.sub_add. pose proof (pr_i _ _ _ _ _ Hp) as Hi. pose proof (pr_p _ _ _ _ _ Hp) as Hp1.
  assert (Hmem : 0 <= mem < l /\ forall u, 0 <= u < mem -> g u = c u).
  { destruct Hr as [->|[-> Hr]]; [split; lia|]. split; [|done]. destruct (pr_mem _ _ _ _ _ Hp) as [->|[-> _]]; lia. }
  destruct Hmem as [Hmem Hmatch]. apply wp_bind.
  apply (wp_while (fun k m1 => m1 = m /\ Z.max i mem <= k <= l /\ forall u, i <= u < k -> g u = c u) (fun k => Z.to_nat (l - k))); [| |lia].
  2: { split; [done|]. split; [lia|]. intros u Hu. apply Hmatch. lia. }
  intros k m1 (-> & Hk & Hkm). apply wp_bind, Hmore; [lia|]. apply wp_andM.
  - intros Hlt%Z.ltb_lt. apply wp_bind, Hn; [lia|]. apply wp_bind, Hh; [lia|]. apply wp_ret.
    destruct (Z.eqb_spec (c k) (g k)) as [Heq|Hne].
    + apply wp_ret. split; [|lia]. split; [done|]. split; [lia|]. intros u Hu. destruct (decide (u = k)) as [->|]; [done|apply Hkm; lia].
    + apply wp_bind, Hmore; [lia|]. rewrite (proj2 (Z.ltb_lt k l) Hlt). apply wp_ret. replace (k - (i - 1)) with (k - i + 1) by lia.
      apply Hnext; [lia| |by left]. intros d Hd. apply (skip_right c l i p mem0 k); [done|lia|done|congruence|lia].
  - intros Hge%Z.ltb_ge. assert (k = l) as -> by lia. apply wp_bind, Hmore; [lia|]. rewrite Z.ltb_irrefl. apply wp_bind.
    apply (wp_while (fun k m1 => m1 = m /\ 0 <= k <= i /\ forall u, k <= u < l -> g u = c u) Z.to_nat); [|split; [done|]; split; [lia|done]|lia].
    intros k m1 (-> & Hk' & Hkm'). rewrite Z.gtb_ltb. apply wp_andM.
    + intros Hlt%Z.ltb_lt. apply wp_bind, Hn; [lia|]. apply wp_bind, Hh; [lia|]. apply wp_ret.
      destruct (Z.eqb_spec (c (k - 1)) (g (k - 1))) as [Heq|Hne].
      * apply wp_ret. split; [|lia]. split; [done|]. split; [lia|]. intros u Hu. destruct (decide (u = k - 1)) as [->|]; [done|apply Hkm'; lia].
      * destruct (Z.leb_spec k mem); [lia|]. apply wp_ret, Hnext; [lia| |by apply (remember c l i)].
        intros d Hd. apply (skip_left c l i p mem0); [done|done| |done]. intros Ho. apply Hne. symmetry. apply (Ho (k - 1)). lia.
    + intros Hge'%Z.ltb_ge. destruct (Z.leb_spec k mem); [|lia]. apply wp_ret, Hfound. intros u Hu.
      rewrite Z.add_0_l. destruct (Z.lt_ge_cases u mem); [apply Hmatch; lia|apply Hkm'; lia].
Qed.
End shared.
