(* ===== verification/Occurs.v ===== *)
(** Substrings of lists, and the shift table of the string searches (Strstr.v):
    [find_sub] is the reference that memmem.c, strstr.c and wcsstr.c are compared with. *)
From S2P Require Import Prelude Mem Scan Memset TwoWay Strstr TwoWayCode.
Open Scope c_scope.

(** ** The shift table *)
Lemma land_bit w k : 0 <= k -> (w & (1 << k) =? 0) = negb (Z.testbit w k).
Proof.
  intros Hk. rewrite Z.shiftl_1_l. destruct (Z.testbit w k) eqn:Hb; cbn [negb].
  - apply Z.eqb_neq. intros H0. apply (f_equal (fun z => Z.testbit z k)) in H0.
    by rewrite Z.land_spec, Hb, Z.pow2_bits_true, Z.bits_0 in H0 by lia.
  - apply Z.eqb_eq, Z.bits_inj'. intros i Hi. rewrite Z.land_spec, Z.bits_0, Z.pow2_bits_eqb by lia.
    destruct (Z.eqb_spec k i) as [<-|]; [by rewrite Hb|by rewrite andb_false_r].
Qed.

Definition in_set (a : list Z) (b : Z) : bool := negb (bitop_and a b =? 0).

Lemma bitop_or_spec a b b' : length a = 4%nat -> byte b -> byte b' ->
  in_set (bitop_or a b) b' = in_set a b' || (b =? b').
Proof.
  unfold byte, in_set, bitop_and, bitop_or. intros Ha Hb Hb'.
  rewrite !land_bit, !negb_involutive by (apply Z.mod_pos_bound; lia).
  destruct (decide (b / 64 = b' / 64)) as [Hd|Hd].
  - rewrite Hd. assert (Hlt : (Z.to_nat (b' / 64) < length a)%nat) by (rewrite Ha; mlia).
    apply lookup_lt_is_Some in Hlt as [w Hw]. rewrite list_lookup_total_alter_eq by (by apply lookup_lt_Some in Hw).
    rewrite (list_lookup_total_correct _ _ _ Hw). rewrite Z.lor_spec, Z.shiftl_1_l, Z.pow2_bits_eqb by (apply Z.mod_pos_bound; lia).
    f_equal. apply eq_true_iff_eq. rewrite !Z.eqb_eq. mlia.
  - rewrite list_lookup_total_alter_ne by mlia. destruct (Z.eqb_spec b b') as [->|]; [done|]. by rewrite orb_false_r.
Qed.

(** The table after the first [i] letters of [c]. *)
Definition table_ok (t : list Z * gmap Z Z) (c : Z -> Z) (i : Z) : Prop :=
  length t.1 = 4%nat /\ forall b, byte b ->
    if in_set t.1 b then exists j, 0 <= j < i /\ t.2 !! b = Some (j + 1) /\ c j = b /\ forall u, j < u < i -> c u <> b
    else forall u, 0 <= u < i -> c u <> b.

Lemma table_start c : table_ok (byteset0, ∅) c 0.
Proof.
  split; [done|]. intros b Hb.
  assert (H : negb (in_set byteset0 b) = true) by (apply (byte_forall (fun b => negb (in_set byteset0 b))); [by vm_compute|done]).
  apply negb_true_iff in H. cbn [fst]. rewrite H. lia.
Qed.

Lemma table_enter t c i : 0 <= i -> byte (c i) -> table_ok t c i -> table_ok (enter t (c i) i) c (i + 1).
Proof.
  intros Hi Hc [Hlen Ht]. unfold enter. split; [cbn; unfold bitop_or; by rewrite length_alter|].
  intros b Hb. cbn [fst snd]. rewrite bitop_or_spec by done. specialize (Ht b Hb). destruct (Z.eqb_spec (c i) b) as [Heq|Hne].
  - rewrite orb_true_r. exists i. split; [lia|]. rewrite Heq, lookup_insert_eq. split; [done|]. split; [done|]. lia.
  - rewrite orb_false_r. destruct (in_set t.1 b).
    + destruct Ht as (j & Hj & Hl & Hcj & Hu). exists j. split; [lia|]. rewrite lookup_insert_ne by done.
      split; [done|]. split; [done|]. intros u Hu'. destruct (decide (u = i)) as [->|]; [done|apply Hu; lia].
    + intros u Hu. destruct (decide (u = i)) as [->|]; [done|apply Ht; lia].
Qed.

(** ** The first occurrence of a list in another *)
Fixpoint prefixb (n h : list Z) : bool :=
  match n, h with
  | [], _ => true
  | a :: n, b :: h => (a =? b) && prefixb n h
  | _ :: _, [] => false
  end.

Fixpoint find_sub (n h : list Z) : option nat :=
  if prefixb n h then Some O else match h with [] => None | _ :: h => S <$> find_sub n h end.

(** [n] occurs in [h] at [d]. *)
Definition occurs (n h : list Z) (d : nat) : Prop := take (length n) (drop d h) = n.

#[export] Instance occurs_dec n h d : Decision (occurs n h d).
Proof. unfold occurs. apply _. Defined.

Lemma prefixb_spec n h : prefixb n h = true <-> occurs n h 0.
Proof.
  unfold occurs. rewrite drop_0. revert h. induction n as [|a n IH]; intros [|b h]; cbn; [done..|].
  rewrite andb_true_iff, IH, Z.eqb_eq. split; [intros [-> ->]; done|intros [= -> ->]; done].
Qed.

(** [find_sub] is the first place where [n] occurs. *)
Lemma find_sub_spec n h :
  match find_sub n h with
  | Some d => occurs n h d /\ forall d', (d' < d)%nat -> ~ occurs n h d'
  | None => forall d, ~ occurs n h d
  end.
Proof.
  induction h as [|b h IH]; cbn [find_sub]; (destruct (prefixb n _) eqn:Hp; [apply prefixb_spec in Hp; split; [done|lia]|]).
  - intros d Hd. unfold occurs in Hd. rewrite drop_nil in Hd. apply not_true_iff_false in Hp. by rewrite prefixb_spec in Hp.
  - apply not_true_iff_false in Hp. rewrite prefixb_spec in Hp. destruct (find_sub n h) as [d|]; cbn [fmap option_fmap option_map].
    + destruct IH as [IH1 IH2]. split; [done|]. intros [|d'] Hd'; [done|]. apply IH2. lia.
    + intros [|d]; [done|]. apply IH.
Qed.

Lemma find_sub_found n h d : occurs n h d -> (forall d', (d' < d)%nat -> ~ occurs n h d') -> find_sub n h = Some d.
Proof.
  intros Ho Hb. pose proof (find_sub_spec n h) as Hs. destruct (find_sub n h) as [e|]; [|by destruct (Hs d)].
  destruct Hs as [Hs1 Hs2]. f_equal. destruct (Nat.lt_trichotomy d e) as [H|[H|H]]; [by destruct (Hs2 d)|done|by destruct (Hb e)].
Qed.

Lemma find_sub_none n h : (forall d, ~ occurs n h d) -> find_sub n h = None.
Proof.
  intros Hn. pose proof (find_sub_spec n h) as Hs. destruct (find_sub n h) as [e|]; [|done]. destruct Hs as [Ho _]. by destruct (Hn e).
Qed.

Lemma occurs_drop n h k d : occurs n (drop k h) d <-> occurs n h (k + d).
Proof. unfold occurs. by rewrite drop_drop. Qed.

(** What is before the first place where [n] can occur does not matter. *)
Lemma find_sub_skip n h k : (forall d, (d < k)%nat -> ~ occurs n h d) -> find_sub n h = Nat.add k <$> find_sub n (drop k h).
Proof.
  intros Hk. pose proof (find_sub_spec n (drop k h)) as Hs. destruct (find_sub n (drop k h)) as [e|]; cbn.
  - destruct Hs as [Hs1 Hs2]. apply find_sub_found; [by apply occurs_drop|]. intros d Hd. destruct (decide (d < k)%nat); [by apply Hk|].
    replace d with (k + (d - k))%nat by lia. rewrite <- occurs_drop. apply Hs2. lia.
  - apply find_sub_none. intros d. destruct (decide (d < k)%nat); [by apply Hk|]. replace d with (k + (d - k))%nat by lia.
    rewrite <- occurs_drop. apply Hs.
Qed.

(** The letter of a list. *)
Definition at_ (l : list Z) (u : Z) : Z := l !!! Z.to_nat u.

Lemma occurs_occ n h (d : nat) : n <> [] ->
  occurs n h d <-> (d + length n <= length h)%nat /\ occ (at_ n) (Z.of_nat (length n)) (at_ h) (Z.of_nat d).
Proof.
  intros Hn. assert (Hl : (1 <= length n)%nat) by (destruct n; cbn; [done|lia]). unfold occurs, occ, at_. split.
  - intros Ho. assert (Hlen : (d + length n <= length h)%nat).
    { apply (f_equal length) in Ho. rewrite length_take, length_drop in Ho. lia. }
    split; [done|]. intros u Hu. rewrite <- Ho at 1. rewrite !list_lookup_total_alt, lookup_take_lt, lookup_drop by lia.
    do 2 f_equal. lia.
  - intros [Hlen Ho]. apply list_eq_same_length with (n := length n); [done|rewrite length_take, length_drop; lia|].
    intros i x y Hi Hx Hy. rewrite lookup_take_lt, lookup_drop in Hx by lia. specialize (Ho (Z.of_nat i) ltac:(lia)).
    rewrite !list_lookup_total_alt in Ho. replace (Z.to_nat (Z.of_nat d + Z.of_nat i)) with (d + i)%nat in Ho by lia.
    rewrite Nat2Z.id, Hx, Hy in Ho. done.
Qed.

(** What the search loops establish. *)
Lemma find_sub_at n h pos : n <> [] -> 0 <= pos -> pos + Z.of_nat (length n) <= Z.of_nat (length h) ->
  (forall d, 0 <= d < pos -> ~ occ (at_ n) (Z.of_nat (length n)) (at_ h) d) ->
  occ (at_ n) (Z.of_nat (length n)) (at_ h) pos -> find_sub n h = Some (Z.to_nat pos).
Proof.
  intros Hn Hp Hle Hb Ho. apply find_sub_found.
  - apply occurs_occ; [done|]. split; [lia|]. by rewrite Z2Nat.id.
  - intros d Hd [_ Hd']%occurs_occ; [|done]. apply (Hb (Z.of_nat d)); [lia|done].
Qed.

Lemma find_sub_end n h pos : n <> [] -> Z.of_nat (length h) - pos < Z.of_nat (length n) ->
  (forall d, 0 <= d < pos -> ~ occ (at_ n) (Z.of_nat (length n)) (at_ h) d) -> find_sub n h = None.
Proof.
  intros Hn Hle Hb. apply find_sub_none. intros d [Hd1 Hd2]%occurs_occ; [|done]. apply (Hb (Z.of_nat d)); [lia|done].
Qed.
