(* ===== verification/Memmem.v ===== *)
(** [memmem] finds the first occurrence: string/memmem.c. *)
From S2P Require Import Prelude Mem Scan Memset TwoWay Strstr TwoWayCode Occurs.
Open Scope c_scope.

(** ** Reading bytes *)
Lemma at_lookup l i v : l !! i = Some v -> at_ l (Z.of_nat i) = v.
Proof. intros H. unfold at_. rewrite Nat2Z.id. by apply list_lookup_total_correct. Qed.

Lemma at_Some l i : 0 <= i < Z.of_nat (length l) -> l !! Z.to_nat i = Some (at_ l i).
Proof. intros Hi. apply list_lookup_lookup_total_lt. lia. Qed.

Lemma at_byte l i : bytes l -> 0 <= i < Z.of_nat (length l) -> byte (at_ l i).
Proof. intros Hl Hi. eapply Forall_lookup_1; [exact Hl|by apply at_Some]. Qed.

Lemma wp_load_at m p l i a Q : bytes_at m p l -> 0 <= i < Z.of_nat (length l) -> a = p + i -> Q (at_ l i) m -> wp (load8 a) m Q.
Proof.
  intros Hat Hi -> HQ. apply (wp_load8 _ _ (at_ l i)); [|done]. eapply bytes_at_lookup; [done|by apply at_Some|lia].
Qed.

Lemma reads_bytes m p l pos : bytes_at m p l -> 0 <= pos ->
  reads 1 load8 m (p + pos) (fun u => at_ l (pos + u)) (Z.of_nat (length l) - pos).
Proof. intros Hat Hp i Q Hi HQ. apply (wp_load_at m p l (pos + i)); [done|lia|lia|done]. Qed.

Lemma reads_sub size ld m p f n k : reads size ld m p f n -> k <= n -> reads size ld m p f k.
Proof. intros H Hk i Q Hi. apply H. lia. Qed.

Lemma reads_needle m p l : bytes_at m p l -> reads 1 load8 m p (at_ l) (Z.of_nat (length l)).
Proof. intros Hat i Q Hi HQ. apply (wp_load_at m p l i); [done|lia|lia|done]. Qed.

(** The outcome of a search. *)
Definition found_ptr (r : option nat) (p : Z) : Z := match r with Some d => p + Z.of_nat d | None => 0 end.

(** ** Progress in a haystack *)
Section progress.
Context (n h : list Z) (Hn : n <> []).
Abbreviation l := (Z.of_nat (length n)).
Abbreviation c := (at_ n).

Definition none_before (pos : Z) : Prop := forall d, 0 <= d < pos -> ~ occ c l (at_ h) d.

(** The haystack from [pos] on. *)
Abbreviation from pos := (fun u => at_ h (pos + u)).

Lemma none_before_0 : none_before 0.
Proof. intros d Hd. lia. Qed.

Lemma none_before_step pos k : none_before pos -> (forall d, 0 <= d < k -> ~ occ c l (from pos) d) -> none_before (pos + k).
Proof.
  intros Hb Hk d Hd. destruct (Z.lt_ge_cases d pos); [apply Hb; lia|]. intros Ho. apply (Hk (d - pos)); [lia|].
  intros u Hu. rewrite <- Ho by done. f_equal. lia.
Qed.

Lemma remembered_step mem0 mem pos k : remembered c mem0 mem (fun u => from pos (k + u)) -> remembered c mem0 mem (from (pos + k)).
Proof.
  intros [->|[-> Hr]]; [by left|right]. split; [done|]. intros u Hu. rewrite <- Hr by done. f_equal. lia.
Qed.

Lemma occ_here pos : occ c l (from pos) 0 -> occ c l (at_ h) pos.
Proof. intros Ho u Hu. by rewrite <- (Ho u Hu). Qed.

(** The comparison of the window at [pos]. *)
Lemma wp_compare_at {F : Fuel} size ld m pn ph more i p mem0 mem pos Q :
  reads size ld m pn c l -> 1 <= l < 2 ^ 64 -> 2 * l + 2 < Z.of_nat fuel ->
  prepared c l i p mem0 -> remembered c mem0 mem (from pos) -> reads size ld m (ph + size * pos) (from pos) l ->
  (forall k (Q : bool -> _), 0 <= k <= l -> Q (k <? l) m -> wp (more k) m Q) ->
  0 <= pos -> pos + l <= Z.of_nat (length h) -> none_before pos ->
  (find_sub n h = Some (Z.to_nat pos) -> Q (inr (ph + size * pos)) m) ->
  (forall pos' mem', pos < pos' <= pos + l -> none_before pos' -> remembered c mem0 mem' (from pos') ->
     Q (inl (ph + size * pos', mem')) m) ->
  wp (compare size ld more pn (i - 1) p mem0 (ph + size * pos) mem) m Q.
Proof.
  intros Hr Hl Hf Hp Hrem Hw Hmore Hpos Hle Hb Hfound Hnext.
  apply (wp_compare size ld m pn c l) with (i := i) (g := from pos); try done.
  - intros Ho. apply Hfound, find_sub_at; [done..|by apply occ_here].
  - intros k mem' Hk Hocc Hrem'. replace (ph + size * pos + size * k) with (ph + size * (pos + k)) by lia.
    apply Hnext; [lia|by apply none_before_step|by apply remembered_step].
Qed.
End progress.

Section bytes.
Context {F : Fuel} (m : mem) (pn : Z) (n : list Z).
Abbreviation l := (Z.of_nat (length n)).
Abbreviation c := (at_ n).
Context (Hn : bytes_at m pn n) (Hbn : bytes n) (Hl : 1 <= l < 2 ^ 64) (Hf : (2 * length n + 2 < fuel)%nat).

Lemma memcmp_compares : compares 1 m pn c l memcmp.
Proof.
  intros p i Q Hp Hi Hip HQ.
  assert (Hlen : length (take (Z.to_nat i) n) = Z.to_nat i) by (rewrite length_take; lia).
  assert (Hlen' : length (take (Z.to_nat i) (drop (Z.to_nat p) n)) = Z.to_nat i) by (rewrite length_take, length_drop; lia).
  replace i with (Z.of_nat (length (take (Z.to_nat i) n))) at 1 by lia.
  apply (wp_memcmp m _ _ _ (take (Z.to_nat i) (drop (Z.to_nat p) n))); [| |lia|lia|].
  - rewrite <- (take_drop (Z.to_nat i) n) in Hn. by apply bytes_at_app in Hn as [? _].
  - rewrite <- (take_drop (Z.to_nat p) n) in Hn. apply bytes_at_app in Hn as [_ Hd].
    rewrite length_take in Hd. rewrite <- (take_drop (Z.to_nat i) (drop _ _)) in Hd. apply bytes_at_app in Hd as [Hd _].
    replace (pn + 1 * p) with (pn + Z.of_nat (Z.to_nat p `min` length n)) by lia. done.
  - intros r Hr _. apply HQ. rewrite Hr. split.
    + intros He u Hu. apply (f_equal (lookup (Z.to_nat u))) in He. rewrite !lookup_take_lt, lookup_drop in He by lia.
      unfold at_. rewrite !list_lookup_total_alt, He. do 2 f_equal. lia.
    + intros He. apply list_eq_same_length with (n := Z.to_nat i); [done|done|].
      intros j x y Hj Hx Hy. rewrite lookup_take_lt in Hx, Hy by lia. rewrite lookup_drop in Hy.
      specialize (He (Z.of_nat j) ltac:(lia)). rewrite (at_lookup n j x Hx) in He.
      replace (Z.of_nat j + p) with (Z.of_nat (Z.to_nat p + j)) in He by lia. by rewrite (at_lookup _ _ _ Hy) in He.
Qed.

(** The table of the needle. *)
Lemma wp_bad_char t p i mem0 mem h g Q : table_ok t c l -> prepared c l i p mem0 -> remembered c mem0 mem g ->
  reads 1 load8 m h g l -> byte (g (l - 1)) ->
  (g (l - 1) = c (l - 1) -> Q None m) ->
  (forall k, 1 <= k <= l -> (forall d, 0 <= d < k -> ~ occ c l g d) -> Q (Some k) m) ->
  wp (bad_char t l p mem0 mem h) m Q.
Proof.
  intros [_ Ht] Hp Hr Hg Hb Hnone Hsome. pose proof (pr_i _ _ _ _ _ Hp) as Hi. pose proof (pr_p _ _ _ _ _ Hp) as Hp1. unfold bad_char. apply wp_bind.
  replace (h + (l - 1)) with (h + 1 * (l - 1)) by lia. apply Hg; [lia|]. specialize (Ht _ Hb).
  change (negb (bitop_and t.1 (g (l - 1)) =? 0)) with (in_set t.1 (g (l - 1))). destruct (in_set t.1 (g (l - 1))).
  - destruct Ht as (j & Hj & -> & Hcj & Hu). cbn zeta. destruct (Z.eqb_spec (l - (j + 1)) 0) as [H0|H0]; cbn [negb].
    { apply wp_ret, Hnone. rewrite <- Hcj. f_equal. lia. }
    assert (Hgo : forall d, 0 <= d < l - (j + 1) -> ~ occ c l g d).
    { intros d Hd Ho. apply (Hu (l - 1 - d)); [lia|]. rewrite <- (Ho (l - 1 - d)) by lia. f_equal. lia. }
    apply wp_ret. destruct (_ && _) eqn:Hc; [|apply Hsome; [lia|done]].
    apply andb_true_iff in Hc as [[Hm0%negb_true_iff%Z.eqb_neq Hm%negb_true_iff%Z.eqb_neq]%andb_true_iff _].
    apply Hsome.
    + destruct (pr_mem _ _ _ _ _ Hp) as [|[? _]]; [done|]. lia.
    + intros d Hd. apply (skip_remembered c l i p mem0 mem); try done. intros He. apply (Hu (l - 1)); [lia|done].
  - apply wp_ret, Hsome; [lia|]. intros d Hd Ho. apply (Ht (l - 1 - d)); [lia|]. rewrite <- (Ho (l - 1 - d)) by lia. f_equal. lia.
Qed.

Lemma wp_fill_memmem Q : (forall t, table_ok t c l -> Q t m) -> wp (fill_memmem pn l) m Q.
Proof.
  intros HQ. unfold fill_memmem.
  apply (wp_loop (fun s m1 => m1 = m /\ 0 <= s.1 <= l /\ table_ok s.2 c s.1) (fun s => Z.to_nat (l - s.1))); [| |cbn; lia].
  2: { split; [done|]. split; [cbn; lia|apply table_start]. }
  intros [i t] m1 (-> & Hi & Ht). cbn [fst snd] in *. destruct (Z.ltb_spec i l).
  - apply wp_bind, (wp_load_at m pn n i); [done|lia|done|]. apply wp_ret. split; [|cbn; lia].
    split; [done|]. split; [cbn; lia|]. apply table_enter; [lia|apply at_byte; [done|lia]|done].
  - apply wp_ret, HQ. by replace l with i by lia.
Qed.

(** ** One turn of the search *)
Lemma wp_turn t ph h more i p mem0 mem pos Q :
  table_ok t c l -> prepared c l i p mem0 -> bytes_at m ph h -> bytes h ->
  (forall k (Q : bool -> _), 0 <= k <= l -> Q (k <? l) m -> wp (more k) m Q) ->
  0 <= pos -> pos + l <= Z.of_nat (length h) -> none_before n h pos -> remembered c mem0 mem (fun u => at_ h (pos + u)) ->
  (find_sub n h = Some (Z.to_nat pos) -> Q (inr (ph + pos)) m) ->
  (forall pos' mem', pos < pos' <= pos + l -> none_before n h pos' -> remembered c mem0 mem' (fun u => at_ h (pos' + u)) ->
     Q (inl (ph + pos', mem')) m) ->
  wp (turn more t pn l (i - 1) p mem0 (ph + pos) mem) m Q.
Proof.
  intros Ht Hp Hh Hbh Hmore Hpos Hle Hb Hr Hfound Hnext. unfold turn.
  assert (Hwin : reads 1 load8 m (ph + pos) (fun u => at_ h (pos + u)) l).
  { eapply reads_sub; [apply reads_bytes; [done|lia]|lia]. }
  apply wp_bind, (wp_bad_char t p i mem0 mem (ph + pos) (fun u => at_ h (pos + u))); try done.
  - apply at_byte; [done|lia].
  - intros _. replace (ph + pos) with (ph + 1 * pos) in * by lia.
    apply (wp_compare_at n h) with (i := i); try done; [intros ->; cbn in Hl; lia|by apply reads_needle|lia|..].
    intros pos' mem' ? ? ?. rewrite Z.mul_1_l. by apply Hnext.
  - intros k Hk Hocc. apply wp_ret. replace (ph + pos + k) with (ph + (pos + k)) by lia.
    apply Hnext; [lia|by apply none_before_step|by left].
Qed.

(** ** The search in a haystack of known length *)
Lemma wp_twoway_memmem ph h Q : bytes_at m ph h -> bytes h -> (length h + 1 < fuel)%nat ->
  Q (found_ptr (find_sub n h) ph) m -> wp (twoway_memmem ph (ph + Z.of_nat (length h)) pn l) m Q.
Proof.
  intros Hh Hbh Hfh HQ. assert (Hne : n <> []) by (intros ->; cbn in Hl; lia).
  unfold twoway_memmem. apply wp_bind, wp_fill_memmem. intros t Ht. apply wp_bind.
  apply (wp_critical 1 load8 m pn c l); [by apply reads_needle|lia|lia|apply memcmp_compares|]. intros i p mem0 Hp. cbn beta iota.
  apply (wp_loop (fun s m1 => m1 = m /\ exists pos mem, s = (ph + pos, mem) /\ 0 <= pos <= Z.of_nat (length h) /\ none_before n h pos /\
    remembered c mem0 mem (fun u => at_ h (pos + u))) (fun s => Z.to_nat (ph + Z.of_nat (length h) - s.1))); [| |cbn; lia].
  2: { split; [done|]. exists 0, 0. split; [tuples|]. split; [lia|]. split; [apply none_before_0|by left]. }
  intros s m1 (-> & pos & mem & -> & Hpos & Hb & Hr). replace (ph + Z.of_nat (length h) - (ph + pos)) with (Z.of_nat (length h) - pos) by lia.
  destruct (Z.ltb_spec (Z.of_nat (length h) - pos) l) as [Hlt|Hge].
  { apply wp_ret. by rewrite (find_sub_end n h pos) in HQ. }
  apply (wp_turn t ph h) with (i := i) (pos := pos); try done; [lia|lia|..].
  - intros Hfs. rewrite Hfs in HQ. cbn in HQ. by rewrite Z2Nat.id in HQ by lia.
  - intros pos' mem' Hpos' Hb' Hr'. split; [|cbn; lia]. split; [done|]. exists pos', mem'. split; [done|]. split; [lia|done].
Qed.
End bytes.

(** ** Short needles *)
(** The words as functions of lists, with what [short_memmem] needs of them. *)
Record packing (len : nat) (next : Z -> Z -> Z) (word : list Z -> Z) : Prop := {
  pk_len : (1 <= len)%nat;
  pk_next a l c : length (a :: l) = len -> bytes (a :: l) -> byte c -> next (word (a :: l)) c = word (l ++ [c]);
  pk_inj l l' : length l = len -> length l' = len -> bytes l -> bytes l' -> word l = word l' -> l = l' }.

Section short.
Context {F : Fuel} (len : nat) (next : Z -> Z -> Z) (word : list Z -> Z).
Context (Hpack : packing len next word).
Implicit Types h n : list Z.

(** The [len] bytes of [h] at [pos]. *)
Definition window h (pos : nat) : list Z := take len (drop pos h).

Lemma length_window h pos : (pos + len <= length h)%nat -> length (window h pos) = len.
Proof. intros. unfold window. rewrite length_take, length_drop. lia. Qed.

Lemma window_bytes h pos : bytes h -> bytes (window h pos).
Proof. intros. by apply Forall_take, Forall_drop. Qed.

Lemma word_next h pos c : (pos + len <= length h)%nat -> bytes h -> h !! (pos + len)%nat = Some c ->
  next (word (window h pos)) c = word (window h (S pos)).
Proof.
  intros Hp Hb Hc. pose proof (pk_len _ _ _ Hpack) as Hlen. assert (Hlt : (pos < length h)%nat) by lia. apply lookup_lt_is_Some in Hlt as [a Ha].
  assert (Hw : window h pos = a :: take (len - 1) (drop (S pos) h)).
  { unfold window. rewrite (drop_S _ a) by done. by replace len with (S (len - 1)) at 1 by lia. }
  assert (Hw' : window h (S pos) = take (len - 1) (drop (S pos) h) ++ [c]).
  { unfold window. replace len with (S (len - 1)) at 1 by lia. apply take_S_r. rewrite lookup_drop, <- Hc. f_equal. lia. }
  rewrite Hw'. rewrite Hw. rewrite (pk_next _ _ _ Hpack); [done| | |].
  - rewrite <- Hw. by apply length_window.
  - rewrite <- Hw. by apply window_bytes.
  - by eapply Forall_lookup_1.
Qed.

Lemma word_eqb h n pos : (pos + len <= length h)%nat -> length n = len -> bytes h -> bytes n ->
  (word (window h pos) =? word n) = bool_decide (occurs n h pos).
Proof.
  intros Hp Hn Hb Hbn. apply eq_true_iff_eq. rewrite Z.eqb_eq, bool_decide_eq_true.
  unfold occurs. rewrite Hn. fold (window h pos). split; [|congruence]. apply (pk_inj _ _ _ Hpack); [by apply length_window|done|by apply window_bytes|done].
Qed.

Lemma occurs_le n h d : occurs n h d -> n <> [] -> (d + length n <= length h)%nat.
Proof. intros Ho Hn. by apply occurs_occ in Ho as [? _]. Qed.

Lemma wp_short_memmem m p h n Q : bytes_at m p h -> bytes h -> bytes n -> length n = len -> (len <= length h)%nat ->
  (length h + 1 < fuel)%nat -> Q (found_ptr (find_sub n h) p) m ->
  wp (short_memmem (Z.of_nat len) next (word n) (word (window h 0)) p (Z.of_nat (length h))) m Q.
Proof.
  intros Hat Hb Hbn Hn Hle Hf HQ. pose proof (pk_len _ _ _ Hpack) as Hlen. unfold short_memmem.
  apply (wp_loop (fun s m1 => m1 = m /\ exists pos : nat,
      s = (p + Z.of_nat len + Z.of_nat pos, Z.of_nat (length h) - Z.of_nat len - Z.of_nat pos, word (window h pos)) /\
      (pos + len <= length h)%nat /\ forall d, (d < pos)%nat -> ~ occurs n h d)
    (fun s => Z.to_nat s.1.2)); [| |cbn; lia].
  2: { split; [done|]. exists 0%nat. split; [tuples|]. split; [lia|]. intros d Hd. lia. }
  intros s m1 (-> & pos & -> & Hpos & Hno). cbn beta iota zeta. rewrite word_eqb by done.
  destruct (bool_decide (occurs n h pos)) eqn:Ho.
  - apply bool_decide_eq_true in Ho. rewrite (find_sub_found n h pos) in HQ by done. cbn in HQ.
    replace (p + Z.of_nat len + Z.of_nat pos - Z.of_nat len) with (p + Z.of_nat pos) by lia.
    by destruct (negb _); apply wp_ret.
  - apply bool_decide_eq_false in Ho. assert (Hno' : forall d, (d < S pos)%nat -> ~ occurs n h d).
    { intros d Hd. destruct (decide (d = pos)) as [->|]; [done|]. apply Hno. lia. }
    destruct (Z.eqb_spec (Z.of_nat (length h) - Z.of_nat len - Z.of_nat pos) 0) as [H0|H0]; cbn [negb].
    + apply wp_ret. rewrite find_sub_none in HQ; [done|]. intros d Hd. destruct (decide (d < S pos)%nat); [by apply (Hno' d)|].
      apply occurs_le in Hd; [lia|]. intros ->. cbn in Hn. lia.
    + destruct (lookup_lt_is_Some_2 h (pos + len)) as [v Hv]; [lia|].
      apply wp_bind, (wp_load8 _ _ v); [eapply bytes_at_lookup; [done..|lia]|]. apply wp_ret.
      split; [|cbn; lia]. split; [done|]. exists (S pos). rewrite (word_next h pos v) by done.
      split; [tuples|]. split; [lia|done].
Qed.
End short.

(** *** The three packings *)
Definition word_of3 (l : list Z) : Z := 256 * be_combine l.

Lemma be_combine_2 a b : be_combine [a; b] = a * 256 + b.
Proof. done. Qed.

Lemma be_combine_3 a b c : be_combine [a; b; c] = (a * 256 + b) * 256 + c.
Proof. done. Qed.

Lemma be_combine_4 a b c d : be_combine [a; b; c; d] = ((a * 256 + b) * 256 + c) * 256 + d.
Proof. done. Qed.

Lemma twobyte_word_eq a b : byte a -> byte b -> twobyte_word a b = be_combine [a; b].
Proof.
  unfold byte, twobyte_word. intros. rewrite be_combine_2, Z.shiftl_mul_pow2, lor_last by lia. apply u16_id. lia.
Qed.

Lemma threebyte_word_eq a b c : byte a -> byte b -> byte c -> threebyte_word a b c = word_of3 [a; b; c].
Proof.
  unfold byte, threebyte_word, word_of3. intros. rewrite be_combine_3, !Z.shiftl_mul_pow2 by lia.
  rewrite (lor_step 24 16 a b), (lor_step 16 8 _ c) by lia. rewrite u32_id by lia. lia.
Qed.

Lemma fourbyte_word_eq a b c d : byte a -> byte b -> byte c -> byte d -> fourbyte_word a b c d = be_combine [a; b; c; d].
Proof.
  unfold byte, fourbyte_word. intros. rewrite be_combine_4, !Z.shiftl_mul_pow2 by lia.
  rewrite (lor_step 24 16 a b), (lor_step 16 8 _ c), lor_last by lia. apply u32_id. lia.
Qed.

Lemma packing_2 : packing 2 twobyte_next be_combine.
Proof.
  split; [lia| |intros; apply be_combine_inj; congruence]. intros a [|b [|]] c Hl Hb Hc; try done.
  cbn [app]. repeat (apply Forall_cons_1 in Hb as [? Hb]). unfold byte, twobyte_next, u16 in *.
  rewrite Z.shiftl_mul_pow2, lor_last, !be_combine_2 by lia. mlia.
Qed.

Lemma packing_3 : packing 3 threebyte_next word_of3.
Proof.
  split; [lia| |intros l l' ? ? ? ? He; apply be_combine_inj; [congruence|done|done|unfold word_of3 in He; lia]].
  intros a [|b [|d [|]]] c Hl Hb Hc; try done.
  cbn [app]. repeat (apply Forall_cons_1 in Hb as [? Hb]). unfold byte, threebyte_next, word_of3, u32 in *.
  rewrite Z.shiftl_mul_pow2, !be_combine_3 by lia.
  replace (256 * ((a * 256 + b) * 256 + d)) with (((a * 256 + b) * 256 + d) * 2 ^ 8) by lia. rewrite lor_last by lia. mlia.
Qed.

Lemma packing_4 : packing 4 fourbyte_next be_combine.
Proof.
  split; [lia| |intros; apply be_combine_inj; congruence]. intros a [|b [|d [|e [|]]]] c Hl Hb Hc; try done.
  cbn [app]. repeat (apply Forall_cons_1 in Hb as [? Hb]). unfold byte, fourbyte_next in *.
  rewrite !be_combine_4, Z.shiftl_mul_pow2 by lia.
  assert (He : u32 ((((a * 256 + b) * 256 + d) * 256 + e) * 2 ^ 8) = ((b * 256 + d) * 256 + e) * 2 ^ 8) by (unfold u32; mlia).
  rewrite He, lor_last by lia. apply u32_id. lia.
Qed.

(** *** Loading the words *)
Lemma wp_word2 m p l Q : bytes_at m p l -> bytes l -> (2 <= length l)%nat -> Q (be_combine (window 2 l 0)) m -> wp (word2 p) m Q.
Proof.
  intros Hat Hb Hl HQ. destruct l as [|a [|b l]]; cbn in Hl; [lia..|].
  rewrite !bytes_at_cons in Hat. destruct Hat as (Ha & Hb' & _). apply Forall_cons_1 in Hb as [? [? _]%Forall_cons_1].
  apply wp_bind, (wp_load8 _ _ a); [done|]. apply wp_bind, (wp_load8 _ _ b); [done|]. apply wp_ret. by rewrite twobyte_word_eq.
Qed.

Lemma wp_word3 m p l Q : bytes_at m p l -> bytes l -> (3 <= length l)%nat -> Q (word_of3 (window 3 l 0)) m -> wp (word3 p) m Q.
Proof.
  intros Hat Hb Hl HQ. destruct l as [|a [|b [|c l]]]; cbn in Hl; [lia..|].
  rewrite !bytes_at_cons, <- !Z.add_assoc in Hat. destruct Hat as (Ha & Hb' & Hc & _).
  apply Forall_cons_1 in Hb as [? [? [? _]%Forall_cons_1]%Forall_cons_1].
  apply wp_bind, (wp_load8 _ _ a); [done|]. apply wp_bind, (wp_load8 _ _ b); [done|].
  apply wp_bind, (wp_load8 _ _ c); [done|]. apply wp_ret. by rewrite threebyte_word_eq.
Qed.

Lemma wp_word4 m p l Q : bytes_at m p l -> bytes l -> (4 <= length l)%nat -> Q (be_combine (window 4 l 0)) m -> wp (word4 p) m Q.
Proof.
  intros Hat Hb Hl HQ. destruct l as [|a [|b [|c [|d l]]]]; cbn in Hl; [lia..|].
  rewrite !bytes_at_cons, <- !Z.add_assoc in Hat. destruct Hat as (Ha & Hb' & Hc & Hd & _).
  apply Forall_cons_1 in Hb as [? [? [? [? _]%Forall_cons_1]%Forall_cons_1]%Forall_cons_1].
  apply wp_bind, (wp_load8 _ _ a); [done|]. apply wp_bind, (wp_load8 _ _ b); [done|].
  apply wp_bind, (wp_load8 _ _ c); [done|]. apply wp_bind, (wp_load8 _ _ d); [done|]. apply wp_ret. by rewrite fourbyte_word_eq.
Qed.

Lemma window_all len n : length n = len -> window len n 0 = n.
Proof. intros <-. unfold window. by rewrite drop_0, firstn_all. Qed.

(** ** The scan for the first byte *)
Lemma span_len_before f l i : (i < span_len f l)%nat -> exists b, l !! i = Some b /\ f b = false.
Proof.
  revert i. induction l as [|b l IH]; intros i Hi; cbn in Hi; [lia|]. destruct (f b) eqn:Hf; [lia|].
  destruct i as [|i]; [by exists b|]. apply IH. lia.
Qed.

Lemma span_len_at f l : (span_len f l < length l)%nat -> exists b, l !! span_len f l = Some b /\ f b = true.
Proof.
  induction l as [|b l IH]; cbn; [lia|]. destruct (f b) eqn:Hf; [by exists b|]. intros H. apply IH. lia.
Qed.

Lemma occurs_head a n h d : occurs (a :: n) h d -> h !! d = Some a.
Proof.
  unfold occurs. intros Ho. apply (f_equal (lookup 0%nat)) in Ho. cbn [length] in Ho.
  by rewrite lookup_take_lt, lookup_drop, Nat.add_0_r in Ho by lia.
Qed.

Section first.
Context (a : Z) (n h : list Z).
Abbreviation d := (span_len (fun b => b =? a) h).

Lemma find_sub_first : find_sub (a :: n) h = Nat.add d <$> find_sub (a :: n) (drop d h).
Proof.
  apply find_sub_skip. intros i (b & Hb & Hne)%span_len_before Ho%occurs_head. rewrite Hb in Ho. simplify_eq. lia.
Qed.

Lemma find_sub_nowhere : d = length h -> find_sub (a :: n) h = None.
Proof. intros Hd. rewrite find_sub_first, Hd, drop_all. done. Qed.

End first.

Lemma find_sub_one a h (d := span_len (fun b => b =? a) h) : (d < length h)%nat -> find_sub [a] h = Some d.
Proof.
  intros (b & Hb & ->%Z.eqb_eq)%span_len_at. rewrite find_sub_first, (drop_S _ a) by done.
  cbn. rewrite Z.eqb_refl. cbn. by rewrite Nat.add_0_r.
Qed.

Lemma find_sub_short n h : (length h < length n)%nat -> find_sub n h = None.
Proof.
  intros Hl. apply find_sub_none. intros d Ho. apply occurs_le in Ho; [lia|]. intros ->. cbn in Hl. lia.
Qed.

Lemma bytes_at_drop m p l k : bytes_at m p l -> (k <= length l)%nat -> bytes_at m (p + Z.of_nat k) (drop k l).
Proof.
  intros Hat Hk. rewrite <- (take_drop k l) in Hat. apply bytes_at_app in Hat as [_ Hd]. by rewrite length_take_le in Hd.
Qed.

Section memmem.
Context {F : Fuel}.

Lemma wp_memmem m p h q n Q : mem_wf m -> 0 < p -> bytes_at m p h -> bytes_at m q n -> Z.of_nat (length n) < 2 ^ 64 ->
  (length h + 1 < fuel)%nat -> (2 * length n + 2 < fuel)%nat ->
  Q (found_ptr (find_sub n h) p) m -> wp (memmem p (Z.of_nat (length h)) q (Z.of_nat (length n))) m Q.
Proof.
  intros Hwf Hp Hh Hn Hl Hf Hfn HQ. pose proof (mem_wf_bytes _ _ _ Hwf Hh) as Hbh. pose proof (mem_wf_bytes _ _ _ Hwf Hn) as Hbn.
  unfold memmem. cbv zeta. destruct n as [|a n].
  { apply wp_ret. destruct h; cbn in HQ; by rewrite Z.add_0_r in HQ. }
  rewrite (proj2 (Z.eqb_neq _ 0)) by (cbn; lia).
  destruct (Z.ltb_spec (Z.of_nat (length h)) (Z.of_nat (length (a :: n)))) as [Hlt|Hge].
  { apply wp_ret. by rewrite find_sub_short in HQ by lia. }
  pose proof Hn as [Ha _]%bytes_at_cons. pose proof Hbn as [Hba _]%Forall_cons_1.
  set (d := span_len (fun b => b =? a) h). pose proof (span_len_le (fun b => b =? a) h : (d <= length h)%nat) as Hd.
  apply wp_bind, (wp_load8 _ _ a); [done|]. apply wp_bind, (wp_memchr _ _ _ _ (p + Z.of_nat d)); [done| |lia|].
  { rewrite u8_id by done. split; [lia|]. split.
    - intros x Hx. destruct (span_len_before (fun b => b =? a) h (Z.to_nat (x - p))) as (b & Hb & Hne); [fold d; lia|].
      exists b. split; [eapply bytes_at_lookup; [exact Hh|exact Hb|lia]|lia].
    - intros Hx. destruct (span_len_at (fun b => b =? a) h) as (b & Hb & ->%Z.eqb_eq); [fold d; lia|].
      eapply bytes_at_lookup; [exact Hh|exact Hb|done]. }
  destruct (Z.eqb_spec (p + Z.of_nat d) (p + Z.of_nat (length h))) as [Heq|Hne].
  { apply wp_ret. rewrite (find_sub_nowhere a n h) in HQ by (fold d; lia). done. }
  rewrite (proj2 (Z.eqb_neq (p + Z.of_nat d) 0)) by lia. cbn [orb].
  destruct (Z.eqb_spec (Z.of_nat (length (a :: n))) 1) as [H1|H1].
  { apply wp_ret. destruct n; [|cbn in H1; lia]. rewrite (find_sub_one a h) in HQ; [done|fold d; lia]. }
  pose proof (bytes_at_drop m p h d Hh Hd) as Hh'. assert (Hbh' : bytes (drop d h)) by (by apply Forall_drop).
  assert (Hlen : Z.of_nat (length h) - (p + Z.of_nat d - p) = Z.of_nat (length (drop d h))) by (rewrite length_drop; lia).
  assert (HQ' : Q (found_ptr (find_sub (a :: n) (drop d h)) (p + Z.of_nat d)) m).
  { rewrite find_sub_first in HQ. fold d in HQ. destruct (find_sub (a :: n) (drop d h)) as [e|]; cbn [found_ptr fmap option_fmap option_map] in *; [|done].
    by replace (p + Z.of_nat d + Z.of_nat e) with (p + Z.of_nat (d + e)) by lia. }
  rewrite Hlen. destruct (Z.ltb_spec (Z.of_nat (length (drop d h))) (Z.of_nat (length (a :: n)))) as [Hlt|Hge'].
  { apply wp_ret. by rewrite find_sub_short in HQ' by lia. }
  pose proof (length_drop h d) as Hld. remember (drop d h) as h' eqn:Hh'eq. clear HQ. rename HQ' into HQ.
  pose proof (window_all (length (a :: n)) (a :: n) eq_refl) as Hwin. set (nn := a :: n) in *.
  destruct (Z.eqb_spec (Z.of_nat (length nn)) 2) as [H2|H2]; [|destruct (Z.eqb_spec (Z.of_nat (length nn)) 3) as [H3|H3];
    [|destruct (Z.eqb_spec (Z.of_nat (length nn)) 4) as [H4|H4]]].
  - assert (length nn = 2%nat) as E by lia. rewrite E in Hwin. apply wp_bind, (wp_word2 m _ nn); [done..|lia|]. rewrite Hwin.
    apply wp_bind, (wp_word2 m _ h'); [done..|lia|]. by apply (wp_short_memmem 2 _ _ packing_2); try done; lia.
  - assert (length nn = 3%nat) as E by lia. rewrite E in Hwin. apply wp_bind, (wp_word3 m _ nn); [done..|lia|]. rewrite Hwin.
    apply wp_bind, (wp_word3 m _ h'); [done..|lia|]. by apply (wp_short_memmem 3 _ _ packing_3); try done; lia.
  - assert (length nn = 4%nat) as E by lia. rewrite E in Hwin. apply wp_bind, (wp_word4 m _ nn); [done..|lia|]. rewrite Hwin.
    apply wp_bind, (wp_word4 m _ h'); [done..|lia|]. by apply (wp_short_memmem 4 _ _ packing_4); try done; lia.
  - assert (1 <= length nn)%nat by (cbn; lia). apply wp_twoway_memmem; try done; lia.
Qed.
End memmem.

(** The estimate by which [strstr] and [wcsstr] look ahead. *)
Lemma grow_ge l : 0 <= l -> l <= l .| 63.
Proof.
  intros Hl. pose proof (Z.add_lor_land l 63) as Ha. change 63 with (Z.ones 6) in Ha at 2. rewrite Z.land_ones in Ha by lia.
  pose proof (Z.mod_pos_bound l (2 ^ 6) ltac:(lia)). lia.
Qed.

(** ** Properties *)

(** C3: [memmem], with its fast paths for needles of up to four bytes and its
    two-way search for longer ones, returns the address of the first occurrence
    of the needle, or a null pointer: it ends, and reads only the two objects. *)
Theorem memmem_correct {F : Fuel} m p h q n :
  mem_wf m -> 0 < p -> bytes_at m p h -> bytes_at m q n -> Z.of_nat (length n) < 2 ^ 64 ->
  (length h + 1 < fuel)%nat -> (2 * length n + 2 < fuel)%nat ->
  memmem p (Z.of_nat (length h)) q (Z.of_nat (length n)) m = Done (found_ptr (find_sub n h) p, m).
Proof. intros. by apply wp_eq, wp_memmem. Qed.

(** A haystack of 40 bytes and a periodic needle of seven. *)
Definition search_hay : list Z :=
  [97; 98; 97; 97; 98; 97; 98; 97; 97; 98; 97; 97; 98; 97; 98; 97; 97; 98; 97; 98;
   97; 97; 98; 97; 97; 98; 97; 97; 98; 97; 97; 98; 97; 97; 98; 98; 97; 98; 97; 98].
Definition search_needle : list Z := [97; 97; 98; 97; 97; 98; 97; 97].
Definition search_mem : mem := mem_of 16 (search_hay ++ search_needle).

Lemma memmem_correct_witness :
  find_sub search_needle search_hay = Some 20%nat /\ memmem (F := 60%nat) 16 40 56 8 search_mem = Done (36, search_mem).
Proof.
  split; [by vm_compute|]. refine (memmem_correct (F := 60%nat) search_mem 16 search_hay 56 search_needle _ _ _ _ _ _ _); conc.
Defined.
