(* ===== verification/StrstrCorrect.v ===== *)
(** [strstr] finds the first occurrence: string/strstr.c. *)
From S2P Require Import Prelude Mem Scan Memset TwoWay Strstr TwoWayCode Occurs Memmem.
Open Scope c_scope.

Implicit Types h n : list Z.

(** ** Strings *)
Abbreviation chars := (Forall (fun b => 0 < b < 256)).

Lemma cstring_at m p s i : cstring m p s -> 0 <= i <= Z.of_nat (length s) ->
  exists v, m !! (p + i) = Some v /\ (v = 0 <-> i = Z.of_nat (length s)).
Proof.
  intros [Hat Hs] Hi. destruct (decide (i = Z.of_nat (length s))) as [->|Hne].
  - exists 0. split; [|done]. apply bytes_at_app in Hat as [_ H0]. by apply bytes_at_cons in H0 as [H0 _].
  - destruct (lookup_lt_is_Some_2 s (Z.to_nat i)) as [v Hv]; [lia|]. exists v. split.
    + apply bytes_at_app in Hat as [Hat _]. eapply bytes_at_lookup; [done..|lia].
    + assert (0 < v < 256) by (by eapply Forall_lookup_1 in Hs). lia.
Qed.

Lemma wp_load_char m p s i (Q : Z -> mem -> Prop) : cstring m p s -> 0 <= i <= Z.of_nat (length s) ->
  (forall v, (v = 0 <-> i = Z.of_nat (length s)) -> m !! (p + i) = Some v -> Q v m) -> wp (load8 (p + i)) m Q.
Proof. intros Hs Hi HQ. destruct (cstring_at m p s i Hs Hi) as (v & Hv & Hz). apply (wp_load8 _ _ v); [done|by apply HQ]. Qed.

Lemma cstring_bytes_at m p s : cstring m p s -> bytes_at m p s.
Proof. intros [Hat _]. by apply bytes_at_app in Hat as [? _]. Qed.

Lemma cstring_drop m p s k : cstring m p s -> (k <= length s)%nat -> cstring m (p + Z.of_nat k) (drop k s).
Proof.
  intros [Hat Hs] Hk. split; [|by apply Forall_drop]. replace (drop k s ++ [0]) with (drop k (s ++ [0])) by (by rewrite drop_app_le).
  apply bytes_at_drop; [done|]. rewrite length_app. lia.
Qed.

(** A string does not run over the terminator of another. *)
Lemma occurs_nul n h d : n <> [] -> chars n -> occurs n (h ++ [0]) d <-> occurs n h d.
Proof.
  intros Hne Hn. split; intros Ho.
  - apply occurs_le in Ho as Hle; [|done]. rewrite length_app in Hle. cbn in Hle.
    destruct (decide (d + length n = length h + 1)%nat) as [Heq|].
    + exfalso. assert (Hl : (1 <= length n)%nat) by (destruct n; cbn; [done|lia]).
      assert (H0 : n !! (length n - 1)%nat = Some 0).
      { apply (f_equal (lookup (length n - 1)%nat)) in Ho. rewrite lookup_take_lt, lookup_drop in Ho by lia. rewrite <- Ho.
        rewrite list_lookup_middle by lia. done. }
      apply (Forall_lookup_1 _ _ _ _ Hn) in H0. lia.
    + unfold occurs in *. rewrite drop_app_le, take_app_le in Ho by (rewrite ?length_drop; lia). done.
  - apply occurs_le in Ho as Hle; [|done]. unfold occurs in *.
    by rewrite drop_app_le, take_app_le by (rewrite ?length_drop; lia).
Qed.

(** ** The two-way search *)
Section twoway.
Context {F : Fuel} (m : mem) (pn : Z) (n : list Z) (ph : Z) (h : list Z).
Abbreviation l := (Z.of_nat (length n)).
Abbreviation H := (Z.of_nat (length h)).
Abbreviation c := (at_ n).
Context (Hwf : mem_wf m) (Hn : cstring m pn n) (Hh : cstring m ph h) (Hph : 0 < ph) (Hl : 1 <= l < 2 ^ 64).
Context (Hf : (2 * length n + 2 < fuel)%nat) (Hfh : (length h + 1 < fuel)%nat).

(** The table is filled as far as both strings go. *)
Lemma wp_fill_strstr Q : (forall t, table_ok t c (Z.min l H) -> Q (Z.min l H, t) m) -> wp (fill_strstr pn ph) m Q.
Proof.
  intros HQ. unfold fill_strstr.
  apply (wp_loop (fun s m1 => m1 = m /\ 0 <= s.1 <= Z.min l H /\ table_ok s.2 c s.1) (fun s => Z.to_nat (l - s.1))); [| |cbn; lia].
  2: { split; [done|]. split; [cbn; lia|apply table_start]. }
  intros [i t] m1 (-> & Hi & Ht). cbn [fst snd] in *. apply wp_bind, (wp_load_char m pn n); [done|lia|].
  intros b Hb Hbm. destruct (Z.eqb_spec b 0) as [Hb0|Hb0]; cbn [negb andM]; apply wp_bind.
  { apply wp_ret, wp_ret. replace i with (Z.min l H) in * by lia. by apply HQ. }
  apply wp_bind, (wp_load_char m ph h); [done|lia|]. intros v Hv _. apply wp_ret. destruct (Z.eqb_spec v 0) as [Hv0|Hv0]; cbn [negb].
  { apply wp_ret. replace i with (Z.min l H) in * by lia. by apply HQ. }
  apply wp_ret. split; [|cbn; lia]. split; [done|]. split; [cbn; lia|].
  assert (Hil : 0 <= i < l) by lia.
  assert (b = c i) as ->.
  { pose proof (at_Some n i Hil) as Hat. apply (cstring_bytes_at _ _ _ Hn) in Hat. rewrite Z2Nat.id in Hat by lia. congruence. }
  apply table_enter; [lia| |done]. apply at_byte; [by eapply cstring_bytes|done].
Qed.

(** The known end [z] of the haystack moves on, to at least [l] bytes ahead. *)
Lemma wp_extend_strstr pos zpos Q : 0 <= pos <= zpos -> zpos <= H ->
  (H - pos < l -> Q None m) ->
  (forall zpos', zpos <= zpos' <= H -> pos + l <= zpos' -> Q (Some (ph + zpos')) m) ->
  wp (extend_strstr l (ph + pos) (ph + zpos)) m Q.
Proof.
  intros Hpos Hz Hend Hmore. unfold extend_strstr. replace (ph + zpos - (ph + pos)) with (zpos - pos) by lia.
  destruct (Z.ltb_spec (zpos - pos) l) as [Hlt|Hge]; [|apply wp_ret, Hmore; lia]. cbn zeta.
  pose proof (grow_ge l ltac:(lia)) as Hgrow.
  set (grow := l .| 63) in *.
  apply wp_bind, (wp_memchr m _ _ _ (ph + Z.min (zpos + grow) H)); [done| |lia|].
  - change (u8 0) with 0. split; [lia|]. split.
    + intros a Ha. destruct (cstring_at m ph h (a - ph) Hh) as (v & Hv & Hv0); [lia|]. exists v.
      replace (ph + (a - ph)) with a in Hv by lia. split; [done|lia].
    + intros Hlt'. destruct (cstring_at m ph h H Hh) as (v & Hv & Hv0); [lia|].
      replace (ph + Z.min (zpos + grow) H) with (ph + H) by lia. rewrite Hv. f_equal. by apply Hv0.
  - destruct (Z.eqb_spec (ph + Z.min (zpos + grow) H) (ph + zpos + grow)) as [He|He].
    + apply wp_ret. replace (ph + zpos + grow) with (ph + (zpos + grow)) by lia. apply Hmore; lia.
    + rewrite (proj2 (Z.eqb_neq _ 0)) by lia. cbn [negb]. apply wp_ret.
      replace (ph + Z.min (zpos + grow) H - (ph + pos)) with (H - pos) by lia. replace (Z.min (zpos + grow) H) with H by lia.
      destruct (Z.ltb_spec (H - pos) l); [by apply Hend|apply Hmore; lia].
Qed.

Lemma wp_more k (Q : bool -> mem -> Prop) : 0 <= k <= l -> Q (k <? l) m -> wp (c ← load8 (pn + k); mret (negb (c =? 0))) m Q.
Proof.
  intros Hk HQ. apply wp_bind, (wp_load_char m pn n); [done|lia|]. intros v Hv _. apply wp_ret.
  replace (negb (v =? 0)) with (k <? l); [done|]. destruct (Z.ltb_spec k l), (Z.eqb_spec v 0); cbn; try done; lia.
Qed.

Lemma wp_twoway_strstr Q : Q (found_ptr (find_sub n h) ph) m -> wp (twoway_strstr ph pn) m Q.
Proof.
  intros HQ. assert (Hne : n <> []) by (intros ->; cbn in Hl; lia).
  unfold twoway_strstr. apply wp_bind, wp_fill_strstr. intros t Ht. cbn beta iota.
  apply wp_bind, (wp_load_char m pn n); [done|lia|]. intros e He _. destruct (Z.eqb_spec e 0) as [He0|He0]; cbn [negb].
  2: { apply wp_ret. rewrite find_sub_short in HQ by lia. done. }
  replace (Z.min l H) with l in * by lia. pose proof (cstring_bytes_at _ _ _ Hn) as Hnb. pose proof (cstring_bytes _ _ _ Hn) as Hbn.
  pose proof (cstring_bytes_at _ _ _ Hh) as Hhb. pose proof (cstring_bytes _ _ _ Hh) as Hbh.
  apply wp_bind, (wp_critical 1 load8 m pn c l); [by apply reads_needle|lia|lia|by apply memcmp_compares|]. intros i p mem0 Hp. cbn beta iota.
  apply (wp_loop (fun s m1 => m1 = m /\ exists pos zpos mem, s = (ph + pos, ph + zpos, mem) /\ 0 <= pos <= zpos /\ zpos <= H /\
    none_before n h pos /\ remembered c mem0 mem (fun u => at_ h (pos + u))) (fun s => Z.to_nat (ph + H - s.1.1))); [| |cbn; lia].
  2: { split; [done|]. exists 0, 0, 0. split; [tuples|]. split; [lia|]. split; [lia|]. split; [apply none_before_0|by left]. }
  intros s m1 (-> & pos & zpos & mem & -> & Hpos & Hz & Hb & Hr). cbn beta iota.
  apply wp_bind, wp_extend_strstr; [done|done| |].
  { intros Hend. apply wp_ret. by rewrite (find_sub_end n h pos) in HQ. }
  intros zpos' Hz' Hwin. apply wp_bind, (wp_turn m pn n Hnb Hbn Hl Hf t ph h) with (i := i) (pos := pos); try done; [apply wp_more|lia|lia|..].
  - intros Hfs. apply wp_ret. rewrite Hfs in HQ. cbn in HQ. by rewrite Z2Nat.id in HQ by lia.
  - intros pos' mem' Hpos' Hb' Hr'. apply wp_ret. split; [|cbn; lia]. split; [done|]. exists pos', zpos', mem'.
    split; [done|]. split; [lia|]. split; [lia|done].
Qed.
End twoway.

(** ** Short needles *)
Section short.
Context {F : Fuel} (len : nat) (next : Z -> Z -> Z) (word : list Z -> Z) (Hpack : packing len next word).

Lemma wp_short_strstr m p h n Q : cstring m p h -> chars n -> length n = len -> (len <= length h + 1)%nat ->
  (length h + 1 < fuel)%nat -> Q (found_ptr (find_sub n h) p) m ->
  wp (short_strstr (Z.of_nat len) next (word n) (word (window len (h ++ [0]) 0)) p) m Q.
Proof.
  intros Hh Hcn Hn Hle Hf HQ. pose proof (pk_len _ _ _ Hpack) as Hlen. unfold short_strstr.
  assert (Hne : n <> []) by (intros ->; cbn in Hn; lia). pose proof (chars_bytes _ Hcn) as Hbn.
  assert (Hbz : bytes (h ++ [0])) by (apply Forall_app; split; [by eapply cstring_bytes|by repeat constructor]).
  assert (Hlz : length (h ++ [0]) = (length h + 1)%nat) by (rewrite length_app; cbn; lia).
  apply wp_bind.
  apply (wp_while (fun s m1 => m1 = m /\ exists pos : nat, s = (p + Z.of_nat (pos + len - 1), word (window len (h ++ [0]) pos)) /\
      (pos + len <= length h + 1)%nat /\ forall d, (d < pos)%nat -> ~ occurs n h d)
    (fun s => Z.to_nat (p + Z.of_nat (length h) - s.1))); [| |cbn; lia].
  2: { split; [done|]. exists 0%nat. split; [tuples|]. split; [lia|]. intros d Hd. lia. }
  intros s m1 (-> & pos & -> & Hpos & Hno). cbn beta iota zeta. apply wp_bind, (wp_load_char m p h); [done|lia|]. intros v Hv Hvm.
  apply wp_ret. rewrite (word_eqb len next word Hpack) by (done || lia).
  rewrite (bool_decide_ext _ _ (occurs_nul n h pos Hne Hcn)).
  assert (Hload : forall (r : Z), Q (if negb (v =? 0) then p + Z.of_nat pos else 0) m ->
    wp (c ← load8 (p + Z.of_nat (pos + len - 1)); mret (if negb (c =? 0) then p + Z.of_nat (pos + len - 1) - (Z.of_nat len - 1) else 0)) m Q).
  { intros _ HQ'. apply wp_bind, (wp_load8 _ _ v); [done|]. apply wp_ret.
    by replace (p + Z.of_nat (pos + len - 1) - (Z.of_nat len - 1)) with (p + Z.of_nat pos) by lia. }
  destruct (Z.eqb_spec v 0) as [Hv0|Hv0]; cbn [negb andb].
  - apply Hload; [done|]. rewrite find_sub_none in HQ; [done|]. intros d Hd. destruct (decide (d < pos)%nat); [by apply (Hno d)|].
    apply occurs_le in Hd; [lia|done].
  - destruct (bool_decide (occurs n h pos)) eqn:Ho; cbn [negb].
    + apply bool_decide_eq_true in Ho. apply Hload; [done|]. by rewrite (find_sub_found n h pos) in HQ by done.
    + apply bool_decide_eq_false in Ho. replace (p + Z.of_nat (pos + len - 1) + 1) with (p + Z.of_nat (pos + len)) by lia.
      destruct (lookup_lt_is_Some_2 (h ++ [0]) (pos + len)) as [w Hw]; [lia|].
      apply wp_bind, (wp_load8 _ _ w); [by apply Hh|]. apply wp_ret. split; [|cbn; lia]. split; [done|]. exists (S pos).
      rewrite (word_next len next word Hpack _ pos w) by (done || lia). split; [tuples|]. split; [lia|].
      intros d Hd. destruct (decide (d = pos)) as [->|]; [done|]. apply Hno. lia.
Qed.
End short.

(** ** [strstr] *)
Section strstr.
Context {F : Fuel}.

Lemma wp_load_first m p s (Q : Z -> mem -> Prop) : cstring m p s ->
  match s with [] => Q 0 m | a :: _ => 0 < a < 256 -> Q a m end -> wp (load8 p) m Q.
Proof.
  intros [Hat Hs] HQ. destruct s as [|a s]; apply bytes_at_cons in Hat as [Ha _]; (eapply wp_load8; [exact Ha|]); [done|].
  apply Forall_cons_1 in Hs as [Hs _]. by apply HQ.
Qed.

(** One more byte of both strings: the needle ends, the haystack ends, or neither. *)
Lemma wp_both m p h q n i (c1 c2 : M Z) Q : cstring m p h -> cstring m q n ->
  0 <= i <= Z.of_nat (length n) -> i <= Z.of_nat (length h) ->
  (i = Z.of_nat (length n) -> wp c1 m Q) -> ((length h < length n)%nat -> Q 0 m) ->
  (i < Z.of_nat (length n) -> i < Z.of_nat (length h) -> wp c2 m Q) ->
  wp (x ← load8 (q + i); if x =? 0 then c1 else y ← load8 (p + i); if y =? 0 then mret 0 else c2) m Q.
Proof.
  intros Hh Hn Hi Hih H1 Hs H2. apply wp_bind, (wp_load_char m q n); [done|lia|]. intros v Hv _.
  destruct (Z.eqb_spec v 0) as [Hv0|Hv0]; [apply H1; lia|].
  apply wp_bind, (wp_load_char m p h); [done|lia|]. intros w Hw _.
  destruct (Z.eqb_spec w 0) as [Hw0|Hw0]; [apply wp_ret, Hs; lia|apply H2; lia].
Qed.

(** From the first byte of the needle on. *)
Lemma wp_strstr_here m p h q n Q : mem_wf m -> 0 < p -> cstring m p h -> cstring m q n ->
  1 <= Z.of_nat (length n) < 2 ^ 64 -> (1 <= length h)%nat -> (length h + 1 < fuel)%nat -> (2 * length n + 2 < fuel)%nat ->
  (length n = 1%nat -> Q p m) -> Q (found_ptr (find_sub n h) p) m ->
  wp (n1 ← load8 (q + 1);
      if n1 =? 0 then mret p
      else h1 ← load8 (p + 1);
      if h1 =? 0 then mret 0
      else n2 ← load8 (q + 2);
      if n2 =? 0 then twobyte_strstr p q
      else h2 ← load8 (p + 2);
      if h2 =? 0 then mret 0
      else n3 ← load8 (q + 3);
      if n3 =? 0 then threebyte_strstr p q
      else h3 ← load8 (p + 3);
      if h3 =? 0 then mret 0
      else n4 ← load8 (q + 4);
      if n4 =? 0 then fourbyte_strstr p q else twoway_strstr p q) m Q.
Proof.
  intros Hwf Hp Hh Hn Hl Hlh Hf Hfn Hone HQ.
  assert (Hs : (length h < length n)%nat -> Q 0 m) by (intros Hlt; by rewrite find_sub_short in HQ by done).
  pose proof (cstring_bytes_at _ _ _ Hn) as Hnb. pose proof (cstring_bytes _ _ _ Hn) as Hbn. pose proof (proj2 Hn) as Hcn.
  pose proof (proj1 Hh) as Hhz. assert (Hbz : bytes (h ++ [0])) by (apply Forall_app; split; [by eapply cstring_bytes|by repeat constructor]).
  pose proof (length_app h [0]) as Hlz. cbn [length] in Hlz. pose proof (window_all (length n) n eq_refl) as Hwin.
  apply (wp_both m p h q n); [done..|lia|lia| |done|]; [intros E; apply wp_ret, Hone; lia|]. intros H1 H1'.
  apply (wp_both m p h q n); [done..|lia|lia| |done|].
  { intros E. assert (length n = 2%nat) as E' by lia. rewrite E' in Hwin. apply wp_bind, (wp_word2 m _ n); [done..|lia|]. rewrite Hwin.
    apply wp_bind, (wp_word2 m _ (h ++ [0])); [done..|lia|]. by apply (wp_short_strstr 2 _ _ packing_2) with (h := h); try done; lia. }
  intros H2 H2'. apply (wp_both m p h q n); [done..|lia|lia| |done|].
  { intros E. assert (length n = 3%nat) as E' by lia. rewrite E' in Hwin. apply wp_bind, (wp_word3 m _ n); [done..|lia|]. rewrite Hwin.
    apply wp_bind, (wp_word3 m _ (h ++ [0])); [done..|lia|]. by apply (wp_short_strstr 3 _ _ packing_3) with (h := h); try done; lia. }
  intros H3 H3'. apply wp_bind, (wp_load_char m q n); [done|lia|]. intros v Hv _. destruct (Z.eqb_spec v 0) as [Hv0|Hv0].
  { assert (length n = 4%nat) as E' by lia. rewrite E' in Hwin. apply wp_bind, (wp_word4 m _ n); [done..|lia|]. rewrite Hwin.
    apply wp_bind, (wp_word4 m _ (h ++ [0])); [done..|lia|]. by apply (wp_short_strstr 4 _ _ packing_4) with (h := h); try done; lia. }
  by apply (wp_twoway_strstr m q n p h); try done; lia.
Qed.

Lemma wp_strstr m p h q n Q : mem_wf m -> 0 < p -> cstring m p h -> cstring m q n -> Z.of_nat (length n) < 2 ^ 64 ->
  (length h + 1 < fuel)%nat -> (2 * length n + 2 < fuel)%nat ->
  Q (found_ptr (find_sub n h) p) m -> wp (strstr p q) m Q.
Proof.
  intros Hwf Hp Hh Hn Hl Hf Hfn HQ. unfold strstr. apply wp_bind, (wp_load_first m q n); [done|]. destruct n as [|a n].
  { apply wp_ret. destruct h; cbn in HQ; by rewrite Z.add_0_r in HQ. }
  intros Ha. rewrite (proj2 (Z.eqb_neq a 0)) by lia. set (d := span_len (fun b => b =? a) h).
  pose proof (span_len_le (fun b => b =? a) h : (d <= length h)%nat) as Hd.
  apply wp_bind, (wp_strchr m p h); [done|done|done|]. rewrite u8_id by lia. fold d.
  destruct (decide (d = length h)) as [Hend|Hin].
  { rewrite find_sub_nowhere in HQ by done. destruct (decide _) as [Hina|]; [exfalso|by apply wp_ret].
    apply elem_of_app in Hina as [Hina|Hina%list_elem_of_singleton]; [|lia].
    apply list_elem_of_lookup in Hina as [i Hi]. pose proof (lookup_lt_Some _ _ _ Hi).
    destruct (span_len_before (fun b => b =? a) h i) as (b & Hb & Hne); [fold d; lia|]. rewrite Hi in Hb. simplify_eq. lia. }
  rewrite decide_True.
  2: { destruct (span_len_at (fun b => b =? a) h) as (b & Hb & ->%Z.eqb_eq); [fold d; lia|]. apply elem_of_app. left. by eapply list_elem_of_lookup_2. }
  rewrite (proj2 (Z.eqb_neq (p + Z.of_nat d) 0)) by lia.
  pose proof (cstring_drop m p h d Hh Hd) as Hh'. pose proof (length_drop h d) as Hld.
  assert (HQ' : Q (found_ptr (find_sub (a :: n) (drop d h)) (p + Z.of_nat d)) m).
  { rewrite find_sub_first in HQ. fold d in HQ. destruct (find_sub (a :: n) (drop d h)) as [e|]; cbn [found_ptr fmap option_fmap option_map] in *; [|done].
    by replace (p + Z.of_nat d + Z.of_nat e) with (p + Z.of_nat (d + e)) by lia. }
  apply (wp_strstr_here m _ (drop d h) q (a :: n)); try done; try lia; [split; [cbn; lia|done]|].
  intros Hn1. destruct n; [|discriminate]. rewrite (find_sub_one a h) in HQ by (fold d; lia). done.
Qed.
End strstr.

(** C29: [strstr] returns the address of the first occurrence of the needle, or a
    null pointer, although it learns the length of the haystack only as it goes:
    it ends, and reads no byte after the terminator but in the words that
    [strchr] and [memchr] read. *)
Theorem strstr_correct {F : Fuel} m p h q n :
  mem_wf m -> 0 < p -> cstring m p h -> cstring m q n -> Z.of_nat (length n) < 2 ^ 64 ->
  (length h + 1 < fuel)%nat -> (2 * length n + 2 < fuel)%nat ->
  strstr p q m = Done (found_ptr (find_sub n h) p, m).
Proof. intros. by apply wp_eq, (wp_strstr m p h q n). Qed.

Definition strstr_mem : mem := mem_of 16 (search_hay ++ [0] ++ search_needle ++ [0; 0; 0; 0; 0; 0; 0]).

Lemma strstr_correct_witness : strstr (F := 60%nat) 16 57 strstr_mem = Done (36, strstr_mem).
Proof. refine (strstr_correct (F := 60%nat) strstr_mem 16 search_hay 57 search_needle _ _ _ _ _ _ _); conc. Defined.
