(* ===== verification/Wcsstr.v ===== *)
(** [wcsstr] finds the first occurrence: string/wcsstr.c, with wcslen.c,
    wcschr.c, wmemchr.c and wmemcmp.c. *)
From S2P Require Import Prelude Mem Scan Memset TwoWay Strstr TwoWayCode Occurs Memmem.
Open Scope c_scope.

Implicit Types h n : list Z.

(** ** Arrays of wide characters *)
Definition wide (v : Z) : Prop := - 2 ^ 31 <= v < 2 ^ 31.

(** The 32-bit integers [l] are stored at [p]. *)
Definition wide_at (m : mem) (p : Z) (l : list Z) : Prop :=
  p mod 4 = 0 /\ forall i v, l !! i = Some v -> wide v /\ bytes_at m (p + 4 * Z.of_nat i) (le_split 4 v).

(** The nul-terminated string [s] of wide characters. *)
Definition wcstring (m : mem) (p : Z) (s : list Z) : Prop := wide_at m p (s ++ [0]) /\ 0 ∉ s.

Lemma wp_ldw m p l i v a (Q : Z -> mem -> Prop) : wide_at m p l -> l !! i = Some v -> a = p + 4 * Z.of_nat i -> Q v m -> wp (ldw a) m Q.
Proof.
  intros [Hp Hat] Hi -> HQ. destruct (Hat i v Hi) as [Hv Hb]. unfold ldw.
  apply wp_bind, (wp_loadw _ _ (le_split 4 v)); [done|apply length_le_split| |].
  - change (Z.of_nat 4) with 4. rewrite (Z.mul_comm 4), Z.mod_add by lia. done.
  - apply wp_ret. rewrite le_combine_split. replace (s32 (v mod 256 ^ Z.of_nat 4)) with v; [done|].
    unfold wide, s32 in *. change (256 ^ Z.of_nat 4) with (2 ^ 32). rewrite Zplus_mod_idemp_l, Z.mod_small; lia.
Qed.

Lemma wp_ldw_at m p l i a (Q : Z -> mem -> Prop) : wide_at m p l -> 0 <= i < Z.of_nat (length l) -> a = p + 4 * i -> Q (at_ l i) m -> wp (ldw a) m Q.
Proof. intros Hl Hi -> HQ. eapply wp_ldw; [done|by apply at_Some|lia|done]. Qed.

Lemma wide_at_app m p l k : wide_at m p (l ++ k) -> wide_at m p l.
Proof. intros [Hp Hat]. split; [done|]. intros i v Hi. apply Hat. by apply lookup_app_l_Some. Qed.

Lemma reads_wide m p l pos : wide_at m p l -> 0 <= pos ->
  reads 4 ldw m (p + 4 * pos) (fun u => at_ l (pos + u)) (Z.of_nat (length l) - pos).
Proof. intros Hl Hp i Q Hi HQ. apply (wp_ldw_at m p l (pos + i)); [done|lia|lia|done]. Qed.

Lemma reads_wide_needle m p l : wide_at m p l -> reads 4 ldw m p (at_ l) (Z.of_nat (length l)).
Proof. intros Hl i Q Hi HQ. apply (wp_ldw_at m p l i); [done|lia|lia|done]. Qed.

(** The character at [i] is the terminator just at the end. *)
Lemma wp_wchar m p (s : list Z) i a (Q : Z -> mem -> Prop) : wcstring m p s -> 0 <= i <= Z.of_nat (length s) -> a = p + 4 * i ->
  (forall v, (v = 0 <-> i = Z.of_nat (length s)) -> (s ++ [0]) !! Z.to_nat i = Some v -> Q v m) -> wp (ldw a) m Q.
Proof.
  intros [Hs H0] Hi -> HQ. destruct (lookup_lt_is_Some_2 (s ++ [0]) (Z.to_nat i)) as [v Hv]; [rewrite length_app; cbn; lia|].
  eapply wp_ldw; [done|exact Hv|lia|]. apply HQ; [|done]. split.
  - intros ->. destruct (decide (i = Z.of_nat (length s))); [done|]. rewrite lookup_app_l in Hv by lia. by apply list_elem_of_lookup_2 in Hv.
  - intros ->. rewrite Nat2Z.id, list_lookup_middle in Hv by done. congruence.
Qed.

Lemma wcstring_wide m p (s : list Z) : wcstring m p s -> wide_at m p s.
Proof. intros [Hs _]. by eapply wide_at_app. Qed.

Lemma wcstring_drop m p (s : list Z) k : wcstring m p s -> (k <= length s)%nat -> wcstring m (p + 4 * Z.of_nat k) (drop k s).
Proof.
  intros [[Hp Hat] H0] Hk. split; [split|].
  - rewrite (Z.mul_comm 4), Z.mod_add by lia. done.
  - intros i v Hi. rewrite <- drop_app_le in Hi by done. rewrite lookup_drop in Hi. destruct (Hat _ _ Hi) as [Hv Hb]. split; [done|].
    by replace (p + 4 * Z.of_nat k + 4 * Z.of_nat i) with (p + 4 * Z.of_nat (k + i)) by lia.
  - intros Hd. apply H0. rewrite <- (take_drop k s). apply elem_of_app. by right.
Qed.

Lemma span_len_all (s : list Z) : span_len (fun _ => false) s = length s.
Proof. induction s; cbn; congruence. Qed.

Lemma span_len_nul (s : list Z) : 0 ∉ s -> span_len (fun b => b =? 0) s = length s.
Proof.
  induction s as [|b s IH]; [done|]. cbn. intros [Hb H0]%not_elem_of_cons. destruct (Z.eqb_spec b 0); [congruence|]. by rewrite IH.
Qed.

(** ** The functions on wide characters *)
Section functions.
Context {F : Fuel} (m : mem) (p : Z) (s : list Z) (Hs : wcstring m p s) (Hf : (length s + 1 < fuel)%nat).

(** A loop [for (; *s && !stop( *s); s++)]. *)
Lemma wp_wscan (cond : Z -> M bool) (f : Z -> bool) (Q : Z -> mem -> Prop) :
  (forall i v, 0 <= i <= Z.of_nat (length s) -> (v = 0 <-> i = Z.of_nat (length s)) -> (s ++ [0]) !! Z.to_nat i = Some v ->
     wp (cond (p + 4 * i)) m (fun t m1 => m1 = m /\ t = negb (v =? 0) && negb (f v))) ->
  Q (p + 4 * Z.of_nat (span_len f s)) m ->
  wp (while cond (fun s => mret (s + 4)) p) m Q.
Proof.
  intros Hc HQ. pose proof (span_len_le f s) as Hle. pose proof Hs as [Hw H0].
  apply (wp_while (fun a m1 => m1 = m /\ exists i, a = p + 4 * i /\ 0 <= i <= Z.of_nat (span_len f s))
    (fun a => Z.to_nat ((p + 4 * Z.of_nat (length s) - a) / 4))); [| |].
  3: { replace (p + 4 * Z.of_nat (length s) - p) with (Z.of_nat (length s) * 4) by lia. rewrite Z.div_mul by lia. lia. }
  2: { split; [done|]. exists 0. lia. }
  intros a m1 (-> & i & -> & Hi). destruct (lookup_lt_is_Some_2 (s ++ [0]) (Z.to_nat i)) as [v Hv]; [rewrite length_app; cbn; lia|].
  assert (Hz : v = 0 <-> i = Z.of_nat (length s)).
  { split.
    - intros ->. destruct (decide (i = Z.of_nat (length s))); [done|]. rewrite lookup_app_l in Hv by lia. by apply list_elem_of_lookup_2 in Hv.
    - intros ->. rewrite Nat2Z.id, list_lookup_middle in Hv by done. congruence. }
  eapply wp_mono; [apply (Hc i v); [lia|done|done]|]. intros t m1 [-> ->].
  assert (Hspan : (negb (v =? 0) && negb (f v)) = (i <? Z.of_nat (span_len f s))).
  { destruct (Z.ltb_spec i (Z.of_nat (span_len f s))) as [Hlt|Hge].
    - destruct (span_len_before f s (Z.to_nat i)) as (b & Hb & Hfb); [lia|]. rewrite lookup_app_l in Hv by lia.
      assert (b = v) as -> by congruence. rewrite Hfb. destruct (Z.eqb_spec v 0); [lia|done].
    - destruct (Z.eqb_spec v 0) as [|Hv0]; [done|]. destruct (span_len_at f s) as (b & Hb & Hfb); [lia|].
      replace (Z.to_nat i) with (span_len f s) in Hv by lia. rewrite lookup_app_l in Hv by lia.
      assert (b = v) as -> by congruence. by rewrite Hfb. }
  rewrite Hspan. destruct (Z.ltb_spec i (Z.of_nat (span_len f s))).
  - apply wp_ret. replace (p + 4 * i + 4) with (p + 4 * (i + 1)) by lia. split; [split; [done|]; exists (i + 1); lia|].
    replace (p + 4 * Z.of_nat (length s) - (p + 4 * (i + 1))) with ((Z.of_nat (length s) - (i + 1)) * 4) by lia.
    replace (p + 4 * Z.of_nat (length s) - (p + 4 * i)) with ((Z.of_nat (length s) - i) * 4) by lia. rewrite !Z.div_mul by lia. lia.
  - by replace i with (Z.of_nat (span_len f s)) by lia.
Qed.

Lemma wp_wcslen Q : Q (Z.of_nat (length s)) m -> wp (wcslen p) m Q.
Proof.
  intros HQ. unfold wcslen. apply wp_bind, (wp_wscan _ (fun _ => false)).
  - intros i v Hi Hv Hl. apply wp_bind, (wp_wchar m p s i); [done|done|done|]. intros w _ Hw. apply wp_ret. rewrite Hl in Hw. simplify_eq. by rewrite andb_true_r.
  - apply wp_ret. rewrite span_len_all. replace (p + 4 * Z.of_nat (length s) - p) with (Z.of_nat (length s) * 4) by lia. by rewrite Z.div_mul.
Qed.

Lemma wp_wcschr c Q : Q (if decide (c ∈ s ++ [0]) then p + 4 * Z.of_nat (span_len (fun b => b =? c) s) else 0) m -> wp (wcschr p c) m Q.
Proof.
  intros HQ. pose proof Hs as [Hw H0]. unfold wcschr. destruct (Z.eqb_spec c 0) as [->|Hc].
  - apply wp_bind, wp_wcslen, wp_ret. rewrite decide_True in HQ by (apply elem_of_app; right; by left).
    by rewrite span_len_nul in HQ.
  - apply wp_bind, (wp_wscan _ (fun b => b =? c)).
    { intros i v Hi Hv Hl. apply wp_bind, (wp_wchar m p s i); [done|done|done|]. intros w _ Hw'. apply wp_ret. rewrite Hl in Hw'. by simplify_eq. }
    pose proof (span_len_le (fun b => b =? c) s) as Hle.
    apply wp_bind, (wp_wchar m p s (Z.of_nat (span_len (fun b => b =? c) s))); [done|lia|done|]. intros v Hv _. apply wp_ret.
    destruct (Z.eqb_spec v 0) as [Hv0|Hv0]; cbn [negb].
    + rewrite decide_False in HQ; [done|]. intros [Hin|Hin%list_elem_of_singleton]%elem_of_app; [|done].
      apply list_elem_of_lookup in Hin as [i Hi]. pose proof (lookup_lt_Some _ _ _ Hi).
      destruct (span_len_before (fun b => b =? c) s i) as (b & Hb & Hne); [lia|]. rewrite Hi in Hb. simplify_eq. lia.
    + rewrite decide_True in HQ; [done|]. destruct (span_len_at (fun b => b =? c) s) as (b & Hb & ->%Z.eqb_eq); [lia|].
      apply elem_of_app. left. by eapply list_elem_of_lookup_2.
Qed.

(** [wmemchr] for the terminator, from [pos] on. *)
Lemma wp_wmemchr_nul pos k Q : 0 <= pos <= Z.of_nat (length s) -> 0 <= k ->
  Q (if pos + k <=? Z.of_nat (length s) then 0 else p + 4 * Z.of_nat (length s)) m -> wp (wmemchr (p + 4 * pos) 0 k) m Q.
Proof.
  intros Hpos Hk HQ. unfold wmemchr. apply wp_bind.
  apply (wp_while (fun x m1 => m1 = m /\ exists i, x = (p + 4 * (pos + i), k - i) /\ 0 <= i <= k /\ pos + i <= Z.of_nat (length s))
    (fun x => Z.to_nat (Z.of_nat (length s) - pos - (k - x.2)))); [| |cbn; lia].
  2: { split; [done|]. exists 0. split; [tuples|lia]. }
  intros x m1 (-> & i & -> & Hi & Hpi). cbn beta iota. apply wp_andM.
  - intros Hk0%negb_true_iff%Z.eqb_neq. apply wp_bind, (wp_wchar m p s (pos + i)); [done|lia|done|]. intros v Hv _. apply wp_ret.
    destruct (Z.eqb_spec v 0) as [Hv0|Hv0]; cbn [negb].
    + apply wp_ret. rewrite (proj2 (Z.eqb_neq (k - i) 0)) by done. cbn [negb].
      rewrite (proj2 (Z.leb_gt _ _)) in HQ by lia. by replace (pos + i) with (Z.of_nat (length s)) by lia.
    + apply wp_ret. split; [|cbn; lia]. split; [done|]. exists (i + 1). split; [tuples|lia].
  - intros Hk0%negb_false_iff%Z.eqb_eq. apply wp_ret. rewrite (proj2 (Z.eqb_eq (k - i) 0)) by done. cbn [negb].
    by rewrite (proj2 (Z.leb_le _ _)) in HQ by lia.
Qed.
End functions.

Lemma wp_wmemcmp {F : Fuel} m p l q k i Q : wide_at m p l -> wide_at m q k -> 0 <= i <= Z.of_nat (length l) -> i <= Z.of_nat (length k) ->
  i < Z.of_nat fuel ->
  (forall r, (r = 0 <-> forall u, 0 <= u < i -> at_ l u = at_ k u) -> Q r m) -> wp (wmemcmp p q i) m Q.
Proof.
  intros Hl Hk Hi Hik Hf HQ. unfold wmemcmp. apply wp_bind.
  apply (wp_while (fun x m1 => m1 = m /\ exists j, x = (p + 4 * j, q + 4 * j, i - j) /\ 0 <= j <= i /\ forall u, 0 <= u < j -> at_ l u = at_ k u)
    (fun x => Z.to_nat x.2)); [| |cbn; lia].
  2: { split; [done|]. exists 0. split; [tuples|]. split; [lia|]. lia. }
  intros x m1 (-> & j & -> & Hj & Heq). cbn beta iota. apply wp_andM.
  - intros Hn%negb_true_iff. pose proof (proj1 (Z.eqb_neq _ _) Hn). apply wp_bind, (wp_ldw_at m p l j); [done|lia|done|].
    apply wp_bind, (wp_ldw_at m q k j); [done|lia|done|]. apply wp_ret. destruct (Z.eqb_spec (at_ l j) (at_ k j)) as [He|Hne].
    + apply wp_ret. split; [|cbn; lia]. split; [done|]. exists (j + 1). split; [tuples|]. split; [lia|].
      intros u Hu. destruct (decide (u = j)) as [->|]; [done|apply Heq; lia].
    + rewrite Hn. cbn [negb]. apply wp_bind, (wp_ldw_at m p l j); [done|lia|done|].
      apply wp_bind, (wp_ldw_at m q k j); [done|lia|done|]. apply wp_ret, HQ.
      assert (wide (at_ l j)) by (apply (proj2 Hl (Z.to_nat j)), at_Some; lia).
      assert (wide (at_ k j)) by (apply (proj2 Hk (Z.to_nat j)), at_Some; lia).
      split; [|intros He; destruct Hne; apply He; lia]. unfold wide, s32 in *. intros Hr. exfalso. mlia.
  - intros Hn%negb_false_iff. rewrite Hn. cbn [negb]. apply Z.eqb_eq in Hn. apply wp_ret, HQ. split; [|done]. intros _. by replace i with j by lia.
Qed.

(** The difference that [wmemcmp] returns wraps: it orders characters that are
    more than [INT_MAX] apart the wrong way round. *)
Example wmemcmp_wraps :
  wmemcmp (F := 3%nat) 16 20 1 (mem_of 16 (le_split 4 INT_MAX ++ le_split 4 (-1)))
  = Done (INT_MIN, mem_of 16 (le_split 4 INT_MAX ++ le_split 4 (-1))).
Proof. by vm_compute. Qed.

(** ** The search *)
Section twoway.
Context {F : Fuel} (m : mem) (pn : Z) (n : list Z) (ph : Z) (h : list Z).
Abbreviation l := (Z.of_nat (length n)).
Abbreviation H := (Z.of_nat (length h)).
Abbreviation c := (at_ n).
Context (Hn : wcstring m pn n) (Hh : wcstring m ph h) (Hph : 0 < ph) (Hl : 1 <= l < 2 ^ 64).
Context (Hf : (2 * length n + 2 < fuel)%nat) (Hfh : (length h + 1 < fuel)%nat).

Lemma wp_length_wcsstr Q : Q (Z.min l H) m -> wp (length_wcsstr pn ph) m Q.
Proof.
  intros HQ. unfold length_wcsstr.
  apply (wp_while (fun i m1 => m1 = m /\ 0 <= i <= Z.min l H) (fun i => Z.to_nat (l - i))); [| |lia].
  2: { split; [done|lia]. }
  intros i m1 (-> & Hi). apply wp_bind, (wp_wchar m pn n i); [done|lia|done|].
  intros b Hb _. destruct (Z.eqb_spec b 0) as [Hb0|Hb0]; cbn [negb andM].
  { apply wp_ret. by replace i with (Z.min l H) by lia. }
  apply wp_bind, (wp_wchar m ph h i); [done|lia|done|]. intros v Hv _. apply wp_ret. destruct (Z.eqb_spec v 0) as [Hv0|Hv0]; cbn [negb].
  { by replace i with (Z.min l H) by lia. }
  apply wp_ret. split; [split; [done|]|]; lia.
Qed.

Lemma words_apart a b : (ph + 4 * a - (ph + 4 * b)) / 4 = a - b.
Proof. replace (ph + 4 * a - (ph + 4 * b)) with ((a - b) * 4) by lia. by apply Z.div_mul. Qed.

Lemma wp_extend_wcsstr pos zpos Q : 0 <= pos <= zpos -> zpos <= H ->
  (H - pos < l -> Q None m) ->
  (forall zpos', zpos <= zpos' <= H -> pos + l <= zpos' -> Q (Some (ph + 4 * zpos')) m) ->
  wp (extend_wcsstr l (ph + 4 * pos) (ph + 4 * zpos)) m Q.
Proof.
  intros Hpos Hz Hend Hmore. unfold extend_wcsstr. rewrite words_apart.
  destruct (Z.ltb_spec (zpos - pos) l) as [Hlt|Hge]; [|apply wp_ret, Hmore; lia]. cbn zeta.
  pose proof (grow_ge l ltac:(lia)) as Hgrow. set (grow := l .| 63) in *.
  apply wp_bind, (wp_wmemchr_nul m ph h Hh Hfh); [lia|lia|]. destruct (Z.leb_spec (zpos + grow) H) as [Hle|Hle].
  - apply wp_ret. replace (ph + 4 * zpos + 4 * grow) with (ph + 4 * (zpos + grow)) by lia. apply Hmore; lia.
  - rewrite (proj2 (Z.eqb_neq _ 0)) by lia. cbn [negb]. apply wp_ret. rewrite words_apart.
    destruct (Z.ltb_spec (H - pos) l) as [Hlt2|Hge2]; [by apply Hend|apply Hmore; lia].
Qed.

Lemma wmemcmp_compares : compares 4 m pn c l wmemcmp.
Proof.
  intros p i Q Hp Hi Hip HQ. pose proof (wcstring_wide _ _ _ Hn) as Hw.
  apply (wp_wmemcmp m pn n (pn + 4 * p) (drop (Z.to_nat p) n)); [done| |lia|rewrite length_drop; lia|lia|].
  - apply wcstring_wide. replace (pn + 4 * p) with (pn + 4 * Z.of_nat (Z.to_nat p)) by lia. apply wcstring_drop; [done|lia].
  - intros r Hr. apply HQ. rewrite Hr. apply forall_proper. intros u. unfold at_.
    split; intros He Hu; specialize (He Hu); rewrite He || rewrite <- He; rewrite !list_lookup_total_alt, lookup_drop; do 2 f_equal; lia.
Qed.

Lemma wp_more_wide k (Q : bool -> mem -> Prop) : 0 <= k <= l -> Q (k <? l) m -> wp (c ← ldw (pn + 4 * k); mret (negb (c =? 0))) m Q.
Proof.
  intros Hk HQ. apply wp_bind, (wp_wchar m pn n k); [done|lia|done|]. intros v Hv _. apply wp_ret.
  replace (negb (v =? 0)) with (k <? l); [done|]. destruct (Z.ltb_spec k l), (Z.eqb_spec v 0); cbn; try done; lia.
Qed.

Lemma wp_twoway_wcsstr Q : Q (match find_sub n h with Some d => ph + 4 * Z.of_nat d | None => 0 end) m -> wp (twoway_wcsstr ph pn) m Q.
Proof.
  intros HQ. assert (Hne : n <> []) by (intros ->; cbn in Hl; lia).
  unfold twoway_wcsstr. apply wp_bind, wp_length_wcsstr.
  apply wp_bind, (wp_wchar m pn n (Z.min l H)); [done|lia|done|]. intros e He _. destruct (Z.eqb_spec e 0) as [He0|He0]; cbn [negb].
  2: { apply wp_ret. rewrite find_sub_short in HQ by lia. done. }
  replace (Z.min l H) with l in * by lia. pose proof (wcstring_wide _ _ _ Hn) as Hnb. pose proof (wcstring_wide _ _ _ Hh) as Hhb.
  apply wp_bind, (wp_critical 4 ldw m pn c l); [by apply reads_wide_needle|lia|lia|by apply wmemcmp_compares|]. intros i p mem0 Hp. cbn beta iota.
  apply (wp_loop (fun s m1 => m1 = m /\ exists pos zpos mem, s = (ph + 4 * pos, ph + 4 * zpos, mem) /\ 0 <= pos <= zpos /\ zpos <= H /\
    none_before n h pos /\ remembered c mem0 mem (fun u => at_ h (pos + u))) (fun s => Z.to_nat ((ph + 4 * H - s.1.1) / 4))); [| |].
  3: { cbn. replace (ph + 4 * H - ph) with (H * 4) by lia. rewrite Z.div_mul by lia. lia. }
  2: { split; [done|]. exists 0, 0, 0. split; [tuples|]. split; [lia|]. split; [lia|]. split; [apply none_before_0|by left]. }
  intros s m1 (-> & pos & zpos & mem & -> & Hpos & Hz & Hb & Hr). cbn beta iota.
  apply wp_bind, wp_extend_wcsstr; [done|done| |].
  { intros Hend. apply wp_ret. by rewrite (find_sub_end n h pos) in HQ. }
  intros zpos' Hz' Hwin. apply wp_bind, (wp_compare_at n h Hne 4 ldw m pn ph) with (i := i) (pos := pos); try done; try lia.
  - by apply reads_wide_needle.
  - eapply reads_sub; [apply reads_wide; [done|lia]|lia].
  - apply wp_more_wide.
  - intros Hfs. apply wp_ret. rewrite Hfs in HQ. cbn in HQ. by rewrite Z2Nat.id in HQ by lia.
  - intros pos' mem' Hpos' Hb' Hr'. apply wp_ret. split.
    + split; [done|]. exists pos', zpos', mem'. split; [done|]. split; [lia|]. split; [lia|done].
    + cbn [fst]. rewrite !words_apart. lia.
Qed.
End twoway.

Section wcsstr.
Context {F : Fuel}.

Lemma wp_wcsstr m p h q n Q : 0 < p -> wcstring m p h -> wcstring m q n -> Z.of_nat (length n) < 2 ^ 64 ->
  (length h + 1 < fuel)%nat -> (2 * length n + 2 < fuel)%nat ->
  Q (match find_sub n h with Some d => p + 4 * Z.of_nat d | None => 0 end) m -> wp (wcsstr p q) m Q.
Proof.
  intros Hp Hh Hn Hl Hf Hfn HQ. unfold wcsstr. apply wp_bind, (wp_wchar m q n 0); [done|lia|lia|]. intros a Ha Hla.
  destruct (Z.eqb_spec a 0) as [Ha0|Ha0].
  { apply wp_ret. destruct n; [|cbn in Ha; lia]. destruct h; cbn in HQ; by rewrite Z.add_0_r in HQ. }
  destruct n as [|a' n]; [cbn in Ha; lia|]. cbn in Hla. injection Hla as ->.
  apply wp_bind, (wp_wchar m p h 0); [done|lia|lia|]. intros v Hv _. destruct (Z.eqb_spec v 0) as [Hv0|Hv0].
  { apply wp_ret. rewrite find_sub_short in HQ by (cbn; lia). done. }
  set (d := span_len (fun b => b =? a) h). pose proof (span_len_le (fun b => b =? a) h : (d <= length h)%nat) as Hd.
  apply wp_bind, (wp_wcschr m p h); [done|done|]. fold d. destruct (decide (d = length h)) as [Hend|Hin].
  { rewrite find_sub_nowhere in HQ by done. rewrite decide_False; [by apply wp_ret|]. intros Hina.
    apply elem_of_app in Hina as [Hina|Hina%list_elem_of_singleton]; [|lia].
    apply list_elem_of_lookup in Hina as [i Hi]. pose proof (lookup_lt_Some _ _ _ Hi).
    destruct (span_len_before (fun b => b =? a) h i) as (b & Hb & Hne); [fold d; lia|]. rewrite Hi in Hb. simplify_eq. lia. }
  rewrite decide_True.
  2: { destruct (span_len_at (fun b => b =? a) h) as (b & Hb & ->%Z.eqb_eq); [fold d; lia|]. apply elem_of_app. left. by eapply list_elem_of_lookup_2. }
  rewrite (proj2 (Z.eqb_neq (p + 4 * Z.of_nat d) 0)) by lia.
  pose proof (wcstring_drop m p h d Hh Hd) as Hh'. pose proof (length_drop h d) as Hld.
  apply wp_bind, (wp_wchar m q (a :: n) 1); [done|cbn; lia|lia|]. intros w Hw _. destruct (Z.eqb_spec w 0) as [Hw0|Hw0].
  { apply wp_ret. destruct n; [|cbn in Hw; lia]. by rewrite (find_sub_one a h) in HQ by (fold d; lia). }
  apply wp_bind, (wp_wchar m (p + 4 * Z.of_nat d) (drop d h) 1); [done|lia|lia|]. intros x Hx _. destruct (Z.eqb_spec x 0) as [Hx0|Hx0].
  - apply wp_ret. rewrite find_sub_first, find_sub_short in HQ; [done|]. fold d. rewrite Hld. cbn in *. lia.
  - apply (wp_twoway_wcsstr m q (a :: n) _ (drop d h)); try done; [lia|cbn in *; lia|lia|].
    rewrite find_sub_first in HQ. fold d in HQ. destruct (find_sub (a :: n) (drop d h)) as [e|]; cbn [fmap option_fmap option_map] in *; [|done].
    by replace (p + 4 * Z.of_nat d + 4 * Z.of_nat e) with (p + 4 * Z.of_nat (d + e)) by lia.
Qed.
End wcsstr.

(** [wcsstr] returns the address of the first occurrence of a string of wide
    characters in another, or a null pointer: the same search without the table. *)
Theorem wcsstr_correct {F : Fuel} m p h q n :
  0 < p -> wcstring m p h -> wcstring m q n -> Z.of_nat (length n) < 2 ^ 64 ->
  (length h + 1 < fuel)%nat -> (2 * length n + 2 < fuel)%nat ->
  wcsstr p q m = Done (match find_sub n h with Some d => p + 4 * Z.of_nat d | None => 0 end, m).
Proof. intros. by apply wp_eq, (wp_wcsstr m p h q n). Qed.

Definition wcstringb (m : mem) (p : Z) (s : list Z) : bool :=
  (p mod 4 =? 0) && forallb (fun '(i, v) => (- 2 ^ 31 <=? v) && (v <? 2 ^ 31) && bytes_atb m (p + 4 * Z.of_nat i) (le_split 4 v))
    (zip (seq 0 (length (s ++ [0]))) (s ++ [0])) && bool_decide (0 ∉ s).

Lemma wcstringb_correct m p s : wcstringb m p s = true -> wcstring m p s.
Proof.
  unfold wcstringb. rewrite !andb_true_iff, forallb_forall, Z.eqb_eq, bool_decide_eq_true. intros [[Hp Hat] H0]. split; [split|]; [done| |done].
  intros i v Hi. assert (Hin : In (i, v) (zip (seq 0 (length (s ++ [0]))) (s ++ [0]))).
  { apply list_elem_of_In, (list_elem_of_lookup_2 _ i), lookup_zip_Some. split; [|done]. apply lookup_seq. apply lookup_lt_Some in Hi. lia. }
  apply Hat in Hin. apply andb_true_iff in Hin as [Hv Hb]. split; [unfold wide; lia|by apply bytes_atb_correct].
Qed.

Definition wcsstr_mem : mem := mem_of 16 (concat (map (le_split 4) (search_hay ++ [0] ++ search_needle ++ [0]))).

Lemma wcsstr_correct_witness : wcsstr (F := 60%nat) 16 180 wcsstr_mem = Done (96, wcsstr_mem).
Proof.
  refine (wcsstr_correct (F := 60%nat) wcsstr_mem 16 search_hay 180 search_needle _ _ _ _ _ _);
    [conc|apply wcstringb_correct; by vm_compute|apply wcstringb_correct; by vm_compute|conc..].
Defined.
