(* ===== verification/Hsearch.v ===== *)
(** Hash tables: search/hsearch.c.

    A table is an array of [2^n] entries; a null key marks a free one.  A key is
    the string it points to, which the caller keeps as long as the table; a
    pointer to an entry is its index.  The outcome of [calloc] is a parameter.
    An outer [None] is an access outside the array (or through a null pointer)
    or a probe sequence that does not end; the theorems exclude both. *)
From S2P Require Import Prelude CStr.
Open Scope c_scope.

Definition MINSIZE : Z := 8.
Definition MAXSIZE : Z := u64 (-1) / 2 + 1.

Record ENTRY := Entry { key : option (list Z); data : Z }.

(** [entries] is null until the first allocation. *)
Record __tab := Tab { entries : option (list ENTRY); mask : Z; used : Z }.

Inductive ACTION := FIND | ENTER.

Definition free_entry : ENTRY := Entry None 0.

#[export] Instance entry_inhabited : Inhabited ENTRY := populate free_entry.

Fixpoint keyhash_loop (h : Z) (p : list Z) : Z :=
  match p with [] => h | c :: p => keyhash_loop (u64 (31 * h + c)) p end.

Definition keyhash (k : list Z) : Z := keyhash_loop 0 k.

(** The loops over [i += j++]: the first place that [stop] accepts. *)
Fixpoint probe (fuel : nat) (stop : ENTRY -> bool) (es : list ENTRY) (mask i j : Z) : option nat :=
  match fuel with
  | O => None
  | S fuel =>
      let n := Z.to_nat (i & mask) in
      e ← es !! n;
      if stop e then Some n else probe fuel stop es mask (u64 (i + j)) (u64 (j + 1))
  end.

Definition is_free (e : ENTRY) : bool := match key e with None => true | Some _ => false end.

Definition is_free_or (k : list Z) (e : ENTRY) : bool :=
  match key e with None => true | Some k' => strcmp k' k =? 0 end.

Definition lookup (k : list Z) (hash : Z) (t : __tab) : option nat :=
  es ← entries t;
  probe (length es) (is_free_or k) es (mask t) hash 1.

Fixpoint newsize_loop (fuel : nat) (newsize nel : Z) : option Z :=
  match fuel with
  | O => None
  | S fuel => if newsize <? nel then newsize_loop fuel (u64 (newsize * 2)) nel else Some newsize
  end.

(** The entries of the old array move to the new one. *)
Fixpoint rehash (old : list ENTRY) (es : list ENTRY) (mask : Z) : option (list ENTRY) :=
  match old with
  | [] => Some es
  | e :: old =>
      match key e with
      | None => rehash old es mask
      | Some k =>
          n ← probe (length es) is_free es mask (keyhash k) 1;
          rehash old (<[n := e]> es) mask
      end
  end.

Section hsearch.
(** Whether [calloc] of so many objects of a size succeeds. *)
Context (calloc : Z -> Z -> bool).

(** [resize] returns whether it succeeded, and the table. *)
Definition resize (nel : Z) (t : __tab) : option (bool * __tab) :=
  let oldtab := entries t in
  let nel := if nel >? MAXSIZE then MAXSIZE else nel in
  newsize ← newsize_loop 64 MINSIZE nel;
  if calloc newsize 16 then
    let es := replicate (Z.to_nat newsize) free_entry in
    let mask' := newsize - 1 in
    match oldtab with
    | None => Some (true, Tab (Some es) mask' (used t))
    | Some old => es ← rehash old es mask'; Some (true, Tab (Some es) mask' (used t))
    end
  else Some (false, t).

(** A table descriptor, null or pointing to a [__tab]. *)
Definition hcreate_r (nel : Z) : option (Z * option __tab) :=
  if calloc 1 24 then
    '(r, t) ← resize nel (Tab None 0 0);
    if (r : bool) then Some (1, Some t) else Some (0, None)
  else Some (0, None).

Definition hdestroy_r (htab : option __tab) : option __tab := None.

(** The result, the entry found and the table. *)
Definition hsearch_r (item : list Z * Z) (action : ACTION) (htab : option __tab) : option (Z * option nat * option __tab) :=
  let '(k, d) := item in
  let hash := keyhash k in
  t ← htab;
  n ← lookup k hash t;
  es ← entries t;
  e ← es !! n;
  match key e with
  | Some _ => Some (1, Some n, htab)
  | None =>
      match action with
      | FIND => Some (0, None, htab)
      | ENTER =>
          let t := Tab (Some (<[n := Entry (Some k) d]> es)) (mask t) (u64 (used t + 1)) in
          if used t >? mask t - mask t / 4 then
            '(r, t) ← resize (u64 (2 * used t)) t;
            if (r : bool) then
              n ← lookup k hash t;
              Some (1, Some n, Some t)
            else
              es ← entries t;
              e ← es !! n;
              Some (0, None, Some (Tab (Some (<[n := Entry None (data e)]> es)) (mask t) (u64 (used t - 1))))
          else Some (1, Some n, Some t)
      end
  end.

(** The functions on the one table of the program. *)
Definition hcreate (nel : Z) : option (Z * option __tab) := hcreate_r nel.

Definition hdestroy (htab : option __tab) : option __tab := hdestroy_r htab.

Definition hsearch (item : list Z * Z) (action : ACTION) (htab : option __tab) : option (option nat * option __tab) :=
  '(_, e, htab) ← hsearch_r item action htab; Some (e, htab).
End hsearch.

(** [calloc] refuses the larger array for a number of keys. *)
Definition refuses (calloc : Z -> Z -> bool) (keys : Z) : Prop := exists n, 2 * keys <= n < 4 * keys /\ calloc n 16 = false.

(** ** The sequence of places *)
Definition tri (j : Z) : Z := j * (j + 1) / 2.

Lemma tri_0 : tri 0 = 0.
Proof. done. Qed.

Lemma tri_2 j : 2 * tri j = j * (j + 1).
Proof.
  unfold tri. assert (H : (j * (j + 1)) mod 2 = 0).
  { rewrite Z.mul_mod, Z.add_mod by lia. destruct (Zmod_even j); pose proof (Z.mod_pos_bound j 2 ltac:(lia)).
    assert (j mod 2 = 0 \/ j mod 2 = 1) as [->| ->] by lia; done. }
  pose proof (Z.div_mod (j * (j + 1)) 2 ltac:(lia)). lia.
Qed.

Lemma tri_succ j : tri (j + 1) = tri j + (j + 1).
Proof. pose proof (tri_2 j). pose proof (tri_2 (j + 1)). lia. Qed.

Lemma odd_divides n a b : 0 <= n -> Z.odd a = true -> (2 ^ n | a * b) -> (2 ^ n | b).
Proof.
  intros Hn Ha. revert b. pattern n. apply natlike_ind; [|clear n Hn; intros n Hn IH|done].
  - intros b _. apply Z.divide_1_l.
  - intros b [q Hq]. rewrite Z.pow_succ_r in * by done.
    assert (Hb : Z.even b = true).
    { apply (f_equal Z.even) in Hq. rewrite (Z.mul_comm 2), Z.mul_assoc, !Z.even_mul, orb_true_r in Hq.
      rewrite <- Z.negb_odd, Ha in Hq. done. }
    apply Z.even_spec in Hb as [b' ->]. apply Z.mul_divide_mono_l, IH. exists q. lia.
Qed.

(** The places of the first [2^k] steps differ. *)
Lemma tri_injective k i j : 0 <= k -> 0 <= i < 2 ^ k -> 0 <= j < 2 ^ k -> tri i mod 2 ^ k = tri j mod 2 ^ k -> i = j.
Proof.
  intros Hk Hi Hj He. destruct (decide (i = j)) as [|Hne]; [done|exfalso].
  assert (Hd : (2 ^ (k + 1) | (j - i) * (j + i + 1))).
  { replace ((j - i) * (j + i + 1)) with (2 * (tri j - tri i)) by (pose proof (tri_2 i); pose proof (tri_2 j); lia).
    rewrite Z.pow_add_r by lia. change (2 ^ 1) with 2. rewrite (Z.mul_comm (2 ^ k)). apply Z.mul_divide_mono_l.
    apply Z.mod_divide; [lia|]. rewrite Zminus_mod, He, Z.sub_diag. apply Z.mod_0_l. lia. }
  assert (Hpow : 2 ^ (k + 1) = 2 * 2 ^ k) by (rewrite Z.pow_add_r by lia; lia).
  destruct (Z.odd (j - i)) eqn:Ho.
  - apply odd_divides in Hd; [|lia|done]. apply Z.divide_pos_le in Hd; lia.
  - rewrite Z.mul_comm in Hd. apply odd_divides in Hd; [|lia|].
    + destruct (Z.lt_ge_cases i j); [apply Z.divide_pos_le in Hd; lia|].
      apply Z.divide_opp_r, Z.divide_pos_le in Hd; lia.
    + replace (j + i + 1) with (j - i + (2 * i + 1)) by lia. rewrite Z.odd_add, Ho, Z.odd_add, Z.odd_mul. done.
Qed.

(** ** Probing *)

(** The place that step [j] looks at, for the hash [h], in a table of [2^k] places. *)
Definition slot (k h j : Z) : nat := Z.to_nat ((h + tri j) mod 2 ^ k).

Section probe.
Context (k h : Z) (Hk : 0 <= k <= 63) (es : list ENTRY) (Hes : Z.of_nat (length es) = 2 ^ k).

Lemma slot_lt j : (slot k h j < length es)%nat.
Proof. unfold slot. pose proof (Z.mod_pos_bound (h + tri j) (2 ^ k) ltac:(lia)). lia. Qed.

Lemma slot_injective i j : 0 <= i < 2 ^ k -> 0 <= j < 2 ^ k -> slot k h i = slot k h j -> i = j.
Proof.
  unfold slot. intros Hi Hj He. apply (tri_injective k); [lia..|].
  pose proof (Z.mod_pos_bound (h + tri i) (2 ^ k) ltac:(lia)). pose proof (Z.mod_pos_bound (h + tri j) (2 ^ k) ltac:(lia)).
  assert (He' : (h + tri i) mod 2 ^ k = (h + tri j) mod 2 ^ k) by lia.
  replace (tri i) with (h + tri i - h) by lia. replace (tri j) with (h + tri j - h) by lia.
  by rewrite (Zminus_mod (h + tri i)), (Zminus_mod (h + tri j)), He'.
Qed.

(** Every place is looked at. *)
Lemma slot_surjective n : (n < length es)%nat -> exists j, 0 <= j < 2 ^ k /\ slot k h j = n.
Proof.
  intros Hn. set (l := map (fun j => slot k h (Z.of_nat j)) (seq 0 (length es))).
  assert (Hnd : base.NoDup l).
  { apply NoDup_fmap_2_strong; [|apply NoDup_seq]. intros i j Hi%elem_of_seq Hj%elem_of_seq He.
    apply slot_injective in He; lia. }
  assert (Hin : n ∈ l).
  { assert (Hp : l ≡ₚ seq 0 (length es)); [|rewrite Hp; apply elem_of_seq; lia].
    apply submseteq_length_Permutation; [|unfold l; by rewrite length_map, length_seq].
    apply NoDup_submseteq; [done|]. intros x (j & -> & _)%list_elem_of_fmap. apply elem_of_seq. pose proof (slot_lt (Z.of_nat j)). lia. }
  apply list_elem_of_fmap in Hin as (j & -> & Hj%elem_of_seq). exists (Z.of_nat j). split; [lia|done].
Qed.

(** The first step at a place that [stop] accepts. *)
Definition first_stop (stop : ENTRY -> bool) (s : Z) (e : ENTRY) : Prop :=
  0 <= s < 2 ^ k /\ es !! slot k h s = Some e /\ stop e = true /\
  forall j e', 0 <= j < s -> es !! slot k h j = Some e' -> stop e' = false.

Lemma probe_stops stop s e : first_stop stop s e -> probe (length es) stop es (2 ^ k - 1) (u64 h) 1 = Some (slot k h s).
Proof.
  intros (Hs & He & Hstop & Hbefore).
  assert (Hp : forall fuel j, 0 <= j <= s -> s - j < Z.of_nat fuel ->
    probe fuel stop es (2 ^ k - 1) (u64 (h + tri j)) (j + 1) = Some (slot k h s)).
  { induction fuel as [|fuel IH]; intros j Hj Hf; [lia|]. cbn [probe].
    assert (Hslot : Z.to_nat (u64 (h + tri j) & (2 ^ k - 1)) = slot k h j).
    { unfold slot. f_equal. replace (2 ^ k - 1) with (Z.ones k) by (rewrite Z.ones_equiv; lia). rewrite Z.land_ones by lia.
      unfold u64. replace (2 ^ 64) with (2 ^ k * 2 ^ (64 - k)) by (rewrite <- Z.pow_add_r by lia; f_equal; lia).
      rewrite Z.rem_mul_r by lia. rewrite (Z.mul_comm (2 ^ k)), Z.mod_add, Z.mod_mod by lia. done. }
    rewrite Hslot. destruct (lookup_lt_is_Some_2 es (slot k h j) (slot_lt j)) as [e' He']. rewrite He'. cbn [mbind option_bind].
    destruct (decide (j = s)) as [->|Hne].
    - rewrite He in He'. injection He' as <-. by rewrite Hstop.
    - rewrite (Hbefore j e') by (done || lia).
      replace (u64 (u64 (h + tri j) + (j + 1))) with (u64 (h + tri (j + 1))).
      + rewrite (u64_id (j + 1 + 1)); [apply IH; lia|]. assert (2 ^ k <= 2 ^ 63) by (apply Z.pow_le_mono_r; lia). lia.
      + rewrite tri_succ. unfold u64. rewrite Zplus_mod_idemp_l. f_equal. lia. }
  specialize (Hp (length es) 0). rewrite tri_0, Z.add_0_r in Hp. apply Hp; lia.
Qed.

(** If a place is accepted, the probing ends. *)
Lemma probe_ends stop n e : es !! n = Some e -> stop e = true -> exists s e', first_stop stop s e'.
Proof.
  intros He Hstop. destruct (slot_surjective n) as (j & Hj & <-); [by apply lookup_lt_Some in He|].
  assert (H : forall i, 0 <= i -> i <= 2 ^ k ->
    (exists s e', first_stop stop s e') \/ forall j e', 0 <= j < i -> es !! slot k h j = Some e' -> stop e' = false).
  { apply (natlike_ind (fun i => i <= 2 ^ k -> _)); [right; lia|]. intros i Hi IH Hle. destruct IH as [|Hno]; [lia|by left|].
    destruct (lookup_lt_is_Some_2 es (slot k h i) (slot_lt i)) as [e' He']. destruct (stop e') eqn:Hs.
    - left. exists i, e'. split; [lia|]. by split.
    - right. intros j' e'' Hj' He''. destruct (decide (j' = i)) as [->|]; [congruence|apply (Hno j'); [lia|done]]. }
  destruct (H (2 ^ k)) as [|Hno]; [lia|lia|done|]. rewrite (Hno j e) in Hstop by done. done.
Qed.
End probe.

(** ** The contents of a table *)
Definition pair_of (e : ENTRY) : option (list Z * Z) := k ← key e; Some (k, data e).

Definition pairs (es : list ENTRY) : list (list Z * Z) := omap pair_of es.

Lemma elem_of_pairs es k d : (k, d) ∈ pairs es <-> exists n, es !! n = Some (Entry (Some k) d).
Proof.
  unfold pairs. rewrite list_elem_of_omap. split.
  - intros ([[k'|] d'] & (n & Hn)%list_elem_of_lookup & He); cbn in He; [|done]. simplify_eq. by exists n.
  - intros [n Hn]. exists (Entry (Some k) d). split; [by eapply list_elem_of_lookup_2|done].
Qed.

(** The keys of different places differ. *)
Definition unique (es : list ENTRY) : Prop := forall n n' e e' k,
  es !! n = Some e -> es !! n' = Some e' -> key e = Some k -> key e' = Some k -> n = n'.

Lemma unique_NoDup es : unique es -> base.NoDup (pairs es).*1.
Proof.
  induction es as [|e es IH]; intros Hu; [constructor|].
  assert (Hu' : unique es).
  { intros n n' e1 e2 k H1 H2 K1 K2. specialize (Hu (S n) (S n') e1 e2 k H1 H2 K1 K2). lia. }
  unfold pairs in *. cbn [omap list_omap]. destruct e as [[k|] d]; cbn; [|by apply IH].
  apply list.NoDup_cons. split; [|by apply IH]. intros ([k' d'] & -> & ([[k2|] d2] & Hin & He)%list_elem_of_omap)%list_elem_of_fmap; cbn in He; [|done].
  simplify_eq. apply list_elem_of_lookup in Hin as [n Hn]. by pose proof (Hu O (S n) _ _ k' eq_refl Hn eq_refl eq_refl).
Qed.

Lemma insert_middle (es : list ENTRY) n e e' : es !! n = Some e -> <[n := e']> es = take n es ++ e' :: drop (S n) es.
Proof. intros Hn. apply insert_take_drop. by apply lookup_lt_Some in Hn. Qed.

Lemma pair_of_free e : key e = None -> pair_of e = None.
Proof. unfold pair_of. by intros ->. Qed.

(** Filling a free place. *)
Lemma pairs_fill es n e k d : es !! n = Some e -> key e = None -> pairs (<[n := Entry (Some k) d]> es) ≡ₚ (k, d) :: pairs es.
Proof.
  intros Hn He. rewrite (insert_middle es n e) by done. rewrite <- (take_drop_middle es n e Hn) at 3.
  unfold pairs. rewrite !omap_app. cbn [omap list_omap].
  rewrite (pair_of_free e He). change (pair_of (Entry (Some k) d)) with (Some (k, d)). symmetry. apply Permutation_middle.
Qed.

Lemma pairs_free es n e d : es !! n = Some e -> key e = None -> pairs (<[n := Entry None d]> es) = pairs es.
Proof.
  intros Hn He. rewrite (insert_middle es n e) by done. rewrite <- (take_drop_middle es n e Hn) at 3.
  unfold pairs. rewrite !omap_app. cbn [omap list_omap].
  by rewrite (pair_of_free e He).
Qed.

(** Fewer keys than places leave a free place. *)
Lemma free_place es : (length (pairs es) < length es)%nat -> exists n e, es !! n = Some e /\ key e = None.
Proof.
  induction es as [|[[k|] d] es IH]; cbn; [lia| |by exists O, (Entry None d)].
  intros Hl. destruct IH as (n & e & Hn & He); [unfold pairs; lia|]. by exists (S n), e.
Qed.

(** ** The invariant *)
Record table (k : Z) (es : list ENTRY) : Prop := {
  tb_length : Z.of_nat (length es) = 2 ^ k;
  tb_unique : unique es;
  tb_keys n e kk : es !! n = Some e -> key e = Some kk -> cstr kk;
  (** No free place on the way to a key. *)
  tb_reach n e kk : es !! n = Some e -> key e = Some kk ->
    exists s, 0 <= s < 2 ^ k /\ slot k (keyhash kk) s = n /\
      forall j e', 0 <= j < s -> es !! slot k (keyhash kk) j = Some e' -> key e' <> None }.

Definition absent (kk : list Z) (es : list ENTRY) : Prop := forall n e, es !! n = Some e -> key e <> Some kk.

Lemma absent_pairs kk es : absent kk es <-> kk ∉ (pairs es).*1.
Proof.
  split.
  - intros Ha ([k' d] & -> & [n Hn]%elem_of_pairs)%list_elem_of_fmap. by apply (Ha n _ Hn).
  - intros Ha n [k' d] Hn He. cbn in He. subst k'. apply Ha, list_elem_of_fmap. exists (kk, d). split; [done|].
    apply elem_of_pairs. by exists n.
Qed.

Lemma table_fill k es kk d s e : table k es -> cstr kk -> absent kk es -> 0 <= s < 2 ^ k ->
  es !! slot k (keyhash kk) s = Some e -> key e = None ->
  (forall j e', 0 <= j < s -> es !! slot k (keyhash kk) j = Some e' -> key e' <> None) ->
  table k (<[slot k (keyhash kk) s := Entry (Some kk) d]> es).
Proof.
  intros [Hlen Hu Hk Hr] Hc Ha Hs Hn He Hb. set (n := slot k (keyhash kk) s) in *.
  assert (Hnl : (n < length es)%nat) by (by apply lookup_lt_Some in Hn).
  assert (Hcase : forall n' e', <[n := Entry (Some kk) d]> es !! n' = Some e' -> (n' = n /\ e' = Entry (Some kk) d) \/ (n' <> n /\ es !! n' = Some e')).
  { intros n' e'. destruct (decide (n' = n)) as [->|Hne]; [rewrite list_lookup_insert_eq by done|rewrite list_lookup_insert_ne by done].
    - intros [= <-]. by left.
    - intros H. by right. }
  assert (Hfull : forall e' i, <[n := Entry (Some kk) d]> es !! i = Some e' -> (forall e0, es !! i = Some e0 -> key e0 <> None) -> key e' <> None).
  { intros e' i [[-> ->]|[_ H]]%Hcase Hi; [done|by apply Hi]. }
  split.
  - by rewrite length_insert.
  - intros n1 n2 e1 e2 k' H1 H2 K1 K2. apply Hcase in H1 as [[-> ->]|[N1 H1]], H2 as [[-> ->]|[N2 H2]]; cbn in *; simplify_eq; try done.
    + by destruct (Ha n2 e2).
    + by destruct (Ha n1 e1).
    + by apply (Hu n1 n2 e1 e2 k').
  - intros n' e' k' [[-> ->]|[_ H]]%Hcase K; [cbn in K; by simplify_eq|by apply (Hk n' e')].
  - intros n' e' k' [[-> ->]|[_ H]]%Hcase K; cbn in K.
    + simplify_eq. exists s. split; [done|]. split; [done|]. intros j e' Hj Hj'. apply (Hfull e' _ Hj'). intros e0. by apply (Hb j).
    + destruct (Hr n' e' k' H K) as (s' & Hs' & Hsl & Hb'). exists s'. split; [done|]. split; [done|].
      intros j e0 Hj Hj'. apply (Hfull e0 _ Hj'). intros e1. by apply (Hb' j).
Qed.

(** The places, free or not, and their keys are all that matters. *)
Lemma table_ext k es es' : map key es = map key es' -> table k es -> table k es'.
Proof.
  intros Heq [Hlen Hu Hk Hr].
  assert (Hsame : forall n e', es' !! n = Some e' -> exists e, es !! n = Some e /\ key e = key e').
  { intros n e' Hn. assert (H : map key es' !! n = Some (key e')) by (by rewrite list_lookup_fmap, Hn).
    rewrite <- Heq, list_lookup_fmap in H. destruct (es !! n) as [e|]; [|done]. exists e. split; [done|by injection H]. }
  assert (Hsame' : forall n e, es !! n = Some e -> exists e', es' !! n = Some e' /\ key e' = key e).
  { intros n e Hn. assert (H : map key es !! n = Some (key e)) by (by rewrite list_lookup_fmap, Hn).
    rewrite Heq, list_lookup_fmap in H. destruct (es' !! n) as [e'|]; [|done]. exists e'. split; [done|by injection H]. }
  split.
  - rewrite <- Hlen. apply (f_equal length) in Heq. rewrite !length_map in Heq. lia.
  - intros n n' e e' k' (e1 & H1 & K1)%Hsame (e2 & H2 & K2)%Hsame. rewrite <- K1, <- K2. by apply (Hu n n' e1 e2 k').
  - intros n e k' (e1 & H1 & K1)%Hsame. rewrite <- K1. by apply (Hk n e1).
  - intros n e k' (e1 & H1 & K1)%Hsame. rewrite <- K1. intros K. destruct (Hr n e1 k' H1 K) as (s & Hs & Hsl & Hb).
    exists s. split; [done|]. split; [done|]. intros j e' Hj (e2 & H2 & K2)%Hsame. rewrite <- K2. by apply (Hb j).
Qed.

Lemma keyhash_u64 kk : u64 (keyhash kk) = keyhash kk.
Proof.
  unfold keyhash. assert (H : forall l h, u64 h = h -> u64 (keyhash_loop h l) = keyhash_loop h l); [|by apply H].
  induction l as [|c l IH]; intros h Hh; [done|]. apply IH. unfold u64. by rewrite Z.mod_mod.
Qed.

Lemma probe_key k kk es stop s e : 0 <= k <= 63 -> Z.of_nat (length es) = 2 ^ k -> first_stop k (keyhash kk) es stop s e ->
  probe (length es) stop es (2 ^ k - 1) (keyhash kk) 1 = Some (slot k (keyhash kk) s).
Proof. intros Hk Hl Hf. rewrite <- (keyhash_u64 kk) at 1. by apply (probe_stops k _ Hk es Hl _ s e). Qed.

(** ** Looking up a key *)
Section lookup.
Context (k : Z) (es : list ENTRY) (kk : list Z) (Hk : 0 <= k <= 63) (Ht : table k es) (Hc : cstr kk).
Context (Hfree : (length (pairs es) < length es)%nat).

Lemma is_free_or_eq n e : es !! n = Some e -> is_free_or kk e = bool_decide (key e = None \/ key e = Some kk).
Proof.
  intros Hn. unfold is_free_or. pose proof (tb_keys _ _ Ht n e) as Hkeys. destruct (key e) as [k'|] eqn:He.
  - apply eq_true_iff_eq. rewrite Z.eqb_eq, bool_decide_eq_true, strcmp_eq by (try done; by apply Hkeys).
    split; [intros ->; by right|intros [|[= ->]]; done].
  - symmetry. apply bool_decide_eq_true. by left.
Qed.

(** The place that [lookup] finds holds the key, or is free, and then the key is
    not in the table and belongs there. *)
Lemma lookup_spec u : exists s e, first_stop k (keyhash kk) es (is_free_or kk) s e /\
  lookup kk (keyhash kk) (Tab (Some es) (2 ^ k - 1) u) = Some (slot k (keyhash kk) s) /\
  (key e = Some kk \/ key e = None /\ absent kk es /\ forall j e', 0 <= j < s -> es !! slot k (keyhash kk) j = Some e' -> key e' <> None).
Proof.
  destruct (free_place es Hfree) as (n & e0 & Hn & He0).
  destruct (probe_ends k (keyhash kk) Hk es (tb_length _ _ Ht) (is_free_or kk) n e0 Hn) as (s & e & Hfs).
  { rewrite (is_free_or_eq n) by done. apply bool_decide_eq_true. by left. }
  exists s, e. split; [done|]. split.
  { unfold lookup. cbn [entries mask mbind option_bind]. apply (probe_key k kk es _ s e); [done|apply (tb_length _ _ Ht)|done]. }
  destruct Hfs as (Hs & Hse & Hstop & Hbefore). rewrite (is_free_or_eq _ _ Hse) in Hstop. apply bool_decide_eq_true in Hstop as [He|He]; [right|by left].
  assert (Hb : forall j e', 0 <= j < s -> es !! slot k (keyhash kk) j = Some e' -> key e' <> None /\ key e' <> Some kk).
  { intros j e' Hj Hje. specialize (Hbefore j e' Hj Hje). rewrite (is_free_or_eq _ _ Hje) in Hbefore. apply bool_decide_eq_false in Hbefore. tauto. }
  split; [done|]. split; [|intros j e' Hj Hje; by apply (Hb j e')]. intros n' e' Hn' Hkey.
  destruct (tb_reach _ _ Ht n' e' kk Hn' Hkey) as (s' & Hs' & Hsl & Hr'). destruct (Z.lt_trichotomy s s') as [H|[->|H]].
  - destruct (Hr' s e); [lia|done|done].
  - rewrite Hsl, Hn' in Hse. congruence.
  - destruct (Hb s' e') as [_ Hne]; [lia|by rewrite Hsl|done].
Qed.
End lookup.

(** ** Resizing *)
Lemma rehash_spec k old es : 0 <= k <= 63 -> table k es -> Forall (fun e => forall kk, key e = Some kk -> cstr kk /\ absent kk es) old ->
  unique old -> (length (pairs old) + length (pairs es) <= length es)%nat ->
  exists es', rehash old es (2 ^ k - 1) = Some es' /\ table k es' /\ pairs es' ≡ₚ pairs old ++ pairs es.
Proof.
  intros Hk. revert es. induction old as [|e old IH]; intros es Ht Hold Hu Hlen; [by exists es|].
  apply Forall_cons_1 in Hold as [He Hold]. cbn [rehash].
  assert (Hu' : unique old).
  { intros n n' e1 e2 k' H1 H2 K1 K2. specialize (Hu (S n) (S n') e1 e2 k' H1 H2 K1 K2). lia. }
  destruct e as [[kk|] d]; cbn [key] in *; [|by apply IH]. destruct (He kk eq_refl) as [Hc Ha]. cbn [length pairs omap list_omap pair_of key data mbind option_bind] in Hlen.
  fold (pairs old) in Hlen. destruct (free_place es ltac:(cbn in Hlen; lia)) as (n & e0 & Hn & He0).
  destruct (probe_ends k (keyhash kk) Hk es (tb_length _ _ Ht) is_free n e0 Hn) as (s & e & Hfs); [unfold is_free; by rewrite He0|].
  rewrite (probe_key k kk es _ s e Hk (tb_length _ _ Ht) Hfs). cbn [mbind option_bind].
  destruct Hfs as (Hs & Hse & Hstop & Hbefore).
  assert (Hek : key e = None) by (unfold is_free in Hstop; by destruct (key e)).
  assert (Hbk : forall j e', 0 <= j < s -> es !! slot k (keyhash kk) j = Some e' -> key e' <> None).
  { intros j e' Hj Hje. specialize (Hbefore j e' Hj Hje). unfold is_free in Hbefore. by destruct (key e'). }
  pose proof (pairs_fill es _ e kk d Hse Hek) as Hpairs. set (es1 := <[slot k (keyhash kk) s := Entry (Some kk) d]> es) in *.
  destruct (IH es1) as (es' & Hre & Ht' & Hp'); [by apply (table_fill k es kk d s e)| |done| |].
  - apply Forall_lookup. intros i e1 Hi kk1 K1. destruct (Forall_lookup_1 _ _ _ _ Hold Hi kk1 K1) as [Hc1 Ha1]. split; [done|].
    rewrite absent_pairs, Hpairs. cbn. apply not_elem_of_cons. split; [|by apply absent_pairs].
    intros ->. by specialize (Hu O (S i) _ e1 kk eq_refl Hi eq_refl K1).
  - rewrite Hpairs. unfold es1. rewrite length_insert. cbn [length] in *. lia.
  - exists es'. split; [done|]. split; [done|]. rewrite Hp', Hpairs. symmetry. apply Permutation_middle.
Qed.

Lemma table_empty k : 0 <= k -> table k (replicate (Z.to_nat (2 ^ k)) free_entry).
Proof.
  intros Hk. assert (Hno : forall n e kk, replicate (Z.to_nat (2 ^ k)) free_entry !! n = Some e -> key e <> Some kk).
  { intros n e kk [-> _]%lookup_replicate_1. done. }
  split.
  - rewrite length_replicate. lia.
  - intros n n' e e' kk Hn _ K. by destruct (Hno n e kk Hn).
  - intros n e kk Hn K. by destruct (Hno n e kk Hn).
  - intros n e kk Hn K. by destruct (Hno n e kk Hn).
Qed.

Lemma pairs_empty n : pairs (replicate n free_entry) = [].
Proof. induction n as [|n IH]; [done|]. cbn. apply IH. Qed.

(** The new size is a power of two, at least 8 and [nel], and below twice [nel] unless it is 8. *)
Lemma newsize_spec nel : nel <= MAXSIZE -> exists k, 3 <= k <= 63 /\ newsize_loop 64 MINSIZE nel = Some (2 ^ k) /\ nel <= 2 ^ k /\ (2 ^ k = 8 \/ 2 ^ k < 2 * nel).
Proof.
  intros Hnel. change MAXSIZE with (2 ^ 63) in Hnel.
  assert (H : forall fuel k, 3 <= k <= 63 -> 63 - k < Z.of_nat fuel -> (2 ^ k = 8 \/ 2 ^ k < 2 * nel) ->
    exists k', 3 <= k' <= 63 /\ newsize_loop fuel (2 ^ k) nel = Some (2 ^ k') /\ nel <= 2 ^ k' /\ (2 ^ k' = 8 \/ 2 ^ k' < 2 * nel)).
  { induction fuel as [|fuel IH]; intros k Hk Hf Hlt; [lia|]. cbn [newsize_loop]. destruct (Z.ltb_spec (2 ^ k) nel).
    - assert (k < 63) by (destruct (decide (k = 63)) as [->|]; lia).
      replace (u64 (2 ^ k * 2)) with (2 ^ (k + 1)); [apply IH; [lia|lia|right; rewrite Z.pow_add_r by lia; lia]|].
      rewrite Z.pow_add_r by lia. change (2 ^ 1) with 2. rewrite u64_id; [done|].
      assert (2 ^ k <= 2 ^ 62) by (apply Z.pow_le_mono_r; lia). lia.
    - exists k. split; [done|]. done. }
  apply (H 64%nat 3); [lia|lia|by left].
Qed.

Section correct.
Context (calloc : Z -> Z -> bool).

(** [calloc] refuses a product that overflows. *)
Context (calloc_overflow : forall n s, calloc n s = true -> n * s < 2 ^ 64).

(** The invariant of a table of [2^k] places. *)
Record tab_ok (k : Z) (es : list ENTRY) (t : __tab) : Prop := {
  ok_entries : entries t = Some es;
  ok_mask : mask t = 2 ^ k - 1;
  ok_k : 3 <= k <= 59;
  ok_table : table k es;
  ok_used : used t = Z.of_nat (length (pairs es));
  ok_load : used t <= mask t - mask t / 4 }.

Lemma load_3_4 k : 3 <= k -> 2 ^ k - 1 - (2 ^ k - 1) / 4 = 3 * 2 ^ (k - 2).
Proof.
  intros Hk. assert (H : 2 ^ k = 2 ^ (k - 2) * 4) by (change 4 with (2 ^ 2); rewrite <- Z.pow_add_r by lia; f_equal; lia).
  rewrite H. assert ((2 ^ (k - 2) * 4 - 1) / 4 = 2 ^ (k - 2) - 1) as -> by (symmetry; apply Z.div_unique with 3; lia). lia.
Qed.

Lemma pow_quarter k : 3 <= k -> 2 ^ k = 4 * 2 ^ (k - 2) /\ 2 <= 2 ^ (k - 2).
Proof.
  intros Hk. split; [change 4 with (2 ^ 2); rewrite <- Z.pow_add_r by lia; f_equal; lia|].
  change 2 with (2 ^ 1) at 1. apply Z.pow_le_mono_r; lia.
Qed.

Lemma calloc_k k : 3 <= k <= 63 -> calloc (2 ^ k) 16 = true -> k <= 59.
Proof.
  intros Hk H%calloc_overflow. destruct (Z.le_gt_cases k 59) as [|Hgt]; [done|].
  assert (2 ^ 60 <= 2 ^ k) by (apply Z.pow_le_mono_r; lia). lia.
Qed.

(** [resize] rebuilds the table with room to spare, or changes nothing. *)
Lemma resize_spec k es m u : 3 <= k <= 59 -> table k es -> m = 2 ^ k - 1 -> m - m / 4 < u -> u = Z.of_nat (length (pairs es)) -> (length (pairs es) < length es)%nat ->
  let t := Tab (Some es) m u in
  exists r t', resize calloc (2 * u) t = Some (r, t') /\
    if r then exists k' es', tab_ok k' es' t' /\ pairs es' ≡ₚ pairs es else t' = t /\ refuses calloc u.
Proof.
  intros Hk Ht Hm Hfull Hu Hl t. pose proof (tb_length _ _ Ht) as Hlen. rewrite Hm, load_3_4 in Hfull by lia. assert (2 ^ k <= 2 ^ 59) by (apply Z.pow_le_mono_r; lia).
  unfold resize. rewrite Z.gtb_ltb. change MAXSIZE with (2 ^ 63) at 1. rewrite (proj2 (Z.ltb_ge _ _)) by lia.
  destruct (newsize_spec (2 * u)) as (k' & Hk' & -> & Hge & Hup); [change MAXSIZE with (2 ^ 63); lia|]. cbn [mbind option_bind].
  destruct (calloc (2 ^ k') 16) eqn:Hcal; [|exists false, t; split; [done|]; split; [done|]; exists (2 ^ k'); split; [|done]; pose proof (pow_quarter k ltac:(lia)); lia]. pose proof (calloc_k k' Hk' Hcal) as Hk59.
  cbn [entries t used]. destruct (rehash_spec k' es (replicate (Z.to_nat (2 ^ k')) free_entry)) as (es' & -> & Ht' & Hp); [lia|apply table_empty; lia| |apply (tb_unique _ _ Ht)| |].
  - apply Forall_lookup. intros i e Hi kk K. split; [by apply (tb_keys _ _ Ht i e)|]. intros n e' [-> _]%lookup_replicate_1. done.
  - rewrite pairs_empty, length_replicate. cbn. lia.
  - rewrite pairs_empty, app_nil_r in Hp. cbn [mbind option_bind]. exists true, (Tab (Some es') (2 ^ k' - 1) u). split; [done|].
    exists k', es'. split; [|done]. pose proof (pow_quarter k' ltac:(lia)). split; cbn [entries mask used]; [done|done|lia|done|by rewrite Hp|].
    rewrite load_3_4 by lia. lia.
Qed.
End correct.

(** ** The operations on the contents *)
Definition contents (es : list ENTRY) : gmap (list Z) Z := list_to_map (pairs es).

Lemma contents_Some es k d : unique es -> contents es !! k = Some d <-> exists n, es !! n = Some (Entry (Some k) d).
Proof. intros Hu. unfold contents. rewrite <- elem_of_list_to_map by (by apply unique_NoDup). apply elem_of_pairs. Qed.

Lemma contents_None es k : contents es !! k = None <-> absent k es.
Proof. unfold contents. by rewrite absent_pairs, not_elem_of_list_to_map. Qed.

Lemma contents_proper es es' : unique es' -> pairs es ≡ₚ pairs es' -> contents es = contents es'.
Proof.
  intros Hu Hp. apply list_to_map_proper; [|done]. rewrite Hp. by apply unique_NoDup.
Qed.

Section refinement.
Context (calloc : Z -> Z -> bool) (calloc_overflow : forall n s, calloc n s = true -> n * s < 2 ^ 64).

(** The place returned holds the key and the data. *)
Definition holds (es : list ENTRY) (ret : option nat) (k : list Z) (d : Z) : Prop :=
  exists n, ret = Some n /\ es !! n = Some (Entry (Some k) d).

Lemma tab_ok_free k es t : tab_ok k es t -> (length (pairs es) < length es)%nat /\ used t + 1 <= 2 ^ k.
Proof.
  intros [_ Hm Hk Ht Hu Hl]. rewrite Hm, load_3_4 in Hl by lia. pose proof (tb_length _ _ Ht). pose proof (pow_quarter k ltac:(lia)). lia.
Qed.

(** Looking up a key in a valid table. *)
Lemma lookup_ok k es t kk : tab_ok k es t -> cstr kk -> exists n e, lookup kk (keyhash kk) t = Some n /\ es !! n = Some e /\
  (key e = Some kk \/ key e = None /\ absent kk es /\ forall d, table k (<[n := Entry (Some kk) d]> es)).
Proof.
  intros Hok Hc. pose proof (tab_ok_free _ _ _ Hok) as [Hfree _]. destruct Hok as [He Hm Hk Ht Hu Hl].
  destruct t as [es' m u]. cbn in *. subst es' m. destruct (lookup_spec k es kk ltac:(lia) Ht Hc Hfree u) as (s & e & (Hs & Hse & _) & Hlk & Hcase).
  exists (slot k (keyhash kk) s), e. split; [done|]. split; [done|]. destruct Hcase as [|(Hn & Ha & Hb)]; [by left|right].
  split; [done|]. split; [done|]. intros d. by apply (table_fill k es kk d s e).
Qed.

Lemma lookup_present k es t kk d : tab_ok k es t -> cstr kk -> contents es !! kk = Some d ->
  exists n, lookup kk (keyhash kk) t = Some n /\ es !! n = Some (Entry (Some kk) d).
Proof.
  intros Hok Hc Hd. pose proof (tb_unique _ _ (ok_table _ _ _ Hok)) as Hu. apply contents_Some in Hd as [n' Hn']; [|done].
  destruct (lookup_ok k es t kk Hok Hc) as (n & e & Hlk & Hn & [He|(_ & Ha & _)]); [|by destruct (Ha _ _ Hn')].
  exists n. split; [done|]. by rewrite (Hu n n' _ _ kk Hn Hn' He eq_refl).
Qed.

(** Every outcome of [hsearch_r]. *)
Lemma hsearch_r_spec k es t kk d action : tab_ok k es t -> cstr kk ->
  exists r ret t' k' es', hsearch_r calloc (kk, d) action (Some t) = Some (r, ret, Some t') /\ tab_ok k' es' t' /\
  match contents es !! kk, action with
  | Some d', _ => r = 1 /\ t' = t /\ es' = es /\ holds es ret kk d'
  | None, FIND => r = 0 /\ ret = None /\ t' = t /\ es' = es
  | None, ENTER => (r = 1 /\ contents es' = <[kk := d]> (contents es) /\ holds es' ret kk d) \/
                   (r = 0 /\ ret = None /\ contents es' = contents es /\ refuses calloc (Z.of_nat (size (contents es)) + 1))
  end.
Proof.
  intros Hok Hc. unfold hsearch_r. cbn [mbind option_bind]. destruct (contents es !! kk) as [d'|] eqn:Hkk.
  { destruct (lookup_present k es t kk d' Hok Hc Hkk) as (n & -> & Hn). cbn [mbind option_bind].
    rewrite (ok_entries _ _ _ Hok). cbn [mbind option_bind]. rewrite Hn. cbn [mbind option_bind key].
    exists 1, (Some n), t, k, es. split_and!; try done. by exists n. }
  apply contents_None in Hkk as Ha. destruct (lookup_ok k es t kk Hok Hc) as (n & e & -> & Hn & [He|(He & _ & Hfill)]); [by destruct (Ha _ _ Hn)|].
  cbn [mbind option_bind]. rewrite (ok_entries _ _ _ Hok). cbn [mbind option_bind]. rewrite Hn. cbn [mbind option_bind]. rewrite He.
  destruct action; [by exists 0, None, t, k, es|].
  pose proof (tab_ok_free _ _ _ Hok) as [Hfree Hroom]. pose proof (pairs_fill es n e kk d Hn He) as Hp. specialize (Hfill d).
  destruct Hok as [Hes Hm Hk Ht Hu Hl]. set (es1 := <[n := Entry (Some kk) d]> es) in *.
  assert (2 ^ k <= 2 ^ 59) by (apply Z.pow_le_mono_r; lia). rewrite u64_id by lia.
  assert (Hu1 : used t + 1 = Z.of_nat (length (pairs es1))) by (rewrite Hp; cbn [length]; lia).
  assert (Hc1 : contents es1 = <[kk := d]> (contents es)).
  { unfold contents. rewrite (list_to_map_proper _ _ (unique_NoDup _ (tb_unique _ _ Hfill)) Hp). done. }
  assert (Hsize : Z.of_nat (length (pairs es)) = Z.of_nat (size (contents es))) by (unfold contents; by rewrite map_size_list_to_map by (apply unique_NoDup, (tb_unique _ _ Ht))).
  assert (Hhold : es1 !! n = Some (Entry (Some kk) d)) by (apply list_lookup_insert_eq; by apply lookup_lt_Some in Hn).
  cbn [used mask]. rewrite Z.gtb_ltb. destruct (Z.ltb_spec (mask t - mask t / 4) (used t + 1)) as [Hgt|Hle].
  - rewrite (u64_id (2 * (used t + 1))) by lia.
    assert (Hlt : (length (pairs es1) < length es1)%nat).
    { rewrite Hm, load_3_4 in Hl by lia. pose proof (pow_quarter k ltac:(lia)). pose proof (tb_length _ _ Hfill). lia. }
    destruct (resize_spec calloc calloc_overflow k es1 (mask t) (used t + 1) Hk Hfill Hm Hgt Hu1 Hlt) as (r & t' & -> & Hr).
    cbn [mbind option_bind]. destruct r.
    + destruct Hr as (k' & es' & Hok' & Hp').
      assert (Hc' : contents es' = <[kk := d]> (contents es)) by (rewrite <- Hc1; apply contents_proper; [apply (tb_unique _ _ Hfill)|done]).
      destruct (lookup_present k' es' t' kk d Hok' Hc) as (n' & -> & Hn'); [by rewrite Hc', lookup_insert_eq|].
      cbn [mbind option_bind]. exists 1, (Some n'), t', k', es'. split; [done|]. split; [done|]. left. split_and!; [done..|]. by exists n'.
    + destruct Hr as [-> Href]. cbn [entries mbind option_bind]. rewrite Hhold. cbn [mbind option_bind data mask used]. rewrite Z.add_simpl_r, u64_id by lia.
      assert (Hback : <[n := Entry None d]> es1 = <[n := Entry None d]> es) by apply list_insert_insert_eq. rewrite Hback.
      pose proof (pairs_free es n e d Hn He) as Hpf.
      exists 0, None, (Tab (Some (<[n := Entry None d]> es)) (mask t) (used t)), k, (<[n := Entry None d]> es).
      split; [done|]. split; [|right; rewrite <- Hsize, <- Hu; unfold contents; by rewrite Hpf]. split; cbn [entries mask used]; try done; [|by rewrite Hpf].
      apply (table_ext k es); [|done]. change (map key es) with (key <$> es). change (map key ?l) with (key <$> l).
      rewrite list_fmap_insert. symmetry. apply list_insert_id. by rewrite list_lookup_fmap, Hn, <- He.
  - exists 1, (Some n), (Tab (Some es1) (mask t) (used t + 1)), k, es1. split; [done|]. split; [by split|]. left. split_and!; [done..|]. by exists n.
Qed.

(** [hcreate_r] makes an empty table with room for [nel] keys, or none. *)
Lemma hcreate_r_spec nel : 0 <= nel ->
  hcreate_r calloc nel = Some (0, None) \/
  exists k es t, hcreate_r calloc nel = Some (1, Some t) /\ tab_ok k es t /\ contents es = ∅ /\ nel <= 2 ^ k.
Proof.
  intros Hnel. unfold hcreate_r. destruct (calloc 1 24); [|by left]. unfold resize. cbn [entries].
  set (nel' := if nel >? MAXSIZE then MAXSIZE else nel).
  assert (Hn : nel' <= MAXSIZE /\ (nel <= MAXSIZE -> nel' = nel) /\ (MAXSIZE < nel -> nel' = MAXSIZE)).
  { unfold nel'. rewrite Z.gtb_ltb. destruct (Z.ltb_spec MAXSIZE nel); lia. }
  change MAXSIZE with (2 ^ 63) in Hn. destruct (newsize_spec nel') as (k & Hk & -> & Hge & _); [change MAXSIZE with (2 ^ 63); lia|]. cbn [mbind option_bind].
  destruct (calloc (2 ^ k) 16) eqn:Hcal; [|by left]. right. pose proof (calloc_k calloc calloc_overflow k Hk Hcal) as Hk59.
  assert (2 ^ k <= 2 ^ 59) by (apply Z.pow_le_mono_r; lia). cbn [mbind option_bind used].
  exists k, (replicate (Z.to_nat (2 ^ k)) free_entry), (Tab (Some (replicate (Z.to_nat (2 ^ k)) free_entry)) (2 ^ k - 1) 0).
  split; [done|]. pose proof (pow_quarter k ltac:(lia)). split; [|split; [unfold contents; by rewrite pairs_empty|lia]].
  split; cbn [entries mask used]; try done; [lia|apply table_empty; lia|by rewrite pairs_empty|rewrite load_3_4; lia].
Qed.

(** ** Histories *)
Record op := Op { op_action : ACTION; op_key : list Z; op_data : Z }.

(** The results of a history: what [hsearch_r] returns, and the data at the
    entry it gives. *)
Fixpoint run (ops : list op) (htab : option __tab) : option (list (Z * option Z)) :=
  match ops with
  | [] => Some []
  | Op action k d :: ops =>
      '(r, ret, htab) ← hsearch_r calloc (k, d) action htab;
      v ← match ret with
          | None => Some None
          | Some n => t ← htab; es ← entries t; e ← es !! n; Some (Some (data e))
          end;
      rs ← run ops htab;
      Some ((r, v) :: rs)
  end.
End refinement.

(** The same history of a finite map.  An insertion may fail if [calloc] refuses the array for
    the map with one more key. *)
Inductive history (calloc : Z -> Z -> bool) : gmap (list Z) Z -> list op -> list (Z * option Z) -> Prop :=
  | history_nil m : history calloc m [] []
  | history_found m a k d d' ops rs : m !! k = Some d' -> history calloc m ops rs -> history calloc m (Op a k d :: ops) ((1, Some d') :: rs)
  | history_missing m k d ops rs : m !! k = None -> history calloc m ops rs -> history calloc m (Op FIND k d :: ops) ((0, None) :: rs)
  | history_enter m k d ops rs : m !! k = None -> history calloc (<[k := d]> m) ops rs -> history calloc m (Op ENTER k d :: ops) ((1, Some d) :: rs)
  | history_full m k d ops rs : m !! k = None -> refuses calloc (Z.of_nat (size m) + 1) -> history calloc m ops rs ->
      history calloc m (Op ENTER k d :: ops) ((0, None) :: rs).

Lemma run_history calloc ops : (forall n s, calloc n s = true -> n * s < 2 ^ 64) -> Forall (fun o => cstr (op_key o)) ops ->
  forall k es t, tab_ok k es t -> exists rs, run calloc ops (Some t) = Some rs /\ history calloc (contents es) ops rs.
Proof.
  intros Hcal. induction 1 as [|[a kk d] ops Hc _ IH]; intros k es t Hok; [exists []; split; [done|constructor]|].
  cbn [op_key] in Hc. destruct (hsearch_r_spec calloc Hcal k es t kk d a Hok Hc) as (r & ret & t' & k' & es' & Hrun & Hok' & Hcase).
  destruct (IH k' es' t' Hok') as (rs & Hrs & Hh). cbn [run]. rewrite Hrun. cbn [mbind option_bind]. pose proof (ok_entries _ _ _ Hok') as He.
  destruct (contents es !! kk) as [d'|] eqn:Hkk; [|destruct a].
  - destruct Hcase as (-> & -> & -> & n & -> & Hn). cbn [mbind option_bind]. rewrite He. cbn [mbind option_bind]. rewrite Hn.
    cbn [mbind option_bind data]. rewrite Hrs. cbn [mbind option_bind].
    exists ((1, Some d') :: rs). split; [done|by constructor].
  - destruct Hcase as (-> & -> & -> & ->). cbn [mbind option_bind]. rewrite Hrs. cbn [mbind option_bind].
    exists ((0, None) :: rs). split; [done|by constructor].
  - destruct Hcase as [(-> & Hc' & n & -> & Hn)|(-> & -> & Hc' & Href)]; rewrite Hc' in Hh.
    + cbn [mbind option_bind]. rewrite (ok_entries _ _ _ Hok'). cbn [mbind option_bind]. rewrite Hn. cbn [mbind option_bind data]. rewrite Hrs. cbn [mbind option_bind].
      exists ((1, Some d) :: rs). split; [done|by constructor].
    + cbn [mbind option_bind]. rewrite Hrs. cbn [mbind option_bind]. exists ((0, None) :: rs). split; [done|by apply history_full].
Qed.

(** C27: whatever is asked of a table from [hcreate_r] on, [hsearch_r] answers as a
    finite map from strings to data does, in which an insertion is refused only
    when [calloc] refuses an array of two to four times as many entries as
    there are keys: also after a resize failed for lack of memory, and without
    reading outside the array or probing for ever. *)
Theorem hsearch_refines_map calloc nel t ops :
  (forall n s, calloc n s = true -> n * s < 2 ^ 64) -> 0 <= nel -> Forall (fun o => cstr (op_key o)) ops ->
  hcreate_r calloc nel = Some (1, Some t) ->
  exists rs, run calloc ops (Some t) = Some rs /\ history calloc ∅ ops rs.
Proof.
  intros Hcal Hnel Hops Hcr. destruct (hcreate_r_spec calloc Hcal nel Hnel) as [He|(k & es & t' & He & Hok & Hc & _)]; [congruence|].
  assert (t' = t) as -> by congruence. rewrite <- Hc. by apply (run_history calloc ops Hcal Hops k).
Qed.

(** A [calloc] that gives at most 16 entries of 16 bytes; twelve keys and some queries. *)
Definition small_calloc (n s : Z) : bool := n * s <=? 256.

Definition witness_ops : list op :=
  map (fun i => Op ENTER [97; 97 + i] i) [0; 1; 2; 3; 4; 5; 6; 7; 8; 9; 10; 11; 12] ++
  map (fun i => Op FIND [97; 97 + i] 0) [0; 6; 12; 13] ++ [Op ENTER [97; 98] 77].

Lemma hsearch_refines_map_witness : exists rs t, hcreate_r small_calloc 3 = Some (1, Some t) /\
  run small_calloc witness_ops (Some t) = Some rs /\ history small_calloc ∅ witness_ops rs /\ rs !! 12%nat = Some (0, None) /\ rs !! 14%nat = Some (1, Some 6).
Proof.
  destruct (hcreate_r small_calloc 3) as [[r o]|] eqn:He; [|by vm_compute in He]. vm_compute in He.
  injection He as <- <-. set (t := Tab _ _ _).
  destruct (hsearch_refines_map small_calloc 3 t witness_ops) as (rs & Hrs & Hh).
  - intros n s H. apply Z.leb_le in H. lia.
  - lia.
  - apply (bool_decide_unpack _). by vm_compute.
  - by vm_compute.
  - exists rs, t. split; [by vm_compute|]. split; [done|]. split; [done|]. vm_compute in Hrs. injection Hrs as <-. by vm_compute.
Defined.
