(* ===== verification/WctypeTables.v ===== *)
(** Tables of src/musl-1.1.19/src/ctype: alpha.h, punct.h, nonspacing.h and wide.h,
    bit maps of two levels, and the case maps of towctrans.c. *)
From S2P Require Import Prelude.

(** The first 512 bytes of a table name a row of 32 bytes for each block of 256
    characters; a row has a bit for each character. *)
Definition alpha_table : list Z :=
  [18; 17; 19; 20; 21; 22; 23; 24; 25; 26; 27; 28; 29; 30; 31; 32; 33; 17; 34; 35; 36; 17; 37; 38; 39; 40; 41; 42; 43; 44; 17; 45; 46; 47; 16;
   16; 48; 16; 16; 16; 16; 16; 16; 16; 49; 50; 51; 16; 52; 53; 16; 16; 17; 17; 17; 17; 17; 17; 17; 17; 17; 17; 17; 17; 17; 17; 17; 17; 17; 17;
   17; 17; 17; 17; 17; 17; 17; 54; 17; 17; 17; 17; 17; 17; 17; 17; 17; 17; 17; 17; 17; 17; 17; 17; 17; 17; 17; 17; 17; 17; 17; 17; 17; 17; 17;
   17; 17; 17; 17; 17; 17; 17; 17; 17; 17; 17; 17; 17; 17; 17; 17; 17; 17; 17; 17; 17; 17; 17; 17; 17; 17; 17; 17; 17; 17; 17; 17; 17; 17; 17;
   17; 17; 17; 17; 17; 17; 17; 17; 17; 17; 17; 17; 17; 17; 17; 17; 17; 17; 17; 55; 17; 17; 17; 17; 56; 17; 57; 58; 59; 60; 61; 62; 17; 17; 17;
   17; 17; 17; 17; 17; 17; 17; 17; 17; 17; 17; 17; 17; 17; 17; 17; 17; 17; 17; 17; 17; 17; 17; 17; 17; 17; 17; 17; 17; 17; 17; 17; 17; 17; 17;
   17; 17; 17; 17; 17; 63; 16; 16; 16; 16; 16; 16; 16; 16; 16; 16; 16; 16; 16; 16; 16; 16; 16; 16; 16; 16; 16; 16; 16; 16; 16; 16; 16; 16; 16;
   16; 16; 16; 16; 17; 64; 65; 17; 66; 67; 68; 69; 70; 71; 72; 73; 74; 17; 75; 76; 77; 78; 79; 80; 16; 16; 16; 81; 82; 83; 84; 85; 86; 87; 88;
   89; 16; 90; 16; 91; 92; 16; 16; 17; 17; 17; 93; 94; 95; 16; 16; 16; 16; 16; 16; 16; 16; 16; 16; 17; 17; 17; 17; 96; 16; 16; 16; 16; 16; 16;
   16; 16; 16; 16; 16; 16; 16; 16; 16; 17; 17; 97; 16; 16; 16; 16; 16; 16; 16; 16; 16; 16; 16; 16; 16; 16; 16; 16; 16; 16; 16; 16; 16; 16; 16;
   16; 16; 16; 16; 16; 16; 16; 16; 16; 16; 17; 17; 98; 99; 16; 16; 16; 100; 17; 17; 17; 17; 17; 17; 17; 17; 17; 17; 17; 17; 17; 17; 17; 17; 17;
   17; 17; 17; 17; 17; 17; 101; 17; 17; 102; 16; 16; 16; 16; 16; 16; 16; 16; 16; 16; 16; 16; 16; 16; 16; 16; 16; 16; 16; 16; 16; 16; 16; 16;
   16; 16; 16; 16; 16; 16; 16; 16; 16; 16; 16; 16; 16; 17; 103; 104; 16; 16; 16; 16; 16; 16; 16; 16; 16; 105; 16; 16; 16; 16; 16; 16; 16; 16;
   16; 16; 16; 16; 16; 16; 16; 16; 16; 16; 16; 16; 16; 16; 16; 106; 107; 108; 109; 16; 16; 16; 16; 16; 16; 16; 16; 110; 16; 16; 16; 16; 16; 16;
   16; 111; 112; 16; 16; 16; 16; 113; 16; 16; 114; 16; 16; 16; 16; 16; 16; 16; 16; 16; 16; 16; 16; 16; 16; 0; 0; 0; 0; 0; 0; 0; 0; 0; 0; 0; 0;
   0; 0; 0; 0; 0; 0; 0; 0; 0; 0; 0; 0; 0; 0; 0; 0; 0; 0; 0; 0; 255; 255; 255; 255; 255; 255; 255; 255; 255; 255; 255; 255; 255; 255; 255; 255;
   255; 255; 255; 255; 255; 255; 255; 255; 255; 255; 255; 255; 255; 255; 255; 255; 0; 0; 0; 0; 0; 0; 0; 0; 254; 255; 255; 7; 254; 255; 255; 7;
   0; 0; 0; 0; 0; 4; 32; 4; 255; 255; 127; 255; 255; 255; 127; 255; 255; 255; 255; 255; 255; 255; 255; 255; 255; 255; 255; 255; 255; 255; 255;
   255; 255; 255; 255; 255; 255; 255; 255; 255; 195; 255; 3; 0; 31; 80; 0; 0; 0; 0; 0; 0; 0; 0; 0; 0; 32; 0; 0; 0; 0; 0; 223; 188; 64; 215;
   255; 255; 251; 255; 255; 255; 255; 255; 255; 255; 255; 255; 191; 255; 255; 255; 255; 255; 255; 255; 255; 255; 255; 255; 255; 255; 255; 255;
   255; 255; 3; 252; 255; 255; 255; 255; 255; 255; 255; 255; 255; 255; 255; 255; 255; 255; 255; 255; 255; 255; 255; 255; 254; 255; 255; 255;
   127; 2; 254; 255; 255; 255; 255; 0; 0; 0; 0; 0; 255; 191; 182; 0; 255; 255; 255; 7; 7; 0; 0; 0; 255; 7; 255; 255; 255; 255; 255; 255; 255;
   254; 255; 195; 255; 255; 255; 255; 255; 255; 255; 255; 255; 255; 255; 255; 239; 31; 254; 225; 255; 159; 0; 0; 255; 255; 255; 255; 255; 255;
   0; 224; 255; 255; 255; 255; 255; 255; 255; 255; 255; 255; 255; 255; 3; 0; 255; 255; 255; 255; 255; 7; 48; 4; 255; 255; 255; 252; 255; 31; 0;
   0; 255; 255; 255; 1; 255; 7; 0; 0; 0; 0; 0; 0; 255; 255; 223; 63; 0; 0; 240; 255; 248; 3; 255; 255; 255; 255; 255; 255; 255; 255; 255; 239;
   255; 223; 225; 255; 207; 255; 254; 255; 239; 159; 249; 255; 255; 253; 197; 227; 159; 89; 128; 176; 207; 255; 3; 16; 238; 135; 249; 255; 255;
   253; 109; 195; 135; 25; 2; 94; 192; 255; 63; 0; 238; 191; 251; 255; 255; 253; 237; 227; 191; 27; 1; 0; 207; 255; 0; 30; 238; 159; 249; 255;
   255; 253; 237; 227; 159; 25; 192; 176; 207; 255; 2; 0; 236; 199; 61; 214; 24; 199; 255; 195; 199; 29; 129; 0; 192; 255; 0; 0; 239; 223; 253;
   255; 255; 253; 255; 227; 223; 29; 96; 7; 207; 255; 0; 0; 239; 223; 253; 255; 255; 253; 239; 227; 223; 29; 96; 64; 207; 255; 6; 0; 239; 223;
   253; 255; 255; 255; 255; 231; 223; 93; 240; 128; 207; 255; 0; 252; 236; 255; 127; 252; 255; 255; 251; 47; 127; 128; 95; 255; 192; 255; 12;
   0; 254; 255; 255; 255; 255; 127; 255; 7; 63; 32; 255; 3; 0; 0; 0; 0; 150; 37; 240; 254; 174; 236; 255; 59; 95; 32; 255; 243; 0; 0; 0; 0; 1;
   0; 0; 0; 255; 3; 0; 0; 255; 254; 255; 255; 255; 31; 254; 255; 3; 255; 255; 254; 255; 255; 255; 31; 0; 0; 0; 0; 0; 0; 0; 0; 255; 255; 255;
   255; 255; 255; 127; 249; 255; 3; 255; 255; 231; 193; 255; 255; 127; 64; 255; 51; 255; 255; 255; 255; 191; 32; 255; 255; 255; 255; 255; 247;
   255; 255; 255; 255; 255; 255; 255; 255; 255; 61; 127; 61; 255; 255; 255; 255; 255; 61; 255; 255; 255; 255; 61; 127; 61; 255; 127; 255; 255;
   255; 255; 255; 255; 255; 61; 255; 255; 255; 255; 255; 255; 255; 255; 135; 0; 0; 0; 0; 255; 255; 0; 0; 255; 255; 255; 255; 255; 255; 255;
   255; 255; 255; 63; 63; 254; 255; 255; 255; 255; 255; 255; 255; 255; 255; 255; 255; 255; 255; 255; 255; 255; 255; 255; 255; 255; 255; 255;
   255; 255; 255; 255; 255; 255; 255; 255; 255; 255; 255; 255; 255; 255; 255; 255; 255; 255; 255; 255; 255; 255; 159; 255; 255; 254; 255; 255;
   7; 255; 255; 255; 255; 255; 255; 255; 255; 255; 199; 255; 1; 255; 223; 15; 0; 255; 255; 15; 0; 255; 255; 15; 0; 255; 223; 13; 0; 255; 255;
   255; 255; 255; 255; 207; 255; 255; 1; 128; 16; 255; 3; 0; 0; 0; 0; 255; 3; 255; 255; 255; 255; 255; 255; 255; 255; 255; 255; 255; 0; 255;
   255; 255; 255; 255; 7; 255; 255; 255; 255; 255; 255; 255; 255; 63; 0; 255; 255; 255; 127; 255; 15; 255; 1; 192; 255; 255; 255; 255; 63; 31;
   0; 255; 255; 255; 255; 255; 15; 255; 255; 255; 3; 255; 3; 0; 0; 0; 0; 255; 255; 255; 15; 255; 255; 255; 255; 255; 255; 255; 127; 254; 255;
   31; 0; 255; 3; 255; 3; 128; 0; 0; 0; 0; 0; 0; 0; 0; 0; 0; 0; 255; 255; 255; 255; 255; 255; 239; 255; 239; 15; 255; 3; 0; 0; 0; 0; 255; 255;
   255; 255; 255; 243; 255; 255; 255; 255; 255; 255; 191; 255; 3; 0; 255; 255; 255; 255; 255; 255; 63; 0; 255; 227; 255; 255; 255; 255; 255;
   63; 255; 1; 0; 0; 0; 0; 0; 0; 0; 0; 0; 0; 0; 222; 111; 0; 255; 255; 255; 255; 255; 255; 255; 255; 255; 255; 255; 255; 255; 255; 255; 255;
   255; 255; 255; 255; 255; 255; 255; 255; 0; 0; 0; 0; 128; 255; 31; 0; 255; 255; 63; 63; 255; 255; 255; 255; 63; 63; 255; 170; 255; 255; 255;
   63; 255; 255; 255; 255; 255; 255; 223; 95; 220; 31; 207; 15; 255; 31; 220; 31; 0; 0; 0; 0; 0; 0; 0; 0; 0; 0; 0; 0; 0; 0; 2; 128; 0; 0; 255;
   31; 0; 0; 0; 0; 0; 0; 0; 0; 0; 0; 0; 0; 132; 252; 47; 62; 80; 189; 255; 243; 224; 67; 0; 0; 255; 255; 255; 255; 255; 1; 0; 0; 0; 0; 0; 0; 0;
   0; 0; 0; 0; 0; 0; 0; 0; 0; 0; 0; 0; 0; 0; 0; 0; 0; 0; 0; 0; 0; 0; 0; 0; 0; 0; 0; 0; 0; 192; 255; 255; 255; 255; 255; 255; 3; 0; 0; 255; 255;
   255; 255; 255; 127; 255; 255; 255; 255; 255; 127; 255; 255; 255; 255; 255; 255; 255; 255; 255; 255; 255; 255; 255; 255; 255; 255; 31; 120;
   12; 0; 255; 255; 255; 255; 191; 32; 255; 255; 255; 255; 255; 255; 255; 128; 0; 0; 255; 255; 127; 0; 127; 127; 127; 127; 127; 127; 127; 127;
   255; 255; 255; 255; 0; 0; 0; 0; 0; 128; 0; 0; 0; 0; 0; 0; 0; 0; 0; 0; 0; 0; 0; 0; 0; 0; 0; 0; 0; 0; 0; 0; 0; 0; 0; 0; 224; 0; 0; 0; 254; 3;
   62; 31; 254; 255; 255; 255; 255; 255; 255; 255; 255; 255; 127; 224; 254; 255; 255; 255; 255; 255; 255; 255; 255; 255; 255; 247; 224; 255;
   255; 255; 255; 127; 254; 255; 255; 255; 255; 255; 255; 255; 255; 255; 255; 127; 0; 0; 255; 255; 255; 7; 0; 0; 0; 0; 0; 0; 255; 255; 255;
   255; 255; 255; 255; 255; 255; 255; 255; 255; 255; 255; 255; 255; 255; 255; 255; 255; 255; 255; 255; 255; 63; 0; 0; 0; 0; 0; 0; 0; 0; 0; 255;
   255; 255; 255; 255; 255; 255; 255; 255; 255; 255; 255; 255; 255; 255; 255; 255; 255; 255; 255; 255; 255; 255; 255; 255; 255; 255; 255; 255;
   7; 0; 0; 255; 255; 255; 255; 255; 255; 255; 255; 255; 255; 255; 255; 255; 255; 255; 255; 255; 31; 0; 0; 0; 0; 0; 0; 0; 0; 255; 255; 255;
   255; 255; 63; 255; 31; 255; 255; 255; 15; 0; 0; 255; 255; 255; 255; 255; 127; 240; 143; 255; 255; 255; 255; 255; 255; 255; 255; 255; 255;
   255; 255; 255; 255; 0; 0; 0; 0; 128; 255; 252; 255; 255; 255; 255; 255; 255; 255; 255; 255; 255; 255; 255; 249; 255; 255; 255; 127; 255; 0;
   0; 0; 0; 0; 0; 0; 128; 255; 187; 247; 255; 255; 255; 0; 0; 0; 255; 255; 255; 255; 255; 255; 15; 0; 255; 255; 255; 255; 255; 255; 255; 255;
   47; 0; 255; 3; 0; 0; 252; 40; 255; 255; 255; 255; 255; 7; 255; 255; 255; 255; 7; 0; 255; 255; 255; 31; 255; 255; 255; 255; 255; 255; 247;
   255; 0; 128; 255; 3; 223; 255; 255; 127; 255; 255; 255; 255; 255; 255; 127; 0; 255; 63; 255; 3; 255; 255; 127; 196; 255; 255; 255; 255; 255;
   255; 255; 127; 5; 0; 0; 56; 255; 255; 60; 0; 126; 126; 126; 0; 127; 127; 255; 255; 255; 255; 255; 247; 63; 0; 255; 255; 255; 255; 255; 255;
   255; 255; 255; 255; 255; 255; 255; 255; 255; 7; 255; 3; 255; 255; 255; 255; 255; 255; 255; 255; 255; 255; 255; 255; 255; 255; 255; 255; 255;
   255; 255; 255; 15; 0; 255; 255; 127; 248; 255; 255; 255; 255; 255; 15; 255; 255; 255; 255; 255; 255; 255; 255; 255; 255; 255; 255; 255; 63;
   255; 255; 255; 255; 255; 255; 255; 255; 255; 255; 255; 255; 255; 3; 0; 0; 0; 0; 127; 0; 248; 224; 255; 253; 127; 95; 219; 255; 255; 255;
   255; 255; 255; 255; 255; 255; 255; 255; 255; 255; 3; 0; 0; 0; 248; 255; 255; 255; 255; 255; 255; 255; 255; 255; 255; 255; 255; 63; 0; 0;
   255; 255; 255; 255; 255; 255; 255; 255; 252; 255; 255; 255; 255; 255; 255; 0; 0; 0; 0; 0; 255; 15; 0; 0; 0; 0; 0; 0; 0; 0; 0; 0; 0; 0; 0; 0;
   223; 255; 255; 255; 255; 255; 255; 255; 255; 255; 255; 255; 255; 255; 255; 255; 255; 31; 0; 0; 255; 3; 254; 255; 255; 7; 254; 255; 255; 7;
   192; 255; 255; 255; 255; 255; 255; 255; 255; 255; 255; 127; 252; 252; 252; 28; 0; 0; 0; 0; 255; 239; 255; 255; 127; 255; 255; 183; 255; 63;
   255; 63; 0; 0; 0; 0; 255; 255; 255; 255; 255; 255; 255; 255; 255; 255; 255; 255; 255; 255; 255; 7; 0; 0; 0; 0; 0; 0; 0; 0; 255; 255; 255;
   255; 255; 255; 31; 0; 0; 0; 0; 0; 0; 0; 0; 0; 0; 0; 0; 0; 0; 0; 0; 0; 0; 0; 0; 0; 0; 0; 0; 0; 0; 0; 0; 0; 0; 0; 0; 0; 255; 255; 255; 31;
   255; 255; 255; 255; 255; 255; 1; 0; 0; 0; 0; 0; 255; 255; 255; 255; 0; 224; 255; 255; 255; 7; 255; 255; 255; 255; 255; 7; 255; 255; 255; 63;
   255; 255; 255; 255; 15; 255; 62; 0; 0; 0; 0; 0; 255; 255; 255; 255; 255; 255; 255; 255; 255; 255; 255; 255; 255; 255; 255; 255; 255; 255;
   255; 63; 255; 3; 255; 255; 255; 255; 15; 255; 255; 255; 255; 15; 255; 255; 255; 255; 255; 0; 255; 255; 255; 255; 255; 255; 15; 0; 0; 0; 0;
   0; 0; 0; 0; 0; 0; 0; 0; 0; 0; 0; 0; 0; 0; 0; 255; 255; 255; 255; 255; 255; 127; 0; 255; 255; 63; 0; 255; 0; 0; 0; 0; 0; 0; 0; 0; 0; 0; 0; 0;
   0; 0; 0; 0; 0; 0; 0; 63; 253; 255; 255; 255; 255; 191; 145; 255; 255; 63; 0; 255; 255; 127; 0; 255; 255; 255; 127; 0; 0; 0; 0; 0; 0; 0; 0;
   255; 255; 55; 0; 255; 255; 63; 0; 255; 255; 255; 3; 0; 0; 0; 0; 0; 0; 0; 0; 255; 255; 255; 255; 255; 255; 255; 192; 0; 0; 0; 0; 0; 0; 0; 0;
   111; 240; 239; 254; 255; 255; 15; 0; 0; 0; 0; 0; 255; 255; 255; 31; 255; 255; 255; 31; 0; 0; 0; 0; 255; 254; 255; 255; 31; 0; 0; 0; 255;
   255; 255; 255; 255; 255; 63; 0; 255; 255; 63; 0; 255; 255; 7; 0; 255; 255; 3; 0; 0; 0; 0; 0; 0; 0; 0; 0; 0; 0; 0; 0; 255; 255; 255; 255;
   255; 255; 255; 255; 255; 1; 0; 0; 0; 0; 0; 0; 255; 255; 255; 255; 255; 255; 7; 0; 255; 255; 255; 255; 255; 255; 7; 0; 255; 255; 255; 255;
   255; 255; 255; 255; 63; 0; 0; 0; 192; 255; 0; 0; 252; 255; 255; 255; 255; 255; 255; 1; 0; 0; 255; 255; 255; 1; 255; 3; 255; 255; 255; 255;
   255; 255; 199; 255; 0; 0; 255; 255; 255; 255; 71; 0; 255; 255; 255; 255; 255; 255; 255; 255; 30; 0; 255; 23; 0; 0; 0; 0; 255; 255; 251; 255;
   255; 255; 159; 64; 0; 0; 0; 0; 0; 0; 0; 0; 127; 189; 255; 191; 255; 1; 255; 255; 255; 255; 255; 255; 255; 1; 255; 3; 239; 159; 249; 255;
   255; 253; 237; 227; 159; 25; 129; 224; 15; 0; 0; 0; 0; 0; 0; 0; 0; 0; 0; 0; 0; 0; 0; 0; 0; 0; 0; 0; 255; 255; 255; 255; 255; 255; 255; 255;
   187; 7; 255; 3; 0; 0; 0; 0; 255; 255; 255; 255; 255; 255; 255; 255; 179; 0; 255; 3; 0; 0; 0; 0; 0; 0; 0; 0; 0; 0; 0; 0; 0; 0; 0; 0; 0; 0; 0;
   0; 255; 255; 255; 255; 255; 255; 63; 127; 0; 0; 0; 63; 0; 0; 0; 0; 255; 255; 255; 255; 255; 255; 255; 127; 17; 0; 255; 3; 0; 0; 0; 0; 255;
   255; 255; 255; 255; 255; 63; 0; 255; 3; 0; 0; 0; 0; 0; 0; 255; 255; 255; 227; 255; 7; 255; 3; 0; 0; 0; 0; 0; 0; 0; 0; 0; 0; 0; 0; 0; 0; 0;
   0; 0; 0; 0; 0; 0; 0; 0; 0; 0; 0; 0; 0; 0; 0; 0; 0; 0; 0; 0; 0; 0; 0; 0; 0; 0; 0; 0; 0; 255; 255; 255; 255; 255; 255; 255; 255; 255; 3; 0;
   128; 255; 255; 255; 255; 255; 255; 231; 127; 0; 0; 255; 255; 255; 255; 255; 255; 207; 255; 255; 0; 0; 0; 0; 0; 255; 255; 255; 255; 255; 255;
   255; 1; 255; 253; 255; 255; 255; 255; 127; 127; 1; 0; 255; 3; 0; 0; 252; 255; 255; 255; 252; 255; 255; 254; 127; 0; 0; 0; 0; 0; 0; 0; 0; 0;
   127; 251; 255; 255; 255; 255; 127; 180; 203; 0; 255; 3; 0; 0; 0; 0; 0; 0; 0; 0; 0; 0; 0; 0; 0; 0; 0; 0; 0; 0; 0; 0; 255; 255; 255; 255; 255;
   255; 255; 255; 255; 255; 255; 255; 255; 255; 255; 255; 255; 255; 255; 3; 0; 0; 0; 0; 0; 0; 0; 0; 0; 0; 0; 0; 255; 255; 255; 255; 255; 255;
   255; 255; 255; 255; 255; 255; 255; 127; 0; 0; 255; 255; 255; 255; 255; 255; 255; 255; 255; 255; 255; 255; 255; 255; 255; 255; 255; 255; 255;
   255; 255; 255; 255; 255; 15; 0; 0; 0; 0; 0; 0; 0; 0; 0; 0; 0; 0; 0; 0; 0; 0; 0; 0; 0; 0; 0; 0; 0; 255; 255; 255; 255; 255; 127; 0; 0; 0; 0;
   0; 0; 0; 0; 0; 0; 0; 0; 0; 0; 0; 0; 0; 0; 0; 0; 0; 0; 0; 0; 0; 0; 255; 255; 255; 255; 255; 255; 255; 255; 127; 0; 0; 0; 0; 0; 0; 0; 0; 0; 0;
   0; 0; 0; 0; 0; 0; 0; 0; 0; 0; 0; 0; 0; 255; 255; 255; 255; 255; 255; 255; 1; 255; 255; 255; 127; 255; 3; 0; 0; 0; 0; 0; 0; 0; 0; 0; 0; 0; 0;
   255; 255; 255; 63; 0; 0; 255; 255; 255; 255; 255; 255; 127; 0; 15; 0; 255; 3; 248; 255; 255; 224; 255; 255; 0; 0; 0; 0; 0; 0; 0; 0; 0; 0; 0;
   0; 0; 0; 255; 255; 255; 255; 255; 255; 255; 255; 31; 0; 255; 255; 255; 255; 255; 127; 0; 0; 248; 255; 0; 0; 0; 0; 0; 0; 0; 0; 3; 0; 0; 0;
   255; 255; 255; 255; 255; 255; 255; 255; 255; 255; 255; 255; 255; 255; 255; 255; 255; 255; 255; 255; 255; 255; 255; 255; 255; 255; 255; 255;
   255; 31; 0; 0; 255; 255; 255; 255; 255; 255; 255; 255; 255; 255; 255; 255; 255; 255; 255; 255; 255; 255; 255; 255; 255; 255; 255; 255; 255;
   255; 255; 255; 255; 255; 7; 0; 255; 255; 255; 127; 0; 0; 0; 0; 0; 0; 0; 0; 0; 0; 255; 255; 255; 255; 255; 255; 255; 255; 255; 255; 255; 255;
   255; 255; 255; 255; 255; 255; 255; 255; 255; 255; 255; 255; 255; 255; 255; 255; 255; 255; 255; 255; 255; 255; 255; 255; 255; 255; 255; 255;
   255; 255; 255; 255; 255; 255; 255; 255; 255; 15; 255; 255; 255; 255; 255; 255; 255; 255; 255; 255; 255; 255; 255; 7; 255; 31; 255; 1; 255;
   67; 0; 0; 0; 0; 0; 0; 0; 0; 0; 0; 0; 0; 255; 255; 255; 255; 255; 255; 255; 255; 255; 255; 223; 255; 255; 255; 255; 255; 255; 255; 255; 223;
   100; 222; 255; 235; 239; 255; 255; 255; 255; 255; 255; 255; 191; 231; 223; 223; 255; 255; 255; 123; 95; 252; 253; 255; 255; 255; 255; 255;
   255; 255; 255; 255; 255; 255; 255; 255; 255; 255; 255; 255; 255; 255; 255; 255; 255; 255; 255; 255; 255; 255; 255; 255; 255; 255; 255; 255;
   255; 255; 255; 255; 255; 255; 255; 255; 63; 255; 255; 255; 253; 255; 255; 247; 255; 255; 255; 247; 255; 255; 223; 255; 255; 255; 223; 255;
   255; 127; 255; 255; 255; 127; 255; 255; 255; 253; 255; 255; 255; 253; 255; 255; 247; 207; 255; 255; 255; 255; 255; 255; 127; 255; 255; 249;
   219; 7; 0; 0; 0; 0; 0; 0; 0; 0; 0; 0; 0; 0; 0; 0; 0; 0; 0; 0; 0; 0; 0; 0; 0; 0; 0; 0; 255; 255; 255; 255; 255; 255; 255; 255; 255; 255; 255;
   255; 255; 255; 255; 255; 255; 255; 255; 255; 255; 255; 255; 255; 31; 0; 0; 0; 0; 0; 0; 0; 255; 255; 255; 255; 255; 255; 255; 255; 143; 0;
   255; 3; 0; 0; 0; 0; 0; 0; 0; 0; 0; 0; 0; 0; 0; 0; 0; 0; 0; 0; 0; 0; 239; 255; 255; 255; 150; 254; 247; 10; 132; 234; 150; 170; 150; 247;
   247; 94; 255; 251; 255; 15; 238; 251; 255; 15; 0; 0; 0; 0; 0; 0; 0; 0; 0; 0; 0; 0; 0; 0; 255; 255; 255; 3; 255; 255; 255; 3; 255; 255; 255;
   3; 0; 0; 0; 0; 0; 0; 0; 0; 0; 0; 0; 0; 0; 0].

Definition punct_table : list Z :=
  [18; 16; 19; 20; 21; 22; 23; 24; 25; 26; 27; 28; 29; 30; 31; 32; 33; 16; 16; 34; 35; 16; 36; 37; 38; 39; 40; 41; 42; 43; 16; 44; 45; 46; 17;
   17; 47; 17; 17; 17; 17; 17; 17; 48; 49; 50; 51; 52; 53; 54; 55; 17; 16; 16; 16; 16; 16; 16; 16; 16; 16; 16; 16; 16; 16; 16; 16; 16; 16; 16;
   16; 16; 16; 16; 16; 16; 16; 56; 16; 16; 16; 16; 16; 16; 16; 16; 16; 16; 16; 16; 16; 16; 16; 16; 16; 16; 16; 16; 16; 16; 16; 16; 16; 16; 16;
   16; 16; 16; 16; 16; 16; 16; 16; 16; 16; 16; 16; 16; 16; 16; 16; 16; 16; 16; 16; 16; 16; 16; 16; 16; 16; 16; 16; 16; 16; 16; 16; 16; 16; 16;
   16; 16; 16; 16; 16; 16; 16; 16; 16; 16; 16; 16; 16; 16; 16; 16; 16; 16; 16; 16; 16; 16; 16; 16; 57; 16; 58; 59; 60; 61; 62; 63; 16; 16; 16;
   16; 16; 16; 16; 16; 16; 16; 16; 16; 16; 16; 16; 16; 16; 16; 16; 16; 16; 16; 16; 16; 16; 16; 16; 16; 16; 16; 16; 16; 16; 16; 16; 16; 16; 16;
   16; 16; 16; 16; 16; 16; 16; 16; 16; 16; 16; 16; 16; 16; 64; 16; 16; 16; 16; 16; 16; 16; 16; 16; 16; 16; 16; 16; 16; 16; 16; 16; 16; 16; 16;
   16; 16; 16; 65; 16; 16; 66; 16; 67; 68; 69; 16; 70; 71; 72; 16; 73; 16; 16; 74; 75; 76; 77; 78; 16; 79; 16; 80; 81; 82; 83; 84; 85; 86; 87;
   88; 16; 89; 16; 90; 91; 16; 16; 16; 16; 16; 16; 92; 16; 16; 16; 16; 16; 16; 16; 16; 16; 16; 16; 16; 16; 16; 16; 16; 16; 16; 16; 16; 16; 16;
   16; 16; 16; 16; 16; 16; 16; 16; 16; 16; 16; 16; 16; 16; 16; 16; 16; 16; 16; 16; 16; 16; 16; 16; 16; 16; 16; 16; 16; 16; 16; 16; 16; 16; 16;
   16; 16; 16; 16; 16; 16; 16; 16; 16; 16; 16; 16; 93; 94; 16; 16; 16; 95; 16; 16; 16; 16; 16; 16; 16; 16; 16; 16; 16; 16; 16; 16; 16; 16; 16;
   16; 16; 16; 16; 16; 16; 16; 16; 16; 16; 16; 16; 16; 16; 16; 16; 16; 16; 16; 16; 16; 16; 16; 16; 16; 16; 16; 16; 16; 16; 16; 16; 16; 16; 16;
   16; 16; 16; 16; 16; 16; 16; 16; 16; 16; 16; 16; 16; 16; 16; 16; 16; 16; 16; 16; 16; 16; 16; 16; 96; 16; 16; 16; 16; 16; 16; 16; 16; 16; 16;
   16; 16; 16; 16; 16; 16; 16; 16; 16; 97; 98; 99; 100; 16; 16; 101; 102; 17; 17; 103; 16; 16; 16; 16; 16; 16; 16; 16; 16; 16; 16; 16; 16; 104;
   105; 16; 16; 16; 16; 106; 16; 107; 108; 109; 17; 17; 17; 110; 111; 112; 113; 16; 16; 16; 16; 16; 16; 0; 0; 0; 0; 0; 0; 0; 0; 0; 0; 0; 0; 0;
   0; 0; 0; 0; 0; 0; 0; 0; 0; 0; 0; 0; 0; 0; 0; 0; 0; 0; 0; 255; 255; 255; 255; 255; 255; 255; 255; 255; 255; 255; 255; 255; 255; 255; 255;
   255; 255; 255; 255; 255; 255; 255; 255; 255; 255; 255; 255; 255; 255; 255; 255; 0; 0; 0; 0; 254; 255; 0; 252; 1; 0; 0; 248; 1; 0; 0; 120; 0;
   0; 0; 0; 255; 251; 223; 251; 0; 0; 128; 0; 0; 0; 128; 0; 0; 0; 0; 0; 0; 0; 0; 0; 0; 0; 0; 0; 0; 0; 0; 0; 0; 0; 0; 0; 0; 0; 0; 0; 60; 0; 252;
   255; 224; 175; 255; 255; 255; 255; 255; 255; 255; 255; 255; 255; 223; 255; 255; 255; 255; 255; 32; 64; 176; 0; 0; 0; 0; 0; 0; 0; 0; 0; 0; 0;
   0; 0; 64; 0; 0; 0; 0; 0; 0; 0; 0; 0; 0; 0; 0; 0; 0; 0; 0; 0; 252; 3; 0; 0; 0; 0; 0; 0; 0; 0; 0; 0; 0; 0; 0; 0; 0; 0; 0; 0; 0; 0; 0; 0; 0; 0;
   0; 252; 0; 0; 0; 0; 0; 230; 254; 255; 255; 255; 0; 64; 73; 0; 0; 0; 0; 0; 24; 0; 255; 255; 0; 216; 0; 0; 0; 0; 0; 0; 0; 1; 0; 60; 0; 0; 0;
   0; 0; 0; 0; 0; 0; 0; 0; 0; 16; 224; 1; 30; 0; 96; 255; 191; 0; 0; 0; 0; 0; 0; 255; 7; 0; 0; 0; 0; 0; 0; 0; 0; 0; 0; 0; 0; 0; 0; 0; 0; 0; 0;
   0; 248; 207; 3; 0; 0; 0; 3; 0; 32; 255; 127; 0; 0; 0; 78; 0; 0; 0; 0; 0; 0; 0; 0; 0; 0; 0; 0; 0; 0; 0; 0; 7; 252; 0; 0; 0; 0; 0; 0; 0; 0; 0;
   16; 0; 32; 30; 0; 48; 0; 1; 0; 0; 0; 0; 0; 0; 0; 0; 16; 0; 32; 0; 0; 0; 0; 252; 47; 0; 0; 0; 0; 0; 0; 0; 16; 0; 32; 0; 0; 0; 0; 0; 0; 0; 0;
   0; 0; 0; 0; 0; 16; 0; 32; 0; 0; 0; 0; 3; 224; 0; 0; 0; 0; 0; 0; 0; 16; 0; 32; 0; 0; 0; 0; 253; 0; 0; 0; 0; 0; 0; 0; 0; 0; 0; 32; 0; 0; 0; 0;
   255; 7; 0; 0; 0; 0; 0; 0; 0; 0; 0; 32; 0; 0; 0; 0; 0; 255; 0; 0; 0; 0; 0; 0; 0; 16; 0; 32; 0; 0; 0; 0; 0; 0; 0; 0; 0; 0; 0; 0; 0; 24; 0;
   160; 0; 127; 0; 0; 255; 3; 0; 0; 0; 0; 0; 0; 0; 0; 0; 4; 0; 0; 0; 0; 16; 0; 0; 0; 0; 0; 0; 128; 0; 128; 192; 223; 0; 12; 0; 0; 0; 0; 0; 0;
   0; 0; 0; 0; 0; 0; 0; 31; 0; 0; 0; 0; 0; 0; 254; 255; 255; 255; 0; 252; 255; 255; 0; 0; 0; 0; 0; 0; 0; 0; 252; 0; 0; 0; 0; 0; 0; 192; 255;
   223; 255; 7; 0; 0; 0; 0; 0; 0; 0; 0; 0; 0; 128; 6; 0; 252; 0; 0; 24; 62; 0; 0; 128; 191; 0; 204; 0; 0; 0; 0; 0; 0; 0; 0; 0; 0; 0; 8; 0; 0;
   0; 0; 0; 0; 0; 0; 0; 0; 0; 96; 255; 255; 255; 31; 0; 0; 255; 3; 0; 0; 0; 0; 0; 0; 0; 0; 0; 0; 0; 0; 1; 0; 0; 0; 0; 0; 0; 0; 0; 0; 0; 0; 0;
   0; 0; 0; 0; 0; 0; 0; 0; 0; 0; 0; 0; 0; 0; 0; 0; 0; 0; 0; 0; 0; 0; 0; 0; 0; 0; 0; 0; 0; 0; 0; 0; 96; 0; 0; 1; 0; 0; 24; 0; 0; 0; 0; 0; 0; 0;
   0; 0; 56; 0; 0; 0; 0; 16; 0; 0; 0; 112; 0; 0; 0; 0; 0; 0; 0; 0; 0; 0; 0; 0; 0; 0; 0; 48; 0; 0; 254; 127; 47; 0; 0; 255; 3; 255; 127; 0; 0;
   0; 0; 0; 0; 0; 0; 0; 0; 0; 0; 0; 0; 0; 0; 0; 0; 0; 0; 0; 0; 0; 0; 0; 0; 0; 0; 0; 0; 0; 0; 0; 0; 0; 0; 0; 14; 49; 0; 0; 0; 0; 0; 0; 0; 0; 0;
   0; 0; 0; 0; 0; 0; 0; 0; 0; 196; 255; 255; 255; 255; 0; 0; 0; 192; 0; 0; 0; 0; 0; 0; 0; 0; 1; 0; 224; 159; 0; 0; 0; 0; 127; 63; 255; 127; 0;
   0; 0; 0; 0; 0; 0; 0; 0; 0; 0; 0; 0; 0; 16; 0; 16; 0; 0; 252; 255; 255; 255; 31; 0; 0; 0; 0; 0; 12; 0; 0; 0; 0; 0; 0; 64; 0; 12; 240; 0; 0;
   0; 0; 0; 0; 192; 248; 0; 0; 0; 0; 0; 0; 0; 192; 0; 0; 0; 0; 0; 0; 0; 0; 255; 0; 255; 255; 255; 33; 144; 3; 0; 0; 0; 0; 0; 0; 0; 0; 0; 0; 0;
   0; 0; 0; 0; 0; 0; 0; 0; 0; 0; 0; 0; 0; 255; 255; 255; 255; 127; 0; 224; 251; 0; 0; 0; 0; 0; 0; 0; 0; 0; 0; 0; 0; 0; 0; 0; 0; 0; 0; 0; 0; 0;
   0; 0; 160; 3; 224; 0; 224; 0; 224; 0; 96; 128; 248; 255; 255; 255; 252; 255; 255; 255; 255; 255; 127; 223; 255; 241; 127; 255; 127; 0; 0;
   255; 255; 255; 255; 0; 0; 255; 255; 255; 255; 1; 0; 123; 3; 208; 193; 175; 66; 0; 12; 31; 188; 255; 255; 0; 0; 0; 0; 0; 14; 255; 255; 255;
   255; 255; 255; 255; 255; 255; 255; 255; 255; 255; 255; 255; 255; 255; 255; 127; 0; 0; 0; 255; 7; 0; 0; 255; 255; 255; 255; 255; 255; 255;
   255; 255; 255; 63; 0; 0; 0; 0; 0; 0; 252; 255; 255; 255; 255; 255; 255; 255; 255; 255; 255; 255; 255; 255; 255; 255; 255; 207; 255; 255;
   255; 63; 255; 255; 255; 255; 227; 255; 253; 7; 0; 0; 240; 0; 0; 0; 0; 0; 0; 0; 0; 0; 0; 0; 0; 0; 0; 0; 0; 0; 0; 0; 0; 0; 0; 0; 0; 0; 0; 0;
   0; 0; 0; 224; 135; 3; 254; 0; 0; 0; 0; 0; 0; 0; 0; 0; 0; 0; 0; 0; 0; 1; 128; 0; 0; 0; 0; 0; 0; 0; 0; 0; 0; 0; 0; 0; 0; 0; 0; 255; 255; 255;
   255; 255; 127; 255; 255; 255; 3; 0; 0; 0; 0; 0; 0; 255; 255; 255; 251; 255; 255; 255; 255; 255; 255; 255; 255; 255; 255; 15; 0; 255; 255;
   255; 255; 255; 255; 255; 255; 255; 255; 255; 255; 255; 255; 255; 255; 255; 255; 255; 255; 255; 255; 255; 255; 255; 255; 63; 0; 0; 0; 255;
   15; 30; 255; 255; 255; 1; 252; 193; 224; 0; 0; 0; 0; 0; 0; 0; 0; 0; 0; 0; 30; 1; 0; 0; 0; 0; 0; 0; 0; 0; 0; 0; 8; 0; 0; 0; 0; 0; 0; 0; 0; 0;
   0; 0; 0; 0; 0; 0; 0; 0; 0; 255; 255; 0; 0; 0; 0; 255; 255; 255; 255; 15; 0; 0; 0; 255; 255; 255; 127; 255; 255; 255; 255; 255; 255; 255;
   255; 255; 255; 255; 255; 255; 255; 255; 255; 255; 255; 255; 255; 255; 255; 255; 255; 255; 255; 255; 127; 0; 0; 0; 0; 0; 0; 0; 0; 0; 0; 0; 0;
   0; 0; 0; 0; 0; 0; 0; 0; 0; 0; 0; 0; 255; 255; 255; 255; 255; 255; 255; 255; 0; 0; 0; 0; 0; 0; 0; 0; 0; 0; 0; 0; 0; 0; 0; 0; 0; 0; 255; 255;
   255; 255; 255; 255; 127; 0; 0; 0; 0; 0; 0; 192; 0; 224; 0; 0; 0; 0; 0; 0; 0; 0; 0; 0; 0; 128; 15; 112; 0; 0; 0; 0; 0; 0; 0; 0; 0; 0; 0; 0;
   0; 0; 255; 0; 255; 255; 127; 0; 3; 0; 0; 0; 0; 0; 0; 0; 0; 0; 0; 0; 0; 6; 0; 0; 0; 0; 0; 0; 0; 0; 0; 0; 0; 0; 0; 0; 68; 8; 0; 0; 0; 15; 255;
   3; 0; 0; 0; 0; 0; 0; 240; 0; 0; 0; 0; 0; 0; 0; 0; 0; 16; 192; 0; 0; 255; 255; 3; 23; 0; 0; 0; 0; 0; 248; 0; 0; 0; 0; 8; 128; 0; 0; 0; 0; 0;
   0; 0; 0; 0; 0; 8; 0; 255; 63; 0; 192; 32; 0; 0; 0; 0; 0; 0; 0; 0; 0; 0; 0; 0; 0; 0; 240; 0; 0; 128; 59; 0; 0; 0; 0; 0; 0; 0; 128; 2; 0; 0;
   192; 0; 0; 67; 0; 0; 0; 0; 0; 0; 0; 0; 0; 0; 0; 0; 8; 0; 0; 0; 0; 0; 0; 0; 0; 0; 0; 0; 0; 0; 0; 0; 0; 0; 56; 0; 0; 1; 0; 0; 0; 0; 0; 0; 0;
   0; 0; 0; 0; 0; 0; 0; 0; 0; 0; 0; 0; 0; 0; 0; 0; 0; 0; 0; 0; 0; 0; 0; 0; 0; 0; 0; 0; 0; 0; 0; 0; 0; 0; 0; 0; 0; 0; 0; 0; 0; 0; 0; 0; 0; 0; 0;
   0; 0; 0; 0; 0; 0; 0; 0; 128; 0; 0; 0; 0; 0; 2; 0; 0; 0; 0; 0; 0; 0; 0; 0; 0; 0; 0; 0; 0; 0; 0; 252; 255; 3; 0; 0; 0; 0; 0; 0; 0; 0; 0; 0; 0;
   0; 0; 0; 192; 0; 0; 0; 0; 0; 0; 0; 0; 0; 0; 0; 0; 0; 0; 0; 0; 0; 0; 0; 0; 0; 0; 0; 48; 255; 255; 255; 3; 255; 255; 255; 255; 255; 255; 247;
   255; 127; 15; 0; 0; 0; 0; 0; 0; 0; 0; 0; 0; 0; 0; 0; 0; 0; 0; 0; 128; 254; 255; 0; 252; 1; 0; 0; 248; 1; 0; 0; 248; 63; 0; 0; 0; 0; 0; 0; 0;
   0; 0; 0; 0; 0; 0; 0; 0; 127; 127; 0; 48; 135; 255; 255; 255; 255; 255; 143; 255; 0; 0; 0; 0; 0; 0; 224; 255; 255; 127; 255; 15; 1; 0; 0; 0;
   0; 0; 255; 255; 255; 255; 255; 63; 0; 0; 0; 0; 0; 0; 0; 0; 0; 0; 0; 0; 0; 0; 0; 0; 0; 0; 0; 0; 0; 0; 0; 0; 0; 0; 0; 0; 255; 255; 255; 15; 0;
   0; 0; 0; 15; 0; 0; 0; 0; 0; 0; 0; 0; 0; 0; 0; 0; 0; 0; 128; 0; 0; 0; 0; 0; 0; 1; 0; 0; 0; 0; 0; 0; 0; 0; 0; 0; 0; 0; 0; 0; 0; 0; 0; 0; 128;
   0; 0; 0; 0; 0; 0; 0; 0; 0; 0; 0; 0; 0; 0; 0; 0; 0; 0; 0; 0; 0; 0; 0; 0; 0; 0; 0; 0; 128; 255; 0; 0; 128; 255; 0; 0; 0; 0; 128; 255; 0; 0; 0;
   0; 0; 0; 0; 0; 0; 248; 0; 0; 192; 143; 0; 0; 0; 128; 0; 0; 0; 0; 0; 0; 0; 0; 0; 0; 0; 0; 0; 0; 0; 48; 255; 255; 252; 255; 255; 255; 255;
   255; 0; 0; 0; 0; 0; 0; 0; 135; 255; 0; 255; 1; 0; 0; 0; 224; 0; 0; 0; 224; 0; 0; 0; 0; 0; 1; 0; 0; 96; 248; 127; 0; 0; 0; 0; 0; 0; 0; 0;
   254; 0; 0; 0; 255; 0; 0; 0; 255; 0; 0; 0; 30; 0; 254; 0; 0; 0; 0; 0; 0; 0; 0; 0; 0; 0; 0; 0; 0; 0; 0; 0; 0; 0; 0; 0; 0; 0; 0; 0; 0; 0; 0; 0;
   0; 0; 0; 0; 0; 0; 0; 0; 0; 0; 0; 0; 252; 0; 0; 0; 0; 0; 0; 0; 0; 0; 0; 0; 0; 255; 255; 255; 127; 0; 0; 0; 0; 0; 0; 0; 0; 0; 0; 0; 0; 0; 0;
   0; 0; 0; 0; 0; 0; 0; 0; 0; 0; 192; 63; 252; 255; 63; 0; 0; 128; 3; 0; 0; 0; 0; 0; 0; 254; 3; 0; 0; 0; 0; 0; 0; 0; 0; 0; 0; 0; 0; 0; 24; 0;
   15; 0; 0; 0; 0; 0; 56; 0; 0; 0; 0; 0; 0; 0; 0; 0; 225; 63; 0; 232; 254; 255; 31; 0; 0; 0; 0; 0; 0; 0; 96; 63; 0; 0; 0; 0; 0; 0; 0; 0; 0; 0;
   0; 0; 0; 2; 0; 0; 0; 0; 0; 0; 0; 6; 0; 0; 0; 0; 0; 0; 0; 0; 0; 16; 0; 32; 0; 0; 192; 31; 31; 0; 0; 0; 0; 0; 0; 0; 0; 0; 0; 0; 0; 0; 0; 0; 0;
   0; 0; 0; 0; 0; 0; 0; 0; 0; 68; 248; 0; 40; 0; 0; 0; 0; 0; 0; 0; 0; 0; 0; 0; 0; 76; 0; 0; 0; 0; 0; 0; 0; 0; 0; 0; 0; 0; 0; 0; 0; 0; 0; 0; 0;
   0; 0; 0; 0; 0; 0; 0; 0; 0; 0; 0; 128; 255; 255; 255; 0; 0; 0; 0; 0; 0; 0; 0; 0; 0; 0; 0; 128; 14; 0; 0; 0; 255; 31; 0; 0; 0; 0; 0; 0; 0; 0;
   192; 0; 0; 0; 0; 0; 0; 0; 0; 0; 0; 0; 0; 0; 0; 8; 0; 252; 0; 0; 0; 0; 0; 0; 0; 0; 0; 0; 0; 0; 0; 0; 0; 0; 0; 0; 0; 0; 0; 0; 0; 0; 0; 0; 0;
   0; 0; 0; 0; 0; 0; 0; 0; 0; 0; 0; 0; 0; 0; 0; 0; 0; 0; 0; 0; 0; 0; 0; 0; 0; 0; 252; 7; 0; 0; 0; 0; 0; 0; 0; 24; 128; 255; 0; 0; 0; 0; 0; 0;
   0; 0; 0; 0; 223; 7; 0; 0; 0; 0; 0; 0; 0; 0; 0; 0; 0; 0; 0; 0; 0; 0; 0; 0; 128; 62; 0; 0; 252; 255; 31; 3; 0; 0; 0; 0; 0; 0; 0; 0; 0; 0; 0;
   0; 0; 0; 0; 0; 0; 0; 0; 0; 0; 0; 0; 0; 0; 52; 0; 0; 0; 0; 0; 0; 0; 0; 0; 0; 0; 0; 0; 0; 0; 0; 0; 0; 0; 0; 0; 0; 0; 0; 0; 0; 0; 0; 0; 0; 0;
   0; 0; 0; 0; 0; 0; 31; 0; 0; 0; 0; 0; 0; 0; 0; 0; 0; 0; 0; 0; 0; 0; 0; 0; 0; 0; 0; 0; 0; 0; 0; 0; 0; 0; 0; 0; 0; 192; 0; 0; 0; 0; 0; 0; 0; 0;
   0; 0; 0; 0; 0; 0; 0; 0; 63; 0; 0; 0; 0; 0; 0; 0; 128; 255; 48; 0; 0; 248; 3; 0; 0; 0; 0; 0; 0; 0; 0; 0; 0; 0; 0; 0; 0; 0; 0; 0; 0; 0; 0; 0;
   0; 0; 0; 0; 0; 0; 0; 0; 0; 0; 0; 0; 0; 0; 0; 128; 7; 0; 0; 0; 0; 0; 0; 0; 0; 0; 0; 0; 0; 0; 0; 0; 0; 0; 0; 0; 0; 0; 0; 0; 0; 0; 0; 0; 0; 0;
   0; 0; 0; 176; 15; 0; 0; 0; 0; 0; 0; 0; 0; 0; 0; 0; 255; 255; 255; 255; 255; 255; 255; 255; 255; 255; 255; 255; 255; 255; 255; 255; 255; 255;
   255; 255; 255; 255; 255; 255; 255; 255; 255; 255; 255; 255; 63; 0; 255; 255; 255; 255; 127; 254; 255; 255; 255; 255; 255; 255; 255; 255;
   255; 255; 255; 255; 255; 255; 255; 255; 255; 255; 255; 255; 255; 255; 255; 1; 0; 0; 255; 255; 255; 255; 255; 255; 255; 255; 63; 0; 0; 0; 0;
   0; 0; 0; 0; 0; 0; 0; 0; 0; 0; 0; 0; 0; 0; 0; 0; 0; 0; 0; 255; 255; 255; 255; 255; 255; 255; 255; 255; 255; 127; 0; 255; 255; 3; 0; 0; 0; 0;
   0; 0; 0; 0; 0; 0; 0; 0; 0; 0; 0; 0; 0; 0; 0; 0; 0; 0; 0; 0; 0; 0; 0; 0; 0; 0; 0; 0; 0; 0; 0; 0; 0; 0; 0; 0; 0; 2; 0; 0; 8; 0; 0; 0; 8; 0; 0;
   32; 0; 0; 0; 32; 0; 0; 128; 0; 0; 0; 128; 0; 0; 0; 2; 0; 0; 0; 2; 0; 0; 8; 0; 0; 0; 0; 0; 0; 0; 255; 255; 255; 255; 255; 255; 255; 255; 255;
   255; 255; 255; 255; 255; 255; 255; 255; 15; 0; 248; 254; 255; 0; 0; 0; 0; 0; 0; 0; 0; 0; 0; 0; 0; 0; 0; 0; 0; 0; 0; 0; 0; 0; 0; 0; 0; 0; 0;
   0; 0; 0; 0; 0; 0; 0; 0; 128; 255; 127; 0; 0; 0; 0; 0; 0; 0; 0; 0; 0; 0; 0; 0; 112; 7; 0; 192; 0; 0; 0; 0; 0; 0; 0; 0; 0; 0; 0; 0; 0; 0; 0;
   0; 0; 0; 0; 0; 0; 0; 0; 0; 0; 0; 0; 0; 0; 0; 0; 0; 0; 0; 0; 0; 0; 0; 0; 0; 0; 0; 0; 0; 0; 0; 0; 0; 0; 0; 3; 0; 255; 255; 255; 255; 255; 15;
   255; 255; 255; 255; 255; 255; 255; 255; 255; 255; 255; 255; 15; 0; 255; 127; 254; 255; 254; 255; 254; 255; 255; 255; 63; 0; 255; 31; 255;
   255; 255; 127; 0; 0; 0; 252; 0; 0; 0; 12; 0; 0; 0; 252; 255; 255; 255; 31; 0; 0; 0; 0; 0; 0; 192; 255; 255; 255; 7; 0; 255; 255; 255; 255;
   255; 15; 255; 1; 3; 0; 63; 0; 0; 0; 0; 0; 0; 0; 0; 0; 0; 0; 0; 0; 0; 0; 0; 0; 0; 0; 255; 255; 255; 255; 255; 255; 255; 255; 255; 255; 255;
   255; 255; 255; 255; 255; 255; 255; 255; 255; 255; 255; 255; 255; 255; 255; 31; 0; 255; 31; 255; 1; 255; 255; 255; 255; 255; 255; 255; 255;
   255; 255; 255; 255; 255; 255; 15; 0; 255; 255; 255; 255; 255; 255; 255; 255; 255; 255; 31; 0; 0; 0; 0; 0; 255; 15; 255; 255; 255; 255; 255;
   255; 255; 0; 255; 3; 255; 255; 255; 255; 255; 0; 255; 255; 255; 63; 0; 0; 0; 0; 0; 0; 0; 0; 0; 0; 255; 15; 255; 255; 255; 255; 255; 127;
   255; 31; 255; 255; 255; 15; 0; 0; 255; 255; 255; 0; 0; 0; 0; 0; 1; 0; 255; 255; 127; 0; 0; 0].

Definition nonspacing_table : list Z :=
  [16; 16; 16; 18; 19; 20; 21; 22; 23; 24; 25; 26; 27; 28; 29; 30; 31; 16; 16; 32; 16; 16; 16; 33; 34; 35; 36; 37; 38; 39; 16; 16; 40; 16; 16;
   16; 16; 16; 16; 16; 16; 16; 16; 16; 41; 42; 16; 16; 43; 16; 16; 16; 16; 16; 16; 16; 16; 16; 16; 16; 16; 16; 16; 16; 16; 16; 16; 16; 16; 16;
   16; 16; 16; 16; 16; 16; 16; 16; 16; 16; 16; 16; 16; 16; 16; 16; 16; 16; 16; 16; 16; 16; 16; 16; 16; 16; 16; 16; 16; 16; 16; 16; 16; 16; 16;
   16; 16; 16; 16; 16; 16; 16; 16; 16; 16; 16; 16; 16; 16; 16; 16; 16; 16; 16; 16; 16; 16; 16; 16; 16; 16; 16; 16; 16; 16; 16; 16; 16; 16; 16;
   16; 16; 16; 16; 16; 16; 16; 16; 16; 16; 16; 16; 16; 16; 16; 16; 16; 16; 16; 16; 16; 16; 16; 16; 16; 16; 44; 16; 45; 46; 47; 48; 16; 16; 16;
   16; 16; 16; 16; 16; 16; 16; 16; 16; 16; 16; 16; 16; 16; 16; 16; 16; 16; 16; 16; 16; 16; 16; 16; 16; 16; 16; 16; 16; 16; 16; 16; 16; 16; 16;
   16; 16; 16; 16; 16; 16; 16; 16; 16; 16; 16; 16; 16; 16; 16; 16; 16; 16; 16; 16; 16; 16; 16; 16; 16; 16; 16; 16; 16; 16; 16; 16; 16; 16; 16;
   16; 16; 16; 16; 16; 16; 49; 16; 16; 50; 51; 16; 52; 53; 54; 16; 16; 16; 16; 16; 16; 55; 16; 16; 16; 16; 16; 56; 57; 58; 59; 60; 61; 62; 63;
   16; 16; 64; 16; 65; 66; 16; 16; 16; 16; 16; 16; 16; 16; 16; 16; 16; 16; 16; 16; 16; 16; 16; 16; 16; 16; 16; 16; 16; 16; 16; 16; 16; 16; 16;
   16; 16; 16; 16; 16; 16; 16; 16; 16; 16; 16; 16; 16; 16; 16; 16; 16; 16; 16; 16; 16; 16; 16; 16; 16; 16; 16; 16; 16; 16; 16; 16; 16; 16; 16;
   16; 16; 16; 16; 16; 16; 16; 16; 16; 16; 16; 16; 67; 68; 16; 16; 16; 69; 16; 16; 16; 16; 16; 16; 16; 16; 16; 16; 16; 16; 16; 16; 16; 16; 16;
   16; 16; 16; 16; 16; 16; 16; 16; 16; 16; 16; 16; 16; 16; 16; 16; 16; 16; 16; 16; 16; 16; 16; 16; 16; 16; 16; 16; 16; 16; 16; 16; 16; 16; 16;
   16; 16; 16; 16; 16; 16; 16; 16; 16; 16; 16; 16; 16; 16; 16; 16; 16; 16; 16; 16; 16; 16; 16; 16; 70; 16; 16; 16; 16; 16; 16; 16; 16; 16; 16;
   16; 16; 16; 16; 16; 16; 16; 16; 16; 16; 71; 72; 16; 16; 16; 16; 16; 16; 16; 73; 16; 16; 16; 16; 16; 74; 16; 16; 16; 16; 16; 16; 16; 75; 76;
   16; 16; 16; 16; 16; 16; 16; 16; 16; 16; 16; 16; 16; 16; 16; 16; 16; 16; 16; 16; 16; 16; 0; 0; 0; 0; 0; 0; 0; 0; 0; 0; 0; 0; 0; 0; 0; 0; 0;
   0; 0; 0; 0; 0; 0; 0; 0; 0; 0; 0; 0; 0; 0; 0; 255; 255; 255; 255; 255; 255; 255; 255; 255; 255; 255; 255; 255; 255; 255; 255; 255; 255; 255;
   255; 255; 255; 255; 255; 255; 255; 255; 255; 255; 255; 255; 255; 255; 255; 255; 255; 255; 255; 255; 255; 255; 255; 255; 255; 255; 255; 0; 0;
   0; 0; 0; 0; 0; 0; 0; 0; 0; 0; 0; 0; 0; 0; 0; 0; 0; 0; 0; 0; 0; 0; 0; 0; 0; 0; 0; 0; 0; 0; 0; 0; 248; 3; 0; 0; 0; 0; 0; 0; 0; 0; 0; 0; 0; 0;
   0; 0; 0; 0; 0; 0; 0; 0; 0; 0; 0; 0; 0; 0; 0; 0; 0; 0; 0; 0; 254; 255; 255; 255; 255; 191; 182; 0; 0; 0; 0; 0; 0; 0; 63; 0; 255; 23; 0; 0; 0;
   0; 0; 248; 255; 255; 0; 0; 1; 0; 0; 0; 0; 0; 0; 0; 0; 0; 0; 0; 192; 191; 159; 61; 0; 0; 0; 128; 2; 0; 0; 0; 255; 255; 255; 7; 0; 0; 0; 0; 0;
   0; 0; 0; 0; 0; 192; 255; 1; 0; 0; 0; 0; 0; 0; 248; 15; 0; 0; 0; 192; 251; 239; 62; 0; 0; 0; 0; 0; 14; 0; 0; 0; 0; 0; 0; 0; 0; 0; 0; 0; 0; 0;
   0; 240; 255; 255; 255; 255; 255; 7; 0; 0; 0; 0; 0; 0; 20; 254; 33; 254; 0; 12; 0; 0; 0; 2; 0; 0; 0; 0; 0; 0; 16; 30; 32; 0; 0; 12; 0; 0; 0;
   6; 0; 0; 0; 0; 0; 0; 16; 134; 57; 2; 0; 0; 0; 35; 0; 6; 0; 0; 0; 0; 0; 0; 16; 190; 33; 0; 0; 12; 0; 0; 252; 2; 0; 0; 0; 0; 0; 0; 144; 30;
   32; 64; 0; 12; 0; 0; 0; 4; 0; 0; 0; 0; 0; 0; 0; 1; 32; 0; 0; 0; 0; 0; 0; 1; 0; 0; 0; 0; 0; 0; 192; 193; 61; 96; 0; 12; 0; 0; 0; 2; 0; 0; 0;
   0; 0; 0; 144; 64; 48; 0; 0; 12; 0; 0; 0; 3; 0; 0; 0; 0; 0; 0; 24; 30; 32; 0; 0; 12; 0; 0; 0; 0; 0; 0; 0; 0; 0; 0; 0; 0; 4; 92; 0; 0; 0; 0;
   0; 0; 0; 0; 0; 0; 0; 242; 7; 128; 127; 0; 0; 0; 0; 0; 0; 0; 0; 0; 0; 0; 0; 242; 27; 0; 63; 0; 0; 0; 0; 0; 0; 0; 0; 0; 3; 0; 0; 160; 2; 0; 0;
   0; 0; 0; 0; 254; 127; 223; 224; 255; 254; 255; 255; 255; 31; 64; 0; 0; 0; 0; 0; 0; 0; 0; 0; 0; 0; 0; 224; 253; 102; 0; 0; 0; 195; 1; 0; 30;
   0; 100; 32; 0; 32; 0; 0; 0; 0; 0; 0; 0; 0; 0; 0; 0; 0; 0; 0; 0; 0; 0; 0; 0; 0; 0; 0; 0; 224; 0; 0; 0; 0; 0; 0; 0; 0; 0; 0; 0; 0; 0; 0; 0; 0;
   0; 0; 0; 0; 0; 0; 28; 0; 0; 0; 28; 0; 0; 0; 12; 0; 0; 0; 12; 0; 0; 0; 0; 0; 0; 0; 176; 63; 64; 254; 15; 32; 0; 0; 0; 0; 0; 120; 0; 0; 0; 0;
   0; 0; 0; 0; 0; 0; 0; 0; 0; 0; 96; 0; 0; 0; 0; 2; 0; 0; 0; 0; 0; 0; 0; 0; 0; 0; 0; 0; 0; 0; 135; 1; 4; 14; 0; 0; 0; 0; 0; 0; 0; 0; 0; 0; 0;
   0; 0; 0; 0; 0; 0; 0; 0; 0; 0; 0; 0; 0; 0; 0; 128; 9; 0; 0; 0; 0; 0; 0; 64; 127; 229; 31; 248; 159; 0; 0; 0; 0; 0; 0; 255; 127; 0; 0; 0; 0;
   0; 0; 0; 0; 15; 0; 0; 0; 0; 0; 208; 23; 4; 0; 0; 0; 0; 248; 15; 0; 3; 0; 0; 0; 60; 59; 0; 0; 0; 0; 0; 0; 64; 163; 3; 0; 0; 0; 0; 0; 0; 240;
   207; 0; 0; 0; 0; 0; 0; 0; 0; 0; 0; 0; 0; 0; 0; 0; 0; 0; 0; 0; 247; 255; 253; 33; 16; 3; 0; 0; 0; 0; 0; 0; 0; 0; 0; 0; 0; 0; 0; 0; 0; 0; 0;
   0; 0; 0; 0; 0; 0; 0; 255; 255; 255; 255; 255; 255; 255; 251; 0; 248; 0; 0; 0; 124; 0; 0; 0; 0; 0; 0; 223; 255; 0; 0; 0; 0; 0; 0; 0; 0; 0; 0;
   0; 0; 255; 255; 255; 255; 1; 0; 0; 0; 0; 0; 0; 0; 0; 0; 0; 0; 0; 0; 0; 0; 0; 0; 0; 0; 0; 0; 0; 0; 0; 0; 0; 0; 0; 0; 0; 128; 3; 0; 0; 0; 0;
   0; 0; 0; 0; 0; 0; 0; 0; 0; 0; 0; 0; 128; 0; 0; 0; 0; 0; 0; 0; 0; 0; 0; 0; 0; 255; 255; 255; 255; 0; 0; 0; 0; 0; 60; 0; 0; 0; 0; 0; 0; 0; 0;
   0; 0; 0; 0; 0; 6; 0; 0; 0; 0; 0; 0; 0; 0; 0; 0; 0; 0; 0; 0; 0; 0; 0; 0; 0; 0; 0; 0; 0; 0; 0; 128; 247; 63; 0; 0; 0; 192; 0; 0; 0; 0; 0; 0;
   0; 0; 0; 0; 3; 0; 68; 8; 0; 0; 96; 0; 0; 0; 0; 0; 0; 0; 0; 0; 0; 0; 0; 0; 0; 0; 0; 0; 0; 0; 48; 0; 0; 0; 255; 255; 3; 0; 0; 0; 0; 0; 192;
   63; 0; 0; 128; 255; 3; 0; 0; 0; 0; 0; 7; 0; 0; 0; 0; 0; 200; 19; 0; 0; 0; 0; 32; 0; 0; 0; 0; 0; 0; 0; 0; 126; 102; 0; 8; 16; 0; 0; 0; 0; 0;
   16; 0; 0; 0; 0; 0; 0; 157; 193; 2; 0; 0; 0; 0; 48; 64; 0; 0; 0; 0; 0; 0; 0; 0; 0; 0; 0; 0; 0; 0; 0; 0; 0; 0; 0; 0; 0; 0; 0; 0; 0; 0; 0; 0;
   0; 32; 33; 0; 0; 0; 0; 0; 64; 0; 0; 0; 0; 0; 0; 0; 0; 0; 0; 0; 0; 0; 0; 0; 0; 0; 0; 0; 0; 0; 0; 0; 0; 0; 0; 0; 0; 255; 255; 0; 0; 255; 255;
   0; 0; 0; 0; 0; 0; 0; 0; 0; 0; 0; 0; 0; 0; 0; 0; 0; 0; 0; 0; 0; 0; 0; 0; 0; 128; 0; 0; 0; 0; 0; 0; 0; 0; 0; 0; 0; 0; 0; 0; 0; 0; 0; 0; 0; 0;
   0; 0; 0; 0; 0; 0; 0; 0; 0; 0; 0; 14; 0; 0; 0; 0; 0; 0; 0; 0; 0; 0; 0; 0; 0; 0; 0; 0; 0; 0; 0; 0; 0; 0; 0; 0; 0; 0; 0; 0; 0; 0; 0; 32; 0; 0;
   0; 0; 0; 0; 0; 0; 0; 0; 0; 0; 0; 0; 0; 0; 0; 0; 0; 0; 0; 0; 0; 0; 0; 0; 0; 0; 1; 0; 0; 0; 0; 0; 0; 0; 0; 0; 0; 0; 0; 0; 0; 0; 0; 0; 192; 7;
   0; 0; 0; 0; 0; 0; 0; 0; 0; 0; 0; 0; 0; 0; 0; 0; 110; 240; 0; 0; 0; 0; 0; 135; 0; 0; 0; 0; 0; 0; 0; 0; 0; 0; 0; 0; 0; 0; 0; 0; 0; 0; 0; 0;
   96; 0; 0; 0; 2; 0; 0; 0; 0; 0; 0; 255; 127; 0; 0; 0; 0; 0; 0; 128; 3; 0; 0; 0; 0; 0; 120; 38; 0; 0; 0; 0; 0; 0; 0; 0; 7; 0; 0; 0; 128; 239;
   31; 0; 0; 0; 0; 0; 0; 0; 8; 0; 3; 0; 0; 0; 0; 0; 192; 127; 0; 28; 0; 0; 0; 0; 0; 0; 0; 0; 0; 0; 0; 128; 211; 64; 0; 0; 0; 0; 0; 0; 0; 0; 0;
   0; 0; 0; 0; 0; 0; 0; 0; 0; 0; 128; 248; 7; 0; 0; 3; 0; 0; 0; 0; 0; 0; 16; 1; 0; 0; 0; 192; 31; 31; 0; 0; 0; 0; 0; 0; 0; 0; 0; 0; 0; 0; 0; 0;
   0; 0; 0; 0; 0; 0; 0; 0; 0; 0; 255; 92; 0; 0; 0; 0; 0; 0; 0; 0; 0; 0; 0; 0; 0; 248; 133; 13; 0; 0; 0; 0; 0; 0; 0; 0; 0; 0; 0; 0; 0; 0; 0; 0;
   0; 0; 0; 0; 0; 0; 0; 0; 0; 0; 0; 0; 0; 60; 176; 1; 0; 0; 48; 0; 0; 0; 0; 0; 0; 0; 0; 0; 0; 248; 167; 1; 0; 0; 0; 0; 0; 0; 0; 0; 0; 0; 0; 0;
   40; 191; 0; 0; 0; 0; 0; 0; 0; 0; 0; 0; 0; 0; 224; 188; 15; 0; 0; 0; 0; 0; 0; 0; 0; 0; 0; 0; 0; 0; 0; 0; 0; 0; 0; 0; 0; 0; 0; 0; 0; 0; 0;
   126; 6; 0; 0; 0; 0; 248; 121; 128; 0; 126; 14; 0; 0; 0; 0; 0; 252; 127; 3; 0; 0; 0; 0; 0; 0; 0; 0; 0; 0; 0; 0; 0; 0; 0; 0; 0; 0; 127; 191;
   0; 0; 0; 0; 0; 0; 0; 0; 0; 0; 252; 255; 255; 252; 109; 0; 0; 0; 0; 0; 0; 0; 0; 0; 0; 0; 0; 0; 0; 0; 126; 180; 191; 0; 0; 0; 0; 0; 0; 0; 0;
   0; 0; 0; 0; 0; 0; 0; 0; 0; 0; 0; 0; 0; 0; 0; 0; 0; 0; 0; 0; 0; 0; 0; 0; 0; 0; 0; 0; 0; 0; 0; 0; 0; 0; 0; 0; 0; 0; 0; 0; 0; 0; 0; 0; 0; 31;
   0; 0; 0; 0; 0; 0; 0; 127; 0; 0; 0; 0; 0; 0; 0; 0; 0; 0; 0; 0; 0; 0; 0; 0; 0; 0; 0; 0; 0; 0; 0; 0; 0; 0; 0; 0; 0; 0; 0; 0; 0; 0; 0; 0; 0; 0;
   0; 0; 0; 0; 128; 7; 0; 0; 0; 0; 0; 0; 0; 0; 0; 0; 0; 0; 0; 0; 0; 0; 0; 0; 0; 0; 0; 0; 0; 0; 0; 0; 0; 0; 0; 0; 0; 0; 96; 15; 0; 0; 0; 0; 0;
   0; 0; 0; 0; 0; 0; 0; 0; 0; 0; 0; 0; 0; 0; 0; 0; 0; 0; 128; 3; 248; 255; 231; 15; 0; 0; 0; 60; 0; 0; 0; 0; 0; 0; 0; 0; 0; 0; 0; 0; 0; 0; 0;
   0; 0; 0; 28; 0; 0; 0; 0; 0; 0; 0; 0; 0; 0; 0; 0; 0; 0; 0; 0; 0; 0; 0; 0; 0; 0; 0; 255; 255; 255; 255; 255; 255; 127; 248; 255; 255; 255;
   255; 255; 31; 32; 0; 16; 0; 0; 248; 254; 255; 0; 0; 0; 0; 0; 0; 0; 0; 0; 0; 127; 255; 255; 249; 219; 7; 0; 0; 0; 0; 0; 0; 0; 0; 0; 0; 0; 0;
   0; 0; 0; 0; 0; 0; 0; 0; 0; 0; 0; 0; 0; 0; 0; 0; 0; 0; 0; 0; 0; 0; 0; 0; 0; 0; 0; 0; 0; 0; 0; 0; 0; 0; 0; 0; 0; 0; 0; 0; 127; 0; 0; 0; 0; 0;
   0; 0; 0; 0; 0; 0; 0; 0; 240; 7; 0; 0; 0; 0; 0; 0; 0; 0; 0; 0; 0; 0; 0; 0; 0; 0; 0; 0; 0; 0; 0; 0].

Definition wide_table : list Z :=
  [16; 16; 16; 16; 16; 16; 16; 16; 16; 16; 16; 16; 16; 16; 16; 16; 16; 18; 16; 16; 16; 16; 16; 16; 16; 16; 16; 16; 16; 16; 16; 16; 16; 16; 16;
   19; 16; 20; 21; 22; 16; 16; 16; 23; 16; 16; 24; 25; 26; 27; 28; 17; 17; 17; 17; 17; 17; 17; 17; 17; 17; 17; 17; 17; 17; 17; 17; 17; 17; 17;
   17; 17; 17; 17; 17; 17; 17; 29; 17; 17; 17; 17; 17; 17; 17; 17; 17; 17; 17; 17; 17; 17; 17; 17; 17; 17; 17; 17; 17; 17; 17; 17; 17; 17; 17;
   17; 17; 17; 17; 17; 17; 17; 17; 17; 17; 17; 17; 17; 17; 17; 17; 17; 17; 17; 17; 17; 17; 17; 17; 17; 17; 17; 17; 17; 17; 17; 17; 17; 17; 17;
   17; 17; 17; 17; 17; 17; 17; 17; 17; 17; 17; 17; 17; 17; 17; 17; 17; 17; 17; 17; 17; 17; 17; 17; 30; 16; 16; 16; 16; 31; 16; 16; 17; 17; 17;
   17; 17; 17; 17; 17; 17; 17; 17; 17; 17; 17; 17; 17; 17; 17; 17; 17; 17; 17; 17; 17; 17; 17; 17; 17; 17; 17; 17; 17; 17; 17; 17; 17; 17; 17;
   17; 17; 17; 17; 17; 32; 16; 16; 16; 16; 16; 16; 16; 16; 16; 16; 16; 16; 16; 16; 16; 16; 16; 16; 16; 16; 16; 16; 16; 16; 16; 16; 16; 16; 16;
   16; 16; 16; 16; 17; 17; 16; 16; 16; 33; 34; 16; 16; 16; 16; 16; 16; 16; 16; 16; 16; 16; 16; 16; 16; 16; 16; 16; 16; 16; 16; 16; 16; 16; 16;
   16; 16; 16; 16; 16; 16; 16; 16; 16; 16; 16; 16; 16; 16; 16; 16; 16; 16; 16; 16; 16; 16; 16; 16; 16; 16; 16; 16; 16; 16; 16; 16; 16; 16; 16;
   16; 16; 16; 16; 16; 16; 16; 16; 16; 16; 16; 16; 16; 16; 16; 16; 16; 16; 16; 16; 16; 16; 16; 16; 16; 16; 16; 16; 16; 16; 16; 16; 16; 16; 16;
   16; 16; 16; 16; 16; 16; 16; 16; 16; 16; 16; 16; 16; 16; 16; 16; 16; 35; 17; 17; 17; 17; 17; 17; 17; 17; 17; 17; 17; 17; 17; 17; 17; 17; 17;
   17; 17; 17; 17; 17; 17; 36; 17; 17; 37; 16; 16; 16; 16; 16; 16; 16; 16; 16; 16; 16; 16; 16; 16; 16; 16; 16; 16; 16; 16; 16; 16; 16; 16; 16;
   16; 16; 16; 16; 16; 16; 16; 16; 16; 16; 16; 16; 17; 38; 39; 16; 16; 16; 16; 16; 16; 16; 16; 16; 16; 16; 16; 16; 16; 16; 16; 16; 16; 16; 16;
   16; 16; 16; 16; 16; 16; 16; 16; 16; 16; 16; 16; 16; 16; 16; 16; 16; 16; 16; 16; 16; 16; 16; 16; 16; 16; 16; 16; 16; 16; 16; 16; 16; 16; 16;
   16; 16; 16; 16; 16; 16; 40; 41; 42; 43; 44; 45; 46; 16; 16; 47; 16; 16; 16; 16; 16; 16; 0; 0; 0; 0; 0; 0; 0; 0; 0; 0; 0; 0; 0; 0; 0; 0; 0;
   0; 0; 0; 0; 0; 0; 0; 0; 0; 0; 0; 0; 0; 0; 0; 255; 255; 255; 255; 255; 255; 255; 255; 255; 255; 255; 255; 255; 255; 255; 255; 255; 255; 255;
   255; 255; 255; 255; 255; 255; 255; 255; 255; 255; 255; 255; 255; 255; 255; 255; 255; 255; 255; 255; 255; 255; 255; 255; 255; 0; 0; 0; 0; 0;
   0; 0; 0; 0; 0; 0; 0; 0; 0; 0; 0; 0; 0; 0; 0; 0; 0; 0; 12; 0; 6; 0; 0; 0; 0; 0; 0; 0; 0; 0; 0; 0; 0; 0; 0; 0; 0; 0; 0; 0; 0; 0; 0; 0; 30; 9;
   0; 0; 0; 0; 0; 0; 0; 0; 0; 0; 0; 0; 0; 0; 0; 0; 0; 0; 0; 0; 0; 0; 0; 0; 0; 0; 0; 0; 0; 0; 0; 0; 96; 0; 0; 48; 0; 0; 0; 0; 0; 0; 255; 15; 0;
   0; 0; 0; 128; 0; 0; 8; 0; 2; 12; 0; 96; 48; 64; 16; 0; 0; 4; 44; 36; 32; 12; 0; 0; 0; 1; 0; 0; 0; 80; 184; 0; 0; 0; 0; 0; 0; 0; 224; 0; 0;
   0; 1; 128; 0; 0; 0; 0; 0; 0; 0; 0; 0; 0; 0; 24; 0; 0; 0; 0; 0; 0; 33; 0; 0; 0; 0; 0; 0; 0; 0; 0; 0; 0; 0; 0; 0; 0; 0; 0; 0; 0; 0; 0; 0; 0;
   0; 0; 0; 0; 0; 0; 0; 0; 0; 0; 0; 0; 0; 0; 255; 255; 255; 251; 255; 255; 255; 255; 255; 255; 255; 255; 255; 255; 15; 0; 255; 255; 255; 255;
   255; 255; 255; 255; 255; 255; 255; 255; 255; 255; 255; 255; 255; 255; 255; 255; 255; 255; 255; 255; 255; 255; 63; 0; 0; 0; 255; 15; 255;
   255; 255; 255; 255; 255; 255; 127; 254; 255; 255; 255; 255; 255; 255; 255; 255; 255; 127; 254; 255; 255; 255; 255; 255; 255; 255; 255; 255;
   255; 255; 255; 224; 255; 255; 255; 255; 127; 254; 255; 255; 255; 255; 255; 255; 255; 255; 255; 255; 127; 255; 255; 255; 255; 255; 7; 255;
   255; 255; 255; 15; 0; 255; 255; 255; 255; 255; 127; 255; 255; 255; 255; 255; 0; 255; 255; 255; 255; 255; 255; 255; 255; 255; 255; 255; 255;
   255; 255; 255; 255; 255; 255; 255; 255; 255; 127; 255; 255; 255; 255; 255; 255; 255; 255; 255; 255; 255; 255; 255; 255; 255; 255; 255; 255;
   255; 255; 255; 255; 255; 255; 0; 0; 0; 0; 0; 0; 0; 0; 255; 255; 255; 255; 255; 255; 255; 255; 255; 255; 255; 255; 255; 255; 255; 255; 255;
   31; 255; 255; 255; 255; 255; 255; 127; 0; 0; 0; 0; 0; 0; 0; 0; 0; 0; 0; 0; 0; 0; 0; 0; 0; 0; 0; 255; 255; 255; 31; 0; 0; 0; 0; 0; 0; 0; 0;
   0; 0; 0; 0; 0; 0; 0; 0; 255; 255; 255; 255; 255; 255; 255; 255; 255; 255; 255; 255; 255; 255; 255; 255; 255; 255; 255; 255; 15; 0; 0; 0; 0;
   0; 0; 0; 0; 0; 0; 0; 0; 0; 255; 3; 0; 0; 255; 255; 255; 255; 247; 255; 127; 15; 0; 0; 0; 0; 0; 0; 0; 0; 0; 0; 0; 0; 0; 0; 0; 0; 0; 0; 254;
   255; 255; 255; 255; 255; 255; 255; 255; 255; 255; 255; 1; 0; 0; 0; 0; 0; 0; 0; 0; 0; 0; 0; 0; 0; 0; 0; 127; 0; 0; 0; 0; 0; 0; 0; 0; 0; 0; 0;
   0; 0; 0; 0; 0; 0; 0; 0; 0; 0; 0; 0; 0; 0; 0; 0; 0; 0; 0; 0; 3; 0; 0; 0; 255; 255; 255; 255; 255; 255; 255; 255; 255; 255; 255; 255; 255;
   255; 255; 255; 255; 255; 255; 255; 255; 255; 255; 255; 255; 255; 255; 255; 255; 31; 0; 0; 255; 255; 255; 255; 255; 255; 255; 255; 255; 255;
   255; 255; 255; 255; 255; 255; 255; 255; 255; 255; 255; 255; 255; 255; 255; 255; 255; 255; 255; 255; 7; 0; 255; 255; 255; 127; 0; 0; 0; 0; 0;
   0; 0; 0; 0; 0; 255; 255; 255; 255; 255; 255; 255; 255; 255; 255; 255; 255; 255; 255; 255; 255; 255; 255; 255; 255; 255; 255; 255; 255; 255;
   255; 255; 255; 255; 255; 255; 255; 255; 255; 255; 255; 255; 255; 255; 255; 255; 255; 255; 255; 255; 255; 255; 255; 255; 15; 16; 0; 0; 0; 0;
   0; 0; 0; 0; 0; 0; 0; 0; 0; 0; 0; 0; 0; 0; 0; 0; 0; 0; 0; 0; 128; 0; 0; 0; 0; 0; 0; 0; 0; 0; 0; 0; 0; 0; 0; 0; 0; 0; 0; 0; 0; 0; 0; 0; 64;
   254; 7; 0; 0; 0; 0; 0; 0; 0; 0; 0; 0; 0; 0; 7; 0; 255; 255; 255; 255; 255; 15; 255; 1; 3; 0; 63; 0; 0; 0; 0; 0; 0; 0; 0; 0; 0; 0; 0; 0; 0;
   0; 0; 0; 0; 0; 255; 255; 255; 255; 1; 224; 191; 255; 255; 255; 255; 255; 255; 255; 255; 223; 255; 255; 15; 0; 255; 255; 255; 255; 255; 135;
   15; 0; 255; 255; 17; 255; 255; 255; 255; 255; 255; 255; 255; 127; 253; 255; 255; 255; 255; 255; 255; 255; 255; 255; 255; 255; 255; 255; 255;
   255; 255; 255; 255; 255; 255; 255; 255; 159; 255; 255; 255; 255; 255; 255; 255; 63; 0; 120; 255; 255; 255; 0; 0; 4; 0; 0; 96; 0; 16; 0; 0;
   0; 0; 0; 0; 0; 0; 0; 0; 248; 255; 255; 255; 255; 255; 255; 255; 255; 255; 255; 0; 0; 0; 0; 0; 0; 255; 255; 255; 255; 255; 255; 255; 255; 63;
   16; 7; 0; 0; 24; 240; 1; 0; 0; 255; 255; 255; 255; 255; 127; 255; 31; 255; 255; 255; 15; 0; 0; 255; 255; 255; 0; 0; 0; 0; 0; 1; 0; 255; 255;
   127; 0; 0; 0].

(** [{ upper, lower, len }]: [lower] is a [signed char], [len] an [unsigned char]. *)
Definition CASEMAP (u1 u2 l : Z) : Z * Z * Z := (u1, s8 (l - u1), u8 (u2 - u1 + 1)).
Definition CASELACE (u1 u2 : Z) : Z * Z * Z := CASEMAP u1 u2 (u1 + 1).

Definition casemaps : list (Z * Z * Z) :=
  [CASEMAP 0xc0 0xde 0xe0; CASELACE 0x100 0x12e; CASELACE 0x132 0x136; CASELACE 0x139 0x147;
   CASELACE 0x14a 0x176; CASELACE 0x179 0x17d; CASELACE 0x370 0x372; CASEMAP 0x391 0x3a1 0x3b1;
   CASEMAP 0x3a3 0x3ab 0x3c3; CASEMAP 0x400 0x40f 0x450; CASEMAP 0x410 0x42f 0x430; CASELACE 0x460 0x480;
   CASELACE 0x48a 0x4be; CASELACE 0x4c1 0x4cd; CASELACE 0x4d0 0x50e; CASELACE 0x514 0x52e;
   CASEMAP 0x531 0x556 0x561; CASELACE 0x1a0 0x1a4; CASELACE 0x1b3 0x1b5; CASELACE 0x1cd 0x1db;
   CASELACE 0x1de 0x1ee; CASELACE 0x1f8 0x21e; CASELACE 0x222 0x232; CASELACE 0x3d8 0x3ee;
   CASELACE 0x1e00 0x1e94; CASELACE 0x1ea0 0x1efe; CASEMAP 0x1f08 0x1f0f 0x1f00; CASEMAP 0x1f18 0x1f1d 0x1f10;
   CASEMAP 0x1f28 0x1f2f 0x1f20; CASEMAP 0x1f38 0x1f3f 0x1f30; CASEMAP 0x1f48 0x1f4d 0x1f40;
   CASEMAP 0x1f68 0x1f6f 0x1f60; CASEMAP 0x1f88 0x1f8f 0x1f80; CASEMAP 0x1f98 0x1f9f 0x1f90;
   CASEMAP 0x1fa8 0x1faf 0x1fa0; CASEMAP 0x1fb8 0x1fb9 0x1fb0; CASEMAP 0x1fba 0x1fbb 0x1f70;
   CASEMAP 0x1fc8 0x1fcb 0x1f72; CASEMAP 0x1fd8 0x1fd9 0x1fd0; CASEMAP 0x1fda 0x1fdb 0x1f76;
   CASEMAP 0x1fe8 0x1fe9 0x1fe0; CASEMAP 0x1fea 0x1feb 0x1f7a; CASEMAP 0x1ff8 0x1ff9 0x1f78;
   CASEMAP 0x1ffa 0x1ffb 0x1f7c; CASEMAP 0x13f0 0x13f5 0x13f8; CASELACE 0xa698 0xa69a; CASELACE 0xa796 0xa79e;
   CASELACE 0x246 0x24e; CASELACE 0x510 0x512; CASEMAP 0x2160 0x216f 0x2170; CASEMAP 0x2c00 0x2c2e 0x2c30;
   CASELACE 0x2c67 0x2c6b; CASELACE 0x2c80 0x2ce2; CASELACE 0x2ceb 0x2ced; CASELACE 0xa640 0xa66c;
   CASELACE 0xa680 0xa696; CASELACE 0xa722 0xa72e; CASELACE 0xa732 0xa76e; CASELACE 0xa779 0xa77b;
   CASELACE 0xa77e 0xa786; CASELACE 0xa790 0xa792; CASELACE 0xa7a0 0xa7a8; CASELACE 0xa7b4 0xa7b6;
   CASEMAP 0xff21 0xff3a 0xff41].

Definition pairs : list (Z * Z) :=
  [(0x49, 0x131); (0x53, 0x17f); (0x130, 0x69); (0x178, 0xff); (0x181, 0x253); (0x182, 0x183); (0x184, 0x185);
   (0x186, 0x254); (0x187, 0x188); (0x189, 0x256); (0x18a, 0x257); (0x18b, 0x18c); (0x18e, 0x1dd);
   (0x18f, 0x259); (0x190, 0x25b); (0x191, 0x192); (0x193, 0x260); (0x194, 0x263); (0x196, 0x269);
   (0x197, 0x268); (0x198, 0x199); (0x19c, 0x26f); (0x19d, 0x272); (0x19f, 0x275); (0x1a6, 0x280);
   (0x1a7, 0x1a8); (0x1a9, 0x283); (0x1ac, 0x1ad); (0x1ae, 0x288); (0x1af, 0x1b0); (0x1b1, 0x28a);
   (0x1b2, 0x28b); (0x1b7, 0x292); (0x1b8, 0x1b9); (0x1bc, 0x1bd); (0x1c4, 0x1c6); (0x1c4, 0x1c5);
   (0x1c5, 0x1c6); (0x1c7, 0x1c9); (0x1c7, 0x1c8); (0x1c8, 0x1c9); (0x1ca, 0x1cc); (0x1ca, 0x1cb);
   (0x1cb, 0x1cc); (0x1f1, 0x1f3); (0x1f1, 0x1f2); (0x1f2, 0x1f3); (0x1f4, 0x1f5); (0x1f6, 0x195);
   (0x1f7, 0x1bf); (0x220, 0x19e); (0x386, 0x3ac); (0x388, 0x3ad); (0x389, 0x3ae); (0x38a, 0x3af);
   (0x38c, 0x3cc); (0x38e, 0x3cd); (0x38f, 0x3ce); (0x399, 0x345); (0x399, 0x1fbe); (0x3a3, 0x3c2);
   (0x3f7, 0x3f8); (0x3fa, 0x3fb); (0x1e60, 0x1e9b); (0x1e9e, 0xdf); (0x1f59, 0x1f51); (0x1f5b, 0x1f53);
   (0x1f5d, 0x1f55); (0x1f5f, 0x1f57); (0x1fbc, 0x1fb3); (0x1fcc, 0x1fc3); (0x1fec, 0x1fe5); (0x1ffc, 0x1ff3);
   (0x23a, 0x2c65); (0x23b, 0x23c); (0x23d, 0x19a); (0x23e, 0x2c66); (0x241, 0x242); (0x243, 0x180);
   (0x244, 0x289); (0x245, 0x28c); (0x3f4, 0x3b8); (0x3f9, 0x3f2); (0x3fd, 0x37b); (0x3fe, 0x37c);
   (0x3ff, 0x37d); (0x4c0, 0x4cf); (0x2126, 0x3c9); (0x212a, 0x6b); (0x212b, 0xe5); (0x2132, 0x214e);
   (0x2183, 0x2184); (0x2c60, 0x2c61); (0x2c62, 0x26b); (0x2c63, 0x1d7d); (0x2c64, 0x27d); (0x2c6d, 0x251);
   (0x2c6e, 0x271); (0x2c6f, 0x250); (0x2c70, 0x252); (0x2c72, 0x2c73); (0x2c75, 0x2c76); (0x2c7e, 0x23f);
   (0x2c7f, 0x240); (0x2cf2, 0x2cf3); (0xa77d, 0x1d79); (0xa78b, 0xa78c); (0xa78d, 0x265); (0xa7aa, 0x266);
   (0x10c7, 0x2d27); (0x10cd, 0x2d2d); (0x376, 0x377); (0x39c, 0xb5); (0x392, 0x3d0); (0x398, 0x3d1);
   (0x3a6, 0x3d5); (0x3a0, 0x3d6); (0x39a, 0x3f0); (0x3a1, 0x3f1); (0x395, 0x3f5); (0x3cf, 0x3d7);
   (0xa7ab, 0x25c); (0xa7ac, 0x261); (0xa7ad, 0x26c); (0xa7ae, 0x26a); (0xa7b0, 0x29e); (0xa7b1, 0x287);
   (0xa7b2, 0x29d); (0xa7b3, 0xab53); (0x412, 0x1c80); (0x414, 0x1c81); (0x41e, 0x1c82); (0x421, 0x1c83);
   (0x422, 0x1c84); (0x422, 0x1c85); (0x42a, 0x1c86); (0x462, 0x1c87); (0xa64a, 0x1c88)].
