(* ===== verification/Wctype.v ===== *)
(** Character classes and case: src/musl-1.1.19/src/ctype.  The functions on bytes
    (isalpha.c and the like), on wide characters (iswalpha.c and the like, iswctype.c),
    the case maps (toupper.c, tolower.c, towctrans.c) and the width of characters
    (wcwidth.c, wcswidth.c).  A class is a [bool], the truth of the [int] of the code. *)
From Stdlib Require Import Strings.String.
From S2P Require Import Prelude CStr WctypeTables.
#[local] Open Scope c_scope.

(** ** Bytes *)

Definition isalpha (c : Z) : bool := u32 ((u32 c .| 32) - 97) <? 26.
Definition islower (c : Z) : bool := u32 (u32 c - 97) <? 26.
Definition isupper (c : Z) : bool := u32 (u32 c - 65) <? 26.
Definition isalnum (c : Z) : bool := isalpha c || isdigit c.
Definition isblank (c : Z) : bool := (c =? 32) || (c =? 9).
Definition iscntrl (c : Z) : bool := (u32 c <? 0x20) || (c =? 0x7f).
Definition isgraph (c : Z) : bool := u32 (u32 c - 0x21) <? 0x5e.
Definition isprint (c : Z) : bool := u32 (u32 c - 0x20) <? 0x5f.
Definition ispunct (c : Z) : bool := isgraph c && negb (isalnum c).
Definition isxdigit (c : Z) : bool := isdigit c || (u32 ((u32 c .| 32) - 97) <? 6).
Definition isascii (c : Z) : bool := (c & Z.lnot 0x7f) =? 0.
Definition toascii (c : Z) : Z := c & 0x7f.
Definition toupper (c : Z) : Z := if islower c then c & 0x5f else c.
Definition tolower (c : Z) : Z := if isupper c then c .| 32 else c.

(** ** Wide characters *)

(** [table[table[wc>>8]*32+((wc&255)>>3)]>>(wc&7))&1]; [None] outside the table *)
Definition lookup_bit (table : list Z) (wc : Z) : option bool :=
  row ← table !! Z.to_nat (wc >> 8);
  b ← table !! Z.to_nat (row * 32 + ((wc & 255) >> 3));
  Some (negb ((b >> (wc & 7)) & 1 =? 0)).

Definition bit (table : list Z) (wc : Z) : bool := match lookup_bit table wc with Some b => b | None => false end.

Definition iswalpha (wc : Z) : bool := if wc <? 0x20000 then bit alpha_table wc else wc <? 0x2fffe.
Definition iswpunct (wc : Z) : bool := if wc <? 0x20000 then bit punct_table wc else false.
Definition iswblank (wc : Z) : bool := isblank wc.
Definition iswcntrl (wc : Z) : bool := (wc <? 32) || (u32 (wc - 0x7f) <? 33) || (u32 (wc - 0x2028) <? 2) || (u32 (wc - 0xfff9) <? 3).
Definition iswdigit (wc : Z) : bool := u32 (wc - 48) <? 10.
Definition iswxdigit (wc : Z) : bool := (u32 (wc - 48) <? 10) || (u32 ((wc .| 32) - 97) <? 6).
Definition iswalnum (wc : Z) : bool := iswdigit wc || iswalpha wc.

Definition spaces : list Z :=
  [32; 9; 10; 13; 11; 12; 0x85; 0x2000; 0x2001; 0x2002; 0x2003; 0x2004; 0x2005; 0x2006; 0x2008; 0x2009; 0x200a; 0x2028; 0x2029; 0x205f; 0x3000].
Definition iswspace (wc : Z) : bool := negb (wc =? 0) && existsb (Z.eqb wc) spaces.

Definition iswprint (wc : Z) : bool :=
  if wc <? 0xff then (u32 (wc + 1) & 0x7f) >=? 0x21
  else if (wc <? 0x2028) || (u32 (wc - 0x202a) <? 0xd800 - 0x202a) || (u32 (wc - 0xe000) <? 0xfff9 - 0xe000) then true
  else if (u32 (wc - 0xfffc) >? 0x10ffff - 0xfffc) || ((wc & 0xfffe) =? 0xfffe) then false
  else true.
Definition iswgraph (wc : Z) : bool := negb (iswspace wc) && iswprint wc.

(** *** Case *)
Fixpoint search_maps (maps : list (Z * Z * Z)) (wc lower : Z) : option Z :=
  match maps with
  | [] => None
  | (up, lo, len) :: maps =>
      let base := up + ((lower - 1) & lo) in
      if u32 (wc - base) <? len then
        Some (if lo =? 1 then wc + lower - ((wc - up) & 1) else wc + (2 * lower - 1) * lo)
      else search_maps maps wc lower
  end.

Fixpoint search_pairs (ps : list (Z * Z)) (wc lower : Z) : option Z :=
  match ps with
  | [] => None
  | (u, l) :: ps =>
      if (if lower =? 1 then u else l) =? wc then Some (if lower =? 1 then l else u) else search_pairs ps wc lower
  end.

Definition __towcase (wc lower : Z) : Z :=
  if negb (iswalpha wc) || (u32 (wc - 0x0600) <=? 0x0fff - 0x0600) || (u32 (wc - 0x2e00) <=? 0xa63f - 0x2e00)
     || (u32 (wc - 0xa800) <=? 0xab52 - 0xa800) || (u32 (wc - 0xabc0) <=? 0xfeff - 0xabc0) then wc
  else if negb (lower =? 0) && (u32 (wc - 0x10a0) <? 0x2e) then
    if (wc >? 0x10c5) && negb (wc =? 0x10c7) && negb (wc =? 0x10cd) then wc else wc + 0x2d00 - 0x10a0
  else if (lower =? 0) && (u32 (wc - 0x2d00) <? 0x26) then
    if (wc >? 0x2d25) && negb (wc =? 0x2d27) && negb (wc =? 0x2d2d) then wc else wc + 0x10a0 - 0x2d00
  else if negb (lower =? 0) && (u32 (wc - 0x13a0) <? 0x50) then wc + 0xab70 - 0x13a0
  else if (lower =? 0) && (u32 (wc - 0xab70) <? 0x50) then wc + 0x13a0 - 0xab70
  else match search_maps casemaps wc lower with
  | Some r => r
  | None => match search_pairs pairs wc lower with
  | Some r => r
  | None =>
    if u32 (wc - (0x10428 - 0x28 * lower)) <? 0x28 then wc - 0x28 + 0x50 * lower
    else if u32 (wc - (0x104d8 - 0x28 * lower)) <? 0x24 then wc - 0x28 + 0x50 * lower
    else if u32 (wc - (0x10cc0 - 0x40 * lower)) <? 0x33 then wc - 0x40 + 0x80 * lower
    else if u32 (wc - (0x118c0 - 0x20 * lower)) <? 0x20 then wc - 0x20 + 0x40 * lower
    else if u32 (wc - (0x1e922 - 0x22 * lower)) <? 0x22 then wc - 0x22 + 0x44 * lower
    else wc
  end end.

Definition towupper (wc : Z) : Z := if wc <? 128 then toupper wc else __towcase wc 0.
Definition towlower (wc : Z) : Z := if wc <? 128 then tolower wc else __towcase wc 1.
Definition iswlower (wc : Z) : bool := negb (towupper wc =? wc).
Definition iswupper (wc : Z) : bool := negb (towlower wc =? wc).

Definition wctrans (class : list Z) : Z :=
  if strcmp class (str "toupper"%string) =? 0 then 1 else if strcmp class (str "tolower"%string) =? 0 then 2 else 0.
Definition towctrans (wc trans : Z) : Z := if trans =? 1 then towupper wc else if trans =? 2 then towlower wc else wc.

(** *** Classes by name *)
Definition class_names : list (list Z) :=
  [str "alnum"%string; str "alpha"%string; str "blank"%string; str "cntrl"%string; str "digit"%string; str "graph"%string; str "lower"%string; str "print"%string; str "punct"%string; str "space"%string; str "upper"%string; str "xdigit"%string].

Fixpoint wctype_loop (names : list (list Z)) (i : Z) (s : list Z) : Z :=
  match names with
  | [] => 0
  | p :: names => if (hd 0 s =? hd 0 p) && (strcmp s p =? 0) then i else wctype_loop names (i + 1) s
  end.
Definition wctype (s : list Z) : Z := wctype_loop class_names 1 s.

Definition iswctype (wc type : Z) : bool :=
  match type with
  | 1 => iswalnum wc | 2 => iswalpha wc | 3 => iswblank wc | 4 => iswcntrl wc | 5 => iswdigit wc | 6 => iswgraph wc
  | 7 => iswlower wc | 8 => iswprint wc | 9 => iswpunct wc | 10 => iswspace wc | 11 => iswupper wc | 12 => iswxdigit wc
  | _ => false
  end.

(** *** Width *)

(** [wc] is a [wchar_t], an [int]; comparisons with an unsigned constant convert it. *)
Definition wcwidth (wc : Z) : Z :=
  if u32 wc <? 0xff then if ((wc + 1) & 0x7f) >=? 0x21 then 1 else if negb (wc =? 0) then -1 else 0
  else if (u32 wc & 0xfffeffff) <? 0xfffe then
    if bit nonspacing_table wc then 0 else if bit wide_table wc then 2 else 1
  else if (wc & 0xfffe) =? 0xfffe then -1
  else if u32 (wc - 0x20000) <? 0x20000 then 2
  else if (wc =? 0xe0001) || (u32 (wc - 0xe0020) <? 0x5f) || (wc - 0xe0100 <? 0xef) then 0
  else 1.

Fixpoint wcswidth_loop (wcs : list Z) (n : nat) (l : Z) : Z :=
  match n, wcs with
  | S n, wc :: wcs => let k := wcwidth wc in if k >=? 0 then wcswidth_loop wcs n (l + k) else k
  | _, _ => l
  end.
Definition wcswidth (wcs : list Z) (n : nat) : Z := wcswidth_loop wcs n 0.

(** ** The tables *)

(** Every row that the first level names lies inside the table. *)
Definition in_table (table : list Z) : bool :=
  (512 <=? Z.of_nat (length table)) && forallb (fun r => (0 <=? r) && (r * 32 + 32 <=? Z.of_nat (length table))) (take 512 table).

Lemma lookup_bit_total table wc : in_table table = true -> 0 <= wc < 0x20000 -> is_Some (lookup_bit table wc).
Proof.
  intros [Hl Hr]%andb_true_iff Hwc. rewrite forallb_forall in Hr. unfold lookup_bit.
  rewrite (Z.shiftr_div_pow2 wc 8) by lia. change (2 ^ 8) with 256. assert (Hi : 0 <= wc / 256 < 512) by (split; [apply Z.div_pos; lia|apply Z.div_lt_upper_bound; lia]).
  destruct (lookup_lt_is_Some_2 table (Z.to_nat (wc / 256))) as [r Er]; [lia|]. rewrite Er. cbn.
  assert (Hin : In r (take 512 table)).
  { apply list_elem_of_In, list_elem_of_lookup. exists (Z.to_nat (wc / 256)). by rewrite lookup_take_lt by lia. }
  apply Hr, andb_true_iff in Hin as [H0 H1].
  change 255 with (Z.ones 8). rewrite Z.land_ones, Z.shiftr_div_pow2 by lia. change (2 ^ 3) with 8.
  pose proof (Z.mod_pos_bound wc 256 ltac:(lia)). assert (0 <= wc mod 2 ^ 8 / 8 < 32) by (change (2 ^ 8) with 256; split; [apply Z.div_pos; lia|apply Z.div_lt_upper_bound; lia]).
  destruct (lookup_lt_is_Some_2 table (Z.to_nat (r * 32 + wc mod 2 ^ 8 / 8))) as [b ->]; [lia|]. done.
Qed.

Lemma tables_ok : in_table alpha_table && in_table punct_table && in_table nonspacing_table && in_table wide_table = true.
Proof. by vm_compute. Qed.

(** ** Properties *)

(** On [EOF] and every byte the classes are those of the C locale, spelled out by
    their members, and the case functions exchange the letters at the same place. *)
Definition upper_letters : list Z := str "ABCDEFGHIJKLMNOPQRSTUVWXYZ"%string.
Definition lower_letters : list Z := str "abcdefghijklmnopqrstuvwxyz"%string.
Definition digits : list Z := str "0123456789"%string.
Definition punctuation : list Z := 34 :: str "!#$%&'()*+,-./:;<=>?@[\]^_`{|}~"%string.

Definition ctype_ok (c : Z) : bool :=
  let among l := bool_decide (c ∈ l) in
  let letter := among upper_letters || among lower_letters in
  let graph := letter || among digits || among punctuation in
  Bool.eqb (isupper c) (among upper_letters) && Bool.eqb (islower c) (among lower_letters) && Bool.eqb (isalpha c) letter &&
  Bool.eqb (isdigit c) (among digits) && Bool.eqb (isalnum c) (letter || among digits) && Bool.eqb (ispunct c) (among punctuation) &&
  Bool.eqb (isgraph c) graph && Bool.eqb (isprint c) (graph || (c =? 32)) && Bool.eqb (isspace c) (among [32; 9; 10; 11; 12; 13]) &&
  Bool.eqb (isblank c) (among [32; 9]) && Bool.eqb (iscntrl c) (((0 <=? c) && (c <? 32)) || (c =? 127)) &&
  Bool.eqb (isxdigit c) (among digits || among (str "abcdefABCDEF"%string)) && Bool.eqb (isascii c) ((0 <=? c) && (c <? 128)) &&
  (toupper c =? match list_find (eq c) lower_letters with Some (i, _) => upper_letters !!! i | None => c end) &&
  (tolower c =? match list_find (eq c) upper_letters with Some (i, _) => lower_letters !!! i | None => c end).

Theorem ctype_correct c : -1 <= c < 256 -> ctype_ok c = true.
Proof.
  intros Hc. pose proof (range_forall 257 (fun i => ctype_ok (i - 1)) ltac:(by vm_compute) (c + 1) ltac:(lia)) as H.
  cbv beta in H. by replace (c + 1 - 1) with c in H by lia.
Qed.

(** What ctype/iswprint.c excludes in its comment *)
Definition control (wc : Z) : Prop := 0 <= wc < 32 \/ 0x7f <= wc < 0xa0 \/ 0x2028 <= wc < 0x202a \/ 0xfff9 <= wc < 0xfffc.
Definition legal (wc : Z) : Prop := 0 <= wc < 0xd800 \/ 0xe000 <= wc < 0x110000 /\ wc mod 0x10000 < 0xfffe.

Lemma land_fffe wc : 0 <= wc -> ((wc & 0xfffe) =? 0xfffe) = (0xfffe <=? wc mod 0x10000).
Proof.
  intros Hwc. apply eq_true_iff_eq. rewrite Z.eqb_eq, Z.leb_le.
  assert (E : wc & 0xfffe = (wc mod 0x10000) - wc mod 2); [|pose proof (Z.mod_pos_bound wc 0x10000); mlia].
  change 0xfffe with (Z.land (Z.ones 16) (Z.lnot 1)). rewrite Z.land_assoc, Z.land_ones by lia. change (2 ^ 16) with 0x10000.
  rewrite <- Z.ldiff_land. change 1 with (Z.ones 1). rewrite Z.ldiff_ones_r, Z.shiftl_mul_pow2, Z.shiftr_div_pow2 by lia. change (2 ^ 1) with 2. mlia.
Qed.

Theorem iswprint_correct wc : 0 <= wc < 2 ^ 32 -> (iswcntrl wc = true <-> control wc) /\ (iswprint wc = true <-> legal wc /\ ~ control wc).
Proof.
  intros Hwc. unfold iswcntrl, iswprint, control, legal. split.
  - unfold u32. rewrite !orb_true_iff, !Z.ltb_lt. mlia.
  - destruct (Z.ltb_spec wc 0xff) as [H|H].
    + rewrite u32_id by lia. change ((wc + 1) & 0x7f) with ((wc + 1) & Z.ones 7). rewrite Z.land_ones, Z.geb_le by lia. change (2 ^ 7) with 128. mlia.
    + rewrite land_fffe by lia. unfold u32. destruct ((wc <? 8232) || _ || _) eqn:E1; [|destruct (_ || (0xfffe <=? _)) eqn:E2].
      * rewrite !orb_true_iff, !Z.ltb_lt in E1. mlia.
      * rewrite !orb_false_iff, !Z.ltb_ge in E1. rewrite orb_true_iff, Z.gtb_lt, Z.leb_le in E2. mlia.
      * rewrite !orb_false_iff, !Z.ltb_ge in E1. rewrite orb_false_iff, Z.gtb_ltb, Z.ltb_ge, Z.leb_gt in E2. mlia.
Qed.

Lemma land_split wc : 0 <= wc < 2 ^ 32 -> wc & 0xfffeffff = wc mod 0x10000 + wc / 0x20000 * 0x20000.
Proof.
  intros Hwc. assert (H1 : wc & Z.ones 16 = wc mod 0x10000) by (by rewrite Z.land_ones by lia).
  assert (H2 : wc & 0xfffe0000 = wc / 0x20000 * 0x20000).
  { change 0xfffe0000 with (Z.land (Z.ones 32) (Z.lnot (Z.ones 17))).
    rewrite Z.land_assoc, Z.land_ones, Z.mod_small, <- Z.ldiff_land, Z.ldiff_ones_r, Z.shiftl_mul_pow2, Z.shiftr_div_pow2 by lia. done. }
  change 0xfffeffff with (Z.lor (Z.ones 16) 0xfffe0000). rewrite Z.land_lor_distr_r, H1, H2.
  apply (lor_add 17); [lia|]. pose proof (Z.mod_pos_bound wc 0x10000). lia.
Qed.

(** C34: The width of every character from U+00FF on.  The last test of the code compares
    signed numbers, and so holds for everything below U+E01EF: all of the
    planes 4 to 13, which it means to give the width 1, have the width 0. *)
Theorem wcwidth_planes wc : 0xff <= wc < 2 ^ 31 ->
  wcwidth wc =
    if 0xfffe <=? wc mod 0x10000 then -1
    else if wc <? 0x20000 then (if bit nonspacing_table wc then 0 else if bit wide_table wc then 2 else 1)
    else if wc <? 0x40000 then 2 else if wc <? 0xe01ef then 0 else 1.
Proof.
  intros Hwc. unfold wcwidth. rewrite (u32_id wc) by lia. rewrite land_split, land_fffe by lia.
  rewrite (proj2 (Z.ltb_ge wc 0xff)) by lia. destruct (Z.ltb_spec wc 0x20000) as [H|H].
  - replace (wc / 0x20000) with 0 by mlia. destruct (Z.leb_spec 0xfffe (wc mod 0x10000)) as [E|E].
    + by rewrite (proj2 (Z.ltb_ge (_ + _) _)) by lia.
    + by rewrite (proj2 (Z.ltb_lt (_ + _) _)) by lia.
  - rewrite (proj2 (Z.ltb_ge (_ + _) _)) by mlia. destruct (0xfffe <=? wc mod 0x10000); [done|].
    destruct (Z.ltb_spec wc 0x40000) as [H4|H4]; [by rewrite (proj2 (Z.ltb_lt (u32 _) _)) by (unfold u32; mlia)|].
    rewrite (proj2 (Z.ltb_ge (u32 _) _)) by (unfold u32; mlia).
    destruct (Z.ltb_spec wc 0xe01ef) as [He|He].
    + rewrite (proj2 (Z.ltb_lt (wc - _) _)) by lia. by rewrite orb_true_r.
    + rewrite (proj2 (Z.ltb_ge (wc - _) _)), (proj2 (Z.ltb_ge (u32 _) _)), (proj2 (Z.eqb_neq wc _)) by (unfold u32; mlia). done.
Qed.

Lemma wcwidth_planes_witness : wcwidth 0x40000 = 0 /\ wcwidth 0xe0200 = 1.
Proof. split; [exact (wcwidth_planes 0x40000 ltac:(lia))|exact (wcwidth_planes 0xe0200 ltac:(lia))]. Defined.

(** *** Case *)

(** What the maps do to a character of a row: they give one of the row's other half, or
    of the same row if it is laced. *)
Definition row_ok (row : Z * Z * Z) : bool :=
  let '(up, lo, len) := row in (1 <? up) && (0 <? up + lo) && (up + lo + 0x100 <? 2 ^ 31) && (up + 0x100 <? 2 ^ 31) && (0 <=? len) && (len <? 0x100).

Lemma search_maps_pos maps wc lower r : forallb row_ok maps = true -> 0 < wc < 2 ^ 31 -> lower = 0 \/ lower = 1 -> search_maps maps wc lower = Some r -> 0 < r < 2 ^ 31.
Proof.
  intros Hm Hwc Hl. induction maps as [|[[up lo] len] maps IH]; cbn [search_maps]; [done|].
  cbn [forallb row_ok] in Hm. rewrite !andb_true_iff in Hm. destruct Hm as [Hr Hm]. specialize (IH Hm).
  destruct (Z.ltb_spec (u32 (wc - (up + ((lower - 1) & lo)))) len) as [Hin|_]; [|done]. intros [= <-].
  pose proof (Z.mod_pos_bound (wc - up) 2). unfold u32 in Hin. change 1 with (Z.ones 1). rewrite Z.land_ones by lia. change (2 ^ 1) with 2. change (Z.ones 1) with 1.
  destruct Hl as [-> | ->]; cbn [Z.sub] in Hin; [rewrite Z.land_m1_l in Hin|change (1 - 1) with 0 in Hin; rewrite Z.land_0_l in Hin]; destruct (Z.eqb_spec lo 1); mlia.
Qed.

Lemma search_pairs_pos ps wc lower r : forallb (fun '(u, l) => (0 <? u) && (u <? 2 ^ 31) && (0 <? l) && (l <? 2 ^ 31)) ps = true -> search_pairs ps wc lower = Some r -> 0 < r < 2 ^ 31.
Proof.
  intros Hp. induction ps as [|[u l] ps IH]; cbn [search_pairs]; [done|]. cbn [forallb] in Hp. rewrite !andb_true_iff in Hp. destruct Hp as [Hr Hp].
  destruct (_ =? wc); [|by apply IH]. intros [= <-]. destruct (lower =? 1); lia.
Qed.

(** No character is mapped to nul. *)
Lemma towcase_pos wc lower : 0 < wc < 2 ^ 31 -> lower = 0 \/ lower = 1 -> 0 < __towcase wc lower < 2 ^ 31.
Proof.
  intros Hwc Hl. unfold __towcase.
  destruct (search_maps casemaps wc lower) eqn:E1; [pose proof (search_maps_pos casemaps wc lower _ ltac:(by vm_compute) Hwc Hl E1)|].
  2: destruct (search_pairs pairs wc lower) eqn:E2; [pose proof (search_pairs_pos pairs wc lower _ ltac:(by vm_compute) E2)|].
  all: unfold u32 in *; destruct Hl as [-> | ->]; cbn [Z.eqb negb andb]; repeat case_match; rewrite ?Z.ltb_lt in *; try done; try lia; mlia.
Qed.

Lemma tocase_pos wc : 0 < wc < 2 ^ 31 -> 0 < towupper wc < 2 ^ 31 /\ 0 < towlower wc < 2 ^ 31.
Proof.
  intros Hwc. unfold towupper, towlower. destruct (Z.ltb_spec wc 128) as [H|H].
  - pose proof (range_forall 128 (fun wc => (wc =? 0) || ((0 <? toupper wc) && (toupper wc <? 128) && (0 <? tolower wc) && (tolower wc <? 128))) ltac:(by vm_compute) wc ltac:(lia)) as Hc. cbv beta in Hc. lia.
  - split; apply towcase_pos; auto.
Qed.

(** *** Classes by name *)
Lemma wctype_loop_spec names i s : cstr s -> Forall cstr names -> NoDup names -> 0 < i ->
  (wctype_loop names i s = 0 /\ s ∉ names) \/ (exists k, names !! k = Some s /\ wctype_loop names i s = i + Z.of_nat k).
Proof.
  intros Hs Hn Hd Hi. revert i Hi. induction Hd as [|p names Hp Hd IH]; intros i Hi; cbn [wctype_loop]; [left; split; [done|set_solver]|].
  apply Forall_cons_1 in Hn as [Hc Hn]. destruct (strcmp s p =? 0) eqn:E.
  - apply Z.eqb_eq, strcmp_eq in E as ->; [|done|done]. rewrite Z.eqb_refl. right. exists O. split; [done|cbn; lia].
  - rewrite andb_false_r. assert (Hne : s <> p) by (intros ->; rewrite (proj2 (Z.eqb_eq _ _)) in E; [done|by apply strcmp_eq]).
    destruct (IH Hn (i + 1) ltac:(lia)) as [[E1 E2]|(k & Hk & E1)]; [left; split; [done|set_solver]|right; exists (S k); split; [done|lia]].
Qed.

(** [wctype] finds the place of the name, counted from 1, and gives 0 for other names. *)
Theorem wctype_correct s : cstr s ->
  (wctype s = 0 /\ s ∉ class_names) \/ (exists k, class_names !! k = Some s /\ wctype s = 1 + Z.of_nat k).
Proof. intros Hs. apply wctype_loop_spec; [done|by apply (bool_decide_unpack _)|by apply (bool_decide_unpack _)|lia]. Qed.
