(* ===== verification/Fnmatch.v ===== *)
(** Pattern matching of file names: src/musl-1.1.19/src/regex/fnmatch.c.

    A pointer is the suffix of the memory that it points to, the nul at the end of
    the string included; a pointer to the end of a region is a distance from
    another.  [mb] is [MB_CUR_MAX] of the locale.  The loops take [fuel]. *)
From S2P Require Import Prelude CStr Utf8 Wctype.
#[local] Open Scope c_scope.

(** A result, an access outside the string, or fuel that is used up. *)
Inductive res (A : Type) := Ok (a : A) | Outside | Timeout.
Arguments Ok {A} a.
Arguments Outside {A}.
Arguments Timeout {A}.

#[export] Instance res_ret : MRet res := @Ok.
#[export] Instance res_bind : MBind res := fun A B f r => match r with Ok a => f a | Outside => Outside | Timeout => Timeout end.

Definition rd (l : list Z) (k : nat) : res Z := match l !! k with Some c => Ok c | None => Outside end.

Definition END : Z := 0.
Definition UNMATCHABLE : Z := -2.
Definition BRACKET : Z := -3.
Definition QUESTION : Z := -4.
Definition STAR : Z := -5.

Definition FNM_PATHNAME : Z := 0x1.
Definition FNM_NOESCAPE : Z := 0x2.
Definition FNM_PERIOD : Z := 0x4.
Definition FNM_LEADING_DIR : Z := 0x8.
Definition FNM_CASEFOLD : Z := 0x10.
Definition FNM_NOMATCH : Z := 1.
Definition SIZE_MAX : Z := 2 ^ 64 - 1.

Definition flag (flags f : Z) : bool := negb (flags & f =? 0).

(** [mbtowc]; a failure, or the number of bytes and the character *)
Definition mbchar (mb : Z) (l : list Z) (n : Z) : res (option (nat * Z)) :=
  match mbtowc mb (Some l) n with
  | None => Outside
  | Some (k, wc) => Ok (if k <? 0 then None else Some (Z.to_nat k, default 0 wc))
  end.

(** The next character of a string of [n] bytes, and its length. *)
Definition str_next (mb : Z) (l : list Z) (n : Z) : res (Z * nat) :=
  if n =? 0 then Ok (0, 0%nat)
  else
    c ← rd l 0;
    if c >=? 128 then
      r ← mbchar mb l n;
      match r with None => Ok (-1, 1%nat) | Some (k, wc) => Ok (wc, k) end
    else Ok (c, 1%nat).

(** [while (k<m && pat[k] && (pat[k-1]!=z || pat[k]!=']')) k++;] *)
Fixpoint skip_class (fuel : nat) (l : list Z) (m z : Z) (k : nat) : res nat :=
  match fuel with
  | O => Timeout
  | S fuel =>
      if Z.of_nat k <? m then
        c ← rd l k;
        if c =? 0 then Ok k
        else
          b ← rd l (k - 1);
          if negb (b =? z) || negb (c =? 93) then skip_class fuel l m z (k + 1) else Ok k
      else Ok k
  end.

Definition opens_class (c d : Z) : bool := (c =? 91) && ((d =? 58) || (d =? 46) || (d =? 61)).

(** The loop that looks for the end of a bracket. *)
Fixpoint scan (fuel : nat) (l : list Z) (m : Z) (k : nat) : res nat :=
  match fuel with
  | O => Timeout
  | S fuel' =>
      if Z.of_nat k <? m then
        c ← rd l k;
        if (c =? 0) || (c =? 93) then Ok k
        else
          d ← (if Z.of_nat (k + 1) <? m then rd l (k + 1) else Ok 0);
          if opens_class c d then
            let k := (k + 2)%nat in
            e ← (if Z.of_nat k <? m then rd l k else Ok 0);
            let k := if e =? 0 then k else (k + 1)%nat in
            k ← skip_class fuel' l m d k;
            if Z.of_nat k =? m then Ok k
            else
              c ← rd l k;
              if c =? 0 then Ok k else scan fuel' l m (k + 1)
          else scan fuel' l m (k + 1)
      else Ok k
  end.

(** The next character or special code of a pattern of [m] bytes, and its length. *)
Definition pat_next (fuel : nat) (mb : Z) (l : list Z) (m flags : Z) : res (Z * nat) :=
  let escaped l esc c :=
    if c >=? 128 then
      r ← mbchar mb l m;
      match r with None => Ok (UNMATCHABLE, 0%nat) | Some (k, wc) => Ok (wc, (k + esc)%nat) end
    else Ok (c, (1 + esc)%nat) in
  if m =? 0 then Ok (END, 0%nat)
  else
    c ← rd l 0;
    if c =? 0 then Ok (END, 0%nat)
    else
      c1 ← (if c =? 92 then rd l 1 else Ok 0);
      if negb (c1 =? 0) && negb (flag flags FNM_NOESCAPE) then escaped (tl l) 1%nat c1
      else if c =? 91 then
        c1 ← (if 1 <? m then rd l 1 else Ok 0);
        let k := if (c1 =? 94) || (c1 =? 33) then 2%nat else 1%nat in
        c2 ← (if Z.of_nat k <? m then rd l k else Ok 0);
        let k := if c2 =? 93 then (k + 1)%nat else k in
        k ← scan fuel l m k;
        if Z.of_nat k =? m then Ok (91, 1%nat)
        else
          c ← rd l k;
          if c =? 0 then Ok (91, 1%nat) else Ok (BRACKET, (k + 1)%nat)
      else if c =? 42 then Ok (STAR, 1%nat)
      else if c =? 63 then Ok (QUESTION, 1%nat)
      else escaped l 0%nat c.

Definition casefold (k : Z) : Z :=
  let c := s32 (towupper (u32 k)) in if c =? k then s32 (towlower (u32 k)) else c.

(** [while (p[-1]!=z || p[0]!=']') p++;], [p] at [j] *)
Fixpoint class_end (fuel : nat) (l : list Z) (z : Z) (j : nat) : res nat :=
  match fuel with
  | O => Timeout
  | S fuel =>
      b ← rd l (j - 1);
      if negb (b =? z) then class_end fuel l z (j + 1)
      else c ← rd l j; if negb (c =? 93) then class_end fuel l z (j + 1) else Ok j
  end.

(** The items of a bracket; [wc] is the last character that was one. *)
Fixpoint bracket_loop (fuel : nat) (mb : Z) (p : list Z) (wc k kfold : Z) (inv : bool) : res bool :=
  match fuel with
  | O => Timeout
  | S fuel =>
      c ← rd p 0;
      if c =? 93 then Ok inv
      else
        d ← (if (c =? 45) || (c =? 91) then rd p 1 else Ok 0);
        if (c =? 45) && negb (d =? 93) then
          r ← mbchar mb (tl p) 4;
          match r with
          | None => Ok false
          | Some (l, wc2) =>
              if (wc <=? wc2) && ((u32 (k - wc) <=? wc2 - wc) || (u32 (kfold - wc) <=? wc2 - wc)) then Ok (negb inv)
              else bracket_loop fuel mb (drop l p) wc k kfold inv (* [p += l-1], [p++] *)
          end
        else if opens_class c d then
          j ← class_end fuel p d 3;
          let name := take (j - 3) (drop 2 p) in
          if (d =? 58) && (Z.of_nat j - 3 <? 16) && (iswctype (u32 k) (wctype name) || iswctype (u32 kfold) (wctype name)) then Ok (negb inv)
          else bracket_loop fuel mb (drop (j + 1) p) wc k kfold inv
        else if c <? 128 then
          if (c =? k) || (c =? kfold) then Ok (negb inv) else bracket_loop fuel mb (tl p) c k kfold inv
        else
          r ← mbchar mb p 4;
          match r with
          | None => Ok false
          | Some (l, wc) => if (wc =? k) || (wc =? kfold) then Ok (negb inv) else bracket_loop fuel mb (drop l p) wc k kfold inv
          end
  end.

Definition match_bracket (fuel : nat) (mb : Z) (p : list Z) (k kfold : Z) : res bool :=
  let p := tl p in
  c ← rd p 0;
  let inv := (c =? 94) || (c =? 33) in
  let last := if inv then c else 91 in
  let p := if inv then tl p else p in
  c ← rd p 0;
  if (c =? 93) || (c =? 45) then
    if k =? c then Ok (negb inv) else bracket_loop fuel mb (tl p) c k kfold inv
  else bracket_loop fuel mb p last k kfold inv.

(** What fnmatch_internal and fnmatch test of a character [k] and a code [c] whose
    source is at [p]: whether it does not match. *)
Definition mismatch (fuel : nat) (mb flags : Z) (c : Z) (p : list Z) (k : Z) : res bool :=
  let kfold := if flag flags FNM_CASEFOLD then casefold k else k in
  if c =? BRACKET then b ← match_bracket fuel mb p k kfold; Ok (negb b)
  else Ok (negb (c =? QUESTION) && negb (k =? c) && negb (kfold =? c)).

(** The head of the pattern: a result, or where the first star leaves pattern and string. *)
Fixpoint head_loop (fuel : nat) (mb flags : Z) (pat : list Z) (m : Z) (str : list Z) (n : Z) : res (Z + list Z * Z * list Z * Z) :=
  match fuel with
  | O => Timeout
  | S fuel' =>
      '(c, pinc) ← pat_next fuel mb pat m flags;
      if c =? UNMATCHABLE then Ok (inl FNM_NOMATCH)
      else if c =? STAR then Ok (inr (tl pat, u64 (m - 1), str, n))
      else
        '(k, sinc) ← str_next mb str n;
        if k <=? 0 then Ok (inl (if c =? END then 0 else FNM_NOMATCH))
        else
          b ← mismatch fuel mb flags c pat k;
          if b : bool then Ok (inl FNM_NOMATCH)
          else head_loop fuel' mb flags (drop pinc pat) (u64 (m - Z.of_nat pinc)) (drop sinc str) (u64 (n - Z.of_nat sinc))
  end.

(** [strnlen] *)
Fixpoint strnlen (l : list Z) (n : Z) : res Z :=
  if n =? 0 then Ok 0
  else match l with [] => Outside | c :: l => if c =? 0 then Ok 0 else r ← strnlen l (n - 1); Ok (r + 1) end.

(** The last star: [None] when something cannot match; the place behind it, its distance
    from the end and the number of codes that follow.  [rem] is [endpat-p]. *)
Fixpoint find_tail (fuel : nat) (mb flags : Z) (p : list Z) (rem : Z) (ptail : list Z) (rtail : Z) (cnt : nat) : res (option (list Z * Z * nat)) :=
  match fuel with
  | O => Timeout
  | S fuel' =>
      if rem >? 0 then
        '(c, pinc) ← pat_next fuel mb p (u64 rem) flags;
        if c =? UNMATCHABLE then Ok None
        else if c =? STAR then find_tail fuel' mb flags (drop pinc p) (rem - Z.of_nat pinc) (tl p) (rem - 1) 0
        else find_tail fuel' mb flags (drop pinc p) (rem - Z.of_nat pinc) ptail rtail (cnt + 1)
      else Ok (Some (ptail, rtail, cnt))
  end.

(** [do s--; while ((unsigned char)*s-0x80U<0x40 && s>str);] *)
Fixpoint back_char (str : list Z) (i : nat) : res nat :=
  match i with
  | O => Outside
  | S i => c ← rd str i; if (u32 (c - 0x80) <? 0x40) && negb (i =? 0)%nat then back_char str i else Ok i
  end.

(** Back from [i] over [cnt] characters; where that ends and how many are left. *)
Fixpoint back (mb : Z) (str : list Z) (i cnt : nat) : res (nat * nat) :=
  match cnt with
  | O => Ok (i, O)
  | S cnt' =>
      if (i =? 0)%nat then Ok (i, cnt)
      else
        c ← rd str (i - 1);
        if (c <? 128) || (mb =? 1) then back mb str (i - 1) cnt'
        else i ← back_char str i; back mb str i cnt'
  end.

(** The tails of pattern and string *)
Fixpoint tail_loop (fuel : nat) (mb flags : Z) (p : list Z) (rp : Z) (s : list Z) (rs : Z) : res bool :=
  match fuel with
  | O => Timeout
  | S fuel' =>
      '(c, pinc) ← pat_next fuel mb p (u64 rp) flags;
      '(k, sinc) ← str_next mb s (u64 rs);
      if k <=? 0 then Ok (c =? END)
      else
        b ← mismatch fuel mb flags c p k;
        if b : bool then Ok false
        else tail_loop fuel' mb flags (drop pinc p) (rp - Z.of_nat pinc) (drop sinc s) (rs - Z.of_nat sinc)
  end.

(** One component, tried at one place: no match at all, the place behind the component,
    or no match here. *)
Inductive attempt := Never | Match (p : list Z) (rp : Z) (s : list Z) (rs : Z) | Here.

Fixpoint component (fuel : nat) (mb flags : Z) (p : list Z) (rp : Z) (s : list Z) (rs : Z) : res attempt :=
  match fuel with
  | O => Timeout
  | S fuel' =>
      '(c, pinc) ← pat_next fuel mb p (u64 rp) flags;
      if c =? STAR then Ok (Match (drop pinc p) (rp - Z.of_nat pinc) s rs)
      else
        '(k, sinc) ← str_next mb s (u64 rs);
        if k =? 0 then Ok Never
        else
          b ← mismatch fuel mb flags c p k;
          if b : bool then Ok Here
          else component fuel' mb flags (drop pinc p) (rp - Z.of_nat pinc) (drop sinc s) (rs - Z.of_nat sinc)
  end.

(** [for (str++; str_next(str, endstr-str, &sinc)<0; str++);] *)
Fixpoint skip_invalid (fuel : nat) (mb : Z) (s : list Z) (rs : Z) : res (list Z * Z) :=
  match fuel with
  | O => Timeout
  | S fuel =>
      '(k, _) ← str_next mb (tl s) (u64 (rs - 1));
      if k <? 0 then skip_invalid fuel mb (tl s) (rs - 1) else Ok (tl s, rs - 1)
  end.

(** The components between head and tail *)
Fixpoint sea (fuel : nat) (mb flags : Z) (pat : list Z) (rp : Z) (str : list Z) (rs : Z) : res Z :=
  match fuel with
  | O => Timeout
  | S fuel' =>
      if rp >? 0 then
        a ← component fuel mb flags pat rp str rs;
        match a with
        | Never => Ok FNM_NOMATCH
        | Match pat rp str rs => sea fuel' mb flags pat rp str rs
        | Here =>
            '(k, sinc) ← str_next mb str (u64 rs);
            if k >? 0 then sea fuel' mb flags pat rp (drop sinc str) (rs - Z.of_nat sinc)
            else '(str, rs) ← skip_invalid fuel mb str rs; sea fuel' mb flags pat rp str rs
        end
      else Ok 0
  end.

Definition fnmatch_internal (fuel : nat) (mb : Z) (pat : list Z) (m : Z) (str : list Z) (n : Z) (flags : Z) : res Z :=
  dot ← (if flag flags FNM_PERIOD then
           c ← rd str 0;
           if c =? 46 then d ← rd pat 0; Ok (negb (d =? 46)) else Ok false
         else Ok false);
  if dot : bool then Ok FNM_NOMATCH
  else
    h ← head_loop fuel mb flags pat m str n;
    match h with
    | inl r => Ok r
    | inr (pat, m, str, n) =>
        m ← strnlen pat m;
        t ← find_tail fuel mb flags pat m pat m 0;
        match t with
        | None => Ok FNM_NOMATCH
        | Some (ptail, rtail, tailcnt) =>
            n ← strnlen str n;
            if n <? Z.of_nat tailcnt then Ok FNM_NOMATCH
            else
              '(i, rest) ← back mb str (Z.to_nat n) tailcnt;
              if negb (rest =? 0)%nat then Ok FNM_NOMATCH
              else
                b ← tail_loop fuel mb flags ptail rtail (drop i str) (n - Z.of_nat i);
                if b : bool then sea fuel mb flags pat (m - rtail) str (Z.of_nat i) else Ok FNM_NOMATCH
        end
    end.

(** [for (s=str; *s && *s!='/'; s++);] *)
Fixpoint to_slash (s : list Z) : res nat :=
  match s with [] => Outside | c :: s => if (c =? 0) || (c =? 47) then Ok 0%nat else k ← to_slash s; Ok (S k) end.

(** [for (p=pat; (c=pat_next(p, -1, &inc, flags))!=END && c!='/'; p+=inc);]: the length
    of the component, [c] and [inc]. *)
Fixpoint pat_to_slash (fuel : nat) (mb flags : Z) (p : list Z) (len : nat) : res (nat * Z * nat) :=
  match fuel with
  | O => Timeout
  | S fuel' =>
      '(c, inc) ← pat_next fuel mb p SIZE_MAX flags;
      if (c =? END) || (c =? 47) then Ok (len, c, inc) else pat_to_slash fuel' mb flags (drop inc p) (len + inc)
  end.

Fixpoint pathname_loop (fuel : nat) (mb : Z) (pat str : list Z) (flags : Z) : res Z :=
  match fuel with
  | O => Timeout
  | S fuel' =>
      s ← to_slash str;
      '(p, c, inc) ← pat_to_slash fuel mb flags pat 0;
      d ← rd str s;
      if negb (c =? d) && ((d =? 0) || negb (flag flags FNM_LEADING_DIR)) then Ok FNM_NOMATCH
      else
        r ← fnmatch_internal fuel mb pat (Z.of_nat p) str (Z.of_nat s) flags;
        if negb (r =? 0) then Ok FNM_NOMATCH
        else if c =? 0 then Ok 0
        else pathname_loop fuel' mb (drop (p + inc) pat) (drop (s + 1) str) flags
  end.

(** [for (s=str; *s; s++)]: whether a prefix before a slash matches *)
Fixpoint leading_dir (fuel : nat) (mb : Z) (pat str s : list Z) (len : Z) (flags : Z) : res bool :=
  match s with
  | [] => Outside
  | c :: s =>
      if c =? 0 then Ok false
      else if negb (c =? 47) then leading_dir fuel mb pat str s (len + 1) flags
      else
        r ← fnmatch_internal fuel mb pat SIZE_MAX str len flags;
        if r =? 0 then Ok true else leading_dir fuel mb pat str s (len + 1) flags
  end.

Definition fnmatch (fuel : nat) (mb : Z) (pat str : list Z) (flags : Z) : res Z :=
  if flag flags FNM_PATHNAME then pathname_loop fuel mb pat str flags
  else
    b ← (if flag flags FNM_LEADING_DIR then leading_dir fuel mb pat str str 0 flags else Ok false);
    if b : bool then Ok 0 else fnmatch_internal fuel mb pat SIZE_MAX str SIZE_MAX flags.
