(* ===== verification/FnmatchLex.v ===== *)
(** Characters of strings and codes of patterns, as Fnmatch.v reads them: what
    [str_next] and [pat_next] give at the start of a list of bytes, in terms of
    definitions that know nothing of bounds. *)
From S2P Require Import Prelude CStr Utf8 Wctype Fnmatch.
#[local] Open Scope c_scope.

(** ** Characters *)

(** The character at the start of [l] in a locale: its length and itself. *)
Definition dec (mb : Z) (l : list Z) : option (nat * Z) :=
  match l with
  | [] => None
  | b :: _ =>
      if b <? 128 then Some (1%nat, b)
      else if mb =? 1 then Some (1%nat, CODEUNIT b)
      else match u8dec l with Good k c => Some (k, c) | _ => None end
  end.

Lemma fnm_bytes l : cstr l -> bytes l.
Proof. apply Forall_impl. unfold byte. lia. Qed.

Lemma codeunit_range b : 128 <= b < 256 -> 0xdf80 <= CODEUNIT b <= 0xdfff.
Proof.
  intros Hb. pose proof (byte_forall (fun b => (b <? 128) || ((0xdf80 <=? CODEUNIT b) && (CODEUNIT b <=? 0xdfff))) ltac:(by vm_compute) b ltac:(lia)) as H.
  cbv beta in H. lia.
Qed.

Lemma dec_range mb l k c : cstr l -> dec mb l = Some (k, c) -> (1 <= k <= length l)%nat /\ 0 < c < 2 ^ 31.
Proof.
  intros Hl. destruct l as [|b l]; [done|]. cbn [dec]. pose proof (Forall_cons_1 _ _ _ Hl) as [Hb _]. cbv beta in Hb.
  destruct (Z.ltb_spec b 128) as [H|H]; [intros [= <- <-]; cbn; lia|]. destruct (mb =? 1); [intros [= <- <-]; pose proof (codeunit_range b ltac:(lia)); cbn; lia|].
  destruct (u8dec (b :: l)) as [k' c'| |] eqn:E; [|done..]. intros [= <- <-].
  destruct (u8dec_sound _ _ _ (fnm_bytes _ Hl) E) as (Hs & <- & Ht & Hk & H0).
  assert (Hc : c' <> 0).
  { intros ->. cbn in Ht. injection Ht as Ht. lia. }
  split; [|unfold scalar in Hs; lia]. split; [|done]. unfold enc. repeat case_match; cbn; lia.
Qed.

(** Only the bytes of the character count. *)
Lemma dec_app mb l t k c : cstr l -> cstr t -> dec mb l = Some (k, c) -> dec mb (l ++ t) = Some (k, c).
Proof.
  intros Hl Ht. destruct l as [|b l]; [done|]. cbn [dec app]. destruct (b <? 128); [done|]. destruct (mb =? 1); [done|].
  destruct (u8dec (b :: l)) as [k' c'| |] eqn:E; [|done..]. intros [= -> ->].
  destruct (u8dec_sound _ _ _ (fnm_bytes _ Hl) E) as (Hs & Hk & Ht' & _).
  change (b :: l ++ t) with ((b :: l) ++ t). rewrite <- (take_drop k (b :: l)), Ht', <- app_assoc, u8dec_enc by done. by rewrite Hk.
Qed.

Lemma dec_take mb l n k c : cstr l -> dec mb l = Some (k, c) -> (k <= n)%nat -> dec mb (take n l) = Some (k, c).
Proof.
  intros Hl Hd Hn. pose proof (dec_range mb l k c Hl Hd) as [Hk _]. destruct l as [|b l]; [done|]. destruct n as [|n]; [lia|].
  cbn [take dec] in *. destruct (b <? 128); [done|]. destruct (mb =? 1); [done|].
  destruct (u8dec (b :: l)) as [k' c'| |] eqn:E; [|done..]. injection Hd as -> ->.
  destruct (u8dec_sound _ _ _ (fnm_bytes _ Hl) E) as (Hs & He & Ht & _).
  change (b :: take n l) with (take (S n) (b :: l)). rewrite <- (take_drop k (b :: l)), Ht, take_app_ge, u8dec_enc by (done || lia). by rewrite He.
Qed.

(** *** What [mbtowc] does before a nul *)
Lemma okseq_zero b0 l t : okseq b0 (l ++ 0 :: t) = false.
Proof.
  destruct l as [|b1 l]; cbn [app okseq].
  - replace (second_ok b0 0) with false; [done|]. unfold second_ok, between. by repeat case_match.
  - rewrite forallb_app. cbn [forallb]. rewrite andb_false_r. by rewrite andb_false_r.
Qed.

(** The character is cut off by the nul. *)
Lemma tail_short mb b0 k l n : lead_len b0 = Some k -> mb <> 1 -> 128 <= b0 -> bytes (b0 :: l) -> (length l < k - 1)%nat -> 1 <= n ->
  mbtowc mb (Some (b0 :: l ++ [0])) n = Some (-1, None).
Proof.
  intros Hk Hmb Hb0 [_ Hl]%Forall_cons_1 Hlen Hn. destruct (lead_range b0 k Hk) as (Hr & Hk' & H4).
  assert (Hp : length (take (k - 1) (l ++ [0; 0; 0])) = (k - 1)%nat) by (rewrite length_take, length_app; cbn; lia).
  pose proof (mbtowc_tail b0 k (l ++ [0; 0; 0]) Hk) as Ht. rewrite length_app in Ht. cbn [length] in Ht.
  replace (okseq b0 (take (k - 1) (l ++ [0; 0; 0]))) with false in Ht.
  2: { rewrite take_app_ge by lia. destruct (k - 1 - length l)%nat eqn:E; [lia|]. cbn [take]. by rewrite okseq_zero. }
  specialize (Ht ltac:(apply Forall_app; split; [done|repeat constructor; unfold byte; lia]) ltac:(lia)).
  unfold mbtowc. rewrite (proj2 (Z.eqb_neq n 0)) by lia. cbn [head mbind option_bind]. rewrite (proj2 (Z.ltb_ge b0 128)), (proj2 (Z.eqb_neq mb 1)) by lia.
  replace (u32 (b0 - SA) >? SB - SA) with false by (unfold SA, SB; rewrite u32_id by lia; lia).
  fold (lead_state b0). destruct (if n <? 4 then _ else false); [done|].
  assert (H0 : (OOB (lead_state b0) 0 =? 0) = false).
  { rewrite OOB_lead by (unfold byte; lia). unfold second_ok, between. by repeat case_match. }
  destruct l as [|b1 [|b2 [|b3 l]]]; cbn [app lookup list_lookup mbind option_bind length] in *; cbv zeta in *; [by rewrite H0| | |lia].
  - change (u32 (0 - 0x80) >=? 0x40) with true. cbv iota. destruct (negb _); [done|]. destruct (_ =? 0); [done|done].
  - change (u32 (0 - 0x80) >=? 0x40) with true in *. cbv iota in *. destruct (negb _); [done|]. destruct (_ =? 0); [done|]. destruct (_ >=? 64); [done|]. destruct (_ =? 0); done.
Qed.

(** The character at [l], if it is one and fits into [n] bytes. *)
Definition dec_in (mb : Z) (l : list Z) (n : Z) : option (nat * Z) :=
  match dec mb l with Some (k, c) => if Z.of_nat k <=? n then Some (k, c) else None | None => None end.

Lemma dec_in_dec mb l n k c : dec mb l = Some (k, c) -> Z.of_nat k <= n -> dec_in mb l n = Some (k, c).
Proof. intros Hd Hk. unfold dec_in. rewrite Hd. by rewrite (proj2 (Z.leb_le _ _)). Qed.

Lemma mbchar_spec mb l n : cstr l -> l <> [] -> 1 <= n -> mbchar mb (l ++ [0]) n = Ok (dec_in mb l n).
Proof.
  intros Hl Hne Hn. destruct l as [|b0 l]; [done|]. pose proof (fnm_bytes _ Hl) as Hbs. pose proof (Forall_cons_1 _ _ _ Hl) as [Hb Hl']. cbv beta in Hb.
  unfold mbchar, dec_in. cbn [dec app]. destruct (Z.ltb_spec b0 128) as [H|H].
  { unfold mbtowc. rewrite (proj2 (Z.eqb_neq n 0)) by lia. cbn [head mbind option_bind]. rewrite (proj2 (Z.ltb_lt b0 128)), (proj2 (Z.eqb_neq b0 0)) by lia.
    rewrite (proj2 (Z.leb_le (Z.of_nat 1) n)) by lia. done. }
  destruct (Z.eqb_spec mb 1) as [->|Hmb].
  { unfold mbtowc. rewrite (proj2 (Z.eqb_neq n 0)) by lia. cbn [head mbind option_bind]. rewrite (proj2 (Z.ltb_ge b0 128)) by lia.
    rewrite (proj2 (Z.leb_le (Z.of_nat 1) n)) by lia. done. }
  destruct (lead_len b0) as [k|] eqn:Hk.
  2: { unfold mbtowc. rewrite (proj2 (Z.eqb_neq n 0)) by lia. cbn [head mbind option_bind]. rewrite (proj2 (Z.ltb_ge b0 128)), (proj2 (Z.eqb_neq mb 1)) by done.
       replace (u32 (b0 - SA) >? SB - SA) with true; [cbn [u8dec]; by rewrite (proj2 (Z.ltb_ge b0 128)), Hk|].
       unfold SA, SB, u32. unfold lead_len, between in Hk. repeat case_match; try done; mlia. }
  destruct (lead_range b0 k Hk) as (Hr & Hk' & H4). rewrite (u8dec_lead b0 k Hk).
  destruct (Nat.lt_ge_cases (length l) (k - 1)) as [Hs|Hs].
  { rewrite (tail_short mb b0 k l n) by done. cbn. destruct (okseq b0 _); [|done]. rewrite decide_False; [done|]. rewrite length_take. lia. }
  destruct (Z.lt_ge_cases n (Z.of_nat k)) as [Hnk|Hnk].
  { unfold mbtowc. rewrite (proj2 (Z.eqb_neq n 0)) by lia. cbn [head mbind option_bind]. rewrite (proj2 (Z.ltb_ge b0 128)), (proj2 (Z.eqb_neq mb 1)) by done.
    replace (u32 (b0 - SA) >? SB - SA) with false by (unfold SA, SB; rewrite u32_id by lia; lia). fold (lead_state b0).
    rewrite (proj2 (Z.ltb_lt n 4)), (lead_count b0 k n), (proj2 (Z.ltb_lt n _)) by (done || lia). cbn.
    destruct (okseq b0 _); [|done]. destruct (decide _); [|done]. by rewrite (proj2 (Z.leb_gt _ _)). }
  assert (Htw : mbtowc mb (Some (b0 :: l ++ [0])) n = Some (match (if okseq b0 (take (k - 1) (l ++ [0%Z])) then if decide (length (take (k - 1) (l ++ [0%Z])) = k - 1)%nat
                    then Good k (compose b0 (take (k - 1) (l ++ [0%Z]))) else Partial else Bad) with Good k cp => (if cp =? 0 then 0 else Z.of_nat k, Some cp) | _ => (-1, None) end)).
  { unfold mbtowc. rewrite (proj2 (Z.eqb_neq n 0)) by lia. cbn [head]. cbn [mbind option_bind]. rewrite (proj2 (Z.ltb_ge b0 128)), (proj2 (Z.eqb_neq mb 1)) by done.
    replace (u32 (b0 - SA) >? SB - SA) with false by (unfold SA, SB; rewrite u32_id by lia; lia). fold (lead_state b0).
    replace (if n <? 4 then _ else false) with false.
    2: { destruct (Z.ltb_spec n 4); [|done]. rewrite (lead_count b0 k n) by (done || lia). symmetry. apply Z.ltb_ge. lia. }
    apply (mbtowc_tail b0 k (l ++ [0]) Hk); [|rewrite length_app; cbn; lia].
    apply Forall_cons_1 in Hbs as [_ Hbs]. apply Forall_app. split; [done|]. repeat constructor; unfold byte; lia. }
  rewrite Htw, take_app_le by done. set (bs := take (k - 1) l).
  assert (Ed : length bs = (k - 1)%nat) by (unfold bs; rewrite length_take; lia). rewrite !decide_True by done. destruct (okseq b0 bs) eqn:Eo; [|done].
  destruct (compose_enc b0 k _ Hk Eo Ed) as (H80 & _). rewrite (proj2 (Z.eqb_neq _ 0)) by lia.
  rewrite (proj2 (Z.ltb_ge (Z.of_nat k) 0)), (proj2 (Z.leb_le _ n)), Nat2Z.id by lia. done.
Qed.

(** What [str_next] gives at the start of a text. *)
Lemma str_next_char mb l n k c : cstr l -> dec mb l = Some (k, c) -> Z.of_nat k <= n -> str_next mb (l ++ [0]) n = Ok (c, k).
Proof.
  intros Hl Hd Hn. pose proof (dec_range mb l k c Hl Hd) as [Hk _]. unfold str_next. rewrite (proj2 (Z.eqb_neq n 0)) by lia.
  destruct l as [|b l]; [done|]. cbn. destruct (Z.geb_spec b 128) as [Hb|Hb].
  - pose proof (mbchar_spec mb (b :: l) n Hl ltac:(done) ltac:(lia)) as H. cbn [app] in H. rewrite H. cbn. by rewrite (dec_in_dec mb _ n k c).
  - cbn [dec] in Hd. rewrite (proj2 (Z.ltb_lt b 128)) in Hd by lia. congruence.
Qed.

Lemma str_next_end mb n : str_next mb [0] n = Ok (0, if n =? 0 then 0%nat else 1%nat).
Proof. unfold str_next. by destruct (n =? 0). Qed.

Lemma str_next_0 mb l : str_next mb l 0 = Ok (0, 0%nat).
Proof. done. Qed.

(** ** Brackets *)

(** The number of bytes up to the end of a bracket, from inside it, or from inside
    a class that began with [z], whose last byte is known. *)
Fixpoint close (st : option (Z * option Z)) (l : list Z) : option nat :=
  match l with
  | [] => None
  | c :: l1 =>
      match st with
      | Some (z, prev) => S <$> close (if bool_decide (prev = Some z) && (c =? 93) then None else Some (z, Some c)) l1
      | None =>
          if c =? 93 then Some 1%nat
          else match l1 with
               | d :: l2 => if opens_class c d then (fun n => S (S n)) <$> close (Some (d, None)) l2 else S <$> close None l1
               | [] => None
               end
      end
  end.

(** The length of the bracket that starts [l], if it has an end. *)
Definition bracket_len (l : list Z) : option nat :=
  let a := if (hd 0 (tl l) =? 94) || (hd 0 (tl l) =? 33) then 2%nat else 1%nat in
  let b := if hd 0 (drop a l) =? 93 then (a + 1)%nat else a in
  (fun n => (b + n)%nat) <$> close None (drop b l).

Lemma rd_lt l k : (k < length l)%nat -> exists c, rd (l ++ [0]) k = Ok c /\ l !! k = Some c /\ drop k l = c :: drop (S k) l.
Proof.
  intros Hk. destruct (lookup_lt_is_Some_2 l k Hk) as [c Hc]. exists c. unfold rd. rewrite lookup_app_l, Hc by done.
  split; [done|]. split; [done|]. by apply drop_S.
Qed.

Lemma rd_end l : rd (l ++ [0]) (length l) = Ok 0.
Proof. unfold rd. by rewrite list_lookup_middle. Qed.

Lemma rd_drop l j k : rd (drop j l) k = rd l (j + k).
Proof. unfold rd. by rewrite lookup_drop. Qed.

Section scan.
Context (l : list Z) (Hl : cstr l) (m : Z).

Lemma cstr_lookup k c : l !! k = Some c -> 0 < c < 256.
Proof. intros H. exact (Forall_lookup_1 _ _ _ _ Hl H). Qed.

Lemma skip_class_spec z fuel k p : (length l < fuel + k)%nat -> (1 <= k <= length l)%nat -> Z.of_nat k <= m -> l !! (k - 1)%nat = Some p ->
  exists k', skip_class fuel (l ++ [0]) m z k = Ok k' /\ (k <= k' <= length l)%nat /\ Z.of_nat k' <= m /\
    ((Z.of_nat k' < m /\ (k' < length l)%nat /\ close (Some (z, Some p)) (drop k l) = (fun n => (k' - k + 1 + n)%nat) <$> close None (drop (k' + 1) l)) \/
     ((Z.of_nat k' = m \/ k' = length l) /\ forall n, close (Some (z, Some p)) (drop k l) = Some n -> m < Z.of_nat (k + n))).
Proof.
  revert k p. induction fuel as [|fuel IH]; intros k p Hf Hk Hm Hp; [lia|]. cbn [skip_class].
  destruct (Z.ltb_spec (Z.of_nat k) m) as [Hkm|Hkm].
  2: { exists k. split; [done|]. split; [lia|]. split; [lia|]. right. split; [lia|]. intros n Hn.
       destruct (drop k l); [done|]. cbn [close] in Hn. apply fmap_Some in Hn as (? & _ & ->). lia. }
  destruct (decide (k = length l)) as [->|Hne].
  { rewrite rd_end. exists (length l). cbn. split; [done|]. split; [lia|]. split; [lia|]. right. split; [by right|]. intros n. by rewrite drop_all. }
  destruct (rd_lt l k ltac:(lia)) as (c & -> & Hc & ->). pose proof (cstr_lookup k c Hc) as Hcr. cbn [mbind res_bind].
  rewrite (proj2 (Z.eqb_neq c 0)) by lia. destruct (rd_lt l (k - 1) ltac:(lia)) as (p' & -> & Hp' & _).
  assert (p' = p) as -> by congruence. cbn [mbind res_bind close].
  destruct (negb (p =? z) || negb (c =? 93)) eqn:E.
  - destruct (IH (k + 1)%nat c) as (k' & Hs & Hk' & Hm' & H); [lia|lia|lia|by replace (k + 1 - 1)%nat with k by lia|].
    exists k'. split; [done|]. split; [lia|]. split; [lia|].
    replace (bool_decide (Some p = Some z) && (c =? 93)) with false.
    2: { symmetry. destruct (Z.eqb_spec p z); [cbn in E; by destruct (c =? 93); [|rewrite andb_false_r]|]. rewrite bool_decide_false by congruence. done. }
    replace (S k) with (k + 1)%nat by lia.
    destruct H as [(H1 & H2 & ->)|[H1 H2]]; [left|right].
    + split; [lia|]. split; [done|]. destruct (close None (drop (k' + 1) l)); [|done]. cbn. f_equal. lia.
    + split; [lia|]. intros n Hn. apply fmap_Some in Hn as (n' & Hn & ->). specialize (H2 n' Hn). lia.
  - exists k. split; [done|]. split; [lia|]. split; [lia|]. left. split; [done|]. split; [lia|].
    apply orb_false_iff in E as [E1 E2]. rewrite negb_false_iff in E1, E2. apply Z.eqb_eq in E1 as ->. rewrite E2, bool_decide_true by done.
    cbn [andb]. replace (k - k + 1)%nat with 1%nat by lia. by replace (S k) with (k + 1)%nat by lia.
Qed.

(** A scan from [k], when the bracket ends after [cl] bytes *)
Definition scanned (r : res nat) (k : nat) (cl : option nat) : Prop :=
  exists k', r = Ok k' /\ (k <= k' <= length l)%nat /\ Z.of_nat k' <= m /\
    ((Z.of_nat k' < m /\ l !! k' = Some 93 /\ cl = Some (k' - k + 1)%nat) \/
     ((Z.of_nat k' = m \/ k' = length l) /\ forall n, cl = Some n -> m < Z.of_nat (k + n))).

Lemma scanned_shift r j k cl : scanned r (k + j) cl -> scanned r k ((fun n => (j + n)%nat) <$> cl).
Proof.
  intros (k' & -> & Hk & Hm & H). exists k'. split; [done|]. split; [lia|]. split; [lia|]. destruct H as [(H1 & H2 & ->)|[H1 H2]]; [left|right].
  - split; [done|]. split; [done|]. cbn. f_equal. lia.
  - split; [done|]. intros n (n' & -> & ->)%fmap_Some. specialize (H2 n' eq_refl). lia.
Qed.

(** The scan stops where it is, at the end of the region or of the string. *)
Lemma scanned_stop k cl : (k <= length l)%nat -> Z.of_nat k <= m -> (Z.of_nat k = m /\ cl <> Some 0%nat) \/ (k = length l /\ cl = None) -> scanned (Ok k) k cl.
Proof.
  intros Hk Hm H. exists k. split; [done|]. split; [lia|]. split; [done|]. right. destruct H as [[H1 H2]|[H1 ->]]; [|by split; [right|]].
  split; [by left|]. intros n ->. assert (n <> 0%nat) by congruence. lia.
Qed.

Lemma close_pos st l' : close st l' <> Some 0%nat.
Proof.
  destruct l' as [|c l']; cbn [close]; [done|]. destruct st as [[z p]|]; [|destruct (c =? 93); [done|]; destruct l' as [|d l']; [done|]; destruct (opens_class c d)];
    intros (? & _ & ?)%fmap_Some; done.
Qed.

Lemma scan_class fuel k d : (forall k, (length l < fuel + k)%nat -> (1 <= k <= length l)%nat -> Z.of_nat k <= m -> scanned (scan fuel (l ++ [0]) m k) k (close None (drop k l))) ->
  (length l < fuel + (k + 1))%nat -> (1 <= k)%nat -> (k + 2 <= length l)%nat -> Z.of_nat (k + 1) < m ->
  scanned (e ← (if Z.of_nat (k + 2) <? m then rd (l ++ [0]) (k + 2) else Ok 0);
           let k' := if e =? 0 then (k + 2)%nat else (k + 2 + 1)%nat in
           k' ← skip_class fuel (l ++ [0]) m d k';
           if Z.of_nat k' =? m then Ok k' else c ← rd (l ++ [0]) k'; if c =? 0 then Ok k' else scan fuel (l ++ [0]) m (k' + 1))
    (k + 2) (close (Some (d, None)) (drop (k + 2) l)).
Proof.
  intros IH Hf Hk Hkl Hkm. destruct fuel as [|fuel]; [lia|]. set (fuel' := S fuel) in *.
  destruct (Z.ltb_spec (Z.of_nat (k + 2)) m) as [H2|H2].
  2: { cbn. rewrite (proj2 (Z.ltb_ge _ m)) by lia. cbn. rewrite (proj2 (Z.eqb_eq _ m)) by lia.
       apply scanned_stop; [done|lia|]. left. split; [lia|apply close_pos]. }
  destruct (decide (k + 2 = length l)%nat) as [E|Hne].
  { rewrite E, rd_end. cbn. rewrite (proj2 (Z.ltb_lt _ m)) by lia. rewrite rd_end. cbn. rewrite (proj2 (Z.eqb_neq _ m)), rd_end by lia. cbn.
    apply scanned_stop; [done|lia|]. right. by rewrite drop_all. }
  destruct (rd_lt l (k + 2) ltac:(lia)) as (e & -> & He & ->). pose proof (cstr_lookup _ e He) as Her. cbn [mbind res_bind close].
  rewrite bool_decide_false by done. cbn [andb]. rewrite (proj2 (Z.eqb_neq e 0)) by lia. cbv zeta. replace (S (k + 2)) with (k + 2 + 1)%nat by lia.
  apply (scanned_shift _ 1). destruct (skip_class_spec d fuel' (k + 2 + 1) e) as (k' & -> & Hk' & Hm' & H); [lia|lia|lia|by replace (k + 2 + 1 - 1)%nat with (k + 2)%nat by lia|].
  cbn [mbind res_bind]. destruct H as [(H1 & H3 & ->)|[H1 H3]].
  - rewrite (proj2 (Z.eqb_neq _ m)) by lia. destruct (rd_lt l k' H3) as (c & -> & Hc & _). pose proof (cstr_lookup _ c Hc). cbn [mbind res_bind].
    rewrite (proj2 (Z.eqb_neq c 0)) by lia. apply scanned_shift. replace (k + 2 + 1 + (k' - (k + 2 + 1) + 1))%nat with (k' + 1)%nat by lia. apply IH; lia.
  - exists k'. split; [|split; [lia|split; [lia|right; split; [done|exact H3]]]]. destruct (Z.eqb_spec (Z.of_nat k') m); [done|].
    destruct H1 as [|H1]; [lia|]. by rewrite H1, rd_end.
Qed.

Lemma fnm_scan_spec fuel : forall k, (length l < fuel + k)%nat -> (1 <= k <= length l)%nat -> Z.of_nat k <= m -> scanned (scan fuel (l ++ [0]) m k) k (close None (drop k l)).
Proof.
  induction fuel as [|fuel IH]; intros k Hf Hk Hm; [lia|]. cbn [scan].
  destruct (Z.ltb_spec (Z.of_nat k) m) as [Hkm|Hkm]; [|apply scanned_stop; [lia|lia|left; split; [lia|apply close_pos]]].
  destruct (decide (k = length l)) as [->|Hne]; [rewrite rd_end; cbn; apply scanned_stop; [lia|lia|right; by rewrite drop_all]|].
  destruct (rd_lt l k ltac:(lia)) as (c & -> & Hc & ->). pose proof (cstr_lookup k c Hc) as Hcr. cbn [mbind res_bind].
  rewrite (proj2 (Z.eqb_neq c 0)) by lia. cbn [orb close]. destruct (Z.eqb_spec c 93) as [->|Hc93].
  { exists k. split; [done|]. split; [lia|]. split; [lia|]. left. split; [done|]. split; [done|]. f_equal. lia. }
  rewrite <- (Nat.add_1_r k) in *.
  assert (Hno : opens_class c 0 = false) by (unfold opens_class; by rewrite andb_false_r).
  destruct (Z.ltb_spec (Z.of_nat (k + 1)) m) as [Hk1|Hk1].
  2: { cbn [mbind res_bind]. rewrite Hno. destruct fuel as [|fuel]; [lia|]. cbn [scan]. rewrite (proj2 (Z.ltb_ge _ m)) by lia.
       exists (k + 1)%nat. split; [done|]. split; [lia|]. split; [lia|]. right. split; [lia|]. intros n Hn. assert (n <> 1%nat /\ n <> 0%nat); [|lia].
       destruct (drop (k + 1) l) as [|d l1]; [done|]. destruct (opens_class c d); apply fmap_Some in Hn as (n' & Hn & ->); [lia|].
       split; [|lia]. intros [= ->]. by apply close_pos in Hn. }
  destruct (decide (k + 1 = length l)%nat) as [E1|Hne1].
  { rewrite E1, rd_end, drop_all. cbn [mbind res_bind]. rewrite Hno. pose proof (IH (k + 1)%nat ltac:(lia) ltac:(lia) ltac:(lia)) as H.
    rewrite E1, drop_all in H. rewrite <- E1 in H at 2. by apply (scanned_shift _ 1) in H. }
  destruct (rd_lt l (k + 1) ltac:(lia)) as (d & -> & Hd & Ed). rewrite Ed. cbn [mbind res_bind].
  destruct (opens_class c d).
  - replace (S (k + 1)) with (k + 2)%nat by lia. apply (scanned_shift _ 2). apply scan_class; [done|lia|lia|lia|lia].
  - rewrite <- Ed. apply (scanned_shift _ 1). apply IH; lia.
Qed.
End scan.

(** ** Codes of a pattern *)

Definition lex (mb flags : Z) (l : list Z) : option (Z * nat) :=
  let char l esc := match dec mb l with Some (k, wc) => (wc, (k + esc)%nat) | None => (UNMATCHABLE, 0%nat) end in
  match l with
  | [] => None
  | c :: l1 =>
      Some (if (c =? 92) && negb (flag flags FNM_NOESCAPE) && negb (bool_decide (l1 = [])) then char l1 1%nat
            else if c =? 91 then match bracket_len l with Some k => (BRACKET, k) | None => (91, 1%nat) end
            else if c =? 42 then (STAR, 1%nat) else if c =? 63 then (QUESTION, 1%nat) else char l 0%nat)
  end.

Lemma hd_lookup l k c : l !! k = Some c -> hd 0 (drop k l) = c.
Proof. intros H. by rewrite (drop_S _ _ _ H). Qed.

(** The bracket that starts [l], as [pat_next] finds it in a region of [m] bytes. *)
Lemma bracket_scan fuel l m : cstr l -> (length l < fuel)%nat -> l <> [] -> 1 <= m -> (match bracket_len l with Some k => Z.of_nat k <= m | None => True end) ->
  (c1 ← (if 1 <? m then rd (l ++ [0]) 1 else Ok 0);
   let k := if (c1 =? 94) || (c1 =? 33) then 2%nat else 1%nat in
   c2 ← (if Z.of_nat k <? m then rd (l ++ [0]) k else Ok 0);
   let k := if c2 =? 93 then (k + 1)%nat else k in
   k ← scan fuel (l ++ [0]) m k;
   if Z.of_nat k =? m then Ok (91, 1%nat) else c ← rd (l ++ [0]) k; if c =? 0 then Ok (91, 1%nat) else Ok (BRACKET, (k + 1)%nat)) =
  Ok (match bracket_len l with Some k => (BRACKET, k) | None => (91, 1%nat) end).
Proof.
  intros Hl Hf Hne Hm Hb. assert (Hll : (1 <= length l)%nat) by (destruct l; cbn; [done|lia]).
  assert (Hrd : forall k, (k <= length l)%nat -> rd (l ++ [0]) k = Ok (hd 0 (drop k l))).
  { intros k Hk. destruct (decide (k = length l)) as [->|]; [by rewrite rd_end, drop_all|]. destruct (rd_lt l k ltac:(lia)) as (c & -> & Hc & _). by rewrite (hd_lookup l k c). }
  (* the scan at the end of the region *)
  assert (Hend : forall k, Z.of_nat k = m -> (k <= length l)%nat -> scan fuel (l ++ [0]) m k = Ok k).
  { intros k Hk _. destruct fuel; [lia|]. cbn. by rewrite (proj2 (Z.ltb_ge _ _)) by lia. }
  (* the scan from where the bracket starts *)
  assert (Hfin : forall b, (1 <= b <= length l)%nat -> Z.of_nat b <= m -> bracket_len l = (fun n => (b + n)%nat) <$> close None (drop b l) ->
    (k ← scan fuel (l ++ [0]) m b; if Z.of_nat k =? m then Ok (91, 1%nat) else c ← rd (l ++ [0]) k; if c =? 0 then Ok (91, 1%nat) else Ok (BRACKET, (k + 1)%nat)) =
    Ok (match bracket_len l with Some k => (BRACKET, k) | None => (91, 1%nat) end)).
  { intros b Hb1 Hbm Eb. destruct (fnm_scan_spec l Hl m fuel b) as (k' & -> & Hk & Hkm & H); [lia|lia|lia|]. cbn [mbind res_bind].
    destruct H as [(H1 & H2 & H3)|[H1 H2]].
    - rewrite (proj2 (Z.eqb_neq _ m)) by lia. rewrite Hrd, (hd_lookup l k' 93) by (done || lia). cbn. rewrite Eb, H3. cbn. by replace (b + (k' - b + 1))%nat with (k' + 1)%nat by lia.
    - destruct (bracket_len l) as [n|] eqn:En.
      + destruct (close None (drop b l)) as [n'|]; [|done]. cbn in Eb. injection Eb as ->. specialize (H2 n' eq_refl). lia.
      + destruct (Z.eqb_spec (Z.of_nat k') m); [done|]. destruct H1 as [|H1]; [lia|]. by rewrite H1, rd_end. }
  pose proof (eq_refl (bracket_len l)) as Eb. unfold bracket_len at 2 in Eb. cbv zeta in Eb.
  set (a := if (hd 0 (tl l) =? 94) || (hd 0 (tl l) =? 33) then 2%nat else 1%nat) in *. set (b := if hd 0 (drop a l) =? 93 then (a + 1)%nat else a) in *.
  destruct (Z.ltb_spec 1 m) as [H1|H1].
  2: { cbn [mbind res_bind]. change ((0 =? 94) || (0 =? 33)) with false. cbv zeta iota. rewrite (proj2 (Z.ltb_ge _ m)) by lia. cbn [mbind res_bind]. change (0 =? 93) with false. cbv iota.
       rewrite (Hend 1%nat) by lia. cbn [mbind res_bind]. rewrite (proj2 (Z.eqb_eq _ m)) by lia. revert Hb Eb. clear Hfin. destruct (bracket_len l) as [k|]; [|done]. intros Hb Eb.
       destruct (close None (drop b l)) as [n|] eqn:En; [|done]. cbn in Eb. injection Eb as ->.
       assert (n <> 0%nat) by (intros ->; by apply close_pos in En). assert (1 <= b)%nat by (unfold b, a; destruct (_ || _), (_ =? 93); lia). lia. }
  rewrite (Hrd 1%nat) by lia. cbn [mbind res_bind]. rewrite (eq_refl : drop 1 l = tl l). fold a. cbv zeta. assert (Ha : (1 <= a <= 2)%nat) by (unfold a; destruct (_ || _); lia).
  assert (Hal : (a <= length l)%nat).
  { unfold a. destruct l as [|x [|y l]]; [done|cbn; lia|cbn [length]; destruct (_ || _); lia]. }
  destruct (Z.ltb_spec (Z.of_nat a) m) as [H2|H2].
  2: { cbn [mbind res_bind]. change (0 =? 93) with false. cbv iota. rewrite (Hend a) by lia. cbn [mbind res_bind]. rewrite (proj2 (Z.eqb_eq _ m)) by lia.
       revert Hb Eb. clear Hfin. destruct (bracket_len l) as [k|]; [|done]. intros Hb Eb. destruct (close None (drop b l)) as [n|] eqn:En; [|done]. cbn in Eb. injection Eb as ->.
       assert (n <> 0%nat) by (intros ->; by apply close_pos in En). assert (a <= b)%nat by (unfold b; destruct (_ =? 93); lia). lia. }
  rewrite (Hrd a) by lia. cbn [mbind res_bind]. fold b. assert (a <= b <= a + 1)%nat by (unfold b; destruct (_ =? 93); lia).
  apply (Hfin b); [|lia|done]. split; [lia|]. unfold b. destruct (Z.eqb_spec (hd 0 (drop a l)) 93) as [E|]; [|done].
  destruct (decide (a = length l)) as [->|]; [by rewrite drop_all in E|lia].
Qed.

(** [pat_next] gives the code, in any region of the string that has it. *)
Lemma pat_next_lex fuel mb flags l m c k : cstr l -> (length l < fuel)%nat -> lex mb flags l = Some (c, k) -> 1 <= m -> Z.of_nat k <= m ->
  pat_next fuel mb (l ++ [0]) m flags = Ok (c, k).
Proof.
  intros Hl Hf Hx Hm Hk. destruct l as [|c0 l]; [done|]. pose proof (Forall_cons_1 _ _ _ Hl) as [Hc0 Hl1]. cbv beta in Hc0.
  assert (Hchar : forall l' esc c', cstr l' -> l' <> [] -> hd 0 l' = c' -> match dec mb l' with Some (k, wc) => (wc, (k + esc)%nat) | None => (UNMATCHABLE, 0%nat) end = (c, k) ->
    (if c' >=? 128 then r ← mbchar mb (l' ++ [0]) m; match r with None => Ok (UNMATCHABLE, 0%nat) | Some (k, wc) => Ok (wc, (k + esc)%nat) end else Ok (c', (1 + esc)%nat)) = Ok (c, k)).
  { intros l' esc c' Hl' Hne <- Hd. destruct (Z.geb_spec (hd 0 l') 128) as [H|H].
    - rewrite mbchar_spec by done. cbn [mbind res_bind]. destruct (dec mb l') as [[k' wc]|] eqn:E; [|unfold dec_in; by rewrite E; injection Hd as <- <-].
      injection Hd as <- <-. by rewrite (dec_in_dec mb l' m k' wc) by (done || lia).
    - destruct l' as [|b l']; [done|]. cbn [hd dec] in *. rewrite (proj2 (Z.ltb_lt b 128)) in Hd by lia. by injection Hd as <- <-. }
  unfold pat_next. cbv zeta. rewrite (proj2 (Z.eqb_neq m 0)) by lia. change (rd ((c0 :: l) ++ [0]) 0) with (Ok c0). cbn [mbind res_bind].
  rewrite (proj2 (Z.eqb_neq c0 0)) by lia. cbn [lex] in Hx. injection Hx as Hx.
  destruct (Z.eqb_spec c0 92) as [->|H92].
  - destruct l as [|c1 l].
    + cbn [app] in *. change (rd [92; 0] 1) with (Ok 0). cbn [mbind res_bind]. rewrite bool_decide_true, !andb_false_r in Hx by done.
      change (92 =? 91) with false in *. change (92 =? 42) with false in *. change (92 =? 63) with false in *. change (negb (0 =? 0)) with false. cbn [andb]. cbv iota in *.
      by apply (Hchar [92] 0%nat 92).
    + change (rd ((92 :: c1 :: l) ++ [0]) 1) with (Ok c1). cbn [mbind res_bind]. pose proof (Forall_cons_1 _ _ _ Hl1) as [Hc1 _]. cbv beta in Hc1.
      rewrite (proj2 (Z.eqb_neq c1 0)) by lia. cbn [negb andb]. rewrite bool_decide_false, andb_true_r in Hx by done. cbn [negb andb] in Hx.
      destruct (flag flags FNM_NOESCAPE); cbn [negb] in *.
      * change (92 =? 91) with false in *. change (92 =? 42) with false in *. change (92 =? 63) with false in *. cbv iota in *. by apply (Hchar (92 :: c1 :: l) 0%nat 92).
      * by apply (Hchar (c1 :: l) 1%nat c1).
  - cbn [mbind res_bind andb]. change (negb (0 =? 0)) with false. cbn [andb]. cbn [andb] in Hx.
    destruct (Z.eqb_spec c0 91) as [->|H91].
    + rewrite <- Hx. apply (bracket_scan fuel (91 :: l) m); [done|done|done|done|].
      destruct (bracket_len (91 :: l)); [by injection Hx as <- <-|done].
    + destruct (Z.eqb_spec c0 42); [by injection Hx as <- <-|]. destruct (Z.eqb_spec c0 63); [by injection Hx as <- <-|]. by apply (Hchar (c0 :: l) 0%nat c0).
Qed.

Lemma pat_next_end fuel mb m flags : pat_next fuel mb [0] m flags = Ok (END, 0%nat).
Proof. unfold pat_next. by destruct (m =? 0). Qed.

Lemma pat_next_0 fuel mb l flags : pat_next fuel mb l 0 flags = Ok (END, 0%nat).
Proof. done. Qed.
