(* ===== verification/FnmatchBracket.v ===== *)
(** Bracket expressions of fnmatch.c: matching one never reads outside it, and
    gives what its items say. *)
From Stdlib Require Import Strings.String.
From S2P Require Import Prelude CStr Utf8 Wctype Fnmatch FnmatchLex.
#[local] Open Scope c_scope.

Lemma close_range n : forall st l k, (length l <= n)%nat -> close st l = Some k -> (1 <= k <= length l)%nat.
Proof.
  induction n as [|n IH]; intros st [|c l1] k Hl; cbn [close length] in *; try done; [lia|].
  destruct st as [[z p]|]; [|destruct (c =? 93); [intros [= <-]; lia|]; destruct l1 as [|d l2]; [done|]; destruct (opens_class c d)].
  1, 3: intros (k' & Hk & ->)%fmap_Some; apply IH in Hk; lia.
  intros (k' & Hk & ->)%fmap_Some. cbn [length] in *. apply IH in Hk; lia.
Qed.

(** Past bytes that neither open a class nor close the bracket *)
Lemma close_step c l n : (c <> 93) -> (forall d, opens_class c d = false) -> close None (c :: l) = Some n -> exists n', close None l = Some n' /\ n = S n'.
Proof.
  intros Hc Hd. cbn [close]. rewrite (proj2 (Z.eqb_neq c 93)) by done. destruct l as [|d l]; [done|]. rewrite Hd.
  intros (n' & H & ->)%fmap_Some. by exists n'.
Qed.

Lemma close_skip j l n : Forall (fun c => 128 <= c) (take j l) -> close None l = Some n -> exists n', close None (drop j l) = Some n'.
Proof.
  revert l n. induction j as [|j IH]; intros l n Hf H; [by exists n|]. destruct l as [|c l]; [done|]. cbn [take drop] in *. apply Forall_cons_1 in Hf as [Hc Hf]. cbv beta in Hc.
  apply close_step in H as (n' & H & _); [by apply (IH l n')|lia|]. intros d. unfold opens_class. rewrite (proj2 (Z.eqb_neq c 91)) by lia. done.
Qed.

(** The bytes of a character of more than one byte *)
Lemma dec_shape mb l k c : cstr l -> mb <> 1 -> dec mb l = Some (k, c) -> 128 <= hd 0 l ->
  exists b0 bs, take k l = b0 :: bs /\ 0xc2 <= b0 <= 0xf4 /\ Forall (fun b => 0x80 <= b <= 0xbf) bs /\ bs <> [].
Proof.
  intros Hl Hmb Hd Hb. destruct l as [|b l]; [done|]. cbn [hd dec] in *. rewrite (proj2 (Z.ltb_ge b 128)), (proj2 (Z.eqb_neq mb 1)) in Hd by done.
  destruct (u8dec (b :: l)) as [k' c'| |] eqn:E; [|done..]. injection Hd as -> ->.
  destruct (u8dec_sound _ _ _ (fnm_bytes _ Hl) E) as (Hs & Hk & Ht & _). rewrite Ht.
  destruct (Z.lt_ge_cases c 128) as [Hc|Hc].
  { exfalso. unfold enc in Ht, Hk. rewrite (proj2 (Z.ltb_lt c 128)) in Ht, Hk by lia. subst k. cbn in Ht. injection Ht as ->. lia. }
  destruct (enc_shape c Hs Hc) as (b0 & k0 & bs & -> & Hl0 & Hok & Hlen & _). destruct (lead_range b0 k0 Hl0) as (Hr & Hk0 & _). exists b0, bs. split; [done|]. split; [done|].
  split; [|intros ->; cbn in Hlen; lia]. clear -Hok Hr. destruct bs as [|b1 bs]; [done|]. cbn [okseq] in Hok. apply andb_true_iff in Hok as [H1 H2]. constructor.
  - pose proof (second_cont b0 b1 H1). lia.
  - rewrite forallb_forall in H2. apply Forall_forall. intros x Hx. apply H2, between_true in Hx. lia.
Qed.

Lemma dec_high mb l k c : cstr l -> dec mb l = Some (k, c) -> 128 <= hd 0 l -> Forall (fun c => 128 <= c) (take k l).
Proof.
  intros Hl Hd Hb. destruct (decide (mb = 1)) as [->|Hmb].
  - destruct l as [|b l]; [done|]. cbn [hd dec] in *. rewrite (proj2 (Z.ltb_ge b 128)) in Hd by lia. injection Hd as <- <-. cbn. by repeat constructor.
  - destruct (dec_shape mb l k c Hl Hmb Hd Hb) as (b0 & bs & -> & H0 & Hbs & _). constructor; [lia|]. revert Hbs. apply Forall_impl. lia.
Qed.

(** A continuation byte starts no character. *)
Lemma dec_cont mb b l : mb <> 1 -> 0x80 <= b <= 0xbf -> dec mb (b :: l) = None.
Proof.
  intros Hmb Hb. cbn [dec u8dec]. rewrite (proj2 (Z.ltb_ge b 128)), (proj2 (Z.eqb_neq mb 1)) by lia.
  replace (lead_len b) with (@None nat); [done|]. unfold lead_len, between. by rewrite !(proj2 (Z.leb_gt _ b)) by lia.
Qed.

(** ** Matching a bracket stays inside it *)
Section bracket.
Context (mb : Z) (k kfold : Z) (inv : bool).

Lemma class_end_spec p z N j e n : cstr p -> (length p <= N + j)%nat -> (1 <= j)%nat -> p !! (j - 1)%nat = Some e ->
  close (Some (z, Some e)) (drop j p) = Some n ->
  exists j' n', (forall fuel, (length p < fuel + j)%nat -> class_end fuel (p ++ [0]) z j = Ok j') /\ (j <= j' < length p)%nat /\ close None (drop (j' + 1) p) = Some n' /\
    n = (j' - j + 1 + n')%nat.
Proof.
  intros Hp. revert j e n. induction N as [|N IH]; intros j e n Hf Hj He Hn; [by rewrite drop_ge in Hn by lia|].
  assert (Hjl : (j < length p)%nat) by (destruct (Nat.lt_ge_cases j (length p)); [done|by rewrite drop_ge in Hn]).
  destruct (rd_lt p (j - 1) ltac:(lia)) as (e' & Hr & He' & _). assert (e' = e) as -> by congruence.
  destruct (rd_lt p j Hjl) as (c & Hc & Hc' & Ed). rewrite Ed in Hn. cbn [close] in Hn. apply fmap_Some in Hn as (n' & Hn & ->). rewrite <- (Nat.add_1_r j) in Hn.
  destruct (bool_decide (Some e = Some z) && (c =? 93)) eqn:E.
  - exists j, n'. split; [|split; [lia|split; [done|lia]]]. intros [|fuel] Hfu; [lia|]. cbn [class_end]. rewrite Hr. cbn [mbind res_bind].
    apply andb_true_iff in E as [E1 E2]. apply bool_decide_eq_true in E1. injection E1 as ->. rewrite Z.eqb_refl. cbn [negb]. rewrite Hc. cbn [mbind res_bind]. by rewrite E2.
  - destruct (IH (j + 1)%nat c n') as (j' & n0 & Hce & Hj' & H' & ->); [lia|lia|by replace (j + 1 - 1)%nat with j by lia|done|].
    exists j', n0. split; [|split; [lia|split; [done|lia]]]. intros [|fuel] Hfu; [lia|]. cbn [class_end]. rewrite Hr. cbn [mbind res_bind].
    assert (Hnext : class_end fuel (p ++ [0]) z (j + 1) = Ok j') by (apply Hce; lia). destruct (Z.eqb_spec e z) as [->|Hz]; cbn [negb]; [|done].
    rewrite Hc. cbn [mbind res_bind]. rewrite bool_decide_true in E by done. cbn [andb] in E. by rewrite E.
Qed.

(** The last byte of a range of which the last character has more than one *)
Lemma range_end l j wc2 : cstr l -> dec mb l = Some (j, wc2) -> (1 < j)%nat -> exists b t, drop (j - 1) l = b :: t /\ 0x80 <= b <= 0xbf /\ mb <> 1.
Proof.
  intros Hl Hd Hj. assert (Hmb : mb <> 1) by (intros ->; destruct l; [done|]; cbn in Hd; destruct (_ <? 128); injection Hd as <- _; lia).
  assert (Hb : 128 <= hd 0 l) by (destruct l as [|b l]; [done|]; cbn in *; destruct (Z.ltb_spec b 128); [injection Hd as <- _; lia|done]).
  destruct (dec_shape mb l j wc2 Hl Hmb Hd Hb) as (b0 & bs & Et & _ & Hbs & _). pose proof (dec_range mb l j wc2 Hl Hd) as [Hk _].
  destruct (lookup_lt_is_Some_2 l (j - 1) ltac:(lia)) as [b Eb]. exists b, (drop (S (j - 1)) l). split; [by apply drop_S|]. split; [|done].
  assert (Hin : take j l !! (j - 1)%nat = Some b) by (by rewrite lookup_take_lt by lia). rewrite Et in Hin.
  destruct (j - 1)%nat as [|i] eqn:Ei; [lia|]. exact (Forall_lookup_1 _ _ _ _ Hbs Hin).
Qed.

(** A character that cannot be read ends the loop. *)
Lemma cont_stops fuel b t wc : (0 < fuel)%nat -> cstr (b :: t) -> 0x80 <= b <= 0xbf -> mb <> 1 -> bracket_loop fuel mb ((b :: t) ++ [0]) wc k kfold inv = Ok false.
Proof.
  intros Hf Hc Hb Hmb. destruct fuel as [|fuel]; [lia|]. cbn [bracket_loop]. change (rd ((b :: t) ++ [0]) 0) with (Ok b). cbn [mbind res_bind].
  rewrite (proj2 (Z.eqb_neq b 93)), (proj2 (Z.eqb_neq b 45)), (proj2 (Z.eqb_neq b 91)) by lia. cbn [orb andb mbind res_bind]. unfold opens_class.
  rewrite (proj2 (Z.eqb_neq b 91)), (proj2 (Z.ltb_ge b 128)) by lia. cbn [andb]. rewrite mbchar_spec by done. unfold dec_in. by rewrite dec_cont.
Qed.

Lemma bracket_loop_total N : forall p wc n, (length p <= N)%nat -> cstr p -> close None p = Some n ->
  exists b, forall fuel, (length p < fuel)%nat -> bracket_loop fuel mb (p ++ [0]) wc k kfold inv = Ok b.
Proof.
  induction N as [|N IH]; intros p wc n HN Hp Hn; [by destruct p; [|cbn in HN; lia]|].
  destruct p as [|c p1]; [done|]. cbn [length] in HN. pose proof (Forall_cons_1 _ _ _ Hp) as [Hc Hp1]. cbv beta in Hc.
  assert (Hrest : forall j wc n, (1 <= j)%nat -> close None (drop j (c :: p1)) = Some n ->
    exists b, forall fuel, (length (c :: p1) <= fuel)%nat -> bracket_loop fuel mb (drop j ((c :: p1) ++ [0])) wc k kfold inv = Ok b).
  { intros j wc' n' Hj Hn'. assert (Hjl : (j < length (c :: p1))%nat) by (destruct (Nat.lt_ge_cases j (length (c :: p1))); [done|by rewrite drop_ge in Hn']). cbn [length] in Hjl.
    destruct (IH (drop j (c :: p1)) wc' n') as (b & Hb); [rewrite length_drop; cbn [length]; lia|by apply cstr_drop|done|].
    exists b. intros fuel Hf. rewrite drop_app_le by (cbn [length]; lia). apply Hb. rewrite length_drop. cbn [length] in *. lia. }
  destruct (Z.eq_dec c 93) as [->|H93]; [exists inv; intros [|fuel] Hf; [lia|done]|].
  destruct p1 as [|d p2]; [by cbn in Hn; rewrite (proj2 (Z.eqb_neq c 93)) in Hn by done|].
  assert (Hnocls : opens_class c d = false -> exists n', close None (d :: p2) = Some n').
  { intros E. cbn [close] in Hn. rewrite (proj2 (Z.eqb_neq c 93)), E in Hn by done. apply fmap_Some in Hn as (n' & Hn & _). by exists n'. }
  (* one iteration *)
  assert (Hstep : forall fuel, bracket_loop (S fuel) mb ((c :: d :: p2) ++ [0]) wc k kfold inv =
    if (c =? 45) && negb (d =? 93) then
      r ← mbchar mb ((d :: p2) ++ [0]) 4;
      match r with
      | None => Ok false
      | Some (l, wc2) =>
          if (wc <=? wc2) && ((u32 (k - wc) <=? wc2 - wc) || (u32 (kfold - wc) <=? wc2 - wc)) then Ok (negb inv)
          else bracket_loop fuel mb (drop l ((c :: d :: p2) ++ [0])) wc k kfold inv
      end
    else if opens_class c d then
      j ← class_end fuel ((c :: d :: p2) ++ [0]) d 3;
      let name := take (j - 3) (drop 2 ((c :: d :: p2) ++ [0])) in
      if (d =? 58) && (Z.of_nat j - 3 <? 16) && (iswctype (u32 k) (wctype name) || iswctype (u32 kfold) (wctype name)) then Ok (negb inv)
      else bracket_loop fuel mb (drop (j + 1) ((c :: d :: p2) ++ [0])) wc k kfold inv
    else if c <? 128 then
      if (c =? k) || (c =? kfold) then Ok (negb inv) else bracket_loop fuel mb (drop 1 ((c :: d :: p2) ++ [0])) c k kfold inv
    else
      r ← mbchar mb ((c :: d :: p2) ++ [0]) 4;
      match r with
      | None => Ok false
      | Some (l, wc) => if (wc =? k) || (wc =? kfold) then Ok (negb inv) else bracket_loop fuel mb (drop l ((c :: d :: p2) ++ [0])) wc k kfold inv
      end).
  { intros fuel. cbn [bracket_loop]. change (rd ((c :: d :: p2) ++ [0]) 0) with (Ok c). change (rd ((c :: d :: p2) ++ [0]) 1) with (Ok d). cbn [mbind res_bind].
    rewrite (proj2 (Z.eqb_neq c 93)) by done. unfold opens_class. destruct (c =? 45) eqn:E1, (c =? 91) eqn:E2; cbn [orb andb mbind res_bind]; done. }
  destruct ((c =? 45) && negb (d =? 93)) eqn:E1; [|destruct (opens_class c d) eqn:E2; [|destruct (Z.ltb_spec c 128) as [E3|E3]]].
  - rewrite mbchar_spec in Hstep by done. cbn [mbind res_bind] in Hstep. unfold dec_in in Hstep. destruct (dec mb (d :: p2)) as [[j wc2]|] eqn:Ed.
    2: { exists false. intros [|fuel] Hf; [cbn in Hf; lia|by rewrite Hstep]. }
    destruct (Z.of_nat j <=? 4); [|exists false; intros [|fuel] Hf; [cbn in Hf; lia|by rewrite Hstep]].
    destruct ((wc <=? wc2) && _); [exists (negb inv); intros [|fuel] Hf; [cbn in Hf; lia|by rewrite Hstep]|].
    pose proof (dec_range mb _ j wc2 Hp1 Ed) as [Hj _]. destruct (decide (j = 1%nat)) as [->|Hj1].
    + destruct Hnocls as [n' Hn']; [unfold opens_class; by replace (c =? 91) with false by lia|].
      destruct (Hrest 1%nat wc n') as (b & Hb); [lia|done|]. exists b. intros [|fuel] Hf; [cbn in Hf; lia|]. rewrite Hstep. apply Hb. cbn [length] in *. lia.
    + destruct (range_end (d :: p2) j wc2) as (b0 & t & Eb & Hb0 & Ht); [done|done|lia|].
      exists false. intros [|fuel] Hf; [cbn in Hf; lia|]. rewrite Hstep. destruct j as [|j]; [lia|]. rewrite drop_app_le by (cbn [length] in *; lia).
      change (drop (S j) (c :: d :: p2)) with (drop j (d :: p2)). replace (S j - 1)%nat with j in Eb by lia. rewrite Eb. apply cont_stops; [cbn [length] in *; lia| |done|done].
      rewrite <- Eb. by apply (cstr_drop (d :: p2)).
  - cbn [close] in Hn. rewrite (proj2 (Z.eqb_neq c 93)), E2 in Hn by done. apply fmap_Some in Hn as (n1 & Hn & _).
    destruct p2 as [|e p3]; [done|]. cbn [close] in Hn. rewrite bool_decide_false in Hn by done. cbn [andb] in Hn. apply fmap_Some in Hn as (n2 & Hn & _).
    destruct (class_end_spec (c :: d :: e :: p3) d N 3 e n2) as (j & n' & Hce & Hj & Hn' & _); [done|cbn [length] in *; lia|lia|done|done|].
    set (name := take (j - 3) (drop 2 ((c :: d :: e :: p3) ++ [0]))) in *.
    destruct ((d =? 58) && (Z.of_nat j - 3 <? 16) && (iswctype (u32 k) (wctype name) || iswctype (u32 kfold) (wctype name))) eqn:Et.
    + exists (negb inv). intros [|fuel] Hf; [cbn in Hf; lia|]. rewrite Hstep, Hce by (cbn [length] in *; lia). cbn [mbind res_bind]. cbv zeta. fold name. by rewrite Et.
    + destruct (Hrest (j + 1)%nat wc n') as (b & Hb); [lia|done|]. exists b. intros [|fuel] Hf; [cbn in Hf; lia|]. rewrite Hstep, Hce by (cbn [length] in *; lia).
      cbn [mbind res_bind]. cbv zeta. fold name. rewrite Et. apply Hb. cbn [length] in *. lia.
  - destruct ((c =? k) || (c =? kfold)); [exists (negb inv); intros [|fuel] Hf; [cbn in Hf; lia|by rewrite Hstep]|].
    destruct (Hnocls eq_refl) as [n' Hn']. destruct (Hrest 1%nat c n') as (b & Hb); [lia|done|]. exists b. intros [|fuel] Hf; [cbn in Hf; lia|]. rewrite Hstep. apply Hb. cbn [length] in *. lia.
  - rewrite mbchar_spec in Hstep by done. cbn [mbind res_bind] in Hstep. unfold dec_in in Hstep. destruct (dec mb (c :: d :: p2)) as [[j wc2]|] eqn:Ed.
    2: { exists false. intros [|fuel] Hf; [cbn in Hf; lia|by rewrite Hstep]. }
    destruct (Z.of_nat j <=? 4); [|exists false; intros [|fuel] Hf; [cbn in Hf; lia|by rewrite Hstep]].
    destruct ((wc2 =? k) || _); [exists (negb inv); intros [|fuel] Hf; [cbn in Hf; lia|by rewrite Hstep]|].
    pose proof (dec_range mb _ j wc2 Hp Ed) as [Hj _].
    destruct (close_skip j (c :: d :: p2) n) as [n' Hn']; [by apply (dec_high mb _ j wc2)|done|].
    destruct (Hrest j wc2 n') as (b & Hb); [lia|done|]. exists b. intros [|fuel] Hf; [cbn in Hf; lia|]. rewrite Hstep. apply Hb. cbn [length] in *. lia.
Qed.
End bracket.

(** ** The functional behaviour of a bracket *)

Lemma bracket_len_range l n : bracket_len l = Some n -> (1 <= n <= length l)%nat.
Proof.
  unfold bracket_len. cbv zeta. set (b := if _ =? 93 then _ else _). intros (n' & Hn & ->)%fmap_Some.
  apply (close_range (length (drop b l))) in Hn; [|done]. rewrite length_drop in Hn. lia.
Qed.

Lemma match_bracket_total mb l n k kfold : cstr l -> bracket_len l = Some n -> exists b, forall fuel, (length l < fuel)%nat -> match_bracket fuel mb (l ++ [0]) k kfold = Ok b.
Proof.
  intros Hl Hn. destruct l as [|c0 l]; [by cbn in Hn|]. unfold bracket_len in Hn. cbv zeta in Hn. cbn [tl] in Hn.
  set (inv := (hd 0 l =? 94) || (hd 0 l =? 33)) in *. apply fmap_Some in Hn as (n1 & Hn & _).
  pose proof (Forall_cons_1 _ _ _ Hl) as [_ Hl1].
  set (p := if inv then tl l else l).
  assert (Ep : drop (if inv then 2%nat else 1%nat) (c0 :: l) = p) by (unfold p; destruct inv; [by destruct l|done]).
  assert (Hp : cstr p) by (rewrite <- Ep; by apply cstr_drop).
  assert (Hn' : close None (if hd 0 p =? 93 then tl p else p) = Some n1).
  { rewrite <- Hn, <- Ep. destruct (hd 0 _ =? 93); [|done]. rewrite <- drop_drop. by destruct (drop _ (c0 :: l)). }
  clear Hn Ep. assert (Hpl : (length p <= length l)%nat) by (unfold p; destruct inv; [destruct l; cbn; lia|done]).
  assert (Hne : p <> []) by (intros E; by rewrite E in Hn').
  assert (Hrd : forall q : list Z, q <> [] -> rd (q ++ [0]) 0 = Ok (hd 0 q)) by (intros [|x q] Hq; done).
  assert (Hl0 : l <> []) by (unfold p in Hne; intros ->; by destruct inv).
  assert (Eq : (if inv then tl (l ++ [0]) else l ++ [0]) = p ++ [0]) by (unfold p; destruct inv; [by destruct l|done]).
  assert (Hm : forall fuel, match_bracket fuel mb ((c0 :: l) ++ [0]) k kfold =
    let last := if inv then hd 0 l else 91 in
    if (hd 0 p =? 93) || (hd 0 p =? 45) then if k =? hd 0 p then Ok (negb inv) else bracket_loop fuel mb (tl p ++ [0]) (hd 0 p) k kfold inv
    else bracket_loop fuel mb (p ++ [0]) last k kfold inv).
  { intros fuel. unfold match_bracket. cbn [tl app]. rewrite Hrd by done. cbn [mbind res_bind]. fold inv. cbv zeta. rewrite Eq, Hrd by done. cbn [mbind res_bind]. by destruct p. }
  destruct p as [|x p']; [done|]. cbn [hd tl] in *. cbn [length] in Hpl. cbv zeta in Hm.
  assert (Hloop : forall wc n p, close None p = Some n -> cstr p -> (length p <= S (length p'))%nat ->
    exists b, forall fuel, (length (c0 :: l) < fuel)%nat -> bracket_loop fuel mb (p ++ [0]) wc k kfold inv = Ok b).
  { intros wc n' q Hq Hcq Hlq. destruct (bracket_loop_total mb k kfold inv (length q) q wc n') as (b & Hb); [done|done|done|].
    exists b. intros fuel Hf. apply Hb. cbn [length] in *. lia. }
  pose proof (Forall_cons_1 _ _ _ Hp) as [_ Hp']. destruct (Z.eqb_spec x 93) as [->|H93]; cbn [orb] in Hm.
  - destruct (k =? 93); [by exists (negb inv)|]. destruct (Hloop 93 n1 p') as (b & Hb); [done|done|lia|]. exists b. intros fuel Hf. rewrite Hm. by apply Hb.
  - destruct (Z.eqb_spec x 45) as [->|H45].
    + destruct (k =? 45); [by exists (negb inv)|]. apply close_step in Hn' as (n2 & Hn2 & _); [|done|done].
      destruct (Hloop 45 n2 p') as (b & Hb); [done|done|lia|]. exists b. intros fuel Hf. rewrite Hm. by apply Hb.
    + destruct (Hloop (if inv then hd 0 l else 91) n1 (x :: p')) as (b & Hb); [done|done|done|]. exists b. intros fuel Hf. rewrite Hm. by apply Hb.
Qed.

(** *** The meaning of a bracket *)

(** What can stand in a bracket: a character with its encoding, a range up to an ASCII
    character, a class.  *)
Inductive item := Chr (w : list Z) (c : Z) | Rng (w : list Z) (c d : Z) | Cls (name : list Z).

Definition item_src (i : item) : list Z :=
  match i with Chr w _ => w | Rng w _ d => w ++ [45; d] | Cls name => [91; 58] ++ name ++ [58; 93] end.

Definition plain (c : Z) : Prop := c <> 91 /\ c <> 93 /\ c <> 45.

Definition item_ok (mb : Z) (i : item) : Prop :=
  match i with
  | Chr w c => cstr w /\ dec mb w = Some (length w, c) /\ plain (hd 0 w)
  | Rng w c d => cstr w /\ dec mb w = Some (length w, c) /\ plain (hd 0 w) /\ 0 < d < 128 /\ plain d /\ c <= d
  | Cls name => Forall (fun x => 0 < x < 256 /\ x <> 58) name /\ (length name < 16)%nat
  end.

(** Whether a character, or its other case, is one of an item. *)
Definition in_item (k kfold : Z) (i : item) : bool :=
  match i with
  | Chr _ c => (c =? k) || (c =? kfold)
  | Rng _ c d => ((c <=? k) && (k <=? d)) || ((c <=? kfold) && (kfold <=? d))
  | Cls name => iswctype k (wctype name) || iswctype kfold (wctype name)
  end.

Lemma item_cstr mb i : item_ok mb i -> cstr (item_src i).
Proof.
  destruct i as [w c|w c d|name]; cbn [item_ok item_src].
  - by intros (H & _).
  - intros (H & _ & _ & Hd & _). apply Forall_app. split; [done|]. repeat constructor; lia.
  - intros (H & _). repeat (apply Forall_cons; [lia|]). apply Forall_app. split; [|repeat constructor; lia]. revert H. apply Forall_impl. lia.
Qed.

Lemma dec_len mb l k c : cstr l -> dec mb l = Some (k, c) -> (k <= 4)%nat.
Proof.
  intros Hl. destruct l as [|b l]; [done|]. cbn [dec]. destruct (b <? 128); [intros [= <- <-]; lia|]. destruct (mb =? 1); [intros [= <- <-]; lia|].
  destruct (u8dec (b :: l)) as [k' c'| |] eqn:E; [|done..]. intros [= <- <-]. destruct (u8dec_sound _ _ _ (fnm_bytes _ Hl) E) as (_ & <- & _).
  unfold enc. repeat case_match; cbn; lia.
Qed.

Lemma items_cstr mb items : Forall (item_ok mb) items -> cstr (concat (item_src <$> items)).
Proof. induction 1 as [|i items Hi _ IH]; [constructor|]. apply Forall_app. split; [by apply (item_cstr mb)|done]. Qed.

Section items.
Context (mb k kfold : Z) (inv : bool) (Hk : 0 < k < 2 ^ 31) (Hkf : 0 < kfold < 2 ^ 31).

Lemma range_test c d x : 0 <= c <= d -> 0 < d < 2 ^ 31 -> 0 < x < 2 ^ 31 -> (u32 (x - c) <=? d - c) = (c <=? x) && (x <=? d).
Proof. intros Hc Hd Hx. apply eq_true_iff_eq. rewrite andb_true_iff, !Z.leb_le. unfold u32. mlia. Qed.

(** A character outside a class *)
Lemma chr_step fuel w c t wc : cstr w -> dec mb w = Some (length w, c) -> plain (hd 0 w) -> cstr t ->
  bracket_loop (S fuel) mb ((w ++ t) ++ [0]) wc k kfold inv = if (c =? k) || (c =? kfold) then Ok (negb inv) else bracket_loop fuel mb (t ++ [0]) c k kfold inv.
Proof.
  intros Hw Hd (H91 & H93 & H45) Ht. pose proof (dec_len mb w _ c Hw Hd) as H4. pose proof (dec_app mb w t _ c Hw Ht Hd) as Hd'.
  pose proof (dec_range mb w _ c Hw Hd) as [Hl _]. destruct w as [|b w]; [done|]. cbn [hd] in *. cbn [bracket_loop].
  change (rd (((b :: w) ++ t) ++ [0]) 0) with (Ok b). cbn [mbind res_bind]. rewrite (proj2 (Z.eqb_neq b 93)), (proj2 (Z.eqb_neq b 45)), (proj2 (Z.eqb_neq b 91)) by done.
  cbn [orb andb mbind res_bind]. unfold opens_class. rewrite (proj2 (Z.eqb_neq b 91)) by done. cbn [andb].
  destruct (Z.ltb_spec b 128) as [Hb|Hb].
  - cbn [dec] in Hd. rewrite (proj2 (Z.ltb_lt b 128)) in Hd by done. injection Hd as Hlen <-. destruct w; [|done]. done.
  - rewrite mbchar_spec by (done || (by apply Forall_app)). rewrite (dec_in_dec mb _ 4 _ c Hd') by lia. cbn [mbind res_bind].
    rewrite <- app_assoc, drop_app_length. done.
Qed.

Lemma class_end_name name t fuel : Forall (fun x => 0 < x < 256 /\ x <> 58) name -> forall j pre, (length name < fuel)%nat -> length pre = j -> (1 <= j)%nat ->
  class_end fuel (pre ++ name ++ 58 :: 93 :: t) 58 (j + 1) = Ok (j + 1 + length name)%nat.
Proof.
  revert fuel. induction name as [|x name IH]; intros fuel Hn j pre Hf Hj H1.
  - destruct fuel as [|fuel]; [cbn in Hf; lia|]. cbn [class_end app]. unfold rd. rewrite Nat.add_sub, (list_lookup_middle pre _ 58 j) by lia. cbn [mbind res_bind].
    change (negb (58 =? 58)) with false. cbv iota. rewrite lookup_app_r by lia. replace (j + 1 - length pre)%nat with 1%nat by lia. cbn. f_equal. lia.
  - destruct fuel as [|fuel]; [cbn in Hf; lia|]. apply Forall_cons_1 in Hn as [[Hx H58] Hn]. cbn [class_end app]. unfold rd. rewrite Nat.add_sub, (list_lookup_middle pre _ x j) by lia. cbn [mbind res_bind].
    rewrite (proj2 (Z.eqb_neq x 58)) by done. cbn [negb]. rewrite cons_middle, app_assoc. rewrite (IH fuel Hn (j + 1)%nat (pre ++ [x])); [|cbn in Hf; lia|rewrite length_app; cbn; lia|lia].
    f_equal. cbn [length]. lia.
Qed.

Lemma cls_step fuel name t wc : Forall (fun x => 0 < x < 256 /\ x <> 58) name -> (length name < 16)%nat -> (length name <= fuel)%nat ->
  bracket_loop (S (S fuel)) mb (([91; 58] ++ name ++ [58; 93]) ++ t) wc k kfold inv =
    if in_item k kfold (Cls name) then Ok (negb inv) else bracket_loop (S fuel) mb t wc k kfold inv.
Proof.
  intros Hn H16 Hf. set (p := ([91; 58] ++ name ++ [58; 93]) ++ t).
  assert (Ep : p = [91; 58] ++ name ++ 58 :: 93 :: t) by (unfold p; by rewrite <- !app_assoc).
  assert (Ej : class_end (S fuel) p 58 3 = Ok (3 + length name)%nat) by (rewrite Ep; apply (class_end_name name t (S fuel) Hn 2 [91; 58]); [lia|done|lia]).
  assert (Er : rd p 0 = Ok 91 /\ rd p 1 = Ok 58) by (by rewrite Ep). destruct Er as [E0 E1].
  assert (Hs : forall fuel, bracket_loop (S fuel) mb p wc k kfold inv =
    (j ← class_end fuel p 58 3;
     let name := take (j - 3) (drop 2 p) in
     if (58 =? 58) && (Z.of_nat j - 3 <? 16) && (iswctype (u32 k) (wctype name) || iswctype (u32 kfold) (wctype name)) then Ok (negb inv)
     else bracket_loop fuel mb (drop (j + 1) p) wc k kfold inv)).
  { intros f. cbn [bracket_loop]. rewrite E0. cbn [mbind res_bind]. change (91 =? 93) with false. change ((91 =? 45) || (91 =? 91)) with true. cbv iota. by rewrite E1. }
  rewrite Hs, Ej. cbn [mbind res_bind]. cbv zeta. replace (take (3 + length name - 3) (drop 2 p)) with name.
  2: { rewrite Ep. cbn [app drop]. replace (3 + length name - 3)%nat with (length name) by lia. by rewrite drop_0, take_app_length. }
  rewrite (proj2 (Z.ltb_lt (Z.of_nat _ - 3) 16)) by lia. rewrite !u32_id by lia. cbn [Z.eqb andb in_item].
  replace (drop (3 + length name + 1) p) with t; [done|]. rewrite Ep. cbn [app]. replace (3 + length name + 1)%nat with (2 + (length name + 2))%nat by lia. 
  change (drop (2 + (length name + 2)) (91 :: 58 :: name ++ 58 :: 93 :: t)) with (drop (length name + 2) (name ++ 58 :: 93 :: t)). by rewrite <- drop_drop, drop_app_length.
Qed.

Lemma rng_step fuel w c d t wc : cstr w -> dec mb w = Some (length w, c) -> plain (hd 0 w) -> 0 < d < 128 -> plain d -> c <= d -> cstr t ->
  bracket_loop (S (S (S fuel))) mb (((w ++ [45; d]) ++ t) ++ [0]) wc k kfold inv =
    if in_item k kfold (Rng w c d) then Ok (negb inv) else bracket_loop fuel mb (t ++ [0]) d k kfold inv.
Proof.
  intros Hw Hd Hpw Hdr Hpd Hcd Ht. pose proof (dec_range mb w _ c Hw Hd) as [_ Hc]. rewrite <- (app_assoc w). cbn [app].
  assert (Ht' : cstr (45 :: d :: t)) by (constructor; [lia|constructor; [lia|done]]).
  rewrite (chr_step _ w c) by done. cbn [in_item].
  destruct ((c =? k) || (c =? kfold)) eqn:E1; [replace (_ || _) with true; [done|symmetry; lia]|].
  set (f := S fuel). cbn [bracket_loop app]. change (rd (45 :: d :: t ++ [0]) 0) with (Ok 45). change (rd (45 :: d :: t ++ [0]) 1) with (Ok d). cbn [mbind res_bind].
  change (45 =? 93) with false. cbn [orb andb]. change ((45 =? 45) || (45 =? 91)) with true. cbv iota. cbn [mbind res_bind]. destruct Hpd as (D91 & D93 & D45).
  rewrite (proj2 (Z.eqb_neq d 93)) by done. cbn [negb andb]. change (45 =? 45) with true. cbn [andb tl]. change (d :: t ++ [0]) with ((d :: t) ++ [0]).
  apply Forall_cons_1 in Ht' as [_ Ht']. rewrite mbchar_spec by done. rewrite (dec_in_dec mb _ 4 1 d) by (lia || (cbn [dec]; by rewrite (proj2 (Z.ltb_lt d 128)) by lia)). cbn [mbind res_bind].
  rewrite (proj2 (Z.leb_le c d)), !range_test by lia. cbn [andb].
  destruct ((c <=? k) && (k <=? d) || (c <=? kfold) && (kfold <=? d)) eqn:E2; [done|]. unfold f. cbn [drop app].
  change (d :: t ++ [0]) with (([d] ++ t) ++ [0]). rewrite (chr_step _ [d] d); [|repeat constructor; lia|cbn [dec length]; by rewrite (proj2 (Z.ltb_lt d 128)) by lia|done|done].
  replace ((d =? k) || (d =? kfold)) with false by lia. done.
Qed.

(** The items of a bracket, one after the other *)
Lemma items_pass items : forall N fuel u wc, Forall (item_ok mb) items -> cstr u -> (length (concat (item_src <$> items)) + N < fuel)%nat ->
  exists fuel' wc', (N < fuel')%nat /\ bracket_loop fuel mb ((concat (item_src <$> items) ++ u) ++ [0]) wc k kfold inv =
    if existsb (in_item k kfold) items then Ok (negb inv) else bracket_loop fuel' mb (u ++ [0]) wc' k kfold inv.
Proof.
  induction items as [|i items IH]; intros N fuel u wc Hi Hu Hf.
  { exists fuel, wc. split; [done|]. done. }
  apply Forall_cons_1 in Hi as [Hi His]. rewrite fmap_cons in *. cbn [concat existsb] in *. rewrite length_app in Hf.
  assert (Hr : cstr (concat (item_src <$> items) ++ u)) by (apply Forall_app; split; [by apply (items_cstr mb)|done]).
  rewrite <- (app_assoc (item_src i)).
  assert (Hmatch : forall j, in_item k kfold j = true -> exists fuel' wc', (N < fuel')%nat /\ Ok (negb inv) =
      if in_item k kfold j || existsb (in_item k kfold) items then Ok (negb inv) else bracket_loop fuel' mb (u ++ [0]) wc' k kfold inv).
  { intros j ->. exists fuel, wc. split; [lia|done]. }
  destruct i as [w c|w c d|name]; cbn [item_ok item_src] in *.
  - destruct fuel as [|fuel]; [lia|]. destruct Hi as (H1 & H2 & H3). rewrite (chr_step _ w c) by done. fold (in_item k kfold (Chr w c)).
    destruct (in_item k kfold (Chr w c)) eqn:E; [by rewrite <- E; apply Hmatch|]. pose proof (dec_range mb w _ c H1 H2) as [? _]. apply IH; [done|done|lia].
  - rewrite length_app in Hf. cbn [length] in Hf. destruct fuel as [|[|[|fuel]]]; [lia..|]. destruct Hi as (H1 & H2 & H3 & H4 & H5 & H6). rewrite (rng_step _ w c d) by done.
    destruct (in_item k kfold (Rng w c d)) eqn:E; [by rewrite <- E; apply Hmatch|]. pose proof (dec_range mb w _ c H1 H2) as [? _]. apply IH; [done|done|lia].
  - rewrite !length_app in Hf. cbn [length] in Hf. destruct fuel as [|[|fuel]]; [lia..|]. destruct Hi as (H1 & H2). rewrite <- app_assoc, cls_step by (done || lia).
    destruct (in_item k kfold (Cls name)) eqn:E; [by rewrite <- E; apply Hmatch|]. apply IH; [done|done|lia].
Qed.

Lemma items_loop items fuel t wc : Forall (item_ok mb) items -> cstr t -> (length (concat (item_src <$> items)) < fuel)%nat ->
  bracket_loop fuel mb ((concat (item_src <$> items) ++ 93 :: t) ++ [0]) wc k kfold inv = Ok (xorb inv (existsb (in_item k kfold) items)).
Proof.
  intros Hi Ht Hf. destruct (items_pass items 0 fuel (93 :: t) wc) as (fuel' & wc' & Hf' & ->); [done|by constructor; [lia|]|lia|].
  destruct (existsb _ _); [by rewrite xorb_true_r|]. rewrite xorb_false_r. destruct fuel' as [|fuel']; [lia|done].
Qed.

(** A range up to a character of several bytes, when it does not match *)
Lemma multibyte_step fuel wd d rest c : cstr wd -> dec mb wd = Some (length wd, d) -> (1 < length wd)%nat -> cstr rest -> 0 <= c ->
  in_item k kfold (Rng [] c d) = false -> bracket_loop (S (S fuel)) mb ((45 :: wd ++ rest) ++ [0]) c k kfold inv = Ok false.
Proof.
  intros Hw Hd Hlen Hr Hc E. set (f := S fuel). assert (Hu : cstr (wd ++ rest)) by (by apply Forall_app).
  pose proof (dec_app mb wd rest _ d Hw Hr Hd) as Hd'. pose proof (dec_len mb wd _ d Hw Hd) as H4. pose proof (dec_range mb wd _ d Hw Hd) as [_ Hdr].
  destruct (range_end mb (wd ++ rest) (length wd) d Hu Hd' Hlen) as (b & t & Et & Hb & Hmb).
  assert (H93 : exists b0 l, wd ++ rest = b0 :: l /\ b0 <> 93).
  { destruct wd as [|b0 wd]; [by cbn in Hlen; lia|]. exists b0, (wd ++ rest). split; [done|]. intros ->. cbn in Hd. injection Hd as Hl _. cbn in Hlen. lia. }
  destruct H93 as (b0 & l & El & H93). cbn [bracket_loop app]. change (rd (45 :: (wd ++ rest) ++ [0]) 0) with (Ok 45).
  assert (Er : rd (45 :: (wd ++ rest) ++ [0]) 1 = Ok b0) by (by rewrite El). rewrite Er. cbn [mbind res_bind].
  change (45 =? 93) with false. change ((45 =? 45) || (45 =? 91)) with true. cbv iota. cbn [mbind res_bind]. rewrite (proj2 (Z.eqb_neq b0 93)) by done.
  change ((45 =? 45) && negb false) with true. cbn [tl]. assert (Hne : wd ++ rest <> []) by (by rewrite El). rewrite mbchar_spec, (dec_in_dec mb _ 4 _ d Hd') by (done || lia). cbn [mbind res_bind].
  replace ((c <=? d) && ((u32 (k - c) <=? d - c) || (u32 (kfold - c) <=? d - c))) with false.
  2: { symmetry. destruct (Z.leb_spec c d) as [L|L]; [|done]. cbn [andb]. rewrite !range_test by lia. exact E. }
  replace (drop (length wd) (45 :: (wd ++ rest) ++ [0])) with ((b :: t) ++ [0]).
  - unfold f. apply cont_stops; [lia| |done|done]. rewrite <- Et. by apply cstr_drop.
  - rewrite <- Et, <- drop_app_le by (rewrite length_app; lia). destruct (length wd) as [|n]; [lia|]. cbn [drop]. by rewrite Nat.sub_succ, Nat.sub_0_r.
Qed.
End items.

(** The start of a bracket: a bang or none, and then no bracket or hyphen *)
Lemma bracket_start fuel mb (neg : bool) c s k kfold : c <> 93 -> c <> 45 -> (neg = false -> c <> 94 /\ c <> 33) ->
  exists wc, match_bracket fuel mb (91 :: (if neg then [33] else []) ++ c :: s) k kfold = bracket_loop fuel mb (c :: s) wc k kfold neg.
Proof.
  intros H93 H45 Hneg. unfold match_bracket. cbn [tl]. destruct neg; cbn [app].
  - exists 33. change (rd (33 :: c :: s) 0) with (Ok 33). cbn [mbind res_bind]. change ((33 =? 94) || (33 =? 33)) with true. cbv zeta iota. cbn [tl].
    change (rd (c :: s) 0) with (Ok c). cbn [mbind res_bind]. by rewrite (proj2 (Z.eqb_neq c 93)), (proj2 (Z.eqb_neq c 45)) by done.
  - exists 91. change (rd (c :: s) 0) with (Ok c). cbn [mbind res_bind]. destruct (Hneg eq_refl) as [N1 N2].
    rewrite (proj2 (Z.eqb_neq c 94)), (proj2 (Z.eqb_neq c 33)) by done. cbn [orb]. cbv zeta iota. change (rd (c :: s) 0) with (Ok c). cbn [mbind res_bind].
    by rewrite (proj2 (Z.eqb_neq c 93)), (proj2 (Z.eqb_neq c 45)) by done.
Qed.

(** An item starts with no bracket that closes and no hyphen. *)
Lemma item_start mb i : item_ok mb i -> exists c s, item_src i = c :: s /\ c <> 93 /\ c <> 45.
Proof.
  destruct i as [w c|w c d|name]; cbn [item_ok item_src]; [intros (_ & Hd & Hp)|intros (_ & Hd & Hp & _)|intros _; by do 2 eexists];
    (destruct w as [|b w]; [done|]); destruct Hp as (_ & ? & ?); by do 2 eexists.
Qed.

(** C17: A bracket expression means what POSIX says: a list of characters, of ranges that end with
    an ASCII character and of classes, after a bang or not, matches a character (or its other
    case) exactly if one of the items does, or none does after a bang.  Nothing is
    read outside the bracket. *)
Theorem bracket_correct mb fuel items neg t k kfold : 0 < k < 2 ^ 31 -> 0 < kfold < 2 ^ 31 -> Forall (item_ok mb) items -> items <> [] -> cstr t ->
  (neg = false -> hd 0 (concat (item_src <$> items)) <> 94 /\ hd 0 (concat (item_src <$> items)) <> 33) -> (length (concat (item_src <$> items)) < fuel)%nat ->
  match_bracket fuel mb (91 :: (if neg : bool then [33] else []) ++ concat (item_src <$> items) ++ 93 :: t ++ [0]) k kfold = Ok (xorb neg (existsb (in_item k kfold) items)).
Proof.
  intros Hk Hkf Hi Hne Ht Hneg Hf. destruct items as [|i items]; [done|]. pose proof (Forall_cons_1 _ _ _ Hi) as [H1 _].
  destruct (item_start mb i H1) as (c & s & Es & H93 & H45). set (u := concat (item_src <$> i :: items)) in *.
  assert (Eu : exists s', u = c :: s') by (unfold u; rewrite fmap_cons; cbn [concat]; rewrite Es; by eexists). destruct Eu as (s' & Eu).
  rewrite Eu in Hneg. cbn [hd] in Hneg. destruct (bracket_start fuel mb neg c (s' ++ 93 :: t ++ [0]) k kfold H93 H45 Hneg) as (wc & Hm).
  change (c :: s' ++ 93 :: t ++ [0]) with ((c :: s') ++ 93 :: t ++ [0]) in Hm. rewrite <- Eu in Hm. rewrite Hm.
  pose proof (items_loop mb k kfold neg Hk Hkf (i :: items) fuel t wc Hi Ht Hf) as H. fold u in H. by rewrite <- app_assoc in H.
Qed.

Lemma bracket_correct_witness :
  match_bracket 100 4 (91 :: [33] ++ concat (item_src <$> [Rng [97] 97 102; Chr [0xc3; 0xa9] 0xe9; Cls (str "digit"%string)]) ++ 93 :: [] ++ [0]) 120 120 = Ok true.
Proof.
  refine (bracket_correct 4 100 [Rng [97] 97 102; Chr [0xc3; 0xa9] 0xe9; Cls (str "digit"%string)] true [] 120 120 _ _ _ _ _ _ _); [lia|lia| |done|constructor|done|].
  - repeat apply Forall_cons_2; [| | |apply Forall_nil_2]; cbn [item_ok]; unfold plain.
    + split_and!; [repeat constructor; lia|reflexivity|cbn; lia..].
    + split_and!; [repeat constructor; lia|reflexivity|cbn; lia..].
    + split; [apply (bool_decide_unpack _); by vm_compute|cbn; lia].
  - cbn. lia.
Defined.

(** C40: A range up to a character of several bytes that does not match spoils what follows it in
    the bracket: the loop goes on at the last byte of that character, which is none, and
    gives up.  Whatever items stand before the range and do not match, and whatever
    follows it, [match_bracket] reports no match, also if an item behind the range matches, and also if the
    bracket is a complement, in which this should have been a match. *)
Theorem multibyte_range mb fuel items neg w c wd d rest k kfold : 0 < k < 2 ^ 31 -> 0 < kfold < 2 ^ 31 ->
  Forall (item_ok mb) (items ++ [Chr w c]) -> cstr wd -> dec mb wd = Some (length wd, d) -> (1 < length wd)%nat -> cstr rest ->
  (neg = false -> hd 0 (concat (item_src <$> items ++ [Chr w c])) <> 94 /\ hd 0 (concat (item_src <$> items ++ [Chr w c])) <> 33) ->
  existsb (in_item k kfold) (items ++ [Chr w c; Rng w c d]) = false ->
  (length (concat (item_src <$> items ++ [Chr w c])) + 2 < fuel)%nat ->
  match_bracket fuel mb (91 :: (if neg : bool then [33] else []) ++ concat (item_src <$> items ++ [Chr w c]) ++ 45 :: wd ++ rest ++ [0]) k kfold = Ok false.
Proof.
  intros Hk Hkf Hi Hw Hd Hl Hr Hneg E Hf. rewrite existsb_app in E. apply orb_false_iff in E as [E1 E2]. cbn [existsb] in E2.
  apply orb_false_iff in E2 as [E2 E3]. apply orb_false_iff in E3 as [E3 _].
  rewrite fmap_app, concat_app in *. cbn [fmap list_fmap concat item_src] in *. rewrite app_nil_r in *. set (src := concat (item_src <$> items)) in *.
  apply Forall_app in Hi as [Hi Hc]. apply Forall_cons_1 in Hc as [Hc _]. pose proof Hc as (Cw & Dw & Pw). pose proof (dec_range mb w _ c Cw Dw) as [_ Hcr].
  assert (Es : exists c0 s, src ++ w = c0 :: s /\ c0 <> 93 /\ c0 <> 45).
  { destruct (item_start mb (Chr w c) Hc) as (c0 & s & E0 & H0). cbn [item_src] in E0. unfold src. destruct items as [|i items]; [by exists c0, s|].
    apply Forall_cons_1 in Hi as [Hi _]. destruct (item_start mb i Hi) as (c1 & s1 & Ei & H1). rewrite fmap_cons. cbn [concat]. rewrite Ei. by eexists _, _. }
  destruct Es as (c0 & s & Es & H93 & H45). rewrite Es in Hneg. cbn [hd] in Hneg.
  destruct (bracket_start fuel mb neg c0 (s ++ 45 :: wd ++ rest ++ [0]) k kfold H93 H45 Hneg) as (wc & Hm).
  change (c0 :: s ++ 45 :: wd ++ rest ++ [0]) with ((c0 :: s) ++ 45 :: wd ++ rest ++ [0]) in Hm. rewrite <- Es in Hm. rewrite Hm. clear Hm.
  set (u := 45 :: wd ++ rest). assert (Hu : cstr u) by (constructor; [lia|by apply Forall_app]).
  replace ((src ++ w) ++ 45 :: wd ++ rest ++ [0]) with ((src ++ (w ++ u)) ++ [0]) by (unfold u; rewrite <- !app_assoc; cbn [app]; by rewrite <- !app_assoc).
  rewrite length_app in Hf. pose proof (dec_range mb w _ c Cw Dw) as [Hlw _].
  destruct (items_pass mb k kfold neg Hk Hkf items 2 fuel (w ++ u) wc) as (fuel' & wc' & Hf' & Hp); [done|by apply Forall_app|fold src; lia|].
  fold src in Hp. rewrite Hp, E1. destruct fuel' as [|fuel']; [lia|]. rewrite (chr_step mb k kfold neg _ w c) by done. cbn [in_item] in E2. rewrite E2.
  destruct fuel' as [|[|fuel']]; [lia..|]. apply (multibyte_step mb k kfold neg Hk Hkf fuel' wd d rest c Hw Hd Hl Hr); [lia|exact E3].
Qed.

(** The range from U+00E0 to U+00F6 and an [x]; the complement of that range *)
Lemma multibyte_range_witness :
  match_bracket 100 4 (91 :: [] ++ concat (item_src <$> [] ++ [Chr [0xc3; 0xa0] 0xe0]) ++ 45 :: [0xc3; 0xb6] ++ [120; 93] ++ [0]) 120 120 = Ok false /\
  match_bracket 100 4 (91 :: [33] ++ concat (item_src <$> [Chr [97] 97] ++ [Chr [0xc3; 0xa0] 0xe0]) ++ 45 :: [0xc3; 0xb6] ++ [93] ++ [0]) 120 120 = Ok false.
Proof.
  assert (H1 : item_ok 4 (Chr [97] 97)) by (cbn [item_ok]; unfold plain; split_and!; [repeat constructor; lia|reflexivity|cbn; lia..]).
  assert (H2 : item_ok 4 (Chr [0xc3; 0xa0] 0xe0)) by (cbn [item_ok]; unfold plain; split_and!; [repeat constructor; lia|reflexivity|cbn; lia..]).
  split.
  - refine (multibyte_range 4 100 [] false [0xc3; 0xa0] 0xe0 [0xc3; 0xb6] 0xf6 [120; 93] 120 120 _ _ _ _ _ _ _ _ _ _);
      [lia|lia|by repeat constructor|repeat constructor; lia|reflexivity|cbn; lia|repeat constructor; lia|cbn; lia|reflexivity|cbn; lia].
  - refine (multibyte_range 4 100 [Chr [97] 97] true [0xc3; 0xa0] 0xe0 [0xc3; 0xb6] 0xf6 [93] 120 120 _ _ _ _ _ _ _ _ _ _);
      [lia|lia|by apply Forall_cons_2; [|apply Forall_cons_2]|repeat constructor; lia|reflexivity|cbn; lia|repeat constructor; lia|done|reflexivity|cbn; lia].
Defined.
