(* ===== verification/FnmatchGlob.v ===== *)
(** Patterns of file names as lists of codes, and what it means to match one: a
    star stands for any characters, another code for one.  The components between
    stars can be looked for one after the other, at the first place. *)
From S2P Require Import Prelude CStr Utf8 Wctype Fnmatch FnmatchLex FnmatchBracket.
#[local] Open Scope c_scope.

(** A code of a pattern and the suffix of the pattern that starts with it. *)
Record tok := Tok { code : Z; src : list Z }.

Section glob.
Context (sat : tok -> Z -> bool).

Inductive globs : list tok -> list Z -> Prop :=
| globs_nil : globs [] []
| globs_one t ts c cs : code t <> STAR -> sat t c = true -> globs ts cs -> globs (t :: ts) (c :: cs)
| globs_star t ts a b : code t = STAR -> globs ts b -> globs (t :: ts) (a ++ b).

Definition matches (ts : list tok) (cs : list Z) : Prop := Forall2 (fun t c => sat t c = true) ts cs.
Definition plain_codes (ts : list tok) : Prop := Forall (fun t => code t <> STAR) ts.

Lemma globs_nil_iff cs : globs [] cs <-> cs = [].
Proof. split; [by inversion 1|intros ->; constructor]. Qed.

Lemma globs_one_iff t ts c cs : code t <> STAR -> globs (t :: ts) (c :: cs) <-> sat t c = true /\ globs ts cs.
Proof. intros Ht. split; [inversion 1; subst; done|intros [? ?]; by constructor]. Qed.

Lemma globs_one_nil t ts : code t <> STAR -> ~ globs (t :: ts) [].
Proof. intros Ht. by inversion 1. Qed.

Lemma globs_star_iff t ts cs : code t = STAR -> globs (t :: ts) cs <-> exists a b, cs = a ++ b /\ globs ts b.
Proof. intros Ht. split; [inversion 1; subst; [done|by do 2 eexists]|intros (a & b & -> & H); by constructor]. Qed.

Lemma globs_app ts1 ts2 cs : globs (ts1 ++ ts2) cs <-> exists a b, cs = a ++ b /\ globs ts1 a /\ globs ts2 b.
Proof.
  split.
  - revert cs. induction ts1 as [|t ts1 IH]; intros cs; cbn [app]; [intros H; exists [], cs; split_and!; [done|constructor|done]|].
    inversion 1 as [|? ? c cs' Ht Hs Hg|? ? a b Ht Hg]; subst; apply IH in Hg as (x & y & -> & H1 & H2).
    + exists (c :: x), y. split_and!; [done|by constructor|done].
    + exists (a ++ x), y. split_and!; [by rewrite app_assoc|by constructor|done].
  - intros (a & b & -> & H1 & H2). induction H1 as [|t ts c cs Ht Hs H1 IH|t ts x y Ht H1 IH]; cbn [app]; [done|by constructor|].
    rewrite <- app_assoc. by constructor.
Qed.

Lemma globs_plain ts cs : plain_codes ts -> globs ts cs <-> matches ts cs.
Proof.
  intros Hp. split.
  - intros Hg. induction Hg as [|t ts c cs Ht Hs Hg IH|t ts a b Ht Hg IH]; [constructor| |]; apply Forall_cons_1 in Hp as [H0 Hp]; [|done]. constructor; [done|by apply IH].
  - intros Hm. induction Hm as [|t c ts cs Ht Hm IH]; [constructor|]. apply Forall_cons_1 in Hp as [H0 Hp]. constructor; [done|done|by apply IH].
Qed.

(** A star takes more. *)
Lemma globs_star_more t ts a cs : code t = STAR -> globs (t :: ts) cs -> globs (t :: ts) (a ++ cs).
Proof. intros Ht. rewrite !globs_star_iff by done. intros (x & y & -> & H). exists (a ++ x), y. by rewrite app_assoc. Qed.

(** The characters that are left to the codes after the last star *)
Lemma globs_tail t ts tail cs a b : code t = STAR -> plain_codes tail -> cs = a ++ b -> length b = length tail ->
  globs (t :: ts ++ tail) cs <-> globs (t :: ts) a /\ matches tail b.
Proof.
  intros Ht Hp -> Hl. change (t :: ts ++ tail) with ((t :: ts) ++ tail). rewrite globs_app. split.
  - intros (x & y & E & H1 & H2). apply globs_plain in H2; [|done]. assert (length y = length b) by (rewrite Hl; symmetry; by apply Forall2_length in H2).
    apply app_inj_2 in E as [<- <-]; [done|done].
  - intros [H1 H2]. exists a, b. split_and!; [done|done|by apply globs_plain].
Qed.

Lemma globs_length ts cs : plain_codes ts -> globs ts cs -> length ts = length cs.
Proof. intros Hp H. apply globs_plain in H; [|done]. by apply Forall2_length in H. Qed.

Lemma globs_short t ts tail cs : plain_codes tail -> (length cs < length tail)%nat -> ~ globs (t :: ts ++ tail) cs.
Proof.
  intros Hp Hl. change (t :: ts ++ tail) with ((t :: ts) ++ tail). rewrite globs_app. intros (x & y & -> & _ & H). apply globs_length in H; [|done]. rewrite length_app in Hl. lia.
Qed.

(** *** A component: codes without stars, between two stars *)
Section component.
Context (t u : tok) (C M : list tok) (Ht : code t = STAR) (Hu : code u = STAR) (Hc : plain_codes C).

Lemma component_inv cs : globs (t :: C ++ u :: M) cs <-> exists x y z, cs = x ++ y ++ z /\ matches C y /\ globs (u :: M) z.
Proof.
  rewrite globs_star_iff by done. split.
  - intros (x & r & -> & (y & z & -> & H1 & H2)%globs_app). exists x, y, z. split_and!; [done|by apply globs_plain|done].
  - intros (x & y & z & -> & H1 & H2). exists x, (y ++ z). split; [done|]. apply globs_app. exists y, z. split_and!; [done|by apply globs_plain|done].
Qed.

(** It matches here: then here is as good as any place. *)
Lemma component_first a b : matches C a -> globs (t :: C ++ u :: M) (a ++ b) <-> globs (u :: M) b.
Proof.
  intros Ha. rewrite component_inv. split.
  - intros (x & y & z & E & Hy & Hz). apply Forall2_length in Ha as La. apply Forall2_length in Hy as Ly.
    assert (Hw : exists w, b = w ++ z); [|destruct Hw as [w ->]; by apply globs_star_more].
    exists (drop (length a) (x ++ y)). rewrite app_assoc in E. apply (f_equal (drop (length a))) in E. rewrite drop_app_length in E. rewrite E, drop_app_le; [done|]. rewrite length_app. lia.
  - intros H. exists [], a, b. done.
Qed.

(** It does not: then it is looked for later. *)
Lemma component_later c cs : ~ (exists a b, c :: cs = a ++ b /\ matches C a) -> globs (t :: C ++ u :: M) (c :: cs) <-> globs (t :: C ++ u :: M) cs.
Proof.
  intros Hno. rewrite !component_inv. split.
  - intros ([|x0 x] & y & z & E & Hy & Hz); cbn [app] in E; [destruct Hno; by exists y, z|]. injection E as _ E. by exists x, y, z.
  - intros (x & y & z & -> & Hy & Hz). by exists (c :: x), y, z.
Qed.

Lemma component_never cs : (length cs < length C)%nat -> ~ globs (t :: C ++ u :: M) cs.
Proof. intros Hl. rewrite component_inv. intros (x & y & z & -> & Hy & _). apply Forall2_length in Hy. rewrite !length_app in Hl. lia. Qed.
End component.
End glob.
