(* ===== verification/FnmatchText.v ===== *)
(** Strings as characters, patterns as codes: what the loops of fnmatch.c do with them. *)
From S2P Require Import Prelude CStr Utf8 Wctype Fnmatch FnmatchLex FnmatchBracket FnmatchGlob.
#[local] Open Scope c_scope.

(** ** Strings *)

(** A character with its bytes; a string is a list of them. *)
Definition chunk (mb : Z) (x : list Z * Z) : Prop := cstr x.1 /\ dec mb x.1 = Some (length x.1, x.2).
Definition flat (xs : list (list Z * Z)) : list Z := concat (xs.*1).
Abbreviation chars xs := (xs.*2).

Lemma flat_cons x xs : flat (x :: xs) = x.1 ++ flat xs.
Proof. done. Qed.

Lemma flat_app xs ys : flat (xs ++ ys) = flat xs ++ flat ys.
Proof. unfold flat. by rewrite fmap_app, concat_app. Qed.

Section text.
Context (mb : Z).
Abbreviation text := (Forall (chunk mb)).

Lemma chunk_range x : chunk mb x -> (1 <= length x.1)%nat /\ 0 < x.2 < 2 ^ 31.
Proof. intros [H1 H2]. pose proof (dec_range mb _ _ _ H1 H2). lia. Qed.

Lemma flat_cstr xs : text xs -> cstr (flat xs).
Proof. induction 1 as [|x xs [Hx _] _ IH]; [constructor|]. rewrite flat_cons. by apply Forall_app. Qed.

Lemma length_flat xs : text xs -> (length xs <= length (flat xs))%nat.
Proof. induction 1 as [|x xs Hx _ IH]; [done|]. rewrite flat_cons, length_app. pose proof (chunk_range x Hx). cbn [length]. lia. Qed.

Lemma str_next_chunk x t n : chunk mb x -> cstr t -> Z.of_nat (length x.1) <= n -> str_next mb ((x.1 ++ t) ++ [0]) n = Ok (x.2, length x.1).
Proof. intros [H1 H2] Ht Hn. apply (str_next_char mb (x.1 ++ t) n (length x.1) x.2); [by apply Forall_app|by apply dec_app|done]. Qed.

(** A string [xs] before [t]: its end is known, or is the nul. *)
Definition sbound (xs : list (list Z * Z)) (t : list Z) (n : Z) : Prop := n = Z.of_nat (length (flat xs)) \/ (t = [] /\ Z.of_nat (length (flat xs)) <= n).

Lemma sbound_cons x xs t n : sbound (x :: xs) t n -> Z.of_nat (length x.1) <= n /\ sbound xs t (n - Z.of_nat (length x.1)).
Proof. unfold sbound. rewrite flat_cons, length_app. intros [->|[-> H]]; (split; [lia|]); [left; lia|right; split; [done|lia]]. Qed.

Lemma sbound_range xs t n : sbound xs t n -> 0 <= n.
Proof. intros [->|[_ H]]; lia. Qed.

Lemma str_next_end_text t n : sbound [] t n -> exists s, str_next mb (t ++ [0]) n = Ok (0, s).
Proof. intros [->|[-> _]]; [by exists 0%nat|]. rewrite str_next_end. eauto. Qed.

Lemma strnlen_text xs t n : text xs -> sbound xs t n -> strnlen ((flat xs ++ t) ++ [0]) n = Ok (Z.of_nat (length (flat xs))).
Proof.
  intros Hx Hb. pose proof (flat_cstr xs Hx) as Hc. unfold sbound in Hb. revert n Hb. induction Hc as [|c l Hc _ IH]; intros n Hb; cbn [app strnlen length].
  - destruct Hb as [->|[-> _]]; [by destruct t|cbn; by destruct (n =? 0)].
  - rewrite (proj2 (Z.eqb_neq n 0)), (proj2 (Z.eqb_neq c 0)) by (cbn [length] in Hb; lia). rewrite IH; [cbn; f_equal; lia|]. cbn [length] in Hb. destruct Hb as [->|[-> H]]; [left; lia|right; split; [done|lia]].
Qed.

(** Back over one character, and over some. *)
Lemma back_char_spec s b0 bs t : 0xc2 <= b0 <= 0xf4 -> Forall (fun b => 0x80 <= b <= 0xbf) bs -> back_char ((s ++ b0 :: bs) ++ t) (length (s ++ b0 :: bs)) = Ok (length s).
Proof.
  intros H0 Hbs. revert t. induction bs as [|b bs IH] using rev_ind; intros t.
  - rewrite length_app. cbn [length]. rewrite Nat.add_1_r. cbn [back_char]. unfold rd. rewrite <- app_assoc. cbn [app]. rewrite list_lookup_middle by done. cbn [mbind res_bind].
    replace (u32 (b0 - 0x80) <? 0x40) with false; [done|]. symmetry. apply Z.ltb_ge. rewrite u32_id; lia.
  - apply Forall_app in Hbs as [Hbs [Hb _]%Forall_cons_1]. specialize (IH Hbs ([b] ++ t)).
    rewrite app_comm_cons, (app_assoc s). set (p := s ++ b0 :: bs) in *.
    assert (Hp : (length p =? 0)%nat = false) by (unfold p; rewrite length_app; cbn [length]; by rewrite Nat.add_succ_r).
    rewrite (length_app p [b]). cbn [length]. rewrite Nat.add_1_r, <- (app_assoc p). cbn [back_char]. unfold rd. cbn [app]. rewrite list_lookup_middle by done. cbn [mbind res_bind].
    rewrite (proj2 (Z.ltb_lt _ 0x40)) by (rewrite u32_id; lia). rewrite Hp. exact IH.
Qed.

Lemma rd_last l t : l <> [] -> exists c, rd (l ++ t) (length l - 1) = Ok c /\ exists l', l = l' ++ [c].
Proof.
  intros Hl. destruct l as [|c l _] using rev_ind; [done|]. exists c. rewrite length_app. cbn [length]. rewrite Nat.add_sub. split; [|by exists l].
  unfold rd. rewrite <- app_assoc. cbn [app]. by rewrite list_lookup_middle.
Qed.

Lemma back_step xs x t cnt : chunk mb x -> back mb ((flat (xs ++ [x]) ++ t)) (length (flat (xs ++ [x]))) (S cnt) = back mb (flat (xs ++ [x]) ++ t) (length (flat xs)) cnt.
Proof.
  intros Hx. pose proof (chunk_range x Hx) as [Hl _]. destruct Hx as [Hc Hd]. rewrite flat_app. unfold flat at 2 4 6. cbn [fmap list_fmap concat]. rewrite app_nil_r. cbn [back].
  replace (length (flat xs ++ x.1) =? 0)%nat with false by (rewrite length_app; symmetry; apply Nat.eqb_neq; lia).
  destruct (x.1) as [|b0 bs] eqn:E; [done|]. destruct (decide (bs = [])) as [->|Hbs].
  - rewrite length_app. cbn [length]. rewrite Nat.add_sub. unfold rd. rewrite <- app_assoc. cbn [app]. rewrite list_lookup_middle by done. cbn [mbind res_bind].
    destruct ((b0 <? 128) || (mb =? 1)) eqn:Eb; [done|]. exfalso. apply orb_false_iff in Eb as [E1 E2]. apply Z.ltb_ge in E1. apply Z.eqb_neq in E2.
    destruct (dec_shape mb [b0] _ _ Hc E2 Hd E1) as (b & bs & Et & _ & _ & Hne). cbn in Et. by injection Et as _ <-.
  - assert (Hb : 128 <= b0 /\ mb <> 1).
    { cbn [dec] in Hd. destruct (Z.ltb_spec b0 128); [injection Hd as Hd _; by destruct bs|]. split; [done|]. intros ->. injection Hd as Hd _. by destruct bs. }
    destruct Hb as [Hb Hmb]. destruct (dec_shape mb (b0 :: bs) _ _ Hc Hmb Hd Hb) as (b & bs' & Et & Hr & Hco & _). rewrite firstn_all in Et. injection Et as <- <-.
    destruct (rd_last (flat xs ++ b0 :: bs) t) as (c & Er & l' & Hin); [by destruct (flat xs)|]. rewrite Er. cbn [mbind res_bind].
    replace ((c <? 128) || (mb =? 1)) with false; [by rewrite back_char_spec|]. symmetry. apply orb_false_iff. split; [|by apply Z.eqb_neq]. apply Z.ltb_ge.
    destruct bs as [|b1 bs] using rev_ind; [done|]. clear IHbs. rewrite app_comm_cons, app_assoc in Hin. apply app_inj_tail in Hin as [_ <-].
    apply Forall_app in Hco as [_ [Hb1 _]%Forall_cons_1]. lia.
Qed.

Lemma back_spec cnt : forall xs t, text xs -> back mb (flat xs ++ t) (length (flat xs)) cnt = Ok (length (flat (take (length xs - cnt) xs)), (cnt - length xs)%nat).
Proof.
  induction cnt as [|cnt IH]; intros xs t Hx; [cbn [back]; by rewrite Nat.sub_0_r, firstn_all|].
  destruct xs as [|x xs _] using rev_ind; [done|]. apply Forall_app in Hx as [Hx [Hx1 _]%Forall_cons_1]. rewrite back_step by done.
  rewrite flat_app, <- app_assoc, IH by done. rewrite length_app. cbn [length]. replace (length xs + 1 - S cnt)%nat with (length xs - cnt)%nat by lia.
  rewrite take_app_le by lia. do 2 f_equal. lia.
Qed.
End text.

(** ** Patterns *)
Section pattern.
Context (mb flags : Z).
Abbreviation text := (Forall (chunk mb)).

(** The other case of a character, if case does not count *)
Definition other (k : Z) : Z := if flag flags FNM_CASEFOLD then casefold k else k.

Definition bracket_has (l : list Z) (k : Z) : bool := match match_bracket (S (length l)) mb (l ++ [0]) k (other k) with Ok b => b | _ => false end.

(** Whether a character is one that a code stands for. *)
Definition sat (t : tok) (k : Z) : bool :=
  if code t =? UNMATCHABLE then false
  else if code t =? BRACKET then bracket_has (src t) k
  else (code t =? QUESTION) || (k =? code t) || (other k =? code t).

(** The codes of a pattern; one that cannot be read ends it and matches nothing. *)
Fixpoint codes_from (n : nat) (l : list Z) : list tok :=
  match n with
  | O => []
  | S n => match lex mb flags l with
           | None => []
           | Some (c, k) => Tok c l :: (if c =? UNMATCHABLE then [] else codes_from n (drop k l))
           end
  end.
Definition codes (l : list Z) : list tok := codes_from (length l) l.

(** The codes [ts] fill [m] bytes of [l]. *)
Inductive region : list Z -> nat -> list tok -> Prop :=
| region_nil l : region l 0 []
| region_cons l c k m ts : lex mb flags l = Some (c, k) -> c <> UNMATCHABLE -> region (drop k l) m ts -> region l (k + m) (Tok c l :: ts)
| region_bad l k m : lex mb flags l = Some (UNMATCHABLE, k) -> (1 <= m <= length l)%nat -> region l m [Tok UNMATCHABLE l].

Lemma lex_some l : cstr l -> l <> [] -> exists c k, lex mb flags l = Some (c, k) /\
  ((c = UNMATCHABLE /\ k = 0%nat) \/ ((1 <= k <= length l)%nat /\ (c > 0 \/ c = BRACKET \/ c = QUESTION \/ c = STAR) /\ (c = BRACKET -> bracket_len l = Some k) /\ (c = STAR -> k = 1%nat))).
Proof.
  intros Hl Hne. destruct l as [|c0 l]; [done|]. cbn [lex]. pose proof (Forall_cons_1 _ _ _ Hl) as [_ Hl1].
  assert (Hchar : forall l' esc, cstr l' -> exists c k, Some (match dec mb l' with Some (k, wc) => (wc, (k + esc)%nat) | None => (UNMATCHABLE, 0%nat) end) = Some (c, k) /\
    ((c = UNMATCHABLE /\ k = 0%nat) \/ ((1 <= k <= length l' + esc)%nat /\ (c > 0)))).
  { intros l' esc Hl'. destruct (dec mb l') as [[k wc]|] eqn:E; [|exists UNMATCHABLE, 0%nat; auto]. pose proof (dec_range mb l' k wc Hl' E). exists wc, (k + esc)%nat. split; [done|]. right. lia. }
  assert (Hpos : forall c : Z, c > 0 -> c <> BRACKET /\ c <> STAR) by (unfold BRACKET, STAR; lia).
  destruct ((c0 =? 92) && _ && _).
  { destruct (Hchar l 1%nat Hl1) as (c & k & E & H). exists c, k. split; [done|]. destruct H as [H|[H1 H2]]; [by left|right]. split; [cbn [length]; lia|]. split; [by left|]. apply Hpos in H2 as [? ?]. done. }
  destruct (c0 =? 91).
  { destruct (bracket_len (c0 :: l)) as [k|] eqn:E.
    - exists BRACKET, k. split; [done|]. right. split; [by apply bracket_len_range|]. split; [auto|]. done.
    - exists 91, 1%nat. split; [done|]. right. split; [cbn; lia|]. split; [lia|]. done. }
  destruct (c0 =? 42); [exists STAR, 1%nat; split; [done|]; right; split; [cbn; lia|split; [auto|done]]|].
  destruct (c0 =? 63); [exists QUESTION, 1%nat; split; [done|]; right; split; [cbn; lia|split; [auto|done]]|].
  destruct (Hchar (c0 :: l) 0%nat Hl) as (c & k & E & H). exists c, k. split; [done|]. destruct H as [H|[H1 H2]]; [by left|right]. split; [lia|]. split; [by left|]. apply Hpos in H2 as [? ?]. done.
Qed.

Lemma lex_step l c k : cstr l -> lex mb flags l = Some (c, k) -> c <> UNMATCHABLE -> (1 <= k <= length l)%nat.
Proof.
  intros Hl E Hc. destruct l as [|c0 l]; [done|]. destruct (lex_some (c0 :: l) Hl ltac:(done)) as (c' & k' & E' & H). rewrite E in E'. injection E' as <- <-.
  destruct H as [[H _]|[H _]]; done.
Qed.

Lemma region_codes_from n : forall l, cstr l -> (length l <= n)%nat -> region l (length l) (codes_from n l).
Proof.
  induction n as [|n IH]; intros l Hl Hn; [destruct l; [|cbn in Hn; lia]; constructor|]. cbn [codes_from].
  destruct (decide (l = [])) as [->|Hne]; [constructor|]. destruct (lex_some l Hl Hne) as (c & k & E & H). rewrite E.
  destruct (Z.eqb_spec c UNMATCHABLE) as [->|Hc]; [apply (region_bad l k); [done|destruct l; [done|cbn; lia]]|].
  destruct H as [[? _]|(Hk & _)]; [done|]. replace (length l) with (k + length (drop k l))%nat by (rewrite length_drop; lia).
  apply region_cons; [done|done|]. apply IH; [by apply cstr_drop|rewrite length_drop; lia].
Qed.

Lemma region_codes l : cstr l -> region l (length l) (codes l).
Proof. intros Hl. by apply region_codes_from. Qed.

Lemma region_length l m ts : cstr l -> region l m ts -> (m <= length l)%nat.
Proof.
  intros Hl H. induction H as [l|l c k m ts E Hc H IH|l k m E Hm]; [lia| |lia]. pose proof (lex_step l c k Hl E Hc). specialize (IH ltac:(by apply cstr_drop)). rewrite length_drop in IH. lia.
Qed.
End pattern.
