(* ===== verification/FnmatchLoops.v ===== *)
(** The loops of fnmatch.c against the meaning of patterns: the head, the last star, the
    tails, the components between stars, and [fnmatch_internal] as a whole. *)
From S2P Require Import Prelude CStr Utf8 Wctype Fnmatch FnmatchLex FnmatchBracket FnmatchGlob FnmatchText.
#[local] Open Scope c_scope.

Section loops.
Context (mb flags : Z).
Abbreviation text := (Forall (chunk mb)).
Abbreviation chars xs := (xs.*2).
Abbreviation sat := (sat mb flags).
Abbreviation globs := (globs sat).
Abbreviation region := (region mb flags).

Lemma other_range k : 0 < k < 2 ^ 31 -> 0 < other flags k < 2 ^ 31.
Proof.
  intros Hk. unfold other. destruct (flag flags FNM_CASEFOLD); [|done]. unfold casefold. cbv zeta. pose proof (tocase_pos k Hk) as [H1 H2].
  rewrite (u32_id k), !s32_id by lia. destruct (_ =? k); done.
Qed.

(** ** One code and one character *)
Lemma mismatch_spec fuel l c k ch : cstr l -> (length l < fuel)%nat -> lex mb flags l = Some (c, k) -> c <> UNMATCHABLE ->
  mismatch fuel mb flags c (l ++ [0]) ch = Ok (negb (sat (Tok c l) ch)).
Proof.
  intros Hl Hf E Hc. unfold mismatch. fold (other flags ch). unfold FnmatchText.sat. cbn [code src]. rewrite (proj2 (Z.eqb_neq c UNMATCHABLE)) by done.
  destruct (Z.eqb_spec c BRACKET) as [->|Hb].
  - destruct (decide (l = [])) as [->|Hne]; [done|]. destruct (lex_some mb flags l Hl Hne) as (c' & k' & E' & H). rewrite E in E'. injection E' as <- <-.
    destruct H as [[? _]|(_ & _ & Hbl & _)]; [done|]. destruct (match_bracket_total mb l k ch (other flags ch) Hl (Hbl eq_refl)) as [b Hb].
    rewrite Hb by done. unfold bracket_has. rewrite Hb by lia. done.
  - cbn. f_equal. by rewrite !negb_orb.
Qed.

Lemma mismatch_end fuel l ch : 0 < ch < 2 ^ 31 -> mismatch fuel mb flags END l ch = Ok true.
Proof.
  intros Hch. unfold mismatch. fold (other flags ch). pose proof (other_range ch Hch). change (END =? BRACKET) with false. cbv iota.
  unfold END. by rewrite (proj2 (Z.eqb_neq ch 0)), (proj2 (Z.eqb_neq (other flags ch) 0)) by lia.
Qed.

(** A pattern of which [m] bytes are looked at: the bound is exact, or the nul is it. *)
Definition pbound (l : list Z) (m : nat) (b : Z) : Prop := b = Z.of_nat m \/ (m = length l /\ Z.of_nat m <= b).

Lemma region_end fuel l b : pbound l 0 b -> pat_next fuel mb (l ++ [0]) b flags = Ok (END, 0%nat).
Proof. intros [->|[H Hb]]; [done|]. destruct l; [|done]. apply pat_next_end. Qed.

Lemma region_next fuel l c k m b : cstr l -> (length l < fuel)%nat -> lex mb flags l = Some (c, k) -> c <> UNMATCHABLE -> pbound l (k + m) b ->
  pat_next fuel mb (l ++ [0]) b flags = Ok (c, k) /\ Z.of_nat k <= b /\ pbound (drop k l) m (b - Z.of_nat k).
Proof.
  intros Hl Hf E Hc Hb. pose proof (lex_step mb flags l c k Hl E Hc) as Hk. unfold pbound in *. rewrite length_drop.
  split; [apply pat_next_lex; [done|done|done|lia|lia]|]. split; [lia|]. lia.
Qed.

Lemma region_bad_next fuel l m b k : cstr l -> (length l < fuel)%nat -> lex mb flags l = Some (UNMATCHABLE, k) -> pbound l m b -> (1 <= m)%nat ->
  pat_next fuel mb (l ++ [0]) b flags = Ok (UNMATCHABLE, 0%nat).
Proof.
  intros Hl Hf E Hb Hm. destruct (decide (l = [])) as [->|Hne]; [done|]. destruct (lex_some mb flags l Hl Hne) as (c' & k' & E' & H). rewrite E in E'. injection E' as <- <-.
  destruct H as [[_ ->]|(_ & Hc & _)]; [|unfold UNMATCHABLE, BRACKET, QUESTION, STAR in Hc; lia]. apply pat_next_lex; [done|done|done|unfold pbound in Hb; lia|unfold pbound in Hb; lia].
Qed.

Lemma bad_no_glob l ts cs : ~ globs (ts ++ [Tok UNMATCHABLE l]) cs.
Proof.
  intros (x & y & -> & _ & H)%globs_app. inversion H as [|? ? c ? _ Hs|? ? ? ? Ht]; subst; [by cbn in Hs|by cbn in Ht].
Qed.

(** The memory of a string that goes on after one of its characters *)
Lemma drop_chunk x xs t : drop (length x.1) ((flat (x :: xs) ++ t) ++ [0]) = (flat xs ++ t) ++ [0].
Proof. rewrite flat_cons, <- !app_assoc. apply drop_app_length. Qed.

Lemma str_next_text x xs t n : text (x :: xs) -> cstr t -> sbound (x :: xs) t n -> str_next mb ((flat (x :: xs) ++ t) ++ [0]) n = Ok (x.2, length x.1).
Proof.
  intros [Hx Hxs]%Forall_cons_1 Ht Hn. rewrite flat_cons, <- (app_assoc x.1). apply str_next_chunk; [done|apply Forall_app; split; [by apply (flat_cstr mb)|done]|].
  by apply sbound_cons in Hn as [? _].
Qed.

Lemma drop_pat k l : (k <= length l)%nat -> drop k (l ++ [0]) = drop k l ++ [0].
Proof. intros Hk. by rewrite drop_app_le. Qed.

(** ** The head *)
Definition head_post (ts : list tok) (xs : list (list Z * Z)) (t : list Z) (len : nat) (r : Z + list Z * Z * list Z * Z) : Prop :=
  match r with
  | inl z => (z = 0 \/ z = 1) /\ (z = 0 <-> globs ts (chars xs))
  | inr (p, b, s, n) => exists l m ts' st xs', code st = STAR /\ p = l ++ [0] /\ s = (flat xs' ++ t) ++ [0] /\ cstr l /\ region l m ts' /\ text xs' /\
      pbound l m b /\ sbound xs' t n /\ b <= SIZE_MAX /\ n <= SIZE_MAX /\ (length l <= len)%nat /\ (length (flat xs') <= length (flat xs))%nat /\
      (globs ts (chars xs) <-> globs (st :: ts') (chars xs'))
  end.

Lemma head_loop_spec fuel : forall l m ts xs t b n, cstr l -> region l m ts -> text xs -> cstr t -> pbound l m b -> sbound xs t n -> b <= SIZE_MAX -> n <= SIZE_MAX ->
  (length l < fuel)%nat ->
  exists r, head_loop fuel mb flags (l ++ [0]) b ((flat xs ++ t) ++ [0]) n = Ok r /\ head_post ts xs t (length l) r.
Proof.
  induction fuel as [|fuel IH]; intros l m ts xs t b n Hl Hr Hx Ht Hb Hn Hb2 Hn2 Hf; [lia|]. cbn [head_loop]. pose proof (sbound_range xs t n Hn) as Hn0.
  destruct Hr as [l|l c k m ts E Hc Hr|l k m E Hm].
  - rewrite region_end by done. cbn [mbind res_bind]. change (END =? UNMATCHABLE) with false. change (END =? STAR) with false. cbv iota. destruct xs as [|x xs].
    + destruct (str_next_end_text mb t n Hn) as [s Es]. cbn [app]. change (flat [] ++ t) with t. rewrite Es. cbn. eexists. split; [done|]. split; [by left|]. by rewrite globs_nil_iff.
    + rewrite str_next_text by done. apply Forall_cons_1 in Hx as [Hx _]. pose proof (chunk_range mb x Hx) as [_ Hc]. cbn [mbind res_bind]. rewrite (proj2 (Z.leb_gt x.2 0)), mismatch_end by lia. cbn [mbind res_bind].
      eexists. split; [done|]. split; [by right|]. split; [done|]. by rewrite globs_nil_iff.
  - destruct (region_next (S fuel) l c k m b) as (-> & Hkb & Hb'); [done|done|done|done|done|]. cbn [mbind res_bind]. rewrite (proj2 (Z.eqb_neq c UNMATCHABLE)) by done.
    pose proof (lex_step mb flags l c k Hl E Hc) as Hk. destruct (Z.eqb_spec c STAR) as [->|Hs].
    + assert (k = 1%nat) as ->.
      { destruct (lex_some mb flags l Hl) as (c' & k' & E' & H); [by intros ->|]. rewrite E in E'. injection E' as <- <-. by destruct H as [[? _]|(_ & _ & _ & H)]; [|apply H]. }
      eexists. split; [done|]. exists (drop 1 l), m, ts, (Tok STAR l), xs. rewrite u64_id by (unfold SIZE_MAX in *; lia). split_and!; try done; [by destruct l|by apply cstr_drop|lia|rewrite length_drop; lia].
    + destruct xs as [|x xs].
      { destruct (str_next_end_text mb t n Hn) as [s Es]. change (flat [] ++ t) with t. rewrite Es. cbn [mbind res_bind]. cbn [Z.leb Z.compare]. eexists. split; [done|].
        assert (Hng : ~ globs (Tok c l :: ts) []) by (by apply globs_one_nil). destruct (Z.eqb_spec c END) as [->|_]; [|split; [by right|split; [done|intros H; by destruct (Hng H)]]].
        exfalso. destruct (lex_some mb flags l Hl) as (c' & k' & E' & H); [by intros ->|]. rewrite E in E'. injection E' as <- <-.
        unfold END, BRACKET, QUESTION, STAR in H. destruct H as [[? _]|(_ & H & _)]; [done|lia]. }
      rewrite str_next_text by done. pose proof (sbound_cons x xs t n Hn) as [Hxn Hn']. apply Forall_cons_1 in Hx as [Hx Hxs]. pose proof (chunk_range mb x Hx) as [Hx1 Hx2]. cbn [mbind res_bind].
      rewrite (proj2 (Z.leb_gt x.2 0)) by lia. rewrite (mismatch_spec (S fuel) l c k) by done. cbn [mbind res_bind].
      assert (Hg : globs (Tok c l :: ts) (chars (x :: xs)) <-> sat (Tok c l) x.2 = true /\ globs ts (chars xs)) by (by apply globs_one_iff).
      destruct (sat (Tok c l) x.2); cbn [negb].
      * rewrite drop_pat, drop_chunk, !u64_id by (unfold SIZE_MAX in *; lia).
        destruct (IH (drop k l) m ts xs t (b - Z.of_nat k) (n - Z.of_nat (length x.1))) as (r & -> & Hpost); try done; [by apply cstr_drop|lia|lia|rewrite length_drop; lia|].
        exists r. split; [done|]. destruct r as [z|[[[p b'] s] n']]; cbn [head_post] in *; [rewrite Hg; tauto|].
        destruct Hpost as (l' & m' & ts' & st & xs' & H). exists l', m', ts', st, xs'. rewrite flat_cons, length_app. rewrite length_drop in H. rewrite Hg. decompose [and] H. split_and!; try done; [lia|lia|tauto].
      * eexists. split; [done|]. split; [by right|]. rewrite Hg. split; [done|]. by intros [? _].
  - rewrite (region_bad_next (S fuel) l m b k) by (done || lia). cbn [mbind res_bind]. change (UNMATCHABLE =? UNMATCHABLE) with true. cbv iota.
    eexists. split; [done|]. split; [by right|]. split; [done|]. intros H. by apply (bad_no_glob l []) in H.
Qed.

(** ** The last star *)
Definition good (ts : list tok) : Prop := Forall (fun t => code t <> UNMATCHABLE) ts.

Lemma star_step l k : cstr l -> lex mb flags l = Some (STAR, k) -> k = 1%nat.
Proof.
  intros Hl E. destruct (lex_some mb flags l Hl) as (c' & k' & E' & H); [by intros ->|]. rewrite E in E'. injection E' as <- <-.
  by destruct H as [[? _]|(_ & _ & _ & H)]; [|apply H].
Qed.

Definition tail_found (l : list Z) (m : nat) (ts : list tok) (pt : list Z) (rt : Z) (cnt : nat) (r : option (list Z * Z * nat)) : Prop :=
  (r = None /\ exists ts' l', ts = ts' ++ [Tok UNMATCHABLE l']) \/
  (good ts /\ plain_codes ts /\ r = Some (pt, rt, (cnt + length ts)%nat)) \/
  (good ts /\ exists m1 ts1 st tail, ts = ts1 ++ st :: tail /\ code st = STAR /\ plain_codes tail /\ region l m1 (ts1 ++ [st]) /\ (m1 <= m)%nat /\
     region (drop m1 l) (m - m1) tail /\ r = Some (drop m1 l ++ [0], Z.of_nat (m - m1), length tail)).

Lemma find_tail_spec fuel : forall l m ts pt rt cnt, cstr l -> region l m ts -> Z.of_nat (length l) <= SIZE_MAX -> (length l < fuel)%nat ->
  exists r, find_tail fuel mb flags (l ++ [0]) (Z.of_nat m) pt rt cnt = Ok r /\ tail_found l m ts pt rt cnt r.
Proof.
  induction fuel as [|fuel IH]; intros l m ts pt rt cnt Hl Hr Hsz Hf; [lia|]. cbn [find_tail]. pose proof (region_length mb flags l m ts Hl Hr) as Hml.
  rewrite u64_id by (unfold SIZE_MAX in *; lia). destruct Hr as [l|l c k m ts E Hc Hr|l k m E Hm].
  - eexists. split; [done|]. right. left. rewrite Nat.add_0_r. split_and!; [constructor|constructor|done].
  - pose proof (lex_step mb flags l c k Hl E Hc) as Hk. destruct (region_next (S fuel) l c k m (Z.of_nat (k + m))) as (-> & _ & _); [done|done|done|done|by left|].
    rewrite (proj2 (Z.gtb_lt (Z.of_nat (k + m)) 0)) by lia. cbn [mbind res_bind]. rewrite (proj2 (Z.eqb_neq c UNMATCHABLE)) by done. rewrite drop_pat by lia.
    replace (Z.of_nat (k + m) - Z.of_nat k) with (Z.of_nat m) by lia. assert (Hgood : forall ts, good ts -> good (Tok c l :: ts)) by (intros ?; by constructor).
    assert (Hdl : cstr (drop k l)) by (by apply cstr_drop).
    destruct (Z.eqb_spec c STAR) as [->|Hs].
    + pose proof (star_step l k Hl E) as ->. destruct (IH (drop 1 l) m ts (tl (l ++ [0])) (Z.of_nat (1 + m) - 1) 0%nat Hdl Hr) as (r & -> & Hpost); [rewrite length_drop; lia|rewrite length_drop; lia|].
      exists r. split; [done|]. destruct Hpost as [(Hn & ts' & l' & ->)|[(Hg & Hp & ->)|(Hg & m1 & ts1 & st & tail & -> & Hst & Ht & Hr1 & Hm1 & Hr2 & ->)]].
      * left. split; [done|]. by exists (Tok STAR l :: ts'), l'.
      * right. right. split; [by apply Hgood|]. exists 1%nat, [], (Tok STAR l), ts. replace (1 + m - 1)%nat with m by lia. split_and!; try done; [|lia|].
        { cbn [app]. apply (region_cons mb flags l STAR 1 0); [done|done|constructor]. }
        { do 3 f_equal. destruct l; [done|]. f_equal. lia. }
      * right. right. split; [by apply Hgood|]. exists (1 + m1)%nat, (Tok STAR l :: ts1), st, tail. rewrite <- drop_drop. replace (1 + m - (1 + m1))%nat with (m - m1)%nat by lia. split_and!; try done; [|lia].
        cbn [app]. by apply region_cons.
    + destruct (IH (drop k l) m ts pt rt (cnt + 1)%nat Hdl Hr) as (r & -> & Hpost); [rewrite length_drop; lia|rewrite length_drop; lia|].
      exists r. split; [done|]. destruct Hpost as [(Hn & ts' & l' & ->)|[(Hg & Hp & ->)|(Hg & m1 & ts1 & st & tail & -> & Hst & Ht & Hr1 & Hm1 & Hr2 & ->)]].
      * left. split; [done|]. by exists (Tok c l :: ts'), l'.
      * right. left. split_and!; [by apply Hgood|by constructor|]. do 2 f_equal. cbn [length]. lia.
      * right. right. split; [by apply Hgood|]. exists (k + m1)%nat, (Tok c l :: ts1), st, tail. rewrite <- drop_drop. replace (k + m - (k + m1))%nat with (m - m1)%nat by lia. split_and!; try done; [|lia].
        cbn [app]. by apply region_cons.
  - rewrite (region_bad_next (S fuel) l m (Z.of_nat m) k) by (done || lia || by left). rewrite (proj2 (Z.gtb_lt (Z.of_nat m) 0)) by lia. cbn. eexists. split; [done|]. left. split; [done|]. by exists [], l.
Qed.

(** ** The tails *)
Lemma tail_loop_spec fuel : forall l m ts xs t, cstr l -> region l m ts -> good ts -> plain_codes ts -> text xs -> cstr t -> length ts = length xs ->
  Z.of_nat (length l) <= SIZE_MAX -> Z.of_nat (length (flat xs)) <= SIZE_MAX -> (length l < fuel)%nat ->
  exists b, tail_loop fuel mb flags (l ++ [0]) (Z.of_nat m) ((flat xs ++ t) ++ [0]) (Z.of_nat (length (flat xs))) = Ok b /\ (b = true <-> matches sat ts (chars xs)).
Proof.
  induction fuel as [|fuel IH]; intros l m ts xs t Hl Hr Hg Hp Hx Ht Hlen Hsz Hsz2 Hf; [lia|]. cbn [tail_loop]. pose proof (region_length mb flags l m ts Hl Hr) as Hml.
  rewrite !u64_id by (unfold SIZE_MAX in *; lia). destruct Hr as [l|l c k m ts E Hc Hr|l k m E Hm].
  - rewrite region_end by (by left). destruct xs; [|done]. exists true. split; [done|]. split; [constructor|done].
  - destruct xs as [|x xs]; [done|]. destruct (region_next (S fuel) l c k m (Z.of_nat (k + m))) as (-> & _ & _); [done|done|done|done|by left|]. pose proof (lex_step mb flags l c k Hl E Hc) as Hk.
    cbn [mbind res_bind]. rewrite str_next_text by (done || by left). cbn [mbind res_bind]. pose proof (flat_cons x xs) as Ef. apply Forall_cons_1 in Hx as [Hx Hxs]. pose proof (chunk_range mb x Hx) as [Hx1 Hx2].
    rewrite (proj2 (Z.leb_gt x.2 0)) by lia. rewrite (mismatch_spec (S fuel) l c k) by done. cbn [mbind res_bind].
    apply Forall_cons_1 in Hg as [_ Hg]. apply Forall_cons_1 in Hp as [_ Hp]. destruct (sat (Tok c l) x.2) eqn:Es; cbn [negb].
    + rewrite drop_pat, drop_chunk by lia. rewrite Ef, length_app in *. replace (Z.of_nat (k + m) - Z.of_nat k) with (Z.of_nat m) by lia.
      replace (Z.of_nat (length x.1 + length (flat xs)) - Z.of_nat (length x.1)) with (Z.of_nat (length (flat xs))) by lia.
      destruct (IH (drop k l) m ts xs t) as (b & -> & Hb); try done; [by apply cstr_drop|by injection Hlen|rewrite length_drop; lia|lia|rewrite length_drop; lia|].
      exists b. split; [done|]. rewrite Hb. split; [by constructor|]. by intros [_ ?]%Forall2_cons_1.
    + exists false. split; [done|]. split; [done|]. intros [Hs _]%Forall2_cons_1. cbn in Hs. congruence.
  - by apply Forall_cons_1 in Hg as [Hg _].
Qed.

(** ** The components between stars *)
Definition attempt_post (l : list Z) (C M : list tok) (xs : list (list Z * Z)) (t : list Z) (a : attempt) : Prop :=
  match a with
  | Never => (length xs < length C)%nat
  | Match p rp s rs => exists l' m' ys zs, xs = ys ++ zs /\ matches sat C (chars ys) /\ p = l' ++ [0] /\ rp = Z.of_nat m' /\ region l' m' M /\ cstr l' /\ (length l' < length l)%nat /\
      s = (flat zs ++ t) ++ [0] /\ rs = Z.of_nat (length (flat zs))
  | Here => ~ (exists a b, chars xs = a ++ b /\ matches sat C a) /\ xs <> []
  end.

Lemma component_spec fuel : forall l m C st M xs t, cstr l -> region l m (C ++ st :: M) -> good (C ++ st :: M) -> plain_codes C -> code st = STAR -> text xs -> cstr t ->
  Z.of_nat (length l) <= SIZE_MAX -> Z.of_nat (length (flat xs)) <= SIZE_MAX -> (length l < fuel)%nat ->
  exists a, component fuel mb flags (l ++ [0]) (Z.of_nat m) ((flat xs ++ t) ++ [0]) (Z.of_nat (length (flat xs))) = Ok a /\ attempt_post l C M xs t a.
Proof.
  induction fuel as [|fuel IH]; intros l m C st M xs t Hl Hr Hg Hp Hst Hx Ht Hsz Hsz2 Hf; [lia|]. cbn [component]. pose proof (region_length mb flags l m _ Hl Hr) as Hml.
  rewrite !u64_id by (unfold SIZE_MAX in *; lia). remember (C ++ st :: M) as ts eqn:Ets. destruct Hr as [l|l c k m ts E Hc Hr|l k m E Hm]; [by destruct C| |].
  2: { destruct C as [|t0 C]; injection Ets as E1 E2; [by rewrite <- E1 in Hst|]. by apply Forall_cons_1 in Hg as [Hg _]. }
  destruct (region_next (S fuel) l c k m (Z.of_nat (k + m))) as (-> & _ & _); [done|done|done|done|by left|]. pose proof (lex_step mb flags l c k Hl E Hc) as Hk. cbn [mbind res_bind].
  rewrite drop_pat by lia. replace (Z.of_nat (k + m) - Z.of_nat k) with (Z.of_nat m) by lia.
  destruct C as [|t0 C]; injection Ets as E1 E2.
  { subst st M. cbn [code] in Hst. subst c. change (STAR =? STAR) with true. cbv iota. eexists. split; [done|]. exists (drop k l), m, [], xs.
    split_and!; try done; [constructor|by apply cstr_drop|rewrite length_drop; lia]. }
  subst t0. apply Forall_cons_1 in Hp as [Hs Hp]. apply Forall_cons_1 in Hg as [_ Hg]. cbn [code] in Hs. rewrite (proj2 (Z.eqb_neq c STAR)) by done.
  destruct xs as [|x xs]; [cbn; eexists; split; [done|]; cbn; lia|].
  rewrite str_next_text by (done || by left). cbn [mbind res_bind]. pose proof (flat_cons x xs) as Ef. apply Forall_cons_1 in Hx as [Hx Hxs]. pose proof (chunk_range mb x Hx) as [Hx1 Hx2].
  rewrite (proj2 (Z.eqb_neq x.2 0)) by lia. rewrite (mismatch_spec (S fuel) l c k) by done. cbn [mbind res_bind]. destruct (sat (Tok c l) x.2) eqn:Es; cbn [negb].
  - rewrite drop_chunk. rewrite Ef, length_app in *. replace (Z.of_nat (length x.1 + length (flat xs)) - Z.of_nat (length x.1)) with (Z.of_nat (length (flat xs))) by lia.
    rewrite E2 in *. destruct (IH (drop k l) m C st M xs t) as (a & -> & Ha); try done; [by apply cstr_drop|rewrite length_drop; lia|lia|rewrite length_drop; lia|].
    exists a. split; [done|]. destruct a as [|p rp s rs|]; cbn [attempt_post length] in *; [lia| |].
    + destruct Ha as (l' & m' & ys & zs & -> & H1 & H2 & H3 & H4 & H5 & H6 & H7 & H8). exists l', m', (x :: ys), zs. rewrite length_drop in H6. split_and!; try done; [|lia]. rewrite fmap_cons. by constructor.
    + destruct Ha as [Ha _]. split; [|done]. intros (a & b & Eab & Hm). apply Ha. inversion Hm as [|? y ? a' Hy Hm']; subst. rewrite fmap_cons in Eab. injection Eab as _ Eab. by exists a', b.
  - eexists. split; [done|]. split; [|done]. intros (a & b & Eab & Hm). inversion Hm as [|? y ? a' Hy Hm']; subst. rewrite fmap_cons in Eab. injection Eab as <- Eab. congruence.
Qed.

(** A list of codes that ends with a star starts with a component. *)
Definition closed (ts : list tok) : Prop := ts = [] \/ exists ts0 st, ts = ts0 ++ [st] /\ code st = STAR.

Lemma first_component ts : closed ts -> ts <> [] -> exists C st M, ts = C ++ st :: M /\ plain_codes C /\ code st = STAR /\ closed M.
Proof.
  intros [->|(ts0 & st & -> & Hst)] Hne; [done|clear Hne]. induction ts0 as [|t ts0 IH].
  - exists [], st, []. split_and!; [done|constructor|done|by left].
  - destruct (decide (code t = STAR)) as [Ht|Ht].
    + exists [], t, (ts0 ++ [st]). split_and!; [done|constructor|done|]. right. by exists ts0, st.
    + destruct IH as (C & st' & M & E & Hp & Hst' & HM). exists (t :: C), st', M. split_and!; [cbn; by rewrite E|by constructor|done|done].
Qed.

Lemma sea_spec fuel : forall l m ts xs t st, cstr l -> region l m ts -> good ts -> closed ts -> code st = STAR -> text xs -> cstr t ->
  Z.of_nat (length l) <= SIZE_MAX -> Z.of_nat (length (flat xs)) <= SIZE_MAX -> (length l + length (flat xs) < fuel)%nat ->
  exists z, sea fuel mb flags (l ++ [0]) (Z.of_nat m) ((flat xs ++ t) ++ [0]) (Z.of_nat (length (flat xs))) = Ok z /\ (z = 0 \/ z = 1) /\ (z = 0 <-> globs (st :: ts) (chars xs)).
Proof.
  induction fuel as [|fuel IH]; intros l m ts xs t st Hl Hr Hg Hcl Hst Hx Ht Hsz Hsz2 Hf; [lia|]. cbn [sea].
  destruct (decide (ts = [])) as [->|Hne].
  { inversion Hr; subst. cbn. exists 0. split; [done|]. split; [by left|]. split; [|done]. intros _. apply globs_star_iff; [done|]. exists (chars xs), []. split; [by rewrite app_nil_r|constructor]. }
  assert (Hm : (1 <= m)%nat).
  { destruct Hr as [|l c k m ts E Hc Hr|l k m E Hm]; [done| |lia]. pose proof (lex_step mb flags l c k Hl E Hc). lia. }
  rewrite (proj2 (Z.gtb_lt _ 0)) by lia. destruct (first_component ts Hcl Hne) as (C & u & M & -> & Hp & Hu & HM).
  destruct (component_spec (S fuel) l m C u M xs t) as (a & -> & Ha); try done; [lia|]. cbn [mbind res_bind]. destruct a as [|p rp s rs|].
  - exists 1. split; [done|]. split; [by right|]. split; [done|]. intros H. exfalso. cbn [attempt_post] in Ha. revert H. apply component_never; try done. by rewrite length_fmap.
  - destruct Ha as (l' & m' & ys & zs & -> & Hm1 & -> & -> & Hr' & Hl' & Hlen & -> & ->). apply Forall_app in Hx as [Hx1 Hx2]. rewrite flat_app, length_app in Hf, Hsz2.
    assert (HgM : good M) by (apply Forall_app in Hg as [_ Hg]; by apply Forall_cons_1 in Hg as [_ Hg]).
    destruct (IH l' m' M zs t u) as (z & -> & Hz & Hiff); try done; [lia|lia|lia|]. exists z. split; [done|]. split; [done|]. rewrite Hiff, fmap_app.
    symmetry. by apply component_first.
  - destruct Ha as [Ha Hxs]. destruct xs as [|x xs]; [done|]. rewrite (u64_id (Z.of_nat (length (flat (x :: xs))))) by (unfold SIZE_MAX in *; lia).
    rewrite str_next_text by (done || by left). cbn [mbind res_bind]. pose proof (flat_cons x xs) as Ef. apply Forall_cons_1 in Hx as [Hx Hxs']. pose proof (chunk_range mb x Hx) as [Hx1 Hx2].
    rewrite (proj2 (Z.gtb_lt x.2 0)) by lia. rewrite drop_chunk. rewrite Ef, length_app in *. replace (Z.of_nat (length x.1 + length (flat xs)) - Z.of_nat (length x.1)) with (Z.of_nat (length (flat xs))) by lia.
    destruct (IH l m (C ++ u :: M) xs t st) as (z & -> & Hz & Hiff); try done; [lia|lia|]. exists z. split; [done|]. split; [done|]. rewrite Hiff, fmap_cons. symmetry. by apply component_later.
Qed.

(** ** A whole pattern and a whole string, or a component of both *)

(** A dot at the start of the string that the pattern does not name. *)
Definition hidden (ts : list tok) (cs : list Z) : bool :=
  flag flags FNM_PERIOD && (hd 0 cs =? 46) && match ts with [] => false | t :: _ => negb (hd 0 (src t) =? 46) end.

Definition component_ok (ts : list tok) (cs : list Z) : Prop := hidden ts cs = false /\ globs ts cs.

Lemma chunk_ascii x : chunk mb x -> (x.2 < 128 -> x.1 = [x.2]) /\ (128 <= x.2 -> Forall (fun b => 128 <= b) x.1).
Proof.
  intros [Hc Hd]. destruct (x.1) as [|b l] eqn:E; [done|]. destruct (Z.lt_ge_cases b 128) as [Hb|Hb].
  - cbn [dec] in Hd. rewrite (proj2 (Z.ltb_lt b 128)) in Hd by done. injection Hd as Hl ->. destruct l; [|done]. split; [done|lia].
  - pose proof (dec_high mb _ _ _ Hc Hd Hb) as H. rewrite firstn_all in H. split; [|done]. intros Hx. exfalso. cbn [dec] in Hd. rewrite (proj2 (Z.ltb_ge b 128)) in Hd by done.
    apply Forall_cons_1 in Hc as Hb'. destruct Hb' as [Hb' _]. destruct (mb =? 1); [injection Hd as _ Hd; pose proof (codeunit_range b ltac:(lia)); lia|].
    destruct (u8dec (b :: l)) as [k c| |] eqn:Eu; [|done..]. injection Hd as -> ->. destruct (u8dec_sound _ _ _ (fnm_bytes _ Hc) Eu) as (_ & He & Ht & _).
    unfold enc in Ht. rewrite (proj2 (Z.ltb_lt x.2 128)) in Ht by done. cbn [length take] in Ht. injection Ht as -> _. lia.
Qed.

Lemma first_byte x t c : chunk mb x -> 0 < c < 128 -> (hd 0 (x.1 ++ t) =? c) = (x.2 =? c).
Proof.
  intros Hx Hc. pose proof (chunk_range mb x Hx) as [Hl _]. destruct (chunk_ascii x Hx) as [H1 H2]. destruct (Z.lt_ge_cases x.2 128) as [H|H]; [by rewrite (H1 H)|].
  specialize (H2 H). destruct x.1 as [|b l]; [cbn in Hl; lia|]. apply Forall_cons_1 in H2 as [Hb _]. cbn [app hd]. rewrite !(proj2 (Z.eqb_neq _ c)) by lia. done.
Qed.

Lemma strnlen_pat l m b : cstr l -> pbound l m b -> (m <= length l)%nat -> strnlen (l ++ [0]) b = Ok (Z.of_nat m).
Proof.
  intros Hl. revert m b. induction Hl as [|c l Hc Hl IH]; intros m b Hb Hm; cbn [app strnlen length] in *.
  - destruct Hb as [->|[-> Hb]]; [by replace m with 0%nat by lia|]. by destruct (b =? 0).
  - destruct m as [|m]; [destruct Hb as [->|[? _]]; done|]. unfold pbound in Hb. cbn [length] in Hb. rewrite (proj2 (Z.eqb_neq b 0)), (proj2 (Z.eqb_neq c 0)) by lia.
    rewrite (IH m (b - 1)) by (unfold pbound; lia). cbn. f_equal. lia.
Qed.

Lemma tail_split l m ts r : cstr l -> region l m ts -> tail_found l m ts (l ++ [0]) (Z.of_nat m) 0 r ->
  (r = None /\ exists ts' l', ts = ts' ++ [Tok UNMATCHABLE l']) \/
  exists ts1 tail m1, ts = ts1 ++ tail /\ good ts /\ closed ts1 /\ plain_codes tail /\ (m1 <= m)%nat /\ region l m1 ts1 /\ region (drop m1 l) (m - m1) tail /\
    r = Some (drop m1 l ++ [0], Z.of_nat (m - m1), length tail).
Proof.
  intros Hl Hr [H|[(Hg & Hp & ->)|(Hg & m1 & ts1 & st & tail & -> & Hst & Ht & Hr1 & Hm1 & Hr2 & ->)]]; [by left|right..].
  - exists [], ts, 0%nat. rewrite drop_0, Nat.sub_0_r. split_and!; try done; [by left|lia|constructor].
  - exists (ts1 ++ [st]), tail, m1. rewrite <- app_assoc. split_and!; try done. right. by exists ts1, st.
Qed.

(** Behind the first star *)
Lemma stars_spec fuel l m ts st xs t b n : cstr l -> region l m ts -> code st = STAR -> text xs -> cstr t -> pbound l m b -> sbound xs t n ->
  Z.of_nat (length l) <= SIZE_MAX -> Z.of_nat (length (flat xs)) <= SIZE_MAX -> (length l + length (flat xs) < fuel)%nat ->
  exists z, (m ← strnlen (l ++ [0]) b;
    t' ← find_tail fuel mb flags (l ++ [0]) m (l ++ [0]) m 0;
    match t' with
    | None => Ok FNM_NOMATCH
    | Some (ptail, rtail, tailcnt) =>
        n ← strnlen ((flat xs ++ t) ++ [0]) n;
        if n <? Z.of_nat tailcnt then Ok FNM_NOMATCH
        else
          '(i, rest) ← back mb ((flat xs ++ t) ++ [0]) (Z.to_nat n) tailcnt;
          if negb (rest =? 0)%nat then Ok FNM_NOMATCH
          else
            b ← tail_loop fuel mb flags ptail rtail (drop i ((flat xs ++ t) ++ [0])) (n - Z.of_nat i);
            if b : bool then sea fuel mb flags (l ++ [0]) (m - rtail) ((flat xs ++ t) ++ [0]) (Z.of_nat i) else Ok FNM_NOMATCH
    end) = Ok z /\ (z = 0 \/ z = 1) /\ (z = 0 <-> globs (st :: ts) (chars xs)).
Proof.
  intros Hl Hr Hst Hx Ht Hb Hn Hsz Hsz2 Hf. pose proof (region_length mb flags l m ts Hl Hr) as Hml. rewrite (strnlen_pat l m b) by done. cbn [mbind res_bind].
  destruct (find_tail_spec fuel l m ts (l ++ [0]) (Z.of_nat m) 0 Hl Hr) as (r & -> & Hfound); [done|lia|]. cbn [mbind res_bind].
  assert (Hno : forall z, z = 1 -> ~ globs (st :: ts) (chars xs) -> (z = 0 \/ z = 1) /\ (z = 0 <-> globs (st :: ts) (chars xs))).
  { intros z -> Hng. split; [by right|]. split; [done|]. intros H. by destruct (Hng H). }
  destruct (tail_split l m ts r Hl Hr Hfound) as [(-> & ts' & l' & ->)|(ts1 & tail & m1 & -> & Hg & Hcl & Hp & Hm1 & Hr1 & Hr2 & ->)].
  { eexists. split; [done|]. apply Hno; [done|]. rewrite app_comm_cons. apply bad_no_glob. }
  apply Forall_app in Hg as [Hg1 Hg2]. rewrite (strnlen_text mb) by done. cbn [mbind res_bind]. pose proof (length_flat mb xs Hx) as Hlf.
  destruct (Z.ltb_spec (Z.of_nat (length (flat xs))) (Z.of_nat (length tail))) as [Hs|_]; [eexists; split; [done|]; apply Hno; [done|]; apply globs_short; [done|rewrite length_fmap; lia]|].
  rewrite Nat2Z.id, <- (app_assoc (flat xs)), back_spec by done. cbn [mbind res_bind].
  destruct (Nat.eqb_spec (length tail - length xs) 0) as [Hlen|Hlen]; cbn [negb]; [|eexists; split; [done|]; apply Hno; [done|]; apply globs_short; [done|rewrite length_fmap; lia]].
  set (xa := take (length xs - length tail) xs). set (xb := drop (length xs - length tail) xs). assert (Exs : xs = xa ++ xb) by (symmetry; apply take_drop).
  assert (Hlb : length xb = length tail) by (unfold xb; rewrite length_drop; lia). clearbody xa xb. subst xs. apply Forall_app in Hx as [Hxa Hxb]. rewrite flat_app, length_app in *.
  rewrite <- !app_assoc, drop_app_length. replace (Z.of_nat (length (flat xa) + length (flat xb)) - Z.of_nat (length (flat xa))) with (Z.of_nat (length (flat xb))) by lia.
  destruct (tail_loop_spec fuel (drop m1 l) (m - m1) tail xb t) as (bt & Htl & Hbt); try done; [by apply cstr_drop|rewrite length_drop; lia|lia|rewrite length_drop; lia|].
  rewrite <- app_assoc in Htl. rewrite Htl. cbn [mbind res_bind]. assert (Hgt : globs (st :: ts1 ++ tail) (chars (xa ++ xb)) <-> globs (st :: ts1) (chars xa) /\ matches sat tail (chars xb)).
  { apply globs_tail; [done|done|apply fmap_app|by rewrite length_fmap]. }
  destruct bt; [|eexists; split; [done|]; apply Hno; [done|]; rewrite Hgt; intros [_ H]; by apply Hbt in H].
  replace (Z.of_nat m - Z.of_nat (m - m1)) with (Z.of_nat m1) by lia.
  destruct (sea_spec fuel l m1 ts1 xa (flat xb ++ t) st) as (z & Hsea & Hz & Hiff); try done; [apply Forall_app; split; [by apply (flat_cstr mb)|done]|lia|lia|].
  rewrite <- !app_assoc in Hsea. exists z. split; [exact Hsea|]. split; [done|]. rewrite Hiff, Hgt. split; [intros H; split; [done|by apply Hbt]|by intros [? _]].
Qed.

Lemma internal_spec fuel l m ts xs t b n : cstr l -> region l m ts -> text xs -> cstr t -> (xs = [] -> hd 0 t <> 46) -> pbound l m b -> sbound xs t n -> b <= SIZE_MAX -> n <= SIZE_MAX ->
  Z.of_nat (length l) <= SIZE_MAX -> Z.of_nat (length (flat xs)) <= SIZE_MAX -> (length l + length (flat xs) < fuel)%nat ->
  exists z, fnmatch_internal fuel mb (l ++ [0]) b ((flat xs ++ t) ++ [0]) n flags = Ok z /\ (z = 0 \/ z = 1) /\ (z = 0 <-> component_ok ts (chars xs)).
Proof.
  intros Hl Hr Hx Ht Hdot Hb Hn Hb2 Hn2 Hsz Hsz2 Hf. unfold fnmatch_internal.
  assert (Hhid : exists d, (if flag flags FNM_PERIOD then c ← rd ((flat xs ++ t) ++ [0]) 0; if c =? 46 then d ← rd (l ++ [0]) 0; Ok (negb (d =? 46)) else Ok false else Ok false) = Ok d /\
    (d = true -> ~ component_ok ts (chars xs)) /\ (d = false -> hidden ts (chars xs) = false)).
  { assert (Hrd : forall u : list Z, rd (u ++ [0]) 0 = Ok (hd 0 u)) by (by intros []). rewrite !Hrd. unfold component_ok, hidden. destruct (flag flags FNM_PERIOD); [|by exists false]. cbn [mbind res_bind andb].
    assert (E46 : (hd 0 (flat xs ++ t) =? 46) = (hd 0 (chars xs) =? 46)).
    { destruct xs as [|x xs]; [cbn; by apply Z.eqb_neq, Hdot|]. apply Forall_cons_1 in Hx as [Hx _]. rewrite flat_cons, <- app_assoc. by apply first_byte. }
    rewrite E46. destruct (Z.eqb_spec (hd 0 (chars xs)) 46) as [E|_]; [|by exists false]. cbn [andb]. eexists. split; [done|]. split.
    - intros Hd [H1 H2]. destruct Hr as [l|l c k m ts E' Hc Hr|l k m E' Hm]; cbn [src] in H1; [|congruence..]. apply globs_nil_iff in H2. by rewrite H2 in E.
    - intros Hd. destruct Hr; [done|exact Hd|exact Hd]. }
  destruct Hhid as (d & -> & Hd1 & Hd2). cbn [mbind res_bind]. destruct d.
  { eexists. split; [done|]. split; [by right|]. split; [done|]. intros H. by destruct (Hd1 eq_refl). }
  specialize (Hd2 eq_refl). assert (Hco : component_ok ts (chars xs) <-> globs ts (chars xs)) by (unfold component_ok; tauto). setoid_rewrite Hco. clear Hco.
  destruct (head_loop_spec fuel l m ts xs t b n) as (r & -> & Hpost); try done; [lia|]. cbn [mbind res_bind]. destruct r as [z|[[[p b'] s] n']]; cbn [head_post] in Hpost; [by exists z|].
  destruct Hpost as (l' & m' & ts' & st & xs' & Hst & -> & -> & Hl' & Hr' & Hx' & Hb' & Hn' & Hb2' & Hn2' & Hll & Hlf & Hiff). setoid_rewrite Hiff.
  apply (stars_spec fuel l' m' ts' st xs' t b' n'); try done; lia.
Qed.
End loops.
