(* ===== verification/FnmatchTheorems.v ===== *)
(** What [fnmatch] promises. *)
From Stdlib Require Import Strings.String.
From S2P Require Import Prelude CStr Utf8 Wctype Fnmatch FnmatchLex FnmatchBracket FnmatchGlob FnmatchText FnmatchLoops.
#[local] Open Scope c_scope.

(** ** Splitting at the first of some elements *)
Lemma split_first {A} (P : A -> Prop) a x b a' x' b' : Forall (fun y => ~ P y) a -> Forall (fun y => ~ P y) a' -> P x -> P x' -> a ++ x :: b = a' ++ x' :: b' -> a = a' /\ x = x' /\ b = b'.
Proof.
  intros Ha. revert a'. induction Ha as [|y a Hy Ha IH]; intros [|y' a'] Ha' Hx Hx' E; cbn [app] in E.
  - by injection E.
  - injection E as <- _. by apply Forall_cons_1 in Ha' as [? _].
  - by injection E as -> _.
  - injection E as <- E. apply Forall_cons_1 in Ha' as [_ Ha']. destruct (IH a' Ha' Hx Hx' E) as (-> & -> & ->). done.
Qed.

Lemma no_split {A} (P : A -> Prop) a x b c : Forall (fun y => ~ P y) c -> P x -> c <> a ++ x :: b.
Proof. intros Hc Hx ->. apply Forall_app in Hc as [_ [Hc _]%Forall_cons_1]. done. Qed.

Section fnmatch.
Context (mb flags : Z).
Abbreviation text := (Forall (chunk mb)).
Abbreviation chars xs := (xs.*2).
Abbreviation region := (region mb flags).
Abbreviation component_ok := (component_ok mb flags).

(** ** The meaning of the flags *)

(** A slash of a pattern and of a string *)
Definition slash_code (t : tok) : Prop := code t = 47.
Definition slash_char (c : Z) : Prop := c = 47.
Definition slashless_codes (ts : list tok) : Prop := Forall (fun t => ~ slash_code t) ts.
Definition slashless (cs : list Z) : Prop := Forall (fun c => ~ slash_char c) cs.

Ltac clash := exfalso; unfold slashless, slashless_codes in *; match goal with
  | H : Forall _ (?a ++ ?x :: ?b), Hx : slash_code ?x |- _ => by apply (no_split slash_code a x b _ H Hx)
  | H : Forall _ (?a ++ 47 :: ?b) |- _ => by apply (no_split slash_char a 47 b _ H eq_refl)
  end.

(** With [FNM_PATHNAME], components match one by one. *)
Inductive paths : list tok -> list Z -> Prop :=
| paths_last ts cs : slashless_codes ts -> slashless cs -> component_ok ts cs -> paths ts cs
| paths_dir ts cs cs' : flag flags FNM_LEADING_DIR = true -> slashless_codes ts -> slashless cs -> component_ok ts cs -> paths ts (cs ++ 47 :: cs')
| paths_more ts s ts' cs cs' : slash_code s -> slashless_codes ts -> slashless cs -> component_ok ts cs -> paths ts' cs' -> paths (ts ++ s :: ts') (cs ++ 47 :: cs').

(** What [fnmatch] decides: a pattern, by its codes, accepts a string. *)
Definition accepts (ts : list tok) (cs : list Z) : Prop :=
  if flag flags FNM_PATHNAME then paths ts cs
  else component_ok ts cs \/ (flag flags FNM_LEADING_DIR = true /\ exists a b, cs = a ++ 47 :: b /\ component_ok ts a).

Lemma paths_last_iff ts cs : slashless_codes ts -> slashless cs -> paths ts cs <-> component_ok ts cs.
Proof.
  intros Ht Hc. split; [|by apply paths_last]. inversion 1 as [|? cs0 cs1 _ _ _ _|? s ? cs0 cs1 Hs _ _ _ _]; subst; [done|..].
  all: exfalso; clash.
Qed.

Lemma paths_dir_iff ts cs cs' : slashless_codes ts -> slashless cs -> paths ts (cs ++ 47 :: cs') <-> flag flags FNM_LEADING_DIR = true /\ component_ok ts cs.
Proof.
  intros Ht Hc. split; [|intros [? ?]; by apply paths_dir]. inversion 1 as [? ? _ Hc' _|? cs0 cs1 Hl _ Hc0 Hok E1 E2|? s ? cs0 cs1 Hs _ _ _ _]; subst.
  - clash.
  - destruct (split_first slash_char cs0 47 cs1 cs 47 cs') as (-> & _ & _); done.
  - clash.
Qed.

Lemma paths_more_iff ts s ts' cs cs' : slash_code s -> slashless_codes ts -> slashless cs -> paths (ts ++ s :: ts') (cs ++ 47 :: cs') <-> component_ok ts cs /\ paths ts' cs'.
Proof.
  intros Hs Ht Hc. split; [|intros [? ?]; by apply paths_more]. inversion 1 as [? ? Ht' _ _|? cs0 cs1 _ Ht' _ _ E1 E2|ts0 s0 ts1 cs0 cs1 Hs0 Ht0 Hc0 Hok Hp E1 E2]; subst.
  - clash.
  - clash.
  - destruct (split_first slash_char cs0 47 cs1 cs 47 cs') as (-> & _ & ->); try done. destruct (split_first slash_code ts0 s0 ts1 ts s ts') as (-> & _ & ->); done.
Qed.

Lemma paths_short ts s ts' cs : slash_code s -> slashless_codes ts -> slashless cs -> ~ paths (ts ++ s :: ts') cs.
Proof.
  intros Hs Ht Hc. inversion 1 as [? ? Ht' _ _|? cs0 cs1 _ Ht' _ _ E1 E2|ts0 s0 ts1 cs0 cs1 Hs0 Ht0 Hc0 Hok Hp E1 E2]; subst.
  - clash.
  - clash.
  - clash.
Qed.

(** ** Components *)
Lemma to_slash_high u v : Forall (fun b => 128 <= b) u -> to_slash (u ++ v) = (k ← to_slash v; Ok (length u + k)%nat).
Proof.
  induction 1 as [|b u Hb _ IH]; cbn [app length to_slash]; [by destruct (to_slash v)|]. rewrite (proj2 (Z.eqb_neq b 0)), (proj2 (Z.eqb_neq b 47)) by lia. cbn [orb].
  rewrite IH. by destruct (to_slash v).
Qed.

Lemma to_slash_spec xs : text xs -> exists ys zs, xs = ys ++ zs /\ slashless (chars ys) /\ to_slash (flat xs ++ [0]) = Ok (length (flat ys)) /\ (zs = [] \/ exists zs', zs = ([47], 47) :: zs').
Proof.
  induction 1 as [|x xs Hx Hxs IH]; [exists [], []; split_and!; [done|constructor|done|by left]|]. destruct IH as (ys & zs & -> & Hs & Hto & Hz).
  pose proof (chunk_range mb x Hx) as [Hl Hr]. destruct (chunk_ascii mb x Hx) as [H1 H2]. destruct (decide (x.2 = 47)) as [E|E].
  { exists [], (x :: ys ++ zs). split_and!; [done|constructor| |].
    - rewrite flat_cons, (H1 ltac:(lia)), E. done.
    - right. exists (ys ++ zs). destruct x as [b c]. cbn in *. subst c. by rewrite (H1 ltac:(lia)). }
  exists (x :: ys), zs. split_and!; [done|by constructor| |done]. rewrite flat_cons, (flat_cons x ys), length_app, <- app_assoc.
  destruct (Z.lt_ge_cases x.2 128) as [H|H].
  - rewrite (H1 H). cbn [app to_slash length]. rewrite (proj2 (Z.eqb_neq x.2 0)), (proj2 (Z.eqb_neq x.2 47)) by lia. cbn [orb]. by rewrite Hto.
  - rewrite to_slash_high by (by apply H2). by rewrite Hto.
Qed.

Lemma pat_to_slash_spec fuel : forall l m ts len, cstr l -> region l m ts -> m = length l -> good ts -> Z.of_nat (length l) <= SIZE_MAX -> (length l < fuel)%nat ->
  exists m1 ts1 c inc, pat_to_slash fuel mb flags (l ++ [0]) len = Ok ((len + m1)%nat, c, inc) /\ slashless_codes ts1 /\ region l m1 ts1 /\ (m1 <= length l)%nat /\
    ((c = 0 /\ m1 = length l /\ ts = ts1) \/
     (c = 47 /\ exists s ts2, ts = ts1 ++ s :: ts2 /\ slash_code s /\ (1 <= inc)%nat /\ (m1 + inc <= length l)%nat /\ region (drop (m1 + inc) l) (length l - (m1 + inc)) ts2)).
Proof.
  induction fuel as [|fuel IH]; intros l m ts len Hl Hr Em Hg Hsz Hf; [lia|]. cbn [pat_to_slash]. assert (Hpb : pbound l (length l) SIZE_MAX) by (by right).
  destruct Hr as [l|l c k m ts E Hc Hr|l k m E Hm]; [| |by apply Forall_cons_1 in Hg as [Hg _]].
  - rewrite region_end by (by rewrite Em). cbn. exists 0%nat, [], 0, 0%nat. rewrite Nat.add_0_r. split_and!; [done|constructor|constructor|lia|by left].
  - destruct (region_next mb flags (S fuel) l c k m SIZE_MAX) as (-> & _ & _); [done|done|done|done|by rewrite Em|]. pose proof (lex_step mb flags l c k Hl E Hc) as Hk. cbn [mbind res_bind].
    apply Forall_cons_1 in Hg as [_ Hg]. assert (Hc0 : (c =? END) = false).
    { apply Z.eqb_neq. intros ->. destruct (lex_some mb flags l Hl) as (c' & k' & E' & H); [by intros ->|]. rewrite E in E'. injection E' as <- <-.
      unfold END, BRACKET, QUESTION, STAR in H. destruct H as [[? _]|(_ & H & _)]; [done|lia]. }
    rewrite Hc0. cbn [orb]. destruct (Z.eqb_spec c 47) as [->|H47].
    + exists 0%nat, [], 47, k. rewrite Nat.add_0_r. split_and!; [done|constructor|constructor|lia|]. right. split; [done|]. exists (Tok 47 l), ts. cbn [Nat.add]. split_and!; [done|done|lia|lia|].
      by replace (length l - k)%nat with m by lia.
    + rewrite drop_pat by lia. destruct (IH (drop k l) m ts (len + k)%nat) as (m1 & ts1 & c' & inc & -> & H1 & H2 & H3 & H4); try done; [by apply cstr_drop|rewrite length_drop; lia|rewrite length_drop; lia|rewrite length_drop; lia|].
      rewrite length_drop in *. exists (k + m1)%nat, (Tok c l :: ts1), c', inc. replace (len + k + m1)%nat with (len + (k + m1))%nat by lia. split_and!; [done|by constructor|by apply region_cons|lia|].
      destruct H4 as [(-> & H5 & ->)|(-> & s & ts2 & -> & H5 & H6 & H7 & H8)]; [left; split_and!; [done|lia|done]|right]. split; [done|]. exists s, ts2. split_and!; [done|done|done|lia|].
      rewrite drop_drop in H8. replace (length l - (k + m1 + inc))%nat with (length l - k - (m1 + inc))%nat by lia. by replace (k + m1 + inc)%nat with (k + (m1 + inc))%nat by lia.
Qed.

Lemma hd_flat_slash zs : zs = [] \/ (exists zs', zs = ([47], 47) :: zs') -> hd 0 (flat zs) <> 46.
Proof. by intros [->|[zs' ->]]. Qed.

Lemma pathname_loop_spec fuel : forall l ts xs, cstr l -> region l (length l) ts -> good ts -> text xs ->
  Z.of_nat (length l) <= SIZE_MAX -> Z.of_nat (length (flat xs)) <= SIZE_MAX -> (length l + length (flat xs) < fuel)%nat ->
  exists z, pathname_loop fuel mb (l ++ [0]) (flat xs ++ [0]) flags = Ok z /\ (z = 0 \/ z = 1) /\ (z = 0 <-> paths ts (chars xs)).
Proof.
  induction fuel as [|fuel IH]; intros l ts xs Hl Hr Hg Hx Hsz Hsz2 Hf; [lia|]. cbn [pathname_loop].
  destruct (to_slash_spec xs Hx) as (ys & zs & -> & Hsl & -> & Hz). cbn [mbind res_bind].
  destruct (pat_to_slash_spec (S fuel) l _ ts 0 Hl Hr eq_refl Hg Hsz) as (m1 & ts1 & c & inc & -> & Hts1 & Hr1 & Hm1 & Hc); [lia|]. cbn [mbind res_bind Nat.add].
  pose proof Hx as [Hys Hzs]%Forall_app. rewrite flat_app, length_app, fmap_app in *.
  assert (Hno : forall z, z = 1 -> ~ paths ts (chars ys ++ chars zs) -> (z = 0 \/ z = 1) /\ (z = 0 <-> paths ts (chars ys ++ chars zs))).
  { intros z -> Hng. split; [by right|]. split; [done|]. intros H. by destruct (Hng H). }
  (* the component *)
  destruct (internal_spec mb flags (S fuel) l m1 ts1 ys (flat zs) (Z.of_nat m1) (Z.of_nat (length (flat ys)))) as (r & Er & Hr01 & Hr0); try done;
    [by apply (flat_cstr mb)|intros _; by apply hd_flat_slash|by left|by left|lia|lia|lia|lia|]. rewrite Er. cbn [mbind res_bind].
  destruct Hz as [->|[zs' ->]].
  - (* the last component of the string *)
    change (flat []) with (@nil Z). rewrite app_nil_r, rd_end. cbn [mbind res_bind fmap list_fmap]. rewrite app_nil_r. change (0 =? 0) with true. cbn [orb]. rewrite andb_true_r.
    cbn [fmap list_fmap] in Hno. rewrite app_nil_r in Hno. destruct Hc as [(-> & -> & ->)|(-> & s & ts2 & -> & Hs & _)].
    + change (negb (0 =? 0)) with false. cbv iota. destruct (Z.eqb_spec r 0) as [->|Hr']; cbn [negb].
      * change (0 =? 0) with true. cbv iota. exists 0. split; [done|]. split; [by left|]. rewrite paths_last_iff by done. tauto.
      * eexists. split; [done|]. apply Hno; [done|]. rewrite paths_last_iff by done. tauto.
    + change (negb (47 =? 0)) with true. cbv iota. eexists. split; [done|]. apply Hno; [done|]. by apply paths_short.
  - (* another one follows *)
    assert (Hrd : rd ((flat ys ++ flat (([47], 47) :: zs')) ++ [0]) (length (flat ys)) = Ok 47).
    { rewrite flat_cons, <- !app_assoc. unfold rd. cbn [app fst]. by rewrite list_lookup_middle. }
    rewrite Hrd. cbn [mbind res_bind]. change (47 =? 0) with false. cbn [orb]. rewrite fmap_cons in *. cbn [snd] in *.
    destruct Hc as [(-> & -> & ->)|(-> & s & ts2 & -> & Hs & Hinc & Hinc2 & Hr2)].
    + change (negb (0 =? 47)) with true. cbn [andb]. destruct (flag flags FNM_LEADING_DIR) eqn:Eld; cbn [negb].
      2: { eexists. split; [done|]. apply Hno; [done|]. rewrite paths_dir_iff by done. intros [? _]. congruence. }
      destruct (Z.eqb_spec r 0) as [->|Hr']; cbn [negb].
      * change (0 =? 0) with true. cbv iota. exists 0. split; [done|]. split; [by left|]. rewrite paths_dir_iff by done. tauto.
      * eexists. split; [done|]. apply Hno; [done|]. rewrite paths_dir_iff by done. tauto.
    + change (negb (47 =? 47)) with false. cbn [andb]. destruct (Z.eqb_spec r 0) as [->|Hr']; cbn [negb].
      2: { eexists. split; [done|]. apply Hno; [done|]. rewrite paths_more_iff by done. tauto. }
      change (47 =? 0) with false. cbv iota. rewrite drop_pat by lia.
      assert (Hds : drop (length (flat ys) + 1) ((flat ys ++ flat (([47], 47) :: zs')) ++ [0]) = flat zs' ++ [0]).
      { rewrite <- app_assoc, <- drop_drop, drop_app_length. done. }
      rewrite Hds. apply Forall_cons_1 in Hzs as [_ Hzs]. apply Forall_app in Hg as [_ Hg]. apply Forall_cons_1 in Hg as [_ Hg].
      rewrite (flat_cons _ zs'), length_app in *. cbn [fst length] in *.
      destruct (IH (drop (m1 + inc) l) ts2 zs') as (z & Ez & Hz & Hiff); try done; [by apply cstr_drop|by rewrite length_drop|rewrite length_drop; lia|lia|rewrite length_drop; lia|].
      rewrite Ez. exists z. split; [done|]. split; [done|]. rewrite Hiff, paths_more_iff by done. tauto.
Qed.

Lemma leading_high fuel p s u v len : Forall (fun b => 128 <= b) u -> leading_dir fuel mb p s (u ++ v) len flags = leading_dir fuel mb p s v (len + Z.of_nat (length u)) flags.
Proof.
  intros Hu. revert len. induction Hu as [|b u Hb _ IH]; intros len; cbn [app leading_dir length]; [by rewrite Z.add_0_r|].
  rewrite (proj2 (Z.eqb_neq b 0)), (proj2 (Z.eqb_neq b 47)) by lia. cbn [negb]. rewrite IH. f_equal. lia.
Qed.

Lemma leading_dir_spec fuel l ts qs : forall ps, cstr l -> region l (length l) ts -> text (ps ++ qs) ->
  Z.of_nat (length l) <= SIZE_MAX -> Z.of_nat (length (flat (ps ++ qs))) <= SIZE_MAX -> (length l + length (flat (ps ++ qs)) < fuel)%nat ->
  exists b, leading_dir fuel mb (l ++ [0]) (flat (ps ++ qs) ++ [0]) (flat qs ++ [0]) (Z.of_nat (length (flat ps))) flags = Ok b /\
    (b = true <-> exists u v, chars qs = u ++ 47 :: v /\ component_ok ts (chars ps ++ u)).
Proof.
  induction qs as [|x qs IH]; intros ps Hl Hr Hx Hsz Hsz2 Hf.
  { exists false. split; [done|]. split; [done|]. intros (u & v & E & _). by destruct u. }
  pose proof Hx as [Hps Hq]%Forall_app. apply Forall_cons_1 in Hq as [Hc Hq]. pose proof (chunk_range mb x Hc) as [Hl1 Hc1]. destruct (chunk_ascii mb x Hc) as [H1 H2].
  assert (Eps : flat (ps ++ x :: qs) = flat ((ps ++ [x]) ++ qs)) by (by rewrite <- app_assoc).
  destruct (IH (ps ++ [x]) Hl Hr) as (b & Hb & Hiff); [by rewrite <- app_assoc|done|by rewrite <- Eps|by rewrite <- Eps|].
  assert (Hlen : Z.of_nat (length (flat (ps ++ [x]))) = Z.of_nat (length (flat ps)) + Z.of_nat (length x.1)).
  { rewrite flat_app, flat_cons, !length_app. cbn. lia. }
  rewrite Hlen in Hb. rewrite <- Eps in Hb. rewrite fmap_cons. assert (Hshift : (exists u v, chars qs = u ++ 47 :: v /\ component_ok ts (chars (ps ++ [x]) ++ u)) <->
    (exists u v, x.2 :: chars qs = (x.2 :: u) ++ 47 :: v /\ component_ok ts (chars ps ++ x.2 :: u))).
  { rewrite fmap_app. cbn [fmap list_fmap]. split; intros (u & v & E & H); exists u, v; (split; [|by rewrite <- app_assoc in *]); [by rewrite E|by injection E]. }
  rewrite (flat_cons x qs), <- (app_assoc x.1). destruct (decide (x.2 = 47)) as [E|E].
  - assert (Hx1 : x.1 = [47]) by (rewrite (H1 ltac:(lia)); by f_equal). rewrite Hx1 in Hb |- *. cbn [app leading_dir]. change (47 =? 0) with false. change (negb (47 =? 47)) with false. cbv iota.
    destruct (internal_spec mb flags fuel l (length l) ts ps (flat (x :: qs)) SIZE_MAX (Z.of_nat (length (flat ps)))) as (r & Er & Hr01 & Hr0); try done.
    { apply (flat_cstr mb). by constructor. } { intros _. by rewrite flat_cons, Hx1. } { by right. } { by left. } { rewrite flat_app, length_app in Hsz2. lia. } { rewrite flat_app, length_app in Hsz2. lia. } { rewrite flat_app, length_app in Hf. lia. }
    rewrite <- flat_app in Er. rewrite Er. cbn [mbind res_bind]. destruct (Z.eqb_spec r 0) as [->|Hr'].
    + exists true. split; [done|]. split; [|done]. intros _. exists [], (chars qs). rewrite app_nil_r. split; [cbn; by rewrite E|]. by apply Hr0.
    + exists b. split; [exact Hb|]. rewrite Hiff, Hshift. split; [intros (u & v & ? & ?); by exists (x.2 :: u), v|]. intros ([|u0 u] & v & Eu & Hok); [rewrite app_nil_r in Hok; tauto|].
      injection Eu as <- Eu. exists u, v. split; [cbn; by rewrite Eu|done].
  - assert (Hnext : leading_dir fuel mb (l ++ [0]) (flat (ps ++ x :: qs) ++ [0]) (x.1 ++ flat qs ++ [0]) (Z.of_nat (length (flat ps))) flags = Ok b).
    { destruct (Z.lt_ge_cases x.2 128) as [H|H].
      - rewrite (H1 H) in Hb |- *. cbn [app leading_dir length] in *. rewrite (proj2 (Z.eqb_neq x.2 0)), (proj2 (Z.eqb_neq x.2 47)) by lia. exact Hb.
      - rewrite leading_high by (by apply H2). exact Hb. }
    exists b. split; [exact Hnext|]. rewrite Hiff, Hshift. split; [intros (u & v & ? & ?); by exists (x.2 :: u), v|]. intros ([|u0 u] & v & Eu & Hok); [by injection Eu as ? _|].
    injection Eu as <- Eu. exists u, v. split; [cbn; by rewrite Eu|done].
Qed.
End fnmatch.

(** C15: [fnmatch] decides exactly what its flags and its pattern mean: it returns 0 for
    the strings that the pattern accepts and [FNM_NOMATCH] for the others, and reads
    nothing outside pattern and string.  The order in which it tries things (head, tail, then each component at its first
    place) loses no match.  The string is any list of characters of the locale; with
    [FNM_PATHNAME] the pattern must be one too. *)
Theorem fnmatch_correct fuel mb flags P xs : cstr P -> Forall (chunk mb) xs -> Z.of_nat (length P) <= SIZE_MAX -> Z.of_nat (length (flat xs)) <= SIZE_MAX ->
  (length P + length (flat xs) < fuel)%nat -> (flag flags FNM_PATHNAME = true -> good (codes mb flags P)) ->
  exists z, fnmatch fuel mb (P ++ [0]) (flat xs ++ [0]) flags = Ok z /\ (z = 0 \/ z = FNM_NOMATCH) /\ (z = 0 <-> accepts mb flags (codes mb flags P) (xs.*2)).
Proof.
  intros HP Hx Hsz Hsz2 Hf Hg. pose proof (region_codes mb flags P HP) as Hr. unfold fnmatch, accepts. destruct (flag flags FNM_PATHNAME); [by apply pathname_loop_spec; auto|].
  destruct (internal_spec mb flags fuel P _ _ xs [] SIZE_MAX SIZE_MAX HP Hr Hx) as (r & Er & Hr01 & Hr0); [constructor|done|by right|by right|done|done|done|done|done|].
  rewrite app_nil_r in Er. destruct (flag flags FNM_LEADING_DIR).
  - destruct (leading_dir_spec mb flags fuel P _ xs [] HP Hr Hx Hsz Hsz2 Hf) as (b & Eb & Hb). cbn [app] in Eb. change (Z.of_nat (length (flat []))) with 0 in Eb. rewrite Eb. cbn [mbind res_bind]. destruct b.
    + exists 0. split; [done|]. split; [by left|]. split; [|done]. intros _. right. split; [done|]. by apply Hb.
    + rewrite Er. exists r. split; [done|]. split; [done|]. rewrite Hr0. split; [by left|]. intros [?|[_ H]]; [done|]. by apply Hb in H.
  - cbn [mbind res_bind]. rewrite Er. exists r. split; [done|]. split; [done|]. rewrite Hr0. split; [by left|]. intros [?|[? _]]; done.
Qed.

Lemma fnmatch_correct_witness :
  exists z, fnmatch 100 4 (str "*[[:digit:]]b*.c"%string ++ [0]) (flat [([97], 97); ([0xc3; 0xa9], 0xe9); ([55], 55); ([98], 98); ([46], 46); ([99], 99)] ++ [0]) FNM_PERIOD = Ok z /\
    (z = 0 \/ z = FNM_NOMATCH) /\ (z = 0 <-> accepts 4 FNM_PERIOD (codes 4 FNM_PERIOD (str "*[[:digit:]]b*.c"%string)) [97; 0xe9; 55; 98; 46; 99]).
Proof.
  apply (fnmatch_correct 100 4 FNM_PERIOD (str "*[[:digit:]]b*.c"%string) [([97], 97); ([0xc3; 0xa9], 0xe9); ([55], 55); ([98], 98); ([46], 46); ([99], 99)]).
  - apply (bool_decide_unpack _); vm_compute; reflexivity.
  - repeat apply Forall_cons_2; [..|apply Forall_nil_2]; (split; [apply (bool_decide_unpack _); vm_compute; reflexivity|reflexivity]).
  - vm_compute; discriminate.
  - vm_compute; discriminate.
  - cbn. lia.
  - discriminate.
Defined.

(** ** A pattern that cannot be read *)
Lemma unmatchable_next fuel mb flags l m k : cstr l -> lex mb flags l = Some (UNMATCHABLE, k) -> 1 <= m -> pat_next fuel mb (l ++ [0]) m flags = Ok (UNMATCHABLE, 0%nat).
Proof.
  intros Hl E Hm. assert (Hne : l <> []) by (by intros ->). assert (Hk : k = 0%nat).
  { destruct (lex_some mb flags l Hl Hne) as (c' & k' & E' & H). rewrite E in E'. injection E' as <- <-. destruct H as [[_ ?]|(_ & H & _)]; [done|].
    unfold UNMATCHABLE, BRACKET, QUESTION, STAR in H. lia. }
  subst k. rewrite <- (pat_next_lex (S (length l)) mb flags l m UNMATCHABLE 0) by (done || lia).
  destruct l as [|c l]; [done|]. assert (Hc : c <> 91).
  { intros ->. cbn [lex] in E. change (91 =? 92) with false in E. cbn [andb] in E. change (91 =? 91) with true in E. cbv iota in E. destruct (bracket_len (91 :: l)); discriminate. }
  unfold pat_next. change (rd ((c :: l) ++ [0]) 0) with (Ok c). cbn [mbind res_bind]. by rewrite (proj2 (Z.eqb_neq c 91)) by done.
Qed.

Lemma to_slash_total S : cstr S -> exists k, to_slash (S ++ [0]) = Ok k.
Proof.
  induction 1 as [|c S Hc _ [k IH]]; [by exists 0%nat|]. cbn [app to_slash]. destruct ((c =? 0) || (c =? 47)); [by exists 0%nat|]. rewrite IH. cbn. eauto.
Qed.

(** C16: With [FNM_PATHNAME] a pattern that starts with bytes that are no character makes
    [fnmatch] loop forever, on every string: the loop that looks for the slash
    advances by the length of the code, which is 0.  No amount of fuel is enough. *)
Theorem fnmatch_hangs fuel mb flags P S k : cstr P -> cstr S -> flag flags FNM_PATHNAME = true -> lex mb flags P = Some (UNMATCHABLE, k) ->
  fnmatch fuel mb (P ++ [0]) (S ++ [0]) flags = Timeout.
Proof.
  intros HP HS Hfl E. unfold fnmatch. rewrite Hfl. destruct fuel as [|fuel]; [done|]. cbn [pathname_loop]. destruct (to_slash_total S HS) as [i ->]. cbn [mbind res_bind].
  assert (Hp : forall n len, pat_to_slash n mb flags (P ++ [0]) len = Timeout).
  { induction n as [|n IH]; intros len; [done|]. cbn [pat_to_slash]. rewrite (unmatchable_next (Datatypes.S n) mb flags P SIZE_MAX k) by done. cbn. apply IH. }
  by rewrite Hp.
Qed.

Lemma fnmatch_hangs_witness : fnmatch 1000 4 [0xff; 0] [120; 0] FNM_PATHNAME = Timeout.
Proof.
  refine (fnmatch_hangs 1000 4 FNM_PATHNAME [0xff] [120] 0 _ _ _ _).
  - apply (bool_decide_unpack _); vm_compute; reflexivity.
  - apply (bool_decide_unpack _); vm_compute; reflexivity.
  - reflexivity.
  - reflexivity.
Defined.

(** The comment in the code says that an illegal sequence never matches; between stars a
    question mark takes any byte. *)
Lemma illegal_match : fnmatch 20 4 [42; 63; 42; 0] [0xff; 0] 0 = Ok 0 /\ fnmatch 20 4 [63; 0] [0xff; 0] 0 = Ok FNM_NOMATCH.
Proof. split; vm_compute; reflexivity. Qed.
