(* ===== verification/Links.v ===== *)
(** The doubly linked rings of the allocator's bins (Malloc.v). *)
From S2P Require Import Prelude Mem.

(** A doubly linked path from [x] over [L] to [y]: [next] is at offset 16 of a
    chunk, [prev] at offset 24. *)
Fixpoint links (m : mem) (x : Z) (L : list Z) (y : Z) : Prop :=
  match L with
  | [] => m !! (x + 16) = Some y /\ m !! (y + 24) = Some x
  | z :: L => (m !! (x + 16) = Some z /\ m !! (z + 24) = Some x) /\ links m z L y
  end.

(** The node before the end of a path. *)
Fixpoint before_end (x : Z) (L : list Z) : Z := match L with [] => x | z :: L => before_end z L end.

Lemma before_end_in x L : before_end x L ∈ x :: L.
Proof. revert x. induction L as [|z L IH]; intros x; [by left|right; apply IH]. Qed.

Lemma links_app m x L1 z L2 y : links m x (L1 ++ z :: L2) y <-> links m x L1 z /\ links m z L2 y.
Proof. revert x. induction L1 as [|w L1 IH]; intros x; cbn; [done|]. rewrite IH. tauto. Qed.

Lemma links_first m x L y : links m x L y -> m !! (x + 16) = Some (hd y L).
Proof. destruct L; cbn; tauto. Qed.

Lemma links_last m x L y : links m x L y -> m !! (y + 24) = Some (before_end x L).
Proof. revert x. induction L as [|z L IH]; intros x; cbn; [tauto|]. intros [_ H]. by apply IH. Qed.

Lemma links_frame m x L y a v : (forall z, z ∈ x :: L -> a <> z + 16) -> (forall z, z ∈ L ++ [y] -> a <> z + 24) ->
  links m x L y -> links (<[a := v]> m) x L y.
Proof.
  revert x. induction L as [|z L IH]; intros x Hn Hp; cbn [links app] in *.
  - pose proof (Hn x ltac:(by left)). pose proof (Hp y ltac:(by left)). by rewrite !lookup_insert_ne.
  - pose proof (Hn x ltac:(by left)). pose proof (Hp z ltac:(by left)). rewrite !lookup_insert_ne by done. intros [Hxz HL]. split; [done|].
    apply IH; [|intros w Hw; apply Hp; by right|done]. intros w Hw. apply Hn. by right.
Qed.

Lemma links_ext m m' x L y : (forall z, z ∈ x :: L -> m' !! (z + 16) = m !! (z + 16)) -> (forall z, z ∈ L ++ [y] -> m' !! (z + 24) = m !! (z + 24)) ->
  links m x L y -> links m' x L y.
Proof.
  revert x. induction L as [|z L IH]; intros x Hn Hp; cbn [links app] in *.
  - rewrite (Hn x), (Hp y) by (by left). done.
  - rewrite (Hn x), (Hp z) by (by left). intros [Hxz HL]. split; [done|]. apply IH; [|intros w Hw; apply Hp; by right|done].
    intros w Hw. apply Hn. by right.
Qed.

(** Fields of different kinds do not overlap. *)
Definition separate (l : list Z) : Prop := forall u w, u ∈ l -> w ∈ l -> u + 16 <> w + 24.

Lemma separate_sub l l' : (forall u, u ∈ l' -> u ∈ l) -> separate l -> separate l'.
Proof. intros H Hs u w Hu Hw. apply Hs; by apply H. Qed.

(** The path leads to another end. *)
Lemma links_retarget m x L y c : base.NoDup L -> x ∉ L -> c ∉ L -> separate (x :: c :: L) -> links m x L y ->
  links (<[c + 24 := before_end x L]> (<[before_end x L + 16 := c]> m)) x L c.
Proof.
  revert x. induction L as [|z L IH]; intros x Hnd Hx Hc Hs HL; cbn [before_end links] in *.
  - pose proof (Hs x c ltac:(by left) ltac:(right; by left)). rewrite lookup_insert_ne by lia. by rewrite !lookup_insert_eq.
  - apply list.NoDup_cons in Hnd as [Hz Hnd]. apply not_elem_of_cons in Hx as [Hxz Hx], Hc as [Hcz Hc]. destruct HL as [[H1 H2] HL].
    pose proof (before_end_in z L) as Hb. set (t := before_end z L) in *.
    assert (Htx : t <> x) by (intros ->; by apply elem_of_cons in Hb as [|]).
    assert (Ht : t ∈ x :: c :: z :: L) by (by do 2 right).
    pose proof (Hs x c ltac:(by left) ltac:(right; by left)). pose proof (Hs t z Ht ltac:(do 2 right; by left)).
    split; [split; by rewrite !lookup_insert_ne by lia|].
    apply IH; [done|done|done| |done]. revert Hs. apply separate_sub. intros u Hu. rewrite !elem_of_cons in *. tauto.
Qed.

(** The path comes from another node. *)
Lemma links_resource m x L y c : y ∉ L -> c ∉ L -> base.NoDup L -> separate (c :: y :: L) -> links m x L y ->
  links (<[hd y L + 24 := c]> (<[c + 16 := hd y L]> m)) c L y.
Proof.
  intros Hy Hc Hnd Hs HL. destruct L as [|z L]; cbn [hd links] in *.
  - pose proof (Hs c y ltac:(by left) ltac:(right; by left)). rewrite lookup_insert_ne by lia. by rewrite !lookup_insert_eq.
  - pose proof (Hs c z ltac:(by left) ltac:(do 2 right; by left)). apply not_elem_of_cons in Hy as [Hyz Hy], Hc as [Hcz Hc]. apply list.NoDup_cons in Hnd as [Hz Hnd].
    split; [rewrite lookup_insert_ne by lia; by rewrite !lookup_insert_eq|]. destruct HL as [_ HL].
    apply links_frame; [| |apply links_frame; [| |done]].
    + intros w Hw E. apply (Hs w z); [by do 2 right|do 2 right; by left|lia].
    + intros w [Hw|Hw%list_elem_of_singleton]%elem_of_app E; assert (w = z) as -> by lia; [done|congruence].
    + intros w Hw E. assert (w = c) as -> by lia. by apply elem_of_cons in Hw as [|].
    + intros w [Hw|Hw%list_elem_of_singleton]%elem_of_app E; (apply (Hs c w); [by left| |done]); [do 3 right; done|subst w; right; by left].
Qed.

(** A node is taken out: [unbin]. *)
Lemma links_unlink m x L1 c L2 y : base.NoDup (L1 ++ L2) -> x ∉ L1 ++ L2 -> y ∉ L1 ++ L2 -> separate (x :: y :: L1 ++ L2) ->
  links m x L1 c -> links m c L2 y ->
  links (<[hd y L2 + 24 := before_end x L1]> (<[before_end x L1 + 16 := hd y L2]> m)) x (L1 ++ L2) y.
Proof.
  intros Hnd Hx Hy Hs H1 H2. destruct L2 as [|z L2]; cbn [hd].
  - rewrite app_nil_r in *. by apply (links_retarget m x L1 c y).
  - apply list.NoDup_app in Hnd as (Hnd1 & Hd & Hnd2). apply list.NoDup_cons in Hnd2 as [Hz Hnd2].
    rewrite elem_of_app, elem_of_cons in Hx, Hy. destruct H2 as [_ H2]. apply links_app. split.
    + apply (links_retarget m x L1 c z); [done|tauto| | |done].
      * intros Hz1. apply (Hd z Hz1). by left.
      * revert Hs. apply separate_sub. intros u. rewrite !elem_of_cons, elem_of_app, elem_of_cons. tauto.
    + pose proof (before_end_in x L1) as Hb. set (t := before_end x L1) in *.
      assert (Htn : t ∉ z :: L2).
      { intros Ht. apply elem_of_cons in Hb as [->|Hb]; [apply Hx; right; by apply elem_of_cons in Ht|by apply (Hd t)]. }
      assert (Hin : forall u, u ∈ t :: z :: L2 ++ [y] -> u ∈ x :: y :: L1 ++ z :: L2).
      { intros u. rewrite !elem_of_cons, !elem_of_app, list_elem_of_singleton, elem_of_cons.
        intros [->|[->|[H| ->]]]; [apply elem_of_cons in Hb; tauto|tauto..]. }
      apply links_frame; [| |apply links_frame; [| |done]].
      * intros w Hw E. apply (Hs w z); [apply Hin; right; rewrite elem_of_cons, elem_of_app; apply elem_of_cons in Hw; tauto|apply Hin; right; by left|lia].
      * intros w [Hw|Hw%list_elem_of_singleton]%elem_of_app E; assert (w = z) as -> by lia; [done|]. apply Hy. right. by left.
      * intros w Hw E. by assert (w = t) as -> by lia.
      * intros w Hw E. apply (Hs t w); [apply Hin; by left|apply Hin; do 2 right; done|done].
Qed.

(** A node is added at the end: [free]. *)
Lemma links_snoc m x L y c : base.NoDup L -> x ∉ L -> c ∉ L -> c <> y -> c <> x -> separate (x :: y :: c :: L) ->
  links m x L y -> y ∉ L ->
  links (<[before_end x L + 16 := c]> (<[y + 24 := c]> (<[c + 24 := before_end x L]> (<[c + 16 := y]> m)))) x (L ++ [c]) y.
Proof.
  intros Hnd Hx Hc Hcy Hcx Hs HL Hy. pose proof (before_end_in x L) as Hb. set (t := before_end x L) in *.
  assert (Ht : t ∈ x :: y :: c :: L) by (apply elem_of_cons in Hb as [->|]; [by left|by do 3 right]).
  assert (Htc : t <> c) by (intros E; rewrite E in Hb; apply elem_of_cons in Hb as [|]; done).
  assert (Hyin : y ∈ x :: y :: c :: L) by (right; by left). assert (Hcin : c ∈ x :: y :: c :: L) by (do 2 right; by left).
  pose proof (Hs t y Ht Hyin). pose proof (Hs t c Ht Hcin). pose proof (Hs c y Hcin Hyin). pose proof (Hs c c Hcin Hcin).
  apply links_app. split.
  - replace (<[t + 16 := c]> (<[y + 24 := c]> (<[c + 24 := t]> (<[c + 16 := y]> m))))
      with (<[y + 24 := c]> (<[c + 16 := y]> (<[c + 24 := t]> (<[t + 16 := c]> m)))).
    2: { symmetry. rewrite (insert_insert_ne _ (t + 16)) by lia. f_equal. rewrite (insert_insert_ne _ (t + 16) (c + 24)) by lia.
      rewrite (insert_insert_ne _ (c + 16) (c + 24)) by lia. f_equal. apply insert_insert_ne. lia. }
    apply links_frame; [| |apply links_frame; [| |apply (links_retarget m x L y c); try done]].
    + intros w Hw E'. apply (Hs w y); [apply elem_of_cons in Hw as [->|]; [by left|by do 3 right]|done|lia].
    + intros w [Hw|Hw%list_elem_of_singleton]%elem_of_app E'; assert (w = y) as -> by lia; done.
    + intros w Hw E'. assert (w = c) as -> by lia. by apply elem_of_cons in Hw as [|].
    + intros w Hw E'. apply (Hs c w); [done| |done]. apply elem_of_app in Hw as [|Hw%list_elem_of_singleton]; [by do 3 right|by subst w].
    + revert Hs. apply separate_sub. intros u. rewrite !elem_of_cons. tauto.
  - cbn. split.
    + rewrite !lookup_insert_ne by lia. by rewrite lookup_insert_eq.
    + rewrite lookup_insert_ne by lia. by rewrite lookup_insert_eq.
Qed.
