(* ===== verification/Malloc.v ===== *)
(** The allocator: malloc/malloc.c, expand_heap.c, calloc.c and memalign.c, of a
    program with one thread (the locks then do nothing).

    Memory is a map from the addresses of the mapped 8-byte words to their
    values, in the monad of Mem.v: the allocator reads and writes nothing but
    words.  Its static objects ([mal], [end], [brk], [mmap_step]) lie in that
    memory from the address [st] on, so that the heads of the bins are chunks as
    they are in the code.  The kernel is a parameter, the class [Kernel]. *)
From S2P Require Import Prelude Mem Qsort.
Open Scope c_scope.

Definition load (p : Z) : M Z := fun m => match m !! p with Some v => Done (v, m) | None => Fault end.

Definition store (p v : Z) : M unit := fun m =>
  match m !! p with Some _ => Done (tt, <[p := u64 v]> m) | None => Fault end.

(** [n] words from [a] on, mapped and zero; the [len] bytes from [a] on, unmapped. *)
Fixpoint map_words (n : nat) (a : Z) (m : mem) : mem :=
  match n with O => m | S n => <[a := 0]> (map_words n (a + 8) m) end.

Definition unmap (a len : Z) (m : mem) : mem := filter (fun kv => ~ (a <= kv.1 < a + len)) m.

Fixpoint load_words (n : nat) (p : Z) : M (list Z) :=
  match n with O => mret [] | S n => v ← load p; l ← load_words n (p + 8); mret (v :: l) end.

Fixpoint store_words (p : Z) (l : list Z) : M unit :=
  match l with [] => mret tt | v :: l => store p v;; store_words (p + 8) l end.

(** [memcpy] of whole words. *)
Definition copy_words (dest src n : Z) : M unit := l ← load_words (Z.to_nat (n / 8)) src; store_words dest l.

(** What the allocator asks the kernel for; [stack] is the two addresses that
    [traverses_stack_p] takes for stacks, of [libc.auxv] and of a local variable. *)
Class Kernel := {
  sys_brk : mem -> Z -> Z;
  sys_mmap : mem -> Z -> Z;
  sys_mremap : mem -> Z -> Z -> Z -> Z;
  stack : Z * Z }.

Definition PAGE_SIZE : Z := 4096.
Definition SIZE_MAX : Z := 2 ^ 64 - 1.
Definition PTRDIFF_MAX : Z := 2 ^ 63 - 1.
Definition MAP_FAILED : Z := 2 ^ 64 - 1.

Definition SIZE_ALIGN : Z := 32.
Definition SIZE_MASK : Z := - SIZE_ALIGN.
Definition OVERHEAD : Z := 16.
Definition MMAP_THRESHOLD : Z := 0x1c00 * SIZE_ALIGN.
Definition DONTCARE : Z := 16.
Definition RECLAIM : Z := 163840.
Definition C_INUSE : Z := 1.

(** ** Bins *)
Definition bin_tab : list Z :=
  [32; 33; 34; 35; 36; 36; 37; 37; 38; 38; 39; 39;
   40; 40; 40; 40; 41; 41; 41; 41; 42; 42; 42; 42; 43; 43; 43; 43;
   44; 44; 44; 44; 44; 44; 44; 44; 45; 45; 45; 45; 45; 45; 45; 45;
   46; 46; 46; 46; 46; 46; 46; 46; 47; 47; 47; 47; 47; 47; 47; 47].

Definition tab (i : Z) : Z := bin_tab !!! Z.to_nat i.

Definition bin_index (x : Z) : Z :=
  let x := u64 (x / SIZE_ALIGN - 1) in
  if x <=? 32 then x
  else if x <? 512 then tab (x / 8 - 4)
  else if x >? 0x1c00 then 63
  else tab (x / 128 - 4) + 16.

Definition bin_index_up (x : Z) : Z :=
  let x := u64 (x / SIZE_ALIGN - 1) in
  if x <=? 32 then x
  else
    let x := x - 1 in
    if x <? 512 then tab (x / 8 - 4) + 1
    else tab (x / 128 - 4) + 17.

Definition first_set (x : Z) : Z := a_ctz_64 x.

(** The size with the bytes of overhead, or [None] if it is too large. *)
Definition adjust_size (n : Z) : option Z :=
  if u64 (n - 1) >? PTRDIFF_MAX - SIZE_ALIGN - PAGE_SIZE then
    if negb (n =? 0) then None else Some SIZE_ALIGN
  else Some ((n + OVERHEAD + SIZE_ALIGN - 1) & SIZE_MASK).

Section malloc.
Context {F : Fuel} {K : Kernel} (st : Z).

(** ** The static objects *)
Definition binmap : Z := st.
Definition BIN_TO_CHUNK (i : Z) : Z := st + 24 * i.
Definition end_ : Z := st + 1552.
Definition brk : Z := st + 1560.
Definition mmap_step : Z := st + 1568.

(** ** Chunks: fields, neighbours *)
Definition psize (c : Z) : Z := c.
Definition csize (c : Z) : Z := c + 8.
Definition next (c : Z) : Z := c + 16.
Definition prev (c : Z) : Z := c + 24.

Definition CHUNK_SIZE (c : Z) : M Z := s ← load (csize c); mret (s & -2).
Definition CHUNK_PSIZE (c : Z) : M Z := s ← load (psize c); mret (s & -2).
Definition PREV_CHUNK (c : Z) : M Z := s ← CHUNK_PSIZE c; mret (c - s).
Definition NEXT_CHUNK (c : Z) : M Z := s ← CHUNK_SIZE c; mret (c + s).
Definition MEM_TO_CHUNK (p : Z) : Z := p - OVERHEAD.
Definition CHUNK_TO_MEM (c : Z) : Z := c + OVERHEAD.

Definition IS_MMAPPED (c : Z) : M bool := s ← load (csize c); mret (s & C_INUSE =? 0).

(** The first use of a bin makes it an empty ring. *)
Definition lock_bin (i : Z) : M unit :=
  h ← load (next (BIN_TO_CHUNK i));
  if h =? 0 then store (prev (BIN_TO_CHUNK i)) (BIN_TO_CHUNK i);; store (next (BIN_TO_CHUNK i)) (BIN_TO_CHUNK i)
  else mret tt.

(** ** expand_heap.c *)
Definition traverses_stack_p (old new : Z) : bool :=
  let len := 8 << 20 in
  let hit b := let a := if b >? len then b - len else 0 in (new >? a) && (old <? b) in
  hit stack.1 || hit stack.2.

(** The address and the size of the new space, or [None]. *)
Definition __expand_heap (n : Z) : M (option (Z * Z)) :=
  if n >? SIZE_MAX / 2 - PAGE_SIZE then mret None
  else
    let n := n + (u64 (- n) & (PAGE_SIZE - 1)) in
    b ← load brk;
    (if b =? 0 then fun m =>
       let b := sys_brk m 0 in (store brk (b + (u64 (- b) & (PAGE_SIZE - 1)))) m
     else mret tt);;
    b ← load brk;
    grown ← (if (n <? SIZE_MAX - b) && negb (traverses_stack_p b (b + n)) then
      fun m => if sys_brk m (b + n) =? b + n then Done (true, map_words (Z.to_nat (n / 8)) b m) else Done (false, m)
      else mret false);
    if (grown : bool) then store brk (b + n);; mret (Some (b, n))
    else
      step ← load mmap_step;
      let min := u64 (PAGE_SIZE << (step / 2)) in
      let n := if n <? min then min else n in
      area ← (fun m => let a := sys_mmap m n in Done (a, if a =? MAP_FAILED then m else map_words (Z.to_nat (n / 8)) a m));
      if area =? MAP_FAILED then mret None
      else store mmap_step (u32 (step + 1));; mret (Some (area, n)).

Definition expand_heap (n : Z) : M (option Z) :=
  let n := n + SIZE_ALIGN in
  r ← __expand_heap n;
  match r with
  | None => mret None
  | Some (p, n) =>
      e ← load end_;
      '(p, n) ← (if negb (p =? e) then
          let n := n - SIZE_ALIGN in
          let p := p + SIZE_ALIGN in
          store (psize (MEM_TO_CHUNK p)) (0 .| C_INUSE);; mret (p, n)
        else mret (p, n));
      store end_ (p + n);;
      let w := MEM_TO_CHUNK (p + n) in
      store (psize w) (n .| C_INUSE);;
      store (csize w) (0 .| C_INUSE);;
      let w := MEM_TO_CHUNK p in
      store (csize w) (n .| C_INUSE);;
      mret (Some w)
  end.

(** ** malloc.c *)
Definition unbin (c i : Z) : M unit :=
  p ← load (prev c);
  n ← load (next c);
  (if p =? n then b ← load binmap; store binmap (b & Z.lnot (1 << i)) else mret tt);;
  p ← load (prev c); n ← load (next c); store (next p) n;;
  n ← load (next c); p ← load (prev c); store (prev n) p;;
  s ← load (csize c); store (csize c) (s .| C_INUSE);;
  nx ← NEXT_CHUNK c; s ← load (psize nx); store (psize nx) (s .| C_INUSE).

Definition alloc_fwd (c : Z) : M bool :=
  loop (fun _ : unit =>
    k ← load (csize c);
    if k & C_INUSE =? 0 then
      let i := bin_index k in
      lock_bin i;;
      k' ← load (csize c);
      if k' =? k then unbin c i;; mret (inr true) else mret (inl tt)
    else mret (inr false)) tt.

Definition alloc_rev (c : Z) : M bool :=
  loop (fun _ : unit =>
    k ← load (psize c);
    if k & C_INUSE =? 0 then
      let i := bin_index k in
      lock_bin i;;
      k' ← load (psize c);
      if k' =? k then p ← PREV_CHUNK c; unbin p i;; mret (inr true) else mret (inl tt)
    else mret (inr false)) tt.

Definition pretrim (self n i j : Z) : M bool :=
  if j <? 40 then mret false
  else
    n1 ← CHUNK_SIZE self;
    if (j <? i + 3) && (negb (j =? 63) || (n1 - n <=? MMAP_THRESHOLD)) then mret false
    else if negb (bin_index (n1 - n) =? j) then mret false
    else
      nx ← NEXT_CHUNK self;
      let split := self + n in
      v ← load (prev self); store (prev split) v;;
      v ← load (next self); store (next split) v;;
      v ← load (prev split); store (next v) split;;
      v ← load (next split); store (prev v) split;;
      store (psize split) (n .| C_INUSE);;
      store (csize split) (n1 - n);;
      store (psize nx) (n1 - n);;
      store (csize self) (n .| C_INUSE);;
      mret true.

(** The pages inside a large free chunk are given back and read as zero again. *)
Definition reclaim_pages (self nx : Z) : M unit :=
  let a := (self + SIZE_ALIGN + PAGE_SIZE - 1) & (- PAGE_SIZE) in
  let b := (nx - SIZE_ALIGN) & (- PAGE_SIZE) in
  store_words a (replicate (Z.to_nat (u64 (b - a) / 8)) 0).

(** The loop of [free]: it takes the free neighbours until both neighbours are in
    use, and then writes the size of the whole and locks its bin. *)
Definition reclaims (new_size size : Z) : bool := (new_size + size >? RECLAIM) && ((new_size + size) ^^ size >? size).

Definition free_rev (new_size self final_size : Z) (reclaim : bool) : M (Z * Z * bool) :=
  r ← alloc_rev self;
  if (r : bool) then
    self ← PREV_CHUNK self;
    size ← CHUNK_SIZE self;
    mret (self, final_size + size, reclaim || reclaims new_size size)
  else mret (self, final_size, reclaim).

Definition free_fwd (new_size nx final_size : Z) (reclaim : bool) : M (Z * Z * bool) :=
  f ← alloc_fwd nx;
  if (f : bool) then
    size ← CHUNK_SIZE nx;
    nx' ← NEXT_CHUNK nx;
    mret (nx', final_size + size, reclaim || reclaims new_size size)
  else mret (nx, final_size, reclaim).

Definition free_step (new_size : Z) : Z * Z * Z * bool -> M ((Z * Z * Z * bool) + (Z * Z * Z * bool * Z)) :=
  fun '(self, nx, final_size, reclaim) =>
    ps ← load (psize self); cs ← load (csize nx);
    fin ← (if negb ((ps & cs) & C_INUSE =? 0) then
        store (csize self) (final_size .| C_INUSE);;
        store (psize nx) (final_size .| C_INUSE);;
        lock_bin (bin_index final_size);;
        ps ← load (psize self); cs ← load (csize nx);
        mret (negb ((ps & cs) & C_INUSE =? 0))
      else mret false);
    if (fin : bool) then mret (inr (self, nx, final_size, reclaim, bin_index final_size))
    else
      '(self, final_size, reclaim) ← free_rev new_size self final_size reclaim;
      '(nx, final_size, reclaim) ← free_fwd new_size nx final_size reclaim;
      mret (inl (self, nx, final_size, reclaim)).

Definition free_merge (self nx new_size : Z) : M (Z * Z * Z * bool * Z) :=
  loop (free_step new_size) (self, nx, new_size, false).

(** The chunk becomes the last of its bin. *)
Definition free_insert (self nx final_size i : Z) : M unit :=
  b ← load binmap;
  (if b & (1 << i) =? 0 then store binmap (b .| (1 << i)) else mret tt);;
  store (csize self) final_size;;
  store (psize nx) final_size;;
  store (next self) (BIN_TO_CHUNK i);;
  tail ← load (prev (BIN_TO_CHUNK i));
  store (prev self) tail;;
  v ← load (next self); store (prev v) self;;
  v ← load (prev self); store (next v) self.

Definition free (p : Z) : M unit :=
  if p =? 0 then mret tt
  else
    let self := MEM_TO_CHUNK p in
    mmapped ← IS_MMAPPED self;
    if (mmapped : bool) then
      extra ← load (psize self);
      let base := self - extra in
      size ← CHUNK_SIZE self;
      let len := size + extra in
      if negb (extra & 1 =? 0) then fault
      else fun m => Done (tt, unmap base len m)
    else
      new_size ← CHUNK_SIZE self;
      nx ← NEXT_CHUNK self;
      ps ← load (psize nx); cs ← load (csize self);
      if negb (ps =? cs) then fault
      else
        '(self, nx, final_size, reclaim, i) ← free_merge self nx new_size;
        free_insert self nx final_size i;;
        if (reclaim : bool) then reclaim_pages self nx else mret tt.

Definition trim (self n : Z) : M unit :=
  n1 ← CHUNK_SIZE self;
  if n >=? u64 (n1 - DONTCARE) then mret tt
  else
    nx ← NEXT_CHUNK self;
    let split := self + n in
    store (psize split) (n .| C_INUSE);;
    store (csize split) ((n1 - n) .| C_INUSE);;
    store (psize nx) ((n1 - n) .| C_INUSE);;
    store (csize self) (n .| C_INUSE);;
    free (CHUNK_TO_MEM split).

(** No bin has a chunk: the heap grows, and the new chunk joins a free one before it. *)
Definition grow_chunk (n : Z) : M (option Z) :=
  r ← expand_heap n;
  match r with
  | None => mret None
  | Some c =>
      t ← alloc_rev c;
      if (t : bool) then
        let x := c in
        c ← PREV_CHUNK c;
        xs ← load (csize x); cs ← CHUNK_SIZE c;
        store (csize c) (xs + cs);;
        nx ← NEXT_CHUNK x;
        store (psize nx) (xs + cs);;
        mret (Some c)
      else mret (Some c)
  end.

(** The chunk that [malloc] takes, before it is trimmed. *)
Definition take_chunk (n : Z) : M (option Z) :=
  let i := bin_index_up n in
  loop (fun _ : unit =>
    b ← load binmap;
    let mask := b & u64 (- u64 (1 << i)) in
    if mask =? 0 then r ← grow_chunk n; mret (inr r)
    else
      let j := first_set mask in
      lock_bin j;;
      c ← load (next (BIN_TO_CHUNK j));
      if negb (c =? BIN_TO_CHUNK j) then
        t ← pretrim c n i j;
        (if negb t then unbin c j else mret tt);;
        mret (inr (Some c))
      else mret (inl tt)) tt.

Definition malloc (n : Z) : M Z :=
  match adjust_size n with
  | None => mret 0
  | Some n =>
      if n >? MMAP_THRESHOLD then
        let len := (n + OVERHEAD + PAGE_SIZE - 1) & (- PAGE_SIZE) in
        base ← (fun m => let a := sys_mmap m len in Done (a, if a =? MAP_FAILED then m else map_words (Z.to_nat (len / 8)) a m));
        if base =? MAP_FAILED then mret 0
        else
          let c := base + SIZE_ALIGN - OVERHEAD in
          store (csize c) (len - (SIZE_ALIGN - OVERHEAD));;
          store (psize c) (SIZE_ALIGN - OVERHEAD);;
          mret (CHUNK_TO_MEM c)
      else
        r ← take_chunk n;
        match r with
        | None => mret 0
        | Some c => trim c n;; mret (CHUNK_TO_MEM c)
        end
  end.

Definition __malloc0 (n : Z) : M Z :=
  p ← malloc n;
  if negb (p =? 0) then
    mmapped ← IS_MMAPPED (MEM_TO_CHUNK p);
    if negb mmapped then
      let n := (n + 8 - 1) / 8 in
      _ ← while (fun '(z, n) => mret (negb (n =? 0)))
                (fun '(z, n) => v ← load z; (if negb (v =? 0) then store z 0 else mret tt);; mret (z + 8, n - 1)) (p, n);
      mret p
    else mret p
  else mret p.

(** ** calloc.c *)
Definition calloc (m n : Z) : M Z :=
  if negb (n =? 0) && (m >? SIZE_MAX / n) then mret 0 else __malloc0 (n * m).

(** ** [realloc] *)
Definition copy_realloc (self p n n0 : Z) : M Z :=
  new ← malloc (n - OVERHEAD);
  if new =? 0 then mret 0
  else copy_words new p (n0 - OVERHEAD);; free (CHUNK_TO_MEM self);; mret new.

(** [mremap] moves the pages: the words go with them. *)
Definition mremap (base oldlen newlen : Z) : M Z := fun m =>
  let a := sys_mremap m base oldlen newlen in
  if a =? MAP_FAILED then Done (a, m)
  else match load_words (Z.to_nat (Z.min oldlen newlen / 8)) base m with
       | Done (l, m) =>
           (store_words a l;; mret a) (map_words (Z.to_nat (newlen / 8)) a (unmap base oldlen m))
       | Fault => Fault
       | NoFuel => NoFuel
       end.

(** A mapped block. *)
Definition realloc_mapped (self p n n0 : Z) : M Z :=
  extra ← load (psize self);
  let base := self - extra in
  let oldlen := n0 + extra in
  let newlen := n + extra in
  if negb (extra & 1 =? 0) then fault
  else
    new ← (if newlen <? PAGE_SIZE then malloc n else mret 0);
    if negb (new =? 0) then
      copy_words new p (n - OVERHEAD);; free p;; mret new
    else
      let newlen := (newlen + PAGE_SIZE - 1) & (- PAGE_SIZE) in
      if oldlen =? newlen then mret p
      else
        base ← mremap base oldlen newlen;
        if base =? MAP_FAILED then copy_realloc self p n n0
        else
          let self := base + extra in
          store (csize self) (newlen - extra);;
          mret (CHUNK_TO_MEM self).

(** A chunk of the heap. *)
Definition realloc_chunk (self p n n0 : Z) : M Z :=
  nx ← NEXT_CHUNK self;
  ps ← load (psize nx); cs ← load (csize self);
  if negb (ps =? cs) then fault
  else
    t ← (n >? n0) &&& alloc_fwd nx;
    '(n1, nx) ← (if (t : bool) then s ← CHUNK_SIZE nx; nx' ← NEXT_CHUNK nx; mret (n0 + s, nx') else mret (n0, nx));
    store (csize self) (n1 .| C_INUSE);;
    store (psize nx) (n1 .| C_INUSE);;
    if n <=? n1 then trim self n;; mret (CHUNK_TO_MEM self)
    else copy_realloc self p n n0.

Definition realloc (p n : Z) : M Z :=
  if p =? 0 then malloc n
  else
    match adjust_size n with
    | None => mret 0
    | Some n =>
        let self := MEM_TO_CHUNK p in
        n0 ← CHUNK_SIZE self;
        mmapped ← IS_MMAPPED self;
        if (mmapped : bool) then realloc_mapped self p n n0 else realloc_chunk self p n n0
    end.

(** ** memalign.c *)

(** The block at [mem] is cut at the aligned address [new]. *)
Definition memalign_cut (mem new : Z) : M Z :=
  header ← load (mem - 8);
  if header & 7 =? 0 then
    v ← load (mem - 16); store (new - 16) (v + (new - mem));;
    v ← load (mem - 8); store (new - 8) (v - (new - mem));;
    mret new
  else
    let end_ := mem + (header & -8) in
    footer ← load (end_ - 16);
    store (mem - 8) ((header & 7) .| (new - mem));;
    store (new - 16) ((footer & 7) .| (new - mem));;
    store (new - 8) ((header & 7) .| (end_ - new));;
    store (end_ - 16) ((footer & 7) .| (end_ - new));;
    free mem;;
    mret new.

Definition __memalign (align len : Z) : M Z :=
  if negb (align & u64 (- align) =? align) then mret 0
  else if len >? SIZE_MAX - align then mret 0
  else if align <=? 4 * 8 then malloc len
  else
    mem ← malloc (len + align - 1);
    if mem =? 0 then mret 0
    else
      let new := (mem + align - 1) & (- align) in
      if new =? mem then mret mem else memalign_cut mem new.

Definition aligned_alloc (align len : Z) : M Z := __memalign align len.

Definition malloc_usable_size (p : Z) : M Z :=
  if negb (p =? 0) then s ← CHUNK_SIZE (MEM_TO_CHUNK p); mret (s - OVERHEAD) else mret 0.
End malloc.
