(* ===== verification/MallocChunks.v ===== *)
(** The chunks of the allocator's heap (Malloc.v) as a map, the rules of their
    layout, and the changes that the allocator makes to them. *)
From S2P Require Import Prelude Mem.

(** ** Chunks

    A chunk of the heap: its [psize] word, its size, and whether it is in use.
    The sentinel at the end of a stretch of heap is a chunk in use of size 0. *)
Record chunk := Chunk { c_psize : Z; c_size : Z; c_inuse : bool }.

Abbreviation chunks := (gmap Z chunk).

Definition c_word (k : chunk) : Z := c_size k + b2z (c_inuse k).

(** The bytes that a chunk occupies: a sentinel has its header only. *)
Definition extent (k : chunk) : Z := if c_size k =? 0 then 16 else c_size k.

Record layout (C : chunks) : Prop := {
  ly_arith c k : C !! c = Some k -> c mod 32 = 16 /\ c_size k mod 32 = 0 /\ 0 <= c_size k /\ 0 < c /\ c + extent k < 2 ^ 62 /\
    (c_size k = 0 -> c_inuse k = true);
  ly_next c k : C !! c = Some k -> c_size k <> 0 ->
    exists k', C !! (c + c_size k) = Some k' /\ c_psize k' = c_word k /\ (c_inuse k || c_inuse k' = true);
  ly_prev c k : C !! c = Some k -> c_psize k = 1 \/
    exists k', C !! (c - c_size k') = Some k' /\ c_size k' <> 0 /\ c_psize k = c_word k';
  ly_disjoint c k c' k' : C !! c = Some k -> C !! c' = Some k' -> c < c' -> c + extent k <= c' }.

Lemma extent_pos k : 0 <= c_size k -> 0 < extent k.
Proof. unfold extent. destruct (Z.eqb_spec (c_size k) 0); lia. Qed.

Lemma extent_size k : c_size k <> 0 -> extent k = c_size k.
Proof. unfold extent. by destruct (Z.eqb_spec (c_size k) 0). Qed.

(** Two facts that locate a chunk. *)
Lemma layout_inside C c k c' k' : layout C -> C !! c = Some k -> C !! c' = Some k' -> c <= c' < c + extent k -> c' = c.
Proof.
  intros HL Hc Hc' H. destruct (Z.eq_dec c' c) as [|Hne]; [done|]. pose proof (ly_disjoint _ HL _ _ _ _ Hc Hc'). lia.
Qed.

(** At most one chunk ends at a place. *)
Lemma layout_pred C c k c' k' : layout C -> C !! c = Some k -> C !! c' = Some k' -> c_size k <> 0 -> c_size k' <> 0 ->
  c + c_size k = c' + c_size k' -> c' = c.
Proof.
  intros HL Hc Hc' H0 H0' He. pose proof (ly_arith _ HL _ _ Hc) as (_ & _ & ? & _). pose proof (ly_arith _ HL _ _ Hc') as (_ & _ & ? & _).
  destruct (Z.lt_trichotomy c c') as [Hlt|[->|Hlt]]; [|done|].
  - pose proof (ly_disjoint _ HL _ _ _ _ Hc Hc' Hlt) as Hd. rewrite extent_size in Hd by done. lia.
  - pose proof (ly_disjoint _ HL _ _ _ _ Hc' Hc Hlt) as Hd. rewrite extent_size in Hd by done. lia.
Qed.

(** The [psize] word tells whether a free chunk lies before. *)
Lemma layout_prev_free C c k : layout C -> C !! c = Some k -> c_psize k mod 2 = 0 ->
  exists k', C !! (c - c_psize k) = Some k' /\ c_size k' = c_psize k /\ c_psize k <> 0 /\ c_inuse k' = false.
Proof.
  intros HL Hc Hm. destruct (ly_prev _ HL _ _ Hc) as [H1|(k' & Hk' & H0 & Hp)]; [rewrite H1 in Hm; done|].
  pose proof (ly_arith _ HL _ _ Hk') as (_ & Hk'm & _). unfold c_word in Hp. destruct (c_inuse k') eqn:Hu; cbn in Hp; [mlia|].
  assert (c_psize k = c_size k') as E by lia. exists k'. rewrite E. done.
Qed.

(** If no free chunk lies before, the one before is in use. *)
Lemma layout_prev_inuse C c k c' k' : layout C -> C !! c = Some k -> c_psize k mod 2 = 1 -> C !! c' = Some k' -> c_size k' <> 0 ->
  c' + c_size k' = c -> c_inuse k' = true.
Proof.
  intros HL Hc Hm Hc' H0 <-. destruct (ly_next _ HL _ _ Hc' H0) as (k2 & Hk2 & Hp & _). assert (k2 = k) as -> by congruence.
  pose proof (ly_arith _ HL _ _ Hc') as (_ & Hk'm & _). rewrite Hp in Hm. unfold c_word in Hm. destruct (c_inuse k'); [done|]. cbn in Hm. mlia.
Qed.

(** *** The changes that the allocator makes *)

(** The chunk at [c] is taken from its bin, or put into one. *)
Definition mark (u : bool) (c : Z) (k kn : chunk) (C : chunks) : chunks :=
  <[c := Chunk (c_psize k) (c_size k) u]> (<[c + c_size k := Chunk (c_size k + b2z u) (c_size kn) (c_inuse kn)]> C).

(** The chunk at [c], in use, is cut after [n] bytes. *)
Definition split (c n : Z) (k kn : chunk) (C : chunks) : chunks :=
  <[c := Chunk (c_psize k) n true]> (<[c + n := Chunk (n + 1) (c_size k - n) true]>
    (<[c + c_size k := Chunk (c_size k - n + 1) (c_size kn) (c_inuse kn)]> C)).

(** The chunk at [c], in use, swallows the next one, in use. *)
Definition merge (c : Z) (k k2 kn : chunk) (C : chunks) : chunks :=
  <[c := Chunk (c_psize k) (c_size k + c_size k2) true]>
    (<[c + c_size k + c_size k2 := Chunk (c_size k + c_size k2 + 1) (c_size kn) (c_inuse kn)]> (delete (c + c_size k) C)).

Section changes.
Context (C : chunks) (c : Z) (k kn : chunk).
Context (HL : layout C) (Hc : C !! c = Some k) (Hs : c_size k <> 0).

Lemma chunk_arith : c mod 32 = 16 /\ c_size k mod 32 = 0 /\ 32 <= c_size k /\ 0 < c /\ c + c_size k < 2 ^ 62.
Proof. pose proof (ly_arith _ HL _ _ Hc) as (? & ? & ? & ? & He & ?). rewrite extent_size in He by done. split_and!; try done. mlia. Qed.

(** A chunk other than the one at [c] is before it or behind it. *)
Lemma chunk_other c' k' : C !! c' = Some k' -> c' <> c -> c' + extent k' <= c \/ c + c_size k <= c'.
Proof.
  intros Hc' Hne. destruct (Z.lt_trichotomy c' c) as [H|[H|H]]; [left|done|right].
  - by apply (ly_disjoint _ HL _ _ _ _ Hc' Hc).
  - rewrite <- extent_size by done. by apply (ly_disjoint _ HL _ _ _ _ Hc Hc').
Qed.

Section mark.
Context (Hn : C !! (c + c_size k) = Some kn) (u : bool).

Lemma lookup_mark x y : mark u c k kn C !! x = Some y <->
  (x = c /\ y = Chunk (c_psize k) (c_size k) u) \/ (x = c + c_size k /\ y = Chunk (c_size k + b2z u) (c_size kn) (c_inuse kn)) \/
  (x <> c /\ x <> c + c_size k /\ C !! x = Some y).
Proof. pose proof chunk_arith. unfold mark. rewrite !lookup_insert_Some. intuition (subst; (lia || eauto)). Qed.

(** Sizes do not change. *)
Lemma mark_size x y : mark u c k kn C !! x = Some y -> exists y0, C !! x = Some y0 /\ c_size y0 = c_size y.
Proof. intros [[-> ->]|[[-> ->]|(_ & _ & H)]]%lookup_mark; eauto. Qed.

Lemma mark_layout : (u = false -> c_inuse kn = true /\ c_psize k mod 2 = 1) -> layout (mark u c k kn C).
Proof.
  intros Hu. pose proof chunk_arith as (Ha1 & Ha2 & Ha3 & Ha4 & Ha5).
  assert (Hlk : forall x y, C !! x = Some y -> exists y', mark u c k kn C !! x = Some y' /\ c_size y' = c_size y /\
    (x <> c + c_size k -> c_psize y' = c_psize y) /\ (x <> c -> c_inuse y' = c_inuse y)).
  { intros x y Hx. destruct (decide (x = c)) as [->|]; [|destruct (decide (x = c + c_size k)) as [->|]].
    - assert (y = k) as -> by congruence. eexists. split; [apply lookup_mark; by left|]. split; [done|]. split; [done|]. by intros ?.
    - assert (y = kn) as -> by congruence. eexists. split; [apply lookup_mark; right; by left|]. split; [done|]. split; [by intros ?|done].
    - exists y. split; [apply lookup_mark; right; by right|]. done. }
  split.
  - intros x y Hy. destruct (mark_size x y Hy) as (y0 & H0 & Hsz). pose proof (ly_arith _ HL _ _ H0) as Har.
    unfold extent in *. rewrite <- Hsz. split_and!; try apply Har. intros Hz. apply lookup_mark in Hy as [[-> ->]|[[-> ->]|(_ & _ & H)]]; cbn in *; [lia| |].
    + apply (ly_arith _ HL _ _ Hn). lia.
    + assert (y0 = y) as -> by congruence. apply Har; lia.
  - intros x y Hy Hz. apply lookup_mark in Hy as [[-> ->]|[[-> ->]|(Hx1 & Hx2 & Hy)]]; cbn [c_size c_inuse] in *.
    + eexists. split; [apply lookup_mark; right; by left|]. split; [done|]. cbn. destruct u; [done|]. by destruct Hu.
    + destruct (ly_next _ HL _ _ Hn Hz) as (k2 & Hk2 & Hp2 & Hi2). destruct (Hlk _ _ Hk2) as (k2' & Hk2' & _ & Hp & Hi).
      pose proof (ly_arith _ HL _ _ Hn) as (_ & _ & ? & _).
      exists k2'. split; [done|]. rewrite Hp, Hi by lia. done.
    + destruct (ly_next _ HL _ _ Hy Hz) as (k2 & Hk2 & Hp2 & Hi2). destruct (Hlk _ _ Hk2) as (k2' & Hk2' & _ & Hp & Hi).
      exists k2'. split; [done|]. rewrite Hp by (intros E; apply Hx1; by apply (layout_pred C c k x y)).
      split; [done|]. destruct (decide (x + c_size y = c)) as [E|]; [|by rewrite Hi].
      apply lookup_mark in Hk2' as [[_ ->]|[[? _]|(? & _)]]; [|lia|done]. cbn. destruct u; [by rewrite orb_true_r|].
      destruct Hu as [_ Hu]; [done|]. by rewrite (layout_prev_inuse C c k x y HL Hc Hu Hy Hz E).
  - intros x y Hy. apply lookup_mark in Hy as [[-> ->]|[[-> ->]|(Hx1 & Hx2 & Hy)]]; cbn [c_psize] in *.
    + destruct (ly_prev _ HL _ _ Hc) as [|(k' & Hk' & H0 & Hp)]; [by left|right]. destruct (Hlk _ _ Hk') as (k2 & Hk2 & Hsz & _ & Hi).
      exists k2. rewrite Hsz. split; [done|]. split; [done|]. unfold c_word in *. rewrite Hsz, Hi; [done|].
      pose proof (ly_arith _ HL _ _ Hk') as (_ & _ & ? & _). lia.
    + right. eexists. split; [apply lookup_mark; left; split; [|done]; cbn; lia|]. done.
    + destruct (ly_prev _ HL _ _ Hy) as [|(k' & Hk' & H0 & Hp)]; [by left|right]. destruct (Hlk _ _ Hk') as (k2 & Hk2 & Hsz & _ & Hi).
      exists k2. rewrite Hsz. split; [done|]. split; [done|]. unfold c_word in *. rewrite Hsz, Hi; [done|].
      intros E. apply Hx2. rewrite E in Hk'. assert (k' = k) as -> by congruence. lia.
  - intros x y x' y' Hy Hy' Hlt. destruct (mark_size x y Hy) as (y0 & H0 & Hsz), (mark_size x' y' Hy') as (y0' & H0' & Hsz').
    pose proof (ly_disjoint _ HL _ _ _ _ H0 H0' Hlt). unfold extent in *. by rewrite <- Hsz.
Qed.
End mark.

Section split.
Context (Hn : C !! (c + c_size k) = Some kn) (Hu : c_inuse k = true) (n : Z) (Hnm : n mod 32 = 0) (Hn0 : 0 < n < c_size k).

Lemma split_free : C !! (c + n) = None.
Proof.
  destruct (C !! (c + n)) as [y|] eqn:Hy; [exfalso|done]. pose proof chunk_arith.
  pose proof (layout_inside C c k (c + n) y HL Hc Hy) as H'. rewrite extent_size in H' by done. lia.
Qed.

Lemma lookup_split x y : split c n k kn C !! x = Some y <->
  (x = c /\ y = Chunk (c_psize k) n true) \/ (x = c + n /\ y = Chunk (n + 1) (c_size k - n) true) \/
  (x = c + c_size k /\ y = Chunk (c_size k - n + 1) (c_size kn) (c_inuse kn)) \/
  (x <> c /\ x <> c + n /\ x <> c + c_size k /\ C !! x = Some y).
Proof. pose proof chunk_arith. unfold split. rewrite !lookup_insert_Some. intuition (subst; (lia || eauto)). Qed.

Lemma split_layout : layout (split c n k kn C).
Proof.
  pose proof chunk_arith as (Ha1 & Ha2 & Ha3 & Ha4 & Ha5). pose proof (ly_arith _ HL _ _ Hn) as Hna. pose proof split_free as Hsf.
  assert (Hlk : forall x y, C !! x = Some y -> x <> c -> exists y', split c n k kn C !! x = Some y' /\ c_size y' = c_size y /\
    (x <> c + c_size k -> c_psize y' = c_psize y) /\ c_inuse y' = c_inuse y).
  { intros x y Hx Hne. destruct (decide (x = c + c_size k)) as [->|].
    - assert (y = kn) as -> by congruence. eexists. split; [apply lookup_split; right; right; by left|]. split; [done|]. split; [intros ?; congruence|done].
    - exists y. split; [apply lookup_split; do 3 right; split; [done|split; [congruence|done]]|done]. }
  assert (Hword : forall y y', c_size y' = c_size y -> c_inuse y' = c_inuse y -> c_word y' = c_word y) by (intros y y' E1 E2; unfold c_word; congruence).
  split.
  - intros x y [[-> ->]|[[-> ->]|[[-> ->]|(_ & _ & _ & Hy)]]]%lookup_split; [| |exact Hna|by apply (ly_arith _ HL)].
    + cbn [c_size c_inuse]. rewrite extent_size by (cbn; lia). cbn. split_and!; try done; lia.
    + cbn [c_size c_inuse]. rewrite extent_size by (cbn; lia). cbn. split_and!; try done; try lia; mlia.
  - intros x y [[-> ->]|[[-> ->]|[[-> ->]|(Hx1 & Hx2 & Hx3 & Hy)]]]%lookup_split Hz; cbn [c_size c_inuse] in *.
    + eexists. split; [apply lookup_split; right; by left|]. done.
    + eexists. split; [apply lookup_split; right; right; left; split; [lia|done]|]. done.
    + destruct (ly_next _ HL _ _ Hn Hz) as (k2 & Hk2 & Hp2 & Hi2). destruct (Hlk _ _ Hk2) as (k2' & Hk2' & _ & Hp & Hi); [lia|].
      exists k2'. split; [done|]. rewrite Hp, Hi by lia. done.
    + destruct (ly_next _ HL _ _ Hy Hz) as (k2 & Hk2 & Hp2 & Hi2). destruct (decide (x + c_size y = c)) as [E|].
      { eexists. split; [apply lookup_split; by left|]. rewrite E in Hk2. assert (k2 = k) as -> by congruence. split; [done|]. by rewrite orb_true_r. }
      destruct (Hlk _ _ Hk2) as (k2' & Hk2' & _ & Hp & Hi); [done|]. exists k2'. split; [done|].
      rewrite Hp, Hi by (intros E; apply Hx1; by apply (layout_pred C c k x y)). done.
  - intros x y [[-> ->]|[[-> ->]|[[-> ->]|(Hx1 & Hx2 & Hx3 & Hy)]]]%lookup_split; cbn [c_psize] in *.
    + destruct (ly_prev _ HL _ _ Hc) as [|(k' & Hk' & H0 & Hp)]; [by left|right]. pose proof (ly_arith _ HL _ _ Hk') as (_ & _ & ? & _).
      destruct (Hlk _ _ Hk') as (k2 & Hk2 & Hsz & _ & Hi); [lia|]. exists k2. rewrite Hsz. split; [done|]. split; [done|]. by rewrite (Hword k' k2).
    + right. eexists. split; [apply lookup_split; left; split; [|done]; cbn; lia|]. cbn. split; [lia|done].
    + right. eexists. split; [apply lookup_split; right; left; split; [|done]; cbn; lia|]. cbn. split; [lia|done].
    + destruct (ly_prev _ HL _ _ Hy) as [|(k' & Hk' & H0 & Hp)]; [by left|right].
      destruct (Hlk _ _ Hk') as (k2 & Hk2 & Hsz & _ & Hi).
      { intros E. rewrite E in Hk'. assert (k' = k) as -> by congruence. lia. }
      exists k2. rewrite Hsz. split; [done|]. split; [done|]. by rewrite (Hword k' k2).
  - intros x y x' y' Hy Hy' Hlt.
    (* a new chunk lies in the old one; the others are where they were *)
    assert (Hin : forall x y, split c n k kn C !! x = Some y -> (x = c /\ extent y = n) \/ (x = c + n /\ extent y = c_size k - n) \/
      exists y0, C !! x = Some y0 /\ extent y0 = extent y /\ 0 < extent y /\ (x + extent y <= c \/ c + c_size k <= x)).
    { intros x0 y0 [[-> ->]|[[-> ->]|[[-> ->]|(Hx0 & _ & _ & H)]]]%lookup_split.
      - left. by rewrite extent_size by (cbn; lia).
      - right. left. by rewrite extent_size by (cbn; lia).
      - right. right. exists kn. split; [done|]. split; [done|]. split; [apply extent_pos, Hna|right; lia].
      - right. right. exists y0. split; [done|]. split; [done|]. split; [apply extent_pos, (ly_arith _ HL _ _ H)|by apply chunk_other]. }
    destruct (Hin x y Hy) as [[-> Hy1]|[[-> Hy1]|(y0 & H0 & He & Hp & Ho)]], (Hin x' y' Hy') as [[-> Hy2]|[[-> Hy2]|(y0' & H0' & He' & Hp' & Ho')]]; try lia.
    rewrite <- He. by apply (ly_disjoint _ HL _ _ _ _ H0 H0').
Qed.
End split.

Section merge.
Context (k2 : chunk) (H2 : C !! (c + c_size k) = Some k2) (Hs2 : c_size k2 <> 0) (Hn : C !! (c + c_size k + c_size k2) = Some kn).
Context (Hu : c_inuse k = true) (Hu2 : c_inuse k2 = true).

Lemma merge_arith : c_size k2 mod 32 = 0 /\ 32 <= c_size k2 /\ c + c_size k + c_size k2 < 2 ^ 62.
Proof.
  pose proof (ly_arith _ HL _ _ H2) as (? & ? & ? & ? & He & ?). rewrite extent_size in He by done. split_and!; try done. mlia.
Qed.

Lemma lookup_merge x y : merge c k k2 kn C !! x = Some y <->
  (x = c /\ y = Chunk (c_psize k) (c_size k + c_size k2) true) \/
  (x = c + c_size k + c_size k2 /\ y = Chunk (c_size k + c_size k2 + 1) (c_size kn) (c_inuse kn)) \/
  (x <> c /\ x <> c + c_size k /\ x <> c + c_size k + c_size k2 /\ C !! x = Some y).
Proof.
  pose proof chunk_arith. pose proof merge_arith. unfold merge. rewrite !lookup_insert_Some, lookup_delete_Some. intuition (subst; (lia || eauto)).
Qed.

Lemma merge_layout : layout (merge c k k2 kn C).
Proof.
  pose proof chunk_arith as (Ha1 & Ha2 & Ha3 & Ha4 & Ha5). pose proof merge_arith as (Hb1 & Hb2 & Hb3). pose proof (ly_arith _ HL _ _ Hn) as Hna.
  assert (Hlk : forall x y, C !! x = Some y -> x <> c -> x <> c + c_size k -> exists y', merge c k k2 kn C !! x = Some y' /\ c_size y' = c_size y /\
    (x <> c + c_size k + c_size k2 -> c_psize y' = c_psize y) /\ c_inuse y' = c_inuse y).
  { intros x y Hx Hne Hne2. destruct (decide (x = c + c_size k + c_size k2)) as [->|].
    - assert (y = kn) as -> by congruence. eexists. split; [apply lookup_merge; right; by left|]. split; [done|]. split; [intros ?; congruence|done].
    - exists y. split; [apply lookup_merge; by do 2 right|done]. }
  assert (Hword : forall y y', c_size y' = c_size y -> c_inuse y' = c_inuse y -> c_word y' = c_word y) by (intros y y' E1 E2; unfold c_word; congruence).
  split.
  - intros x y [[-> ->]|[[-> ->]|(_ & _ & _ & Hy)]]%lookup_merge; [|exact Hna|by apply (ly_arith _ HL)].
    cbn [c_size c_inuse]. rewrite extent_size by (cbn; lia). cbn. split_and!; try done; try lia; mlia.
  - intros x y [[-> ->]|[[-> ->]|(Hx1 & Hx2 & Hx3 & Hy)]]%lookup_merge Hz; cbn [c_size c_inuse] in *.
    + eexists. split; [apply lookup_merge; right; left; split; [lia|done]|]. done.
    + destruct (ly_next _ HL _ _ Hn Hz) as (k3 & Hk3 & Hp3 & Hi3). destruct (Hlk _ _ Hk3) as (k3' & Hk3' & _ & Hp & Hi); [lia|lia|].
      exists k3'. split; [done|]. rewrite Hp, Hi by lia. done.
    + destruct (ly_next _ HL _ _ Hy Hz) as (k3 & Hk3 & Hp3 & Hi3). destruct (decide (x + c_size y = c)) as [E|].
      { eexists. split; [apply lookup_merge; by left|]. rewrite E in Hk3. assert (k3 = k) as -> by congruence. split; [done|]. by rewrite orb_true_r. }
      assert (x + c_size y <> c + c_size k) by (intros E; apply Hx1; by apply (layout_pred C c k x y)).
      destruct (Hlk _ _ Hk3) as (k3' & Hk3' & _ & Hp & Hi); [done|done|]. exists k3'. split; [done|].
      rewrite Hp, Hi by (intros E; apply Hx2; by apply (layout_pred C (c + c_size k) k2 x y)). done.
  - intros x y [[-> ->]|[[-> ->]|(Hx1 & Hx2 & Hx3 & Hy)]]%lookup_merge; cbn [c_psize] in *.
    + destruct (ly_prev _ HL _ _ Hc) as [|(k' & Hk' & H0 & Hp)]; [by left|right]. pose proof (ly_arith _ HL _ _ Hk') as (_ & _ & ? & _).
      destruct (Hlk _ _ Hk') as (k3 & Hk3 & Hsz & _ & Hi); [lia|lia|]. exists k3. rewrite Hsz. split; [done|]. split; [done|]. by rewrite (Hword k' k3).
    + right. eexists. split; [apply lookup_merge; left; split; [|done]; cbn; lia|]. cbn. split; [lia|done].
    + destruct (ly_prev _ HL _ _ Hy) as [|(k' & Hk' & H0 & Hp)]; [by left|right].
      destruct (Hlk _ _ Hk') as (k3 & Hk3 & Hsz & _ & Hi).
      { intros E. rewrite E in Hk'. assert (k' = k) as -> by congruence. lia. }
      { intros E. rewrite E in Hk'. assert (k' = k2) as -> by congruence. lia. }
      exists k3. rewrite Hsz. split; [done|]. split; [done|]. by rewrite (Hword k' k3).
  - intros x y x' y' Hy Hy' Hlt.
    assert (Hin : forall x y, merge c k k2 kn C !! x = Some y -> (x = c /\ extent y = c_size k + c_size k2) \/
      exists y0, C !! x = Some y0 /\ extent y0 = extent y /\ 0 < extent y /\ (x + extent y <= c \/ c + c_size k + c_size k2 <= x)).
    { intros x0 y0 [[-> ->]|[[-> ->]|(Hx0 & Hx1 & _ & H)]]%lookup_merge.
      - left. by rewrite extent_size by (cbn; lia).
      - right. exists kn. split; [done|]. split; [done|]. split; [apply extent_pos, Hna|right; lia].
      - right. exists y0. split; [done|]. split; [done|]. pose proof (extent_pos y0 ltac:(apply (ly_arith _ HL _ _ H))).
        split; [done|]. destruct (chunk_other x0 y0 H Hx0) as [|Hge]; [by left|right].
        assert (c + c_size k < x0) as Hlt0 by lia. pose proof (ly_disjoint _ HL _ _ _ _ H2 H Hlt0) as Hd. by rewrite extent_size in Hd. }
    destruct (Hin x y Hy) as [[-> Hy1]|(y0 & H0 & He & Hp & Ho)], (Hin x' y' Hy') as [[-> Hy2]|(y0' & H0' & He' & Hp' & Ho')]; try lia.
    rewrite <- He. by apply (ly_disjoint _ HL _ _ _ _ H0 H0').
Qed.
End merge.
End changes.

(** The heap grows: the [n] bytes at [w] become a chunk in use, with a sentinel
    behind it.  At [w] there was a sentinel, or nothing. *)
Definition extend (w p n : Z) (C : chunks) : chunks :=
  <[w := Chunk p n true]> (<[w + n := Chunk (n + 1) 0 true]> C).

Section extend.
Context (C : chunks) (w p n : Z) (HL : layout C).
Context (Ha : w mod 32 = 16 /\ n mod 32 = 0 /\ 0 < n /\ 0 < w /\ w + n + 16 < 2 ^ 62).
Context (Hfree : forall c k, C !! c = Some k -> c <> w -> c + extent k <= w \/ w + n + 16 <= c).
Context (Hw : C !! w = Some (Chunk p 0 true) \/ (C !! w = None /\ p = 1)).

Lemma lookup_extend x y : extend w p n C !! x = Some y <->
  (x = w /\ y = Chunk p n true) \/ (x = w + n /\ y = Chunk (n + 1) 0 true) \/ (x <> w /\ x <> w + n /\ C !! x = Some y).
Proof. unfold extend. rewrite !lookup_insert_Some. intuition (subst; (lia || eauto)). Qed.

Lemma extend_other x y : C !! x = Some y -> x <> w -> extend w p n C !! x = Some y.
Proof.
  intros Hx Hne. apply lookup_extend. do 2 right. split; [done|]. split; [|done]. intros ->.
  pose proof (ly_arith _ HL _ _ Hx) as (_ & _ & H0 & _). pose proof (extent_pos y H0). destruct (Hfree _ _ Hx Hne); lia.
Qed.

Lemma extend_layout : layout (extend w p n C).
Proof.
  split.
  - intros x y [[-> ->]|[[-> ->]|(_ & _ & Hy)]]%lookup_extend; [| |by apply (ly_arith _ HL)].
    + cbn [c_size c_inuse]. rewrite extent_size by (cbn; lia). cbn. split_and!; try done; lia.
    + cbn [c_size c_inuse]. unfold extent. cbn. split_and!; try done; try lia. mlia.
  - intros x y [[-> ->]|[[-> ->]|(Hx1 & Hx2 & Hy)]]%lookup_extend Hz; cbn [c_size c_inuse] in *; [|done|].
    + eexists. split; [apply lookup_extend; right; by left|]. done.
    + destruct (ly_next _ HL _ _ Hy Hz) as (k3 & Hk3 & Hp3 & Hi3). destruct (decide (x + c_size y = w)) as [E|].
      * rewrite E in Hk3. destruct Hw as [Hw'|[Hw' _]]; [|congruence]. assert (k3 = Chunk p 0 true) as -> by congruence.
        eexists. split; [rewrite E; apply lookup_extend; by left|]. by rewrite orb_true_r.
      * exists k3. split; [by apply extend_other|done].
  - intros x y [[-> ->]|[[-> ->]|(Hx1 & Hx2 & Hy)]]%lookup_extend; cbn [c_psize] in *.
    + destruct Hw as [Hw'|[_ ->]]; [|by left]. destruct (ly_prev _ HL _ _ Hw') as [|(k' & Hk' & H0 & Hp)]; [by left|right].
      exists k'. split; [|done]. apply extend_other; [done|]. lia.
    + right. eexists. split; [apply lookup_extend; left; split; [|done]; cbn; lia|]. cbn. split; [lia|done].
    + destruct (ly_prev _ HL _ _ Hy) as [|(k' & Hk' & H0 & Hp)]; [by left|right]. exists k'. split; [|done]. apply extend_other; [done|].
      intros E. rewrite E in Hk'. destruct Hw as [Hw'|[Hw' _]]; [|congruence]. assert (k' = Chunk p 0 true) as -> by congruence. done.
  - intros x y x' y' Hy Hy' Hlt.
    assert (Hin : forall x y, extend w p n C !! x = Some y -> (x = w /\ extent y = n) \/ (x = w + n /\ extent y = 16) \/
      (C !! x = Some y /\ 0 < extent y /\ (x + extent y <= w \/ w + n + 16 <= x))).
    { intros x0 y0 [[-> ->]|[[-> ->]|(Hx0 & _ & H)]]%lookup_extend.
      - left. by rewrite extent_size by (cbn; lia).
      - right. by left.
      - right. right. split; [done|]. pose proof (ly_arith _ HL _ _ H) as (_ & _ & H0 & _). split; [by apply extent_pos|by apply Hfree]. }
    destruct (Hin x y Hy) as [[-> Hy1]|[[-> Hy1]|(H0 & Hp & Ho)]], (Hin x' y' Hy') as [[-> Hy2]|[[-> Hy2]|(H0' & Hp' & Ho')]]; try lia.
    by apply (ly_disjoint _ HL _ _ _ _ H0 H0').
Qed.
End extend.

