(* ===== verification/MallocInv.v ===== *)
(** The invariant of the allocator (Malloc.v): the memory that represents the
    chunks of the heap, the bins and the mapped blocks. *)
From S2P Require Import Prelude Mem Links Malloc MallocChunks.

(** ** The memory *)

(** The mapped blocks of large allocations: how far before the chunk they begin,
    and the size. *)
Abbreviation areas := (gmap Z (Z * Z)).

Section heap.
Context (st : Z).

Definition mapped_words (m : mem) (lo hi : Z) : Prop := forall a, lo <= a < hi -> a mod 8 = 0 -> is_Some (m !! a).

(** What the heap must keep clear of. *)
Definition foreign (D : areas) (lo hi : Z) : Prop :=
  (lo = st /\ hi = st + 1576) \/ exists d x s, D !! d = Some (x, s) /\ lo = d - x /\ hi = d + s.

Record base (m : mem) (C : chunks) (D : areas) : Prop := {
  bs_layout : layout C;
  bs_static : st mod 8 = 0 /\ 0 < st /\ st + 1576 < 2 ^ 62 /\ mapped_words m st (st + 1576);
  bs_areas d x s : D !! d = Some (x, s) -> d mod 32 = 16 /\ x mod 32 = 16 /\ s mod 32 = 16 /\ 16 <= x /\ 16 < s /\ 0 < d - x /\ d + s < 2 ^ 62 /\
    (d - x) mod 4096 = 0 /\ (x + s) mod 4096 = 0 /\ mapped_words m (d - x) (d + s);
  bs_space c k : C !! c = Some k -> mapped_words m c (c + extent k);
  bs_clear c k lo hi : C !! c = Some k -> foreign D lo hi -> c + extent k <= lo \/ hi <= c;
  bs_apart d x s lo hi : D !! d = Some (x, s) -> foreign (delete d D) lo hi -> d + s <= lo \/ hi <= d - x }.

Definition headers (m : mem) (C : chunks) : Prop := forall c k, C !! c = Some k -> m !! c = Some (c_psize k) /\ m !! (c + 8) = Some (c_word k).

Definition area_headers (m : mem) (D : areas) : Prop := forall d x s, D !! d = Some (x, s) -> m !! d = Some x /\ m !! (d + 8) = Some s.

Abbreviation bin := (BIN_TO_CHUNK st).

(** Each bin is a ring, or was not used yet. *)
Definition rings (m : mem) (B : Z -> list Z) : Prop := forall i, 0 <= i < 64 ->
  links m (bin i) (B i) (bin i) \/ (B i = [] /\ m !! (bin i + 16) = Some 0).

(** The bins hold the free chunks. *)
Record binned (C : chunks) (B : Z -> list Z) : Prop := {
  bn_free c k : C !! c = Some k -> c_inuse k = false -> c ∈ B (bin_index (c_size k));
  bn_bin i c : 0 <= i < 64 -> c ∈ B i -> exists k, C !! c = Some k /\ c_inuse k = false /\ bin_index (c_size k) = i;
  bn_nodup i : base.NoDup (B i) }.

Record scalars (m : mem) (C : chunks) (B : Z -> list Z) : Prop := {
  sc_binmap : exists b, m !! st = Some b /\ 0 <= b < 2 ^ 64 /\ forall i, 0 <= i < 64 -> Z.testbit b i = negb (bool_decide (B i = []));
  sc_end : exists e, m !! (st + 1552) = Some e /\ (e = 0 \/ exists p, C !! (e - 16) = Some (Chunk p 0 true));
  sc_brk : exists b, m !! (st + 1560) = Some b /\ 0 <= b < 2 ^ 62 /\ b mod 4096 = 0;
  sc_step : exists s, m !! (st + 1568) = Some s /\ 0 <= s < 100 }.

Record heap (m : mem) (C : chunks) (B : Z -> list Z) (D : areas) : Prop := {
  hp_base : base m C D;
  hp_headers : headers m C;
  hp_areas : area_headers m D;
  hp_rings : rings m B;
  hp_binned : binned C B;
  hp_scalars : scalars m C B }.

(** *** Which words are what *)
Definition is_header (C : chunks) (a : Z) : Prop := exists c k, C !! c = Some k /\ (a = c \/ a = c + 8).
Definition is_area_header (D : areas) (a : Z) : Prop := exists d x s, D !! d = Some (x, s) /\ (a = d \/ a = d + 8).
Definition is_link (C : chunks) (a : Z) : Prop :=
  (exists c k, C !! c = Some k /\ c_size k <> 0 /\ (a = c + 16 \/ a = c + 24)) \/ exists i, 0 <= i < 64 /\ (a = bin i + 16 \/ a = bin i + 24).
Definition is_scalar (a : Z) : Prop := a = st \/ a = st + 1552 \/ a = st + 1560 \/ a = st + 1568.

(** The words that the allocator must leave alone: the blocks in use, except those
    in [H], which the allocator works on, and all that is not its own. *)
Definition in_chunks (C : chunks) (a : Z) : Prop := exists c k, C !! c = Some k /\ (c <= a < c + extent k).

Definition outside (C : chunks) (D : areas) (a : Z) : Prop :=
  ~ (st <= a < st + 1576) /\ ~ in_chunks C a /\ forall d x s, D !! d = Some (x, s) -> ~ (d - x <= a < d + s).

Definition is_user (C : chunks) (D : areas) (H : list Z) (a : Z) : Prop :=
  (exists c k, C !! c = Some k /\ c_inuse k = true /\ c ∉ H /\ c + 16 <= a < c + c_size k) \/
  (exists d x s, D !! d = Some (x, s) /\ d ∉ H /\ d + 16 <= a < d + s) \/ outside C D a.

Section kinds.
Context (m : mem) (C : chunks) (D : areas) (Hb : base m C D).

Lemma clear_static c k : C !! c = Some k -> c + extent k <= st \/ st + 1576 <= c.
Proof. intros Hc. apply (bs_clear _ _ _ Hb c k _ _ Hc). by left. Qed.

Lemma clear_area c k d x s : C !! c = Some k -> D !! d = Some (x, s) -> c + extent k <= d - x \/ d + s <= c.
Proof. intros Hc Hd. apply (bs_clear _ _ _ Hb c k _ _ Hc). right. by exists d, x, s. Qed.

Lemma area_static d x s : D !! d = Some (x, s) -> d + s <= st \/ st + 1576 <= d - x.
Proof. intros Hd. apply (bs_apart _ _ _ Hb d x s _ _ Hd). by left. Qed.

Lemma extent_16 c k : C !! c = Some k -> 16 <= extent k /\ (c_size k <> 0 -> 32 <= extent k).
Proof.
  intros Hc. pose proof (ly_arith _ (bs_layout _ _ _ Hb) _ _ Hc) as (_ & ? & ? & _). unfold extent. destruct (Z.eqb_spec (c_size k) 0); mlia.
Qed.

Lemma header_not_link a : is_header C a -> ~ is_link C a.
Proof.
  intros (c & k & Hc & Ha) [(c' & k' & Hc' & H0 & Ha')|(i & Hi & Ha')].
  - pose proof (ly_arith _ (bs_layout _ _ _ Hb) _ _ Hc) as (H1 & _). pose proof (ly_arith _ (bs_layout _ _ _ Hb) _ _ Hc') as (H2 & _). mlia.
  - pose proof (clear_static c k Hc). pose proof (extent_16 c k Hc). unfold BIN_TO_CHUNK in Ha'. lia.
Qed.

Lemma header_not_scalar a : is_header C a -> ~ is_scalar a.
Proof. intros (c & k & Hc & Ha) Hs. unfold is_scalar in Hs. pose proof (clear_static c k Hc). pose proof (extent_16 c k Hc). lia. Qed.

Lemma header_not_area a : is_header C a -> ~ is_area_header D a.
Proof.
  intros (c & k & Hc & Ha) (d & x & s & Hd & Ha'). pose proof (clear_area c k d x s Hc Hd). pose proof (extent_16 c k Hc).
  pose proof (bs_areas _ _ _ Hb d x s Hd). lia.
Qed.

Lemma link_not_scalar a : is_link C a -> ~ is_scalar a.
Proof.
  intros [(c & k & Hc & H0 & Ha)|(i & Hi & Ha)] Hs; unfold is_scalar in Hs.
  - pose proof (clear_static c k Hc). pose proof (extent_16 c k Hc). lia.
  - unfold BIN_TO_CHUNK in Ha. lia.
Qed.

Lemma link_not_area a : is_link C a -> ~ is_area_header D a.
Proof.
  intros [(c & k & Hc & H0 & Ha)|(i & Hi & Ha)] (d & x & s & Hd & Ha'); pose proof (bs_areas _ _ _ Hb d x s Hd).
  - pose proof (clear_area c k d x s Hc Hd). pose proof (extent_16 c k Hc). lia.
  - pose proof (area_static d x s Hd). unfold BIN_TO_CHUNK in Ha. lia.
Qed.

Lemma scalar_not_area a : is_scalar a -> ~ is_area_header D a.
Proof. intros Hs (d & x & s & Hd & Ha'). unfold is_scalar in Hs. pose proof (bs_areas _ _ _ Hb d x s Hd). pose proof (area_static d x s Hd). lia. Qed.

(** User words. *)
Lemma user_not_header H a : is_user C D H a -> ~ is_header C a.
Proof.
  intros [(c & k & Hc & Hu & _ & Ha)|[(d & x & s & Hd & _ & Ha)|(_ & Ho & _)]] (c' & k' & Hc' & Ha'); pose proof (extent_16 c' k' Hc').
  - assert (c' <> c) by lia. pose proof (chunk_other C c k (bs_layout _ _ _ Hb) Hc ltac:(lia) c' k' Hc' ltac:(done)). lia.
  - pose proof (clear_area c' k' d x s Hc' Hd). pose proof (bs_areas _ _ _ Hb d x s Hd). lia.
  - apply Ho. exists c', k'. split; [done|lia].
Qed.

Lemma user_not_scalar H a : is_user C D H a -> ~ is_scalar a.
Proof.
  intros [(c & k & Hc & Hu & _ & Ha)|[(d & x & s & Hd & _ & Ha)|(Ho & _)]] Hs; unfold is_scalar in Hs.
  - pose proof (clear_static c k Hc). rewrite extent_size in * by lia. lia.
  - pose proof (area_static d x s Hd). pose proof (bs_areas _ _ _ Hb d x s Hd). lia.
  - lia.
Qed.

Lemma user_not_area H a : is_user C D H a -> ~ is_area_header D a.
Proof.
  intros [(c & k & Hc & Hu & _ & Ha)|[(d & x & s & Hd & _ & Ha)|(_ & _ & Ho)]] (d' & x' & s' & Hd' & Ha'); pose proof (bs_areas _ _ _ Hb d' x' s' Hd').
  - pose proof (clear_area c k d' x' s' Hc Hd'). rewrite extent_size in * by lia. lia.
  - destruct (decide (d' = d)) as [->|Hne]; [assert (s' = s /\ x' = x) as [-> ->] by (split; congruence); lia|].
    destruct (bs_apart _ _ _ Hb d x s (d' - x') (d' + s') Hd); [|pose proof (bs_areas _ _ _ Hb d x s Hd); lia..].
    right. exists d', x', s'. by rewrite lookup_delete_ne.
  - apply (Ho d' x' s' Hd'). lia.
Qed.

(** A link of a free chunk or of a bin. *)
Definition is_free_link (a : Z) : Prop :=
  (exists c k, C !! c = Some k /\ c_inuse k = false /\ (a = c + 16 \/ a = c + 24)) \/ exists i, 0 <= i < 64 /\ (a = bin i + 16 \/ a = bin i + 24).

Lemma free_size c k : C !! c = Some k -> c_inuse k = false -> c_size k <> 0.
Proof. intros Hc Hu E. by rewrite (proj2 (proj2 (proj2 (proj2 (proj2 (ly_arith _ (bs_layout _ _ _ Hb) _ _ Hc))))) E) in Hu. Qed.

Lemma free_link_link a : is_free_link a -> is_link C a.
Proof. intros [(c & k & Hc & Hu & Ha)|H]; [left|by right]. exists c, k. split; [done|]. split; [by eapply free_size|done]. Qed.

Lemma user_not_link H a : is_user C D H a -> ~ is_free_link a.
Proof.
  intros Hua [(c' & k' & Hc' & Hu' & Ha')|(i & Hi & Ha')].
  - pose proof (free_size c' k' Hc' Hu') as H0'. pose proof (extent_16 c' k' Hc').
    destruct Hua as [(c & k & Hc & Hu & _ & Ha)|[(d & x & s & Hd & _ & Ha)|(_ & Ho & _)]].
    + assert (c' <> c) by (intros ->; congruence).
      pose proof (chunk_other C c k (bs_layout _ _ _ Hb) Hc ltac:(lia) c' k' Hc' ltac:(done)). lia.
    + pose proof (clear_area c' k' d x s Hc' Hd). pose proof (bs_areas _ _ _ Hb d x s Hd). lia.
    + apply Ho. exists c', k'. split; [done|lia].
  - unfold BIN_TO_CHUNK in Ha'. destruct Hua as [(c & k & Hc & Hu & _ & Ha)|[(d & x & s & Hd & _ & Ha)|(Ho & _)]]; [| |lia].
    + pose proof (clear_static c k Hc). rewrite extent_size in * by lia. lia.
    + pose proof (area_static d x s Hd). pose proof (bs_areas _ _ _ Hb d x s Hd). lia.
Qed.
End kinds.
End heap.

(** ** Words and bits *)
Lemma and_minus_2 x : x mod 2 = 0 -> Z.land x (-2) = x /\ Z.land (x + 1) (-2) = x.
Proof.
  intros Hx. assert (H : forall y, Z.land y (-2) = 2 * (y / 2)).
  { intros y. change (-2) with (Z.lnot (Z.ones 1)). rewrite <- Z.ldiff_land, Z.ldiff_ones_r, Z.shiftl_mul_pow2, Z.shiftr_div_pow2 by lia.
    change (2 ^ 1) with 2. lia. }
  rewrite !H. split; mlia.
Qed.

Lemma and_1 x : Z.land x 1 = x mod 2.
Proof. change 1 with (Z.ones 1). by rewrite Z.land_ones. Qed.

Lemma or_1 x : x mod 2 = 0 -> Z.lor x 1 = x + 1.
Proof.
  intros Hx. replace x with ((x / 2) * 2 ^ 1) at 1 by mlia. rewrite Z.lor_comm, lor_add by lia. mlia.
Qed.

Lemma ldiff_range a b : 0 <= a < 2 ^ 64 -> 0 <= Z.ldiff a b < 2 ^ 64.
Proof.
  intros Ha. assert (H0 : 0 <= Z.ldiff a b) by (apply Z.ldiff_nonneg; lia). split; [done|].
  apply Z.bounded_iff_bits_nonneg; [lia|done|]. intros l Hl. rewrite Z.ldiff_spec by lia.
  by rewrite (proj1 (Z.bounded_iff_bits_nonneg 64 a ltac:(lia) ltac:(lia)) ltac:(lia) l Hl).
Qed.

(** ** Bins by size *)
Definition idx (x : Z) : Z := bin_index (32 * (x + 1)).

Definition idx_up (x : Z) : Z := bin_index_up (32 * (x + 1)).

(** The table rises, by what the theorems need. *)
Lemma tab_b : forallb (fun i => (32 <=? tab i) && (tab i <=? 47) && (tab i <=? tab (i + 1)) && ((52 <=? i) || (tab i <=? 46))) (seqZ 0 59) = true.
Proof. by vm_compute. Qed.

Lemma tab_range i : 0 <= i < 60 -> 32 <= tab i <= 47 /\ (i < 52 -> tab i <= 46).
Proof.
  intros Hi. destruct (Z.eq_dec i 59) as [->|]; [done|]. pose proof (range_forall 59 _ tab_b i ltac:(lia)) as Hb. cbv beta in Hb. lia.
Qed.

Lemma tab_mono i j : 0 <= i <= j -> j < 60 -> tab i <= tab j.
Proof.
  intros Hi Hj. assert (H : forall d, 0 <= d -> i + d < 60 -> tab i <= tab (i + d)).
  { apply (natlike_ind (fun d => i + d < 60 -> tab i <= tab (i + d))); [intros _; by rewrite Z.add_0_r|]. intros d Hd IH Hlt.
    pose proof (range_forall 59 _ tab_b (i + d) ltac:(lia)) as Hb. cbv beta in Hb. rewrite <- Z.add_assoc in Hb. change (d + 1) with (Z.succ d) in Hb. lia. }
  replace j with (i + (j - i)) by lia. apply H; lia.
Qed.

(** The index of a bin by cases *)
Lemma idx_cases x : 0 <= x < 2 ^ 60 ->
  (x <= 32 /\ idx x = x) \/ (32 < x < 512 /\ idx x = tab (x / 8 - 4)) \/ (512 <= x <= 7168 /\ idx x = tab (x / 128 - 4) + 16) \/ (7168 < x /\ idx x = 63).
Proof.
  intros Hx. unfold idx, bin_index, SIZE_ALIGN. replace (32 * (x + 1) / 32 - 1) with x by (rewrite (Z.mul_comm 32), Z.div_mul; lia).
  rewrite u64_id by lia. rewrite Z.gtb_ltb. destruct (Z.leb_spec x 32), (Z.ltb_spec x 512), (Z.ltb_spec 0x1c00 x); try lia; auto 6 with lia.
Qed.

Lemma idx_up_cases x : 0 <= x < 7168 ->
  (x <= 32 /\ idx_up x = x) \/ (32 < x <= 512 /\ idx_up x = tab ((x - 1) / 8 - 4) + 1) \/ (512 < x /\ idx_up x = tab ((x - 1) / 128 - 4) + 17).
Proof.
  intros Hx. unfold idx_up, bin_index_up, SIZE_ALIGN. replace (32 * (x + 1) / 32 - 1) with x by (rewrite (Z.mul_comm 32), Z.div_mul; lia).
  rewrite u64_id by lia. destruct (Z.leb_spec x 32), (Z.ltb_spec (x - 1) 512); try lia; auto 6 with lia.
Qed.

Lemma idx_range x : 0 <= x < 2 ^ 60 -> 0 <= idx x < 64.
Proof.
  intros Hx. destruct (idx_cases x Hx) as [[? ->]|[[? ->]|[[? ->]|[? ->]]]]; try lia.
  - pose proof (tab_range (x / 8 - 4) ltac:(mlia)). lia.
  - pose proof (tab_range (x / 128 - 4) ltac:(mlia)). lia.
Qed.

Lemma idx_mono x y : 0 <= x <= y -> y < 2 ^ 60 -> idx x <= idx y.
Proof.
  intros Hx Hy. pose proof (fun i Hi => proj1 (tab_range i Hi)) as Ht. pose proof (idx_range x ltac:(lia)).
  destruct (idx_cases x ltac:(lia)) as [[? ->]|[[? ->]|[[? ->]|[? ->]]]], (idx_cases y ltac:(lia)) as [[? ->]|[[? ->]|[[? ->]|[? ->]]]]; try lia.
  - pose proof (Ht (y / 8 - 4) ltac:(mlia)). lia.
  - pose proof (Ht (y / 128 - 4) ltac:(mlia)). lia.
  - apply tab_mono; mlia.
  - pose proof (Ht (x / 8 - 4) ltac:(mlia)). pose proof (Ht (y / 128 - 4) ltac:(mlia)). lia.
  - pose proof (Ht (x / 8 - 4) ltac:(mlia)). lia.
  - pose proof (tab_mono (x / 128 - 4) (y / 128 - 4) ltac:(mlia) ltac:(mlia)). lia.
  - pose proof (Ht (x / 128 - 4) ltac:(mlia)). lia.
Qed.

(** Chunks that are too small are in lower bins. *)
Lemma idx_up_above x : 0 < x < 7168 -> idx (x - 1) < idx_up x.
Proof.
  intros Hx. destruct (idx_up_cases x ltac:(lia)) as [[? ->]|[[? ->]|[? ->]]], (idx_cases (x - 1) ltac:(lia)) as [[? ->]|[[? ->]|[[? ->]|[? ->]]]]; try lia.
  pose proof (tab_range ((x - 1) / 8 - 4) ltac:(mlia)). lia.
Qed.

Lemma idx_up_range x : 0 <= x < 7168 -> 0 <= idx_up x < 64.
Proof.
  intros Hx. destruct (idx_up_cases x Hx) as [[? ->]|[[? ->]|[? ->]]]; [lia| |].
  - pose proof (tab_range ((x - 1) / 8 - 4) ltac:(mlia)). lia.
  - destruct (tab_range ((x - 1) / 128 - 4) ltac:(mlia)) as [? Ht]. specialize (Ht ltac:(mlia)). lia.
Qed.

Lemma size_idx s : 32 <= s -> s mod 32 = 0 -> bin_index s = idx (s / 32 - 1) /\ s = 32 * (s / 32 - 1 + 1).
Proof. intros Hs Hm. assert (E : s = 32 * (s / 32 - 1 + 1)) by mlia. split; [|done]. unfold idx. by rewrite <- E. Qed.

Lemma bin_index_range s : 32 <= s < 2 ^ 62 -> s mod 32 = 0 -> 0 <= bin_index s < 64.
Proof. intros Hs Hm. destruct (size_idx s ltac:(lia) Hm) as [-> E]. apply idx_range. lia. Qed.

Lemma bin_index_up_range n : 32 <= n <= MMAP_THRESHOLD -> n mod 32 = 0 -> 0 <= bin_index_up n < 64.
Proof.
  unfold MMAP_THRESHOLD, SIZE_ALIGN. intros Hn Hm. destruct (size_idx n ltac:(lia) Hm) as [_ E].
  pose proof (idx_up_range (n / 32 - 1) ltac:(lia)) as H'. unfold idx_up in H'. by rewrite <- E in H'.
Qed.

(** The chunks of the bins that [malloc] looks at are large enough. *)
Lemma bin_fits n s : 32 <= n <= MMAP_THRESHOLD -> n mod 32 = 0 -> 32 <= s < 2 ^ 62 -> s mod 32 = 0 -> bin_index_up n <= bin_index s -> n <= s.
Proof.
  unfold MMAP_THRESHOLD, SIZE_ALIGN. intros Hn Hm Hs Hsm Hle. destruct (size_idx n ltac:(lia) Hm) as [_ E]. destruct (size_idx s ltac:(lia) Hsm) as [Ei Es].
  destruct (Z.le_gt_cases n s) as [|Hlt]; [done|exfalso].
  pose proof (idx_up_above (n / 32 - 1) ltac:(lia)) as H'. unfold idx_up in H'. rewrite <- E in H'. pose proof (idx_mono (s / 32 - 1) (n / 32 - 1 - 1) ltac:(lia) ltac:(lia)). lia.
Qed.

(** ** Accesses *)
Lemma wp_load p m v Q : m !! p = Some v -> Q v m -> wp (load p) m Q.
Proof. unfold wp, load. by intros ->. Qed.

Lemma wp_store p v m Q : is_Some (m !! p) -> 0 <= v < 2 ^ 64 -> Q tt (<[p := v]> m) -> wp (store p v) m Q.
Proof. unfold wp, store. intros [w ->] Hv. by rewrite u64_id. Qed.

Section stores.
Context (st : Z).
Abbreviation bin := (BIN_TO_CHUNK st).
Abbreviation base := (base st).
Abbreviation heap := (heap st).
Abbreviation rings := (rings st).
Abbreviation scalars := (scalars st).
Implicit Types (m : mem) (C : chunks) (B : Z -> list Z) (D : areas) (L : list Z).

Lemma base_ext m m' C D : (forall a, is_Some (m !! a) -> is_Some (m' !! a)) -> base m C D -> base m' C D.
Proof.
  intros Hm [HL (? & ? & ? & Hst) Ha Hsp Hcl Hap]. assert (Hw : forall lo hi, mapped_words m lo hi -> mapped_words m' lo hi) by (intros lo hi H' a ? ?; apply Hm, H'; done).
  split; [done|split_and!; auto| |auto|done|done].
  intros d x s Hd. destruct (Ha d x s Hd) as (? & ? & ? & ? & ? & ? & ? & ? & ? & ?). split_and!; auto.
Qed.

Lemma base_store m C D a v : is_Some (m !! a) -> base m C D -> base (<[a := v]> m) C D.
Proof. intros Ha. apply base_ext. intros b Hb. destruct (decide (b = a)) as [->|]; [rewrite lookup_insert_eq; by eexists|by rewrite lookup_insert_ne]. Qed.

Lemma headers_store m C a v : ~ is_header C a -> headers m C -> headers (<[a := v]> m) C.
Proof. intros Ha H c k Hc. rewrite !lookup_insert_ne; [by apply H|intros ->; apply Ha; exists c, k; auto..]. Qed.

Lemma areas_store m D a v : ~ is_area_header D a -> area_headers m D -> area_headers (<[a := v]> m) D.
Proof. intros Ha H d x s Hd. rewrite !lookup_insert_ne; [by apply H|intros ->; apply Ha; exists d, x, s; auto..]. Qed.

Lemma scalars_store m C B a v : ~ is_scalar st a -> scalars m C B -> scalars (<[a := v]> m) C B.
Proof.
  unfold is_scalar. intros Ha [H1 H2 H3 H4]. split; rewrite lookup_insert_ne by (intros ->; tauto); done.
Qed.

(** The nodes of the rings. *)
Definition is_node C z : Prop := (exists k, C !! z = Some k /\ c_size k <> 0) \/ exists i, 0 <= i < 64 /\ z = bin i.

Lemma nodes_separate m C D L : base m C D -> (forall z, z ∈ L -> is_node C z) -> separate L.
Proof.
  intros Hb HL u w Hu%HL Hw%HL E. pose proof (bs_layout _ _ _ _ Hb) as Hly. destruct Hu as [(k & Hu & H0)|(i & Hi & ->)], Hw as [(k' & Hw & H0')|(j & Hj & ->)].
  - pose proof (ly_arith _ Hly _ _ Hu) as (? & _). pose proof (ly_arith _ Hly _ _ Hw) as (? & _). mlia.
  - pose proof (clear_static _ _ _ _ Hb u k Hu). pose proof (extent_16 _ _ _ _ Hb u k Hu). unfold BIN_TO_CHUNK in E. lia.
  - pose proof (clear_static _ _ _ _ Hb w k' Hw). pose proof (extent_16 _ _ _ _ Hb w k' Hw). unfold BIN_TO_CHUNK in E. lia.
  - unfold BIN_TO_CHUNK in E. lia.
Qed.

Lemma bin_not_chunk m C D i k : base m C D -> 0 <= i < 64 -> C !! bin i = Some k -> False.
Proof. intros Hb Hi Hk. pose proof (clear_static _ _ _ _ Hb _ _ Hk). pose proof (extent_16 _ _ _ _ Hb _ _ Hk). unfold BIN_TO_CHUNK in *. lia. Qed.

Lemma bin_inj i j : bin i = bin j -> i = j.
Proof. unfold BIN_TO_CHUNK. lia. Qed.

Section rings.
Context (m0 : mem) (C : chunks) (B : Z -> list Z) (D : areas) (Hb : base m0 C D) (Hbn : binned C B).

Lemma ring_nodes i z : 0 <= i < 64 -> z ∈ bin i :: B i -> is_node C z.
Proof.
  intros Hi [->|Hz]%elem_of_cons; [right; by exists i|left]. destruct (bn_bin _ _ Hbn i z Hi Hz) as (k & Hk & Hu & _).
  exists k. split; [done|]. by eapply free_size.
Qed.

Lemma bin_not_in i j : 0 <= i < 64 -> 0 <= j < 64 -> bin i ∉ B j.
Proof. intros Hi Hj Hin. destruct (bn_bin _ _ Hbn j _ Hj Hin) as (k & Hk & _). by apply (bin_not_chunk m0 C D i k). Qed.

Lemma bins_disjoint i j z : 0 <= i < 64 -> 0 <= j < 64 -> z ∈ B i -> z ∈ B j -> i = j.
Proof.
  intros Hi Hj (k & Hk & _ & <-)%(bn_bin _ _ Hbn); [|done]. intros (k' & Hk' & _ & <-)%(bn_bin _ _ Hbn); [|done]. congruence.
Qed.

(** A link of a node of another ring, or of no ring, is written. *)
Lemma ring_other m j z v : 0 <= j < 64 -> is_node C z -> z ∉ bin j :: B j -> links m (bin j) (B j) (bin j) ->
  links (<[z + 16 := v]> m) (bin j) (B j) (bin j) /\ links (<[z + 24 := v]> m) (bin j) (B j) (bin j).
Proof.
  intros Hj Hz Hnot HL. assert (Hs : separate (z :: bin j :: B j)).
  { apply (nodes_separate m0 C D _ Hb). intros w [->|Hw]%elem_of_cons; [done|by apply (ring_nodes j)]. }
  assert (Hend : forall w, w ∈ B j ++ [bin j] -> w ∈ bin j :: B j).
  { intros w. rewrite elem_of_app, list_elem_of_singleton, elem_of_cons. tauto. }
  split; apply links_frame; try done.
  - intros w Hw E. apply Hnot. by replace z with w by lia.
  - intros w Hw%Hend E. apply (Hs z w); [by left|by right|done].
  - intros w Hw E. apply (Hs w z); [by right|by left|lia].
  - intros w Hw%Hend E. apply Hnot. by replace z with w by lia.
Qed.

Lemma ring_links i z : 0 <= i < 64 -> z ∈ bin i :: B i -> is_free_link st C (z + 16) /\ is_free_link st C (z + 24).
Proof.
  intros Hi [->|Hz]%elem_of_cons; [split; right; exists i; auto|].
  destruct (bn_bin _ _ Hbn i z Hi Hz) as (k & Hk & Hu & _). split; left; exists z, k; auto.
Qed.

Lemma ring_store m i a v : 0 <= i < 64 -> ~ is_free_link st C a -> links m (bin i) (B i) (bin i) -> links (<[a := v]> m) (bin i) (B i) (bin i).
Proof.
  intros Hi Ha. apply links_frame; intros z Hz E; apply Ha; rewrite E; apply (ring_links i z); try done.
  rewrite elem_of_app, list_elem_of_singleton in Hz. rewrite elem_of_cons. tauto.
Qed.

Lemma rings_store m a v : ~ is_free_link st C a -> rings m B -> rings (<[a := v]> m) B.
Proof.
  intros Ha HR i Hi. destruct (HR i Hi) as [HL|[E H0]]; [left; by apply ring_store|right].
  split; [done|]. rewrite lookup_insert_ne; [done|]. intros ->. apply Ha, (ring_links i); [done|by left].
Qed.
End rings.

(** *** What the user sees does not change *)
Record state := State { s_mem : mem; s_chunks : chunks; s_areas : areas; s_held : list Z }.

(** The blocks in use that are not held. *)
Definition cblock (C : chunks) (H : list Z) (c n : Z) : Prop := c ∉ H /\ n <> 0 /\ exists k, C !! c = Some k /\ c_inuse k = true /\ c_size k = n.

Definition block (C : chunks) (D : areas) (H : list Z) (c n : Z) : Prop := cblock C H c n \/ (c ∉ H /\ exists x, D !! c = Some (x, n)).

Record frame (s s' : state) : Prop := {
  fr_user a : is_user st (s_chunks s) (s_areas s) (s_held s) a -> is_Some (s_mem s !! a) ->
    is_user st (s_chunks s') (s_areas s') (s_held s') a /\ s_mem s' !! a = s_mem s !! a;
  fr_block c n : block (s_chunks s) (s_areas s) (s_held s) c n <-> block (s_chunks s') (s_areas s') (s_held s') c n }.

Lemma frame_id s : frame s s.
Proof. by split. Qed.

Lemma frame_comp s1 s2 s3 : frame s1 s2 -> frame s2 s3 -> frame s1 s3.
Proof.
  intros [H1 B1] [H2 B2]. split; [|intros c n; by rewrite B1]. intros a Ha Hm. destruct (H1 a Ha Hm) as [Ha2 E].
  destruct (H2 a Ha2) as [Ha3 E']; [by rewrite E|]. by rewrite E', E.
Qed.

(** A store to a word of the allocator. *)
Lemma frame_store m C D H s a v : ~ is_user st C D H a -> frame s (State m C D H) -> frame s (State (<[a := v]> m) C D H).
Proof.
  intros Ha [Hf Hbl]. split; [|done]. intros b Hb Hm. destruct (Hf b Hb Hm) as [Hb' E]. cbn in *. split; [done|]. rewrite lookup_insert_ne; [done|]. by intros ->.
Qed.

Lemma frame_ext m m' C D H s : (forall a, is_user st C D H a -> m' !! a = m !! a) -> frame s (State m C D H) -> frame s (State m' C D H).
Proof.
  intros He [Hf Hbl]. split; [|done]. intros b Hb Hm. destruct (Hf b Hb Hm) as [Hb' E]. cbn in *. split; [done|]. by rewrite He.
Qed.

(** Of what is held only what is there counts. *)
Lemma frame_tidy m C D H H' s : (forall x, x ∈ H <-> x ∈ H' \/ (x ∈ H /\ C !! x = None /\ D !! x = None)) ->
  frame s (State m C D H) -> frame s (State m C D H').
Proof.
  intros HH Hf. apply (frame_comp s _ _ Hf).
  assert (E : forall x, is_Some (C !! x) \/ is_Some (D !! x) -> x ∉ H <-> x ∉ H').
  { intros x Hx. rewrite (HH x). assert (~ (C !! x = None /\ D !! x = None)); [|tauto]. intros [E1 E2]. rewrite E1, E2 in Hx. by destruct Hx as [[]|[]]. }
  split; cbn.
  - intros a Ha _. split; [|done]. destruct Ha as [(c & k & Hc & Hu & Hn & Ha)|[(d & x & l & Hd & Hn & Ha)|Ho]]; [left|right; left|by do 2 right].
    + exists c, k. split_and!; try done; try lia. apply E; [left; by eexists|done].
    + exists d, x, l. split_and!; try done; try lia. apply E; [right; by eexists|done].
  - intros c n. unfold block, cblock. split; (intros [(Hn & H0 & k & Hk & Hu)|(Hn & x & Hx)]; [left; split; [|split; [done|by exists k]]|right; split; [|by exists x]]);
      (apply E; [|done]); auto.
Qed.

(** The words that matter to the allocator. *)
Definition is_own C D a : Prop := is_header C a \/ is_free_link st C a \/ is_scalar st a \/ is_area_header D a.

Lemma own_not_user m C D H a : base m C D -> is_own C D a -> ~ is_user st C D H a.
Proof.
  intros Hb Ho Hu. destruct Ho as [Ho|[Ho|[Ho|Ho]]].
  - by apply (user_not_header st m C D Hb H a).
  - by apply (user_not_link st m C D Hb H a).
  - by apply (user_not_scalar st m C D Hb H a).
  - by apply (user_not_area st m C D Hb H a).
Qed.

Lemma scalars_change m C C' B : (forall x p, C !! x = Some (Chunk p 0 true) -> exists p', C' !! x = Some (Chunk p' 0 true)) ->
  scalars m C B -> scalars m C' B.
Proof.
  intros Hx [S1 (e & He & Hend) S3 S4]. split; [done| |done|done]. exists e. split; [done|].
  destruct Hend as [|(p & Hp)]; [by left|right]. by apply Hx in Hp.
Qed.

(** The free chunks are the same. *)
Definition same_free C C' : Prop := forall c s,
  (exists k, C !! c = Some k /\ c_inuse k = false /\ c_size k = s) <-> (exists k, C' !! c = Some k /\ c_inuse k = false /\ c_size k = s).

Definition keeps_sentinels C C' : Prop := forall x p, C !! x = Some (Chunk p 0 true) -> exists p', C' !! x = Some (Chunk p' 0 true).

Lemma same_free_binned C C' B : same_free C C' -> binned C B -> binned C' B.
Proof.
  intros Hs [H1 H2 H3]. split; [| |done].
  - intros c k Hc Hu. destruct (proj2 (Hs c (c_size k))) as (k0 & Hc0 & Hu0 & <-); [by exists k|]. by apply H1.
  - intros i c Hi Hin. destruct (H2 i c Hi Hin) as (k & Hc & Hu & <-). destruct (proj1 (Hs c (c_size k))) as (k0 & Hc0 & Hu0 & E); [by exists k|].
    exists k0. by rewrite E.
Qed.

(** What the heap depends on: the headers, the links of the free chunks, the
    static objects and the headers of the mapped blocks. *)
Lemma heap_change m m' C C' B D D' : heap m C B D -> base m' C' D' -> headers m' C' -> area_headers m' D' -> same_free C C' -> keeps_sentinels C C' ->
  (forall a, is_free_link st C a \/ is_scalar st a -> m' !! a = m !! a) -> heap m' C' B D'.
Proof.
  intros [Hb Hh Ha Hr Hbn Hsc] Hb' Hh' Ha' Hsf Hse He. split; [done|done|done| |by eapply same_free_binned|].
  - intros i Hi. destruct (Hr i Hi) as [HL|[E H0]].
    + left. apply (links_ext m); [| |done]; intros z Hz; apply He; left; apply (ring_links C B Hbn i); try done.
      rewrite elem_of_app, list_elem_of_singleton in Hz. rewrite elem_of_cons. tauto.
    + right. split; [done|]. rewrite He; [done|]. left. apply (ring_links C B Hbn i); [done|by left].
  - apply (scalars_change _ C); [done|]. destruct Hsc as [S1 S2 S3 S4]. split; rewrite He; try done; unfold is_scalar; tauto.
Qed.

Lemma heap_words_ext m m' C B D : (forall a, is_Some (m !! a) -> is_Some (m' !! a)) -> (forall a, is_own C D a -> m' !! a = m !! a) ->
  heap m C B D -> heap m' C B D.
Proof.
  intros Hm He Hh. apply (heap_change m m' C C B D D); [done|apply (base_ext m); [done|apply Hh]| | |done|by eexists|].
  - intros c k Hc. rewrite !He; [by apply (hp_headers _ _ _ _ _ Hh)|left; exists c, k; auto..].
  - intros d x s Hd. rewrite !He; [by apply (hp_areas _ _ _ _ _ Hh)|do 3 right; exists d, x, s; auto..].
  - intros a [Ha|Ha]; apply He; right; [by left|right; by left].
Qed.

(** *** Changes of the chunks *)
Lemma chunk_not_area m C D c k : base m C D -> C !! c = Some k -> D !! c = None.
Proof.
  intros Hb Hc. destruct (D !! c) as [[x s]|] eqn:Hd; [|done]. pose proof (clear_area _ _ _ _ Hb c k c x s Hc Hd).
  pose proof (extent_16 _ _ _ _ Hb c k Hc). pose proof (bs_areas _ _ _ _ Hb c x s Hd). lia.
Qed.

(** The new chunks lie inside the old ones. *)
Definition inside C C' : Prop := forall c' k', C' !! c' = Some k' -> exists c k, C !! c = Some k /\ c <= c' /\ c' + extent k' <= c + extent k.

Lemma base_inside m C C' D : base m C D -> layout C' -> inside C C' -> base m C' D.
Proof.
  intros [_ Hst Ha Hsp Hcl Hap] Hly' Hin. split; [done|done|done| |intros x y lo hi Hy|done].
  - intros x y (c & k & Hc & H1 & H2)%Hin a Hax. apply (Hsp c k Hc). lia.
  - destruct (Hin x y Hy) as (c & k & Hc & H1 & H2). intros Hf. destruct (Hcl c k lo hi Hc Hf); lia.
Qed.

(** The chunks change, the blocks in use that are not held stay. *)
Lemma frame_rechunk m C C' D H H' : (forall a, in_chunks C' a -> in_chunks C a) -> (forall c n, cblock C H c n <-> cblock C' H' c n) ->
  (forall d, is_Some (D !! d) -> d ∈ H <-> d ∈ H') -> frame (State m C D H) (State m C' D H').
Proof.
  intros Hin Hk Hd. split; cbn.
  - intros a Ha _. split; [|done]. destruct Ha as [(c & k & Hc & Hu & HH & Ha)|[(d & x & s & Hx & HH & Ha)|(Ho1 & Ho2 & Ho3)]].
    + left. destruct (proj1 (Hk c (c_size k))) as (HH' & _ & k' & Hk' & Hu' & E); [split; [done|]; split; [lia|by exists k]|].
      exists c, k'. by rewrite E.
    + right. left. exists d, x, s. split; [done|]. split; [|done]. rewrite <- Hd; [done|by eexists].
    + do 2 right. split; [done|]. split; [|done]. by intros ?%Hin.
  - intros c n. unfold block. rewrite Hk. assert (E : forall x, D !! c = Some (x, n) -> c ∉ H <-> c ∉ H') by (intros x Hx; rewrite (Hd c); [done|by eexists]).
    split; (intros [|(HH & x & Hx)]; [by left|right]); (split; [by apply (E x)|by exists x]).
Qed.

Lemma inside_in_chunks C C' a : inside C C' -> in_chunks C' a -> in_chunks C a.
Proof. intros Hin (c & k & (c0 & k0 & Hc0 & H1 & H2)%Hin & Ha). exists c0, k0. split; [done|lia]. Qed.

Section mark.
Context (m : mem) (C : chunks) (D : areas) (Hb : base m C D) (c : Z) (k kn : chunk).
Context (Hc : C !! c = Some k) (Hs : c_size k <> 0) (Hn : C !! (c + c_size k) = Some kn).
Let Hly : layout C := bs_layout _ _ _ _ Hb.

Lemma mark_inside u : inside C (mark u c k kn C).
Proof.
  intros x y Hy. destruct (mark_size C c k kn Hly Hc Hs Hn u x y Hy) as (y0 & H0 & E). exists x, y0. split; [done|]. unfold extent. rewrite E. lia.
Qed.

Lemma mark_headers m' u : headers m' C -> headers (<[c + c_size k := c_size k + b2z u]> (<[c + 8 := c_size k + b2z u]> m')) (mark u c k kn C).
Proof.
  intros Hh x y Hy. pose proof (chunk_arith C c k Hly Hc Hs) as (Ha1 & Ha2 & Ha3 & _).
  apply (lookup_mark C c k kn Hly Hc Hs Hn) in Hy as [[-> ->]|[[-> ->]|(Hx1 & Hx2 & Hy)]]; unfold c_word; cbn.
  - destruct (Hh c k Hc) as [E _]. rewrite !(lookup_insert_ne _ _ c) by lia. split; [done|]. by rewrite lookup_insert_ne, lookup_insert_eq by lia.
  - destruct (Hh _ _ Hn) as [_ E]. rewrite lookup_insert_eq. split; [done|]. by rewrite !lookup_insert_ne by lia.
  - destruct (Hh x y Hy) as [E1 E2]. pose proof (ly_arith _ Hly _ _ Hy) as (? & _).
    rewrite (lookup_insert_ne _ _ x), (lookup_insert_ne _ _ x), (lookup_insert_ne _ _ (x + 8)), (lookup_insert_ne _ _ (x + 8)) by (lia || mlia). done.
Qed.

Lemma mark_lookup u x y : C !! x = Some y -> x <> c -> exists y', mark u c k kn C !! x = Some y' /\ c_inuse y' = c_inuse y /\ c_size y' = c_size y.
Proof.
  intros Hx Hne. destruct (decide (x = c + c_size k)) as [->|].
  - assert (y = kn) as -> by congruence. eexists. split; [apply (lookup_mark C c k kn Hly Hc Hs Hn); right; by left|done].
  - exists y. split; [|done]. apply (lookup_mark C c k kn Hly Hc Hs Hn). by do 2 right.
Qed.

Lemma mark_sentinel u x p : C !! x = Some (Chunk p 0 true) -> exists p', mark u c k kn C !! x = Some (Chunk p' 0 true).
Proof.
  intros Hx. assert (Hne : x <> c) by (intros ->; apply Hs; by assert (k = Chunk p 0 true) as -> by congruence).
  destruct (mark_lookup u x _ Hx Hne) as ([p' s' u'] & Hy & E1 & E2). cbn in *. exists p'. by rewrite Hy, E1, E2.
Qed.

(** A chunk that is taken from its bin is held. *)
Lemma take_frame m' H : c_inuse k = false -> frame (State m' C D H) (State m' (mark true c k kn C) D (c :: H)).
Proof.
  intros Hu. apply frame_rechunk; [intros a; apply inside_in_chunks, mark_inside| |].
  - intros x n. split.
    + intros (HH & H0 & y & Hx & Hxu & E). assert (Hne : x <> c) by (intros ->; congruence). split; [by apply not_elem_of_cons|].
      split; [done|]. destruct (mark_lookup true x y Hx Hne) as (y' & Hy' & E1 & E2). exists y'. split; [done|]. by rewrite E1, E2.
    + intros ([Hne HH]%not_elem_of_cons & H0 & y & Hx & Hxu & E). split; [done|]. split; [done|].
      apply (lookup_mark C c k kn Hly Hc Hs Hn) in Hx as [[-> ->]|[[-> ->]|(Hx1 & Hx2 & Hy)]]; [done|by exists kn|by exists y].
  - intros d Hd. rewrite elem_of_cons. split; [by right|]. intros [->|]; [|done]. rewrite (chunk_not_area _ _ _ _ _ Hb Hc) in Hd. by destruct Hd.
Qed.

(** One that was held goes into a bin. *)
Lemma put_frame m' H : frame (State m' C D (c :: H)) (State m' (mark false c k kn C) D H).
Proof.
  apply frame_rechunk; [intros a; apply inside_in_chunks, mark_inside| |].
  - intros x n. split.
    + intros ([Hne HH]%not_elem_of_cons & H0 & y & Hx & Hxu & E). split; [done|].
      split; [done|]. destruct (mark_lookup false x y Hx Hne) as (y' & Hy' & E1 & E2). exists y'. split; [done|]. by rewrite E1, E2.
    + intros (HH & H0 & y & Hx & Hxu & E).
      apply (lookup_mark C c k kn Hly Hc Hs Hn) in Hx as [[-> ->]|[[-> ->]|(Hx1 & Hx2 & Hy)]]; [done| |].
      * split; [apply not_elem_of_cons; split; [lia|done]|]. split; [done|]. by exists kn.
      * split; [by apply not_elem_of_cons|]. split; [done|]. by exists y.
  - intros d Hd. rewrite elem_of_cons. split; [|by right]. intros [->|]; [|done]. rewrite (chunk_not_area _ _ _ _ _ Hb Hc) in Hd. by destruct Hd.
Qed.
End mark.
End stores.
