(* ===== verification/MallocBins.v ===== *)
(** The bins of the allocator: [lock_bin], [unbin], [alloc_fwd], [alloc_rev] and
    [pretrim] of Malloc.v. *)
From S2P Require Import Prelude Mem Links Malloc MallocChunks MallocInv.

(** ** Bins: [lock_bin], [unbin], [alloc_fwd], [alloc_rev] *)
Definition upd (B : Z -> list Z) (i : Z) (L : list Z) : Z -> list Z := fun j => if decide (j = i) then L else B j.

Lemma upd_same B i L : upd B i L i = L.
Proof. unfold upd. by rewrite decide_True. Qed.

Lemma upd_other B i L j : j <> i -> upd B i L j = B j.
Proof. unfold upd. intros. by rewrite decide_False. Qed.

Section bins.
Context {F : Fuel} (st : Z).
Abbreviation bin := (BIN_TO_CHUNK st).
Abbreviation base := (base st).
Abbreviation heap := (heap st).
Abbreviation rings := (rings st).
Abbreviation scalars := (scalars st).
Implicit Types (m : mem) (C : chunks) (B : Z -> list Z) (D : areas) (L : list Z).

Lemma static_word m C D a : base m C D -> st <= a < st + 1576 -> a mod 8 = 0 -> is_Some (m !! a).
Proof. intros Hb Ha Hm. by apply (bs_static _ _ _ _ Hb). Qed.

Lemma bin_word m C D i o : base m C D -> 0 <= i < 64 -> o = 16 \/ o = 24 -> is_Some (m !! (bin i + o)) /\ 0 <= bin i < 2 ^ 64.
Proof.
  intros Hb Hi Ho. pose proof (bs_static _ _ _ _ Hb) as (Hm & ? & ? & _). unfold BIN_TO_CHUNK. split; [|lia].
  apply (static_word _ _ _ _ Hb); [lia|]. destruct Ho as [-> | ->]; mlia.
Qed.

Lemma bin_links_free C i o : 0 <= i < 64 -> o = 16 \/ o = 24 -> is_free_link st C (bin i + o).
Proof. intros Hi Ho. right. exists i. split; [done|]. lia. Qed.

Lemma free_link_kinds m C D a : base m C D -> is_free_link st C a ->
  ~ is_header C a /\ ~ is_area_header D a /\ ~ is_scalar st a /\ is_own st C D a.
Proof.
  intros Hb Ha. pose proof (free_link_link _ _ _ _ Hb _ Ha) as Hl. split_and!.
  - intros Hh. by apply (header_not_link _ _ _ _ Hb a).
  - by apply (link_not_area _ _ _ _ Hb).
  - by apply (link_not_scalar _ _ _ _ Hb).
  - right. by left.
Qed.

Lemma wp_lock_bin m C B D i Q : heap m C B D -> 0 <= i < 64 ->
  (forall m', heap m' C B D -> links m' (bin i) (B i) (bin i) -> (forall H, frame st (State m C D H) (State m' C D H)) -> Q tt m') -> wp (lock_bin st i) m Q.
Proof.
  intros Hh Hi HQ. pose proof (hp_base _ _ _ _ _ Hh) as Hb. pose proof (hp_binned _ _ _ _ _ Hh) as Hbn. unfold lock_bin, next, prev.
  destruct (bin_word m C D i 24 Hb Hi ltac:(auto)) as [Hw24 Hbin]. destruct (bin_word m C D i 16 Hb Hi ltac:(auto)) as [Hw16 _].
  pose proof (hp_rings _ _ _ _ _ Hh i Hi) as HR.
  assert (Hnz : 0 < bin i) by (pose proof (bs_static _ _ _ _ Hb); unfold BIN_TO_CHUNK; lia).
  destruct HR as [HL|[E H0]].
  - pose proof (links_first _ _ _ _ HL) as Hf. apply wp_bind, (wp_load _ _ (hd (bin i) (B i))); [done|].
    rewrite (proj2 (Z.eqb_neq _ 0)); [by apply wp_ret, HQ|]. destruct (B i) as [|z L] eqn:E; cbn [hd]; [lia|].
    destruct (bn_bin _ _ Hbn i z Hi) as (k & Hk & _); [rewrite E; by left|]. pose proof (ly_arith _ (bs_layout _ _ _ _ Hb) _ _ Hk). lia.
  - apply wp_bind, (wp_load _ _ 0); [done|]. cbn [Z.eqb]. apply wp_bind, wp_store; [done|done|].
    apply wp_store; [rewrite lookup_insert_ne by lia; done|done|].
    pose proof (free_link_kinds m C D _ Hb (bin_links_free C i 24 Hi ltac:(auto))) as (N1 & N2 & N3 & N4).
    pose proof (free_link_kinds m C D _ Hb (bin_links_free C i 16 Hi ltac:(auto))) as (O1 & O2 & O3 & O4).
    assert (HL : links (<[bin i + 16 := bin i]> (<[bin i + 24 := bin i]> m)) (bin i) (B i) (bin i)).
    { rewrite E. cbn. rewrite lookup_insert_eq, lookup_insert_ne, lookup_insert_eq by lia. done. }
    apply HQ; [|done|intros H; do 2 (apply frame_store; [by apply (own_not_user st m)|]); apply frame_id].
    split; [| | | |done|].
    + apply base_store; [by rewrite lookup_insert_ne by lia|]. by apply base_store.
    + do 2 (apply headers_store; [done|]). apply (hp_headers _ _ _ _ _ Hh).
    + do 2 (apply areas_store; [done|]). apply (hp_areas _ _ _ _ _ Hh).
    + intros j Hj. destruct (decide (j = i)) as [->|Hne]; [by left|].
      assert (Hnode : is_node st C (bin i)) by (right; by exists i).
      assert (Hnot : bin i ∉ bin j :: B j).
      { intros [Eb|Hin]%elem_of_cons; [apply bin_inj in Eb; lia|]. by apply (bin_not_in st m C B D Hb Hbn i j). }
      destruct (hp_rings _ _ _ _ _ Hh j Hj) as [HL'|[E' H0']]; [left|right].
      * apply (ring_other st m C B D Hb Hbn _ j (bin i)); [done|done|done|]. by apply (ring_other st m C B D Hb Hbn _ j (bin i)).
      * split; [done|]. rewrite !lookup_insert_ne; [done|unfold BIN_TO_CHUNK; lia..].
    + do 2 (apply scalars_store; [done|]). apply (hp_scalars _ _ _ _ _ Hh).
Qed.

(** *** Taking a chunk out of its bin *)
Section unbin.
Context (m : mem) (C : chunks) (B : Z -> list Z) (D : areas) (Hh : heap m C B D).
Context (c : Z) (k kn : chunk) (i : Z) (L1 L2 : list Z).
Context (Hc : C !! c = Some k) (Hu : c_inuse k = false) (Hi : i = bin_index (c_size k)) (Hn : C !! (c + c_size k) = Some kn).
Context (HB : B i = L1 ++ c :: L2) (HL : links m (bin i) (B i) (bin i)).

Let Hb : base m C D := hp_base _ _ _ _ _ Hh.
Let Hly : layout C := bs_layout _ _ _ _ Hb.
Let Hbn : binned C B := hp_binned _ _ _ _ _ Hh.

Lemma unbin_size : c_size k <> 0.
Proof. by apply (free_size st m C D Hb c). Qed.

Lemma unbin_i : 0 <= i < 64.
Proof.
  rewrite Hi. pose proof (ly_arith _ Hly _ _ Hc) as (? & ? & ? & ? & ? & _). pose proof unbin_size. rewrite extent_size in * by done.
  apply bin_index_range; [mlia|done].
Qed.

Lemma unbin_nodup : base.NoDup (L1 ++ L2) /\ c ∉ L1 ++ L2.
Proof.
  pose proof (bn_nodup _ _ Hbn i) as Hnd. rewrite HB in Hnd. rewrite <- Permutation_middle in Hnd. by apply list.NoDup_cons in Hnd as [? ?].
Qed.

Lemma unbin_in z : z ∈ L1 ++ L2 -> z ∈ B i.
Proof. rewrite HB, !elem_of_app, elem_of_cons. tauto. Qed.

Lemma unbin_links : links m (bin i) L1 c /\ links m c L2 (bin i).
Proof. rewrite HB in HL. by apply links_app in HL. Qed.

Lemma mark_binned : binned (mark true c k kn C) (upd B i (L1 ++ L2)).
Proof.
  pose proof unbin_size as Hs. pose proof unbin_i as Hi64. pose proof unbin_nodup as [Hnd Hcn]. split.
  - intros x y Hy Hyu. apply (lookup_mark C c k kn Hly Hc Hs Hn) in Hy as [[-> ->]|[[-> ->]|(Hx1 & Hx2 & Hy)]]; cbn in *; [done| |].
    + pose proof (bn_free _ _ Hbn _ _ Hn Hyu) as Hin. unfold upd. case_decide as E; [|done]. rewrite E, HB in Hin.
      rewrite elem_of_app, elem_of_cons in Hin. rewrite elem_of_app. destruct Hin as [|[|]]; [by left|lia|by right].
    + pose proof (bn_free _ _ Hbn _ _ Hy Hyu) as Hin. unfold upd. case_decide as E; [|done]. rewrite E, HB in Hin.
      rewrite elem_of_app, elem_of_cons in Hin. rewrite elem_of_app. destruct Hin as [|[|]]; [by left|done|by right].
  - intros j x Hj Hx. assert (Hin : x ∈ B j /\ x <> c).
    { unfold upd in Hx. case_decide as E; [subst j; split; [by apply unbin_in|by intros ->]|]. split; [done|]. intros ->.
      apply E. apply (bins_disjoint C B Hbn j i c); [done|done|done|]. rewrite HB, elem_of_app. right. by left. }
    destruct Hin as [Hin Hne]. destruct (bn_bin _ _ Hbn j x Hj Hin) as (y & Hy & Hyu & Hyj).
    destruct (decide (x = c + c_size k)) as [->|].
    + assert (y = kn) as -> by congruence. eexists. split; [apply (lookup_mark C c k kn Hly Hc Hs Hn); right; by left|]. done.
    + exists y. split; [|done]. apply (lookup_mark C c k kn Hly Hc Hs Hn). by do 2 right.
  - intros j. unfold upd. case_decide; [done|apply (bn_nodup _ _ Hbn)].
Qed.

Let p : Z := before_end (bin i) L1.
Let n : Z := hd (bin i) L2.

Lemma unbin_neighbours : p ∈ bin i :: L1 ++ L2 /\ n ∈ bin i :: L1 ++ L2 /\ m !! (c + 24) = Some p /\ m !! (c + 16) = Some n.
Proof.
  pose proof unbin_links as [HL1 HL2]. split_and!.
  - pose proof (before_end_in (bin i) L1) as H. fold p in H. rewrite elem_of_cons, elem_of_app in *. tauto.
  - unfold n. destruct L2; cbn [hd]; [by left|]. rewrite elem_of_cons, elem_of_app, elem_of_cons. tauto.
  - by apply links_last in HL1.
  - by apply links_first in HL2.
Qed.

(** The nodes that stay in the ring, and [c]. *)
Lemma unbin_node z : z ∈ c :: bin i :: L1 ++ L2 -> is_free_link st C (z + 16) /\ is_free_link st C (z + 24) /\ is_node st C z /\
  0 <= z < 2 ^ 64 /\ is_Some (m !! (z + 16)) /\ is_Some (m !! (z + 24)).
Proof.
  pose proof unbin_i as Hi64. intros Hz. assert (Hcase : (exists y, C !! z = Some y /\ c_inuse y = false) \/ z = bin i).
  { apply elem_of_cons in Hz as [->|[->|Hz]%elem_of_cons]; [left; by exists k|by right|left].
    destruct (bn_bin _ _ Hbn i z Hi64 (unbin_in z Hz)) as (y & Hy & Hyu & _). by exists y. }
  destruct Hcase as [(y & Hy & Hyu)| ->].
  - pose proof (ly_arith _ Hly _ _ Hy) as (? & ? & ? & ? & ? & _). pose proof (free_size _ _ _ _ Hb z y Hy Hyu) as Hz0. pose proof (extent_16 _ _ _ _ Hb z y Hy).
    split_and!; [left; exists z, y; auto|left; exists z, y; auto|left; exists y; auto|lia|lia|apply (bs_space _ _ _ _ Hb z y Hy); [lia|mlia]..].
  - destruct (bin_word m C D i 16 Hb Hi64 ltac:(auto)) as [Hw Hr]. destruct (bin_word m C D i 24 Hb Hi64 ltac:(auto)) as [Hw' _].
    split_and!; try done; try lia; [by apply bin_links_free; auto|by apply bin_links_free; auto|right; by exists i].
Qed.

(** [p] and [n] are the same just if the ring becomes empty. *)
Lemma unbin_empty : p = n <-> L1 ++ L2 = [].
Proof.
  pose proof unbin_nodup as [Hnd Hcn]. assert (Hbi : bin i ∉ L1 ++ L2) by (intros H%unbin_in; by apply (bin_not_in st m C B D Hb Hbn i i unbin_i unbin_i)).
  rewrite elem_of_app in Hbi. unfold p, n. split.
  - intros E. apply list.NoDup_app in Hnd as (_ & Hd & _). pose proof (before_end_in (bin i) L1) as Hp. rewrite E in Hp.
    destruct L2 as [|z L]; cbn [hd] in *.
    + destruct L1 as [|w L']; [done|]. exfalso. cbn in E. pose proof (before_end_in w L') as H. rewrite E in H. tauto.
    + exfalso. apply elem_of_cons in Hp as [->|Hp]; [apply Hbi; right; by left|]. apply (Hd z Hp). by left.
  - intros [-> ->]%app_eq_nil. done.
Qed.

(** The heap with the word [binmap] of the ring's new content. *)
Lemma unbin_binmap b : (forall j, 0 <= j < 64 -> Z.testbit b j = negb (bool_decide (B j = []))) -> 0 <= b < 2 ^ 64 ->
  exists b', b' = (if p =? n then b & Z.lnot (1 << i) else b) /\ 0 <= b' < 2 ^ 64 /\
    forall j, 0 <= j < 64 -> Z.testbit b' j = negb (bool_decide (upd B i (L1 ++ L2) j = [])).
Proof.
  intros Hbits Hbr. pose proof unbin_i as Hi64. eexists. split; [reflexivity|]. destruct (Z.eqb_spec p n) as [E|E].
  - split.
    + rewrite <- Z.ldiff_land. by apply ldiff_range.
    + intros j Hj. rewrite Z.land_spec, Z.lnot_spec, Z.shiftl_spec by lia. destruct (decide (j = i)) as [->|Hne].
      * rewrite Z.sub_diag, upd_same. apply unbin_empty in E. rewrite E. cbn. by rewrite andb_false_r.
      * rewrite upd_other by done. rewrite Hbits by done.
        destruct (Z.lt_ge_cases j i); [rewrite Z.testbit_neg_r by lia; apply andb_true_r|].
        change 1 with (2 ^ 0). rewrite Z.pow2_bits_false by lia. apply andb_true_r.
  - split; [done|]. intros j Hj. destruct (decide (j = i)) as [->|Hne]; [|by rewrite upd_other, Hbits].
    rewrite upd_same, Hbits by done. rewrite !bool_decide_eq_false_2; [done| |]; [intros E'; by apply E, unbin_empty|].
    rewrite HB. intros E'. by apply app_eq_nil in E' as [_ ?].
Qed.

Let C' : chunks := mark true c k kn C.
Let B' : Z -> list Z := upd B i (L1 ++ L2).

Lemma mark_base : base m C' D.
Proof.
  pose proof unbin_size as Hs. apply (base_inside st m C); [done| |by apply (mark_inside st m C D Hb)].
  apply (mark_layout C c k kn Hly Hc Hs Hn). done.
Qed.

(** The memory after [unbin]. *)
Definition unbin_mem b : mem :=
  <[c + c_size k := c_size k + 1]> (<[c + 8 := c_size k + 1]> (<[n + 24 := p]> (<[p + 16 := n]> (<[st := b]> m)))).

Lemma own_scalar a : is_scalar st a -> ~ is_header C a /\ ~ is_area_header D a /\ ~ is_free_link st C a /\ is_own st C D a.
Proof.
  intros Ha. split_and!.
  - intros Hx. by apply (header_not_scalar _ _ _ _ Hb a).
  - by apply (scalar_not_area _ _ _ _ Hb).
  - intros Hx%(free_link_link _ _ _ _ Hb). by apply (link_not_scalar _ _ _ _ Hb a).
  - right. right. by left.
Qed.

Lemma own_header a : is_header C a -> ~ is_scalar st a /\ ~ is_area_header D a /\ ~ is_free_link st C a /\ is_own st C D a.
Proof.
  intros Ha. split_and!.
  - by apply (header_not_scalar _ _ _ _ Hb).
  - by apply (header_not_area _ _ _ _ Hb).
  - intros Hx%(free_link_link _ _ _ _ Hb). by apply (header_not_link _ _ _ _ Hb a).
  - by left.
Qed.

Lemma unbin_headers b : headers (unbin_mem b) C'.
Proof.
  pose proof unbin_size as Hs. pose proof unbin_neighbours as (Hpin & Hnin & _).
  destruct (unbin_node p ltac:(by right)) as (Kp & _). destruct (unbin_node n ltac:(by right)) as (_ & Kn & _).
  apply (free_link_kinds m C D) in Kp as (Kp & _), Kn as (Kn & _); [|done..].
  destruct (own_scalar st ltac:(by left)) as (Ks & _). apply (mark_headers st m C D Hb c k kn Hc Hs Hn _ true).
  do 3 (apply headers_store; [done|]). apply (hp_headers _ _ _ _ _ Hh).
Qed.

Lemma unbin_rings b : rings (unbin_mem b) B'.
Proof.
  pose proof unbin_size as Hs. pose proof unbin_i as Hi64. pose proof unbin_nodup as [Hnd Hcn]. pose proof unbin_neighbours as (Hpin & Hnin & _).
  pose proof mark_base as Hb'. pose proof (chunk_arith C c k Hly Hc Hs) as (Ha1 & Ha2 & Ha3 & Ha4 & Ha5).
  assert (Hsub : forall z, z ∈ bin i :: L1 ++ L2 -> z ∈ bin i :: B i) by (intros z; rewrite !elem_of_cons; intros [|?%unbin_in]; auto).
  assert (Hbi : bin i ∉ L1 ++ L2) by (intros H%unbin_in; by apply (bin_not_in st m C B D Hb Hbn i i)).
  assert (Hsep : separate (bin i :: bin i :: L1 ++ L2)).
  { apply (nodes_separate st m C D _ Hb). intros z [->|Hz]%elem_of_cons; [right; by exists i|]. by apply (ring_nodes st m C B D Hb Hbn i), Hsub. }
  assert (Hk : forall a, is_header C a -> ~ is_free_link st C' a).
  { intros a (x & y & Hx & Ha) Hl%(free_link_link _ _ _ _ Hb'). apply (header_not_link _ _ _ _ Hb' a); [|done].
    destruct (decide (x = c)) as [->|Hne]; [exists c; eexists; split; [apply (lookup_mark C c k kn Hly Hc Hs Hn); by left|done]|].
    destruct (mark_lookup st m C D Hb c k kn Hc Hs Hn true x y Hx Hne) as (y' & Hy' & _). by exists x, y'. }
  apply (rings_store st C' B' mark_binned); [apply Hk; exists (c + c_size k), kn; auto|].
  apply (rings_store st C' B' mark_binned); [apply Hk; exists c, k; auto|].
  assert (HR : rings (<[st := b]> m) B).
  { apply (rings_store st C B Hbn); [by apply own_scalar; left|]. apply (hp_rings _ _ _ _ _ Hh). }
  intros j Hj. destruct (decide (j = i)) as [->|Hne].
  - left. unfold B'. rewrite upd_same. destruct (HR i Hi64) as [HL'|[E _]]; [|rewrite HB in E; by apply app_eq_nil in E as [_ ?]].
    rewrite HB in HL'. apply links_app in HL' as [HL1 HL2]. by apply (links_unlink _ (bin i) L1 c L2 (bin i)).
  - unfold B'. rewrite upd_other by done.
    assert (Hnot : forall z, z ∈ bin i :: L1 ++ L2 -> z ∉ bin j :: B j).
    { intros z [->|Hz]%elem_of_cons [Hzj|Hzj]%elem_of_cons.
      - apply bin_inj in Hzj. lia.
      - by apply (bin_not_in st m C B D Hb Hbn i j).
      - apply unbin_in in Hz. rewrite Hzj in Hz. by apply (bin_not_in st m C B D Hb Hbn j i).
      - apply Hne. apply (bins_disjoint C B Hbn j i z); [done|done|done|by apply unbin_in]. }
    destruct (unbin_node p ltac:(by right)) as (_ & _ & Np & _). destruct (unbin_node n ltac:(by right)) as (_ & _ & Nn & _).
    destruct (HR j Hj) as [HL'|[E H0]]; [left|right].
    + apply (ring_other st m C B D Hb Hbn _ j n); [done|done|by apply Hnot|].
      apply (ring_other st m C B D Hb Hbn _ j p); [done|done|by apply Hnot|done].
    + split; [done|]. assert (Nj : is_node st C (bin j)) by (right; by exists j).
      assert (Hs2 : separate (bin j :: n :: nil)).
      { apply (nodes_separate st m C D _ Hb). intros z [->|[->|Hz%elem_of_nil]%elem_of_cons]%elem_of_cons; done. }
      rewrite lookup_insert_ne by (intros E'; apply (Hs2 (bin j) n); [by left|right; by left|done]).
      rewrite lookup_insert_ne; [done|]. intros E'. apply (Hnot p Hpin). replace p with (bin j) by lia. by left.
Qed.

Lemma unbin_heap b : 0 <= b < 2 ^ 64 -> (forall j, 0 <= j < 64 -> Z.testbit b j = negb (bool_decide (B' j = []))) ->
  heap (unbin_mem b) C' B' D /\ forall H, frame st (State m C D H) (State (unbin_mem b) C' D (c :: H)).
Proof.
  intros Hbr Hbits. pose proof unbin_size as Hs. pose proof unbin_neighbours as (Hpin & Hnin & _).
  destruct (unbin_node p ltac:(by right)) as (Kp & _ & _ & _ & Sp & _). destruct (unbin_node n ltac:(by right)) as (_ & Kn & _ & _ & _ & Sn).
  apply (free_link_kinds m C D) in Kp as (Kp1 & Kp2 & Kp3 & Kp4), Kn as (Kn1 & Kn2 & Kn3 & Kn4); [|done..].
  destruct (own_scalar st ltac:(by left)) as (Ks1 & Ks2 & Ks3 & Ks4).
  destruct (own_header (c + 8)) as (Kc1 & Kc2 & Kc3 & Kc4); [exists c, k; auto|].
  destruct (own_header (c + c_size k)) as (Kx1 & Kx2 & Kx3 & Kx4); [exists (c + c_size k), kn; auto|].
  destruct (sc_binmap _ _ _ _ (hp_scalars _ _ _ _ _ Hh)) as (b0 & Hbm & _).
  assert (Hm : forall a, is_Some (m !! a) -> is_Some (unbin_mem b !! a)).
  { intros a Ha. unfold unbin_mem. rewrite !lookup_insert_is_Some'. auto 10. }
  split; [split|].
  - by apply (base_ext st m), mark_base.
  - apply unbin_headers.
  - do 5 (apply areas_store; [done|]). apply (hp_areas _ _ _ _ _ Hh).
  - apply unbin_rings.
  - apply mark_binned.
  - apply (scalars_change st _ C); [by apply (mark_sentinel st m C D Hb)|]. do 4 (apply scalars_store; [done|]).
    destruct (hp_scalars _ _ _ _ _ Hh) as [_ S2 S3 S4]. split.
    + exists b. by rewrite lookup_insert_eq.
    + by rewrite lookup_insert_ne by lia.
    + by rewrite lookup_insert_ne by lia.
    + by rewrite lookup_insert_ne by lia.
  - intros H. apply (frame_comp st _ (State (unbin_mem b) C D H)).
    + do 5 (apply frame_store; [by apply (own_not_user st m)|]). apply frame_id.
    + by apply (take_frame st m C D Hb).
Qed.

Lemma wp_unbin Q :
  (forall m', heap m' C' B' D -> (forall H, frame st (State m C D H) (State m' C' D (c :: H))) -> Q tt m') -> wp (unbin st c i) m Q.
Proof.
  intros HQ. pose proof unbin_size as Hs. pose proof unbin_i as Hi64. pose proof unbin_nodup as [Hnd Hcn].
  pose proof (chunk_arith C c k Hly Hc Hs) as (Ha1 & Ha2 & Ha3 & Ha4 & Ha5). pose proof unbin_neighbours as (Hpin & Hnin & Hp & Hnx).
  destruct (unbin_node c ltac:(by left)) as (Kc16 & Kc24 & Nc & _).
  destruct (unbin_node p ltac:(by right)) as (Kp & _ & Np & Rp & Sp & _). destruct (unbin_node n ltac:(by right)) as (_ & Kn & Nn & Rn & _ & Sn).
  destruct (sc_binmap _ _ _ _ (hp_scalars _ _ _ _ _ Hh)) as (b & Hbm & Hbr & Hbits).
  destruct (unbin_binmap b Hbits Hbr) as (b' & Hb'e & Hbr' & Hbits'). destruct (unbin_heap b' Hbr' Hbits') as [Hh' Hf].
  assert (Hsep : separate [c; p; n]).
  { apply (nodes_separate st m C D _ Hb). intros z Hz. rewrite !elem_of_cons in Hz. by destruct Hz as [->|[->|[->|?%elem_of_nil]]]. }
  assert (Hpc : p <> c).
  { intros E. rewrite E in Hpin. apply elem_of_cons in Hpin as [E'|]; [|done]. by apply (bin_not_chunk st m C D i k Hb Hi64); rewrite <- E'. }
  destruct (own_scalar st ltac:(by left)) as (Ks & _ & Ks' & _).
  assert (Nst : forall a, is_free_link st C a -> st <> a) by (intros a Ha E; subst a; done).
  pose proof (Nst _ Kc16) as N1. pose proof (Nst _ Kc24) as N2. pose proof (Nst _ Kp) as N4. pose proof (Nst _ Kn) as N5.
  pose proof (Hsep p c ltac:(right; by left) ltac:(by left)) as N3.
  unfold unbin, prev, next, csize, psize, binmap. apply wp_bind, (wp_load _ _ p); [done|]. apply wp_bind, (wp_load _ _ n); [done|].
  apply wp_bind. apply (wp_mono _ _ (fun _ m1 => m1 = <[st := b']> m)).
  { rewrite Hb'e. destruct (p =? n).
    - apply wp_bind, (wp_load _ _ b); [done|]. apply wp_store; [by eexists|by rewrite <- Hb'e|done].
    - apply wp_ret. by rewrite insert_id. }
  intros _ m1 ->. apply wp_bind, (wp_load _ _ p); [by rewrite lookup_insert_ne|]. apply wp_bind, (wp_load _ _ n); [by rewrite lookup_insert_ne|].
  apply wp_bind, wp_store; [rewrite lookup_insert_is_Some'; auto|done|].
  apply wp_bind, (wp_load _ _ n); [by rewrite !lookup_insert_ne by lia|]. apply wp_bind, (wp_load _ _ p); [by rewrite !lookup_insert_ne by lia|].
  apply wp_bind, wp_store; [rewrite !lookup_insert_is_Some'; auto|done|].
  destruct (hp_headers _ _ _ _ _ Hh c k Hc) as [_ Hcw]. destruct (hp_headers _ _ _ _ _ Hh _ _ Hn) as [Hnw _].
  assert (Hw : c_word k = c_size k) by (unfold c_word; rewrite Hu; cbn; lia). rewrite Hw in Hcw.
  assert (Hp_n : c_psize kn = c_size k).
  { destruct (ly_next _ Hly _ _ Hc Hs) as (kn' & Hn' & E & _). assert (kn' = kn) as -> by congruence. by rewrite E. }
  assert (Hf1 : forall a, is_header C a -> m !! a = <[n + 24 := p]> (<[p + 16 := n]> (<[st := b']> m)) !! a).
  { intros a Ha. destruct (own_header a Ha) as (Ka1 & _ & Ka2 & _). rewrite !lookup_insert_ne; [done|intros <-..].
    - apply Ka1. by left.
    - done.
    - done. }
  rewrite (Hf1 (c + 8)) in Hcw by (exists c, k; auto). rewrite Hf1 in Hnw by (exists (c + c_size k), kn; auto).
  assert (Hor : c_size k .| C_INUSE = c_size k + 1) by (apply or_1; mlia).
  apply wp_bind, (wp_load _ _ (c_size k)); [done|]. apply wp_bind, wp_store; [by eexists|rewrite Hor; lia|]. rewrite Hor.
  apply wp_bind. unfold NEXT_CHUNK, CHUNK_SIZE, csize. apply wp_bind, wp_bind, (wp_load _ _ (c_size k + 1)); [by rewrite lookup_insert_eq|].
  apply wp_ret, wp_ret. rewrite (proj2 (and_minus_2 (c_size k) ltac:(mlia))).
  apply wp_bind, (wp_load _ _ (c_size k)); [rewrite lookup_insert_ne by lia; by rewrite Hnw, Hp_n|].
  apply wp_store; [rewrite lookup_insert_ne by lia; by eexists|rewrite Hor; lia|]. rewrite Hor. by apply HQ.
Qed.
End unbin.

(** *** A free chunk is taken, wherever it is in its ring *)
Lemma wp_take m C B D c k kn Q : heap m C B D -> C !! c = Some k -> c_inuse k = false -> C !! (c + c_size k) = Some kn ->
  links m (bin (bin_index (c_size k))) (B (bin_index (c_size k))) (bin (bin_index (c_size k))) ->
  (forall m' B', heap m' (mark true c k kn C) B' D ->
    (forall H, frame st (State m C D H) (State m' (mark true c k kn C) D (c :: H))) -> Q tt m') ->
  wp (unbin st c (bin_index (c_size k))) m Q.
Proof.
  intros Hh Hc Hu Hn HL HQ. pose proof (bn_free _ _ (hp_binned _ _ _ _ _ Hh) c k Hc Hu) as Hin.
  apply list_elem_of_split in Hin as (L1 & L2 & HB). apply (wp_unbin m C B D Hh c k kn _ L1 L2); try done. intros m' Hh' Hf. by eapply HQ.
Qed.

Lemma free_word k : c_inuse k = false -> c_word k = c_size k.
Proof. unfold c_word. intros ->. cbn. lia. Qed.

Lemma inuse_word k : c_inuse k = true -> c_word k = c_size k + 1.
Proof. unfold c_word. by intros ->. Qed.

Lemma word_bit C c k : layout C -> C !! c = Some k -> Z.land (c_word k) C_INUSE = b2z (c_inuse k) /\ Z.land (c_word k) (-2) = c_size k.
Proof.
  intros Hly Hc. pose proof (ly_arith _ Hly _ _ Hc) as (_ & Hm & _). unfold C_INUSE. rewrite and_1.
  assert (Hm2 : c_size k mod 2 = 0) by mlia. destruct (and_minus_2 _ Hm2) as [E1 E2].
  unfold c_word. destruct (c_inuse k); cbn [b2z]; [split; [mlia|done]|rewrite Z.add_0_r; split; [mlia|done]].
Qed.

Lemma free_bin m C D c k : base m C D -> C !! c = Some k -> c_inuse k = false -> 0 <= bin_index (c_size k) < 64.
Proof.
  intros Hb Hc Hu. pose proof (free_size st m C D Hb c k Hc Hu) as Hs. pose proof (chunk_arith C c k (bs_layout _ _ _ _ Hb) Hc Hs).
  apply bin_index_range; [lia|tauto].
Qed.

(** A loop that leaves in its first iteration. *)
Lemma wp_loop_once {S R} (body : S -> M (S + R)) s m Q : (1 <= fuel)%nat ->
  wp (body s) m (fun r m' => match r with inl _ => False | inr r => Q r m' end) -> wp (loop body s) m Q.
Proof.
  intros Hf Hb. unfold loop. destruct fuel as [|f]; [lia|]. cbn. apply wp_bind. eapply wp_mono; [exact Hb|]. intros [?|r] m' H'; done.
Qed.

Lemma wp_alloc_fwd m C B D c k (Q : bool -> mem -> Prop) : (1 <= fuel)%nat -> heap m C B D -> C !! c = Some k ->
  (c_inuse k = true -> Q false m) ->
  (forall kn m' B', c_inuse k = false -> C !! (c + c_size k) = Some kn -> heap m' (mark true c k kn C) B' D ->
    (forall H, frame st (State m C D H) (State m' (mark true c k kn C) D (c :: H))) -> Q true m') -> wp (alloc_fwd st c) m Q.
Proof.
  intros Hfuel Hh Hc HQ1 HQ2. pose proof (hp_base _ _ _ _ _ Hh) as Hb. pose proof (bs_layout _ _ _ _ Hb) as Hly.
  destruct (word_bit C c k Hly Hc) as [Hbit _]. destruct (hp_headers _ _ _ _ _ Hh c k Hc) as [_ Hcw].
  apply wp_loop_once; [done|]. unfold csize. apply wp_bind, (wp_load _ _ (c_word k)); [done|]. rewrite Hbit. destruct (c_inuse k) eqn:Hu; cbn [b2z Z.eqb].
  - apply wp_ret. by apply HQ1.
  - rewrite (free_word k Hu) in *. pose proof (free_size st m C D Hb c k Hc Hu) as Hs. destruct (ly_next _ Hly c k Hc Hs) as (kn & Hn & _).
    apply wp_bind, (wp_lock_bin m C B D); [done|by eapply free_bin|]. intros m1 Hh1 HL1 Hf1.
    destruct (hp_headers _ _ _ _ _ Hh1 c k Hc) as [_ Hcw1]. rewrite (free_word k Hu) in Hcw1.
    apply wp_bind, (wp_load _ _ (c_size k)); [done|]. rewrite Z.eqb_refl.
    apply wp_bind, (wp_take m1 C B D c k kn); [done..|]. intros m2 B2 Hh2 Hf2. apply wp_ret. eapply HQ2; [done|done|done|].
    intros H. by eapply frame_comp; [apply Hf1|].
Qed.

Lemma wp_alloc_rev m C B D c k (Q : bool -> mem -> Prop) : (1 <= fuel)%nat -> heap m C B D -> C !! c = Some k ->
  (c_psize k mod 2 = 1 -> Q false m) ->
  (forall c' k' m' B', C !! c' = Some k' -> c_inuse k' = false -> c' + c_size k' = c -> c_psize k = c_size k' -> heap m' (mark true c' k' k C) B' D ->
    (forall H, frame st (State m C D H) (State m' (mark true c' k' k C) D (c' :: H))) -> Q true m') -> wp (alloc_rev st c) m Q.
Proof.
  intros Hfuel Hh Hc HQ1 HQ2. pose proof (hp_base _ _ _ _ _ Hh) as Hb. pose proof (bs_layout _ _ _ _ Hb) as Hly.
  destruct (hp_headers _ _ _ _ _ Hh c k Hc) as [Hcw _].
  apply wp_loop_once; [done|]. unfold psize. apply wp_bind, (wp_load _ _ (c_psize k)); [done|]. unfold C_INUSE. rewrite and_1. destruct (Z.eqb_spec (c_psize k mod 2) 0) as [E|E].
  - destruct (layout_prev_free C c k Hly Hc E) as (k' & Hc' & Hsz & Hs & Hu). rewrite <- Hsz in *. set (c' := c - c_size k') in *.
    assert (Ec : c' + c_size k' = c) by lia. assert (Hn : C !! (c' + c_size k') = Some k) by by rewrite Ec.
    apply wp_bind, (wp_lock_bin m C B D); [done|by eapply free_bin|]. intros m1 Hh1 HL1 Hf1.
    destruct (hp_headers _ _ _ _ _ Hh1 c k Hc) as [Hcw1 _]. rewrite <- Hsz in Hcw1.
    apply wp_bind, (wp_load _ _ (c_size k')); [done|]. rewrite Z.eqb_refl.
    apply wp_bind. unfold PREV_CHUNK, CHUNK_PSIZE, psize. apply wp_bind, wp_bind, (wp_load _ _ (c_size k')); [done|]. apply wp_ret, wp_ret.
    pose proof (chunk_arith C c' k' Hly Hc' Hs) as (_ & Hm & _). rewrite (proj1 (and_minus_2 (c_size k') ltac:(mlia))).
    apply wp_bind, (wp_take m1 C B D c' k' k); [done..|]. intros m2 B2 Hh2 Hf2. apply wp_ret. eapply (HQ2 c' k'); [done..|].
    intros H. by eapply frame_comp; [apply Hf1|].
  - apply wp_ret, HQ1. mlia.
Qed.

(** *** Reading headers *)
Lemma wp_CHUNK_SIZE m C B D c k (Q : Z -> mem -> Prop) : heap m C B D -> C !! c = Some k -> Q (c_size k) m -> wp (CHUNK_SIZE c) m Q.
Proof.
  intros Hh Hc HQ. destruct (hp_headers _ _ _ _ _ Hh c k Hc) as [_ E]. unfold CHUNK_SIZE, csize. apply wp_bind, (wp_load _ _ (c_word k)); [done|].
  apply wp_ret. by rewrite (proj2 (word_bit C c k (bs_layout _ _ _ _ (hp_base _ _ _ _ _ Hh)) Hc)).
Qed.

Lemma wp_NEXT_CHUNK m C B D c k (Q : Z -> mem -> Prop) : heap m C B D -> C !! c = Some k -> Q (c + c_size k) m -> wp (NEXT_CHUNK c) m Q.
Proof. intros Hh Hc HQ. apply wp_bind, (wp_CHUNK_SIZE m C B D c k); [done|done|]. by apply wp_ret. Qed.

Lemma wp_PREV_CHUNK m C B D c k c' k' (Q : Z -> mem -> Prop) : heap m C B D -> C !! c = Some k -> C !! c' = Some k' -> c_size k' <> 0 -> c' + c_size k' = c ->
  Q c' m -> wp (PREV_CHUNK c) m Q.
Proof.
  intros Hh Hc Hc' Hs <- HQ. destruct (hp_headers _ _ _ _ _ Hh _ k Hc) as [E _]. unfold PREV_CHUNK, CHUNK_PSIZE, psize.
  pose proof (bs_layout _ _ _ _ (hp_base _ _ _ _ _ Hh)) as Hly. destruct (ly_next _ Hly c' k' Hc' Hs) as (k2 & Hk2 & Ep & _).
  assert (k2 = k) as -> by congruence. apply wp_bind, wp_bind, (wp_load _ _ (c_psize k)); [done|]. apply wp_ret, wp_ret.
  rewrite Ep, (proj2 (word_bit C c' k' Hly Hc')). by replace (c' + c_size k' - c_size k') with c' by lia.
Qed.
End bins.
