(* ===== verification/MallocHeap.v ===== *)
(** The changes of the heap in memory: two blocks become one, a block is cut in
    two, the heap grows (Malloc.v). *)
From S2P Require Import Prelude Mem Links Malloc MallocChunks MallocInv MallocBins.

Section heap.
Context {F : Fuel} (st : Z).
Abbreviation bin := (BIN_TO_CHUNK st).
Abbreviation base := (base st).
Abbreviation heap := (heap st).
Abbreviation frame := (frame st).
Implicit Types (m : mem) (C : chunks) (B : Z -> list Z) (D : areas).

(** The memory changes at words of the user and of headers only. *)
Lemma heap_rechunk m m' C C' B D : heap m C B D -> base m' C' D -> headers m' C' -> same_free C C' -> keeps_sentinels C C' ->
  (forall a, is_free_link st C a \/ is_scalar st a \/ is_area_header D a -> m' !! a = m !! a) -> heap m' C' B D.
Proof.
  intros Hh Hb' Hh' Hsf Hse He. apply (heap_change st m m' C C' B D D); try done.
  - intros d x s Hd. rewrite !He; [by apply (hp_areas _ _ _ _ _ Hh)|do 2 right; exists d, x, s; auto..].
  - intros a Ha. apply He. tauto.
Qed.

(** Stores to headers and to words of the user. *)
Definition is_inner C D a : Prop := is_header C a \/ is_user st C D [] a.

Lemma inner_free m C D a b : base m C D -> is_inner C D a -> is_free_link st C b \/ is_scalar st b \/ is_area_header D b -> a <> b.
Proof.
  intros Hb [Ha|Ha] Hbk ->; destruct Hbk as [Hk|[Hk|Hk]].
  - apply (header_not_link _ _ _ _ Hb b Ha). by eapply free_link_link.
  - by apply (header_not_scalar _ _ _ _ Hb b Ha).
  - by apply (header_not_area _ _ _ _ Hb b Ha).
  - by apply (user_not_link _ _ _ _ Hb [] b Ha).
  - by apply (user_not_scalar _ _ _ _ Hb [] b Ha).
  - by apply (user_not_area _ _ _ _ Hb [] b Ha).
Qed.

(** The words of a free chunk and of a held block. *)
Lemma hidden_not_user m C D H c k a : base m C D -> C !! c = Some k -> c_inuse k = false \/ c ∈ H -> c <= a < c + c_size k -> ~ is_user st C D H a.
Proof.
  intros Hb Hc Hin Ha [(c' & k' & Hc' & Hu' & Hn & Ha')|[(d & x & s & Hd & _ & Ha')|(_ & Ho & _)]].
  - assert (c' <> c) by (intros ->; destruct Hin; [congruence|done]). pose proof (chunk_other C c k (bs_layout _ _ _ _ Hb) Hc ltac:(lia) c' k' Hc' ltac:(done)) as Hd.
    rewrite extent_size in Hd by lia. lia.
  - pose proof (clear_area _ _ _ _ Hb c k d x s Hc Hd) as Hcl. rewrite extent_size in Hcl by lia. pose proof (bs_areas _ _ _ _ Hb d x s Hd). lia.
  - apply Ho. exists c, k. split; [done|]. rewrite extent_size by lia. lia.
Qed.

Lemma held_not_user m C D H c k a : base m C D -> C !! c = Some k -> c ∈ H -> c <= a < c + c_size k -> ~ is_user st C D H a.
Proof. intros Hb Hc Hin. apply (hidden_not_user m C D H c k a); auto. Qed.

(** ** Two blocks become one *)
Section merge.
Context (m : mem) (C : chunks) (B : Z -> list Z) (D : areas) (Hh : heap m C B D) (c : Z) (k k2 kn : chunk).
Context (Hc : C !! c = Some k) (Hs : c_size k <> 0) (H2 : C !! (c + c_size k) = Some k2) (Hs2 : c_size k2 <> 0).
Context (Hn : C !! (c + c_size k + c_size k2) = Some kn) (Hu : c_inuse k = true) (Hu2 : c_inuse k2 = true).
Let Hb : base m C D := hp_base _ _ _ _ _ Hh.
Let Hly : layout C := bs_layout _ _ _ _ Hb.
Abbreviation C' := (merge c k k2 kn C).
Let n : Z := c_size k + c_size k2.

Definition merge_mem m : mem := <[c + c_size k + c_size k2 := n + 1]> (<[c + 8 := n + 1]> m).

Lemma merge_lookup x y : C !! x = Some y -> x <> c -> x <> c + c_size k -> exists y', C' !! x = Some y' /\ c_inuse y' = c_inuse y /\ c_size y' = c_size y.
Proof.
  intros Hx Hne Hne2. destruct (decide (x = c + c_size k + c_size k2)) as [->|].
  - assert (y = kn) as -> by congruence. eexists. split; [apply (lookup_merge C c k kn Hly Hc Hs k2 H2 Hs2 Hn); right; left; done|done].
  - exists y. split; [|done]. apply (lookup_merge C c k kn Hly Hc Hs k2 H2 Hs2 Hn). do 2 right. done.
Qed.

Lemma merge_origin x y : C' !! x = Some y -> (x = c /\ y = Chunk (c_psize k) n true) \/
  (x <> c /\ exists y0, C !! x = Some y0 /\ c_inuse y0 = c_inuse y /\ c_size y0 = c_size y).
Proof.
  pose proof (chunk_arith C c k Hly Hc Hs). pose proof (ly_arith _ Hly _ _ H2).
  intros [[-> ->]|[[-> ->]|(Hx & _ & _ & Hy)]]%(lookup_merge C c k kn Hly Hc Hs k2 H2 Hs2 Hn); [by left|right..]; split; try lia; eauto.
Qed.

Lemma merge_base m' : (forall a, is_Some (m !! a) -> is_Some (m' !! a)) -> base m' C' D.
Proof.
  intros Hm. pose proof (base_ext st m m' C D Hm Hb) as [_ Hst Ha Hsp Hcl Hap]. pose proof (merge_arith C c k Hly k2 H2 Hs2) as Har.
  pose proof (chunk_arith C c k Hly Hc Hs) as Har'.
  assert (En : extent (Chunk (c_psize k) n true) = c_size k + c_size k2) by (rewrite extent_size; cbn; lia).
  assert (E1 : extent k = c_size k) by by apply extent_size. assert (E2 : extent k2 = c_size k2) by by apply extent_size.
  split; [by apply (merge_layout C c k kn Hly Hc Hs k2 H2 Hs2 Hn)|done|done| |intros x y lo hi Hy|done].
  - intros x y [[-> ->]|(_ & y0 & Hy0 & _ & E)]%merge_origin.
    + intros a Hax Ham. rewrite En in Hax. destruct (Z.lt_ge_cases a (c + c_size k)); [apply (Hsp c k Hc a); [lia|done]|apply (Hsp _ k2 H2 a); [lia|done]].
    + unfold extent. rewrite <- E. by apply Hsp.
  - apply merge_origin in Hy as [[-> ->]|(_ & y0 & Hy0 & _ & E)].
    + intros Hf. rewrite En. pose proof (Hcl c k lo hi Hc Hf). pose proof (Hcl _ k2 lo hi H2 Hf). assert (lo < hi); [|lia].
      destruct Hf as [[-> ->]|(d & x & s & Hd & -> & ->)]; [lia|]. pose proof (Ha d x s Hd). lia.
    + unfold extent. rewrite <- E. by apply Hcl.
Qed.

Lemma merge_headers m' : headers m' C -> headers (merge_mem m') C'.
Proof.
  intros Hhd x y Hy. pose proof (merge_arith C c k Hly k2 H2 Hs2) as Har. pose proof (chunk_arith C c k Hly Hc Hs) as Har'. unfold merge_mem.
  apply (lookup_merge C c k kn Hly Hc Hs k2 H2 Hs2 Hn) in Hy as [[-> ->]|[[-> ->]|(Hx1 & Hx2 & Hx3 & Hy)]]; unfold c_word; cbn.
  - destruct (Hhd c k Hc) as [E _]. rewrite !(lookup_insert_ne _ _ c) by lia. split; [done|]. by rewrite lookup_insert_ne, lookup_insert_eq by lia.
  - destruct (Hhd _ _ Hn) as [_ E]. rewrite lookup_insert_eq. split; [done|]. by rewrite !lookup_insert_ne by lia.
  - destruct (Hhd x y Hy) as [E1 E2]. pose proof (ly_arith _ Hly _ _ Hy) as (? & _).
    rewrite !(lookup_insert_ne _ _ x), !(lookup_insert_ne _ _ (x + 8)) by (lia || mlia). done.
Qed.

Lemma merge_same_free : same_free C C'.
Proof.
  intros x s. split.
  - intros (y & Hx & Hxu & <-). destruct (merge_lookup x y Hx) as (y' & Hy' & E1 & E2); [by intros ->; congruence..|]. exists y'. by rewrite E1, E2.
  - intros (y & [[-> ->]|(_ & y0 & Hx & E1 & E2)]%merge_origin & Hxu & <-); [done|]. exists y0. by rewrite E1, E2.
Qed.

Lemma merge_sentinels : keeps_sentinels C C'.
Proof.
  intros x p Hx. destruct (merge_lookup x _ Hx) as ([p' s' u'] & Hy' & E1 & E2); cbn in *; [intros ->..|exists p'; by rewrite Hy', E1, E2].
  - rewrite Hc in Hx. injection Hx as ->. done.
  - rewrite H2 in Hx. injection Hx as ->. done.
Qed.

Lemma merge_heap : heap (merge_mem m) C' B D.
Proof.
  assert (I1 : is_inner C D (c + 8)) by (left; exists c, k; auto).
  assert (I2 : is_inner C D (c + c_size k + c_size k2)) by (left; exists (c + c_size k + c_size k2), kn; auto).
  apply (heap_rechunk m _ C); [done| | |by apply merge_same_free|by apply merge_sentinels|].
  - apply merge_base. intros a Ha. unfold merge_mem. rewrite !lookup_insert_is_Some'. auto.
  - apply merge_headers, (hp_headers _ _ _ _ _ Hh).
  - intros a Ha. unfold merge_mem. rewrite !lookup_insert_ne; [done|by apply (inner_free m C D)..].
Qed.

Lemma merge_frame H : c ∈ H -> c + c_size k ∈ H -> frame (State m C D H) (State (merge_mem m) C' D H).
Proof.
  intros Hin Hin2. apply (frame_comp st _ (State (merge_mem m) C D H)).
  - assert (I1 : is_own st C D (c + 8)) by (left; exists c, k; auto).
    assert (I2 : is_own st C D (c + c_size k + c_size k2)) by (left; exists (c + c_size k + c_size k2), kn; auto).
    do 2 (apply frame_store; [by apply (own_not_user st m)|]). apply frame_id.
  - apply frame_rechunk; [| |done].
    + intros a (x & y & [[-> ->]|(_ & y0 & Hx & _ & E)]%merge_origin & Ha).
      * rewrite extent_size in Ha by (cbn; pose proof (merge_arith C c k Hly k2 H2 Hs2); pose proof (chunk_arith C c k Hly Hc Hs); lia). cbn in Ha.
        destruct (Z.lt_ge_cases a (c + c_size k)); [exists c, k|exists (c + c_size k), k2]; split; try done; rewrite extent_size by done; lia.
      * exists x, y0. unfold extent. by rewrite E.
    + intros x l. split; intros (Hnot & H0 & y & Hx & Hxu & E); split; [done| |done|]; (split; [done|]).
      * destruct (merge_lookup x y Hx) as (y' & Hy' & E1 & E2); [by intros ->..|]. exists y'. by rewrite E1, E2.
      * apply merge_origin in Hx as [[-> _]|(_ & y0 & Hx & E1 & E2)]; [done|]. exists y0. by rewrite E1, E2.
Qed.
End merge.

(** ** A block is cut in two *)
Section split.
Context (m : mem) (C : chunks) (D : areas) (Hb : base m C D) (c n : Z) (k kn : chunk).
Context (Hc : C !! c = Some k) (Hs : c_size k <> 0) (Hn : C !! (c + c_size k) = Some kn) (Hu : c_inuse k = true).
Context (Hnm : n mod 32 = 0) (Hn0 : 0 < n < c_size k).
Let Hly : layout C := bs_layout _ _ _ _ Hb.
Abbreviation C' := (split c n k kn C).

Definition split_mem m : mem :=
  <[c + 8 := n + 1]> (<[c + c_size k := c_size k - n + 1]> (<[c + n + 8 := c_size k - n + 1]> (<[c + n := n + 1]> m))).

Lemma split_lookup x y : C !! x = Some y -> x <> c -> exists y', C' !! x = Some y' /\ c_inuse y' = c_inuse y /\ c_size y' = c_size y.
Proof.
  intros Hx Hne. destruct (decide (x = c + c_size k)) as [->|].
  - assert (y = kn) as -> by congruence. eexists. split; [apply (lookup_split C c k kn Hly Hc Hs Hn n Hn0); do 2 right; by left|done].
  - exists y. split; [|done]. apply (lookup_split C c k kn Hly Hc Hs Hn n Hn0). do 3 right. split_and!; try done.
    intros ->. by rewrite (split_free C c k Hly Hc Hs n Hn0) in Hx.
Qed.

Lemma split_origin x y : C' !! x = Some y -> (x = c /\ y = Chunk (c_psize k) n true) \/ (x = c + n /\ y = Chunk (n + 1) (c_size k - n) true) \/
  (x <> c /\ exists y0, C !! x = Some y0 /\ c_inuse y0 = c_inuse y /\ c_size y0 = c_size y).
Proof.
  intros [[-> ->]|[[-> ->]|[[-> ->]|(Hx & _ & _ & Hy)]]]%(lookup_split C c k kn Hly Hc Hs Hn n Hn0); [by left|right; by left|do 2 right..].
  - split; [lia|]. eauto.
  - split; [done|]. eauto.
Qed.

Lemma split_inside : inside C C'.
Proof.
  intros x y [[-> ->]|[[-> ->]|(_ & y0 & Hx & _ & E)]]%split_origin.
  - exists c, k. rewrite !extent_size by (cbn; lia). cbn. split; [done|lia].
  - exists c, k. rewrite !extent_size by (cbn; lia). cbn. split; [done|lia].
  - exists x, y0. unfold extent. rewrite E. split; [done|lia].
Qed.

Lemma split_base : base m C' D.
Proof. apply (base_inside st m C); [done|by apply split_layout|apply split_inside]. Qed.

Lemma split_headers m' : headers m' C -> headers (split_mem m') C'.
Proof.
  intros Hhd x y Hy. pose proof (chunk_arith C c k Hly Hc Hs) as Har. unfold split_mem.
  pose proof (split_free C c k Hly Hc Hs n Hn0) as Hf.
  apply (lookup_split C c k kn Hly Hc Hs Hn n Hn0) in Hy as [[-> ->]|[[-> ->]|[[-> ->]|(Hx1 & Hx2 & Hx3 & Hy)]]]; unfold c_word; cbn.
  - destruct (Hhd c k Hc) as [E _]. rewrite !(lookup_insert_ne _ _ c) by lia. split; [done|]. by rewrite lookup_insert_eq.
  - rewrite !(lookup_insert_ne _ _ (c + n)), (lookup_insert_eq _ (c + n)) by mlia. split; [done|]. by rewrite !lookup_insert_ne, lookup_insert_eq by mlia.
  - destruct (Hhd _ _ Hn) as [_ E]. rewrite lookup_insert_ne, lookup_insert_eq by lia. split; [done|]. by rewrite !lookup_insert_ne by mlia.
  - destruct (Hhd x y Hy) as [E1 E2]. pose proof (ly_arith _ Hly _ _ Hy) as (? & _).
    rewrite !(lookup_insert_ne _ _ x), !(lookup_insert_ne _ _ (x + 8)) by mlia. done.
Qed.

Lemma split_heap B : heap m C B D -> heap (split_mem m) C' B D.
Proof.
  intros Hh.  pose proof (chunk_arith C c k Hly Hc Hs) as Har.
  assert (Hus : forall a, c + 16 <= a < c + c_size k -> is_inner C D a) by (intros a Ha; right; left; exists c, k; split_and!; [done|done|apply not_elem_of_nil|lia|lia]).
  assert (I1 : is_inner C D (c + 8)) by (left; exists c, k; auto). assert (I2 : is_inner C D (c + c_size k)) by (left; exists (c + c_size k), kn; auto).
  assert (I3 : is_inner C D (c + n)) by (apply Hus; mlia). assert (I4 : is_inner C D (c + n + 8)) by (apply Hus; mlia).
  apply (heap_rechunk m _ C); [done| | | | |].
  - apply (base_ext st m); [|apply split_base]. intros a Ha. unfold split_mem. rewrite !lookup_insert_is_Some'. auto 10.
  - apply split_headers, (hp_headers _ _ _ _ _ Hh).
  - intros x s. split.
    + intros (y & Hx & Hxu & <-). destruct (split_lookup x y Hx) as (y' & Hy' & E1 & E2); [by intros ->; congruence|]. exists y'. by rewrite E1, E2.
    + intros (y & [[-> ->]|[[-> ->]|(_ & y0 & Hx & E1 & E2)]]%split_origin & Hxu & <-); [done|done|]. exists y0. by rewrite E1, E2.
  - intros x p Hx. destruct (split_lookup x _ Hx) as ([p' s' u'] & Hy' & E1 & E2); cbn in *; [intros ->|exists p'; by rewrite Hy', E1, E2].
    rewrite Hc in Hx. injection Hx as ->. done.
  - intros a Ha. unfold split_mem. rewrite !lookup_insert_ne; [done|by apply (inner_free m C D)..].
Qed.

Lemma split_rechunk m' H : c ∈ H -> frame (State m' C D H) (State m' C' D (c + n :: H)).
Proof.
  intros Hin. pose proof (chunk_arith C c k Hly Hc Hs) as Har. apply frame_rechunk.
  - intros a. apply inside_in_chunks, split_inside.
  - intros x l. split.
    + intros (Hnot & H0 & y & Hx & Hxu & E). assert (Hxc : x <> c) by by intros ->. split.
        { apply not_elem_of_cons. split; [|done]. intros ->. by rewrite (split_free C c k Hly Hc Hs n Hn0) in Hx. }
        split; [done|]. destruct (split_lookup x y Hx) as (y' & Hy' & E1 & E2); [done|]. exists y'. by rewrite E1, E2.
    + intros ([Hne Hnot]%not_elem_of_cons & H0 & y & Hx & Hxu & E). split; [done|]. split; [done|].
        apply split_origin in Hx as [[-> _]|[[-> _]|(_ & y0 & Hx & E1 & E2)]]; [done|done|]. exists y0. by rewrite E1, E2.
  - intros d Hd. rewrite elem_of_cons. split; [by right|]. intros [->|]; [|done]. destruct Hd as [[x s] Hd].
      pose proof (clear_area st m C D Hb c k (c + n) x s Hc Hd) as Hcl. rewrite extent_size in Hcl by done.
      pose proof (bs_areas _ _ _ _ Hb (c + n) x s Hd). lia.
Qed.

Lemma split_frame H : c ∈ H -> frame (State m C D H) (State (split_mem m) C' D (c + n :: H)).
Proof.
  intros Hin. pose proof (chunk_arith C c k Hly Hc Hs) as Har. apply (frame_comp st _ (State (split_mem m) C D H)).
  - assert (I1 : is_own st C D (c + 8)) by (left; exists c, k; auto).
    assert (I2 : is_own st C D (c + c_size k)) by (left; exists (c + c_size k), kn; auto).
    apply frame_store; [by apply (own_not_user st m)|]. apply frame_store; [by apply (own_not_user st m)|].
    do 2 (apply frame_store; [apply (held_not_user m C D H c k); try done; mlia|]). apply frame_id.
  - by apply split_rechunk.
Qed.
End split.
End heap.
