(* ===== verification/MallocFree.v ===== *)
(** [free] and [trim] of Malloc.v. *)
From S2P Require Import Prelude Mem Links Malloc MallocChunks MallocInv MallocBins MallocHeap.

Section free.
Context {F : Fuel} (st : Z).
Abbreviation bin := (BIN_TO_CHUNK st).
Abbreviation base := (base st).
Abbreviation heap := (heap st).
Abbreviation frame := (frame st).
Abbreviation rings := (rings st).
Implicit Types (m : mem) (C : chunks) (B : Z -> list Z) (D : areas).

(** ** A held chunk becomes the last of its bin *)
Section put.
Context (m : mem) (C : chunks) (B : Z -> list Z) (D : areas) (Hh : heap m C B D) (c : Z) (k kn : chunk).
Context (Hc : C !! c = Some k) (Hs : c_size k <> 0) (Hu : c_inuse k = true) (Hp : c_psize k mod 2 = 1).
Context (Hn : C !! (c + c_size k) = Some kn) (Hun : c_inuse kn = true).
Let Hb : base m C D := hp_base _ _ _ _ _ Hh.
Let Hly : layout C := bs_layout _ _ _ _ Hb.
Let Hbn : binned C B := hp_binned _ _ _ _ _ Hh.
Abbreviation s := (c_size k).
Abbreviation i := (bin_index s).
Abbreviation C' := (mark false c k kn C).
Abbreviation B' := (upd B i (B i ++ [c])).
Abbreviation tail := (before_end (bin i) (B i)).
Context (HL : links m (bin i) (B i) (bin i)).

Definition put_mem b : mem :=
  <[tail + 16 := c]> (<[bin i + 24 := c]> (<[c + 24 := tail]> (<[c + 16 := bin i]> (<[c + s := s]> (<[c + 8 := s]> (<[st := b]> m)))))).

Lemma put_i : 0 <= i < 64.
Proof. pose proof (chunk_arith C c k Hly Hc Hs). apply bin_index_range; [lia|tauto]. Qed.

Lemma put_base : base m C' D.
Proof. apply (base_inside st m C); [done|by apply mark_layout|by apply (mark_inside st m C D Hb)]. Qed.

Lemma put_free_not_in j : 0 <= j < 64 -> c ∉ B j.
Proof. intros Hj (y & Hy & Hyu & _)%(bn_bin _ _ Hbn j c Hj). congruence. Qed.

Lemma put_binned : binned C' B'.
Proof.
  pose proof put_i as Hi. split.
  - intros x y Hy Hyu. apply (lookup_mark C c k kn Hly Hc Hs Hn) in Hy as [[-> ->]|[[-> ->]|(Hx1 & Hx2 & Hy)]]; cbn in *.
    + rewrite upd_same. apply elem_of_app. right. by left.
    + congruence.
    + pose proof (bn_free _ _ Hbn _ _ Hy Hyu) as Hin. unfold upd. case_decide as E; [|done]. rewrite E in Hin. apply elem_of_app. by left.
  - intros j x Hj Hx. assert (Hcase : x ∈ B j \/ (x = c /\ j = i)).
    { unfold upd in Hx. case_decide as E; [subst j|by left]. apply elem_of_app in Hx as [|Hx%list_elem_of_singleton]; auto. }
    destruct Hcase as [Hin|[-> ->]].
    + assert (Hne : x <> c) by (intros ->; by apply (put_free_not_in j)). destruct (bn_bin _ _ Hbn j x Hj Hin) as (y & Hy & Hyu & Hyj).
      destruct (mark_lookup st m C D Hb c k kn Hc Hs Hn false x y Hy Hne) as (y' & Hy' & E1 & E2). exists y'. by rewrite E1, E2.
    + eexists. split; [apply (lookup_mark C c k kn Hly Hc Hs Hn); by left|done].
  - intros j. unfold upd. case_decide as E; [|apply (bn_nodup _ _ Hbn)]. apply list.NoDup_app. split; [apply (bn_nodup _ _ Hbn)|].
    split; [|apply NoDup_singleton]. intros x Hx ->%list_elem_of_singleton. by apply (put_free_not_in i).
Qed.

(** The nodes of the ring and [c]. *)
Lemma put_nodes x : x ∈ c :: bin i :: B i -> is_free_link st C' (x + 16) /\ is_free_link st C' (x + 24) /\ is_node st C x /\
  0 <= x < 2 ^ 64 /\ is_Some (m !! (x + 16)) /\ is_Some (m !! (x + 24)).
Proof.
  pose proof put_i as Hi. intros Hx. assert (Hcase : (exists y, C !! x = Some y /\ c_size y <> 0 /\ (x = c \/ c_inuse y = false)) \/ x = bin i).
  { apply elem_of_cons in Hx as [->|[->|Hx]%elem_of_cons]; [left; exists k; auto|by right|left].
    destruct (bn_bin _ _ Hbn i x Hi Hx) as (y & Hy & Hyu & _). exists y. split; [done|]. split; [by apply (free_size st m C D Hb x)|auto]. }
  destruct Hcase as [(y & Hy & Hy0 & Hyu)| ->].
  - pose proof (ly_arith _ Hly _ _ Hy) as (? & ? & ? & ? & ? & _). pose proof (extent_16 _ _ _ _ Hb x y Hy).
    assert (Hy' : exists y', C' !! x = Some y' /\ c_inuse y' = false).
    { destruct (decide (x = c)) as [->|Hne]; [eexists; split; [apply (lookup_mark C c k kn Hly Hc Hs Hn); by left|done]|].
      destruct (mark_lookup st m C D Hb c k kn Hc Hs Hn false x y Hy Hne) as (y' & Hy' & E1 & _). exists y'. split; [done|]. rewrite E1. by destruct Hyu. }
    destruct Hy' as (y' & Hy' & Hyu').
    split_and!; [left; exists x, y'; auto|left; exists x, y'; auto|left; exists y; auto|lia|lia|apply (bs_space _ _ _ _ Hb x y Hy); [lia|mlia]..].
  - destruct (bin_word st m C D i 16 Hb Hi ltac:(auto)) as [Hw Hr]. destruct (bin_word st m C D i 24 Hb Hi ltac:(auto)) as [Hw' _].
    split_and!; try done; try lia; [by apply bin_links_free; auto|by apply bin_links_free; auto|right; by exists i].
Qed.

Lemma put_tail : tail ∈ c :: bin i :: B i.
Proof. right. apply before_end_in. Qed.

Lemma put_rings b : rings (put_mem b) B'.
Proof.
  pose proof put_i as Hi. assert (Hci : c ∉ B i) by by apply put_free_not_in.
  assert (Hk : forall a, is_header C a -> ~ is_free_link st C a).
  { intros a Ha Hl%(free_link_link _ _ _ _ Hb). by apply (header_not_link _ _ _ _ Hb a). }
  assert (K1 : ~ is_free_link st C st).
  { intros Hl%(free_link_link _ _ _ _ Hb). apply (link_not_scalar _ _ _ _ Hb st); [done|by left]. }
  assert (K2 : ~ is_free_link st C (c + 8)) by (apply Hk; exists c, k; auto).
  assert (K3 : ~ is_free_link st C (c + s)) by (apply Hk; exists (c + s), kn; auto).
  assert (HR : rings (<[c + s := s]> (<[c + 8 := s]> (<[st := b]> m))) B).
  { do 3 (apply (rings_store st C B Hbn); [done|]). apply (hp_rings _ _ _ _ _ Hh). }
  assert (Hbc : bin i <> c) by (intros E; apply (bin_not_chunk st m C D i k Hb Hi); by rewrite E).
  assert (Hbi : bin i ∉ B i) by by apply (bin_not_in st m C B D Hb Hbn i i).
  intros j Hj. destruct (decide (j = i)) as [->|Hne].
  - left. rewrite upd_same. apply links_snoc; try done.
    + apply (bn_nodup _ _ Hbn).
    + apply (nodes_separate st m C D _ Hb). intros x Hx. apply put_nodes. rewrite !elem_of_cons in *. tauto.
    + do 3 (apply (ring_store st C B Hbn); [done|done|]). done.
  - rewrite upd_other by done. assert (Hnot : forall z, z ∈ c :: bin i :: B i -> z ∉ bin j :: B j).
    { intros z [->|[->|Hz]%elem_of_cons]%elem_of_cons [Hzj|Hzj]%elem_of_cons.
      - apply (bin_not_chunk st m C D j k Hb Hj). by rewrite <- Hzj.
      - by apply (put_free_not_in j).
      - apply bin_inj in Hzj. lia.
      - by apply (bin_not_in st m C B D Hb Hbn i j).
      - rewrite Hzj in Hz. by apply (bin_not_in st m C B D Hb Hbn j i).
      - apply Hne. by apply (bins_disjoint C B Hbn j i z). }
    assert (Hnd : forall z, z ∈ c :: bin i :: B i -> is_node st C z) by (intros z Hz; by apply put_nodes).
    pose proof put_tail as Ht. assert (Hci' : c ∈ c :: bin i :: B i) by (by left). assert (Hbi' : bin i ∈ c :: bin i :: B i) by (right; by left).
    destruct (HR j Hj) as [HL'|[E H0]]; [left|right].
    + do 4 (eapply (ring_other st m C B D Hb Hbn); [done|by apply Hnd|by apply Hnot|]). done.
    + split; [done|]. assert (Nj : is_node st C (bin j)) by (right; by exists j).
      assert (Hsp : forall z, z ∈ c :: bin i :: B i -> z + 24 <> bin j + 16 /\ z + 16 <> bin j + 16).
      { intros z Hz. split; intros E'.
        - assert (Hs2 : separate [bin j; z]); [|apply (Hs2 (bin j) z); [by left|right; by left|done]].
          apply (nodes_separate st m C D _ Hb). intros w [->|[->|Hw%elem_of_nil]%elem_of_cons]%elem_of_cons; [done|by apply Hnd|done].
        - apply (Hnot z Hz). replace z with (bin j) by lia. by left. }
      unfold put_mem. do 4 (rewrite lookup_insert_ne by (first [apply (Hsp tail Ht) | apply (Hsp (bin i) Hbi') | apply (Hsp c Hci')])). done.
Qed.

Lemma put_tail_cases : tail = bin i \/ (exists y, C !! tail = Some y /\ c_inuse y = false).
Proof.
  pose proof (before_end_in (bin i) (B i)) as [|Hin]%elem_of_cons; [by left|right].
  destruct (bn_bin _ _ Hbn i _ put_i Hin) as (y & Hy & Hyu & _). by exists y.
Qed.

Lemma put_headers b : headers (put_mem b) C'.
Proof.
  pose proof put_tail as Ht. destruct (put_nodes tail Ht) as (Kt & _). destruct (put_nodes c ltac:(by left)) as (Kc16 & Kc24 & _).
  destruct (put_nodes (bin i) ltac:(right; by left)) as (_ & Kb & _). pose proof put_base as Hb'.
  assert (Hk : forall a, is_free_link st C' a -> ~ is_header C' a).
  { intros a Hl%(free_link_link _ _ _ _ Hb') Ha. by apply (header_not_link _ _ _ _ Hb' a). }
  do 4 (apply headers_store; [by apply Hk|]). pose proof (mark_headers st m C D Hb c k kn Hc Hs Hn (<[st := b]> m) false) as Hmk. cbn [b2z] in Hmk. rewrite Z.add_0_r in Hmk. apply Hmk.
  apply headers_store; [|apply (hp_headers _ _ _ _ _ Hh)]. intros Hx. apply (header_not_scalar _ _ _ _ Hb st); [done|by left].
Qed.

Lemma put_heap b : 0 <= b < 2 ^ 64 -> (forall j, 0 <= j < 64 -> Z.testbit b j = negb (bool_decide (B' j = []))) ->
  heap (put_mem b) C' B' D.
Proof.
  intros Hbr Hbits. pose proof put_tail as Ht. destruct (put_nodes tail Ht) as (Kt & _). destruct (put_nodes c ltac:(by left)) as (Kc16 & Kc24 & _).
  destruct (put_nodes (bin i) ltac:(right; by left)) as (_ & Kb & _). pose proof put_base as Hb'.
  destruct (sc_binmap _ _ _ _ (hp_scalars _ _ _ _ _ Hh)) as (b0 & Hbm & _).
  assert (Hk : forall a, is_free_link st C' a -> ~ is_area_header D a /\ ~ is_scalar st a).
  { intros a Hl%(free_link_link _ _ _ _ Hb'). split; [by apply (link_not_area _ _ _ _ Hb')|by apply (link_not_scalar _ _ _ _ Hb')]. }
  assert (Hk2 : forall a, is_header C a -> ~ is_area_header D a /\ ~ is_scalar st a).
  { intros a Hl. split; [by apply (header_not_area _ _ _ _ Hb)|by apply (header_not_scalar _ _ _ _ Hb)]. }
  assert (I1 : is_header C (c + 8)) by (exists c, k; auto). assert (I2 : is_header C (c + s)) by (exists (c + s), kn; auto).
  split.
  - apply (base_ext st m); [|apply put_base]. intros a Ha. unfold put_mem. rewrite !lookup_insert_is_Some'. auto 20.
  - apply put_headers.
  - do 4 (apply areas_store; [by apply Hk|]). do 2 (apply areas_store; [by apply Hk2|]). apply areas_store; [|apply (hp_areas _ _ _ _ _ Hh)].
    apply (scalar_not_area _ _ _ _ Hb). by left.
  - apply put_rings.
  - apply put_binned.
  - apply (scalars_change st _ C); [by apply (mark_sentinel st m C D Hb)|].
    do 4 (apply scalars_store; [by apply Hk|]). do 2 (apply scalars_store; [by apply Hk2|]).
    destruct (hp_scalars _ _ _ _ _ Hh) as [_ S2 S3 S4]. split; [exists b; by rewrite lookup_insert_eq|by rewrite lookup_insert_ne by lia..].
Qed.

Lemma put_mem_frame b H : frame (State m C D (c :: H)) (State (put_mem b) C' D H).
Proof.
  pose proof (chunk_arith C c k Hly Hc Hs) as Har. pose proof put_i as Hi.
  assert (I1 : is_own st C D (c + 8)) by (left; exists c, k; auto).
  assert (I2 : is_own st C D (c + s)) by (left; exists (c + s), kn; auto).
  assert (I3 : is_own st C D st) by (right; right; left; by left).
  assert (I4 : is_own st C D (bin i + 24)) by (right; left; apply bin_links_free; auto).
  assert (I5 : is_own st C D (tail + 16)).
  { right. left. destruct put_tail_cases as [-> |(y & Hy & Hyu)]; [apply bin_links_free; auto|left; exists tail, y; auto]. }
  apply (frame_comp st _ (State (put_mem b) C D (c :: H))).
  - do 2 (apply frame_store; [by apply (own_not_user st m)|]).
    do 2 (apply frame_store; [apply (held_not_user st m C D (c :: H) c k); try done; [by left|lia]|]).
    do 3 (apply frame_store; [by apply (own_not_user st m)|]). apply frame_id.
  - by apply (put_frame st m C D Hb).
Qed.

(** [free_insert] *)
Lemma put_binmap b : (forall j, 0 <= j < 64 -> Z.testbit b j = negb (bool_decide (B j = []))) -> 0 <= b < 2 ^ 64 ->
  0 <= b .| (1 << i) < 2 ^ 64 /\ (b & (1 << i) <> 0 -> b .| (1 << i) = b) /\
  forall j, 0 <= j < 64 -> Z.testbit (b .| (1 << i)) j = negb (bool_decide (B' j = [])).
Proof.
  intros Hbits Hbr. pose proof put_i as Hi. assert (Eb : 1 << i = 2 ^ i) by by rewrite Z.shiftl_mul_pow2, Z.mul_1_l by lia.
  assert (Hpow : 0 <= 2 ^ i < 2 ^ 64) by (split; [lia|apply Z.pow_lt_mono_r; lia]). rewrite Eb. split; [|split].
  - by apply lor_range.
  - intros Hz. apply Z.bits_inj'. intros j Hj. rewrite Z.lor_spec, Z.pow2_bits_eqb by lia. destruct (Z.eqb_spec i j) as [<-|]; [|by rewrite orb_false_r].
    rewrite orb_true_r. destruct (Z.testbit b i) eqn:E; [done|]. exfalso. apply Hz. apply Z.bits_inj'. intros l Hl.
    rewrite Z.land_spec, Z.pow2_bits_eqb, Z.bits_0 by lia. destruct (Z.eqb_spec i l) as [<-|]; [by rewrite E|apply andb_false_r].
  - intros j Hj. rewrite Z.lor_spec, Z.pow2_bits_eqb by lia. destruct (Z.eqb_spec i j) as [<-|].
    + rewrite orb_true_r, upd_same, bool_decide_eq_false_2; [done|]. intros [_ ?]%app_eq_nil. done.
    + rewrite orb_false_r, upd_other by done. by apply Hbits.
Qed.

Lemma wp_free_insert Q :
  (forall m', heap m' C' B' D -> (forall H, frame (State m C D (c :: H)) (State m' C' D H)) -> Q tt m') -> wp (free_insert st c (c + s) s i) m Q.
Proof.
  intros HQ. pose proof put_i as Hi. pose proof (chunk_arith C c k Hly Hc Hs) as Har.
  destruct (sc_binmap _ _ _ _ (hp_scalars _ _ _ _ _ Hh)) as (b & Hbm & Hbr & Hbits). destruct (put_binmap b Hbits Hbr) as (Hbr' & Hbi & Hbits').
  pose proof (put_heap _ Hbr' Hbits') as Hh'. pose proof (put_mem_frame (b .| (1 << i))) as Hf. unfold put_mem in *. set (b' := b .| (1 << i)) in *.
  destruct (put_nodes tail put_tail) as (_ & _ & Nt & Rt & St & _). destruct (put_nodes c ltac:(by left)) as (_ & _ & Nc & _ & Sc16 & Sc24).
  destruct (put_nodes (bin i) ltac:(right; by left)) as (_ & _ & Nb & Rb & _ & Sb).
  assert (Hsep : separate [c; bin i; tail]).
  { apply (nodes_separate st m C D _ Hb). intros z Hz. rewrite !elem_of_cons in Hz. by destruct Hz as [->|[->|[->|?%elem_of_nil]]]. }
  pose proof (Hsep c (bin i) ltac:(by left) ltac:(right; by left)) as N1.
  assert (Hbl : is_free_link st C (bin i + 24)) by (apply bin_links_free; auto).
  destruct (free_link_kinds st m C D _ Hb Hbl) as (Hbh & _ & Hbs & _).
  assert (N2 : st <> bin i + 24) by (unfold BIN_TO_CHUNK; lia).
  assert (N3 : c + 8 <> bin i + 24) by (intros E; apply Hbh; rewrite <- E; exists c, k; auto).
  assert (N4 : c + s <> bin i + 24) by (intros E; apply Hbh; rewrite <- E; exists (c + s), kn; auto).
  pose proof (links_last _ _ _ _ HL) as Htail. pose proof (Hsep c c ltac:(by left) ltac:(by left)) as N5.
  assert (Sc8 : is_Some (m !! (c + 8))) by (rewrite (proj2 (hp_headers _ _ _ _ _ Hh c k Hc)); by eexists).
  assert (Scs : is_Some (m !! (c + s))) by (rewrite (proj1 (hp_headers _ _ _ _ _ Hh _ _ Hn)); by eexists).
  assert (Sst : is_Some (m !! st)) by by eexists.
  unfold free_insert, binmap, csize, psize, next, prev. apply wp_bind, (wp_load _ _ b); [done|]. apply wp_bind.
  apply (wp_mono _ _ (fun _ m1 => m1 = <[st := b']> m)).
  { destruct (Z.eqb_spec (b & (1 << i)) 0) as [E|E]; [by apply wp_store|]. apply wp_ret. by rewrite (Hbi E), insert_id. }
  intros _ m1 ->. apply wp_bind, wp_store; [rewrite !lookup_insert_is_Some'; auto|lia|]. apply wp_bind, wp_store; [rewrite !lookup_insert_is_Some'; auto|lia|].
  apply wp_bind, wp_store; [rewrite !lookup_insert_is_Some'; auto|done|].
  apply wp_bind, (wp_load _ _ tail); [by rewrite !lookup_insert_ne by done|]. apply wp_bind, wp_store; [rewrite !lookup_insert_is_Some'; auto 10|done|].
  apply wp_bind, (wp_load _ _ (bin i)); [rewrite lookup_insert_ne by lia; by rewrite lookup_insert_eq|].
  apply wp_bind, wp_store; [rewrite !lookup_insert_is_Some'; auto 10|lia|].
  apply wp_bind, (wp_load _ _ tail).
  { destruct (decide (c + 24 = bin i + 24)) as [E|]; [exfalso|rewrite lookup_insert_ne by done; by rewrite lookup_insert_eq].
    apply (bin_not_chunk st m C D i k Hb Hi). by replace (bin i) with c by lia. }
  apply wp_store; [rewrite !lookup_insert_is_Some'; auto 20|lia|]. by apply HQ.
Qed.
End put.

(** ** The neighbours of a freed chunk *)
Lemma both_inuse_test a b : (Z.land (Z.land a b) C_INUSE =? 0) = negb (Z.odd a && Z.odd b).
Proof.
  unfold C_INUSE. rewrite and_1, Zmod_odd, <- !Z.bit0_odd, Z.land_spec. by destruct (Z.testbit a 0), (Z.testbit b 0).
Qed.

Lemma mod2_odd x : Z.odd x = (x mod 2 =? 1).
Proof. rewrite Zmod_odd. by destruct (Z.odd x). Qed.

Lemma word_odd C c k : layout C -> C !! c = Some k -> Z.odd (c_word k) = c_inuse k.
Proof.
  intros Hly Hc. destruct (word_bit C c k Hly Hc) as [E _]. unfold C_INUSE in E. rewrite and_1, Zmod_odd in E. by destruct (Z.odd (c_word k)), (c_inuse k).
Qed.

(** [s0 H]: the state at the start, with the blocks of [H] held besides the freed one. *)
Section merging.
Context (s0 : list Z -> state).

(** The chunk [self] and all up to [nx] is to become one chunk. *)
Definition whole (C : chunks) (self nx fs : Z) (reclaim : bool) : Prop := exists k kn,
  C !! self = Some k /\ c_size k = fs /\ fs <> 0 /\ c_inuse k = true /\ c_psize k mod 2 = 1 /\ nx = self + fs /\
  C !! nx = Some kn /\ c_inuse kn = true /\ (reclaim = true -> RECLAIM < fs).

Definition whole_mem (self nx fs : Z) m : mem := <[nx := fs + 1]> (<[self + 8 := fs + 1]> m).

Definition ready D (x : Z * Z * Z * bool) m : Prop := let '(self, nx, fs, reclaim) := x in exists C B,
  whole C self nx fs reclaim /\ heap (whole_mem self nx fs m) C B D /\ is_Some (m !! (self + 8)) /\ is_Some (m !! nx) /\
  forall H, frame (s0 H) (State (whole_mem self nx fs m) C D (self :: H)).

Definition finished D (x : Z * Z * Z * bool * Z) m : Prop := let '(self, nx, fs, reclaim, i) := x in exists C B,
  whole C self nx fs reclaim /\ heap m C B D /\ i = bin_index fs /\ links m (bin i) (B i) (bin i) /\ forall H, frame (s0 H) (State m C D (self :: H)).

Lemma wp_free_step_ready D ns x m : ready D x m ->
  wp (free_step st ns x) m (fun r m' => match r with inl _ => False | inr x => finished D x m' end).
Proof.
  destruct x as [[[self nx] fs] rc]. intros (C & B & Hw & Hh & S1 & S2 & Hf). pose proof Hw as (k & kn & Hc & Hsz & H0 & Hu & Hp & Hnx & Hn & Hun & _).
  pose proof (hp_base _ _ _ _ _ Hh) as Hb. pose proof (bs_layout _ _ _ _ Hb) as Hly.
  assert (Hs : c_size k <> 0) by lia. pose proof (chunk_arith C self k Hly Hc Hs) as Har. rewrite Hsz in Har.
  destruct (hp_headers _ _ _ _ _ Hh self k Hc) as [E1 _]. destruct (hp_headers _ _ _ _ _ Hh nx kn Hn) as [_ E2].
  assert (L1 : m !! self = Some (c_psize k)) by (unfold whole_mem in E1; by rewrite !lookup_insert_ne in E1 by lia).
  assert (L2 : m !! (nx + 8) = Some (c_word kn)) by (unfold whole_mem in E2; by rewrite !lookup_insert_ne in E2 by lia).
  unfold free_step, psize, csize. apply wp_bind, (wp_load _ _ (c_psize k)); [done|]. apply wp_bind, (wp_load _ _ (c_word kn)); [done|].
  rewrite both_inuse_test, mod2_odd, Hp, (word_odd C nx kn), Hun by done. cbn [Z.eqb Pos.eqb andb negb].
  assert (Hor : fs .| C_INUSE = fs + 1) by (apply or_1; mlia). rewrite Hor.
  apply wp_bind, wp_bind, wp_store; [done|lia|]. apply wp_bind, wp_store; [rewrite !lookup_insert_is_Some'; auto|lia|].
  apply wp_bind, (wp_lock_bin st _ C B D); [done|apply bin_index_range; lia|]. intros m' Hh' HL Hf'.
  destruct (hp_headers _ _ _ _ _ Hh' self k Hc) as [E3 _]. destruct (hp_headers _ _ _ _ _ Hh' nx kn Hn) as [_ E4].
  apply wp_bind, (wp_load _ _ (c_psize k)); [done|]. apply wp_bind, (wp_load _ _ (c_word kn)); [done|].
  rewrite both_inuse_test, mod2_odd, Hp, (word_odd C nx kn), Hun by done. cbn [Z.eqb Pos.eqb andb negb]. apply wp_ret, wp_ret.
  exists C, B. split_and!; try done. intros H. eapply frame_comp; [apply Hf|apply Hf'].
Qed.

(** The words inside the whole do not matter. *)
Lemma ready_ext D self nx fs rc m m' : ready D (self, nx, fs, rc) m' -> (forall a, is_Some (m' !! a) -> is_Some (m !! a)) ->
  (forall a, a <> self + 8 -> ~ (self + 16 <= a < self + fs) -> m !! a = m' !! a) -> ready D (self, nx, fs, rc) m.
Proof.
  intros (C & B & Hw & Hh & S1 & S2 & Hf) Hm He. pose proof Hw as (k & kn & Hc & Hsz & H0 & Hu & Hp & Hnx & Hn & Hun & _).
  pose proof (hp_base _ _ _ _ _ Hh) as Hb.
  assert (E : forall a, ~ (self + 16 <= a < self + fs) -> whole_mem self nx fs m !! a = whole_mem self nx fs m' !! a).
  { intros a Ha. unfold whole_mem. destruct (decide (a = nx)) as [->|]; [by rewrite !lookup_insert_eq|]. rewrite !(lookup_insert_ne _ nx) by done.
    destruct (decide (a = self + 8)) as [->|]; [by rewrite !lookup_insert_eq|]. rewrite !lookup_insert_ne by done. by apply He. }
  exists C, B. split; [done|]. split; [|split_and!; auto].
  - apply (heap_words_ext st (whole_mem self nx fs m')); [| |done].
    + intros a. unfold whole_mem. rewrite !lookup_insert_is_Some'. specialize (Hm a). tauto.
    + intros a Ha. apply E. intros Hr. apply (own_not_user st _ C D [] a Hb Ha). left. exists self, k. split_and!; try done; [apply not_elem_of_nil|lia..].
  - intros H. apply (frame_ext st (whole_mem self nx fs m')); [|done]. intros a Ha. apply E. intros Hr.
    apply (held_not_user st _ C D (self :: H) self k a Hb Hc); [by left|lia|done].
Qed.

(** Two chunks become the whole; [Hm] is what is held, [Hx] what was a chunk before. *)
Lemma ready_merge m C B D (Hm : list Z -> list Z) (Hx : list Z) c k k2 kn nx fs rc : heap m C B D -> C !! c = Some k -> c_size k <> 0 -> C !! (c + c_size k) = Some k2 -> c_size k2 <> 0 ->
  C !! (c + c_size k + c_size k2) = Some kn -> c_inuse k = true -> c_inuse k2 = true -> c_inuse kn = true -> c_psize k mod 2 = 1 ->
  nx = c + c_size k + c_size k2 -> fs = c_size k + c_size k2 -> (rc = true -> RECLAIM < fs) ->
  (forall H x, x ∈ Hm H <-> x = c \/ x = c + c_size k \/ x ∈ Hx \/ x ∈ H) -> (forall x, x ∈ Hx -> C !! x = None /\ D !! x = None) ->
  (forall H, frame (s0 H) (State m C D (Hm H))) -> ready D (c, nx, fs, rc) m.
Proof.
  intros Hh Hc Hs H2 Hs2 Hn Hu Hu2 Hun Hp -> -> Hrc HHm HHx Hf.
  pose proof (hp_base _ _ _ _ _ Hh) as Hb. pose proof (bs_layout _ _ _ _ Hb) as Hly.
  pose proof (chunk_arith C c k Hly Hc Hs). pose proof (merge_arith C c k Hly k2 H2 Hs2).
  pose proof (lookup_merge C c k kn Hly Hc Hs k2 H2 Hs2 Hn) as Hlk.
  exists (merge c k k2 kn C), B. split; [|split; [|split; [|split]]].
  - eexists _, _. split; [apply Hlk; by left|]. cbn. split_and!; [done|lia|done|done|lia|apply Hlk; right; by left|done|done].
  - by apply (merge_heap st m C B D Hh c k k2 kn).
  - rewrite (proj2 (hp_headers _ _ _ _ _ Hh c k Hc)). by eexists.
  - rewrite (proj1 (hp_headers _ _ _ _ _ Hh _ kn Hn)). by eexists.
  - intros H'. apply (frame_tidy st _ _ _ (Hm H')).
    + intros x. rewrite HHm, elem_of_cons. split; [|tauto]. intros [->|[->|[Hin|Hin]]]; [by left; left| | |left; by right].
      * right. split; [tauto|]. split; [|by eapply (chunk_not_area st m C D)]. destruct (merge c k k2 kn C !! (c + c_size k)) as [y|] eqn:E; [exfalso|done].
        apply Hlk in E as [[? _]|[[? _]|(_ & ? & _)]]; [lia|lia|done].
      * right. split; [tauto|]. destruct (HHx x Hin) as [E1 E2]. split; [|done]. destruct (merge c k k2 kn C !! x) as [y|] eqn:E; [exfalso|done].
        apply Hlk in E as [[-> _]|[[-> _]|(_ & _ & _ & ?)]]; congruence.
    + apply (frame_comp st _ _ _ (Hf H')). apply (merge_frame st m C B D Hh c k k2 kn); try done; apply HHm; tauto.
Qed.

(** No two free chunks are adjacent. *)
Lemma free_neighbours C c k : layout C -> C !! c = Some k -> c_size k <> 0 -> c_inuse k = false ->
  c_psize k mod 2 = 1 /\ exists kn, C !! (c + c_size k) = Some kn /\ c_inuse kn = true.
Proof.
  intros Hly Hc Hs Hu. split.
  - destruct (Z.eq_dec (c_psize k mod 2) 0) as [E|]; [|mlia]. destruct (layout_prev_free C c k Hly Hc E) as (k' & Hk' & Hsz & H0 & Hu').
    destruct (ly_next _ Hly _ k' Hk') as (k3 & Hk3 & _ & Hi); [lia|]. rewrite Hsz in Hk3. replace (c - c_psize k + c_psize k) with c in Hk3 by lia.
    assert (k3 = k) as -> by congruence. rewrite Hu, Hu' in Hi. done.
  - destruct (ly_next _ Hly c k Hc Hs) as (kn & Hn & _ & Hi). exists kn. split; [done|]. by rewrite Hu in Hi.
Qed.

Lemma layout_psize C c k : layout C -> C !! c = Some k -> c_psize k mod 2 = 0 \/ c_psize k mod 2 = 1.
Proof. intros _ _. mlia. Qed.

(** The whole is the chunk itself if both neighbours are in use. *)
Lemma ready_alone m C B D c k kn rc : heap m C B D -> C !! c = Some k -> c_size k <> 0 -> C !! (c + c_size k) = Some kn ->
  c_inuse k = true -> c_inuse kn = true -> c_psize k mod 2 = 1 -> (rc = true -> RECLAIM < c_size k) -> (forall H, frame (s0 H) (State m C D (c :: H))) ->
  ready D (c, c + c_size k, c_size k, rc) m.
Proof.
  intros Hh Hc Hs Hn Hu Hun Hp Hrc Hf. pose proof (bs_layout _ _ _ _ (hp_base _ _ _ _ _ Hh)) as Hly.
  destruct (hp_headers _ _ _ _ _ Hh c k Hc) as [_ E1]. destruct (hp_headers _ _ _ _ _ Hh _ kn Hn) as [E2 _]. rewrite (inuse_word k Hu) in E1.
  destruct (ly_next _ Hly c k Hc Hs) as (k2 & Hk2 & Ep & _). assert (k2 = kn) as -> by congruence. rewrite Ep, (inuse_word k Hu) in E2.
  assert (Em : whole_mem c (c + c_size k) (c_size k) m = m) by (unfold whole_mem; by rewrite !insert_id by (rewrite ?insert_id by done; done)).
  exists C, B. rewrite Em. split_and!; [|done|by eexists|by eexists|done]. exists k, kn. split_and!; try done.
Qed.

Lemma reclaims_large ns size rc fs : (rc = true -> RECLAIM < fs) -> ns <= fs -> 0 <= size -> rc || reclaims ns size = true -> RECLAIM < fs + size.
Proof. unfold reclaims. intros Hrc Hle H0 [Hr|[Hr _]%andb_prop]%orb_prop; [specialize (Hrc Hr); lia|lia]. Qed.

Section start.
Context (m : mem) (C : chunks) (B : Z -> list Z) (D : areas) (c : Z) (k kn : chunk) (Hfuel : (1 <= fuel)%nat).
Context (Hh : heap m C B D) (Hc : C !! c = Some k) (Hs : c_size k <> 0) (Hu : c_inuse k = true) (Hn : C !! (c + c_size k) = Some kn).
Let Hb : base m C D := hp_base _ _ _ _ _ Hh.
Let Hly : layout C := bs_layout _ _ _ _ Hb.

(** The next chunk is free: it is taken. *)
Lemma wp_free_fwd_taken ns fs rc (Q : Z * Z * bool -> mem -> Prop) : c_inuse kn = false ->
  (forall kx m' B', C !! (c + c_size k + c_size kn) = Some kx -> c_inuse kx = true -> heap m' (mark true (c + c_size k) kn kx C) B' D ->
    (forall H, frame (State m C D H) (State m' (mark true (c + c_size k) kn kx C) D (c + c_size k :: H))) ->
    Q (c + c_size k + c_size kn, fs + c_size kn, rc || reclaims ns (c_size kn)) m') ->
  wp (free_fwd st ns (c + c_size k) fs rc) m Q.
Proof.
  intros Hun HQ. pose proof (free_size st m C D Hb _ kn Hn Hun) as Hsn. destruct (free_neighbours C _ kn Hly Hn Hsn Hun) as (_ & kx & Hx & Hux).
  apply wp_bind, (wp_alloc_fwd st m C B D _ kn); [done|done|done|congruence|]. intros kx' m' B' _ Hx' Hh' Hf'. assert (kx' = kx) as -> by congruence.
  assert (Hc' : mark true (c + c_size k) kn kx C !! (c + c_size k) = Some (Chunk (c_psize kn) (c_size kn) true)) by (apply lookup_mark; auto).
  apply wp_bind, (wp_CHUNK_SIZE st _ _ _ _ _ _ _ Hh' Hc'), wp_bind, (wp_NEXT_CHUNK st _ _ _ _ _ _ _ Hh' Hc'), wp_ret. by apply (HQ kx m' B').
Qed.

(** The one before is free: it is taken. *)
Lemma wp_free_rev_taken ns fs rc (Q : Z * Z * bool -> mem -> Prop) : c_psize k mod 2 = 0 ->
  (forall c' k' m' B', C !! c' = Some k' -> c_size k' <> 0 -> c_inuse k' = false -> c' + c_size k' = c -> c_psize k' mod 2 = 1 ->
    heap m' (mark true c' k' k C) B' D -> (forall H, frame (State m C D H) (State m' (mark true c' k' k C) D (c' :: H))) ->
    Q (c', fs + c_size k', rc || reclaims ns (c_size k')) m') ->
  wp (free_rev st ns c fs rc) m Q.
Proof.
  intros Hp HQ. apply wp_bind, (wp_alloc_rev st m C B D _ k); [done|done|done|lia|]. intros c' k' m' B' Hc' Hu' Ec Ep Hh' Hf'.
  pose proof (free_size st m C D Hb _ k' Hc' Hu') as Hs'. destruct (free_neighbours C _ k' Hly Hc' Hs' Hu') as (Hp' & _).
  assert (Hn' : C !! (c' + c_size k') = Some k) by by rewrite Ec.
  assert (L1 : mark true c' k' k C !! c' = Some (Chunk (c_psize k') (c_size k') true)) by (apply lookup_mark; auto).
  assert (L2 : mark true c' k' k C !! c = Some (Chunk (c_size k' + 1) (c_size k) (c_inuse k))) by (apply lookup_mark; auto).
  apply wp_bind. apply (wp_PREV_CHUNK st _ _ _ _ c _ c' _ _ Hh' L2 L1); [done|done|].
  apply wp_bind, (wp_CHUNK_SIZE st _ _ _ _ _ _ _ Hh' L1), wp_ret. by apply (HQ c' k' m' B').
Qed.

Lemma wp_free_fwd_none ns fs rc (Q : Z * Z * bool -> mem -> Prop) : c_inuse kn = true -> Q (c + c_size k, fs, rc) m ->
  wp (free_fwd st ns (c + c_size k) fs rc) m Q.
Proof.
  intros Hun HQ. apply wp_bind, (wp_alloc_fwd st m C B D _ kn); [done|done|done|intros _; by apply wp_ret|congruence].
Qed.

Lemma wp_free_rev_none ns fs rc (Q : Z * Z * bool -> mem -> Prop) : c_psize k mod 2 = 1 -> Q (c, fs, rc) m -> wp (free_rev st ns c fs rc) m Q.
Proof.
  intros Hp HQ. apply wp_bind, (wp_alloc_rev st m C B D _ k); [done|done|done|intros _; by apply wp_ret|]. intros c' k' m' B' Hc' Hu' _ Ep.
  pose proof (ly_arith _ Hly _ _ Hc') as (_ & ? & _). rewrite Ep in Hp. mlia.
Qed.
End start.

Section step.
Context (m : mem) (C : chunks) (B : Z -> list Z) (D : areas) (c : Z) (k kn : chunk) (Hfuel : (1 <= fuel)%nat).
Context (Hh : heap m C B D) (Hc : C !! c = Some k) (Hs : c_size k <> 0) (Hu : c_inuse k = true) (Hn : C !! (c + c_size k) = Some kn).
Context (Hf : forall H, frame (s0 H) (State m C D (c :: H))).
Let Hb : base m C D := hp_base _ _ _ _ _ Hh.
Let Hly : layout C := bs_layout _ _ _ _ Hb.
Abbreviation step_ok := (fun r m' => match r with inl x => ready D x m' | inr x => finished D x m' end).

(** Only the next one is free. *)
Lemma step_next kx m' B' : c_psize k mod 2 = 1 -> C !! (c + c_size k + c_size kn) = Some kx -> c_inuse kx = true -> c_size kn <> 0 ->
  heap m' (mark true (c + c_size k) kn kx C) B' D ->
  (forall H, frame (State m C D H) (State m' (mark true (c + c_size k) kn kx C) D (c + c_size k :: H))) ->
  ready D (c, c + c_size k + c_size kn, c_size k + c_size kn, false || reclaims (c_size k) (c_size kn)) m'.
Proof.
  intros Hp Hx Hux Hsn Hh' Hf'. pose proof (chunk_arith C c k Hly Hc Hs). pose proof (chunk_arith C _ kn Hly Hn Hsn).
  eapply (ready_merge m' _ B' D (fun H => c + c_size k :: c :: H) [] c k (Chunk (c_psize kn) (c_size kn) true) (Chunk (c_size kn + 1) (c_size kx) (c_inuse kx))); cbn; try done.
  - apply lookup_mark; try done. do 2 right. split; [lia|]. split; [lia|done].
  - apply lookup_mark; try done. by left.
  - apply lookup_mark; try done. right. by left.
  - intros Hr. apply (reclaims_large (c_size k) (c_size kn) false (c_size k)); [done|lia|lia|done].
  - intros H' x. rewrite !elem_of_cons, elem_of_nil. tauto.
  - by intros x ?%elem_of_nil.
  - intros H'. eapply frame_comp; [apply Hf|apply Hf'].
Qed.

(** Only the one before is free. *)
Lemma step_prev c' k' m' B' : C !! c' = Some k' -> c_size k' <> 0 -> c_inuse k' = false -> c' + c_size k' = c -> c_psize k' mod 2 = 1 -> c_inuse kn = true ->
  heap m' (mark true c' k' k C) B' D -> (forall H, frame (State m C D H) (State m' (mark true c' k' k C) D (c' :: H))) ->
  ready D (c', c + c_size k, c_size k + c_size k', false || reclaims (c_size k) (c_size k')) m'.
Proof.
  intros Hc' Hs' Hu' Ec Hp' Hun Hh' Hf'. pose proof (chunk_arith C c k Hly Hc Hs). pose proof (chunk_arith C _ k' Hly Hc' Hs').
  assert (Hn' : C !! (c' + c_size k') = Some k) by by rewrite Ec.
  eapply (ready_merge m' _ B' D (fun H => c' :: c :: H) [] c' (Chunk (c_psize k') (c_size k') true) (Chunk (c_size k' + 1) (c_size k) (c_inuse k)) kn); cbn; try done.
  - apply lookup_mark; try done. by left.
  - apply lookup_mark; try done. right. by left.
  - apply lookup_mark; try done. do 2 right. split; [lia|]. split; [lia|]. by rewrite Ec.
  - lia.
  - lia.
  - intros Hr. apply (reclaims_large (c_size k) (c_size k') false (c_size k)); [done|lia|lia|done].
  - intros H' x. rewrite Ec, !elem_of_cons, elem_of_nil. tauto.
  - by intros x ?%elem_of_nil.
  - intros H'. eapply frame_comp; [apply Hf|apply Hf'].
Qed.

(** Both are free. *)
Lemma step_both c' k' m1 B1 : C !! c' = Some k' -> c_size k' <> 0 -> c_inuse k' = false -> c' + c_size k' = c -> c_psize k' mod 2 = 1 -> c_inuse kn = false ->
  heap m1 (mark true c' k' k C) B1 D -> (forall H, frame (State m C D H) (State m1 (mark true c' k' k C) D (c' :: H))) ->
  forall rc, (rc = true -> RECLAIM < c_size k + c_size k') ->
  wp (free_fwd st (c_size k) (c + c_size k) (c_size k + c_size k') rc) m1 (fun '(nx, fs, rc) m2 => ready D (c', nx, fs, rc) m2).
Proof.
  intros Hc' Hs' Hu' Ec Hp' Hun Hh1 Hf1 rc Hrc. pose proof (chunk_arith C c k Hly Hc Hs). pose proof (chunk_arith C _ k' Hly Hc' Hs').
  pose proof (free_size st m C D Hb _ kn Hn Hun) as Hsn. pose proof (chunk_arith C _ kn Hly Hn Hsn).
  assert (Hn' : C !! (c' + c_size k') = Some k) by by rewrite Ec.
  pose proof (lookup_mark C c' k' k Hly Hc' Hs' Hn' true) as Lk. set (C1 := mark true c' k' k C) in *.
  set (k1 := Chunk (c_size k' + 1) (c_size k) (c_inuse k)). set (kp := Chunk (c_psize k') (c_size k') true).
  assert (L0 : C1 !! c' = Some kp) by (apply Lk; by left). assert (L1 : C1 !! c = Some k1) by (apply Lk; right; left; split; [lia|done]).
  assert (Ln : C1 !! (c + c_size k1) = Some kn) by (apply Lk; do 2 right; cbn; split; [lia|split; [lia|done]]).
  pose proof (bs_layout _ _ _ _ (hp_base _ _ _ _ _ Hh1)) as Hly1.
  apply (wp_free_fwd_taken m1 C1 B1 D c k1 kn Hfuel Hh1); [done|done|]. intros kx m2 B2 Lx Hux Hh2 Hf2. cbn in Lx.
  pose proof (lookup_mark C1 _ kn kx Hly1 Ln Hsn Lx true) as Lk2. set (C2 := mark true (c + c_size k1) kn kx C1) in *. cbn [c_size k1] in Lk2.
  set (kq := Chunk (c_psize kn) (c_size kn) true) in *. set (kx' := Chunk (c_size kn + 1) (c_size kx) (c_inuse kx)).
  assert (M0 : C2 !! c' = Some kp) by (apply Lk2; do 2 right; split; [lia|split; [lia|done]]).
  assert (M1 : C2 !! (c' + c_size kp) = Some k1) by (apply Lk2; do 2 right; cbn; rewrite Ec; split; [lia|split; [lia|done]]).
  assert (Mq : C2 !! (c' + c_size kp + c_size k1) = Some kq) by (apply Lk2; left; cbn; split; [lia|done]).
  assert (Mx : C2 !! (c + c_size k + c_size kn) = Some kx') by (apply Lk2; right; left; done).
  pose proof (bs_layout _ _ _ _ (hp_base _ _ _ _ _ Hh2)) as Hly2.
  pose proof (lookup_merge C2 c' kp kq Hly2 M0 Hs' k1 M1 Hs Mq) as Lk3.
  pose proof (merge_heap st m2 C2 B2 D Hh2 c' kp k1 kq M0 Hs' M1 Hs Mq eq_refl Hu) as Hh3.
  assert (Hf3 : forall H, frame (s0 H) (State m2 C2 D (c + c_size k :: c' :: c :: H))).
  { intros H'. eapply frame_comp; [apply Hf|]. eapply frame_comp; [apply Hf1|]. apply Hf2. }
  assert (Hf4 : forall H, frame (s0 H) (State (merge_mem c' kp k1 m2) (merge c' kp k1 kq C2) D (c + c_size k :: c' :: c :: H))).
  { intros H'. eapply frame_comp; [apply Hf3|]. apply (merge_frame st m2 C2 B2 D Hh2 c' kp k1 kq); try done; cbn; rewrite ?Ec, !elem_of_cons; auto. }
  set (C3 := merge c' kp k1 kq C2) in *. cbn [c_size kp k1 kq c_psize c_inuse] in Lk3.
  apply (ready_ext D _ _ _ _ _ (merge_mem c' kp k1 m2)).
  - apply (ready_merge (merge_mem c' kp k1 m2) C3 B2 D (fun H => c + c_size k :: c' :: c :: H) [c] c' (Chunk (c_psize k') (c_size k' + c_size k) true)
      (Chunk (c_size k' + c_size k + 1) (c_size kn) true) kx'); cbn; try done; try lia.
    + apply Lk3. by left.
    + apply Lk3. right. left. split; [lia|done].
    + apply Lk3. do 2 right. split; [lia|]. split; [lia|]. split; [lia|]. rewrite <- Mx. f_equal. lia.
    + intros Hr. by apply (reclaims_large (c_size k) _ rc); [|lia|lia|].
    + intros H' x. rewrite !elem_of_cons, elem_of_nil. replace (c' + (c_size k' + c_size k)) with (c + c_size k) by lia. tauto.
    + intros x ->%list_elem_of_singleton. split; [|by eapply (chunk_not_area st m C D _ _ Hb)].
      destruct (C3 !! c) as [y|] eqn:E; [exfalso|done]. apply Lk3 in E as [[? _]|[[? _]|(? & ? & _)]]; lia.
  - intros a. unfold merge_mem. rewrite !lookup_insert_is_Some'. intros [<-|[<-|]]; [| |done].
    + rewrite (proj1 (hp_headers _ _ _ _ _ Hh2 _ _ Mq)). by eexists.
    + rewrite (proj2 (hp_headers _ _ _ _ _ Hh2 _ _ M0)). by eexists.
  - intros a Ha1 Ha2. unfold merge_mem. cbn. rewrite !lookup_insert_ne by lia. done.
Qed.

Lemma wp_free_step_start :
  wp (free_step st (c_size k) (c, c + c_size k, c_size k, false)) m (fun r m' => match r with inl x => ready D x m' | inr x => finished D x m' end).
Proof.
  destruct (hp_headers _ _ _ _ _ Hh c k Hc) as [E1 _]. destruct (hp_headers _ _ _ _ _ Hh _ kn Hn) as [_ E2].
  destruct (decide (c_psize k mod 2 = 1 /\ c_inuse kn = true)) as [[Hp Hun]|Hno].
  { eapply wp_mono; [apply (wp_free_step_ready D)|by intros [x|x] m' Hx]. eapply (ready_alone m C B D c k kn); try done. }
  unfold free_step, psize, csize. apply wp_bind, (wp_load _ _ (c_psize k)); [done|]. apply wp_bind, (wp_load _ _ (c_word kn)); [done|].
  rewrite both_inuse_test, mod2_odd, (word_odd C _ kn Hly Hn).
  replace (negb (negb ((c_psize k mod 2 =? 1) && c_inuse kn))) with false.
  2: { destruct (Z.eqb_spec (c_psize k mod 2) 1); [|done]. destruct (c_inuse kn); [|done]. exfalso. by apply Hno. }
  apply wp_bind, wp_ret, wp_bind. destruct (layout_psize C c k Hly Hc) as [Hp|Hp].
  - apply (wp_free_rev_taken m C B D c k Hfuel Hh Hc); [done|]. intros c' k' m1 B1 Hc' Hs' Hu' Ec Hp' Hh1 Hf1.
    assert (Hr : false || reclaims (c_size k) (c_size k') = true -> RECLAIM < c_size k + c_size k').
    { pose proof (ly_arith _ Hly _ _ Hc'). pose proof (ly_arith _ Hly _ _ Hc). apply reclaims_large; [done|lia|lia]. }
    apply wp_bind. destruct (c_inuse kn) eqn:Hun.
    + pose proof (chunk_arith C c k Hly Hc Hs). pose proof (chunk_arith C _ k' Hly Hc' Hs').
      assert (Hn' : C !! (c' + c_size k') = Some k) by by rewrite Ec.
      assert (L1 : mark true c' k' k C !! c = Some (Chunk (c_size k' + 1) (c_size k) (c_inuse k))) by (apply lookup_mark; auto).
      apply (wp_free_fwd_none m1 (mark true c' k' k C) B1 D c (Chunk (c_size k' + 1) (c_size k) (c_inuse k)) kn Hfuel Hh1); [|done|].
      * cbn. apply lookup_mark; try done. do 2 right. split; [lia|]. split; [lia|done].
      * apply wp_ret. by apply (step_prev c' k' m1 B1).
    + eapply wp_mono; [by apply (step_both c' k' m1 B1)|]. intros [[nx fs] rc] m2 Hr2. by apply wp_ret.
  - destruct (c_inuse kn) eqn:Hun; [exfalso; by apply Hno|].
    pose proof (free_size st m C D Hb _ kn Hn Hun) as Hsn.
    apply (wp_free_rev_none m C B D c k Hfuel Hh Hc); [done|]. apply wp_bind.
    apply (wp_free_fwd_taken m C B D c k kn Hfuel Hh); [done|done|]. intros kx m' B' Hx Hux Hh' Hf'. apply wp_ret. by apply (step_next kx m' B').
Qed.
End step.
End merging.

(** The loop of [free] ends after two rounds at most. *)
Lemma wp_loop_twice {S R} (body : S -> M (S + R)) s m Q : (2 <= fuel)%nat ->
  wp (body s) m (fun r m' => match r with inl s' => wp (body s') m' (fun r m2 => match r with inl _ => False | inr x => Q x m2 end) | inr x => Q x m' end) ->
  wp (loop body s) m Q.
Proof.
  intros Hf Hw. unfold loop. destruct fuel as [|[|f]]; [lia|lia|]. cbn. apply wp_bind. eapply wp_mono; [exact Hw|]. intros [s'|r] m' H'; [|done].
  apply wp_bind. eapply wp_mono; [exact H'|]. by intros [?|r] m2 H2.
Qed.

Lemma wp_free_merge s0 m C B D c k kn : (2 <= fuel)%nat -> heap m C B D -> C !! c = Some k -> c_size k <> 0 -> c_inuse k = true ->
  C !! (c + c_size k) = Some kn -> (forall H, frame (s0 H) (State m C D (c :: H))) ->
  wp (free_merge st c (c + c_size k) (c_size k)) m (finished s0 D).
Proof.
  intros Hfuel Hh Hc Hs Hu Hn Hf. apply wp_loop_twice; [done|]. eapply wp_mono; [apply (wp_free_step_start s0 m C B D c k kn); try done; lia|].
  intros [x|x] m' H'; [|done]. by apply wp_free_step_ready.
Qed.
End free.
