(* ===== verification/MallocTrim.v ===== *)
(** [free] and [trim] of Malloc.v, with [reclaim_pages] and the loops over words. *)
From S2P Require Import Prelude Mem Links Malloc MallocChunks MallocInv MallocBins MallocHeap MallocFree.

(** ** Rounding to a power of two *)
Lemma land_opp_pow2 n x : 0 <= n -> Z.land x (- 2 ^ n) = x - x mod 2 ^ n.
Proof.
  intros Hn. replace (- 2 ^ n) with (Z.lnot (Z.ones n)) by (rewrite Z.ones_equiv; unfold Z.lnot; lia).
  rewrite <- Z.ldiff_land, Z.ldiff_ones_r, Z.shiftl_mul_pow2, Z.shiftr_div_pow2 by lia.
  pose proof (Z.div_mod x (2 ^ n)) as H. lia.
Qed.

Lemma land_page x : Z.land x (- PAGE_SIZE) = x - x mod 4096.
Proof. apply (land_opp_pow2 12). lia. Qed.

(** ** Words in sequence *)
Section words.
Implicit Types (m : mem).

Lemma wp_store_words l : forall p m (Q : unit -> mem -> Prop), (forall j : nat, (j < length l)%nat -> is_Some (m !! (p + 8 * Z.of_nat j))) ->
  (forall m', (forall a, is_Some (m !! a) -> is_Some (m' !! a)) -> (forall a, ~ (p <= a < p + 8 * Z.of_nat (length l)) -> m' !! a = m !! a) ->
    (forall (j : nat) v, l !! j = Some v -> m' !! (p + 8 * Z.of_nat j) = Some (u64 v)) -> Q tt m') -> wp (store_words p l) m Q.
Proof.
  induction l as [|v l IH]; intros p m Q Hm HQ; cbn [store_words].
  - apply wp_ret. apply HQ; [done|done|]. by intros [|j] v.
  - destruct (Hm 0%nat ltac:(cbn; lia)) as [w Hw]. rewrite Z.add_0_r in Hw. apply wp_bind. unfold wp, store. rewrite Hw.
    apply IH.
    + intros j Hj. rewrite lookup_insert_ne by lia. replace (p + 8 + 8 * Z.of_nat j) with (p + 8 * Z.of_nat (S j)) by lia. apply Hm. cbn. lia.
    + intros m' M1 M2 M3. apply HQ.
      * intros a Ha. apply M1. rewrite lookup_insert_is_Some'. by right.
      * intros a Ha. cbn [length] in Ha. rewrite M2 by lia. apply lookup_insert_ne. lia.
      * intros [|j] v' Hj; cbn in Hj.
        -- injection Hj as <-. rewrite M2 by lia. replace (p + 8 * Z.of_nat 0) with p by lia. apply lookup_insert_eq.
        -- replace (p + 8 * Z.of_nat (S j)) with (p + 8 + 8 * Z.of_nat j) by lia. by apply M3.
Qed.

Lemma wp_load_words n : forall p m (Q : list Z -> mem -> Prop), (forall j : nat, (j < n)%nat -> is_Some (m !! (p + 8 * Z.of_nat j))) ->
  (forall l, length l = n -> (forall j : nat, (j < n)%nat -> l !! j = m !! (p + 8 * Z.of_nat j)) -> Q l m) -> wp (load_words n p) m Q.
Proof.
  induction n as [|n IH]; intros p m Q Hm HQ; cbn [load_words].
  - apply wp_ret. apply HQ; [done|lia].
  - destruct (Hm 0%nat ltac:(lia)) as [w Hw]. rewrite Z.add_0_r in Hw. apply wp_bind, (wp_load _ _ w); [done|]. apply wp_bind, IH.
    + intros j Hj. replace (p + 8 + 8 * Z.of_nat j) with (p + 8 * Z.of_nat (S j)) by lia. apply Hm. lia.
    + intros l Hl Hlk. apply wp_ret. apply HQ; [cbn; lia|]. intros [|j] Hj; cbn.
      * by rewrite Z.add_0_r.
      * rewrite Hlk by lia. f_equal. lia.
Qed.

Lemma lookup_map_words n : forall p m a, map_words n p m !! a = if decide (p <= a < p + 8 * Z.of_nat n /\ (a - p) mod 8 = 0) then Some 0 else m !! a.
Proof.
  induction n as [|n IH]; intros p m a; cbn [map_words].
  - rewrite decide_False by lia. done.
  - destruct (decide (a = p)) as [->|Hne].
    + rewrite lookup_insert_eq, decide_True; [done|]. rewrite Z.sub_diag. split; [lia|done].
    + rewrite lookup_insert_ne, IH by done. destruct (decide (_ /\ _)) as [[H1 H2]|H1], (decide (p <= a < p + 8 * Z.of_nat (S n) /\ (a - p) mod 8 = 0)) as [[H3 H4]|H3]; try done.
      * exfalso. apply H3. split; [lia|mlia].
      * exfalso. apply H1. split; [mlia|mlia].
Qed.

Lemma lookup_unmap p len m a : unmap p len m !! a = if decide (p <= a < p + len) then None else m !! a.
Proof.
  unfold unmap. rewrite map_lookup_filter. destruct (m !! a) as [v|]; cbn; [|by case_decide].
  case_decide; [by rewrite option_guard_False by tauto|by rewrite option_guard_True].
Qed.
End words.

Section trim.
Context {F : Fuel} (st : Z).
Abbreviation bin := (BIN_TO_CHUNK st).
Abbreviation base := (base st).
Abbreviation heap := (heap st).
Abbreviation frame := (frame st).
Implicit Types (m : mem) (C : chunks) (B : Z -> list Z) (D : areas).

(** The words of a chunk behind its header and its links are not the allocator's. *)
Lemma interior_not_own m C D c k a : base m C D -> C !! c = Some k -> c_size k <> 0 -> c + 32 <= a < c + c_size k -> ~ is_own st C D a.
Proof.
  intros Hb Hc Hs Ha Ho. pose proof (bs_layout _ _ _ _ Hb) as Hly.
  assert (Hoth : forall c' k', C !! c' = Some k' -> (a = c' \/ a = c' + 8 \/ (c_size k' <> 0 /\ (a = c' + 16 \/ a = c' + 24))) -> False).
  { intros c' k' Hc' Ha'. assert (Hne : c' <> c) by lia. pose proof (chunk_other C c k Hly Hc Hs c' k' Hc' Hne). pose proof (extent_16 _ _ _ _ Hb c' k' Hc'). lia. }
  destruct Ho as [(c' & k' & Hc' & Ha')|[[(c' & k' & Hc' & Hu' & Ha')|(i & Hi & Ha')]|[Ha'|(d & x & s & Hd & Ha')]]].
  - apply (Hoth c' k' Hc'). tauto.
  - apply (Hoth c' k' Hc'). right. right. split; [by apply (free_size st m C D Hb c')|done].
  - pose proof (clear_static _ _ _ _ Hb c k Hc) as Hcl. rewrite extent_size in Hcl by done. unfold BIN_TO_CHUNK in Ha'. lia.
  - pose proof (clear_static _ _ _ _ Hb c k Hc) as Hcl. rewrite extent_size in Hcl by done. unfold is_scalar in Ha'. lia.
  - pose proof (clear_area _ _ _ _ Hb c k d x s Hc Hd) as Hcl. rewrite extent_size in Hcl by done. pose proof (bs_areas _ _ _ _ Hb d x s Hd). lia.
Qed.

Lemma wp_reclaim_pages m C B D c k (Q : unit -> mem -> Prop) : heap m C B D -> C !! c = Some k -> c_inuse k = false -> RECLAIM < c_size k ->
  (forall m', heap m' C B D -> (forall s H, frame s (State m C D H) -> frame s (State m' C D H)) -> Q tt m') -> wp (reclaim_pages c (c + c_size k)) m Q.
Proof.
  intros Hh Hc Hu Hr HQ. pose proof (hp_base _ _ _ _ _ Hh) as Hb. pose proof (bs_layout _ _ _ _ Hb) as Hly. unfold RECLAIM in Hr.
  assert (Hs : c_size k <> 0) by lia. pose proof (chunk_arith C c k Hly Hc Hs) as Har. unfold reclaim_pages. rewrite !land_page. unfold SIZE_ALIGN, PAGE_SIZE.
  set (a := _ - _ mod 4096) in *. assert (Ha : c + 32 <= a <= c + 32 + 4095 /\ a mod 4096 = 0) by (unfold a; split; mlia).
  set (b := c + c_size k - 32 - (c + c_size k - 32) mod 4096) in *. assert (Hbd : c + c_size k - 32 - 4095 <= b <= c + c_size k - 32 /\ b mod 4096 = 0) by (unfold b; split; mlia).
  clearbody a b. rewrite u64_id by lia. apply wp_store_words; rewrite length_replicate.
  - intros j Hj. apply (bs_space _ _ _ _ Hb c k Hc); [rewrite extent_size by done|]; mlia.
  - intros m' M1 M2 _. assert (Hrng : forall x, a <= x < a + 8 * Z.of_nat (Z.to_nat ((b - a) / 8)) -> c + 32 <= x < c + c_size k) by (intros x Hx; mlia).
    apply HQ.
    + apply (heap_words_ext st m); [done| |done]. intros x Hx. apply M2. intros Hx'. by apply (interior_not_own m C D c k x Hb Hc Hs (Hrng x Hx')).
    + intros s H Hf. apply (frame_ext st m); [|done]. intros x Hx. apply M2. intros Hx'%Hrng.
      apply (hidden_not_user st m C D H c k x Hb Hc); [by left|lia|done].
Qed.

(** ** [free] *)
Lemma wp_IS_MMAPPED_chunk m C B D c k (Q : bool -> mem -> Prop) : heap m C B D -> C !! c = Some k -> c_inuse k = true -> Q false m -> wp (IS_MMAPPED c) m Q.
Proof.
  intros Hh Hc Hu HQ. destruct (hp_headers _ _ _ _ _ Hh c k Hc) as [_ E]. unfold IS_MMAPPED, csize. apply wp_bind, (wp_load _ _ (c_word k)); [done|].
  apply wp_ret. by rewrite (proj1 (word_bit C c k (bs_layout _ _ _ _ (hp_base _ _ _ _ _ Hh)) Hc)), Hu.
Qed.

(** A mapped block. *)
Lemma foreign_delete D d lo hi : foreign st (delete d D) lo hi -> foreign st D lo hi.
Proof. intros [Hx|(e & x & s & [? He]%lookup_delete_Some & E)]; [by left|right]. by exists e, x, s. Qed.

Lemma heap_unmap m m' C B D d x s : heap m C B D -> D !! d = Some (x, s) -> (forall a, ~ (d - x <= a < d + s) -> m' !! a = m !! a) ->
  heap m' C B (delete d D).
Proof.
  intros Hh Hd He. pose proof (hp_base _ _ _ _ _ Hh) as Hb. pose proof (bs_areas _ _ _ _ Hb d x s Hd) as Hda. pose proof (area_static _ _ _ _ Hb d x s Hd) as Hds.
  assert (Hw : forall lo hi, mapped_words m lo hi -> d + s <= lo \/ hi <= d - x -> mapped_words m' lo hi).
  { intros lo hi Hm Hlo a Ha Ham. rewrite He by lia. by apply Hm. }
  assert (Hoth : forall e y l, delete d D !! e = Some (y, l) -> d + s <= e - y \/ e + l <= d - x).
  { intros e y l Hey. apply (bs_apart _ _ _ _ Hb d x s _ _ Hd). right. by exists e, y, l. }
  assert (Hck : forall c k, C !! c = Some k -> c + extent k <= d - x \/ d + s <= c) by (intros c k Hc; by apply (clear_area st m C D Hb)).
  assert (Hown : forall a, is_link st C a \/ is_header C a \/ is_scalar st a -> m' !! a = m !! a).
  { intros a Ha. apply He. intros Hr. destruct Ha as [[(c & k & Hc & H0 & Ha)|(i & Hi & Ha)]|[(c & k & Hc & Ha)|Ha]].
    - pose proof (Hck c k Hc). pose proof (extent_16 _ _ _ _ Hb c k Hc). lia.
    - unfold BIN_TO_CHUNK in Ha. lia.
    - pose proof (Hck c k Hc). pose proof (extent_16 _ _ _ _ Hb c k Hc). lia.
    - unfold is_scalar in Ha. lia. }
  apply (heap_change st m m' C C B D); [done| | | |done|by eexists|].
  - destruct Hb as [Hly (S1 & S2 & S3 & S4) Ha Hsp Hcl Hap]. split; [done| | | | |].
    + split_and!; try done. apply Hw; [done|lia].
    + intros e y l Hey. pose proof (Hoth e y l Hey). apply lookup_delete_Some in Hey as [_ Hey]. destruct (Ha e y l Hey) as (? & ? & ? & ? & ? & ? & ? & ? & ? & ?).
      split_and!; try done. apply Hw; [done|lia].
    + intros c k Hc. apply Hw; [by apply Hsp|]. destruct (Hck c k Hc); lia.
    + intros c k lo hi Hc Hf. apply (Hcl c k); [done|by apply foreign_delete in Hf].
    + intros e y l lo hi Hey Hf. apply lookup_delete_Some in Hey as [Hne Hey]. apply (Hap e y l); [done|].
      destruct Hf as [Hf|(e' & y' & l' & [? [? Hf]%lookup_delete_Some]%lookup_delete_Some & E)]; [by left|right]. exists e', y', l'. by rewrite lookup_delete_ne.
  - intros c k Hc. rewrite !Hown; [by apply (hp_headers _ _ _ _ _ Hh)|right; left; exists c, k; auto..].
  - intros e y l Hey. pose proof (Hoth e y l Hey). pose proof Hey as [_ Hey']%lookup_delete_Some. pose proof (bs_areas _ _ _ _ Hb e y l Hey').
    rewrite !He by lia. by apply (hp_areas _ _ _ _ _ Hh).
  - intros a [Ha|Ha]; apply Hown; [left|tauto]. by apply (free_link_link st m C D).
Qed.

Lemma unmap_frame m m' C B D d x s : heap m C B D -> D !! d = Some (x, s) -> (forall a, ~ (d - x <= a < d + s) -> m' !! a = m !! a) ->
  forall H, frame (State m C D (d :: H)) (State m' C (delete d D) H).
Proof.
  intros Hh Hd He H. pose proof (hp_base _ _ _ _ _ Hh) as Hb. pose proof (bs_areas _ _ _ _ Hb d x s Hd) as Hda. split; cbn.
  - intros a Ha _. assert (Hna : ~ (d - x <= a < d + s) /\ is_user st C (delete d D) H a); [|destruct Hna as [Hna1 Hna2]; split; [done|by apply He]].
    destruct Ha as [(c & k & Hc & Hu & Hn & Ha)|[(e & y & l & He' & Hn & Ha)|(Ho1 & Ho2 & Ho3)]].
    + pose proof (clear_area _ _ _ _ Hb c k d x s Hc Hd) as Hcl. rewrite extent_size in Hcl by lia. apply not_elem_of_cons in Hn as [_ Hn].
      split; [lia|left]. by exists c, k.
    + apply not_elem_of_cons in Hn as [Hne Hn]. assert (He2 : delete d D !! e = Some (y, l)) by by rewrite lookup_delete_ne.
      pose proof (bs_apart _ _ _ _ Hb d x s (e - y) (e + l) Hd ltac:(right; by exists e, y, l)). pose proof (bs_areas _ _ _ _ Hb e y l He').
      split; [lia|right; left]. by exists e, y, l.
    + split; [by apply Ho3|]. do 2 right. split; [done|]. split; [done|]. intros e y l [_ He']%lookup_delete_Some. by apply Ho3.
  - intros c n. unfold block, cblock. rewrite not_elem_of_cons. split.
    + intros [([_ Hn] & H0 & k & Hk)|([Hne Hn] & y & Hy)]; [left; split; [done|]; split; [done|by exists k]|right]. split; [done|]. exists y. by rewrite lookup_delete_ne.
    + intros [(Hn & H0 & k & Hk & Hk')|(Hn & y & [Hne Hy]%lookup_delete_Some)]; [left|right; split; [done|by exists y]].
      split; [split; [|done]|split; [done|by exists k]]. intros ->. by rewrite (chunk_not_area st m C D d k Hb Hk) in Hd.
Qed.

Lemma wp_free_area m C B D d x s (Q : unit -> mem -> Prop) : heap m C B D -> D !! d = Some (x, s) ->
  (forall m', heap m' C B (delete d D) -> (forall H, frame (State m C D (d :: H)) (State m' C (delete d D) H)) -> Q tt m') -> wp (free st (CHUNK_TO_MEM d)) m Q.
Proof.
  intros Hh Hd HQ. pose proof (hp_base _ _ _ _ _ Hh) as Hb. pose proof (bs_areas _ _ _ _ Hb d x s Hd) as Hda.
  destruct (hp_areas _ _ _ _ _ Hh d x s Hd) as [E1 E2].
  unfold free, CHUNK_TO_MEM, MEM_TO_CHUNK, OVERHEAD. rewrite (proj2 (Z.eqb_neq (d + 16) 0)) by lia. replace (d + 16 - 16) with d by lia.
  unfold IS_MMAPPED, CHUNK_SIZE, csize, psize, C_INUSE. apply wp_bind, wp_bind, (wp_load _ _ s); [done|]. apply wp_ret. rewrite and_1, (proj2 (Z.eqb_eq (s mod 2) 0)) by mlia.
  apply wp_bind, (wp_load _ _ x); [done|]. apply wp_bind, wp_bind, (wp_load _ _ s); [done|]. apply wp_ret. rewrite (proj1 (and_minus_2 s ltac:(mlia))).
  rewrite and_1, (proj2 (Z.eqb_eq (x mod 2) 0)) by mlia. cbn [negb]. unfold wp.
  set (m' := unmap _ _ _). assert (He : forall a, ~ (d - x <= a < d + s) -> m' !! a = m !! a).
  { intros a Ha. unfold m'. rewrite lookup_unmap, decide_False; [done|lia]. }
  apply HQ; [by apply (heap_unmap m m' C B D d x s)|]. by apply (unmap_frame m m' C B D d x s).
Qed.

(** A chunk of the heap. *)
Context (Hfuel : (2 <= fuel)%nat).

Lemma wp_free_chunk m C B D c k (Q : unit -> mem -> Prop) : heap m C B D -> C !! c = Some k -> c_size k <> 0 -> c_inuse k = true ->
  (forall m' C' B', heap m' C' B' D -> (forall H, frame (State m C D (c :: H)) (State m' C' D H)) -> Q tt m') -> wp (free st (CHUNK_TO_MEM c)) m Q.
Proof.
  intros Hh Hc Hs Hu HQ. pose proof (hp_base _ _ _ _ _ Hh) as Hb. pose proof (bs_layout _ _ _ _ Hb) as Hly.
  pose proof (chunk_arith C c k Hly Hc Hs) as Har. destruct (ly_next _ Hly c k Hc Hs) as (kn & Hn & Ep & _).
  unfold free, CHUNK_TO_MEM, MEM_TO_CHUNK, OVERHEAD. rewrite (proj2 (Z.eqb_neq (c + 16) 0)) by lia. replace (c + 16 - 16) with c by lia.
  apply wp_bind, (wp_IS_MMAPPED_chunk m C B D c k _ Hh Hc Hu), wp_bind, (wp_CHUNK_SIZE st _ _ _ _ _ _ _ Hh Hc), wp_bind, (wp_NEXT_CHUNK st _ _ _ _ _ _ _ Hh Hc).
  destruct (hp_headers _ _ _ _ _ Hh c k Hc) as [_ E1]. destruct (hp_headers _ _ _ _ _ Hh _ kn Hn) as [E2 _]. rewrite Ep in E2. unfold psize, csize.
  apply wp_bind, (wp_load _ _ (c_word k)); [done|]. apply wp_bind, (wp_load _ _ (c_word k)); [done|]. rewrite Z.eqb_refl. cbn [negb].
  apply wp_bind. eapply wp_mono; [apply (wp_free_merge st (fun H => State m C D (c :: H)) m C B D c k kn); try done; intros H; apply frame_id|].
  intros [[[[self nx] fs] rc] i] m1 (C1 & B1 & (k1 & kn1 & Hc1 & Hsz1 & H01 & Hu1 & Hp1 & Hnx1 & Hn1 & Hun1 & Hrc) & Hh1 & -> & HL1 & Hf1).
  subst fs nx. apply wp_bind, (wp_free_insert st m1 C1 B1 D Hh1 self k1 kn1); try done. intros m2 Hh2 Hf2.
  assert (Hf12 : forall H, frame (State m C D (c :: H)) (State m2 (mark false self k1 kn1 C1) D H)) by (intros H; eapply frame_comp; [apply Hf1|apply Hf2]).
  pose proof (bs_layout _ _ _ _ (hp_base _ _ _ _ _ Hh1)) as Hly1.
  assert (L1 : mark false self k1 kn1 C1 !! self = Some (Chunk (c_psize k1) (c_size k1) false)) by (apply lookup_mark; auto).
  destruct rc; [|apply wp_ret; by eapply HQ].
  apply (wp_reclaim_pages m2 (mark false self k1 kn1 C1) _ D self _ _ Hh2 L1 eq_refl); [by apply Hrc|]. intros m3 Hh3 Hf3. eapply HQ; [exact Hh3|intros H; by apply Hf3].
Qed.

(** ** [trim] *)
Lemma wp_trim m C B D c k n (Q : unit -> mem -> Prop) : heap m C B D -> C !! c = Some k -> c_inuse k = true -> 32 <= n -> n <= c_size k -> n mod 32 = 0 ->
  (forall m' C' B' k', heap m' C' B' D -> (forall H, c ∈ H -> frame (State m C D H) (State m' C' D H)) -> C' !! c = Some k' -> c_inuse k' = true -> n <= c_size k' -> c_size k' <= c_size k ->
    (forall a, c + 16 <= a < c + n -> is_Some (m !! a) -> m' !! a = m !! a) -> Q tt m') ->
  wp (trim st c n) m Q.
Proof.
  intros Hh Hc Hu Hn0 Hnk Hnm HQ. pose proof (hp_base _ _ _ _ _ Hh) as Hb. pose proof (bs_layout _ _ _ _ Hb) as Hly.
  assert (Hs : c_size k <> 0) by lia. pose proof (chunk_arith C c k Hly Hc Hs) as Har. destruct (ly_next _ Hly c k Hc Hs) as (kn & Hn & Ep & _).
  unfold trim, DONTCARE. apply wp_bind, (wp_CHUNK_SIZE st _ _ _ _ _ _ _ Hh Hc). rewrite u64_id by lia.
  destruct (Z.geb_spec n (c_size k - 16)) as [Hge|Hlt]; [apply wp_ret; by apply (HQ m C B k); [|intros H _; apply frame_id| | | | |]|].
  apply wp_bind, (wp_NEXT_CHUNK st _ _ _ _ _ _ _ Hh Hc). unfold psize, csize, C_INUSE. rewrite !or_1 by mlia.
  assert (Hw : forall a, c <= a < c + c_size k -> a mod 8 = 0 -> is_Some (m !! a)) by (intros a Ha Ham; apply (bs_space _ _ _ _ Hb c k Hc); [by rewrite extent_size|done]).
  apply wp_bind, wp_store; [apply Hw; mlia|lia|]. apply wp_bind, wp_store; [rewrite lookup_insert_is_Some'; right; apply Hw; mlia|lia|].
  apply wp_bind, wp_store; [rewrite !lookup_insert_is_Some'; do 2 right; rewrite (proj1 (hp_headers _ _ _ _ _ Hh _ kn Hn)); by eexists|lia|].
  apply wp_bind, wp_store; [rewrite !lookup_insert_is_Some'; do 3 right; apply Hw; mlia|lia|].
  assert (Hn1 : 0 < n < c_size k) by mlia.
  pose proof (split_heap st m C D Hb c n k kn Hc Hs Hn Hu Hnm Hn1 B Hh) as Hh1. pose proof (split_frame st m C D Hb c n k kn Hc Hs Hn Hnm Hn1) as Hf1.
  pose proof (lookup_split C c k kn Hly Hc Hs Hn n Hn1) as Lk.
  apply (wp_free_chunk _ _ B D (c + n) (Chunk (n + 1) (c_size k - n) true) _ Hh1); [apply Lk; auto|cbn; lia|done|].
  intros m2 C2 B2 Hh2 Hf2. assert (Hf12 : forall H, c ∈ H -> frame (State m C D H) (State m2 C2 D H)) by (intros H Hin; eapply frame_comp; [by apply Hf1|apply Hf2]).
  destruct (fr_block _ _ _ (Hf2 []) c n) as [Hbl _]. destruct Hbl as [(_ & _ & k2 & Hk2 & Hu2 & E)|(_ & x & Hx)].
  - left. split; [apply not_elem_of_cons; split; [cbn; lia|apply not_elem_of_nil]|]. split; [lia|]. eexists. split; [apply Lk; by left|done].
  - apply (HQ m2 C2 B2 k2); try done; try lia. intros a Ha [v Hv].
    destruct (fr_user _ _ _ (Hf2 []) a) as [_ Em]; cbn.
    + left. exists c, (Chunk (c_psize k) n true). split; [apply Lk; by left|]. split; [done|]. split; [|done]. apply not_elem_of_cons. split; [lia|apply not_elem_of_nil].
    + unfold split_mem. rewrite !lookup_insert_is_Some'. rewrite Hv. do 4 right. by eexists.
    + cbn in Em. rewrite Em. unfold split_mem. by rewrite !lookup_insert_ne by lia.
  - exfalso. cbn in Hx. by rewrite (chunk_not_area st m C D c k Hb Hc) in Hx.
Qed.
End trim.
