(* ===== verification/MallocPretrim.v ===== *)
(** [pretrim] of Malloc.v: a large free chunk is cut while it stays in its bin. *)
From S2P Require Import Prelude Mem Links Malloc MallocChunks MallocInv MallocBins MallocHeap.

Lemma bin_63 s : 32 <= s < 2 ^ 62 -> s mod 32 = 0 -> bin_index s = 63 -> MMAP_THRESHOLD < s.
Proof.
  intros Hs Hm E. unfold MMAP_THRESHOLD, SIZE_ALIGN. destruct (Z.le_gt_cases s (32 * 7168)) as [Hle|]; [exfalso|lia].
  destruct (size_idx s ltac:(lia) Hm) as [Ei Es]. rewrite Ei in E.
  pose proof (idx_mono (s / 32 - 1) 7167 ltac:(lia) ltac:(lia)) as Hmo. assert (idx 7167 = 62) as E' by by vm_compute. lia.
Qed.

Lemma hd_in (x : Z) l : hd x l ∈ x :: l.
Proof. destruct l; cbn; [by left|right; by left]. Qed.

Section pretrim.
Context {F : Fuel} (st : Z).
Abbreviation bin := (BIN_TO_CHUNK st).
Abbreviation base := (base st).
Abbreviation heap := (heap st).
Abbreviation frame := (frame st).
Abbreviation rings := (rings st).

Context (m : mem) (C : chunks) (B : Z -> list Z) (D : areas) (Hh : heap m C B D) (c n j : Z) (k kn : chunk) (L : list Z).
Context (Hc : C !! c = Some k) (Hu : c_inuse k = false) (Hn : C !! (c + c_size k) = Some kn).
Context (Hj : j = bin_index (c_size k)) (HB : B j = c :: L) (HL : links m (bin j) (B j) (bin j)).
Context (Hnm : n mod 32 = 0) (Hn0 : 0 < n < c_size k) (Hj' : bin_index (c_size k - n) = j).

Let Hb : base m C D := hp_base _ _ _ _ _ Hh.
Let Hly : layout C := bs_layout _ _ _ _ Hb.
Let Hbn : binned C B := hp_binned _ _ _ _ _ Hh.
Abbreviation k1 := (Chunk (c_psize k) (c_size k) true).
Abbreviation kn1 := (Chunk (c_size k + 1) (c_size kn) (c_inuse kn)).
Abbreviation C1 := (mark true c k kn C).
Abbreviation C2 := (split c n k1 kn1 C1).
Abbreviation k2 := (Chunk (n + 1) (c_size k - n) true).
Abbreviation kn2 := (Chunk (c_size k - n + 1) (c_size kn) (c_inuse kn)).
Abbreviation C3 := (mark false (c + n) k2 kn2 C2).
Abbreviation B3 := (upd B j (c + n :: L)).

Lemma pt_size : c_size k <> 0.
Proof. by apply (free_size st m C D Hb c). Qed.

Lemma pt_arith : c mod 32 = 16 /\ c_size k mod 32 = 0 /\ 32 <= c_size k /\ 0 < c /\ c + c_size k < 2 ^ 62.
Proof. apply (chunk_arith C c k Hly Hc pt_size). Qed.

Lemma pt_base1 : base m C1 D.
Proof. apply (base_inside st m C); [done|by apply (mark_layout C c k kn Hly Hc pt_size Hn)|by apply (mark_inside st m C D Hb c k kn Hc pt_size)]. Qed.

Lemma pt_lookup1 : C1 !! c = Some k1 /\ C1 !! (c + c_size k1) = Some kn1.
Proof. pose proof pt_arith. split; apply (lookup_mark C c k kn Hly Hc pt_size Hn); [by left|right; by left]. Qed.

Lemma pt_base2 : base m C2 D.
Proof. destruct pt_lookup1. apply (split_base st m C1 D pt_base1 c n k1 kn1); try done. apply pt_size. Qed.

Lemma pt_lookup2 : C2 !! (c + n) = Some k2 /\ C2 !! (c + n + c_size k2) = Some kn2.
Proof.
  destruct pt_lookup1. pose proof pt_arith. pose proof pt_size as Hs.
  split; apply (lookup_split C1 c k1 kn1 (bs_layout _ _ _ _ pt_base1) ltac:(done) Hs ltac:(done) n Hn0); [right; by left|do 2 right; left]. cbn. split; [lia|done].
Qed.

Lemma pt_next : c_inuse kn = true.
Proof. destruct (ly_next _ Hly c k Hc pt_size) as (kn' & Hn' & _ & Hi). assert (kn' = kn) as -> by congruence. by rewrite Hu in Hi. Qed.

Lemma pt_base3 : base m C3 D.
Proof.
  destruct pt_lookup2. pose proof pt_arith. assert (Hs2 : c_size k2 <> 0) by (cbn; lia).
  apply (base_inside st m C2); [apply pt_base2| |by apply (mark_inside st m C2 D pt_base2)].
  apply (mark_layout C2 (c + n) k2 kn2 (bs_layout _ _ _ _ pt_base2)); try done. intros _. cbn. split; [apply pt_next|mlia].
Qed.

Lemma lookup_pt x y : C3 !! x = Some y <->
  (x = c /\ y = Chunk (c_psize k) n true) \/ (x = c + n /\ y = Chunk (n + 1) (c_size k - n) false) \/
  (x = c + c_size k /\ y = Chunk (c_size k - n) (c_size kn) (c_inuse kn)) \/ (x <> c /\ x <> c + n /\ x <> c + c_size k /\ C !! x = Some y).
Proof.
  destruct pt_lookup1, pt_lookup2. pose proof pt_arith. pose proof pt_size as Hs. assert (Hs2 : c_size k2 <> 0) by (cbn; lia).
  rewrite (lookup_mark C2 (c + n) k2 kn2 (bs_layout _ _ _ _ pt_base2)) by done.
  rewrite (lookup_split C1 c k1 kn1 (bs_layout _ _ _ _ pt_base1)) by done. rewrite (lookup_mark C c k kn Hly Hc Hs Hn). cbn.
  rewrite Z.add_0_r. replace (c + n + (c_size k - n)) with (c + c_size k) by lia. intuition (subst; lia || eauto).
  all: left; split; [done|f_equal; lia].
Qed.

Lemma pt_origin x y : C3 !! x = Some y -> x <> c -> x <> c + n -> exists y0, C !! x = Some y0 /\ c_inuse y0 = c_inuse y /\ c_size y0 = c_size y.
Proof. intros [[-> ->]|[[-> ->]|[[-> ->]|(? & ? & ? & Hy)]]]%lookup_pt; try done; intros _ _; [by exists kn|by exists y]. Qed.

Lemma pt_free_split : C !! (c + n) = None.
Proof. by apply (split_free C c k Hly Hc pt_size n). Qed.

Lemma pt_stays x y : C !! x = Some y -> x <> c -> exists y', C3 !! x = Some y' /\ c_inuse y' = c_inuse y /\ c_size y' = c_size y.
Proof.
  intros Hx Hne. assert (x <> c + n) by (intros ->; by rewrite pt_free_split in Hx). destruct (decide (x = c + c_size k)) as [->|].
  - assert (y = kn) as -> by congruence. eexists. split; [apply lookup_pt; auto|done].
  - exists y. split; [apply lookup_pt; auto 10|done].
Qed.

Abbreviation hdL := (hd (bin j) L).

Definition pt_mem : mem :=
  <[c + 8 := n + 1]> (<[c + c_size k := c_size k - n]> (<[c + n + 8 := c_size k - n]> (<[c + n := n + 1]>
    (<[hdL + 24 := c + n]> (<[bin j + 16 := c + n]> (<[c + n + 16 := hdL]> (<[c + n + 24 := bin j]> m))))))).

Lemma pt_j : 0 <= j < 64.
Proof. rewrite Hj. by eapply free_bin. Qed.

Lemma pt_ring : base.NoDup (c :: L) /\ (bin j ∉ c :: L) /\ links m (bin j) [] c /\ links m c L (bin j).
Proof.
  pose proof (bn_nodup _ _ Hbn j) as Hnd. rewrite HB in *. apply (links_app m (bin j) [] c L (bin j)) in HL. split; [done|].
  split; [|done]. rewrite <- HB. apply (bin_not_in st m C B D Hb Hbn); apply pt_j.
Qed.

Lemma pt_split_not x : x ∈ L -> x <> c + n.
Proof.
  intros Hx ->. destruct (bn_bin _ _ Hbn j (c + n) pt_j) as (y & Hy & _); [rewrite HB; by right|]. by rewrite pt_free_split in Hy.
Qed.

(** The nodes of the new ring. *)
Lemma pt_nodes x : x ∈ c + n :: bin j :: L -> is_node st C3 x /\ is_free_link st C3 (x + 16) /\ is_free_link st C3 (x + 24) /\ 0 <= x < 2 ^ 64 /\
  is_Some (m !! (x + 16)) /\ is_Some (m !! (x + 24)).
Proof.
  pose proof pt_arith. intros Hx. apply elem_of_cons in Hx as [->|[->|Hx]%elem_of_cons].
  - assert (Lx : C3 !! (c + n) = Some (Chunk (n + 1) (c_size k - n) false)) by (apply lookup_pt; auto).
    split_and!; [left; eexists; split; [exact Lx|cbn; lia]|left; eexists _, _; split; [exact Lx|auto]|left; eexists _, _; split; [exact Lx|auto]|lia|lia|..];
      (apply (bs_space _ _ _ _ Hb c k Hc); [rewrite extent_size by apply pt_size|]; mlia).
  - pose proof pt_j as Hj64. destruct (bin_word st m C D j 16 Hb Hj64 ltac:(auto)) as [Hw Hr]. destruct (bin_word st m C D j 24 Hb Hj64 ltac:(auto)) as [Hw' _].
    split_and!; try done; try lia; [right; by exists j|by apply bin_links_free; auto|by apply bin_links_free; auto].
  - destruct pt_ring as (Hnd & _). apply list.NoDup_cons in Hnd as [Hcl _].
    destruct (bn_bin _ _ Hbn j x pt_j) as (y & Hy & Hyu & _); [rewrite HB; by right|]. assert (Hne : x <> c) by by intros ->.
    destruct (pt_stays x y Hy Hne) as (y' & Hy' & E1 & E2). rewrite Hyu in E1. pose proof (free_size st m C3 D pt_base3 x y' Hy' E1) as H0.
    pose proof (chunk_arith C x y Hly Hy ltac:(congruence)) as Hax.
    split_and!; [left; exists y'; auto|left; exists x, y'; auto|left; exists x, y'; auto|lia|lia|..];
      (apply (bs_space _ _ _ _ Hb x y Hy); [rewrite extent_size by congruence|]; mlia).
Qed.

Lemma pt_hd : hdL ∈ c + n :: bin j :: L.
Proof. right. apply hd_in. Qed.

Lemma pt_headers : headers pt_mem C3.
Proof.
  intros x y Hy. pose proof pt_arith as Har.
  assert (Hm : m !! x = Some (c_psize y) /\ m !! (x + 8) = Some (c_word y) \/ x = c \/ x = c + n \/ x = c + c_size k).
  { pose proof Hy as Hy'. apply lookup_pt in Hy' as [[-> _]|[[-> _]|[[-> _]|(_ & _ & _ & Hy')]]]; [tauto..|left]. apply (hp_headers _ _ _ _ _ Hh x y Hy'). }
  assert (Hk : forall z a, z ∈ c + n :: bin j :: L -> is_header C3 a -> z + 16 <> a /\ z + 24 <> a).
  { intros z a Hz Ha. destruct (pt_nodes z Hz) as (_ & K1 & K2 & _). apply (free_link_kinds st m C3 D _ pt_base3) in K1 as (K1 & _), K2 as (K2 & _).
    split; by intros <-. }
  assert (Hx : forall a, is_header C3 a -> (<[hdL + 24 := c + n]> (<[bin j + 16 := c + n]> (<[c + n + 16 := hdL]> (<[c + n + 24 := bin j]> m)))) !! a = m !! a).
  { intros a Ha. pose proof (Hk hdL a pt_hd Ha) as [_ ?]. pose proof (Hk (c + n) a ltac:(by left) Ha) as [? ?].
    pose proof (Hk (bin j) a ltac:(right; by left) Ha) as [? _]. by rewrite !lookup_insert_ne. }
  unfold pt_mem. set (m4 := <[hdL + 24 := c + n]> _) in *.
  assert (E1 : m4 !! x = m !! x) by (apply Hx; exists x, y; auto). assert (E2 : m4 !! (x + 8) = m !! (x + 8)) by (apply Hx; exists x, y; auto).
  clearbody m4. pose proof (ly_arith _ (bs_layout _ _ _ _ pt_base3) _ _ Hy) as (Hxm & _).
  apply lookup_pt in Hy as [[-> ->]|[[-> ->]|[[-> ->]|(Hx1 & Hx2 & Hx3 & Hy)]]]; unfold c_word; cbn.
  - destruct (hp_headers _ _ _ _ _ Hh c k Hc) as [E _]. rewrite !(lookup_insert_ne _ _ c) by lia. rewrite lookup_insert_eq, E1. done.
  - rewrite !(lookup_insert_ne _ _ (c + n)), (lookup_insert_eq _ (c + n)) by mlia. split; [done|]. rewrite !lookup_insert_ne, lookup_insert_eq by mlia. f_equal. lia.
  - destruct (hp_headers _ _ _ _ _ Hh _ _ Hn) as [_ E]. rewrite lookup_insert_ne, lookup_insert_eq by lia. split; [done|]. rewrite !lookup_insert_ne by mlia. by rewrite E2.
  - destruct (hp_headers _ _ _ _ _ Hh x y Hy) as [E3 E4]. rewrite !(lookup_insert_ne _ _ x), !(lookup_insert_ne _ _ (x + 8)) by mlia. by rewrite E1, E2.
Qed.

Lemma pt_binned : binned C3 B3.
Proof.
  pose proof pt_j as Hj64. destruct pt_ring as (Hnd & _). apply list.NoDup_cons in Hnd as [Hcl Hnd]. split.
  - intros x y Hy Hyu. destruct (decide (x = c)) as [->|Hne].
    { exfalso. apply lookup_pt in Hy as [[_ ->]|[[? _]|[[? _]|(? & _)]]]; [done|lia|pose proof pt_arith; lia|done]. }
    destruct (decide (x = c + n)) as [->|Hne2].
    { apply lookup_pt in Hy as [[? _]|[[_ ->]|[[? _]|(_ & ? & _)]]]; [lia| |lia|done]. cbn. rewrite Hj', upd_same. by left. }
    destruct (pt_origin x y Hy Hne Hne2) as (y0 & Hy0 & E1 & E2). rewrite <- E2. pose proof (bn_free _ _ Hbn x y0 Hy0 ltac:(congruence)) as Hin.
    unfold upd. case_decide as E; [|done]. rewrite E, HB in Hin. apply elem_of_cons in Hin as [|]; [done|by right].
  - intros i x Hi Hx. assert (Hcase : (x = c + n /\ i = j) \/ (x ∈ B i /\ x <> c)).
    { unfold upd in Hx. case_decide as E.
      - subst i. apply elem_of_cons in Hx as [|Hx]; [by left|right]. rewrite HB. split; [by right|by intros ->].
      - right. split; [done|]. intros ->. apply E, (bins_disjoint C B Hbn i j c); try done. rewrite HB. by left. }
    destruct Hcase as [[-> ->]|[Hin Hne]].
    + eexists. split; [apply lookup_pt; auto|done].
    + destruct (bn_bin _ _ Hbn i x Hi Hin) as (y & Hy & Hyu & Hyi). destruct (pt_stays x y Hy Hne) as (y' & Hy' & E1 & E2). exists y'. by rewrite E1, E2.
  - intros i. unfold upd. case_decide; [|apply (bn_nodup _ _ Hbn)]. apply list.NoDup_cons. split; [|done]. intros Hin. by apply (pt_split_not (c + n)).
Qed.

Lemma pt_separate : separate (c + n :: bin j :: L).
Proof. apply (nodes_separate st m C3 D _ pt_base3). intros z Hz. by apply pt_nodes. Qed.

Lemma pt_hd_ne : hdL <> c + n.
Proof.
  pose proof pt_j as Hj64. intros E. pose proof (hd_in (bin j) L) as Hin. rewrite E in Hin. apply elem_of_cons in Hin as [E'|Hin].
  - apply (bin_not_chunk st m C3 D j (Chunk (n + 1) (c_size k - n) false) pt_base3 Hj64). rewrite <- E'. apply lookup_pt. auto.
  - by apply (pt_split_not (c + n)).
Qed.

Lemma pt_bin_ne : bin j <> c + n.
Proof. intros E. apply (bin_not_chunk st m C3 D j (Chunk (n + 1) (c_size k - n) false) pt_base3 pt_j). rewrite E. apply lookup_pt. auto. Qed.

(** The ring with the new node in the place of the old one. *)
Lemma pt_links : links (<[hdL + 24 := c + n]> (<[bin j + 16 := c + n]> (<[c + n + 16 := hdL]> (<[c + n + 24 := bin j]> m)))) (bin j) (c + n :: L) (bin j).
Proof.
  pose proof pt_j as Hj64. destruct pt_ring as (Hnd & Hbj & _ & HL2). apply list.NoDup_cons in Hnd as [Hcl Hnd]. apply not_elem_of_cons in Hbj as [_ Hbj].
  pose proof pt_separate as Hsep. pose proof pt_hd as Hhd. pose proof pt_hd_ne as Hne.
  assert (Hsn : c + n ∈ c + n :: bin j :: L) by by left. assert (Hbn' : bin j ∈ c + n :: bin j :: L) by (right; by left).
  pose proof pt_bin_ne as Hbc.
  pose proof (Hsep _ _ Hbn' Hhd) as N1. pose proof (Hsep _ _ Hsn Hsn) as N2. pose proof (Hsep _ _ Hbn' Hsn) as N3.
  pose proof (Hsep _ _ Hhd Hhd). pose proof (Hsep _ _ Hsn Hhd) as N4.
  apply (links_app _ (bin j) [] (c + n) L (bin j)). split.
  - cbn. rewrite (lookup_insert_ne _ _ (bin j + 16)), lookup_insert_eq by lia. split; [done|].
    rewrite !(lookup_insert_ne _ _ (c + n + 24)) by lia. by rewrite lookup_insert_eq.
  - rewrite (insert_insert_ne _ (bin j + 16)) by lia.
    assert (HL3 : links (<[bin j + 16 := c + n]> (<[c + n + 24 := bin j]> m)) c L (bin j)).
    { assert (Hw : forall w, w ∈ L ++ [bin j] -> w ∈ c + n :: bin j :: L).
      { intros w. rewrite elem_of_app, list_elem_of_singleton, !elem_of_cons. tauto. }
      assert (Hn24 : forall w, w ∈ c :: L -> w + 16 <> c + n + 24 /\ w + 16 <> bin j + 16).
      { intros w Hwl. split; intros E.
        - apply elem_of_cons in Hwl as [->|Hwl]; [mlia|]. apply (Hsep w (c + n)); [by right; right|done|done].
        - replace w with (bin j) in Hwl by lia. apply elem_of_cons in Hwl as [E'|]; [|done].
          by apply (bin_not_chunk st m C D j k Hb Hj64); rewrite E'. }
      apply links_frame; [| |apply links_frame; [| |done]].
      - intros w Hwl E. destruct (Hn24 w Hwl). lia.
      - intros w Hwl%Hw E. by apply (Hsep (bin j) w).
      - intros w Hwl E. destruct (Hn24 w Hwl). lia.
      - intros w Hwl E. assert (w = c + n) as -> by lia. apply elem_of_app in Hwl as [Hwl|Hwl%list_elem_of_singleton]; [by apply (pt_split_not (c + n))|congruence]. }
    replace (<[hdL + 24 := c + n]> (<[c + n + 16 := hdL]> (<[bin j + 16 := c + n]> (<[c + n + 24 := bin j]> m))))
      with (<[hd (bin j) L + 24 := c + n]> (<[c + n + 16 := hd (bin j) L]> (<[bin j + 16 := c + n]> (<[c + n + 24 := bin j]> m)))) by done.
    apply (links_resource _ c L (bin j) (c + n)); try done. intros Hin. by apply (pt_split_not (c + n)).
Qed.

Lemma pt_rings : rings pt_mem B3.
Proof.
  pose proof pt_j as Hj64. pose proof pt_base3 as Hb3. destruct pt_ring as (Hnd & Hbj & _). apply list.NoDup_cons in Hnd as [Hcl Hnd].
  assert (Hk : forall x y, C3 !! x = Some y -> ~ is_free_link st C3 x /\ ~ is_free_link st C3 (x + 8)).
  { intros x y Hx. split; intros Hl%(free_link_link _ _ _ _ Hb3); eapply (header_not_link _ _ _ _ Hb3); try exact Hl; exists x, y; auto. }
  destruct (Hk c _ ltac:(apply lookup_pt; by left)) as [_ K1]. destruct (Hk (c + n) _ ltac:(apply lookup_pt; right; by left)) as [K2 K3].
  destruct (Hk (c + c_size k) _ ltac:(apply lookup_pt; do 2 right; by left)) as [K4 _].
  do 4 (apply (rings_store st C3 B3 pt_binned); [done|]).
  pose proof pt_hd as Hhd. assert (Hsn : c + n ∈ c + n :: bin j :: L) by by left. assert (Hbn' : bin j ∈ c + n :: bin j :: L) by (right; by left).
  intros i Hi. destruct (decide (i = j)) as [->|Hne]; [left; rewrite upd_same; apply pt_links|]. rewrite upd_other by done.
  assert (Hnd3 : forall z, z ∈ c + n :: bin j :: L -> is_node st C3 z) by (intros z Hz; by apply pt_nodes).
  assert (Hnot : forall z, z ∈ c + n :: bin j :: L -> z ∉ bin i :: B i).
  { intros z Hz Hzi. assert (Hzi' : z ∈ bin i :: B3 i) by by rewrite upd_other. apply elem_of_cons in Hzi' as [E|Hzi'].
    - apply elem_of_cons in Hz as [->|[->|Hz]%elem_of_cons].
      + apply (bin_not_chunk st m C3 D i (Chunk (n + 1) (c_size k - n) false) Hb3 Hi). rewrite <- E. apply lookup_pt. auto.
      + apply bin_inj in E. lia.
      + rewrite E in Hz. apply (bin_not_in st m C B D Hb Hbn i j); [done|done|]. rewrite HB. by right.
    - apply elem_of_cons in Hz as [->|[->|Hz]%elem_of_cons].
      + apply Hne. apply (bins_disjoint C3 B3 pt_binned i j (c + n)); try done. rewrite upd_same. by left.
      + by apply (bin_not_in st m C3 B3 D Hb3 pt_binned j i).
      + apply Hne. apply (bins_disjoint C3 B3 pt_binned i j z); try done. rewrite upd_same. by right. }
  assert (HBi : B i = B3 i) by by rewrite upd_other.
  destruct (hp_rings _ _ _ _ _ Hh i Hi) as [HL'|[E H0]]; [left|right].
  - rewrite HBi in *. do 4 (eapply (ring_other st m C3 B3 D Hb3 pt_binned); [done|by apply Hnd3|by apply Hnot|]). done.
  - split; [done|]. assert (Nj : is_node st C3 (bin i)) by (right; by exists i).
    assert (Hsp : forall z, z ∈ c + n :: bin j :: L -> z + 24 <> bin i + 16 /\ z + 16 <> bin i + 16).
    { intros z Hz. split; intros E'.
      - assert (Hs2 : separate [bin i; z]); [|apply (Hs2 (bin i) z); [by left|right; by left|done]].
        apply (nodes_separate st m C3 D _ Hb3). intros w [->|[->|Hw%elem_of_nil]%elem_of_cons]%elem_of_cons; [done|by apply Hnd3|done].
      - apply (Hnot z Hz). replace z with (bin i) by lia. by left. }
    do 4 (rewrite lookup_insert_ne by (first [apply (Hsp _ Hhd) | apply (Hsp _ Hbn') | apply (Hsp _ Hsn)])). done.
Qed.

Lemma pt_heap : heap pt_mem C3 B3 D.
Proof.
  pose proof pt_base3 as Hb3. pose proof pt_hd as Hhd.
  assert (Hk : forall a, is_free_link st C3 a -> ~ is_area_header D a /\ ~ is_scalar st a).
  { intros a Ha. apply (free_link_kinds st m C3 D _ Hb3) in Ha as (_ & ? & ? & _). done. }
  assert (Hk2 : forall a, is_header C3 a -> ~ is_area_header D a /\ ~ is_scalar st a).
  { intros a Ha. split; [by apply (header_not_area _ _ _ _ Hb3)|by apply (header_not_scalar _ _ _ _ Hb3)]. }
  assert (Ls : C3 !! (c + n) = Some (Chunk (n + 1) (c_size k - n) false)) by (apply lookup_pt; auto).
  assert (Lc : C3 !! c = Some (Chunk (c_psize k) n true)) by (apply lookup_pt; auto).
  assert (Ln : C3 !! (c + c_size k) = Some (Chunk (c_size k - n) (c_size kn) (c_inuse kn))) by (apply lookup_pt; auto).
  assert (I1 : is_header C3 (c + 8)) by (eexists c, _; split; [exact Lc|auto]).
  assert (I2 : is_header C3 (c + c_size k)) by (eexists _, _; split; [exact Ln|auto]).
  assert (I3 : is_header C3 (c + n + 8)) by (eexists _, _; split; [exact Ls|auto]). assert (I4 : is_header C3 (c + n)) by (eexists _, _; split; [exact Ls|auto]).
  destruct (pt_nodes _ Hhd) as (_ & _ & J1 & _). destruct (pt_nodes (bin j) ltac:(right; by left)) as (_ & J2 & _).
  destruct (pt_nodes (c + n) ltac:(by left)) as (_ & J3 & J4 & _).
  split.
  - apply (base_ext st m); [|apply pt_base3]. intros a Ha. unfold pt_mem. rewrite !lookup_insert_is_Some'. auto 20.
  - apply pt_headers.
  - do 4 (apply areas_store; [by apply Hk2|]). do 4 (apply areas_store; [by apply Hk|]). apply (hp_areas _ _ _ _ _ Hh).
  - apply pt_rings.
  - apply pt_binned.
  - do 4 (apply scalars_store; [by apply Hk2|]). do 4 (apply scalars_store; [by apply Hk|]). apply (scalars_change st _ C).
    + intros x p Hx. assert (Hne : x <> c) by (intros ->; apply pt_size; by assert (k = Chunk p 0 true) as -> by congruence).
      destruct (pt_stays x _ Hx Hne) as ([p' s' u'] & Hy & E1 & E2). cbn in *. exists p'. by rewrite Hy, E1, E2.
    + destruct (hp_scalars _ _ _ _ _ Hh) as [(b & Hbm & Hbr & Hbits) S2 S3 S4]. split; try done. exists b. split; [done|]. split; [done|].
      intros i Hi. rewrite (Hbits i Hi). unfold upd. case_decide as E; [|done]. by rewrite E, HB.
Qed.

Lemma pt_frame H : frame (State m C D H) (State pt_mem C3 D (c :: H)).
Proof.
  destruct pt_lookup1 as [L1 L2], pt_lookup2 as [L3 L4]. pose proof pt_arith. assert (Hs2 : c_size k2 <> 0) by (cbn; lia).
  apply (frame_comp st _ (State pt_mem C D H)).
  - pose proof pt_j as Hj64.
    assert (I1 : is_own st C D (c + 8)) by (left; exists c, k; auto). assert (I2 : is_own st C D (c + c_size k)) by (left; exists (c + c_size k), kn; auto).
    assert (I3 : is_own st C D (bin j + 16)) by (right; left; apply bin_links_free; auto).
    assert (I4 : is_own st C D (hdL + 24)).
    { right. left. pose proof (hd_in (bin j) L) as Hin. apply elem_of_cons in Hin as [E|Hin]; [rewrite E; apply bin_links_free; auto|].
      apply (ring_links st C B Hbn j); [done|]. rewrite HB. by do 2 right. }
    assert (I5 : forall a, c <= a < c + c_size k -> ~ is_user st C D H a) by (intros a Ha; apply (hidden_not_user st m C D H c k); auto).
    apply frame_store; [by apply (own_not_user st m)|]. apply frame_store; [by apply (own_not_user st m)|].
    do 2 (apply frame_store; [apply I5; mlia|]). do 2 (apply frame_store; [by apply (own_not_user st m)|]).
    do 2 (apply frame_store; [apply I5; mlia|]). apply frame_id.
  - eapply frame_comp; [by apply (take_frame st m C D Hb c k kn Hc pt_size Hn)|].
    eapply frame_comp; [apply (split_rechunk st m C1 D pt_base1 c n k1 kn1 L1 pt_size L2 Hn0); by left|].
    by apply (put_frame st m C2 D pt_base2 (c + n) k2 kn2).
Qed.
End pretrim.

Section code.
Context {F : Fuel} (st : Z).
Abbreviation bin := (BIN_TO_CHUNK st).
Abbreviation heap := (heap st).
Abbreviation frame := (frame st).

(** [pretrim] cuts the first chunk of the bin, or does nothing. *)
Lemma wp_pretrim m C B D c k n j (Q : bool -> mem -> Prop) : heap m C B D -> C !! c = Some k -> c_inuse k = false -> j = bin_index (c_size k) ->
  (exists L, B j = c :: L) -> links m (bin j) (B j) (bin j) -> 32 <= n <= MMAP_THRESHOLD -> n mod 32 = 0 -> bin_index_up n <= j -> Q false m ->
  (forall m' C' B' k', heap m' C' B' D -> (forall H, frame (State m C D H) (State m' C' D (c :: H))) ->
    C' !! c = Some k' -> c_inuse k' = true -> c_size k' = n -> Q true m') ->
  wp (pretrim c n (bin_index_up n) j) m Q.
Proof.
  intros Hh Hc Hu Hj [L HB] HL Hn Hnm Hup HQ1 HQ2. pose proof (hp_base _ _ _ _ _ Hh) as Hb. pose proof (bs_layout _ _ _ _ Hb) as Hly.
  pose proof (free_size st m C D Hb c k Hc Hu) as Hs. pose proof (chunk_arith C c k Hly Hc Hs) as Har.
  destruct (ly_next _ Hly c k Hc Hs) as (kn & Hnx & Ep & _).
  assert (Hle : n <= c_size k) by (apply bin_fits; [lia|done|lia|tauto|by rewrite <- Hj]).
  unfold pretrim. destruct (j <? 40); [by apply wp_ret|]. apply wp_bind, (wp_CHUNK_SIZE st _ _ _ _ _ _ _ Hh Hc).
  case_match; [by apply wp_ret|]. destruct (Z.eqb_spec (bin_index (c_size k - n)) j) as [Hj'|]; [|by apply wp_ret]. cbn [negb].
  assert (Hn0 : 0 < n < c_size k).
  { split; [lia|]. destruct (Z.eq_dec n (c_size k)) as [->|]; [exfalso|lia]. rewrite Z.sub_diag in Hj'.
    assert (j = 63) as E by (rewrite <- Hj'; by vm_compute). rewrite E in Hj. pose proof (bin_63 (c_size k)). lia. }
  pose proof (pt_heap st m C B D Hh c n j k kn L Hc Hu Hnx Hj HB HL Hnm Hn0 Hj') as Hh'.
  pose proof (pt_frame st m C B D Hh c n j k kn L Hc Hu Hnx Hj HB Hnm Hn0) as Hf'.
  pose proof (lookup_pt st m C B D Hh c n j k kn L Hc Hu Hnx Hj HB HL Hnm Hn0 Hj') as Lk.
  apply wp_bind, (wp_NEXT_CHUNK st _ _ _ _ _ _ _ Hh Hc). unfold prev, next, psize, csize, C_INUSE. rewrite !or_1 by mlia.
  destruct (pt_nodes st m C B D Hh c n j k kn L Hc Hu Hnx Hj HB HL Hnm Hn0 Hj' (c + n) ltac:(by left)) as (_ & _ & _ & Rs & S16 & S24).
  destruct (pt_nodes st m C B D Hh c n j k kn L Hc Hu Hnx Hj HB HL Hnm Hn0 Hj' (bin j) ltac:(right; by left)) as (_ & _ & _ & Rb & T16 & _).
  destruct (pt_nodes st m C B D Hh c n j k kn L Hc Hu Hnx Hj HB HL Hnm Hn0 Hj' (hd (bin j) L) ltac:(right; apply hd_in)) as (_ & _ & _ & Rh & _ & U24).
  pose proof (pt_separate st m C B D Hh c n j k kn L Hc Hu Hnx Hj HB HL Hnm Hn0 Hj') as Hsep.
  assert (Hsn : c + n ∈ c + n :: bin j :: L) by by left. assert (Hbn' : bin j ∈ c + n :: bin j :: L) by (right; by left).
  assert (Hhd : hd (bin j) L ∈ c + n :: bin j :: L) by (right; apply hd_in).
  pose proof (Hsep _ _ Hbn' Hsn) as N1. pose proof (Hsep _ _ Hsn Hsn) as N2.
  pose proof (pt_bin_ne st m C B D Hh c n j k kn L Hc Hu Hnx Hj HB HL Hnm Hn0 Hj') as Hbc.
  assert (Hw : forall a, c <= a < c + c_size k -> a mod 8 = 0 -> is_Some (m !! a)) by (intros a Ha Ham; apply (bs_space _ _ _ _ Hb c k Hc); [by rewrite extent_size|done]).
  rewrite HB in HL. apply (links_app m (bin j) [] c L (bin j)) in HL as [[_ Hprev] HL2]. pose proof (links_first _ _ _ _ HL2) as Hnext.
  apply wp_bind, (wp_load _ _ (bin j)); [done|]. apply wp_bind, wp_store; [done|done|].
  apply wp_bind, (wp_load _ _ (hd (bin j) L)); [rewrite lookup_insert_ne by mlia; done|].
  apply wp_bind, wp_store; [rewrite lookup_insert_is_Some'; auto|done|].
  apply wp_bind, (wp_load _ _ (bin j)); [rewrite lookup_insert_ne by lia; by rewrite lookup_insert_eq|].
  apply wp_bind, wp_store; [rewrite !lookup_insert_is_Some'; auto|done|].
  apply wp_bind, (wp_load _ _ (hd (bin j) L)); [rewrite lookup_insert_ne by lia; by rewrite lookup_insert_eq|].
  apply wp_bind, wp_store; [rewrite !lookup_insert_is_Some'; auto|done|].
  apply wp_bind, wp_store; [rewrite !lookup_insert_is_Some'; do 4 right; apply Hw; mlia|lia|].
  apply wp_bind, wp_store; [rewrite !lookup_insert_is_Some'; do 5 right; apply Hw; mlia|lia|].
  apply wp_bind, wp_store; [rewrite !lookup_insert_is_Some'; do 6 right; rewrite (proj1 (hp_headers _ _ _ _ _ Hh _ kn Hnx)); by eexists|lia|].
  apply wp_bind, wp_store; [rewrite !lookup_insert_is_Some'; do 7 right; apply Hw; mlia|lia|].
  apply wp_ret. eapply HQ2; [exact Hh'|exact Hf'|apply Lk; by left|done|done].
Qed.
End code.
