(* ===== verification/MallocGrow.v ===== *)
(** [__expand_heap] and [expand_heap] of Malloc.v: space from the kernel becomes a
    chunk of the heap.  What the kernel promises is the class [KernelLaws]. *)
From S2P Require Import Prelude Mem Links Malloc MallocChunks MallocInv MallocBins MallocHeap MallocTrim.

Definition unmapped (m : mem) (lo hi : Z) : Prop := forall a, lo <= a < hi -> m !! a = None.

(** New space is mapped where nothing was, below the top of the address space:
    [brk] extends the data segment, whose end [b] the allocator remembers. *)
Class KernelLaws {K : Kernel} (st : Z) : Prop := {
  brk_start m : 0 < sys_brk m 0 < 2 ^ 61;
  brk_fresh m b n : m !! (st + 1560) = Some b -> 0 < n -> sys_brk m (b + n) = b + n -> unmapped m b (b + n) /\ b + n < 2 ^ 61;
  mmap_fresh m n : 0 < n -> sys_mmap m n <> MAP_FAILED ->
    0 < sys_mmap m n /\ sys_mmap m n mod 4096 = 0 /\ unmapped m (sys_mmap m n) (sys_mmap m n + n) /\ sys_mmap m n + n < 2 ^ 61;
  mremap_fresh m a old new : 0 < new -> sys_mremap m a old new <> MAP_FAILED ->
    0 < sys_mremap m a old new /\ sys_mremap m a old new mod 4096 = 0 /\
    unmapped (unmap a old m) (sys_mremap m a old new) (sys_mremap m a old new + new) /\ sys_mremap m a old new + new < 2 ^ 62;
  (* pages of a mapping given back *)
  mremap_shrink m a old new : 0 < new < old -> 0 < a -> a mod 4096 = 0 -> a + old < 2 ^ 62 -> mapped_words m a (a + old) -> sys_mremap m a old new <> MAP_FAILED }.

Lemma round_page n : n + (Z.land (u64 (- n)) (PAGE_SIZE - 1)) = n + (- n) mod 4096.
Proof.
  f_equal. change (PAGE_SIZE - 1) with (Z.ones 12). rewrite Z.land_ones by lia. unfold u64. change (2 ^ 12) with 4096.
  apply Z.mod_mod_divide. by exists (2 ^ 52).
Qed.

Section grow.
Context {F : Fuel} {K : Kernel} (st : Z) {KL : KernelLaws st}.
Abbreviation bin := (BIN_TO_CHUNK st).
Abbreviation base := (base st).
Abbreviation heap := (heap st).
Abbreviation frame := (frame st).
Implicit Types (m : mem) (C : chunks) (B : Z -> list Z) (D : areas).

(** Mapped words and a stretch without any do not overlap. *)
Lemma unmapped_clear m lo hi lo' hi' : mapped_words m lo' hi' -> lo' mod 8 = 0 -> lo' < hi' -> unmapped m lo hi -> lo mod 8 = 0 -> lo < hi ->
  hi' <= lo \/ hi <= lo'.
Proof.
  intros Hm Hl Hlt Hu Hl' Hlt'. destruct (Z.le_gt_cases hi' lo) as [|H1]; [by left|]. destruct (Z.le_gt_cases hi lo') as [|H2]; [by right|exfalso].
  destruct (Z.le_gt_cases lo lo').
  - destruct (Hm lo' ltac:(lia) Hl) as [v Hv]. by rewrite Hu in Hv by lia.
  - destruct (Hm lo ltac:(lia) Hl') as [v Hv]. by rewrite Hu in Hv by lia.
Qed.

Record clear_of C D (lo hi : Z) : Prop := {
  cl_chunk c k : C !! c = Some k -> c + extent k <= lo \/ hi <= c;
  cl_static : st + 1576 <= lo \/ hi <= st;
  cl_area d x s : D !! d = Some (x, s) -> d + s <= lo \/ hi <= d - x }.

Lemma unmapped_clear_of m C D lo hi : base m C D -> unmapped m lo hi -> lo mod 8 = 0 -> lo < hi -> clear_of C D lo hi.
Proof.
  intros Hb Hu Hl Hlt. split.
  - intros c k Hc. pose proof (ly_arith _ (bs_layout _ _ _ _ Hb) c k Hc). pose proof (extent_16 _ _ _ _ Hb c k Hc).
    apply (unmapped_clear m); try done; [by apply (bs_space _ _ _ _ Hb)|mlia|lia].
  - destruct (bs_static _ _ _ _ Hb) as (? & ? & ? & ?). apply (unmapped_clear m); try done. lia.
  - intros d x s Hd. destruct (bs_areas _ _ _ _ Hb d x s Hd) as (? & ? & ? & ? & ? & ? & ? & ? & ? & ?).
    apply (unmapped_clear m); try done; [mlia|lia].
Qed.

(** New words are mapped, and static objects other than [binmap] change. *)
Definition grown_mem m m' (lo hi : Z) : Prop := (forall a, is_Some (m !! a) -> is_Some (m' !! a)) /\ mapped_words m' lo hi /\
  forall a, ~ (lo <= a < hi) -> ~ is_scalar st a -> m' !! a = m !! a.

Lemma grown_heap m m' C B D lo hi : heap m C B D -> clear_of C D lo hi -> grown_mem m m' lo hi -> scalars st m' C B -> heap m' C B D.
Proof.
  intros Hh [Hk Hst Ha] (M1 & _ & M2) Hsc. pose proof (hp_base _ _ _ _ _ Hh) as Hb. pose proof (hp_binned _ _ _ _ _ Hh) as Hbn.
  assert (Ho : forall a, is_link st C a \/ is_header C a \/ is_area_header D a -> m' !! a = m !! a).
  { intros a Hx. apply M2.
    - intros Hr. destruct Hx as [[(c & k & Hc & H0 & Hx)|(i & Hi & Hx)]|[(c & k & Hc & Hx)|(d & x & s & Hd & Hx)]].
      + pose proof (Hk c k Hc). pose proof (extent_16 _ _ _ _ Hb c k Hc). lia.
      + unfold BIN_TO_CHUNK in Hx. lia.
      + pose proof (Hk c k Hc). pose proof (extent_16 _ _ _ _ Hb c k Hc). lia.
      + pose proof (Ha d x s Hd). pose proof (bs_areas _ _ _ _ Hb d x s Hd). lia.
    - intros Hs. destruct Hx as [Hx|[Hx|Hx]].
      + by apply (link_not_scalar _ _ _ _ Hb a Hx).
      + by apply (header_not_scalar _ _ _ _ Hb a Hx).
      + by apply (scalar_not_area _ _ _ _ Hb a Hs). }
  split; [by apply (base_ext st m)| | | |done|done].
  - intros c k Hc. rewrite !Ho; [by apply (hp_headers _ _ _ _ _ Hh)|right; left; exists c, k; auto..].
  - intros d x s Hd. rewrite !Ho; [by apply (hp_areas _ _ _ _ _ Hh)|right; right; exists d, x, s; auto..].
  - intros i Hi. assert (Hl : forall z, z ∈ bin i :: B i -> m' !! (z + 16) = m !! (z + 16) /\ m' !! (z + 24) = m !! (z + 24)).
    { intros z Hz. destruct (ring_links st C B Hbn i z Hi Hz) as [L1 L2]. split; apply Ho; left; by apply (free_link_link st m C D). }
    destruct (hp_rings _ _ _ _ _ Hh i Hi) as [HL|[E H0]]; [left|right].
    + apply (links_ext m); [| |done]; intros z Hz; apply Hl; [done|]. rewrite elem_of_app, list_elem_of_singleton in Hz. rewrite elem_of_cons. tauto.
    + split; [done|]. destruct (Hl (bin i) ltac:(by left)) as [-> _]. done.
Qed.

(** *** [__expand_heap] *)
Lemma map_words_grown m n p : n mod 8 = 0 -> 0 <= n -> p mod 8 = 0 -> forall a, map_words (Z.to_nat (n / 8)) p m !! a =
  if decide (p <= a < p + n /\ a mod 8 = 0) then Some 0 else m !! a.
Proof.
  intros Hn H0 Hp a. rewrite lookup_map_words. destruct (decide (_ /\ _)) as [[H1 H2]|H1], (decide (p <= a < p + n /\ a mod 8 = 0)) as [[H3 H4]|H3]; try done.
  - exfalso. apply H3. split; mlia.
  - exfalso. apply H1. split; mlia.
Qed.

(** The kernel has no memory for [n] bytes: it refuses a mapping of that size, of at
    most [k] bytes more, or of the least size by which the heap grows. *)
Definition denied m (k n : Z) : Prop := exists len t, m !! (st + 1568) = Some t /\ n <= len <= Z.max (n + k) (4096 * 2 ^ (t / 2)) /\ sys_mmap m len = MAP_FAILED.

(** Why there is no block of [n] bytes. *)
Definition unavailable m (k n : Z) : Prop := 2 ^ 62 - k < n \/ denied m k n.

Lemma denied_mono m k n k' n' : denied m k n -> n' <= n -> n + k <= n' + k' -> denied m k' n'.
Proof. intros (len & t & E & Hlen & Hf) Hn Hk. exists len, t. split; [done|]. split; [|done]. lia. Qed.

Lemma unavailable_mono m k n k' n' : unavailable m k n -> n' <= n -> n + k <= n' + k' -> unavailable m k' n'.
Proof. intros [H|H] Hn Hk; [left; lia|right; by apply (denied_mono m k n)]. Qed.

Definition grown C B D m (r : option (Z * Z)) m' (n : Z) : Prop := heap m' C B D /\
  match r with
  | None => grown_mem m m' 0 0 /\ denied m' 4096 n
  | Some (p, n') => n <= n' /\ n' mod 4096 = 0 /\ p mod 4096 = 0 /\ 0 < p /\ p + n' < 2 ^ 61 /\ unmapped m p (p + n') /\ grown_mem m m' p (p + n')
  end.

Lemma clear_of_none m C D : base m C D -> clear_of C D 0 0.
Proof.
  intros Hb. split.
  - intros c k Hc. pose proof (ly_arith _ (bs_layout _ _ _ _ Hb) c k Hc). lia.
  - pose proof (bs_static _ _ _ _ Hb). lia.
  - intros d x s Hd. pose proof (bs_areas _ _ _ _ Hb d x s Hd). lia.
Qed.

(** Stores to [brk] and [mmap_step]. *)
Lemma heap_brk m C B D b : heap m C B D -> 0 <= b < 2 ^ 62 -> b mod 4096 = 0 -> heap (<[st + 1560 := b]> m) C B D /\ grown_mem m (<[st + 1560 := b]> m) 0 0.
Proof.
  intros Hh Hb Hbm. assert (Hg : grown_mem m (<[st + 1560 := b]> m) 0 0).
  { split; [|split]; [intros a Ha; rewrite lookup_insert_is_Some'; by right|intros a Ha; lia|]. intros a _ Ha. apply lookup_insert_ne. intros <-. apply Ha. unfold is_scalar. auto. }
  split; [|done]. apply (grown_heap m _ C B D 0 0); [done|eapply clear_of_none, Hh|done|].
  destruct (hp_scalars _ _ _ _ _ Hh) as [S1 S2 S3 S4]. split.
  - by rewrite lookup_insert_ne by lia.
  - by rewrite lookup_insert_ne by lia.
  - exists b. by rewrite lookup_insert_eq.
  - by rewrite lookup_insert_ne by lia.
Qed.

Lemma heap_step m C B D t : heap m C B D -> 0 <= t < 100 -> heap (<[st + 1568 := t]> m) C B D /\ grown_mem m (<[st + 1568 := t]> m) 0 0.
Proof.
  intros Hh Ht. assert (Hg : grown_mem m (<[st + 1568 := t]> m) 0 0).
  { split; [|split]; [intros a Ha; rewrite lookup_insert_is_Some'; by right|intros a Ha; lia|]. intros a _ Ha. apply lookup_insert_ne. intros <-. apply Ha. unfold is_scalar. auto. }
  split; [|done]. apply (grown_heap m _ C B D 0 0); [done|eapply clear_of_none, Hh|done|].
  destruct (hp_scalars _ _ _ _ _ Hh) as [S1 S2 S3 S4]. split.
  - by rewrite lookup_insert_ne by lia.
  - by rewrite lookup_insert_ne by lia.
  - by rewrite lookup_insert_ne by lia.
  - exists t. by rewrite lookup_insert_eq.
Qed.

Lemma grown_map m n p : n mod 8 = 0 -> 0 <= n -> p mod 8 = 0 -> grown_mem m (map_words (Z.to_nat (n / 8)) p m) p (p + n).
Proof.
  intros Hn H0 Hp. pose proof (map_words_grown m n p Hn H0 Hp) as Hl. split; [|split].
  - intros a Ha. rewrite Hl. by case_decide.
  - intros a Ha Ham. rewrite Hl, decide_True by done. by eexists.
  - intros a Ha _. rewrite Hl, decide_False; [done|]. by intros [? _].
Qed.

Lemma grown_mem_trans m m1 m2 lo hi : grown_mem m m1 0 0 -> grown_mem m1 m2 lo hi -> grown_mem m m2 lo hi.
Proof.
  intros (A1 & A2 & A3) (B1 & B2 & B3). split; [auto|]. split; [done|]. intros a Ha Hs. rewrite B3 by done. apply A3; [lia|done].
Qed.

(** Space for the heap, as it is mapped: the static objects may have changed before. *)
Lemma heap_map m C B D n p : heap m C B D -> n mod 8 = 0 -> 0 < n -> p mod 8 = 0 -> unmapped m p (p + n) -> heap (map_words (Z.to_nat (n / 8)) p m) C B D.
Proof.
  intros Hh Hn H0 Hp Hu. pose proof (hp_base _ _ _ _ _ Hh) as Hb. pose proof (unmapped_clear_of m C D p (p + n) Hb Hu Hp ltac:(lia)) as Hcl.
  apply (grown_heap m _ C B D p (p + n)); [done|done|apply grown_map; [done|lia|done]|].
  pose proof (map_words_grown m n p Hn ltac:(lia) Hp) as Hl. destruct Hcl as [_ Hst _].
  assert (Hs : forall a, is_scalar st a -> map_words (Z.to_nat (n / 8)) p m !! a = m !! a).
  { intros a Ha. rewrite Hl, decide_False; [done|]. unfold is_scalar in Ha. lia. }
  destruct (hp_scalars _ _ _ _ _ Hh) as [S1 S2 S3 S4]. split; rewrite Hs by (unfold is_scalar; auto); done.
Qed.

(** The first call asks where the data segment ends. *)
Lemma wp_brk_init m C B D b0 (Q : unit -> mem -> Prop) : heap m C B D -> m !! (st + 1560) = Some b0 -> 0 <= b0 < 2 ^ 62 -> b0 mod 4096 = 0 ->
  (forall m1 b, heap m1 C B D -> grown_mem m m1 0 0 -> m1 !! (st + 1560) = Some b -> 0 < b < 2 ^ 62 -> b mod 4096 = 0 -> Q tt m1) ->
  wp (if b0 =? 0 then fun m => let b := sys_brk m 0 in (store (st + 1560) (b + Z.land (u64 (- b)) (PAGE_SIZE - 1))) m else mret tt) m Q.
Proof.
  intros Hh E0 Hr0 Hm0 HQ. destruct (Z.eqb_spec b0 0) as [->|Hne].
  - pose proof (brk_start (st:=st) m) as Hbs. change (wp (store (st + 1560) (sys_brk m 0 + (Z.land (u64 (- sys_brk m 0)) (PAGE_SIZE - 1)))) m Q).
    rewrite round_page. set (b := sys_brk m 0 + _). assert (Hb : 0 < b < 2 ^ 62 /\ b mod 4096 = 0) by (unfold b; split; mlia).
    clearbody b. apply wp_store; [by eexists|lia|]. destruct (heap_brk m C B D b Hh ltac:(lia) ltac:(tauto)) as [H1 H2].
    apply (HQ _ b); [done|done|by rewrite lookup_insert_eq|lia|tauto].
  - apply wp_ret, (HQ m b0); [done| |done|lia|done]. split; [done|]. split; [intros a Ha; lia|done].
Qed.

Lemma grown_some m m1 m2 m3 C B D p n n' : grown_mem m m1 0 0 -> grown_mem m1 m2 p (p + n') -> grown_mem m2 m3 0 0 -> heap m3 C B D ->
  unmapped m1 p (p + n') -> 0 < n <= n' -> n' mod 4096 = 0 -> p mod 4096 = 0 -> 0 < p -> p + n' < 2 ^ 61 -> grown C B D m (Some (p, n')) m3 n.
Proof.
  intros Hg1 Hg2 (B1 & B2 & B3) Hh Hu Hn Hnm Hpm Hp Hlt. pose proof (grown_mem_trans _ _ _ _ _ Hg1 Hg2) as (A1 & A2 & A3).
  split; [done|]. split_and!; try lia.
  - intros a Ha. destruct (m !! a) eqn:E; [|done]. destruct Hg1 as [Hg1 _]. destruct (Hg1 a ltac:(by eexists)) as [v Hv]. by rewrite Hu in Hv by lia.
  - split; [auto|]. split; [intros a Ha Ham; by apply B1, A2|]. intros a Ha Hs. rewrite B3 by (done || lia). by apply A3.
Qed.

(** The heap grows by a mapping. *)
Lemma wp_grow_mmap m m1 C B D n n1 t (Q : option (Z * Z) -> mem -> Prop) : heap m1 C B D -> grown_mem m m1 0 0 -> m1 !! (st + 1568) = Some t -> 0 <= t < 100 ->
  0 < n <= n1 -> n1 <= n + 4096 -> n1 <= 2 ^ 40 + 4096 -> n1 mod 4096 = 0 -> (forall r m', grown C B D m r m' n -> Q r m') ->
  wp (let min := u64 (PAGE_SIZE << (t / 2)) in
      let n := if n1 <? min then min else n1 in
      area ← (fun m => let a := sys_mmap m n in Done (a, if a =? MAP_FAILED then m else map_words (Z.to_nat (n / 8)) a m));
      if area =? MAP_FAILED then mret None
      else store (st + 1568) (u32 (t + 1));; mret (Some (area, n))) m1 Q.
Proof.
  intros Hh1 Hg1 Ht Htr Hn Hn1 Hn2 Hn3 HQ. cbv zeta. rewrite Z.shiftl_mul_pow2 by mlia.
  assert (Hmin : exists q, PAGE_SIZE * 2 ^ (t / 2) = 4096 * q /\ q = 2 ^ (t / 2)) by (eexists; split; [|done]; done). destruct Hmin as (q & Hq & Eq).
  assert (Hqr : 0 < q <= 2 ^ 49) by (subst q; split; [apply Z.pow_pos_nonneg; mlia|apply Z.pow_le_mono_r; mlia]).
  rewrite Hq, u64_id by lia. set (n2 := if n1 <? 4096 * q then 4096 * q else n1).
  assert (Hn2' : n1 <= n2 /\ n2 <= Z.max n1 (4096 * q) /\ 4096 * q <= n2 /\ n2 mod 4096 = 0 /\ n2 < 2 ^ 62) by (unfold n2; destruct (Z.ltb_spec n1 (4096 * q)); split_and!; mlia).
  clearbody n2. apply wp_bind. unfold wp at 1. cbv beta zeta. destruct (Z.eqb_spec (sys_mmap m1 n2) MAP_FAILED) as [E|E].
  - rewrite ?E, ?Z.eqb_refl. apply wp_ret, HQ. split; [done|]. split; [done|]. exists n2, t. split; [done|]. split; [|done]. rewrite <- Eq. lia.
  - destruct (mmap_fresh (st:=st) m1 n2 ltac:(lia) E) as (P1 & P2 & P3 & P4). set (p := sys_mmap m1 n2) in *.
    set (m2 := map_words _ _ _) in *. assert (Hh2 : heap m2 C B D) by (apply heap_map; try done; [mlia|lia|mlia]).
    assert (Ht2 : t + 1 < 100).
    { destruct (Z.le_gt_cases 98 t); [exfalso|lia]. assert (2 ^ 49 <= q); [|lia]. subst q. apply Z.pow_le_mono_r; mlia. }
    rewrite u32_id by lia. apply wp_bind, wp_store; [destruct (sc_step _ _ _ _ (hp_scalars _ _ _ _ _ Hh2)) as (? & -> & _); by eexists|lia|].
    destruct (heap_step m2 C B D (t + 1) Hh2) as [Hh3 Hg3]; [lia|].
    apply wp_ret, HQ. apply (grown_some m m1 m2); try done; [apply grown_map; [mlia|lia|mlia]|lia|tauto].
Qed.

Lemma wp___expand_heap m C B D n (Q : option (Z * Z) -> mem -> Prop) : heap m C B D -> 0 < n <= 2 ^ 40 ->
  (forall r m', grown C B D m r m' n -> Q r m') -> wp (__expand_heap st n) m Q.
Proof.
  intros Hh Hn HQ. unfold __expand_heap. change (SIZE_MAX / 2 - PAGE_SIZE) with 9223372036854771711. rewrite Z.gtb_ltb, (proj2 (Z.ltb_ge _ n)) by lia. rewrite round_page.
  set (n1 := n + (- n) mod 4096). assert (Hn1 : n <= n1 <= 2 ^ 40 + 4096 /\ n1 <= n + 4096 /\ n1 mod 4096 = 0) by (unfold n1; split_and!; mlia).
  clearbody n1. destruct (sc_brk _ _ _ _ (hp_scalars _ _ _ _ _ Hh)) as (b0 & Hb0 & Hr0 & Hm0).
  unfold brk, mmap_step. apply wp_bind, (wp_load _ _ b0); [done|]. apply wp_bind, (wp_brk_init m C B D); [done..|].
  intros m1 b Hh1 Hg1 Hb Hbr Hbm. apply wp_bind, (wp_load _ _ b); [done|]. apply wp_bind.
  apply (wp_mono _ _ (fun (g : bool) m2 => if g then unmapped m1 b (b + n1) /\ b + n1 < 2 ^ 61 /\ m2 = map_words (Z.to_nat (n1 / 8)) b m1 else m2 = m1)).
  { destruct (_ && _); [|by apply wp_ret]. unfold wp. destruct (Z.eqb_spec (sys_brk m1 (b + n1)) (b + n1)) as [E|]; [|done].
    destruct (brk_fresh (st:=st) m1 b n1 Hb ltac:(lia) E). done. }
  intros [] m2.
  - intros (Hu & Hlt & ->). set (m2 := map_words _ _ _) in *. assert (Hh2 : heap m2 C B D) by (apply heap_map; try done; [mlia|lia|mlia]).
    destruct (heap_brk m2 C B D (b + n1) Hh2) as [Hh3 Hg3]; [lia|mlia|].
    apply wp_bind, wp_store; [destruct (sc_brk _ _ _ _ (hp_scalars _ _ _ _ _ Hh2)) as (? & -> & _); by eexists|lia|].
    apply wp_ret, HQ. apply (grown_some m m1 m2); try done; [apply grown_map; [mlia|lia|mlia]|lia|tauto|lia].
  - intros ->. destruct (sc_step _ _ _ _ (hp_scalars _ _ _ _ _ Hh1)) as (t & Ht & Htr). apply wp_bind, (wp_load _ _ t); [done|].
    apply (wp_grow_mmap m m1 C B D n n1 t); try done; lia.
Qed.

(** *** New space becomes a chunk, with a sentinel behind it *)
Section extend.
Context (m m1 : mem) (C : chunks) (B : Z -> list Z) (D : areas) (p sz w n pz : Z).
Context (Hb0 : base m C D) (Hh : heap m1 C B D) (Hg : grown_mem m m1 p (p + sz)) (Hun : unmapped m p (p + sz)).
Context (Hp : p mod 4096 = 0 /\ 0 < p /\ p + sz < 2 ^ 61 /\ sz mod 4096 = 0 /\ 64 <= sz).
Context (Hcase : (w = p + 16 /\ n = sz - 32 /\ pz = 1) \/ (w = p - 16 /\ n = sz /\ C !! w = Some (Chunk pz 0 true))).
Context (Hpz : m1 !! w = Some pz).

Let Hb : base m1 C D := hp_base _ _ _ _ _ Hh.
Let Hly : layout C := bs_layout _ _ _ _ Hb.
Abbreviation C' := (extend w pz n C).

Lemma ext_clear : clear_of C D p (p + sz).
Proof. apply (unmapped_clear_of m); [done|done|mlia|lia]. Qed.

Lemma ext_arith : w mod 32 = 16 /\ n mod 32 = 0 /\ 0 < n /\ 0 < w /\ w + n + 16 < 2 ^ 62 /\ w + n + 16 = p + sz /\ p - 16 <= w.
Proof. destruct Hcase as [(-> & -> & _)|(-> & -> & _)]; split_and!; mlia. Qed.

Lemma ext_free c k : C !! c = Some k -> c <> w -> c + extent k <= w \/ w + n + 16 <= c.
Proof.
  intros Hc Hne. pose proof (cl_chunk _ _ _ _ ext_clear c k Hc) as Hcl. pose proof ext_arith. pose proof (extent_16 _ _ _ _ Hb c k Hc).
  destruct Hcase as [(Ew & _ & _)|(Ew & _ & Hw)]; [lia|]. destruct (Z.lt_trichotomy c w) as [Hlt|[|Hlt]]; [|done|].
  - left. by apply (ly_disjoint _ Hly c k w (Chunk pz 0 true)).
  - pose proof (ly_disjoint _ Hly w (Chunk pz 0 true) c k Hw Hc Hlt) as Hd. change (extent (Chunk pz 0 true)) with 16 in Hd. lia.
Qed.

Lemma ext_at : C !! w = Some (Chunk pz 0 true) \/ (C !! w = None /\ pz = 1).
Proof.
  destruct Hcase as [(Ew & _ & E)|(_ & _ & Hw)]; [right|by left]. split; [|done]. destruct (C !! w) as [k|] eqn:Hk; [exfalso|done].
  pose proof (cl_chunk _ _ _ _ ext_clear w k Hk). pose proof (extent_16 _ _ _ _ Hb w k Hk). lia.
Qed.

Lemma ext_arith5 : w mod 32 = 16 /\ n mod 32 = 0 /\ 0 < n /\ 0 < w /\ w + n + 16 < 2 ^ 62.
Proof. pose proof ext_arith. tauto. Qed.

Lemma lookup_ext x y : C' !! x = Some y <->
  (x = w /\ y = Chunk pz n true) \/ (x = w + n /\ y = Chunk (n + 1) 0 true) \/ (x <> w /\ x <> w + n /\ C !! x = Some y).
Proof. apply lookup_extend; [apply ext_arith5|apply ext_free|apply ext_at]. Qed.

Lemma ext_stays x y : C !! x = Some y -> x <> w -> C' !! x = Some y.
Proof. intros Hx Hne. apply extend_other; try done; [apply ext_arith5|apply ext_free|apply ext_at]. Qed.

Lemma ext_in_chunks a : in_chunks C' a -> in_chunks C a \/ p <= a < p + sz.
Proof.
  pose proof ext_arith. intros (x & y & Hx & Ha). apply lookup_ext in Hx as [[-> ->]|[[-> ->]|(_ & _ & Hx)]]; [| |left; by exists x, y].
  - rewrite extent_size in Ha by (cbn; lia). cbn in Ha. destruct Hcase as [(Ew & _ & _)|(Ew & _ & Hw)]; [right; lia|].
    destruct (Z.lt_ge_cases a p); [left|right; lia]. exists w, (Chunk pz 0 true). split; [done|]. change (extent (Chunk pz 0 true)) with 16. lia.
  - change (extent (Chunk (n + 1) 0 true)) with 16 in Ha. right. destruct Hcase; lia.
Qed.

Lemma ext_base : base m1 C' D.
Proof.
  pose proof ext_arith as Har. pose proof Hb as [_ Hst Ha Hsp Hcl Hap]. pose proof Hg as (G1 & G2 & G3). pose proof ext_clear as [K1 K2 K3].
  assert (Hreg : forall a, w <= a < w + n + 16 -> (p <= a < p + sz) \/ (C !! w = Some (Chunk pz 0 true) /\ w = p - 16 /\ w <= a < w + 16)).
  { intros a Hx. destruct Hcase as [(Ew & En & _)|(Ew & En & Hw)]; [left; lia|]. destruct (Z.lt_ge_cases a p); [right|left; lia]. split; [done|lia]. }
  split; [apply extend_layout; try done; [apply ext_arith5|apply ext_free|apply ext_at]|done|done| | |done].
  - assert (Hm : mapped_words m1 w (w + n + 16)).
    { intros a Hx Hm8. destruct (Hreg a Hx) as [Hr|(Hw & Ew & Hr)]; [by apply G2|]. by apply (Hsp w _ Hw). }
    intros x y [[-> ->]|[[-> ->]|(_ & _ & Hx)]]%lookup_ext; [| |by apply Hsp]; intros a Hx Hm8; apply Hm; try done.
    + rewrite extent_size in Hx by (cbn; lia). cbn in Hx. lia.
    + change (extent (Chunk (n + 1) 0 true)) with 16 in Hx. lia.
  - assert (Hm : forall lo hi, foreign st D lo hi -> w + n + 16 <= lo \/ hi <= w).
    { intros lo hi Hf. assert (Hpq : p + sz <= lo \/ hi <= p).
      { destruct Hf as [[-> ->]|(d & x & s & Hd & -> & ->)]; [lia|]. pose proof (K3 d x s Hd). lia. }
      destruct Hcase as [(Ew & En & _)|(Ew & En & Hw)]; [lia|]. pose proof (Hcl w _ lo hi Hw Hf) as Hc2. change (extent (Chunk pz 0 true)) with 16 in Hc2.
      assert (lo < hi); [|lia]. destruct Hf as [[-> ->]|(d & x & s & Hd & -> & ->)]; [lia|]. pose proof (Ha d x s Hd). lia. }
    intros x y lo hi [[-> ->]|[[-> ->]|(_ & _ & Hx)]]%lookup_ext Hf; [| |by apply (Hcl x y)].
    + rewrite extent_size by (cbn; lia). cbn. destruct (Hm lo hi Hf); lia.
    + change (extent (Chunk (n + 1) 0 true)) with 16. destruct (Hm lo hi Hf); lia.
Qed.

Definition ext_mem : mem :=
  <[w + 8 := n + 1]> (<[w + n + 8 := 1]> (<[w + n := n + 1]> (<[st + 1552 := p + sz]> m1))).

Lemma ext_headers : headers ext_mem C'.
Proof.
  pose proof ext_arith as Har. pose proof ext_base as Hb'.
  assert (Hns : forall a, is_header C' a -> a <> st + 1552).
  { intros a Ha ->. apply (header_not_scalar _ _ _ _ Hb' _ Ha). unfold is_scalar. auto. }
  intros x y Hy. assert (Hx1 : x <> st + 1552) by (apply Hns; exists x, y; auto). assert (Hx2 : x + 8 <> st + 1552) by (apply Hns; exists x, y; auto).
  pose proof (ly_arith _ (bs_layout _ _ _ _ Hb') x y Hy) as (Hxm & _). unfold ext_mem.
  apply lookup_ext in Hy as [[-> ->]|[[-> ->]|(H1 & H2 & Hy)]]; unfold c_word; cbn.
  - rewrite !(lookup_insert_ne _ _ w), lookup_insert_eq by lia. done.
  - rewrite !(lookup_insert_ne _ _ (w + n)), lookup_insert_eq by lia. split; [done|]. by rewrite lookup_insert_ne, lookup_insert_eq by lia.
  - destruct (hp_headers _ _ _ _ _ Hh x y Hy) as [E1 E2]. rewrite !(lookup_insert_ne _ _ x), !(lookup_insert_ne _ _ (x + 8)) by mlia. done.
Qed.

Lemma ext_same_free : same_free C C'.
Proof.
  intros x s. split.
  - intros (y & Hx & Hxu & <-). exists y. split; [|done]. apply ext_stays; [done|]. intros ->. destruct ext_at as [E|[E _]]; rewrite Hx in E; [|done].
    injection E as ->. done.
  - intros (y & [[-> ->]|[[-> ->]|(_ & _ & Hx)]]%lookup_ext & Hxu & <-); [done|done|]. by exists y.
Qed.

Lemma ext_heap : heap ext_mem C' B D.
Proof.
  pose proof ext_base as Hb'. pose proof ext_same_free as Hsf. pose proof (same_free_binned C C' B Hsf (hp_binned _ _ _ _ _ Hh)) as Hbn'.
  assert (Lw : C' !! w = Some (Chunk pz n true)) by (apply lookup_ext; auto). assert (Ls : C' !! (w + n) = Some (Chunk (n + 1) 0 true)) by (apply lookup_ext; auto).
  assert (I1 : is_header C' (w + 8)) by (exists w, (Chunk pz n true); auto). assert (I2 : is_header C' (w + n + 8)) by (eexists _, _; split; [exact Ls|auto]).
  assert (I3 : is_header C' (w + n)) by (eexists _, _; split; [exact Ls|auto]). assert (I4 : is_scalar st (st + 1552)) by (unfold is_scalar; auto).
  assert (Hk : forall a, is_header C' a -> ~ is_area_header D a /\ ~ is_scalar st a /\ ~ is_free_link st C' a).
  { intros a Ha. split; [by apply (header_not_area _ _ _ _ Hb')|]. split; [by apply (header_not_scalar _ _ _ _ Hb')|].
    intros Hl%(free_link_link _ _ _ _ Hb'). by apply (header_not_link _ _ _ _ Hb' a). }
  split.
  - apply (base_ext st m1); [|done]. intros a Ha. unfold ext_mem. rewrite !lookup_insert_is_Some'. auto 10.
  - apply ext_headers.
  - do 3 (apply areas_store; [by apply Hk|]). apply areas_store; [by apply (scalar_not_area _ _ _ _ Hb')|apply (hp_areas _ _ _ _ _ Hh)].
  - do 3 (apply (rings_store st C' B Hbn'); [by apply Hk|]). apply (rings_store st C' B Hbn'); [|apply (hp_rings _ _ _ _ _ Hh)].
    intros Hl%(free_link_link _ _ _ _ Hb'). by apply (link_not_scalar _ _ _ _ Hb' (st + 1552)).
  - done.
  - do 3 (apply scalars_store; [by apply Hk|]). destruct (hp_scalars _ _ _ _ _ Hh) as [S1 _ S3 S4]. split.
    + by rewrite lookup_insert_ne by lia.
    + exists (p + sz). rewrite lookup_insert_eq. split; [done|]. right. exists (n + 1). replace (p + sz - 16) with (w + n) by (pose proof ext_arith; lia). done.
    + by rewrite lookup_insert_ne by lia.
    + by rewrite lookup_insert_ne by lia.
Qed.

Lemma ext_frame H : frame (State m C D H) (State ext_mem C' D (w :: H)).
Proof.
  pose proof ext_base as Hb'. pose proof ext_arith as Har. pose proof Hg as (G1 & G2 & G3).
  assert (Lw : C' !! w = Some (Chunk pz n true)) by (apply lookup_ext; auto). assert (Ls : C' !! (w + n) = Some (Chunk (n + 1) 0 true)) by (apply lookup_ext; auto).
  assert (HD : D !! w = None) by by apply (chunk_not_area st m1 C' D w _ Hb' Lw).
  assert (Hw0 : forall k, C !! w = Some k -> c_size k = 0).
  { intros k Hk. destruct ext_at as [E|[E _]]; [|congruence]. rewrite Hk in E. by injection E as ->. }
  split; cbn.
  - intros a Ha [v Hv]. assert (Hreg : ~ (p <= a < p + sz)) by (intros Hr; by rewrite Hun in Hv).
    assert (Ha' : is_user st C' D (w :: H) a).
    { destruct Ha as [(c & k & Hc & Hu & Hn & Ha)|[(d & x & s & Hd & Hn & Ha)|(Ho1 & Ho2 & Ho3)]].
      - left. assert (c <> w) by (intros ->; pose proof (Hw0 k Hc); lia). exists c, k. split; [by apply ext_stays|]. split; [done|]. split; [by apply not_elem_of_cons|lia].
      - right. left. exists d, x, s. split; [done|]. split; [|lia]. apply not_elem_of_cons. split; [by intros ->; rewrite HD in Hd|done].
      - do 2 right. split; [done|]. split; [|done]. by intros [?|?]%ext_in_chunks. }
    split; [done|]. pose proof (user_not_scalar _ _ _ _ Hb' _ _ Ha') as Hns. pose proof (user_not_header _ _ _ _ Hb' _ _ Ha') as Hnh.
    unfold ext_mem. rewrite !lookup_insert_ne; [by apply G3|intros <-..].
    + apply Hns. unfold is_scalar. auto.
    + apply Hnh. eexists _, _. split; [exact Ls|auto].
    + apply Hnh. eexists _, _. split; [exact Ls|auto].
    + apply Hnh. eexists _, _. split; [exact Lw|auto].
  - intros c l. unfold block, cblock. rewrite not_elem_of_cons. split.
    + intros [(Hn & H0 & k & Hk & Hu & E)|(Hn & x & Hx)].
      * left. assert (c <> w) by (intros ->; pose proof (Hw0 k Hk); lia). split; [done|]. split; [done|]. exists k. split; [by apply ext_stays|done].
      * right. split; [split; [|done]|by exists x]. intros ->. by rewrite HD in Hx.
    + intros [([Hne Hn] & H0 & k & Hk & Hu & E)|([Hne Hn] & x & Hx)]; [left|right; split; [done|by exists x]].
      apply lookup_ext in Hk as [[-> _]|[[-> ->]|(_ & _ & Hk)]]; [done|cbn in E; lia|]. split; [done|]. split; [done|]. by exists k.
Qed.
End extend.

(** *** [expand_heap] *)
Lemma grown_none_frame m m' C B D H : base m C D -> grown_mem m m' 0 0 -> frame (State m C D H) (State m' C D H).
Proof.
  intros Hb (_ & _ & G3). split; [|done]. cbn. intros a Ha _. split; [done|]. apply G3; [lia|]. by apply (user_not_scalar st m C D Hb H).
Qed.

Lemma clear_not_own m C D lo hi a : base m C D -> clear_of C D lo hi -> lo <= a < hi -> ~ is_own st C D a.
Proof.
  intros Hb [K1 K2 K3] Hin [(c & k & Hc & Ha)|[[(c & k & Hc & Hu & Ha)|(i & Hi & Ha)]|[Ha|(d & x & s & Hd & Ha)]]].
  - pose proof (K1 c k Hc). pose proof (extent_16 _ _ _ _ Hb c k Hc). lia.
  - pose proof (K1 c k Hc). pose proof (extent_16 _ _ _ _ Hb c k Hc) as [_ He']. pose proof (free_size st m C D Hb c k Hc Hu). lia.
  - unfold BIN_TO_CHUNK in Ha. lia.
  - unfold is_scalar in Ha. lia.
  - pose proof (K3 d x s Hd). pose proof (bs_areas _ _ _ _ Hb d x s Hd). lia.
Qed.

Lemma wp_expand_heap m C B D n (Q : option Z -> mem -> Prop) : heap m C B D -> 32 <= n <= MMAP_THRESHOLD ->
  (forall m', heap m' C B D -> (forall H, frame (State m C D H) (State m' C D H)) -> denied m' 4128 n -> Q None m') ->
  (forall m' C' w k, heap m' C' B D -> (forall H, frame (State m C D H) (State m' C' D (w :: H))) -> C' !! w = Some k -> c_inuse k = true -> n <= c_size k -> Q (Some w) m') ->
  wp (expand_heap st n) m Q.
Proof.
  unfold MMAP_THRESHOLD, SIZE_ALIGN. intros Hh Hn HQ1 HQ2. pose proof (hp_base _ _ _ _ _ Hh) as Hb. unfold expand_heap, SIZE_ALIGN.
  apply wp_bind, (wp___expand_heap m C B D); [done|lia|]. intros [[p sz]|] m1 [Hh1 Hg].
  2: { destruct Hg as [Hg Hden]. apply wp_ret, HQ1; [done| |by apply (denied_mono _ _ _ _ _ Hden); lia]. intros H. by apply (grown_none_frame m m1 C B D). }
  destruct Hg as (G1 & G2 & G3 & G4 & G5 & Hun & Hg). pose proof (hp_base _ _ _ _ _ Hh1) as Hb1.
  destruct (sc_end _ _ _ _ (hp_scalars _ _ _ _ _ Hh1)) as (e & He & Hend).
  pose proof (unmapped_clear_of m C D p (p + sz) Hb Hun ltac:(mlia) ltac:(lia)) as Hcl.
  unfold end_, psize, csize, MEM_TO_CHUNK, OVERHEAD, C_INUSE. apply wp_bind, (wp_load _ _ e); [done|]. apply wp_bind.
  (* the chunk, its size and its [psize] *)
  apply (wp_mono _ _ (fun '(p', n') m2 => exists w pz, p' = w + 16 /\ heap m2 C B D /\ grown_mem m m2 p (p + sz) /\ m2 !! w = Some pz /\
    n <= n' /\ p' + n' = p + sz /\ ((w = p + 16 /\ n' = sz - 32 /\ pz = 1) \/ (w = p - 16 /\ n' = sz /\ C !! w = Some (Chunk pz 0 true))))).
  { destruct (Z.eqb_spec p e) as [E|E]; cbn [negb].
    - apply wp_ret. destruct Hend as [|(pz & Hpz)]; [lia|]. rewrite <- E in Hpz. exists (p - 16), pz. split; [lia|]. split; [done|]. split; [done|].
      split; [by destruct (hp_headers _ _ _ _ _ Hh1 _ _ Hpz)|]. split; [lia|]. split; [done|]. by right.
    - assert (Hin : p <= p + 16 < p + sz) by lia. replace (p + 32 - 16) with (p + 16) by lia.
      pose proof (clear_not_own m C D p (p + sz) (p + 16) Hb Hcl Hin) as Ho.
      apply wp_bind, wp_store; [apply Hg; [lia|mlia]|by vm_compute|]. apply wp_ret. exists (p + 16), 1. split; [lia|].
      split; [|split; [|split; [|split; [lia|split; [lia|left]]]]].
      + apply (heap_words_ext st m1); [intros a Ha; rewrite lookup_insert_is_Some'; by right| |done]. intros a Ha. apply lookup_insert_ne. intros <-. by apply Ho.
      + destruct Hg as (A1 & A2 & A3). split; [intros a Ha; rewrite lookup_insert_is_Some'; auto|]. split; [intros a Ha Ham; rewrite lookup_insert_is_Some'; auto|].
        intros a Ha Hs. rewrite lookup_insert_ne by lia. by apply A3.
      + by rewrite lookup_insert_eq.
      + split_and!; lia. }
  intros [p' n'] m2 (w & pz & -> & Hh2 & Hg2 & Hpz & Hn' & Epn & Hcase).
  assert (Hnm : n' mod 32 = 0) by (destruct Hcase as [(_ & -> & _)|(_ & -> & _)]; mlia).
  assert (Hw32 : w mod 32 = 16 /\ 0 < w) by (destruct Hcase as [(-> & _)|(-> & _)]; split; mlia).
  assert (Hpsz : p mod 4096 = 0 /\ 0 < p /\ p + sz < 2 ^ 61 /\ sz mod 4096 = 0 /\ 64 <= sz) by (split_and!; lia).
  pose proof (ext_heap m m2 C B D p sz w n' pz Hb Hh2 Hg2 Hun Hpsz Hcase Hpz) as Hh3. pose proof (ext_frame m m2 C B D p sz w n' pz Hb Hh2 Hg2 Hun Hpsz Hcase Hpz) as Hf3.
  pose proof (ext_base m m2 C B D p sz w n' pz Hb Hh2 Hg2 Hun Hpsz Hcase Hpz) as Hb3.
  pose proof (lookup_ext m m2 C B D p sz w n' pz Hb Hh2 Hun Hpsz Hcase Hpz) as Lk.
  assert (Lw : extend w pz n' C !! w = Some (Chunk pz n' true)) by (apply Lk; auto).
  assert (Ls : extend w pz n' C !! (w + n') = Some (Chunk (n' + 1) 0 true)) by (apply Lk; auto).
  pose proof (bs_space _ _ _ _ Hb3 _ _ Lw) as Mw. pose proof (bs_space _ _ _ _ Hb3 _ _ Ls) as Ms. rewrite extent_size in Mw by (cbn; lia). cbn in Mw.
  change (extent (Chunk (n' + 1) 0 true)) with 16 in Ms.
  unfold ext_mem in *. replace (w + 16 + n' - 16) with (w + n') by lia. replace (w + 16 - 16) with w by lia. rewrite Epn, !or_1 by mlia.
  change (0 .| 1) with 1.
  apply wp_bind, wp_store; [destruct (sc_end _ _ _ _ (hp_scalars _ _ _ _ _ Hh2)) as (? & -> & _); by eexists|lia|].
  apply wp_bind, wp_store; [rewrite lookup_insert_is_Some'; right; apply Ms; mlia|lia|].
  apply wp_bind, wp_store; [rewrite !lookup_insert_is_Some'; do 2 right; apply Ms; mlia|lia|].
  apply wp_bind, wp_store; [rewrite !lookup_insert_is_Some'; do 3 right; apply Mw; mlia|lia|].
  apply wp_ret. eapply HQ2; [exact Hh3|exact Hf3|exact Lw|done|done].
Qed.
End grow.
