(* ===== verification/MallocBlocks.v ===== *)
(** The blocks of the allocator of Malloc.v as its clients see them: their words,
    what becomes of them when other blocks change hands, new mapped blocks, and
    the copying and clearing of words. *)
From S2P Require Import Prelude Mem Links Malloc MallocChunks MallocInv MallocBins MallocHeap MallocTrim MallocGrow.

Section blocks.
Context {F : Fuel} (st : Z).
Abbreviation bin := (BIN_TO_CHUNK st).
Abbreviation base := (base st).
Abbreviation heap := (heap st).
Abbreviation frame := (frame st).
Implicit Types (m : mem) (C : chunks) (B : Z -> list Z) (D : areas).

(** *** A mapped block *)
Section area.
Context (m m' : mem) (C : chunks) (B : Z -> list Z) (D : areas) (d x s : Z) (Hh : heap m C B D).
Context (Ha : d mod 32 = 16 /\ x mod 32 = 16 /\ s mod 32 = 16 /\ 16 <= x /\ 16 < s /\ 0 < d - x /\ d + s < 2 ^ 62 /\ (d - x) mod 4096 = 0 /\ (x + s) mod 4096 = 0).
Context (Hun : unmapped m (d - x) (d + s)) (Hout : forall a, ~ (d - x <= a < d + s) -> m' !! a = m !! a).
Context (Hin : mapped_words m' (d - x) (d + s)) (Hd1 : m' !! d = Some x) (Hd2 : m' !! (d + 8) = Some s).
Let Hb : base m C D := hp_base _ _ _ _ _ Hh.
Abbreviation D' := (<[d := (x, s)]> D).

Lemma area_clear : clear_of st C D (d - x) (d + s).
Proof. apply (unmapped_clear_of st m); [done|done|mlia|lia]. Qed.

Lemma area_new : D !! d = None.
Proof.
  destruct (D !! d) as [[y l]|] eqn:E; [exfalso|done]. pose proof (cl_area _ _ _ _ _ area_clear d y l E). pose proof (bs_areas _ _ _ _ Hb d y l E). lia.
Qed.

Lemma area_mapped lo hi : mapped_words m lo hi -> hi <= d - x \/ d + s <= lo -> mapped_words m' lo hi.
Proof. intros Hm Hlo a Hax Ham. rewrite Hout by lia. by apply Hm. Qed.

Lemma area_base : base m' C D'.
Proof.
  pose proof Hb as [Hly (S1 & S2 & S3 & S4) Har Hsp Hcl Hap]. pose proof area_clear as [K1 K2 K3]. split; [done| | | | |].
  - split_and!; try done. apply area_mapped; [done|lia].
  - intros e y l [[<- [= <- <-]]|[Hne He]]%lookup_insert_Some; [split_and!; try done; lia|].
    pose proof (K3 e y l He). destruct (Har e y l He) as (? & ? & ? & ? & ? & ? & ? & ? & ? & ?). split_and!; try done. apply area_mapped; [done|lia].
  - intros c k Hc. apply area_mapped; [by apply Hsp|]. destruct (K1 c k Hc); lia.
  - intros c k lo hi Hc [Hf|(e & y & l & [[<- [= <- <-]]|[Hne He]]%lookup_insert_Some & -> & ->)].
    + apply (Hcl c k); [done|by left].
    + destruct (K1 c k Hc); lia.
    + apply (Hcl c k); [done|right]. by exists e, y, l.
  - intros e y l lo hi [[<- [= <- <-]]|[Hne He]]%lookup_insert_Some Hf.
    + rewrite delete_insert_id in Hf by apply area_new. destruct Hf as [[-> ->]|(e' & y' & l' & He' & -> & ->)]; [lia|]. destruct (K3 e' y' l' He'); lia.
    + destruct Hf as [Hf|(e' & y' & l' & [Hne' [[<- [= <- <-]]|[Hne2 He']]%lookup_insert_Some]%lookup_delete_Some & -> & ->)].
      * apply (Hap e y l); [done|by left].
      * destruct (K3 e y l He); lia.
      * apply (Hap e y l); [done|right]. exists e', y', l'. by rewrite lookup_delete_ne.
Qed.

Lemma area_heap : heap m' C B D'.
Proof.
  pose proof area_clear as [K1 K2 K3].
  assert (Hown : forall a, is_link st C a \/ is_header C a \/ is_scalar st a -> m' !! a = m !! a).
  { intros a Hx. apply Hout. intros Hr. destruct Hx as [[(c & k & Hc & H0 & Hx)|(i & Hi & Hx)]|[(c & k & Hc & Hx)|Hx]].
    - pose proof (K1 c k Hc). pose proof (extent_16 _ _ _ _ Hb c k Hc). lia.
    - unfold BIN_TO_CHUNK in Hx. lia.
    - pose proof (K1 c k Hc). pose proof (extent_16 _ _ _ _ Hb c k Hc). lia.
    - unfold is_scalar in Hx. lia. }
  apply (heap_change st m m' C C B D); [done|apply area_base| | |done|by eexists|].
  - intros c k Hc. rewrite !Hown; [by apply (hp_headers _ _ _ _ _ Hh)|right; left; exists c, k; auto..].
  - intros e y l [[<- [= <- <-]]|[Hne He]]%lookup_insert_Some; [done|]. pose proof (K3 e y l He). pose proof (bs_areas _ _ _ _ Hb e y l He).
    rewrite !Hout by lia. by apply (hp_areas _ _ _ _ _ Hh).
  - intros a [Hx|Hx]; apply Hown; [left|tauto]. by apply (free_link_link st m C D).
Qed.

Lemma area_frame H : frame (State m C D H) (State m' C D' (d :: H)).
Proof.
  pose proof area_new as Hnew. assert (Hcd : forall k, C !! d = Some k -> False).
  { intros k Hk. pose proof (cl_chunk _ _ _ _ _ area_clear d k Hk). pose proof (extent_16 _ _ _ _ Hb d k Hk). lia. }
  split; cbn.
  - intros a Hax [v Hv]. assert (Hr : ~ (d - x <= a < d + s)) by (intros Hr; by rewrite Hun in Hv). split; [|by apply Hout].
    destruct Hax as [(c & k & Hc & Hu & Hn & Hax)|[(e & y & l & He & Hn & Hax)|(Ho1 & Ho2 & Ho3)]].
    + left. exists c, k. split; [done|]. split; [done|]. split; [|done]. apply not_elem_of_cons. split; [|done]. intros ->. by apply (Hcd k).
    + right. left. assert (e <> d) by (intros ->; congruence). exists e, y, l. split; [by rewrite lookup_insert_ne|]. split; [by apply not_elem_of_cons|done].
    + do 2 right. split; [done|]. split; [done|]. intros e y l [[<- [= <- <-]]|[Hne He]]%lookup_insert_Some; [done|by apply Ho3].
  - intros c l. unfold block, cblock. rewrite not_elem_of_cons. split.
    + intros [(Hn & H0 & k & Hk & Hu)|(Hn & y & Hy)].
      * left. split; [split; [|done]|split; [done|by exists k]]. intros ->. by apply (Hcd k).
      * right. assert (c <> d) by (intros ->; congruence). split; [done|]. exists y. by rewrite lookup_insert_ne.
    + intros [([Hne Hn] & H0 & k & Hk)|([Hne Hn] & y & Hy)]; [left; split; [done|]; split; [done|by exists k]|right].
      rewrite lookup_insert_ne in Hy by done. split; [done|by exists y].
Qed.
End area.

(** *** The words of a block *)
Lemma block_user C D c s a : block C D [] c s -> c + 16 <= a < c + s -> is_user st C D [] a.
Proof.
  intros [(_ & H0 & k & Hk & Hu & <-)|(_ & x & Hx)] Ha.
  - left. exists c, k. split_and!; try done; [apply not_elem_of_nil|lia|lia].
  - right. left. exists c, x, s. split_and!; try done; [apply not_elem_of_nil|lia|lia].
Qed.

Lemma block_facts m C B D c s : heap m C B D -> block C D [] c s -> c mod 32 = 16 /\ 0 < c /\ 16 < s /\ c + s < 2 ^ 62 /\ s mod 16 = 0 /\ mapped_words m c (c + s).
Proof.
  intros Hh Hbl. pose proof (hp_base _ _ _ _ _ Hh) as Hb. destruct Hbl as [(_ & H0 & k & Hk & Hu & <-)|(_ & x & Hx)].
  - pose proof (chunk_arith C c k (bs_layout _ _ _ _ Hb) Hk H0). split_and!; try lia; [mlia|]. rewrite <- extent_size by done. by apply (bs_space _ _ _ _ Hb).
  - pose proof (bs_areas _ _ _ _ Hb c x s Hx) as Ha. split_and!; try lia; [mlia|]. intros a Hr Hm. apply Ha; [lia|done].
Qed.

Lemma held_block_not_user m C B D c s H a : heap m C B D -> block C D [] c s -> c ∈ H -> c <= a < c + s -> ~ is_user st C D H a.
Proof.
  intros Hh Hbl Hin Ha Hu. pose proof (hp_base _ _ _ _ _ Hh) as Hb. destruct Hbl as [(_ & H0 & k & Hk & Hku & <-)|(_ & x & Hx)].
  - by apply (held_not_user st m C D H c k a Hb Hk Hin Ha).
  - pose proof (bs_areas _ _ _ _ Hb c x s Hx). destruct Hu as [(c' & k' & Hc' & _ & Hn & Ha')|[(d & y & l & Hd & Hn & Ha')|(_ & _ & Ho)]].
    + pose proof (clear_area _ _ _ _ Hb c' k' c x s Hc' Hx) as Hcl. rewrite extent_size in Hcl by lia. lia.
    + assert (d <> c) by by intros ->. pose proof (bs_areas _ _ _ _ Hb d y l Hd).
      destruct (bs_apart _ _ _ _ Hb c x s (d - y) (d + l) Hx); [right; exists d, y, l; by rewrite lookup_delete_ne|lia..].
    + apply (Ho c x s Hx). lia.
Qed.

(** Writing into a block. *)
Lemma heap_write m m' C B D c s : heap m C B D -> block C D [] c s -> (forall a, is_Some (m !! a) -> is_Some (m' !! a)) ->
  (forall a, ~ (c + 16 <= a < c + s) -> m' !! a = m !! a) -> heap m' C B D /\ forall H s0, c ∈ H -> frame s0 (State m C D H) -> frame s0 (State m' C D H).
Proof.
  intros Hh Hbl Hm He. pose proof (hp_base _ _ _ _ _ Hh) as Hb. split.
  - apply (heap_words_ext st m); [done| |done]. intros a Ha. apply He. intros Hr. apply (own_not_user st m C D [] a Hb Ha). by apply (block_user C D c s).
  - intros H s0 Hin Hf. apply (frame_ext st m); [|done]. intros a Ha. apply He. intros Hr. apply (held_block_not_user m C B D c s H a Hh Hbl Hin ltac:(lia) Ha).
Qed.

Lemma wp_IS_MMAPPED m C B D c s (Q : bool -> mem -> Prop) : heap m C B D -> block C D [] c s ->
  ((exists k, C !! c = Some k /\ c_inuse k = true /\ c_size k = s /\ s <> 0) -> Q false m) -> ((exists x, D !! c = Some (x, s)) -> Q true m) ->
  wp (IS_MMAPPED c) m Q.
Proof.
  intros Hh [(_ & H0 & k & Hk & Hu & <-)|(_ & x & Hx)] HQ1 HQ2.
  - apply (wp_IS_MMAPPED_chunk st m C B D c k); try done. apply HQ1. by exists k.
  - destruct (hp_areas _ _ _ _ _ Hh c x s Hx) as [_ E]. pose proof (bs_areas _ _ _ _ (hp_base _ _ _ _ _ Hh) c x s Hx).
    unfold IS_MMAPPED, csize, C_INUSE. apply wp_bind, (wp_load _ _ s); [done|]. apply wp_ret. rewrite and_1, (proj2 (Z.eqb_eq (s mod 2) 0)) by mlia. apply HQ2. by exists x.
Qed.

(** *** What the operations promise *)
Definition allocated m C D n m' p : Prop := exists C' B' D' s, heap m' C' B' D' /\ (forall H, frame (State m C D H) (State m' C' D' (p - 16 :: H))) /\
  block C' D' [] (p - 16) s /\ n + 16 <= s /\ (forall x l, D' !! (p - 16) = Some (x, l) -> forall a, p <= a < p - 16 + s -> a mod 8 = 0 -> m' !! a = Some 0).

Definition zeroed m p n : Prop := forall a, p <= a < p + n -> a mod 8 = 0 -> m !! a = Some 0.

(** The words of the user are 64 bits wide. *)
Definition words_ok m p n : Prop := forall i v, 0 <= i < n -> i mod 8 = 0 -> m !! (p + i) = Some v -> 0 <= v < 2 ^ 64.

(** The first [n] bytes of [p] in [m] are those of [q] in [m']. *)
Definition same_words m p m' q n : Prop := forall i, 0 <= i < n -> i mod 8 = 0 -> m' !! (q + i) = m !! (p + i).

(** What a block holds stays when other blocks change hands. *)
Lemma frame_words m C B D H m' C' D' H' c s : heap m C B D -> frame (State m C D H) (State m' C' D' H') -> block C D [] c s -> c ∉ H ->
  block C' D' [] c s /\ (c ∉ H') /\ forall a, c + 16 <= a < c + s -> a mod 8 = 0 -> m' !! a = m !! a.
Proof.
  intros Hh [Hu Hbl] Hb Hc. cbn in *. destruct (block_facts m C B D c s Hh Hb) as (_ & _ & _ & _ & _ & Hm).
  assert (Hb1 : block C D H c s) by (destruct Hb as [(_ & H0 & Hk)|(_ & Hx)]; [left|right]; (split; [done|done])).
  apply Hbl in Hb1. split; [|split].
  - destruct Hb1 as [(_ & H0 & Hk)|(_ & Hx)]; [left|right]; (split; [apply not_elem_of_nil|done]).
  - destruct Hb1 as [(Hn & _)|(Hn & _)]; done.
  - intros a Ha Ham. apply Hu; [|apply Hm; [lia|done]]. destruct Hb as [(_ & H0 & k & Hk & Hku & <-)|(_ & x & Hx)].
    + left. exists c, k. split_and!; try done; lia.
    + right. left. exists c, x, s. split_and!; try done; lia.
Qed.

Lemma wp_copy_words m dest src n (Q : unit -> mem -> Prop) : n mod 8 = 0 -> 0 <= n -> dest mod 8 = 0 -> src mod 8 = 0 ->
  mapped_words m src (src + n) -> mapped_words m dest (dest + n) -> (forall a v, src <= a < src + n -> a mod 8 = 0 -> m !! a = Some v -> 0 <= v < 2 ^ 64) ->
  (forall m', (forall a, is_Some (m !! a) -> is_Some (m' !! a)) -> (forall a, ~ (dest <= a < dest + n) -> m' !! a = m !! a) -> same_words m src m' dest n -> Q tt m') ->
  wp (copy_words dest src n) m Q.
Proof.
  intros Hn H0 Hd Hs Ms Md Hw HQ. apply wp_bind, wp_load_words; [intros j Hj; apply Ms; mlia|]. intros l Hl Hlk.
  apply wp_store_words; rewrite ?Hl; [intros j Hj; apply Md; mlia|]. intros m' M1 M2 M3. apply HQ; [done|intros a Ha; apply M2; mlia|].
  intros i Hi Him. replace i with (8 * Z.of_nat (Z.to_nat (i / 8))) by mlia. set (j := Z.to_nat (i / 8)). assert (Hj : (j < Z.to_nat (n / 8))%nat) by (unfold j; mlia).
  destruct (Ms (src + 8 * Z.of_nat j)) as [v Hv]; [unfold j; mlia|mlia|]. rewrite Hv. rewrite (M3 j v) by (by rewrite Hlk).
  f_equal. apply u64_id. apply (Hw (src + 8 * Z.of_nat j)); [unfold j; mlia|mlia|done].
Qed.

(** The block [p] is replaced by a block of at least [n] bytes, with its first [k] bytes. *)
Definition moved m C D p n k m' q : Prop := exists C' B' D' s, heap m' C' B' D' /\
  (forall H, frame (State m C D (p - 16 :: H)) (State m' C' D' (q - 16 :: H))) /\ block C' D' [] (q - 16) s /\ n + 16 <= s /\ same_words m p m' q k.

Lemma allocated_nonzero m C D n m1 q : allocated m C D n m1 q -> q <> 0.
Proof. intros (C1 & B1 & D1 & s1 & Hh1 & _ & Hbl1 & _). destruct (block_facts m1 C1 B1 D1 _ s1 Hh1 Hbl1). lia. Qed.

(** The block was not moved yet. *)
Lemma moved_after m C B D p s n k m2 C2 m' q : heap m C B D -> block C D [] (p - 16) s -> k <= s - 16 ->
  (forall H, frame (State m C D (p - 16 :: H)) (State m2 C2 D (p - 16 :: H))) -> same_words m p m2 p k ->
  moved m2 C2 D p n k m' q -> moved m C D p n k m' q.
Proof.
  intros Hh Hbl Hk Hf Hw (C1 & B1 & D1 & s1 & Hh1 & Hf1 & Hbl1 & Hs1 & Hw1). exists C1, B1, D1, s1. split; [done|].
  split; [intros H; eapply frame_comp; [apply Hf|apply Hf1]|]. split; [done|]. split; [done|]. intros i Hi Him. rewrite (Hw1 i Hi Him). by apply Hw.
Qed.

Lemma moved_less m C D p n k n' k' m' q : n' <= n -> k' <= k -> moved m C D p n k m' q -> moved m C D p n' k' m' q.
Proof.
  intros Hn Hk (C1 & B1 & D1 & s1 & Hh1 & Hf1 & Hbl1 & Hs1 & Hw1). exists C1, B1, D1, s1. split_and!; try done; [lia|]. intros i Hi Him. apply Hw1; [lia|done].
Qed.
(** *** Clearing words *)
Lemma wp_zero_words k : forall p m (Q : Z * Z -> mem -> Prop), (k < fuel)%nat -> (forall j, 0 <= j < Z.of_nat k -> is_Some (m !! (p + 8 * j))) ->
  (forall m', (forall a, is_Some (m !! a) -> is_Some (m' !! a)) -> (forall a, ~ (p <= a < p + 8 * Z.of_nat k) -> m' !! a = m !! a) ->
    (forall j, 0 <= j < Z.of_nat k -> m' !! (p + 8 * j) = Some 0) -> Q (p + 8 * Z.of_nat k, 0) m') ->
  wp (while (fun '(z, n) => mret (negb (n =? 0)))
        (fun '(z, n) => v ← load z; (if negb (v =? 0) then store z 0 else mret tt);; mret (z + 8, n - 1)) (p, Z.of_nat k)) m Q.
Proof.
  intros p m Q Hk Hm HQ.
  apply (wp_while_idx (fun i '(z, n) m' => n = Z.of_nat i /\ (i <= k)%nat /\ z = p + 8 * Z.of_nat (k - i) /\
    (forall a, is_Some (m !! a) -> is_Some (m' !! a)) /\ (forall a, ~ (p <= a < z) -> m' !! a = m !! a) /\
    (forall j, 0 <= j < Z.of_nat (k - i) -> m' !! (p + 8 * j) = Some 0)) _ _ k); [|split_and!; try done; try lia|done].
  intros i [z n] m' (-> & Hi & -> & M1 & M2 & M3). apply wp_ret. destruct (Z.eqb_spec (Z.of_nat i) 0) as [E|E]; cbn [negb].
  - assert (i = 0%nat) as -> by lia. rewrite Nat.sub_0_r in *. by apply HQ.
  - set (z := p + 8 * Z.of_nat (k - i)) in *. assert (Hz : is_Some (m' !! z)) by (apply M1, Hm; lia). destruct Hz as [v Hv].
    apply wp_bind, (wp_load _ _ v); [done|]. apply wp_bind. apply (wp_mono _ _ (fun _ m2 => m2 = <[z := 0]> m')).
    { destruct (Z.eqb_spec v 0) as [->|]; cbn [negb]; [apply wp_ret; by rewrite insert_id|]. by apply wp_store; [eexists| |]. }
    intros _ m2 ->. apply wp_ret. exists (i - 1)%nat. split; [|lia]. assert (Ez : z + 8 = p + 8 * Z.of_nat (k - (i - 1))) by lia.
    split; [lia|]. split; [lia|]. split; [done|]. split; [intros a Ha; rewrite lookup_insert_is_Some'; auto|]. split.
    + intros a Ha. rewrite lookup_insert_ne by lia. apply M2. lia.
    + intros j Hj. destruct (decide (p + 8 * j = z)) as [->|]; [by rewrite lookup_insert_eq|]. rewrite lookup_insert_ne by done. apply M3. lia.
Qed.

End blocks.
