(* ===== verification/MallocCorrect.v ===== *)
(** [malloc], [calloc], [realloc] and [memalign] of Malloc.v. *)
From S2P Require Import Prelude Mem QsortBits Links Malloc MallocChunks MallocInv MallocBins MallocHeap MallocFree MallocTrim MallocPretrim MallocGrow MallocBlocks.

Lemma odd_part x : 0 < x -> exists k q, 0 <= k /\ 0 <= q /\ x = 2 ^ k * (2 * q + 1).
Proof.
  intros Hx. destruct x as [|x|x]; [lia| |lia]. clear Hx. induction x as [x _|x IH|].
  - exists 0, (Z.pos x). split; [lia|]. split; lia.
  - destruct IH as (k & q & Hk & Hq & E). exists (k + 1), q. split; [lia|]. split; [done|]. rewrite Z.pow_add_r by lia. lia.
  - exists 0, 0. done.
Qed.

(** [first_set] of the bins from [i] on. *)
Lemma mask_bit b i t : 0 <= i < 64 -> 0 <= b < 2 ^ 64 -> 0 <= t -> Z.testbit (Z.land b (u64 (- u64 (1 << i)))) t = Z.testbit b t && (i <=? t).
Proof.
  intros Hi Hb Ht. rewrite Z.land_spec. destruct (Z.lt_ge_cases t 64); [|by rewrite (testbit_above 64 b)].
  f_equal. rewrite Z.shiftl_1_l, (u64_id (2 ^ i)) by (split; [lia|apply Z.pow_lt_mono_r; lia]). unfold u64. rewrite Z.mod_pow2_bits_low by lia.
  replace (- 2 ^ i) with (Z.lnot (Z.ones i)) by (rewrite Z.ones_equiv; unfold Z.lnot; lia). rewrite Z.lnot_spec by lia.
  destruct (Z.leb_spec i t); [by rewrite Z.ones_spec_high by lia|by rewrite Z.ones_spec_low by lia].
Qed.

Lemma first_set_spec b i : 0 <= i < 64 -> 0 <= b < 2 ^ 64 -> Z.land b (u64 (- u64 (1 << i))) <> 0 ->
  let j := first_set (Z.land b (u64 (- u64 (1 << i)))) in i <= j < 64 /\ Z.testbit b j = true.
Proof.
  intros Hi Hb H0. set (x := Z.land _ _) in *. assert (Hx : 0 <= x < 2 ^ 64) by (apply land_range; [lia|done|apply u64_range]).
  destruct (odd_part x ltac:(lia)) as (k & q & Hk & Hq & E). cbv zeta. change (first_set x) with (Qsort.ntz x). rewrite E, ntz_spec by (try done; by rewrite <- E).
  assert (Hbit : Z.testbit x k = true).
  { rewrite E, Z.mul_comm, <- Z.shiftl_mul_pow2, Z.shiftl_spec, Z.sub_diag by lia. by rewrite Z.testbit_odd_0. }
  assert (Hk64 : k < 64) by (destruct (Z.lt_ge_cases k 64); [done|]; by rewrite (testbit_above 64 x) in Hbit).
  unfold x in Hbit. rewrite mask_bit in Hbit by done. apply andb_prop in Hbit as [H1 H2]. split; [lia|done].
Qed.

Lemma adjust_size_spec n : 0 <= n < 2 ^ 64 ->
  (adjust_size n = None /\ 2 ^ 62 < n) \/ exists s, adjust_size n = Some s /\ 32 <= s /\ s mod 32 = 0 /\ n + 16 <= s <= n + 47 /\ s < 2 ^ 63.
Proof.
  intros Hn. unfold adjust_size, PTRDIFF_MAX, SIZE_ALIGN, PAGE_SIZE, OVERHEAD, SIZE_MASK, SIZE_ALIGN. rewrite Z.gtb_ltb.
  destruct (Z.eq_dec n 0) as [->|Hne].
  - right. exists 32. split; [by vm_compute|]. split_and!; try lia. done.
  - unfold u64. rewrite Z.mod_small by lia. destruct (Z.ltb_spec (2 ^ 63 - 1 - 32 - 4096) (n - 1)).
    + left. rewrite (proj2 (Z.eqb_neq n 0)) by done. split; [done|lia].
    + right. eexists. split; [reflexivity|]. rewrite (land_opp_pow2 5) by lia. change (2 ^ 5) with 32. split_and!; mlia.
Qed.

Section correct.
Context {F : Fuel} {K : Kernel} (st : Z) {KL : KernelLaws st} (Hfuel : (2 <= fuel)%nat).
Abbreviation bin := (BIN_TO_CHUNK st).
Abbreviation base := (base st).
Abbreviation heap := (heap st).
Abbreviation frame := (frame st).
Abbreviation allocated := (allocated st).
Abbreviation moved := (moved st).
Implicit Types (m : mem) (C : chunks) (B : Z -> list Z) (D : areas).

(** *** The chunk that [malloc] takes *)
Definition taken m C D n m' c : Prop := exists C' B' k, heap m' C' B' D /\ (forall H, frame (State m C D H) (State m' C' D (c :: H))) /\
  C' !! c = Some k /\ c_inuse k = true /\ n <= c_size k.

Lemma wp_grow_chunk m C B D n (Q : option Z -> mem -> Prop) : heap m C B D -> 32 <= n <= MMAP_THRESHOLD ->
  (forall m', heap m' C B D -> (forall H, frame (State m C D H) (State m' C D H)) -> denied st m' 4128 n -> Q None m') ->
  (forall m' c, taken m C D n m' c -> Q (Some c) m') ->
  wp (grow_chunk st n) m Q.
Proof.
  intros Hh Hn HQ1 HQ2. apply wp_bind, (wp_expand_heap st m C B D); [done|done|intros m' Hh' Hf' Hden; by apply wp_ret, HQ1|].
  intros m1 C1 w k Hh1 Hf1 Hw Hu Hnk. pose proof (hp_base _ _ _ _ _ Hh1) as Hb1. pose proof (bs_layout _ _ _ _ Hb1) as Hly1.
  assert (Hs : c_size k <> 0) by lia. pose proof (chunk_arith C1 w k Hly1 Hw Hs) as Har.
  apply wp_bind, (wp_alloc_rev st m1 C1 B D w k); [lia|done|done| |].
  { intros _. apply wp_ret, HQ2. exists C1, B, k. split_and!; done. }
  intros c kc m2 B2 Hc Huc Ec Ep Hh2 Hf2. pose proof (hp_base _ _ _ _ _ Hh2) as Hb2. pose proof (bs_layout _ _ _ _ Hb2) as Hly2.
  pose proof (free_size st m1 C1 D Hb1 c kc Hc Huc) as Hsc. pose proof (chunk_arith C1 c kc Hly1 Hc Hsc) as Harc.
  assert (Hn' : C1 !! (c + c_size kc) = Some k) by by rewrite Ec. destruct (ly_next _ Hly1 w k Hw Hs) as (kn & Hkn & _).
  pose proof (lookup_mark C1 c kc k Hly1 Hc Hsc Hn' true) as Lk. set (C2 := mark true c kc k C1) in *.
  set (k1 := Chunk (c_psize kc) (c_size kc) true). set (k2 := Chunk (c_size kc + 1) (c_size k) (c_inuse k)).
  assert (L1 : C2 !! c = Some k1) by (apply Lk; auto). assert (L2 : C2 !! w = Some k2) by (apply Lk; auto).
  assert (L2' : C2 !! (c + c_size k1) = Some k2) by (cbn; by rewrite Ec).
  assert (L3 : C2 !! (c + c_size k1 + c_size k2) = Some kn) by (cbn; rewrite Ec; apply Lk; do 2 right; split; [lia|split; [lia|done]]).
  apply wp_bind. apply (wp_PREV_CHUNK st _ _ _ _ w _ c _ _ Hh2 L2 L1 Hsc Ec).
  destruct (hp_headers _ _ _ _ _ Hh2 w k2 L2) as [_ E2]. unfold csize, psize. apply wp_bind, (wp_load _ _ (c_word k2)); [done|].
  rewrite (inuse_word k2 Hu). apply wp_bind, (wp_CHUNK_SIZE st _ _ _ _ _ _ _ Hh2 L1). cbn [c_size k1 k2].
  destruct (hp_headers _ _ _ _ _ Hh2 c k1 L1) as [_ E1]. destruct (hp_headers _ _ _ _ _ Hh2 _ kn L3) as [E3 _].
  apply wp_bind, wp_store; [by eexists|lia|]. unfold NEXT_CHUNK, CHUNK_SIZE, csize.
  apply wp_bind, wp_bind, wp_bind, (wp_load _ _ (c_word k2)); [by rewrite lookup_insert_ne by lia|]. apply wp_ret, wp_ret.
  rewrite (proj2 (word_bit C2 w k2 Hly2 L2)). cbn [c_size k2]. replace (w + c_size k) with (c + c_size k1 + c_size k2) by (cbn; lia).
  apply wp_bind, wp_store; [rewrite lookup_insert_is_Some'; right; by eexists|lia|]. apply wp_ret, HQ2.
  pose proof (merge_heap st m2 C2 B2 D Hh2 c k1 k2 kn L1 Hsc L2' Hs L3 eq_refl Hu) as Hh3. unfold merge_mem in Hh3.
  replace (c_size k + 1 + c_size kc) with (c_size k1 + c_size k2 + 1) by (cbn; lia).
  pose proof (lookup_merge C2 c k1 kn Hly2 L1 Hsc k2 L2' Hs L3) as Lk3.
  exists (merge c k1 k2 kn C2), B2, (Chunk (c_psize k1) (c_size k1 + c_size k2) true).
  split; [done|]. split; [|split; [apply Lk3; by left|split; [done|cbn; lia]]]. intros H.
  apply (frame_tidy st _ _ _ (c :: w :: H)).
  - intros x. rewrite !elem_of_cons. split; [|tauto]. intros [->|[->|Hx]]; [by left; left|right|left; by right]. split; [by right; left|].
    split; [|by apply (chunk_not_area st m1 C1 D w k Hb1 Hw)]. destruct (merge c k1 k2 kn C2 !! w) as [y|] eqn:E; [exfalso|done].
    apply Lk3 in E as [[? _]|[[? _]|(_ & ? & _)]]; cbn in *; lia.
  - eapply frame_comp; [apply Hf1|]. eapply frame_comp; [apply Hf2|].
    apply (merge_frame st m2 C2 B2 D Hh2 c k1 k2 kn); try done; [by left|]. cbn. rewrite Ec. right. by left.
Qed.

Lemma wp_take_chunk m C B D n (Q : option Z -> mem -> Prop) : heap m C B D -> 32 <= n <= MMAP_THRESHOLD -> n mod 32 = 0 ->
  (forall m', heap m' C B D -> (forall H, frame (State m C D H) (State m' C D H)) -> denied st m' 4128 n -> Q None m') ->
  (forall m' c, taken m C D n m' c -> Q (Some c) m') ->
  wp (take_chunk st n) m Q.
Proof.
  intros Hh Hn Hnm HQ1 HQ2. pose proof (hp_base _ _ _ _ _ Hh) as Hb. pose proof (bs_layout _ _ _ _ Hb) as Hly.
  pose proof (bin_index_up_range n Hn Hnm) as Hi. destruct (sc_binmap _ _ _ _ (hp_scalars _ _ _ _ _ Hh)) as (b & Hbm & Hbr & Hbits).
  unfold take_chunk. apply wp_loop_once; [lia|]. unfold binmap. apply wp_bind, (wp_load _ _ b); [done|].
  destruct (Z.eqb_spec (Z.land b (u64 (- u64 (1 << bin_index_up n)))) 0) as [E|E].
  - apply wp_bind, (wp_grow_chunk m C B D); [done|done|intros m' Hh' Hf' Hden; by apply wp_ret, HQ1|intros m' c Ht; by apply wp_ret, HQ2].
  - destruct (first_set_spec b (bin_index_up n) Hi Hbr E) as [Hj Hbit]. set (j := first_set _) in *. clearbody j.
    assert (Hne : B j <> []) by (intros E'; rewrite (Hbits j ltac:(lia)), E' in Hbit; done).
    apply wp_bind, (wp_lock_bin st m C B D j); [done|lia|]. intros m1 Hh1 HL1 Hf1. pose proof (hp_base _ _ _ _ _ Hh1) as Hb1.
    pose proof (links_first _ _ _ _ HL1) as Hfst. destruct (B j) as [|c L] eqn:EB; [done|]. cbn in Hfst.
    destruct (bn_bin _ _ (hp_binned _ _ _ _ _ Hh1) j c ltac:(lia)) as (k & Hc & Hu & Hjk); [rewrite EB; by left|].
    assert (Hs : c_size k <> 0) by (by eapply (free_size st m1 C D)). pose proof (chunk_arith C c k Hly Hc Hs) as Har.
    unfold next. apply wp_bind, (wp_load _ _ c); [done|].
    destruct (Z.eqb_spec c (bin j)) as [E'|_]; [exfalso; apply (bin_not_chunk st m1 C D j k Hb1); [lia|by rewrite <- E']|]. cbn [negb].
    apply wp_bind, (wp_pretrim st m1 C B D c k n j); try done; try lia; [by exists L|by rewrite EB| |].
    + cbn [negb]. rewrite <- Hjk. destruct (ly_next _ Hly c k Hc Hs) as (kn & Hkn & _).
      apply wp_bind, (wp_take st m1 C B D c k kn); try done; [by rewrite Hjk, EB|]. intros m2 B2 Hh2 Hf2. apply wp_ret, HQ2.
      exists (mark true c k kn C), B2, (Chunk (c_psize k) (c_size k) true). split; [done|]. split; [|split; [apply lookup_mark; auto|split; [done|]]].
      * intros H. eapply frame_comp; [apply Hf1|apply Hf2].
      * cbn. apply bin_fits; [lia|done|lia|tauto|lia].
    + intros m2 C2 B2 k2 Hh2 Hf2 Hc2 Hu2 Hsz. cbn [negb]. apply wp_bind, wp_ret, wp_ret, HQ2. exists C2, B2, k2. split; [done|].
      split; [|split; [done|split; [done|lia]]]. intros H. eapply frame_comp; [apply Hf1|apply Hf2].
Qed.

(** *** [malloc] *)
Lemma wp_malloc m C B D n (Q : Z -> mem -> Prop) : heap m C B D -> 0 <= n < 2 ^ 64 ->
  (forall m', heap m' C B D -> (forall H, frame (State m C D H) (State m' C D H)) -> unavailable st m' 4200 n -> Q 0 m') ->
  (forall m' p, allocated m C D n m' p -> Q p m') -> wp (malloc st n) m Q.
Proof.
  intros Hh Hn HQ1 HQ2. pose proof (hp_base _ _ _ _ _ Hh) as Hb. unfold malloc.
  destruct (adjust_size_spec n Hn) as [[-> Hbig]|(s & -> & Hs & Hsm & Hns & Hs63)]; [apply wp_ret, HQ1; [done|intros H; apply frame_id|left; lia]|].
  rewrite Z.gtb_ltb. destruct (Z.ltb_spec MMAP_THRESHOLD s) as [Hlt|Hle].
  - unfold MMAP_THRESHOLD, SIZE_ALIGN in Hlt. rewrite land_page. unfold OVERHEAD, PAGE_SIZE, SIZE_ALIGN, CHUNK_TO_MEM, OVERHEAD.
    set (len := s + 16 + 4096 - 1 - _). assert (Hlen : s + 16 <= len <= s + 4111 /\ len mod 4096 = 0) by (unfold len; split; mlia). clearbody len.
    apply wp_bind. unfold wp at 1. cbv beta zeta. destruct (Z.eqb_spec (sys_mmap m len) MAP_FAILED) as [E|E].
    { apply wp_ret, HQ1; [done|intros H; apply frame_id|]. destruct (sc_step _ _ _ _ (hp_scalars _ _ _ _ _ Hh)) as (t & Ht & _).
      right. exists len, t. split; [done|]. split; [lia|done]. }
    destruct (mmap_fresh (st:=st) m len ltac:(lia) E) as (P1 & P2 & P3 & P4). set (b := sys_mmap m len) in *. clearbody b. clear E.
    pose proof (map_words_grown m len b ltac:(mlia) ltac:(lia) ltac:(mlia)) as Hl. set (m1 := map_words _ _ _) in *. clearbody m1.
    replace (b + 32 - 16) with (b + 16) by lia. unfold csize, psize. change (32 - 16) with 16.
    apply wp_bind, wp_store; [rewrite Hl, decide_True by (split; [lia|mlia]); by eexists|lia|].
    apply wp_bind, wp_store; [rewrite lookup_insert_is_Some'; right; rewrite Hl, decide_True by (split; [lia|mlia]); by eexists|done|]. apply wp_ret, HQ2.
    set (m2 := <[b + 16 := 16]> _). set (d := b + 16). assert (Eb : d - 16 = b) by lia. assert (El : d + (len - 16) = b + len) by lia.
    assert (Ha : d mod 32 = 16 /\ 16 mod 32 = 16 /\ (len - 16) mod 32 = 16 /\ 16 <= 16 /\ 16 < len - 16 /\ 0 < d - 16 /\ d + (len - 16) < 2 ^ 62 /\
      (d - 16) mod 4096 = 0 /\ (16 + (len - 16)) mod 4096 = 0) by (unfold d; split_and!; mlia).
    assert (Hun : unmapped m (d - 16) (d + (len - 16))) by by rewrite Eb, El.
    assert (Hout : forall a, ~ (d - 16 <= a < d + (len - 16)) -> m2 !! a = m !! a).
    { intros a Hr. unfold m2. rewrite !lookup_insert_ne, Hl, decide_False by lia. done. }
    assert (Hin : mapped_words m2 (d - 16) (d + (len - 16))).
    { intros a Hr Hm. unfold m2. rewrite !lookup_insert_is_Some'. do 2 right. rewrite Hl, decide_True by (split; [lia|done]). by eexists. }
    assert (Hd1 : m2 !! d = Some 16) by (unfold m2, d; by rewrite lookup_insert_eq).
    assert (Hd2 : m2 !! (d + 8) = Some (len - 16)) by (unfold m2, d; by rewrite lookup_insert_ne, lookup_insert_eq by lia).
    exists C, B, (<[d := (16, len - 16)]> D), (len - 16). replace (d + 16 - 16) with d by lia. split; [by apply (area_heap st m m2 C B D d 16 (len - 16))|].
    split; [intros H; by apply (area_frame st m m2 C B D d 16 (len - 16))|]. split; [right; split; [apply not_elem_of_nil|exists 16; by rewrite lookup_insert_eq]|].
    split; [lia|]. intros x l _ a Hr Hm. unfold m2. rewrite !lookup_insert_ne, Hl, decide_True by (lia || (split; [lia|done])). done.
  - apply wp_bind, (wp_take_chunk m C B D s); [done|lia|done|intros m' Hh' Hf' Hden; apply wp_ret, HQ1; [done..|]; right; apply (denied_mono _ _ _ _ _ _ Hden); lia|].
    intros m1 c (C1 & B1 & k & Hh1 & Hf1 & Hc & Hu & Hk). pose proof (hp_base _ _ _ _ _ Hh1) as Hb1.
    apply wp_bind, (wp_trim st Hfuel m1 C1 B1 D c k s); try done. intros m2 C2 B2 k2 Hh2 Hf2 Hc2 Hu2 Hk2 _ _. apply wp_ret, HQ2.
    unfold CHUNK_TO_MEM, OVERHEAD. exists C2, B2, D, (c_size k2). replace (c + 16 - 16) with c by lia. split; [done|]. split.
    { intros H. eapply frame_comp; [apply Hf1|apply Hf2; by left]. }
    split; [left; split; [apply not_elem_of_nil|split; [lia|by exists k2]]|]. split; [lia|]. intros x l Hx.
    by rewrite (chunk_not_area st m2 C2 D c k2 (hp_base _ _ _ _ _ Hh2) Hc2) in Hx.
Qed.

(** *** [free] of a block *)
Lemma wp_free m C B D p s (Q : unit -> mem -> Prop) : heap m C B D -> block C D [] (p - 16) s ->
  (forall m' C' B' D', heap m' C' B' D' -> (forall H, frame (State m C D (p - 16 :: H)) (State m' C' D' H)) -> Q tt m') -> wp (free st p) m Q.
Proof.
  intros Hh Hbl HQ. replace p with (CHUNK_TO_MEM (p - 16)) by (unfold CHUNK_TO_MEM, OVERHEAD; lia).
  destruct Hbl as [(_ & H0 & k & Hk & Hu & <-)|(_ & x & Hx)].
  - apply (wp_free_chunk st Hfuel m C B D _ k); [done..|]. intros m' C' B' Hh' Hf'. by apply (HQ m' C' B' D).
  - apply (wp_free_area st m C B D _ x s); [done..|]. intros m' Hh' Hf'. by apply (HQ m' C B (delete (p - 16) D)).
Qed.

(** *** [calloc] *)
Lemma wp_calloc m C B D k n (Q : Z -> mem -> Prop) : (Z.to_nat ((n * k + 7) / 8) < fuel)%nat -> heap m C B D -> 0 <= k < 2 ^ 64 -> 0 <= n < 2 ^ 64 ->
  (forall m', heap m' C B D -> (forall H, frame (State m C D H) (State m' C D H)) -> unavailable st m' 4200 (n * k) -> Q 0 m') ->
  (forall m' p, n * k < 2 ^ 64 -> allocated m C D (n * k) m' p -> zeroed m' p (n * k) -> Q p m') -> wp (calloc st k n) m Q.
Proof.
  intros Hfu Hh Hk Hn HQ1 HQ2. unfold calloc, SIZE_MAX. destruct (negb (n =? 0) && (k >? (2 ^ 64 - 1) / n)) eqn:Hov.
  { apply wp_ret, HQ1; [done|intros H; apply frame_id|left]. apply andb_prop in Hov as [H1 H2]. rewrite Z.gtb_ltb in H2. apply Z.ltb_lt in H2.
    apply negb_true_iff, Z.eqb_neq in H1. pose proof (Z.mul_succ_div_gt (2 ^ 64 - 1) n ltac:(lia)). nia. }
  assert (Hnk : 0 <= n * k < 2 ^ 64).
  { split; [nia|]. apply andb_false_iff in Hov as [Hov|Hov]; [assert (n = 0) as -> by lia; lia|]. rewrite Z.gtb_ltb in Hov. apply Z.ltb_ge in Hov.
    destruct (Z.eq_dec n 0) as [->|]; [lia|]. pose proof (Z.mul_div_le (2 ^ 64 - 1) n ltac:(lia)). nia. }
  set (t := n * k) in *. clearbody t. clear Hov. unfold __malloc0. apply wp_bind, (wp_malloc m C B D); [done|done| |].
  { intros m' Hh' Hf' Hno. apply wp_ret. by apply HQ1. }
  intros m1 p (C1 & B1 & D1 & s & Hh1 & Hf1 & Hbl & Hs & Hz). destruct (block_facts st m1 C1 B1 D1 _ s Hh1 Hbl) as (F1 & F2 & F3 & F4 & F5 & F6).
  rewrite (proj2 (Z.eqb_neq p 0)) by lia. cbn [negb]. unfold MEM_TO_CHUNK, OVERHEAD. apply wp_bind, (wp_IS_MMAPPED st m1 C1 B1 D1 _ s); [done|done| |].
  - intros (ck & Hck & Hcu & Hcs & H0). cbn [negb]. pose proof (chunk_arith C1 _ ck (bs_layout _ _ _ _ (hp_base _ _ _ _ _ Hh1)) Hck ltac:(lia)) as Har.
    assert (Hw : 0 <= (t + 8 - 1) / 8 /\ 8 * ((t + 8 - 1) / 8) <= s - 16 /\ t <= 8 * ((t + 8 - 1) / 8)) by (split_and!; mlia).
    replace (t + 8 - 1) with (t + 7) in * by lia. set (q := (t + 7) / 8) in *. replace q with (Z.of_nat (Z.to_nat q)) at 1 by lia.
    apply wp_bind, wp_zero_words; [done|intros j Hj; apply F6; mlia|]. intros m2 M1 M2 M3. apply wp_ret, HQ2; [lia| |].
    + destruct (heap_write st m1 m2 C1 B1 D1 (p - 16) s Hh1 Hbl M1) as [Hh2 Hf2]; [intros a Ha; apply M2; lia|].
      exists C1, B1, D1, s. split; [done|]. split; [intros H; apply Hf2; [by left|apply Hf1]|]. split; [done|]. split; [done|].
      intros x l Hx. by rewrite (chunk_not_area st m1 C1 D1 _ ck (hp_base _ _ _ _ _ Hh1) Hck) in Hx.
    + intros a Ha Ham. replace a with (p + 8 * ((a - p) / 8)) by mlia. apply M3. mlia.
  - intros (x & Hx). cbn [negb]. apply wp_ret, HQ2; [lia|exists C1, B1, D1, s; split_and!; done|]. intros a Ha Ham. apply (Hz x s Hx); [lia|done].
Qed.

(** *** [realloc] *)
Lemma wp_copy_free m C B D p s n k m1 q (Q : Z -> mem -> Prop) : heap m C B D -> words_ok m p k -> block C D [] (p - 16) s ->
  allocated m C D n m1 q -> 0 <= k -> k <= n -> k <= s - 16 -> k mod 8 = 0 -> (forall m', moved m C D p n k m' q -> Q q m') ->
  wp (copy_words q p k;; free st p;; mret q) m1 Q.
Proof.
  intros Hh Hw Hbl (C1 & B1 & D1 & s1 & Hh1 & Hf1 & Hbl1 & Hs1 & _) H0 Hkn Hks H8 HQ. destruct (block_facts st m1 C1 B1 D1 _ s1 Hh1 Hbl1) as (F1 & F2 & F3 & F4 & F5 & F6).
  destruct (block_facts st m C B D _ s Hh Hbl) as (G1 & G2 & G3 & G4 & G5 & G6).
  destruct (frame_words st m C B D [] m1 C1 D1 [q - 16] (p - 16) s Hh (Hf1 []) Hbl ltac:(apply not_elem_of_nil)) as (Hblp & Hne & Hwp).
  apply not_elem_of_cons in Hne as [Hne _].
  destruct (block_facts st m1 C1 B1 D1 _ s Hh1 Hblp) as (_ & _ & _ & _ & _ & G7).
  apply wp_bind, wp_copy_words; [mlia|lia|mlia|mlia|intros a Ha Ham; apply G7; [lia|done]|intros a Ha Ham; apply F6; [lia|done]| |].
  { intros a v Ha Ham Hv. apply (Hw (a - p)); [lia|mlia|]. replace (p + (a - p)) with a by lia. by rewrite <- Hwp by lia. }
  intros m2 M1 M2 M3.
  destruct (heap_write st m1 m2 C1 B1 D1 (q - 16) s1 Hh1 Hbl1 M1) as [Hh2 Hf2]; [intros a Ha; apply M2; lia|].
  apply wp_bind, (wp_free m2 C1 B1 D1 p s); [done|done|]. intros m3 C3 B3 D3 Hh3 Hf3. apply wp_ret, HQ.
  destruct (frame_words st m2 C1 B1 D1 [p - 16] m3 C3 D3 [] (q - 16) s1 Hh2 (Hf3 []) Hbl1) as (Hbl3 & _ & Hwq).
  { apply not_elem_of_cons. split; [lia|apply not_elem_of_nil]. }
  exists C3, B3, D3, s1. split; [done|]. split; [|split; [done|split; [lia|]]].
  - intros H. eapply frame_comp; [|apply Hf3]. apply (frame_tidy st _ _ _ (q - 16 :: p - 16 :: H)).
    + intros x. rewrite !elem_of_cons. tauto.
    + apply Hf2; [by left|apply Hf1].
  - intros i Hi Him. rewrite Hwq by mlia. rewrite (M3 i Hi Him). apply Hwp; mlia.
Qed.

Lemma wp_copy_realloc m C B D p s n n0 (Q : Z -> mem -> Prop) : heap m C B D -> words_ok m p (n0 - 16) -> block C D [] (p - 16) s -> 16 <= n < 2 ^ 64 ->
  16 <= n0 -> n0 <= n -> n0 <= s -> n0 mod 8 = 0 ->
  (forall m', heap m' C B D -> (forall H, frame (State m C D H) (State m' C D H)) -> unavailable st m' 4200 (n - 16) -> Q 0 m') ->
  (forall m' q, moved m C D p (n - 16) (n0 - 16) m' q -> Q q m') -> wp (copy_realloc st (p - 16) p n n0) m Q.
Proof.
  intros Hh Hw Hbl Hn H16 Hn0 Hs0 H8 HQ1 HQ2. unfold copy_realloc, OVERHEAD. apply wp_bind, (wp_malloc m C B D); [done|lia| |].
  { intros m' Hh' Hf' Hno. apply wp_ret. by apply HQ1. }
  intros m1 q Hal. rewrite (proj2 (Z.eqb_neq q 0)) by by eapply allocated_nonzero.
  unfold CHUNK_TO_MEM, OVERHEAD. replace (p - 16 + 16) with p by lia.
  apply (wp_copy_free m C B D p s (n - 16) (n0 - 16)); try done; try lia; [mlia|]. intros m' Hm'. by apply HQ2.
Qed.

End correct.
