(* ===== verification/MallocRealloc.v ===== *)
(** [realloc] of Malloc.v. *)
From S2P Require Import Prelude Mem Links Malloc MallocChunks MallocInv MallocBins MallocHeap MallocFree MallocTrim MallocPretrim MallocGrow MallocBlocks MallocCorrect.

Section realloc.
Context {F : Fuel} {K : Kernel} (st : Z) {KL : KernelLaws st}.
Abbreviation bin := (BIN_TO_CHUNK st).
Abbreviation base := (base st).
Abbreviation heap := (heap st).
Abbreviation frame := (frame st).
Abbreviation moved := (moved st).
Implicit Types (m : mem) (C : chunks) (B : Z -> list Z) (D : areas).

(** Nothing is allocated: the block [p] stays, maybe larger. *)
Definition kept m C D p s m' : Prop := exists C' B' s', heap m' C' B' D /\
  (forall H, frame (State m C D (p - 16 :: H)) (State m' C' D (p - 16 :: H))) /\ block C' D [] (p - 16) s' /\ s <= s' /\ same_words m p m' p (s - 16).

Lemma kept_refl m C B D p s : heap m C B D -> block C D [] (p - 16) s -> kept m C D p s m.
Proof. intros Hh Hbl. exists C, B, s. split; [done|]. split; [intros H; apply frame_id|]. split; [done|]. split; [lia|]. by intros i. Qed.

Lemma frame_same_words m C B D H m' C' D' H' p s k : heap m C B D -> frame (State m C D H) (State m' C' D' H') -> block C D [] (p - 16) s -> p - 16 ∉ H -> k <= s - 16 ->
  same_words m p m' p k.
Proof.
  intros Hh Hf Hbl Hn Hk i Hi Him. destruct (block_facts st m C B D _ s Hh Hbl) as (F1 & _). destruct (frame_words st m C B D H m' C' D' H' (p - 16) s Hh Hf Hbl Hn) as (_ & _ & Hw).
  apply Hw; mlia.
Qed.

(** *** [malloc_usable_size] *)
Lemma wp_CHUNK_SIZE_block m C B D c s (Q : Z -> mem -> Prop) : heap m C B D -> block C D [] c s -> Q s m -> wp (CHUNK_SIZE c) m Q.
Proof.
  intros Hh [(_ & H0 & k & Hk & Hu & <-)|(_ & x & Hx)] HQ; [by apply (wp_CHUNK_SIZE st m C B D c k)|].
  destruct (hp_areas _ _ _ _ _ Hh c x s Hx) as [_ E]. pose proof (bs_areas _ _ _ _ (hp_base _ _ _ _ _ Hh) c x s Hx).
  unfold CHUNK_SIZE, csize. apply wp_bind, (wp_load _ _ s); [done|]. apply wp_ret. by rewrite (proj1 (and_minus_2 s ltac:(mlia))).
Qed.

Lemma wp_malloc_usable_size m C B D p s (Q : Z -> mem -> Prop) : heap m C B D -> block C D [] (p - 16) s -> Q (s - 16) m -> wp (malloc_usable_size p) m Q.
Proof.
  intros Hh Hbl HQ. destruct (block_facts st m C B D _ s Hh Hbl) as (F1 & F2 & _). unfold malloc_usable_size. rewrite (proj2 (Z.eqb_neq p 0)) by lia. cbn [negb].
  apply wp_bind, (wp_CHUNK_SIZE_block m C B D _ s); [done|done|]. by apply wp_ret.
Qed.
Context (Hfuel : (2 <= fuel)%nat).

(** *** A chunk of the heap *)
(** The chunk is large enough alone, or the next one is in use. *)
Lemma wp_realloc_alone m C B D p k n (Q : Z -> mem -> Prop) : heap m C B D -> C !! (p - 16) = Some k -> c_inuse k = true -> c_size k <> 0 ->
  words_ok m p (c_size k - 16) -> 32 <= n < 2 ^ 63 -> n mod 32 = 0 ->
  (forall m', kept m C D p (c_size k) m' -> unavailable st m' 4200 (n - 16) -> Q 0 m') -> (forall m' q, moved m C D p (n - 16) (Z.min (n - 16) (c_size k - 16)) m' q -> Q q m') ->
  wp (store (p - 16 + 8) (c_size k .| 1);; store (p - 16 + c_size k) (c_size k .| 1);;
    if n <=? c_size k then trim st (p - 16) n;; mret (CHUNK_TO_MEM (p - 16)) else copy_realloc st (p - 16) p n (c_size k)) m Q.
Proof.
  intros Hh Hc Hu Hs Hw Hn Hnm HQ1 HQ2. pose proof (hp_base _ _ _ _ _ Hh) as Hb. pose proof (bs_layout _ _ _ _ Hb) as Hly.
  set (c := p - 16) in *. pose proof (chunk_arith C c k Hly Hc Hs) as Har. destruct (ly_next _ Hly c k Hc Hs) as (kn & Hkn & Ep & _).
  assert (Hbl : block C D [] c (c_size k)) by (left; split; [apply not_elem_of_nil|split; [done|by exists k]]).
  destruct (hp_headers _ _ _ _ _ Hh c k Hc) as [_ E1]. destruct (hp_headers _ _ _ _ _ Hh _ kn Hkn) as [E2 _]. rewrite Ep, (inuse_word k Hu) in E2. rewrite (inuse_word k Hu) in E1.
  rewrite or_1 by mlia. apply wp_bind, wp_store; [by eexists|lia|]. rewrite insert_id by done. apply wp_bind, wp_store; [by eexists|lia|]. rewrite insert_id by done.
  destruct (Z.leb_spec n (c_size k)) as [Hle|Hgt].
  - apply wp_bind, (wp_trim st Hfuel m C B D c k n); try done; try lia. intros m2 C2 B2 k2 Hh2 Hf2 Hc2 Hu2 Hn2 _ Hw2. apply wp_ret, HQ2.
    unfold CHUNK_TO_MEM, OVERHEAD. replace (c + 16) with p in * by lia. exists C2, B2, D, (c_size k2). split; [done|]. split; [intros H; apply Hf2; by left|].
    split; [left; split; [apply not_elem_of_nil|split; [fold c; lia|by exists k2]]|]. split; [lia|]. intros i Hi Him. apply Hw2; [lia|].
    apply (bs_space _ _ _ _ Hb c k Hc); [rewrite extent_size by done|]; mlia.
  - apply (wp_copy_realloc st Hfuel m C B D p (c_size k) n (c_size k)); try done; try lia; [mlia| |].
    + intros m' Hh' Hf' Hno. apply HQ1; [|done]. exists C, B, (c_size k). split; [done|]. split; [done|]. split; [done|]. split; [lia|].
      apply (frame_same_words m C B D [] m' C D [] p (c_size k)); try done; apply not_elem_of_nil.
    + intros m' q Hm'. apply HQ2. eapply moved_less; [| |exact Hm']; lia.
Qed.

(** The next chunk was free and is joined. *)
Lemma wp_realloc_joined m m1 C B B1 D p k kn kx n (Q : Z -> mem -> Prop) : heap m C B D -> C !! (p - 16) = Some k -> c_inuse k = true -> c_size k <> 0 ->
  words_ok m p (c_size k - 16) -> c_size k < n < 2 ^ 63 -> n mod 32 = 0 ->
  C !! (p - 16 + c_size k) = Some kn -> c_inuse kn = false -> C !! (p - 16 + c_size k + c_size kn) = Some kx -> heap m1 (mark true (p - 16 + c_size k) kn kx C) B1 D ->
  (forall H, frame (State m C D H) (State m1 (mark true (p - 16 + c_size k) kn kx C) D (p - 16 + c_size k :: H))) ->
  (forall m', kept m C D p (c_size k) m' -> unavailable st m' 4200 (n - 16) -> Q 0 m') -> (forall m' q, moved m C D p (n - 16) (Z.min (n - 16) (c_size k - 16)) m' q -> Q q m') ->
  wp ('(n1, nx) ← (s ← CHUNK_SIZE (p - 16 + c_size k); nx' ← NEXT_CHUNK (p - 16 + c_size k); mret (c_size k + s, nx'));
    store (p - 16 + 8) (n1 .| 1);; store nx (n1 .| 1);;
    if n <=? n1 then trim st (p - 16) n;; mret (CHUNK_TO_MEM (p - 16)) else copy_realloc st (p - 16) p n (c_size k)) m1 Q.
Proof.
  intros Hh Hc Hu Hs Hw Hn Hnm Hkn Hun Hkx Hh1 Hf1 HQ1 HQ2. pose proof (hp_base _ _ _ _ _ Hh) as Hb. pose proof (bs_layout _ _ _ _ Hb) as Hly.
  set (c := p - 16) in *. pose proof (chunk_arith C c k Hly Hc Hs) as Har. pose proof (free_size st m C D Hb _ kn Hkn Hun) as Hsn.
  pose proof (chunk_arith C _ kn Hly Hkn Hsn) as Harn.
  assert (Hbl : block C D [] c (c_size k)) by (left; split; [apply not_elem_of_nil|split; [done|by exists k]]).
  pose proof (lookup_mark C _ kn kx Hly Hkn Hsn Hkx true) as Lk. set (C1 := mark true (c + c_size k) kn kx C) in *.
  set (k2 := Chunk (c_psize kn) (c_size kn) true) in *. set (kx' := Chunk (c_size kn + 1) (c_size kx) (c_inuse kx)).
  assert (L1 : C1 !! c = Some k) by (apply Lk; do 2 right; split; [lia|split; [lia|done]]). assert (L2 : C1 !! (c + c_size k) = Some k2) by (apply Lk; auto).
  assert (L3 : C1 !! (c + c_size k + c_size k2) = Some kx') by (apply Lk; auto).
  destruct (frame_words st m C B D [] m1 C1 D [c + c_size k] c _ Hh (Hf1 []) Hbl ltac:(apply not_elem_of_nil)) as (_ & _ & Hw1).
  apply wp_bind, wp_bind, (wp_CHUNK_SIZE st _ _ _ _ _ _ _ Hh1 L2), wp_bind, (wp_NEXT_CHUNK st _ _ _ _ _ _ _ Hh1 L2), wp_ret. cbv beta iota.
  rewrite !or_1 by (cbn; mlia). destruct (hp_headers _ _ _ _ _ Hh1 c k L1) as [_ E1]. destruct (hp_headers _ _ _ _ _ Hh1 _ kx' L3) as [E2 _].
  apply wp_bind, wp_store; [by eexists|cbn; lia|]. apply wp_bind, wp_store; [rewrite lookup_insert_is_Some'; right; by eexists|cbn; lia|].
  pose proof (merge_heap st m1 C1 B1 D Hh1 c k k2 kx' L1 Hs L2 Hsn L3 Hu eq_refl) as Hh2. unfold merge_mem in Hh2.
  pose proof (merge_frame st m1 C1 B1 D Hh1 c k k2 kx' L1 Hs L2 Hsn L3) as Hf2. unfold merge_mem in Hf2.
  pose proof (bs_layout _ _ _ _ (hp_base _ _ _ _ _ Hh1)) as Hly1. pose proof (lookup_merge C1 c k kx' Hly1 L1 Hs k2 L2 Hsn L3) as Lk2.
  set (m2 := <[c + c_size k + c_size k2 := _]> _) in *. set (C2 := merge c k k2 kx' C1) in *.
  set (k' := Chunk (c_psize k) (c_size k + c_size k2) true) in *. assert (Lc : C2 !! c = Some k') by (apply Lk2; auto).
  assert (Hf02 : forall H, frame (State m C D (c :: H)) (State m2 C2 D (c :: H))).
  { intros H. apply (frame_tidy st _ _ _ (c + c_size k :: c :: H)).
    - intros x. rewrite !elem_of_cons. split; [|tauto]. intros [->|[->|Hx]]; [right|by left; left|left; by right]. split; [by left|].
      split; [|by apply (chunk_not_area st m C D _ kn Hb Hkn)]. destruct (C2 !! (c + c_size k)) as [y|] eqn:E; [exfalso|done].
      apply Lk2 in E as [[? _]|[[? _]|(_ & ? & _)]]; cbn in *; lia.
    - eapply frame_comp; [apply Hf1|]. apply Hf2; [right; by left|by left]. }
  assert (Hsw : same_words m p m2 p (c_size k - 16)).
  { intros i Hi Him. unfold m2. rewrite !lookup_insert_ne by (cbn; lia). apply Hw1; mlia. }
  assert (Hbl2 : block C2 D [] c (c_size k')) by (left; split; [apply not_elem_of_nil|split; [cbn; lia|by exists k']]).
  change (c_size k + c_size k2) with (c_size k'). destruct (Z.leb_spec n (c_size k')) as [Hle|Hgt].
  - apply wp_bind, (wp_trim st Hfuel m2 C2 B1 D c k' n); try done; try lia. intros m3 C3 B3 k3 Hh3 Hf3 Hc3 Hu3 Hn3 _ Hw3. apply wp_ret, HQ2.
    unfold CHUNK_TO_MEM, OVERHEAD. replace (c + 16) with p in * by lia. exists C3, B3, D, (c_size k3). split; [done|].
    split; [intros H; eapply frame_comp; [apply Hf02|apply Hf3; by left]|]. split; [left; split; [apply not_elem_of_nil|split; [fold c; lia|by exists k3]]|].
    split; [lia|]. intros i Hi Him. rewrite <- (Hsw i) by (done || lia). apply Hw3; [lia|].
    apply (bs_space _ _ _ _ (hp_base _ _ _ _ _ Hh2) c k' Lc); [rewrite extent_size by (cbn; lia); cbn; lia|mlia].
  - assert (Hw2 : words_ok m2 p (c_size k - 16)) by (intros i v Hi Him; rewrite (Hsw i Hi Him); by apply Hw).
    apply (wp_copy_realloc st Hfuel m2 C2 B1 D p (c_size k') n (c_size k)); try done; try lia; [cbn; lia|mlia| |].
    + intros m' Hh' Hf' Hno. apply HQ1; [|done]. exists C2, B1, (c_size k'). split; [done|]. split; [intros H; eapply frame_comp; [apply Hf02|apply Hf']|].
      split; [done|]. split; [cbn; lia|]. intros i Hi Him. rewrite <- (Hsw i Hi Him).
      apply (frame_same_words m2 C2 B1 D [] m' C2 D [] p (c_size k') (c_size k - 16)); try done; [apply not_elem_of_nil|cbn; lia].
    + intros m' q Hm'. apply HQ2. apply (moved_after st m C B D p (c_size k) _ _ m2 C2); try done; [lia|intros i Hi Him; apply Hsw; [lia|done]|].
      eapply moved_less; [| |exact Hm']; lia.
Qed.

Lemma wp_realloc_chunk m C B D p k n (Q : Z -> mem -> Prop) : heap m C B D -> C !! (p - 16) = Some k -> c_inuse k = true -> c_size k <> 0 ->
  words_ok m p (c_size k - 16) -> 32 <= n < 2 ^ 63 -> n mod 32 = 0 ->
  (forall m', kept m C D p (c_size k) m' -> unavailable st m' 4200 (n - 16) -> Q 0 m') -> (forall m' q, moved m C D p (n - 16) (Z.min (n - 16) (c_size k - 16)) m' q -> Q q m') ->
  wp (realloc_chunk st (p - 16) p n (c_size k)) m Q.
Proof.
  intros Hh Hc Hu Hs Hw Hn Hnm HQ1 HQ2. pose proof (hp_base _ _ _ _ _ Hh) as Hb. pose proof (bs_layout _ _ _ _ Hb) as Hly.
  set (c := p - 16) in *. pose proof (chunk_arith C c k Hly Hc Hs) as Har. destruct (ly_next _ Hly c k Hc Hs) as (kn & Hkn & Ep & _).
  assert (Hbl : block C D [] c (c_size k)) by (left; split; [apply not_elem_of_nil|split; [done|by exists k]]).
  destruct (hp_headers _ _ _ _ _ Hh c k Hc) as [_ E1]. destruct (hp_headers _ _ _ _ _ Hh _ kn Hkn) as [E2 _]. rewrite Ep, (inuse_word k Hu) in E2. rewrite (inuse_word k Hu) in E1.
  unfold realloc_chunk, psize, csize. apply wp_bind, (wp_NEXT_CHUNK st _ _ _ _ _ _ _ Hh Hc). apply wp_bind, (wp_load _ _ (c_size k + 1)); [done|].
  apply wp_bind, (wp_load _ _ (c_size k + 1)); [done|]. rewrite Z.eqb_refl. cbn [negb]. unfold C_INUSE.
  apply wp_bind, wp_andM; rewrite Z.gtb_ltb.
  - intros Hgt%Z.ltb_lt. apply (wp_alloc_fwd st m C B D (c + c_size k) kn); [lia|done|done|intros _|].
    + apply wp_bind, wp_ret. cbv beta iota. by apply (wp_realloc_alone m C B D p k n).
    + intros kx m1 B1 Hun Hkx Hh1 Hf1. apply (wp_realloc_joined m m1 C B B1 D p k kn kx n); try done; lia.
  - intros Hle. apply wp_bind, wp_ret. cbv beta iota. by apply (wp_realloc_alone m C B D p k n).
Qed.

(** *** A mapped block *)

(** [mremap] to another size; the header is still to be written. *)
Lemma wp_remapped m C B D d x s len (Q : Z -> mem -> Prop) : heap m C B D -> D !! d = Some (x, s) -> words_ok m (d + 16) (s - 16) ->
  x + 32 <= len < 2 ^ 63 + 2 ^ 62 + 8192 -> len mod 4096 = 0 ->
  (sys_mremap m (d - x) (s + x) len = MAP_FAILED -> Q MAP_FAILED m) ->
  (forall m' a, a <> MAP_FAILED -> 0 < a ->
    (is_Some (m' !! (a + x + 8))) -> a + len < 2 ^ 62 -> moved m C D (d + 16) (len - x - 16) (Z.min (len - x - 16) (s - 16)) (<[a + x + 8 := len - x]> m') (a + x + 16) -> Q a m') ->
  wp (mremap (d - x) (s + x) len) m Q.
Proof.
  intros Hh Hd Hw Hlen Hlm HQ1 HQ2. pose proof (hp_base _ _ _ _ _ Hh) as Hb. pose proof (bs_areas _ _ _ _ Hb d x s Hd) as Hda.
  destruct (hp_areas _ _ _ _ _ Hh d x s Hd) as [E1 E2]. unfold mremap. unfold wp. cbv beta zeta.
  destruct (Z.eqb_spec (sys_mremap m (d - x) (s + x) len) MAP_FAILED) as [E|E]; [rewrite E; by apply HQ1|].
  destruct (mremap_fresh (st:=st) m (d - x) (s + x) len ltac:(lia) E) as (P1 & P2 & P3 & P4). set (a := sys_mremap _ _ _ _) in *. clearbody a.
  set (w := Z.min (s + x) len) in *. assert (Hwd : x + 32 <= w /\ w mod 8 = 0 /\ w <= s + x /\ w <= len) by (unfold w; destruct (Z.min_spec (s + x) len) as [[? ->]|[? ->]]; split_and!; mlia).
  assert (Ew : Z.min (len - x - 16) (s - 16) = w - x - 16) by (unfold w; lia). clearbody w.
  assert (Mm : mapped_words m (d - x) (d + s)) by apply Hda.
  destruct (proj1 (wp_done (load_words (Z.to_nat (w / 8)) (d - x)) m (fun l m1 => m1 = m /\ length l = Z.to_nat (w / 8) /\
    forall j : nat, (j < Z.to_nat (w / 8))%nat -> l !! j = m !! (d - x + 8 * Z.of_nat j)))) as (l & m1 & -> & -> & Hl & Hlk).
  { apply wp_load_words; [intros j Hj; apply Mm; mlia|]. intros l Hl Hlk. done. }
  assert (Hu : forall b, unmap (d - x) (s + x) m !! b = if decide (d - x <= b < d + s) then None else m !! b).
  { intros b. rewrite lookup_unmap. by replace (d - x + (s + x)) with (d + s) by lia. }
  set (mu := unmap _ _ _) in *. clearbody mu.
  assert (Hou : forall b, ~ (d - x <= b < d + s) -> mu !! b = m !! b) by (intros b Hbr; rewrite Hu, decide_False; done).
  pose proof (heap_unmap st m mu C B D d x s Hh Hd Hou) as Hhu. pose proof (unmap_frame st m mu C B D d x s Hh Hd Hou) as Hfu.
  pose proof (map_words_grown mu len a ltac:(mlia) ltac:(lia) ltac:(mlia)) as Hmw. set (mm := map_words _ _ _) in *. clearbody mm.
  change (wp (store_words a l;; mret a) mm Q). apply wp_bind, wp_store_words.
  { intros j Hj. rewrite Hmw, decide_True by (rewrite Hl in Hj; split; mlia). by eexists. }
  intros m' M1 M2 M3. rewrite Hl in M2. apply wp_ret.
  assert (Hin : mapped_words m' a (a + len)) by (intros b Hbr Hbm; apply M1; rewrite Hmw, decide_True by done; by eexists).
  assert (Hcp : forall i, 0 <= i < w -> i mod 8 = 0 -> m' !! (a + i) = u64 <$> m !! (d - x + i)).
  { intros i Hi Him. replace i with (8 * Z.of_nat (Z.to_nat (i / 8))) by mlia. set (j := Z.to_nat (i / 8)). assert (Hj : (j < Z.to_nat (w / 8))%nat) by (unfold j; mlia).
    destruct (Mm (d - x + 8 * Z.of_nat j)) as [v Hv]; [unfold j; mlia|mlia|]. rewrite Hv. apply M3. by rewrite Hlk. }
  set (m2 := <[a + x + 8 := len - x]> m'). set (d' := a + x). assert (Ed : d' - x = a) by lia. assert (El : d' + (len - x) = a + len) by lia.
  assert (Ha : d' mod 32 = 16 /\ x mod 32 = 16 /\ (len - x) mod 32 = 16 /\ 16 <= x /\ 16 < len - x /\ 0 < d' - x /\ d' + (len - x) < 2 ^ 62 /\
    (d' - x) mod 4096 = 0 /\ (x + (len - x)) mod 4096 = 0) by (unfold d'; split_and!; mlia).
  assert (Hun : unmapped mu (d' - x) (d' + (len - x))) by by rewrite Ed, El.
  assert (Hout : forall b, ~ (d' - x <= b < d' + (len - x)) -> m2 !! b = mu !! b).
  { intros b Hbr. unfold m2. rewrite lookup_insert_ne by lia. rewrite M2 by mlia. rewrite Hmw, decide_False; [done|lia]. }
  assert (Hin2 : mapped_words m2 (d' - x) (d' + (len - x))) by (intros b Hbr Hbm; unfold m2; rewrite lookup_insert_is_Some'; right; apply Hin; [lia|done]).
  assert (Hd1 : m2 !! d' = Some x).
  { unfold m2, d'. rewrite lookup_insert_ne by lia. rewrite Hcp by mlia. replace (d - x + x) with d by lia. rewrite E1. cbn. f_equal. apply u64_id. lia. }
  assert (Hd2 : m2 !! (d' + 8) = Some (len - x)) by (unfold m2, d'; by rewrite lookup_insert_eq).
  apply HQ2; [done|done|apply Hin; [lia|mlia]|done|]. exists C, B, (<[d' := (x, len - x)]> (delete d D)), (len - x).
  replace (a + x + 16 - 16) with d' by (unfold d'; lia). replace (d + 16 - 16) with d by lia.
  split; [by apply (area_heap st mu m2 C B (delete d D) d' x (len - x))|].
  split; [intros H; eapply frame_comp; [apply Hfu|by apply (area_frame st mu m2 C B (delete d D) d' x (len - x))]|].
  split; [right; split; [apply not_elem_of_nil|exists x; by rewrite lookup_insert_eq]|]. split; [lia|].
  rewrite Ew. intros i Hi Him. unfold m2. rewrite lookup_insert_ne by lia. replace (a + x + 16 + i) with (a + (x + 16 + i)) by lia. rewrite Hcp by mlia.
  replace (d - x + (x + 16 + i)) with (d + 16 + i) by lia. destruct (m !! (d + 16 + i)) as [v|] eqn:Ev; [|done]. cbn. f_equal. apply u64_id. apply (Hw i v); [lia|done|done].
Qed.

(** The block after [malloc] failed, and was not tried. *)
Definition as_before m C D m1 : Prop := exists B, heap m1 C B D /\ forall H, frame (State m C D H) (State m1 C D H).

Lemma wp_realloc_mapped m C B D p x s n (Q : Z -> mem -> Prop) : heap m C B D -> D !! (p - 16) = Some (x, s) ->
  words_ok m p (s - 16) -> 32 <= n < 2 ^ 63 -> n mod 32 = 0 ->
  (forall m', kept m C D p s m' -> unavailable st m' 4200 (n - 16) -> Q 0 m') -> (forall m' q, moved m C D p (n - 16) (Z.min (n - 16) (s - 16)) m' q -> Q q m') ->
  wp (realloc_mapped st (p - 16) p n s) m Q.
Proof.
  intros Hh Hd Hw Hn Hnm HQ1 HQ2. pose proof (hp_base _ _ _ _ _ Hh) as Hb. pose proof (bs_areas _ _ _ _ Hb _ x s Hd) as Hda.
  destruct (hp_areas _ _ _ _ _ Hh _ x s Hd) as [E1 E2]. set (d := p - 16) in *.
  assert (Hbl : block C D [] d s) by (right; split; [apply not_elem_of_nil|by exists x]).
  unfold realloc_mapped, psize, csize. apply wp_bind, (wp_load _ _ x); [done|]. rewrite and_1, (proj2 (Z.eqb_eq (x mod 2) 0)) by mlia. cbn [negb].
  unfold PAGE_SIZE, OVERHEAD. apply wp_bind.
  apply (wp_mono _ _ (fun new m1 => (new <> 0 /\ n + x < 4096 /\ allocated st m C D n m1 new) \/ (new = 0 /\ as_before m C D m1))).
  { destruct (Z.ltb_spec (n + x) 4096) as [Hlt|Hge].
    - apply (wp_malloc st Hfuel m C B D); [done|lia| |].
      + intros m' Hh' Hf' _. right. split; [done|]. by exists B.
      + intros m' q Hal. left. split; [by eapply allocated_nonzero|]. done.
    - apply wp_ret. right. split; [done|]. exists B. split; [done|]. intros H. apply frame_id. }
  intros new m1 [(Hne & Hlt & Hal)|(-> & B1 & Hh1 & Hf1)].
  - rewrite (proj2 (Z.eqb_neq new 0)) by done. cbn [negb].
    assert (Hsx : 4096 <= s + x) by mlia.
    apply (wp_copy_free st Hfuel m C B D p s n (n - 16)); try done; try lia; [intros i v Hi Him Hv; apply (Hw i v); [lia|done|done]|mlia|].
    intros m' Hm'. apply HQ2. eapply moved_less; [| |exact Hm']; lia.
  - cbn [Z.eqb negb]. replace (n + x + 4096 - 1) with (n + x + 4095) by lia. change (-4096) with (- PAGE_SIZE). rewrite land_page.
    set (len := n + x + 4095 - _). assert (Hlen : n + x <= len <= n + x + 4095 /\ len mod 4096 = 0) by (unfold len; split; mlia). clearbody len.
    assert (Hsw : same_words m p m1 p (s - 16)).
    { apply (frame_same_words m C B D [] m1 C D [] p s); try done; [apply not_elem_of_nil]. }
    destruct (Z.eqb_spec (s + x) len) as [El|Hne].
    { apply wp_ret, HQ2. exists C, B1, D, s. split; [done|]. split; [intros H; apply Hf1|]. split; [done|]. split; [lia|]. intros i Hi Him. apply Hsw; [lia|done]. }
    assert (Hw1 : words_ok m1 p (s - 16)) by (intros i v Hi Him Hv; rewrite (Hsw i Hi Him) in Hv; by apply (Hw i v)).
    apply wp_bind, (wp_remapped m1 C B1 D d x s len); try done; [by replace (d + 16) with p by lia|lia|tauto| |].
    + intros Hfail. rewrite Z.eqb_refl. assert (Hlt : s + x < len).
      { destruct (Z.lt_trichotomy (s + x) len) as [|[|Hlt]]; [done|done|]. exfalso. revert Hfail. pose proof (bs_areas _ _ _ _ (hp_base _ _ _ _ _ Hh1) _ x s Hd) as Ha1. apply (mremap_shrink (st:=st)); [mlia..|]. replace (d - x + (s + x)) with (d + s) by lia. apply Ha1. }
      assert (Hns : s <= n) by mlia.
      apply (wp_copy_realloc st Hfuel m1 C B1 D p s n s); try done; try lia; [mlia| |].
      * intros m' Hh' Hf' Hno. apply HQ1; [|done]. exists C, B1, s. split; [done|]. split; [intros H; eapply frame_comp; [apply Hf1|apply Hf']|].
        split; [done|]. split; [lia|]. intros i Hi Him. rewrite <- (Hsw i Hi Him).
        apply (frame_same_words m1 C B1 D [] m' C D [] p s (s - 16)); try done; [apply not_elem_of_nil].
      * intros m' q Hm'. apply HQ2. apply (moved_after st m C B D p s _ _ m1 C); try done; [lia|intros i Hi Him; apply Hsw; [lia|done]|].
        eapply moved_less; [| |exact Hm']; lia.
    + intros m2 a Hna Ha0 Hmap Halt Hmv. rewrite (proj2 (Z.eqb_neq a MAP_FAILED)) by done.
      apply wp_bind, wp_store; [done|lia|]. apply wp_ret, HQ2. unfold CHUNK_TO_MEM, OVERHEAD. replace (d + 16) with p in Hmv by lia.
      apply (moved_after st m C B D p s _ _ m1 C); try done; [lia|intros i Hi Him; apply Hsw; [lia|done]|].
      eapply moved_less; [| |exact Hmv]; lia.
Qed.

(** *** [realloc] *)
Lemma wp_realloc m C B D p s n (Q : Z -> mem -> Prop) : heap m C B D -> block C D [] (p - 16) s -> words_ok m p (s - 16) -> 0 <= n < 2 ^ 64 ->
  (forall m', kept m C D p s m' -> unavailable st m' 8192 n -> Q 0 m') -> (forall m' q, moved m C D p n (Z.min n (s - 16)) m' q -> Q q m') -> wp (realloc st p n) m Q.
Proof.
  intros Hh Hbl Hw Hn HQ1 HQ2. destruct (block_facts st m C B D _ s Hh Hbl) as (F1 & F2 & F3 & F4 & F5 & F6).
  unfold realloc. rewrite (proj2 (Z.eqb_neq p 0)) by lia.
  destruct (adjust_size_spec n Hn) as [[-> Hbig]|(n' & -> & Hn' & Hnm' & Hnn & Hn63)]; [apply wp_ret, HQ1; [by eapply kept_refl|left; lia]|].
  unfold MEM_TO_CHUNK, OVERHEAD. apply wp_bind, (wp_CHUNK_SIZE_block m C B D _ s); [done|done|].
  assert (HQ3 : forall m' q, moved m C D p (n' - 16) (Z.min (n' - 16) (s - 16)) m' q -> Q q m') by (intros m' q Hm'; apply HQ2; eapply moved_less; [| |exact Hm']; lia).
  assert (HQ4 : forall m', kept m C D p s m' -> unavailable st m' 4200 (n' - 16) -> Q 0 m') by (intros m' Hk Hno; apply HQ1; [done|apply (unavailable_mono _ _ _ _ _ _ Hno); lia]).
  apply wp_bind, (wp_IS_MMAPPED st m C B D _ s); [done|done| |].
  - intros (k & Hk & Hu & <- & H0). by apply (wp_realloc_chunk m C B D p k n').
  - intros (x & Hx). by apply (wp_realloc_mapped m C B D p x s n').
Qed.

End realloc.
