(* ===== verification/MallocMemalign.v ===== *)
(** [__memalign] of Malloc.v (malloc/memalign.c). *)
From S2P Require Import Prelude Mem QsortBits Links Malloc MallocChunks MallocInv MallocBins MallocHeap MallocFree MallocTrim MallocPretrim MallocGrow MallocBlocks MallocCorrect.

(** The test of a power of two. *)
Lemma power_of_two a : 0 < a < 2 ^ 64 -> Z.land a (u64 (- a)) = a -> exists k, 0 <= k < 64 /\ a = 2 ^ k.
Proof.
  intros Ha E. rewrite land_neg_u64 in E by lia. destruct (odd_part a ltac:(lia)) as (k & q & Hk & Hq & Ea). rewrite Ea in E.
  rewrite <- Z.mul_opp_r, !(Z.mul_comm (2 ^ k)), <- !Z.shiftl_mul_pow2, <- Z.shiftl_land in E by done.
  rewrite land_neg_odd, !Z.shiftl_mul_pow2, Z.mul_1_l in E by lia. assert (0 < 2 ^ k) by (apply Z.pow_pos_nonneg; lia).
  assert (q = 0) as -> by nia. exists k. split; [|lia]. split; [done|]. apply (Z.pow_lt_mono_r_iff 2); lia.
Qed.

Lemma pow2_32 k : 0 <= k -> 32 < 2 ^ k -> exists q, 2 ^ k = 64 * q /\ 1 <= q.
Proof.
  intros Hk Hlt. assert (H6 : 6 <= k) by (destruct (Z.le_gt_cases 6 k); [done|]; assert (2 ^ k <= 2 ^ 5) by (apply Z.pow_le_mono_r; lia); lia).
  exists (2 ^ (k - 6)). split; [|pose proof (Z.pow_pos_nonneg 2 (k - 6)); lia]. change 64 with (2 ^ 6). rewrite <- Z.pow_add_r by lia. f_equal. lia.
Qed.

Section memalign.
Context {F : Fuel} {K : Kernel} (st : Z) {KL : KernelLaws st}.
Abbreviation bin := (BIN_TO_CHUNK st).
Abbreviation base := (base st).
Abbreviation heap := (heap st).
Abbreviation frame := (frame st).
Abbreviation allocated := (allocated st).
Implicit Types (m : mem) (C : chunks) (B : Z -> list Z) (D : areas).

(** The area begins later: what lies before its chunk grows by [n]. *)
Lemma area_shift m C B D d x s n H : heap m C B D -> D !! d = Some (x, s) -> 0 < n -> n mod 32 = 0 -> n + 48 <= s ->
  let m' := <[d + n + 8 := s - n]> (<[d + n := x + n]> m) in let D' := <[d + n := (x + n, s - n)]> (delete d D) in
  heap m' C B D' /\ frame (State m C D (d :: H)) (State m' C D' (d + n :: H)).
Proof.
  intros Hh Hd Hn Hnm Hns. cbv zeta. set (m' := <[d + n + 8 := _]> _). pose proof (hp_base _ _ _ _ _ Hh) as Hb. pose proof (bs_areas _ _ _ _ Hb d x s Hd) as Hda.
  assert (Hmu : exists mu : mem, forall b, mu !! b = if decide (d - x <= b < d + s) then None else m !! b).
  { exists (filter (fun '(b, _) => ~ (d - x <= b < d + s)) m). intros b. rewrite map_lookup_filter. destruct (m !! b) as [v|]; cbn; [|by case_decide].
    destruct (decide (d - x <= b < d + s)); [by rewrite option_guard_False by tauto|by rewrite option_guard_True]. }
  destruct Hmu as (mu & Hu). assert (Hou : forall b, ~ (d - x <= b < d + s) -> mu !! b = m !! b) by (intros b Hbr; by rewrite Hu, decide_False).
  pose proof (heap_unmap st m mu C B D d x s Hh Hd Hou) as Hhu. pose proof (unmap_frame st m mu C B D d x s Hh Hd Hou) as Hfu.
  set (d' := d + n). assert (Ed : d' - (x + n) = d - x) by lia. assert (El : d' + (s - n) = d + s) by lia.
  assert (Ha : d' mod 32 = 16 /\ (x + n) mod 32 = 16 /\ (s - n) mod 32 = 16 /\ 16 <= x + n /\ 16 < s - n /\ 0 < d' - (x + n) /\ d' + (s - n) < 2 ^ 62 /\
    (d' - (x + n)) mod 4096 = 0 /\ (x + n + (s - n)) mod 4096 = 0) by (unfold d'; split_and!; mlia).
  assert (Hun : unmapped mu (d' - (x + n)) (d' + (s - n))) by (intros b Hbr; rewrite Hu, decide_True; [done|lia]).
  assert (Hout : forall b, ~ (d' - (x + n) <= b < d' + (s - n)) -> m' !! b = mu !! b).
  { intros b Hbr. unfold m'. rewrite !lookup_insert_ne by lia. rewrite Hou; [done|lia]. }
  assert (Hin : mapped_words m' (d' - (x + n)) (d' + (s - n))).
  { intros b Hbr Hbm. unfold m'. rewrite !lookup_insert_is_Some'. do 2 right. apply Hda; [lia|done]. }
  assert (Hd1 : m' !! d' = Some (x + n)) by (unfold m', d'; by rewrite lookup_insert_ne, lookup_insert_eq by lia).
  assert (Hd2 : m' !! (d' + 8) = Some (s - n)) by (unfold m', d'; by rewrite lookup_insert_eq).
  split; [by apply (area_heap st mu m' C B (delete d D) d' (x + n) (s - n))|].
  eapply frame_comp; [apply Hfu|by apply (area_frame st mu m' C B (delete d D) d' (x + n) (s - n))].
Qed.

Lemma land_7 z : Z.land z 7 = z mod 8.
Proof. change 7 with (Z.ones 3). by rewrite Z.land_ones. Qed.

Lemma land_m8 z : Z.land z (-8) = z - z mod 8.
Proof. change (-8) with (- 2 ^ 3). by rewrite land_opp_pow2. Qed.

(** *** The cut *)
Lemma wp_align_area m C B D d x s n (Q : Z -> mem -> Prop) : heap m C B D -> D !! d = Some (x, s) -> 0 < n -> n mod 32 = 0 -> n + 48 <= s ->
  (forall m', m' = <[d + n + 8 := s - n]> (<[d + n := x + n]> m) -> Q (d + n + 16) m') -> wp (memalign_cut st (d + 16) (d + n + 16)) m Q.
Proof.
  intros Hh Hd Hn Hnm Hns HQ. pose proof (bs_areas _ _ _ _ (hp_base _ _ _ _ _ Hh) d x s Hd) as Hda. destruct (hp_areas _ _ _ _ _ Hh d x s Hd) as [E1 E2].
  assert (Hw : forall a, d <= a < d + s -> a mod 8 = 0 -> is_Some (m !! a)) by (intros a Ha Ham; apply Hda; [lia|done]).
  unfold memalign_cut. replace (d + 16 - 8) with (d + 8) by lia. apply wp_bind, (wp_load _ _ s); [done|].
  rewrite land_7, (proj2 (Z.eqb_eq (s mod 8) 0)) by mlia. replace (d + 16 - 16) with d by lia. replace (d + n + 16 - (d + 16)) with n by lia.
  replace (d + n + 16 - 16) with (d + n) by lia. replace (d + n + 16 - 8) with (d + n + 8) by lia.
  apply wp_bind, (wp_load _ _ x); [done|]. apply wp_bind, wp_store; [apply Hw; mlia|lia|].
  apply wp_bind, (wp_load _ _ s); [rewrite lookup_insert_ne by mlia; done|].
  apply wp_bind, wp_store; [rewrite lookup_insert_is_Some'; right; apply Hw; mlia|lia|]. apply wp_ret. by apply HQ.
Qed.

Lemma or_odd_7 z n : z mod 32 = 0 -> n mod 32 = 0 -> Z.lor (Z.land (z + 1) 7) n = n + 1.
Proof. intros Hz Hn. rewrite land_7. replace ((z + 1) mod 8) with 1 by mlia. rewrite Z.lor_comm. apply or_1. mlia. Qed.

Context (Hfuel : (2 <= fuel)%nat).

Lemma wp_align_chunk m C B D c k n (Q : Z -> mem -> Prop) : heap m C B D -> C !! c = Some k -> c_inuse k = true -> 0 < n < c_size k -> n mod 32 = 0 ->
  (forall m' C' B', heap m' C' B' D -> (forall H, frame (State m C D (c :: H)) (State m' C' D (c + n :: H))) -> block C' D [] (c + n) (c_size k - n) ->
    D !! (c + n) = None -> Q (c + n + 16) m') -> wp (memalign_cut st (c + 16) (c + n + 16)) m Q.
Proof.
  intros Hh Hc Hu Hn Hnm HQ. pose proof (hp_base _ _ _ _ _ Hh) as Hb. pose proof (bs_layout _ _ _ _ Hb) as Hly.
  assert (Hs : c_size k <> 0) by lia. pose proof (chunk_arith C c k Hly Hc Hs) as Har. destruct (ly_next _ Hly c k Hc Hs) as (kn & Hkn & Ep & _).
  destruct (hp_headers _ _ _ _ _ Hh c k Hc) as [_ E1]. destruct (hp_headers _ _ _ _ _ Hh _ kn Hkn) as [E2 _].
  rewrite (inuse_word k Hu) in *. rewrite Ep in E2.
  assert (Hw : forall a, c <= a < c + c_size k -> a mod 8 = 0 -> is_Some (m !! a)) by (intros a Ha Ham; apply (bs_space _ _ _ _ Hb c k Hc); [by rewrite extent_size|done]).
  unfold memalign_cut. replace (c + 16 - 8) with (c + 8) by lia. apply wp_bind, (wp_load _ _ _ _ E1). rewrite (proj2 (Z.eqb_neq _ 0)) by (rewrite land_7; mlia).
  rewrite land_m8. replace (c + 16 + _ - 16) with (c + c_size k) by mlia. replace (c + 16 + _ - (c + n + 16)) with (c_size k - n) by mlia. apply wp_bind, (wp_load _ _ _ _ E2).
  replace (c + n + 16 - (c + 16)) with n by lia. replace (c + n + 16 - 16) with (c + n) by lia. replace (c + n + 16 - 8) with (c + n + 8) by lia.
  rewrite !or_odd_7 by mlia.
  apply wp_bind, wp_store; [apply Hw; mlia|lia|]. apply wp_bind, wp_store; [rewrite lookup_insert_is_Some'; right; apply Hw; mlia|lia|].
  apply wp_bind, wp_store; [rewrite !lookup_insert_is_Some'; do 2 right; apply Hw; mlia|lia|].
  apply wp_bind, wp_store; [rewrite !lookup_insert_is_Some'; do 3 right; by eexists|lia|].
  pose proof (split_heap st m C D Hb c n k kn Hc Hs Hkn Hu Hnm Hn B Hh) as Hh1. pose proof (split_frame st m C D Hb c n k kn Hc Hs Hkn Hnm Hn) as Hf1.
  pose proof (lookup_split C c k kn Hly Hc Hs Hkn n Hn) as Lk.
  match goal with |- wp _ ?mm _ => assert (Em : mm = split_mem c n k m) end.
  { apply map_eq. intros a. unfold split_mem. rewrite !lookup_insert. repeat case_decide; try done; exfalso; mlia. }
  rewrite Em. assert (Hne : c <> c + n) by lia.
  apply wp_bind, (wp_free_chunk st Hfuel _ _ B D c (Chunk (c_psize k) n true) _ Hh1); [apply Lk; auto|cbn; lia|done|].
  intros m2 C2 B2 Hh2 Hf2. apply wp_ret. apply (HQ m2 C2 B2 Hh2).
  - intros H. eapply frame_comp; [apply Hf1; left|]. eapply frame_comp; [|apply Hf2]. apply (frame_tidy _ _ _ _ (c + n :: c :: H)); [|apply frame_id].
    intros x. rewrite !elem_of_cons. tauto.
  - apply (fr_block _ _ _ (Hf2 []) (c + n) (c_size k - n)). left. split; [cbn; rewrite list_elem_of_singleton; lia|]. split; [lia|].
    eexists. split; [apply Lk; right; left; done|done].
  - apply (chunk_not_area st _ _ _ (c + n) (Chunk (n + 1) (c_size k - n) true) (hp_base _ _ _ _ _ Hh1)). apply Lk. auto.
Qed.


(** Both kinds of blocks are cut at the aligned address. *)
Lemma wp_memalign m C B D align len (Q : Z -> mem -> Prop) : heap m C B D -> 0 <= align < 2 ^ 64 -> 0 <= len < 2 ^ 64 ->
  (forall m', heap m' C B D -> (forall H, frame (State m C D H) (State m' C D H)) ->
    Z.land align (- align) <> align \/ (exists n, len <= n <= len + align /\ unavailable st m' 4200 n) -> Q 0 m') ->
  (forall m' p, Z.land align (- align) = align -> allocated m C D len m' p -> (0 < align -> p mod align = 0) -> Q p m') -> wp (__memalign st align len) m Q.
Proof.
  intros Hh Hal Hlen HQ1 HQ2. unfold __memalign, SIZE_MAX.
  destruct (Z.eqb_spec (Z.land align (u64 (- align))) align) as [E|E]; cbn [negb]; rewrite land_neg_u64 in E by done;
    [|apply wp_ret, HQ1; [done|intros H; apply frame_id|by left]].
  pose proof E as E'. rewrite <- land_neg_u64 in E by done.
  rewrite Z.gtb_ltb. destruct (Z.ltb_spec (2 ^ 64 - 1 - align) len) as [Hov|Hov]; [apply wp_ret, HQ1; [done|intros H; apply frame_id|right; exists (len + align); split; [lia|left; lia]]|].
  change (4 * 8) with 32. destruct (Z.leb_spec align 32) as [Hle|Hgt].
  { apply (wp_malloc st Hfuel m C B D); [done|done|intros m' Hh' Hf' Hno; apply HQ1; [done..|right; exists len; split; [lia|done]]|]. intros m' p Hall. apply HQ2; [done|done|]. intros Hpos.
    destruct Hall as (C1 & B1 & D1 & s & Hh1 & _ & Hbl & _). destruct (block_facts st m' C1 B1 D1 _ s Hh1 Hbl) as (F1 & _).
    destruct (power_of_two align ltac:(lia) E) as (k & Hk & ->). assert (Hk5 : k <= 5) by (apply (Z.pow_le_mono_r_iff 2); lia).
    apply Z.mod_divide; [lia|]. apply (Z.divide_trans _ 32); [exists (2 ^ (5 - k)); rewrite <- Z.pow_add_r by lia; by replace (5 - k + k) with 5 by lia|].
    apply Z.mod_divide; [lia|mlia]. }
  destruct (power_of_two align ltac:(lia) E) as (k & Hk & Ek). destruct (pow2_32 k ltac:(lia) ltac:(lia)) as (g & Hg & Hg1).
  apply wp_bind, (wp_malloc st Hfuel m C B D); [done|lia|intros m' Hh' Hf' Hno; apply wp_ret; apply HQ1; [done..|right; exists (len + align - 1); split; [lia|done]]|].
  intros m1 mem Hall. pose proof Hall as (C1 & B1 & D1 & s & Hh1 & Hf1 & Hbl & Hs & Hz). destruct (block_facts st m1 C1 B1 D1 _ s Hh1 Hbl) as (F1 & F2 & F3 & F4 & F5 & F6).
  rewrite (proj2 (Z.eqb_neq mem 0)) by lia.
  set (new := Z.land (mem + align - 1) (- align)).
  assert (Enew : new = mem + align - 1 - (mem + align - 1) mod align) by (unfold new; rewrite Ek; apply land_opp_pow2; lia).
  assert (Hnew : mem <= new < mem + align /\ new mod align = 0).
  { pose proof (Z.mod_pos_bound (mem + align - 1) align ltac:(lia)). split; [lia|]. rewrite Enew. rewrite Zminus_mod_idemp_r, Z.sub_diag. apply Z.mod_0_l. lia. }
  assert (Hnm : new mod 32 = 0).
  { rewrite (Z.div_mod new align), (proj2 Hnew), Ek, Hg by lia. rewrite Z.add_0_r. replace (64 * g * _) with (2 * g * (new / (64 * g)) * 32) by ring. apply Z.mod_mul. lia. }
  destruct (Z.eqb_spec new mem) as [En|En].
  { apply wp_ret. apply HQ2; [done| |intros _; rewrite <- En; apply Hnew]. exists C1, B1, D1, s. split_and!; try done. lia. }
  assert (Hd : 0 < new - mem <= align - 32 /\ (new - mem) mod 32 = 0) by (rewrite Hg in *; mlia). destruct Hd as (Hd & Hdm).
  assert (Ec : mem = mem - 16 + 16) by lia. assert (Em : new = mem - 16 + (new - mem) + 16) by lia.
  rewrite Ec, Em.
  destruct Hbl as [(_ & Hs0 & kk & Hk1 & Hu1 & <-)|(_ & x & Hx)].
  - apply (wp_align_chunk m1 C1 B1 D1 _ kk); try done; [lia|]. intros m2 C2 B2 Hh2 Hf2 Hbl2 Hnone. rewrite <- Em.
    apply HQ2; [done| |intros _; apply Hnew]. exists C2, B2, D1, (c_size kk - (new - mem)). split_and!; [done| | |lia|].
    + intros H. eapply frame_comp; [apply Hf1|]. replace (new - 16) with (mem - 16 + (new - mem)) by lia. apply Hf2.
    + by replace (new - 16) with (mem - 16 + (new - mem)) by lia.
    + intros x l Hx. replace (new - 16) with (mem - 16 + (new - mem)) in Hx by lia. congruence.
  - pose proof (bs_areas _ _ _ _ (hp_base _ _ _ _ _ Hh1) _ x s Hx) as Hda. assert (Hs48 : new - mem + 48 <= s) by mlia.
    apply (wp_align_area m1 C1 B1 D1 _ x s); try done; [lia|]. intros m2 Em2. rewrite <- Em.
    pose proof (fun H => area_shift m1 C1 B1 D1 _ x s (new - mem) H Hh1 Hx ltac:(lia) Hdm Hs48) as Hsh. cbv zeta in Hsh. rewrite <- Em2 in Hsh.
    set (d' := mem - 16 + (new - mem)) in *. assert (Ed' : new - 16 = d') by (unfold d'; lia).
    apply HQ2; [done| |intros _; apply Hnew]. exists C1, B1, (<[d' := (x + (new - mem), s - (new - mem))]> (delete (mem - 16) D1)), (s - (new - mem)). rewrite Ed'. split_and!; [apply (Hsh [])| | |lia|].
    + intros H. eapply frame_comp; [apply Hf1|apply Hsh].
    + right. split; [apply not_elem_of_nil|]. eexists. apply lookup_insert_eq.
    + intros x2 l Hx2 a Ha Ham. rewrite Em2. assert (new - mem + 48 <= s) by done. rewrite !lookup_insert_ne by (unfold d' in *; lia). apply (Hz x s Hx); [unfold d' in *; lia|done].
Qed.
End memalign.
