(* ===== verification/MallocKernel.v ===== *)
(** A kernel that keeps the laws that the allocator of Malloc.v relies on
    (MallocGrow.v), and a memory at the start of a program: they show that the
    hypotheses of the allocator's theorems can hold, and run it. *)
From S2P Require Import Prelude Mem Links Malloc MallocChunks MallocInv MallocGrow.

Section kernel.
Context (st : Z).

Definition unmapped_b (m : mem) (lo hi : Z) : bool := bool_decide (map_Forall (fun a _ => ~ (lo <= a < hi)) m).

Lemma unmapped_b_spec m lo hi : unmapped_b m lo hi = true -> unmapped m lo hi.
Proof.
  intros H. apply bool_decide_eq_true in H. intros a Ha. destruct (m !! a) as [v|] eqn:E; [|done]. by apply (H a v) in E.
Qed.

(** The data segment begins at 1 MiB; it grows where nothing is mapped. *)
Definition toy_brk (m : mem) (a : Z) : Z :=
  if a =? 0 then 2 ^ 20
  else match m !! (st + 1560) with Some b => if unmapped_b m b a && (a <? 2 ^ 61) then a else b | None => 0 end.

(** Mappings begin behind all that is mapped. *)
Definition toy_mmap (m : mem) (n : Z) : Z :=
  let a := 4096 * (1 + map_fold (fun a _ => Z.max a) 0 m / 4096) in
  if unmapped_b m a (a + n) && (0 <? a) && (a + n <? 2 ^ 61) then a else MAP_FAILED.

(** One that shrinks stays, one that grows moves. *)
Definition toy_mremap (m : mem) (a old new : Z) : Z :=
  if (new <? old) && (0 <? a) && (a mod 4096 =? 0) && (a + old <? 2 ^ 62) then a else toy_mmap (unmap a old m) new.

#[local] Instance toy : Kernel := { sys_brk := toy_brk; sys_mmap := toy_mmap; sys_mremap := toy_mremap; stack := (2 ^ 46, 2 ^ 46 - 4096) }.

Lemma toy_mmap_fresh m n : toy_mmap m n <> MAP_FAILED ->
  0 < toy_mmap m n /\ toy_mmap m n mod 4096 = 0 /\ unmapped m (toy_mmap m n) (toy_mmap m n + n) /\ toy_mmap m n + n < 2 ^ 61.
Proof.
  unfold toy_mmap. set (a := 4096 * _). destruct (unmapped_b m a (a + n)) eqn:E; [|done]. destruct (Z.ltb_spec 0 a); [|done].
  destruct (Z.ltb_spec (a + n) (2 ^ 61)); [|done]. cbn [andb]. intros _. split; [done|]. split; [|split; [by apply unmapped_b_spec|done]].
  unfold a. rewrite Z.mul_comm. by apply Z.mod_mul.
Qed.

#[local] Instance toy_laws : KernelLaws st.
Proof.
  split.
  - intros m. cbn. unfold toy_brk. cbn [Z.eqb]. lia.
  - intros m b n E Hn. cbn. unfold toy_brk. rewrite E. destruct (Z.eqb_spec (b + n) 0); [lia|].
    destruct (unmapped_b m b (b + n)) eqn:Eu; [|cbn; lia]. destruct (Z.ltb_spec (b + n) (2 ^ 61)); [|cbn; lia].
    intros _. split; [by apply unmapped_b_spec|done].
  - intros m n _ H. by apply toy_mmap_fresh.
  - intros m a old new Hn. cbn. unfold toy_mremap. destruct (Z.ltb_spec new old), (Z.ltb_spec 0 a), (Z.eqb_spec (a mod 4096) 0), (Z.ltb_spec (a + old) (2 ^ 62));
      cbn [andb]; intros H'; try (destruct (toy_mmap_fresh _ _ H') as (? & ? & ? & ?); split_and!; [done..|lia]).
    split_and!; [done|done| |lia]. intros b Hb. unfold unmap. rewrite map_lookup_filter. destruct (m !! b) as [v|]; [|done]. cbn. by rewrite option_guard_False by lia.
  - intros m a old new [H1 H2] H3 H4 H5 _. cbn. unfold toy_mremap. rewrite (proj2 (Z.ltb_lt _ _) H2), (proj2 (Z.ltb_lt _ _) H3), (proj2 (Z.eqb_eq _ _) H4), (proj2 (Z.ltb_lt _ _) H5).
    cbn [andb]. unfold MAP_FAILED. lia.
Qed.
End kernel.
