(* ===== verification/MallocView.v ===== *)
(** The allocator of Malloc.v as its clients see it: the blocks that are in use,
    with their sizes, and the memory that is not the allocator's.  The operations
    are specified by what they do to this view. *)
From S2P Require Import Prelude Mem Links Malloc MallocChunks MallocInv MallocBins MallocHeap MallocTrim MallocGrow MallocBlocks MallocCorrect MallocRealloc MallocMemalign.

(** The blocks by address, with the number of bytes that can be used. *)
Record view := View { v_blocks : gmap Z Z; v_other : Z -> Prop }.

(** The addresses that the client may use. *)
Definition client (V : view) (a : Z) : Prop := (exists p s, v_blocks V !! p = Some s /\ p <= a < p + s) \/ v_other V a.

Definition without (p : Z) (V : view) : view := View (delete p (v_blocks V)) (v_other V).

(** What the client had in [V] it still has, unchanged. *)
Definition undisturbed (V : view) (m : mem) (V' : view) (m' : mem) : Prop :=
  forall a, client V a -> is_Some (m !! a) -> client V' a /\ m' !! a = m !! a.

(** The view is one of blocks that do not overlap, aligned, and all mapped. *)
Record view_ok (m : mem) (V : view) : Prop := {
  vo_block p s : v_blocks V !! p = Some s -> p mod 32 = 0 /\ 0 < p /\ 0 < s /\ s mod 8 = 0 /\ p + s < 2 ^ 62 /\ mapped_words m p (p + s);
  vo_apart p s p' s' : v_blocks V !! p = Some s -> v_blocks V !! p' = Some s' -> p < p' -> p + s <= p';
  vo_other p s a : v_blocks V !! p = Some s -> v_other V a -> ~ (p <= a < p + s) }.

#[export] Instance CHUNK_TO_MEM_inj : Inj (=) (=) CHUNK_TO_MEM.
Proof. intros x y. unfold CHUNK_TO_MEM. lia. Qed.

(** The blocks of the chunks [C] and the areas [D]. *)
Definition chunk_block (k : chunk) : option Z := if c_inuse k && negb (c_size k =? 0) then Some (c_size k - OVERHEAD) else None.

Definition blocks_of (C : chunks) (D : areas) : gmap Z Z :=
  kmap CHUNK_TO_MEM (omap chunk_block C ∪ ((fun xs : Z * Z => xs.2 - OVERHEAD) <$> D)).

Section view.
Context (st : Z).
Abbreviation heap := (heap st).
Abbreviation frame := (frame st).
Implicit Types (m : mem) (C : chunks) (B : Z -> list Z) (D : areas) (V : view).

(** Memory [m] holds the static objects and the heap of an allocator that the
    client sees as [V]. *)
Definition represents m V : Prop := exists C B D, heap m C B D /\ v_blocks V = blocks_of C D /\ forall a, v_other V a <-> outside st C D a.

Definition view_of C D : view := View (blocks_of C D) (outside st C D).

Lemma represents_of m C B D : heap m C B D -> represents m (view_of C D).
Proof. intros Hh. exists C, B, D. done. Qed.

Lemma lookup_blocks m C B D p s : heap m C B D -> blocks_of C D !! p = Some s <-> block C D [] (p - 16) (s + 16).
Proof.
  intros Hh. unfold blocks_of. rewrite (lookup_kmap_Some CHUNK_TO_MEM). unfold CHUNK_TO_MEM, OVERHEAD. split.
  - intros (c & -> & Hc). replace (c + 16 - 16) with c by lia. apply lookup_union_Some_raw in Hc as [Hc|[_ Hd]].
    + rewrite lookup_omap in Hc. destruct (C !! c) as [k|] eqn:Ek; [|done]. cbn in Hc. unfold chunk_block, OVERHEAD in Hc. destruct (c_inuse k) eqn:Eu; [|done].
      destruct (Z.eqb_spec (c_size k) 0); [done|]. injection Hc as <-. left. split; [apply not_elem_of_nil|]. split; [lia|]. exists k. split_and!; [done|done|lia].
    + rewrite lookup_fmap in Hd. destruct (D !! c) as [[x l]|] eqn:Ed; [|done]. injection Hd as <-. right. split; [apply not_elem_of_nil|]. exists x. cbn. rewrite Ed. do 2 f_equal. lia.
  - intros Hb. exists (p - 16). split; [lia|]. apply lookup_union_Some_raw. destruct Hb as [(_ & H0 & k & Hk & Hu & Ek)|(_ & x & Hx)].
    + left. rewrite lookup_omap, Hk. cbn. unfold chunk_block, OVERHEAD. rewrite Hu, (proj2 (Z.eqb_neq (c_size k) 0)) by lia. cbn. f_equal. lia.
    + right. split.
      * rewrite lookup_omap. destruct (C !! (p - 16)) as [k|] eqn:Ek; [|done]. pose proof (chunk_not_area st m C D _ k (hp_base _ _ _ _ _ Hh) Ek). congruence.
      * rewrite lookup_fmap, Hx. cbn. f_equal. lia.
Qed.
(** *** The view and the invariant *)
Lemma block_apart m C B D c s c' s' : heap m C B D -> block C D [] c s -> block C D [] c' s' -> c < c' -> c + s <= c'.
Proof.
  intros Hh Hc Hc' Hlt. pose proof (hp_base _ _ _ _ _ Hh) as Hb. pose proof (bs_layout _ _ _ _ Hb) as Hly.
  destruct Hc as [(_ & H0 & k & Hk & Hu & <-)|(_ & x & Hx)], Hc' as [(_ & H0' & k' & Hk' & Hu' & <-)|(_ & x' & Hx')].
  - rewrite <- (extent_size k H0). by apply (ly_disjoint _ Hly c k c' k').
  - destruct (clear_area st m C D Hb c k _ _ _ Hk Hx') as [H|H]; [rewrite extent_size in H by done|]; pose proof (bs_areas _ _ _ _ Hb _ _ _ Hx'); lia.
  - destruct (clear_area st m C D Hb c' k' _ _ _ Hk' Hx) as [H|H]; pose proof (bs_areas _ _ _ _ Hb _ _ _ Hx); pose proof (extent_16 _ _ _ _ Hb _ _ Hk'); lia.
  - pose proof (bs_areas _ _ _ _ Hb _ _ _ Hx). pose proof (bs_areas _ _ _ _ Hb _ _ _ Hx'). destruct (bs_apart _ _ _ _ Hb c x s (c' - x') (c' + s') Hx) as [H'|H']; [|lia..].
    right. exists c', x', s'. by rewrite lookup_delete_ne by lia.
Qed.

Lemma represents_ok m V : represents m V -> view_ok m V.
Proof.
  intros (C & B & D & Hh & EV & EO). split.
  - intros p s Hp. rewrite EV, (lookup_blocks _ _ _ _ _ _ Hh) in Hp. destruct (block_facts _ _ _ _ _ _ _ Hh Hp) as (F1 & F2 & F3 & F4 & F5 & F6).
    split_and!; [mlia|lia|lia|mlia|lia|]. intros a Ha Ham. apply F6; [lia|done].
  - intros p s p' s' Hp Hp' Hlt. rewrite EV, (lookup_blocks _ _ _ _ _ _ Hh) in Hp. rewrite EV, (lookup_blocks _ _ _ _ _ _ Hh) in Hp'. pose proof (block_apart _ _ _ _ _ _ _ _ Hh Hp Hp'). lia.
  - intros p s a Hp Ha Hr. rewrite EV, (lookup_blocks _ _ _ _ _ _ Hh) in Hp. apply EO in Ha as (_ & Hc & Hd). destruct Hp as [(_ & H0 & k & Hk & Hu & Ek)|(_ & x & Hx)].
    + apply Hc. exists (p - 16), k. split; [done|]. rewrite extent_size by lia. lia.
    + apply (Hd _ _ _ Hx). pose proof (bs_areas _ _ _ _ (hp_base _ _ _ _ _ Hh) _ _ _ Hx). lia.
Qed.

(** The client of [V] may use the words that are its own while [H] is held. *)
Definition sees V C D (H : list Z) : Prop := forall a, client V a <-> is_user st C D H a.

Lemma sees_blocks m V C B D H : heap m C B D -> (forall p s, v_blocks V !! p = Some s <-> block C D H (p - 16) (s + 16)) ->
  (forall a, v_other V a <-> outside st C D a) -> sees V C D H.
Proof.
  intros Hh Hb Ho a. unfold client, is_user. rewrite Ho. split.
  - intros [(p & s & Hp & Ha)|Ha]; [|by right; right]. apply Hb in Hp as [(HnH & H0 & k & Hk & Hu & Ek)|(HnH & x & Hx)].
    + left. exists (p - 16), k. split_and!; try done; lia.
    + right. left. exists (p - 16), x, (s + 16). split_and!; try done; lia.
  - intros [(c & k & Hk & Hu & HnH & Ha)|[(d & x & s & Hx & HnH & Ha)|Ha]]; [left|left|by right].
    + exists (c + 16), (c_size k - 16). split; [|lia]. apply Hb. replace (c + 16 - 16) with c by lia. left. split_and!; [done|lia|]. exists k. split_and!; [done|done|lia].
    + exists (d + 16), (s - 16). split; [|lia]. apply Hb. replace (d + 16 - 16) with d by lia. right. split; [done|]. exists x. rewrite Hx. do 2 f_equal. lia.
Qed.

Lemma view_sees m C B D : heap m C B D -> sees (view_of C D) C D [].
Proof. intros Hh. apply (sees_blocks m _ _ B); [done| |done]. intros p s. by apply (lookup_blocks m C B D). Qed.

Lemma block_holds C D q p s : block C D [q - 16] (p - 16) s <-> p <> q /\ block C D [] (p - 16) s.
Proof.
  unfold block, cblock. rewrite list_elem_of_singleton. assert (E : p - 16 = q - 16 <-> p = q) by lia. rewrite E.
  pose proof (not_elem_of_nil (p - 16)). tauto.
Qed.

Lemma lookup_without m C B D q p s : heap m C B D -> delete q (blocks_of C D) !! p = Some s <-> block C D [q - 16] (p - 16) (s + 16).
Proof. intros Hh. rewrite lookup_delete_Some, (lookup_blocks _ _ _ _ _ _ Hh), block_holds. split; intros [H1 H2]; split; congruence. Qed.

Lemma without_sees m C B D q : heap m C B D -> sees (without q (view_of C D)) C D [q - 16].
Proof. intros Hh. apply (sees_blocks m _ _ B); [done| |done]. intros p s. by apply (lookup_without m C B D). Qed.

Lemma frame_undisturbed m m' C C' D D' H H' V V' : sees V C D H -> sees V' C' D' H' -> frame (State m C D H) (State m' C' D' H') ->
  undisturbed V m V' m'.
Proof. intros S1 S2 Hf a Ha Hm. apply S1 in Ha. destruct (fr_user _ _ _ Hf a Ha Hm) as [Hu He]. split; [by apply S2|done]. Qed.

Lemma same_lookup (b b' : gmap Z Z) : (forall p s, b !! p = Some s <-> b' !! p = Some s) -> b = b'.
Proof. intros H. apply map_eq. intros p. apply option_eq. intros s. apply H. Qed.

(** *** What the operations do to the view *)

(** A new block of at least [n] bytes, besides those of [V]. *)
Definition got V m n p m' V' : Prop := p <> 0 /\ exists s, n <= s /\ v_blocks V !! p = None /\ v_blocks V' = <[p := s]> (v_blocks V) /\
  undisturbed V m (without p V') m'.

(** Nothing is allocated. *)
Definition declined V m m' V' : Prop := v_blocks V' = v_blocks V /\ undisturbed V m V' m'.

Lemma block_size m C B D c s s' : heap m C B D -> block C D [] c s -> block C D [] c s' -> s = s'.
Proof.
  intros Hh [(_ & _ & k & Hk & _ & E1)|(_ & x & Hx)] [(_ & _ & k' & Hk' & _ & E2)|(_ & x' & Hx')]; [congruence| | |congruence].
  - pose proof (chunk_not_area st m C D _ k (hp_base _ _ _ _ _ Hh) Hk). congruence.
  - pose proof (chunk_not_area st m C D _ k' (hp_base _ _ _ _ _ Hh) Hk'). congruence.
Qed.

(** A block of the new state that was held there, and maybe not in use before. *)
Lemma frame_got V m C D H m' C' B' D' n q s : (forall r t, v_blocks V !! r = Some t <-> block C D H (r - 16) (t + 16)) -> sees V C D H ->
  heap m' C' B' D' -> frame (State m C D H) (State m' C' D' [q - 16]) -> block C' D' [] (q - 16) s -> n + 16 <= s ->
  represents m' (view_of C' D') /\ got V m n q m' (view_of C' D').
Proof.
  intros Hb Hs Hh' Hf Hbl Hn. split; [by apply (represents_of m' C' B')|]. destruct (block_facts _ _ _ _ _ _ _ Hh' Hbl) as (F1 & F2 & _). split; [intros ->; mlia|].
  assert (Hiff : forall r t, v_blocks V !! r = Some t <-> r <> q /\ block C' D' [] (r - 16) (t + 16)).
  { intros r t. rewrite Hb, <- block_holds. apply (fr_block _ _ _ Hf). }
  exists (s - 16). split; [lia|]. split; [|split].
  - destruct (v_blocks V !! q) as [t|] eqn:E; [|done]. apply Hiff in E. by destruct E.
  - apply same_lookup. intros r t. cbn. rewrite (lookup_blocks m' C' B' D') by done. destruct (decide (r = q)) as [->|Hne].
    + rewrite lookup_insert_eq. split; [intros Ht|intros [= <-]; by replace (s - 16 + 16) with s by lia].
      pose proof (block_size _ _ _ _ _ _ _ Hh' Hbl Ht) as ->. f_equal. lia.
    + rewrite lookup_insert_ne by done. rewrite Hiff. tauto.
  - eapply frame_undisturbed; [exact Hs|by apply (without_sees m' C' B')|exact Hf].
Qed.

Section outcome.
Context (m : mem) (V : view) (C : chunks) (B : Z -> list Z) (D : areas) (Hh : heap m C B D).
Context (EV : v_blocks V = blocks_of C D) (EO : forall a, v_other V a <-> outside st C D a).

Lemma own_blocks p s : v_blocks V !! p = Some s <-> block C D [] (p - 16) (s + 16).
Proof. rewrite EV. by apply (lookup_blocks m C B D). Qed.

Lemma own_sees : sees V C D [].
Proof. apply (sees_blocks m V C B D); [done|apply own_blocks|done]. Qed.

Lemma without_blocks q p s : v_blocks (without q V) !! p = Some s <-> block C D [q - 16] (p - 16) (s + 16).
Proof. cbn. rewrite EV. by apply (lookup_without m C B D). Qed.

Lemma own_without q : sees (without q V) C D [q - 16].
Proof. apply (sees_blocks m _ C B D); [done|apply without_blocks|done]. Qed.

Lemma frame_declined m' B' : heap m' C B' D -> (forall H, frame (State m C D H) (State m' C D H)) -> represents m' (view_of C D) /\ declined V m m' (view_of C D).
Proof.
  intros Hh' Hf. split; [by apply (represents_of m' C B')|]. split; [done|].
  eapply frame_undisturbed; [apply own_sees|by apply (view_sees m' C B')|apply Hf].
Qed.

Lemma allocated_got n p m' : allocated st m C D n m' p -> exists V', represents m' V' /\ got V m n p m' V'.
Proof.
  intros (C' & B' & D' & s & Hh' & Hf & Hbl & Hs & _). exists (view_of C' D').
  apply (frame_got V m C D [] m' C' B' D' n p s); [apply own_blocks|apply own_sees|done|apply Hf|done|done].
Qed.

Lemma moved_got p n k m' q : moved st m C D p n k m' q -> exists V', represents m' V' /\ got (without p V) m n q m' V' /\ same_words m p m' q k.
Proof.
  intros (C' & B' & D' & s & Hh' & Hf & Hbl & Hs & Hw). exists (view_of C' D'). apply and_assoc. split; [|done].
  apply (frame_got _ m C D [p - 16] m' C' B' D' n q s); [apply without_blocks|apply own_without|done|apply Hf|done|done].
Qed.

Lemma kept_got p s m' : kept st m C D p s m' -> exists V', represents m' V' /\ got (without p V) m (s - 16) p m' V' /\ same_words m p m' p (s - 16).
Proof.
  intros (C' & B' & s' & Hh' & Hf & Hbl & Hs & Hw). exists (view_of C' D). apply and_assoc. split; [|done].
  apply (frame_got _ m C D [p - 16] m' C' B' D _ p s'); [apply without_blocks|apply own_without|done|apply Hf|done|lia].
Qed.

(** A block is given back. *)
Lemma frame_freed p m' C' B' D' : heap m' C' B' D' -> (forall H, frame (State m C D (p - 16 :: H)) (State m' C' D' H)) ->
  represents m' (view_of C' D') /\ v_blocks (view_of C' D') = delete p (v_blocks V) /\ undisturbed (without p V) m (view_of C' D') m'.
Proof.
  intros Hh' Hf. split; [by apply (represents_of m' C' B')|]. split.
  - apply same_lookup. intros r t. cbn. rewrite (lookup_blocks m' C' B' D') by done. change (delete p (v_blocks V)) with (v_blocks (without p V)).
    rewrite without_blocks. symmetry. apply (fr_block _ _ _ (Hf [])).
  - eapply frame_undisturbed; [apply own_without|by apply (view_sees m' C' B')|apply Hf].
Qed.
End outcome.

(** *** The operations *)
Section operations.
Context {F : Fuel} {K : Kernel} {KL : KernelLaws st}.

Lemma view_usable m V p s (Q : Z -> mem -> Prop) : represents m V -> v_blocks V !! p = Some s -> Q s m -> wp (malloc_usable_size p) m Q.
Proof.
  intros (C & B & D & Hh & EV & EO) Hp HQ. apply (own_blocks m V C B D Hh EV) in Hp. apply (wp_malloc_usable_size st m C B D p (s + 16)); [done|done|].
  by replace (s + 16 - 16) with s by lia.
Qed.
(** The client writes to a block of its own. *)
Lemma view_write m V p s a v : represents m V -> v_blocks V !! p = Some s -> p <= a < p + s -> is_Some (m !! a) -> represents (<[a := v]> m) V.
Proof.
  intros (C & B & D & Hh & EV & EO) Hp Ha Hm. apply (own_blocks m V C B D Hh EV) in Hp. exists C, B, D. split; [|done].
  apply (heap_write st m _ C B D (p - 16) (s + 16)); [done|done| |].
  - intros b Hb. rewrite lookup_insert_is_Some'. by right.
  - intros b Hb. rewrite lookup_insert_ne; [done|lia].
Qed.

Context (Hfuel : (2 <= fuel)%nat).

Lemma view_malloc m V n (Q : Z -> mem -> Prop) : represents m V -> 0 <= n < 2 ^ 64 ->
  (forall m' V', represents m' V' -> declined V m m' V' -> unavailable st m' 4200 n -> Q 0 m') -> (forall m' V' p, represents m' V' -> got V m n p m' V' -> Q p m') ->
  wp (malloc st n) m Q.
Proof.
  intros (C & B & D & Hh & EV & EO) Hn HQ1 HQ2. apply (wp_malloc st Hfuel m C B D); [done|done| |].
  - intros m' Hh' Hf Hno. destruct (frame_declined m V C B D Hh EV EO m' B Hh' Hf) as [Hr Hre]. by apply (HQ1 m' _ Hr).
  - intros m' p Hal. destruct (allocated_got m V C B D Hh EV EO n p m' Hal) as (V' & Hr & Hg). by apply (HQ2 m' V').
Qed.

Lemma view_memalign m V align n (Q : Z -> mem -> Prop) : represents m V -> 0 <= align < 2 ^ 64 -> 0 <= n < 2 ^ 64 ->
  (forall m' V', represents m' V' -> declined V m m' V' ->
    Z.land align (- align) <> align \/ (exists k, n <= k <= n + align /\ unavailable st m' 4200 k) -> Q 0 m') ->
  (forall m' V' p, represents m' V' -> got V m n p m' V' -> Z.land align (- align) = align -> (0 < align -> p mod align = 0) -> Q p m') ->
  wp (__memalign st align n) m Q.
Proof.
  intros (C & B & D & Hh & EV & EO) Ha Hn HQ1 HQ2. apply (wp_memalign st Hfuel m C B D); [done|done|done| |].
  - intros m' Hh' Hf Hno. destruct (frame_declined m V C B D Hh EV EO m' B Hh' Hf) as [Hr Hre]. by apply (HQ1 m' _ Hr).
  - intros m' p Hla Hal Hpa. destruct (allocated_got m V C B D Hh EV EO n p m' Hal) as (V' & Hr & Hg). by apply (HQ2 m' V').
Qed.

Lemma view_calloc m V k n (Q : Z -> mem -> Prop) : (Z.to_nat ((n * k + 7) / 8) < fuel)%nat -> represents m V -> 0 <= k < 2 ^ 64 -> 0 <= n < 2 ^ 64 ->
  (forall m' V', represents m' V' -> declined V m m' V' -> unavailable st m' 4200 (n * k) -> Q 0 m') ->
  (forall m' V' p, represents m' V' -> got V m (n * k) p m' V' -> n * k < 2 ^ 64 -> zeroed m' p (n * k) -> Q p m') -> wp (calloc st k n) m Q.
Proof.
  intros Hfu (C & B & D & Hh & EV & EO) Hk Hn HQ1 HQ2. apply (wp_calloc st Hfuel m C B D); [done|done|done|done| |].
  - intros m' Hh' Hf Hno. destruct (frame_declined m V C B D Hh EV EO m' B Hh' Hf) as [Hr Hre]. by apply (HQ1 m' _ Hr).
  - intros m' p Hlt Hal Hz. destruct (allocated_got m V C B D Hh EV EO _ p m' Hal) as (V' & Hr & Hg). by apply (HQ2 m' V').
Qed.

Lemma view_free m V p (Q : unit -> mem -> Prop) : represents m V -> p = 0 \/ is_Some (v_blocks V !! p) ->
  (forall m' V', represents m' V' -> v_blocks V' = delete p (v_blocks V) -> undisturbed (without p V) m V' m' -> Q tt m') -> wp (free st p) m Q.
Proof.
  intros Hr Hp HQ. pose proof (represents_ok m V Hr) as Hok. destruct (Z.eq_dec p 0) as [->|Hp0].
  - unfold free. cbn. assert (E : v_blocks V !! 0 = None) by (destruct (v_blocks V !! 0) as [s|] eqn:E; [|done]; apply (vo_block _ _ Hok) in E; lia).
    apply wp_ret, (HQ m V); [done|by rewrite delete_id|]. intros a Ha _. split; [|done]. destruct Ha as [(q & s & Hq & Ha)|Ha]; [|by right].
    left. exists q, s. split; [|done]. cbn in Hq. by apply lookup_delete_Some in Hq as [_ Hq].
  - destruct Hp as [?|[s Hs]]; [done|]. destruct Hr as (C & B & D & Hh & EV & EO). apply (own_blocks m V C B D Hh EV) in Hs.
    apply (wp_free st Hfuel m C B D p (s + 16)); [done|done|]. intros m' C' B' D' Hh' Hf.
    destruct (frame_freed m V C B D Hh EV EO p m' C' B' D' Hh' Hf) as (H1 & H2 & H3). by apply (HQ m' (view_of C' D')).
Qed.

Lemma view_realloc m V p s n (Q : Z -> mem -> Prop) : represents m V -> v_blocks V !! p = Some s -> words_ok m p s -> 0 <= n < 2 ^ 64 ->
  (forall m' V', represents m' V' -> got (without p V) m s p m' V' -> same_words m p m' p s -> unavailable st m' 8192 n -> Q 0 m') ->
  (forall m' V' q, represents m' V' -> got (without p V) m n q m' V' -> same_words m p m' q (Z.min n s) -> Q q m') -> wp (realloc st p n) m Q.
Proof.
  intros (C & B & D & Hh & EV & EO) Hp Hw Hn HQ1 HQ2. apply (own_blocks m V C B D Hh EV) in Hp. assert (Es : s + 16 - 16 = s) by lia.
  apply (wp_realloc st Hfuel m C B D p (s + 16)); [done|done|by rewrite Es|done| |]; rewrite ?Es.
  - intros m' Hk Hno. destruct (kept_got m V C B D Hh EV EO p _ m' Hk) as (V' & Hr & Hg & Hs). rewrite Es in *. by apply (HQ1 m' V').
  - intros m' q Hk. destruct (moved_got m V C B D Hh EV EO p _ _ m' q Hk) as (V' & Hr & Hg & Hs). by apply (HQ2 m' V').
Qed.

End operations.
End view.
