(* ===== verification/MallocWords.v ===== *)
(** The memory of the allocator stays one of 64-bit words, whatever the allocator
    of Malloc.v does: it stores words only, and maps words that are zero. *)
From S2P Require Import Prelude Mem QsortBits Links Malloc.

Definition words64 (m : mem) : Prop := forall a v, m !! a = Some v -> 0 <= v < 2 ^ 64.

(** *** The operations of the monad *)
Definition keeps64 {A} (c : M A) : Prop := forall m r m', words64 m -> c m = Done (r, m') -> words64 m'.

Create HintDb words64.

Section keeps.
Context {A B : Type}.

Lemma keeps_ret (a : A) : keeps64 (mret a).
Proof. intros m r m' Hm [= _ <-]. done. Qed.

Lemma keeps_fault : keeps64 (fault : M A).
Proof. done. Qed.

Lemma keeps_bind (c : M A) (k : A -> M B) : keeps64 c -> (forall a, keeps64 (k a)) -> keeps64 (mbind k c).
Proof.
  intros Hc Hk m r m' Hm. unfold mbind, M_bind. destruct (c m) as [[a m1]| |] eqn:E; [|done..]. intros E'.
  apply (Hk a m1 r m'); [by apply (Hc m a m1)|done].
Qed.

Lemma keeps_loop {F : Fuel} {S} (body : S -> M (S + A)) s : (forall s, keeps64 (body s)) -> keeps64 (loop body s).
Proof.
  intros Hb. unfold loop. generalize fuel as n. intros n. revert s. induction n as [|n IH]; intros s; [done|].
  cbn [loop_n]. intros m r m' Hm. unfold mbind, M_bind. destruct (body s m) as [[[s'|r'] m1]| |] eqn:E; [|intros [= <- <-]|done..].
  - apply IH. by apply (Hb s m (inl s')).
  - by apply (Hb s m (inr r')).
Qed.
End keeps.

Lemma keeps_while {F : Fuel} {S} (cond : S -> M bool) (body : S -> M S) s : (forall s, keeps64 (cond s)) -> (forall s, keeps64 (body s)) -> keeps64 (while cond body s).
Proof.
  intros H1 H2. apply keeps_loop. intros s'. apply keeps_bind; [done|]. intros []; [|apply keeps_ret]. apply keeps_bind; [done|]. intros s2. apply keeps_ret.
Qed.

Lemma keeps_load p : keeps64 (load p).
Proof. intros m r m' Hm. unfold load. destruct (m !! p); [|done]. by intros [= _ <-]. Qed.

Lemma words64_insert m p v : words64 m -> 0 <= v < 2 ^ 64 -> words64 (<[p := v]> m).
Proof. intros Hm Hv a w. rewrite lookup_insert_Some. intros [[_ <-]|[_ Hw]]; [done|by apply (Hm a)]. Qed.

Lemma keeps_store p v : keeps64 (store p v).
Proof.
  intros m r m' Hm. unfold store. destruct (m !! p); [|done]. intros [= _ <-]. apply words64_insert; [done|].
  unfold u64. apply Z.mod_pos_bound. lia.
Qed.

Lemma words64_map n : forall a m, words64 m -> words64 (map_words n a m).
Proof. induction n as [|n IH]; intros a m Hm; [done|]. cbn. apply words64_insert; [by apply IH|lia]. Qed.

Lemma words64_unmap a len m : words64 m -> words64 (unmap a len m).
Proof. intros Hm b v Hb. apply (Hm b). by apply map_lookup_filter_Some in Hb as [Hb _]. Qed.

Lemma keeps_load_words n : forall p, keeps64 (load_words n p).
Proof.
  induction n as [|n IH]; intros p; cbn [load_words]; [apply keeps_ret|]. apply keeps_bind; [apply keeps_load|]. intros v.
  apply keeps_bind; [apply IH|]. intros l. apply keeps_ret.
Qed.

Lemma keeps_store_words l : forall p, keeps64 (store_words p l).
Proof. induction l as [|v l IH]; intros p; cbn [store_words]; [apply keeps_ret|]. apply keeps_bind; [apply keeps_store|]. intros _. apply IH. Qed.

#[export] Hint Resolve keeps_ret keeps_fault keeps_load keeps_store keeps_load_words keeps_store_words : words64.

(** Through the structure of the code. *)
Ltac keeps64_step :=
  match goal with
  | |- keeps64 (mbind _ _) => apply keeps_bind; [|intros ?]
  | |- keeps64 (loop _ _) => apply keeps_loop; intros ?
  | |- keeps64 (while _ _ _) => apply keeps_while; intros ?
  | |- keeps64 (andM ?b _) => destruct b; cbn [andM]
  | |- keeps64 (if ?b then _ else _) => destruct b
  | |- keeps64 (match ?x with _ => _ end) => destruct x
  | |- keeps64 (let x := ?y in _) => cbv zeta
  | |- forall _, _ => intros ?
  end.
Ltac keeps64_solve := repeat (first [solve [auto with words64 nocore]|keeps64_step]).

(** *** The allocator *)
Section allocator.
Context {F : Fuel} {K : Kernel} (st : Z).

Lemma keeps_CHUNK_SIZE c : keeps64 (CHUNK_SIZE c).
Proof. unfold CHUNK_SIZE. keeps64_solve. Qed.

Lemma keeps_IS_MMAPPED c : keeps64 (IS_MMAPPED c).
Proof. unfold IS_MMAPPED. keeps64_solve. Qed.

Lemma keeps_NEXT_CHUNK c : keeps64 (NEXT_CHUNK c).
Proof. unfold NEXT_CHUNK, CHUNK_SIZE. keeps64_solve. Qed.

Lemma keeps_PREV_CHUNK c : keeps64 (PREV_CHUNK c).
Proof. unfold PREV_CHUNK, CHUNK_PSIZE. keeps64_solve. Qed.

Lemma keeps_lock_bin i : keeps64 (lock_bin st i).
Proof. unfold lock_bin. keeps64_solve. Qed.

Hint Resolve keeps_CHUNK_SIZE keeps_IS_MMAPPED keeps_NEXT_CHUNK keeps_PREV_CHUNK keeps_lock_bin : words64.

Lemma keeps_unbin c i : keeps64 (unbin st c i).
Proof. unfold unbin. keeps64_solve. Qed.

Hint Resolve keeps_unbin : words64.

Lemma keeps_alloc_fwd c : keeps64 (alloc_fwd st c).
Proof. unfold alloc_fwd. keeps64_solve. Qed.

Lemma keeps_alloc_rev c : keeps64 (alloc_rev st c).
Proof. unfold alloc_rev. keeps64_solve. Qed.

Hint Resolve keeps_alloc_fwd keeps_alloc_rev : words64.

(** The calls of the kernel. *)
Ltac keeps64_call :=
  let m := fresh "m" in let Hm := fresh "Hm" in
  intros m ? ? Hm; cbv zeta; repeat case_match; intros; simplify_eq;
  first [done|by apply words64_map|by apply words64_unmap|eapply keeps_store; [|eassumption]; done].

Lemma keeps___expand_heap n : keeps64 (__expand_heap st n).
Proof. unfold __expand_heap. keeps64_solve. all: keeps64_call. Qed.

Hint Resolve keeps___expand_heap : words64.

Lemma keeps_expand_heap n : keeps64 (expand_heap st n).
Proof. unfold expand_heap. keeps64_solve. Qed.

Lemma keeps_pretrim c n i j : keeps64 (pretrim c n i j).
Proof. unfold pretrim. keeps64_solve. Qed.

Lemma keeps_reclaim_pages c nx : keeps64 (reclaim_pages c nx).
Proof. unfold reclaim_pages. keeps64_solve. Qed.

Lemma keeps_free_rev ns c fs rc : keeps64 (free_rev st ns c fs rc).
Proof. unfold free_rev. keeps64_solve. Qed.

Lemma keeps_free_fwd ns nx fs rc : keeps64 (free_fwd st ns nx fs rc).
Proof. unfold free_fwd. keeps64_solve. Qed.

Hint Resolve keeps_expand_heap keeps_pretrim keeps_reclaim_pages keeps_free_rev keeps_free_fwd : words64.

Lemma keeps_free_step ns x : keeps64 (free_step st ns x).
Proof. unfold free_step. keeps64_solve. Qed.

Hint Resolve keeps_free_step : words64.

Lemma keeps_free_merge c nx ns : keeps64 (free_merge st c nx ns).
Proof. unfold free_merge. keeps64_solve. Qed.

Lemma keeps_free_insert c nx fs i : keeps64 (free_insert st c nx fs i).
Proof. unfold free_insert. keeps64_solve. Qed.

Hint Resolve keeps_free_merge keeps_free_insert : words64.

Lemma keeps_free p : keeps64 (free st p).
Proof. unfold free. keeps64_solve. all: keeps64_call. Qed.

Hint Resolve keeps_free : words64.

Lemma keeps_trim c n : keeps64 (trim st c n).
Proof. unfold trim. keeps64_solve. Qed.

Lemma keeps_grow_chunk n : keeps64 (grow_chunk st n).
Proof. unfold grow_chunk. keeps64_solve. Qed.

Hint Resolve keeps_trim keeps_grow_chunk : words64.

Lemma keeps_take_chunk n : keeps64 (take_chunk st n).
Proof. unfold take_chunk. keeps64_solve. Qed.

Hint Resolve keeps_take_chunk : words64.

Lemma keeps_malloc n : keeps64 (malloc st n).
Proof. unfold malloc. keeps64_solve. all: keeps64_call. Qed.

Hint Resolve keeps_malloc : words64.

Lemma keeps___malloc0 n : keeps64 (__malloc0 st n).
Proof. unfold __malloc0. keeps64_solve. Qed.

Hint Resolve keeps___malloc0 : words64.

Lemma keeps_calloc k n : keeps64 (calloc st k n).
Proof. unfold calloc. keeps64_solve. Qed.

Lemma keeps_copy_words q p n : keeps64 (copy_words q p n).
Proof. unfold copy_words. keeps64_solve. Qed.

Hint Resolve keeps_copy_words : words64.

Lemma keeps_copy_realloc c p n n0 : keeps64 (copy_realloc st c p n n0).
Proof. unfold copy_realloc. keeps64_solve. Qed.

Lemma keeps_mremap b l l' : keeps64 (mremap b l l').
Proof.
  intros m r m' Hm. unfold mremap. case_match; [by intros [= _ <-]|]. case_match; try done. destruct a as [w m1].
  assert (H1 : words64 m1) by (eapply keeps_load_words; eassumption). intros E.
  refine (keeps_bind _ _ (keeps_store_words _ _) (fun _ => keeps_ret _) _ _ _ _ E). by apply words64_map, words64_unmap.
Qed.

Hint Resolve keeps_copy_realloc keeps_mremap : words64.

Lemma keeps_realloc_mapped c p n n0 : keeps64 (realloc_mapped st c p n n0).
Proof. unfold realloc_mapped. keeps64_solve. Qed.

Lemma keeps_realloc_chunk c p n n0 : keeps64 (realloc_chunk st c p n n0).
Proof. unfold realloc_chunk. keeps64_solve. Qed.

Hint Resolve keeps_realloc_mapped keeps_realloc_chunk : words64.

Lemma keeps_realloc p n : keeps64 (realloc st p n).
Proof. unfold realloc. keeps64_solve. Qed.

Lemma keeps_memalign_cut p q : keeps64 (memalign_cut st p q).
Proof. unfold memalign_cut. keeps64_solve. Qed.

Hint Resolve keeps_memalign_cut : words64.

Lemma keeps___memalign align len : keeps64 (__memalign st align len).
Proof. unfold __memalign. keeps64_solve. Qed.

Lemma keeps_malloc_usable_size p : keeps64 (malloc_usable_size p).
Proof. unfold malloc_usable_size. keeps64_solve. Qed.
End allocator.

#[export] Hint Resolve keeps_malloc keeps_free keeps_calloc keeps_realloc keeps___memalign keeps_malloc_usable_size : words64.
