(* ===== verification/MallocClient.v ===== *)
(** An abstract allocator, whose state is the contents of the blocks in use, and
    the proof that the allocator of Malloc.v implements it: a program that is
    right with the abstract one runs with the real one, without a fault, and sees
    what the abstract one allows. *)
From S2P Require Import Prelude Mem Links Malloc MallocInv MallocGrow MallocBlocks MallocView MallocWords.

(** ** The abstract allocator *)

(** The words of each block, by its address. *)
Abbreviation blocks := (gmap Z (list Z)).

(** What a program may ask for: the last two read and write the [i]-th word of a block. *)
Inductive call :=
  | Malloc (n : Z)
  | Calloc (k n : Z)
  | Memalign (align n : Z)
  | Realloc (p n : Z)
  | Free (p : Z)
  | UsableSize (p : Z)
  | Get (p : Z) (i : nat)
  | Put (p : Z) (i : nat) (v : Z).

Definition size_t (n : Z) : Prop := 0 <= n < 2 ^ 64.

Definition null_or_block (A : blocks) (p : Z) : Prop := p = 0 \/ is_Some (A !! p).

(** The calls that the C standard allows. *)
Definition legal {F : Fuel} (A : blocks) (c : call) : Prop :=
  match c with
  | Malloc n => size_t n
  | Calloc k n => size_t k /\ size_t n /\ (Z.to_nat ((n * k + 7) / 8) < fuel)%nat
  | Memalign align n => size_t align /\ size_t n
  | Realloc p n => null_or_block A p /\ size_t n
  | Free p | UsableSize p => null_or_block A p
  | Get p i | Put p i _ => exists l, A !! p = Some l /\ (i < length l)%nat
  end.

(** A block may be put at [p]: aligned, and apart from all others. *)
Record fresh (A : blocks) (p : Z) (l : list Z) : Prop := {
  fs_aligned : p mod 32 = 0 /\ 0 < p /\ p + 8 * Z.of_nat (length l) < 2 ^ 62;
  fs_new : A !! p = None;
  fs_apart p' l' : A !! p' = Some l' -> p + 8 * Z.of_nat (length l) <= p' \/ p' + 8 * Z.of_nat (length l') <= p }.

(** The number of words that hold [n] bytes. *)
Definition words_of (n : Z) : nat := Z.to_nat ((n + 7) / 8).

(** A new block of at least [n] bytes at [p]. *)
Definition block_at (A : blocks) (n p : Z) (l : list Z) : Prop := fresh A p l /\ n <= 8 * Z.of_nat (length l).

Inductive spec (A : blocks) : call -> Z -> blocks -> Prop :=
  | spec_malloc n p l : block_at A n p l -> spec A (Malloc n) p (<[p := l]> A)
  | spec_malloc_null n : spec A (Malloc n) 0 A
  | spec_calloc k n p l : block_at A (n * k) p l -> n * k < 2 ^ 64 -> take (words_of (n * k)) l = replicate (words_of (n * k)) 0 ->
      spec A (Calloc k n) p (<[p := l]> A)
  | spec_calloc_null k n : spec A (Calloc k n) 0 A
  | spec_memalign align n p l : block_at A n p l -> (0 < align -> p mod align = 0) -> spec A (Memalign align n) p (<[p := l]> A)
  | spec_memalign_null align n : spec A (Memalign align n) 0 A
  | spec_realloc p l n q l' : A !! p = Some l -> block_at (delete p A) n q l' ->
      (forall j : nat, (j < length l)%nat -> (j < words_of n)%nat -> l' !! j = l !! j) -> spec A (Realloc p n) q (<[q := l']> (delete p A))
  | spec_realloc_kept p l n l' : A !! p = Some l -> fresh (delete p A) p l' -> l `prefix_of` l' -> spec A (Realloc p n) 0 (<[p := l']> (delete p A))
  | spec_realloc_null n q A' : spec A (Malloc n) q A' -> spec A (Realloc 0 n) q A'
  | spec_free p : null_or_block A p -> spec A (Free p) 0 (delete p A)
  | spec_usable p l : A !! p = Some l -> spec A (UsableSize p) (8 * Z.of_nat (length l)) A
  | spec_usable_null : spec A (UsableSize 0) 0 A
  | spec_get p i l v : A !! p = Some l -> l !! i = Some v -> spec A (Get p i) v A
  | spec_put p i v l : A !! p = Some l -> (i < length l)%nat -> spec A (Put p i v) 0 (<[p := <[i := u64 v]> l]> A).

(** ** What the blocks hold in memory *)
Definition word_at (m : mem) (a : Z) : Z := default 0 (m !! a).

Definition read_block (m : mem) (p s : Z) : list Z := (fun i : nat => word_at m (p + 8 * Z.of_nat i)) <$> seq 0 (Z.to_nat (s / 8)).

Definition contents (m : mem) (b : gmap Z Z) : blocks := map_imap (fun p s => Some (read_block m p s)) b.

Lemma length_read_block m p s : 0 <= s -> s mod 8 = 0 -> 8 * Z.of_nat (length (read_block m p s)) = s.
Proof. intros H0 H8. unfold read_block. rewrite length_fmap, length_seq. mlia. Qed.

Lemma lookup_read_block m p s (j : nat) : 8 * Z.of_nat j < s -> s mod 8 = 0 -> read_block m p s !! j = Some (word_at m (p + 8 * Z.of_nat j)).
Proof. intros Hj H8. unfold read_block. rewrite list_lookup_fmap, lookup_seq_lt by mlia. done. Qed.

Lemma read_block_ext m m' p s : (forall j : nat, 8 * Z.of_nat j < s -> m' !! (p + 8 * Z.of_nat j) = m !! (p + 8 * Z.of_nat j)) ->
  read_block m' p s = read_block m p s.
Proof.
  intros H. unfold read_block. apply list_fmap_ext. intros i j Hj. apply lookup_seq in Hj as [-> Hj]. unfold word_at. rewrite H; [done|mlia].
Qed.

Lemma lookup_contents m b p : contents m b !! p = read_block m p <$> b !! p.
Proof. unfold contents. rewrite map_lookup_imap. by destruct (b !! p). Qed.

Lemma contents_delete m b p : contents m (delete p b) = delete p (contents m b).
Proof.
  apply map_eq. intros q. rewrite lookup_contents. destruct (decide (q = p)) as [->|]; [by rewrite !lookup_delete_eq|].
  by rewrite !lookup_delete_ne, lookup_contents by done.
Qed.

Lemma contents_insert m b p s : contents m (<[p := s]> b) = <[p := read_block m p s]> (contents m b).
Proof.
  apply map_eq. intros q. rewrite lookup_contents. destruct (decide (q = p)) as [->|]; [by rewrite !lookup_insert_eq|].
  by rewrite !lookup_insert_ne, lookup_contents by done.
Qed.

Lemma contents_ext m m' b : (forall p s, b !! p = Some s -> read_block m' p s = read_block m p s) -> contents m' b = contents m b.
Proof.
  intros H. apply map_eq. intros p. rewrite !lookup_contents. destruct (b !! p) as [s|] eqn:E; [|done]. cbn. by rewrite H.
Qed.

(** ** The refinement *)
Section refinement.
Context (st : Z).
Implicit Types (m : mem) (V : view) (A : blocks).

(** Memory [m] implements the abstract state [A]. *)
Definition implements m A : Prop := exists V, represents st m V /\ words64 m /\ A = contents m (v_blocks V).

Lemma ok_without m V p : view_ok m V -> view_ok m (without p V).
Proof.
  intros [H1 H2 H3]. split; cbn; intros *; rewrite ?lookup_delete_Some.
  - intros [_ H]. by apply H1.
  - intros [_ H] [_ H']. by eapply H2.
  - intros [_ H]. by apply H3.
Qed.

Lemma read_undisturbed m V m' V' p s : view_ok m V -> undisturbed V m V' m' -> v_blocks V !! p = Some s -> read_block m' p s = read_block m p s.
Proof.
  intros Hok Hu Hp. destruct (vo_block _ _ Hok p s Hp) as (H1 & H2 & H3 & H4 & H5 & H6). apply read_block_ext. intros j Hj.
  apply Hu; [left; exists p, s; split; [done|lia]|]. apply H6; [lia|mlia].
Qed.

Lemma contents_undisturbed m V m' V' : view_ok m V -> undisturbed V m V' m' -> contents m' (v_blocks V) = contents m (v_blocks V).
Proof. intros Hok Hu. apply contents_ext. intros p s Hp. by apply (read_undisturbed m V m' V'). Qed.

(** A new block of the view is one of the abstract allocator. *)
Lemma got_block_at m V n p m' V' : view_ok m V -> view_ok m' V' -> got V m n p m' V' ->
  exists s, n <= s /\ s mod 8 = 0 /\ 0 < s /\ v_blocks V' !! p = Some s /\ block_at (contents m (v_blocks V)) n p (read_block m' p s) /\
    contents m' (v_blocks V') = <[p := read_block m' p s]> (contents m (v_blocks V)).
Proof.
  intros Hok Hok' (Hp & s & Hs & Hnone & EV & Hu). exists s. assert (Hps : v_blocks V' !! p = Some s) by (by rewrite EV, lookup_insert_eq).
  destruct (vo_block _ _ Hok' p s Hps) as (H1 & H2 & H3 & H4 & H5 & H6). pose proof (length_read_block m' p s ltac:(lia) H4) as Hl.
  split_and!; [done|done|done|done| |].
  - split; [|lia]. split; [split_and!; [done|done|lia]|by rewrite lookup_contents, Hnone|].
    intros r l Hr. rewrite lookup_contents in Hr. destruct (v_blocks V !! r) as [t|] eqn:Et; [|done]. injection Hr as <-.
    assert (Hne : r <> p) by (intros ->; congruence). assert (Ht : v_blocks V' !! r = Some t) by (by rewrite EV, lookup_insert_ne by done).
    destruct (vo_block _ _ Hok r t Et) as (K1 & K2 & K3 & K4 & _). rewrite Hl, length_read_block by lia.
    destruct (Z.lt_trichotomy r p) as [Hlt|[->|Hlt]]; [right|done|left].
    + by apply (vo_apart _ _ Hok' r t p s).
    + by apply (vo_apart _ _ Hok' p s r t).
  - rewrite EV, contents_insert. f_equal. by apply (contents_undisturbed m V m' (without p V')).
Qed.

Lemma same_read m p m' q k s s' : same_words m p m' q k -> s mod 8 = 0 -> s' mod 8 = 0 ->
  forall j : nat, 8 * Z.of_nat j < k -> k <= s -> k <= s' -> read_block m' q s' !! j = read_block m p s !! j.
Proof.
  intros Hw Hs Hs' j Hj Hk Hk'. rewrite !lookup_read_block by (done || lia). unfold word_at. rewrite Hw; [done|lia|mlia].
Qed.

Lemma zeroed_read m p s n : zeroed m p n -> p mod 8 = 0 -> s mod 8 = 0 -> 0 <= n <= s -> take (words_of n) (read_block m p s) = replicate (words_of n) 0.
Proof.
  intros Hz Hp Hs Hn. apply list_eq. intros j. unfold words_of. destruct (decide (j < Z.to_nat ((n + 7) / 8))%nat) as [Hj|Hj].
  - rewrite lookup_take_lt, lookup_replicate_2, lookup_read_block by (done || mlia). unfold word_at. rewrite (Hz (p + 8 * Z.of_nat j)); [done|mlia|mlia].
  - rewrite lookup_take_ge, (lookup_ge_None_2 (replicate _ _)) by (rewrite ?length_replicate; lia). done.
Qed.

Lemma same_prefix m p m' s s' : same_words m p m' p s -> 0 <= s <= s' -> s mod 8 = 0 -> s' mod 8 = 0 -> read_block m p s `prefix_of` read_block m' p s'.
Proof.
  intros Hw Hs H8 H8'. exists (drop (length (read_block m p s)) (read_block m' p s')). rewrite <- (take_drop (length (read_block m p s)) (read_block m' p s')) at 1. f_equal.
  pose proof (length_read_block m p s ltac:(lia) H8). pose proof (length_read_block m' p s' ltac:(lia) H8').
  apply list_eq_same_length with (length (read_block m p s)); [done|rewrite length_take; lia|]. intros j x y Hj Hx Hy.
  rewrite lookup_take_lt in Hx by done. rewrite (same_read m p m' p s s s') in Hx by (done || lia). congruence.
Qed.

(** A block of the abstract state *)
Lemma contents_block m V p l : view_ok m V -> contents m (v_blocks V) !! p = Some l ->
  exists s, v_blocks V !! p = Some s /\ l = read_block m p s /\ 8 * Z.of_nat (length l) = s /\ s mod 8 = 0 /\ 0 < s.
Proof.
  intros Hok Hl. rewrite lookup_contents in Hl. destruct (v_blocks V !! p) as [s|] eqn:E; [|done]. injection Hl as <-. exists s.
  destruct (vo_block _ _ Hok p s E) as (_ & _ & H0 & H8 & _). split_and!; [done|done| |done|done]. apply length_read_block; lia.
Qed.

Lemma null_or_block_view m V p : null_or_block (contents m (v_blocks V)) p -> p = 0 \/ is_Some (v_blocks V !! p).
Proof. intros [?|[l Hl]]; [by left|right]. rewrite lookup_contents in Hl. destruct (v_blocks V !! p); [by eexists|done]. Qed.

(** The calls of the program *)
Context {F : Fuel} {K : Kernel} {KL : KernelLaws st}.

Definition exec (c : call) : M Z :=
  match c with
  | Malloc n => malloc st n
  | Calloc k n => calloc st k n
  | Memalign align n => __memalign st align n
  | Realloc p n => realloc st p n
  | Free p => free st p;; mret 0
  | UsableSize p => malloc_usable_size p
  | Get p i => load (p + 8 * Z.of_nat i)
  | Put p i v => store (p + 8 * Z.of_nat i) v;; mret 0
  end.

Lemma keeps_exec c : keeps64 (exec c).
Proof. destruct c; cbn; keeps64_solve. Qed.

(** One call: the abstract allocator can do what the real one does. *)
Definition simulated A c : Z -> mem -> Prop := fun r m' => exists A' V', spec A c r A' /\ represents st m' V' /\ A' = contents m' (v_blocks V').

Section calls.
Context (Hfuel : (2 <= fuel)%nat) (m : mem) (V : view) (HR : represents st m V) (HW : words64 m).
Abbreviation A := (contents m (v_blocks V)).
Let Hok : view_ok m V := represents_ok st m V HR.

Lemma declined_simulated c m' V' : spec A c 0 A -> represents st m' V' -> declined V m m' V' -> simulated A c 0 m'.
Proof.
  intros Hs HR' [EV Hu]. exists A, V'. split; [done|]. split; [done|]. rewrite EV. symmetry. by apply (contents_undisturbed m V m' V').
Qed.

Lemma got_simulated c n p m' V' : (forall s, n <= s -> s mod 8 = 0 -> block_at A n p (read_block m' p s) -> spec A c p (<[p := read_block m' p s]> A)) ->
  represents st m' V' -> got V m n p m' V' -> simulated A c p m'.
Proof.
  intros Hs HR' Hg. destruct (got_block_at m V n p m' V' Hok (represents_ok st m' V' HR') Hg) as (s & H1 & H2 & _ & _ & H4 & H5).
  exists (<[p := read_block m' p s]> A), V'. split; [by apply Hs|done].
Qed.

Lemma simulate_malloc n : size_t n -> wp (malloc st n) m (simulated A (Malloc n)).
Proof.
  intros Hn. apply (view_malloc st Hfuel m V); [done|done| |].
  - intros m' V' HR' Hr _. revert HR' Hr. apply declined_simulated. apply spec_malloc_null.
  - intros m' V' p. apply got_simulated. intros s _ _ Hb. by apply spec_malloc.
Qed.

Lemma simulate_calloc k n : legal A (Calloc k n) -> wp (calloc st k n) m (simulated A (Calloc k n)).
Proof.
  intros (Hk & Hn & Hf). apply (view_calloc st Hfuel m V); [done|done|done|done| |].
  - intros m' V' HR' Hr _. revert HR' Hr. apply declined_simulated. apply spec_calloc_null.
  - intros m' V' p HR' Hg Hlt Hz. revert HR' Hg. apply got_simulated. intros s Hs H8 Hb. apply spec_calloc; [done|done|].
    destruct Hb as [[(H32 & _) _ _] _]. apply zeroed_read; [done|mlia|done|]. unfold size_t in *. nia.
Qed.

Lemma simulate_memalign align n : legal A (Memalign align n) -> wp (__memalign st align n) m (simulated A (Memalign align n)).
Proof.
  intros (Ha & Hn). apply (view_memalign st Hfuel m V); [done|done|done| |].
  - intros m' V' HR' Hr _. revert HR' Hr. apply declined_simulated. apply spec_memalign_null.
  - intros m' V' p HR' Hg _ Hpa. revert HR' Hg. apply got_simulated. intros s _ _ Hb. by apply spec_memalign.
Qed.

Lemma simulate_realloc p n : legal A (Realloc p n) -> wp (realloc st p n) m (simulated A (Realloc p n)).
Proof.
  intros (Hp & Hn). destruct (Z.eq_dec p 0) as [->|Hp0].
  { unfold realloc. cbn. eapply wp_mono; [by apply simulate_malloc|]. intros r m' (A' & V' & Hs & HR' & E). exists A', V'. split; [by apply spec_realloc_null|done]. }
  destruct Hp as [?|[l Hl]]; [done|]. destruct (contents_block m V p l Hok Hl) as (s & Hs & El & Hlen & H8 & H0).
  assert (Hw : words_ok m p s) by (intros i v _ _; apply HW). pose proof (ok_without m V p Hok) as Hokp.
  apply (view_realloc st Hfuel m V p s n); [done|done|done|done| |].
  - intros m' V' HR' Hg Hsw _. destruct (got_block_at m _ _ _ m' V' Hokp (represents_ok st m' V' HR') Hg) as (s' & H1 & H2 & _ & _ & [Hfr _] & H5).
    cbn [without v_blocks] in *. rewrite contents_delete in *. exists (<[p := read_block m' p s']> (delete p A)), V'. split; [|split; [done|by rewrite H5]].
    apply (spec_realloc_kept A p l n); [done|done|]. rewrite El. apply same_prefix; [done|lia|done|done].
  - intros m' V' q HR' Hg Hsw. destruct (got_block_at m _ _ _ m' V' Hokp (represents_ok st m' V' HR') Hg) as (s' & H1 & H2 & _ & _ & Hb & H5).
    cbn [without v_blocks] in *. rewrite contents_delete in *. exists (<[q := read_block m' q s']> (delete p A)), V'. split; [|split; [done|by rewrite H5]].
    apply (spec_realloc A p l n); [done|done|]. intros j Hj1 Hj2. rewrite El. apply (same_read m p m' q (Z.min n s)); [done|done|done|..].
    all: unfold words_of, size_t in *; mlia.
Qed.

Lemma simulate_free p : null_or_block A p -> wp (free st p;; mret 0) m (simulated A (Free p)).
Proof.
  intros Hp. apply wp_bind, (view_free st Hfuel m V); [done|by apply null_or_block_view in Hp|]. intros m' V' HR' EV Hu. apply wp_ret.
  exists (delete p A), V'. split; [by apply spec_free|]. split; [done|]. rewrite EV, <- contents_delete. symmetry.
  apply (contents_undisturbed m (without p V) m' V'); [by apply ok_without|done].
Qed.

Lemma simulate_usable p : null_or_block A p -> wp (malloc_usable_size p) m (simulated A (UsableSize p)).
Proof.
  intros Hp. destruct (Z.eq_dec p 0) as [->|Hp0]; [apply wp_ret; exists A, V; split; [apply spec_usable_null|done]|].
  destruct Hp as [?|[l Hl]]; [done|]. destruct (contents_block m V p l Hok Hl) as (s & Hs & El & Hlen & _).
  apply (view_usable st m V p s); [done|done|]. exists A, V. split; [|done]. rewrite <- Hlen. by apply spec_usable.
Qed.
Lemma simulate_get p i : legal A (Get p i) -> wp (load (p + 8 * Z.of_nat i)) m (simulated A (Get p i)).
Proof.
  intros (l & Hl & Hi). destruct (contents_block m V p l Hok Hl) as (s & Hs & El & Hlen & H8 & _). destruct (vo_block _ _ Hok p s Hs) as (Hp & _ & _ & _ & _ & Hm).
  destruct (Hm (p + 8 * Z.of_nat i)) as [v Hv]; [lia|mlia|]. apply (wp_load _ _ v); [done|]. exists A, V. split; [|done].
  apply (spec_get A p i l); [done|]. rewrite El, lookup_read_block by lia. unfold word_at. by rewrite Hv.
Qed.

Lemma read_block_insert p s i v : p mod 8 = 0 -> s mod 8 = 0 -> 8 * Z.of_nat i < s ->
  read_block (<[p + 8 * Z.of_nat i := v]> m) p s = <[i := v]> (read_block m p s).
Proof.
  intros Hp Hs Hi. apply list_eq. intros j. destruct (decide (8 * Z.of_nat j < s)) as [Hj|Hj].
  - rewrite lookup_read_block by done. unfold word_at. destruct (decide (j = i)) as [->|Hne].
    + rewrite lookup_insert_eq, list_lookup_insert_eq; [done|]. pose proof (length_read_block m p s ltac:(lia) Hs). lia.
    + rewrite lookup_insert_ne, list_lookup_insert_ne, lookup_read_block by (done || lia). done.
  - pose proof (length_read_block m p s ltac:(lia) Hs). pose proof (length_read_block (<[p + 8 * Z.of_nat i := v]> m) p s ltac:(lia) Hs).
    rewrite !lookup_ge_None_2 by (rewrite ?length_insert; lia). done.
Qed.

Lemma simulate_put p i v : legal A (Put p i v) -> wp (store (p + 8 * Z.of_nat i) v;; mret 0) m (simulated A (Put p i v)).
Proof.
  intros (l & Hl & Hi). destruct (contents_block m V p l Hok Hl) as (s & Hs & El & Hlen & H8 & _). destruct (vo_block _ _ Hok p s Hs) as (Hp & _ & _ & _ & _ & Hm).
  destruct (Hm (p + 8 * Z.of_nat i)) as [w Hw]; [lia|mlia|]. unfold wp, mbind, M_bind, store. rewrite Hw. cbn.
  exists (<[p := <[i := u64 v]> l]> A), V. split; [by apply spec_put|]. split; [apply (view_write st m V p s); [done|done|lia|by eexists]|].
  apply map_eq. intros q. rewrite lookup_contents. destruct (decide (q = p)) as [->|Hne].
  - rewrite lookup_insert_eq, Hs. cbn. rewrite read_block_insert by (done || mlia). by rewrite El.
  - rewrite lookup_insert_ne, lookup_contents by done. destruct (v_blocks V !! q) as [t|] eqn:Et; [|done]. cbn. f_equal. symmetry.
    apply read_block_ext. intros j Hj. rewrite lookup_insert_ne; [done|].
    destruct (Z.lt_trichotomy p q) as [Hlt|[?|Hlt]]; [|congruence|].
    + pose proof (vo_apart _ _ Hok p s q t Hs Et Hlt). lia.
    + pose proof (vo_apart _ _ Hok q t p s Et Hs Hlt). lia.
Qed.

Lemma simulate_exec c : legal A c -> wp (exec c) m (simulated A c).
Proof.
  destruct c; [apply simulate_malloc|apply simulate_calloc|apply simulate_memalign|apply simulate_realloc|apply simulate_free|apply simulate_usable|
    apply simulate_get|apply simulate_put].
Qed.
End calls.

Lemma implements_exec (Hfuel : (2 <= fuel)%nat) m A c : implements m A -> legal A c -> wp (exec c) m (fun r m' => exists A', spec A c r A' /\ implements m' A').
Proof.
  intros (V & HR & HW & ->) Hc. pose proof (simulate_exec Hfuel m V HR HW c Hc) as H. apply wp_done in H as (r & m' & E & A' & V' & Hs & HR' & EA).
  apply wp_done. exists r, m'. split; [done|]. exists A'. split; [done|]. exists V'. split; [done|]. split; [by apply (keeps_exec c m r m')|done].
Qed.

(** ** Programs *)

(** A program chooses its calls by the results that it has seen. *)
Abbreviation program := (list Z -> call).

Fixpoint run (k : nat) (prog : program) (seen : list Z) : M (list Z) :=
  match k with O => mret seen | S k => r ← exec (prog seen); run k prog (seen ++ [r]) end.
End refinement.

(** What the abstract allocator may answer. *)
Inductive spec_run (prog : list Z -> call) : list Z -> blocks -> Prop :=
  | run_start : spec_run prog [] ∅
  | run_call seen A r A' : spec_run prog seen A -> spec A (prog seen) r A' -> spec_run prog (seen ++ [r]) A'.

(** With the abstract allocator the program makes legal calls only. *)
Definition well_behaved {F : Fuel} (prog : list Z -> call) : Prop := forall seen A, spec_run prog seen A -> legal A (prog seen).

(** The static objects as a program finds them. *)
Record at_start (st : Z) (m : mem) : Prop := {
  as_place : st mod 8 = 0 /\ 0 < st /\ st + 1576 < 2 ^ 62;
  as_zero a : st <= a < st + 1576 -> a mod 8 = 0 -> m !! a = Some 0;
  as_words : words64 m }.

Lemma start_heap st m : at_start st m -> heap st m ∅ (fun _ => []) ∅.
Proof.
  intros [Hp Hz _]. assert (Hw : forall o, 0 <= o < 1576 -> o mod 8 = 0 -> m !! (st + o) = Some 0) by (intros o Ho Hm; apply Hz; [lia|mlia]).
  split; [split| | | | |split].
  - split; intros *; by rewrite ?lookup_empty.
  - split_and!; [apply Hp..|]. intros a Ha Hm. by rewrite Hz.
  - intros *. by rewrite lookup_empty.
  - intros *. by rewrite lookup_empty.
  - intros *. by rewrite lookup_empty.
  - intros *. by rewrite lookup_empty.
  - intros c k. by rewrite lookup_empty.
  - intros d x s. by rewrite lookup_empty.
  - intros i Hi. right. split; [done|]. unfold BIN_TO_CHUNK. rewrite <- Z.add_assoc. apply Hw; [lia|mlia].
  - split; [intros *; by rewrite lookup_empty|intros i c _ Hc; by apply not_elem_of_nil in Hc|intros i; apply NoDup_nil_2].
  - exists 0. split; [rewrite <- (Z.add_0_r st); by apply Hw|]. split; [lia|]. intros i _. by rewrite Z.testbit_0_l.
  - exists 0. split; [by apply Hw|by left].
  - exists 0. split; [by apply Hw|]. done.
  - exists 0. split; [by apply Hw|]. lia.
Qed.

Lemma start_implements st m : at_start st m -> implements st m ∅.
Proof.
  intros Hs. exists (view_of st ∅ ∅). split; [apply (represents_of st m ∅ (fun _ => [])); by apply start_heap|]. split; [apply Hs|done].
Qed.
