(* ===== verification/MallocTheorems.v ===== *)
(** The theorems about the allocator of Malloc.v. *)
From S2P Require Import Prelude Mem QsortBits Links Malloc MallocChunks MallocInv MallocTrim MallocGrow MallocBlocks MallocCorrect MallocView MallocWords MallocClient MallocKernel.

(** ** A state in which they hold: the kernel of MallocKernel.v, the static objects
    at 4096, and one block of at least 100 bytes *)
Definition demo_mem : mem := map_words 197 4096 ∅.
Definition demo_fuel : Fuel := 200%nat.

Definition demo_align : Z := 4096.

Lemma demo_start : at_start 4096 demo_mem.
Proof.
  split; [done| |by apply words64_map].
  intros a Ha Hm. unfold demo_mem. rewrite lookup_map_words, decide_True; [done|]. split; [lia|mlia].
Qed.

Definition demo_view : view := view_of 4096 ∅ ∅.

Lemma demo_represents : represents 4096 demo_mem demo_view.
Proof. apply (represents_of 4096 demo_mem ∅ (fun _ => [])). apply start_heap, demo_start. Qed.

Lemma demo_run : exists m, exec (F:=demo_fuel) (K:=toy 4096) 4096 (Malloc 100) demo_mem = Done (1048608, m).
Proof.
  assert (H : match exec (F:=demo_fuel) (K:=toy 4096) 4096 (Malloc 100) demo_mem with Done (r, _) => r =? 1048608 | _ => false end = true) by (vm_compute; reflexivity).
  set (r := exec _ _ _) in *. clearbody r. destruct r as [[r m]| |]; [|done..]. apply Z.eqb_eq in H as ->. by exists m.
Qed.

Lemma demo_block : exists m V s, represents 4096 m V /\ words64 m /\ v_blocks V !! 1048608 = Some s /\ 100 <= s.
Proof.
  pose proof (keeps_exec (F:=demo_fuel) (K:=toy 4096) 4096 (Malloc 100)) as Hk.
  pose proof (fun Q => view_malloc 4096 (F:=demo_fuel) (K:=toy 4096) (KL:=toy_laws 4096) ltac:(unfold fuel, demo_fuel; lia) demo_mem demo_view 100 Q demo_represents ltac:(lia)) as Hm.
  change (malloc (F:=demo_fuel) (K:=toy 4096) 4096 100) with (exec (F:=demo_fuel) (K:=toy 4096) 4096 (Malloc 100)) in Hm.
  destruct demo_run as (m & E). set (c := exec _ _) in *. clearbody c.
  destruct (wp_done c demo_mem (fun p m => p = 0 \/ exists V s, represents 4096 m V /\ v_blocks V !! p = Some s /\ 100 <= s)) as [H _].
  destruct H as (p & m1 & E1 & H).
  - apply Hm; [by left|]. intros m1 V p HR (_ & s & Hs & _ & EV & _). right. exists V, s. by rewrite EV, lookup_insert_eq.
  - rewrite E in E1. injection E1 as <- <-. destruct H as [?|(V & s & H1 & H2 & H3)]; [done|]. exists m, V, s. split; [done|]. split; [|done].
    apply (Hk demo_mem 1048608 m); [apply demo_start|done].
Qed.

(** ** Sizes *)

(** [adjust_size] of malloc.c adds the header and rounds up to the alignment: the
    result is a multiple of 32 that has room for [n] bytes and the 16 of the header,
    and no more than needed; it reports an error for sizes that cannot be an
    object's, and the sum does not wrap around. *)
Theorem adjust_size_correct n : 0 <= n < 2 ^ 64 ->
  match adjust_size n with
  | Some s => s mod 32 = 0 /\ 32 <= s < 2 ^ 63 /\ n + 16 <= s /\ (n <= 16 \/ s < n + 16 + 32)
  | None => 2 ^ 62 < n
  end.
Proof.
  intros Hn. destruct (adjust_size_spec n Hn) as [[-> H]|(s & -> & H1 & H2 & H3 & H4)]; [done|]. lia.
Qed.

Lemma adjust_size_correct_witness : 0 <= 100 < 2 ^ 64 /\ adjust_size 100 = Some 128 /\
  match adjust_size 100 with
  | Some s => s mod 32 = 0 /\ 32 <= s < 2 ^ 63 /\ 100 + 16 <= s /\ (100 <= 16 \/ s < 100 + 16 + 32)
  | None => 2 ^ 62 < 100
  end.
Proof. split; [lia|]. split; [vm_compute; reflexivity|]. apply (adjust_size_correct 100). lia. Defined.

(** The bins that [malloc] looks at for a chunk of [n] bytes, [bin_index_up n] and
    above, hold chunks of at least [n] bytes only: the table lookups of [bin_index]
    and [bin_index_up] of malloc.c agree. *)
Theorem bins_fit n s : 32 <= n <= MMAP_THRESHOLD -> n mod 32 = 0 -> 32 <= s < 2 ^ 62 -> s mod 32 = 0 -> bin_index_up n <= bin_index s -> n <= s.
Proof. apply bin_fits. Qed.

Lemma bins_fit_witness : bin_index_up 6400 <= bin_index 7936 /\ 6400 <= 7936.
Proof.
  assert (H : bin_index_up 6400 <= bin_index 7936) by (vm_compute; intros E; discriminate E). split; [exact H|].
  apply (bins_fit 6400 7936); [unfold MMAP_THRESHOLD, SIZE_ALIGN; lia|reflexivity|lia|reflexivity|exact H].
Defined.

Section theorems.
Context {F : Fuel} {K : Kernel} (st : Z) {KL : KernelLaws st}.

(** ** The operations *)

(** What the allocator's memory represents is a set of blocks that are aligned,
    mapped, do not overlap and do not reach into memory that is not the allocator's. *)
Theorem blocks_disjoint m V : represents st m V -> view_ok m V.
Proof. apply represents_ok. Qed.

(** C4: [malloc] ends without a fault, and either returns 0 and changes no block, or
    the address of a new block of at least [n] bytes, apart from all others.  It
    returns 0 only if [n] is about 2^62 or more, or if the kernel has just declined a
    mapping of not much more than [n] bytes or of the least size by which the heap
    grows.  All that the client had keeps its contents: the other blocks, and memory
    that is not the allocator's.  The invariant of the heap holds again. *)
Theorem malloc_correct m V n : (2 <= fuel)%nat -> represents st m V -> 0 <= n < 2 ^ 64 ->
  wp (malloc st n) m (fun p m' => exists V', represents st m' V' /\ 
    if p =? 0 then declined V m m' V' /\ unavailable st m' 4200 n else got V m n p m' V').
Proof.
  intros Hf HR Hn. apply (view_malloc st Hf m V); [done|done| |].
  - intros m' V' HR' H Hno. by exists V'.
  - intros m' V' p HR' H. exists V'. rewrite (proj2 (Z.eqb_neq p 0)) by apply H. done.
Qed.

(** C5: [free] of a block, or of a null pointer, ends without a fault: it takes away
    exactly this block, and the others keep their contents; [a_crash] is not reached. *)
Theorem free_correct m V p : (2 <= fuel)%nat -> represents st m V -> p = 0 \/ is_Some (v_blocks V !! p) ->
  wp (free st p) m (fun _ m' => exists V', represents st m' V' /\ v_blocks V' = delete p (v_blocks V) /\ undisturbed (without p V) m V' m').
Proof. intros Hf HR Hp. apply (view_free st Hf m V); [done|done|]. intros m' V' H1 H2 H3. by exists V'. Qed.

(** C39: [calloc] is [malloc] of the product, where all words of the new block up to
    the product are zero; it returns 0 when the product does not fit a [size_t], or as
    [malloc] does. *)
Theorem calloc_correct m V k n : (Z.to_nat ((n * k + 7) / 8) < fuel)%nat -> (2 <= fuel)%nat -> represents st m V -> 0 <= k < 2 ^ 64 -> 0 <= n < 2 ^ 64 ->
  wp (calloc st k n) m (fun p m' => exists V', represents st m' V' /\
    if p =? 0 then declined V m m' V' /\ unavailable st m' 4200 (n * k) else n * k < 2 ^ 64 /\ got V m (n * k) p m' V' /\ zeroed m' p (n * k)).
Proof.
  intros Hw Hf HR Hk Hn. apply (view_calloc st Hf m V); [done..| |].
  - intros m' V' HR' H Hno. by exists V'.
  - intros m' V' p HR' H Hlt Hz. exists V'. rewrite (proj2 (Z.eqb_neq p 0)) by apply H. done.
Qed.

(** C6: [realloc] of a block of [s] bytes either fails as [malloc] does, and the block is
    still there with its contents, or it returns a block of at least [n] bytes in place of the
    old one, whose first min(n, s) bytes are those of the old one. *)
Theorem realloc_correct m V p s n : (2 <= fuel)%nat -> represents st m V -> words64 m -> v_blocks V !! p = Some s -> 0 <= n < 2 ^ 64 ->
  wp (realloc st p n) m (fun q m' => exists V', represents st m' V' /\
    if q =? 0 then got (without p V) m s p m' V' /\ same_words m p m' p s /\ unavailable st m' 8192 n
    else got (without p V) m n q m' V' /\ same_words m p m' q (Z.min n s)).
Proof.
  intros Hf HR Hw Hp Hn. apply (view_realloc st Hf m V p s n); [done|done| |done| |].
  - intros i v _ _. apply Hw.
  - intros m' V' HR' Hg Hs Hno. by exists V'.
  - intros m' V' q HR' Hg Hs. exists V'. rewrite (proj2 (Z.eqb_neq q 0)) by apply Hg. done.
Qed.

(** C38: [__memalign] returns 0, or a new block of at least [n] bytes whose address is
    a multiple of [align]; what lies before it is a block no more.  An [align] that
    is not a power of two is declined; for others it fails as [malloc] does, for at most [n + align] bytes. *)
Theorem memalign_correct m V align n : (2 <= fuel)%nat -> represents st m V -> 0 <= align < 2 ^ 64 -> 0 <= n < 2 ^ 64 ->
  wp (__memalign st align n) m (fun p m' => exists V', represents st m' V' /\
    if p =? 0 then declined V m m' V' /\ (Z.land align (- align) <> align \/ exists k, n <= k <= n + align /\ unavailable st m' 4200 k)
    else got V m n p m' V' /\ (0 < align -> p mod align = 0) /\ Z.land align (- align) = align).
Proof.
  intros Hf HR Ha Hn. apply (view_memalign st Hf m V); [done..| |].
  - intros m' V' HR' H Hno. by exists V'.
  - intros m' V' p HR' H Hla Hpa. exists V'. rewrite (proj2 (Z.eqb_neq p 0)) by apply H. done.
Qed.
End theorems.

(** ** The state above satisfies the hypotheses *)
Section witnesses.
#[local] Existing Instance demo_fuel.
#[local] Instance demo_kernel : Kernel := toy 4096.
#[local] Instance demo_laws : KernelLaws 4096 := toy_laws 4096.

Lemma demo_two : (2 <= fuel)%nat.
Proof. unfold fuel, demo_fuel. lia. Qed.

Lemma blocks_disjoint_witness : represents 4096 demo_mem demo_view /\ view_ok demo_mem demo_view.
Proof. split; [exact demo_represents|]. exact (blocks_disjoint 4096 demo_mem demo_view demo_represents). Defined.

Lemma malloc_correct_witness : represents 4096 demo_mem demo_view /\
  wp (malloc 4096 100) demo_mem (fun p m' => exists V', represents 4096 m' V' /\
    if p =? 0 then declined demo_view demo_mem m' V' /\ unavailable 4096 m' 4200 100 else got demo_view demo_mem 100 p m' V').
Proof.
  split; [exact demo_represents|]. apply (malloc_correct 4096 demo_mem demo_view 100); [exact demo_two|exact demo_represents|lia].
Defined.

Lemma calloc_correct_witness : represents 4096 demo_mem demo_view /\
  wp (calloc 4096 10 100) demo_mem (fun p m' => exists V', represents 4096 m' V' /\
    if p =? 0 then declined demo_view demo_mem m' V' /\ unavailable 4096 m' 4200 (100 * 10)
    else 100 * 10 < 2 ^ 64 /\ got demo_view demo_mem (100 * 10) p m' V' /\ zeroed m' p (100 * 10)).
Proof.
  split; [exact demo_represents|].
  apply (calloc_correct 4096 demo_mem demo_view 10 100); [vm_compute; lia|exact demo_two|exact demo_represents|lia|lia].
Defined.

Lemma memalign_correct_witness : represents 4096 demo_mem demo_view /\ demo_align = 2 ^ 12 /\
  wp (__memalign 4096 demo_align 100) demo_mem (fun p m' => exists V', represents 4096 m' V' /\
    if p =? 0 then declined demo_view demo_mem m' V' /\
      (Z.land demo_align (- demo_align) <> demo_align \/ exists k, 100 <= k <= 100 + demo_align /\ unavailable 4096 m' 4200 k)
    else got demo_view demo_mem 100 p m' V' /\ (0 < demo_align -> p mod demo_align = 0) /\ Z.land demo_align (- demo_align) = demo_align).
Proof.
  split; [exact demo_represents|]. split; [reflexivity|].
  apply (memalign_correct 4096 demo_mem demo_view demo_align 100); [exact demo_two|exact demo_represents|unfold demo_align; lia|lia].
Defined.

Lemma free_correct_witness : exists m V, is_Some (v_blocks V !! 1048608) /\
  wp (free 4096 1048608) m (fun _ m' => exists V', represents 4096 m' V' /\ v_blocks V' = delete 1048608 (v_blocks V) /\ undisturbed (without 1048608 V) m V' m').
Proof.
  destruct demo_block as (m & V & s & HR & _ & Hs & _). exists m, V. assert (H : is_Some (v_blocks V !! 1048608)) by (exists s; exact Hs). split; [exact H|].
  apply (free_correct 4096 m V 1048608); [exact demo_two|exact HR|right; exact H].
Defined.

Lemma realloc_correct_witness : exists m V s, v_blocks V !! 1048608 = Some s /\ 100 <= s /\
  wp (realloc 4096 1048608 5000) m (fun q m' => exists V', represents 4096 m' V' /\
    if q =? 0 then got (without 1048608 V) m s 1048608 m' V' /\ same_words m 1048608 m' 1048608 s /\ unavailable 4096 m' 8192 5000
    else got (without 1048608 V) m 5000 q m' V' /\ same_words m 1048608 m' q (Z.min 5000 s)).
Proof.
  destruct demo_block as (m & V & s & HR & HW & Hs & Hle). exists m, V, s. split; [exact Hs|]. split; [exact Hle|].
  apply (realloc_correct 4096 m V 1048608 s 5000); [exact demo_two|exact HR|exact HW|exact Hs|lia].
Defined.

End witnesses.

(** C1: A program that makes legal calls only when it runs with the abstract
    allocator, on whatever that answers, runs with the allocator of the code for
    any number of calls: no call faults or runs out of its fuel, and what the
    program sees, and what its blocks hold in the end, the abstract allocator
    allows.  The memory at the start has all static objects zero. *)
Theorem allocator_refines {F : Fuel} {K : Kernel} st {KL : KernelLaws st} (prog : list Z -> call) m (k : nat) :
  (2 <= fuel)%nat -> at_start st m -> well_behaved prog ->
  wp (run st k prog []) m (fun seen m' => length seen = k /\ exists A, spec_run prog seen A /\ implements st m' A).
Proof.
  intros Hfuel Hs Hprog. assert (H : forall k seen A m, spec_run prog seen A -> implements st m A ->
    wp (run st k prog seen) m (fun seen' m' => length seen' = (length seen + k)%nat /\ exists A, spec_run prog seen' A /\ implements st m' A)).
  { clear k m Hs. intros k. induction k as [|k IH]; intros seen A m Hr Hi; cbn [run].
    - apply wp_ret. split; [lia|]. by exists A.
    - apply wp_bind. eapply wp_mono; [apply (implements_exec st Hfuel m A); [done|by apply Hprog]|].
      intros r m' (A' & Hsp & Hi'). eapply wp_mono; [apply (IH _ A'); [by eapply run_call|done]|].
      intros seen' m2. cbn beta. rewrite length_app. cbn. intros [E H]. split; [lia|done]. }
  apply (H k [] ∅ m); [apply run_start|by apply start_implements].
Qed.

(** A program: it makes a block larger and gives it back, and then asks for 8 bytes
    again and again. *)
Definition demo_program (seen : list Z) : call :=
  match seen with
  | [] => Malloc 100
  | [p] => Realloc p 5000
  | [_; q] => if q =? 0 then Malloc 8 else Free q
  | _ => Malloc 8
  end.

Lemma demo_well_behaved : well_behaved (F:=demo_fuel) demo_program.
Proof.
  assert (H : forall seen A, spec_run demo_program seen A -> match seen with [] => True | [p] => null_or_block A p | [_; q] => null_or_block A q | _ => True end).
  { intros seen A Hr. destruct Hr as [|seen A r A' Hr Hs]; [done|]. destruct seen as [|p [|q [|x seen]]]; cbn in *; [| |done..].
    - inversion Hs; subst; [right; by rewrite lookup_insert_eq|by left].
    - inversion Hs; subst; [right; by rewrite lookup_insert_eq|by left|]. match goal with H : spec _ (Malloc _) _ _ |- _ => inversion H; subst end; [right; by rewrite lookup_insert_eq|by left]. }
  intros seen A Hr. specialize (H seen A Hr). destruct seen as [|p [|q [|x seen]]]; cbn; unfold size_t; try lia; [split; [done|lia]|].
  destruct (Z.eqb_spec q 0); cbn; unfold size_t; [lia|done].
Qed.

Lemma allocator_refines_witness : well_behaved (F:=demo_fuel) demo_program /\
  wp (run (F:=demo_fuel) (K:=toy 4096) 4096 5 demo_program []) demo_mem (fun seen m' => length seen = 5%nat /\ exists A, spec_run demo_program seen A /\ implements 4096 m' A).
Proof.
  split; [exact demo_well_behaved|].
  exact (allocator_refines (F:=demo_fuel) (K:=toy 4096) (KL:=toy_laws 4096) 4096 demo_program demo_mem 5 demo_two demo_start demo_well_behaved).
Defined.
