(* ===== verification/Fp.v ===== *)
(** Functions of src/musl-1.1.19/src/math that work on the bits of their arguments:
    fmod.c, trunc.c, nextafter.c and ilogb.c, with the versions for [float].

    A number is its bits: a sign, an exponent and a mantissa.  The two versions of a function
    are the same text for two formats, so the format is a class with two instances.  Where the
    code returns a NaN that it computes, the result is [None]; [0*x] is a zero with the sign
    of [x].  The effects on the exception flags are left out.  The theorems are in
    FpTheorems.v. *)
From S2P Require Import Prelude.
#[local] Open Scope c_scope.

(** ** Formats *)

(** [width] bits in all, [prec] of them for the mantissa *)
Class Format := {
  width : Z;
  prec : Z;
  prec_pos : 1 <= prec;
  prec_width : prec + 3 <= width;
  (* every bit of a mantissa can be a fraction *)
  prec_bias : prec < 2 ^ (width - 2 - prec);
}.

#[refine] #[export] Instance binary64 : Format := {| width := 64; prec := 52 |}.
Proof. all: done. Defined.

#[refine] #[export] Instance binary32 : Format := {| width := 32; prec := 23 |}.
Proof. all: done. Defined.

Section functions.
Context `{F : Format}.

(** An unsigned integer as wide as the format *)
Definition uw (z : Z) : Z := z mod 2 ^ width.

(** The exponent field of infinities and NaNs, and that of 1 *)
Definition emax : Z := 2 ^ (width - 1 - prec) - 1.
Definition bias : Z := 2 ^ (width - 2 - prec) - 1.

(** Constants of the code: [-1ULL/2], [1ULL<<63] and [-1ULL >> 12] *)
Definition abs_mask : Z := 2 ^ (width - 1) - 1.
Definition sign_bit : Z := 1 << (width - 1).
Definition mantissa_mask : Z := 2 ^ prec - 1.

Definition exponent (x : Z) : Z := (x >> prec) & emax.
Definition sign (x : Z) : Z := x >> (width - 1).
Definition isnan (x : Z) : bool := (x & abs_mask) >? (emax << prec).

(** ** fmod.c *)

(** [for (i = uxi<<12; i>>63 == 0; ex--, i <<= 1);].  The bit that ends it is one of
    the mantissa. *)
Fixpoint lead (fuel : nat) (i e : Z) : Z :=
  match fuel with
  | O => e
  | S fuel => if i >> (width - 1) =? 0 then lead fuel (uw (i << 1)) (e - 1) else e
  end.

(** Mantissa with its leading bit, and exponent *)
Definition normalize (u e : Z) : Z * Z :=
  if e =? 0 then
    let e := lead (Z.to_nat prec) (uw (u << (width - prec))) e in
    (uw (u << (- e + 1)), e)
  else ((u & mantissa_mask) .| (1 << prec), e).

(** The step of the division, [None] when nothing is left *)
Definition subtract (uxi uyi : Z) : option Z :=
  let i := uw (uxi - uyi) in
  if i >> (width - 1) =? 0 then if i =? 0 then None else Some i else Some uxi.

(** [for (; ex > ey; ex--)], [ex - ey] times *)
Fixpoint mod_loop (fuel : nat) (uxi ex uyi ey : Z) : option (Z * Z) :=
  match fuel with
  | O => Some (uxi, ex)
  | S fuel =>
      if ex >? ey then
        uxi ← subtract uxi uyi;
        mod_loop fuel (uw (uxi << 1)) (ex - 1) uyi ey
      else Some (uxi, ex)
  end.

(** [for (; uxi>>52 == 0; uxi <<= 1, ex--);] *)
Fixpoint renormalize (fuel : nat) (uxi ex : Z) : Z * Z :=
  match fuel with
  | O => (uxi, ex)
  | S fuel => if uxi >> prec =? 0 then renormalize fuel (uw (uxi << 1)) (ex - 1) else (uxi, ex)
  end.

(** Scale the result: back to exponent and mantissa. *)
Definition scale (uxi ex : Z) : Z :=
  if ex >? 0 then uw (uxi - (1 << prec)) .| uw (ex << prec) else uxi >> (- ex + 1).

Definition zero_like (x : Z) : Z := sign x << (width - 1).

Definition fmod_bits (x y : Z) : option Z :=
  let ex := exponent x in
  let ey := exponent y in
  let sx := sign x in
  if (uw (y << 1) =? 0) || isnan y || (ex =? emax) then None
  else if uw (x << 1) <=? uw (y << 1) then
    if uw (x << 1) =? uw (y << 1) then Some (zero_like x) else Some x
  else
    let '(uxi, ex) := normalize x ex in
    let '(uyi, ey) := normalize y ey in
    match (r ← mod_loop (Z.to_nat (ex - ey)) uxi ex uyi ey; let '(uxi, ex) := r in
           uxi ← subtract uxi uyi; Some (uxi, ex)) with
    | None => Some (zero_like x)
    | Some (uxi, ex) =>
        let '(uxi, ex) := renormalize (Z.to_nat prec) uxi ex in
        Some (scale uxi ex .| (sx << (width - 1)))
    end.

(** ** trunc.c *)
Definition trunc_bits (x : Z) : Z :=
  let e := exponent x - bias + (width - prec) in
  if e >=? prec + (width - prec) then x
  else
    let e := if e <? width - prec then 1 else e in
    let m := (2 ^ width - 1) >> e in
    if (x & m) =? 0 then x else x & uw (Z.lnot m).

(** ** nextafter.c *)
Definition nextafter_bits (x y : Z) : option Z :=
  if isnan x || isnan y then None
  else if x =? y then Some y
  else
    let ax := x & abs_mask in
    let ay := y & abs_mask in
    if ax =? 0 then
      if ay =? 0 then Some y else Some ((y & sign_bit) .| 1)
    else if (ax >? ay) || negb (((x ^^ y) & sign_bit) =? 0) then Some (uw (x - 1))
    else Some (uw (x + 1)).

(** ** ilogb.c *)
Definition FP_ILOGBNAN : Z := -1 - (2 ^ 32 - 1) / 2.
Definition FP_ILOGB0 : Z := FP_ILOGBNAN.

Definition ilogb_bits (x : Z) : Z :=
  let e := exponent x in
  let i := uw (x << (width - prec)) in
  if e =? 0 then
    if i =? 0 then FP_ILOGB0 else lead (Z.to_nat prec) i (- bias)
  else if e =? emax then if negb (i =? 0) then FP_ILOGBNAN else INT_MAX
  else e - bias.

(** ** What bits mean *)

(** The bits without the sign *)
Definition mag (x : Z) : Z := x mod 2 ^ (width - 1).

(** The magnitude of a finite number in units of the least positive number,
    [2 ^ (1 - bias - prec)] *)
Definition value (x : Z) : Z :=
  let m := mag x mod 2 ^ prec in
  let e := mag x / 2 ^ prec in
  if e =? 0 then m else (m + 2 ^ prec) * 2 ^ (e - 1).

(** The number 1 in these units *)
Definition one : Z := 2 ^ (bias - 1 + prec).

Definition infinity : Z := emax * 2 ^ prec.

(** The number with its sign; an infinity counts as the number after the largest. *)
Definition real (x : Z) : Z := if sign x =? 0 then value x else - value x.
End functions.

Definition fmod (x y : Z) : option Z := fmod_bits (F := binary64) x y.
Definition fmodf (x y : Z) : option Z := fmod_bits (F := binary32) x y.
Definition trunc (x : Z) : Z := trunc_bits (F := binary64) x.
Definition truncf (x : Z) : Z := trunc_bits (F := binary32) x.
Definition nextafter (x y : Z) : option Z := nextafter_bits (F := binary64) x y.
Definition nextafterf (x y : Z) : option Z := nextafter_bits (F := binary32) x y.
Definition ilogb (x : Z) : Z := ilogb_bits (F := binary64) x.
Definition ilogbf (x : Z) : Z := ilogb_bits (F := binary32) x.
