(* ===== verification/FpTheorems.v ===== *)
(** Theorems of Fp.v: [fmod] is the exact remainder, [trunc] the integer part, [nextafter] the
    next number and [ilogb] the binary logarithm, for both formats. *)
From S2P Require Import Prelude Fp.
#[local] Open Scope c_scope.

(** What a format promises *)
Ltac format_facts := pose proof prec_pos; pose proof prec_width.

(** The result of [fmod]: [None], a NaN, when [x] is infinite or a NaN or [y] is zero or a NaN.
    Otherwise a finite number with the sign of [x], which is [x] when [y] is infinite, and
    whose magnitude is the remainder of the magnitudes when [y] is finite, without any rounding. *)
Definition is_remainder `{F : Format} (x y : Z) (o : option Z) : Prop :=
  match o with
  | None => infinity <= mag x \/ mag y = 0 \/ infinity < mag y
  | Some r =>
      mag x < infinity /\ 0 < mag y <= infinity /\
      0 <= r < 2 ^ width /\ sign r = sign x /\ mag r < infinity /\
      if mag y =? infinity then r = x else value r = value x mod value y
  end.

(** The result of [trunc]: the integer part with the sign of the number; an infinity or a NaN is unchanged. *)
Definition is_trunc `{F : Format} (x r : Z) : Prop :=
  0 <= r < 2 ^ width /\ sign r = sign x /\
  if mag x <? infinity then mag r < infinity /\ value r = value x / one * one else r = x.

(** The result of [nextafter]: [None] when an argument is a NaN.  Otherwise [y] when the
    arguments are equal; else the number next to [x] on the side of [y]. *)
Definition is_next `{F : Format} (x y : Z) (o : option Z) : Prop :=
  match o with
  | None => infinity < mag x \/ infinity < mag y
  | Some r =>
      mag x <= infinity /\ mag y <= infinity /\ 0 <= r < 2 ^ width /\
      (real x = real y -> r = y) /\
      (real x < real y -> real x < real r <= real y /\ forall z, 0 <= z < 2 ^ width -> real x < real z -> real r <= real z) /\
      (real y < real x -> real y <= real r < real x /\ forall z, 0 <= z < 2 ^ width -> real z < real x -> real z <= real r)
  end.

(** Numbers in their order, in steps of one bit *)
Definition rank `{F : Format} (x : Z) : Z := if sign x =? 0 then mag x else - mag x.

(** The result of [ilogb]: the binary logarithm of a finite number, rounded down, counting from that of 1. *)
Definition is_log `{F : Format} (x l : Z) : Prop :=
  if mag x =? 0 then l = FP_ILOGB0
  else if mag x =? infinity then l = INT_MAX
  else if infinity <? mag x then l = FP_ILOGBNAN
  else 0 <= l + (bias - 1 + prec) /\ 2 ^ (l + (bias - 1 + prec)) <= value x < 2 ^ (l + 1 + (bias - 1 + prec)).

(** The bits that [trunc] clears *)
Definition fraction `{F : Format} (x : Z) : Z := if exponent x <? bias then width - 1 else prec - (exponent x - bias).

Section bits.
Context `{F : Format}.

Lemma pow_prec_pos : 0 < 2 ^ prec.
Proof. pose proof prec_pos. apply Z.pow_pos_nonneg; lia. Qed.

Lemma pow_pos n : 0 <= n -> 0 < 2 ^ n.
Proof. intros. apply Z.pow_pos_nonneg; lia. Qed.

(** Powers of two as products *)
Lemma pow_split a b c : 0 <= a -> 0 <= b -> c = a + b -> 2 ^ c = 2 ^ a * 2 ^ b.
Proof. intros Ha Hb ->. apply Z.pow_add_r; lia. Qed.

Lemma mod_prec z : 0 <= z mod 2 ^ prec < 2 ^ prec.
Proof. apply Z.mod_pos_bound, pow_prec_pos. Qed.

Lemma pow_width : 2 ^ width = 2 * 2 ^ (width - 1).
Proof. format_facts. rewrite (pow_split 1 (width - 1)) by lia. done. Qed.

Lemma pow_mag : 2 ^ (width - 1) = (emax + 1) * 2 ^ prec.
Proof.
  format_facts. unfold emax. rewrite (pow_split (width - 1 - prec) prec) by lia. lia.
Qed.

Lemma emax_bias : emax = 2 * bias + 1 /\ 1 <= bias.
Proof.
  format_facts. unfold emax, bias.
  rewrite (pow_split 1 (width - 2 - prec)) by lia.
  rewrite (pow_split 1 (width - 3 - prec) (width - 2 - prec)) by lia.
  assert (0 < 2 ^ (width - 3 - prec)) by (apply Z.pow_pos_nonneg; lia). change (2 ^ 1) with 2. lia.
Qed.

Lemma land_mask x n : 0 <= n -> x & (2 ^ n - 1) = x mod 2 ^ n.
Proof. intros Hn. rewrite <- Z.land_ones, Z.ones_equiv by lia. done. Qed.

Lemma uw_small z : 0 <= z < 2 ^ width -> uw z = z.
Proof. intros. apply Z.mod_small. done. Qed.

(** ** Parts of a number *)

Lemma mag_range x : 0 <= mag x < 2 ^ (width - 1).
Proof. format_facts. apply Z.mod_pos_bound, Z.pow_pos_nonneg; lia. Qed.

Lemma sign_mag x : 0 <= x < 2 ^ width -> x = sign x * 2 ^ (width - 1) + mag x /\ (sign x = 0 \/ sign x = 1).
Proof.
  intros Hx. format_facts. unfold sign. rewrite Z.shiftr_div_pow2 by lia.
  pose proof (mag_range x). pose proof pow_width. unfold mag in *.
  pose proof (Z_div_mod_eq_full x (2 ^ (width - 1))). split; [lia|]. nia.
Qed.

Lemma mag_shift x : 0 <= x < 2 ^ width -> uw (x << 1) = 2 * mag x.
Proof.
  intros Hx. format_facts. unfold uw, mag. rewrite Z.shiftl_mul_pow2 by lia.
  change (2 ^ 1) with 2. rewrite pow_width, (Z.mul_comm x 2).
  assert (0 < 2 ^ (width - 1)) by (apply pow_pos; lia). rewrite Z.mul_mod_distr_l by lia. done.
Qed.

Lemma top_clear z : 0 <= z < 2 ^ width -> (z >> (width - 1) =? 0) = (z <? 2 ^ (width - 1)).
Proof.
  intros Hz. format_facts. rewrite Z.shiftr_div_pow2 by lia.
  assert (0 < 2 ^ (width - 1)) by (apply pow_pos; lia). destruct (Z.ltb_spec z (2 ^ (width - 1))).
  - rewrite Z.div_small by lia. done.
  - apply Z.eqb_neq. assert (1 <= z / 2 ^ (width - 1)); [|lia]. apply Z.div_le_lower_bound; lia.
Qed.

Lemma shiftr_prec z : 0 <= z -> (z >> prec =? 0) = (z <? 2 ^ prec).
Proof.
  intros Hz. pose proof prec_pos. pose proof pow_prec_pos. rewrite Z.shiftr_div_pow2 by lia. destruct (Z.ltb_spec z (2 ^ prec)).
  - rewrite Z.div_small by lia. done.
  - apply Z.eqb_neq. assert (1 <= z / 2 ^ prec); [|lia]. apply Z.div_le_lower_bound; lia.
Qed.

Lemma exponent_mag x : 0 <= x -> exponent x = mag x / 2 ^ prec.
Proof.
  intros Hx. format_facts. unfold exponent, emax, mag.
  rewrite land_mask, Z.shiftr_div_pow2 by lia. pose proof pow_prec_pos.
  assert (0 < 2 ^ (width - 1 - prec)) by (apply pow_pos; lia).
  rewrite (pow_split prec (width - 1 - prec) (width - 1)) by lia. rewrite Z.rem_mul_r by lia.
  rewrite Z.add_comm, (Z.mul_comm (2 ^ prec)), Z.div_add_l by lia. rewrite (Z.div_small (x mod 2 ^ prec)); [lia|]. apply Z.mod_pos_bound. lia.
Qed.

Lemma mantissa_mag x : 0 <= x -> x mod 2 ^ prec = mag x mod 2 ^ prec.
Proof.
  intros Hx. format_facts. unfold mag.
  rewrite (pow_split prec (width - 1 - prec) (width - 1)) by lia. pose proof pow_prec_pos.
  assert (0 < 2 ^ (width - 1 - prec)) by (apply pow_pos; lia).
  rewrite Z.rem_mul_r by lia. rewrite Z.add_comm, (Z.mul_comm (2 ^ prec)), Z.add_comm, Z.mod_add, Z.mod_mod by lia. done.
Qed.

(** Exponent and mantissa of the magnitude *)
Lemma mag_parts x : 0 <= x -> let e := exponent x in let m := mag x mod 2 ^ prec in
  mag x = e * 2 ^ prec + m /\ 0 <= m < 2 ^ prec /\ 0 <= e <= emax /\
  value x = if e =? 0 then m else (m + 2 ^ prec) * 2 ^ (e - 1).
Proof.
  intros Hx. cbv zeta. unfold value. rewrite exponent_mag by done. pose proof pow_prec_pos. pose proof (mag_range x). pose proof pow_mag.
  pose proof (Z_div_mod_eq_full (mag x) (2 ^ prec)). pose proof (mod_prec (mag x)).
  split_and!; [lia|lia|lia|apply Z.div_pos; lia| |done]. assert (mag x / 2 ^ prec < emax + 1); [|lia]. apply Z.div_lt_upper_bound; lia.
Qed.

Lemma isnan_mag x : 0 <= x -> isnan x = (infinity <? mag x).
Proof.
  intros Hx. format_facts. unfold isnan, infinity, abs_mask. rewrite land_mask, Z.shiftl_mul_pow2 by lia.
  rewrite Z.gtb_ltb. done.
Qed.

Lemma exponent_finite x : 0 <= x -> (exponent x =? emax) = negb (mag x <? infinity).
Proof.
  intros Hx. destruct (mag_parts x Hx) as (E & Hm & He & _). unfold infinity. pose proof pow_prec_pos.
  destruct (Z.eqb_spec (exponent x) emax), (Z.ltb_spec (mag x) (emax * 2 ^ prec)); simpl; try done; nia.
Qed.

(** ** Order *)

Lemma value_ext x y : mag x = mag y -> value x = value y.
Proof. unfold value. intros ->. done. Qed.

Lemma value_nonneg x : 0 <= value x.
Proof.
  unfold value. pose proof pow_prec_pos. pose proof (mag_range x). pose proof (mod_prec (mag x)).
  case_match; [lia|]. apply Z.mul_nonneg_nonneg; [lia|]. apply Z.pow_nonneg. lia.
Qed.

Lemma value_lt x y : 0 <= x -> 0 <= y -> mag x < mag y -> value x < value y.
Proof.
  intros Hx Hy L. destruct (mag_parts x Hx) as (Ex & Hmx & Hex & ->), (mag_parts y Hy) as (Ey & Hmy & Hey & ->).
  pose proof pow_prec_pos. set (ex := exponent x) in *. set (ey := exponent y) in *. set (mx := mag x mod 2 ^ prec) in *. set (my := mag y mod 2 ^ prec) in *.
  assert (ex < ey \/ ex = ey /\ mx < my) as [Le|[-> Lm]] by nia.
  - assert (0 < 2 ^ (ey - 1)) by (apply Z.pow_pos_nonneg; lia). destruct (Z.eqb_spec ey 0); [lia|]. destruct (Z.eqb_spec ex 0); [nia|].
    rewrite (pow_split (ex - 1) (ey - ex) (ey - 1)) by lia. rewrite (pow_split 1 (ey - ex - 1) (ey - ex)) by lia.
    assert (0 < 2 ^ (ex - 1)) by (apply Z.pow_pos_nonneg; lia). assert (0 < 2 ^ (ey - ex - 1)) by (apply Z.pow_pos_nonneg; lia).
    change (2 ^ 1) with 2. set (A := 2 ^ (ex - 1)) in *. set (B := 2 ^ (ey - ex - 1)) in *.
    assert (mx + 2 ^ prec < (my + 2 ^ prec) * (2 * B)) by nia. nia.
  - case_match; [lia|]. assert (0 < 2 ^ (ey - 1)) by (apply Z.pow_pos_nonneg; lia). nia.
Qed.

Lemma value_zero x : mag x = 0 -> value x = 0.
Proof. unfold value. intros ->. pose proof pow_prec_pos. rewrite Z.mod_0_l by lia. done. Qed.

(** A magnitude with a sign *)
Lemma with_sign s u : (s = 0 \/ s = 1) -> 0 <= u < 2 ^ (width - 1) ->
  let r := u .| (s << (width - 1)) in 0 <= r < 2 ^ width /\ sign r = s /\ mag r = u.
Proof.
  intros Hs Hu. format_facts. cbv zeta. rewrite Z.shiftl_mul_pow2, lor_add by lia. pose proof pow_width.
  unfold sign, mag. rewrite Z.shiftr_div_pow2 by lia. rewrite Z.div_add, Z.mod_add by lia. rewrite Z.div_small, Z.mod_small by lia. lia.
Qed.

Lemma zero_like_spec x : 0 <= x < 2 ^ width -> 0 <= zero_like x < 2 ^ width /\ sign (zero_like x) = sign x /\ mag (zero_like x) = 0.
Proof.
  intros Hx. destruct (sign_mag x Hx) as [_ Hs]. pose proof (mag_range 0). apply (with_sign (sign x) 0); [done|lia].
Qed.
(** ** Steps of [fmod] *)

Lemma shiftl1 z : 0 <= z -> 2 * z < 2 ^ width -> uw (z << 1) = 2 * z.
Proof. intros. rewrite Z.shiftl_mul_pow2 by lia. change (2 ^ 1) with 2. rewrite Z.mul_comm. apply uw_small. lia. Qed.

Lemma lead_spec fuel : forall i e, 0 < i < 2 ^ width -> 2 ^ (width - 1) <= i * 2 ^ Z.of_nat fuel ->
  exists k, 0 <= k <= Z.of_nat fuel /\ lead fuel i e = e - k /\ 2 ^ (width - 1) <= i * 2 ^ k < 2 ^ width.
Proof.
  pose proof pow_width. induction fuel as [|fuel IH]; intros i e Hi Hf; simpl.
  { exists 0. change (2 ^ Z.of_nat 0) with 1 in Hf. change (2 ^ 0) with 1. lia. }
  rewrite top_clear by lia. destruct (Z.ltb_spec i (2 ^ (width - 1))) as [Hlt|Hge].
  - rewrite shiftl1 by lia. destruct (IH (2 * i) (e - 1)) as (k & Hk & -> & B); [lia| |].
    { rewrite (pow_split 1 (Z.of_nat fuel) (Z.of_nat (S fuel))) in Hf by lia. change (2 ^ 1) with 2 in Hf. lia. }
    exists (k + 1). split; [lia|]. split; [lia|]. rewrite (pow_split k 1 (k + 1)) by lia. change (2 ^ 1) with 2. lia.
  - exists 0. change (2 ^ 0) with 1. lia.
Qed.

Lemma mantissa_top x : 0 <= x -> uw (x << (width - prec)) = mag x mod 2 ^ prec * 2 ^ (width - prec).
Proof.
  intros Hx. format_facts. unfold uw. rewrite Z.shiftl_mul_pow2 by lia. pose proof pow_prec_pos.
  rewrite (pow_split prec (width - prec) width) by lia. assert (0 < 2 ^ (width - prec)) by (apply pow_pos; lia).
  rewrite Z.mul_mod_distr_r, mantissa_mag by lia. done.
Qed.

(** The leading bit of a subnormal number *)
Lemma lead_subnormal x e : 0 <= x < 2 ^ width -> 0 < mag x < 2 ^ prec ->
  exists k, 0 <= k < prec /\ lead (Z.to_nat prec) (uw (x << (width - prec))) e = e - k /\
  2 ^ prec <= mag x * 2 ^ (k + 1) < 2 * 2 ^ prec.
Proof.
  intros Hx Hm. format_facts. pose proof pow_width. pose proof pow_prec_pos.
  assert (E : uw (x << (width - prec)) = mag x * 2 ^ (width - prec)) by (rewrite mantissa_top, Z.mod_small; lia).
  rewrite E. assert (0 < 2 ^ (width - prec)) by (apply pow_pos; lia). assert (2 ^ width = 2 ^ prec * 2 ^ (width - prec)) by (apply pow_split; lia).
  destruct (lead_spec (Z.to_nat prec) (mag x * 2 ^ (width - prec)) e) as (k & Hk & -> & B); [nia|rewrite Z2Nat.id by lia; nia|].
  assert (0 < 2 ^ k) by (apply pow_pos; lia).
  assert (B' : 2 ^ prec <= mag x * (2 * 2 ^ k) < 2 * 2 ^ prec) by nia.
  exists k. rewrite (pow_split 1 k (k + 1)) by lia. change (2 ^ 1) with 2. split; [|split; [done|lia]]. split; [lia|].
  apply (Z.pow_lt_mono_r_iff 2); nia.
Qed.

Lemma normalize_spec x : 0 <= x < 2 ^ width -> 0 < mag x < infinity ->
  exists u e, normalize x (exponent x) = (u, e) /\ 2 ^ prec <= u < 2 * 2 ^ prec /\ 1 - prec <= e < emax /\
  value x * 2 ^ prec = u * 2 ^ (e - 1 + prec).
Proof.
  intros Hx Hm. format_facts. pose proof pow_width. pose proof pow_prec_pos. pose proof emax_bias.
  pose proof (exponent_finite x ltac:(lia)) as Hf. rewrite (proj2 (Z.ltb_lt _ _)) in Hf by lia. apply Z.eqb_neq in Hf.
  destruct (mag_parts x ltac:(lia)) as (E & Hr & He & ->). unfold normalize. destruct (Z.eqb_spec (exponent x) 0) as [E0|E0].
  - rewrite E0 in *. destruct (lead_subnormal x 0 Hx) as (k & Hk & -> & B); [lia|].
    eexists _, _. split; [done|]. replace (- (0 - k) + 1) with (k + 1) by lia.
    assert (Eu : uw (x << (k + 1)) = mag x * 2 ^ (k + 1)).
    { destruct (sign_mag x Hx) as [Es _]. rewrite Z.shiftl_mul_pow2 by lia. rewrite Es at 1. unfold uw.
      replace ((sign x * 2 ^ (width - 1) + mag x) * 2 ^ (k + 1)) with (mag x * 2 ^ (k + 1) + sign x * 2 ^ k * 2 ^ width).
      - rewrite Z.mod_add by lia. apply Z.mod_small. rewrite (pow_split (prec + 1) (width - prec - 1) width), (pow_split prec 1 (prec + 1)) by lia.
        change (2 ^ 1) with 2. assert (0 < 2 ^ (width - prec - 1)) by (apply pow_pos; lia). nia.
      - rewrite pow_width, (pow_split 1 k (k + 1)) by lia. change (2 ^ 1) with 2. ring. }
    rewrite Eu. split; [done|]. split; [lia|]. rewrite <- Z.mul_assoc, <- Z.pow_add_r by lia.
    replace (k + 1 + (0 - k - 1 + prec)) with prec by lia. replace (mag x mod 2 ^ prec) with (mag x) by lia. done.
  - eexists _, _. split; [done|]. unfold mantissa_mask. rewrite land_mask, mantissa_mag by lia.
    rewrite Z.shiftl_mul_pow2, lor_add by lia. split; [lia|]. split; [lia|].
    rewrite (pow_split (exponent x - 1) prec (exponent x - 1 + prec)) by lia. lia.
Qed.

Lemma subtract_spec u v : 0 < u < 2 * v -> 2 * v <= 2 ^ (width - 1) ->
  match subtract u v with None => u = v | Some r => r = u mod v /\ 0 < r < v end.
Proof.
  intros Hu Hv. pose proof pow_width. unfold subtract. destruct (Z.lt_trichotomy u v) as [L|[->|L]].
  - assert (E : uw (u - v) = u - v + 2 ^ width) by (symmetry; apply (Z.mod_unique _ _ (-1)); lia).
    rewrite E, top_clear by lia. rewrite (proj2 (Z.ltb_ge _ _)) by lia. rewrite Z.mod_small; lia.
  - rewrite Z.sub_diag, uw_small, top_clear by lia. rewrite (proj2 (Z.ltb_lt _ _)) by lia. done.
  - rewrite uw_small, top_clear by lia. rewrite (proj2 (Z.ltb_lt _ _)) by lia. rewrite (proj2 (Z.eqb_neq _ _)) by lia.
    split; [|lia]. apply (Z.mod_unique _ _ 1); lia.
Qed.

Lemma mod_loop_spec fuel : forall u ex v ey, fuel = Z.to_nat (ex - ey) -> ey <= ex -> 0 < u < 2 * v -> 2 * v <= 2 ^ (width - 1) ->
  match mod_loop fuel u ex v ey with
  | None => (u * 2 ^ (ex - ey)) mod v = 0
  | Some (r, e) => e = ey /\ 0 < r < 2 * v /\ r mod v = (u * 2 ^ (ex - ey)) mod v
  end.
Proof.
  pose proof pow_width. induction fuel as [|fuel IH]; intros u ex v ey Hf He Hu Hv; simpl.
  { replace (ex - ey) with 0 by lia. rewrite Z.mul_1_r. lia. }
  destruct (Z.gtb_spec ex ey); [|lia]. rewrite (pow_split 1 (ex - 1 - ey) (ex - ey)) by lia. change (2 ^ 1) with 2.
  pose proof (subtract_spec u v Hu Hv) as S. destruct (subtract u v) as [r|]; simpl.
  - destruct S as [Er Hr]. rewrite shiftl1 by lia. specialize (IH (2 * r) (ex - 1) v ey ltac:(lia) ltac:(lia) ltac:(lia) Hv).
    assert (M : (2 * r * 2 ^ (ex - 1 - ey)) mod v = (u * (2 * 2 ^ (ex - 1 - ey))) mod v).
    { rewrite Er. rewrite <- (Z.mul_mod_idemp_l u) by lia. f_equal. ring. }
    rewrite <- M. exact IH.
  - subst u. rewrite Z.mul_comm. apply Z.mod_mul. lia.
Qed.

Lemma renormalize_spec fuel : forall r e, 0 < r < 2 * 2 ^ prec -> 2 ^ prec <= r * 2 ^ Z.of_nat fuel ->
  exists k, 0 <= k /\ renormalize fuel r e = (r * 2 ^ k, e - k) /\ 2 ^ prec <= r * 2 ^ k < 2 * 2 ^ prec.
Proof.
  format_facts. induction fuel as [|fuel IH]; intros r e Hr Hf; simpl.
  { exists 0. change (2 ^ Z.of_nat 0) with 1 in Hf. change (2 ^ 0) with 1. rewrite Z.mul_1_r. split; [lia|]. split; [f_equal; lia|lia]. }
  rewrite shiftr_prec by lia. destruct (Z.ltb_spec r (2 ^ prec)).
  - assert (2 * 2 ^ prec < 2 ^ width).
    { rewrite (pow_split (prec + 2) (width - prec - 2) width), (pow_split prec 2 (prec + 2)) by lia. change (2 ^ 2) with 4.
      assert (0 < 2 ^ (width - prec - 2)) by (apply pow_pos; lia). pose proof pow_prec_pos. nia. }
    rewrite shiftl1 by lia. destruct (IH (2 * r) (e - 1)) as (k & Hk & -> & B); [lia| |].
    { rewrite (pow_split 1 (Z.of_nat fuel) (Z.of_nat (S fuel))) in Hf by lia. change (2 ^ 1) with 2 in Hf. lia. }
    exists (k + 1). rewrite (pow_split k 1 (k + 1)) by lia. change (2 ^ 1) with 2. split; [lia|]. split; [f_equal; lia|lia].
  - exists 0. change (2 ^ 0) with 1. rewrite Z.mul_1_r. split; [lia|]. split; [f_equal; lia|lia].
Qed.

Lemma mag_id z : 0 <= z < 2 ^ (width - 1) -> mag z = z.
Proof. apply Z.mod_small. Qed.

Lemma scale_spec u e v : 2 ^ prec <= u < 2 * 2 ^ prec -> e < emax -> 
  (if 0 <? e then v = u * 2 ^ (e - 1) else u = v * 2 ^ (1 - e)) ->
  0 <= scale u e < infinity /\ value (scale u e) = v.
Proof.
  intros Hu He Hv. pose proof prec_pos. pose proof pow_prec_pos. pose proof pow_mag. pose proof pow_width. pose proof emax_bias.
  unfold scale, value, infinity. rewrite Z.gtb_ltb. destruct (Z.ltb_spec 0 e).
  - assert (Es : uw (u - (1 << prec)) .| uw (e << prec) = (u - 2 ^ prec) + e * 2 ^ prec).
    { rewrite !Z.shiftl_mul_pow2, Z.mul_1_l by lia. rewrite !uw_small by nia. apply lor_add; lia. }
    rewrite Es. split; [nia|]. rewrite mag_id by nia. rewrite Z.div_add, Z.mod_add by lia.
    rewrite Z.div_small, Z.mod_small by lia. rewrite Z.add_0_l, Z.sub_add. destruct (Z.eqb_spec e 0); [lia|done].
  - rewrite Z.shiftr_div_pow2 by lia. replace (- e + 1) with (1 - e) by lia. assert (0 < 2 ^ (1 - e)) by (apply pow_pos; lia).
    rewrite Hv, Z.div_mul by lia. assert (2 <= 2 ^ (1 - e)).
    { rewrite (pow_split 1 (- e) (1 - e)) by lia. change (2 ^ 1) with 2. assert (0 < 2 ^ (- e)) by (apply pow_pos; lia). lia. }
    assert (0 <= v < 2 ^ prec) by nia. split; [nia|]. rewrite mag_id by nia. rewrite Z.div_small, Z.mod_small by lia. done.
Qed.
(** The remainder of the values is that of the mantissas, scaled. *)
Lemma mod_scaled X Y u v ex ey : 1 - prec <= ey <= ex -> 0 < v -> 0 < Y ->
  X * 2 ^ prec = u * 2 ^ (ex - 1 + prec) -> Y * 2 ^ prec = v * 2 ^ (ey - 1 + prec) ->
  (X mod Y) * 2 ^ prec = ((u * 2 ^ (ex - ey)) mod v) * 2 ^ (ey - 1 + prec).
Proof.
  intros He Hv HY EX EY. pose proof prec_pos. pose proof pow_prec_pos. assert (0 < 2 ^ (ey - 1 + prec)) by (apply pow_pos; lia).
  rewrite <- !Z.mul_mod_distr_r by lia. rewrite EX, EY. rewrite (pow_split (ex - ey) (ey - 1 + prec) (ex - 1 + prec)) by lia. f_equal. ring.
Qed.

(** The remainder after scaling back *)
Lemma scale_exact R r k ey : 0 <= k -> 1 - prec <= ey -> R * 2 ^ prec = r * 2 ^ (ey - 1 + prec) ->
  if 0 <? ey - k then R = r * 2 ^ k * 2 ^ (ey - k - 1) else r * 2 ^ k = R * 2 ^ (1 - (ey - k)).
Proof.
  intros Hk He E. pose proof prec_pos. pose proof pow_prec_pos. assert (0 < 2 ^ k) by (apply pow_pos; lia). destruct (Z.ltb_spec 0 (ey - k)).
  - rewrite <- Z.mul_assoc, <- Z.pow_add_r by lia. replace (k + (ey - k - 1)) with (ey - 1) by lia.
    rewrite (pow_split (ey - 1) prec (ey - 1 + prec)) in E by lia. nia.
  - destruct (Z.le_gt_cases ey 1).
    + rewrite (pow_split (1 - ey) (ey - 1 + prec) prec) in E by lia. assert (0 < 2 ^ (ey - 1 + prec)) by (apply pow_pos; lia).
      rewrite (pow_split (1 - ey) k (1 - (ey - k))) by lia. assert (r = R * 2 ^ (1 - ey)) by nia. subst r. ring.
    + rewrite (pow_split (ey - 1) prec (ey - 1 + prec)) in E by lia. assert (R = r * 2 ^ (ey - 1)) by nia. subst R.
      rewrite (pow_split (ey - 1) (1 - (ey - k)) k) by lia. ring.
Qed.

(** A zero with the sign of [x] *)
Lemma zero_remainder x y : 0 <= x < 2 ^ width -> mag x < infinity -> 0 < mag y < infinity -> value x mod value y = 0 ->
  is_remainder x y (Some (zero_like x)).
Proof.
  intros Hx Hf Hy E. destruct (zero_like_spec x Hx) as (B & Hs & Hm). split; [done|]. split; [lia|]. rewrite Hm.
  split_and!; try lia. rewrite (proj2 (Z.eqb_neq _ _)), E by lia. apply value_zero. done.
Qed.

(** The larger number has the larger exponent. *)
Lemma exponents X Y u v ex ey : 1 - prec <= ex -> 1 - prec <= ey -> Y < X -> 2 ^ prec <= u < 2 * 2 ^ prec -> 2 ^ prec <= v < 2 * 2 ^ prec ->
  X * 2 ^ prec = u * 2 ^ (ex - 1 + prec) -> Y * 2 ^ prec = v * 2 ^ (ey - 1 + prec) -> ey <= ex.
Proof.
  intros Hex Hey L Hu Hv EX EY. pose proof prec_pos. destruct (Z.le_gt_cases ey ex) as [|G]; [done|exfalso]. pose proof pow_prec_pos.
  rewrite (pow_split (ey - ex) (ex - 1 + prec) (ey - 1 + prec)), (pow_split 1 (ey - ex - 1) (ey - ex)) in EY by lia. change (2 ^ 1) with 2 in EY.
  assert (0 < 2 ^ (ex - 1 + prec)) by (apply pow_pos; lia). assert (0 < 2 ^ (ey - ex - 1)) by (apply pow_pos; lia).
  set (A := 2 ^ (ex - 1 + prec)) in *. set (B := 2 ^ (ey - ex - 1)) in *. set (P := 2 ^ prec) in *.
  assert (u * A < 2 * P * A) by (apply Z.mul_lt_mono_pos_r; lia). assert (P * A <= v * B * A) by (apply Z.mul_le_mono_nonneg_r; nia). nia.
Qed.

Lemma divide_correct x y : 0 <= x < 2 ^ width -> 0 <= y < 2 ^ width -> 0 < mag y < mag x -> mag x < infinity ->
  is_remainder x y
    (let '(uxi, ex) := normalize x (exponent x) in
     let '(uyi, ey) := normalize y (exponent y) in
     match (r ← mod_loop (Z.to_nat (ex - ey)) uxi ex uyi ey; let '(uxi, ex) := r in
            uxi ← subtract uxi uyi; Some (uxi, ex)) with
     | None => Some (zero_like x)
     | Some (uxi, ex) =>
         let '(uxi, ex) := renormalize (Z.to_nat prec) uxi ex in
         Some (scale uxi ex .| (sign x << (width - 1)))
     end).
Proof.
  intros Hx Hy Hm Hf. format_facts. pose proof pow_prec_pos.
  destruct (normalize_spec x Hx) as (u & ex & -> & Hu & Hex & EX); [lia|]. destruct (normalize_spec y Hy) as (v & ey & -> & Hv & Hey & EY); [lia|].
  assert (L : value y < value x) by (apply value_lt; lia). assert (0 < value y) by (rewrite <- (value_zero 0 eq_refl); apply value_lt; [lia|lia|]; change (mag 0) with (0 mod 2 ^ (width - 1)); rewrite Z.mod_0_l; [lia|]; apply Z.pow_nonzero; lia).
  assert (He : ey <= ex) by (exact (exponents _ _ u v ex ey (proj1 Hex) (proj1 Hey) L Hu Hv EX EY)).
  assert (Hw : 2 * v <= 2 ^ (width - 1)).
  { rewrite (pow_split (prec + 2) (width - prec - 3) (width - 1)), (pow_split prec 2 (prec + 2)) by lia. change (2 ^ 2) with 4.
    assert (0 < 2 ^ (width - prec - 3)) by (apply pow_pos; lia). nia. }
  assert (EM : (value x mod value y) * 2 ^ prec = ((u * 2 ^ (ex - ey)) mod v) * 2 ^ (ey - 1 + prec)) by (apply mod_scaled; lia).
  assert (Hu' : 0 < u < 2 * v) by lia. pose proof (mod_loop_spec _ u ex v ey eq_refl He Hu' Hw) as ML.
  assert (Z0 : (u * 2 ^ (ex - ey)) mod v = 0 -> is_remainder x y (Some (zero_like x))).
  { intros E. apply zero_remainder; [done|lia|lia|]. rewrite E in EM. nia. }
  destruct (mod_loop _ _ _ _ _) as [[r e]|]; simpl; [|exact (Z0 ML)]. destruct ML as (-> & Hr & EMr). rewrite <- EMr in *.
  pose proof (subtract_spec r v Hr Hw) as S. destruct (subtract r v) as [r'|]; simpl.
  2: { apply Z0. subst r. apply Z.mod_same. lia. }
  destruct S as [Er Hr']. rewrite <- Er in EM. destruct (renormalize_spec (Z.to_nat prec) r' ey) as (k & Hk & -> & B); [lia|rewrite Z2Nat.id by lia; nia|].
  pose proof (scale_exact _ r' k ey Hk (proj1 Hey) EM) as SE.
  destruct (scale_spec (r' * 2 ^ k) (ey - k) (value x mod value y) B ltac:(lia) SE) as [Bs Vs].
  destruct (sign_mag x Hx) as [_ Hs]. pose proof pow_mag. pose proof emax_bias. unfold infinity in *.
  destruct (with_sign (sign x) (scale (r' * 2 ^ k) (ey - k)) Hs) as (Bw & Sw & Mw); [nia|].
  split_and!; unfold infinity; try lia. rewrite (proj2 (Z.eqb_neq _ _)) by lia. rewrite <- Vs. apply value_ext. rewrite Mw, mag_id by nia. done.
Qed.

Lemma fmod_bits_correct x y : 0 <= x < 2 ^ width -> 0 <= y < 2 ^ width -> is_remainder x y (fmod_bits x y).
Proof.
  intros Hx Hy. unfold fmod_bits. rewrite !mag_shift, isnan_mag, exponent_finite by lia.
  pose proof (mag_range x). pose proof (mag_range y).
  destruct (Z.eqb_spec (2 * mag y) 0); simpl; [right; left; lia|].
  destruct (Z.ltb_spec infinity (mag y)); simpl; [right; right; lia|].
  destruct (Z.ltb_spec (mag x) infinity); simpl; [|left; lia].
  destruct (Z.leb_spec (2 * mag x) (2 * mag y)); [|apply divide_correct; lia].
  destruct (Z.eqb_spec (2 * mag x) (2 * mag y)) as [E|E].
  - apply zero_remainder; [done|lia|lia|]. rewrite (value_ext x y) by lia. apply Z_mod_same_full.
  - split_and!; try lia. destruct (Z.eqb_spec (mag y) infinity); [done|]. symmetry. apply Z.mod_small.
    split; [apply value_nonneg|apply value_lt; lia].
Qed.
(** ** [trunc] *)

Lemma parts s u : (s = 0 \/ s = 1) -> 0 <= u < 2 ^ (width - 1) ->
  let r := s * 2 ^ (width - 1) + u in 0 <= r < 2 ^ width /\ sign r = s /\ mag r = u.
Proof.
  intros Hs Hu. format_facts. pose proof (with_sign s u Hs Hu) as W. cbv zeta in *.
  rewrite Z.shiftl_mul_pow2, lor_add in W by lia. rewrite Z.add_comm. done.
Qed.

(** Clearing low bits *)
Lemma clear_low x k : 0 <= x < 2 ^ width -> 0 <= k -> x & uw (Z.lnot (2 ^ k - 1)) = x / 2 ^ k * 2 ^ k.
Proof.
  intros Hx Hk. format_facts. unfold uw. rewrite <- (land_mask (Z.lnot _)), (Z.land_comm (Z.lnot _)), Z.land_assoc, land_mask, (Z.mod_small x) by lia.
  rewrite <- Z.ldiff_land. replace (2 ^ k - 1) with (Z.ones k) by (rewrite Z.ones_equiv; lia).
  rewrite Z.ldiff_ones_r, Z.shiftl_mul_pow2, Z.shiftr_div_pow2 by lia. done.
Qed.

Lemma trunc_clear x k : 0 <= x < 2 ^ width -> 0 <= k < width ->
  let r := x / 2 ^ k * 2 ^ k in 0 <= r < 2 ^ width /\ sign r = sign x /\ mag r = mag x / 2 ^ k * 2 ^ k.
Proof.
  intros Hx Hk. destruct (sign_mag x Hx) as [E Hs]. pose proof (mag_range x). assert (0 < 2 ^ k) by (apply pow_pos; lia). cbv zeta.
  assert (Er : x / 2 ^ k * 2 ^ k = sign x * 2 ^ (width - 1) + mag x / 2 ^ k * 2 ^ k).
  { rewrite E at 1. rewrite (pow_split (width - 1 - k) k (width - 1)) by lia. rewrite Z.mul_assoc, Z.div_add_l by lia. ring. }
  rewrite Er. apply parts; [done|]. pose proof (Z.mul_div_le (mag x) (2 ^ k) ltac:(lia)). pose proof (Z.div_pos (mag x) (2 ^ k)). nia.
Qed.

Lemma trunc_bits_eq x : 0 <= x < 2 ^ width ->
  trunc_bits x = if bias + prec <=? exponent x then x else x / 2 ^ fraction x * 2 ^ fraction x.
Proof.
  intros Hx. format_facts. unfold trunc_bits, fraction. rewrite Z.geb_leb.
  destruct (Z.leb_spec (prec + (width - prec)) (exponent x - bias + (width - prec))), (Z.leb_spec (bias + prec) (exponent x)); try lia.
  set (e := if _ <? width - prec then 1 else _). set (k := if _ <? bias then _ else _).
  assert (Ek : e = width - k /\ 0 < k < width).
  { subst e k. destruct (Z.ltb_spec (exponent x - bias + (width - prec)) (width - prec)), (Z.ltb_spec (exponent x) bias); lia. }
  assert (Em : (2 ^ width - 1) >> e = 2 ^ k - 1).
  { rewrite Z.shiftr_div_pow2 by lia. assert (0 < 2 ^ e) by (apply pow_pos; lia). rewrite (pow_split k e width) by lia.
    symmetry. apply (Z.div_unique_pos _ _ _ (2 ^ e - 1)); lia. }
  rewrite Em, land_mask, clear_low by lia. destruct (Z.eqb_spec (x mod 2 ^ k) 0) as [Z0|]; [|done].
  pose proof (Z_div_mod_eq_full x (2 ^ k)). lia.
Qed.

(** Below 1 *)
Lemma value_below_one x : 0 <= x -> exponent x < bias -> value x < one.
Proof.
  intros Hx He. pose proof prec_pos. pose proof pow_prec_pos. pose proof emax_bias. pose proof pow_mag. destruct (mag_parts x Hx) as (E & Hm & HE0 & _).
  assert (M : mag (bias * 2 ^ prec) = bias * 2 ^ prec) by (apply mag_id; nia).
  assert (V : value (bias * 2 ^ prec) = one).
  { unfold value, one. rewrite M, Z.div_mul, Z.mod_mul by lia. rewrite (proj2 (Z.eqb_neq _ _)), (pow_split (bias - 1) prec (bias - 1 + prec)) by lia. lia. }
  rewrite <- V. apply value_lt; [lia|nia|]. rewrite M. nia.
Qed.

Lemma trunc_bits_correct x : 0 <= x < 2 ^ width -> is_trunc x (trunc_bits x).
Proof.
  intros Hx. unfold is_trunc. rewrite trunc_bits_eq by done. format_facts. pose proof pow_prec_pos. pose proof emax_bias. pose proof pow_mag.
  pose proof prec_bias as Hb. fold bias in Hb. assert (0 < one) by (apply pow_pos; lia).
  pose proof (exponent_finite x ltac:(lia)) as Hf. destruct (mag_parts x ltac:(lia)) as (E & Hm & He & V).
  destruct (Z.leb_spec (bias + prec) (exponent x)) as [G|G].
  - split; [done|]. split; [done|]. destruct (Z.ltb_spec (mag x) infinity); [|done]. split; [done|].
    rewrite V. destruct (Z.eqb_spec (exponent x) 0); [lia|]. unfold one.
    rewrite (pow_split (exponent x - bias - prec) (bias - 1 + prec) (exponent x - 1)) by lia. rewrite Z.mul_assoc, Z.div_mul by (apply Z.pow_nonzero; lia). done.
  - assert (F0 : 0 <= fraction x < width) by (unfold fraction; destruct (Z.ltb_spec (exponent x) bias); lia).
    destruct (trunc_clear x (fraction x) Hx F0) as (B & S & M). split; [done|]. split; [done|].
    assert (2 ^ (width - 2 - prec) - 1 = bias) by done.
    destruct (Z.ltb_spec (mag x) infinity); simpl in Hf; [|apply Z.eqb_eq in Hf; lia].
    assert (0 < 2 ^ fraction x) by (apply pow_pos; lia). assert (mag x / 2 ^ fraction x * 2 ^ fraction x <= mag x) by (rewrite Z.mul_comm; apply Z.mul_div_le; lia). split; [lia|].
    unfold fraction in *. destruct (Z.ltb_spec (exponent x) bias) as [L|L].
    + rewrite value_zero, Z.div_small; [done| |].
      * split; [apply value_nonneg|apply value_below_one; lia].
      * rewrite M, Z.div_small; [done|]. apply mag_range.
    + set (k := prec - (exponent x - bias)) in *. destruct (Z.eqb_spec (exponent x) 0); [lia|].
      assert (EP : 2 ^ prec = 2 ^ (prec - k) * 2 ^ k) by (apply pow_split; lia).
      assert (E1 : one = 2 ^ k * 2 ^ (exponent x - 1)) by (apply pow_split; lia).
      set (m := mag x mod 2 ^ prec) in *. assert (0 < 2 ^ (exponent x - 1)) by (apply pow_pos; lia).
      assert (Mk : mag x / 2 ^ k * 2 ^ k = m / 2 ^ k * 2 ^ k + exponent x * 2 ^ prec).
      { rewrite E, EP. rewrite Z.mul_assoc, Z.div_add_l by lia. ring. }
      pose proof (Z.mul_div_le m (2 ^ k) ltac:(lia)). pose proof (Z.div_pos m (2 ^ k) ltac:(lia) ltac:(lia)).
      rewrite V, E1, Z.div_mul_cancel_r by lia. unfold value. rewrite M, Mk, Z.div_add, Z.mod_add, Z.div_small, Z.mod_small by nia.
      rewrite Z.add_0_l, (proj2 (Z.eqb_neq _ _)) by lia. rewrite EP, Z.div_add by lia. ring.
Qed.
(** ** [nextafter] *)

Lemma rank_real x y : 0 <= x < 2 ^ width -> 0 <= y < 2 ^ width -> rank x < rank y <-> real x < real y.
Proof.
  intros Hx Hy. unfold rank, real. pose proof (mag_range x). pose proof (mag_range y).
  assert (P : forall z, 0 <= z -> 0 < mag z -> 0 < value z).
  { intros z Hz Hm. rewrite <- (value_zero 0); [apply value_lt; [lia|lia|]|]; rewrite ?(mag_id 0); lia. }
  pose proof (P x). pose proof (P y). pose proof (value_zero x). pose proof (value_zero y). pose proof (value_nonneg x). pose proof (value_nonneg y).
  pose proof (value_lt x y). pose proof (value_lt y x). pose proof (value_ext x y).
  destruct (Z.eqb_spec (sign x) 0), (Z.eqb_spec (sign y) 0); lia.
Qed.

(** One step of the ranks is one step of the numbers. *)
Lemma next_of_rank x y r : 0 <= x < 2 ^ width -> 0 <= y < 2 ^ width -> 0 <= r < 2 ^ width -> mag x <= infinity -> mag y <= infinity ->
  (rank x = rank y -> r = y) -> rank r = rank x + Z.sgn (rank y - rank x) -> is_next x y (Some r).
Proof.
  intros Hx Hy Hr Nx Ny E R. pose proof (rank_real x y Hx Hy). pose proof (rank_real y x Hy Hx).
  pose proof (rank_real x r Hx Hr). pose proof (rank_real r x Hr Hx). pose proof (rank_real y r Hy Hr). pose proof (rank_real r y Hr Hy).
  split; [done|]. split; [done|]. split; [done|]. split; [intros; apply E; lia|]. split; intros L.
  - split; [lia|]. intros z Hz Lz. pose proof (rank_real x z Hx Hz). pose proof (rank_real z r Hz Hr). lia.
  - split; [lia|]. intros z Hz Lz. pose proof (rank_real z x Hz Hx). pose proof (rank_real r z Hr Hz). lia.
Qed.

Lemma land_sign x : 0 <= x < 2 ^ width -> x & sign_bit = sign x * 2 ^ (width - 1).
Proof.
  intros Hx. format_facts. unfold sign_bit, sign. rewrite <- Z.shiftl_mul_pow2 by lia. apply Z.bits_inj'. intros i Hi.
  rewrite Z.land_spec, Z.shiftl_mul_pow2, Z.mul_1_l, Z.pow2_bits_eqb, Z.shiftl_spec by lia. destruct (Z.eqb_spec (width - 1) i) as [<-|].
  - rewrite andb_true_r, Z.shiftr_spec by lia. f_equal. lia.
  - rewrite andb_false_r. destruct (Z.le_gt_cases width i).
    + rewrite Z.shiftr_spec by lia. symmetry. apply (testbit_above width); lia.
    + rewrite Z.testbit_neg_r by lia. done.
Qed.

Lemma sign_differs x y : 0 <= x < 2 ^ width -> 0 <= y < 2 ^ width -> negb (((x ^^ y) & sign_bit) =? 0) = negb (sign x =? sign y).
Proof.
  intros Hx Hy. format_facts. rewrite land_sign by (apply lxor_range; lia). assert (0 < 2 ^ (width - 1)) by (apply pow_pos; lia).
  assert (E : sign (x ^^ y) = sign x ^^ sign y) by apply Z.shiftr_lxor. rewrite E.
  destruct (sign_mag x Hx) as [_ [-> | ->]], (sign_mag y Hy) as [_ [-> | ->]]; try done;
    (change (0 ^^ 1) with 1 || change (1 ^^ 0) with 1); rewrite (proj2 (Z.eqb_neq (1 * _) _)) by lia; done.
Qed.

Lemma nextafter_bits_correct x y : 0 <= x < 2 ^ width -> 0 <= y < 2 ^ width -> is_next x y (nextafter_bits x y).
Proof.
  intros Hx Hy. format_facts. unfold nextafter_bits. rewrite !isnan_mag, sign_differs by lia. unfold abs_mask. rewrite !land_mask by lia. fold (mag x) (mag y).
  destruct (Z.ltb_spec infinity (mag x)); simpl; [left; done|]. destruct (Z.ltb_spec infinity (mag y)); simpl; [right; done|].
  destruct (sign_mag x Hx) as [Ex Sx], (sign_mag y Hy) as [Ey Sy]. pose proof (mag_range x). pose proof (mag_range y). pose proof emax_bias. pose proof pow_mag. pose proof pow_prec_pos.
  assert (infinity + 1 < 2 ^ (width - 1)).
  { unfold infinity. assert (2 <= 2 ^ prec); [|lia]. rewrite (pow_split 1 (prec - 1) prec) by lia. change (2 ^ 1) with 2. assert (0 < 2 ^ (prec - 1)) by (apply pow_pos; lia). lia. }
  destruct (Z.eqb_spec x y) as [<-|N]. { apply next_of_rank; try done. lia. }
  assert (step : forall s u, (s = 0 \/ s = 1) -> 0 <= u < 2 ^ (width - 1) -> (rank x = rank y -> False) ->
    (if s =? 0 then u else - u) = rank x + Z.sgn (rank y - rank x) -> forall r, r = s * 2 ^ (width - 1) + u -> is_next x y (Some r)).
  { intros s u Hs Hu NE R r ->. destruct (parts s u Hs Hu) as (B & S & M). apply next_of_rank; try done. unfold rank at 1. rewrite S, M. done. }
  destruct (Z.eqb_spec (mag x) 0) as [X0|X0].
  { destruct (Z.eqb_spec (mag y) 0) as [Y0|Y0].
    - apply next_of_rank; try done. unfold rank. rewrite X0, Y0. repeat case_match; done.
    - apply (step (sign y) 1); [done|lia| | |].
      + unfold rank. rewrite X0. repeat case_match; lia.
      + unfold rank. rewrite X0. repeat case_match; lia.
      + rewrite land_sign by lia. rewrite Z.lor_comm, lor_add by lia. lia. }
  rewrite Z.gtb_ltb. destruct (Z.ltb_spec (mag y) (mag x)) as [L|L]; simpl; [|destruct (Z.eqb_spec (sign x) (sign y)) as [Es|Es]; simpl].
  1,3: apply (step (sign x) (mag x - 1)); [done|lia| | |rewrite uw_small; lia]; unfold rank;
    destruct (Z.eqb_spec (sign x) 0), (Z.eqb_spec (sign y) 0); lia.
  pose proof pow_width. assert (mag x < mag y) by nia. apply (step (sign x) (mag x + 1)); [done|lia| | |rewrite uw_small; lia]; unfold rank; rewrite Es; destruct (Z.eqb_spec (sign y) 0); lia.
Qed.

(** ** [ilogb] *)

Lemma ilogb_bits_correct x : 0 <= x < 2 ^ width -> is_log x (ilogb_bits x).
Proof.
  intros Hx. format_facts. pose proof pow_prec_pos. pose proof emax_bias. unfold ilogb_bits, is_log. rewrite mantissa_top by lia.
  assert (0 < 2 ^ (width - prec)) by (apply pow_pos; lia). pose proof (exponent_finite x ltac:(lia)) as Hf.
  destruct (mag_parts x ltac:(lia)) as (E & Hm & He & V). set (m := mag x mod 2 ^ prec) in *. pose proof (mag_range x). unfold infinity in *.
  assert (I0 : (m * 2 ^ (width - prec) =? 0) = (m =? 0)) by (destruct (Z.eqb_spec (m * 2 ^ (width - prec)) 0), (Z.eqb_spec m 0); nia).
  rewrite I0. destruct (Z.eqb_spec (exponent x) 0) as [E0|E0].
  - destruct (Z.eqb_spec m 0) as [M0|M0]; [rewrite (proj2 (Z.eqb_eq _ _)) by lia; done|].
    rewrite !(proj2 (Z.eqb_neq _ _)), (proj2 (Z.ltb_ge _ _)) by nia. subst m. rewrite <- mantissa_top by lia.
    destruct (lead_subnormal x (- bias) Hx) as (k & Hk & -> & B); [lia|]. split; [lia|]. rewrite V.
    rewrite (pow_split (prec - 1 - k) (k + 1) prec) in B by lia. assert (0 < 2 ^ (k + 1)) by (apply pow_pos; lia).
    replace (- bias - k + (bias - 1 + prec)) with (prec - 1 - k) by lia. replace (- bias - k + 1 + (bias - 1 + prec)) with (1 + (prec - 1 - k)) by lia.
    rewrite (pow_split 1 (prec - 1 - k) (1 + (prec - 1 - k))) by lia. change (2 ^ 1) with 2. replace (mag x mod 2 ^ prec) with (mag x) by lia. nia.
  - rewrite (proj2 (Z.eqb_neq (mag x) 0)) by nia. rewrite Hf. destruct (Z.ltb_spec (mag x) (emax * 2 ^ prec)) as [F1|F1]; simpl.
    + rewrite (proj2 (Z.eqb_neq _ _)), (proj2 (Z.ltb_ge _ _)) by lia. rewrite V. replace (exponent x - bias + (bias - 1 + prec)) with (prec + (exponent x - 1)) by lia.
      replace (exponent x - bias + 1 + (bias - 1 + prec)) with (1 + (prec + (exponent x - 1))) by lia. rewrite !Z.pow_add_r by lia. change (2 ^ 1) with 2.
      assert (0 < 2 ^ (exponent x - 1)) by (apply pow_pos; lia). split; [lia|]. nia.
    + simpl in Hf. apply Z.eqb_eq in Hf. rewrite Hf in E. destruct (Z.eqb_spec m 0), (Z.eqb_spec (mag x) (emax * 2 ^ prec)); simpl; try lia.
      rewrite (proj2 (Z.ltb_lt _ _)) by lia. done.
Qed.
End bits.

(** ** The functions for [double] and [float] *)

(** C18: fmod and fmodf return the exact remainder: for a finite first and a finite nonzero second argument the result is the finite number with the sign of the first whose magnitude is the remainder of the magnitudes, with no rounding, subnormal numbers included; an infinite second argument gives the first argument back, and the result is a NaN only when an argument is one, the first is infinite or the second is zero. *)
Theorem fmod_correct x y :
  (0 <= x < 2 ^ 64 -> 0 <= y < 2 ^ 64 -> is_remainder (F := binary64) x y (fmod x y)) /\
  (0 <= x < 2 ^ 32 -> 0 <= y < 2 ^ 32 -> is_remainder (F := binary32) x y (fmodf x y)).
Proof. split; [exact (fmod_bits_correct (F := binary64) x y)|exact (fmod_bits_correct (F := binary32) x y)]. Qed.

(* 2^-1074 * 3 divides -1.5 * 2^1023 with a remainder *)
Lemma fmod_correct_witness : is_remainder (F := binary64) 0xffe8000000000000 3 (fmod 0xffe8000000000000 3).
Proof. refine (proj1 (fmod_correct 0xffe8000000000000 3) _ _); lia. Defined.

(** C28: nextafter and nextafterf return the number next to the first argument on the side of the second: no other number lies between them, across zero, at the change of the exponent and up to infinity; equal arguments give the second, and the result is a NaN only when an argument is one. *)
Theorem nextafter_correct x y :
  (0 <= x < 2 ^ 64 -> 0 <= y < 2 ^ 64 -> is_next (F := binary64) x y (nextafter x y)) /\
  (0 <= x < 2 ^ 32 -> 0 <= y < 2 ^ 32 -> is_next (F := binary32) x y (nextafterf x y)).
Proof. split; [exact (nextafter_bits_correct (F := binary64) x y)|exact (nextafter_bits_correct (F := binary32) x y)]. Qed.

Lemma nextafter_correct_witness : is_next (F := binary32) 0x80000000 1 (nextafterf 0x80000000 1).
Proof. refine (proj2 (nextafter_correct 0x80000000 1) _ _); lia. Defined.

(** trunc and truncf: the integer part with the sign of the number *)
Theorem trunc_correct x :
  (0 <= x < 2 ^ 64 -> is_trunc (F := binary64) x (trunc x)) /\ (0 <= x < 2 ^ 32 -> is_trunc (F := binary32) x (truncf x)).
Proof. split; [exact (trunc_bits_correct (F := binary64) x)|exact (trunc_bits_correct (F := binary32) x)]. Qed.

(** ilogb and ilogbf: the binary logarithm rounded down, and the constants for zero, infinity and NaN *)
Theorem ilogb_correct x :
  (0 <= x < 2 ^ 64 -> is_log (F := binary64) x (ilogb x)) /\ (0 <= x < 2 ^ 32 -> is_log (F := binary32) x (ilogbf x)).
Proof. split; [exact (ilogb_bits_correct (F := binary64) x)|exact (ilogb_bits_correct (F := binary32) x)]. Qed.

(** 7.5 and -7.5 modulo 2; a subnormal divisor; -7.5 cut to -7; the logarithm of the least positive number *)
Example fp_examples :
  fmod 0x401E000000000000 0x4000000000000000 = Some 0x3FF8000000000000 /\
  fmod 0xC01E000000000000 0x4000000000000000 = Some 0xBFF8000000000000 /\
  fmod 0x0010000000000001 3 = Some 2 /\ trunc 0xC01E000000000000 = 0xC01C000000000000 /\
  nextafter 0 0x8000000000000001 = Some 0x8000000000000001 /\ ilogb 1 = -1074 /\ ilogbf 1 = -149.
Proof. vm_compute. done. Qed.
